(* ===== verification/_CoqProject ===== *)
-Q . S2P
Prelude.v
Floats.v
FloatInt.v
FloatRound.v
Settings.v
Position.v
View.v
CoreState.v
PositionSource.v
Reducer.v
Errors.v
Replay.v
BootFilter.v
ServerAgent.v
Hotkeys.v
Tracker.v
Breeding.v
Clock.v
Wire.v
Latest.v
Framing.v
Protocol.v
Handshake.v
SettingsStore.v
IpcSession.v
ControlSession.v
Pipeline.v
Supervisor.v
Privacy.v
MapGeometry.v
PackFiles.v
MapManifest.v
PoiIndex.v
TileIndex.v
MapPack.v
Viewport.v
Culling.v
Snapshot.v
RenderCommands.v
OverlayVisual.v
LocalPosition.v
Placement.v
FloatCast.v
OverlayInput.v
OverlayHost.v
FrameBridge.v
SubPixel.v
FrameChannels.v
MapRaster.v
MapView.v
MapSurface.v
MapRuntime.v
InputCapture.v
FullscreenDock.v
FullscreenLoop.v
ControlClient.v
ControlLoop.v
ControlDocument.v
Orders.v
Canonical.v
CloudProfile.v
CloudPages.v
