(* ===== verification/Prelude.v ===== *)
(** * PalBeacon: a verification development

    PalBeacon is a game companion. An agent next to a game server reads the position of
    one player over the server's REST interface and publishes it over gRPC; on the
    player's machine a core process reduces positions, settings and window observations
    to a state, and an overlay draws the player on a map over the game. This library
    models the deterministic core of that system in Rocq and proves what makes it correct.
    It follows the Rust crates under [src/crates]; the names of definitions are those of
    the source wherever they do not clash.

    ** How the parts interact

    - agent side: REST observation -> [Privacy] -> [Pipeline] -> [Latest] (one cell, many
      subscribers) -> gRPC stream, whose messages [Wire] validates and whose subscribers
      keep [Latest.SequenceCursor]s and a [Clock];
    - core side: [ServerAgent] or [Replay] turn that stream or a recording into the
      events of the [PositionSource] contract, and [LocalPosition] feeds the channel of
      [ServerAgent] with positions read from the memory of the game; [Reducer] folds those
      events, [Settings], window observations ([Tracker]) and views ([View]) into a
      [CoreState]; [Errors] holds the texts and fields of the domain's errors;
    - control plane: clients talk to the core over a pipe. [Framing] cuts the byte
      stream into frames, [IpcSession] runs the loop, [Handshake] admits a client,
      [ControlSession] answers it out of the [SettingsStore] that all sessions share,
      and [Protocol] converts between domain values and messages. [ControlClient] is the
      overlay's end of the pipe, and [ControlLoop] composes it with the other one.
      [Supervisor] keeps the overlay process alive, [Hotkeys] owns its global shortcuts,
      [ControlDocument] is the settings file of the desktop process;
    - map: [PackFiles] reads the files of a map pack safely, [MapManifest], [TileIndex] and
      [PoiIndex] are its components and [MapPack] opens the whole; [MapGeometry] maps the
      world to the map;
    - drawing: [Viewport] and [Culling] choose what is visible, [Snapshot] assembles it from
      a core state and a pack, [RenderCommands] and [OverlayVisual] say how it looks. In the
      overlay process, [MapRuntime] polls a position source, [MapView] projects the player
      on a picture and [MapSurface] rasterizes it out of [MapRaster]s; [Placement] places the
      window, [OverlayInput] interprets clicks, [OverlayHost] shows and hides the window;
    - fullscreen: the overlay hands its frames to a consumer inside the game through
      shared memory ([FrameBridge], with [FrameChannels] for what goes back);
      [FullscreenLoop] is that consumer, [InputCapture] decides when it may take the game's
      input, [FullscreenDock] what its clicks and searches mean;
    - cloud: [Canonical] gives a save's snapshot its identity, [CloudProfile] the projection of
      a profile that is uploaded, and [CloudPages] cuts it into pages;
    - [Breeding] is the planner of the companion service, a part of its own.

    ** The files

    - [Prelude]: results and early returns, record update, machine integers with their
      saturating, checked and wrapping operations, bytes and strings, loops over slices,
      the tactics ([branches], [step_if], [reflect_bool], [int_lia]) and the hint
      database [pal];
    - [Floats]: [f32] and [f64] as the Standard Library's [spec_float]s, with rounding,
      comparison, [min]/[max]/[clamp], remainder and the lemmas on positive sums;
      [FloatInt], [FloatRound] and [FloatCast]: floats as scaled integers, correct
      rounding, casts and the fused product;
    - [Settings] (pal-domain/settings.rs), [Position] (position.rs and
      position_source_policy.rs), [View] (view.rs, window.rs), [CoreState] (lib.rs);
    - [PositionSource] (pal-state/position_source.rs): the contract as the class of
      sources and a protocol automaton; [Reducer] (reducer.rs); [Errors] (the
      error methods of pal-domain and pal-state); [Replay] (replay.rs); [BootFilter] and [ServerAgent]
      (server_agent.rs);
    - [Hotkeys] and [Tracker] (pal-windows/hotkeys.rs, tracker.rs, backend.rs);
    - [Breeding] (pal-companion-service/breeding.rs);
    - [Clock], [Wire], [Latest] (pal-telemetry/clock.rs, wire.rs, cursor.rs);
    - [Framing] (pal-protocol/framing.rs, pal-windows-ipc/framed_stream.rs), [Protocol]
      (pal-protocol/lib.rs), [Handshake] (handshake.rs and the local messages),
      [IpcSession] (session.rs);
    - [SettingsStore], [ControlSession], [Supervisor] (pal-core-win/settings_store.rs,
      control_session.rs with the adapter of ipc_runtime.rs, overlay_supervisor.rs);
    - [Pipeline] (pal-agent/pipeline.rs, health.rs, metrics.rs, poller.rs), [Privacy]
      (pal-rest/privacy.rs);
    - [MapGeometry] (pal-map-pack-store/transform.rs and the errors of lib.rs), [PackFiles]
      (integrity.rs), [MapManifest] (manifest.rs), [PoiIndex] (poi.rs), [TileIndex]
      (tile_index.rs), [MapPack] (lib.rs);
    - [Viewport], [Culling], [Snapshot], [RenderCommands], [OverlayVisual] (pal-render, the
      file of the same name each);
    - [LocalPosition], [Placement], [OverlayInput], [OverlayHost], [MapRaster], [MapView],
      [MapSurface], [MapRuntime], [ControlClient] (pal-overlay-win: local_position_source.rs,
      lib.rs and placement.rs, control_intent.rs, host_model.rs and mailbox.rs,
      actual_map_preview.rs, actual_map_runtime.rs, control_client.rs; [ControlClient] also
      pal-windows-ipc/client.rs), [ControlLoop] their composition with the core,
      [ControlDocument] (pal-overlay-control/lib.rs);
    - [FrameBridge], [SubPixel], [FrameChannels] (pal-fullscreen-bridge/lib.rs), [InputCapture],
      [FullscreenDock], [FullscreenLoop] (pal-fullscreen-render-loop/lib.rs);
    - [Orders] (total orders, sorting by a key, sorted sets and sorted maps that sum),
      [Canonical], [CloudProfile], [CloudPages] (pal-wire/canonical.rs, with the messages of
      src/proto/palcompanion/v2).

    ** Conventions

    A method [&mut self] is a function from the old state to a result and the new state;
    a shared object behind [Arc<Mutex<_>>] is a state passed along, one step per critical
    section. [Result] is [result], [?] is [let?]; [None] as the outcome of a function
    that cannot fail in Rust is a panic ([expect], [unwrap], [unreachable!], arithmetic
    underflow, an index out of range), and the theorems show it away. Clocks, random bytes,
    operating-system calls and what an [await] gives are arguments. Unsigned integers are
    [N], signed ones [Z], with the bound or the wrap-around of their width written out.

    ** What is proved

    - data: validation accepts exactly the documented values ([Settings.validate_exact],
      [Position.position_sample_new_exact], [Wire.validate_envelope_exact]) and the
      reducers keep it ([Settings.reduce_preserves_validity]);
    - state machines: the reducer never panics, refines the protocol of its sources,
      never shows an older position ([Reducer.positions_never_regress]) and accounts for
      samples ([Reducer]); replay and server-agent sources
      produce legal streams ([Replay.replay_stream_legal],
      [ServerAgent.agent_stream_legal], [lifecycle_reserved],
      [retired_boots_stay_retired]), and the pump over process memory reports only a
      position it read in a stable state ([LocalPosition.pump_reads_stable],
      [pump_feeds_channel]); hotkeys are replaced as a whole or rolled back
      ([Hotkeys.replace_installs]); the tracker picks the best window ([Tracker]);
    - telemetry: the cell never rolls back and wakes its subscribers ([Latest]), the
      clock offset is sound ([Clock.observe_sound]), the pipeline publishes exactly what
      it may under consecutive numbers ([Pipeline.emit_exact], [poller_accounts]), and
      pseudonyms separate identities unless the very messages that stand for them collide
      ([Privacy.pseudonyms_separate]);
    - bytes and messages: the frame codec is exact, reassembly does not depend on the
      chunking and terminates, messages and settings survive round trips ([Framing],
      [Protocol]);
    - control plane: the gate keeps to its first client ([Handshake]), the store is a
      linear history in which no update is lost ([SettingsStore]), a session answers
      every envelope rightly, sessions that share the store refine it
      ([ControlSession]), and the whole loop over a pipe is the loop over messages
      ([IpcSession.session_serves]); an intent of the client changes the store as it
      reports, and its mirror is a state the store had ([ControlLoop.client_intent_exact],
      [client_mirrors_store]); reading the control document settles it
      ([ControlDocument.control_settles]); the supervisor neither hammers nor forgets its
      child ([Supervisor.supervisor_restarts]);
    - map packs: what a pack that opens holds was read below its root and is what
      the digests of its manifest promise ([MapPack.open_store_authentic], [open_published_pinned]), an index lists exactly the tiles of its pyramid
      ([TileIndex.tile_index_exact]), and a spatial query finds exactly what lies in a
      rectangle ([PoiIndex.visible_exact]);
    - drawing: the points and tiles chosen are those that are visible
      ([Culling.visible_pois_complete], [visible_tiles_cover]), a snapshot and its commands
      exist for every state ([Snapshot.snapshot_total], [RenderCommands.frame_total]), views
      of the map are well formed and panning stays on the map ([MapView]), pixels of decoded
      pictures and samples are exact ([MapRaster]), rasterization never leaves its surface
      ([MapSurface.rasterize_total]), and the window shows the current state
      ([MapRuntime.runtime_shows_current]);
    - overlay: layouts stay inside the client area ([Placement]), a click means what is
      drawn under it ([OverlayInput.click_exact]), a failing shell leaves nothing behind
      that takes input ([OverlayHost.host_fail_closed]);
    - fullscreen: a reader of the bridge gets one published frame or nothing, whatever the
      writer does between its loads ([FrameBridge.read_atomic]), a published catalog is read
      back, and drags, each rounded to a sixteenth of a pixel ([SubPixel.quantize_exact]), add up
      without loss ([FrameChannels.pan_lossless]); the overlay captures the
      game's input only on the interactive map, for which the player asked by Escape, and such
      an Escape is granted ([FullscreenLoop.capture_needs_escape], [escape_enters]); the
      search returns the best matches ([FullscreenDock]);
    - cloud: snapshots with the same content, however written, have the same identity, and
      the canonical bytes of others encode different messages ([Canonical.snapshot_identity_exact]); canonical
      profiles are sorted by their keys and canonical again
      ([CloudProfile.canonical_keys_ascend], [cloud_canonical_settles]); the pages are the
      content, complete, bounded and as full as possible ([CloudPages.cloud_pages_exact],
      [pages_reassemble]);
    - [Breeding]: the plan found is minimal and closed.

    ** Fuel and bounds

    Loops over lists are structural. [Framing.push] runs with one more turn than the
    input has bytes, and every turn consumes one ([push_loop_feed]); the inner loop of
    [IpcSession] with one more than the queued frames ([drain_enough]); the search of
    [Breeding] with its node budget plus two ([solve_cases]); the pyramid of
    [TileIndex] has at most 32 levels, since its sides are of 32 bits and halve; the loops
    of [Placement] that shrink a layout run for the width plus the height, of which every
    turn takes one; a tick of [MapRuntime] polls at most 64 events, as in the source. The
    other bounds are the program's own constants. Counters saturate as in the source;
    where a theorem needs a counter below its maximum, it says so.

    ** What is not modelled

    Third-party code and the platform are parameters, with their documented behaviour as
    hypotheses where a theorem relies on it: SHA-256, JSON decoding, protobuf fields that
    are only carried, the file system, process memory, Windows regions, [sin], [cos],
    [sin_cos] and [hypot] of the C library, the user interface library, and the Unicode
    tables behind [trim] and [to_lowercase]. Memory is sequentially consistent: the weaker
    orders that hardware allows around the atomics of the bridge are not modelled.

    Not modelled, because nothing but effects on the operating system remains once the
    modelled decisions are taken out: the Direct3D, GDI and DirectComposition renderers,
    the Win32 host and window procedures, injection and the graphics hooks, overlapped pipe
    I/O and access control, tonic services and TLS, the HTTP client and streaming decoder,
    process inspection, SFTP and save ingestion, the probes and test windows. PNG and WebP
    pictures are decoded by third-party code. Not modelled, because they transform documents
    by way of SQL, HTTP and JSON on third-party runtimes and keep no state of their own: the
    cloud client, workers and seeding, the catalogue tools, the companion service around
    its planner. Left for later: the generation of the search index and of the knowledge
    graph, the validation of application settings and server profiles. Texts of errors and [Debug] output are left out. *)

From Stdlib Require Export ZArith NArith Lia Bool Ascii String.
From stdpp Require Export prelude strings gmap list sorting.

#[global] Open Scope Z_scope.
#[global] Open Scope N_scope.

Declare Scope rust_scope.
Delimit Scope rust_scope with rust.
#[global] Open Scope rust_scope.

(** ** Results and early returns *)

(** [Result<A, E>]. *)
Inductive result (A E : Type) : Type :=
| Ok (a : A)
| Err (e : E).
Arguments Ok {A E} a.
Arguments Err {A E} e.

(** The [?] operator: the error of the first computation leaves the function. *)
Definition and_then {A B E} (r : result A E) (k : A → result B E) : result B E :=
  match r with Ok a => k a | Err e => Err e end.

Notation "'let?' x := c 'in' k" := (and_then c (λ x, k))
  (at level 10, x name, c at level 200, k at level 200) : rust_scope.
Notation "'let?' ' p := c 'in' k" := (and_then c (λ x, match x with p => k end))
  (at level 10, p pattern, c at level 200, k at level 200) : rust_scope.

Definition map_err {A E F} (f : E → F) (r : result A E) : result A F :=
  match r with Ok a => Ok a | Err e => Err (f e) end.

(** [r.expect(..)]: [None] is a panic. *)
Definition expect {A E} (r : result A E) : option A :=
  match r with Ok a => Some a | Err _ => None end.

Definition ok_or {A E} (o : option A) (e : E) : result A E :=
  match o with Some a => Ok a | None => Err e end.

Definition is_ok {A E} (r : result A E) : bool :=
  match r with Ok _ => true | Err _ => false end.

#[export] Instance result_eq_dec {A E} `{EqDecision A, EqDecision E} : EqDecision (result A E).
Proof. solve_decision. Defined.

Lemma and_then_ok {A B E} (r : result A E) (k : A → result B E) b :
  and_then r k = Ok b ↔ ∃ a, r = Ok a ∧ k a = Ok b.
Proof. destruct r; simpl; naive_solver. Qed.

Lemma and_then_err {A B E} (r : result A E) (k : A → result B E) e :
  and_then r k = Err e ↔ r = Err e ∨ ∃ a, r = Ok a ∧ k a = Err e.
Proof. destruct r; simpl; naive_solver. Qed.

Lemma map_err_ok {A E F} (f : E → F) (r : result A E) a : map_err f r = Ok a ↔ r = Ok a.
Proof. destruct r; simpl; naive_solver. Qed.

Lemma map_err_err {A E F} (f : E → F) (r : result A E) e :
  map_err f r = Err e ↔ ∃ e', r = Err e' ∧ e = f e'.
Proof. destruct r; simpl; naive_solver. Qed.

Lemma ok_or_ok {A E} (o : option A) (e : E) a : ok_or o e = Ok a ↔ o = Some a.
Proof. destruct o; simpl; naive_solver. Qed.

(** ** Field update

    [r <| f := v |>] is the record [r] with the field [f] assigned, and
    [r <| f ::= g |>] applies [g] to the field. A record opts in by an instance
    of [Eta]: its constructor applied to its own projections. *)

Class Eta (R : Type) : Type := eta_expand : R → R.
Class Field {R T : Type} (p : R → T) : Type := modify_field : (T → T) → R → R.

Ltac derive_field :=
  lazymatch goal with
  | |- @Field ?R ?T ?p =>
      let e := constr:(_ : Eta R) in
      let f := fresh "f" in
      let r := fresh "r" in
      refine (λ (f : T → T) (r : R), _);
      let body := eval cbv [eta_expand] in (e r) in
      let body := eval hnf in body in
      lazymatch eval pattern (p r) in body with
      | ?g _ => let t := eval cbv beta in (g (f (p r))) in exact t
      end
  end.
#[export] Hint Extern 0 (Field _) => derive_field : typeclass_instances.

Notation "r <| f := v |>" := (modify_field (p := f) (λ _, v) r)
  (at level 1, left associativity, f at level 11, v at level 200,
   format "r  <|  f  :=  v  |>") : rust_scope.
Notation "r <| f ::= g |>" := (modify_field (p := f) g r)
  (at level 1, left associativity, f at level 11, g at level 200,
   format "r  <|  f  ::=  g  |>") : rust_scope.

Arguments modify_field {R T} p {_} g r /.

(** ** Machine integers

    [u8], [u16], [u32], [u64] and [usize] are [N]; [i32] and [i64] are [Z].
    The operations that can leave the range are written out. *)

Definition u16_max : N := 65535.
Definition u32_max : N := 4294967295.
Definition u64_max : N := 18446744073709551615.
Definition u64_modulus : N := 18446744073709551616.
Definition i64_min : Z := (-9223372036854775808)%Z.
Definition i64_max : Z := 9223372036854775807%Z.

(** [u64::saturating_add], [u64::saturating_sub], [u64::checked_add]. *)
Definition saturating_add (a b : N) : N := N.min (a + b) u64_max.
Definition saturating_sub (a b : N) : N := a - b.
Definition checked_add (a b : N) : option N :=
  if a + b <=? u64_max then Some (a + b) else None.

(** [u64::wrapping_add] and [u64::wrapping_mul]. *)
Definition wrapping_add (a b : N) : N := (a + b) mod u64_modulus.
Definition wrapping_mul (a b : N) : N := (a * b) mod u64_modulus.

(** [i64::saturating_add], [i64::saturating_sub], [i64::checked_sub]. *)
Definition saturating_i64 (z : Z) : Z := Z.max i64_min (Z.min z i64_max).
Definition checked_i64 (z : Z) : option Z :=
  if ((i64_min <=? z) && (z <=? i64_max))%Z then Some z else None.

(** A counter of drops or events: [saturating_add(1)]. *)
Definition increment (counter : N) : N := saturating_add counter 1.

#[global] Arguments saturating_add : simpl never.
#[global] Arguments saturating_sub : simpl never.
#[global] Arguments checked_add : simpl never.
#[global] Arguments wrapping_add : simpl never.
#[global] Arguments wrapping_mul : simpl never.
#[global] Arguments increment : simpl never.

(** The range of the type, for statements about overflow. *)
Definition is_u64 (n : N) : Prop := n ≤ u64_max.
Definition is_i64 (z : Z) : Prop := (i64_min ≤ z ≤ i64_max)%Z.

Ltac unfold_ints :=
  unfold increment, saturating_add, saturating_sub, checked_add, saturating_i64,
    checked_i64, is_u64, is_i64, u16_max, u32_max, u64_max, u64_modulus, i64_min, i64_max in *.
Ltac int_lia := unfold_ints; lia.

Lemma increment_bound n : increment n ≤ u64_max.
Proof. int_lia. Qed.

Lemma increment_ge n : is_u64 n → n ≤ increment n.
Proof. int_lia. Qed.

Lemma increment_exact n : n < u64_max → increment n = n + 1.
Proof. int_lia. Qed.

Lemma checked_add_some a b c : checked_add a b = Some c ↔ c = a + b ∧ a + b ≤ u64_max.
Proof.
  unfold checked_add. destruct (N.leb_spec (a + b) u64_max); split; intros; simplify_eq; try lia.
  destruct H0; by subst.
Qed.

(** ** Bytes and strings

    A [String] or [&str] is the sequence of its UTF-8 bytes; a [Vec<u8>] or
    [&[u8]] is a list of bytes. Lengths are counted in bytes, as [len()] does. *)

Definition bytes : Type := list Byte.byte.

#[export] Instance byte_eq_dec : EqDecision Byte.byte := Byte.byte_eq_dec.
#[export] Instance bytes_eq_dec : EqDecision bytes := list_eq_dec.

Definition len {A} (l : list A) : N := N.of_nat (length l).
Definition str_len (s : string) : N := N.of_nat (String.length s).
Definition str_bytes (s : string) : list N := map N_of_ascii (list_ascii_of_string s).
Definition str_is_empty (s : string) : bool := match s with EmptyString => true | _ => false end.
Definition is_empty {A} (l : list A) : bool := match l with [] => true | _ => false end.

(** A byte of a number, and its big- and little-endian bytes. *)
Definition byte_of (n : N) : Byte.byte :=
  match Byte.of_N (n mod 256) with Some b => b | None => Byte.x00 end.
Fixpoint le_bytes (k : nat) (n : N) : bytes :=
  match k with O => [] | S k => byte_of n :: le_bytes k (n / 256) end.
Definition be_bytes (k : nat) (n : N) : bytes := reverse (le_bytes k n).
Fixpoint le_value (bs : bytes) : N :=
  match bs with [] => 0 | b :: bs => Byte.to_N b + 256 * le_value bs end.
Definition be_value (bs : bytes) : N := le_value (reverse bs).

Lemma to_N_byte_of n : Byte.to_N (byte_of n) = n mod 256.
Proof.
  unfold byte_of. destruct (Byte.of_N (n mod 256)) as [b|] eqn:Hb.
  - by apply Byte.to_of_N.
  - apply Byte.of_N_None_iff in Hb. pose proof (N.mod_lt n 256 ltac:(lia)). lia.
Qed.

Lemma le_value_bytes k n : n < 256 ^ N.of_nat k → le_value (le_bytes k n) = n.
Proof.
  revert n. induction k as [|k IH]; intros n Hn.
  - simpl in *. lia.
  - cbn [le_bytes le_value]. rewrite to_N_byte_of, IH.
    + pose proof (N.div_mod n 256 ltac:(lia)). lia.
    + rewrite Nat2N.inj_succ, N.pow_succ_r' in Hn. by apply N.Div0.div_lt_upper_bound.
Qed.

Lemma le_value_bound bs : le_value bs < 256 ^ len bs.
Proof.
  unfold len. induction bs as [|b bs IH]; [simpl; lia|].
  cbn [le_value length]. rewrite Nat2N.inj_succ, N.pow_succ_r'.
  pose proof (Byte.to_N_bounded b). lia.
Qed.

Lemma byte_of_to_N b q : byte_of (Byte.to_N b + 256 * q) = b.
Proof.
  unfold byte_of. pose proof (Byte.to_N_bounded b).
  rewrite N.mul_comm, N.Div0.mod_add, N.mod_small by lia. by rewrite Byte.of_to_N.
Qed.

Lemma le_bytes_value bs : le_bytes (length bs) (le_value bs) = bs.
Proof.
  induction bs as [|b bs IH]; [done|]. cbn [length le_bytes le_value].
  rewrite byte_of_to_N. pose proof (Byte.to_N_bounded b).
  replace ((Byte.to_N b + 256 * le_value bs) / 256) with (le_value bs); [by rewrite IH|].
  rewrite N.mul_comm, N.div_add, (N.div_small (Byte.to_N b)) by lia. lia.
Qed.

Lemma length_le_bytes k n : length (le_bytes k n) = k.
Proof. revert n. induction k as [|k IH]; intros n; simpl; [done|]. by rewrite IH. Qed.

Lemma length_be_bytes k n : length (be_bytes k n) = k.
Proof. unfold be_bytes. by rewrite length_reverse, length_le_bytes. Qed.

Lemma be_value_bytes k n : n < 256 ^ N.of_nat k → be_value (be_bytes k n) = n.
Proof. unfold be_value, be_bytes. rewrite reverse_involutive. apply le_value_bytes. Qed.

Lemma be_bytes_inj k n m :
  n < 256 ^ N.of_nat k → m < 256 ^ N.of_nat k → be_bytes k n = be_bytes k m → n = m.
Proof. intros Hn Hm H. rewrite <- (be_value_bytes k n), <- (be_value_bytes k m), H; done. Qed.

Definition is_ascii_digit (b : N) : bool := (48 <=? b) && (b <=? 57).
Definition is_ascii_uppercase (b : N) : bool := (65 <=? b) && (b <=? 90).
Definition is_ascii_lowercase (b : N) : bool := (97 <=? b) && (b <=? 122).
Definition is_ascii_alphabetic (b : N) : bool := is_ascii_uppercase b || is_ascii_lowercase b.
Definition is_ascii_alphanumeric (b : N) : bool := is_ascii_alphabetic b || is_ascii_digit b.
Definition is_ascii_hexdigit (b : N) : bool :=
  is_ascii_digit b || ((65 <=? b) && (b <=? 70)) || ((97 <=? b) && (b <=? 102)).
Definition is_ascii_byte (b : N) : bool := b <? 128.

Definition str_is_ascii (s : string) : bool := forallb is_ascii_byte (str_bytes s).
Definition str_all (p : N → bool) (s : string) : bool := forallb p (str_bytes s).

(** The bytes of a [&str]. *)
Definition as_bytes (s : string) : bytes := list_byte_of_string s.

Lemma as_bytes_inj s1 s2 : as_bytes s1 = as_bytes s2 → s1 = s2.
Proof.
  unfold as_bytes. intros H. apply (f_equal string_of_list_byte) in H.
  by rewrite !string_of_list_byte_of_string in H.
Qed.

Lemma len_as_bytes s : len (as_bytes s) = str_len s.
Proof.
  unfold len, str_len, as_bytes, list_byte_of_string. f_equal.
  rewrite length_map. induction s as [|c s IH]; [done|]. simpl. by rewrite IH.
Qed.

Definition is_ascii_graphic (b : N) : bool := (33 <=? b) && (b <=? 126).

(** [to_ascii_lowercase] and [to_ascii_uppercase]. *)
Definition ascii_lower (c : ascii) : ascii :=
  let n := N_of_ascii c in if is_ascii_uppercase n then ascii_of_N (n + 32) else c.
Definition ascii_upper (c : ascii) : ascii :=
  let n := N_of_ascii c in if is_ascii_lowercase n then ascii_of_N (n - 32) else c.
Fixpoint str_map (f : ascii → ascii) (s : string) : string :=
  match s with EmptyString => EmptyString | String c s => String (f c) (str_map f s) end.
Definition to_ascii_lowercase (s : string) : string := str_map ascii_lower s.
Definition to_ascii_uppercase (s : string) : string := str_map ascii_upper s.

(** [starts_with] and [ends_with]. *)
Definition starts_with (s prefix : string) : bool := String.prefix prefix s.
Definition ends_with (s suffix : string) : bool :=
  (str_len suffix <=? str_len s)
  && String.eqb (String.substring (String.length s - String.length suffix) (String.length suffix) s) suffix.

(** [split] at a separator character: one more piece than there are separators. *)
Fixpoint split_on (sep : ascii) (s : string) : list string :=
  match s with
  | EmptyString => [EmptyString]
  | String c s =>
      if Ascii.eqb c sep then EmptyString :: split_on sep s
      else match split_on sep s with
           | piece :: pieces => String c piece :: pieces
           | [] => [String c EmptyString]
           end
  end.

(** [contains]: membership by [==]. *)
Definition contains {A} `{EqDecision A} (l : list A) (x : A) : bool := bool_decide (x ∈ l).

Lemma contains_true {A} `{EqDecision A} (l : list A) x : contains l x = true ↔ x ∈ l.
Proof. unfold contains. by rewrite bool_decide_eq_true. Qed.

Lemma contains_false {A} `{EqDecision A} (l : list A) x : contains l x = false ↔ x ∉ l.
Proof. unfold contains. by rewrite bool_decide_eq_false. Qed.

Lemma str_is_empty_true s : str_is_empty s = true ↔ s = EmptyString.
Proof. by destruct s. Qed.

Lemma is_empty_true {A} (l : list A) : is_empty l = true ↔ l = [].
Proof. by destruct l. Qed.

(** ** Loops over a slice *)

(** [for x in l { f(x)?; }]. *)
Fixpoint try_for_each {A E} (f : A → result unit E) (l : list A) : result unit E :=
  match l with
  | [] => Ok tt
  | x :: l => let? _ := f x in try_for_each f l
  end.

(** A fallible map that succeeds on every element. *)
Lemma mapM_total {A B} (f : A → option B) (P : A → B → Prop) l :
  (∀ a, a ∈ l → ∃ b, f a = Some b ∧ P a b) → ∃ bs, mapM f l = Some bs ∧ Forall2 P l bs.
Proof.
  induction l as [|a l IH]; intros Hf; [by exists []|].
  destruct (Hf a) as (b & Hb & Hp); [left|].
  destruct IH as (bs & Hbs & Hall); [intros a' Ha'; apply Hf; by right|].
  exists (b :: bs). split; [|by constructor]. simpl. by rewrite Hb, Hbs.
Qed.

Lemma try_for_each_ok {A E} (f : A → result unit E) l :
  try_for_each f l = Ok tt ↔ Forall (λ x, f x = Ok tt) l.
Proof.
  induction l as [|x l IH]; simpl; [split; intros; constructor|].
  rewrite and_then_ok, Forall_cons, <- IH. split.
  - by intros [[] [? ?]].
  - intros [? ?]. by exists tt.
Qed.

Lemma try_for_each_err {A E} (f : A → result unit E) l e :
  try_for_each f l = Err e →
  ∃ l1 x l2, l = l1 ++ x :: l2 ∧ Forall (λ y, f y = Ok tt) l1 ∧ f x = Err e.
Proof.
  induction l as [|x l IH]; simpl; [done|].
  destruct (f x) as [[]|e'] eqn:Hx; simpl.
  - intros (l1 & y & l2 & -> & Hl1 & Hy)%IH. exists (x :: l1), y, l2. auto.
  - intros [= ->]. exists [], x, l. auto.
Qed.

(** [Vec::dedup]: of equal neighbours the first is kept. *)
Fixpoint dedup {A} `{EqDecision A} (l : list A) : list A :=
  match l with
  | [] => []
  | x :: l =>
      match dedup l with
      | [] => [x]
      | (y :: _) as l' => if bool_decide (x = y) then l' else x :: l'
      end
  end.

Lemma elem_of_dedup {A} `{EqDecision A} (l : list A) x : x ∈ dedup l ↔ x ∈ l.
Proof.
  induction l as [|y l IH]; simpl; [done|].
  rewrite elem_of_cons, <- IH. destruct (dedup l) as [|z l'] eqn:Hd.
  - rewrite list_elem_of_singleton, elem_of_nil. tauto.
  - case_bool_decide; subst; rewrite !elem_of_cons; tauto.
Qed.

Lemma dedup_head {A} `{EqDecision A} (R : relation A) l x :
  HdRel R x l → HdRel R x (dedup l).
Proof.
  revert x. induction l as [|y l IH]; intros x Hx; simpl; [done|].
  inversion_clear Hx. destruct (dedup l) as [|z l'] eqn:Hd; [by constructor|].
  case_bool_decide; [subst|]; by constructor.
Qed.

Lemma Sorted_dedup {A} `{EqDecision A} (R : relation A) l : Sorted R l → Sorted R (dedup l).
Proof.
  induction 1 as [|x l Hl IH Hx]; simpl; [constructor|].
  apply dedup_head in Hx. destruct (dedup l) as [|z l']; [by repeat constructor|].
  case_bool_decide; [done|by constructor].
Qed.

(** A sorted vector has no duplicates after [dedup]. *)
Lemma NoDup_sorted_dedup {A} `{EqDecision A} (R : relation A) `{!Transitive R, !AntiSymm (=) R} l :
  Sorted R l → NoDup (dedup l).
Proof.
  intros Hs%Sorted_StronglySorted; [|done].
  induction Hs as [|x l Hl IH Hx]; simpl; [constructor|].
  assert (Forall (R x) (dedup l)) as Hx'
    by (rewrite Forall_forall in *; intros y; rewrite elem_of_dedup; auto).
  assert (Sorted R (dedup l)) as Hsd by (by apply Sorted_dedup, StronglySorted_Sorted).
  apply Sorted_StronglySorted in Hsd; [|done].
  destruct (dedup l) as [|z l'] eqn:Hd; [apply NoDup_singleton|].
  case_bool_decide as Hz; [done|]. constructor; [|done].
  rewrite elem_of_cons. intros [->|Hin]; [done|].
  inversion_clear Hsd as [|? ? ? Hz']. rewrite Forall_forall in Hz'.
  inversion_clear Hx'. apply Hz. by apply (anti_symm R); auto.
Qed.

(** [sort_unstable] on strings: their order is total, so the result does not
    depend on the algorithm. *)
Definition sort_strings (l : list string) : list string := merge_sort String.le l.

Lemma sort_strings_sorted l : Sorted String.le (sort_strings l).
Proof. apply Sorted_merge_sort. apply _. Qed.

Lemma elem_of_sort_strings l x : x ∈ sort_strings l ↔ x ∈ l.
Proof. unfold sort_strings. by rewrite merge_sort_Permutation. Qed.

Lemma elem_of_dedup_sort l x : x ∈ dedup (sort_strings l) ↔ x ∈ l.
Proof. by rewrite elem_of_dedup, elem_of_sort_strings. Qed.

Lemma NoDup_dedup_sort l : NoDup (dedup (sort_strings l)).
Proof. eapply NoDup_sorted_dedup, sort_strings_sorted; apply _. Qed.

(** [slice::sort_by], which is stable. *)
Fixpoint insert_by {A} (cmp : A → A → comparison) (x : A) (l : list A) : list A :=
  match l with
  | [] => [x]
  | y :: l => match cmp x y with Gt => y :: insert_by cmp x l | _ => x :: y :: l end
  end.
Definition sort_by {A} (cmp : A → A → comparison) (l : list A) : list A :=
  foldr (insert_by cmp) [] l.

Lemma insert_by_Permutation {A} (cmp : A → A → comparison) x l : insert_by cmp x l ≡ₚ x :: l.
Proof.
  induction l as [|z l IH]; simpl; [done|]. destruct (cmp x z); [done..|].
  rewrite IH. constructor.
Qed.

Lemma sort_by_Permutation {A} (cmp : A → A → comparison) l : sort_by cmp l ≡ₚ l.
Proof.
  induction l as [|x l IH]; simpl; [done|]. by rewrite insert_by_Permutation, IH.
Qed.

Lemma elem_of_sort_by {A} (cmp : A → A → comparison) l y : y ∈ sort_by cmp l ↔ y ∈ l.
Proof. by rewrite sort_by_Permutation. Qed.

Lemma sort_by_sorted {A} (cmp : A → A → comparison) (R : relation A) l :
  (∀ x y, cmp x y = Gt → R y x) → (∀ x y, cmp x y ≠ Gt → R x y) → Sorted R (sort_by cmp l).
Proof.
  intros Hgt Hle. induction l as [|x l IH]; simpl; [constructor|].
  induction IH as [|y s Hl IH' Hy]; simpl; [by repeat constructor|].
  destruct (cmp x y) eqn:Hxy; [constructor; [by constructor|constructor; apply Hle; congruence]..|].
  constructor; [done|]. destruct Hy as [|z s Hz]; simpl; [by constructor; apply Hgt|].
  destruct (cmp x z); constructor; auto.
Qed.

(** Strictly increasing lists of numbers: no duplicates, and room for every element. *)
Lemma StronglySorted_two {A} (R : relation A) l i j a b :
  StronglySorted R l → (i < j)%nat → l !! i = Some a → l !! j = Some b → R a b.
Proof.
  intros Hs. revert i j. induction Hs as [|x l Hs IH Hx]; intros i j Hij Hi Hj; [done|].
  destruct j as [|j]; [lia|]. destruct i as [|i].
  - injection Hi as ->. simpl in Hj. rewrite Forall_lookup in Hx. by eapply Hx.
  - apply (IH i j); [lia|done..].
Qed.

Lemma NoDup_strictly_sorted (l : list N) : StronglySorted N.lt l → NoDup l.
Proof.
  induction 1 as [|x l Hs IH Hx]; constructor; [|done].
  rewrite Forall_forall in Hx. intros Hin%Hx. lia.
Qed.

Lemma strictly_sorted_room (l : list N) lo hi :
  StronglySorted N.lt l → Forall (λ v, lo ≤ v < hi) l → lo ≤ hi → N.of_nat (length l) + lo ≤ hi.
Proof.
  intros Hs. revert lo. induction Hs as [|x l Hs IH Hx]; intros lo Hf Hlo; simpl; [lia|].
  apply Forall_cons in Hf as [Hfx Hf].
  assert (Forall (λ v, x + 1 ≤ v < hi) l) as Hf'.
  { rewrite Forall_forall in *. intros v Hv. specialize (Hx v Hv). specialize (Hf v Hv). lia. }
  specialize (IH (x + 1) Hf'). lia.
Qed.

(** [retain]. *)
Definition retain {A} (p : A → bool) (l : list A) : list A := List.filter p l.

Lemma elem_of_retain {A} (p : A → bool) l x : x ∈ retain p l ↔ x ∈ l ∧ p x = true.
Proof. unfold retain. by rewrite !list_elem_of_In, filter_In. Qed.

Lemma retain_sublist {A} (p : A → bool) l : retain p l `sublist_of` l.
Proof.
  induction l as [|x l IH]; simpl; [done|].
  destruct (p x); by constructor.
Qed.

(** ** Optional values *)

(** [Option::is_some_and], [Option::is_none_or]. *)
Definition is_some_and {A} (o : option A) (p : A → bool) : bool :=
  match o with Some a => p a | None => false end.
Definition is_none_or {A} (o : option A) (p : A → bool) : bool :=
  match o with Some a => p a | None => true end.
Definition is_some {A} (o : option A) : bool := match o with Some _ => true | None => false end.
Definition is_none {A} (o : option A) : bool := negb (is_some o).
(** [Option::unwrap_or]. *)
Definition unwrap_or {A} (o : option A) (d : A) : A :=
  match o with Some a => a | None => d end.
Definition opt_filter {A} (o : option A) (p : A → bool) : option A :=
  match o with Some a => if p a then Some a else None | None => None end.

(** ** Tactics *)

(** Case analysis on the condition of every [if] and the scrutinee of every
    [match] of the goal, simplifying in between. *)
Ltac step_if :=
  match goal with
  | |- context [ if ?c then _ else _ ] => destruct c eqn:?
  | |- context [ match ?c with Some _ => _ | None => _ end ] => destruct c eqn:?
  | |- context [ match ?c with Ok _ => _ | Err _ => _ end ] => destruct c eqn:?
  end.
Ltac step_if_in H :=
  match type of H with
  | context [ if ?c then _ else _ ] => destruct c eqn:?
  | context [ match ?c with Some _ => _ | None => _ end ] => destruct c eqn:?
  | context [ match ?c with Ok _ => _ | Err _ => _ end ] => destruct c eqn:?
  end.

(** Boolean hypotheses as propositions. *)
Ltac reflect_bool :=
  repeat match goal with
  | H : (_ && _)%bool = true |- _ => apply andb_true_iff in H; destruct H
  | H : (_ || _)%bool = false |- _ => apply orb_false_iff in H; destruct H
  | H : (_ || _)%bool = true |- _ => apply orb_true_iff in H
  | H : (_ && _)%bool = false |- _ => apply andb_false_iff in H
  | H : negb _ = true |- _ => apply negb_true_iff in H
  | H : negb _ = false |- _ => apply negb_false_iff in H
  | H : (_ =? _)%N = true |- _ => apply N.eqb_eq in H
  | H : (_ =? _)%N = false |- _ => apply N.eqb_neq in H
  | H : (_ <? _)%N = true |- _ => apply N.ltb_lt in H
  | H : (_ <? _)%N = false |- _ => apply N.ltb_ge in H
  | H : (_ <=? _)%N = true |- _ => apply N.leb_le in H
  | H : (_ <=? _)%N = false |- _ => apply N.leb_gt in H
  | H : (_ =? _)%Z = true |- _ => apply Z.eqb_eq in H
  | H : (_ =? _)%Z = false |- _ => apply Z.eqb_neq in H
  | H : (_ <? _)%Z = true |- _ => apply Z.ltb_lt in H
  | H : (_ <? _)%Z = false |- _ => apply Z.ltb_ge in H
  | H : (_ <=? _)%Z = true |- _ => apply Z.leb_le in H
  | H : (_ <=? _)%Z = false |- _ => apply Z.leb_gt in H
  | H : bool_decide _ = true |- _ => apply bool_decide_eq_true in H
  | H : bool_decide _ = false |- _ => apply bool_decide_eq_false in H
  | H : contains _ _ = true |- _ => apply contains_true in H
  | H : contains _ _ = false |- _ => apply contains_false in H
  | H : str_is_empty _ = true |- _ => apply str_is_empty_true in H
  | H : is_empty _ = true |- _ => apply is_empty_true in H
  end.

(** Every branch of a guarded handler, with its conditions as propositions. *)
Ltac branches :=
  repeat step_if; repeat (progress (reflect_bool; destruct_or?)); subst;
  try lia; try congruence.

Create HintDb pal.

#[export] Hint Resolve increment_bound increment_ge : pal.

