(* ===== verification/Floats.v ===== *)
(** * Binary floating point

    [f32] and [f64] are IEEE 754 binary32 and binary64 data in the Standard
    Library's [SpecFloat]: executable, correctly rounded to nearest-even, one
    quiet NaN. The datum of a Rust value is canonical ([f32_ok], [f64_ok]);
    comparisons and arithmetic are the IEEE operations Rust uses. *)

From Stdlib Require Export SpecFloat.
From S2P Require Import Prelude.

Abbreviation f32 := spec_float (only parsing).
Abbreviation f64 := spec_float (only parsing).

Definition prec32 : Z := 24%Z.
Definition emax32 : Z := 128%Z.
Definition prec64 : Z := 53%Z.
Definition emax64 : Z := 1024%Z.

Definition f32_ok (x : f32) : bool := valid_binary prec32 emax32 x.
Definition f64_ok (x : f64) : bool := valid_binary prec64 emax64 x.

#[export] Instance spec_float_eq_dec : EqDecision spec_float.
Proof. solve_decision. Defined.

(** ** Classification and comparison *)

Definition is_nan (x : spec_float) : bool := match x with S754_nan => true | _ => false end.
Definition is_finite (x : spec_float) : bool :=
  match x with S754_zero _ | S754_finite _ _ _ => true | _ => false end.
Definition is_sign_negative (x : spec_float) : bool :=
  match x with
  | S754_zero s | S754_infinity s => s
  | S754_finite s _ _ => s
  | S754_nan => false
  end.

Definition feq (x y : spec_float) : bool := SFeqb x y.
Definition flt (x y : spec_float) : bool := SFltb x y.
Definition fle (x y : spec_float) : bool := SFleb x y.
Definition fabs (x : spec_float) : spec_float := SFabs x.
Definition fneg (x : spec_float) : spec_float := SFopp x.

(** [(lo..=hi).contains(&x)] and [(lo..hi).contains(&x)]. *)
Definition in_range (lo hi x : spec_float) : bool := fle lo x && fle x hi.
Definition in_range_excl (lo hi x : spec_float) : bool := fle lo x && flt x hi.

(** [min] and [max] return the other operand when one is NaN. *)
Definition fmin (x y : spec_float) : spec_float :=
  if is_nan x then y else if is_nan y then x else if flt y x then y else x.
Definition fmax (x y : spec_float) : spec_float :=
  if is_nan x then y else if is_nan y then x else if flt x y then y else x.

(** [clamp]: NaN stays NaN. *)
Definition fclamp (x lo hi : spec_float) : spec_float :=
  if flt x lo then lo else if flt hi x then hi else x.

(** ** Arithmetic at a format *)

Section Format.
Context (prec emax : Z).

Definition fadd (x y : spec_float) : spec_float := SFadd prec emax x y.
Definition fsub (x y : spec_float) : spec_float := SFsub prec emax x y.
Definition fmul (x y : spec_float) : spec_float := SFmul prec emax x y.
Definition fdiv (x y : spec_float) : spec_float := SFdiv prec emax x y.

(** The nearest datum to an integer. *)
Definition of_Z (z : Z) : spec_float := binary_normalize prec emax z 0 false.

(** A decimal literal [p / q]: one rounding of the exact quotient when [p] and
    [q] are themselves representable. *)
Definition literal (p q : Z) : spec_float := fdiv (of_Z p) (of_Z q).

(** Rounding of a datum of another format. *)
Definition convert (x : spec_float) : spec_float :=
  match x with
  | S754_finite s m e => binary_normalize prec emax (cond_Zopp s (Zpos m)) e s
  | _ => x
  end.

(** The [%] operator: the exact remainder, with the sign of the dividend. *)
Definition frem (x y : spec_float) : spec_float :=
  match x, y with
  | S754_nan, _ | _, S754_nan | S754_infinity _, _ | _, S754_zero _ => S754_nan
  | S754_zero _, _ | S754_finite _ _ _, S754_infinity _ => x
  | S754_finite sx mx ex, S754_finite _ my ey =>
      let e := Z.min ex ey in
      let r := ((Zpos mx * 2 ^ (ex - e)) mod (Zpos my * 2 ^ (ey - e)))%Z in
      if (r =? 0)%Z then S754_zero sx
      else binary_normalize prec emax (cond_Zopp sx r) e sx
  end.

(** [rem_euclid]: [let r = self % rhs; if r < 0.0 { r + rhs.abs() } else { r }]. *)
Definition rem_euclid (x y : spec_float) : spec_float :=
  let r := frem x y in
  if flt r (S754_zero false) then fadd r (fabs y) else r.
End Format.

Definition f32_of_Z : Z → f32 := of_Z prec32 emax32.
Definition f64_of_Z : Z → f64 := of_Z prec64 emax64.
Definition f32_lit : Z → Z → f32 := literal prec32 emax32.
Definition f64_lit : Z → Z → f64 := literal prec64 emax64.

(** [f64::from(x)] (exact) and [x as f32] (one rounding). *)
Definition f64_from_f32 (x : f32) : f64 := convert prec64 emax64 x.
Definition f32_from_f64 (x : f64) : f32 := convert prec32 emax32 x.

(** ** Lemmas *)

Lemma is_finite_not_nan x : is_finite x = true → is_nan x = false.
Proof. by destruct x. Qed.

Lemma in_range_not_nan lo hi x : in_range lo hi x = true → is_nan x = false.
Proof. unfold in_range, fle, SFleb. destruct lo, x; simpl; done. Qed.

(** A datum inside a finite interval is finite. *)
Lemma in_range_finite lo hi x :
  is_finite lo = true → is_finite hi = true → in_range lo hi x = true → is_finite x = true.
Proof.
  unfold in_range, fle, SFleb. destruct lo as [|[]| |[]], hi as [|[]| |[]], x as [|[]| |[]]; done.
Qed.

Lemma is_finite_rem_zero prec emax x y :
  frem prec emax x y = S754_nan ∨ is_nan x = false.
Proof. destruct x, y; simpl; auto. Qed.

#[export] Hint Resolve is_finite_not_nan in_range_not_nan : pal.

(** *** The order of data *)

Lemma SFcompare_swap x y : SFcompare y x = CompOpp <$> SFcompare x y.
Proof.
  destruct x as [[]|[]| |[] mx ex], y as [[]|[]| |[] my ey]; simpl; try done;
    rewrite (Z.compare_antisym ex ey); destruct (ex ?= ey)%Z; simpl; try done;
    rewrite (Pos.compare_antisym mx my : Pos.compare_cont Eq my mx = _);
    change (Pos.compare_cont Eq mx my) with (mx ?= my)%positive; by destruct (mx ?= my)%positive.
Qed.

Lemma SFcompare_some x y :
  is_nan x = false → is_nan y = false → ∃ c, SFcompare x y = Some c.
Proof. destruct x, y; simpl; eauto; done. Qed.

(** Without NaN the order is total. *)
Lemma flt_false_fle x y :
  is_nan x = false → is_nan y = false → flt y x = false → fle x y = true.
Proof.
  intros Hx Hy. destruct (SFcompare_some x y Hx Hy) as [c Hc].
  unfold flt, fle, SFltb, SFleb. rewrite (SFcompare_swap x y), Hc. by destruct c.
Qed.

Lemma fmin_upper x y : is_nan y = false → fle (fmin x y) y = true.
Proof.
  intros Hy. unfold fmin. destruct (is_nan x) eqn:Hx; [|rewrite Hy; destruct (flt y x) eqn:Hlt].
  - apply flt_false_fle; try done. unfold flt, SFltb.
    destruct (SFcompare_some y y Hy Hy) as [c Hc]. rewrite Hc.
    pose proof (SFcompare_swap y y) as Hs. rewrite Hc in Hs. by destruct c.
  - apply flt_false_fle; try done. unfold flt, SFltb.
    destruct (SFcompare_some y y Hy Hy) as [c Hc]. rewrite Hc.
    pose proof (SFcompare_swap y y) as Hs. rewrite Hc in Hs. by destruct c.
  - by apply flt_false_fle.
Qed.

Lemma fmin_lower lo x y :
  fle lo x = true → fle lo y = true → fle lo (fmin x y) = true.
Proof. unfold fmin. repeat step_if; done. Qed.

Lemma fmax_lower x y : is_nan y = false → fle y (fmax x y) = true.
Proof.
  intros Hy.
  assert (fle y y = true) as Hyy.
  { apply flt_false_fle; try done. unfold flt, SFltb.
    destruct (SFcompare_some y y Hy Hy) as [c Hc]. rewrite Hc.
    pose proof (SFcompare_swap y y) as Hs. rewrite Hc in Hs. by destruct c. }
  unfold fmax. destruct (is_nan x) eqn:Hx; [done|]. rewrite Hy.
  destruct (flt x y) eqn:Hlt; [done|]. by apply flt_false_fle.
Qed.

Lemma fmax_upper hi x y :
  fle x hi = true → fle y hi = true → fle (fmax x y) hi = true.
Proof. unfold fmax. repeat step_if; done. Qed.

(** Positive data are ordered by exponent, then significand. *)
Lemma fle_positive m1 e1 m2 e2 :
  fle (S754_finite false m1 e1) (S754_finite false m2 e2) = true ↔
  (e1 < e2 ∨ (e1 = e2 ∧ Zpos m1 ≤ Zpos m2))%Z.
Proof.
  unfold fle, SFleb, SFcompare.
  destruct (Z.compare_spec e1 e2) as [->|?|?]; [|split; [lia|done]|split; [done|lia]].
  change (Pos.compare_cont Eq m1 m2) with (m1 ?= m2)%positive.
  destruct (Pos.compare_spec m1 m2) as [->|?|?]; (split; intros; (done || lia)).
Qed.

(** *** Rounding of a positive integer significand *)

Section Rounding.
Local Open Scope Z_scope.
Context (prec emax : Z).

Lemma digits2_pos_bounds m :
  2 ^ (Zpos (digits2_pos m) - 1) ≤ Zpos m < 2 ^ Zpos (digits2_pos m).
Proof.
  induction m as [m IH|m IH|]; cbn [digits2_pos]; [| |lia];
    rewrite Pos2Z.inj_succ;
    replace (Z.succ (Zpos (digits2_pos m)) - 1) with (Z.succ (Zpos (digits2_pos m) - 1)) by lia;
    rewrite !Z.pow_succ_r by lia; lia.
Qed.

Lemma digits2_pos_unique m d :
  0 < d → 2 ^ (d - 1) ≤ Zpos m < 2 ^ d → Zpos (digits2_pos m) = d.
Proof.
  intros Hd [Hlo Hhi]. pose proof (digits2_pos_bounds m) as [Hlo' Hhi'].
  set (k := Zpos (digits2_pos m)) in *. assert (0 < k) by lia.
  assert (2 ^ (d - 1) < 2 ^ k) as H1%Z.pow_lt_mono_r_iff by lia; [|lia..].
  assert (2 ^ (k - 1) < 2 ^ d) as H2%Z.pow_lt_mono_r_iff by lia; lia.
Qed.

Lemma shr_1_m r : 0 ≤ shr_m r → shr_m (shr_1 r) = shr_m r / 2.
Proof.
  destruct r as [m rr s]. simpl. intros Hm.
  destruct m as [|[p|p|]|p]; simpl; try done; try lia.
  - rewrite (Pos2Z.inj_xI p), <- (Z.div_unique (2 * Zpos p + 1) 2 (Zpos p) 1); lia.
  - rewrite (Pos2Z.inj_xO p), <- (Z.div_unique (2 * Zpos p) 2 (Zpos p) 0); lia.
Qed.

Lemma iter_shr_1_m p r :
  0 ≤ shr_m r → shr_m (SpecFloat.iter_pos shr_1 p r) = shr_m r / 2 ^ Zpos p.
Proof.
  revert r. induction p as [p IH|p IH|]; intros r Hr; simpl.
  - pose proof (Z.pow_pos_nonneg 2 (Zpos p)) as Hp.
    assert (0 ≤ shr_m (shr_1 r)) by (rewrite shr_1_m by done; apply Z.div_pos; lia).
    assert (0 ≤ shr_m (SpecFloat.iter_pos shr_1 p (shr_1 r)))
      by (rewrite IH by done; apply Z.div_pos; lia).
    rewrite IH, IH, shr_1_m by done. rewrite !Z.div_div by lia.
    f_equal. replace (Zpos p~1) with (1 + Zpos p + Zpos p) by lia.
    rewrite !Z.pow_add_r by lia. lia.
  - pose proof (Z.pow_pos_nonneg 2 (Zpos p)) as Hp.
    assert (0 ≤ shr_m (SpecFloat.iter_pos shr_1 p r))
      by (rewrite IH by done; apply Z.div_pos; lia).
    rewrite IH, IH by done. rewrite Z.div_div by lia.
    f_equal. replace (Zpos p~0) with (Zpos p + Zpos p) by lia.
    rewrite Z.pow_add_r by lia. lia.
  - rewrite shr_1_m by done. f_equal.
Qed.

Lemma round_nearest_even_cases m l : round_nearest_even m l = m ∨ round_nearest_even m l = m + 1.
Proof. destruct l as [|[]]; simpl; auto. destruct (Z.even m); auto. Qed.

Lemma shl_align_value m e e' :
  e' ≤ e → Zpos (fst (shl_align m e e')) = Zpos m * 2 ^ (e - e').
Proof.
  intros He. unfold shl_align. destruct (e' - e) as [|p|p] eqn:Hp; [|lia|].
  - replace (e - e') with 0 by lia. simpl. lia.
  - replace (e - e') with (Zpos p) by lia. simpl. rewrite <- (Pos2Nat.id p) at 2.
    rewrite Pos2Nat.inj_iter. clear Hp He. rewrite Pos2Nat.id.
    induction p as [|p IH] using Pos.peano_ind; [simpl; lia|].
    rewrite Pos2Nat.inj_succ, Pos2Z.inj_succ, Z.pow_succ_r by lia. simpl. lia.
Qed.

(** Sum and difference of two positive data, before rounding. *)
Lemma fadd_positive m1 e1 m2 e2 :
  fadd prec emax (S754_finite false m1 e1) (S754_finite false m2 e2) =
  binary_normalize prec emax
    (Zpos m1 * 2 ^ (e1 - Z.min e1 e2) + Zpos m2 * 2 ^ (e2 - Z.min e1 e2)) (Z.min e1 e2) false.
Proof. unfold fadd, SFadd, cond_Zopp. rewrite !shl_align_value by lia. done. Qed.

Lemma fsub_positive m1 e1 m2 e2 :
  fsub prec emax (S754_finite false m1 e1) (S754_finite false m2 e2) =
  binary_normalize prec emax
    (Zpos m1 * 2 ^ (e1 - Z.min e1 e2) - Zpos m2 * 2 ^ (e2 - Z.min e1 e2)) (Z.min e1 e2) false.
Proof. unfold fsub, SFsub, cond_Zopp. rewrite !shl_align_value by lia. done. Qed.

(** Alignment of a significand of [prec + n] bits drops its [n] low bits. *)
Lemma shr_fexp_exact M e n :
  1 < prec → 0 ≤ n → emin prec emax ≤ e → 2 ^ (prec - 1 + n) ≤ M < 2 ^ (prec + n) →
  ∃ mrs, shr_fexp prec emax M e loc_Exact = (mrs, e + n) ∧ shr_m mrs = M / 2 ^ n.
Proof.
  intros Hprec Hn Hmin HM.
  assert (0 < 2 ^ (prec - 1 + n)) by (apply Z.pow_pos_nonneg; lia).
  destruct M as [|M|M]; [lia| |lia].
  assert (Zpos (digits2_pos M) = prec + n) as Hd.
  { apply digits2_pos_unique; [lia|].
    by replace (prec + n - 1) with (prec - 1 + n) by lia. }
  unfold shr_fexp, fexp. cbn [Zdigits2]. rewrite Hd.
  replace (Z.max (prec + n + e - prec) (emin prec emax) - e) with n by lia.
  destruct n as [|p|p]; [| |lia]; cbn [shr]; eexists; (split; [f_equal; lia|]).
  - simpl. by rewrite Z.div_1_r.
  - rewrite iter_shr_1_m; [done|simpl; lia].
Qed.

Lemma quotient_bounds M n :
  1 < prec → 0 ≤ n → 2 ^ (prec - 1 + n) ≤ M < 2 ^ (prec + n) →
  2 ^ (prec - 1) ≤ M / 2 ^ n < 2 ^ prec.
Proof.
  intros Hprec Hn [Hlo Hhi]. rewrite Z.pow_add_r in Hlo, Hhi by lia.
  pose proof (Z.pow_pos_nonneg 2 n). split.
  - apply Z.div_le_lower_bound; lia.
  - apply Z.div_lt_upper_bound; lia.
Qed.

(** A significand of [prec + n] bits is rounded to [prec] bits; a carry out of
    the top bit moves to the next exponent. *)
Lemma binary_normalize_round M e n :
  1 < prec → 0 ≤ n → emin prec emax ≤ e → e + n + 1 ≤ emax - prec →
  2 ^ (prec - 1 + n) ≤ M < 2 ^ (prec + n) →
  ∃ m, 2 ^ (prec - 1) ≤ Zpos m < 2 ^ prec ∧
    ((binary_normalize prec emax M e false = S754_finite false m (e + n) ∧
      (Zpos m = M / 2 ^ n ∨ Zpos m = M / 2 ^ n + 1)) ∨
     (binary_normalize prec emax M e false = S754_finite false m (e + n + 1) ∧
      Zpos m = 2 ^ (prec - 1) ∧ M / 2 ^ n + 1 = 2 ^ prec)).
Proof.
  intros Hprec Hn Hmin Hmax HM.
  pose proof (quotient_bounds M n Hprec Hn HM) as Hq.
  destruct (shr_fexp_exact M e n) as (mrs & Hshr & Hmrs); [done..|].
  assert (0 < 2 ^ (prec - 1)) by (apply Z.pow_pos_nonneg; lia).
  assert (2 ^ prec = 2 * 2 ^ (prec - 1)) as H2
    by (rewrite <- Z.pow_succ_r by lia; f_equal; lia).
  assert (binary_normalize prec emax M e false = binary_round_aux prec emax false M e loc_Exact)
    as ->.
  { assert (0 < 2 ^ (prec - 1 + n)) by (apply Z.pow_pos_nonneg; lia).
    destruct M as [|M|M]; [lia| |lia]. simpl. unfold binary_round, fexp.
    rewrite (digits2_pos_unique M (prec + n)); [|lia|].
    - replace (Z.max (prec + n + e - prec) (emin prec emax)) with (e + n) by lia.
      unfold shl_align. replace (e + n - e) with n by lia. by destruct n; [| |lia].
    - by replace (prec + n - 1) with (prec - 1 + n) by lia. }
  unfold binary_round_aux. rewrite Hshr, Hmrs.
  set (r := round_nearest_even (M / 2 ^ n) (loc_of_shr_record mrs)).
  assert (r = M / 2 ^ n ∨ r = M / 2 ^ n + 1) as Hr by apply round_nearest_even_cases.
  destruct (decide (r = 2 ^ prec)) as [Hc|Hc].
  - destruct (shr_fexp_exact r (e + n) 1) as (mrs' & -> & Hmrs'); [lia..| |].
    { rewrite Hc. replace (prec - 1 + 1) with prec by lia.
      replace (prec + 1) with (Z.succ prec) by lia. rewrite Z.pow_succ_r; lia. }
    exists (Z.to_pos (2 ^ (prec - 1))). rewrite Z2Pos.id by lia. split; [lia|]. right.
    split; [|lia]. rewrite Hmrs', Hc, H2, Z.mul_comm, Z.div_mul by lia.
    destruct (2 ^ (prec - 1)); [lia| |lia]. simpl.
    destruct (Z.leb_spec (e + n + 1) (emax - prec)); [done|lia].
  - destruct (shr_fexp_exact r (e + n) 0) as (mrs' & -> & Hmrs'); [lia..| |].
    { rewrite !Z.add_0_r. lia. }
    rewrite Z.div_1_r in Hmrs'. rewrite Hmrs'. destruct r as [|R|R]; [lia| |lia].
    exists R. split; [lia|]. left. split; [|done]. rewrite Z.add_0_r.
    destruct (Z.leb_spec (e + n) (emax - prec)); [done|lia].
Qed.
End Rounding.
