(* ===== verification/FloatInt.v ===== *)
(** * Floats and integers

    Rounding to integers and the casts between [f64] and unsigned integers, with the
    order on non-negative data seen as an order of integers: [scaled x] is the value of
    [x] as a multiple of the least subnormal, so that comparisons, [floor] and division
    by a power of two are statements of integer arithmetic. *)

From S2P Require Import Prelude Floats.

Local Open Scope Z_scope.

(** [f64::floor]. *)
Definition ffloor (x : f64) : f64 :=
  match x with
  | S754_finite s m e =>
      if 0 <=? e then x
      else
        let q := cond_Zopp s (Zpos m) / 2 ^ (- e) in
        if q =? 0 then S754_zero s else binary_normalize prec64 emax64 q 0 s
  | _ => x
  end.

(** The integer part of a non-negative datum, [0] for all others. *)
Definition int_part (x : f64) : Z :=
  match x with
  | S754_finite false m e => if 0 <=? e then Zpos m * 2 ^ e else Zpos m / 2 ^ (- e)
  | _ => 0
  end.

(** [x as u32]: truncation that saturates; NaN becomes zero. *)
Definition as_u32 (x : f64) : N :=
  match x with
  | S754_infinity false => u32_max
  | _ => N.min (Z.to_N (int_part x)) u32_max
  end.

(** [f64::from] of a [u8] or [u32], and [x as f64] of a [u64]. *)
Definition f64_of_N (n : N) : f64 := f64_of_Z (Z.of_N n).

Definition f64_zero : f64 := S754_zero false.

(** ** The order of data *)

Lemma fle_refl x : is_nan x = false → fle x x = true.
Proof.
  intros Hx. apply flt_false_fle; [done..|]. unfold flt, SFltb.
  destruct (SFcompare_some x x Hx Hx) as [c Hc]. rewrite Hc.
  pose proof (SFcompare_swap x x) as Hs. rewrite Hc in Hs. by destruct c.
Qed.

(** Comparison of significands under the exponents, as a statement about integers. *)
Lemma fle_finite s m1 e1 m2 e2 :
  fle (S754_finite s m1 e1) (S754_finite s m2 e2) = true ↔
  if s then (e2 < e1 ∨ (e1 = e2 ∧ Zpos m2 ≤ Zpos m1)) else (e1 < e2 ∨ (e1 = e2 ∧ Zpos m1 ≤ Zpos m2)).
Proof.
  destruct s; [|apply fle_positive]. unfold fle, SFleb, SFcompare.
  destruct (Z.compare_spec e1 e2) as [->|?|?]; [|split; [done|lia]|split; [lia|done]].
  change (Pos.compare_cont Eq m1 m2) with (m1 ?= m2)%positive.
  destruct (Pos.compare_spec m1 m2) as [->|?|?]; (split; intros; (done || lia)).
Qed.

Lemma fle_trans x y z : fle x y = true → fle y z = true → fle x z = true.
Proof.
  destruct x as [[]|[]| |s1 m1 e1], y as [[]|[]| |s2 m2 e2], z as [[]|[]| |s3 m3 e3];
    try done; try (destruct s1; try done); try (destruct s2; try done); try (destruct s3; try done);
    rewrite !fle_finite; lia.
Qed.

Lemma flt_fle x y : flt x y = true → fle x y = true.
Proof. unfold flt, fle, SFltb, SFleb. by destruct (SFcompare x y) as [[]|]. Qed.

Lemma flt_not_fle x y : is_nan x = false → is_nan y = false → flt x y = negb (fle y x).
Proof.
  intros Hx Hy. destruct (SFcompare_some x y Hx Hy) as [c Hc].
  unfold flt, fle, SFltb, SFleb. rewrite (SFcompare_swap x y), Hc. by destruct c.
Qed.

Lemma fle_feq x y : fle x y = true → fle y x = true → feq x y = true.
Proof.
  unfold fle, feq, SFleb, SFeqb. rewrite (SFcompare_swap x y).
  by destruct (SFcompare x y) as [[]|].
Qed.

Lemma feq_fle x y : feq x y = true → fle x y = true ∧ fle y x = true.
Proof.
  unfold fle, feq, SFleb, SFeqb. rewrite (SFcompare_swap x y).
  by destruct (SFcompare x y) as [[]|].
Qed.

(** ** Values of non-negative data *)

Definition nonneg (x : f64) : bool := fle f64_zero x.

Definition scaled (x : f64) : Z :=
  match x with S754_finite false m e => Zpos m * 2 ^ (e + 1074) | _ => 0 end.

Lemma f64_ok_finite s m e :
  f64_ok (S754_finite s m e) = true ↔
  -1074 ≤ e ≤ 971 ∧ Zpos m < 2 ^ 53 ∧ (-1074 < e → 2 ^ 52 ≤ Zpos m).
Proof.
  unfold f64_ok, valid_binary, bounded, canonical_mantissa, fexp, emin, prec64, emax64.
  pose proof (digits2_pos_bounds m) as [Hlo Hhi]. set (d := Zpos (digits2_pos m)) in *.
  rewrite andb_true_iff, Z.eqb_eq, Z.leb_le. split.
  - intros [Hc He]. assert (d ≤ 53) by lia.
    assert (2 ^ d ≤ 2 ^ 53) by (apply Z.pow_le_mono_r; lia). split; [lia|]. split; [lia|].
    intros. assert (2 ^ 52 ≤ 2 ^ (d - 1)) by (apply Z.pow_le_mono_r; lia). lia.
  - intros (He & Hm & Hn).
    assert (d - 1 < 53).
    { apply (Z.pow_lt_mono_r_iff 2); lia. }
    split; [|lia]. destruct (decide (e = -1074)) as [->|]; [lia|].
    assert (52 < d); [|lia].
    apply (Z.pow_lt_mono_r_iff 2); lia.
Qed.

Lemma int_part_scaled x : f64_ok x = true → int_part x = scaled x / 2 ^ 1074.
Proof.
  destruct x as [| | |[] m e]; try done. intros ((He & _) & _)%f64_ok_finite. cbn [int_part scaled].
  destruct (Z.leb_spec 0 e).
  - rewrite Z.pow_add_r, Z.mul_assoc, Z.div_mul by lia. done.
  - replace (2 ^ 1074) with (2 ^ (- e) * 2 ^ (e + 1074))
      by (rewrite <- Z.pow_add_r by lia; f_equal; lia).
    rewrite Z.div_mul_cancel_r; [done|lia|]. apply Z.pow_nonzero; lia.
Qed.

(** The order of non-negative data is the order of their values. *)
Lemma fle_scaled x y :
  f64_ok x = true → f64_ok y = true → is_finite x = true → is_finite y = true →
  nonneg x = true → nonneg y = true → fle x y = true ↔ scaled x ≤ scaled y.
Proof.
  intros Hx Hy Fx Fy Nx Ny.
  destruct x as [sx| | |[] m1 e1], y as [sy| | |[] m2 e2]; try done.
  - simpl. split; [lia|done].
  - apply f64_ok_finite in Hx as ((H1 & _) & _). cbn [scaled].
    pose proof (Z.pow_pos_nonneg 2 (e1 + 1074)). split; [done|nia].
  - rewrite fle_positive. cbn [scaled].
    apply f64_ok_finite in Hx as (? & ? & Hn1), Hy as (? & ? & Hn2).
    pose proof (Z.pow_pos_nonneg 2 (e1 + 1074) ltac:(lia) ltac:(lia)).
    pose proof (Z.pow_pos_nonneg 2 (e2 + 1074) ltac:(lia) ltac:(lia)).
    assert (∀ a b m n, a + 1 ≤ b → -1074 ≤ a → Zpos m < 2 ^ 53 → 2 ^ 52 ≤ Zpos n →
      Zpos m * 2 ^ (a + 1074) < Zpos n * 2 ^ (b + 1074)) as Hexp.
    { intros a b m n Hab Ha Hm Hn.
      replace (b + 1074) with ((a + 1074) + (1 + (b - a - 1))) by lia.
      set (k := a + 1074). set (d := b - a - 1). rewrite !Z.pow_add_r by lia.
      pose proof (Z.pow_pos_nonneg 2 k). pose proof (Z.pow_pos_nonneg 2 d).
      rewrite Z.mul_comm, (Z.mul_comm (Zpos n)), <- Z.mul_assoc.
      apply Z.mul_lt_mono_pos_l; [lia|]. rewrite Z.pow_1_r. nia. }
    destruct (Z.lt_trichotomy e1 e2) as [Hlt|[->|Hgt]].
    + split; [|lia]. intros _. apply Z.lt_le_incl, Hexp; lia.
    + rewrite <- Z.mul_le_mono_pos_r by done. lia.
    + split; [lia|]. intros Hle. exfalso.
      pose proof (Hexp e2 e1 m2 m1 ltac:(lia) ltac:(lia) ltac:(lia) ltac:(lia)). lia.
Qed.

Lemma int_part_mono x y :
  f64_ok x = true → f64_ok y = true → is_finite x = true → is_finite y = true →
  nonneg x = true → nonneg y = true → fle x y = true → int_part x ≤ int_part y.
Proof.
  intros. rewrite !int_part_scaled by done. apply Z.div_le_mono; [lia|]. by apply fle_scaled.
Qed.

Lemma as_u32_finite x : is_finite x = true → as_u32 x = N.min (Z.to_N (int_part x)) u32_max.
Proof. by destruct x as [|[]| |]. Qed.

(** ** Rounding without loss *)

Lemma digits2_le m d : 0 ≤ d → Zpos m < 2 ^ d → Zpos (digits2_pos m) ≤ d.
Proof.
  intros Hd Hm. pose proof (digits2_pos_bounds m) as [Hlo _].
  assert (Zpos (digits2_pos m) - 1 < d); [|lia]. apply (Z.pow_lt_mono_r_iff 2); lia.
Qed.

Lemma shr_fexp_id M e l :
  -1074 ≤ e → 0 ≤ M < 2 ^ 53 → shr_fexp prec64 emax64 M e l = (shr_record_of_loc M l, e).
Proof.
  intros He HM. unfold shr_fexp, fexp, emin, prec64, emax64.
  assert (0 ≤ Zdigits2 M ≤ 53).
  { destruct M as [|M|M]; simpl; [lia| |lia]. pose proof (digits2_le M 53). lia. }
  destruct (Z.max (Zdigits2 M + e - 53) (3 - 1024 - 53) - e) eqn:Hs; [done|lia|done].
Qed.

Lemma shr_m_record M l : shr_m (shr_record_of_loc M l) = M.
Proof. by destruct l as [|[]]. Qed.

Lemma loc_of_record M l : loc_of_shr_record (shr_record_of_loc M l) = l.
Proof. by destruct l as [|[]]. Qed.

(** A significand of at most 53 bits is not shifted; only its location rounds it. *)
Lemma binary_round_aux_small s M e l :
  -1074 ≤ e ≤ 971 → 0 ≤ M < 2 ^ 53 → round_nearest_even M l < 2 ^ 53 →
  binary_round_aux prec64 emax64 s M e l =
  match round_nearest_even M l with
  | Z0 => S754_zero s
  | Zpos m => S754_finite s m e
  | Zneg _ => S754_nan
  end.
Proof.
  intros He HM Hr. unfold binary_round_aux. rewrite shr_fexp_id, shr_m_record, loc_of_record by lia.
  set (r := round_nearest_even M l) in *.
  assert (r = M ∨ r = M + 1) by apply round_nearest_even_cases.
  rewrite shr_fexp_id, shr_m_record by lia. destruct r; try done.
  unfold prec64, emax64. by destruct (Z.leb_spec e (1024 - 53)); [|lia].
Qed.

Lemma snd_shl_align m e e' : e' ≤ e → snd (shl_align m e e') = e'.
Proof. intros He. unfold shl_align. destruct (e' - e) eqn:Hd; simpl; lia. Qed.

(** Integers below [2 ^ 53] are represented exactly. *)
Lemma of_Z_exact z :
  0 < z < 2 ^ 53 →
  ∃ m e, f64_of_Z z = S754_finite false m e ∧ -52 ≤ e ≤ 0 ∧ Zpos m = z * 2 ^ (- e) ∧
    2 ^ 52 ≤ Zpos m < 2 ^ 53.
Proof.
  destruct z as [|z|z]; [lia| |lia]. intros Hz.
  pose proof (digits2_pos_bounds z) as [Hlo Hhi]. pose proof (digits2_le z 53 ltac:(lia)) as Hd.
  set (d := Zpos (digits2_pos z)) in *. assert (1 ≤ d) by lia.
  unfold f64_of_Z, of_Z. cbn [binary_normalize]. unfold binary_round. fold d.
  assert (fexp prec64 emax64 (d + 0) = d - 53) as ->
    by (unfold fexp, emin, prec64, emax64; lia).
  pose proof (shl_align_value z 0 (d - 53) ltac:(lia)) as Hv.
  pose proof (snd_shl_align z 0 (d - 53) ltac:(lia)) as He.
  destruct (shl_align z 0 (d - 53)) as [m e]. simpl in Hv, He. subst e.
  replace (0 - (d - 53)) with (53 - d) in Hv by lia.
  assert (2 ^ 52 = 2 ^ (d - 1) * 2 ^ (53 - d)) as H52
    by (rewrite <- Z.pow_add_r by lia; f_equal; lia).
  assert (2 ^ 53 = 2 ^ d * 2 ^ (53 - d)) as H53
    by (rewrite <- Z.pow_add_r by lia; f_equal; lia).
  pose proof (Z.pow_pos_nonneg 2 (53 - d) ltac:(lia) ltac:(lia)).
  assert (2 ^ 52 ≤ Zpos m < 2 ^ 53) as Hm.
  { rewrite Hv, H52, H53. split; [apply Z.mul_le_mono_nonneg_r|apply Z.mul_lt_mono_pos_r]; lia. }
  exists m, (d - 53). split_and!; try lia.
  - rewrite binary_round_aux_small; simpl; lia || done.
  - rewrite Hv. do 2 f_equal. lia.
Qed.

Lemma of_N_scaled n : (n < 2 ^ 53)%N → scaled (f64_of_N n) = Z.of_N n * 2 ^ 1074.
Proof.
  intros Hn. unfold f64_of_N. destruct (decide (n = 0%N)) as [->|]; [done|].
  destruct (of_Z_exact (Z.of_N n)) as (m & e & -> & He & Hm & _); [lia|]. cbn [scaled].
  rewrite Hm, <- Z.mul_assoc, <- Z.pow_add_r by lia. do 2 f_equal. lia.
Qed.

Lemma of_N_ok n :
  (n < 2 ^ 53)%N →
  f64_ok (f64_of_N n) = true ∧ is_finite (f64_of_N n) = true ∧ nonneg (f64_of_N n) = true.
Proof.
  intros Hn. unfold f64_of_N. destruct (decide (n = 0%N)) as [->|]; [done|].
  destruct (of_Z_exact (Z.of_N n)) as (m & e & -> & He & _ & Hm); [lia|].
  split; [|done]. apply f64_ok_finite. lia.
Qed.

Lemma of_N_int_part n : (n < 2 ^ 53)%N → int_part (f64_of_N n) = Z.of_N n.
Proof.
  intros Hn. destruct (of_N_ok n Hn) as (? & _). rewrite int_part_scaled, of_N_scaled by done.
  apply Z.div_mul. by compute.
Qed.

Lemma of_N_le a b :
  (a < 2 ^ 53)%N → (b < 2 ^ 53)%N → fle (f64_of_N a) (f64_of_N b) = true ↔ (a ≤ b)%N.
Proof.
  intros Ha Hb. destruct (of_N_ok a Ha) as (? & ? & ?), (of_N_ok b Hb) as (? & ? & ?).
  rewrite fle_scaled, !of_N_scaled by done. assert (0 < 2 ^ 1074) by by compute.
  rewrite <- Z.mul_le_mono_pos_r by done. lia.
Qed.

Lemma ffloor_int_part x :
  f64_ok x = true → is_finite x = true → nonneg x = true →
  int_part (ffloor x) = int_part x ∧ is_finite (ffloor x) = true ∧ nonneg (ffloor x) = true.
Proof.
  intros Hx Fx Nx. destruct x as [| | |[] m e]; try done. cbn [ffloor int_part cond_Zopp].
  destruct (Z.leb_spec 0 e) as [He|He].
  { cbn [int_part]. by destruct (Z.leb_spec 0 e); [|lia]. }
  apply f64_ok_finite in Hx as (He' & Hm & _).
  pose proof (Z.pow_pos_nonneg 2 (- e) ltac:(lia) ltac:(lia)).
  assert (2 ^ 1 ≤ 2 ^ (- e)) by (apply Z.pow_le_mono_r; lia).
  set (q := Zpos m / 2 ^ (- e)).
  assert (0 ≤ q < 2 ^ 53) as Hq.
  { split; [apply Z.div_pos; lia|]. apply Z.div_lt_upper_bound; nia. }
  destruct (Z.eqb_spec q 0) as [->|Hq0]; [done|].
  assert (binary_normalize prec64 emax64 q 0 false = f64_of_N (Z.to_N q)) as ->
    by (unfold f64_of_N; rewrite Z2N.id by lia; done).
  destruct (of_N_ok (Z.to_N q)) as (? & ? & ?); [lia|]. split; [|done].
  rewrite of_N_int_part; lia.
Qed.

(** ** Division by 256 *)

Lemma f64_256 : f64_of_N 256 = S754_finite false 4503599627370496 (-44).
Proof. reflexivity. Qed.

Lemma fdiv_256_core m e :
  let e' := Z.min (Z.max (Zpos (digits2_pos m) + e - 9 - 53) (-1074)) (e + 44) in
  let s := e + 44 - e' in
  fdiv prec64 emax64 (S754_finite false m e) (f64_of_N 256) =
  binary_round_aux prec64 emax64 false (Zpos m * 2 ^ s / 2 ^ 52) e'
    (new_location (2 ^ 52) (Zpos m * 2 ^ s mod 2 ^ 52)).
Proof.
  intros e' s. rewrite f64_256. unfold fdiv, SFdiv, SFdiv_core_binary.
  change (Zdigits2 (Zpos 4503599627370496)) with 53. cbn [Zdigits2 xorb].
  assert (Z.min (fexp prec64 emax64 (Zpos (digits2_pos m) + e - (53 + -44))) (e - -44) = e') as ->
    by (unfold fexp, emin, prec64, emax64; lia).
  replace (e - -44 - e') with s by lia.
  assert (match s with Z0 => Zpos m | Zpos _ => Z.shiftl (Zpos m) s | Zneg _ => 0 end =
    Zpos m * 2 ^ s) as ->.
  { destruct s eqn:Hs; [lia| |lia]. by rewrite Z.shiftl_mul_pow2. }
  change (Zpos 4503599627370496) with (2 ^ 52).
  rewrite (surjective_pairing (Z.div_eucl _ _)). done.
Qed.

(** One bit too many, and that bit zero. *)
Lemma shr_fexp_double m e :
  -1074 ≤ e → 2 ^ 52 ≤ Zpos m < 2 ^ 53 →
  shr_fexp prec64 emax64 (Zpos (xO m)) e loc_Exact = (Build_shr_record (Zpos m) false false, e + 1).
Proof.
  intros He Hm. unfold shr_fexp, fexp, emin. change (Zdigits2 (Zpos (xO m))) with
    (Zpos (Pos.succ (digits2_pos m))).
  rewrite Pos2Z.inj_succ, (digits2_pos_unique m 53) by lia. unfold prec64, emax64.
  by replace (Z.max _ _ - e) with 1 by lia.
Qed.

(** Away from the subnormals the quotient is exact. *)
Lemma fdiv_256_normal m e :
  -1066 ≤ e ≤ 971 → 2 ^ 52 ≤ Zpos m < 2 ^ 53 →
  fdiv prec64 emax64 (S754_finite false m e) (f64_of_N 256) = S754_finite false m (e - 8).
Proof.
  intros He Hm. pose proof (fdiv_256_core m e) as Hc. cbv zeta in Hc.
  rewrite (digits2_pos_unique m 53) in Hc by lia. rewrite Hc. clear Hc.
  destruct (decide (e = -1066)) as [->|Hne].
  - change (-1066 + 44 - _) with 52. rewrite Z.div_mul, Z.mod_mul by by compute.
    change (Z.min _ _) with (-1074). change (new_location _ 0) with loc_Exact.
    rewrite binary_round_aux_small by (simpl; lia). done.
  - replace (Z.min _ _) with (e - 9) by lia. replace (e + 44 - (e - 9)) with (1 + 52) by lia.
    rewrite Z.pow_add_r, Z.mul_assoc, Z.div_mul, Z.mod_mul by by compute.
    change (new_location _ 0) with loc_Exact.
    replace (Zpos m * 2 ^ 1) with (Zpos (xO m)) by lia.
    unfold binary_round_aux. rewrite shr_fexp_double by lia.
    cbn [shr_m loc_of_shr_record round_nearest_even]. rewrite shr_fexp_id, shr_m_record by lia.
    replace (e - 9 + 1) with (e - 8) by lia.
    by destruct (Z.leb_spec (e - 8) (emax64 - prec64)); [|unfold emax64, prec64 in *; lia].
Qed.

(** Among them it stays below one. *)
Lemma fdiv_256_tiny m e :
  -1074 ≤ e < -1066 → Zpos m < 2 ^ 53 →
  ∃ q, 0 ≤ q ≤ 2 ^ 52 ∧
    fdiv prec64 emax64 (S754_finite false m e) (f64_of_N 256) =
    match q with Zpos q => S754_finite false q (-1074) | _ => S754_zero false end.
Proof.
  intros He Hm. pose proof (fdiv_256_core m e) as Hc. cbv zeta in Hc.
  pose proof (digits2_le m 53 ltac:(lia) Hm).
  replace (Z.min _ _) with (-1074) in Hc by lia. rewrite Hc. clear Hc.
  set (s := e + 44 - -1074). set (l := new_location _ _). set (q := Zpos m * 2 ^ s / 2 ^ 52).
  assert (2 ^ s ≤ 2 ^ 51) by (apply Z.pow_le_mono_r; lia).
  pose proof (Z.pow_pos_nonneg 2 s ltac:(lia) ltac:(lia)).
  assert (0 ≤ q < 2 ^ 52) as Hq.
  { split; [apply Z.div_pos; lia|]. apply Z.div_lt_upper_bound; [lia|].
    apply Z.lt_le_trans with (2 ^ 53 * 2 ^ s); [by apply Z.mul_lt_mono_pos_r|].
    change (2 ^ 53) with (2 * 2 ^ 52). change (2 ^ 52 * 2 ^ 52) with (2 * 2 ^ 52 * 2 ^ 51).
    by apply Z.mul_le_mono_nonneg_l. }
  exists (round_nearest_even q l).
  assert (round_nearest_even q l = q ∨ round_nearest_even q l = q + 1) as Hr
    by apply round_nearest_even_cases.
  split; [lia|]. rewrite binary_round_aux_small by lia.
  destruct (round_nearest_even q l) as [|r|r]; [done..|lia].
Qed.

(** The quotient by 256 has the integer part the integers suggest. *)
Lemma fdiv_256_int_part x :
  f64_ok x = true → is_finite x = true → nonneg x = true →
  let y := fdiv prec64 emax64 x (f64_of_N 256) in
  f64_ok y = true ∧ is_finite y = true ∧ nonneg y = true ∧ int_part y = int_part x / 256.
Proof.
  intros Hx Fx Nx y. subst y. destruct x as [[]| | |[] m e]; try done.
  pose proof Hx as (He & Hm & Hn)%f64_ok_finite.
  destruct (decide (-1066 ≤ e)) as [Hbig|Hsmall].
  - rewrite fdiv_256_normal by lia.
    assert (f64_ok (S754_finite false m (e - 8)) = true) as Hy by (apply f64_ok_finite; lia).
    split_and!; try done. rewrite !int_part_scaled by done. cbn [scaled].
    rewrite Z.div_div by by compute. rewrite (Z.mul_comm (2 ^ 1074)).
    replace (e + 1074) with (8 + (e - 8 + 1074)) by lia.
    rewrite (Z.pow_add_r 2 8) by lia. change (2 ^ 8) with 256.
    rewrite Z.mul_assoc, (Z.mul_comm (Zpos m) 256), <- Z.mul_assoc.
    by rewrite Z.div_mul_cancel_l.
  - destruct (fdiv_256_tiny m e ltac:(lia) Hm) as (q & Hq & ->).
    assert (int_part (S754_finite false m e) = 0) as ->.
    { rewrite int_part_scaled by done. cbn [scaled]. apply Z.div_small.
      assert (2 ^ (e + 1074) ≤ 2 ^ 8) by (apply Z.pow_le_mono_r; lia).
      pose proof (Z.pow_pos_nonneg 2 (e + 1074)).
      split; [lia|]. apply Z.lt_le_trans with (2 ^ 53 * 2 ^ 8); [nia|]. by compute. }
    destruct q as [|q|q]; [done| |lia].
    assert (f64_ok (S754_finite false q (-1074)) = true) as Hy by (apply f64_ok_finite; lia).
    split_and!; try done. rewrite int_part_scaled by done. cbn [scaled].
    apply Z.div_small. change (2 ^ (-1074 + 1074)) with 1.
    split; [lia|]. apply Z.le_lt_trans with (2 ^ 52); [lia|by compute].
Qed.

(** ** Bits *)

(** [f64::to_bits], with the quiet NaN Rust produces. *)
Definition f64_to_bits (x : f64) : N :=
  let sign (s : bool) := if s then N.shiftl 1 63 else 0%N in
  match x with
  | S754_zero s => sign s
  | S754_infinity s => (sign s + N.shiftl 2047 52)%N
  | S754_nan => N.shiftl 0xFFF 51
  | S754_finite s m e =>
      if (N.pos m <? N.shiftl 1 52)%N then (sign s + N.pos m)%N
      else (sign s + N.shiftl (Z.to_N (e + 1075)) 52 + (N.pos m - N.shiftl 1 52))%N
  end.

Example f64_bits_one : f64_to_bits (f64_of_N 1) = 0x3FF0000000000000%N.
Proof. reflexivity. Qed.
Example f64_bits_tenth : f64_to_bits (fneg (f64_lit 1 10)) = 0xBFB999999999999A%N.
Proof. reflexivity. Qed.

(** Exponent and fraction fields of finite data. *)
Definition bit_fields (x : f64) : N * N :=
  match x with
  | S754_finite _ m e =>
      if (N.pos m <? 2 ^ 52)%N then (0, N.pos m)%N else (Z.to_N (e + 1075), N.pos m - 2 ^ 52)%N
  | _ => (0, 0)%N
  end.

Lemma f64_to_bits_fields x :
  f64_ok x = true → is_finite x = true →
  f64_to_bits x = ((if is_sign_negative x then 2 ^ 63 else 0) + (bit_fields x).1 * 2 ^ 52
    + (bit_fields x).2)%N ∧
  ((bit_fields x).1 < 2 ^ 11)%N ∧ ((bit_fields x).2 < 2 ^ 52)%N.
Proof.
  intros Hx Fx. destruct x as [s| | |s m e]; try done.
  { destruct s; by compute. }
  apply f64_ok_finite in Hx as (He & Hm & _). unfold f64_to_bits, bit_fields, is_sign_negative.
  rewrite !N.shiftl_mul_pow2, !N.mul_1_l. change (2 ^ 52)%N with 4503599627370496%N in *.
  change (2 ^ 63)%N with 9223372036854775808%N in *. change (2 ^ 11)%N with 2048%N.
  change (2 ^ 53) with 9007199254740992 in Hm.
  destruct (N.ltb_spec (N.pos m) 4503599627370496); simpl fst; simpl snd; destruct s; lia.
Qed.

Lemma bit_fields_finite s m e :
  f64_ok (S754_finite s m e) = true →
  ∃ k f, bit_fields (S754_finite s m e) = (k, f) ∧
    ((k = 0%N ∧ e = -1074 ∧ f = N.pos m) ∨
     (k ≠ 0%N ∧ e = Z.of_N k - 1075 ∧ f = (N.pos m - 4503599627370496)%N ∧ (4503599627370496 ≤ N.pos m)%N)).
Proof.
  intros (He & Hm & Hn)%f64_ok_finite. change (2 ^ 52) with 4503599627370496 in Hn.
  unfold bit_fields. change (2 ^ 52)%N with 4503599627370496%N.
  destruct (N.ltb_spec (N.pos m) 4503599627370496); do 2 eexists; (split; [reflexivity|]).
  - left. split_and!; [done|lia|done].
  - right. split_and!; [lia..|done].
Qed.

Lemma bit_fields_inj x y :
  f64_ok x = true → is_finite x = true → f64_ok y = true → is_finite y = true →
  is_sign_negative x = is_sign_negative y → bit_fields x = bit_fields y → x = y.
Proof.
  intros Ox Fx Oy Fy Hs Hf. destruct x as [sx| | |sx mx ex]; [|discriminate Fx..|];
    (destruct y as [sy| | |sy my ey]; [|discriminate Fy..|]); simpl in Hs; subst sy.
  - reflexivity.
  - destruct (bit_fields_finite sx my ey Oy) as (k & f & Hkf & Hcase).
    rewrite Hkf in Hf. simpl in Hf. injection Hf as <- <-. exfalso. lia.
  - destruct (bit_fields_finite sx mx ex Ox) as (k & f & Hkf & Hcase).
    rewrite Hkf in Hf. simpl in Hf. injection Hf as -> ->. exfalso. lia.
  - destruct (bit_fields_finite sx mx ex Ox) as (k & f & Hkf & Hcase).
    destruct (bit_fields_finite sx my ey Oy) as (k' & f' & Hkf' & Hcase').
    rewrite Hkf, Hkf' in Hf. injection Hf as <- <-. clear Hkf Hkf' Ox Oy.
    assert (ex = ey) as -> by lia. assert (mx = my) as -> by lia. reflexivity.
Qed.

Lemma f64_to_bits_inj x y :
  f64_ok x = true → is_finite x = true → f64_ok y = true → is_finite y = true →
  f64_to_bits x = f64_to_bits y → x = y.
Proof.
  intros Ox Fx Oy Fy H.
  destruct (f64_to_bits_fields x Ox Fx) as (Hx & Hx1 & Hx2).
  destruct (f64_to_bits_fields y Oy Fy) as (Hy & Hy1 & Hy2).
  rewrite Hx, Hy in H. clear Hx Hy.
  cut (is_sign_negative x = is_sign_negative y ∧ bit_fields x = bit_fields y).
  { intros [??]. by apply bit_fields_inj. }
  clear Ox Fx Oy Fy. destruct (bit_fields x) as [kx fx], (bit_fields y) as [ky fy].
  cbn [fst snd] in *. change (2 ^ 52)%N with 4503599627370496%N in *.
  change (2 ^ 63)%N with 9223372036854775808%N in *. change (2 ^ 11)%N with 2048%N in *.
  assert (is_sign_negative x = is_sign_negative y) as Hs
    by (destruct (is_sign_negative x), (is_sign_negative y); cbn iota in H; try reflexivity;
        exfalso; lia).
  split; [exact Hs|]. rewrite <- Hs in H. destruct (is_sign_negative x); cbn iota in H.
  all: assert (kx = ky) as -> by lia; f_equal; lia.
Qed.

Lemma f64_to_bits_bound x :
  f64_ok x = true → is_finite x = true → (f64_to_bits x < 256 ^ 8)%N.
Proof.
  intros Ox Fx. destruct (f64_to_bits_fields x Ox Fx) as (-> & Hx1 & Hx2).
  change (2 ^ 52)%N with 4503599627370496%N in *. change (2 ^ 63)%N with 9223372036854775808%N in *.
  change (2 ^ 11)%N with 2048%N in *. change (256 ^ 8)%N with 18446744073709551616%N.
  destruct (is_sign_negative x); lia.
Qed.
