(* ===== verification/FloatRound.v ===== *)
(** * Rounding

    The arithmetic of [f64] is correctly rounded: the result of an operation is a datum of
    the format ([pack_ok]), lies between any two representable numbers that enclose the
    exact result ([rounds_lower], [rounds_upper]) and is within half a unit in the last place of it. The
    values of data are integers, scaled by [2 ^ 2148] so that products stay integral. *)

From S2P Require Import Prelude Floats FloatInt.

Local Open Scope Z_scope.

(** The weight of an exponent. *)
Definition weight (e : Z) : Z := 2 ^ (e + 2148).

Definition val (x : f64) : Z :=
  match x with
  | S754_finite s m e => cond_Zopp s (Zpos m) * weight e
  | _ => 0
  end.

Definition max_val : Z := (2 ^ 53 - 1) * weight 971.

(** A number a finite datum can hold, whatever the form its significand is given in. *)
Definition representable (v : Z) : Prop :=
  Z.abs v ≤ max_val ∧ ∃ m e, -1074 ≤ e ∧ Z.abs m ≤ 2 ^ 53 ∧ v = m * weight e.

Lemma weight_pos e : -2148 ≤ e → 0 < weight e.
Proof. intros He. unfold weight. apply Z.pow_pos_nonneg; lia. Qed.

Lemma weight_add e k : -2148 ≤ e → 0 ≤ k → weight (e + k) = 2 ^ k * weight e.
Proof. intros He Hk. unfold weight. rewrite <- Z.pow_add_r by lia. f_equal. lia. Qed.

Lemma weight_split a b : -2148 ≤ b ≤ a → weight a = 2 ^ (a - b) * weight b.
Proof. intros H. rewrite <- weight_add by lia. f_equal. lia. Qed.

(** ** Shifting right keeps track of what is lost *)

(** The record stands for the quotient [M / P], its two bits for the remainder. *)
Definition shifted (M P : Z) (r : shr_record) : Prop :=
  shr_m r = M / P ∧
  match shr_r r, shr_s r with
  | false, false => M mod P = 0
  | false, true => 0 < 2 * (M mod P) < P
  | true, false => 2 * (M mod P) = P
  | true, true => P < 2 * (M mod P)
  end.

Lemma shr_1_shifted M P r : 0 ≤ M → 0 < P → shifted M P r → shifted M (2 * P) (shr_1 r).
Proof.
  intros HM Hp [Hm Hl].
  assert (0 ≤ M / P) as Hq0 by (apply Z.div_pos; lia).
  pose proof (Z.mod_pos_bound M P Hp) as Hr. rewrite (Z.mul_comm 2).
  assert (shr_m (shr_1 r) = M / (P * 2)) as Hdiv.
  { rewrite shr_1_m by lia. rewrite Hm, Z.div_div by lia. done. }
  assert (M mod (P * 2) = P * ((M / P) mod 2) + M mod P) as Hmod.
  { rewrite Z.rem_mul_r by lia. lia. }
  split; [done|]. rewrite Hmod. clear Hmod Hdiv.
  set (q := M / P) in *. set (rest := M mod P) in *.
  destruct r as [m rr s]. simpl in Hm, Hl. subst m. clearbody q rest.
  destruct q as [|[p|p|]|p]; [| | | |lia].
  - change (0 mod 2) with 0. destruct rr, s; simpl; lia.
  - rewrite (Pos2Z.inj_xI p), <- (Z.mod_unique_pos (2 * Zpos p + 1) 2 (Zpos p) 1) by lia.
    destruct rr, s; simpl; lia.
  - rewrite (Pos2Z.inj_xO p), <- (Z.mod_unique_pos (2 * Zpos p) 2 (Zpos p) 0) by lia.
    destruct rr, s; simpl; lia.
  - change (1 mod 2) with 1. destruct rr, s; simpl; lia.
Qed.

Lemma iter_shr_shifted M P p r : 0 ≤ M → 0 < P →
  shifted M P r → shifted M (2 ^ Zpos p * P) (SpecFloat.iter_pos shr_1 p r).
Proof.
  intros HM. revert P r. induction p as [p IH|p IH|]; intros P r HP Hr; simpl.
  - pose proof (Z.pow_pos_nonneg 2 (Zpos p) ltac:(lia) ltac:(lia)).
    replace (2 ^ Zpos p~1 * P) with (2 ^ Zpos p * (2 ^ Zpos p * (2 * P))).
    + apply IH; [nia|]. apply IH; [nia|]. by apply shr_1_shifted.
    + replace (Zpos p~1) with (1 + Zpos p + Zpos p) by lia. rewrite !Z.pow_add_r by lia. lia.
  - pose proof (Z.pow_pos_nonneg 2 (Zpos p) ltac:(lia) ltac:(lia)).
    replace (2 ^ Zpos p~0 * P) with (2 ^ Zpos p * (2 ^ Zpos p * P)).
    + apply IH; [nia|]. by apply IH.
    + replace (Zpos p~0) with (Zpos p + Zpos p) by lia. rewrite !Z.pow_add_r by lia. lia.
  - by apply shr_1_shifted.
Qed.

(** The shift of [shr_fexp], with its target exponent. *)
Definition target (M e : Z) : Z := fexp prec64 emax64 (Zdigits2 M + e).

Lemma shr_fexp_shifted M P e l :
  0 ≤ M → 0 < P → shifted M P (shr_record_of_loc (M / P) l) → e ≤ target (M / P) e →
  ∃ r, shr_fexp prec64 emax64 (M / P) e l = (r, target (M / P) e) ∧
    shifted M (2 ^ (target (M / P) e - e) * P) r.
Proof.
  intros HM HP Hl He. unfold shr_fexp. fold (target (M / P) e).
  destruct (target (M / P) e - e) as [|p|p] eqn:Hn; [| |lia]; cbn [shr]; eexists.
  - split; [f_equal; lia|]. change (2 ^ 0) with 1. by rewrite Z.mul_1_l.
  - split; [f_equal; lia|]. by apply iter_shr_shifted.
Qed.

Lemma shr_fexp_m M e l :
  0 ≤ M → e ≤ target M e →
  ∃ r, shr_fexp prec64 emax64 M e l = (r, target M e) ∧ shr_m r = M / 2 ^ (target M e - e).
Proof.
  intros HM He. unfold shr_fexp. fold (target M e).
  destruct (target M e - e) as [|p|p] eqn:Hn; [| |lia]; cbn [shr]; eexists.
  - split; [f_equal; lia|]. rewrite shr_m_record. by rewrite Z.div_1_r.
  - split; [f_equal; lia|]. rewrite iter_shr_1_m; rewrite shr_m_record; done.
Qed.

Lemma Zdigits2_bounds M : 0 < M → 2 ^ (Zdigits2 M - 1) ≤ M < 2 ^ Zdigits2 M.
Proof. destruct M as [|m|m]; [lia| |lia]. intros _. apply digits2_pos_bounds. Qed.

Lemma Zdigits2_nonneg M : 0 ≤ Zdigits2 M.
Proof. destruct M; simpl; lia. Qed.

Lemma Zdigits2_le M d : 0 ≤ d → 0 ≤ M < 2 ^ d → Zdigits2 M ≤ d.
Proof. destruct M as [|m|m]; simpl; [lia| |lia]. intros ? [_ ?]. by apply digits2_le. Qed.

Lemma Zdigits2_ge M d : 0 ≤ d → 2 ^ d ≤ M → d + 1 ≤ Zdigits2 M.
Proof.
  intros Hd HM. assert (0 < 2 ^ d) by (apply Z.pow_pos_nonneg; lia).
  pose proof (Zdigits2_bounds M ltac:(lia)) as [_ Hhi].
  assert (d < Zdigits2 M); [|lia]. apply (Z.pow_lt_mono_r_iff 2); [lia|apply Zdigits2_nonneg|lia].
Qed.

Lemma target_eq M e : target M e = Z.max (Zdigits2 M + e - 53) (-1074).
Proof. done. Qed.

(** Shifted to the target, a significand has at most 53 bits, and all 53 above the bottom. *)
Lemma target_quotient M e :
  0 ≤ M → e ≤ target M e →
  0 ≤ M / 2 ^ (target M e - e) < 2 ^ 53 ∧
  (-1074 < target M e → 2 ^ 52 ≤ M / 2 ^ (target M e - e)).
Proof.
  intros HM He. rewrite target_eq in *. set (d := Zdigits2 M) in *.
  set (f := Z.max (d + e - 53) (-1074)) in *.
  pose proof (Z.pow_pos_nonneg 2 (f - e) ltac:(lia) ltac:(lia)) as Hp.
  split; [split; [by apply Z.div_pos|]|].
  - apply Z.div_lt_upper_bound; [done|].
    destruct (decide (M = 0)) as [->|]; [lia|].
    pose proof (Zdigits2_bounds M ltac:(lia)) as [_ Hhi]. fold d in Hhi.
    rewrite <- Z.pow_add_r by lia. eapply Z.lt_le_trans; [exact Hhi|].
    apply Z.pow_le_mono_r; lia.
  - intros Hf. assert (f = d + e - 53) as Ef by lia.
    assert (M ≠ 0).
    { intros ->. unfold d in Ef. simpl in Ef. lia. }
    pose proof (Zdigits2_bounds M ltac:(lia)) as [Hlo _]. fold d in Hlo.
    apply Z.div_le_lower_bound; [done|]. rewrite <- Z.pow_add_r by lia.
    replace (f - e + 52) with (d - 1) by lia. done.
Qed.

(** ** The rounded result *)

(** The datum of a significand of at most [2 ^ 53]. *)
Definition pack (s : bool) (M f : Z) : f64 :=
  if Z.eqb M 0 then S754_zero s
  else if Z.eqb M (2 ^ 53) then
    if Z.leb (f + 1) 971 then S754_finite s (Z.to_pos (2 ^ 52)) (f + 1) else S754_infinity s
  else if Z.leb f 971 then S754_finite s (Z.to_pos M) f else S754_infinity s.

(** A significand and exponent in the form [pack] expects. *)
Definition normal_form (M f : Z) : Prop :=
  0 ≤ M ≤ 2 ^ 53 ∧ -1074 ≤ f ∧ (-1074 < f → 2 ^ 52 ≤ M).

Lemma round_aux_pack s M e l :
  0 ≤ M → e ≤ target M e →
  ∃ r, shr_fexp prec64 emax64 M e l = (r, target M e) ∧
    let R := round_nearest_even (shr_m r) (loc_of_shr_record r) in
    normal_form R (target M e) ∧ binary_round_aux prec64 emax64 s M e l = pack s R (target M e).
Proof.
  intros HM He. destruct (shr_fexp_m M e l HM He) as (r & Hshr & Hm).
  exists r. split; [done|]. cbv zeta.
  destruct (target_quotient M e HM He) as [Hq Hq52]. rewrite <- Hm in Hq, Hq52.
  set (R := round_nearest_even (shr_m r) (loc_of_shr_record r)).
  assert (R = shr_m r ∨ R = shr_m r + 1) as HR by apply round_nearest_even_cases.
  set (f := target M e) in *. assert (-1074 ≤ f) as Hf by (unfold f; rewrite target_eq; lia).
  split; [split_and!; lia|].
  unfold binary_round_aux. rewrite Hshr. fold R. unfold pack.
  destruct (Z.eqb_spec R 0) as [->|Hnz].
  { destruct (shr_fexp_m 0 f loc_Exact) as (r' & Hr' & Hm'); [lia|rewrite target_eq; simpl|].
    - destruct (decide (f = -1074)); lia.
    - rewrite Hr', Hm'. rewrite Zdiv_0_l. done. }
  assert (0 < R) as Hpos by lia.
  pose proof (Zdigits2_bounds R Hpos) as Hb.
  destruct (Z.eqb_spec R (2 ^ 53)) as [E|Hne].
  - assert (Zdigits2 R = 54) as Hd by (by rewrite E).
    assert (target R f = f + 1) as Ht by (rewrite target_eq; lia).
    destruct (shr_fexp_m R f loc_Exact) as (r' & Hr' & Hm'); [lia..|].
    rewrite Hr', Hm', Ht. replace (f + 1 - f) with 1 by lia. rewrite E.
    change (2 ^ 53 / 2 ^ 1) with (2 ^ 52). change emax64 with 1024. change prec64 with 53.
    change (1024 - 53) with 971. simpl (2 ^ 52). cbn iota. done.
  - assert (Zdigits2 R ≤ 53) as Hd53 by (apply Zdigits2_le; lia).
    assert (-1074 < f → Zdigits2 R = 53) as Hd52.
    { intros Hlt. assert (52 + 1 ≤ Zdigits2 R) by (apply Zdigits2_ge; lia). lia. }
    assert (target R f = f) as Ht.
    { rewrite target_eq. destruct (decide (f = -1074)) as [E|]; [lia|]. rewrite Hd52; lia. }
    destruct (shr_fexp_m R f loc_Exact) as (r' & Hr' & Hm'); [lia..|].
    rewrite Hr', Hm', Ht. replace (f - f) with 0 by lia. rewrite Z.div_1_r.
    destruct R; [lia|done|lia].
Qed.

(** What rounding [V / P] to [R * 2 ^ f] gives. *)
Record rounds (V P R f : Z) : Prop := {
  ro_form : normal_form R f;
  ro_near : 2 * Z.abs (R * weight f * P - V) ≤ weight f * P;
  ro_high : -1074 < f → 2 ^ 52 * weight f * P ≤ V;
}.

Lemma nearest_even_near M P r :
  0 ≤ M → 0 < P → shifted M P r →
  2 * Z.abs (round_nearest_even (shr_m r) (loc_of_shr_record r) * P - M) ≤ P.
Proof.
  intros HM Hp [Hm Hl].
  pose proof (Z.div_mod M P ltac:(lia)) as Hd.
  pose proof (Z.mod_pos_bound M P Hp) as Hr.
  rewrite <- Hm in Hd. set (rest := M mod P) in *. clearbody rest.
  destruct r as [q rr sr]. simpl in *. clear Hm.
  destruct rr, sr; simpl in *; [|destruct (Z.even q)| |]; lia.
Qed.

(** Rounding the quotient [M / P], whose location is known, at the exponent [e]. *)
Lemma round_quotient s M P e l :
  0 ≤ M → 0 < P → shifted M P (shr_record_of_loc (M / P) l) → -2148 ≤ e ≤ target (M / P) e →
  ∃ R f, binary_round_aux prec64 emax64 s (M / P) e l = pack s R f ∧ rounds (M * weight e) P R f.
Proof.
  intros HM HP Hl [He Ht]. assert (0 ≤ M / P) as Hq0 by (apply Z.div_pos; lia).
  destruct (round_aux_pack s (M / P) e l Hq0 Ht) as (r & Hshr & Hform & Hr).
  destruct (shr_fexp_shifted M P e l HM HP Hl Ht) as (r' & Hshr' & Hs). rewrite Hshr in Hshr'.
  injection Hshr' as <-. cbv zeta in *. eexists _, _. split; [exact Hr|].
  pose proof (weight_pos e He) as Hw0.
  pose proof (weight_split (target (M / P) e) e ltac:(lia)) as Hw.
  destruct (target_quotient (M / P) e Hq0 Ht) as [_ Hq].
  set (n := target (M / P) e - e) in *. assert (0 < 2 ^ n) by (apply Z.pow_pos_nonneg; lia).
  split; [exact Hform| |].
  - pose proof (nearest_even_near M (2 ^ n * P) r HM ltac:(nia) Hs) as Hn. rewrite Hw.
    set (R := round_nearest_even _ _) in *. set (N := 2 ^ n) in *. set (w := weight e) in *.
    replace (R * (N * w) * P - M * w) with ((R * (N * P) - M) * w) by lia.
    rewrite Z.abs_mul, (Z.abs_eq w) by lia. nia.
  - intros Hf%Hq. rewrite Hw. set (N := 2 ^ n) in *. set (w := weight e) in *.
    assert (2 ^ 52 * N * P ≤ M); [|nia].
    pose proof (Z.mul_div_le (M / P) N ltac:(lia)). pose proof (Z.mul_div_le M P ltac:(lia)). nia.
Qed.

Lemma shifted_exact M : shifted M 1 (shr_record_of_loc (M / 1) loc_Exact).
Proof. split; simpl; [done|apply Z.mod_1_r]. Qed.

Lemma round_exact s M e :
  0 ≤ M → -2148 ≤ e ≤ target M e →
  ∃ R f, binary_round_aux prec64 emax64 s M e loc_Exact = pack s R f ∧ rounds (M * weight e) 1 R f.
Proof.
  intros HM He. pose proof (round_quotient s M 1 e loc_Exact HM ltac:(lia) (shifted_exact M)) as H.
  rewrite Z.div_1_r in H. by apply H.
Qed.

(** The value kept lies between representable numbers around the exact one. *)
Lemma rounds_upper V P R f Y : 0 < P → rounds V P R f → representable Y → V ≤ Y * P → R * weight f ≤ Y.
Proof.
  intros HP [(HR & Hf & Hn) Hnear Hhigh] (_ & m & ey & Hey & Hm & ->) HY.
  pose proof (weight_pos f ltac:(lia)). pose proof (weight_pos ey ltac:(lia)).
  destruct (Z.le_gt_cases f ey) as [Hle|Hgt].
  - rewrite (weight_split ey f) in * by lia. rewrite Z.mul_assoc in *.
    set (m' := m * 2 ^ (ey - f)) in *. clearbody m'. set (w := weight f) in *. clearbody w.
    destruct (Z.le_gt_cases R m'); [by apply Z.mul_le_mono_nonneg_r; [lia|]|]. exfalso.
    assert ((m' + 1) * (w * P) ≤ R * (w * P)) by (apply Z.mul_le_mono_nonneg_r; nia). nia.
  - assert (m * weight ey ≤ 2 ^ 52 * weight f) as HY'.
    { rewrite (weight_split f ey) by lia. replace (f - ey) with (1 + (f - ey - 1)) by lia.
      rewrite Z.pow_add_r by lia. pose proof (Z.pow_pos_nonneg 2 (f - ey - 1)). nia. }
    specialize (Hhigh ltac:(lia)). specialize (Hn ltac:(lia)).
    set (w := weight f) in *. set (Y := m * weight ey) in *. clearbody w Y.
    assert (Y = 2 ^ 52 * w) as -> by nia.
    assert (V = 2 ^ 52 * w * P) as -> by lia.
    destruct (Z.eq_dec R (2 ^ 52)) as [->|]; [lia|]. exfalso.
    assert ((2 ^ 52 + 1) * (w * P) ≤ R * (w * P)) by (apply Z.mul_le_mono_nonneg_r; nia). nia.
Qed.

Lemma rounds_lower V P R f Y : 0 < P → rounds V P R f → representable Y → Y * P ≤ V → Y ≤ R * weight f.
Proof.
  intros HP [(HR & Hf & Hn) Hnear Hhigh] (_ & m & ey & Hey & Hm & ->) HY.
  pose proof (weight_pos f ltac:(lia)). pose proof (weight_pos ey ltac:(lia)).
  destruct (Z.le_gt_cases f ey) as [Hle|Hgt].
  - rewrite (weight_split ey f) in * by lia. rewrite Z.mul_assoc in *.
    set (m' := m * 2 ^ (ey - f)) in *. clearbody m'. set (w := weight f) in *. clearbody w.
    destruct (Z.le_gt_cases m' R); [by apply Z.mul_le_mono_nonneg_r; [lia|]|]. exfalso.
    assert ((R + 1) * (w * P) ≤ m' * (w * P)) by (apply Z.mul_le_mono_nonneg_r; nia). nia.
  - specialize (Hn ltac:(lia)).
    rewrite (weight_split f ey) by lia. replace (f - ey) with (1 + (f - ey - 1)) by lia.
    rewrite Z.pow_add_r, Z.mul_assoc by lia. apply Z.mul_le_mono_nonneg_r; [lia|].
    pose proof (Z.pow_pos_nonneg 2 (f - ey - 1) ltac:(lia) ltac:(lia)).
    set (Q := 2 ^ (f - ey - 1)) in *. clearbody Q. nia.
Qed.

Lemma pack_ok s R f : normal_form R f → f64_ok (pack s R f) = true.
Proof.
  intros (HR & Hf & Hn). unfold pack. destruct (Z.eqb_spec R 0); [done|].
  destruct (Z.eqb_spec R (2 ^ 53)).
  - destruct (Z.leb_spec (f + 1) 971); [|done]. apply f64_ok_finite. simpl. lia.
  - destruct (Z.leb_spec f 971); [|done]. apply f64_ok_finite. rewrite Z2Pos.id by lia. lia.
Qed.

Lemma pack_not_nan s R f : is_nan (pack s R f) = false.
Proof. unfold pack. repeat case_match; done. Qed.

Lemma pack_finite s R f :
  normal_form R f → R * weight f ≤ max_val →
  is_finite (pack s R f) = true ∧ val (pack s R f) = cond_Zopp s R * weight f.
Proof.
  intros (HR & Hf & Hn) Hmax. unfold pack, max_val in *.
  pose proof (weight_pos f ltac:(lia)). pose proof (weight_pos 971 ltac:(lia)) as Hw.
  assert (f ≤ 971 ∧ (R = 2 ^ 53 → f + 1 ≤ 971)) as [H1 H2].
  { destruct (Z.le_gt_cases f 971) as [|Hgt].
    - split; [done|]. intros ->. destruct (decide (f = 971)) as [->|]; [|lia].
      exfalso. nia.
    - exfalso. specialize (Hn ltac:(lia)). rewrite (weight_split f 971) in Hmax by lia.
      replace (f - 971) with (1 + (f - 972)) in Hmax by lia.
      rewrite Z.pow_add_r in Hmax by lia. pose proof (Z.pow_pos_nonneg 2 (f - 972)).
      set (P := 2 ^ (f - 972)) in *. clearbody P. set (W := weight 971) in *. clearbody W.
      assert (2 ^ 52 * (2 ^ 1 * P * W) ≤ R * (2 ^ 1 * P * W)) by nia. nia. }
  destruct (Z.eqb_spec R 0) as [->|]; [by destruct s|].
  destruct (Z.eqb_spec R (2 ^ 53)) as [->|].
  - destruct (Z.leb_spec (f + 1) 971); [|lia]. split; [done|]. cbn [val].
    rewrite weight_add by lia. destruct s; simpl cond_Zopp; lia.
  - destruct (Z.leb_spec f 971); [|lia]. split; [done|]. cbn [val]. by rewrite Z2Pos.id by lia.
Qed.

Lemma pack_val s R f :
  normal_form R f → is_finite (pack s R f) = true → val (pack s R f) = cond_Zopp s R * weight f.
Proof.
  intros (HR & Hf & Hn) Hfin. unfold pack in *.
  destruct (Z.eqb_spec R 0) as [->|]; [by destruct s|].
  destruct (Z.eqb_spec R (2 ^ 53)) as [->|].
  - destruct (Z.leb_spec (f + 1) 971); [|done]. cbn [val].
    rewrite weight_add by lia. destruct s; simpl cond_Zopp; lia.
  - destruct (Z.leb_spec f 971); [|done]. cbn [val]. by rewrite Z2Pos.id by lia.
Qed.

Lemma pack_exponent s R f :
  normal_form R f → is_finite (pack s R f) = true → R ≠ 0 → f ≤ 971 ∧ R * weight f ≤ max_val.
Proof.
  intros (HR & Hf & _) Hfin H0. unfold pack, max_val in *. pose proof (weight_pos f ltac:(lia)).
  destruct (Z.eqb_spec R 0); [done|]. destruct (Z.eqb_spec R (2 ^ 53)) as [->|].
  - destruct (Z.leb_spec (f + 1) 971); [|done]. split; [lia|].
    rewrite (weight_split 971 f) by lia.
    assert (2 ^ 1 ≤ 2 ^ (971 - f)) by (apply Z.pow_le_mono_r; lia). nia.
  - destruct (Z.leb_spec f 971); [|done]. split; [lia|].
    rewrite (weight_split 971 f) by lia. pose proof (Z.pow_pos_nonneg 2 (971 - f)). nia.
Qed.

(** ** Correctly rounded results *)

(** [r] is the rounded form of the exact value [V / P]. *)
Record rounded (V P : Z) (r : f64) : Prop := {
  rd_ok : f64_ok r = true;
  rd_not_nan : is_nan r = false;
  rd_between lo hi : representable lo → representable hi → lo * P ≤ V ≤ hi * P →
    is_finite r = true ∧ lo ≤ val r ≤ hi;
  rd_lower lo : is_finite r = true → representable lo → lo * P ≤ V → lo ≤ val r;
  rd_upper hi : is_finite r = true → representable hi → V ≤ hi * P → val r ≤ hi;
  rd_half : is_finite r = true → Z.abs (val r) * P ≤ 2 * Z.abs V;
  rd_range : is_finite r = true → Z.abs V < 2 ^ 53 * weight 971 * P;
}.

Lemma rounded_scale V P k r : 0 < k → rounded V P r → rounded (V * k) (P * k) r.
Proof.
  intros Hk [Ho Hn Hb Hl Hu Hh Hr]. split; [done..| | | | |].
  - intros lo hi Hlo Hhi HV. apply Hb; [done..|]. split; apply (Z.mul_le_mono_pos_r _ _ k); lia.
  - intros lo Hf Hlo HV. apply Hl; [done..|]. apply (Z.mul_le_mono_pos_r _ _ k); lia.
  - intros hi Hf Hhi HV. apply Hu; [done..|]. apply (Z.mul_le_mono_pos_r _ _ k); lia.
  - intros Hf%Hh. rewrite Z.abs_mul, (Z.abs_eq k) by lia. nia.
  - intros Hf%Hr. rewrite Z.abs_mul, (Z.abs_eq k) by lia. nia.
Qed.

(** A finite datum of the format. *)
Definition data (x : f64) : Prop := f64_ok x = true ∧ is_finite x = true.

Lemma representable_opp v : representable v → representable (- v).
Proof.
  intros (Hm & m & e & He & Hm' & ->). split; [lia|]. exists (- m), e. split_and!; lia.
Qed.

Lemma max_val_pos : 0 < max_val.
Proof. by compute. Qed.

Lemma representable_0 : representable 0.
Proof. split; [pose proof max_val_pos; lia|]. exists 0, 0. lia. Qed.

Lemma representable_val x : data x → representable (val x).
Proof.
  intros [Hok Hfin]. destruct x as [s| | |s m e]; try done; [apply representable_0|].
  apply f64_ok_finite in Hok as (He & Hm & _). cbn [val].
  pose proof (weight_pos e ltac:(lia)).
  assert (representable (Zpos m * weight e)) as Hr.
  { split; [|exists (Zpos m), e; lia].
    rewrite Z.abs_eq by lia. unfold max_val. rewrite (weight_split 971 e) by lia.
    pose proof (Z.pow_pos_nonneg 2 (971 - e) ltac:(lia) ltac:(lia)).
    rewrite Z.mul_assoc. apply Z.mul_le_mono_nonneg_r; [lia|].
    set (P := 2 ^ (971 - e)) in *. clearbody P. nia. }
  destruct s; [|done]. unfold cond_Zopp. rewrite Z.mul_opp_l. by apply representable_opp.
Qed.

Lemma pack_lower s V P R f lo :
  0 < P → rounds V P R f → representable lo → lo * P ≤ cond_Zopp s V → lo ≤ cond_Zopp s R * weight f.
Proof.
  intros HP Hr Hlo HV. destruct s; cbn [cond_Zopp] in *.
  - pose proof (rounds_upper _ _ _ _ (- lo) HP Hr (representable_opp _ Hlo) ltac:(lia)). lia.
  - exact (rounds_lower _ _ _ _ lo HP Hr Hlo HV).
Qed.

Lemma pack_upper s V P R f hi :
  0 < P → rounds V P R f → representable hi → cond_Zopp s V ≤ hi * P → cond_Zopp s R * weight f ≤ hi.
Proof.
  intros HP Hr Hhi HV. destruct s; cbn [cond_Zopp] in *.
  - pose proof (rounds_lower _ _ _ _ (- hi) HP Hr (representable_opp _ Hhi) ltac:(lia)). lia.
  - exact (rounds_upper _ _ _ _ hi HP Hr Hhi HV).
Qed.

Lemma pack_range s V P R f :
  0 ≤ V → 0 < P → rounds V P R f → is_finite (pack s R f) = true → V < 2 ^ 53 * weight 971 * P.
Proof.
  intros HV0 HP Hr Hfin. pose proof (ro_form _ _ _ _ Hr) as Hform.
  pose proof Hform as (HR & Hf & _). pose proof (weight_pos f ltac:(lia)) as Hw.
  pose proof (ro_near _ _ _ _ Hr) as Hnear. pose proof (weight_pos 971 ltac:(lia)).
  destruct (decide (R = 0)) as [->|H0].
  - assert (f = -1074) as -> by (destruct Hform as (_ & _ & Hn); lia).
    rewrite (weight_split 971 (-1074)) by lia.
    assert (2 ^ 1 ≤ 2 ^ (971 - -1074)) by (apply Z.pow_le_mono_r; lia).
    set (w := weight (-1074)) in *. set (Q := 2 ^ (971 - -1074)) in *. clearbody w Q. nia.
  - destruct (pack_exponent s R f Hform Hfin H0) as [Hf' Hmax]. unfold max_val in Hmax.
    rewrite (weight_split 971 f) in * by lia.
    assert (2 ^ 0 ≤ 2 ^ (971 - f)) by (apply Z.pow_le_mono_r; lia).
    set (w := weight f) in *. set (Q := 2 ^ (971 - f)) in *. clearbody w Q.
    assert (R ≤ (2 ^ 53 - 1) * Q) by nia.
    assert (2 * V ≤ (2 * R + 1) * (w * P)) by nia.
    assert ((2 * R + 1) * (w * P) ≤ (2 * (2 ^ 53 - 1) * Q + 1) * (w * P)) by nia. nia.
Qed.

Lemma pack_rounded s V P R f :
  0 ≤ V → 0 < P → rounds V P R f → rounded (cond_Zopp s V) P (pack s R f).
Proof.
  intros HV0 HP Hr. pose proof (ro_form _ _ _ _ Hr) as Hform.
  pose proof Hform as (HR & Hf & _). pose proof (weight_pos f ltac:(lia)) as Hw.
  pose proof (ro_near _ _ _ _ Hr) as Hnear.
  assert (Z.abs (cond_Zopp s V) = V) as Habs by (destruct s; simpl; lia).
  assert (Z.abs (cond_Zopp s R * weight f) = R * weight f) as HabsR
    by (destruct s; cbn [cond_Zopp]; nia).
  split; [by apply pack_ok|apply pack_not_nan| | | | |]; rewrite ?Habs.
  - intros lo hi Hlo Hhi HV.
    pose proof (pack_lower s V P R f lo HP Hr Hlo (proj1 HV)).
    pose proof (pack_upper s V P R f hi HP Hr Hhi (proj2 HV)).
    destruct (pack_finite s R f Hform) as [-> ->]; [|done].
    destruct Hlo as [? _], Hhi as [? _]. lia.
  - intros lo Hfin. rewrite pack_val by done. by apply pack_lower.
  - intros hi Hfin. rewrite pack_val by done. by apply pack_upper.
  - intros Hfin. rewrite pack_val, HabsR by done.
    set (w := weight f) in *. clearbody w. destruct (decide (R = 0)) as [->|]; nia.
  - by apply pack_range.
Qed.

(** A datum is the rounded form of its value. *)
Lemma val_rounded x : data x → rounded (val x) 1 x.
Proof.
  intros Hx. pose proof (representable_val x Hx) as [Hmax _]. destruct Hx as [? ?].
  split; [done|by apply is_finite_not_nan| |intros; lia|intros; lia|lia|].
  - intros lo hi _ _. rewrite !Z.mul_1_r. done.
  - intros _. unfold max_val in Hmax. pose proof (weight_pos 971 ltac:(lia)). nia.
Qed.

Lemma zero_rounded s P : 0 < P → rounded 0 P (S754_zero s).
Proof.
  intros HP. split; [done..| | | |simpl; lia|].
  - intros lo hi _ _ HV. split; [done|]. simpl. nia.
  - intros lo _ _ HV. simpl. nia.
  - intros hi _ _ HV. simpl. nia.
  - intros _. pose proof (weight_pos 971 ltac:(lia)). simpl Z.abs. nia.
Qed.

Lemma shl_align_target m e :
  let '(mz, ez) := shl_align m e (target (Zpos m) e) in
  ez ≤ target (Zpos mz) ez ∧ ez ≤ e ∧ (-1074 ≤ e → -1074 ≤ ez) ∧
  Zpos mz = Zpos m * 2 ^ (e - ez).
Proof.
  destruct (Z.le_gt_cases (target (Zpos m) e) e) as [Hle|Hgt].
  - pose proof (shl_align_value m e (target (Zpos m) e) Hle) as Hv.
    pose proof (snd_shl_align m e (target (Zpos m) e) Hle) as Hs.
    destruct (shl_align m e (target (Zpos m) e)) as [mz ez]. simpl in Hv, Hs. subst ez.
    split; [|split_and!; [lia|rewrite target_eq; lia|done]].
    pose proof (digits2_pos_bounds m) as [Hlo Hhi]. rewrite !target_eq in *.
    cbn [Zdigits2] in *. set (d := Zpos (digits2_pos m)) in *.
    set (t := Z.max (d + e - 53) (-1074)) in *.
    assert (Zpos (digits2_pos mz) = d + (e - t)); [|lia].
    apply digits2_pos_unique; [lia|]. rewrite Hv.
    pose proof (Z.pow_pos_nonneg 2 (e - t) ltac:(lia) ltac:(lia)).
    replace (d + (e - t) - 1) with ((d - 1) + (e - t)) by lia.
    rewrite !Z.pow_add_r by lia. nia.
  - unfold shl_align. destruct (target (Zpos m) e - e) eqn:Hd; [lia| |lia].
    rewrite Z.sub_diag. change (2 ^ 0) with 1. lia.
Qed.

(** Rounding a positive integer significand, aligned first. *)
Lemma binary_round_rounds s m e :
  -1074 ≤ e →
  ∃ R f, binary_round prec64 emax64 s m e = pack s R f ∧ rounds (Zpos m * weight e) 1 R f.
Proof.
  intros He. unfold binary_round.
  change (fexp prec64 emax64 (Zpos (digits2_pos m) + e)) with (target (Zpos m) e).
  pose proof (shl_align_target m e) as Ha.
  destruct (shl_align m e (target (Zpos m) e)) as [mz ez]. destruct Ha as (Ht & Hle & Hlow & Hv).
  specialize (Hlow He).
  destruct (round_exact s (Zpos mz) ez) as (R & f & Hr & Hro); [lia..|].
  exists R, f. split; [done|].
  by rewrite (weight_split e ez), Z.mul_assoc, <- Hv by lia.
Qed.

Lemma binary_round_rounded s m e :
  -1074 ≤ e → rounded (cond_Zopp s (Zpos m * weight e)) 1 (binary_round prec64 emax64 s m e).
Proof.
  intros He. destruct (binary_round_rounds s m e He) as (R & f & -> & Hr).
  pose proof (weight_pos e ltac:(lia)). apply pack_rounded; [lia|lia|done].
Qed.

Lemma normalize_rounded m e sz :
  -1074 ≤ e → rounded (m * weight e) 1 (binary_normalize prec64 emax64 m e sz).
Proof.
  intros He. destruct m as [|m|m]; simpl.
  - by apply zero_rounded.
  - by apply (binary_round_rounded false).
  - replace (Zneg m * weight e) with (- (Zpos m * weight e)) by lia.
    by apply (binary_round_rounded true).
Qed.

(** ** The operations *)

Abbreviation add64 := (fadd prec64 emax64).
Abbreviation sub64 := (fsub prec64 emax64).
Abbreviation mul64 := (fmul prec64 emax64).
Abbreviation div64 := (fdiv prec64 emax64).

Lemma f64_of_N_ok n : f64_ok (f64_of_N n) = true.
Proof. unfold f64_of_N, f64_of_Z. destruct n; [done|]. by apply normalize_rounded. Qed.

Lemma fadd_rounded x y : data x → data y → rounded (val x + val y) 1 (add64 x y).
Proof.
  intros Hx Hy. pose proof Hx as [Ox Fx]. pose proof Hy as [Oy Fy].
  destruct x as [sx| | |sx mx ex], y as [sy| | |sy my ey]; try done.
  - destruct sx, sy; by apply zero_rounded.
  - by apply val_rounded.
  - simpl (val (S754_zero sy)). rewrite Z.add_0_r. by apply val_rounded.
  - apply f64_ok_finite in Ox as (? & _), Oy as (? & _).
    unfold fadd, SFadd. rewrite !shl_align_value by lia. cbn [val].
    rewrite (weight_split ex (Z.min ex ey)), (weight_split ey (Z.min ex ey)) by lia.
    set (c := _ * _ + _ * _).
    replace c with ((cond_Zopp sx (Zpos mx * 2 ^ (ex - Z.min ex ey))
                     + cond_Zopp sy (Zpos my * 2 ^ (ey - Z.min ex ey))) * weight (Z.min ex ey))
      by (unfold c; destruct sx, sy; simpl cond_Zopp; lia).
    apply normalize_rounded. lia.
Qed.

Lemma fsub_fadd x y : sub64 x y = add64 x (fneg y).
Proof.
  unfold fsub, fadd, fneg. destruct x as [[]|[]| |sx mx ex], y as [[]|[]| |sy my ey]; try done.
  simpl. f_equal. destruct sy; simpl; lia.
Qed.

Lemma val_fneg x : val (fneg x) = - val x.
Proof. destruct x as [| | |[] m e]; simpl; lia. Qed.

Lemma data_fneg x : data x → data (fneg x).
Proof. intros [? ?]. by destruct x. Qed.

Lemma data_fabs x : data x → data (fabs x).
Proof. intros [? ?]. by destruct x. Qed.

Lemma fsub_rounded x y : data x → data y → rounded (val x - val y) 1 (sub64 x y).
Proof.
  intros Hx Hy. rewrite fsub_fadd.
  pose proof (fadd_rounded x (fneg y) Hx (data_fneg y Hy)) as Hr. rewrite val_fneg in Hr.
  by replace (val x - val y) with (val x + - val y) by lia.
Qed.

Lemma mul_target m1 e1 m2 e2 s1 s2 :
  f64_ok (S754_finite s1 m1 e1) = true → f64_ok (S754_finite s2 m2 e2) = true →
  e1 + e2 ≤ target (Zpos (m1 * m2)) (e1 + e2).
Proof.
  intros (H1 & _ & N1)%f64_ok_finite (H2 & _ & N2)%f64_ok_finite. rewrite target_eq.
  destruct (decide (e1 + e2 ≤ -1074)); [lia|].
  assert (52 + 1 ≤ Zdigits2 (Zpos (m1 * m2))); [|lia].
  apply Zdigits2_ge; [lia|]. rewrite Pos2Z.inj_mul.
  destruct (decide (-1074 < e1)); [specialize (N1 ltac:(lia))|specialize (N2 ltac:(lia))]; nia.
Qed.

(** The value of 1: products carry this factor twice. *)
Definition unit_val : Z := 2 ^ 2148.

Lemma unit_val_pos : 0 < unit_val.
Proof. by vm_compute. Qed.

Lemma weight_mul a b : -2148 ≤ a → -2148 ≤ b → -2148 ≤ a + b →
  weight a * weight b = weight (a + b) * unit_val.
Proof. intros. unfold weight, unit_val. rewrite <- !Z.pow_add_r by lia. f_equal. lia. Qed.

Lemma fmul_rounded x y : data x → data y → rounded (val x * val y) unit_val (mul64 x y).
Proof.
  intros [Ox Fx] [Oy Fy]. pose proof unit_val_pos as Hu.
  destruct x as [sx| | |sx mx ex], y as [sy| | |sy my ey]; try done;
    [simpl (val _ * val _); rewrite ?Z.mul_0_r; by apply zero_rounded..|].
  pose proof (mul_target _ _ _ _ _ _ Ox Oy) as Ht.
  apply f64_ok_finite in Ox as (? & _), Oy as (? & _).
  unfold fmul, SFmul.
  destruct (round_exact (xorb sx sy) (Zpos (mx * my)) (ex + ey)) as (R & f & -> & Hr); [lia..|].
  pose proof (weight_pos (ex + ey) ltac:(lia)).
  apply (pack_rounded (xorb sx sy)) in Hr; [|lia..].
  apply (rounded_scale _ _ unit_val) in Hr; [|done]. rewrite Z.mul_1_l in Hr.
  replace (val _ * val _) with (cond_Zopp (xorb sx sy) (Zpos (mx * my) * weight (ex + ey)) * unit_val);
    [done|].
  pose proof (weight_mul ex ey ltac:(lia) ltac:(lia) ltac:(lia)) as Hw.
  cbn [val]. rewrite Pos2Z.inj_mul.
  transitivity (cond_Zopp (xorb sx sy) (Zpos mx * Zpos my) * (weight ex * weight ey));
    [rewrite Hw|]; destruct sx, sy; cbn [xorb cond_Zopp]; lia.
Qed.

(** The location of a quotient by the remainder of the division. *)
Lemma new_location_shifted m d :
  0 ≤ m → shifted m (Zpos d) (shr_record_of_loc (m / Zpos d) (new_location (Zpos d) (m mod Zpos d))).
Proof.
  intros Hm. pose proof (Z.mod_pos_bound m (Zpos d) ltac:(lia)) as Hr.
  unfold new_location, new_location_even, new_location_odd, shifted.
  set (r := m mod Zpos d) in *. clearbody r.
  destruct (Z.even (Zpos d)) eqn:He; destruct (Z.eqb_spec r 0); cbn [shr_record_of_loc]; try done.
  - destruct (Z.compare_spec (2 * r) (Zpos d)); cbn [shr_record_of_loc]; (split; [done|simpl; lia]).
  - destruct (Z.compare_spec (2 * r + 1) (Zpos d)); cbn [shr_record_of_loc];
      (split; [done|simpl; try lia]).
    rewrite <- Z.negb_odd, negb_false_iff in He. apply Z.odd_spec in He as [k Hk]. lia.
Qed.

Lemma fdiv_rounded x y :
  data x → data y → val y ≠ 0 →
  rounded (cond_Zopp (is_sign_negative y) (val x * unit_val)) (Z.abs (val y)) (div64 x y).
Proof.
  intros [Ox Fx] [Oy Fy] Hy0. destruct y as [sy| | |sy my ey]; try done.
  assert (0 < Z.abs (val (S754_finite sy my ey))) as Hpos by lia.
  destruct x as [sx| | |sx mx ex]; try done.
  { replace (cond_Zopp _ _) with 0 by (destruct sy; simpl; lia). by apply zero_rounded. }
  apply f64_ok_finite in Ox as (? & _), Oy as (? & Hmy & _).
  unfold fdiv, SFdiv, SFdiv_core_binary.
  change (fexp prec64 emax64) with (λ z, Z.max (z - 53) (-1074)). cbv beta.
  set (d1 := Zdigits2 (Zpos mx)). set (d2 := Zdigits2 (Zpos my)).
  set (e' := Z.min (Z.max (d1 + ex - (d2 + ey) - 53) (-1074)) (ex - ey)).
  set (s := ex - ey - e'). assert (0 ≤ s) as Hs by (unfold s, e'; lia).
  assert (0 ≤ d1) as Hd1 by apply Zdigits2_nonneg.
  assert (d2 ≤ 53) as Hd2.
  { apply Zdigits2_le; lia. }
  assert (-2148 ≤ e') as He' by (unfold e'; lia).
  set (m' := match s with Z0 => Zpos mx | Zpos _ => Z.shiftl (Zpos mx) s | Zneg _ => 0 end).
  assert (m' = Zpos mx * 2 ^ s) as Hm'.
  { unfold m'. destruct s; [by rewrite Z.mul_1_r|by rewrite Z.shiftl_mul_pow2|lia]. }
  clearbody m'. pose proof (Z.pow_pos_nonneg 2 s ltac:(lia) Hs) as Hp.
  assert (0 ≤ m') as Hm0 by nia.
  destruct (Z.div_eucl m' (Zpos my)) as [q r] eqn:Hqr.
  assert (q = m' / Zpos my) as -> by (unfold Z.div; by rewrite Hqr).
  assert (r = m' mod Zpos my) as -> by (unfold Z.modulo; by rewrite Hqr).
  destruct (round_quotient (xorb sx sy) m' (Zpos my) e' _ Hm0 eq_refl (new_location_shifted m' my Hm0))
    as (R & f & -> & Hr).
  { split; [done|]. rewrite target_eq.
    assert (d1 + s - d2 ≤ Zdigits2 (m' / Zpos my)) as Hdig.
    { pose proof (Zdigits2_bounds (Zpos mx) ltac:(lia)) as [Hlo1 _]. fold d1 in Hlo1.
      pose proof (Zdigits2_bounds (Zpos my) ltac:(lia)) as [_ Hhi2]. fold d2 in Hhi2.
      assert (1 ≤ d1) by (unfold d1; simpl; lia). assert (0 ≤ d2) by apply Zdigits2_nonneg.
      destruct (Z.le_gt_cases (d1 + s - d2) 0) as [|Hgt];
        [pose proof (Zdigits2_nonneg (m' / Zpos my)); lia|].
      assert (d1 + s - d2 - 1 + 1 ≤ Zdigits2 (m' / Zpos my)); [|lia]. apply Zdigits2_ge; [lia|].
      apply Z.div_le_lower_bound; [lia|]. rewrite Hm'.
      apply Z.le_trans with (2 ^ d2 * 2 ^ (d1 + s - d2 - 1)).
      - apply Z.mul_le_mono_nonneg_r; [apply Z.pow_nonneg|]; lia.
      - rewrite <- Z.pow_add_r by lia. replace (d2 + (d1 + s - d2 - 1)) with ((d1 - 1) + s) by lia.
        rewrite Z.pow_add_r by lia. apply Z.mul_le_mono_nonneg_r; lia. }
    unfold e' in *. lia. }
  pose proof (weight_pos e' He'). pose proof (weight_pos ey ltac:(lia)).
  apply (pack_rounded (xorb sx sy)) in Hr; [|nia|lia].
  apply (rounded_scale _ _ (weight ey)) in Hr; [|done].
  replace (Z.abs (val (S754_finite sy my ey))) with (Zpos my * weight ey)
    by (cbn [val]; destruct sy; cbn [cond_Zopp]; lia).
  replace (cond_Zopp (is_sign_negative _) _)
    with (cond_Zopp (xorb sx sy) (m' * weight e') * weight ey); [done|].
  assert (m' * weight e' * weight ey = Zpos mx * weight ex * unit_val) as Hval.
  { rewrite Hm'. replace ex with (s + (e' + ey)) by (unfold s; lia).
    unfold weight, unit_val. rewrite <- !Z.mul_assoc. f_equal.
    rewrite <- !Z.pow_add_r by lia. f_equal. lia. }
  cbn [val is_sign_negative]. destruct sx, sy; cbn [xorb cond_Zopp]; lia.
Qed.

Lemma fdiv_ok_finite x y : data x → data y → f64_ok (div64 x y) = true.
Proof.
  intros Hx Hy. destruct (decide (val y = 0)) as [H0|].
  - destruct Hx as [_ Fx], Hy as [Oy Fy]. destruct y as [| | |sy my ey]; try done; [by destruct x|].
    apply f64_ok_finite in Oy as (? & _). pose proof (weight_pos ey ltac:(lia)).
    destruct sy; cbn [val cond_Zopp] in H0; lia.
  - by destruct (fdiv_rounded x y).
Qed.

(** Every operation stays within the format, whatever its operands. *)
Lemma data_cases x : f64_ok x = true → data x ∨ is_finite x = false.
Proof. unfold data. destruct (is_finite x); auto. Qed.

Ltac float_closed H :=
  intros Hx Hy; destruct (data_cases _ Hx) as [Dx|Fx], (data_cases _ Hy) as [Dy|Fy];
    [by apply H| | |];
    match goal with
    | x : f64, y : f64 |- _ => destruct x as [[]|[]| |[] ? ?], y as [[]|[]| |[] ? ?]; done
    end.

Lemma fadd_ok x y : f64_ok x = true → f64_ok y = true → f64_ok (add64 x y) = true.
Proof. float_closed fadd_rounded. Qed.

Lemma fsub_ok x y : f64_ok x = true → f64_ok y = true → f64_ok (sub64 x y) = true.
Proof. float_closed fsub_rounded. Qed.

Lemma fmul_data_ok x y : data x → data y → f64_ok (mul64 x y) = true.
Proof. intros Hx Hy. by destruct (fmul_rounded x y Hx Hy). Qed.

Lemma fmul_ok x y : f64_ok x = true → f64_ok y = true → f64_ok (mul64 x y) = true.
Proof. float_closed fmul_data_ok. Qed.

Lemma fdiv_ok x y : f64_ok x = true → f64_ok y = true → f64_ok (div64 x y) = true.
Proof. float_closed fdiv_ok_finite. Qed.

Lemma fmax_ok x y : f64_ok x = true → f64_ok y = true → f64_ok (fmax x y) = true.
Proof. unfold fmax. repeat step_if; done. Qed.

Lemma fmin_ok x y : f64_ok x = true → f64_ok y = true → f64_ok (fmin x y) = true.
Proof. unfold fmin. repeat step_if; done. Qed.

Lemma fneg_ok x : f64_ok x = true → f64_ok (fneg x) = true.
Proof. by destruct x. Qed.

Lemma fabs_ok x : f64_ok x = true → f64_ok (fabs x) = true.
Proof. by destruct x. Qed.

#[export] Hint Resolve fadd_ok fsub_ok fmul_ok fdiv_ok fmax_ok fmin_ok fneg_ok fabs_ok : pal.

(** ** Comparison is comparison of values *)

Lemma val_finite_lt s m1 e1 m2 e2 :
  f64_ok (S754_finite s m1 e1) = true → f64_ok (S754_finite s m2 e2) = true →
  Zpos m1 * weight e1 ≤ Zpos m2 * weight e2 ↔ e1 < e2 ∨ (e1 = e2 ∧ Zpos m1 ≤ Zpos m2).
Proof.
  intros H1 H2.
  pose proof (fle_scaled (S754_finite false m1 e1) (S754_finite false m2 e2) H1 H2
                eq_refl eq_refl eq_refl eq_refl) as Hs.
  rewrite fle_positive in Hs. rewrite Hs. cbn [scaled].
  apply f64_ok_finite in H1 as (? & _), H2 as (? & _).
  assert (∀ e, -1074 ≤ e → weight e = 2 ^ (e + 1074) * 2 ^ 1074) as Hw.
  { intros e He. unfold weight. rewrite <- Z.pow_add_r by lia. f_equal. lia. }
  rewrite !Hw by lia. rewrite !Z.mul_assoc. symmetry.
  apply Z.mul_le_mono_pos_r. by apply Z.pow_pos_nonneg.
Qed.

Lemma fle_val x y : data x → data y → fle x y = true ↔ val x ≤ val y.
Proof.
  intros [Ox Fx] [Oy Fy]. destruct x as [sx| | |sx mx ex], y as [sy| | |sy my ey]; try done.
  - pose proof Oy as (? & _)%f64_ok_finite. pose proof (weight_pos ey ltac:(lia)).
    destruct sy; cbn [val cond_Zopp]; (split; intros; first [done|nia]).
  - pose proof Ox as (? & _)%f64_ok_finite. pose proof (weight_pos ex ltac:(lia)).
    destruct sx; cbn [val cond_Zopp]; (split; intros; first [done|nia]).
  - pose proof Ox as (? & _)%f64_ok_finite. pose proof Oy as (? & _)%f64_ok_finite.
    pose proof (weight_pos ex ltac:(lia)). pose proof (weight_pos ey ltac:(lia)).
    destruct sx, sy; cbn [val cond_Zopp].
    + rewrite fle_finite. pose proof (val_finite_lt true my ey mx ex Oy Ox) as Hv. cbv iota.
      set (a := Zpos my * weight ey) in *. set (b := Zpos mx * weight ex) in *. lia.
    + split; intros; [nia|done].
    + split; intros; [done|nia].
    + rewrite fle_finite. symmetry. by apply (val_finite_lt false).
Qed.

(** ** Conversion from [f32] *)

Lemma f32_ok_finite s m e :
  f32_ok (S754_finite s m e) = true →
  -149 ≤ e ≤ 104 ∧ Zpos m < 2 ^ 24 ∧ (-149 < e → 2 ^ 23 ≤ Zpos m).
Proof.
  unfold f32_ok, valid_binary, bounded, canonical_mantissa, fexp, emin, prec32, emax32.
  pose proof (digits2_pos_bounds m) as [Hlo Hhi]. set (d := Zpos (digits2_pos m)) in *.
  rewrite andb_true_iff, Z.eqb_eq, Z.leb_le. intros [Hc He]. split; [lia|]. split.
  - eapply Z.lt_le_trans; [exact Hhi|]. apply Z.pow_le_mono_r; lia.
  - intros Hlt. eapply Z.le_trans; [|exact Hlo]. apply Z.pow_le_mono_r; lia.
Qed.

Lemma f64_from_f32_exact x :
  f32_ok x = true → is_finite x = true → data (f64_from_f32 x) ∧ val (f64_from_f32 x) = val x.
Proof.
  intros Hok Hfin. destruct x as [s| | |s m e]; try done.
  apply f32_ok_finite in Hok as (He & Hm & _). unfold f64_from_f32, convert.
  pose proof (normalize_rounded (cond_Zopp s (Zpos m)) e s ltac:(lia)) as [Ho Hn Hb].
  assert (representable (cond_Zopp s (Zpos m) * weight e)) as Hr.
  { split; [|exists (cond_Zopp s (Zpos m)), e; split_and!; [lia|destruct s; simpl; lia|done]].
    unfold max_val. rewrite (weight_split 971 e), Z.mul_assoc by lia.
    pose proof (weight_pos e ltac:(lia)).
    pose proof (Z.pow_pos_nonneg 2 (971 - e) ltac:(lia) ltac:(lia)).
    set (P := 2 ^ (971 - e)) in *. clearbody P.
    assert (Zpos m * weight e ≤ (2 ^ 53 - 1) * P * weight e)
      by (apply Z.mul_le_mono_nonneg_r; nia).
    destruct s; cbn [cond_Zopp]; lia. }
  destruct (Hb _ _ Hr Hr ltac:(lia)) as [Hf Hv]. split; [by split|]. cbn [val] in *. lia.
Qed.

(** ** Relative error of sums *)

Lemma rounds_near M e R f :
  0 ≤ M → -1074 ≤ e → rounds (M * weight e) 1 R f →
  2 ^ 53 * Z.abs (R * weight f - M * weight e) ≤ M * weight e.
Proof.
  intros HM He [(HR & Hf & _) Hnear Hhigh]. pose proof (weight_pos e ltac:(lia)).
  rewrite !Z.mul_1_r in *.
  destruct (decide (f = -1074)) as [->|].
  - rewrite (weight_split e (-1074)), Z.mul_assoc, <- Z.mul_sub_distr_r in * by lia.
    pose proof (weight_pos (-1074) ltac:(lia)). set (w := weight (-1074)) in *. clearbody w.
    pose proof (Z.pow_pos_nonneg 2 (e - -1074) ltac:(lia) ltac:(lia)).
    assert (R - M * 2 ^ (e - -1074) = 0) as ->; [nia|]. simpl. nia.
  - specialize (Hhigh ltac:(lia)). lia.
Qed.

Lemma normalize_near m e sz :
  -1074 ≤ e → is_finite (binary_normalize prec64 emax64 m e sz) = true →
  2 ^ 53 * Z.abs (val (binary_normalize prec64 emax64 m e sz) - m * weight e) ≤ Z.abs (m * weight e).
Proof.
  assert (∀ s p, -1074 ≤ e → is_finite (binary_round prec64 emax64 s p e) = true →
    2 ^ 53 * Z.abs (val (binary_round prec64 emax64 s p e) - cond_Zopp s (Zpos p) * weight e)
    ≤ Zpos p * weight e) as Hround.
  { intros s p He Hfin. destruct (binary_round_rounds s p e He) as (R & f & Hp & Hr).
    rewrite Hp in *. rewrite pack_val by (done || apply Hr).
    pose proof (rounds_near (Zpos p) e R f ltac:(lia) He Hr) as Hn.
    destruct s; cbn [cond_Zopp]; lia. }
  intros He. destruct m as [|p|p]; intros Hfin; cbn [binary_normalize] in *.
  - simpl. lia.
  - specialize (Hround false p He Hfin). pose proof (weight_pos e ltac:(lia)).
    rewrite (Z.abs_eq (Zpos p * _)) by nia. done.
  - specialize (Hround true p He Hfin). pose proof (weight_pos e ltac:(lia)).
    rewrite (Z.abs_neq (Zneg p * _)) by nia. cbn [cond_Zopp] in Hround.
    change (Zneg p) with (- Zpos p). lia.
Qed.

(** A finite sum or difference is within one part in [2 ^ 53] of the exact one. *)
Lemma fadd_near x y :
  data x → data y → is_finite (add64 x y) = true →
  2 ^ 53 * Z.abs (val (add64 x y) - (val x + val y)) ≤ Z.abs (val x + val y).
Proof.
  intros Hx Hy. pose proof Hx as [Ox Fx]. pose proof Hy as [Oy Fy].
  destruct x as [sx| | |sx mx ex], y as [sy| | |sy my ey]; try done.
  - destruct sx, sy; done.
  - intros _. simpl (add64 _ _). change (val (S754_zero sx)) with 0. rewrite Z.add_0_l, Z.sub_diag.
    simpl. lia.
  - intros _. simpl (add64 _ _). change (val (S754_zero sy)) with 0. rewrite Z.add_0_r, Z.sub_diag.
    simpl. lia.
  - apply f64_ok_finite in Ox as (? & _), Oy as (? & _).
    unfold fadd, SFadd. rewrite !shl_align_value by lia. cbn [val].
    rewrite (weight_split ex (Z.min ex ey)), (weight_split ey (Z.min ex ey)) by lia.
    set (c := cond_Zopp sx (Zpos mx) * _ + _).
    replace c with ((cond_Zopp sx (Zpos mx * 2 ^ (ex - Z.min ex ey))
                     + cond_Zopp sy (Zpos my * 2 ^ (ey - Z.min ex ey))) * weight (Z.min ex ey))
      by (unfold c; destruct sx, sy; simpl cond_Zopp; lia).
    intros. apply normalize_near; [lia|done].
Qed.

(** ** Maximum and minimum *)

Lemma flt_val x y : data x → data y → flt x y = true ↔ val x < val y.
Proof.
  intros Hx Hy. rewrite flt_not_fle by (apply is_finite_not_nan; first [apply Hx|apply Hy]).
  rewrite negb_true_iff, <- not_true_iff_false, fle_val by done. lia.
Qed.

Lemma val_fmax x y : data x → data y → data (fmax x y) ∧ val (fmax x y) = Z.max (val x) (val y).
Proof.
  intros Hx Hy. unfold fmax. rewrite !(is_finite_not_nan) by (apply Hx || apply Hy).
  destruct (flt x y) eqn:Hlt; (split; [done|]).
  - apply flt_val in Hlt; [lia|done..].
  - apply not_true_iff_false in Hlt. rewrite flt_val in Hlt by done. lia.
Qed.

Lemma val_fmin x y : data x → data y → data (fmin x y) ∧ val (fmin x y) = Z.min (val x) (val y).
Proof.
  intros Hx Hy. unfold fmin. rewrite !(is_finite_not_nan) by (apply Hx || apply Hy).
  destruct (flt y x) eqn:Hlt; (split; [done|]).
  - apply flt_val in Hlt; [lia|done..].
  - apply not_true_iff_false in Hlt. rewrite flt_val in Hlt by done. lia.
Qed.

Lemma val_fabs x : val (fabs x) = Z.abs (val x).
Proof.
  destruct x as [| | |s m e]; try done. cbn [val fabs SFabs].
  pose proof (Z.pow_nonneg 2 (e + 2148) ltac:(lia)) as Hw. unfold weight.
  destruct s; cbn [cond_Zopp]; lia.
Qed.

(** A datum below a finite one is finite. *)
Lemma fle_fabs_data x r : f64_ok x = true → data r → fle (fabs x) r = true → data x.
Proof.
  intros Hx [Or Fr] Hle. split; [done|].
  destruct x as [|[]| |], r as [|[]| |[] ? ?]; done.
Qed.

Lemma f64_of_N_data n : (n < 2 ^ 53)%N → data (f64_of_N n) ∧ val (f64_of_N n) = Z.of_N n * unit_val.
Proof.
  intros Hn. destruct (of_N_ok n Hn) as (Ho & Hf & _). split; [by split|].
  pose proof (of_N_scaled n Hn) as Hs. unfold f64_of_N in *.
  destruct (decide (n = 0%N)) as [->|]; [done|].
  destruct (of_Z_exact (Z.of_N n)) as (m & e & -> & He & Hm & _); [lia|].
  cbn [val cond_Zopp]. rewrite Hm, <- Z.mul_assoc. f_equal. unfold weight, unit_val.
  rewrite <- Z.pow_add_r by lia. f_equal. lia.
Qed.
