(* ===== verification/Settings.v ===== *)
(** * Overlay settings

    Models [crates/pal-domain/src/settings.rs]: the settings record, its
    validation and the reducer of the overlay's keyboard and menu actions. *)

From S2P Require Import Prelude Floats.

(** ** Data *)

Inductive RotationMode := NorthUp | HeadingUp.

Inductive InputMode := Locked | TemporaryInteractive | PinnedInteractive | LayoutEdit.

Inductive DisplayMode := MiniMap | ExpandedMap.

Inductive OverlayAction :=
| Show | Hide | ToggleVisibility | EnterInteractive | ExitInteractive
| OpenExpanded | CloseExpanded | ZoomIn | ZoomOut | ToggleRotation | Lock
| ToggleFastTravel | ToggleBoss | ToggleWanted | ToggleDungeon
| ToggleTower | ToggleEgg | ToggleResources | ToggleSalvage.

Inductive FpsProfile := FpsAuto | FpsThirty | FpsSixty.

#[export] Instance RotationMode_eq_dec : EqDecision RotationMode.
Proof. solve_decision. Defined.
#[export] Instance InputMode_eq_dec : EqDecision InputMode.
Proof. solve_decision. Defined.
#[export] Instance DisplayMode_eq_dec : EqDecision DisplayMode.
Proof. solve_decision. Defined.
#[export] Instance OverlayAction_eq_dec : EqDecision OverlayAction.
Proof. solve_decision. Defined.
#[export] Instance FpsProfile_eq_dec : EqDecision FpsProfile.
Proof. solve_decision. Defined.

Definition DEFAULT_OVERLAY_LAYER_IDS : list string := ["map-unlock"; "poi"; "tower"].
Definition TOWER_LAYER_IDS : list string := ["tower"].
Definition EGG_LAYER_IDS : list string := ["egg"].
Definition SALVAGE_LAYER_IDS : list string := ["salvage-rank-1"; "salvage-rank-2"].
Definition HIDDEN_UNVERIFIED_LAYER_IDS : list string :=
  ["respawn-point"; "captured-pal"; "anti-air-turret"; "medal"; "ancient-shrine";
   "healing-spring"].
Definition RESOURCE_LAYER_IDS : list string :=
  ["oil-field"; "soralite"; "chromite"; "hexolite-quartz"; "ancient-bark"; "ancient-lava";
   "ore-copper"; "ore-coal"; "ore-quartz"; "ore-sulfur"; "ore-crystal"; "paloxite"].

Record PoiFilters := mkPoiFilters {
  fast_travel : bool;
  boss : bool;
  wanted : bool;
  dungeon : bool;
  enabled_layer_ids : list string;
  selected_pal_ids : list string;
  night_only : bool;
}.
#[export] Instance eta_PoiFilters : Eta PoiFilters := λ r,
  mkPoiFilters (fast_travel r) (boss r) (wanted r) (dungeon r) (enabled_layer_ids r)
    (selected_pal_ids r) (night_only r).
#[export] Instance PoiFilters_eq_dec : EqDecision PoiFilters.
Proof. solve_decision. Defined.

Definition PoiFilters_default : PoiFilters := {|
  fast_travel := true; boss := true; wanted := false; dungeon := true;
  enabled_layer_ids := DEFAULT_OVERLAY_LAYER_IDS; selected_pal_ids := [];
  night_only := false |}.

(** Returns the changed filters and whether anything was removed. *)
Definition remove_hidden_unverified_layers (self : PoiFilters) : PoiFilters * bool :=
  let previous_len := length (enabled_layer_ids self) in
  let self := self <| enabled_layer_ids ::=
    retain (λ layer_id, negb (contains HIDDEN_UNVERIFIED_LAYER_IDS layer_id)) |> in
  (self, negb (bool_decide (length (enabled_layer_ids self) = previous_len))).

Record HotkeyModifiers := mkHotkeyModifiers {
  control : bool;
  alt : bool;
  shift : bool;
  windows : bool;
}.
#[export] Instance HotkeyModifiers_eq_dec : EqDecision HotkeyModifiers.
Proof. solve_decision. Defined.

(** [virtual_key] is a [u16]. *)
Record HotkeyChord := mkHotkeyChord {
  modifiers : HotkeyModifiers;
  virtual_key : N;
}.
#[export] Instance HotkeyChord_eq_dec : EqDecision HotkeyChord.
Proof. solve_decision. Defined.

Record HotkeyBindings := mkHotkeyBindings {
  overlay_visibility : option HotkeyChord;
  rotation_toggle : option HotkeyChord;
  temporary_interaction : option HotkeyChord;
  interaction_lock : option HotkeyChord;
}.
#[export] Instance HotkeyBindings_eq_dec : EqDecision HotkeyBindings.
Proof. solve_decision. Defined.

Definition HotkeyBindings_default : HotkeyBindings := mkHotkeyBindings None None None None.

Inductive HotkeyAction :=
| OverlayVisibility | RotationToggle | TemporaryInteraction | InteractionLock.
#[export] Instance HotkeyAction_eq_dec : EqDecision HotkeyAction.
Proof. solve_decision. Defined.

Inductive HotkeyValidationReason := ZeroVirtualKey | UnmodifiedK | UnmodifiedGameKey.
#[export] Instance HotkeyValidationReason_eq_dec : EqDecision HotkeyValidationReason.
Proof. solve_decision. Defined.

Inductive SettingsValidationError :=
| OpacityOutOfRange
| DiameterOutOfRange
| ZoomOutOfRange
| NormalizedXOutOfRange
| NormalizedYOutOfRange
| InvalidHotkey (action : HotkeyAction) (reason : HotkeyValidationReason)
| TooManyEnabledLayers
| TooManySelectedPals
| HiddenUnverifiedMapFilterId
| InvalidMapFilterId
| DuplicateMapFilterId.
#[export] Instance SettingsValidationError_eq_dec : EqDecision SettingsValidationError.
Proof. solve_decision. Defined.

Record OverlaySettings := mkOverlaySettings {
  enabled : bool;
  auto_show : bool;
  rotation_mode : RotationMode;
  input_mode : InputMode;
  display_mode : DisplayMode;
  opacity : f32;
  diameter_px : N;
  zoom : f32;
  normalized_x : f32;
  normalized_y : f32;
  fps_profile : FpsProfile;
  poi_filters : PoiFilters;
  hotkey_bindings : HotkeyBindings;
}.
#[export] Instance eta_OverlaySettings : Eta OverlaySettings := λ r,
  mkOverlaySettings (enabled r) (auto_show r) (rotation_mode r) (input_mode r) (display_mode r)
    (opacity r) (diameter_px r) (zoom r) (normalized_x r) (normalized_y r) (fps_profile r)
    (poi_filters r) (hotkey_bindings r).

Definition OverlaySettings_default : OverlaySettings := {|
  enabled := true;
  auto_show := true;
  rotation_mode := NorthUp;
  input_mode := Locked;
  display_mode := MiniMap;
  opacity := f32_lit 90 100;
  diameter_px := 320;
  zoom := f32_lit 1 1;
  normalized_x := f32_lit 85 100;
  normalized_y := f32_lit 20 100;
  fps_profile := FpsAuto;
  poi_filters := PoiFilters_default;
  hotkey_bindings := HotkeyBindings_default |}.

(** ** Validation *)

Definition filter_id_byte (value : N) : bool :=
  is_ascii_alphanumeric value || (value =? 95) || (value =? 45) || (value =? 58).

Definition filter_id_malformed (id : string) : bool :=
  str_is_empty id || (96 <? str_len id) || negb (str_all filter_id_byte id).

(** The loop of [validate_map_filter_ids]; [previous] is [ids[..index]]. *)
Fixpoint validate_map_filter_ids_from (previous ids : list string) :
    result unit SettingsValidationError :=
  match ids with
  | [] => Ok tt
  | id :: ids =>
      if filter_id_malformed id then Err InvalidMapFilterId
      else if contains previous id then Err DuplicateMapFilterId
      else validate_map_filter_ids_from (previous ++ [id]) ids
  end.

Definition validate_map_filter_ids (ids : list string) (maximum : N)
    (too_many : SettingsValidationError) : result unit SettingsValidationError :=
  if maximum <? len ids then Err too_many
  else validate_map_filter_ids_from [] ids.

Definition has_modifier (m : HotkeyModifiers) : bool :=
  control m || alt m || shift m || windows m.

(** The virtual-key codes of the digits and letters. *)
Definition is_game_key (virtual_key : N) : bool :=
  ((0x30 <=? virtual_key) && (virtual_key <=? 0x39))
  || ((0x41 <=? virtual_key) && (virtual_key <=? 0x5A)).

Definition validate_hotkey (action : HotkeyAction) (chord : option HotkeyChord) :
    result unit SettingsValidationError :=
  match chord with
  | None => Ok tt
  | Some chord =>
      if virtual_key chord =? 0 then Err (InvalidHotkey action ZeroVirtualKey)
      else if (virtual_key chord =? 0x4B) && negb (has_modifier (modifiers chord)) then
        Err (InvalidHotkey action UnmodifiedK)
      else if negb (has_modifier (modifiers chord)) && is_game_key (virtual_key chord) then
        Err (InvalidHotkey action UnmodifiedGameKey)
      else Ok tt
  end.

Definition hotkey_actions (bindings : HotkeyBindings) :
    list (HotkeyAction * option HotkeyChord) :=
  [(OverlayVisibility, overlay_visibility bindings);
   (RotationToggle, rotation_toggle bindings);
   (TemporaryInteraction, temporary_interaction bindings);
   (InteractionLock, interaction_lock bindings)].

Definition validate (self : OverlaySettings) : result unit SettingsValidationError :=
  if negb (in_range (f32_lit 20 100) (f32_lit 1 1) (opacity self)) then Err OpacityOutOfRange
  else if negb ((180 <=? diameter_px self) && (diameter_px self <=? 640)) then
    Err DiameterOutOfRange
  else if negb (in_range (f32_lit 1 2) (f32_lit 4 1) (zoom self)) then Err ZoomOutOfRange
  else if negb (in_range (f32_lit 0 1) (f32_lit 1 1) (normalized_x self)) then
    Err NormalizedXOutOfRange
  else if negb (in_range (f32_lit 0 1) (f32_lit 1 1) (normalized_y self)) then
    Err NormalizedYOutOfRange
  else
    let? _ := try_for_each (λ '(action, chord), validate_hotkey action chord)
                (hotkey_actions (hotkey_bindings self)) in
    let? _ := validate_map_filter_ids (enabled_layer_ids (poi_filters self)) 64
                TooManyEnabledLayers in
    if existsb (contains HIDDEN_UNVERIFIED_LAYER_IDS) (enabled_layer_ids (poi_filters self))
    then Err HiddenUnverifiedMapFilterId
    else
      let? _ := validate_map_filter_ids (selected_pal_ids (poi_filters self)) 8
                  TooManySelectedPals in
      Ok tt.

(** ** Actions *)

Definition layer_group_selected (enabled_layer_ids group : list string) : bool :=
  existsb (λ layer_id, existsb (λ enabled, bool_decide (enabled = layer_id)) enabled_layer_ids)
    group.

Definition toggle_layer_group (enabled_layer_ids group : list string) : list string :=
  if layer_group_selected enabled_layer_ids group then
    retain (λ enabled, negb (contains group enabled)) enabled_layer_ids
  else dedup (sort_strings (enabled_layer_ids ++ group)).

Definition toggle_filter_group (group : list string) (s : OverlaySettings) : OverlaySettings :=
  s <| poi_filters ::= λ p, p <| enabled_layer_ids ::= λ ids, toggle_layer_group ids group |> |>.

Definition reduce_overlay_action (current : OverlaySettings) (action : OverlayAction) :
    OverlaySettings :=
  let next := current in
  match action with
  | Show => next <| enabled := true |>
  | Hide => next <| enabled := false |>
  | ToggleVisibility => next <| enabled ::= negb |>
  | EnterInteractive => next <| input_mode := PinnedInteractive |>
  | ExitInteractive | Lock => next <| input_mode := Locked |>
  | OpenExpanded => next <| display_mode := ExpandedMap |>
  | CloseExpanded => next <| display_mode := MiniMap |> <| input_mode := Locked |>
  | ZoomIn => next <| zoom ::= λ z, fmin (fadd prec32 emax32 z (f32_lit 1 4)) (f32_lit 4 1) |>
  | ZoomOut => next <| zoom ::= λ z, fmax (fsub prec32 emax32 z (f32_lit 1 4)) (f32_lit 1 2) |>
  | ToggleRotation => next <| rotation_mode ::=
      λ m, match m with NorthUp => HeadingUp | HeadingUp => NorthUp end |>
  | ToggleFastTravel => next <| poi_filters ::= λ p, p <| fast_travel ::= negb |> |>
  | ToggleBoss => next <| poi_filters ::= λ p, p <| boss ::= negb |> |>
  | ToggleWanted => next <| poi_filters ::= λ p, p <| wanted ::= negb |> |>
  | ToggleDungeon => next <| poi_filters ::= λ p, p <| dungeon ::= negb |> |>
  | ToggleTower => toggle_filter_group TOWER_LAYER_IDS next
  | ToggleEgg => toggle_filter_group EGG_LAYER_IDS next
  | ToggleResources => toggle_filter_group RESOURCE_LAYER_IDS next
  | ToggleSalvage => toggle_filter_group SALVAGE_LAYER_IDS next
  end.

(** ** Lemmas: validation *)

Definition filter_ids_ok (maximum : N) (ids : list string) : Prop :=
  len ids ≤ maximum ∧ NoDup ids ∧ Forall (λ id, filter_id_malformed id = false) ids.

Definition hotkey_ok (chord : HotkeyChord) : Prop :=
  virtual_key chord ≠ 0 ∧
  (has_modifier (modifiers chord) = false → is_game_key (virtual_key chord) = false).

(** What validation promises, field by field. *)
Record valid_settings (s : OverlaySettings) : Prop := {
  vs_opacity : in_range (f32_lit 20 100) (f32_lit 1 1) (opacity s) = true;
  vs_diameter : 180 ≤ diameter_px s ≤ 640;
  vs_zoom : in_range (f32_lit 1 2) (f32_lit 4 1) (zoom s) = true;
  vs_normalized_x : in_range (f32_lit 0 1) (f32_lit 1 1) (normalized_x s) = true;
  vs_normalized_y : in_range (f32_lit 0 1) (f32_lit 1 1) (normalized_y s) = true;
  vs_hotkeys : ∀ action chord,
    (action, Some chord) ∈ hotkey_actions (hotkey_bindings s) → hotkey_ok chord;
  vs_layers : filter_ids_ok 64 (enabled_layer_ids (poi_filters s));
  vs_not_hidden : ∀ id,
    id ∈ enabled_layer_ids (poi_filters s) → id ∉ HIDDEN_UNVERIFIED_LAYER_IDS;
  vs_pals : filter_ids_ok 8 (selected_pal_ids (poi_filters s));
}.

Lemma validate_map_filter_ids_from_ok previous ids :
  validate_map_filter_ids_from previous ids = Ok tt ↔
  Forall (λ id, filter_id_malformed id = false) ids ∧ NoDup ids ∧ ∀ id, id ∈ ids → id ∉ previous.
Proof.
  revert previous. induction ids as [|id ids IH]; intros previous; simpl.
  { split; [|done]. intros _. split; [done|]. split; [constructor|]. by intros ? ?%elem_of_nil. }
  rewrite Forall_cons, NoDup_cons. destruct (filter_id_malformed id); [naive_solver|].
  destruct (contains previous id) eqn:Hc; reflect_bool.
  { split; [done|]. intros (_ & _ & Hin). by destruct (Hin id); [left|]. }
  rewrite IH. split.
  - intros (Hf & Hnd & Hin). split; [done|]. split.
    + split; [|done]. intros Hid. apply (Hin id Hid), elem_of_app. right. by left.
    + intros id' [->|Hid']%elem_of_cons; [done|]. specialize (Hin _ Hid'). set_solver.
  - intros ([_ Hf] & [Hid Hnd] & Hin). split; [done|]. split; [done|].
    intros id' Hid' [?| ->%list_elem_of_singleton]%elem_of_app; [|done].
    apply (Hin id'); [by right|done].
Qed.

Lemma validate_map_filter_ids_ok ids maximum too_many :
  validate_map_filter_ids ids maximum too_many = Ok tt ↔ filter_ids_ok maximum ids.
Proof.
  unfold validate_map_filter_ids, filter_ids_ok.
  destruct (N.ltb_spec maximum (len ids)); [split; [done|lia]|].
  rewrite validate_map_filter_ids_from_ok. split.
  - intros (? & ? & _). auto.
  - intros (_ & ? & ?). split; [done|]. split; [done|]. by intros ? _ ?%elem_of_nil.
Qed.

Lemma validate_hotkey_ok action chord :
  validate_hotkey action chord = Ok tt ↔ ∀ c, chord = Some c → hotkey_ok c.
Proof.
  destruct chord as [c|]; simpl; [|by split].
  unfold hotkey_ok. destruct (N.eqb_spec (virtual_key c) 0) as [H0|H0].
  { split; [done|]. intros H. by destruct (H c eq_refl). }
  destruct (has_modifier (modifiers c)) eqn:Hm; simpl.
  { rewrite andb_false_r. split; [|done]. intros _ ? [= <-]. rewrite Hm. by split. }
  rewrite andb_true_r. destruct (N.eqb_spec (virtual_key c) 75) as [H1|H1].
  { split; [done|]. intros H. destruct (H c eq_refl) as [_ Hk]. specialize (Hk Hm).
    by rewrite H1 in Hk. }
  destruct (is_game_key (virtual_key c)) eqn:Hk.
  - split; [done|]. intros H. destruct (H c eq_refl) as [_ Hk']. by rewrite Hk' in Hk.
  - split; [|done]. intros _ ? [= <-]. auto.
Qed.

Lemma hidden_layers_false ids :
  existsb (contains HIDDEN_UNVERIFIED_LAYER_IDS) ids = false ↔
  ∀ id, id ∈ ids → id ∉ HIDDEN_UNVERIFIED_LAYER_IDS.
Proof.
  rewrite <- not_true_iff_false, existsb_exists. split.
  - intros H id Hid Hh. apply H. exists id. rewrite contains_true, <- list_elem_of_In. auto.
  - intros H (id & Hid & Hh). rewrite contains_true in Hh. rewrite <- list_elem_of_In in Hid.
    by apply (H id).
Qed.

Lemma hotkeys_ok_forall bindings :
  try_for_each (λ '(action, chord), validate_hotkey action chord) (hotkey_actions bindings) = Ok tt ↔
  ∀ action chord, (action, Some chord) ∈ hotkey_actions bindings → hotkey_ok chord.
Proof.
  rewrite try_for_each_ok, Forall_forall. split.
  - intros H action chord Hin. specialize (H _ Hin). rewrite validate_hotkey_ok in H. by apply H.
  - intros H [action chord] Hin. rewrite validate_hotkey_ok. intros c ->. by apply (H action).
Qed.

Lemma validate_ok s : validate s = Ok tt ↔ valid_settings s.
Proof.
  split.
  - unfold validate. intros H.
    repeat match type of H with
    | (if negb ?c then Err _ else _) = _ => destruct c eqn:?; cbn [negb] in H; [|done]
    end.
    rewrite !and_then_ok in H. destruct H as ([] & Hh & H).
    rewrite and_then_ok in H. destruct H as ([] & Hl & H).
    step_if_in H; [done|]. rewrite and_then_ok in H. destruct H as ([] & Hp & _).
    pose proof (proj1 (hotkeys_ok_forall (hotkey_bindings s)) Hh).
    apply validate_map_filter_ids_ok in Hl. apply validate_map_filter_ids_ok in Hp.
    match goal with Hx : existsb _ _ = false |- _ =>
      pose proof (proj1 (hidden_layers_false _) Hx) end.
    reflect_bool. by constructor.
  - intros []. unfold validate.
    rewrite vs_opacity0, vs_zoom0, vs_normalized_x0, vs_normalized_y0.
    replace ((180 <=? diameter_px s) && (diameter_px s <=? 640)) with true
      by (symmetry; apply andb_true_iff; split; apply N.leb_le; lia).
    cbn [negb]. rewrite (proj2 (hotkeys_ok_forall _)) by done. cbn [and_then].
    rewrite (proj2 (validate_map_filter_ids_ok _ 64 _)) by done. cbn [and_then].
    rewrite (proj2 (hidden_layers_false _)) by done.
    by rewrite (proj2 (validate_map_filter_ids_ok _ 8 _)) by done.
Qed.

(** ** Lemmas: zoom steps *)

Lemma lit_quarter : f32_lit 1 4 = S754_finite false 8388608 (-25).
Proof. reflexivity. Qed.
Lemma lit_half : f32_lit 1 2 = S754_finite false 8388608 (-24).
Proof. reflexivity. Qed.
Lemma lit_four : f32_lit 4 1 = S754_finite false 8388608 (-21).
Proof. reflexivity. Qed.

(** A canonical zoom between 0.5 and 4.0 is normal, in one of three binades, or 4.0. *)
Lemma zoom_shape z :
  f32_ok z = true → in_range (f32_lit 1 2) (f32_lit 4 1) z = true →
  z = f32_lit 4 1 ∨
  ∃ m e, z = S754_finite false m e ∧ (-24 ≤ e ≤ -22)%Z ∧ (8388608 ≤ Zpos m < 16777216)%Z.
Proof.
  rewrite lit_half, lit_four.
  destruct z as [|[]| |[] m e]; intros Hok Hr; try discriminate Hr.
  unfold in_range in Hr. apply andb_true_iff in Hr as [Hlo%fle_positive Hhi%fle_positive].
  unfold f32_ok, prec32, emax32, valid_binary, bounded, canonical_mantissa, fexp in Hok.
  reflect_bool. pose proof (digits2_pos_bounds m) as Hd.
  replace (emin 24 128) with (-149)%Z in * by reflexivity.
  assert (Zpos (digits2_pos m) = 24)%Z as Hdig by lia. rewrite Hdig in Hd.
  change (2 ^ (24 - 1))%Z with 8388608%Z in Hd. change (2 ^ 24)%Z with 16777216%Z in Hd.
  destruct (decide (e = -21)%Z) as [->|].
  - left. f_equal. lia.
  - right. exists m, e. split; [done|]. lia.
Qed.

(** The exponent and canonicity of a rounded 28-bit significand at [2 ^ -25]. *)
Lemma quarter_grid_round M :
  (8388608 ≤ M < 150994944)%Z →
  let r := binary_normalize prec32 emax32 M (-25) false in
  f32_ok r = true ∧ ((M < 134217728)%Z → fle r (f32_lit 4 1) = true) ∧
  ((16777216 ≤ M)%Z → fle (f32_lit 1 2) r = true).
Proof.
  intros HM r.
  assert (∃ n, 0 ≤ n ≤ 4 ∧ 2 ^ (prec32 - 1 + n) ≤ M < 2 ^ (prec32 + n))%Z as (n & Hn & HMn).
  { destruct (decide (M < 16777216)%Z); [exists 0%Z|].
    { split; [lia|]. change (8388608 ≤ M < 16777216)%Z. lia. }
    destruct (decide (M < 33554432)%Z); [exists 1%Z|].
    { split; [lia|]. change (16777216 ≤ M < 33554432)%Z. lia. }
    destruct (decide (M < 67108864)%Z); [exists 2%Z|].
    { split; [lia|]. change (33554432 ≤ M < 67108864)%Z. lia. }
    destruct (decide (M < 134217728)%Z); [exists 3%Z|exists 4%Z].
    { split; [lia|]. change (67108864 ≤ M < 134217728)%Z. lia. }
    split; [lia|]. change (134217728 ≤ M < 268435456)%Z. lia. }
  destruct (binary_normalize_round prec32 emax32 M (-25) n) as (m & Hm & Hr);
    [done|lia|done|unfold emax32, prec32; lia|done|].
  assert (Zpos (digits2_pos m) = prec32) as Hd by (apply digits2_pos_unique; [done|lia]).
  assert (∃ e, r = S754_finite false m e ∧ (e = -25 + n ∨ (e = -25 + n + 1 ∧ Zpos m = 8388608))%Z)
    as (e & Hre & He) by (unfold r; destruct Hr as [[-> _]|(-> & ? & _)]; eauto).
  rewrite Hre, lit_half, lit_four.
  change (8388608 ≤ Zpos m < 16777216)%Z in Hm.
  assert (-25 ≤ e ≤ -20)%Z by lia.
  split; [|split].
  - unfold f32_ok, valid_binary, bounded, canonical_mantissa, fexp. rewrite Hd.
    unfold prec32. replace (emin 24 emax32) with (-149)%Z by reflexivity. apply andb_true_iff. split; [apply Z.eqb_eq; lia|].
    apply Z.leb_le. unfold emax32. lia.
  - intros HM27. assert (n ≤ 3)%Z.
    { destruct (decide (n = 4)%Z) as [->|]; [|lia].
      change (134217728 ≤ M < 268435456)%Z in HMn. lia. }
    apply fle_positive. lia.
  - intros HM24. assert (1 ≤ n)%Z.
    { destruct (decide (n = 0)%Z) as [->|]; [|lia].
      change (8388608 ≤ M < 16777216)%Z in HMn. lia. }
    apply fle_positive. lia.
Qed.

Lemma zoom_scaled m e :
  (-24 ≤ e ≤ -22)%Z → (8388608 ≤ Zpos m < 16777216)%Z →
  (16777216 ≤ Zpos m * 2 ^ (e - -25) < 134217728)%Z ∧
  (Zpos m * 2 ^ (e - -25) + 8388608 < 150994944)%Z.
Proof.
  intros He Hm.
  assert (e = -24 ∨ e = -23 ∨ e = -22)%Z as [-> | [-> | ->]] by lia;
    match goal with |- context [(2 ^ ?k)%Z] => let v := eval vm_compute in (2 ^ k)%Z in
      change (2 ^ k)%Z with v end; lia.
Qed.

Lemma zoom_in_ok z :
  f32_ok z = true → in_range (f32_lit 1 2) (f32_lit 4 1) z = true →
  let z' := fmin (fadd prec32 emax32 z (f32_lit 1 4)) (f32_lit 4 1) in
  f32_ok z' = true ∧ in_range (f32_lit 1 2) (f32_lit 4 1) z' = true.
Proof.
  intros Hok Hz. destruct (zoom_shape z Hok Hz) as [->|(m & e & -> & He & Hm)]; [done|].
  set (r := fadd _ _ _ _). intros z'.
  assert (f32_ok r = true ∧ fle (f32_lit 1 2) r = true) as [Hr1 Hr2].
  { unfold r. rewrite lit_quarter, fadd_positive, Z.min_r by lia.
    destruct (zoom_scaled m e He Hm) as [??]. rewrite Z.sub_diag, Z.pow_0_r, Z.mul_1_r.
    destruct (quarter_grid_round (Zpos m * 2 ^ (e - -25) + 8388608)) as (? & _ & Hlo); [lia|].
    split; [done|apply Hlo; lia]. }
  split.
  - unfold z', fmin. repeat step_if; done.
  - unfold in_range. unfold z'. rewrite fmin_lower, fmin_upper by done. done.
Qed.

Lemma zoom_out_ok z :
  f32_ok z = true → in_range (f32_lit 1 2) (f32_lit 4 1) z = true →
  let z' := fmax (fsub prec32 emax32 z (f32_lit 1 4)) (f32_lit 1 2) in
  f32_ok z' = true ∧ in_range (f32_lit 1 2) (f32_lit 4 1) z' = true.
Proof.
  intros Hok Hz. destruct (zoom_shape z Hok Hz) as [->|(m & e & -> & He & Hm)]; [done|].
  set (r := fsub _ _ _ _). intros z'.
  assert (f32_ok r = true ∧ fle r (f32_lit 4 1) = true) as [Hr1 Hr2].
  { unfold r. rewrite lit_quarter, fsub_positive, Z.min_r by lia.
    destruct (zoom_scaled m e He Hm) as [??]. rewrite Z.sub_diag, Z.pow_0_r, Z.mul_1_r.
    destruct (quarter_grid_round (Zpos m * 2 ^ (e - -25) - 8388608)) as (? & Hhi & _); [lia|].
    split; [done|apply Hhi; lia]. }
  split.
  - unfold z', fmax. repeat step_if; done.
  - unfold in_range. unfold z'. rewrite fmax_lower, fmax_upper by done. done.
Qed.

(** ** Lemmas: layer groups *)

Lemma layer_group_selected_true ids group :
  layer_group_selected ids group = true ↔ ∃ id, id ∈ group ∧ id ∈ ids.
Proof.
  unfold layer_group_selected. rewrite existsb_exists. split.
  - intros (g & Hg & (id & Hid & He)%existsb_exists). rewrite bool_decide_eq_true in He.
    exists g. rewrite !list_elem_of_In. by subst.
  - intros (g & Hg & Hid). exists g. rewrite <- list_elem_of_In. split; [done|].
    apply existsb_exists. exists g. rewrite <- list_elem_of_In. split; [done|].
    by apply bool_decide_eq_true.
Qed.

Lemma layer_group_selected_false ids group :
  layer_group_selected ids group = false ↔ ∀ id, id ∈ group → id ∉ ids.
Proof. rewrite <- not_true_iff_false, layer_group_selected_true. naive_solver. Qed.

Lemma elem_of_toggle ids group id :
  id ∈ toggle_layer_group ids group ↔
  if layer_group_selected ids group then id ∈ ids ∧ id ∉ group else id ∈ ids ∨ id ∈ group.
Proof.
  unfold toggle_layer_group. destruct (layer_group_selected ids group).
  - by rewrite elem_of_retain, negb_true_iff, contains_false.
  - by rewrite elem_of_dedup_sort, elem_of_app.
Qed.

Lemma toggle_NoDup ids group : NoDup ids → NoDup (toggle_layer_group ids group).
Proof.
  intros Hnd. unfold toggle_layer_group. destruct (layer_group_selected ids group).
  - by eapply sublist_NoDup, retain_sublist.
  - apply NoDup_dedup_sort.
Qed.

Lemma toggle_forall (P : string → Prop) ids group :
  Forall P ids → Forall P group → Forall P (toggle_layer_group ids group).
Proof.
  rewrite !Forall_forall. intros Hi Hg id. rewrite elem_of_toggle.
  destruct (layer_group_selected ids group); naive_solver.
Qed.

(** The layer groups an action can toggle hold well-formed, visible identifiers. *)
Definition toggled_group (action : OverlayAction) : option (list string) :=
  match action with
  | ToggleTower => Some TOWER_LAYER_IDS
  | ToggleEgg => Some EGG_LAYER_IDS
  | ToggleResources => Some RESOURCE_LAYER_IDS
  | ToggleSalvage => Some SALVAGE_LAYER_IDS
  | _ => None
  end.

Lemma toggled_group_ids action group :
  toggled_group action = Some group →
  Forall (λ id, filter_id_malformed id = false) group ∧
  Forall (λ id, id ∉ HIDDEN_UNVERIFIED_LAYER_IDS) group.
Proof.
  destruct action; intros [= <-]; split;
    refine (bool_decide_unpack _ _); vm_compute; exact I.
Qed.

Lemma reduce_toggle action group s :
  toggled_group action = Some group → reduce_overlay_action s action = toggle_filter_group group s.
Proof. by destruct action; intros [= <-]. Qed.

Lemma toggle_valid s group :
  Forall (λ id, filter_id_malformed id = false) group →
  Forall (λ id, id ∉ HIDDEN_UNVERIFIED_LAYER_IDS) group →
  valid_settings s →
  len (toggle_layer_group (enabled_layer_ids (poi_filters s)) group) ≤ 64 →
  valid_settings (toggle_filter_group group s).
Proof.
  intros Hg Hgh [] Hlen. constructor; try done; simpl.
  - destruct vs_layers0 as (_ & ? & ?).
    split; [done|]. split; [by apply toggle_NoDup|by apply toggle_forall].
  - rewrite <- Forall_forall in *. by apply toggle_forall.
Qed.

Lemma toggle_too_many s group :
  valid_settings s →
  ¬ len (toggle_layer_group (enabled_layer_ids (poi_filters s)) group) ≤ 64 →
  validate (toggle_filter_group group s) = Err TooManyEnabledLayers.
Proof.
  intros [] Hlen. unfold validate.
  change (opacity (toggle_filter_group group s)) with (opacity s).
  change (diameter_px (toggle_filter_group group s)) with (diameter_px s).
  change (zoom (toggle_filter_group group s)) with (zoom s).
  change (normalized_x (toggle_filter_group group s)) with (normalized_x s).
  change (normalized_y (toggle_filter_group group s)) with (normalized_y s).
  change (hotkey_bindings (toggle_filter_group group s)) with (hotkey_bindings s).
  rewrite vs_opacity0, vs_zoom0, vs_normalized_x0, vs_normalized_y0.
  replace ((180 <=? diameter_px s) && (diameter_px s <=? 640)) with true
    by (symmetry; apply andb_true_iff; split; apply N.leb_le; lia).
  cbn [negb]. rewrite (proj2 (hotkeys_ok_forall _)) by done. cbn [and_then].
  unfold validate_map_filter_ids. simpl.
  by destruct (N.ltb_spec 64 (len (toggle_layer_group (enabled_layer_ids (poi_filters s)) group)));
    [|lia].
Qed.

(** ** Properties *)

(** The check that an error reports does fail. *)
Definition error_justified (e : SettingsValidationError) (s : OverlaySettings) : Prop :=
  match e with
  | OpacityOutOfRange => in_range (f32_lit 20 100) (f32_lit 1 1) (opacity s) = false
  | DiameterOutOfRange => diameter_px s < 180 ∨ 640 < diameter_px s
  | ZoomOutOfRange => in_range (f32_lit 1 2) (f32_lit 4 1) (zoom s) = false
  | NormalizedXOutOfRange => in_range (f32_lit 0 1) (f32_lit 1 1) (normalized_x s) = false
  | NormalizedYOutOfRange => in_range (f32_lit 0 1) (f32_lit 1 1) (normalized_y s) = false
  | InvalidHotkey action _ => ∃ chord,
      (action, Some chord) ∈ hotkey_actions (hotkey_bindings s) ∧ ¬ hotkey_ok chord
  | TooManyEnabledLayers => 64 < len (enabled_layer_ids (poi_filters s))
  | TooManySelectedPals => 8 < len (selected_pal_ids (poi_filters s))
  | HiddenUnverifiedMapFilterId => ∃ id,
      id ∈ enabled_layer_ids (poi_filters s) ∧ id ∈ HIDDEN_UNVERIFIED_LAYER_IDS
  | InvalidMapFilterId => ∃ id, filter_id_malformed id = true ∧
      (id ∈ enabled_layer_ids (poi_filters s) ∨ id ∈ selected_pal_ids (poi_filters s))
  | DuplicateMapFilterId =>
      ¬ NoDup (enabled_layer_ids (poi_filters s)) ∨ ¬ NoDup (selected_pal_ids (poi_filters s))
  end.

Lemma validate_hotkey_err action chord e :
  validate_hotkey action chord = Err e →
  ∃ c r, chord = Some c ∧ e = InvalidHotkey action r ∧ ¬ hotkey_ok c.
Proof.
  intros H. destruct chord as [c|]; [|done]. exists c.
  assert (¬ hotkey_ok c) as Hn.
  { intros Hok. rewrite (proj2 (validate_hotkey_ok action (Some c))) in H; [done|].
    by intros ? [= <-]. }
  simpl in H. repeat step_if_in H; simplify_eq; eauto.
Qed.

Lemma validate_map_filter_ids_err ids maximum too_many e :
  validate_map_filter_ids ids maximum too_many = Err e →
  (e = too_many ∧ maximum < len ids) ∨
  (e = InvalidMapFilterId ∧ ∃ id, filter_id_malformed id = true ∧ id ∈ ids) ∨
  (e = DuplicateMapFilterId ∧ ¬ NoDup ids).
Proof.
  unfold validate_map_filter_ids. destruct (N.ltb_spec maximum (len ids)); [naive_solver|].
  intros He. right.
  assert (∀ previous, validate_map_filter_ids_from previous ids = Err e →
    (e = InvalidMapFilterId ∧ ∃ id, filter_id_malformed id = true ∧ id ∈ ids) ∨
    (e = DuplicateMapFilterId ∧ ¬ NoDup (previous ++ ids))) as Hgen; [|by apply (Hgen [])].
  clear He H. induction ids as [|id ids IH]; intros previous; simpl; [done|].
  destruct (filter_id_malformed id) eqn:Hm.
  { intros [= <-]. left. split; [done|]. exists id. split; [done|by left]. }
  destruct (contains previous id) eqn:Hc; reflect_bool.
  - intros [= <-]. right. split; [done|]. rewrite NoDup_app. intros (_ & Hd & _).
    apply (Hd id Hc). by left.
  - intros [(-> & id' & ? & ?)|[-> Hnd]]%IH.
    + left. split; [done|]. exists id'. split; [done|by right].
    + right. by rewrite <- app_assoc in Hnd.
Qed.

(** Validation accepts exactly the settings whose every field satisfies its
    documented constraint, and each error it returns names a constraint that the
    settings violate. *)
Theorem validate_exact (s : OverlaySettings) :
  (validate s = Ok tt ↔ valid_settings s) ∧
  ∀ e, validate s = Err e → error_justified e s.
Proof.
  split; [apply validate_ok|]. intros e. unfold validate.
  repeat match goal with
  | |- (if negb ?c then Err _ else _) = _ → _ => destruct c eqn:?; cbn [negb];
      [|intros [= <-]; reflect_bool; destruct_or?; reflect_bool; simpl; (done || lia)]
  end.
  intros [Hh|([] & _ & H)]%and_then_err.
  { apply try_for_each_err in Hh as (l1 & [action chord] & l2 & Heq & _ & Hx).
    apply validate_hotkey_err in Hx as (c & r & -> & -> & Hc). simpl. exists c.
    rewrite Heq. split; [|done]. apply elem_of_app. right. by left. }
  apply and_then_err in H as [Hl|([] & _ & H)].
  { apply validate_map_filter_ids_err in Hl as [[-> ?]|[(-> & id & ? & ?)|[-> ?]]]; simpl; eauto. }
  step_if_in H.
  { injection H as <-. apply existsb_exists in Heqb4 as (id & Hid & Hh). reflect_bool.
    exists id. by rewrite list_elem_of_In. }
  apply and_then_err in H as [Hl|([] & _ & H)]; [|done].
  apply validate_map_filter_ids_err in Hl as [[-> ?]|[(-> & id & ? & ?)|[-> ?]]]; simpl; eauto.
Qed.

(** Every overlay action turns valid settings into valid settings with a
    canonical zoom, however often zoom steps are repeated; the only exception is
    switching a layer group on past the limit of 64 enabled layers, which
    validation reports as [TooManyEnabledLayers]. *)
Theorem reduce_preserves_validity (s : OverlaySettings) (action : OverlayAction) :
  valid_settings s → f32_ok (zoom s) = true →
  f32_ok (zoom (reduce_overlay_action s action)) = true ∧
  (valid_settings (reduce_overlay_action s action) ∨
   ∃ group, toggled_group action = Some group ∧
     layer_group_selected (enabled_layer_ids (poi_filters s)) group = false ∧
     validate (reduce_overlay_action s action) = Err TooManyEnabledLayers).
Proof.
  intros Hs Hz. destruct (toggled_group action) as [group|] eqn:Hg.
  - rewrite (reduce_toggle action group) by done. split; [done|].
    destruct (toggled_group_ids action group Hg) as [Hm Hh].
    destruct (decide (len (toggle_layer_group (enabled_layer_ids (poi_filters s)) group) ≤ 64)).
    { left. by apply toggle_valid. }
    right. exists group. split; [done|]. split; [|by apply toggle_too_many].
    apply not_true_iff_false. intros Hsel. apply n. unfold toggle_layer_group. rewrite Hsel.
    destruct Hs as [_ _ _ _ _ _ [Hlen _] _ _].
    pose proof (sublist_length _ _ (retain_sublist (λ enabled, negb (contains group enabled))
      (enabled_layer_ids (poi_filters s)))). unfold len in *. lia.
  - destruct (zoom_in_ok _ Hz (vs_zoom _ Hs)). destruct (zoom_out_ok _ Hz (vs_zoom _ Hs)).
    destruct Hs.
    destruct action; try discriminate; (split; [assumption|left; constructor; assumption]).
Qed.

Lemma default_valid : valid_settings OverlaySettings_default.
Proof. apply validate_ok. reflexivity. Qed.

Lemma reduce_preserves_validity_witness :
  valid_settings OverlaySettings_default ∧ f32_ok (zoom OverlaySettings_default) = true ∧
  f32_ok (zoom (reduce_overlay_action OverlaySettings_default ZoomIn)) = true.
Proof.
  split; [apply validate_ok; reflexivity|]. split; [reflexivity|].
  apply (reduce_preserves_validity OverlaySettings_default ZoomIn);
    [apply validate_ok; reflexivity|reflexivity].
Defined.

(** Toggling a nonempty layer group flips whether the group is selected, all
    of the group at once, leaves every other enabled layer alone and introduces no
    duplicates; a second toggle restores the layers outside the group. *)
Theorem toggle_layer_group_spec (ids group : list string) :
  group ≠ [] → NoDup ids →
  let ids' := toggle_layer_group ids group in
  layer_group_selected ids' group = negb (layer_group_selected ids group) ∧
  (∀ id, id ∈ group → (id ∈ ids' ↔ layer_group_selected ids group = false)) ∧
  (∀ id, id ∉ group → (id ∈ ids' ↔ id ∈ ids)) ∧
  NoDup ids' ∧
  (∀ id, id ∉ group → (id ∈ toggle_layer_group ids' group ↔ id ∈ ids)).
Proof.
  intros Hne Hnd ids'.
  assert (∀ id, id ∉ group → (id ∈ ids' ↔ id ∈ ids)) as Hout.
  { intros id Hid. unfold ids'. rewrite elem_of_toggle. destruct (layer_group_selected _ _); tauto. }
  assert (∀ id, id ∈ group → (id ∈ ids' ↔ layer_group_selected ids group = false)) as Hin.
  { intros id Hid. unfold ids'. rewrite elem_of_toggle.
    destruct (layer_group_selected ids group); naive_solver. }
  repeat split; try apply Hin; try apply Hout; try done.
  - destruct (layer_group_selected ids group) eqn:Hsel; simpl.
    + apply layer_group_selected_false. intros id Hid Hid'. by apply Hin in Hid'.
    + apply layer_group_selected_true. destruct group as [|g group]; [done|].
      exists g. split; [by left|]. apply Hin; [by left|done].
  - by apply toggle_NoDup.
  - intros Hid'. apply Hout; [done|]. apply elem_of_toggle in Hid'.
    destruct (layer_group_selected ids' group); tauto.
  - intros Hid'. apply elem_of_toggle. destruct (layer_group_selected ids' group);
      [split; [by apply Hout|done]|left; by apply Hout].
Qed.

Lemma toggle_layer_group_spec_witness :
  EGG_LAYER_IDS ≠ [] ∧
  layer_group_selected (toggle_layer_group ["poi"] EGG_LAYER_IDS) EGG_LAYER_IDS =
  negb (layer_group_selected ["poi"] EGG_LAYER_IDS).
Proof.
  split; [done|]. apply (toggle_layer_group_spec ["poi"] EGG_LAYER_IDS);
    [done|apply NoDup_singleton].
Defined.
