(* ===== verification/Position.v ===== *)
(** * Position samples, their freshness, and source selection

    Models [crates/pal-domain/src/position.rs] (freshness classes, the sample
    clock, validated position samples, heading interpolation) and
    [crates/pal-domain/src/position_source_policy.rs] (which source is active). *)

From S2P Require Import Prelude Floats.

(** ** Freshness *)

Inductive Freshness := Live | Delayed | Stale | Offline.
#[export] Instance Freshness_eq_dec : EqDecision Freshness.
Proof. solve_decision. Defined.

Definition classify_freshness (sample_age_upper_bound_ms : N) (connected : bool) : Freshness :=
  if negb connected then Offline
  else if sample_age_upper_bound_ms <=? 1500 then Live
  else if sample_age_upper_bound_ms <=? 5000 then Delayed
  else Stale.

Definition fresh_or_delayed (freshness : Freshness) : bool :=
  match freshness with Live | Delayed => true | Stale | Offline => false end.

Definition shortest_angle_lerp (from to t : f32) : f32 :=
  let add := fadd prec32 emax32 in
  let sub := fsub prec32 emax32 in
  let delta := sub (rem_euclid prec32 emax32 (add (sub to from) (f32_of_Z 540)) (f32_of_Z 360))
                 (f32_of_Z 180) in
  rem_euclid prec32 emax32
    (add from (fmul prec32 emax32 delta (fclamp t (f32_of_Z 0) (f32_of_Z 1))))
    (f32_of_Z 360).

Module SampleClock.
Record t := mk {
  age_at_receive_upper_bound_ms : N;
  received_at_monotonic_ms : N;
}.
#[global] Instance eq_dec : EqDecision t.
Proof. solve_decision. Defined.

Definition received_with_age (age received : N) : t := mk age received.

Definition age_upper_bound_ms (self : t) (now_monotonic_ms : N) : N :=
  saturating_add (age_at_receive_upper_bound_ms self)
    (saturating_sub now_monotonic_ms (received_at_monotonic_ms self)).
End SampleClock.

(** ** Samples *)

Inductive PositionValidationError :=
| EmptyWorldAlias | EmptySubjectId | EmptyAgentBootId
| NonFiniteX | NonFiniteY | NonFiniteZ | NonFiniteHeading.
#[export] Instance PositionValidationError_eq_dec : EqDecision PositionValidationError.
Proof. solve_decision. Defined.

Module PositionSample.
Record t := mk {
  world_alias : string;
  subject_id : bytes;
  agent_boot_id : bytes;
  source_connection_generation : N;
  sequence : N;
  x : f64;
  y : f64;
  z : f64;
  heading_degrees : option f32;
  clock : SampleClock.t;
}.
#[global] Instance eq_dec : EqDecision t.
Proof. solve_decision. Defined.

Definition normalize_heading (heading : f32) : f32 :=
  rem_euclid prec32 emax32 heading (f32_of_Z 360).

Definition new (world_alias : string) (subject_id agent_boot_id : bytes)
    (source_connection_generation sequence : N) (x y z : f64)
    (heading_degrees : option f32) (clock : SampleClock.t) :
    result t PositionValidationError :=
  if str_is_empty world_alias then Err EmptyWorldAlias
  else if is_empty subject_id then Err EmptySubjectId
  else if is_empty agent_boot_id then Err EmptyAgentBootId
  else if negb (is_finite x) then Err NonFiniteX
  else if negb (is_finite y) then Err NonFiniteY
  else if negb (is_finite z) then Err NonFiniteZ
  else if is_some_and heading_degrees (λ heading, negb (is_finite heading)) then
    Err NonFiniteHeading
  else Ok (mk world_alias subject_id agent_boot_id source_connection_generation sequence x y z
             (normalize_heading <$> heading_degrees) clock).

(** What the constructor requires of its arguments. *)
Definition acceptable (world_alias : string) (subject_id agent_boot_id : bytes)
    (x y z : f64) (heading_degrees : option f32) : Prop :=
  world_alias ≠ EmptyString ∧ subject_id ≠ [] ∧ agent_boot_id ≠ [] ∧
  is_finite x = true ∧ is_finite y = true ∧ is_finite z = true ∧
  ∀ heading, heading_degrees = Some heading → is_finite heading = true.

Lemma sample_new_ok w s b g q x y z h c p :
  new w s b g q x y z h c = Ok p ↔
  acceptable w s b x y z h ∧ p = mk w s b g q x y z (normalize_heading <$> h) c.
Proof.
  unfold new, acceptable. split.
  - intros H. repeat (step_if_in H; [discriminate|]). injection H as <-. reflect_bool.
    split; [|done]. repeat split; try done.
    + by destruct w.
    + by destruct s.
    + by destruct b.
    + intros heading ->. simpl in *. by destruct (is_finite heading).
  - intros [(Hw & Hs & Hb & -> & -> & -> & Hh) ->].
    destruct w; [done|]. destruct s; [done|]. destruct b; [done|]. simpl.
    destruct h as [h|]; simpl; [|done]. by rewrite Hh.
Qed.
End PositionSample.

(** ** Which source is active *)

Inductive PositionSourceKind := LocalProcess | OfficialRest.
#[export] Instance PositionSourceKind_eq_dec : EqDecision PositionSourceKind.
Proof. solve_decision. Defined.

Inductive PositionSourceAvailability := SourceLive | SourceWaiting | SourceUnavailable.
#[export] Instance PositionSourceAvailability_eq_dec : EqDecision PositionSourceAvailability.
Proof. solve_decision. Defined.

Record PositionSourceDecision := mkDecision {
  active : option PositionSourceKind;
  poll_official_rest : bool;
}.

Definition is_fallback (self : PositionSourceDecision) : bool :=
  match active self with Some OfficialRest => true | _ => false end.

Record PositionSourcePolicy := mkPolicy { official_rest_configured : bool }.

Definition local_only : PositionSourcePolicy := mkPolicy false.
Definition with_official_rest_fallback : PositionSourcePolicy := mkPolicy true.

Definition select (self : PositionSourcePolicy)
    (local official_rest : PositionSourceAvailability) : PositionSourceDecision :=
  match local with
  | SourceLive => mkDecision (Some LocalProcess) false
  | SourceWaiting => mkDecision None false
  | SourceUnavailable =>
      if official_rest_configured self then
        mkDecision (match official_rest with SourceLive => Some OfficialRest | _ => None end) true
      else mkDecision None false
  end.

(** ** Properties *)

(** From best to worst. *)
Definition staleness (freshness : Freshness) : N :=
  match freshness with Live => 0 | Delayed => 1 | Stale => 2 | Offline => 3 end.

Lemma age_upper_bound_mono c now1 now2 :
  now1 ≤ now2 → SampleClock.age_upper_bound_ms c now1 ≤ SampleClock.age_upper_bound_ms c now2.
Proof. unfold SampleClock.age_upper_bound_ms. int_lia. Qed.

(** As monotonic time advances a sample's freshness never improves, its age
    bound never drops below the bound at receipt nor leaves [u64], a clock running
    behind the receipt time leaves the age at that bound, and only a disconnect
    makes it offline. *)
Theorem freshness_monotone (c : SampleClock.t) (now1 now2 : N) (connected : bool) :
  is_u64 (SampleClock.age_at_receive_upper_bound_ms c) → now1 ≤ now2 →
  let age := SampleClock.age_upper_bound_ms c in
  staleness (classify_freshness (age now1) connected) ≤
    staleness (classify_freshness (age now2) connected) ∧
  SampleClock.age_at_receive_upper_bound_ms c ≤ age now1 ∧ is_u64 (age now2) ∧
  (now2 ≤ SampleClock.received_at_monotonic_ms c →
   age now2 = SampleClock.age_at_receive_upper_bound_ms c) ∧
  (classify_freshness (age now1) connected = Offline ↔ connected = false).
Proof.
  intros Hage Hnow age. pose proof (age_upper_bound_mono c now1 now2 Hnow) as Hmono.
  fold age in Hmono. repeat split.
  - unfold classify_freshness. destruct connected; simpl; [|lia].
    repeat step_if; reflect_bool; simpl; lia.
  - unfold age, SampleClock.age_upper_bound_ms. int_lia.
  - unfold age, SampleClock.age_upper_bound_ms. int_lia.
  - intros Hrecv. unfold age, SampleClock.age_upper_bound_ms. int_lia.
  - unfold classify_freshness. destruct connected; simpl; [|done]. by repeat step_if.
  - intros ->. done.
Qed.

Lemma freshness_monotone_witness :
  let c := SampleClock.received_with_age 100 5000 in
  is_u64 (SampleClock.age_at_receive_upper_bound_ms c) ∧ 6000 ≤ 9000 ∧
  staleness (classify_freshness (SampleClock.age_upper_bound_ms c 6000) true) ≤
    staleness (classify_freshness (SampleClock.age_upper_bound_ms c 9000) true).
Proof.
  intros c. split; [done|]. split; [done|].
  apply (freshness_monotone c 6000 9000 true); done.
Defined.

(** The constructor of samples succeeds exactly on nonempty identities with
    finite coordinates and heading, and keeps every argument, with the heading
    reduced modulo a full turn; a live or stale sample therefore never carries a
    NaN or infinite coordinate. *)
Theorem position_sample_new_exact (w : string) (s b : bytes) (g q : N) (x y z : f64)
    (h : option f32) (c : SampleClock.t) :
  (is_ok (PositionSample.new w s b g q x y z h c) = true ↔
   PositionSample.acceptable w s b x y z h) ∧
  ∀ p, PositionSample.new w s b g q x y z h c = Ok p →
    p = PositionSample.mk w s b g q x y z (PositionSample.normalize_heading <$> h) c ∧
    is_finite (PositionSample.x p) = true ∧ is_finite (PositionSample.y p) = true ∧
    is_finite (PositionSample.z p) = true ∧
    (is_some (PositionSample.heading_degrees p) = is_some h).
Proof.
  split.
  - split.
    + destruct (PositionSample.new w s b g q x y z h c) as [p|] eqn:Hp; [|done].
      by apply PositionSample.sample_new_ok in Hp as [? _].
    + intros Ha. by rewrite (proj2 (PositionSample.sample_new_ok w s b g q x y z h c _) (conj Ha eq_refl)).
  - intros p [(? & ? & ? & ? & ? & ? & ?) ->]%PositionSample.sample_new_ok. by destruct h.
Qed.

Lemma position_sample_new_exact_witness :
  let new := PositionSample.new "w" [Byte.x01] [Byte.x02] 1 1 (f64_of_Z 1) (f64_of_Z 2)
    (f64_of_Z 3) None (SampleClock.mk 0 0) in
  is_ok new = true ∧ ∀ p, new = Ok p → is_finite (PositionSample.x p) = true.
Proof.
  split; [reflexivity|]. intros p Hp.
  apply (position_sample_new_exact "w" [Byte.x01] [Byte.x02] 1 1 (f64_of_Z 1) (f64_of_Z 2)
    (f64_of_Z 3) None (SampleClock.mk 0 0)). exact Hp.
Defined.

(** The policy activates at most one source; the local process wins whenever
    it is live; the official server is polled only when it is configured and the
    local process is unavailable, and is active only while polled and live. *)
Theorem select_local_first (p : PositionSourcePolicy) (local rest : PositionSourceAvailability) :
  let d := select p local rest in
  (active d = Some LocalProcess ↔ local = SourceLive) ∧
  (poll_official_rest d = true ↔ local = SourceUnavailable ∧ official_rest_configured p = true) ∧
  (active d = Some OfficialRest ↔ poll_official_rest d = true ∧ rest = SourceLive) ∧
  (is_fallback d = true → p ≠ local_only).
Proof.
  unfold is_fallback, local_only. destruct p as [[]], local, rest; simpl; repeat split; intros;
    repeat match goal with H : _ ∧ _ |- _ => destruct H end; simpl in *; congruence.
Qed.

(** The heading a sample stores can be a full turn: a tiny negative heading is
    rounded up to 360 degrees, so the stored range is closed at 360. *)
Lemma normalize_heading_full_turn :
  PositionSample.normalize_heading (fneg (f32_lit 1 10000000000)) = f32_of_Z 360.
Proof. vm_compute. reflexivity. Qed.
