(* ===== verification/View.v ===== *)
(** * Views and windows

    Models [crates/pal-domain/src/view.rs] (the validated minimap and expanded-map
    views) and [crates/pal-domain/src/window.rs] (the validated snapshot of the
    game window). *)

From S2P Require Import Prelude Floats.

(** ** Map views *)

Definition MIN_ZOOM : f32 := f32_lit 50 100.
Definition MAX_ZOOM : f32 := f32_lit 400 100.

Inductive ViewValidationError :=
| MiniMapCenterXNonFinite | MiniMapCenterYNonFinite | MiniMapZoomOutOfRange
| ExpandedMapCenterXNonFinite | ExpandedMapCenterYNonFinite | ExpandedMapZoomOutOfRange.
#[export] Instance ViewValidationError_eq_dec : EqDecision ViewValidationError.
Proof. solve_decision. Defined.

Definition validate_center (value : f64) (error : ViewValidationError) :
    result unit ViewValidationError :=
  if is_finite value then Ok tt else Err error.

Definition validate_zoom (value : f32) (error : ViewValidationError) :
    result unit ViewValidationError :=
  if in_range MIN_ZOOM MAX_ZOOM value then Ok tt else Err error.

(** The fields both kinds of view accept. *)
Definition view_ok (center_x center_y : f64) (zoom : f32) : Prop :=
  is_finite center_x = true ∧ is_finite center_y = true ∧ in_range MIN_ZOOM MAX_ZOOM zoom = true.

Module MiniMapView.
Record t := mk { center_x : f64; center_y : f64; zoom : f32 }.
#[global] Instance eq_dec : EqDecision t.
Proof. solve_decision. Defined.

Definition new (center_x center_y : f64) (zoom : f32) : result t ViewValidationError :=
  let? _ := validate_center center_x MiniMapCenterXNonFinite in
  let? _ := validate_center center_y MiniMapCenterYNonFinite in
  let? _ := validate_zoom zoom MiniMapZoomOutOfRange in
  Ok (mk center_x center_y zoom).

Definition valid (v : t) : Prop := view_ok (center_x v) (center_y v) (zoom v).

Lemma mini_new_ok x y z v : new x y z = Ok v ↔ view_ok x y z ∧ v = mk x y z.
Proof.
  unfold new, validate_center, validate_zoom, view_ok.
  destruct (is_finite x), (is_finite y), (in_range MIN_ZOOM MAX_ZOOM z); simpl; naive_solver.
Qed.

Lemma mini_new_some x y z : view_ok x y z → new x y z = Ok (mk x y z).
Proof. intros. by apply mini_new_ok. Qed.
End MiniMapView.

Module ExpandedMapView.
Record t := mk { center_x : f64; center_y : f64; zoom : f32 }.
#[global] Instance eq_dec : EqDecision t.
Proof. solve_decision. Defined.

Definition new (center_x center_y : f64) (zoom : f32) : result t ViewValidationError :=
  let? _ := validate_center center_x ExpandedMapCenterXNonFinite in
  let? _ := validate_center center_y ExpandedMapCenterYNonFinite in
  let? _ := validate_zoom zoom ExpandedMapZoomOutOfRange in
  Ok (mk center_x center_y zoom).

Definition valid (v : t) : Prop := view_ok (center_x v) (center_y v) (zoom v).

Lemma expanded_new_ok x y z v : new x y z = Ok v ↔ view_ok x y z ∧ v = mk x y z.
Proof.
  unfold new, validate_center, validate_zoom, view_ok.
  destruct (is_finite x), (is_finite y), (in_range MIN_ZOOM MAX_ZOOM z); simpl; naive_solver.
Qed.

Lemma expanded_new_some x y z : view_ok x y z → new x y z = Ok (mk x y z).
Proof. intros. by apply expanded_new_ok. Qed.
End ExpandedMapView.

(** ** The game window *)

Module WindowSnapshot.
Inductive error := VisibleWidthZero | VisibleHeightZero | VisibleDpiZero.
#[global] Instance error_eq_dec : EqDecision error.
Proof. solve_decision. Defined.

Definition field (e : error) : string :=
  match e with
  | VisibleWidthZero => "client_width"
  | VisibleHeightZero => "client_height"
  | VisibleDpiZero => "dpi"
  end.

Record t := mk {
  process_id : N;
  client_left : Z;
  client_top : Z;
  client_width : N;
  client_height : N;
  dpi : N;
  visible : bool;
  active : bool;
  minimized : bool;
}.
#[global] Instance eq_dec : EqDecision t.
Proof. solve_decision. Defined.

Definition validate (self : t) : result unit error :=
  if negb (visible self) then Ok tt
  else if client_width self =? 0 then Err VisibleWidthZero
  else if client_height self =? 0 then Err VisibleHeightZero
  else if dpi self =? 0 then Err VisibleDpiZero
  else Ok tt.

Definition new (process_id : N) (client_left client_top : Z) (client_width client_height dpi : N)
    (visible active minimized : bool) : result t error :=
  let snapshot := mk process_id client_left client_top client_width client_height dpi
                    visible active minimized in
  let? _ := validate snapshot in
  Ok snapshot.

(** A visible window has an area and a scale. *)
Definition valid (w : t) : Prop :=
  visible w = true → client_width w ≠ 0 ∧ client_height w ≠ 0 ∧ dpi w ≠ 0.

Lemma window_validate_ok w : validate w = Ok tt ↔ valid w.
Proof.
  unfold validate, valid. destruct (visible w); simpl; [|by split].
  destruct (N.eqb_spec (client_width w) 0); [split; [done|]; intros H; by destruct H|].
  destruct (N.eqb_spec (client_height w) 0);
    [split; [done|]; intros H; by destruct H as (? & ? & ?)|].
  destruct (N.eqb_spec (dpi w) 0); [split; [done|]; intros H; by destruct H as (? & ? & ?)|].
  by split.
Qed.

Lemma window_new_ok p l t' w h d v a m s :
  new p l t' w h d v a m = Ok s ↔ valid (mk p l t' w h d v a m) ∧ s = mk p l t' w h d v a m.
Proof.
  unfold new. rewrite and_then_ok. split.
  - intros ([] & Hv%window_validate_ok & [= <-]). done.
  - intros [Hv ->]. exists tt. split; [by apply window_validate_ok|done].
Qed.
End WindowSnapshot.
