(* ===== verification/CoreState.v ===== *)
(** * The validated overlay state

    Models [crates/pal-domain/src/lib.rs]: [CoreState] and its two constructors.
    [None], where a computation may panic, is a failed [expect]. *)

From S2P Require Import Prelude Floats Settings Position View.

Inductive CoreStateValidationError :=
| CsSettings (error : SettingsValidationError)
| SettingsVersionZero
| ConnectionFreshnessMismatch
| FreshnessPositionMissing
| InterpolationStateInvalid
| HeadingAvailabilityInvalid.
#[export] Instance CoreStateValidationError_eq_dec : EqDecision CoreStateValidationError.
Proof. solve_decision. Defined.

(** [CoreStateParts] and [CoreState] have the same fields. *)
Record CoreState := mkCoreState {
  settings : OverlaySettings;
  settings_version : N;
  window_snapshot : option WindowSnapshot.t;
  position_sample : option PositionSample.t;
  freshness : Freshness;
  heading_available : bool;
  connected : bool;
  visible : bool;
  interpolate_position : bool;
  mini_map_view : MiniMapView.t;
  expanded_map_view : ExpandedMapView.t;
}.

Definition has_heading (position : PositionSample.t) : bool :=
  is_some (PositionSample.heading_degrees position).

Definition from_parts (parts : CoreState) : result CoreState CoreStateValidationError :=
  let? _ := map_err CsSettings (validate (settings parts)) in
  if settings_version parts =? 0 then Err SettingsVersionZero
  else if Bool.eqb (connected parts) (bool_decide (freshness parts = Offline)) then
    Err ConnectionFreshnessMismatch
  else
    let fresh_or_delayed := fresh_or_delayed (freshness parts) in
    if fresh_or_delayed && is_none (position_sample parts) then Err FreshnessPositionMissing
    else
      let interpolation_eligible :=
        connected parts && is_some (position_sample parts) && fresh_or_delayed in
      if negb (Bool.eqb (interpolate_position parts) interpolation_eligible) then
        Err InterpolationStateInvalid
      else if heading_available parts
              && is_none_or (position_sample parts) (λ position, negb (has_heading position))
      then Err HeadingAvailabilityInvalid
      else Ok (mkCoreState (settings parts) (settings_version parts) (window_snapshot parts)
                 (position_sample parts) (freshness parts) (heading_available parts)
                 (connected parts) (visible parts) (interpolate_position parts)
                 (mini_map_view parts) (expanded_map_view parts)).

Definition new (settings : OverlaySettings) (window_snapshot : option WindowSnapshot.t)
    (position_sample : option PositionSample.t) (freshness : Freshness)
    (heading_available : bool) : option (result CoreState CoreStateValidationError) :=
  match map_err CsSettings (validate settings) with
  | Err e => Some (Err e)
  | Ok _ =>
      let connected := negb (bool_decide (freshness = Offline)) in
      let interpolate_position := is_some position_sample && fresh_or_delayed freshness in
      let visible := enabled settings in
      mini_map_view ← expect (MiniMapView.new (f64_lit 0 1) (f64_lit 0 1) (zoom settings));
      expanded_map_view ← expect (ExpandedMapView.new (f64_lit 0 1) (f64_lit 0 1) (zoom settings));
      Some (from_parts (mkCoreState settings 1 window_snapshot position_sample freshness
                          heading_available connected visible interpolate_position
                          mini_map_view expanded_map_view))
  end.

(** ** The consistency that [from_parts] enforces *)

Record consistent (s : CoreState) : Prop := {
  cs_settings : valid_settings (settings s);
  cs_version : settings_version s ≠ 0;
  cs_connected : connected s = true ↔ freshness s ≠ Offline;
  cs_position : fresh_or_delayed (freshness s) = true → is_some (position_sample s) = true;
  cs_interpolate : interpolate_position s = fresh_or_delayed (freshness s);
  cs_heading : heading_available s = true →
    ∃ position, position_sample s = Some position ∧ has_heading position = true;
}.

Lemma from_parts_ok parts s : from_parts parts = Ok s ↔ consistent parts ∧ s = parts.
Proof.
  destruct parts as [set ver win pos fr hd con vis int mini exp].
  unfold from_parts. simpl. split.
  - intros H. apply and_then_ok in H as ([] & Hv & H). apply map_err_ok, validate_ok in Hv.
    repeat (step_if_in H; [discriminate|]). injection H as <-. split; [|done].
    reflect_bool. constructor; simpl; try done.
    + destruct con, fr; simpl in *; split; intros; try done; congruence.
    + destruct fr, pos; simpl in *; naive_solver.
    + destruct con, fr, int, pos; simpl in *; naive_solver.
    + intros ->. destruct pos as [p|]; simpl in *; [|naive_solver]. exists p.
      destruct (has_heading p); naive_solver.
  - intros [[] ->]. simpl in *. rewrite (proj2 (validate_ok set)) by done. simpl.
    apply N.eqb_neq in cs_version0. rewrite cs_version0.
    destruct hd.
    + destruct cs_heading0 as (p & -> & Hp); [done|]. simpl. rewrite Hp.
      destruct con, fr, int; simpl in *; naive_solver.
    + destruct con, fr, int, pos; simpl in *; naive_solver.
Qed.

Lemma settings_zoom_view s : valid_settings s → view_ok (f64_lit 0 1) (f64_lit 0 1) (zoom s).
Proof.
  intros [_ _ Hz _ _ _ _ _ _]. unfold view_ok. split; [done|]. split; [done|].
  by replace MIN_ZOOM with (f32_lit 1 2) by reflexivity;
    replace MAX_ZOOM with (f32_lit 4 1) by reflexivity.
Qed.

(** A core state exists exactly when its parts are consistent, and is then
    those parts; building one from settings never panics, and for valid settings
    succeeds exactly when a live or delayed state has a sample and an available
    heading is one the sample carries. *)
Theorem core_state_construction (s : OverlaySettings) (w : option WindowSnapshot.t)
    (p : option PositionSample.t) (f : Freshness) (h : bool) :
  (∀ parts state, from_parts parts = Ok state ↔ consistent parts ∧ state = parts) ∧
  new s w p f h ≠ None ∧
  ((∃ state, new s w p f h = Some (Ok state) ∧ consistent state) ↔
   valid_settings s ∧
   (fresh_or_delayed f = true → is_some p = true) ∧
   (h = true → ∃ position, p = Some position ∧ has_heading position = true)).
Proof.
  split; [intros; apply from_parts_ok|]. unfold new.
  destruct (validate s) as [[]|e] eqn:Hv; simpl.
  - apply validate_ok in Hv. pose proof (settings_zoom_view s Hv) as Hview.
    rewrite MiniMapView.mini_new_some, ExpandedMapView.expanded_new_some by done. simpl. split; [done|].
    split.
    + intros (state & [= Hs] & _). apply from_parts_ok in Hs as [[] _]. done.
    + intros (_ & Hp & Hh).
      assert (consistent (mkCoreState s 1 w p f h (negb (bool_decide (f = Offline))) (enabled s)
        (is_some p && fresh_or_delayed f)
        (MiniMapView.mk (f64_lit 0 1) (f64_lit 0 1) (zoom s))
        (ExpandedMapView.mk (f64_lit 0 1) (f64_lit 0 1) (zoom s)))) as Hc.
      { constructor; simpl; try done.
        - by rewrite negb_true_iff, bool_decide_eq_false.
        - destruct (fresh_or_delayed f); [by rewrite Hp|by rewrite andb_false_r]. }
      eexists. split; [|exact Hc]. f_equal. by apply from_parts_ok.
  - split; [done|]. split; [by intros (? & ? & _)|].
    intros [Hs%validate_ok _]. by rewrite Hs in Hv.
Qed.
