(* ===== verification/PositionSource.v ===== *)
(** * The position-source contract

    Models [crates/pal-state/src/position_source.rs]: the events a source emits and
    the [PositionSource] trait, as a class. The contract between sources and the
    reducer is the automaton [Protocol]: the legal event streams. *)

From S2P Require Import Prelude Floats Position.

Inductive ClockInvalidReason := MonotonicRegression | ProbeInvalid | EvidenceExpired.
#[export] Instance ClockInvalidReason_eq_dec : EqDecision ClockInvalidReason.
Proof. solve_decision. Defined.

Inductive PositionSourceEvent :=
| Connected (generation : N)
| Sample (sample : PositionSample.t)
| Unavailable (generation : N)
| Disconnected (generation : N)
| ClockInvalid (generation : N) (reason : ClockInvalidReason).
#[export] Instance PositionSourceEvent_eq_dec : EqDecision PositionSourceEvent.
Proof. solve_decision. Defined.

(** The trait: [poll] updates the source and may emit an event or fail. *)
Class PositionSource (S E : Type) : Type :=
  poll : N → S → result (option PositionSourceEvent) E * S.

(** ** Legal event streams *)

Module Protocol.
(** What a consumer of the stream has seen: the current connection, and the
    boot and last sequence number of its samples. *)
Record t := mk {
  generation : N;
  connected : bool;
  boot_id : option bytes;
  last_sequence : option N;
}.
#[global] Instance eq_dec : EqDecision t.
Proof. solve_decision. Defined.

Definition initial : t := mk 0 false None None.

Definition sample_follows (p : t) (s : PositionSample.t) : bool :=
  connected p
  && (PositionSample.source_connection_generation s =? generation p)
  && negb (generation p =? 0)
  && (0 <? PositionSample.sequence s)
  && is_none_or (boot_id p) (λ b, bool_decide (b = PositionSample.agent_boot_id s))
  && is_none_or (last_sequence p) (λ q, q <? PositionSample.sequence s).

Definition current (p : t) (g : N) : bool :=
  connected p && (g =? generation p) && negb (g =? 0).

(** One event, if it is legal after what was seen. *)
Definition step (p : t) (e : PositionSourceEvent) : option t :=
  match e with
  | Connected g => if generation p <? g then Some (mk g true None None) else None
  | Sample s =>
      if sample_follows p s then
        Some (mk (generation p) true (Some (PositionSample.agent_boot_id s))
                (Some (PositionSample.sequence s)))
      else None
  | Unavailable g | ClockInvalid g _ => if current p g then Some p else None
  | Disconnected g =>
      if current p g then Some (mk (generation p) false (boot_id p) (last_sequence p)) else None
  end.

Fixpoint run (p : t) (es : list PositionSourceEvent) : option t :=
  match es with
  | [] => Some p
  | e :: es => p' ← step p e; run p' es
  end.

(** A stream of events is legal when the automaton accepts it. *)
Definition legal (es : list PositionSourceEvent) : Prop := is_Some (run initial es).

Lemma run_app p es1 es2 : run p (es1 ++ es2) = p' ← run p es1; run p' es2.
Proof.
  revert p. induction es1 as [|e es1 IH]; intros p; simpl; [done|].
  destruct (step p e); simpl; [apply IH|done].
Qed.

Lemma run_snoc p es e : run p (es ++ [e]) = p' ← run p es; step p' e.
Proof. rewrite run_app. destruct (run p es); simpl; [|done]. by destruct (step _ e). Qed.

(** Along a legal stream the generation never decreases. *)
Lemma step_generation p e p' : step p e = Some p' → generation p ≤ generation p'.
Proof.
  destruct e; simpl; intros H; step_if_in H; simplify_eq; reflect_bool; simpl; lia.
Qed.

Lemma step_sample p s p' :
  step p (Sample s) = Some p' →
  connected p = true ∧ generation p ≠ 0 ∧
  PositionSample.source_connection_generation s = generation p ∧
  0 < PositionSample.sequence s ∧
  (∀ b, boot_id p = Some b → b = PositionSample.agent_boot_id s) ∧
  (∀ q, last_sequence p = Some q → q < PositionSample.sequence s) ∧
  p' = mk (generation p) true (Some (PositionSample.agent_boot_id s))
         (Some (PositionSample.sequence s)).
Proof.
  simpl. unfold sample_follows. intros H. step_if_in H; [|done]. injection H as <-.
  reflect_bool. repeat split; try done.
  - intros b Hb. rewrite Hb in *. simpl in *. by reflect_bool.
  - intros q Hq. rewrite Hq in *. simpl in *. by reflect_bool.
Qed.

Lemma step_sample_intro p s :
  connected p = true → generation p ≠ 0 →
  PositionSample.source_connection_generation s = generation p →
  0 < PositionSample.sequence s →
  (∀ b, boot_id p = Some b → b = PositionSample.agent_boot_id s) →
  (∀ q, last_sequence p = Some q → q < PositionSample.sequence s) →
  step p (Sample s) = Some (mk (generation p) true (Some (PositionSample.agent_boot_id s))
         (Some (PositionSample.sequence s))).
Proof.
  intros Hc Hg Hs Hq Hb Hl. simpl. unfold sample_follows.
  rewrite Hc, Hs, N.eqb_refl. apply N.eqb_neq in Hg. rewrite Hg.
  apply N.ltb_lt in Hq. rewrite Hq. simpl.
  replace (is_none_or (boot_id p) _) with true; [|destruct (boot_id p); simpl; [|done]].
  - replace (is_none_or (last_sequence p) _) with true; [done|].
    destruct (last_sequence p); simpl; [|done]. symmetry. by apply N.ltb_lt, Hl.
  - symmetry. by apply bool_decide_eq_true, Hb.
Qed.
End Protocol.

Module ProtocolOrder.
Import Protocol.

(** [p] is past sample [s]: in a later connection, or in the same one with the
    same boot and a sequence number at least that of [s]. *)
Definition past (s : PositionSample.t) (p : t) : Prop :=
  PositionSample.source_connection_generation s < generation p ∨
  (PositionSample.source_connection_generation s = generation p ∧
   boot_id p = Some (PositionSample.agent_boot_id s) ∧
   ∃ q, last_sequence p = Some q ∧ PositionSample.sequence s ≤ q).

Lemma past_sample p s p' : step p (Sample s) = Some p' → past s p'.
Proof.
  intros (_ & _ & Hg & _ & _ & _ & ->)%step_sample. right. simpl.
  split; [done|]. split; [done|]. by eexists.
Qed.

Lemma past_step s p e p' : past s p → step p e = Some p' → past s p'.
Proof.
  intros Hp He. destruct e as [g|s'|g|g|g reason].
  - left. simpl in He. step_if_in He; simplify_eq. reflect_bool. simpl.
    destruct Hp as [?|[? _]]; lia.
  - apply step_sample in He as (_ & _ & Hg & _ & Hb & Hl & ->).
    destruct Hp as [?|(? & Hbp & q & Hq & ?)]; [by left|right; simpl].
    rewrite (Hb _ Hbp). split; [done|]. split; [done|]. eexists. split; [done|].
    specialize (Hl _ Hq). lia.
  - simpl in He. step_if_in He; by simplify_eq.
  - simpl in He. step_if_in He; by simplify_eq.
  - simpl in He. step_if_in He; by simplify_eq.
Qed.

(** [s2] comes after [s1]: a later connection, or a later sequence number of the
    same boot in the same connection. *)
Definition later (s1 s2 : PositionSample.t) : Prop :=
  PositionSample.source_connection_generation s1 < PositionSample.source_connection_generation s2 ∨
  (PositionSample.source_connection_generation s1 = PositionSample.source_connection_generation s2 ∧
   PositionSample.agent_boot_id s1 = PositionSample.agent_boot_id s2 ∧
   PositionSample.sequence s1 < PositionSample.sequence s2).

Lemma past_later s1 p s2 p' : past s1 p → step p (Sample s2) = Some p' → later s1 s2.
Proof.
  intros Hp (_ & _ & Hg & _ & Hb & Hl & _)%step_sample. unfold later. rewrite Hg.
  destruct Hp as [?|(? & Hbp & q & Hq & ?)]; [by left|right].
  rewrite <- (Hb _ Hbp). split; [done|]. split; [done|]. specialize (Hl _ Hq). lia.
Qed.

Lemma run_past s p es p' i s' :
  past s p → run p es = Some p' → es !! i = Some (Sample s') → later s s'.
Proof.
  revert p i. induction es as [|e es IH]; intros p i Hp Hr Hi; [done|].
  simpl in Hr. destruct (step p e) as [p1|] eqn:He; [|done]. simpl in Hr.
  destruct i as [|i]; simpl in Hi.
  - simplify_eq. by eapply past_later.
  - eapply IH; [|done|done]. by eapply past_step.
Qed.

(** The samples of a legal stream are totally ordered in time. *)
Lemma run_samples_later p es p' i j s1 s2 :
  run p es = Some p' → (i < j)%nat →
  es !! i = Some (Sample s1) → es !! j = Some (Sample s2) → later s1 s2.
Proof.
  revert p i j. induction es as [|e es IH]; intros p i j Hr Hij Hi Hj; [done|].
  simpl in Hr. destruct (step p e) as [p1|] eqn:He; [|done]. simpl in Hr.
  destruct j as [|j]; [lia|]. destruct i as [|i]; simpl in *.
  - simplify_eq. eapply run_past; [by eapply past_sample|done|done].
  - eapply IH; [done| |done|done]. lia.
Qed.

(** The events of a stream that are legal where they occur. *)
Fixpoint legal_part (p : t) (es : list PositionSourceEvent) : list PositionSourceEvent :=
  match es with
  | [] => []
  | e :: es =>
      match step p e with
      | Some p' => e :: legal_part p' es
      | None => legal_part p es
      end
  end.

Lemma legal_part_legal p es : is_Some (run p (legal_part p es)).
Proof.
  revert p. induction es as [|e es IH]; intros p; simpl; [by eexists|].
  destruct (step p e) as [p'|] eqn:He; [|done]. simpl. rewrite He. simpl. apply IH.
Qed.

Lemma legal_part_id p es p' : run p es = Some p' → legal_part p es = es.
Proof.
  revert p. induction es as [|e es IH]; intros p; simpl; [done|].
  destruct (step p e) as [p1|] eqn:He; [|done]. simpl. intros Hr. f_equal. by eapply IH.
Qed.
End ProtocolOrder.

(** ** Polling a source *)

(** The answers of successive polls, and the events among them. *)
Fixpoint poll_all {S E} `{PositionSource S E} (times : list N) (s : S) :
    list (result (option PositionSourceEvent) E) * S :=
  match times with
  | [] => ([], s)
  | now :: times =>
      let '(answer, s) := poll now s in
      let '(answers, s) := poll_all times s in
      (answer :: answers, s)
  end.

Lemma poll_all_app {S E} `{PositionSource S E} (times1 times2 : list N) (s : S) :
  poll_all (times1 ++ times2) s =
    (let '(answers1, s1) := poll_all times1 s in
     let '(answers2, s2) := poll_all times2 s1 in (answers1 ++ answers2, s2)).
Proof.
  revert s. induction times1 as [|now times1 IH]; intros s; simpl; [by destruct (poll_all times2 s)|].
  destruct (poll now s) as [answer s1]. rewrite IH. destruct (poll_all times1 s1) as [answers1 s2].
  by destruct (poll_all times2 s2).
Qed.

Definition answer_event {E} (answer : result (option PositionSourceEvent) E) :
    option PositionSourceEvent :=
  match answer with Ok e => e | Err _ => None end.

Definition events {E} (answers : list (result (option PositionSourceEvent) E)) :
    list PositionSourceEvent :=
  omap answer_event answers.

(** What a source promises to its consumer. [synced s p] relates the source to what
    the consumer has seen of it, [on_time s now] says that the clock has not run
    backwards for it; every event of a poll is then legal for the consumer. *)
Class LawfulSource (S E : Type) `{PositionSource S E} := {
  synced : S → Protocol.t → Prop;
  on_time : S → N → Prop;
  poll_on_time s now now' : on_time s now → now ≤ now' → on_time (poll now s).2 now';
  poll_synced s p now :
    synced s p → on_time s now →
    match answer_event (poll now s).1 with
    | Some e => ∃ p', Protocol.step p e = Some p' ∧ synced (poll now s).2 p'
    | None => synced (poll now s).2 p
    end;
}.

(** A lawful source polled with a clock that never runs backwards emits a legal
    stream. *)
Lemma poll_all_legal {S E} `{LawfulSource S E} (times : list N) (s : S) p :
  synced s p → Sorted N.le times → HdRel (λ _ now, on_time s now) 0 times →
  ∃ p', Protocol.run p (events (poll_all times s).1) = Some p' ∧ synced (poll_all times s).2 p'.
Proof.
  revert s p. induction times as [|now times IH]; intros s p Hs Hsort Ht; [by exists p|].
  inversion_clear Hsort as [|? ? Hsort' Hnow]. inversion_clear Ht as [|? ? Hready].
  pose proof (poll_synced s p now Hs Hready) as Hp.
  assert (HdRel (λ _ now', on_time (poll now s).2 now') 0 times) as Hready'.
  { destruct times as [|now' times]; constructor. inversion_clear Hnow.
    by eapply poll_on_time. }
  simpl. destruct (poll now s) as [answer s'] eqn:Hpoll. simpl in *.
  destruct (poll_all times s') as [answers s''] eqn:Hall. simpl.
  assert (∀ p1, synced s' p1 →
    ∃ p', Protocol.run p1 (events answers) = Some p' ∧ synced s'' p') as Hrest.
  { intros p1 H1. destruct (IH s' p1 H1 Hsort' Hready') as (p' & Hr & Hs').
    rewrite Hall in Hr, Hs'. by exists p'. }
  unfold events in *. simpl. destruct (answer_event answer) as [e|]; simpl; [|by apply Hrest].
  destruct Hp as (p1 & -> & H1). simpl. by apply Hrest.
Qed.
