(* ===== verification/Reducer.v ===== *)
(** * The state reducer

    Models [crates/pal-state/src/reducer.rs]: [StateReducer], the only owner of
    the overlay's mutable state. [None] of [core_state] is the failure of its
    [expect]. *)

From S2P Require Import Prelude Floats Settings Position View CoreState PositionSource.

Record ReducerDiagnostics := mkDiagnostics {
  accepted_samples : N;
  duplicate_drops : N;
  out_of_order_drops : N;
  gap_events : N;
  missing_sequences : N;
  old_generation_drops : N;
  same_generation_boot_mismatch_drops : N;
  invalid_transition_drops : N;
  clock_invalid_events : N;
}.
#[export] Instance eta_ReducerDiagnostics : Eta ReducerDiagnostics := λ d,
  mkDiagnostics (accepted_samples d) (duplicate_drops d) (out_of_order_drops d) (gap_events d)
    (missing_sequences d) (old_generation_drops d) (same_generation_boot_mismatch_drops d)
    (invalid_transition_drops d) (clock_invalid_events d).
#[export] Instance ReducerDiagnostics_eq_dec : EqDecision ReducerDiagnostics.
Proof. solve_decision. Defined.

Definition ReducerDiagnostics_default : ReducerDiagnostics := mkDiagnostics 0 0 0 0 0 0 0 0 0.

Inductive Event :=
| PositionSourceEv (event : PositionSourceEvent)
| SettingsApplied (version : N) (settings : OverlaySettings)
| WindowChanged (window : option WindowSnapshot.t)
| SetVisible (visible : bool)
| SetDisplayMode (mode : DisplayMode)
| SetMiniMapView (view : MiniMapView.t)
| ExpandedPanZoom (center_x center_y : f64) (zoom : f32).

Inductive ReducerError :=
| ReSettingsVersionZero
| SettingsVersionNotNewer (current candidate : N)
| SettingsVersionOverflow
| ReSettings (error : SettingsValidationError)
| ReView (error : ViewValidationError).

Record StateReducer := mkReducer {
  settings : OverlaySettings;
  settings_version : N;
  window : option WindowSnapshot.t;
  visible : bool;
  generation : N;
  connected : bool;
  active_boot_id : option bytes;
  last_sequence : option N;
  last_position : option PositionSample.t;
  clock_valid : bool;
  heading_available : bool;
  mini_map_view : MiniMapView.t;
  expanded_map_view : ExpandedMapView.t;
  diagnostics : ReducerDiagnostics;
}.
#[export] Instance eta_StateReducer : Eta StateReducer := λ r,
  mkReducer (settings r) (settings_version r) (window r) (visible r) (generation r) (connected r)
    (active_boot_id r) (last_sequence r) (last_position r) (clock_valid r) (heading_available r)
    (mini_map_view r) (expanded_map_view r) (diagnostics r).

Definition default : option StateReducer :=
  let settings := OverlaySettings_default in
  mini_map_view ← expect (MiniMapView.new (f64_lit 0 1) (f64_lit 0 1) (zoom settings));
  expanded_map_view ← expect (ExpandedMapView.new (f64_lit 0 1) (f64_lit 0 1) (zoom settings));
  Some {|
    visible := enabled settings;
    settings := settings;
    settings_version := 1;
    window := None;
    generation := 0;
    connected := false;
    active_boot_id := None;
    last_sequence := None;
    last_position := None;
    clock_valid := false;
    heading_available := false;
    mini_map_view := mini_map_view;
    expanded_map_view := expanded_map_view;
    diagnostics := ReducerDiagnostics_default |}.

(** ** Position-source events *)

Definition count_invalid_transition (self : StateReducer) : StateReducer :=
  self <| diagnostics ::= λ d, d <| invalid_transition_drops ::= increment |> |>.
Definition count_old_generation (self : StateReducer) : StateReducer :=
  self <| diagnostics ::= λ d, d <| old_generation_drops ::= increment |> |>.

Definition apply_unavailable (self : StateReducer) (g : N) : StateReducer :=
  if g =? 0 then count_invalid_transition self
  else if g <? generation self then count_old_generation self
  else if negb (g =? generation self) || negb (connected self) then count_invalid_transition self
  else self <| last_position := None |> <| clock_valid := false |> <| heading_available := false |>.

Definition apply_connected (self : StateReducer) (g : N) : StateReducer :=
  if g =? 0 then count_invalid_transition self
  else if g <? generation self then count_old_generation self
  else if generation self <? g then
    self <| generation := g |> <| connected := true |> <| active_boot_id := None |>
         <| last_sequence := None |> <| last_position := None |> <| clock_valid := false |>
         <| heading_available := false |>
  else self.

(** The counters of a gap before [sample]. *)
Definition count_gap (self : StateReducer) (sequence previous : N) : StateReducer :=
  if saturating_add previous 1 <? sequence then
    self <| diagnostics ::= λ d,
      d <| gap_events ::= increment |>
        <| missing_sequences ::= λ missing,
             saturating_add missing (saturating_sub (saturating_sub sequence previous) 1) |> |>
  else self.

(** The end of [apply_sample], once every check has passed. *)
Definition accept_sample (self : StateReducer) (sample : PositionSample.t) : StateReducer :=
  let self :=
    if is_none (active_boot_id self)
    then self <| active_boot_id := Some (PositionSample.agent_boot_id sample) |> else self in
  self <| last_sequence := Some (PositionSample.sequence sample) |>
       <| clock_valid := true |>
       <| heading_available := is_some (PositionSample.heading_degrees sample) |>
       <| last_position := Some sample |>
       <| diagnostics ::= λ d, d <| accepted_samples ::= increment |> |>.

Definition apply_sample (self : StateReducer) (sample : PositionSample.t) : StateReducer :=
  let g := PositionSample.source_connection_generation sample in
  let sequence := PositionSample.sequence sample in
  if (g =? 0) || (sequence =? 0) then count_invalid_transition self
  else if g <? generation self then count_old_generation self
  else if (generation self <? g) || negb (connected self) then count_invalid_transition self
  else if is_some_and (active_boot_id self)
            (λ boot_id, negb (bool_decide (boot_id = PositionSample.agent_boot_id sample)))
  then self <| diagnostics ::= λ d, d <| same_generation_boot_mismatch_drops ::= increment |> |>
  else
    match last_sequence self with
    | Some previous =>
        if sequence =? previous then
          self <| diagnostics ::= λ d, d <| duplicate_drops ::= increment |> |>
        else if sequence <? previous then
          self <| diagnostics ::= λ d, d <| out_of_order_drops ::= increment |> |>
        else accept_sample (count_gap self sequence previous) sample
    | None => accept_sample self sample
    end.

Definition apply_disconnected (self : StateReducer) (g : N) : StateReducer :=
  if g =? 0 then count_invalid_transition self
  else if g <? generation self then count_old_generation self
  else if generation self <? g then count_invalid_transition self
  else if connected self then
    self <| connected := false |> <| clock_valid := false |> <| heading_available := false |>
  else self.

Definition apply_clock_invalid (self : StateReducer) (g : N) : StateReducer :=
  if g =? 0 then count_invalid_transition self
  else if g <? generation self then count_old_generation self
  else if (generation self <? g) || negb (connected self) then count_invalid_transition self
  else self <| clock_valid := false |> <| heading_available := false |>
            <| diagnostics ::= λ d, d <| clock_invalid_events ::= increment |> |>.

Definition apply_position_source (self : StateReducer) (event : PositionSourceEvent) : StateReducer :=
  match event with
  | Connected g => apply_connected self g
  | Sample sample => apply_sample self sample
  | Unavailable g => apply_unavailable self g
  | Disconnected g => apply_disconnected self g
  | ClockInvalid g _ => apply_clock_invalid self g
  end.

(** ** Settings and display *)

Definition display_transition_view (self : StateReducer) (old_mode new_mode : DisplayMode)
    (view : MiniMapView.t) : result ExpandedMapView.t ReducerError :=
  if bool_decide (old_mode = new_mode) then Ok (expanded_map_view self)
  else map_err ReView (ExpandedMapView.new (MiniMapView.center_x view) (MiniMapView.center_y view)
                         (ExpandedMapView.zoom (expanded_map_view self))).

Definition apply_settings (self : StateReducer) (version : N) (new_settings : OverlaySettings) :
    result unit ReducerError * StateReducer :=
  let checked :=
    let? _ := map_err ReSettings (validate new_settings) in
    if version =? 0 then Err ReSettingsVersionZero
    else if version <=? settings_version self then
      Err (SettingsVersionNotNewer (settings_version self) version)
    else
      let? mini := map_err ReView (MiniMapView.new (MiniMapView.center_x (mini_map_view self))
                                     (MiniMapView.center_y (mini_map_view self))
                                     (zoom new_settings)) in
      let? expanded := display_transition_view self (display_mode (settings self))
                         (display_mode new_settings) mini in
      Ok (mini, expanded) in
  match checked with
  | Err e => (Err e, self)
  | Ok (mini, expanded) =>
      (Ok tt, self <| visible := enabled new_settings |> <| settings := new_settings |>
                   <| settings_version := version |> <| mini_map_view := mini |>
                   <| expanded_map_view := expanded |>)
  end.

Definition set_display_mode (self : StateReducer) (mode : DisplayMode) :
    result unit ReducerError * StateReducer :=
  let old_mode := display_mode (settings self) in
  if bool_decide (old_mode = mode) then (Ok tt, self)
  else
    let checked :=
      let? version := ok_or (checked_add (settings_version self) 1) SettingsVersionOverflow in
      let? expanded := display_transition_view self old_mode mode (mini_map_view self) in
      let new_settings := (settings self) <| display_mode := mode |> in
      let? _ := map_err ReSettings (validate new_settings) in
      Ok (new_settings, version, expanded) in
    match checked with
    | Err e => (Err e, self)
    | Ok (new_settings, version, expanded) =>
        (Ok tt, self <| settings := new_settings |> <| settings_version := version |>
                     <| expanded_map_view := expanded |>)
    end.

Definition apply (self : StateReducer) (event : Event) : result unit ReducerError * StateReducer :=
  match event with
  | PositionSourceEv event => (Ok tt, apply_position_source self event)
  | SettingsApplied version settings => apply_settings self version settings
  | WindowChanged w => (Ok tt, self <| window := w |>)
  | SetVisible v => (Ok tt, self <| visible := v |>)
  | SetDisplayMode mode => set_display_mode self mode
  | SetMiniMapView view => (Ok tt, self <| mini_map_view := view |>)
  | ExpandedPanZoom center_x center_y zoom =>
      match map_err ReView (ExpandedMapView.new center_x center_y zoom) with
      | Ok candidate => (Ok tt, self <| expanded_map_view := candidate |>)
      | Err e => (Err e, self)
      end
  end.

(** ** Observation *)

Definition has_trusted_position (self : StateReducer) : bool :=
  connected self && clock_valid self && is_some (last_position self).

Definition freshness (self : StateReducer) (now_monotonic_ms : N) : Freshness :=
  if negb (connected self) then Offline
  else if negb (clock_valid self) then Stale
  else
    match last_position self with
    | None => Stale
    | Some position =>
        classify_freshness
          (SampleClock.age_upper_bound_ms (PositionSample.clock position) now_monotonic_ms) true
    end.

Definition core_state (self : StateReducer) (now_monotonic_ms : N) : option CoreState :=
  let fr := freshness self now_monotonic_ms in
  let interpolate_position :=
    connected self && clock_valid self && is_some (last_position self) && fresh_or_delayed fr in
  expect (from_parts (mkCoreState (settings self) (settings_version self) (window self)
                        (last_position self) fr (heading_available self) (connected self)
                        (visible self) interpolate_position (mini_map_view self)
                        (expanded_map_view self))).

(** ** Invariant *)

Record invariant (r : StateReducer) : Prop := {
  inv_settings : valid_settings (settings r);
  inv_version : settings_version r ≠ 0;
  inv_mini : MiniMapView.valid (mini_map_view r);
  inv_expanded : ExpandedMapView.valid (expanded_map_view r);
  inv_heading : heading_available r = true →
    ∃ position, last_position r = Some position ∧ has_heading position = true;
}.

(** A view in an event was built by its constructor. *)
Definition event_ok (e : Event) : Prop :=
  match e with SetMiniMapView view => MiniMapView.valid view | _ => True end.

Inductive reachable : StateReducer → Prop :=
| reachable_default r : default = Some r → reachable r
| reachable_apply r e : reachable r → event_ok e → reachable (apply r e).2.

Lemma default_some : ∃ r, default = Some r ∧ invariant r.
Proof.
  unfold default.
  pose proof (settings_zoom_view _ default_valid) as Hv.
  rewrite MiniMapView.mini_new_some, ExpandedMapView.expanded_new_some by done. simpl.
  eexists. split; [done|]. by constructor; simpl; [apply default_valid| | | |].
Qed.

Lemma invariant_position_source r e : invariant r → invariant (apply_position_source r e).
Proof.
  intros []. destruct e; simpl;
    unfold apply_connected, apply_unavailable, apply_disconnected, apply_clock_invalid, apply_sample,
      accept_sample, count_gap, count_invalid_transition, count_old_generation;
    repeat step_if; constructor; simpl; try done; eauto.
Qed.

Lemma display_transition_view_ok r old_mode new_mode view v :
  ExpandedMapView.valid (expanded_map_view r) →
  display_transition_view r old_mode new_mode view = Ok v → ExpandedMapView.valid v.
Proof.
  intros He. unfold display_transition_view. case_bool_decide; [by intros [= <-]|].
  rewrite map_err_ok, ExpandedMapView.expanded_new_ok. by intros [? ->].
Qed.

Lemma apply_settings_cases r version s :
  (∃ e, apply_settings r version s = (Err e, r)) ∨
  ∃ mini expanded,
    valid_settings s ∧ settings_version r < version ∧
    MiniMapView.valid mini ∧
    display_transition_view r (display_mode (settings r)) (display_mode s) mini = Ok expanded ∧
    apply_settings r version s =
      (Ok tt, r <| visible := enabled s |> <| settings := s |> <| settings_version := version |>
                <| mini_map_view := mini |> <| expanded_map_view := expanded |>).
Proof.
  unfold apply_settings.
  match goal with |- context [match ?c with Ok _ => _ | Err _ => _ end] =>
    destruct c as [[mini expanded]|e] eqn:Hc; [|eauto] end.
  right. apply and_then_ok in Hc as ([] & Hv & Hc). apply map_err_ok, validate_ok in Hv.
  repeat (step_if_in Hc; [discriminate|]). reflect_bool.
  apply and_then_ok in Hc as (mini' & Hm & Hc). apply map_err_ok, MiniMapView.mini_new_ok in Hm as [Hm ->].
  apply and_then_ok in Hc as (expanded' & He & [= <- <-]).
  exists (MiniMapView.mk (MiniMapView.center_x (mini_map_view r))
    (MiniMapView.center_y (mini_map_view r)) (zoom s)), expanded'.
  split; [done|]. split; [done|]. split; [exact Hm|]. by split.
Qed.

Lemma set_display_mode_cases r mode :
  (∃ e, set_display_mode r mode = (Err e, r)) ∨
  (display_mode (settings r) = mode ∧ set_display_mode r mode = (Ok tt, r)) ∨
  ∃ expanded,
    valid_settings ((settings r) <| display_mode := mode |>) ∧
    settings_version r + 1 ≤ u64_max ∧
    display_transition_view r (display_mode (settings r)) mode (mini_map_view r) = Ok expanded ∧
    set_display_mode r mode =
      (Ok tt, r <| settings := (settings r) <| display_mode := mode |> |>
                <| settings_version := settings_version r + 1 |>
                <| expanded_map_view := expanded |>).
Proof.
  unfold set_display_mode. case_bool_decide; [right; left; by split|].
  match goal with |- context [match ?c with Ok _ => _ | Err _ => _ end] =>
    destruct c as [[[s v] expanded]|e] eqn:Hc; [|eauto] end.
  right; right. apply and_then_ok in Hc as (version & Hv & Hc).
  apply ok_or_ok, checked_add_some in Hv as [-> Hv].
  apply and_then_ok in Hc as (expanded' & He & Hc).
  apply and_then_ok in Hc as ([] & Hs & [= <- <- <-]). apply map_err_ok, validate_ok in Hs.
  eexists. split; [done|]. split; [done|]. by split.
Qed.

(** Position-source events touch neither settings nor version. *)
Lemma position_source_settings r e :
  settings (apply_position_source r e) = settings r ∧
  settings_version (apply_position_source r e) = settings_version r.
Proof.
  destruct e; simpl;
    unfold apply_connected, apply_unavailable, apply_disconnected, apply_clock_invalid, apply_sample,
      accept_sample, count_gap, count_invalid_transition, count_old_generation;
    by repeat step_if.
Qed.

Lemma invariant_apply r e : invariant r → event_ok e → invariant (apply r e).2.
Proof.
  intros Hr He. destruct e as [e|version s|w|v|mode|view|x y zm]; simpl.
  - by apply invariant_position_source.
  - destruct (apply_settings_cases r version s) as [[e ->]|(m & x & ? & ? & ? & Hx & ->)]; [done|].
    apply display_transition_view_ok in Hx; [|apply Hr].
    destruct Hr. constructor; simpl; try done. lia.
  - by destruct Hr.
  - by destruct Hr.
  - destruct (set_display_mode_cases r mode) as [[e ->]|[[_ ->]|(x & ? & ? & Hx & ->)]]; [done|done|].
    apply display_transition_view_ok in Hx; [|apply Hr].
    destruct Hr. constructor; simpl; try done. lia.
  - by destruct Hr.
  - destruct (ExpandedMapView.new x y zm) as [view|] eqn:Hv; simpl; [|done].
    apply ExpandedMapView.expanded_new_ok in Hv as [? ->]. by destruct Hr.
Qed.

Lemma reachable_invariant r : reachable r → invariant r.
Proof.
  induction 1 as [r Hr|r e _ IH He].
  - destruct default_some as (r' & Hr' & Hinv). by simplify_eq.
  - by apply invariant_apply.
Qed.

Lemma classify_not_offline age : classify_freshness age true ≠ Offline.
Proof. unfold classify_freshness. simpl. by repeat step_if. Qed.

Lemma core_state_some r now :
  invariant r → ∃ s, core_state r now = Some s ∧ consistent s ∧ CoreState.settings s = settings r ∧
    CoreState.freshness s = freshness r now ∧ CoreState.position_sample s = last_position r.
Proof.
  intros []. unfold core_state.
  match goal with |- context [from_parts ?p] => set (parts := p) end.
  assert (consistent parts) as Hc.
  { unfold parts, freshness. constructor; simpl; try done.
    - destruct (connected r); simpl; [|done]. destruct (clock_valid r); simpl; [|done].
      destruct (last_position r); [|done]. split; [intros _|done]. apply classify_not_offline.
    - destruct (connected r); simpl; [|done]. destruct (clock_valid r); simpl; [|done].
      by destruct (last_position r).
    - destruct (connected r); simpl; [|done]. destruct (clock_valid r); simpl; [|done].
      by destruct (last_position r). }
  exists parts. split; [|done]. by rewrite (proj2 (from_parts_ok parts parts)).
Qed.

(** ** The reducer and the event protocol *)

(** The part of the state that decides which events are accepted. *)
Definition proto_of (r : StateReducer) : Protocol.t :=
  Protocol.mk (generation r) (connected r) (active_boot_id r) (last_sequence r).

Definition drops (d : ReducerDiagnostics) : N :=
  duplicate_drops d + out_of_order_drops d + old_generation_drops d
  + same_generation_boot_mismatch_drops d + invalid_transition_drops d.

Ltac unfold_handlers :=
  unfold apply_connected, apply_unavailable, apply_disconnected, apply_clock_invalid, apply_sample,
    accept_sample, count_gap, count_invalid_transition, count_old_generation in *.

(** A legal event advances the protocol state and drops nothing. *)
Lemma legal_event r e p' :
  Protocol.step (proto_of r) e = Some p' →
  proto_of (apply_position_source r e) = p' ∧
  drops (diagnostics (apply_position_source r e)) = drops (diagnostics r).
Proof.
  destruct e as [g|s|g|g|g reason]; intros Hs.
  - simpl in *. unfold_handlers. step_if_in Hs; [|done]. injection Hs as <-. reflect_bool.
    by branches.
  - apply Protocol.step_sample in Hs as (Hc & Hg & Hsg & Hsq & Hb & Hl & ->). simpl in *.
    unfold apply_sample. rewrite Hsg, Hc.
    destruct (N.eqb_spec (generation r) 0); [done|].
    destruct (N.eqb_spec (PositionSample.sequence s) 0); [lia|].
    rewrite N.ltb_irrefl. simpl.
    assert (is_some_and (active_boot_id r)
      (λ b, negb (bool_decide (b = PositionSample.agent_boot_id s))) = false) as ->.
    { destruct (active_boot_id r) as [b|]; [|done]. simpl. rewrite (Hb b) by done.
      by rewrite bool_decide_true. }
    assert (∀ b, active_boot_id r = Some b → Some b = Some (PositionSample.agent_boot_id s))
      as Hb' by (intros; f_equal; auto).
    destruct (last_sequence r) as [q|]; [specialize (Hl q eq_refl);
      destruct (N.eqb_spec (PositionSample.sequence s) q); [lia|];
      destruct (N.ltb_spec (PositionSample.sequence s) q); [lia|]|];
      unfold accept_sample, count_gap, proto_of; repeat step_if;
      (split; [simpl in *; f_equal; try done|done]);
      destruct (active_boot_id r); simpl in *; try done; eauto.
  - simpl in *. unfold Protocol.current in Hs. simpl in Hs. step_if_in Hs; [|done].
    injection Hs as <-. unfold_handlers. reflect_bool. subst.
    by branches.
  - simpl in *. unfold Protocol.current in Hs. simpl in Hs. step_if_in Hs; [|done].
    injection Hs as <-. unfold_handlers. reflect_bool. subst.
    by branches.
  - simpl in *. unfold Protocol.current in Hs. simpl in Hs. step_if_in Hs; [|done].
    injection Hs as <-. unfold_handlers. reflect_bool. subst.
    by branches.
Qed.

(** An event that is not legal leaves everything but the counters alone. *)
Lemma illegal_event r e :
  Protocol.step (proto_of r) e = None →
  let r' := apply_position_source r e in
  r' = r <| diagnostics := diagnostics r' |> ∧
  accepted_samples (diagnostics r') = accepted_samples (diagnostics r) ∧
  gap_events (diagnostics r') = gap_events (diagnostics r) ∧
  missing_sequences (diagnostics r') = missing_sequences (diagnostics r).
Proof.
  destruct e as [g|s|g|g|g reason]; intros Hs r'; subst r'; simpl in *.
  - unfold_handlers. step_if_in Hs; [done|]. reflect_bool. destruct r. by branches.
  - unfold apply_sample, count_invalid_transition, count_old_generation.
    assert (Protocol.step (proto_of r) (Sample s) = None) as Hn by exact Hs. clear Hs.
    do 3 (step_if; [by destruct r|]).
    destruct (is_some_and (active_boot_id r) _) eqn:H4; [by destruct r|].
    reflect_bool.
    assert (∀ q, last_sequence r = Some q → PositionSample.sequence s ≤ q) as Hl.
    { intros q Hq. destruct (decide (PositionSample.sequence s ≤ q)); [done|].
      rewrite Protocol.step_sample_intro in Hn; simpl; try done; try lia.
      - intros b' Hb'. rewrite Hb' in H4. simpl in H4. by reflect_bool.
      - intros q' Hq'. simplify_eq. lia. }
    destruct (last_sequence r) as [q|] eqn:Hq.
    + specialize (Hl q eq_refl).
      destruct (N.eqb_spec (PositionSample.sequence s) q);
        [destruct r; simpl in *; by subst|].
      destruct (N.ltb_spec (PositionSample.sequence s) q);
        [destruct r; simpl in *; by subst|lia].
    + rewrite Protocol.step_sample_intro in Hn; simpl; try done; try lia; try congruence.
      intros b' Hb'. rewrite Hb' in H4. simpl in H4. by reflect_bool.
  - unfold Protocol.current in Hs. simpl in Hs. step_if_in Hs; [done|].
    unfold_handlers. destruct r as [? ? ? ? gen con ? ? ? ? ? ? ? ?]; simpl in *.
    destruct con; by branches.
  - unfold Protocol.current in Hs. simpl in Hs. step_if_in Hs; [done|].
    unfold_handlers. destruct r as [? ? ? ? gen con ? ? ? ? ? ? ? ?]; simpl in *.
    destruct con; by branches.
  - unfold Protocol.current in Hs. simpl in Hs. step_if_in Hs; [done|].
    unfold_handlers. destruct r as [? ? ? ? gen con ? ? ? ? ? ? ? ?]; simpl in *.
    destruct con; by branches.
Qed.

(** ** States up to diagnostics *)

(** Two reducers agree when they differ in their counters only. *)
#[export] Instance reducer_equiv : Equiv StateReducer := λ r1 r2,
  r1 <| diagnostics := ReducerDiagnostics_default |> =
  r2 <| diagnostics := ReducerDiagnostics_default |>.

#[export] Instance reducer_equivalence : Equivalence (≡@{StateReducer}).
Proof.
  split; unfold equiv, reducer_equiv; [by intros r|by intros r1 r2|].
  intros r1 r2 r3 H12 H23. by rewrite H12.
Qed.

Lemma reducer_equiv_alt r1 r2 : r1 ≡ r2 ↔ r1 = r2 <| diagnostics := diagnostics r1 |>.
Proof.
  unfold equiv, reducer_equiv. destruct r1, r2; simpl.
  split; intros H; injection H; intros; subst; reflexivity.
Qed.

Lemma reducer_equiv_elim r1 r2 : r1 ≡ r2 → r1 = r2 <| diagnostics := diagnostics r1 |>.
Proof. apply reducer_equiv_alt. Qed.

Lemma reducer_equiv_diagnostics r f : r <| diagnostics ::= f |> ≡ r.
Proof. done. Qed.

Lemma count_gap_equiv r sequence previous : count_gap r sequence previous ≡ r.
Proof. unfold count_gap. by step_if. Qed.

#[export] Instance accept_sample_proper : Proper ((≡) ==> (=) ==> (≡)) accept_sample.
Proof.
  intros r1 r2 Hr%reducer_equiv_elim s ? <-. rewrite Hr. unfold accept_sample, equiv, reducer_equiv.
  simpl. by destruct (is_none (active_boot_id r2)).
Qed.

#[export] Instance apply_position_source_proper :
  Proper ((≡) ==> (=) ==> (≡)) apply_position_source.
Proof.
  intros r1 r2 Hr%reducer_equiv_elim e ? <-. rewrite Hr. clear Hr. generalize (diagnostics r1).
  intros d. destruct e as [g|s|g|g|g reason]; simpl.
  2: { unfold apply_sample. simpl. repeat step_if; try done; rewrite ?count_gap_equiv;
       (apply accept_sample_proper; [|done]); destruct r2; simpl in *; by subst. }
  all: destruct r2; unfold_handlers; simpl; by repeat step_if.
Qed.

#[export] Instance proto_of_proper : Proper ((≡) ==> (=)) proto_of.
Proof. intros r1 r2 Hr%reducer_equiv_elim. by rewrite Hr. Qed.

#[export] Instance core_state_proper : Proper ((≡) ==> (=) ==> (=)) core_state.
Proof. intros r1 r2 Hr%reducer_equiv_elim now ? <-. by rewrite Hr. Qed.

Definition run_source (r : StateReducer) (es : list PositionSourceEvent) : StateReducer :=
  fold_left apply_position_source es r.

#[export] Instance run_source_proper : Proper ((≡) ==> (=) ==> (≡)) run_source.
Proof.
  intros r1 r2 Hr es ? <-. unfold run_source. revert r1 r2 Hr.
  induction es as [|e es IH]; intros r1 r2 Hr; simpl; [done|]. apply IH. by rewrite Hr.
Qed.

Lemma illegal_event_equiv r e :
  Protocol.step (proto_of r) e = None → apply_position_source r e ≡ r.
Proof. intros H. apply illegal_event in H as (H & _). by apply reducer_equiv_alt. Qed.

Import ProtocolOrder.

Lemma run_source_legal_part r es :
  run_source r es ≡ run_source r (legal_part (proto_of r) es) ∧
  Protocol.run (proto_of r) (legal_part (proto_of r) es) = Some (proto_of (run_source r es)).
Proof.
  revert r. induction es as [|e es IH]; intros r; simpl; [done|].
  destruct (Protocol.step (proto_of r) e) as [p'|] eqn:He; simpl.
  - apply legal_event in He as Hl. destruct Hl as [<- _]. rewrite He. simpl. apply IH.
  - apply illegal_event_equiv in He. pose proof (proto_of_proper _ _ He) as Hp.
    destruct (IH (apply_position_source r e)) as [IH1 IH2]. rewrite Hp in IH1, IH2.
    split; [|done]. etransitivity; [exact IH1|]. by rewrite He.
Qed.

Lemma run_source_legal_drops r es p' :
  Protocol.run (proto_of r) es = Some p' →
  drops (diagnostics (run_source r es)) = drops (diagnostics r) ∧ proto_of (run_source r es) = p'.
Proof.
  revert r. induction es as [|e es IH]; intros r; simpl; [by intros [= <-]|].
  destruct (Protocol.step (proto_of r) e) as [p1|] eqn:He; [|done]. simpl.
  apply legal_event in He as [<- Hd]. intros [IH1 IH2]%IH. by rewrite <- Hd.
Qed.

(** ** Properties *)

(** C39: whatever valid events a reducer has processed, in whatever order, its
    published core state exists at every time (the construction never panics), is
    consistent, and shows the reducer's settings, last position and freshness. *)
Theorem reducer_never_panics (r : StateReducer) :
  reachable r → ∀ now, ∃ s,
    core_state r now = Some s ∧ consistent s ∧ CoreState.settings s = settings r ∧
    CoreState.freshness s = freshness r now ∧ CoreState.position_sample s = last_position r.
Proof. intros Hr now. by apply core_state_some, reachable_invariant. Qed.

Lemma reducer_never_panics_witness :
  match default with
  | Some r => reachable r ∧ ∃ s, core_state r 7 = Some s ∧ consistent s
  | None => False
  end.
Proof.
  destruct default as [r|] eqn:Hd; [|vm_compute in Hd; discriminate].
  assert (reachable r) as Hr by (by constructor). split; [done|].
  destruct (reducer_never_panics r Hr 7) as (s & ? & ? & _). by exists s.
Defined.

(** C1: the reducer implements the event protocol. Its state after any stream of
    source events is, up to the counters, its state after the legal events of the
    stream alone; those events drive the protocol automaton to exactly the
    reducer's own connection, boot and sequence, and count no drop. *)
Theorem reducer_refines_protocol (r : StateReducer) (es : list PositionSourceEvent) :
  let legal := legal_part (proto_of r) es in
  run_source r es ≡ run_source r legal ∧
  Protocol.run (proto_of r) legal = Some (proto_of (run_source r es)) ∧
  drops (diagnostics (run_source r legal)) = drops (diagnostics r) ∧
  ∀ now, core_state (run_source r es) now = core_state (run_source r legal) now.
Proof.
  intros legal. destruct (run_source_legal_part r es) as [H1 H2].
  destruct (run_source_legal_drops r legal _ H2) as [H3 _].
  split; [done|]. split; [done|]. split; [done|]. intros now. by rewrite H1.
Qed.

Definition sample_1 : PositionSample.t :=
  PositionSample.mk "w" [Byte.x01] [Byte.x02] 1 1 (f64_of_Z 0) (f64_of_Z 0) (f64_of_Z 0) None
    (SampleClock.mk 0 0).
Definition sample_2 : PositionSample.t :=
  PositionSample.mk "w" [Byte.x01] [Byte.x02] 1 5 (f64_of_Z 0) (f64_of_Z 0) (f64_of_Z 0) None
    (SampleClock.mk 0 0).

(** ** Counters *)

(** The samples a counter speaks of: every handled sample is one of these. *)
Definition outcomes (d : ReducerDiagnostics) : N := accepted_samples d + drops d.

(** A legal sample passes every check. *)
Lemma apply_sample_accepts r s p' :
  Protocol.step (proto_of r) (Sample s) = Some p' →
  apply_sample r s =
  accept_sample
    (match last_sequence r with
     | Some q => count_gap r (PositionSample.sequence s) q | None => r end) s.
Proof.
  intros (Hc & Hg & Hsg & Hsq & Hb & Hl & _)%Protocol.step_sample. simpl in *.
  unfold apply_sample. rewrite Hsg, Hc, N.ltb_irrefl.
  destruct (N.eqb_spec (generation r) 0); [done|].
  destruct (N.eqb_spec (PositionSample.sequence s) 0); [lia|]. simpl.
  replace (is_some_and _ _) with false.
  2: { destruct (active_boot_id r) as [b|]; [|done]. simpl. rewrite (Hb b) by done.
       by rewrite bool_decide_true. }
  destruct (last_sequence r) as [q|]; [|done]. specialize (Hl q eq_refl).
  destruct (N.eqb_spec (PositionSample.sequence s) q); [lia|].
  destruct (N.ltb_spec (PositionSample.sequence s) q); [lia|done].
Qed.

Lemma accept_sample_fields r s :
  accepted_samples (diagnostics (accept_sample r s)) = increment (accepted_samples (diagnostics r)) ∧
  missing_sequences (diagnostics (accept_sample r s)) = missing_sequences (diagnostics r) ∧
  drops (diagnostics (accept_sample r s)) = drops (diagnostics r) ∧
  last_sequence (accept_sample r s) = Some (PositionSample.sequence s).
Proof. unfold accept_sample. by destruct (is_none (active_boot_id r)). Qed.

(** ** The position shown *)

(** [s2] continues [s1]: the same connection and boot, and a later sequence number. *)
Definition continues (s1 s2 : PositionSample.t) : bool :=
  (PositionSample.source_connection_generation s2 =? PositionSample.source_connection_generation s1)
  && bool_decide (PositionSample.agent_boot_id s2 = PositionSample.agent_boot_id s1)
  && (PositionSample.sequence s1 <? PositionSample.sequence s2).

(** The reducer after any events, whatever they answer. *)
Definition run_events (r : StateReducer) (es : list Event) : StateReducer :=
  fold_left (λ r e, (apply r e).2) es r.

(** The connection, boot and sequence a reducer tracks are those of the position it shows. *)
Definition shown_tracked (r : StateReducer) : Prop :=
  generation r = 0 ∧ last_position r = None ∨
  generation r ≠ 0 ∧
  ∀ s, last_position r = Some s →
    PositionSample.source_connection_generation s = generation r ∧
    active_boot_id r = Some (PositionSample.agent_boot_id s) ∧
    last_sequence r = Some (PositionSample.sequence s).

(** What an event of another kind leaves alone. *)
Definition source_part (r : StateReducer) : Protocol.t * option PositionSample.t * N :=
  (proto_of r, last_position r, accepted_samples (diagnostics r)).

Lemma apply_source_part r e :
  (∃ event, e = PositionSourceEv event) ∨ source_part (apply r e).2 = source_part r.
Proof.
  destruct e as [e|version s|w|v|mode|view|x y zm]; [by left; eexists|right; simpl..]; try done.
  - by destruct (apply_settings_cases r version s) as [[e ->]|(m & x & ? & ? & ? & Hx & ->)].
  - by destruct (set_display_mode_cases r mode) as [[e ->]|[[_ ->]|(x & ? & ? & Hx & ->)]].
  - by destruct (map_err ReView (ExpandedMapView.new x y zm)).
Qed.

Lemma accept_sample_shown r s :
  last_position (accept_sample r s) = Some s ∧ generation (accept_sample r s) = generation r ∧
  last_sequence (accept_sample r s) = Some (PositionSample.sequence s) ∧
  active_boot_id (accept_sample r s) =
    Some (unwrap_or (active_boot_id r) (PositionSample.agent_boot_id s)).
Proof. unfold accept_sample. destruct (active_boot_id r) eqn:Hb; simpl; by rewrite ?Hb. Qed.

Lemma gapped_fields r s :
  let r' := match last_sequence r with
            | Some q => count_gap r (PositionSample.sequence s) q | None => r end in
  active_boot_id r' = active_boot_id r ∧ generation r' = generation r ∧
  accepted_samples (diagnostics r') = accepted_samples (diagnostics r).
Proof. unfold count_gap. destruct (last_sequence r); [|done]. by step_if. Qed.

(** A legal sample is shown, tracked and counted; any other is dropped. *)
Lemma apply_sample_shown r s :
  match Protocol.step (proto_of r) (Sample s) with
  | Some _ =>
      last_position (apply_sample r s) = Some s ∧ generation (apply_sample r s) = generation r ∧
      last_sequence (apply_sample r s) = Some (PositionSample.sequence s) ∧
      active_boot_id (apply_sample r s) = Some (PositionSample.agent_boot_id s) ∧
      accepted_samples (diagnostics (apply_sample r s)) = increment (accepted_samples (diagnostics r))
  | None => source_part (apply_sample r s) = source_part r
  end.
Proof.
  destruct (Protocol.step (proto_of r) (Sample s)) as [p'|] eqn:Hs.
  - rewrite (apply_sample_accepts r s p' Hs).
    destruct (gapped_fields r s) as (Hb & Hg & Ha). match goal with |- context [accept_sample ?x s] => set (r1 := x) in * end.
    destruct (accept_sample_shown r1 s) as (-> & -> & -> & ->), (accept_sample_fields r1 s) as (-> & _).
    rewrite Hb, Hg, Ha. split_and!; try done.
    apply Protocol.step_sample in Hs as (_ & _ & _ & _ & Hboot & _). simpl in Hboot.
    destruct (active_boot_id r) as [b|]; [|done]. simpl. by rewrite (Hboot b).
  - apply illegal_event in Hs as (Hr & Ha & _). simpl in Hr, Ha. unfold source_part.
    rewrite Ha, Hr. done.
Qed.

(** Where the position shown after an event comes from. *)
Lemma source_shown r e :
  shown_tracked r →
  shown_tracked (apply_position_source r e) ∧
  ∀ s, last_position (apply_position_source r e) = Some s →
    last_position r = Some s ∨ (e = Sample s ∧ is_Some (Protocol.step (proto_of r) (Sample s))).
Proof.
  intros Hr. destruct e as [g|s|g|g|g reason].
  2: { simpl. pose proof (apply_sample_shown r s) as H.
    destruct (Protocol.step (proto_of r) (Sample s)) as [p'|] eqn:Hs.
    - destruct H as (Hp & Hg & Hq & Hb & _).
      pose proof Hs as (_ & Hne & Hgen & _)%Protocol.step_sample. simpl in Hne, Hgen. split.
      + right. rewrite Hg. split; [done|]. rewrite Hp. intros s' [= <-]. by split_and!.
      + rewrite Hp. intros s' [= <-]. right. split; [done|]. by eexists.
    - unfold source_part, proto_of in H. injection H as Hg _ Hb Hq Hp _.
      unfold shown_tracked in *. rewrite Hp, Hg, Hb, Hq. by split; [|auto]. }
  all: unfold shown_tracked in *; simpl; unfold_handlers; repeat step_if;
    reflect_bool; simpl; (split; [|intros s Hs; first [discriminate|by left]]);
    try done; right; (split; [lia|done]).
Qed.

Lemma shown_past r s : shown_tracked r → last_position r = Some s → past s (proto_of r).
Proof.
  intros [[_ ->]|[_ H]] Hs; [done|]. destruct (H s Hs) as (Hg & Hb & Hq). right. simpl.
  split_and!; [done|done|]. by eexists.
Qed.

Lemma past_apply s r e : past s (proto_of r) → past s (proto_of (apply r e).2).
Proof.
  intros Hp. destruct (apply_source_part r e) as [[e' ->]|H].
  - simpl. destruct (Protocol.step (proto_of r) e') as [p'|] eqn:He.
    + apply legal_event in He as Hl. destruct Hl as [-> _]. by eapply past_step.
    + apply illegal_event_equiv in He. by rewrite He.
  - assert (proto_of (apply r e).2 = proto_of r) as -> by (unfold source_part in H; congruence). done.
Qed.

(** One event of any kind. *)
Lemma apply_shown r e :
  shown_tracked r →
  shown_tracked (apply r e).2 ∧
  ∀ s, last_position (apply r e).2 = Some s →
    last_position r = Some s ∨
    (e = PositionSourceEv (Sample s) ∧ is_Some (Protocol.step (proto_of r) (Sample s))).
Proof.
  intros Hr. destruct (apply_source_part r e) as [[e' ->]|H].
  - simpl. destruct (source_shown r e' Hr) as [Ht Hs]. split; [done|].
    intros s [?|[-> ?]]%Hs; [by left|by right].
  - unfold source_part, proto_of in H. injection H as Hg _ Hb Hq Hp _.
    unfold shown_tracked in *. rewrite Hp, Hg, Hb, Hq. split; [done|]. by left.
Qed.

Lemma reachable_tracked r : reachable r → shown_tracked r.
Proof.
  induction 1 as [r Hr|r e _ IH _]; [|by apply apply_shown].
  left. unfold default in Hr.
  destruct (MiniMapView.new _ _ _), (ExpandedMapView.new _ _ _); simpl in Hr; simplify_eq. done.
Qed.

Lemma run_events_shown r es s1 s2 :
  shown_tracked r → past s1 (proto_of r) →
  last_position (run_events r es) = Some s2 →
  last_position r = Some s2 ∨ (later s1 s2 ∧ PositionSourceEv (Sample s2) ∈ es).
Proof.
  revert r. induction es as [|e es IH]; intros r Hr Hp Hs; [by left|].
  destruct (apply_shown r e Hr) as [Hr' Hnew].
  destruct (IH (apply r e).2 Hr' (past_apply s1 r e Hp) Hs) as [H2|[Hl Hin]].
  - apply Hnew in H2 as [H2|[-> [p' Hstep]]]; [by left|right].
    split; [by eapply past_later|left].
  - right. split; [done|by right].
Qed.

(** The automaton, from the position shown, takes exactly the samples that continue it. *)
Lemma tracked_step r s1 s :
  shown_tracked r → last_position r = Some s1 →
  is_Some (Protocol.step (proto_of r) (Sample s)) ↔ connected r && continues s1 s = true.
Proof.
  intros [[_ ->]|[Hne Ht]] H1; [done|]. destruct (Ht s1 H1) as (Hg & Hb & Hq). unfold continues.
  rewrite !andb_true_iff, N.eqb_eq, bool_decide_eq_true, N.ltb_lt. split.
  - intros [p' (Hc & _ & Hsg & _ & Hbs & Hqs & _)%Protocol.step_sample]. simpl in *.
    rewrite <- (Hbs _ Hb). split_and!; [done|congruence|done|auto].
  - intros (Hc & [Hsg Hboot] & Hlt). eexists. apply Protocol.step_sample_intro; simpl; try done.
    + congruence.
    + lia.
    + intros b Hb'. congruence.
    + intros q Hq'. assert (q = PositionSample.sequence s1) as -> by congruence. done.
Qed.

(** C2: the position shown never goes backwards. Whatever events follow, the position a
    reducer shows is either the same or that of a sample among them, of a later connection
    or of the same boot of the same connection with a strictly greater sequence number; a
    sample that repeats, precedes or interrupts the one shown is dropped, and one that
    continues it while the source is connected is shown and counted. *)
Theorem positions_never_regress (r : StateReducer) (s1 : PositionSample.t) :
  reachable r → last_position r = Some s1 →
  (∀ es s2, last_position (run_events r es) = Some s2 →
     s2 = s1 ∨ (later s1 s2 ∧ PositionSourceEv (Sample s2) ∈ es)) ∧
  (∀ s, let r' := (apply r (PositionSourceEv (Sample s))).2 in
     if connected r && continues s1 s
     then last_position r' = Some s ∧
          accepted_samples (diagnostics r') = increment (accepted_samples (diagnostics r))
     else last_position r' = Some s1 ∧
          accepted_samples (diagnostics r') = accepted_samples (diagnostics r)).
Proof.
  intros Hr H1. apply reachable_tracked in Hr. split.
  - intros es s2 H2. destruct (run_events_shown r es s1 s2 Hr (shown_past r s1 Hr H1) H2); [|by right].
    left. congruence.
  - intros s. cbn [apply apply_position_source snd]. pose proof (tracked_step r s1 s Hr H1) as Hstep.
    pose proof (apply_sample_shown r s) as H.
    destruct (connected r && continues s1 s).
    + destruct (proj2 Hstep eq_refl) as [p' Hp]. rewrite Hp in H. naive_solver.
    + destruct (Protocol.step _ _) as [p'|]; [by discriminate (proj1 Hstep (ex_intro _ p' eq_refl))|].
      unfold source_part in H. rewrite <- H1. split; congruence.
Qed.

Lemma positions_never_regress_witness :
  match default with
  | Some r0 =>
      let r := run_events r0 [PositionSourceEv (Connected 1); PositionSourceEv (Sample sample_1)] in
      last_position r = Some sample_1 ∧
      last_position (apply r (PositionSourceEv (Sample sample_1))).2 = Some sample_1 ∧
      last_position (apply r (PositionSourceEv (Sample sample_2))).2 = Some sample_2
  | None => False
  end.
Proof.
  destruct default as [r0|] eqn:Hd; [|vm_compute in Hd; discriminate].
  assert (reachable r0) as Hr0 by (by constructor).
  vm_compute in Hd. injection Hd as <-. intros r.
  assert (reachable r) as Hr by (do 2 (apply reachable_apply; [|exact I]); exact Hr0).
  assert (last_position r = Some sample_1) as H1 by (vm_compute; reflexivity).
  split; [exact H1|].
  destruct (positions_never_regress r sample_1 Hr H1) as [_ H].
  split; [exact (proj1 (H sample_1))|exact (proj1 (H sample_2))].
Defined.

Lemma missing_arith missing sequence q :
  q < sequence → missing + sequence ≤ u64_max + q →
  saturating_add missing (saturating_sub (saturating_sub sequence q) 1) + 1 + q = missing + sequence.
Proof. int_lia. Qed.

Lemma no_gap_arith sequence q : q < sequence → sequence ≤ saturating_add q 1 → sequence = q + 1.
Proof. int_lia. Qed.

(** The sequence numbers missing between two accepted samples are counted. *)
Lemma count_gap_fields r sequence q :
  q < sequence → missing_sequences (diagnostics r) + sequence ≤ u64_max + q →
  accepted_samples (diagnostics (count_gap r sequence q)) = accepted_samples (diagnostics r) ∧
  drops (diagnostics (count_gap r sequence q)) = drops (diagnostics r) ∧
  missing_sequences (diagnostics (count_gap r sequence q)) + 1 + q =
    missing_sequences (diagnostics r) + sequence.
Proof.
  intros Hq Hm. unfold count_gap.
  destruct (N.ltb_spec (saturating_add q 1) sequence) as [_|Hs].
  - destruct r as [? ? ? ? ? ? ? ? ? ? ? ? ? d]. destruct d. split; [done|]. split; [done|].
    by apply missing_arith.
  - apply no_gap_arith in Hs as ->; [|done]. split; [done|]. split; [done|]. lia.
Qed.

Section Drops.
Context (d : ReducerDiagnostics) (Hd : drops d < u64_max).

Local Ltac one_drop := destruct d; unfold drops in *; simpl in *; rewrite increment_exact; lia.

Lemma drops_duplicate : drops (d <| duplicate_drops ::= increment |>) = drops d + 1.
Proof using Hd. one_drop. Qed.
Lemma drops_out_of_order : drops (d <| out_of_order_drops ::= increment |>) = drops d + 1.
Proof using Hd. one_drop. Qed.
Lemma drops_old_generation : drops (d <| old_generation_drops ::= increment |>) = drops d + 1.
Proof using Hd. one_drop. Qed.
Lemma drops_boot_mismatch :
  drops (d <| same_generation_boot_mismatch_drops ::= increment |>) = drops d + 1.
Proof using Hd. one_drop. Qed.
Lemma drops_invalid_transition :
  drops (d <| invalid_transition_drops ::= increment |>) = drops d + 1.
Proof using Hd. one_drop. Qed.
End Drops.

(** An illegal sample is one drop. *)
Lemma illegal_sample_drops r s :
  Protocol.step (proto_of r) (Sample s) = None → drops (diagnostics r) < u64_max →
  drops (diagnostics (apply_sample r s)) = drops (diagnostics r) + 1.
Proof.
  intros Hn Hd. unfold apply_sample, count_invalid_transition, count_old_generation.
  step_if; [by apply drops_invalid_transition|].
  step_if; [by apply drops_old_generation|].
  step_if; [by apply drops_invalid_transition|].
  step_if; [by apply drops_boot_mismatch|].
  assert (∀ q, last_sequence r = Some q → q < PositionSample.sequence s → False) as Hl.
  { intros q Hq Hlt. reflect_bool. rewrite Protocol.step_sample_intro in Hn; simpl; try done; try lia.
    - intros b Hb. rewrite Hb in *. simpl in *. by reflect_bool.
    - intros q' Hq'. simplify_eq. lia. }
  destruct (last_sequence r) as [q|] eqn:Hq.
  - specialize (Hl q eq_refl).
    destruct (N.eqb_spec (PositionSample.sequence s) q); [by apply drops_duplicate|].
    destruct (N.ltb_spec (PositionSample.sequence s) q); [by apply drops_out_of_order|].
    destruct Hl. lia.
  - reflect_bool. rewrite Protocol.step_sample_intro in Hn; simpl; try done; try lia; try congruence.
    intros b Hb. rewrite Hb in *. simpl in *. by reflect_bool.
Qed.

(** One sample, legal or not. *)
Lemma apply_sample_accounted r s q :
  last_sequence r = Some q →
  outcomes (diagnostics r) < u64_max →
  missing_sequences (diagnostics r) + PositionSample.sequence s ≤ u64_max + q →
  let r' := apply_sample r s in
  ∃ q', last_sequence r' = Some q' ∧ q ≤ q' ∧
    accepted_samples (diagnostics r) ≤ accepted_samples (diagnostics r') ∧
    outcomes (diagnostics r') = outcomes (diagnostics r) + 1 ∧
    missing_sequences (diagnostics r') + accepted_samples (diagnostics r') + q =
      missing_sequences (diagnostics r) + accepted_samples (diagnostics r) + q'.
Proof.
  intros Hq Ho Hm r'. unfold outcomes in *. subst r'.
  destruct (Protocol.step (proto_of r) (Sample s)) as [p'|] eqn:Hs.
  - rewrite (apply_sample_accepts r s p' Hs), Hq.
    apply Protocol.step_sample in Hs as (_ & _ & _ & _ & _ & Hl & _). specialize (Hl q Hq).
    destruct (count_gap_fields r (PositionSample.sequence s) q Hl Hm) as (Ha & Hd & Hg).
    destruct (accept_sample_fields (count_gap r (PositionSample.sequence s) q) s)
      as (-> & -> & -> & ->).
    rewrite Ha, Hd, increment_exact by lia. exists (PositionSample.sequence s).
    split; [done|]. split; lia.
  - pose proof (illegal_sample_drops r s Hs) as Hd.
    destruct (illegal_event r (Sample s) Hs) as (Hr & Ha & _ & Hmiss). simpl in Hr, Ha, Hmiss.
    rewrite Ha, Hd, Hmiss by lia. exists q. rewrite Hr. split; [done|]. lia.
Qed.

Definition run_samples (r : StateReducer) (ss : list PositionSample.t) : StateReducer :=
  run_source r (Sample <$> ss).

(** No sample goes uncounted. Whatever samples follow, each is counted once,
    as accepted or as one kind of drop, and the missing and accepted counters
    together cover exactly the sequence numbers from the last one before to the
    last one after. *)
Theorem samples_accounted (r : StateReducer) (ss : list PositionSample.t) (q : N) :
  last_sequence r = Some q →
  outcomes (diagnostics r) + len ss ≤ u64_max →
  Forall (λ s, missing_sequences (diagnostics r) + PositionSample.sequence s ≤ u64_max + q) ss →
  let r' := run_samples r ss in
  ∃ q', last_sequence r' = Some q' ∧ q ≤ q' ∧
    outcomes (diagnostics r') = outcomes (diagnostics r) + len ss ∧
    missing_sequences (diagnostics r') + accepted_samples (diagnostics r') + q =
      missing_sequences (diagnostics r) + accepted_samples (diagnostics r) + q'.
Proof.
  revert r q. induction ss as [|s ss IH]; intros r q Hq Ho Hf r'.
  - change r' with r. exists q. unfold len. simpl. split; [done|]. lia.
  - inversion_clear Hf as [|? ? Hs Hss]. unfold len in Ho. simpl in Ho.
    destruct (apply_sample_accounted r s q) as (q1 & Hq1 & Hle & Ha & Ho1 & Hm1); [done|lia|done|].
    destruct (IH (apply_sample r s) q1) as (q2 & Hq2 & Hle2 & Ho2 & Hm2); [done| | |].
    + rewrite Ho1. unfold len. lia.
    + eapply Forall_impl; [exact Hss|]. intros s' Hs'. cbv beta in *. lia.
    + exists q2. split; [exact Hq2|]. split; [lia|]. split.
      * etransitivity; [exact Ho2|]. rewrite Ho1. unfold len. simpl. lia.
      * change (run_samples (apply_sample r s) ss) with r' in Hm2. lia.
Qed.

Lemma samples_accounted_witness :
  match default with
  | Some r0 =>
      let r := run_source r0 [Connected 1; Sample sample_1] in
      last_sequence r = Some 1 ∧
      outcomes (diagnostics (run_samples r [sample_2; sample_2; sample_1])) =
        outcomes (diagnostics r) + 3
  | None => False
  end.
Proof.
  destruct default as [r0|] eqn:Hd; [|vm_compute in Hd; discriminate].
  vm_compute in Hd. injection Hd as <-. intros r.
  split; [reflexivity|].
  destruct (samples_accounted r [sample_2; sample_2; sample_1] 1) as (q & _ & _ & Ho & _).
  - reflexivity.
  - vm_compute. discriminate.
  - repeat constructor; vm_compute; discriminate.
  - exact Ho.
Defined.

(** ** Versions and errors *)

(** Every event has exactly one of two effects on the versioned settings. An
    error leaves the whole state as it was. A success either leaves settings and
    version alone or installs valid settings under a strictly greater version. *)
Theorem apply_versions (r : StateReducer) (e : Event) :
  match apply r e with
  | (Err _, r') => r' = r
  | (Ok _, r') =>
      (settings r' = settings r ∧ settings_version r' = settings_version r) ∨
      (valid_settings (settings r') ∧ settings_version r < settings_version r' ∧
       ((∃ version s, e = SettingsApplied version s ∧ settings r' = s ∧ settings_version r' = version ∧
           visible r' = enabled s) ∨
        (∃ mode, e = SetDisplayMode mode ∧ display_mode (settings r') = mode ∧
           settings_version r' = settings_version r + 1)))
  end.
Proof.
  destruct e as [e|version s|w|v|mode|view|x y zm]; simpl.
  - left. apply position_source_settings.
  - destruct (apply_settings_cases r version s) as [[e ->]|(m & x & ? & ? & ? & Hx & ->)]; [done|].
    right. simpl. split; [done|]. split; [done|]. left. by exists version, s.
  - by left.
  - by left.
  - destruct (set_display_mode_cases r mode) as [[e ->]|[[_ ->]|(x & ? & ? & Hx & ->)]]; [done|by left|].
    right. simpl. split; [done|]. split; [lia|]. right. by exists mode.
  - by left.
  - destruct (map_err ReView (ExpandedMapView.new x y zm)); [by left|done].
Qed.
