(* ===== verification/Errors.v ===== *)
(** * Error reports of the domain

    Models the [field] and [fmt::Display] methods of the error types of
    [crates/pal-domain/src] ([settings.rs], [position.rs], [view.rs], [window.rs],
    [lib.rs]) and [ReducerError::field] of [crates/pal-state/src/reducer.rs]: the
    field path a report names, and the text it prints. *)

From S2P Require Import Prelude Floats Settings Position View CoreState Reducer.

Local Open Scope string_scope.

(** ** Field paths *)

Definition HotkeyAction_field (self : HotkeyAction) : string :=
  match self with
  | OverlayVisibility => "hotkey_bindings.overlay_visibility"
  | RotationToggle => "hotkey_bindings.rotation_toggle"
  | TemporaryInteraction => "hotkey_bindings.temporary_interaction"
  | InteractionLock => "hotkey_bindings.interaction_lock"
  end.

Definition SettingsValidationError_field (self : SettingsValidationError) : string :=
  match self with
  | OpacityOutOfRange => "opacity"
  | DiameterOutOfRange => "diameter_px"
  | ZoomOutOfRange => "zoom"
  | NormalizedXOutOfRange => "normalized_x"
  | NormalizedYOutOfRange => "normalized_y"
  | InvalidHotkey action _ => HotkeyAction_field action
  | TooManyEnabledLayers | TooManySelectedPals | HiddenUnverifiedMapFilterId
  | InvalidMapFilterId | DuplicateMapFilterId => "poi_filters"
  end.

Definition PositionValidationError_field (self : PositionValidationError) : string :=
  match self with
  | EmptyWorldAlias => "world_alias"
  | EmptySubjectId => "subject_id"
  | EmptyAgentBootId => "agent_boot_id"
  | NonFiniteX => "x"
  | NonFiniteY => "y"
  | NonFiniteZ => "z"
  | NonFiniteHeading => "heading_degrees"
  end.

Definition ViewValidationError_field (self : ViewValidationError) : string :=
  match self with
  | MiniMapCenterXNonFinite => "mini_map_view.center_x"
  | MiniMapCenterYNonFinite => "mini_map_view.center_y"
  | MiniMapZoomOutOfRange => "mini_map_view.zoom"
  | ExpandedMapCenterXNonFinite => "expanded_map_view.center_x"
  | ExpandedMapCenterYNonFinite => "expanded_map_view.center_y"
  | ExpandedMapZoomOutOfRange => "expanded_map_view.zoom"
  end.

Definition CoreStateValidationError_field (self : CoreStateValidationError) : string :=
  match self with
  | CsSettings error => SettingsValidationError_field error
  | SettingsVersionZero => "settings_version"
  | ConnectionFreshnessMismatch => "freshness"
  | FreshnessPositionMissing => "position_sample"
  | InterpolationStateInvalid => "interpolate_position"
  | HeadingAvailabilityInvalid => "heading_available"
  end.

Definition ReducerError_field (self : ReducerError) : option string :=
  match self with
  | ReSettingsVersionZero | SettingsVersionNotNewer _ _ => Some "settings_version"
  | SettingsVersionOverflow => Some "settings_version"
  | ReSettings error => Some (SettingsValidationError_field error)
  | ReView error => Some (ViewValidationError_field error)
  end.

(** ** Texts *)

Definition SettingsValidationError_fmt (self : SettingsValidationError) : string :=
  match self with
  | InvalidHotkey _ reason =>
      match reason with
      | ZeroVirtualKey => SettingsValidationError_field self ++ " virtual key must be nonzero"
      | UnmodifiedK => SettingsValidationError_field self ++ " must not be unmodified K"
      | UnmodifiedGameKey =>
          SettingsValidationError_field self ++ " alphanumeric keys require a modifier"
      end
  | _ => SettingsValidationError_field self ++ " is outside its allowed range"
  end.

Definition PositionValidationError_fmt (self : PositionValidationError) : string :=
  match self with
  | EmptyWorldAlias | EmptySubjectId | EmptyAgentBootId =>
      PositionValidationError_field self ++ " must not be empty"
  | NonFiniteX | NonFiniteY | NonFiniteZ | NonFiniteHeading =>
      PositionValidationError_field self ++ " must be finite"
  end.

Definition ViewValidationError_fmt (self : ViewValidationError) : string :=
  match self with
  | MiniMapCenterXNonFinite | MiniMapCenterYNonFinite
  | ExpandedMapCenterXNonFinite | ExpandedMapCenterYNonFinite =>
      ViewValidationError_field self ++ " must be finite"
  | MiniMapZoomOutOfRange | ExpandedMapZoomOutOfRange =>
      ViewValidationError_field self ++ " must be within 0.50..=4.00"
  end.

Definition WindowValidationError_fmt (self : WindowSnapshot.error) : string :=
  WindowSnapshot.field self ++ " must be nonzero for a visible window".

Definition CoreStateValidationError_fmt (self : CoreStateValidationError) : string :=
  match self with
  | CsSettings error => SettingsValidationError_fmt error
  | SettingsVersionZero => "settings_version must be nonzero"
  | ConnectionFreshnessMismatch => "freshness must agree with connected"
  | FreshnessPositionMissing => "live or delayed freshness requires a position sample"
  | InterpolationStateInvalid =>
      "interpolate_position must exactly match runtime interpolation eligibility"
  | HeadingAvailabilityInvalid => "heading_available requires a position sample with heading"
  end.

(** [Error::source]: only an error about settings has a cause. *)
Definition CoreStateValidationError_source (self : CoreStateValidationError) :
    option SettingsValidationError :=
  match self with
  | CsSettings error => Some error
  | SettingsVersionZero => None
  | ConnectionFreshnessMismatch | FreshnessPositionMissing | InterpolationStateInvalid
  | HeadingAvailabilityInvalid => None
  end.

(** Every report names the field it is about first. *)
Lemma settings_fmt_field e :
  String.prefix (SettingsValidationError_field e) (SettingsValidationError_fmt e) = true.
Proof. by destruct e as [| | | | |[] []| | | | |]. Qed.

Lemma view_fmt_field e :
  String.prefix (ViewValidationError_field e) (ViewValidationError_fmt e) = true.
Proof. by destruct e. Qed.

Lemma position_fmt_field e :
  String.prefix (PositionValidationError_field e) (PositionValidationError_fmt e) = true.
Proof. by destruct e. Qed.

(** The position fields a report can name are distinct, so the report tells which
    argument was refused. *)
Lemma position_field_inj e1 e2 :
  PositionValidationError_field e1 = PositionValidationError_field e2 → e1 = e2.
Proof. by destruct e1, e2. Qed.

Lemma view_field_inj e1 e2 : ViewValidationError_field e1 = ViewValidationError_field e2 → e1 = e2.
Proof. by destruct e1, e2. Qed.
