(* ===== verification/Replay.v ===== *)
(** * The replay source

    Models [crates/pal-state/src/replay.rs]: the validation of a recorded fixture and
    the source that plays it back. Reading the file and parsing JSON are not part of
    the crate: the file's contents, [serde_json::from_str] and [Number::as_f64] are
    arguments. [Panicked] is a failed [expect]. *)

From S2P Require Import Prelude Floats Settings Position View CoreState PositionSource Reducer.

Record ReplayConfig := mkReplayConfig {
  cfg_world_alias : string;
  cfg_subject_id : bytes;
  starting_generation : N;
  cfg_base_boot_id : bytes;
  cfg_loop_playback : bool;
  starting_monotonic_ms : N;
}.

Inductive ReplayError :=
| Io | Json | EmptyFixture | FirstTimestampNotZero
| NonIncreasingTimestamp (index : nat)
| NonFiniteField (index : nat) (field : string)
| LoopRequiresPositiveDuration | GenerationOverflow | SequenceOverflow
| InvalidIdentity (field : string)
| InvalidStartingGeneration.

Record ReplayRow := mkRow {
  at_ms : N;
  x : f64;
  y : f64;
  z : f64;
  heading_degrees : option f32;
}.

(** A row as parsed, over the JSON library's type of numbers. *)
Record RawReplayRow (Number : Type) := mkRawRow {
  raw_at_ms : N;
  raw_x : Number;
  raw_y : Number;
  raw_z : Number;
  raw_heading_degrees : option Number;
}.
Arguments mkRawRow {Number}.
Arguments raw_at_ms {Number}.
Arguments raw_x {Number}.
Arguments raw_y {Number}.
Arguments raw_z {Number}.
Arguments raw_heading_degrees {Number}.

Inductive ReplayPhase := PhConnected | PhSamples | PhDisconnected | PhNextConnection | PhFinished.
#[export] Instance ReplayPhase_eq_dec : EqDecision ReplayPhase.
Proof. solve_decision. Defined.

Record ReplayPositionSource := mkReplay {
  rows : list ReplayRow;
  world_alias : string;
  subject_id : bytes;
  base_boot_id : bytes;
  boot_id : bytes;
  generation : N;
  loop_playback : bool;
  cycle_duration_ms : N;
  cycle_start_ms : N;
  row_index : nat;
  phase : ReplayPhase;
  last_valid_poll_ms : option N;
  regression_reported : bool;
}.
#[export] Instance eta_ReplayPositionSource : Eta ReplayPositionSource := λ s,
  mkReplay (rows s) (world_alias s) (subject_id s) (base_boot_id s) (boot_id s) (generation s)
    (loop_playback s) (cycle_duration_ms s) (cycle_start_ms s) (row_index s) (phase s)
    (last_valid_poll_ms s) (regression_reported s).

(** Why a poll returned no answer: the error of the trait, or a panic. *)
Inductive PollFailure := Failed (error : ReplayError) | Panicked.

Definition PollResult : Type := result (option PositionSourceEvent) PollFailure.

(** ** Loading *)

Definition validate_config (config : ReplayConfig) : result unit ReplayError :=
  if str_is_empty (cfg_world_alias config) then Err (InvalidIdentity "world_alias")
  else if is_empty (cfg_subject_id config) then Err (InvalidIdentity "subject_id")
  else if is_empty (cfg_base_boot_id config) then Err (InvalidIdentity "base_boot_id")
  else if starting_generation config =? 0 then Err InvalidStartingGeneration
  else Ok tt.

Section Loading.
Context {Number : Type} (as_f64 : Number → option f64).

Definition finite_f64 (value : Number) (index : nat) (field : string) : result f64 ReplayError :=
  let? value := ok_or (as_f64 value) (NonFiniteField index field) in
  if is_finite value then Ok value else Err (NonFiniteField index field).

Definition finite_f32 (value : Number) (index : nat) (field : string) : result f32 ReplayError :=
  let? value := finite_f64 value index field in
  let narrowed := f32_from_f64 value in
  if is_finite narrowed then Ok narrowed else Err (NonFiniteField index field).

(** [.map(..).transpose()?] of the optional heading. *)
Definition finite_heading (value : option Number) (index : nat) :
    result (option f32) ReplayError :=
  match value with
  | None => Ok None
  | Some value => let? h := finite_f32 value index "heading_degrees" in Ok (Some h)
  end.

Definition validate_row (raw : RawReplayRow Number) (index : nat) : result ReplayRow ReplayError :=
  let? x := finite_f64 (raw_x raw) index "x" in
  let? y := finite_f64 (raw_y raw) index "y" in
  let? z := finite_f64 (raw_z raw) index "z" in
  let? h := finite_heading (raw_heading_degrees raw) index in
  Ok (mkRow (raw_at_ms raw) x y z h).

(** The loop of [validate_rows] from row [index] on. *)
Fixpoint validate_rows_from (index : nat) (previous_timestamp : N)
    (raws : list (RawReplayRow Number)) : result (list ReplayRow) ReplayError :=
  match raws with
  | [] => Ok []
  | raw :: raws =>
      if (0 <? index)%nat && (raw_at_ms raw <=? previous_timestamp) then
        Err (NonIncreasingTimestamp index)
      else
        let? row := validate_row raw index in
        let? rest := validate_rows_from (S index) (raw_at_ms raw) raws in
        Ok (row :: rest)
  end.

Definition validate_rows (raw_rows : list (RawReplayRow Number)) :
    result (list ReplayRow) ReplayError :=
  match raw_rows with
  | [] => Err EmptyFixture
  | first :: _ =>
      if negb (raw_at_ms first =? 0) then Err FirstTimestampNotZero
      else validate_rows_from 0 0 raw_rows
  end.

(** [contents] is the result of [fs::read_to_string], [from_str] the JSON parser;
    the outer [None] is the panic of [expect]. *)
Definition from_path (contents : option string)
    (from_str : string → option (list (RawReplayRow Number))) (config : ReplayConfig) :
    option (result ReplayPositionSource ReplayError) :=
  let loaded :=
    let? _ := validate_config config in
    let? contents := ok_or contents Io in
    let? raw_rows := ok_or (from_str contents) Json in
    validate_rows raw_rows in
  match loaded with
  | Err e => Some (Err e)
  | Ok rows =>
      match last rows with
      | None => None
      | Some row =>
          let cycle_duration_ms := at_ms row in
          if cfg_loop_playback config && (cycle_duration_ms =? 0) then
            Some (Err LoopRequiresPositiveDuration)
          else
            Some (Ok {|
              rows := rows;
              world_alias := cfg_world_alias config;
              subject_id := cfg_subject_id config;
              boot_id := cfg_base_boot_id config;
              base_boot_id := cfg_base_boot_id config;
              generation := starting_generation config;
              loop_playback := cfg_loop_playback config;
              cycle_duration_ms := cycle_duration_ms;
              cycle_start_ms := starting_monotonic_ms config;
              row_index := 0;
              phase := PhConnected;
              last_valid_poll_ms := None;
              regression_reported := false |})
      end
  end.
End Loading.

(** ** Playback *)

Definition derived_boot_id (base : bytes) (generation : N) : bytes :=
  base ++ [Byte.x00] ++ be_bytes 8 generation.

Definition start_next_connection (self : ReplayPositionSource) :
    result unit PollFailure * ReplayPositionSource :=
  match checked_add (generation self) 1 with
  | None => (Err (Failed GenerationOverflow), self)
  | Some g =>
      (Ok tt, self <| generation := g |>
                   <| cycle_start_ms ::= λ start, saturating_add start (cycle_duration_ms self) |>
                   <| row_index := 0%nat |>
                   <| boot_id := derived_boot_id (base_boot_id self) g |>
                   <| phase := PhSamples |>)
  end.

(** The branch of [poll_valid_time] for [ReplayPhase::Disconnected]. *)
Definition poll_disconnected (self : ReplayPositionSource) : PollResult * ReplayPositionSource :=
  (Ok (Some (Disconnected (generation self))),
   self <| phase := if loop_playback self then PhNextConnection else PhFinished |>).

(** Past the last row the phase is set to [Disconnected] and [poll_valid_time] called
    again, which then takes that branch. *)
Definition poll_sample (self : ReplayPositionSource) (now_monotonic_ms : N) :
    PollResult * ReplayPositionSource :=
  match rows self !! row_index self with
  | None => poll_disconnected (self <| phase := PhDisconnected |>)
  | Some row =>
      let due_ms := saturating_add (cycle_start_ms self) (at_ms row) in
      if now_monotonic_ms <? due_ms then (Ok None, self)
      else
        match checked_add (N.of_nat (row_index self)) 1 with
        | None => (Err (Failed SequenceOverflow), self)
        | Some sequence =>
            match PositionSample.new (world_alias self) (subject_id self) (boot_id self)
                    (generation self) sequence (x row) (y row) (z row) (heading_degrees row)
                    (SampleClock.received_with_age (saturating_sub now_monotonic_ms due_ms)
                       now_monotonic_ms) with
            | Err _ => (Err Panicked, self)
            | Ok sample =>
                let self := self <| row_index ::= S |> in
                let self :=
                  if bool_decide (row_index self = length (rows self))
                  then self <| phase := PhDisconnected |> else self in
                (Ok (Some (Sample sample)), self)
            end
        end
  end.

Definition poll_valid_time (self : ReplayPositionSource) (now_monotonic_ms : N) :
    PollResult * ReplayPositionSource :=
  match phase self with
  | PhConnected =>
      (Ok (Some (Connected (generation self))), self <| phase := PhSamples |>)
  | PhSamples => poll_sample self now_monotonic_ms
  | PhDisconnected => poll_disconnected self
  | PhNextConnection =>
      match start_next_connection self with
      | (Err e, self) => (Err e, self)
      | (Ok _, self) => (Ok (Some (Connected (generation self))), self)
      end
  | PhFinished => (Ok None, self)
  end.

Definition poll_replay (now_monotonic_ms : N) (self : ReplayPositionSource) :
    PollResult * ReplayPositionSource :=
  if is_some_and (last_valid_poll_ms self) (λ last, now_monotonic_ms <? last) then
    if regression_reported self then (Ok None, self)
    else
      (Ok (Some (ClockInvalid (generation self) MonotonicRegression)),
       self <| regression_reported := true |>)
  else
    poll_valid_time (self <| last_valid_poll_ms := Some now_monotonic_ms |>
                          <| regression_reported := false |>) now_monotonic_ms.

#[export] Instance replay_source : PositionSource ReplayPositionSource PollFailure := poll_replay.

(** ** Fixtures *)

Record row_ok (row : ReplayRow) : Prop := {
  row_x : is_finite (x row) = true;
  row_y : is_finite (y row) = true;
  row_z : is_finite (z row) = true;
  row_heading : ∀ h, heading_degrees row = Some h → is_finite h = true;
}.

Section LoadingLemmas.
Context {Number : Type} (as_f64 : Number → option f64).

Lemma finite_f64_ok value index field v :
  finite_f64 as_f64 value index field = Ok v ↔ as_f64 value = Some v ∧ is_finite v = true.
Proof.
  unfold finite_f64. destruct (as_f64 value) as [v'|]; simpl; [|split; [done|by intros [? _]]].
  destruct (is_finite v') eqn:Hv; split.
  - intros [= <-]. done.
  - by intros [[= ->] _].
  - done.
  - intros [[= ->] ?]. congruence.
Qed.

Lemma finite_f32_ok value index field v :
  finite_f32 as_f64 value index field = Ok v →
  ∃ wide, as_f64 value = Some wide ∧ v = f32_from_f64 wide ∧ is_finite v = true.
Proof.
  unfold finite_f32. intros (wide & Hw%finite_f64_ok & Hv)%and_then_ok. destruct Hw as [Hw _].
  destruct (is_finite (f32_from_f64 wide)) eqn:Hf; [|done]. injection Hv as <-. by exists wide.
Qed.

(** What a parsed row becomes. *)
Definition row_of (raw : RawReplayRow Number) (row : ReplayRow) : Prop :=
  at_ms row = raw_at_ms raw ∧ as_f64 (raw_x raw) = Some (x row) ∧
  as_f64 (raw_y raw) = Some (y row) ∧ as_f64 (raw_z raw) = Some (z row) ∧
  match raw_heading_degrees raw with
  | None => heading_degrees row = None
  | Some value => ∃ wide, as_f64 value = Some wide ∧ heading_degrees row = Some (f32_from_f64 wide)
  end.

Lemma validate_row_ok raw index row :
  validate_row as_f64 raw index = Ok row → row_of raw row ∧ row_ok row.
Proof.
  unfold validate_row. intros (x & Hx%finite_f64_ok & H)%and_then_ok.
  apply and_then_ok in H as (y & Hy%finite_f64_ok & H).
  apply and_then_ok in H as (z & Hz%finite_f64_ok & H).
  apply and_then_ok in H as (h & Hh & [= <-]).
  destruct Hx as [Hx Hx'], Hy as [Hy Hy'], Hz as [Hz Hz'].
  unfold finite_heading, row_of in *. simpl. destruct (raw_heading_degrees raw) as [value|].
  - apply and_then_ok in Hh as (v & Hv%finite_f32_ok & [= <-]).
    destruct Hv as (wide & Hw & -> & Hf). split; [eauto 10|].
    constructor; simpl; try done. by intros ? [= <-].
  - injection Hh as <-. split; [done|]. by constructor.
Qed.

(** The timestamps of [rows] increase, from above [previous] on unless at index 0. *)
Definition increasing (rows : list ReplayRow) : Prop :=
  Sorted (λ r1 r2, at_ms r1 < at_ms r2) rows.

Lemma validate_rows_from_ok index previous raws rows :
  validate_rows_from as_f64 index previous raws = Ok rows →
  Forall2 row_of raws rows ∧ Forall row_ok rows ∧ increasing rows ∧
  ((0 < index)%nat → ∀ row, head rows = Some row → previous < at_ms row).
Proof.
  revert index previous rows. induction raws as [|raw raws IH]; intros index previous rows; simpl.
  { intros [= <-]. split; [constructor|]. split; [constructor|]. by split; [constructor|]. }
  destruct ((0 <? index)%nat && (raw_at_ms raw <=? previous)) eqn:Hlt; [done|].
  intros (row & Hrow%validate_row_ok & H)%and_then_ok. destruct Hrow as [Hrow Hok].
  apply and_then_ok in H as (rest & Hrest%IH & [= <-]).
  destruct Hrest as (H1 & H2 & H3 & H4). specialize (H4 ltac:(lia)).
  destruct Hrow as [Hat Hrow]. split; [|split; [|split]].
  - constructor; [by split|done].
  - by constructor.
  - constructor; [done|]. destruct rest; constructor. rewrite Hat. by apply H4.
  - intros Hi r. simpl. intros [= <-]. reflect_bool. rewrite Hat.
    destruct Hlt as [Hlt|Hlt]; [apply Nat.ltb_ge in Hlt; lia|]. by apply N.leb_gt in Hlt.
Qed.

Lemma validate_rows_ok raws rows :
  validate_rows as_f64 raws = Ok rows →
  rows ≠ [] ∧ Forall2 row_of raws rows ∧ Forall row_ok rows ∧ increasing rows ∧
  ∀ row, head rows = Some row → at_ms row = 0.
Proof.
  unfold validate_rows. destruct raws as [|raw raws]; [done|].
  destruct (raw_at_ms raw =? 0) eqn:H0; [|done]. apply N.eqb_eq in H0. simpl negb. cbv iota.
  intros (H1 & H2 & H3 & _)%validate_rows_from_ok.
  inversion H1 as [|? row ? rest Hrow Hrest]; subst. destruct Hrow as [Hat _].
  split; [done|]. split; [done|]. split; [done|]. split; [done|]. intros r. simpl. intros [= <-]. congruence.
Qed.
End LoadingLemmas.

(** ** Invariant of the source *)

Record valid (s : ReplayPositionSource) : Prop := {
  valid_rows : Forall row_ok (rows s);
  valid_length : len (rows s) ≤ u64_max;
  valid_world : world_alias s ≠ "";
  valid_subject : subject_id s ≠ [];
  valid_base : base_boot_id s ≠ [];
  valid_boot : boot_id s ≠ [];
  valid_generation : generation s ≠ 0;
}.

Lemma validate_config_ok c :
  validate_config c = Ok tt →
  cfg_world_alias c ≠ "" ∧ cfg_subject_id c ≠ [] ∧ cfg_base_boot_id c ≠ [] ∧
  starting_generation c ≠ 0.
Proof.
  unfold validate_config. destruct (cfg_world_alias c); [done|]. destruct (cfg_subject_id c); [done|].
  destruct (cfg_base_boot_id c); [done|]. simpl.
  destruct (N.eqb_spec (starting_generation c) 0); [done|]. done.
Qed.

Lemma from_path_ok {Number} (as_f64 : Number → option f64) contents from_str config s :
  (∀ text raws, from_str text = Some raws → len raws ≤ u64_max) →
  from_path as_f64 contents from_str config = Some (Ok s) →
  valid s ∧ phase s = PhConnected ∧ row_index s = 0%nat ∧ last_valid_poll_ms s = None ∧
  increasing (rows s) ∧ rows s ≠ [].
Proof.
  intros Hlen. unfold from_path.
  match goal with |- context [match ?l with Ok _ => _ | Err _ => _ end] => destruct l as [rs|] eqn:Hl end;
    [|done].
  apply and_then_ok in Hl as ([] & Hc%validate_config_ok & Hl).
  apply and_then_ok in Hl as (text & _ & Hl).
  apply and_then_ok in Hl as (raws & Hraws%ok_or_ok & Hl).
  pose proof (validate_rows_ok as_f64 raws rs Hl) as (Hne & Hall & Hok & Hinc & _).
  destruct (last rs) as [row|]; [|done]. step_if; [done|]. intros [= <-].
  destruct Hc as (? & ? & ? & ?). split; [|done]. constructor; simpl; try done.
  apply Hlen in Hraws. unfold len in *. by rewrite <- (Forall2_length _ _ _ Hall).
Qed.

(** Loading never panics. *)
Lemma from_path_total {Number} (as_f64 : Number → option f64) contents from_str config :
  is_Some (from_path as_f64 contents from_str config).
Proof.
  unfold from_path.
  match goal with |- context [match ?l with Ok _ => _ | Err _ => _ end] => destruct l as [rs|] eqn:Hl end;
    [|by eexists].
  apply and_then_ok in Hl as ([] & _ & Hl). apply and_then_ok in Hl as (text & _ & Hl).
  apply and_then_ok in Hl as (raws & _ & Hl).
  pose proof (validate_rows_ok as_f64 raws rs Hl) as (Hne & _).
  destruct (last rs) as [row|] eqn:Hlast; [step_if; by eexists|]. by apply last_None in Hlast.
Qed.

(** ** One poll *)

(** The sample of row [i], emitted at [now]. *)
Definition row_sample (s : ReplayPositionSource) (i : nat) (row : ReplayRow) (now : N) :
    PositionSample.t :=
  PositionSample.mk (world_alias s) (subject_id s) (boot_id s) (generation s)
    (N.of_nat i + 1) (x row) (y row) (z row)
    (PositionSample.normalize_heading <$> heading_degrees row)
    (SampleClock.mk (now - saturating_add (cycle_start_ms s) (at_ms row)) now).

(** A row that is due becomes a sample, whose age is measured from the due time. *)
Lemma poll_sample_due s row now :
  valid s → rows s !! row_index s = Some row →
  saturating_add (cycle_start_ms s) (at_ms row) ≤ now →
  poll_sample s now =
    (Ok (Some (Sample (row_sample s (row_index s) row now))),
     s <| row_index := S (row_index s) |>
       <| phase := if bool_decide (S (row_index s) = length (rows s)) then PhDisconnected
                   else phase s |>).
Proof.
  intros Hv Hrow Hdue. unfold poll_sample. rewrite Hrow.
  destruct (N.ltb_spec now (saturating_add (cycle_start_ms s) (at_ms row))); [lia|].
  pose proof (lookup_lt_Some _ _ _ Hrow) as Hlt.
  pose proof (valid_length s Hv) as Hlen. unfold len in Hlen.
  assert (checked_add (N.of_nat (row_index s)) 1 = Some (N.of_nat (row_index s) + 1)) as ->
    by (apply checked_add_some; lia).
  pose proof (proj1 (Forall_lookup _ _) (valid_rows s Hv) _ _ Hrow) as [Hx Hy Hz Hh].
  destruct (PositionSample.new _ _ _ _ _ _ _ _ _ _) as [sample|e] eqn:Hnew.
  - apply PositionSample.sample_new_ok in Hnew as [_ ->]. unfold row_sample.
    destruct s; simpl. by case_bool_decide.
  - pose proof (proj2 (PositionSample.sample_new_ok (world_alias s) (subject_id s) (boot_id s)
      (generation s) (N.of_nat (row_index s) + 1) (x row) (y row) (z row) (heading_degrees row)
      (SampleClock.received_with_age
        (saturating_sub now (saturating_add (cycle_start_ms s) (at_ms row))) now) _)
      (conj (conj (valid_world s Hv) (conj (valid_subject s Hv) (conj (valid_boot s Hv)
        (conj Hx (conj Hy (conj Hz Hh)))))) eq_refl)) as Hok.
    rewrite Hok in Hnew. discriminate.
Qed.

Lemma poll_sample_early s row now :
  rows s !! row_index s = Some row → now < saturating_add (cycle_start_ms s) (at_ms row) →
  poll_sample s now = (Ok None, s).
Proof.
  intros Hrow Hlt. unfold poll_sample. rewrite Hrow. apply N.ltb_lt in Hlt. by rewrite Hlt.
Qed.

Lemma start_next_connection_cases s :
  (generation s = u64_max ∨ u64_max < generation s) ∧
    start_next_connection s = (Err (Failed GenerationOverflow), s) ∨
  generation s < u64_max ∧
    start_next_connection s =
      (Ok tt, s <| generation := generation s + 1 |>
                <| cycle_start_ms := saturating_add (cycle_start_ms s) (cycle_duration_ms s) |>
                <| row_index := 0%nat |>
                <| boot_id := derived_boot_id (base_boot_id s) (generation s + 1) |>
                <| phase := PhSamples |>).
Proof.
  unfold start_next_connection. destruct (checked_add (generation s) 1) as [g|] eqn:Hg.
  - right. apply checked_add_some in Hg as [-> Hg]. split; [lia|done].
  - left. split; [|done]. unfold checked_add in Hg.
    destruct (N.leb_spec (generation s + 1) u64_max); [done|lia].
Qed.

(** The consumer's view of the source in each phase. *)
Definition replay_synced (s : ReplayPositionSource) (p : Protocol.t) : Prop :=
  valid s ∧ (row_index s ≤ length (rows s))%nat ∧
  match phase s with
  | PhConnected => Protocol.generation p < generation s ∧ row_index s = 0%nat
  | PhSamples =>
      Protocol.connected p = true ∧ Protocol.generation p = generation s ∧
      (row_index s = 0%nat → Protocol.boot_id p = None ∧ Protocol.last_sequence p = None) ∧
      (row_index s ≠ 0%nat → Protocol.boot_id p = Some (boot_id s) ∧
                             Protocol.last_sequence p = Some (N.of_nat (row_index s)))
  | PhDisconnected => Protocol.connected p = true ∧ Protocol.generation p = generation s
  | PhNextConnection | PhFinished =>
      Protocol.connected p = false ∧ Protocol.generation p = generation s
  end.

Definition replay_on_time (s : ReplayPositionSource) (now : N) : Prop :=
  ∀ last, last_valid_poll_ms s = Some last → last ≤ now.

Lemma poll_on_schedule s now :
  replay_on_time s now →
  poll_replay now s =
    poll_valid_time (s <| last_valid_poll_ms := Some now |> <| regression_reported := false |>) now.
Proof.
  intros Hn. unfold poll_replay. destruct (last_valid_poll_ms s) as [last|] eqn:Hl; simpl; [|done].
  specialize (Hn last Hl). destruct (N.ltb_spec now last); [lia|done].
Qed.

Lemma poll_disconnected_synced s p :
  valid s → (row_index s ≤ length (rows s))%nat →
  Protocol.connected p = true → Protocol.generation p = generation s →
  ∃ p', Protocol.step p (Disconnected (generation s)) = Some p' ∧
    replay_synced (poll_disconnected s).2 p'.
Proof.
  intros Hv Hi Hc Hg. simpl. unfold Protocol.current. rewrite Hc, Hg, N.eqb_refl.
  pose proof (valid_generation s Hv) as H0. apply N.eqb_neq in H0. rewrite H0.
  simpl. eexists. split; [done|]. split; [|split; [done|]].
  - destruct Hv. constructor; simpl; done.
  - simpl. by destruct (loop_playback s).
Qed.

Lemma poll_sample_synced s p now :
  replay_synced s p → phase s = PhSamples →
  match answer_event (poll_sample s now).1 with
  | Some e => ∃ p', Protocol.step p e = Some p' ∧ replay_synced (poll_sample s now).2 p'
  | None => replay_synced (poll_sample s now).2 p
  end.
Proof.
  intros (Hv & Hi & Hp) Hph. rewrite Hph in Hp. destruct Hp as (Hc & Hg & H0 & H1).
  destruct (rows s !! row_index s) as [row|] eqn:Hrow.
  2: { unfold poll_sample. rewrite Hrow. destruct Hv.
       by apply (poll_disconnected_synced (s <| phase := PhDisconnected |>) p). }
  destruct (decide (saturating_add (cycle_start_ms s) (at_ms row) ≤ now)) as [Hdue|Hdue].
  2: { rewrite (poll_sample_early s row now) by (done || lia).
       split; [done|]. split; [done|]. cbn [fst snd]. by rewrite Hph. }
  rewrite (poll_sample_due s row now) by done. cbn [fst snd answer_event].
  rewrite Protocol.step_sample_intro; simpl; try done.
  - eexists. split; [done|]. apply lookup_lt_Some in Hrow.
    split; [destruct Hv; by constructor|]. split; [simpl; lia|]. simpl.
    case_bool_decide; [by split|]. rewrite Hph. split; [done|]. split; [done|].
    split; [done|]. intros _. split; [done|]. f_equal. lia.
  - rewrite Hg. apply Hv.
  - lia.
  - intros b Hb. destruct (decide (row_index s = 0%nat)) as [E|E].
    + destruct (H0 E) as [Hn _]. congruence.
    + destruct (H1 E) as [Hn _]. congruence.
  - intros q Hq. destruct (decide (row_index s = 0%nat)) as [E|E].
    + destruct (H0 E) as [_ Hn]. congruence.
    + destruct (H1 E) as [_ Hn]. rewrite Hn in Hq. injection Hq as <-. lia.
Qed.

Lemma poll_valid_time_synced s p now :
  replay_synced s p →
  match answer_event (poll_valid_time s now).1 with
  | Some e => ∃ p', Protocol.step p e = Some p' ∧ replay_synced (poll_valid_time s now).2 p'
  | None => replay_synced (poll_valid_time s now).2 p
  end.
Proof.
  intros Hs. pose proof Hs as (Hv & Hi & Hp). unfold poll_valid_time.
  destruct (phase s) eqn:Hph.
  - destruct Hp as [Hg H0]. simpl. apply N.ltb_lt in Hg. rewrite Hg. eexists. split; [done|].
    destruct Hv. split; [by constructor|]. by repeat split.
  - by apply poll_sample_synced.
  - destruct Hp. by apply poll_disconnected_synced.
  - destruct Hp as [Hc Hg].
    destruct (start_next_connection_cases s) as [[_ ->]|[Hmax ->]]; simpl.
    + split; [done|]. split; [done|]. by rewrite Hph.
    + destruct (N.ltb_spec (Protocol.generation p) (generation s + 1)); [|lia].
      eexists. split; [done|]. destruct Hv. split; [|simpl; split; [lia|by repeat split]].
      constructor; simpl; try done; [|lia].
      unfold derived_boot_id. by destruct (base_boot_id s).
  - simpl. split; [done|]. split; [done|]. by rewrite Hph.
Qed.

Lemma poll_valid_time_last s now :
  last_valid_poll_ms (poll_valid_time s now).2 = last_valid_poll_ms s.
Proof.
  unfold poll_valid_time, start_next_connection, poll_sample, poll_disconnected.
  destruct (phase s); try done; by repeat (step_if; simpl; try done).
Qed.

#[export, refine] Instance replay_lawful : LawfulSource ReplayPositionSource PollFailure := {|
  synced := replay_synced;
  on_time := replay_on_time;
|}.
Proof.
  - intros s now now' Hon Hle. change (poll now s) with (poll_replay now s).
    rewrite poll_on_schedule by done. unfold replay_on_time. rewrite poll_valid_time_last.
    simpl. intros last [= <-]. done.
  - intros s p now Hs Hon. change (poll now s) with (poll_replay now s).
    rewrite poll_on_schedule by done. apply poll_valid_time_synced.
    destruct Hs as (Hv & Hi & Hp). split; [by destruct Hv; constructor|]. by split.
Defined.

(** ** No panic *)

Lemma poll_sample_valid s now :
  valid s → (row_index s ≤ length (rows s))%nat →
  let s' := (poll_sample s now).2 in
  valid s' ∧ (row_index s' ≤ length (rows s'))%nat ∧ is_ok (poll_sample s now).1 = true.
Proof.
  intros Hv Hi. destruct (rows s !! row_index s) as [row|] eqn:Hrow.
  2: { unfold poll_sample. rewrite Hrow. destruct Hv. by repeat split. }
  destruct (decide (saturating_add (cycle_start_ms s) (at_ms row) ≤ now)) as [Hdue|Hdue].
  - rewrite (poll_sample_due s row now) by done. apply lookup_lt_Some in Hrow. destruct Hv.
    by repeat split.
  - rewrite (poll_sample_early s row now) by (done || lia). done.
Qed.

(** No poll at any time panics, and the only error is the end of the generations. *)
Lemma poll_replay_valid s now :
  valid s → (row_index s ≤ length (rows s))%nat →
  let s' := (poll_replay now s).2 in
  valid s' ∧ (row_index s' ≤ length (rows s'))%nat ∧
  ∀ e, (poll_replay now s).1 = Err e → e = Failed GenerationOverflow.
Proof.
  intros Hv Hi. unfold poll_replay.
  destruct (is_some_and (last_valid_poll_ms s) _).
  { destruct (regression_reported s); destruct Hv; by repeat split. }
  assert (valid (s <| last_valid_poll_ms := Some now |> <| regression_reported := false |>)) as Hv'
    by (destruct Hv; by constructor).
  revert Hv' Hi. change (rows s) with
    (rows (s <| last_valid_poll_ms := Some now |> <| regression_reported := false |>)).
  change (row_index s) with
    (row_index (s <| last_valid_poll_ms := Some now |> <| regression_reported := false |>)).
  generalize (s <| last_valid_poll_ms := Some now |> <| regression_reported := false |>).
  clear Hv s. intros s Hv Hi. unfold poll_valid_time. destruct (phase s).
  - destruct Hv. by repeat split.
  - destruct (poll_sample_valid s now Hv Hi) as (? & ? & Hok). split; [done|]. split; [done|].
    intros e He. by rewrite He in Hok.
  - destruct Hv. by repeat split.
  - destruct (start_next_connection_cases s) as [[_ ->]|[Hmax ->]]; simpl.
    + split; [done|]. split; [done|]. by intros e [= <-].
    + destruct Hv. split; [|split; [lia|done]]. constructor; simpl; try done; [|lia].
      unfold derived_boot_id. by destruct (base_boot_id s).
  - done.
Qed.

Lemma poll_all_valid s times :
  valid s → (row_index s ≤ length (rows s))%nat →
  Forall (λ answer, ∀ e, answer = Err e → e = Failed GenerationOverflow) (poll_all times s).1.
Proof.
  revert s. induction times as [|now times IH]; intros s Hv Hi; simpl; [done|].
  pose proof (poll_replay_valid s now Hv Hi) as (Hv' & Hi' & He).
  change (poll now s) with (poll_replay now s).
  destruct (poll_replay now s) as [answer s']. simpl in *. specialize (IH s' Hv' Hi').
  destruct (poll_all times s') as [answers s'']. by constructor.
Qed.

(** ** A full playback *)

(** The samples of [rs], the rows from index [i] on, polled at [times]. *)
Fixpoint replay_samples (s : ReplayPositionSource) (i : nat) (rs : list ReplayRow)
    (times : list N) : list PositionSample.t :=
  match rs, times with
  | row :: rs, now :: times => row_sample s i row now :: replay_samples s (S i) rs times
  | _, _ => []
  end.

Definition due (s : ReplayPositionSource) (row : ReplayRow) (now : N) : Prop :=
  saturating_add (cycle_start_ms s) (at_ms row) ≤ now.

Definition answer_sample (sample : PositionSample.t) : PollResult := Ok (Some (Sample sample)).

(** The source after the row at its index, polled when due. *)
Definition after_row (s : ReplayPositionSource) (now : N) : ReplayPositionSource :=
  s <| last_valid_poll_ms := Some now |> <| regression_reported := false |>
    <| row_index := S (row_index s) |>
    <| phase := if bool_decide (S (row_index s) = length (rows s)) then PhDisconnected
                else phase s |>.

(** The samples depend on the identity and the cycle start of the source only. *)
Lemma replay_samples_ext s1 s2 i rs times :
  (world_alias s1, subject_id s1, boot_id s1, generation s1, cycle_start_ms s1) =
  (world_alias s2, subject_id s2, boot_id s2, generation s2, cycle_start_ms s2) →
  replay_samples s1 i rs times = replay_samples s2 i rs times.
Proof.
  intros H. revert i times. induction rs as [|row rs IH]; intros i times; [done|].
  destruct times as [|t times]; [done|]. simpl. rewrite IH. f_equal. unfold row_sample.
  injection H as -> -> -> -> ->. done.
Qed.

Lemma poll_due_row s row now :
  valid s → phase s = PhSamples → rows s !! row_index s = Some row → due s row now →
  replay_on_time s now →
  poll_replay now s = (answer_sample (row_sample s (row_index s) row now), after_row s now).
Proof.
  intros Hv Hph Hrow Hdue Hon. rewrite poll_on_schedule by done. unfold poll_valid_time.
  simpl. rewrite Hph. rewrite (poll_sample_due _ row now); [|by destruct Hv|done|done].
  unfold after_row. by rewrite <- Hph.
Qed.

Lemma last_cons_default {A} (a d : A) l : List.last (a :: l) d = List.last l a.
Proof.
  revert a. induction l as [|b l IH]; intros a; [done|].
  change (List.last (b :: l) d = List.last (b :: l) a). rewrite IH. revert b IH.
  destruct l as [|c l]; intros b IH; [done|]. change (List.last (c :: l) b = List.last (c :: l) a).
  clear IH. revert c. induction l as [|e l IH]; intros c; [done|]. apply IH.
Qed.

Lemma poll_rows s rs times previous :
  valid s → phase s = PhSamples → drop (row_index s) (rows s) = rs → rs ≠ [] →
  last_valid_poll_ms s = Some previous → Sorted N.le (previous :: times) →
  Forall2 (due s) rs times →
  ∃ s', poll_all times s = (answer_sample <$> replay_samples s (row_index s) rs times, s') ∧
    phase s' = PhDisconnected ∧ generation s' = generation s ∧
    last_valid_poll_ms s' = Some (List.last times previous).
Proof.
  revert s times previous. induction rs as [|row rs IH]; intros s times previous Hv Hph Hd Hne Hl Hs Hdue;
    [done|].
  inversion Hdue as [|? now ? times' Hnow Hdue']; subst. clear Hdue Hne.
  apply Sorted_inv in Hs as [Hs Hle]. apply HdRel_inv in Hle.
  assert (rows s !! row_index s = Some row) as Hrow.
  { rewrite <- (Nat.add_0_r (row_index s)), <- lookup_drop, Hd. done. }
  assert (drop (S (row_index s)) (rows s) = rs) as Hd'.
  { rewrite <- Nat.add_1_r, <- drop_drop, Hd. done. }
  assert (replay_on_time s now) as Hon by (intros l E; rewrite Hl in E; by injection E as <-).
  simpl. change (poll now s) with (poll_replay now s). rewrite (poll_due_row s row now) by done.
  assert (valid (after_row s now)) as Hv' by (destruct Hv; by constructor).
  destruct rs as [|row' rs].
  - inversion Hdue'; subst. simpl. eexists. split; [done|].
    assert (S (row_index s) = length (rows s)) as E.
    { pose proof (lookup_lt_Some _ _ _ Hrow). apply (f_equal length) in Hd'.
      rewrite length_drop in Hd'. simpl in Hd'. lia. }
    unfold after_row. simpl. by rewrite bool_decide_true.
  - destruct (IH (after_row s now) times' now) as (s' & Hpoll & Hph' & Hg' & Hlast); try done.
    + simpl. rewrite bool_decide_false; [done|]. intros E. apply (f_equal length) in Hd'.
      rewrite length_drop in Hd'. simpl in Hd'. lia.
    + rewrite Hpoll, (replay_samples_ext _ s) by done. exists s'. split; [done|]. split; [done|].
      split; [done|]. rewrite Hlast. f_equal. symmetry. apply last_cons_default.
Qed.

(** ** Properties *)

(** A fixture polled with a clock that never runs backwards plays as a legal
    event stream: a fresh reducer accepts every event of it without a single drop,
    no poll panics, and the only error is the end of the connection generations. *)
Theorem replay_stream_legal {Number} (as_f64 : Number → option f64) (contents : option string)
    (from_str : string → option (list (RawReplayRow Number))) (config : ReplayConfig)
    (s : ReplayPositionSource) (r : StateReducer) (times : list N) :
  (∀ text raws, from_str text = Some raws → len raws ≤ u64_max) →
  from_path as_f64 contents from_str config = Some (Ok s) →
  Reducer.default = Some r → Sorted N.le times →
  let answers := (poll_all times s).1 in
  Protocol.legal (events answers) ∧
  drops (diagnostics (run_source r (events answers))) = 0 ∧
  ProtocolOrder.legal_part (proto_of r) (events answers) = events answers ∧
  Forall (λ answer, ∀ e, answer = Err e → e = Failed GenerationOverflow) answers.
Proof.
  intros Hlen Hload Hr Hs answers.
  destruct (from_path_ok as_f64 contents from_str config s Hlen Hload) as (Hv & Hph & Hi & Hl & _ & _).
  assert (proto_of r = Protocol.initial ∧ drops (diagnostics r) = 0) as [Hp Hd]
    by (vm_compute in Hr; by injection Hr as <-).
  assert (synced s Protocol.initial) as Hsync.
  { split; [done|]. rewrite Hi, Hph. split; [lia|]. split; [|done]. simpl.
    pose proof (valid_generation s Hv). lia. }
  destruct (poll_all_legal times s Protocol.initial Hsync Hs) as (p' & Hrun & _).
  { destruct times; constructor. intros l El. by rewrite Hl in El. }
  change (poll_all times s).1 with answers in Hrun. rewrite <- Hp in Hrun.
  split; [by rewrite Hp in Hrun; exists p'|].
  split; [destruct (run_source_legal_drops r (events answers) p' Hrun) as [-> _]; done|].
  split; [by eapply ProtocolOrder.legal_part_id|].
  apply poll_all_valid; [done|]. rewrite Hi. lia.
Qed.

(** A fixture of two rows, with the numbers themselves as JSON numbers. *)
Definition fixture_config : ReplayConfig := mkReplayConfig "w" [Byte.x01] 1 [Byte.x02] false 100.
Definition fixture_rows : list (RawReplayRow f64) :=
  [mkRawRow 0 (f64_of_Z 1) (f64_of_Z 2) (f64_of_Z 3) None;
   mkRawRow 5 (f64_of_Z 4) (f64_of_Z 5) (f64_of_Z 6) (Some (f64_of_Z 90))].
Definition fixture : option (result ReplayPositionSource ReplayError) :=
  from_path Some (Some "rows") (λ _, Some fixture_rows) fixture_config.

Lemma replay_stream_legal_witness :
  match fixture, Reducer.default with
  | Some (Ok s), Some r =>
      let answers := (poll_all [90; 100; 100; 105; 200; 200] s).1 in
      length (events answers) = 4%nat ∧ Protocol.legal (events answers) ∧
      drops (diagnostics (run_source r (events answers))) = 0
  | _, _ => False
  end.
Proof.
  destruct fixture as [[s|]|] eqn:Hs; [|vm_compute in Hs; discriminate..].
  destruct Reducer.default as [r|] eqn:Hr; [|vm_compute in Hr; discriminate].
  destruct (replay_stream_legal Some (Some "rows") (λ _, Some fixture_rows) fixture_config s r
              [90; 100; 100; 105; 200; 200]) as (H1 & H2 & _).
  - intros text raws [= <-]. vm_compute. discriminate.
  - exact Hs.
  - exact Hr.
  - repeat constructor; vm_compute; discriminate.
  - split; [|by split]. clear H1 H2. vm_compute in Hs. injection Hs as <-. vm_compute. reflexivity.
Defined.

(** Polled once at any time for the connection, once per row when that row is
    due, and once more, a fixture plays exactly: the connection, a sample for every
    row in order with sequence numbers from one and its age measured from its due
    time, and the disconnect. *)
Theorem replay_playback {Number} (as_f64 : Number → option f64) (contents : option string)
    (from_str : string → option (list (RawReplayRow Number))) (config : ReplayConfig)
    (s : ReplayPositionSource) (start finish : N) (times : list N) :
  (∀ text raws, from_str text = Some raws → len raws ≤ u64_max) →
  from_path as_f64 contents from_str config = Some (Ok s) →
  Sorted N.le (start :: times) → List.last times start ≤ finish →
  Forall2 (due s) (rows s) times →
  (poll_all (start :: times ++ [finish]) s).1 =
    [Ok (Some (Connected (generation s)))] ++
    (answer_sample <$> replay_samples s 0 (rows s) times) ++
    [Ok (Some (Disconnected (generation s)))].
Proof.
  intros Hlen Hload Hs Hfin Hdue.
  destruct (from_path_ok as_f64 contents from_str config s Hlen Hload) as (Hv & Hph & Hi & Hl & _ & Hne).
  set (s1 := s <| last_valid_poll_ms := Some start |> <| regression_reported := false |>
               <| phase := PhSamples |>).
  assert (poll_replay start s = (Ok (Some (Connected (generation s))), s1)) as H1.
  { rewrite poll_on_schedule by (intros l El; by rewrite Hl in El).
    unfold poll_valid_time. simpl. by rewrite Hph. }
  destruct (poll_rows s1 (rows s) times start) as (s2 & H2 & Hph2 & Hg2 & Hl2); try done.
  { by destruct Hv; constructor. }
  { simpl. by rewrite Hi. }
  assert ((poll_replay finish s2).1 = Ok (Some (Disconnected (generation s)))) as H3.
  { rewrite poll_on_schedule by (intros l El; rewrite Hl2 in El; injection El as <-; done).
    unfold poll_valid_time. simpl. rewrite Hph2. simpl. by rewrite Hg2. }
  simpl. change (poll start s) with (poll_replay start s). rewrite H1.
  rewrite poll_all_app, H2. simpl. change (poll finish s2) with (poll_replay finish s2).
  destruct (poll_replay finish s2) as [answer s3]. simpl in H3. subst answer. simpl.
  rewrite Hi, (replay_samples_ext s1 s) by done. done.
Qed.

Lemma replay_playback_witness :
  match fixture with
  | Some (Ok s) =>
      (poll_all [90; 100; 107; 107] s).1 =
        [Ok (Some (Connected (generation s)))] ++
        (answer_sample <$> replay_samples s 0 (rows s) [100; 107]) ++
        [Ok (Some (Disconnected (generation s)))] ∧
      (SampleClock.age_at_receive_upper_bound_ms ∘ PositionSample.clock <$>
        replay_samples s 0 (rows s) [100; 107]) = [0; 2]
  | _ => False
  end.
Proof.
  destruct fixture as [[s|]|] eqn:Hs; [|vm_compute in Hs; discriminate..].
  split.
  - apply (replay_playback Some (Some "rows") (λ _, Some fixture_rows) fixture_config s 90 107
             [100; 107]).
    + intros text raws [= <-]. vm_compute. discriminate.
    + exact Hs.
    + repeat constructor; vm_compute; discriminate.
    + vm_compute. discriminate.
    + vm_compute in Hs. injection Hs as <-. repeat constructor; vm_compute; discriminate.
  - vm_compute in Hs. injection Hs as <-. vm_compute. reflexivity.
Defined.
