(* ===== verification/BootFilter.v ===== *)
(** * Retired boots

    The Bloom filter in which a telemetry inbox remembers the boots it has left
    behind. [crates/pal-state/src/server_agent.rs] and
    [crates/pal-telemetry/src/cursor.rs] hold the same code; both models use this one. *)

From S2P Require Import Prelude.

(** The 32 words of the filter. *)
Record RetiredBootFilter := mkFilter { bits : list N }.

Definition RetiredBootFilter_default : RetiredBootFilter := mkFilter (replicate 32 0).

Definition fnv1a (bs : bytes) (seed : N) : N :=
  fold_left (λ hash byte, wrapping_mul (N.lxor hash (Byte.to_N byte)) 0x00000100000001b3) bs seed.

Definition BIT_COUNT : N := 32 * 64.

Definition boot_filter_bits (boot_id : bytes) : list N :=
  let first := fnv1a boot_id 0xcbf29ce484222325 in
  let step := N.lor (fnv1a boot_id 0x84222325cbf29ce4) 1 in
  [first mod BIT_COUNT;
   wrapping_add first step mod BIT_COUNT;
   wrapping_add first (wrapping_mul step 2) mod BIT_COUNT].

Definition set_bit (self : RetiredBootFilter) (bit : N) : RetiredBootFilter :=
  mkFilter (alter (λ word, N.lor word (N.shiftl 1 (bit mod 64))) (N.to_nat (bit / 64)) (bits self)).

Definition filter_insert (self : RetiredBootFilter) (boot_id : bytes) : RetiredBootFilter :=
  fold_left set_bit (boot_filter_bits boot_id) self.

Definition filter_contains (self : RetiredBootFilter) (boot_id : bytes) : bool :=
  forallb (λ bit, match bits self !! N.to_nat (bit / 64) with
                  | Some word => negb (N.land word (N.shiftl 1 (bit mod 64)) =? 0)
                  | None => false
                  end) (boot_filter_bits boot_id).

(** ** The retired-boot filter has no false negatives *)

Definition bit_set (f : RetiredBootFilter) (bit : N) : bool :=
  match bits f !! N.to_nat (bit / 64) with
  | Some word => negb (N.land word (N.shiftl 1 (bit mod 64)) =? 0)
  | None => false
  end.

Lemma land_bit word k : negb (N.land word (N.shiftl 1 k) =? 0) = N.testbit word k.
Proof.
  rewrite N.shiftl_1_l. destruct (N.testbit word k) eqn:Hk.
  - apply negb_true_iff, N.eqb_neq. intros H0. apply (f_equal (λ n, N.testbit n k)) in H0.
    rewrite N.land_spec, Hk, N.pow2_bits_true, N.bits_0 in H0. done.
  - apply negb_false_iff, N.eqb_eq. apply N.bits_inj. intros m.
    rewrite N.land_spec, N.pow2_bits_eqb, N.bits_0. destruct (N.eqb_spec k m); subst.
    + by rewrite Hk.
    + by rewrite andb_false_r.
Qed.

Lemma set_bit_length f bit : length (bits (set_bit f bit)) = length (bits f).
Proof. simpl. apply length_alter. Qed.

Lemma set_bit_mono f bit bit' : bit_set f bit' = true → bit_set (set_bit f bit) bit' = true.
Proof.
  unfold bit_set, set_bit. simpl. destruct (decide (N.to_nat (bit / 64) = N.to_nat (bit' / 64))) as [E|E].
  - rewrite E, list_lookup_alter_eq. destruct (bits f !! N.to_nat (bit' / 64)); simpl; [|done].
    rewrite !land_bit, N.lor_spec. by intros ->.
  - by rewrite list_lookup_alter_ne.
Qed.

Lemma set_bit_set f bit : length (bits f) = 32%nat → bit < BIT_COUNT → bit_set (set_bit f bit) bit = true.
Proof.
  intros Hlen Hbit. unfold bit_set, set_bit. simpl. rewrite list_lookup_alter_eq.
  assert (bit / 64 < 32) as Hd by (apply N.Div0.div_lt_upper_bound; exact Hbit).
  destruct (lookup_lt_is_Some_2 (bits f) (N.to_nat (bit / 64))) as [word ->]; [lia|]. simpl.
  rewrite land_bit, N.lor_spec, N.shiftl_1_l, N.pow2_bits_true. apply orb_true_r.
Qed.

Lemma boot_filter_bits_range boot_id : Forall (λ bit, bit < BIT_COUNT) (boot_filter_bits boot_id).
Proof. unfold boot_filter_bits. repeat constructor; by apply N.mod_lt. Qed.

Lemma filter_contains_alt f boot_id :
  filter_contains f boot_id = forallb (bit_set f) (boot_filter_bits boot_id).
Proof. done. Qed.

(** A fresh filter retires nothing. *)
Lemma filter_default_contains boot_id : filter_contains RetiredBootFilter_default boot_id = false.
Proof.
  unfold filter_contains, boot_filter_bits. cbv zeta. cbn [forallb]. apply andb_false_iff. left.
  cbn [bits RetiredBootFilter_default].
  destruct (replicate 32 0 !! _) as [word|] eqn:Hw; [|done].
  apply lookup_replicate in Hw as [-> _]. by rewrite N.land_0_l.
Qed.

Lemma set_bits_spec bs f :
  length (bits f) = 32%nat → Forall (λ bit, bit < BIT_COUNT) bs →
  let f' := fold_left set_bit bs f in
  length (bits f') = 32%nat ∧ (∀ bit, bit_set f bit = true → bit_set f' bit = true) ∧
  Forall (λ bit, bit_set f' bit = true) bs.
Proof.
  revert f. induction bs as [|b bs IH]; intros f Hlen Hr; simpl; [done|].
  inversion_clear Hr as [|? ? Hb Hbs].
  destruct (IH (set_bit f b)) as (Hlen' & Hmono & Hall); [by rewrite set_bit_length|done|].
  split; [done|]. split; [|constructor; [|done]].
  - intros bit Hbit. by apply Hmono, set_bit_mono.
  - apply Hmono. by apply set_bit_set.
Qed.

(** An inserted boot is found, and what was found before still is. *)
Lemma filter_insert_spec f boot_id :
  length (bits f) = 32%nat →
  length (bits (filter_insert f boot_id)) = 32%nat ∧
  filter_contains (filter_insert f boot_id) boot_id = true ∧
  ∀ other, filter_contains f other = true → filter_contains (filter_insert f boot_id) other = true.
Proof.
  intros Hlen. destruct (set_bits_spec (boot_filter_bits boot_id) f Hlen (boot_filter_bits_range _))
    as (H1 & H2 & H3).
  split; [done|]. split.
  - rewrite filter_contains_alt. apply forallb_forall. intros bit Hbit.
    rewrite Forall_forall in H3. by apply H3, list_elem_of_In.
  - intros other. rewrite !filter_contains_alt, !forallb_forall. intros Ho bit Hbit. by apply H2, Ho.
Qed.
