(* ===== verification/ServerAgent.v ===== *)
(** * The server-agent channel

    Models [crates/pal-state/src/server_agent.rs]: the bounded, nonblocking inbox
    between the transport's [ServerAgentSender] and the overlay's
    [ServerAgentPositionSource]. Both ends lock the one [Inbox], so each method is
    one atomic step on it. *)

From S2P Require Import Prelude BootFilter Floats Settings Position View CoreState PositionSource Reducer.

Inductive ServerAgentControlOutcome := CtAccepted | CtDropped | CtOldGenerationDropped | CtQueueFullDropped.
#[export] Instance ServerAgentControlOutcome_eq_dec : EqDecision ServerAgentControlOutcome.
Proof. solve_decision. Defined.

Inductive ServerAgentIngestOutcome :=
| Accepted | Dropped | DuplicateDropped | OutOfOrderDropped | OldGenerationDropped
| RetiredBootDropped | IdentityMismatchDropped | BootMismatchDropped | InvalidTransitionDropped
| ClockRegressionDropped.
#[export] Instance ServerAgentIngestOutcome_eq_dec : EqDecision ServerAgentIngestOutcome.
Proof. solve_decision. Defined.

Record ServerAgentDiagnostics := mkSaDiagnostics {
  accepted_samples : N;
  gap_events : N;
  missing_sequences : N;
  superseded_samples : N;
  duplicate_drops : N;
  out_of_order_drops : N;
  old_generation_drops : N;
  retired_boot_drops : N;
  identity_mismatch_drops : N;
  boot_mismatch_drops : N;
  invalid_transition_drops : N;
  clock_regression_drops : N;
  control_queue_full_drops : N;
}.
#[export] Instance eta_ServerAgentDiagnostics : Eta ServerAgentDiagnostics := λ d,
  mkSaDiagnostics (accepted_samples d) (gap_events d) (missing_sequences d) (superseded_samples d)
    (duplicate_drops d) (out_of_order_drops d) (old_generation_drops d) (retired_boot_drops d)
    (identity_mismatch_drops d) (boot_mismatch_drops d) (invalid_transition_drops d)
    (clock_regression_drops d) (control_queue_full_drops d).

Definition ServerAgentDiagnostics_default : ServerAgentDiagnostics :=
  mkSaDiagnostics 0 0 0 0 0 0 0 0 0 0 0 0 0.

Inductive ServerAgentSourceError :=
| SaPosition (error : PositionValidationError)
| InvalidExpectedIdentity.

Record ServerAgentFrame := mkFrame {
  fr_world_alias : string;
  fr_subject_id : bytes;
  fr_agent_boot_id : bytes;
  fr_generation : N;
  fr_sequence : N;
  fr_x : f64;
  fr_y : f64;
  fr_z : f64;
  fr_heading_degrees : option f32;
  fr_age_upper_bound_ms : N;
}.

(** [fmt::Debug] of a frame prints none of its contents. *)
Definition ServerAgentFrame_fmt (_ : ServerAgentFrame) : string := "[REDACTED SERVER-AGENT FRAME]".

(** ** The control queue *)

Definition CONTROL_QUEUE_CAPACITY : nat := 15.
Definition CONTROL_EVENTS_PER_SESSION : nat := 3.

Inductive ControlEvent :=
| CeConnected (generation : N)
| CeDisconnected (generation : N)
| CeClockInvalid (generation : N) (reason : ClockInvalidReason).
#[export] Instance ControlEvent_eq_dec : EqDecision ControlEvent.
Proof. solve_decision. Defined.

Definition into_position_source_event (self : ControlEvent) : PositionSourceEvent :=
  match self with
  | CeConnected generation => Connected generation
  | CeDisconnected generation => Disconnected generation
  | CeClockInvalid generation reason => ClockInvalid generation reason
  end.

(** The ring buffer: [len] entries from index [head] on. *)
Record ControlQueue := mkQueue {
  entries : list (option ControlEvent);
  head : nat;
  qlen : nat;
}.

Definition ControlQueue_new : ControlQueue :=
  mkQueue (replicate CONTROL_QUEUE_CAPACITY None) 0 0.

Definition remaining (self : ControlQueue) : nat := CONTROL_QUEUE_CAPACITY - qlen self.

Definition push (self : ControlQueue) (event : ControlEvent) : ControlQueue * bool :=
  if (qlen self =? CONTROL_QUEUE_CAPACITY)%nat then (self, false)
  else
    let index := ((head self + qlen self) mod CONTROL_QUEUE_CAPACITY)%nat in
    (mkQueue (<[index := Some event]> (entries self)) (head self) (S (qlen self)), true).

Definition pop (self : ControlQueue) : option ControlEvent * ControlQueue :=
  if (qlen self =? 0)%nat then (None, self)
  else
    (mjoin (entries self !! head self),
     mkQueue (<[head self := None]> (entries self))
       ((head self + 1) mod CONTROL_QUEUE_CAPACITY)%nat (qlen self - 1)).

Definition is_clock_invalid (generation : N) (event : option ControlEvent) : bool :=
  match event with Some (CeClockInvalid queued _) => queued =? generation | _ => false end.

Definition has_clock_invalid (self : ControlQueue) (generation : N) : bool :=
  existsb (λ offset, is_clock_invalid generation
             (mjoin (entries self !! ((head self + offset) mod CONTROL_QUEUE_CAPACITY)%nat)))
    (seq 0 (qlen self)).

(** ** The inbox *)

Record Inbox := mkInbox {
  expected_world_alias : string;
  expected_subject_id : bytes;
  generation : N;
  connected : bool;
  generation_has_sample : bool;
  active_boot_id : option bytes;
  retired_boots : RetiredBootFilter;
  last_sequence : option N;
  last_received_monotonic_ms : option N;
  pending_controls : ControlQueue;
  pending_sample : option PositionSourceEvent;
  diagnostics : ServerAgentDiagnostics;
}.
#[export] Instance eta_Inbox : Eta Inbox := λ i,
  mkInbox (expected_world_alias i) (expected_subject_id i) (generation i) (connected i)
    (generation_has_sample i) (active_boot_id i) (retired_boots i) (last_sequence i)
    (last_received_monotonic_ms i) (pending_controls i) (pending_sample i) (diagnostics i).

Definition server_agent_channel (world_alias : string) (subject_id : bytes) :
    result Inbox ServerAgentSourceError :=
  if str_is_empty world_alias || (64 <? str_len world_alias) || negb (str_is_ascii world_alias)
     || negb (len subject_id =? 32)
  then Err InvalidExpectedIdentity
  else Ok {|
    expected_world_alias := world_alias;
    expected_subject_id := subject_id;
    generation := 0;
    connected := false;
    generation_has_sample := false;
    active_boot_id := None;
    retired_boots := RetiredBootFilter_default;
    last_sequence := None;
    last_received_monotonic_ms := None;
    pending_controls := ControlQueue_new;
    pending_sample := None;
    diagnostics := ServerAgentDiagnostics_default |}.

Definition retire_active_boot (self : Inbox) : Inbox :=
  match active_boot_id self with
  | None => self
  | Some boot_id =>
      self <| active_boot_id := None |>
           <| retired_boots := filter_insert (retired_boots self) boot_id |>
  end.

(** [self.pending_controls.push(..)]. *)
Definition push_control (self : Inbox) (event : ControlEvent) : Inbox * bool :=
  let '(q, queued) := push (pending_controls self) event in
  (self <| pending_controls := q |>, queued).

Definition queue_clock_invalid (self : Inbox) (g : N) (reason : ClockInvalidReason) : Inbox * bool :=
  if has_clock_invalid (pending_controls self) g then (self, true)
  else push_control self (CeClockInvalid g reason).

(** [diagnostics.<counter> = diagnostics.<counter>.saturating_add(1)]. *)
Definition count_old_generation (self : Inbox) : Inbox :=
  self <| diagnostics ::= λ d, d <| old_generation_drops ::= increment |> |>.
Definition count_queue_full (self : Inbox) : Inbox :=
  self <| diagnostics ::= λ d, d <| control_queue_full_drops ::= increment |> |>.

(** ** The sender *)

Definition connect (self : Inbox) (g : N) : ServerAgentControlOutcome * Inbox :=
  if (g =? 0) || (g =? generation self) then (CtDropped, self)
  else if g <? generation self then (CtOldGenerationDropped, count_old_generation self)
  else if (remaining (pending_controls self) <? CONTROL_EVENTS_PER_SESSION)%nat then
    (CtQueueFullDropped, count_queue_full self)
  else
    let self := self <| generation := g |> <| connected := true |>
                     <| generation_has_sample := false |> <| pending_sample := None |> in
    let '(self, queued) := push_control self (CeConnected g) in
    (CtAccepted, self).

(** The end of [publish_position]: a frame that passed every check. *)
Definition accept_frame (self : Inbox) (frame : ServerAgentFrame) (received_at_monotonic_ms : N)
    (sample : PositionSample.t) : Inbox :=
  let previous := unwrap_or (last_sequence self) 0 in
  let self :=
    if saturating_add previous 1 <? fr_sequence frame then
      self <| diagnostics ::= λ d,
        d <| gap_events ::= increment |>
          <| missing_sequences ::= λ missing, saturating_add missing
               (saturating_sub (saturating_sub (fr_sequence frame) previous) 1) |> |>
    else self in
  let self :=
    if is_some (pending_sample self)
    then self <| diagnostics ::= λ d, d <| superseded_samples ::= increment |> |> else self in
  let self :=
    if is_none (active_boot_id self)
    then self <| active_boot_id := Some (fr_agent_boot_id frame) |> else self in
  self <| generation_has_sample := true |>
       <| last_sequence := Some (fr_sequence frame) |>
       <| last_received_monotonic_ms := Some received_at_monotonic_ms |>
       <| pending_sample := Some (Sample sample) |>
       <| diagnostics ::= λ d, d <| accepted_samples ::= increment |> |>.

(** The checks against the last accepted sequence number. *)
Definition sequence_drop (self : Inbox) (frame : ServerAgentFrame) :
    option (ServerAgentIngestOutcome * Inbox) :=
  match last_sequence self with
  | None => None
  | Some sequence =>
      if fr_sequence frame =? sequence then
        Some (DuplicateDropped, self <| diagnostics ::= λ d, d <| duplicate_drops ::= increment |> |>)
      else if fr_sequence frame <? sequence then
        Some (OutOfOrderDropped,
              self <| diagnostics ::= λ d, d <| out_of_order_drops ::= increment |> |>)
      else None
  end.

(** From the sequence checks of [publish_position] on. *)
Definition publish_in_boot (self : Inbox) (frame : ServerAgentFrame) (received_at_monotonic_ms : N) :
    result ServerAgentIngestOutcome ServerAgentSourceError * Inbox :=
  match sequence_drop self frame with
  | Some (outcome, self) => (Ok outcome, self)
  | None =>
      if is_some_and (last_received_monotonic_ms self) (λ last, received_at_monotonic_ms <? last)
      then
        let self := self <| diagnostics ::= λ d, d <| clock_regression_drops ::= increment |> |>
                         <| pending_sample := None |> in
        let '(self, _) := queue_clock_invalid self (fr_generation frame) MonotonicRegression in
        (Ok ClockRegressionDropped, self)
      else
        match PositionSample.new (fr_world_alias frame) (fr_subject_id frame)
                (fr_agent_boot_id frame) (fr_generation frame) (fr_sequence frame)
                (fr_x frame) (fr_y frame) (fr_z frame) (fr_heading_degrees frame)
                (SampleClock.received_with_age (fr_age_upper_bound_ms frame)
                   received_at_monotonic_ms) with
        | Err e => (Err (SaPosition e), self)
        | Ok sample => (Ok Accepted, accept_frame self frame received_at_monotonic_ms sample)
        end
  end.

Definition publish_position (self : Inbox) (frame : ServerAgentFrame) (received_at_monotonic_ms : N) :
    result ServerAgentIngestOutcome ServerAgentSourceError * Inbox :=
  if negb (bool_decide (fr_world_alias frame = expected_world_alias self))
     || negb (bool_decide (fr_subject_id frame = expected_subject_id self))
  then (Ok IdentityMismatchDropped,
        self <| diagnostics ::= λ d, d <| identity_mismatch_drops ::= increment |> |>)
  else if (fr_generation frame =? 0) || (fr_sequence frame =? 0) then
    (Ok InvalidTransitionDropped,
     self <| diagnostics ::= λ d, d <| invalid_transition_drops ::= increment |> |>)
  else if fr_generation frame <? generation self then
    (Ok OldGenerationDropped, count_old_generation self)
  else if negb (connected self) || negb (fr_generation frame =? generation self) then
    (Ok Dropped, self)
  else if filter_contains (retired_boots self) (fr_agent_boot_id frame) then
    (Ok RetiredBootDropped,
     self <| diagnostics ::= λ d, d <| retired_boot_drops ::= increment |> |>)
  else if is_some_and (active_boot_id self)
            (λ boot_id, negb (bool_decide (boot_id = fr_agent_boot_id frame)))
  then
    if generation_has_sample self then
      (Ok BootMismatchDropped,
       self <| diagnostics ::= λ d, d <| boot_mismatch_drops ::= increment |> |>)
    else
      let self := (retire_active_boot self) <| last_sequence := None |>
                                            <| last_received_monotonic_ms := None |> in
      publish_in_boot self frame received_at_monotonic_ms
  else publish_in_boot self frame received_at_monotonic_ms.

Definition unavailable (self : Inbox) (g : N) : ServerAgentControlOutcome * Inbox :=
  if g <? generation self then (CtOldGenerationDropped, count_old_generation self)
  else if (g =? 0) || negb (g =? generation self) || negb (connected self) then (CtDropped, self)
  else (CtAccepted, self <| pending_sample := Some (Unavailable g) |>).

Definition disconnect (self : Inbox) (g : N) : ServerAgentControlOutcome * Inbox :=
  if g <? generation self then (CtOldGenerationDropped, count_old_generation self)
  else if (g =? 0) || negb (g =? generation self) || negb (connected self) then (CtDropped, self)
  else
    let self := self <| connected := false |> <| generation_has_sample := false |>
                     <| pending_sample := None |> in
    let '(self, queued) := push_control self (CeDisconnected g) in
    if negb queued then (CtQueueFullDropped, count_queue_full self) else (CtAccepted, self).

Definition clock_invalid (self : Inbox) (g : N) (reason : ClockInvalidReason) :
    ServerAgentControlOutcome * Inbox :=
  if g <? generation self then (CtOldGenerationDropped, count_old_generation self)
  else if (g =? 0) || negb (g =? generation self) || negb (connected self) then (CtDropped, self)
  else
    let self := self <| pending_sample := None |> in
    let '(self, queued) := queue_clock_invalid self g reason in
    if negb queued then (CtQueueFullDropped, count_queue_full (self <| connected := false |>))
    else (CtAccepted, self).

(** ** The source *)

(** [PositionSource::poll] of [ServerAgentPositionSource]; it never fails. *)
Definition poll_agent (_now_monotonic_ms : N) (self : Inbox) :
    result (option PositionSourceEvent) Empty_set * Inbox :=
  let '(control, q) := pop (pending_controls self) in
  let self := self <| pending_controls := q |> in
  match into_position_source_event <$> control with
  | Some event => (Ok (Some event), self)
  | None => (Ok (pending_sample self), self <| pending_sample := None |>)
  end.

#[export] Instance server_agent_source : PositionSource Inbox Empty_set := poll_agent.

(** ** The ring buffer implements a bounded FIFO queue *)

#[local] Arguments Nat.modulo : simpl never.

Definition slot (q : ControlQueue) (offset : nat) : option ControlEvent :=
  mjoin (entries q !! ((head q + offset) mod CONTROL_QUEUE_CAPACITY)%nat).

(** [q] holds the events [l], oldest first. *)
Record holds (q : ControlQueue) (l : list ControlEvent) : Prop := {
  holds_entries : length (entries q) = CONTROL_QUEUE_CAPACITY;
  holds_head : (head q < CONTROL_QUEUE_CAPACITY)%nat;
  holds_len : qlen q = length l;
  holds_capacity : (length l ≤ CONTROL_QUEUE_CAPACITY)%nat;
  holds_slots : slot q <$> seq 0 (length l) = Some <$> l;
}.

Lemma ring_mod a : (a mod CONTROL_QUEUE_CAPACITY < CONTROL_QUEUE_CAPACITY)%nat.
Proof. by apply Nat.mod_upper_bound. Qed.

Lemma ring_mod_neq h i j :
  (i < CONTROL_QUEUE_CAPACITY)%nat → (j < CONTROL_QUEUE_CAPACITY)%nat → i ≠ j →
  ((h + i) mod CONTROL_QUEUE_CAPACITY ≠ (h + j) mod CONTROL_QUEUE_CAPACITY)%nat.
Proof.
  unfold CONTROL_QUEUE_CAPACITY. intros Hi Hj Hne H.
  pose proof (Nat.div_mod_eq (h + i) 15). pose proof (Nat.div_mod_eq (h + j) 15). lia.
Qed.

Lemma ring_mod_head h : (h < CONTROL_QUEUE_CAPACITY)%nat → ((h + 0) mod CONTROL_QUEUE_CAPACITY)%nat = h.
Proof. intros Hh. rewrite Nat.add_0_r. by apply Nat.mod_small. Qed.

Lemma ring_mod_next h i :
  (((h + 1) mod CONTROL_QUEUE_CAPACITY + i) mod CONTROL_QUEUE_CAPACITY =
   (h + S i) mod CONTROL_QUEUE_CAPACITY)%nat.
Proof. rewrite Nat.Div0.add_mod_idemp_l. f_equal. lia. Qed.

Lemma holds_new : holds ControlQueue_new [].
Proof. split; simpl; try done; unfold CONTROL_QUEUE_CAPACITY; lia. Qed.

Lemma push_full q l e :
  holds q l → length l = CONTROL_QUEUE_CAPACITY → push q e = (q, false).
Proof. intros [_ _ Hlen _ _] Hl. unfold push. by rewrite Hlen, Hl, Nat.eqb_refl. Qed.

Lemma push_holds q l e :
  holds q l → (length l < CONTROL_QUEUE_CAPACITY)%nat →
  ∃ q', push q e = (q', true) ∧ holds q' (l ++ [e]).
Proof.
  intros [He Hh Hlen Hcap Hs] Hl. unfold push. rewrite Hlen.
  destruct (Nat.eqb_spec (length l) CONTROL_QUEUE_CAPACITY); [lia|].
  eexists. split; [done|]. split; simpl.
  - by rewrite length_insert.
  - done.
  - rewrite length_app. simpl. lia.
  - rewrite length_app. simpl. lia.
  - rewrite length_app, Nat.add_1_r, seq_S, !fmap_app. f_equal.
    + etransitivity; [|exact Hs]. apply list_fmap_ext. intros i k Hk. apply lookup_seq in Hk as [-> Hk]. unfold slot. simpl.
      rewrite list_lookup_insert_ne; [done|]. apply ring_mod_neq; lia.
    + simpl. unfold slot. simpl. rewrite list_lookup_insert_eq; [done|]. rewrite He. apply ring_mod.
Qed.

Lemma pop_empty q : holds q [] → pop q = (None, q).
Proof. intros [_ _ Hlen _ _]. unfold pop. by rewrite Hlen. Qed.

Lemma pop_holds q e l : holds q (e :: l) → ∃ q', pop q = (Some e, q') ∧ holds q' l.
Proof.
  intros [He Hh Hlen Hcap Hs]. unfold pop. rewrite Hlen. simpl in *.
  injection Hs as H0 Hs. unfold slot in H0. rewrite ring_mod_head in H0 by done. rewrite H0.
  eexists. split; [done|]. rewrite Nat.sub_0_r. split; simpl; [by rewrite length_insert| |done|lia|].
  - apply ring_mod.
  - etransitivity; [|exact Hs]. rewrite <- fmap_S_seq, <- list_fmap_compose. apply list_fmap_ext.
    intros i k Hk. apply lookup_seq in Hk as [-> Hk]. unfold slot. simpl.
    rewrite ring_mod_next. rewrite list_lookup_insert_ne; [done|].
    rewrite <- (ring_mod_head (head q)) at 1 by done. apply ring_mod_neq; lia.
Qed.

Lemma existsb_fmap {A B} (f : B → bool) (g : A → B) l :
  existsb (λ a, f (g a)) l = existsb f (g <$> l).
Proof. induction l as [|a l IH]; simpl; [done|]. by rewrite IH. Qed.

Lemma has_clock_invalid_holds q l g :
  holds q l → has_clock_invalid q g = existsb (λ e, is_clock_invalid g (Some e)) l.
Proof.
  intros [_ _ Hlen _ Hs]. unfold has_clock_invalid. rewrite Hlen.
  rewrite (existsb_fmap (is_clock_invalid g) (slot q)). rewrite Hs.
  symmetry. apply (existsb_fmap (is_clock_invalid g) Some).
Qed.

Lemma remaining_holds q l :
  holds q l → remaining q = (CONTROL_QUEUE_CAPACITY - length l)%nat.
Proof. intros [_ _ Hlen _ _]. unfold remaining. by rewrite Hlen. Qed.

(** ** The inbox and the event protocol *)

Definition clock_invalid_queued (i : Inbox) (l : list ControlEvent) : bool :=
  existsb (λ e, is_clock_invalid (generation i) (Some e)) l.

(** The control events a connected session may still have to queue: its disconnect,
    and a clock invalidation unless one is queued. *)
Definition reserved (i : Inbox) (l : list ControlEvent) : nat :=
  if connected i then if clock_invalid_queued i l then 1 else 2 else 0.

Definition pending_ok (i : Inbox) (p : Protocol.t) (e : PositionSourceEvent) : Prop :=
  connected i = true ∧
  match e with
  | Sample s =>
      PositionSample.source_connection_generation s = generation i ∧
      generation_has_sample i = true ∧
      active_boot_id i = Some (PositionSample.agent_boot_id s) ∧
      last_sequence i = Some (PositionSample.sequence s) ∧
      0 < PositionSample.sequence s ∧
      ∀ q, Protocol.last_sequence p = Some q → q < PositionSample.sequence s
  | Unavailable g => g = generation i
  | _ => False
  end.

(** The inbox holds the control events [l]; [p] is what the consumer will have seen
    once it has polled them. *)
Record inbox_inv (i : Inbox) (l : list ControlEvent) (p : Protocol.t) : Prop := {
  inv_queue : holds (pending_controls i) l;
  inv_room : (length l + reserved i l ≤ CONTROL_QUEUE_CAPACITY)%nat;
  inv_generation : Protocol.generation p = generation i;
  inv_connected : Protocol.connected p = connected i;
  inv_nonzero : connected i = true → generation i ≠ 0;
  inv_boot : connected i = true →
    Protocol.boot_id p = None ∨
    generation_has_sample i = true ∧ Protocol.boot_id p = active_boot_id i;
  inv_sequence : connected i = true → ∀ q, Protocol.last_sequence p = Some q →
    generation_has_sample i = true ∧ ∃ q', last_sequence i = Some q' ∧ q ≤ q';
  inv_pending : ∀ e, pending_sample i = Some e → pending_ok i p e;
}.

(** A step of the inbox queues events that the protocol allows. *)
Definition step_ok (i : Inbox) (l : list ControlEvent) (p : Protocol.t) (i' : Inbox) : Prop :=
  ∃ l' p', inbox_inv i' (l ++ l') p' ∧ Protocol.run p (into_position_source_event <$> l') = Some p'.

Lemma step_none i l p i' : inbox_inv i' l p → step_ok i l p i'.
Proof. intros H. exists [], p. by rewrite app_nil_r. Qed.

Lemma step_one i l p i' e p' :
  inbox_inv i' (l ++ [e]) p' → Protocol.step p (into_position_source_event e) = Some p' →
  step_ok i l p i'.
Proof. intros H Hs. exists [e], p'. simpl. by rewrite Hs. Qed.

Lemma inv_diagnostics i l p f : inbox_inv i l p → inbox_inv (i <| diagnostics ::= f |>) l p.
Proof. intros []. by constructor. Qed.

(** The current connection of the consumer. *)
Lemma inv_current i l p : inbox_inv i l p → connected i = true → Protocol.current p (generation i) = true.
Proof.
  intros Hi Hc. unfold Protocol.current. rewrite (inv_connected _ _ _ Hi), Hc, (inv_generation _ _ _ Hi).
  rewrite N.eqb_refl. simpl. apply negb_true_iff, N.eqb_neq. by apply (inv_nonzero _ _ _ Hi).
Qed.

Lemma initial_inv w s i : server_agent_channel w s = Ok i → inbox_inv i [] Protocol.initial.
Proof.
  unfold server_agent_channel. intros H. step_if_in H; [done|]. injection H as <-.
  constructor; simpl; try done; [apply holds_new|unfold reserved, CONTROL_QUEUE_CAPACITY; simpl; lia].
Qed.

Lemma connect_step i l p g : inbox_inv i l p → step_ok i l p (connect i g).2.
Proof.
  intros Hi. unfold connect. destruct ((g =? 0) || (g =? generation i)) eqn:Hg; [by apply step_none|].
  destruct (g <? generation i) eqn:Hlt; [by apply step_none, inv_diagnostics|].
  rewrite (remaining_holds _ l) by apply Hi.
  destruct (Nat.ltb_spec (CONTROL_QUEUE_CAPACITY - length l) CONTROL_EVENTS_PER_SESSION) as [|Hroom];
    [by apply step_none, inv_diagnostics|].
  unfold CONTROL_EVENTS_PER_SESSION in Hroom. reflect_bool.
  destruct (push_holds (pending_controls i) l (CeConnected g)) as (q & Hpush & Hq);
    [apply Hi|unfold CONTROL_QUEUE_CAPACITY in *; lia|].
  unfold push_control. simpl. rewrite Hpush. simpl.
  apply (step_one i l p _ (CeConnected g) (Protocol.mk g true None None)).
  - constructor; simpl; try done; try by left.
    rewrite length_app. simpl. unfold reserved. simpl.
    destruct (clock_invalid_queued _ _); unfold CONTROL_QUEUE_CAPACITY in *; lia.
  - simpl. rewrite (inv_generation _ _ _ Hi). destruct (N.ltb_spec (generation i) g); [done|lia].
Qed.

Lemma disconnect_step i l p g :
  inbox_inv i l p → step_ok i l p (disconnect i g).2 ∧ (disconnect i g).1 ≠ CtQueueFullDropped.
Proof.
  intros Hi. unfold disconnect.
  destruct (g <? generation i); [split; [by apply step_none, inv_diagnostics|done]|].
  destruct (g =? 0) eqn:H0; [split; [by apply step_none|done]|].
  destruct (g =? generation i) eqn:Hg; [|split; [by apply step_none|done]]. apply N.eqb_eq in Hg as ->.
  destruct (connected i) eqn:Hc; [|split; [by apply step_none|done]]. simpl.
  pose proof (inv_room _ _ _ Hi) as Hroom. unfold reserved in Hroom. rewrite Hc in Hroom.
  destruct (push_holds (pending_controls i) l (CeDisconnected (generation i))) as (q & Hpush & Hq);
    [apply Hi|destruct (clock_invalid_queued i l); lia|].
  unfold push_control. simpl. rewrite Hpush. simpl. split; [|done].
  apply (step_one i l p _ (CeDisconnected (generation i))
    (Protocol.mk (Protocol.generation p) false (Protocol.boot_id p) (Protocol.last_sequence p))).
  - constructor; simpl; try done; [|apply Hi].
    rewrite length_app. unfold reserved. simpl. destruct (clock_invalid_queued i l); lia.
  - simpl. by rewrite (inv_current _ _ _ Hi Hc).
Qed.

Lemma queue_clock_invalid_step i l p reason :
  inbox_inv i l p → connected i = true → pending_sample i = None →
  step_ok i l p (queue_clock_invalid i (generation i) reason).1 ∧
  (queue_clock_invalid i (generation i) reason).2 = true.
Proof.
  intros Hi Hc Hp. unfold queue_clock_invalid.
  rewrite (has_clock_invalid_holds _ l) by apply Hi.
  pose proof (inv_room _ _ _ Hi) as Hroom. unfold reserved in Hroom. rewrite Hc in Hroom.
  unfold clock_invalid_queued in Hroom.
  destruct (existsb _ l) eqn:Hq; [split; [by apply step_none|done]|].
  destruct (push_holds (pending_controls i) l (CeClockInvalid (generation i) reason)) as (q & Hpush & Hq');
    [apply Hi|lia|].
  unfold push_control. rewrite Hpush. simpl. split; [|done].
  apply (step_one i l p _ (CeClockInvalid (generation i) reason) p).
  - destruct Hi. constructor; simpl; try done.
    rewrite length_app. unfold reserved, clock_invalid_queued. simpl. rewrite Hc, existsb_app. simpl.
    rewrite N.eqb_refl, orb_true_r. lia.
  - simpl. by rewrite (inv_current _ _ _ Hi Hc).
Qed.

Lemma inv_clear_pending i l p : inbox_inv i l p → inbox_inv (i <| pending_sample := None |>) l p.
Proof. intros []. by constructor. Qed.

Lemma clock_invalid_step i l p g reason :
  inbox_inv i l p →
  step_ok i l p (clock_invalid i g reason).2 ∧ (clock_invalid i g reason).1 ≠ CtQueueFullDropped.
Proof.
  intros Hi. unfold clock_invalid.
  destruct (g <? generation i); [split; [by apply step_none, inv_diagnostics|done]|].
  destruct (g =? 0) eqn:H0; [split; [by apply step_none|done]|].
  destruct (g =? generation i) eqn:Hg; [|split; [by apply step_none|done]]. apply N.eqb_eq in Hg as ->.
  destruct (connected i) eqn:Hc; [|split; [by apply step_none|done]]. cbn [orb negb].
  destruct (queue_clock_invalid_step (i <| pending_sample := None |>) l p reason)
    as [Hs Hq]; [by apply inv_clear_pending|done|done|].
  simpl generation in *.
  destruct (queue_clock_invalid _ _ _) as [i' queued]. simpl in *. subst queued. by split.
Qed.

Lemma unavailable_step i l p g : inbox_inv i l p → step_ok i l p (unavailable i g).2.
Proof.
  intros Hi. unfold unavailable. destruct (g <? generation i); [by apply step_none, inv_diagnostics|].
  destruct (g =? 0); [by apply step_none|].
  destruct (g =? generation i) eqn:Hg; [|by apply step_none]. apply N.eqb_eq in Hg as ->.
  destruct (connected i) eqn:Hc; [|by apply step_none]. simpl. apply step_none.
  destruct Hi. constructor; simpl; try done. intros e [= <-]. by split.
Qed.

(** A new sample follows everything the consumer has seen. *)
Lemma accept_frame_inv i l p frame now sample :
  inbox_inv i l p → connected i = true →
  PositionSample.source_connection_generation sample = generation i →
  PositionSample.agent_boot_id sample = fr_agent_boot_id frame →
  PositionSample.sequence sample = fr_sequence frame →
  fr_sequence frame ≠ 0 →
  (active_boot_id i = None ∨ active_boot_id i = Some (fr_agent_boot_id frame)) →
  (∀ q, last_sequence i = Some q → q < fr_sequence frame) →
  inbox_inv (accept_frame i frame now sample) l p.
Proof.
  intros [] Hc Hg Hb Hs H0 Ha Hq.
  assert (∀ i', pending_controls i' = pending_controls i → generation i' = generation i →
    connected i' = true → generation_has_sample i' = true →
    active_boot_id i' = Some (fr_agent_boot_id frame) → last_sequence i' = Some (fr_sequence frame) →
    pending_sample i' = Some (Sample sample) → inbox_inv i' l p) as Hnew.
  { intros i' E1 E2 E3 E4 E5 E6 E7. constructor; rewrite ?E1, ?E2, ?E3, ?E4, ?E5, ?E6, ?E7; try done.
    - unfold reserved, clock_invalid_queued in *. rewrite E2, E3. by rewrite Hc in inv_room0.
    - by rewrite <- Hc.
    - intros _. by apply inv_nonzero0.
    - intros _. destruct (inv_boot0 Hc) as [?|[_ Hboot]]; [by left|].
      rewrite Hboot. destruct Ha as [->| ->]; auto.
    - intros _ q Hpq. split; [done|]. destruct (inv_sequence0 Hc q Hpq) as (_ & q' & Hq' & Hle).
      specialize (Hq q' Hq'). exists (fr_sequence frame). split; [done|lia].
    - intros e [= <-]. split; [done|]. rewrite Hb, Hs, E2, E4, E5, E6. repeat split; try done; [lia|].
      intros q Hpq. destruct (inv_sequence0 Hc q Hpq) as (_ & q' & Hq' & Hle).
      specialize (Hq q' Hq'). lia. }
  unfold accept_frame. destruct i as [? ? ? ? ? active ? ? ? ? ? ?].
  repeat step_if; simpl in *; apply Hnew; simpl; try done;
    destruct active; simpl in *; try done; by destruct Ha.
Qed.

Lemma publish_in_boot_step i l p frame now :
  inbox_inv i l p → connected i = true → fr_generation frame = generation i →
  fr_sequence frame ≠ 0 →
  (active_boot_id i = None ∨ active_boot_id i = Some (fr_agent_boot_id frame)) →
  step_ok i l p (publish_in_boot i frame now).2.
Proof.
  intros Hi Hc Hg H0 Ha. unfold publish_in_boot.
  destruct (sequence_drop i frame) as [[outcome i']|] eqn:Hdrop.
  { unfold sequence_drop in Hdrop. repeat (step_if_in Hdrop; try discriminate);
      injection Hdrop as <- <-; apply step_none; destruct Hi; by constructor. }
  destruct (is_some_and (last_received_monotonic_ms i) _).
  - rewrite Hg. destruct (queue_clock_invalid_step
      (i <| diagnostics ::= λ d, d <| clock_regression_drops ::= increment |> |>
         <| pending_sample := None |>) l p MonotonicRegression) as [Hs _].
    { by apply inv_clear_pending, inv_diagnostics. }
    { done. }
    { done. }
    simpl generation in Hs. destruct (queue_clock_invalid _ _ _) as [i' queued]. done.
  - destruct (PositionSample.new _ _ _ _ _ _ _ _ _ _) as [sample|e] eqn:Hnew;
      [|by apply step_none].
    apply PositionSample.sample_new_ok in Hnew as [_ ->].
    apply step_none, accept_frame_inv; simpl; try done.
    intros q Hq. unfold sequence_drop in Hdrop. rewrite Hq in Hdrop.
    destruct (N.eqb_spec (fr_sequence frame) q); [done|].
    destruct (N.ltb_spec (fr_sequence frame) q); [done|lia].
Qed.

(** A frame of another boot replaces the boot only before the first sample of the
    connection, so the consumer has not seen the old one. *)
Lemma switch_boot_inv i l p :
  inbox_inv i l p → generation_has_sample i = false →
  inbox_inv ((retire_active_boot i) <| last_sequence := None |>
                                    <| last_received_monotonic_ms := None |>) l p.
Proof.
  intros [] Hh. unfold retire_active_boot.
  assert (∀ e, pending_sample i = Some e → ∀ s, e ≠ Sample s) as Hno.
  { intros e He s ->. destruct (inv_pending0 _ He) as (_ & _ & Hs & _). congruence. }
  destruct (active_boot_id i); constructor; simpl; try done.
  1, 4: intros Hc; left; destruct (inv_boot0 Hc) as [?|[? _]]; [done|congruence].
  1, 3: intros Hc q Hq; destruct (inv_sequence0 Hc q Hq) as [? _]; congruence.
  all: intros e He; specialize (inv_pending0 e He); specialize (Hno e He);
    destruct e; try done; by destruct (Hno sample).
Qed.

Lemma publish_position_step i l p frame now :
  inbox_inv i l p → step_ok i l p (publish_position i frame now).2.
Proof.
  intros Hi. unfold publish_position. step_if; [by apply step_none, inv_diagnostics|].
  step_if; [by apply step_none, inv_diagnostics|].
  step_if; [by apply step_none, inv_diagnostics|].
  step_if; [by apply step_none|].
  step_if; [by apply step_none, inv_diagnostics|]. reflect_bool.
  destruct (is_some_and (active_boot_id i) _) eqn:Hboot.
  - destruct (generation_has_sample i) eqn:Hh; [by apply step_none, inv_diagnostics|].
    pose proof (switch_boot_inv i l p Hi Hh) as Hi'.
    assert (∃ l' p', inbox_inv (publish_in_boot ((retire_active_boot i) <| last_sequence := None |>
      <| last_received_monotonic_ms := None |>) frame now).2 (l ++ l') p' ∧
      Protocol.run p (into_position_source_event <$> l') = Some p') as Hs.
    { apply publish_in_boot_step; try done; unfold retire_active_boot;
        destruct (active_boot_id i) eqn:Ha; simpl; try done; by left. }
    exact Hs.
  - apply publish_in_boot_step; try done.
    destruct (active_boot_id i) as [b|]; [right|by left]. simpl in Hboot. by reflect_bool; subst.
Qed.

(** ** The source is lawful *)

Definition agent_synced (i : Inbox) (p : Protocol.t) : Prop :=
  ∃ l p1, inbox_inv i l p1 ∧ Protocol.run p (into_position_source_event <$> l) = Some p1.

Lemma step_ok_synced i l p1 i' p :
  Protocol.run p (into_position_source_event <$> l) = Some p1 → step_ok i l p1 i' → agent_synced i' p.
Proof.
  intros Hr (l' & p' & Hi & Hr'). exists (l ++ l'), p'. split; [done|].
  rewrite fmap_app, Protocol.run_app, Hr. done.
Qed.

Lemma poll_sample_inv i p e :
  inbox_inv i [] p → pending_sample i = Some e →
  ∃ p', Protocol.step p e = Some p' ∧ inbox_inv (i <| pending_sample := None |>) [] p'.
Proof.
  intros Hi He. pose proof (inv_pending _ _ _ Hi e He) as [Hc Hok].
  pose proof (inv_current _ _ _ Hi Hc) as Hcur. destruct e as [|s|g| |]; try done.
  - destruct Hok as (Hg & Hh & Ha & Hl & H0 & Hq). destruct Hi.
    eexists. split.
    + apply Protocol.step_sample_intro; try done; [by rewrite inv_connected0|
        rewrite inv_generation0; auto|by rewrite inv_generation0|].
      intros b Hb. destruct (inv_boot0 Hc) as [?|[_ ?]]; congruence.
    + constructor; simpl; try done.
      * right. by rewrite Ha.
      * intros _ q [= <-]. split; [done|]. by exists (PositionSample.sequence s).
  - subst g. exists p. simpl. rewrite Hcur. split; [done|]. by apply inv_clear_pending.
Qed.

#[export, refine] Instance server_agent_lawful : LawfulSource Inbox Empty_set := {|
  synced := agent_synced;
  on_time := λ _ _, True;
|}.
Proof.
  - done.
  - intros i p now (l & p1 & Hi & Hr) _. change (poll now i) with (poll_agent now i).
    unfold poll_agent. pose proof (inv_queue _ _ _ Hi) as Hq. destruct l as [|e l].
    + rewrite (pop_empty _ Hq). simpl in *. injection Hr as ->.
      destruct (pending_sample i) as [e|] eqn:He.
      * destruct (poll_sample_inv i p1 e Hi He) as (p' & Hs & Hi'). exists p'. split; [done|].
        exists [], p'. by destruct i.
      * exists [], p1. split; [|done]. destruct Hi; by constructor.
    + destruct (pop_holds _ e l Hq) as (q & -> & Hq'). simpl in *.
      destruct (Protocol.step p (into_position_source_event e)) as [p'|]; [|done].
      exists p'. split; [done|]. exists l, p1. split; [|done].
      destruct Hi. constructor; simpl; try done.
      unfold reserved, clock_invalid_queued in *. simpl in *. revert inv_room0.
      destruct (connected i),
        (existsb (λ e', match e' with CeClockInvalid queued _ => queued =? generation i | _ => false end) l),
        e as [g|g|g reason]; simpl; try lia;
        destruct (g =? generation i); simpl; lia.
Defined.

(** ** Runs *)

(** What either end of the channel can do. *)
Inductive op :=
| Connect (g : N)
| Publish (frame : ServerAgentFrame) (received_at_monotonic_ms : N)
| MarkUnavailable (g : N)
| Disconnect (g : N)
| InvalidateClock (g : N) (reason : ClockInvalidReason)
| Poll (now : N).

(** What it returns. *)
Inductive reply :=
| Controlled (outcome : ServerAgentControlOutcome)
| Ingested (outcome : result ServerAgentIngestOutcome ServerAgentSourceError)
| Polled (event : option PositionSourceEvent).

Definition run_op (i : Inbox) (o : op) : reply * Inbox :=
  match o with
  | Connect g => let '(c, i) := connect i g in (Controlled c, i)
  | Publish frame now => let '(r, i) := publish_position i frame now in (Ingested r, i)
  | MarkUnavailable g => let '(c, i) := unavailable i g in (Controlled c, i)
  | Disconnect g => let '(c, i) := disconnect i g in (Controlled c, i)
  | InvalidateClock g reason => let '(c, i) := clock_invalid i g reason in (Controlled c, i)
  | Poll now => let '(r, i) := poll_agent now i in (Polled (answer_event r), i)
  end.

Fixpoint run_ops (i : Inbox) (os : list op) : list reply * Inbox :=
  match os with
  | [] => ([], i)
  | o :: os =>
      let '(r, i) := run_op i o in let '(rs, i) := run_ops i os in (r :: rs, i)
  end.

Definition polled_event (r : reply) : option PositionSourceEvent :=
  match r with Polled e => e | _ => None end.

(** Every operation keeps the consumer in step, and only [connect] can find the
    queue full. *)
Lemma run_op_synced i o p :
  agent_synced i p →
  (match polled_event (run_op i o).1 with
   | Some e => ∃ p', Protocol.step p e = Some p' ∧ agent_synced (run_op i o).2 p'
   | None => agent_synced (run_op i o).2 p
   end) ∧
  ((run_op i o).1 = Controlled CtQueueFullDropped → ∃ g, o = Connect g).
Proof.
  intros Hs. pose proof Hs as (l & p1 & Hi & Hr). destruct o as [g|frame now|g|g|g reason|now].
  - pose proof (connect_step i l p1 g Hi) as H. simpl. destruct (connect i g). simpl in *.
    split; [by eapply step_ok_synced|]. intros _. by exists g.
  - pose proof (publish_position_step i l p1 frame now Hi) as H. simpl.
    destruct (publish_position i frame now). simpl in *. by split; [eapply step_ok_synced|].
  - pose proof (unavailable_step i l p1 g Hi) as H.
    assert ((unavailable i g).1 ≠ CtQueueFullDropped) as Hn.
    { unfold unavailable. by repeat step_if. }
    simpl. destruct (unavailable i g). simpl in *.
    split; [by eapply step_ok_synced|]. intros [= ->]. done.
  - pose proof (disconnect_step i l p1 g Hi) as [H Hn]. simpl. destruct (disconnect i g). simpl in *.
    split; [by eapply step_ok_synced|]. intros [= ->]. done.
  - pose proof (clock_invalid_step i l p1 g reason Hi) as [H Hn]. simpl.
    destruct (clock_invalid i g reason). simpl in *.
    split; [by eapply step_ok_synced|]. intros [= ->]. done.
  - pose proof (poll_synced i p now Hs I) as H. change (poll now i) with (poll_agent now i) in H. simpl.
    destruct (poll_agent now i) as [answer i']. simpl in *. split; [|done]. by destruct (answer_event answer).
Qed.

Lemma run_ops_synced i os p :
  agent_synced i p →
  (∃ p', Protocol.run p (omap polled_event (run_ops i os).1) = Some p' ∧
         agent_synced (run_ops i os).2 p') ∧
  Forall2 (λ o r, r = Controlled CtQueueFullDropped → ∃ g, o = Connect g) os (run_ops i os).1.
Proof.
  revert i p. induction os as [|o os IH]; intros i p Hs; simpl.
  { split; [by exists p|constructor]. }
  pose proof (run_op_synced i o p Hs) as [Ho Hq]. destruct (run_op i o) as [r i']. simpl in *.
  assert (∃ p0, agent_synced i' p0) as [p0 H0].
  { destruct (polled_event r); [|by exists p]. destruct Ho as (p' & _ & ?). by exists p'. }
  pose proof (IH i' p0 H0) as [_ Hrest].
  assert (∀ p1, agent_synced i' p1 → ∃ p', Protocol.run p1 (omap polled_event (run_ops i' os).1) = Some p' ∧
    agent_synced (run_ops i' os).2 p') as Hrun by (intros p1 H1; apply (IH i' p1 H1)).
  destruct (run_ops i' os) as [rs i'']. simpl in *. split; [|by constructor].
  destruct (polled_event r) as [e|]; simpl; [|by apply Hrun].
  destruct Ho as (p' & -> & H1). simpl. by apply Hrun.
Qed.

(** ** Boots are never accepted again after they were replaced *)

(** [seen] are the boots of the samples accepted so far, oldest first. *)
Record boots_inv (i : Inbox) (seen : list bytes) : Prop := {
  boots_words : length (bits (retired_boots i)) = 32%nat;
  boots_active : ∀ b, active_boot_id i = Some b → last seen = Some b;
  boots_retired : ∀ b, b ∈ seen →
    active_boot_id i = Some b ∨ filter_contains (retired_boots i) b = true;
}.

(** The boots of a run come in blocks: between two equal ones there is no other. *)
Definition in_blocks (bs : list bytes) : Prop :=
  ∀ j k m b, (j ≤ k ≤ m)%nat → bs !! j = Some b → bs !! m = Some b → bs !! k = Some b.

Lemma in_blocks_snoc bs b : in_blocks bs → (b ∈ bs → last bs = Some b) → in_blocks (bs ++ [b]).
Proof.
  intros Hbs Hb j k m b' Hjkm Hj Hm.
  destruct (decide (m < length bs)%nat) as [Hlt|Hge].
  { rewrite lookup_app_l in * by lia. by eapply (Hbs j k m). }
  pose proof (lookup_lt_Some _ _ _ Hm) as Hlen. rewrite length_app in Hlen. simpl in Hlen.
  assert (m = length bs) as -> by lia. rewrite lookup_app_r, Nat.sub_diag in Hm by lia.
  simpl in Hm. injection Hm as ->.
  destruct (decide (k = length bs)) as [->|Hk]; [by rewrite lookup_app_r, Nat.sub_diag by lia|].
  rewrite lookup_app_l in * by lia.
  pose proof (Hb (list_elem_of_lookup_2 _ _ _ Hj)) as Hlast. rewrite last_lookup in Hlast.
  eapply (Hbs j k (pred (length bs))); [lia|done|done].
Qed.

Lemma boots_inv_ext i i' seen :
  boots_inv i seen → active_boot_id i' = active_boot_id i → retired_boots i' = retired_boots i →
  boots_inv i' seen.
Proof. intros [] Ha Hr. constructor; by rewrite ?Ha, ?Hr. Qed.

Lemma push_control_boots i e :
  active_boot_id (push_control i e).1 = active_boot_id i ∧
  retired_boots (push_control i e).1 = retired_boots i.
Proof. unfold push_control. by destruct (push _ _). Qed.

Lemma queue_clock_invalid_boots i g reason :
  active_boot_id (queue_clock_invalid i g reason).1 = active_boot_id i ∧
  retired_boots (queue_clock_invalid i g reason).1 = retired_boots i.
Proof. unfold queue_clock_invalid. destruct (has_clock_invalid _ _); [done|]. apply push_control_boots. Qed.

Lemma accept_frame_boots i frame now sample :
  active_boot_id (accept_frame i frame now sample) =
    Some (unwrap_or (active_boot_id i) (fr_agent_boot_id frame)) ∧
  retired_boots (accept_frame i frame now sample) = retired_boots i.
Proof.
  unfold accept_frame. destruct i as [? ? ? ? ? active ? ? ? ? sample' ?].
  by destruct (saturating_add _ 1 <? _), sample', active.
Qed.

Lemma switch_boots_inv i seen :
  boots_inv i seen →
  boots_inv ((retire_active_boot i) <| last_sequence := None |>
                                    <| last_received_monotonic_ms := None |>) seen ∧
  ∀ b, filter_contains (retired_boots i) b = true →
    filter_contains (retired_boots (retire_active_boot i)) b = true.
Proof.
  intros [Hw Ha Hr]. unfold retire_active_boot. destruct (active_boot_id i) as [b|] eqn:Hb.
  - destruct (filter_insert_spec (retired_boots i) b Hw) as (H1 & H2 & H3).
    split; [|done]. constructor; simpl; [done|done|].
    intros b' Hb'. right. destruct (Hr b' Hb') as [[= ->]|?]; auto.
  - split; [|done]. constructor; simpl; try done; by rewrite Hb.
Qed.

Definition is_accepted (r : result ServerAgentIngestOutcome ServerAgentSourceError) : bool :=
  match r with Ok Accepted => true | _ => false end.

(** One publication: only an [Accepted] outcome adds a boot, and one seen before is
    then still the last one. *)
Definition boots_step (i' : Inbox) (seen : list bytes) (boot : bytes) (accepted : bool) : Prop :=
  if accepted then boots_inv i' (seen ++ [boot]) ∧ (boot ∈ seen → last seen = Some boot)
  else boots_inv i' seen.

Lemma accept_frame_boots_inv i seen frame now sample :
  boots_inv i seen →
  (active_boot_id i = None ∨ active_boot_id i = Some (fr_agent_boot_id frame)) →
  boots_inv (accept_frame i frame now sample) (seen ++ [fr_agent_boot_id frame]).
Proof.
  intros [Hw Ha Hr] Hactive. destruct (accept_frame_boots i frame now sample) as [E1 E2].
  assert (unwrap_or (active_boot_id i) (fr_agent_boot_id frame) = fr_agent_boot_id frame) as E
    by (by destruct Hactive as [->| ->]).
  constructor; rewrite ?E1, ?E2, ?E; [done| |].
  - intros b [= <-]. apply last_snoc.
  - intros b [Hb|Hb%list_elem_of_singleton]%elem_of_app; [|left; congruence].
    destruct (Hr b Hb) as [Hb'|?]; [|by right]. left. destruct Hactive; congruence.
Qed.

Lemma publish_in_boot_boots i seen frame now :
  boots_inv i seen →
  (active_boot_id i = None ∨ active_boot_id i = Some (fr_agent_boot_id frame)) →
  (fr_agent_boot_id frame ∈ seen → active_boot_id i = Some (fr_agent_boot_id frame)) →
  boots_step (publish_in_boot i frame now).2 seen (fr_agent_boot_id frame)
    (is_accepted (publish_in_boot i frame now).1).
Proof.
  intros Hi Ha Hseen. unfold publish_in_boot, boots_step.
  destruct (sequence_drop i frame) as [[outcome i']|] eqn:Hdrop.
  { unfold sequence_drop in Hdrop. repeat (step_if_in Hdrop; try discriminate);
      injection Hdrop as <- <-; by apply (boots_inv_ext i). }
  destruct (is_some_and (last_received_monotonic_ms i) _).
  - match goal with |- context [queue_clock_invalid ?j ?g ?m] =>
      destruct (queue_clock_invalid_boots j g m) as [E1 E2];
      destruct (queue_clock_invalid j g m) as [i' queued] end.
    by apply (boots_inv_ext i).
  - destruct (PositionSample.new _ _ _ _ _ _ _ _ _ _) as [sample|e]; simpl; [|done].
    split; [by apply accept_frame_boots_inv|]. intros Hin. by apply Hi, Hseen.
Qed.

Lemma publish_boots i seen frame now :
  boots_inv i seen →
  boots_step (publish_position i frame now).2 seen (fr_agent_boot_id frame)
    (is_accepted (publish_position i frame now).1).
Proof.
  intros Hi. unfold publish_position.
  step_if; [by apply (boots_inv_ext i)|]. step_if; [by apply (boots_inv_ext i)|].
  step_if; [by apply (boots_inv_ext i)|]. step_if; [by apply (boots_inv_ext i)|].
  destruct (filter_contains (retired_boots i) (fr_agent_boot_id frame)) eqn:Hret;
    [by apply (boots_inv_ext i)|].
  assert (fr_agent_boot_id frame ∈ seen → active_boot_id i = Some (fr_agent_boot_id frame)) as Hseen.
  { intros Hin. destruct (boots_retired i seen Hi _ Hin); [done|congruence]. }
  destruct (is_some_and (active_boot_id i) _) eqn:Hboot.
  - destruct (generation_has_sample i); [by apply (boots_inv_ext i)|].
    destruct (switch_boots_inv i seen Hi) as [Hi' _]. apply publish_in_boot_boots; [done| |].
    + left. unfold retire_active_boot. by destruct (active_boot_id i) eqn:Ha.
    + intros Hin. rewrite (Hseen Hin) in Hboot. simpl in Hboot. by rewrite bool_decide_true in Hboot.
  - apply publish_in_boot_boots; [done| |done].
    destruct (active_boot_id i) as [b|]; [right|by left]. simpl in Hboot. by reflect_bool; subst.
Qed.

(** The boot of an accepted publication. *)
Definition accepted_boot (o : op) (r : reply) : option bytes :=
  match o, r with
  | Publish frame _, Ingested outcome =>
      if is_accepted outcome then Some (fr_agent_boot_id frame) else None
  | _, _ => None
  end.

Definition accepted_boots (os : list op) (rs : list reply) : list bytes :=
  omap (λ '(o, r), accepted_boot o r) (zip os rs).

Lemma run_op_boots i seen o :
  boots_inv i seen →
  match accepted_boot o (run_op i o).1 with
  | Some b => boots_inv (run_op i o).2 (seen ++ [b]) ∧ (b ∈ seen → last seen = Some b)
  | None => boots_inv (run_op i o).2 seen
  end.
Proof.
  intros Hi. destruct o as [g|frame now|g|g|g reason|now]; simpl.
  - unfold connect. repeat step_if; simpl; try by apply (boots_inv_ext i).
    match goal with |- context [push_control ?j ?e] =>
      destruct (push_control_boots j e) as [E1 E2]; destruct (push_control j e) as [i' queued] end.
    by apply (boots_inv_ext i).
  - pose proof (publish_boots i seen frame now Hi) as H. unfold boots_step in H.
    destruct (publish_position i frame now) as [r i']. simpl in *. by destruct (is_accepted r).
  - unfold unavailable. repeat step_if; by apply (boots_inv_ext i).
  - unfold disconnect. do 2 (step_if; [by apply (boots_inv_ext i)|]).
    match goal with |- context [push_control ?j ?e] =>
      destruct (push_control_boots j e) as [E1 E2]; destruct (push_control j e) as [i' queued] end.
    by destruct queued; apply (boots_inv_ext i).
  - unfold clock_invalid. do 2 (step_if; [by apply (boots_inv_ext i)|]).
    match goal with |- context [queue_clock_invalid ?j ?e ?m] =>
      destruct (queue_clock_invalid_boots j e m) as [E1 E2];
      destruct (queue_clock_invalid j e m) as [i' queued] end.
    by destruct queued; apply (boots_inv_ext i).
  - unfold poll_agent. destruct (pop (pending_controls i)) as [control q].
    by destruct control; apply (boots_inv_ext i).
Qed.

Lemma run_ops_boots i seen os :
  boots_inv i seen → in_blocks seen → in_blocks (seen ++ accepted_boots os (run_ops i os).1).
Proof.
  revert i seen. induction os as [|o os IH]; intros i seen Hi Hb; simpl; [by rewrite app_nil_r|].
  pose proof (run_op_boots i seen o Hi) as Ho. destruct (run_op i o) as [r i']. simpl in Ho.
  assert (∀ seen', boots_inv i' seen' → in_blocks seen' →
    in_blocks (seen' ++ accepted_boots os (run_ops i' os).1)) as Hrest by (intros; by apply IH).
  destruct (run_ops i' os) as [rs i'']. unfold accepted_boots in *. simpl in *.
  destruct (accepted_boot o r) as [b|]; [|by apply Hrest].
  destruct Ho as [Hi' Hlast]. rewrite cons_middle, (assoc_L app). apply Hrest; [done|].
  by apply in_blocks_snoc.
Qed.

(** ** Properties *)

(** C35: whatever the sender and the source do, in whatever interleaving, the events
    the source emits are a legal stream: a fresh reducer accepts every one of them
    without a drop, although samples supersede each other in the inbox. *)
Theorem agent_stream_legal (w : string) (s : bytes) (i : Inbox) (os : list op) (r : StateReducer) :
  server_agent_channel w s = Ok i → Reducer.default = Some r →
  let es := omap polled_event (run_ops i os).1 in
  Protocol.legal es ∧ drops (Reducer.diagnostics (run_source r es)) = 0 ∧
  ProtocolOrder.legal_part (proto_of r) es = es.
Proof.
  intros Hi Hr es. apply initial_inv in Hi.
  assert (agent_synced i Protocol.initial) as Hs by (by exists [], Protocol.initial).
  destruct (run_ops_synced i os _ Hs) as [(p' & Hrun & _) _].
  assert (proto_of r = Protocol.initial ∧ drops (Reducer.diagnostics r) = 0) as [Hp Hd]
    by (vm_compute in Hr; by injection Hr as <-).
  split; [by exists p'|]. change (Protocol.run Protocol.initial es = Some p') in Hrun.
  rewrite <- Hp in Hrun.
  split; [destruct (run_source_legal_drops r es p' Hrun) as [-> _]; done|].
  by eapply ProtocolOrder.legal_part_id.
Qed.

(** Connecting reserves the queue space of the whole session. Whatever happens,
    only a new connection is ever refused for a full queue, and in every state the
    current connection can be invalidated, marked unavailable and disconnected. *)
Theorem lifecycle_reserved (w : string) (s : bytes) (i : Inbox) (os : list op)
    (reason : ClockInvalidReason) :
  server_agent_channel w s = Ok i →
  let '(rs, i') := run_ops i os in
  Forall2 (λ o r, r = Controlled CtQueueFullDropped → ∃ g, o = Connect g) os rs ∧
  (qlen (pending_controls i') ≤ CONTROL_QUEUE_CAPACITY)%nat ∧
  (connected i' = true →
   (disconnect i' (generation i')).1 = CtAccepted ∧
   (clock_invalid i' (generation i') reason).1 = CtAccepted ∧
   (unavailable i' (generation i')).1 = CtAccepted).
Proof.
  intros Hi%initial_inv.
  assert (agent_synced i Protocol.initial) as Hs by (by exists [], Protocol.initial).
  destruct (run_ops_synced i os _ Hs) as [(p' & _ & Hs') Hq].
  destruct (run_ops i os) as [rs i']. simpl in *. destruct Hs' as (l & p1 & Hi' & _).
  split; [done|]. split.
  - destruct (inv_queue _ _ _ Hi') as [_ _ -> ? _]. done.
  - intros Hc. pose proof (inv_nonzero _ _ _ Hi' Hc) as H0. apply N.eqb_neq in H0.
    pose proof (disconnect_step i' l p1 (generation i') Hi') as [_ H1].
    pose proof (clock_invalid_step i' l p1 (generation i') reason Hi') as [_ H2].
    unfold disconnect, clock_invalid, unavailable in *.
    rewrite H0, Hc, N.ltb_irrefl, N.eqb_refl in *. simpl in *.
    destruct (push_control _ _) as [? []]; [|done].
    destruct (queue_clock_invalid _ _ _) as [? []]; done.
Qed.

(** A boot that another boot has replaced is never accepted again: along any
    run, between two accepted samples of one boot every accepted sample is of that
    boot. *)
Theorem retired_boots_stay_retired (w : string) (s : bytes) (i : Inbox) (os : list op) :
  server_agent_channel w s = Ok i → in_blocks (accepted_boots os (run_ops i os).1).
Proof.
  intros Hi. apply (run_ops_boots i []).
  - unfold server_agent_channel in Hi. step_if_in Hi; [done|]. injection Hi as <-.
    constructor; simpl; try done. intros b Hb. by apply elem_of_nil in Hb.
  - intros j k m b _ Hj. done.
Qed.

(** ** A run *)

Definition demo_subject : bytes := replicate 32 Byte.x07.
Definition demo_frame (boot : Byte.byte) (g q : N) (x : f64) : ServerAgentFrame :=
  mkFrame "w" demo_subject [boot] g q x (f64_of_Z 0) (f64_of_Z 0) None 3.
Definition demo_ops : list op :=
  [Connect 1; Publish (demo_frame Byte.x01 1 1 (f64_of_Z 5)) 10;
   Publish (demo_frame Byte.x01 1 4 (f64_of_Z 6)) 11; Poll 11; Poll 11;
   InvalidateClock 1 ProbeInvalid; InvalidateClock 1 ProbeInvalid; Disconnect 1;
   Connect 2; Publish (demo_frame Byte.x02 2 1 (f64_of_Z 7)) 12;
   Publish (demo_frame Byte.x01 2 5 (f64_of_Z 7)) 13; Poll 13; Poll 13; Poll 13; Poll 13].

Lemma agent_stream_legal_witness :
  match server_agent_channel "w" demo_subject, Reducer.default with
  | Ok i, Some r =>
      let es := omap polled_event (run_ops i demo_ops).1 in
      length es = 6%nat ∧ drops (Reducer.diagnostics (run_source r es)) = 0
  | _, _ => False
  end.
Proof.
  destruct (server_agent_channel "w" demo_subject) as [i|] eqn:Hi; [|vm_compute in Hi; discriminate].
  destruct Reducer.default as [r|] eqn:Hr; [|vm_compute in Hr; discriminate].
  split.
  - vm_compute in Hi. injection Hi as <-. vm_compute. reflexivity.
  - exact (proj1 (proj2 (agent_stream_legal "w" demo_subject i demo_ops r Hi Hr))).
Defined.

Lemma lifecycle_reserved_witness :
  match server_agent_channel "w" demo_subject with
  | Ok i =>
      let i' := (run_ops i (firstn 5 demo_ops)).2 in
      connected i' = true ∧ (disconnect i' (generation i')).1 = CtAccepted
  | Err _ => False
  end.
Proof.
  destruct (server_agent_channel "w" demo_subject) as [i|] eqn:Hi; [|vm_compute in Hi; discriminate].
  pose proof (lifecycle_reserved "w" demo_subject i (firstn 5 demo_ops) ProbeInvalid Hi) as H.
  assert (connected (run_ops i (firstn 5 demo_ops)).2 = true) as Hc
    by (vm_compute in Hi; injection Hi as <-; vm_compute; reflexivity).
  destruct (run_ops i (firstn 5 demo_ops)) as [rs i']. split; [exact Hc|]. by apply H.
Defined.

Lemma retired_boots_stay_retired_witness :
  match server_agent_channel "w" demo_subject with
  | Ok i =>
      accepted_boots demo_ops (run_ops i demo_ops).1 = [[Byte.x01]; [Byte.x01]; [Byte.x02]] ∧
      in_blocks (accepted_boots demo_ops (run_ops i demo_ops).1)
  | Err _ => False
  end.
Proof.
  destruct (server_agent_channel "w" demo_subject) as [i|] eqn:Hi; [|vm_compute in Hi; discriminate].
  split.
  - vm_compute in Hi. injection Hi as <-. vm_compute. reflexivity.
  - exact (retired_boots_stay_retired "w" demo_subject i demo_ops Hi).
Defined.

(** A refused frame can still cost the active boot its place: the frame of boot 2
    below has a NaN coordinate and is an error, but boot 1 has been retired for it, so
    the next frame of boot 1 is dropped although no other boot was ever accepted. *)
Lemma invalid_frame_retires_boot :
  match server_agent_channel "w" demo_subject with
  | Ok i =>
      (run_ops i [Connect 1; Publish (demo_frame Byte.x01 1 1 (f64_of_Z 5)) 10; Disconnect 1;
                  Connect 2; Publish (demo_frame Byte.x02 2 1 S754_nan) 11;
                  Publish (demo_frame Byte.x01 2 2 (f64_of_Z 5)) 12]).1 =
      [Controlled CtAccepted; Ingested (Ok Accepted); Controlled CtAccepted; Controlled CtAccepted;
       Ingested (Err (SaPosition NonFiniteX)); Ingested (Ok RetiredBootDropped)]
  | Err _ => False
  end.
Proof. vm_compute. reflexivity. Qed.
