(* ===== verification/Hotkeys.v ===== *)
(** * The hotkey registry

    Models [crates/pal-windows/src/hotkeys.rs]: the registry that turns the hotkey
    bindings of the settings into registrations with the operating system. The trait
    [HotkeyBackend] is a class, its laws another one, and [FakeHotkeyBackend] an
    instance of both. An array of four entries, indexed by [action_index], is a
    function of the action. *)

From S2P Require Import Prelude Floats Settings.

#[local] Open Scope Z_scope.

Definition MOD_ALT : N := 0x0001.
Definition MOD_CONTROL : N := 0x0002.
Definition MOD_SHIFT : N := 0x0004.
Definition MOD_WIN : N := 0x0008.
Definition MOD_NOREPEAT : N := 0x4000.
Definition ACTION_HOTKEY_ID_START : Z := 0x5100.
Definition TRANSIENT_HOTKEY_ID_START : Z := 0x5200.
Definition TRANSIENT_HOTKEY_ID_END : Z := 0x52FF.

Definition CANONICAL_ACTIONS : list HotkeyAction :=
  [OverlayVisibility; RotationToggle; TemporaryInteraction; InteractionLock].

Definition action_index (action : HotkeyAction) : nat :=
  match action with
  | OverlayVisibility => 0 | RotationToggle => 1 | TemporaryInteraction => 2 | InteractionLock => 3
  end.

Definition action_registration_id (action : HotkeyAction) : Z :=
  ACTION_HOTKEY_ID_START + Z.of_nat (action_index action).

Definition action_from_registration_id (id : Z) : option HotkeyAction :=
  let index := id - ACTION_HOTKEY_ID_START in
  if (index <? 0) || (Z.of_nat (length CANONICAL_ACTIONS) <=? index) then None
  else CANONICAL_ACTIONS !! Z.to_nat index.

(** ** The backend *)

Inductive HotkeyBackendOperation := Register | Unregister.
Inductive HotkeyBackendErrorCategory := Collision | System.
#[export] Instance HotkeyBackendErrorCategory_eq_dec : EqDecision HotkeyBackendErrorCategory.
Proof. solve_decision. Defined.

Record HotkeyBackendError := mkBackendError {
  operation : HotkeyBackendOperation;
  category : HotkeyBackendErrorCategory;
  code : N;
}.

(** The trait. *)
Class HotkeyBackend (B : Type) := {
  register : Z → N → N → B → result unit HotkeyBackendError * B;
  unregister : Z → B → result unit HotkeyBackendError * B;
}.

(** What a backend promises: the identifiers registered with it change by the
    successful calls only. *)
Class LawfulHotkeyBackend (B : Type) `{HotkeyBackend B} := {
  registered : B → gset Z;
  register_registered id modifiers virtual_key b :
    let '(r, b') := register id modifiers virtual_key b in
    registered b' = if is_ok r then {[id]} ∪ registered b else registered b;
  unregister_registered id b :
    let '(r, b') := unregister id b in
    registered b' = if is_ok r then registered b ∖ {[id]} else registered b;
}.

(** ** The registry *)

Inductive HotkeyDisableReason := OsCollision | DuplicateChord (conflicting_action : HotkeyAction).
#[export] Instance HotkeyDisableReason_eq_dec : EqDecision HotkeyDisableReason.
Proof. solve_decision. Defined.

Record DisabledHotkey := mkDisabled { dis_action : HotkeyAction; dis_reason : HotkeyDisableReason }.
#[export] Instance DisabledHotkey_eq_dec : EqDecision DisabledHotkey.
Proof. solve_decision. Defined.

Record HotkeyReport := mkReport {
  rep_active : list HotkeyAction;
  rep_disabled : list DisabledHotkey;
}.

Inductive HotkeyRegistryError :=
| InvalidBinding (action : HotkeyAction) (reason : HotkeyValidationReason)
| FatalRegister (action : HotkeyAction) (source : HotkeyBackendError)
| FatalUnregister (action : HotkeyAction) (source : HotkeyBackendError)
| Poisoned.

Record ActiveRegistration := mkActive { chord : HotkeyChord }.

Inductive Target :=
| TgNone
| TgRegister (chord : HotkeyChord)
| TgDuplicate (chord : HotkeyChord) (conflicting_action : HotkeyAction).
#[export] Instance Target_eq_dec : EqDecision Target.
Proof. solve_decision. Defined.

Inductive Outcome := OcNone | OcActive | OcDisabled (reason : HotkeyDisableReason).

(** [[T; 4]]. *)
Definition array (T : Type) : Type := HotkeyAction → T.

(** [a[action_index(action)] = value]. *)
Definition set {T} (action : HotkeyAction) (value : T) (a : array T) : array T :=
  λ other, if bool_decide (other = action) then value else a other.

Lemma set_same {T} action (value : T) a : set action value a action = value.
Proof. unfold set. by rewrite bool_decide_true. Qed.

Lemma set_other {T} action other (value : T) a : other ≠ action → set action value a other = a other.
Proof. intros Hne. unfold set. by rewrite bool_decide_false. Qed.

Record HotkeyRegistry (B : Type) := mkRegistry {
  backend : B;
  initialized : bool;
  targets : array Target;
  outcomes : array Outcome;
  active : array (option ActiveRegistration);
  unregister_attempted : array bool;
  report : option HotkeyReport;
  poisoned : bool;
}.
Arguments mkRegistry {B}.
Arguments backend {B}.
Arguments initialized {B}.
Arguments targets {B}.
Arguments outcomes {B}.
Arguments active {B}.
Arguments unregister_attempted {B}.
Arguments report {B}.
Arguments poisoned {B}.
#[export] Instance eta_HotkeyRegistry B : Eta (HotkeyRegistry B) := λ r,
  mkRegistry (backend r) (initialized r) (targets r) (outcomes r) (active r)
    (unregister_attempted r) (report r) (poisoned r).

Definition modifiers_to_native (modifiers : HotkeyModifiers) : N :=
  let native := MOD_NOREPEAT in
  let native := if control modifiers then N.lor native MOD_CONTROL else native in
  let native := if alt modifiers then N.lor native MOD_ALT else native in
  let native := if shift modifiers then N.lor native MOD_SHIFT else native in
  if windows modifiers then N.lor native MOD_WIN else native.

Definition action_chords (bindings : HotkeyBindings) : list (HotkeyAction * option HotkeyChord) :=
  [(OverlayVisibility, overlay_visibility bindings);
   (RotationToggle, rotation_toggle bindings);
   (TemporaryInteraction, temporary_interaction bindings);
   (InteractionLock, interaction_lock bindings)].

Definition validate_binding (action : HotkeyAction) (chord : option HotkeyChord) :
    result unit HotkeyRegistryError :=
  match chord with
  | None => Ok tt
  | Some chord =>
      if (virtual_key chord =? 0)%N then Err (InvalidBinding action ZeroVirtualKey)
      else if (virtual_key chord =? 0x4B)%N && negb (has_modifier (modifiers chord)) then
        Err (InvalidBinding action UnmodifiedK)
      else if negb (has_modifier (modifiers chord)) && is_game_key (virtual_key chord) then
        Err (InvalidBinding action UnmodifiedGameKey)
      else Ok tt
  end.

Definition validate_bindings (bindings : HotkeyBindings) : result unit HotkeyRegistryError :=
  try_for_each (λ '(action, chord), validate_binding action chord) (action_chords bindings).

(** The chord a target was made for. *)
Definition target_chord (target : Target) : option HotkeyChord :=
  match target with TgNone => None | TgRegister c => Some c | TgDuplicate c _ => Some c end.

(** [find_map] over the targets before this one. *)
Fixpoint find_duplicate (prior : list (HotkeyAction * Target)) (chord : HotkeyChord) :
    option HotkeyAction :=
  match prior with
  | [] => None
  | (action, target) :: prior =>
      if bool_decide (target_chord target = Some chord) then Some action
      else find_duplicate prior chord
  end.

(** The loop of [resolve_targets]; [prior] are the targets already resolved. *)
Fixpoint resolve_from (prior : list (HotkeyAction * Target))
    (chords : list (HotkeyAction * option HotkeyChord)) : list (HotkeyAction * Target) :=
  match chords with
  | [] => prior
  | (action, chord) :: chords =>
      let target :=
        match chord with
        | None => TgNone
        | Some chord =>
            match find_duplicate prior chord with
            | None => TgRegister chord
            | Some conflicting_action => TgDuplicate chord conflicting_action
            end
        end in
      resolve_from (prior ++ [(action, target)]) chords
  end.

Definition resolve_targets (bindings : HotkeyBindings) : array Target :=
  let resolved := resolve_from [] (action_chords bindings) in
  λ action, match (resolved !! action_index action) with Some (_, target) => target | None => TgNone end.

Definition report_action (outcomes : array Outcome) (report : HotkeyReport) (action : HotkeyAction) :
    HotkeyReport :=
  match outcomes action with
  | OcNone => report
  | OcActive => mkReport (rep_active report ++ [action]) (rep_disabled report)
  | OcDisabled reason => mkReport (rep_active report) (rep_disabled report ++ [mkDisabled action reason])
  end.

Definition build_report (outcomes : array Outcome) : HotkeyReport :=
  fold_left (report_action outcomes) CANONICAL_ACTIONS (mkReport [] []).

(** [targets == self.targets]. *)
Definition targets_eq (t1 t2 : array Target) : bool :=
  forallb (λ action, bool_decide (t1 action = t2 action)) CANONICAL_ACTIONS.

Section Registry.
Context {B : Type} `{HotkeyBackend B}.

Definition new (b : B) : HotkeyRegistry B := {|
  backend := b;
  initialized := false;
  targets := λ _, TgNone;
  outcomes := λ _, OcNone;
  active := λ _, None;
  unregister_attempted := λ _, false;
  report := None;
  poisoned := false |}.

Definition poison (self : HotkeyRegistry B) : HotkeyRegistry B :=
  self <| poisoned := true |> <| report := None |>.

(** The first loop of [replace]: what changes is unregistered. *)
Fixpoint release (new_targets : array Target) (actions : list HotkeyAction)
    (self : HotkeyRegistry B) : result unit HotkeyRegistryError * HotkeyRegistry B :=
  match actions with
  | [] => (Ok tt, self)
  | action :: actions =>
      if bool_decide (new_targets action = targets self action) then
        release new_targets actions self
      else if is_some (active self action) then
        let self := self <| unregister_attempted ::= set action true |> in
        let '(r, b) := unregister (action_registration_id action) (backend self) in
        let self := self <| backend := b |> in
        match r with
        | Err source => (Err (FatalUnregister action source), poison self)
        | Ok _ => release new_targets actions (self <| active ::= set action None |>)
        end
      else release new_targets actions self
  end.

(** The registration of one chord in the second loop. *)
Definition claim_chord (self : HotkeyRegistry B) (action : HotkeyAction) (c : HotkeyChord) :
    result Outcome HotkeyRegistryError * HotkeyRegistry B :=
  let '(r, b) := register (action_registration_id action) (modifiers_to_native (modifiers c))
                   (virtual_key c) (backend self) in
  let self := self <| backend := b |> in
  match r with
  | Ok _ =>
      (Ok OcActive, self <| active ::= set action (Some (mkActive c)) |>
                         <| unregister_attempted ::= set action false |>)
  | Err source =>
      if bool_decide (category source = Collision) then
        (Ok (OcDisabled OsCollision), self <| active ::= set action None |>)
      else (Err (FatalRegister action source), poison self)
  end.

(** The second loop of [replace]. *)
Fixpoint claim (new_targets : array Target) (actions : list HotkeyAction)
    (self : HotkeyRegistry B) : result unit HotkeyRegistryError * HotkeyRegistry B :=
  match actions with
  | [] => (Ok tt, self)
  | action :: actions =>
      if bool_decide (new_targets action = targets self action) then
        claim new_targets actions self
      else
        let '(outcome, self) :=
          match new_targets action with
          | TgNone => (Ok OcNone, self)
          | TgDuplicate _ conflicting_action =>
              (Ok (OcDisabled (DuplicateChord conflicting_action)), self)
          | TgRegister c => claim_chord self action c
          end in
        match outcome with
        | Err e => (Err e, self)
        | Ok outcome => claim new_targets actions (self <| outcomes ::= set action outcome |>)
        end
  end.

(** [None] is the panic of an [expect]. *)
Definition replace (self : HotkeyRegistry B) (bindings : HotkeyBindings) :
    option (result HotkeyReport HotkeyRegistryError) * HotkeyRegistry B :=
  if poisoned self then (Some (Err Poisoned), self)
  else
    match validate_bindings bindings with
    | Err e => (Some (Err e), self)
    | Ok _ =>
        let new_targets := resolve_targets bindings in
        if initialized self && targets_eq new_targets (targets self) then
          (Ok <$> report self, self)
        else
          match release new_targets CANONICAL_ACTIONS self with
          | (Err e, self) => (Some (Err e), self)
          | (Ok _, self) =>
              match claim new_targets CANONICAL_ACTIONS self with
              | (Err e, self) => (Some (Err e), self)
              | (Ok _, self) =>
                  let self := self <| targets := new_targets |> <| initialized := true |>
                                   <| report := Some (build_report (outcomes self)) |> in
                  (Ok <$> report self, self)
              end
          end
    end.

Definition effective_report (self : HotkeyRegistry B) : option HotkeyReport :=
  if poisoned self then None else report self.

Definition claimed_virtual_keys (self : HotkeyRegistry B) : list N :=
  omap (λ action, (λ registration, virtual_key (chord registration)) <$> active self action)
    CANONICAL_ACTIONS.

(** [Drop::drop]: the loop over the actions. *)
Fixpoint drop_actions (actions : list HotkeyAction) (self : HotkeyRegistry B) : HotkeyRegistry B :=
  match actions with
  | [] => self
  | action :: actions =>
      let taken := is_some (active self action) in
      let self := self <| active ::= set action None |> in
      if taken && negb (unregister_attempted self action) then
        let self := self <| unregister_attempted ::= set action true |> in
        let '(_, b) := unregister (action_registration_id action) (backend self) in
        drop_actions actions (self <| backend := b |>)
      else drop_actions actions self
  end.

Definition drop_registry (self : HotkeyRegistry B) : HotkeyRegistry B :=
  drop_actions CANONICAL_ACTIONS self.
End Registry.

(** ** The fake backend *)

Inductive HotkeyBackendCall :=
| CallRegister (id : Z) (modifiers virtual_key : N)
| CallUnregister (id : Z).

Record FakeHotkeyState := mkFake {
  calls : list HotkeyBackendCall;
  collision_ids : list Z;
  unregister_failures : list (Z * HotkeyBackendError);
}.

Definition clear_calls (self : FakeHotkeyState) : FakeHotkeyState :=
  mkFake [] (collision_ids self) (unregister_failures self).

Definition collide_registration_id (self : FakeHotkeyState) (id : Z) : FakeHotkeyState :=
  if contains (collision_ids self) id then self
  else mkFake (calls self) (collision_ids self ++ [id]) (unregister_failures self).

Definition fail_unregister (self : FakeHotkeyState) (id : Z) (error : HotkeyBackendError) :
    FakeHotkeyState :=
  mkFake (calls self) (collision_ids self)
    (retain (λ failure, negb (failure.1 =? id)) (unregister_failures self) ++ [(id, error)]).

Definition fake_register (id : Z) (modifiers virtual_key : N) (self : FakeHotkeyState) :
    result unit HotkeyBackendError * FakeHotkeyState :=
  let self := mkFake (calls self ++ [CallRegister id modifiers virtual_key])
                (collision_ids self) (unregister_failures self) in
  if contains (collision_ids self) id then (Err (mkBackendError Register Collision 1409), self)
  else (Ok tt, self).

Definition unregister_failure (self : FakeHotkeyState) (id : Z) : option HotkeyBackendError :=
  snd <$> List.find (λ failure, failure.1 =? id) (unregister_failures self).

Definition fake_unregister (id : Z) (self : FakeHotkeyState) :
    result unit HotkeyBackendError * FakeHotkeyState :=
  let self := mkFake (calls self ++ [CallUnregister id])
                (collision_ids self) (unregister_failures self) in
  (match unregister_failure self id with Some error => Err error | None => Ok tt end, self).

#[export] Instance fake_backend : HotkeyBackend FakeHotkeyState :=
  {| register := fake_register; unregister := fake_unregister |}.

(** The registrations the logged calls amount to. *)
Definition apply_call (self : FakeHotkeyState) (ids : gset Z) (call : HotkeyBackendCall) : gset Z :=
  match call with
  | CallRegister id _ _ => if contains (collision_ids self) id then ids else {[id]} ∪ ids
  | CallUnregister id => if is_some (unregister_failure self id) then ids else ids ∖ {[id]}
  end.

#[export, refine] Instance fake_lawful : LawfulHotkeyBackend FakeHotkeyState := {|
  registered self := fold_left (apply_call self) (calls self) ∅;
|}.
Proof.
  - intros id modifiers virtual_key b. simpl. unfold fake_register. simpl.
    destruct (contains (collision_ids b) id) eqn:Hc; simpl;
      rewrite fold_left_app; simpl; by rewrite Hc.
  - intros id b. simpl. unfold fake_unregister. simpl. rewrite fold_left_app. simpl.
    unfold unregister_failure. simpl. by destruct (List.find _ _).
Defined.

(** ** Identifiers *)

Lemma registration_id_inj a b : action_registration_id a = action_registration_id b → a = b.
Proof. by destruct a, b. Qed.

(** Identifiers and actions correspond, and no action's identifier is transient. *)
Lemma registration_id_round_trip a :
  action_from_registration_id (action_registration_id a) = Some a ∧
  action_registration_id a < TRANSIENT_HOTKEY_ID_START.
Proof. by destruct a. Qed.

Lemma elem_of_canonical a : a ∈ CANONICAL_ACTIONS.
Proof. unfold CANONICAL_ACTIONS. rewrite !elem_of_cons. destruct a; tauto. Qed.

Lemma NoDup_canonical : NoDup CANONICAL_ACTIONS.
Proof. by apply (bool_decide_unpack _). Qed.

(** ** Targets *)

Definition chord_of (bindings : HotkeyBindings) (action : HotkeyAction) : option HotkeyChord :=
  match action with
  | OverlayVisibility => overlay_visibility bindings
  | RotationToggle => rotation_toggle bindings
  | TemporaryInteraction => temporary_interaction bindings
  | InteractionLock => interaction_lock bindings
  end.

(** The first action bound to a chord. *)
Definition first_with (bindings : HotkeyBindings) (c : HotkeyChord) : option HotkeyAction :=
  List.find (λ action, bool_decide (chord_of bindings action = Some c)) CANONICAL_ACTIONS.

(** The target an action should have: its chord, unless an earlier action has it. *)
Definition expected_target (bindings : HotkeyBindings) (action : HotkeyAction) : Target :=
  match chord_of bindings action with
  | None => TgNone
  | Some c =>
      match first_with bindings c with
      | Some first => if bool_decide (first = action) then TgRegister c else TgDuplicate c first
      | None => TgRegister c
      end
  end.

Lemma target_chord_of (o : option HotkeyChord) f :
  target_chord (match o with
                | None => TgNone
                | Some c => match f c with None => TgRegister c | Some a => TgDuplicate c a end
                end) = o.
Proof. destruct o as [c|]; [|done]. by destruct (f c). Qed.

Lemma target_chord_first (o : option HotkeyChord) :
  target_chord (match o with None => TgNone | Some c => TgRegister c end) = o.
Proof. by destruct o. Qed.

Lemma resolve_targets_expected bindings action :
  resolve_targets bindings action = expected_target bindings action.
Proof.
  unfold resolve_targets, expected_target, first_with.
  destruct bindings as [c1 c2 c3 c4]. unfold action_chords. cbn [resolve_from app]. simpl chord_of.
  cbn [find_duplicate overlay_visibility rotation_toggle temporary_interaction interaction_lock].
  destruct action; cbn [action_index lookup list_lookup];
    cbn [CANONICAL_ACTIONS List.find chord_of overlay_visibility rotation_toggle
         temporary_interaction interaction_lock];
    rewrite ?target_chord_of.
  - destruct c1 as [c|]; [|done]. by rewrite bool_decide_true.
  - destruct c2 as [c|]; [|done]. cbn [find_duplicate]. rewrite ?target_chord_of, ?target_chord_first.
    repeat case_bool_decide; try done; congruence.
  - destruct c3 as [c|]; [|done]. cbn [find_duplicate]. rewrite ?target_chord_of, ?target_chord_first.
    repeat case_bool_decide; try done; congruence.
  - destruct c4 as [c|]; [|done]. cbn [find_duplicate]. rewrite ?target_chord_of, ?target_chord_first.
    repeat case_bool_decide; try done; congruence.
Qed.

(** ** Reports *)

Lemma build_report_active outcomes a : a ∈ rep_active (build_report outcomes) ↔ outcomes a = OcActive.
Proof.
  unfold build_report, report_action. simpl.
  destruct (outcomes OverlayVisibility) eqn:E1, (outcomes RotationToggle) eqn:E2,
    (outcomes TemporaryInteraction) eqn:E3, (outcomes InteractionLock) eqn:E4; simpl;
    rewrite ?elem_of_cons, ?elem_of_nil; destruct a; rewrite ?E1, ?E2, ?E3, ?E4; intuition congruence.
Qed.

Lemma build_report_disabled outcomes a reason :
  mkDisabled a reason ∈ rep_disabled (build_report outcomes) ↔ outcomes a = OcDisabled reason.
Proof.
  unfold build_report, report_action. simpl.
  destruct (outcomes OverlayVisibility) eqn:E1, (outcomes RotationToggle) eqn:E2,
    (outcomes TemporaryInteraction) eqn:E3, (outcomes InteractionLock) eqn:E4; simpl;
    rewrite ?elem_of_cons, ?elem_of_nil; destruct a; rewrite ?E1, ?E2, ?E3, ?E4; intuition congruence.
Qed.

Section RegistryProofs.
Context {B : Type} `{LawfulHotkeyBackend B}.
Implicit Types r : HotkeyRegistry B.

(** The registry knows exactly which of its identifiers are registered. *)
Definition coherent r : Prop :=
  ∀ a, action_registration_id a ∈ registered (backend r) ↔ is_some (active r a) = true.

(** An action's outcome and registration fit its target. *)
Definition settled (t : Target) (o : Outcome) (registration : option ActiveRegistration) : Prop :=
  match t with
  | TgNone => o = OcNone ∧ registration = None
  | TgDuplicate _ a => o = OcDisabled (DuplicateChord a) ∧ registration = None
  | TgRegister c =>
      (o = OcActive ∧ registration = Some (mkActive c)) ∨
      (o = OcDisabled OsCollision ∧ registration = None)
  end.

Record healthy r : Prop := {
  healthy_settled : ∀ a, settled (targets r a) (outcomes r a) (active r a);
  healthy_attempted : ∀ a, is_some (active r a) = true → unregister_attempted r a = false;
  healthy_report : initialized r = true → report r = Some (build_report (outcomes r));
}.

Lemma coherent_set r r' action value :
  coherent r → active r' = set action value (active r) →
  registered (backend r') =
    (if is_some value then {[action_registration_id action]} ∪ registered (backend r)
     else registered (backend r) ∖ {[action_registration_id action]}) →
  coherent r'.
Proof.
  intros Hc Ha Hr a. rewrite Ha, Hr. destruct (decide (a = action)) as [->|Hne].
  - rewrite set_same. destruct (is_some value); set_solver.
  - rewrite set_other by done. rewrite <- (Hc a).
    assert (action_registration_id a ≠ action_registration_id action) as Hid
      by (by intros ?%registration_id_inj).
    destruct (is_some value); set_solver.
Qed.

Lemma coherent_unset r r' action :
  coherent r → active r' = set action None (active r) →
  is_some (active r action) = false → registered (backend r') = registered (backend r) → coherent r'.
Proof.
  intros Hc Ha Hn Hr a. rewrite Ha, Hr. destruct (decide (a = action)) as [->|Hne].
  - rewrite set_same, (Hc action), Hn. done.
  - rewrite set_other by done. apply Hc.
Qed.

Lemma release_spec tg actions r :
  NoDup actions → coherent r →
  let '(res, r') := release tg actions r in
  coherent r' ∧ targets r' = targets r ∧ outcomes r' = outcomes r ∧ initialized r' = initialized r ∧
  match res with
  | Ok _ =>
      poisoned r' = poisoned r ∧
      (∀ a, active r' a = if decide (a ∈ actions ∧ tg a ≠ targets r a) then None else active r a) ∧
      (∀ a, is_some (active r' a) = true → unregister_attempted r' a = unregister_attempted r a)
  | Err e => poisoned r' = true ∧ report r' = None
  end.
Proof.
  revert r. induction actions as [|action actions IH]; intros r Hnd Hc; cbn [release].
  { split; [done|]. split; [done|]. split; [done|]. split; [done|]. split; [done|]. split; [|done].
    intros a. rewrite decide_False; [done|]. intros [Ha _]. by apply elem_of_nil in Ha. }
  apply NoDup_cons in Hnd as [Hnin Hnd]. case_bool_decide as Heq.
  { specialize (IH r Hnd Hc). destruct (release tg actions r) as [[u|e] r']; [|done].
    destruct IH as (? & ? & ? & ? & ? & Ha & ?). do 4 (split; [done|]). split; [done|]. split; [|done].
    intros a. rewrite Ha. destruct (decide (a ∈ actions ∧ _)) as [Hin|Hin],
      (decide (a ∈ action :: actions ∧ _)) as [Hin'|Hin']; rewrite elem_of_cons in *; try done.
    - destruct Hin'. tauto.
    - destruct Hin' as [[->|?] ?]; [done|]. tauto. }
  destruct (is_some (active r action)) eqn:Hact.
  - pose proof (unregister_registered (action_registration_id action) (backend r)) as Hu.
    cbv zeta. change (backend (r <| unregister_attempted ::= set action true |>)) with (backend r).
    destruct (unregister (action_registration_id action) (backend r)) as [[[]|e] b]; simpl in Hu.
    + set (r1 := (r <| unregister_attempted ::= set action true |> <| backend := b |>)
                  <| active ::= set action None |>).
      assert (coherent r1) as Hc1 by (by eapply (coherent_set r r1 action None)).
      specialize (IH r1 Hnd Hc1).
      cbv beta iota. change (release tg actions _) with (release tg actions r1).
      destruct (release tg actions r1) as [[[]|e]r']; [|by destruct IH].
      destruct IH as (? & ? & ? & ? & ? & Ha & Hatt). do 4 (split; [done|]). split; [done|]. split.
      * intros a. rewrite Ha. destruct (decide (a ∈ actions ∧ _)) as [Hin|Hin],
          (decide (a ∈ action :: actions ∧ _)) as [Hin'|Hin']; rewrite elem_of_cons in *; try done.
        -- destruct Hin'. tauto.
        -- destruct Hin' as [[->|?] ?]; [|tauto]. unfold r1. simpl. apply set_same.
        -- unfold r1. simpl. apply set_other. intros ->. tauto.
      * intros a Hs. rewrite (Hatt a Hs). unfold r1. simpl. apply set_other. intros ->.
        rewrite Ha in Hs. rewrite decide_False in Hs by tauto. unfold r1 in Hs. simpl in Hs.
        by rewrite set_same in Hs.
    + split; [|done]. intros a. simpl. rewrite Hu. apply Hc.
  - specialize (IH r Hnd Hc). destruct (release tg actions r) as [[u|e] r']; [|done].
    destruct IH as (? & ? & ? & ? & ? & Ha & ?). do 4 (split; [done|]). split; [done|]. split; [|done].
    intros a. rewrite Ha. destruct (decide (a ∈ actions ∧ _)) as [Hin|Hin],
      (decide (a ∈ action :: actions ∧ _)) as [Hin'|Hin']; rewrite elem_of_cons in *; try done.
    + destruct Hin'. tauto.
    + destruct Hin' as [[->|?] ?]; [|tauto]. by destruct (active r action).
Qed.

(** What handling one action leaves alone. *)
Definition same_except (action : HotkeyAction) r r' : Prop :=
  targets r' = targets r ∧ initialized r' = initialized r ∧ poisoned r' = poisoned r ∧
  ∀ a, a ≠ action →
    outcomes r' a = outcomes r a ∧ active r' a = active r a ∧
    unregister_attempted r' a = unregister_attempted r a.

Definition freshly_settled (t : Target) r (action : HotkeyAction) : Prop :=
  settled t (outcomes r action) (active r action) ∧
  (is_some (active r action) = true → unregister_attempted r action = false).

Lemma claim_chord_spec r action c :
  coherent r → is_some (active r action) = false →
  let '(o, r') := claim_chord r action c in
  coherent r' ∧ targets r' = targets r ∧
  match o with
  | Ok o =>
      let r'' := r' <| outcomes ::= set action o |> in
      coherent r'' ∧ same_except action r r'' ∧ freshly_settled (TgRegister c) r'' action
  | Err _ => poisoned r' = true ∧ report r' = None
  end.
Proof.
  intros Hc Hn. unfold claim_chord.
  pose proof (register_registered (action_registration_id action)
    (modifiers_to_native (modifiers c)) (virtual_key c) (backend r)) as Hr.
  destruct (register _ _ _ _) as [[u|e] b]; simpl in Hr.
  - cbv beta iota zeta.
    match goal with |- coherent ?x ∧ _ =>
      assert (coherent x) as Hc' by (by eapply (coherent_set r x action (Some (mkActive c)))) end.
    split; [done|]. split; [done|]. split; [done|]. split.
    + split; [done|]. split; [done|]. split; [done|]. intros a Ha. simpl. by rewrite !set_other.
    + split; simpl; rewrite !set_same; [by left|done].
  - case_bool_decide; cbv beta iota zeta.
    + match goal with |- coherent ?x ∧ _ =>
        assert (coherent x) as Hc' by (by eapply (coherent_unset r x action)) end.
      split; [done|]. split; [done|]. split; [done|]. split.
      * split; [done|]. split; [done|]. split; [done|]. intros a Ha. simpl. by rewrite !set_other.
      * split; simpl; rewrite !set_same; [by right|done].
    + split; [|done]. intros a. simpl. rewrite Hr. apply Hc.
Qed.

Lemma claim_spec tg actions r :
  NoDup actions → coherent r →
  (∀ a, a ∈ actions → tg a ≠ targets r a → is_some (active r a) = false) →
  let '(res, r') := claim tg actions r in
  coherent r' ∧ targets r' = targets r ∧
  match res with
  | Ok _ =>
      initialized r' = initialized r ∧ poisoned r' = poisoned r ∧
      ∀ a, if decide (a ∈ actions ∧ tg a ≠ targets r a) then freshly_settled (tg a) r' a
           else outcomes r' a = outcomes r a ∧ active r' a = active r a ∧
                unregister_attempted r' a = unregister_attempted r a
  | Err e => poisoned r' = true ∧ report r' = None
  end.
Proof.
  revert r. induction actions as [|action actions IH]; intros r Hnd Hc Hfree; cbn [claim].
  { split; [done|]. split; [done|]. split; [done|]. split; [done|].
    intros a. rewrite decide_False; [done|]. intros [Ha _]. by apply elem_of_nil in Ha. }
  apply NoDup_cons in Hnd as [Hnin Hnd]. case_bool_decide as Heq.
  { specialize (IH r Hnd Hc). destruct (claim tg actions r) as [[u|e] r'].
    2: { apply IH. intros a Ha. apply Hfree. by right. }
    destruct IH as (? & ? & ? & ? & Ha). { intros a Ha. apply Hfree. by right. }
    do 4 (split; [done|]). intros a. specialize (Ha a).
    destruct (decide (a ∈ action :: actions ∧ _)) as [[Hin Hne]|Hin'].
    - rewrite decide_True in Ha; [done|]. apply elem_of_cons in Hin as [->|]; done.
    - rewrite decide_False in Ha; [done|]. rewrite elem_of_cons in Hin'. tauto. }
  assert (is_some (active r action) = false) as Hact by (apply Hfree; [left|congruence]).
  (* the step for [action], then the rest *)
  assert (∀ o r1, coherent (r1 <| outcomes ::= set action o |>) →
    same_except action r (r1 <| outcomes ::= set action o |>) →
    freshly_settled (tg action) (r1 <| outcomes ::= set action o |>) action →
    let '(res, r') := claim tg actions (r1 <| outcomes ::= set action o |>) in
    coherent r' ∧ targets r' = targets r ∧
    match res with
    | Ok _ =>
        initialized r' = initialized r ∧ poisoned r' = poisoned r ∧
        ∀ a, if decide (a ∈ action :: actions ∧ tg a ≠ targets r a) then freshly_settled (tg a) r' a
             else outcomes r' a = outcomes r a ∧ active r' a = active r a ∧
                  unregister_attempted r' a = unregister_attempted r a
    | Err e => poisoned r' = true ∧ report r' = None
    end) as Hrest.
  { intros o r1. generalize (r1 <| outcomes ::= set action o |>). clear r1 o.
    intros r1 Hc1 (Ht & Hi & Hp & Hsame) Hfresh. specialize (IH r1 Hnd Hc1).
    assert (∀ a, a ∈ actions → tg a ≠ targets r1 a → is_some (active r1 a) = false) as Hfree1.
    { intros a Ha Hne. destruct (Hsame a) as (_ & -> & _); [by intros ->|].
      apply Hfree; [by right|by rewrite <- Ht]. }
    specialize (IH Hfree1). destruct (claim tg actions r1) as [[u|e] r'].
    2: { destruct IH as (? & ? & ?). split; [done|]. split; [congruence|done]. }
    destruct IH as (? & ? & ? & ? & Ha). split; [done|]. split; [congruence|]. split; [congruence|].
    split; [congruence|]. intros a. specialize (Ha a). rewrite Ht in Ha.
    destruct (decide (a = action)) as [->|Hne].
    - rewrite decide_False in Ha by tauto. destruct Ha as (E1 & E2 & E3).
      rewrite decide_True by (split; [left|done]). unfold freshly_settled. by rewrite E1, E2, E3.
    - destruct (decide (a ∈ action :: actions ∧ _)) as [[Hin Hn]|Hin'].
      + rewrite decide_True in Ha; [done|]. apply elem_of_cons in Hin as [->|]; done.
      + rewrite decide_False in Ha by (rewrite elem_of_cons in Hin'; tauto).
        destruct Ha as (-> & -> & ->). by apply Hsame. }
  assert (∀ o, settled (tg action) o None → coherent (r <| outcomes ::= set action o |>) ∧
    same_except action r (r <| outcomes ::= set action o |>) ∧
    freshly_settled (tg action) (r <| outcomes ::= set action o |>) action) as Hquiet.
  { intros o Ho. split; [done|]. split.
    - split; [done|]. split; [done|]. split; [done|]. intros a Ha. simpl. by rewrite set_other.
    - unfold freshly_settled. simpl. rewrite set_same. by destruct (active r action). }
  destruct (tg action) as [|c|c a] eqn:Htg.
  - destruct (Hquiet OcNone) as (? & ? & ?); [done|]. by apply Hrest.
  - pose proof (claim_chord_spec r action c Hc Hact) as Hclaim.
    destruct (claim_chord r action c) as [[o|e] r1]; [|by destruct Hclaim as (? & ? & ?)].
    destruct Hclaim as (_ & _ & ? & ? & ?). by apply Hrest.
  - destruct (Hquiet (OcDisabled (DuplicateChord a))) as (? & ? & ?); [done|]. by apply Hrest.
Qed.

Record registry_inv r : Prop := {
  reg_coherent : coherent r;
  reg_healthy : poisoned r = false → healthy r;
  reg_poisoned : poisoned r = true → report r = None;
}.

Lemma new_inv (b : B) : (∀ a, action_registration_id a ∉ registered b) → registry_inv (new b).
Proof.
  intros Hb. constructor; [|intros _; by constructor|done].
  intros a. simpl. split; [intros Ha; by destruct (Hb a)|done].
Qed.

Lemma targets_eq_true t1 t2 : targets_eq t1 t2 = true ↔ ∀ a, t1 a = t2 a.
Proof.
  unfold targets_eq. rewrite forallb_forall. split.
  - intros Hall a. specialize (Hall a). rewrite bool_decide_eq_true in Hall.
    apply Hall, list_elem_of_In, elem_of_canonical.
  - intros Hall a _. by rewrite bool_decide_eq_true.
Qed.

(** The outcomes of [replace]: the report of a healthy registry whose targets are
    those of the bindings, or an error that changes nothing or poisons. *)
Lemma replace_cases r bindings :
  registry_inv r →
  match replace r bindings with
  | (None, _) => False
  | (Some (Err e), r') => registry_inv r' ∧ (r' = r ∨ poisoned r' = true)
  | (Some (Ok rep), r') =>
      registry_inv r' ∧ poisoned r' = false ∧ initialized r' = true ∧
      validate_bindings bindings = Ok tt ∧
      (∀ a, targets r' a = resolve_targets bindings a) ∧ rep = build_report (outcomes r')
  end.
Proof.
  intros [Hc Hh Hp]. unfold replace. destruct (poisoned r) eqn:Hpo; [split; [by constructor; rewrite ?Hpo|by left]|].
  specialize (Hh eq_refl).
  destruct (validate_bindings bindings) as [[]|e] eqn:Hv;
    [|split; [by constructor; rewrite ?Hpo|by left]].
  destruct (initialized r && targets_eq (resolve_targets bindings) (targets r)) eqn:Hsame.
  { apply andb_true_iff in Hsame as [Hi Heq]. rewrite (healthy_report r Hh Hi). simpl.
    split; [by constructor; rewrite ?Hpo|]. do 3 (split; [done|]). split; [|done].
    intros a. symmetry. revert a. by apply targets_eq_true. }
  pose proof (release_spec (resolve_targets bindings) CANONICAL_ACTIONS r NoDup_canonical Hc) as H1.
  destruct (release _ _ r) as [[u1|e1] r1].
  2: { destruct H1 as (? & _ & _ & _ & Hp1 & ?). split; [|by right]. by constructor; rewrite ?Hp1. }
  destruct H1 as (Hc1 & Ht1 & Ho1 & Hi1 & Hp1 & Ha1 & Hatt1).
  pose proof (claim_spec (resolve_targets bindings) CANONICAL_ACTIONS r1 NoDup_canonical Hc1) as H2.
  destruct (claim _ _ r1) as [[u2|e2] r2].
  2: { destruct H2 as (? & _ & Hp2 & ?); [|split; [|by right]; by constructor; rewrite ?Hp2].
       intros a _ Hne. rewrite Ha1, Ht1 in *. by rewrite decide_True by (split; [apply elem_of_canonical|done]). }
  destruct H2 as (Hc2 & Ht2 & Hi2 & Hp2 & Ha2).
  { intros a _ Hne. rewrite Ha1, Ht1 in *. by rewrite decide_True by (split; [apply elem_of_canonical|done]). }
  cbn [fmap option_fmap option_map]. split; [|by rewrite <- Hpo, <- Hp1, <- Hp2].
  assert (∀ a, freshly_settled (resolve_targets bindings a) r2 a) as Hs.
  { intros a. specialize (Ha2 a). rewrite Ht1 in Ha2.
    destruct (decide (a ∈ CANONICAL_ACTIONS ∧ _)) as [_|Hno]; [done|].
    assert (resolve_targets bindings a = targets r a) as E.
    { destruct (decide (resolve_targets bindings a = targets r a)); [done|].
      destruct Hno. split; [apply elem_of_canonical|done]. }
    destruct Ha2 as (E1 & E2 & E3). unfold freshly_settled. rewrite E, E1, E2, E3, Ho1.
    specialize (Hatt1 a). rewrite Ha1 in *. rewrite decide_False in * by tauto.
    split; [apply (healthy_settled r Hh)|]. intros Hsome. rewrite Hatt1 by done.
    by apply (healthy_attempted r Hh). }
  constructor; simpl; [done| |by rewrite Hp2, Hp1, Hpo].
  intros _. constructor; [apply Hs|apply Hs|done].
Qed.
End RegistryProofs.

(** ** Properties *)

(** The states of a registry over a backend on which none of its identifiers was
    registered before. *)
Inductive reachable {B} `{LawfulHotkeyBackend B} : HotkeyRegistry B → Prop :=
| reachable_new b : (∀ a, action_registration_id a ∉ registered b) → reachable (new b)
| reachable_replace r bindings : reachable r → reachable (replace r bindings).2.

Lemma reachable_inv {B} `{LawfulHotkeyBackend B} (r : HotkeyRegistry B) :
  reachable r → registry_inv r.
Proof.
  induction 1 as [b Hb|r bindings _ IH]; [by apply new_inv|].
  pose proof (replace_cases r bindings IH) as Hr.
  destruct (replace r bindings) as [[[rep|e]|] r']; by destruct Hr.
Qed.

(** How one action stands after its bindings were installed. *)
Definition installed {B} `{LawfulHotkeyBackend B} (bindings : HotkeyBindings) (rep : HotkeyReport)
    (r : HotkeyRegistry B) (a : HotkeyAction) : Prop :=
  match expected_target bindings a with
  | TgNone => (a ∉ rep_active rep) ∧ action_registration_id a ∉ registered (backend r)
  | TgDuplicate _ first =>
      mkDisabled a (DuplicateChord first) ∈ rep_disabled rep ∧
      action_registration_id a ∉ registered (backend r)
  | TgRegister c =>
      (a ∈ rep_active rep ∧ active r a = Some (mkActive c) ∧
       action_registration_id a ∈ registered (backend r)) ∨
      (mkDisabled a OsCollision ∈ rep_disabled rep ∧
       action_registration_id a ∉ registered (backend r))
  end.

(** C3: on any lawful backend the registry and the operating system agree. A
    successful [replace] leaves every action installed as its binding asks: the first
    action with a chord registered or reported as a collision, later ones reported as
    duplicates, unbound ones unregistered; repeating it calls the backend no more. A
    failing one changes nothing or poisons the registry, which still knows what is
    registered. *)
Theorem replace_installs {B} `{LawfulHotkeyBackend B} (r : HotkeyRegistry B)
    (bindings : HotkeyBindings) :
  reachable r →
  match replace r bindings with
  | (None, _) => False
  | (Some (Err e), r') =>
      coherent r' ∧ (r' = r ∨ poisoned r' = true ∧ effective_report r' = None)
  | (Some (Ok rep), r') =>
      (∀ a, installed bindings rep r' a) ∧ effective_report r' = Some rep ∧
      replace r' bindings = (Some (Ok rep), r')
  end.
Proof.
  intros Hr%reachable_inv. pose proof (replace_cases r bindings Hr) as Hc.
  destruct (replace r bindings) as [[[rep|e]|] r']; [| |done].
  - destruct Hc as ([Hco Hh _] & Hp & Hi & Hv & Ht & ->). destruct (Hh Hp) as [Hs _ Hrep]. split; [|split].
    + intros a. unfold installed. specialize (Hs a). specialize (Hco a).
      rewrite Ht, resolve_targets_expected in Hs.
      destruct (expected_target bindings a) as [|c|c first]; simpl in Hs;
        rewrite ?build_report_active, ?build_report_disabled.
      * destruct Hs as [Ho Ha]. rewrite Ha in Hco. rewrite Ho. split; [done|]. by rewrite Hco.
      * destruct Hs as [[Ho Ha]|[Ho Ha]]; rewrite Ha in Hco; rewrite Ho; [left|right].
        -- split; [done|]. split; [done|]. by apply Hco.
        -- split; [done|]. by rewrite Hco.
      * destruct Hs as [Ho Ha]. rewrite Ha in Hco. rewrite Ho. split; [done|]. by rewrite Hco.
    + unfold effective_report. rewrite Hp. by apply Hrep.
    + unfold replace. rewrite Hp, Hv, Hi, (Hrep Hi).
      assert (targets_eq (resolve_targets bindings) (targets r') = true) as ->
        by (apply targets_eq_true; intros a; by rewrite Ht).
      done.
  - destruct Hc as [[Hco _ Hpo] Hcase]. split; [done|].
    destruct Hcase as [?|Hp]; [by left|right]. split; [done|]. unfold effective_report. by rewrite Hp.
Qed.

Definition demo_bindings : HotkeyBindings :=
  let c := mkHotkeyChord (mkHotkeyModifiers true false true false) 0x4D in
  mkHotkeyBindings (Some c) (Some c) (Some (mkHotkeyChord (mkHotkeyModifiers false true false false) 0x50))
    None.

Lemma replace_installs_witness :
  let r := new (mkFake [] [action_registration_id TemporaryInteraction] []) in
  let '(res, r') := replace r demo_bindings in
  res = Some (Ok (mkReport [OverlayVisibility]
                    [mkDisabled RotationToggle (DuplicateChord OverlayVisibility);
                     mkDisabled TemporaryInteraction OsCollision])) ∧
  action_registration_id OverlayVisibility ∈ registered (backend r').
Proof.
  intros r.
  assert (reachable r) as Hr by (constructor; intros a; simpl; set_solver).
  pose proof (replace_installs r demo_bindings Hr) as Hi.
  destruct (replace r demo_bindings) as [res r'] eqn:E. vm_compute in E. injection E as <- <-.
  split; [reflexivity|]. destruct Hi as [Hi _]. specialize (Hi OverlayVisibility).
  destruct Hi as [[_ [_ Hin]]|[Hd _]]; [exact Hin|].
  exfalso. simpl in Hd. rewrite !elem_of_cons, elem_of_nil in Hd.
  destruct Hd as [Hd|[Hd|[]]]; discriminate Hd.
Defined.
