(* ===== verification/Tracker.v ===== *)
(** * The game-window tracker

    Models [crates/pal-windows/src/tracker.rs] and the observations and backends of
    [crates/pal-windows/src/backend.rs]: which top-level window is the game's, and
    the events a poll reports when it changes. The trait [WindowBackend] is a class
    without laws; [FakeWindowBackend] is an instance. *)

From S2P Require Import Prelude Floats Settings Position View.

(** [WindowId] and [MonitorId] are [u64] newtypes. *)
Definition WindowId : Type := N.
Definition MonitorId : Type := N.

Record PhysicalClientRect := mkRect { left : Z; top : Z; width : N; height : N }.
#[export] Instance PhysicalClientRect_eq_dec : EqDecision PhysicalClientRect.
Proof. solve_decision. Defined.

(** The product of two [u32] fits a [u64]. *)
Definition area (self : PhysicalClientRect) : N := width self * height self.

(** [WindowObservation] and [WindowObservationParts] have the same fields. *)
Record WindowObservation := mkObservation {
  id : WindowId;
  monitor_id : MonitorId;
  process_id : N;
  image_path : string;
  window_title : string;
  client_rect : PhysicalClientRect;
  dpi : N;
  visible : bool;
  top_level : bool;
  foreground : bool;
  minimized : bool;
  inspectable : bool;
}.
#[export] Instance WindowObservation_eq_dec : EqDecision WindowObservation.
Proof. solve_decision. Defined.

Definition is_path_separator (c : ascii) : bool :=
  (N_of_ascii c =? 92) || (N_of_ascii c =? 47).

(** The text after the last separator. *)
Fixpoint basename_from (segment : string) (path : string) : string :=
  match path with
  | EmptyString => segment
  | String c path =>
      if is_path_separator c then basename_from EmptyString path
      else basename_from (segment +:+ String c EmptyString) path
  end.
Definition image_basename (self : WindowObservation) : string :=
  basename_from EmptyString (image_path self).

Definition to_ascii_lowercase (b : N) : N := if is_ascii_uppercase b then b + 32 else b.
Definition eq_ignore_ascii_case (s1 s2 : string) : bool :=
  bool_decide (to_ascii_lowercase <$> str_bytes s1 = to_ascii_lowercase <$> str_bytes s2).

(** ** Backends *)

Inductive WindowBackendOperation := Inspect | EnumerateTopLevel.
#[export] Instance WindowBackendOperation_eq_dec : EqDecision WindowBackendOperation.
Proof. solve_decision. Defined.

Record WindowBackendError := mkWindowBackendError { operation : WindowBackendOperation; code : N }.
#[export] Instance WindowBackendError_eq_dec : EqDecision WindowBackendError.
Proof. solve_decision. Defined.

Class WindowBackend (B : Type) := {
  inspect : WindowId → B → result (option WindowObservation) WindowBackendError * B;
  enumerate_top_level : B → result (list WindowObservation) WindowBackendError * B;
}.

Record FakeWindowCalls := mkFakeCalls { inspected : list WindowId; enumerated : N }.
Record FakeWindowState := mkFakeWindow {
  fake_windows : list WindowObservation;
  fake_calls : FakeWindowCalls;
  inspection_errors : list (WindowId * WindowBackendError);
  enumeration_error : option WindowBackendError;
}.
#[export] Instance eta_FakeWindowCalls : Eta FakeWindowCalls := λ c,
  mkFakeCalls (inspected c) (enumerated c).
#[export] Instance eta_FakeWindowState : Eta FakeWindowState := λ s,
  mkFakeWindow (fake_windows s) (fake_calls s) (inspection_errors s) (enumeration_error s).

Definition with_windows (windows : list WindowObservation) : FakeWindowState :=
  mkFakeWindow windows (mkFakeCalls [] 0) [] None.

Definition fail_inspection (self : FakeWindowState) (i : WindowId) (error : WindowBackendError) :
    FakeWindowState :=
  self <| inspection_errors ::= λ errors,
    retain (λ failure, negb (failure.1 =? i)) errors ++ [(i, error)] |>.

Definition fake_inspect (i : WindowId) (self : FakeWindowState) :
    result (option WindowObservation) WindowBackendError * FakeWindowState :=
  let self := self <| fake_calls ::= λ c, c <| inspected ::= λ l, l ++ [i] |> |> in
  match List.find (λ failure, failure.1 =? i) (inspection_errors self) with
  | Some (_, error) => (Err error, self)
  | None => (Ok (List.find (λ w, id w =? i) (fake_windows self)), self)
  end.

Definition fake_enumerate (self : FakeWindowState) :
    result (list WindowObservation) WindowBackendError * FakeWindowState :=
  let self := self <| fake_calls ::= λ c, c <| enumerated ::= N.succ |> |> in
  match enumeration_error self with
  | Some error => (Err error, self)
  | None => (Ok (fake_windows self), self)
  end.

#[export] Instance fake_window_backend : WindowBackend FakeWindowState :=
  {| inspect := fake_inspect; enumerate_top_level := fake_enumerate |}.

(** ** The tracker *)

Definition PALWORLD_IMAGE_NAME : string := "Palworld-Win64-Shipping.exe".

Record TrackedWindow := mkTracked {
  tw_id : WindowId;
  tw_monitor_id : MonitorId;
  tw_image_path : string;
  tw_snapshot : WindowSnapshot.t;
}.
#[export] Instance TrackedWindow_eq_dec : EqDecision TrackedWindow.
Proof. solve_decision. Defined.

Inductive WindowEvent :=
| Attached (window : TrackedWindow)
| Changed (previous current : TrackedWindow)
| Detached (previous : TrackedWindow).
#[export] Instance WindowEvent_eq_dec : EqDecision WindowEvent.
Proof. solve_decision. Defined.

Inductive TrackerErrorCategory := InvalidSelectedSnapshot.
Inductive TrackerError :=
| Backend (error : WindowBackendError)
| Materialization (category : TrackerErrorCategory) (field : string).

Record GameWindowTracker (B : Type) := mkTracker { backend : B; current : option TrackedWindow }.
Arguments mkTracker {B}.
Arguments backend {B}.
Arguments current {B}.

Definition has_valid_identity (o : WindowObservation) : bool :=
  inspectable o && top_level o && eq_ignore_ascii_case (image_basename o) PALWORLD_IMAGE_NAME
  && negb (dpi o =? 0).

Definition has_visible_client_geometry (o : WindowObservation) : bool :=
  negb (width (client_rect o) =? 0) && negb (height (client_rect o) =? 0).

Definition is_valid_candidate (o : WindowObservation) : bool :=
  visible o && has_valid_identity o && has_visible_client_geometry o.

Definition is_valid_current_candidate (o : WindowObservation) : bool :=
  (visible o || minimized o) && has_valid_identity o
  && (minimized o || has_visible_client_geometry o).

(** [bool::cmp] and [Ordering::then_with]. *)
Definition bool_cmp (a b : bool) : comparison :=
  match a, b with
  | false, true => Lt | true, false => Gt | _, _ => Eq
  end.
Definition then_with (c1 c2 : comparison) : comparison :=
  match c1 with Eq => c2 | _ => c1 end.

Definition candidate_order (l r : WindowObservation) : comparison :=
  then_with (then_with (bool_cmp (foreground r) (foreground l))
                       (area (client_rect r) ?= area (client_rect l)))
            (id l ?= id r).

(** [Iterator::min_by]: the first of the least elements. *)
Definition min_by {A} (cmp : A → A → comparison) (l : list A) : option A :=
  match l with
  | [] => None
  | a :: l => Some (fold_left (λ best b, match cmp best b with Gt => b | _ => best end) l a)
  end.

Definition materialize_with_rect (o : WindowObservation) (l t : Z) (w h : N) :
    result TrackedWindow TrackerError :=
  let? snapshot :=
    map_err (λ e, Materialization InvalidSelectedSnapshot (WindowSnapshot.field e))
      (WindowSnapshot.new (process_id o) l t w h (dpi o) (visible o) (foreground o) (minimized o)) in
  Ok (mkTracked (id o) (monitor_id o) (image_path o) snapshot).

Definition materialize (o : WindowObservation) : result TrackedWindow TrackerError :=
  let rect := client_rect o in
  materialize_with_rect o (left rect) (top rect) (width rect) (height rect).

Definition materialize_current (o : WindowObservation) (previous : TrackedWindow) :
    result TrackedWindow TrackerError :=
  let rect := client_rect o in
  if minimized o && ((width rect =? 0) || (height rect =? 0)) then
    let snapshot := tw_snapshot previous in
    materialize_with_rect o (WindowSnapshot.client_left snapshot) (WindowSnapshot.client_top snapshot)
      (WindowSnapshot.client_width snapshot) (WindowSnapshot.client_height snapshot)
  else materialize o.

Section Tracker.
Context {B : Type} `{WindowBackend B}.

Definition new (b : B) : GameWindowTracker B := mkTracker b None.

(** Whether the observation is of the window tracked so far. *)
Definition still_current (previous : TrackedWindow) (o : WindowObservation) : bool :=
  (id o =? tw_id previous) && (process_id o =? WindowSnapshot.process_id (tw_snapshot previous))
  && is_valid_current_candidate o.

(** The second half of [poll]: the best candidate of all top-level windows. *)
Definition poll_candidates (self : GameWindowTracker B) :
    result (option WindowEvent) TrackerError * GameWindowTracker B :=
  let '(windows, b) := enumerate_top_level (backend self) in
  match windows with
  | Err e => (Err (Backend e), mkTracker b (current self))
  | Ok windows =>
      match min_by candidate_order (retain is_valid_candidate windows) with
      | None => (Ok (Detached <$> current self), mkTracker b None)
      | Some observation =>
          match materialize observation with
          | Err e => (Err e, mkTracker b (current self))
          | Ok window =>
              let event :=
                match current self with
                | Some previous =>
                    if (tw_id previous =? tw_id window)
                       && (WindowSnapshot.process_id (tw_snapshot previous) =?
                           WindowSnapshot.process_id (tw_snapshot window))
                    then if bool_decide (previous = window) then None
                         else Some (Changed previous window)
                    else Some (Attached window)
                | None => Some (Attached window)
                end in
              (Ok event, mkTracker b (Some window))
          end
      end
  end.

Definition poll (self : GameWindowTracker B) :
    result (option WindowEvent) TrackerError * GameWindowTracker B :=
  match current self with
  | None => poll_candidates self
  | Some previous =>
      let '(inspected, b) := inspect (tw_id previous) (backend self) in
      let self := mkTracker b (current self) in
      match inspected with
      | Ok (Some observation) =>
          if still_current previous observation then
            match materialize_current observation previous with
            | Err e => (Err e, self)
            | Ok window =>
                if bool_decide (window = previous) then (Ok None, self)
                else (Ok (Some (Changed previous window)), mkTracker b (Some window))
            end
          else poll_candidates self
      | _ => poll_candidates self
      end
  end.
End Tracker.

(** ** Selection *)

(** The order of candidates: in the foreground first, then larger, then by handle. *)
Definition before (a b : WindowObservation) : Prop :=
  (foreground a = true ∧ foreground b = false) ∨
  (foreground a = foreground b ∧
   (area (client_rect b) < area (client_rect a) ∨
    (area (client_rect a) = area (client_rect b) ∧ id a < id b))).

Lemma candidate_order_gt a b : candidate_order a b = Gt ↔ before b a.
Proof.
  unfold candidate_order, before. destruct (foreground a), (foreground b); simpl;
    destruct (N.compare_spec (area (client_rect b)) (area (client_rect a))); simpl;
    try destruct (N.compare_spec (id a) (id b)); intuition (try congruence; try lia).
Qed.

Lemma before_trans a b c : before a b → before b c → before a c.
Proof.
  unfold before. destruct (foreground a), (foreground b), (foreground c); intuition (try congruence; try lia).
Qed.

Lemma before_irrefl a : ¬ before a a.
Proof. unfold before. destruct (foreground a); intuition (try congruence; try lia). Qed.

Lemma before_total a b : before a b ∨ before b a ∨
  (foreground a = foreground b ∧ area (client_rect a) = area (client_rect b) ∧ id a = id b).
Proof.
  unfold before. destruct (foreground a), (foreground b), (N.lt_trichotomy (id a) (id b)) as [|[|]],
    (N.lt_trichotomy (area (client_rect a)) (area (client_rect b))) as [|[|]]; intuition lia.
Qed.

(** [min_by] returns an element that no other precedes. *)
Lemma min_by_least l best :
  min_by candidate_order l = Some best → best ∈ l ∧ ∀ o, o ∈ l → ¬ before o best.
Proof.
  destruct l as [|a l]; [done|]. simpl. intros [= <-].
  assert (∀ l a, let best := fold_left (λ best b, match candidate_order best b with
      | Gt => b | _ => best end) l a in
    (best = a ∨ before best a ∧ best ∈ l) ∧ ∀ o, o ∈ l → ¬ before o best) as Hfold.
  { clear. induction l as [|b l IH]; intros a; simpl.
    - split; [by left|]. intros o Ho. by apply elem_of_nil in Ho.
    - destruct (candidate_order a b) eqn:Hab.
      3: { apply candidate_order_gt in Hab. destruct (IH b) as [Hbest Hmin]. split.
           - right. destruct Hbest as [->|[? ?]]; [split; [done|by left]|].
             split; [by eapply before_trans|by right].
           - intros o [->|Ho]%elem_of_cons; [|by apply Hmin]. destruct Hbest as [->|[? _]];
               [apply before_irrefl|]. intros ?. by eapply before_irrefl, before_trans. }
      all: destruct (IH a) as [Hbest Hmin]; split;
        [destruct Hbest as [?|[? ?]]; [by left|right; split; [done|by right]]|].
      all: intros o [->|Ho]%elem_of_cons; [|by apply Hmin]; intros Hb.
      all: assert (before b a) as Hba by
        (destruct Hbest as [Heq|[? _]]; [by rewrite Heq in Hb|by eapply before_trans]).
      all: apply candidate_order_gt in Hba; congruence. }
  destruct (Hfold l a) as [Hbest Hmin]. split.
  - destruct Hbest as [->|[_ ?]]; [by left|by right].
  - intros o [->|Ho]%elem_of_cons; [|by apply Hmin]. destruct Hbest as [->|[? _]];
      [apply before_irrefl|]. intros ?. by eapply before_irrefl, before_trans.
Qed.

Lemma min_by_none {A} (cmp : A → A → comparison) l : min_by cmp l = None ↔ l = [].
Proof. by destruct l. Qed.

(** ** Invariant *)

(** A tracked window has an area and a scale, minimized or not. *)
Definition sized (w : TrackedWindow) : Prop :=
  WindowSnapshot.client_width (tw_snapshot w) ≠ 0 ∧
  WindowSnapshot.client_height (tw_snapshot w) ≠ 0 ∧ WindowSnapshot.dpi (tw_snapshot w) ≠ 0.

Definition tracker_inv {B} (t : GameWindowTracker B) : Prop := ∀ w, current t = Some w → sized w.

Lemma materialize_with_rect_some o l t w h :
  w ≠ 0 → h ≠ 0 → dpi o ≠ 0 →
  ∃ window, materialize_with_rect o l t w h = Ok window ∧ sized window ∧ tw_id window = id o ∧
    WindowSnapshot.process_id (tw_snapshot window) = process_id o.
Proof.
  intros Hw Hh Hd. unfold materialize_with_rect, WindowSnapshot.new, WindowSnapshot.validate. simpl.
  apply N.eqb_neq in Hw as Hw', Hh as Hh', Hd as Hd'. rewrite Hw', Hh', Hd'.
  destruct (visible o); simpl; by eexists.
Qed.

Lemma materialize_candidate o :
  is_valid_candidate o = true →
  ∃ window, materialize o = Ok window ∧ sized window ∧ tw_id window = id o ∧
    WindowSnapshot.process_id (tw_snapshot window) = process_id o.
Proof.
  unfold is_valid_candidate, has_valid_identity, has_visible_client_geometry. intros Hv. reflect_bool.
  by apply materialize_with_rect_some.
Qed.

Lemma materialize_still_current previous o :
  sized previous → still_current previous o = true →
  ∃ window, materialize_current o previous = Ok window ∧ sized window ∧ tw_id window = id o ∧
    WindowSnapshot.process_id (tw_snapshot window) = process_id o.
Proof.
  intros (Hw & Hh & _). unfold still_current, is_valid_current_candidate, has_valid_identity. intros Hv.
  reflect_bool. unfold materialize_current, materialize.
  destruct (minimized o && _) eqn:Hm; [by apply materialize_with_rect_some|].
  apply materialize_with_rect_some; try done; unfold has_visible_client_geometry in *;
    destruct (minimized o); simpl in *; reflect_bool; destruct_or?; reflect_bool; try done; congruence.
Qed.

(** What an event says of the tracked window before and after it. *)
Definition event_exact (before after : option TrackedWindow) (e : option WindowEvent) : Prop :=
  match e with
  | None => after = before
  | Some (Attached w) => after = Some w
  | Some (Changed previous w) =>
      before = Some previous ∧ after = Some w ∧ previous ≠ w ∧ tw_id previous = tw_id w
  | Some (Detached previous) => before = Some previous ∧ after = None
  end.

(** A best candidate among the windows enumerated. *)
Definition best_candidate (windows : list WindowObservation) (o : WindowObservation) : Prop :=
  o ∈ windows ∧ is_valid_candidate o = true ∧
  ∀ o', o' ∈ windows → is_valid_candidate o' = true → ¬ before o' o.

Section TrackerProofs.
Context {B : Type} `{WindowBackend B}.
Implicit Types t : GameWindowTracker B.

Lemma poll_candidates_spec t :
  let '(windows, b) := enumerate_top_level (backend t) in
  let '(r, t') := poll_candidates t in
  backend t' = b ∧
  match windows with
  | Err e => r = Err (Backend e) ∧ current t' = current t
  | Ok windows =>
      ∃ e, r = Ok e ∧ event_exact (current t) (current t') e ∧
        match current t' with
        | None => ∀ o, o ∈ windows → is_valid_candidate o = false
        | Some w => sized w ∧ ∃ o, best_candidate windows o ∧ materialize o = Ok w ∧ tw_id w = id o
        end
  end.
Proof.
  unfold poll_candidates. destruct (enumerate_top_level (backend t)) as [[windows|e] b]; [|done].
  destruct (min_by candidate_order (retain is_valid_candidate windows)) as [o|] eqn:Hmin.
  - apply min_by_least in Hmin as [Hin Hleast]. apply elem_of_retain in Hin as [Hin Hv].
    destruct (materialize_candidate o Hv) as (w & Hw & Hs & Hid & Hpid). rewrite Hw. simpl.
    split; [done|]. eexists. split; [done|]. split.
    + destruct (current t) as [previous|]; [|done].
      destruct (N.eqb_spec (tw_id previous) (tw_id w)); simpl; [|done].
      destruct (_ =? _); simpl; [|done]. case_bool_decide; simpl; [by subst|done].
    + split; [done|]. exists o. split; [|by rewrite Hw]. split; [done|]. split; [done|].
      intros o' Ho' Hv'. by apply Hleast, elem_of_retain.
  - apply min_by_none in Hmin. simpl. split; [done|]. eexists. split; [done|]. split.
    + by destruct (current t).
    + intros o Ho. destruct (is_valid_candidate o) eqn:Hv; [|done].
      assert (o ∈ retain is_valid_candidate windows) as Hin by (by apply elem_of_retain).
      rewrite Hmin in Hin. by apply elem_of_nil in Hin.
Qed.

(** The windows a poll may keep: the one it inspected, if that is still the game's. *)
Definition keeps t : option WindowObservation :=
  match current t with
  | None => None
  | Some previous =>
      match (inspect (tw_id previous) (backend t)).1 with
      | Ok (Some o) => if still_current previous o then Some o else None
      | _ => None
      end
  end.

(** The backend after the inspection. *)
Definition inspected_backend t : B :=
  match current t with
  | None => backend t
  | Some previous => (inspect (tw_id previous) (backend t)).2
  end.

Lemma poll_keeps t previous o :
  tracker_inv t → current t = Some previous → keeps t = Some o →
  ∃ w e, materialize_current o previous = Ok w ∧ sized w ∧ tw_id w = tw_id previous ∧
    poll t = (Ok e, mkTracker (inspected_backend t) (Some w)) ∧
    event_exact (current t) (Some w) e.
Proof.
  intros Hi Hc. unfold keeps, poll, inspected_backend. rewrite Hc.
  destruct (inspect (tw_id previous) (backend t)) as [[[o'|]|e] b]; simpl; try done.
  destruct (still_current previous o') eqn:Hs; [|done]. intros [= ->].
  destruct (materialize_still_current previous o) as (w & Hw & Hsz & Hid & _);
    [by apply Hi|done|]. rewrite Hw.
  assert (tw_id w = tw_id previous) as Hid'
    by (unfold still_current in Hs; reflect_bool; congruence).
  case_bool_decide as Heq.
  - subst w. exists previous, None. do 4 (split; [done|]). done.
  - exists w, (Some (Changed previous w)). do 4 (split; [done|]).
    split; [done|]. split; [done|]. split; [congruence|done].
Qed.

Lemma poll_rescans t :
  keeps t = None → poll t = poll_candidates (mkTracker (inspected_backend t) (current t)).
Proof.
  unfold keeps, poll, inspected_backend. destruct (current t) as [previous|] eqn:Hc; [|by destruct t; simpl in *; subst].
  destruct (inspect (tw_id previous) (backend t)) as [[[o|]|e] b]; simpl; try done.
  by destruct (still_current previous o).
Qed.
End TrackerProofs.

(** ** Properties *)

(** The states of a tracker. *)
Inductive tracked {B} `{WindowBackend B} : GameWindowTracker B → Prop :=
| tracked_new b : tracked (new b)
| tracked_poll t : tracked t → tracked (poll t).2
| tracked_backend t b : tracked t → tracked (mkTracker b (current t)).

Lemma tracked_inv {B} `{WindowBackend B} (t : GameWindowTracker B) : tracked t → tracker_inv t.
Proof.
  induction 1 as [b|t _ IH|t b _ IH]; [done| |done].
  destruct (keeps t) as [o|] eqn:Hk.
  - destruct (current t) as [previous|] eqn:Hc; [|by unfold keeps in Hk; rewrite Hc in Hk].
    destruct (poll_keeps t previous o IH Hc Hk) as (w & e & _ & Hs & _ & -> & _).
    by intros w' [= <-].
  - rewrite poll_rescans by done.
    pose proof (poll_candidates_spec (mkTracker (inspected_backend t) (current t))) as Hp. simpl in Hp.
    destruct (enumerate_top_level (inspected_backend t)) as [[windows|e] b],
      (poll_candidates _) as [r t'].
    + destruct Hp as (_ & e & _ & _ & Hc). intros w Hw. simpl in Hw. rewrite Hw in Hc. by destruct Hc.
    + destruct Hp as (_ & _ & Hc). intros w Hw. apply IH. simpl in Hw. by rewrite Hc in Hw.
Qed.

(** C13: the events of the tracker say exactly what happened to the tracked window,
    for every behaviour of the backend: replaying them reconstructs it, a change is
    reported only between different states of one window, an error of the backend
    leaves the tracked window alone, and the internal error of materializing an
    invalid window never occurs. *)
Theorem poll_events_exact {B} `{WindowBackend B} (t : GameWindowTracker B) :
  tracked t →
  let '(r, t') := poll t in
  match r with
  | Ok e => event_exact (current t) (current t') e
  | Err (Backend _) => current t' = current t
  | Err (Materialization _ _) => False
  end ∧ ∀ w, current t' = Some w → sized w.
Proof.
  intros Ht. pose proof (tracked_inv _ (tracked_poll t Ht)) as Hinv. apply tracked_inv in Ht.
  destruct (keeps t) as [o|] eqn:Hk.
  - destruct (current t) as [previous|] eqn:Hc; [|by unfold keeps in Hk; rewrite Hc in Hk].
    destruct (poll_keeps t previous o Ht Hc Hk) as (w & e & _ & _ & _ & Hp & He).
    rewrite Hp in *. rewrite ?Hc in He. by split.
  - rewrite poll_rescans in * by done.
    pose proof (poll_candidates_spec (mkTracker (inspected_backend t) (current t))) as Hp. simpl in Hp.
    destruct (enumerate_top_level (inspected_backend t)) as [[windows|e] b],
      (poll_candidates _) as [r t'].
    + destruct Hp as (_ & e & -> & He & _). by split.
    + destruct Hp as (_ & -> & Hc). by split.
Qed.

(** The tracker stays with its window as long as the backend still shows it as
    the game's, without looking at other windows. Otherwise it takes a candidate no
    other candidate precedes, in the foreground first, then by area, then by handle,
    and none only when there is no candidate. *)
Theorem poll_selects_best {B} `{WindowBackend B} (t : GameWindowTracker B) :
  tracked t →
  let t' := (poll t).2 in
  match keeps t with
  | Some o =>
      backend t' = inspected_backend t ∧
      ∃ previous w, current t = Some previous ∧ current t' = Some w ∧
        materialize_current o previous = Ok w ∧ tw_id w = tw_id previous
  | None =>
      match enumerate_top_level (inspected_backend t) with
      | (Err e, b) => backend t' = b ∧ current t' = current t
      | (Ok windows, b) =>
          backend t' = b ∧
          match current t' with
          | None => ∀ o, o ∈ windows → is_valid_candidate o = false
          | Some w => ∃ o, best_candidate windows o ∧ materialize o = Ok w
          end
      end
  end.
Proof.
  intros Ht%tracked_inv. destruct (keeps t) as [o|] eqn:Hk; simpl.
  - destruct (current t) as [previous|] eqn:Hc; [|by unfold keeps in Hk; rewrite Hc in Hk].
    destruct (poll_keeps t previous o Ht Hc Hk) as (w & e & Hw & _ & Hid & -> & _).
    split; [done|]. by exists previous, w.
  - rewrite poll_rescans by done.
    pose proof (poll_candidates_spec (mkTracker (inspected_backend t) (current t))) as Hp. simpl in Hp.
    destruct (enumerate_top_level (inspected_backend t)) as [[windows|e] b],
      (poll_candidates _) as [r t']; simpl.
    + destruct Hp as (Hb & e & _ & _ & Hc). split; [done|].
      destruct (current t') as [w|]; [|done]. destruct Hc as (_ & o & Ho & Hm & _). by exists o.
    + by destruct Hp as (? & _ & ?).
Qed.

Definition demo_window (i : N) (w h : N) (fg : bool) : WindowObservation :=
  mkObservation i 1 42 "C:\games\PALWORLD-win64-shipping.EXE" "Pal" (mkRect 0 0 w h) 96 true true fg
    false true.

Lemma poll_events_exact_witness :
  let t := new (with_windows [demo_window 3 800 600 false; demo_window 9 640 480 true]) in
  match poll t with
  | (Ok (Some (Attached w)), t') => tw_id w = 9 ∧ current t' = Some w
  | _ => False
  end.
Proof.
  intros t. pose proof (poll_events_exact t (tracked_new _)) as [H _].
  destruct (poll t) as [r t'] eqn:E. vm_compute in E. injection E as <- <-. split; [reflexivity|].
  exact H.
Defined.

Lemma poll_selects_best_witness :
  let windows := [demo_window 3 800 600 false; demo_window 9 640 480 true; demo_window 4 640 480 true] in
  let t := new (with_windows windows) in
  ∃ o, best_candidate windows o ∧ id o = 4.
Proof.
  intros windows t. pose proof (poll_selects_best t (tracked_new _)) as H.
  assert (keeps t = None) as Hk by reflexivity. cbv zeta in H. rewrite Hk in H.
  assert (enumerate_top_level (inspected_backend t) =
    (Ok windows, (enumerate_top_level (inspected_backend t)).2)) as He by reflexivity.
  rewrite He in H. destruct H as [_ H].
  destruct (current (poll t).2) as [w|] eqn:Hw; [|vm_compute in Hw; discriminate].
  destruct H as (o & Ho & Hm). exists o. split; [exact Ho|].
  destruct Ho as (Hin & _). vm_compute in Hw. injection Hw as <-.
  unfold windows in Hin. rewrite !elem_of_cons, elem_of_nil in Hin.
  destruct Hin as [->|[->|[->|[]]]]; [vm_compute in Hm; discriminate..|reflexivity].
Defined.
