(* ===== verification/Breeding.v ===== *)
(** * The breeding solver

    Models [crates/pal-companion-service/src/breeding.rs]: the search for the least
    number of generations in which a target species can be bred from owned Pals, and
    the plan it returns. The [while] loop runs with a fuel of the node budget plus
    two, which [solve_cases] shows to be enough; [None] is out of fuel or a
    failed [expect]. *)

From S2P Require Import Prelude.

Definition MAX_RULES : N := 1048576.
Definition MAX_OWNED_PALS : N := 10000.
Definition MAX_GENERATIONS : N := 32.
Definition MAX_NODE_BUDGET : N := 2000000.

Record OwnedPalSeed := mkPal {
  pal_instance_id_hex : string;
  pal_species_id : string;
  passive_ids : list string;
}.

Record BreedingRule := mkRule {
  rule_id : string;
  parent_a_species_id : string;
  parent_b_species_id : string;
  child_species_id : string;
}.

Inductive BreedingPlanSource :=
| Owned (instance_id_hex : string)
| Bred (rule_id parent_a_species_id parent_b_species_id : string).
#[export] Instance BreedingPlanSource_eq_dec : EqDecision BreedingPlanSource.
Proof. solve_decision. Defined.

Record BreedingPlanNode := mkNode {
  node_species_id : string;
  node_generation : N;
  node_source : BreedingPlanSource;
}.
#[export] Instance BreedingPlanNode_eq_dec : EqDecision BreedingPlanNode.
Proof. solve_decision. Defined.

Record PassiveCoverage := mkCoverage {
  passive_id : string;
  owned_donor_instance_ids : list string;
}.

Record BreedingPlan := mkPlan {
  target_species_id : string;
  generations : N;
  nodes : list BreedingPlanNode;
  required_passive_coverage : list PassiveCoverage;
  node_visits : N;
  quality : string;
  scope : string;
  warnings : list string;
}.

Inductive BreedingError :=
| InvalidTarget | TooManyOwnedPals | TooManyRules | InvalidGenerationLimit | InvalidNodeBudget
| BudgetExhausted | Unreachable | InvalidIdentifier.
#[export] Instance BreedingError_eq_dec : EqDecision BreedingError.
Proof. solve_decision. Defined.

Record KnownSpecies := mkKnown { generation : N; source : BreedingPlanSource }.
#[export] Instance KnownSpecies_eq_dec : EqDecision KnownSpecies.
Proof. solve_decision. Defined.

(** ** Validation *)

Definition id_byte (byte : N) : bool :=
  is_ascii_alphanumeric byte || (byte =? 95) || (byte =? 45) || (byte =? 46) || (byte =? 58).

Definition valid_id (value : string) : bool :=
  negb (str_is_empty value) && (str_len value <=? 128) && str_is_ascii value && str_all id_byte value.

Definition valid_hex_id (value : string) : bool :=
  (str_len value =? 32) && str_all is_ascii_hexdigit value.

Definition check_pal (pal : OwnedPalSeed) : result unit BreedingError :=
  if negb (valid_hex_id (pal_instance_id_hex pal)) || negb (valid_id (pal_species_id pal))
     || existsb (λ id, negb (valid_id id)) (passive_ids pal)
  then Err InvalidIdentifier else Ok tt.

Definition check_rule (rule : BreedingRule) : result unit BreedingError :=
  if negb (valid_id (rule_id rule)) || negb (valid_id (parent_a_species_id rule))
     || negb (valid_id (parent_b_species_id rule)) || negb (valid_id (child_species_id rule))
  then Err InvalidIdentifier else Ok tt.

Definition validate_inputs (owned : list OwnedPalSeed) (rules : list BreedingRule) (target : string)
    (required_passive_ids : list string) (generations budget : N) : result unit BreedingError :=
  if MAX_OWNED_PALS <? len owned then Err TooManyOwnedPals
  else if MAX_RULES <? len rules then Err TooManyRules
  else if MAX_GENERATIONS <? generations then Err InvalidGenerationLimit
  else if (budget =? 0) || (MAX_NODE_BUDGET <? budget) then Err InvalidNodeBudget
  else if negb (valid_id target) then Err InvalidTarget
  else
    let? _ := try_for_each check_pal owned in
    let? _ := try_for_each check_rule rules in
    if existsb (λ id, negb (valid_id id)) required_passive_ids then Err InvalidIdentifier else Ok tt.

(** ** Orders *)

(** [Ordering::then]. *)
Definition then_ (c1 c2 : comparison) : comparison := match c1 with Eq => c2 | _ => c1 end.

Definition pal_cmp (l r : OwnedPalSeed) : comparison :=
  then_ (String.compare (pal_species_id l) (pal_species_id r))
        (String.compare (pal_instance_id_hex l) (pal_instance_id_hex r)).

Definition rule_cmp (l r : BreedingRule) : comparison :=
  then_ (then_ (then_ (String.compare (child_species_id l) (child_species_id r))
                      (String.compare (rule_id l) (rule_id r)))
               (String.compare (parent_a_species_id l) (parent_a_species_id r)))
        (String.compare (parent_b_species_id l) (parent_b_species_id r)).

(** [candidate_rank], compared as a tuple. *)
Definition candidate_rank (candidate : KnownSpecies) : N * string * string * string :=
  match source candidate with
  | Owned instance_id_hex => (generation candidate, EmptyString, EmptyString, instance_id_hex)
  | Bred rule_id a b => (generation candidate, rule_id, a, b)
  end.

Definition rank_lt (l r : N * string * string * string) : bool :=
  let '(lg, l1, l2, l3) := l in
  let '(rg, r1, r2, r3) := r in
  match then_ (then_ (then_ (lg ?= rg) (String.compare l1 r1)) (String.compare l2 r2))
              (String.compare l3 r3) with Lt => true | _ => false end.

(** ** The search *)

(** [or_insert_with] for the owned species. *)
Definition seed_owned (known : gmap string KnownSpecies) (pal : OwnedPalSeed) : gmap string KnownSpecies :=
  match known !! pal_species_id pal with
  | Some _ => known
  | None => <[pal_species_id pal := mkKnown 0 (Owned (pal_instance_id_hex pal))]> known
  end.

(** What a rule offers its child, if both parents are known. *)
Definition rule_candidate (known : gmap string KnownSpecies) (rule : BreedingRule) :
    option KnownSpecies :=
  parent_a ← known !! parent_a_species_id rule;
  parent_b ← known !! parent_b_species_id rule;
  Some (mkKnown (N.max (generation parent_a) (generation parent_b) + 1)
          (Bred (rule_id rule) (parent_a_species_id rule) (parent_b_species_id rule))).

Definition relax_rule (maximum_generations : N) (known : gmap string KnownSpecies)
    (rule : BreedingRule) : gmap string KnownSpecies * bool :=
  match rule_candidate known rule with
  | None => (known, false)
  | Some candidate =>
      if maximum_generations <? generation candidate then (known, false)
      else
        let replace :=
          match known !! child_species_id rule with
          | None => true
          | Some current => rank_lt (candidate_rank candidate) (candidate_rank current)
          end in
        if replace then (<[child_species_id rule := candidate]> known, true) else (known, false)
  end.

(** One pass of the inner [for] loop. *)
Fixpoint relax_rules (maximum_generations node_budget : N) (rules : list BreedingRule)
    (known : gmap string KnownSpecies) (visits : N) (changed : bool) :
    result (gmap string KnownSpecies * N * bool) BreedingError :=
  match rules with
  | [] => Ok (known, visits, changed)
  | rule :: rules =>
      let? visits := ok_or (checked_add visits 1) BudgetExhausted in
      if node_budget <? visits then Err BudgetExhausted
      else
        let '(known, replaced) := relax_rule maximum_generations known rule in
        relax_rules maximum_generations node_budget rules known visits (changed || replaced)
  end.

(** [while changed]. *)
Fixpoint search (fuel : nat) (maximum_generations node_budget : N) (rules : list BreedingRule)
    (known : gmap string KnownSpecies) (visits : N) :
    option (result (gmap string KnownSpecies * N) BreedingError) :=
  match fuel with
  | O => None
  | S fuel =>
      match relax_rules maximum_generations node_budget rules known visits false with
      | Err e => Some (Err e)
      | Ok (known, visits, changed) =>
          if changed then search fuel maximum_generations node_budget rules known visits
          else Some (Ok (known, visits))
      end
  end.

(** ** The plan *)

(** The recursion visits every species once, so the number of known species bounds
    its depth. *)
Fixpoint collect_required_nodes (fuel : nat) (species_id : string)
    (known : gmap string KnownSpecies) (output : gset string) : gset string :=
  match fuel with
  | O => output
  | S fuel =>
      if bool_decide (species_id ∈ output) then output
      else
        let output := {[species_id]} ∪ output in
        match source <$> known !! species_id with
        | Some (Bred _ a b) =>
            collect_required_nodes fuel b known (collect_required_nodes fuel a known output)
        | _ => output
        end
  end.

Definition plan_node (known : gmap string KnownSpecies) (species_id : string) :
    option BreedingPlanNode :=
  k ← known !! species_id; Some (mkNode species_id (generation k) (source k)).

Definition cover_passive (owned_sorted : list OwnedPalSeed) (passive : string) : PassiveCoverage :=
  mkCoverage passive
    (dedup (sort_strings (pal_instance_id_hex <$>
       List.filter (λ pal, contains (passive_ids pal) passive) owned_sorted))).

Definition plan_warnings (coverage : list PassiveCoverage) : list string :=
  (if existsb (λ entry, is_empty (owned_donor_instance_ids entry)) coverage
   then ["MISSING_REQUIRED_PASSIVE_DONOR"] else []) ++
  (if negb (is_empty coverage) then ["PASSIVE_INHERITANCE_PROBABILITY_UNKNOWN"] else []) ++
  ["PARENT_GENDER_NOT_EVALUATED"; "DISTINCT_PARENT_INSTANCE_NOT_EVALUATED"].

(** The end of [solve_owned_breeding]; the outer [None] is the panic of [expect]. *)
Definition build_plan (owned_sorted : list OwnedPalSeed) (target : string)
    (required_passive_ids : list string) (known : gmap string KnownSpecies) (visits : N) :
    option (result BreedingPlan BreedingError) :=
  match known !! target with
  | None => Some (Err Unreachable)
  | Some target_known =>
      let required := collect_required_nodes (S (S (size known))) target known ∅ in
      plan_nodes ← mapM (plan_node known) (sort_strings (elements required));
      let coverage := cover_passive owned_sorted <$> dedup (sort_strings required_passive_ids) in
      Some (Ok {|
        target_species_id := target;
        generations := generation target_known;
        nodes := plan_nodes;
        required_passive_coverage := coverage;
        node_visits := visits;
        quality := "exact";
        scope := "species_graph_reachability";
        warnings := plan_warnings coverage |})
  end.

Definition solve_owned_breeding (owned : list OwnedPalSeed) (rules : list BreedingRule)
    (target : string) (required_passive_ids : list string) (maximum_generations node_budget : N) :
    option (result BreedingPlan BreedingError) :=
  match validate_inputs owned rules target required_passive_ids maximum_generations node_budget with
  | Err e => Some (Err e)
  | Ok _ =>
      let owned_sorted := sort_by pal_cmp owned in
      let known := fold_left seed_owned owned_sorted ∅ in
      let rules_sorted := sort_by rule_cmp rules in
      match search (S (S (N.to_nat node_budget))) maximum_generations node_budget rules_sorted known 0 with
      | None => None
      | Some (Err e) => Some (Err e)
      | Some (Ok (known, visits)) => build_plan owned_sorted target required_passive_ids known visits
      end
  end.

(** ** What can be bred *)

Section Solver.
Context (owned : list OwnedPalSeed) (rules : list BreedingRule) (limit : N).

(** [species] has a breeding tree over owned species whose height is [g]. *)
Inductive bred_in : N → string → Prop :=
| bred_owned pal : pal ∈ owned → bred_in 0 (pal_species_id pal)
| bred_rule rule ga gb :
    rule ∈ rules → bred_in ga (parent_a_species_id rule) → bred_in gb (parent_b_species_id rule) →
    bred_in (N.max ga gb + 1) (child_species_id rule).

(** How a species is known: the facts that justify its generation and source. *)
Definition justified (known : gmap string KnownSpecies) (species : string) (k : KnownSpecies) : Prop :=
  match source k with
  | Owned i => generation k = 0 ∧ ∃ pal, pal ∈ owned ∧ pal_species_id pal = species ∧ pal_instance_id_hex pal = i
  | Bred id a b =>
      ∃ rule ka kb, rule ∈ rules ∧ rule_id rule = id ∧ parent_a_species_id rule = a ∧
        parent_b_species_id rule = b ∧ child_species_id rule = species ∧
        known !! a = Some ka ∧ known !! b = Some kb ∧
        N.max (generation ka) (generation kb) + 1 ≤ generation k
  end.

Record search_inv (known : gmap string KnownSpecies) : Prop := {
  inv_bred : ∀ s k, known !! s = Some k → bred_in (generation k) s ∧ generation k ≤ limit;
  inv_justified : ∀ s k, known !! s = Some k → justified known s k;
  inv_owned : ∀ pal, pal ∈ owned → ∃ k, known !! pal_species_id pal = Some k ∧ generation k = 0;
}.

(** A pass that changes nothing leaves every rule satisfied. *)
Definition rule_closed (known : gmap string KnownSpecies) (rule : BreedingRule) : Prop :=
  ∀ ka kb, known !! parent_a_species_id rule = Some ka → known !! parent_b_species_id rule = Some kb →
    N.max (generation ka) (generation kb) + 1 ≤ limit →
    ∃ kc, known !! child_species_id rule = Some kc ∧
      generation kc ≤ N.max (generation ka) (generation kb) + 1.

Lemma rank_lt_generation k1 k2 :
  rank_lt (candidate_rank k1) (candidate_rank k2) = true → generation k1 ≤ generation k2.
Proof.
  unfold rank_lt, candidate_rank. destruct (source k1), (source k2);
    destruct (N.compare_spec (generation k1) (generation k2)); simpl; try done; lia.
Qed.

Lemma rank_lt_not_generation k1 k2 :
  rank_lt (candidate_rank k1) (candidate_rank k2) = false → generation k2 ≤ generation k1.
Proof.
  unfold rank_lt, candidate_rank. destruct (source k1), (source k2);
    destruct (N.compare_spec (generation k1) (generation k2)); simpl; try done; lia.
Qed.

Lemma rule_candidate_some known rule k :
  rule_candidate known rule = Some k ↔
  ∃ ka kb, known !! parent_a_species_id rule = Some ka ∧ known !! parent_b_species_id rule = Some kb ∧
    k = mkKnown (N.max (generation ka) (generation kb) + 1)
          (Bred (rule_id rule) (parent_a_species_id rule) (parent_b_species_id rule)).
Proof.
  unfold rule_candidate. destruct (known !! parent_a_species_id rule) as [ka|]; simpl;
    [|split; [done|by intros (? & ? & ? & _)]].
  destruct (known !! parent_b_species_id rule) as [kb|]; simpl;
    [|split; [done|by intros (? & ? & _ & ? & _)]].
  split; [intros [= <-]; eauto|by intros (? & ? & [= ->] & [= ->] & ->)].
Qed.

(** Relaxing a rule keeps the invariant; if it changes nothing the rule is closed. *)
Lemma relax_rule_spec known rule :
  search_inv known → rule ∈ rules →
  let '(known', replaced) := relax_rule limit known rule in
  search_inv known' ∧ (replaced = false → known' = known ∧ rule_closed known rule).
Proof.
  intros Hi Hin. unfold relax_rule. destruct (rule_candidate known rule) as [k|] eqn:Hk.
  2: { split; [done|]. intros _. split; [done|]. intros ka kb Ha Hb _.
       assert (rule_candidate known rule = Some (mkKnown (N.max (generation ka) (generation kb) + 1)
         (Bred (rule_id rule) (parent_a_species_id rule) (parent_b_species_id rule)))) as Hc
         by (apply rule_candidate_some; eauto). congruence. }
  apply rule_candidate_some in Hk as (ka & kb & Ha & Hb & ->). cbn [generation].
  destruct (N.ltb_spec limit (N.max (generation ka) (generation kb) + 1)) as [Hlim|Hlim].
  { split; [done|]. intros _. split; [done|]. intros ka' kb' Ha' Hb' Hle. simplify_eq. lia. }
  set (k := mkKnown _ _).
  destruct (match known !! child_species_id rule with None => true | Some current => _ end) eqn:Hrep.
  2: { split; [done|]. intros _. split; [done|]. intros ka' kb' Ha' Hb' _. simplify_eq.
       destruct (known !! child_species_id rule) as [kc|]; [|done]. exists kc. split; [done|].
       by apply rank_lt_not_generation in Hrep. }
  split; [|done].
  assert (∀ kc, known !! child_species_id rule = Some kc → generation k ≤ generation kc) as Hless.
  { intros kc Hc. rewrite Hc in Hrep. by apply rank_lt_generation in Hrep. }
  assert (∀ s ks, known !! s = Some ks → ∃ ks', <[child_species_id rule := k]> known !! s = Some ks' ∧
    generation ks' ≤ generation ks) as Hmono.
  { intros s ks Hs. destruct (decide (s = child_species_id rule)) as [->|Hne].
    - rewrite lookup_insert_eq. eauto.
    - rewrite lookup_insert_ne by done. by exists ks. }
  constructor.
  - intros s ks. destruct (decide (s = child_species_id rule)) as [->|Hne].
    + rewrite lookup_insert_eq. intros [= <-]. split; [|done]. simpl.
      apply bred_rule; [done| |]; by apply (inv_bred _ Hi).
    + rewrite lookup_insert_ne by done. apply (inv_bred _ Hi).
  - intros s ks. destruct (decide (s = child_species_id rule)) as [->|Hne].
    + rewrite lookup_insert_eq. intros [= <-]. unfold justified. simpl.
      destruct (Hmono _ _ Ha) as (ka' & Ha' & ?), (Hmono _ _ Hb) as (kb' & Hb' & ?).
      exists rule, ka', kb'. do 7 (split; [done|]). lia.
    + rewrite lookup_insert_ne by done. intros Hs. apply (inv_justified _ Hi) in Hs.
      unfold justified in *. destruct (source ks) as [i|i a b]; [done|].
      destruct Hs as (rule' & ka' & kb' & ? & ? & ? & ? & ? & Ha' & Hb' & ?).
      destruct (Hmono _ _ Ha') as (ka'' & ? & ?), (Hmono _ _ Hb') as (kb'' & ? & ?).
      exists rule', ka'', kb''. do 7 (split; [done|]). lia.
  - intros pal Hpal. destruct (inv_owned _ Hi pal Hpal) as (k0 & H0 & Hg).
    destruct (Hmono _ _ H0) as (k0' & ? & ?). exists k0'. split; [done|lia].
Qed.

Lemma relax_rules_spec budget rs known visits changed known' visits' changed' :
  search_inv known → (∀ rule, rule ∈ rs → rule ∈ rules) →
  relax_rules limit budget rs known visits changed = Ok (known', visits', changed') →
  search_inv known' ∧ visits' = visits + len rs ∧ (rs ≠ [] → visits' ≤ budget) ∧
  (changed' = false → changed = false ∧ known' = known ∧ ∀ rule, rule ∈ rs → rule_closed known rule).
Proof.
  revert known visits changed. induction rs as [|rule rs IH]; intros known visits changed Hi Hin; simpl.
  { intros [= <- <- <-]. split; [done|]. split; [unfold len; simpl; lia|]. split; [done|].
    intros ->. split; [done|]. split; [done|]. intros rule Hr. by apply elem_of_nil in Hr. }
  intros (visits1 & Hv%ok_or_ok%checked_add_some & H)%and_then_ok. destruct Hv as [-> _].
  destruct (N.ltb_spec budget (visits + 1)) as [|Hb]; [done|].
  pose proof (relax_rule_spec known rule Hi) as Hr. destruct (relax_rule limit known rule) as [known1 replaced].
  destruct Hr as [Hi1 Hsame]; [apply Hin; by left|].
  apply IH in H as (Hi' & -> & Hle & Hun); [|done|intros; apply Hin; by right].
  split; [done|]. split; [unfold len; simpl; lia|]. split.
  - intros _. destruct rs as [|r rs]; [unfold len; simpl; lia|]. by apply Hle.
  - intros Hc. destruct (Hun Hc) as (Hor & -> & Hcl). apply orb_false_iff in Hor as [-> Hrep].
    destruct (Hsame Hrep) as [-> Hrule]. split; [done|]. split; [done|].
    intros r [->|Hr]%elem_of_cons; [done|by apply Hcl].
Qed.

Lemma relax_rules_err budget rs known visits changed e :
  relax_rules limit budget rs known visits changed = Err e → e = BudgetExhausted.
Proof.
  revert known visits changed. induction rs as [|rule rs IH]; intros known visits changed; simpl; [done|].
  unfold ok_or. destruct (checked_add visits 1); simpl; [|by intros [= <-]].
  destruct (_ <? _); [by intros [= <-]|]. destruct (relax_rule limit known rule). apply IH.
Qed.

(** The search ends within the fuel, and what it finds is closed under the rules. *)
Lemma search_spec budget fuel rs known visits :
  search_inv known → (∀ rule, rule ∈ rs ↔ rule ∈ rules) →
  (N.to_nat (budget - visits) + 1 < fuel)%nat →
  match search fuel limit budget rs known visits with
  | None => False
  | Some (Err e) => e = BudgetExhausted
  | Some (Ok (known', visits')) =>
      search_inv known' ∧ (∀ rule, rule ∈ rules → rule_closed known' rule)
  end.
Proof.
  revert known visits. induction fuel as [|fuel IH]; intros known visits Hi Hin Hfuel; [lia|]. simpl.
  destruct (relax_rules limit budget rs known visits false) as [[[known' visits'] changed]|e] eqn:Hr.
  2: by apply relax_rules_err in Hr.
  apply relax_rules_spec in Hr as (Hi' & Hv & Hle & Hun); [|done|by intros; apply Hin].
  destruct changed.
  - destruct rs as [|rule rs].
    + destruct fuel; [lia|]. simpl. unfold len in Hv. simpl in Hv.
      split; [done|]. intros r Hr. apply Hin in Hr. by apply elem_of_nil in Hr.
    + specialize (Hle ltac:(done)). unfold len in Hv. simpl in Hv. apply IH; [done|done|].
      assert (visits < visits') by lia. lia.
  - destruct (Hun eq_refl) as (_ & -> & Hcl). split; [done|].
    intros rule Hrule. by apply Hcl, Hin.
Qed.

(** A closed state knows every species at its least height within the limit. *)
Lemma closed_complete known g s :
  search_inv known → (∀ rule, rule ∈ rules → rule_closed known rule) → bred_in g s → g ≤ limit →
  ∃ k, known !! s = Some k ∧ generation k ≤ g.
Proof.
  intros Hi Hc. induction 1 as [pal Hpal|rule ga gb Hrule _ IHa _ IHb]; intros Hg.
  - destruct (inv_owned _ Hi pal Hpal) as (k & ? & ?). exists k. split; [done|lia].
  - destruct IHa as (ka & Ha & ?); [lia|]. destruct IHb as (kb & Hb & ?); [lia|].
    destruct (Hc rule Hrule ka kb Ha Hb) as (kc & ? & ?); [lia|]. exists kc. split; [done|lia].
Qed.

Lemma seed_inv : search_inv (fold_left seed_owned (sort_by pal_cmp owned) ∅).
Proof.
  assert (∀ pals known, (∀ pal, pal ∈ pals → pal ∈ owned) →
    (∀ s k, known !! s = Some k → generation k = 0 ∧ bred_in 0 s ∧ justified known s k) →
    let known' := fold_left seed_owned pals known in
    (∀ s k, known' !! s = Some k → generation k = 0 ∧ bred_in 0 s ∧ justified known' s k) ∧
    (∀ s, is_Some (known !! s) → is_Some (known' !! s)) ∧
    ∀ pal, pal ∈ pals → is_Some (known' !! pal_species_id pal)) as Hfold.
  { induction pals as [|pal pals IH]; intros known Hin Hk; simpl.
    { split; [done|]. split; [done|]. intros pal Hp. by apply elem_of_nil in Hp. }
    destruct (IH (seed_owned known pal)) as (H1 & H2 & H3).
    - intros p Hp. apply Hin. by right.
    - unfold seed_owned. destruct (known !! pal_species_id pal) eqn:Hs; [done|].
      intros s k. destruct (decide (s = pal_species_id pal)) as [->|Hne].
      + rewrite lookup_insert_eq. intros [= <-]. split; [done|]. split; [apply bred_owned, Hin; by left|].
        simpl. split; [done|]. exists pal. split; [apply Hin; by left|done].
      + rewrite lookup_insert_ne by done. intros Hk'. destruct (Hk s k Hk') as (Hg & Hb & Hj).
        split; [done|]. split; [done|]. unfold justified in *. destruct (source k); [done|].
        destruct Hj as (? & ? & ? & _ & _ & _ & _ & _ & _ & _ & ?). lia.
    - split; [done|]. assert (∀ s, is_Some (known !! s) → is_Some (seed_owned known pal !! s)) as Hmono.
      { intros s Hs. unfold seed_owned. destruct (known !! pal_species_id pal) eqn:E; [done|].
        destruct (decide (s = pal_species_id pal)) as [->|]; [by rewrite lookup_insert_eq|].
        by rewrite lookup_insert_ne. }
      split; [intros s Hs; by apply H2, Hmono|].
      intros p [->|Hp]%elem_of_cons; [|by apply H3]. apply H2. unfold seed_owned.
      destruct (known !! pal_species_id pal) eqn:E; [by rewrite E|by rewrite lookup_insert_eq]. }
  destruct (Hfold (sort_by pal_cmp owned) ∅) as (H1 & _ & H3).
  { intros pal. by rewrite elem_of_sort_by. }
  { intros s k. by rewrite lookup_empty. }
  constructor.
  - intros s k Hk. destruct (H1 s k Hk) as (-> & ? & _). split; [done|lia].
  - intros s k Hk. by apply H1.
  - intros pal Hp. destruct (H3 pal) as [k Hk]; [by apply elem_of_sort_by|].
    exists k. split; [done|]. by apply H1 in Hk as [? _].
Qed.
End Solver.

(** ** Collecting the plan *)

(** The parents of a bred species. *)
Definition parent_of (known : gmap string KnownSpecies) (child parent : string) : Prop :=
  ∃ k id a b, known !! child = Some k ∧ source k = Bred id a b ∧ (parent = a ∨ parent = b).

Lemma collect_spec known fuel s out :
  (size (dom known ∖ out) < fuel)%nat → (0 < fuel)%nat →
  let out' := collect_required_nodes fuel s known out in
  out ⊆ out' ∧ s ∈ out' ∧
  (∀ x p, x ∈ out' → x ∉ out → parent_of known x p → p ∈ out') ∧
  (∀ P : string → Prop, P s → (∀ x p, P x → parent_of known x p → P p) →
     ∀ x, x ∈ out' → x ∉ out → P x).
Proof.
  revert s out. induction fuel as [|fuel IH]; intros s out Hsize Hpos; [lia|]. simpl.
  case_bool_decide as Hs.
  { split; [done|]. split; [done|]. split; [by intros|]. intros P _ _ x Hx Hnx. done. }
  destruct (known !! s) as [k|] eqn:Hk; simpl.
  2: { split; [set_solver|]. split; [set_solver|]. split.
       - intros x p Hx Hnx (k' & _ & _ & _ & Hk' & _). assert (x = s) as -> by set_solver. congruence.
       - intros P HP _ x Hx Hnx. assert (x = s) as -> by set_solver. done. }
  destruct (source k) as [i|id a b] eqn:Hsrc.
  { split; [set_solver|]. split; [set_solver|]. split.
    - intros x p Hx Hnx (k' & ? & ? & ? & Hk' & Hs' & _). assert (x = s) as -> by set_solver. congruence.
    - intros P HP _ x Hx Hnx. assert (x = s) as -> by set_solver. done. }
  assert (s ∈ dom known) as Hdom by (by apply elem_of_dom_2 in Hk).
  assert (size (dom known ∖ ({[s]} ∪ out)) < size (dom known ∖ out))%nat as Hlt
    by (apply subset_size; set_solver).
  assert (0 < fuel)%nat as Hf by lia.
  destruct (IH a ({[s]} ∪ out)) as (A1 & A2 & A3 & A4); [lia|done|].
  set (outa := collect_required_nodes fuel a known ({[s]} ∪ out)) in *.
  assert (size (dom known ∖ outa) ≤ size (dom known ∖ ({[s]} ∪ out)))%nat as Hle
    by (apply subseteq_size; set_solver).
  destruct (IH b outa) as (B1 & B2 & B3 & B4); [lia|done|].
  set (outb := collect_required_nodes fuel b known outa) in *.
  split; [clear -A1 B1; set_solver|]. split; [clear -A1 B1; set_solver|]. split.
  - intros x p Hx Hnx Hp. destruct (decide (x ∈ outa)) as [Hxa|Hxa]; [|by eapply B3].
    destruct (decide (x = s)) as [->|Hne].
    + destruct Hp as (k' & id' & a' & b' & Hk' & Hs' & Hp). rewrite Hk in Hk'.
      injection Hk' as <-. rewrite Hsrc in Hs'. injection Hs' as <- <- <-.
      destruct Hp as [->| ->]; [apply B1; exact A2|exact B2].
    + apply B1. eapply A3; [done| |done]. rewrite elem_of_union, elem_of_singleton. tauto.
  - intros P HP Hstep x Hx Hnx.
    assert (P a) as HPa by (eapply Hstep; [exact HP|]; by exists k, id, a, b; auto).
    assert (P b) as HPb by (eapply Hstep; [exact HP|]; by exists k, id, a, b; auto).
    destruct (decide (x ∈ outa)) as [Hxa|Hxa]; [|by eapply B4].
    destruct (decide (x = s)) as [->|Hne]; [done|]. eapply A4; [done|done|done|].
      rewrite elem_of_union, elem_of_singleton. tauto.
Qed.

Section Plan.
Context (owned : list OwnedPalSeed) (rules : list BreedingRule) (limit : N).

(** A node of a plan: an owned Pal of its species, or a rule both of whose parents
    are nodes of the plan, one generation above the later of them. *)
Definition node_ok (plan_nodes : list BreedingPlanNode) (n : BreedingPlanNode) : Prop :=
  match node_source n with
  | Owned i =>
      node_generation n = 0 ∧
      ∃ pal, pal ∈ owned ∧ pal_species_id pal = node_species_id n ∧ pal_instance_id_hex pal = i
  | Bred id a b =>
      mkRule id a b (node_species_id n) ∈ rules ∧
      ∃ na nb, na ∈ plan_nodes ∧ nb ∈ plan_nodes ∧ node_species_id na = a ∧ node_species_id nb = b ∧
        node_generation n = N.max (node_generation na) (node_generation nb) + 1
  end.

Lemma known_exact known s k id a b :
  search_inv owned rules limit known → (∀ rule, rule ∈ rules → rule_closed limit known rule) →
  known !! s = Some k → source k = Bred id a b →
  mkRule id a b s ∈ rules ∧
  ∃ ka kb, known !! a = Some ka ∧ known !! b = Some kb ∧
    generation k = N.max (generation ka) (generation kb) + 1.
Proof.
  intros Hi Hc Hk Hs. pose proof (inv_justified _ _ _ _ Hi s k Hk) as Hj. unfold justified in Hj.
  rewrite Hs in Hj. destruct Hj as (rule & ka & kb & Hrule & <- & <- & <- & <- & Ha & Hb & Hle).
  split; [by destruct rule|]. exists ka, kb. split; [done|]. split; [done|].
  pose proof (inv_bred _ _ _ _ Hi _ k Hk) as [_ Hlim].
  destruct (Hc rule Hrule ka kb Ha Hb) as (kc & Hkc & Hle'); [lia|]. simplify_eq. lia.
Qed.

Lemma required_known known target k :
  search_inv owned rules limit known → (∀ rule, rule ∈ rules → rule_closed limit known rule) →
  known !! target = Some k →
  let required := collect_required_nodes (S (S (size known))) target known ∅ in
  target ∈ required ∧
  ∀ s, s ∈ required → is_Some (known !! s) ∧ ∀ p, parent_of known s p → p ∈ required.
Proof.
  intros Hi Hc Hk required.
  destruct (collect_spec known (S (S (size known))) target ∅) as (_ & H2 & H3 & H4); [|lia|].
  { rewrite difference_empty_L, size_dom. lia. }
  change (target ∈ required) in H2. split; [done|]. intros s Hs. split.
  - apply (H4 (λ x, is_Some (known !! x))); [by eexists| |done|set_solver].
    intros x p _ (k' & id & a & b & Hk' & Hs' & Hp).
    destruct (known_exact known x k' id a b Hi Hc Hk' Hs') as (_ & ka & kb & ? & ? & _).
    destruct Hp as [->| ->]; by eexists.
  - intros p Hp. eapply H3; [done|set_solver|done].
Qed.

(** The plan of a closed state. *)
Lemma build_plan_spec known owned_sorted target required visits :
  search_inv owned rules limit known → (∀ rule, rule ∈ rules → rule_closed limit known rule) →
  (∀ pal, pal ∈ owned_sorted ↔ pal ∈ owned) →
  match known !! target with
  | None => build_plan owned_sorted target required known visits = Some (Err Unreachable)
  | Some k =>
      ∃ plan, build_plan owned_sorted target required known visits = Some (Ok plan) ∧
        generations plan = generation k ∧ target_species_id plan = target ∧
        NoDup (node_species_id <$> nodes plan) ∧
        (∃ n, n ∈ nodes plan ∧ node_species_id n = target ∧ node_generation n = generations plan) ∧
        (∀ n, n ∈ nodes plan → node_ok (nodes plan) n) ∧
        required_passive_coverage plan = cover_passive owned_sorted <$> dedup (sort_strings required)
  end.
Proof.
  intros Hi Hc Hperm. unfold build_plan. destruct (known !! target) as [k|] eqn:Hk; [|done].
  destruct (required_known known target k Hi Hc Hk) as [Hin Hreq].
  set (req := collect_required_nodes (S (S (size known))) target known ∅) in *.
  assert (∀ s, s ∈ sort_strings (elements req) ↔ s ∈ req) as Helem.
  { intros s. by rewrite elem_of_sort_strings, elem_of_elements. }
  destruct (mapM_total (plan_node known) (λ x y, plan_node known x = Some y) (sort_strings (elements req))) as (ns & Hns & Hall).
  { intros s Hs. apply Helem, Hreq in Hs as [[k' Hk'] _]. unfold plan_node. rewrite Hk'. by eexists. }
  rewrite Hns. simpl. eexists. split; [done|]. split; [done|]. split; [done|]. simpl.
  assert (∀ s n, plan_node known s = Some n → node_species_id n = s ∧
    ∃ k', known !! s = Some k' ∧ node_generation n = generation k' ∧ node_source n = source k') as Hnode.
  { intros s n. unfold plan_node. destruct (known !! s) as [k'|]; [|done].
    intros [= <-]. split; [done|]. by exists k'. }
  assert (∀ s, s ∈ req → ∃ n, n ∈ ns ∧ plan_node known s = Some n) as Hof.
  { intros s Hs. apply Helem, list_elem_of_lookup in Hs as [i Hs].
    destruct (Forall2_lookup_l _ _ _ _ _ Hall Hs) as (n & Hn & ?). exists n.
    split; [by eapply list_elem_of_lookup_2|done]. }
  assert (∀ n, n ∈ ns → ∃ s, s ∈ req ∧ plan_node known s = Some n) as Hto.
  { intros n Hn. apply list_elem_of_lookup in Hn as [i Hn].
    destruct (Forall2_lookup_r _ _ _ _ _ Hall Hn) as (s & Hs & ?). exists s.
    split; [by eapply Helem, list_elem_of_lookup_2|done]. }
  split; [|split; [|split; [|done]]].
  - assert (node_species_id <$> ns = sort_strings (elements req)) as ->.
    { clear -Hall Hnode. induction Hall as [|s n ss ns Hs _ IH]; [done|].
      cbn [fmap list_fmap]. f_equal; [by apply (Hnode s n Hs)|exact IH]. }
    unfold sort_strings. rewrite merge_sort_Permutation. apply NoDup_elements.
  - destruct (Hof target Hin) as (n & Hn & Hp). exists n. split; [done|].
    destruct (Hnode _ _ Hp) as (Hid & k' & Hk' & Hg & _). split; [done|]. congruence.
  - intros n Hn. destruct (Hto n Hn) as (s & Hs & Hp).
    destruct (Hnode _ _ Hp) as (Hid & k' & Hk' & Hg & Hsrc). unfold node_ok.
    destruct (node_source n) as [i|id a b] eqn:En.
    + pose proof (inv_justified _ _ _ _ Hi s k' Hk') as Hj. unfold justified in Hj.
      rewrite <- Hsrc in Hj. rewrite Hg, Hid. exact Hj.
    + symmetry in Hsrc. destruct (known_exact known s k' id a b Hi Hc Hk' Hsrc) as (Hrule & ka & kb & Ha & Hb & Hgen).
      rewrite Hid. split; [done|]. destruct (Hreq s Hs) as [_ Hpar].
      destruct (Hof a) as (na & Hna & Hpa); [apply Hpar; exists k', id, a, b; auto|].
      destruct (Hof b) as (nb & Hnb & Hpb); [apply Hpar; exists k', id, a, b; auto|].
      destruct (Hnode _ _ Hpa) as (? & ka' & ? & Hga & _), (Hnode _ _ Hpb) as (? & kb' & ? & Hgb & _).
      exists na, nb. do 4 (split; [done|]). simplify_eq. congruence.
Qed.
End Plan.

(** The search of [solve_owned_breeding], as a whole. *)
Lemma solve_cases owned rules target required limit budget :
  validate_inputs owned rules target required limit budget = Ok tt →
  (∃ known visits,
     search_inv owned rules limit known ∧ (∀ rule, rule ∈ rules → rule_closed limit known rule) ∧
     solve_owned_breeding owned rules target required limit budget =
       build_plan (sort_by pal_cmp owned) target required known visits) ∨
  solve_owned_breeding owned rules target required limit budget = Some (Err BudgetExhausted).
Proof.
  intros Hv. unfold solve_owned_breeding. rewrite Hv.
  pose proof (search_spec owned rules limit budget (S (S (N.to_nat budget))) (sort_by rule_cmp rules)
    (fold_left seed_owned (sort_by pal_cmp owned) ∅) 0 (seed_inv owned rules limit)) as Hs.
  destruct (search _ _ _ _ _ _) as [[[known visits]|e]|].
  - left. destruct Hs as [Hi Hc]; [intros; apply elem_of_sort_by|lia|]. by exists known, visits.
  - right. rewrite Hs; [done|intros; apply elem_of_sort_by|lia].
  - destruct Hs; [intros; apply elem_of_sort_by|lia].
Qed.

(** ** Properties *)

(** C40: the solver always terminates without panicking, and is exact within its
    limits: the plan's number of generations is the least height of a breeding tree
    for the target over the owned species, and [Unreachable] means that no tree fits
    the generation limit. The other errors are invalid inputs and an exhausted node
    budget. *)
Theorem solve_minimal (owned : list OwnedPalSeed) (rules : list BreedingRule) (target : string)
    (required : list string) (limit budget : N) :
  match solve_owned_breeding owned rules target required limit budget with
  | None => False
  | Some (Ok plan) =>
      bred_in owned rules (generations plan) target ∧ generations plan ≤ limit ∧
      ∀ g, bred_in owned rules g target → generations plan ≤ g
  | Some (Err Unreachable) => ∀ g, bred_in owned rules g target → limit < g
  | Some (Err BudgetExhausted) => True
  | Some (Err e) => validate_inputs owned rules target required limit budget = Err e
  end.
Proof.
  destruct (validate_inputs owned rules target required limit budget) as [[]|e] eqn:Hv.
  - destruct (solve_cases owned rules target required limit budget Hv)
      as [(known & visits & Hi & Hc & ->)| ->]; [|done].
    pose proof (build_plan_spec owned rules limit known (sort_by pal_cmp owned) target required visits
      Hi Hc ltac:(intros; apply elem_of_sort_by)) as Hp.
    destruct (known !! target) as [k|] eqn:Hk.
    + destruct Hp as (plan & -> & -> & _). destruct (inv_bred _ _ _ _ Hi target k Hk) as [Hb Hl].
      split; [done|]. split; [done|]. intros g Hg. destruct (decide (g ≤ limit)) as [Hle|]; [|lia].
      destruct (closed_complete owned rules limit known g target Hi Hc Hg Hle) as (k' & ? & ?).
      by simplify_eq.
    + rewrite Hp. intros g Hg. destruct (decide (g ≤ limit)) as [Hle|]; [|lia].
      destruct (closed_complete owned rules limit known g target Hi Hc Hg Hle) as (k' & ? & ?).
      congruence.
  - unfold solve_owned_breeding. rewrite Hv. destruct e; try done.
    exfalso. unfold validate_inputs in Hv. repeat (step_if_in Hv; [discriminate|]).
    apply and_then_err in Hv as [Hv|([] & _ & Hv)].
    { apply try_for_each_err in Hv as (? & x & ? & _ & _ & Hv). unfold check_pal in Hv.
      by step_if_in Hv. }
    apply and_then_err in Hv as [Hv|([] & _ & Hv)]; [|by step_if_in Hv].
    apply try_for_each_err in Hv as (? & x & ? & _ & _ & Hv). unfold check_rule in Hv.
    by step_if_in Hv.
Qed.

(** A plan can be carried out as written: its nodes are distinct species, the
    target is one of them at the plan's generation, every node is an owned Pal of its
    species or the child of one of the given rules whose two parents are nodes of the
    plan, and for every required passive it lists exactly the owned Pals that carry
    it. *)
Theorem plan_closed (owned : list OwnedPalSeed) (rules : list BreedingRule) (target : string)
    (required : list string) (limit budget : N) (plan : BreedingPlan) :
  solve_owned_breeding owned rules target required limit budget = Some (Ok plan) →
  NoDup (node_species_id <$> nodes plan) ∧
  (∃ n, n ∈ nodes plan ∧ node_species_id n = target ∧ node_generation n = generations plan) ∧
  (∀ n, n ∈ nodes plan → node_ok owned rules (nodes plan) n) ∧
  (∀ passive, passive ∈ required ↔ ∃ c, c ∈ required_passive_coverage plan ∧ passive_id c = passive) ∧
  (∀ c, c ∈ required_passive_coverage plan → NoDup (owned_donor_instance_ids c) ∧
     ∀ i, i ∈ owned_donor_instance_ids c ↔
       ∃ pal, pal ∈ owned ∧ passive_id c ∈ passive_ids pal ∧ pal_instance_id_hex pal = i).
Proof.
  intros Hplan.
  destruct (validate_inputs owned rules target required limit budget) as [[]|e] eqn:Hv;
    [|unfold solve_owned_breeding in Hplan; by rewrite Hv in Hplan].
  destruct (solve_cases owned rules target required limit budget Hv)
    as [(known & visits & Hi & Hc & E)|E]; [|congruence]. rewrite E in Hplan.
  pose proof (build_plan_spec owned rules limit known (sort_by pal_cmp owned) target required visits
    Hi Hc ltac:(intros; apply elem_of_sort_by)) as Hp.
  destruct (known !! target) as [k|]; [|congruence].
  destruct Hp as (plan' & E' & _ & _ & H1 & H2 & H3 & Hcov). rewrite Hplan in E'. injection E' as <-.
  do 3 (split; [done|]). rewrite Hcov. split.
  - intros passive. split.
    + intros Hin. exists (cover_passive (sort_by pal_cmp owned) passive). split; [|done].
      by apply list_elem_of_fmap_2, elem_of_dedup_sort.
    + intros (c & (p & -> & Hin)%list_elem_of_fmap_1 & <-). simpl. by rewrite elem_of_dedup_sort in Hin.
  - intros c (p & -> & _)%list_elem_of_fmap_1. simpl. split; [apply NoDup_dedup_sort|].
    intros i. rewrite elem_of_dedup_sort. split.
    + intros (pal & -> & Hpal)%list_elem_of_fmap_1. apply list_elem_of_In, filter_In in Hpal as [Hin Hc'].
      apply list_elem_of_In, elem_of_sort_by in Hin. exists pal. split; [done|]. split; [|done].
      by apply contains_true.
    + intros (pal & Hin & Hc' & <-). apply list_elem_of_fmap_2, list_elem_of_In, filter_In.
      split; [by apply list_elem_of_In, elem_of_sort_by|by apply contains_true].
Qed.

Definition demo_id (c : ascii) : string := string_of_list_ascii (repeat c 32).
Definition demo_owned : list OwnedPalSeed :=
  [mkPal (demo_id "1") "A" ["swift"]; mkPal (demo_id "2") "B" []; mkPal (demo_id "3") "C" []].
Definition demo_rules : list BreedingRule :=
  [mkRule "r2" "D" "C" "Target"; mkRule "r1" "A" "B" "D"].

Lemma plan_closed_witness :
  ∃ plan, solve_owned_breeding demo_owned demo_rules "Target" ["swift"] 4 100 = Some (Ok plan) ∧
    generations plan = 2 ∧ (node_species_id <$> nodes plan) = ["A"; "B"; "C"; "D"; "Target"] ∧
    (∀ n, n ∈ nodes plan → node_ok demo_owned demo_rules (nodes plan) n).
Proof.
  destruct (solve_owned_breeding demo_owned demo_rules "Target" ["swift"] 4 100) as [[plan|e]|] eqn:E;
    [|vm_compute in E; discriminate..].
  exists plan. split; [reflexivity|].
  destruct (plan_closed _ _ _ _ _ _ plan E) as (_ & _ & Hok & _).
  split; [vm_compute in E; injection E as <-; reflexivity|].
  split; [vm_compute in E; injection E as <-; reflexivity|exact Hok].
Defined.
