(* ===== verification/Clock.v ===== *)
(** * Clock offset estimation

    Models [crates/pal-telemetry/src/clock.rs]: the bounds on the offset between the
    agent's clock and ours that a probe's four timestamps give, and the reconnection
    backoff. A [Duration] is its number of milliseconds. *)

From S2P Require Import Prelude.

#[local] Open Scope Z_scope.

Definition PROBE_CADENCE : N := 30 * 1000.
Definition ESTIMATE_EXPIRY : N := 90 * 1000.
Definition WALL_CLOCK_STEP_LIMIT_MS : Z := 1000.

Record ClockProbeObservation := mkObservation {
  expected_nonce : bytes;
  echoed_nonce : bytes;
  client_send_unix_ms : Z;
  agent_receive_unix_ms : Z;
  agent_send_unix_ms : Z;
  client_receive_unix_ms : Z;
}.

(** [fmt::Debug] of an observation prints none of its contents. *)
Definition ClockProbeObservation_fmt (_ : ClockProbeObservation) : string :=
  "[REDACTED CLOCK PROBE OBSERVATION]".

Record ClockEstimate := mkEstimate {
  full_rtt_upper_bound_ms : N;
  offset_lower_bound_ms : Z;
  offset_upper_bound_ms : Z;
  observed_at_monotonic_ms : N;
}.

Definition age_upper_bound_ms (self : ClockEstimate) (age_at_emit_ms : N) : N :=
  saturating_add age_at_emit_ms (full_rtt_upper_bound_ms self).

Inductive ClockError := NonceMismatch | ImpossibleOrdering | RttOutlier | WallClockStep.
#[export] Instance ClockError_eq_dec : EqDecision ClockError.
Proof. solve_decision. Defined.

Record ClockEstimator := mkEstimator {
  maximum_rtt_ms : N;
  current : option ClockEstimate;
}.

Definition new (maximum_rtt_ms : N) : ClockEstimator := mkEstimator maximum_rtt_ms None.

Definition invalidate (self : ClockEstimator) : ClockEstimator :=
  mkEstimator (maximum_rtt_ms self) None.

(** [checked_sub] and [u64::try_from]. *)
Definition elapsed (later earlier : Z) : option N :=
  difference ← checked_i64 (later - earlier);
  if difference <? 0 then None else Some (Z.to_N difference).

Definition wall_clock_step (previous : ClockEstimate) (lower upper : Z) : bool :=
  (saturating_i64 (offset_upper_bound_ms previous + WALL_CLOCK_STEP_LIMIT_MS) <? lower)
  || (upper <? saturating_i64 (offset_lower_bound_ms previous - WALL_CLOCK_STEP_LIMIT_MS)).

Definition observe (self : ClockEstimator) (o : ClockProbeObservation) (observed_at_monotonic_ms : N) :
    result ClockEstimate ClockError * ClockEstimator :=
  if negb (len (expected_nonce o) =? 16)%N || negb (len (echoed_nonce o) =? 16)%N
     || negb (bool_decide (echoed_nonce o = expected_nonce o))
  then (Err NonceMismatch, invalidate self)
  else if (client_send_unix_ms o <=? 0) || (agent_receive_unix_ms o <=? 0)
          || (agent_send_unix_ms o <=? 0) || (client_receive_unix_ms o <=? 0)
          || (client_receive_unix_ms o <? client_send_unix_ms o)
          || (agent_send_unix_ms o <? agent_receive_unix_ms o)
  then (Err ImpossibleOrdering, invalidate self)
  else
    match elapsed (client_receive_unix_ms o) (client_send_unix_ms o) with
    | None => (Err ImpossibleOrdering, self)
    | Some client_elapsed =>
        match elapsed (agent_send_unix_ms o) (agent_receive_unix_ms o) with
        | None => (Err ImpossibleOrdering, self)
        | Some agent_elapsed =>
            if (client_elapsed =? 0)%N || (client_elapsed <? agent_elapsed)%N then
              (Err ImpossibleOrdering, invalidate self)
            else if (maximum_rtt_ms self <? client_elapsed)%N then
              (Err RttOutlier, invalidate self)
            else
              let lower := saturating_i64 (agent_send_unix_ms o - client_receive_unix_ms o) in
              let upper := saturating_i64 (agent_receive_unix_ms o - client_send_unix_ms o) in
              if upper <? lower then (Err ImpossibleOrdering, invalidate self)
              else if is_some_and (current self) (λ previous, wall_clock_step previous lower upper)
              then (Err WallClockStep, invalidate self)
              else
                let estimate := mkEstimate client_elapsed lower upper observed_at_monotonic_ms in
                (Ok estimate, mkEstimator (maximum_rtt_ms self) (Some estimate))
        end
    end.

Definition current_at (self : ClockEstimator) (now_monotonic_ms : N) : option ClockEstimate :=
  opt_filter (current self)
    (λ estimate, (saturating_sub now_monotonic_ms (observed_at_monotonic_ms estimate)
                  <=? ESTIMATE_EXPIRY)%N).

Definition BACKOFF_MS : list N := [250; 500; 1000; 2000; 4000; 5000]%N.

(** [None] is an index out of bounds. *)
Definition reconnect_backoff (attempt : nat) : option N :=
  BACKOFF_MS !! Nat.min attempt (length BACKOFF_MS - 1).

(** ** Lemmas *)

Definition timestamps_ok (o : ClockProbeObservation) : Prop :=
  is_i64 (client_send_unix_ms o) ∧ is_i64 (agent_receive_unix_ms o) ∧
  is_i64 (agent_send_unix_ms o) ∧ is_i64 (client_receive_unix_ms o).

Lemma elapsed_exact later earlier :
  0 < earlier → earlier ≤ later → later ≤ i64_max → elapsed later earlier = Some (Z.to_N (later - earlier)).
Proof.
  intros H0 H1 H2. unfold elapsed, checked_i64.
  assert (((i64_min <=? later - earlier) && (later - earlier <=? i64_max)) = true) as ->
    by (apply andb_true_iff; rewrite !Z.leb_le; unfold i64_min, i64_max in *; lia).
  simpl. destruct (Z.ltb_spec (later - earlier) 0); [lia|done].
Qed.

Lemma saturating_exact z : is_i64 z → saturating_i64 z = z.
Proof. unfold is_i64, saturating_i64. lia. Qed.

(** What an accepted probe satisfies, and the estimate it gives. *)
Lemma observe_ok self o now e self' :
  timestamps_ok o → observe self o now = (Ok e, self') →
  0 < client_send_unix_ms o ∧ 0 < agent_receive_unix_ms o ∧
  agent_receive_unix_ms o ≤ agent_send_unix_ms o ∧ client_send_unix_ms o < client_receive_unix_ms o ∧
  agent_send_unix_ms o - agent_receive_unix_ms o ≤ client_receive_unix_ms o - client_send_unix_ms o ∧
  echoed_nonce o = expected_nonce o ∧ len (echoed_nonce o) = 16%N ∧
  (Z.to_N (client_receive_unix_ms o - client_send_unix_ms o) ≤ maximum_rtt_ms self)%N ∧
  e = mkEstimate (Z.to_N (client_receive_unix_ms o - client_send_unix_ms o))
        (agent_send_unix_ms o - client_receive_unix_ms o)
        (agent_receive_unix_ms o - client_send_unix_ms o) now ∧
  self' = mkEstimator (maximum_rtt_ms self) (Some e) ∧
  is_some_and (current self) (λ previous, wall_clock_step previous
    (offset_lower_bound_ms e) (offset_upper_bound_ms e)) = false.
Proof.
  intros (T1 & T2 & T3 & T4). unfold observe.
  step_if; [done|]. step_if; [done|]. reflect_bool.
  rewrite elapsed_exact; [|lia|lia|apply T4]. rewrite elapsed_exact; [|lia|lia|apply T3].
  step_if; [done|]. step_if; [done|]. step_if; [done|]. step_if; [done|]. intros [= <- <-].
  reflect_bool.
  rewrite !saturating_exact in * by (unfold is_i64, i64_min, i64_max in *; lia).
  split_and!; try done; lia.
Qed.

(** No error leaves an estimate behind. *)
Lemma observe_err self o now err self' :
  timestamps_ok o → observe self o now = (Err err, self') → self' = invalidate self.
Proof.
  intros (T1 & T2 & T3 & T4). unfold observe.
  step_if; [by intros [= _ <-]|]. step_if; [by intros [= _ <-]|]. reflect_bool.
  rewrite elapsed_exact; [|lia|lia|apply T4]. rewrite elapsed_exact; [|lia|lia|apply T3].
  repeat (step_if; [by intros [= _ <-]|]). done.
Qed.

Lemma wall_clock_step_false previous lower upper :
  is_i64 (offset_lower_bound_ms previous) → is_i64 (offset_upper_bound_ms previous) →
  is_i64 lower → is_i64 upper → wall_clock_step previous lower upper = false →
  lower ≤ offset_upper_bound_ms previous + WALL_CLOCK_STEP_LIMIT_MS ∧
  offset_lower_bound_ms previous - WALL_CLOCK_STEP_LIMIT_MS ≤ upper.
Proof.
  unfold wall_clock_step, is_i64, saturating_i64, WALL_CLOCK_STEP_LIMIT_MS. intros. reflect_bool. lia.
Qed.

(** ** Properties *)

(** The four timestamps of an exchange with two one-way delays [d1] and [d3], a
    processing time [d2] and an agent clock [offset] ahead of ours. *)
Definition exchange (o : ClockProbeObservation) (offset d1 d2 d3 : Z) : Prop :=
  0 ≤ d1 ∧ 0 ≤ d2 ∧ 0 ≤ d3 ∧
  agent_receive_unix_ms o = client_send_unix_ms o + d1 + offset ∧
  agent_send_unix_ms o = agent_receive_unix_ms o + d2 ∧
  client_receive_unix_ms o = client_send_unix_ms o + d1 + d2 + d3.

(** The estimator is sound. An accepted probe's bounds contain the true offset
    of the agent's clock, whatever the delays of the exchange, are at most a round
    trip apart, and the round trip bounds the delay of the answer, so the age bound of
    a sample is never too low; no saturating operation loses anything. A refused probe
    leaves no estimate, and an estimate is served for exactly ninety seconds. *)
Theorem observe_sound (self : ClockEstimator) (o : ClockProbeObservation) (now later : N)
    (offset d1 d2 d3 : Z) :
  timestamps_ok o → exchange o offset d1 d2 d3 →
  match observe self o now with
  | (Ok e, self') =>
      offset_lower_bound_ms e ≤ offset ≤ offset_upper_bound_ms e ∧
      offset_upper_bound_ms e - offset_lower_bound_ms e ≤ Z.of_N (full_rtt_upper_bound_ms e) ∧
      d1 + d3 ≤ Z.of_N (full_rtt_upper_bound_ms e) ∧ (full_rtt_upper_bound_ms e ≤ maximum_rtt_ms self)%N ∧
      (current_at self' later = Some e ↔ (later ≤ now + ESTIMATE_EXPIRY)%N)
  | (Err _, self') => current_at self' later = None
  end.
Proof.
  intros Ht (H1 & H2 & H3 & E1 & E2 & E3). destruct (observe self o now) as [[e|err] self'] eqn:Ho.
  - apply observe_ok in Ho as (P1 & P2 & P3 & P4 & P5 & _ & _ & Hmax & -> & -> & _); [|done].
    cbn [offset_lower_bound_ms offset_upper_bound_ms full_rtt_upper_bound_ms].
    rewrite Z2N.id by lia. split; [lia|]. split; [lia|]. split; [lia|]. split; [done|].
    unfold current_at, opt_filter. cbn [current observed_at_monotonic_ms]. unfold saturating_sub.
    destruct (N.leb_spec (later - now) ESTIMATE_EXPIRY); split; intros; try done; lia.
  - by apply observe_err in Ho as ->.
Qed.

Definition demo_nonce : bytes := repeat Byte.x05 16.

Lemma observe_sound_witness :
  let o := mkObservation demo_nonce demo_nonce 1000 51030 51040 1075 in
  exchange o 50000 30 10 35 ∧
  match observe (new 500) o 7 with
  | (Ok e, _) => offset_lower_bound_ms e ≤ 50000 ≤ offset_upper_bound_ms e
  | _ => False
  end.
Proof.
  intros o.
  assert (exchange o 50000 30 10 35) as He by (unfold exchange; simpl; lia).
  split; [exact He|].
  assert (timestamps_ok o) as Ht by (unfold timestamps_ok, is_i64, i64_min, i64_max; simpl; lia).
  pose proof (observe_sound (new 500) o 7 7 50000 30 10 35 Ht He) as H.
  destruct (observe (new 500) o 7) as [[e|err] self'] eqn:E.
  - exact (proj1 H).
  - vm_compute in E. discriminate.
Defined.

(** The backoff never indexes out of bounds, never decreases and is capped. *)
Lemma reconnect_backoff_total attempt :
  ∃ ms, reconnect_backoff attempt = Some ms ∧ (250 ≤ ms ≤ 5000)%N ∧
    ((5 ≤ attempt)%nat → ms = 5000%N).
Proof.
  unfold reconnect_backoff. destruct (decide (5 ≤ attempt)%nat) as [Hge|Hlt].
  - rewrite Nat.min_r by (simpl; lia). exists 5000%N. split; [done|]. split; [lia|done].
  - destruct attempt as [|[|[|[|[|n]]]]]; [..|lia]; (eexists; split; [reflexivity|]; split; [lia|lia]).
Qed.
