(* ===== verification/Wire.v ===== *)
(** * Telemetry messages

    Models [crates/pal-telemetry/src/wire.rs]: the validation of every telemetry
    message, over the message types of [proto/palcompanion/v2/telemetry.proto] from
    which the protobuf compiler generates the Rust structs. Protobuf's decoder itself
    is an argument. *)

From S2P Require Import Prelude Floats Settings Position.

Definition PROTOCOL_VERSION : N := 2.
Definition MAX_DECODED_MESSAGE_SIZE : N := 64 * 1024.

(** ** Messages *)

Record ResumeCursor := mkResume { resume_boot_id : bytes; resume_sequence : N }.

Record GetDescriptorRequest := mkDescriptorRequest { gdr_protocol_version : N }.

Record SubscribeRequest := mkSubscribeRequest {
  sr_protocol_version : N;
  sr_world_alias : string;
  sr_subject_id : bytes;
  sr_resume : option ResumeCursor;
}.

Record ClockProbeRequest := mkProbeRequest {
  cpq_protocol_version : N;
  cpq_nonce : bytes;
  cpq_client_send_unix_ms : Z;
}.

Record ClockProbeResponse := mkProbeResponse {
  cpr_nonce : bytes;
  cpr_client_send_unix_ms : Z;
  cpr_agent_receive_unix_ms : Z;
  cpr_agent_send_unix_ms : Z;
}.

Record GetDescriptorResponse := mkDescriptor {
  gd_protocol_version : N;
  gd_agent_version : string;
  gd_rest_server_version : string;
  gd_server_fingerprint : string;
  gd_gate_profile_sha256 : string;
  gd_selected_interval_ms : N;
  gd_world_alias : string;
  gd_coordinate_space : Z;
  gd_coordinate_profile_sha256 : string;
}.

Inductive CoordinateSpace := CsUnspecified | OfficialGameDataWorldV1.
#[export] Instance CoordinateSpace_eq_dec : EqDecision CoordinateSpace.
Proof. solve_decision. Defined.

Inductive HeadingSource := HsUnspecified | RotationZValidated | MotionVectorDiagnostic.
#[export] Instance HeadingSource_eq_dec : EqDecision HeadingSource.
Proof. solve_decision. Defined.

Record SubscribeResponse := mkEnvelope {
  protocol_version : N;
  world_alias : string;
  subject_id : bytes;
  boot_id : bytes;
  sequence : N;
  rest_completed_at_unix_ms : Z;
  age_at_emit_ms : N;
  position_x : f64;
  position_y : f64;
  position_z : f64;
  heading_degrees : option f32;
  heading_source : Z;
  trace_id : bytes;
  coordinate_space : Z;
  coordinate_profile_sha256 : string;
}.

(** [TryFrom<i32>] of the generated enumerations: the numbers of the [.proto] file. *)
Definition coordinate_space_try_from (n : Z) : option CoordinateSpace :=
  if (n =? 0)%Z then Some CsUnspecified
  else if (n =? 1)%Z then Some OfficialGameDataWorldV1 else None.
Definition heading_source_try_from (n : Z) : option HeadingSource :=
  if (n =? 0)%Z then Some HsUnspecified
  else if (n =? 1)%Z then Some RotationZValidated
  else if (n =? 2)%Z then Some MotionVectorDiagnostic else None.

(** ** Validation *)

Inductive ValidationError :=
| VeProtocolVersion | VeIdentity | VeCursor | VeSequence | VePosition | VeHeading | VeTimestamp
| VeDigest | VeGateInterval | VeCoordinateProfile | VeClockNonce | VeMessageTooLarge | VeDecode.
#[export] Instance ValidationError_eq_dec : EqDecision ValidationError.
Proof. solve_decision. Defined.

Definition validate_protocol (protocol_version : N) : result unit ValidationError :=
  if protocol_version =? PROTOCOL_VERSION then Ok tt else Err VeProtocolVersion.

Definition validate_world_alias (value : string) : result unit ValidationError :=
  if negb (str_is_empty value) && (str_len value <=? 64) && str_is_ascii value
  then Ok tt else Err VeIdentity.

Definition validate_len (value : bytes) (expected : N) : result unit ValidationError :=
  if len value =? expected then Ok tt else Err VeIdentity.

Definition validate_timestamp (value : Z) : result unit ValidationError :=
  if (0 <? value)%Z then Ok tt else Err VeTimestamp.

Definition canonical_digit (byte : N) : bool :=
  is_ascii_digit byte || ((97 <=? byte) && (byte <=? 102)).

Definition validate_canonical_sha256 (value : string) : result unit ValidationError :=
  if (str_len value =? 64) && str_all canonical_digit value then Ok tt else Err VeDigest.

Definition validate_coordinate_binding (space : Z) (profile expected_profile : string) :
    result unit ValidationError :=
  let? _ := validate_canonical_sha256 expected_profile in
  if negb (bool_decide (coordinate_space_try_from space = Some OfficialGameDataWorldV1)) then
    Err VeCoordinateProfile
  else
    let? _ := validate_canonical_sha256 profile in
    if String.eqb profile expected_profile then Ok tt else Err VeCoordinateProfile.

Definition validate_descriptor_request (value : GetDescriptorRequest) : result unit ValidationError :=
  validate_protocol (gdr_protocol_version value).

Definition validate_subscribe_request (value : SubscribeRequest) : result unit ValidationError :=
  let? _ := validate_protocol (sr_protocol_version value) in
  let? _ := validate_world_alias (sr_world_alias value) in
  let? _ := validate_len (sr_subject_id value) 32 in
  match sr_resume value with
  | None => Ok tt
  | Some resume =>
      let? _ := validate_len (resume_boot_id resume) 16 in
      if resume_sequence resume =? 0 then Err VeCursor else Ok tt
  end.

Definition validate_clock_probe_request (value : ClockProbeRequest) : result unit ValidationError :=
  let? _ := validate_protocol (cpq_protocol_version value) in
  if negb (len (cpq_nonce value) =? 16) then Err VeClockNonce
  else validate_timestamp (cpq_client_send_unix_ms value).

Definition validate_clock_probe_response (value : ClockProbeResponse) : result unit ValidationError :=
  if negb (len (cpr_nonce value) =? 16) then Err VeClockNonce
  else
    let? _ := validate_timestamp (cpr_client_send_unix_ms value) in
    let? _ := validate_timestamp (cpr_agent_receive_unix_ms value) in
    let? _ := validate_timestamp (cpr_agent_send_unix_ms value) in
    if (cpr_agent_send_unix_ms value <? cpr_agent_receive_unix_ms value)%Z
    then Err VeTimestamp else Ok tt.

Definition validate_descriptor (value : GetDescriptorResponse) (expected_profile : string) :
    result unit ValidationError :=
  let? _ := validate_protocol (gd_protocol_version value) in
  let? _ := validate_world_alias (gd_world_alias value) in
  if str_is_empty (gd_agent_version value) || str_is_empty (gd_rest_server_version value) then
    Err VeIdentity
  else
    let? _ := validate_canonical_sha256 (gd_server_fingerprint value) in
    let? _ := validate_canonical_sha256 (gd_gate_profile_sha256 value) in
    if negb (contains [2000; 1000; 500] (gd_selected_interval_ms value)) then Err VeGateInterval
    else validate_coordinate_binding (gd_coordinate_space value)
           (gd_coordinate_profile_sha256 value) expected_profile.

(** The [match] on heading and source. *)
Definition validate_heading (heading : option f32) (source : option HeadingSource) :
    result unit ValidationError :=
  match heading, source with
  | None, Some HsUnspecified => Ok tt
  | Some heading, Some source =>
      if is_finite heading && in_range_excl (f32_lit 0 1) (f32_lit 360 1) heading
         && negb (bool_decide (source = HsUnspecified))
      then Ok tt else Err VeHeading
  | _, _ => Err VeHeading
  end.

Definition validate_envelope (value : SubscribeResponse) (expected_profile : string) :
    result unit ValidationError :=
  let? _ := validate_protocol (protocol_version value) in
  let? _ := validate_world_alias (world_alias value) in
  let? _ := validate_len (subject_id value) 32 in
  let? _ := validate_len (boot_id value) 16 in
  let? _ := validate_len (trace_id value) 16 in
  if sequence value =? 0 then Err VeSequence
  else
    let? _ := validate_timestamp (rest_completed_at_unix_ms value) in
    if negb (is_finite (position_x value)) || negb (is_finite (position_y value))
       || negb (is_finite (position_z value))
    then Err VePosition
    else
      let? _ := validate_heading (heading_degrees value)
                  (heading_source_try_from (heading_source value)) in
      validate_coordinate_binding (coordinate_space value) (coordinate_profile_sha256 value)
        expected_profile.

Definition decode_envelope (decode : bytes → option SubscribeResponse) (bs : bytes) :
    result SubscribeResponse ValidationError :=
  if MAX_DECODED_MESSAGE_SIZE <? len bs then Err VeMessageTooLarge
  else ok_or (decode bs) VeDecode.

(** ** Specification *)

Definition canonical_sha256 (s : string) : Prop :=
  str_len s = 64 ∧ str_all canonical_digit s = true.

Record valid_envelope (e : SubscribeResponse) (profile : string) : Prop := {
  env_protocol : protocol_version e = PROTOCOL_VERSION;
  env_alias : world_alias e ≠ "" ∧ str_len (world_alias e) ≤ 64 ∧ str_is_ascii (world_alias e) = true;
  env_subject : len (subject_id e) = 32;
  env_boot : len (boot_id e) = 16;
  env_trace : len (trace_id e) = 16;
  env_sequence : sequence e ≠ 0;
  env_timestamp : (0 < rest_completed_at_unix_ms e)%Z;
  env_position : is_finite (position_x e) = true ∧ is_finite (position_y e) = true ∧
    is_finite (position_z e) = true;
  env_heading :
    (heading_degrees e = None ∧ heading_source e = 0%Z) ∨
    ∃ h, heading_degrees e = Some h ∧ in_range_excl (f32_lit 0 1) (f32_lit 360 1) h = true ∧
      is_finite h = true ∧ (heading_source e = 1 ∨ heading_source e = 2)%Z;
  env_space : coordinate_space e = 1%Z;
  env_profile : coordinate_profile_sha256 e = profile ∧ canonical_sha256 profile;
}.

Lemma if_ok {E} (b : bool) (e : E) : (if b then Ok tt else Err e) = Ok tt ↔ b = true.
Proof. by destruct b. Qed.

Lemma and_then_unit {B E} (r : result unit E) (k : result B E) b :
  (let? _ := r in k) = Ok b ↔ r = Ok tt ∧ k = Ok b.
Proof.
  rewrite and_then_ok. split; [by intros ([] & ? & ?)|intros [? ?]; by exists tt].
Qed.

Lemma validate_world_alias_ok s :
  validate_world_alias s = Ok tt ↔ s ≠ "" ∧ str_len s ≤ 64 ∧ str_is_ascii s = true.
Proof.
  unfold validate_world_alias. rewrite if_ok, !andb_true_iff, negb_true_iff, N.leb_le.
  destruct s; simpl; intuition congruence.
Qed.

Lemma validate_canonical_sha256_ok s : validate_canonical_sha256 s = Ok tt ↔ canonical_sha256 s.
Proof.
  unfold validate_canonical_sha256, canonical_sha256. by rewrite if_ok, andb_true_iff, N.eqb_eq.
Qed.

Lemma coordinate_space_official n :
  coordinate_space_try_from n = Some OfficialGameDataWorldV1 ↔ n = 1%Z.
Proof.
  unfold coordinate_space_try_from. destruct (Z.eqb_spec n 0); [split; [done|lia]|].
  destruct (Z.eqb_spec n 1); split; done.
Qed.

Lemma validate_coordinate_binding_ok space profile expected :
  validate_coordinate_binding space profile expected = Ok tt ↔
  space = 1%Z ∧ profile = expected ∧ canonical_sha256 expected.
Proof.
  unfold validate_coordinate_binding. rewrite and_then_unit, validate_canonical_sha256_ok.
  destruct (bool_decide (coordinate_space_try_from space = _)) eqn:Hs; reflect_bool;
    rewrite coordinate_space_official in Hs; simpl; [|intuition congruence].
  rewrite and_then_unit, validate_canonical_sha256_ok, if_ok, String.eqb_eq.
  intuition (subst; auto).
Qed.

Lemma validate_heading_ok heading source :
  validate_heading heading (heading_source_try_from source) = Ok tt ↔
  (heading = None ∧ source = 0%Z) ∨
  ∃ h, heading = Some h ∧ in_range_excl (f32_lit 0 1) (f32_lit 360 1) h = true ∧ is_finite h = true ∧
    (source = 1 ∨ source = 2)%Z.
Proof.
  unfold validate_heading, heading_source_try_from. generalize (f32_lit 0 1) (f32_lit 360 1). intros lo hi.
  destruct heading as [h|].
  - transitivity (in_range_excl lo hi h = true ∧ is_finite h = true ∧ (source = 1 ∨ source = 2)%Z).
    2: { split; [intros; right; by exists h|]. by intros [[? _]|(? & [= <-] & ?)]. }
    destruct (Z.eqb_spec source 0) as [->|]; simpl; [rewrite andb_false_r; split; [done|lia]|].
    destruct (Z.eqb_spec source 1) as [->|]; simpl; [|destruct (Z.eqb_spec source 2) as [->|]; simpl].
    + rewrite andb_true_r, if_ok, andb_true_iff. tauto.
    + rewrite andb_true_r, if_ok, andb_true_iff. tauto.
    + split; [done|lia].
  - destruct (Z.eqb_spec source 0) as [->|]; simpl; [split; [by left|done]|].
    split; [|by intros [[_ ?]|(? & ? & _)]].
    by destruct (source =? 1)%Z, (source =? 2)%Z.
Qed.

Lemma validate_envelope_ok e profile : validate_envelope e profile = Ok tt ↔ valid_envelope e profile.
Proof.
  unfold validate_envelope. rewrite !and_then_unit, validate_world_alias_ok.
  unfold validate_protocol, validate_len, validate_timestamp. rewrite !if_ok, !N.eqb_eq.
  destruct (N.eqb_spec (sequence e) 0) as [H0|H0].
  { split; [intros (_ & _ & _ & _ & _ & ?); done|by intros []]. }
  rewrite and_then_unit, if_ok, Z.ltb_lt.
  destruct (is_finite (position_x e)) eqn:Hx; simpl;
    [|split; [intros (_ & _ & _ & _ & _ & _ & ?); done|intros []; intuition congruence]].
  destruct (is_finite (position_y e)) eqn:Hy; simpl;
    [|split; [intros (_ & _ & _ & _ & _ & _ & ?); done|intros []; intuition congruence]].
  destruct (is_finite (position_z e)) eqn:Hz; simpl;
    [|split; [intros (_ & _ & _ & _ & _ & _ & ?); done|intros []; intuition congruence]].
  rewrite and_then_unit, validate_heading_ok, validate_coordinate_binding_ok. split.
  - intros (? & ? & ? & ? & ? & ? & ? & ? & ? & ?). by constructor.
  - intros []. repeat (split; [assumption|]). assumption.
Qed.

(** ** Properties *)

(** An envelope passes validation exactly when every field satisfies its rule,
    and a validated envelope always makes a position sample: no later stage can fail
    on it. *)
Theorem validate_envelope_exact (e : SubscribeResponse) (profile : string) (generation : N)
    (clock : SampleClock.t) :
  (validate_envelope e profile = Ok tt ↔ valid_envelope e profile) ∧
  (validate_envelope e profile = Ok tt →
   is_ok (PositionSample.new (world_alias e) (subject_id e) (boot_id e) generation (sequence e)
            (position_x e) (position_y e) (position_z e) (heading_degrees e) clock) = true).
Proof.
  split; [apply validate_envelope_ok|]. intros Hv. apply validate_envelope_ok in Hv.
  destruct (PositionSample.new _ _ _ _ _ _ _ _ _ _) as [s|err] eqn:Hn; [done|].
  assert (PositionSample.acceptable (world_alias e) (subject_id e) (boot_id e)
    (position_x e) (position_y e) (position_z e) (heading_degrees e)) as Ha.
  { destruct Hv as [_ (? & _) Hs Hb _ _ _ (? & ? & ?) Hh _ _]. unfold PositionSample.acceptable.
    split; [done|]. split; [by intros E; rewrite E in Hs|]. split; [by intros E; rewrite E in Hb|].
    split_and!; try done. intros h Hd. destruct Hh as [[? _]|(h' & ? & _ & ? & _)]; congruence. }
  by rewrite (proj2 (PositionSample.sample_new_ok _ _ _ _ _ _ _ _ _ _ _) (conj Ha eq_refl)) in Hn.
Qed.

Definition demo_profile : string := string_of_list_ascii (repeat "a"%char 64).
Definition demo_envelope (q : N) : SubscribeResponse :=
  mkEnvelope 2 "world-a" (repeat Byte.x42 32) (repeat Byte.x11 16) q 1 0 (f64_of_Z 5) (f64_of_Z 0)
    (f64_of_Z 0) (Some (f32_lit 359 1)) 1 (repeat Byte.x33 16) 1 demo_profile.

Lemma validate_envelope_exact_witness :
  valid_envelope (demo_envelope 4) demo_profile ∧
  is_ok (PositionSample.new "world-a" (repeat Byte.x42 32) (repeat Byte.x11 16) 9 4
           (f64_of_Z 5) (f64_of_Z 0) (f64_of_Z 0) (Some (f32_lit 359 1)) (SampleClock.mk 0 0)) = true.
Proof.
  destruct (validate_envelope_exact (demo_envelope 4) demo_profile 9 (SampleClock.mk 0 0)) as [H1 H2].
  assert (validate_envelope (demo_envelope 4) demo_profile = Ok tt) as Hv by (vm_compute; reflexivity).
  split; [by apply H1|exact (H2 Hv)].
Defined.
