(* ===== verification/Latest.v ===== *)
(** * The latest-telemetry cell

    Models [crates/pal-telemetry/src/cursor.rs]: the sequence accounting of a
    subscriber ([SequenceCursor]), and the cell in which the agent publishes its most
    recent envelope ([LatestTelemetry]). Every method of the cell holds its mutex from
    the first read to the [send_replace] that makes the new value visible, so a method
    is one atomic step on [LatestTelemetry]; [signal] is the value of the watch
    channel. The retired-boot filter is the one of [BootFilter]. *)

From S2P Require Import Prelude BootFilter Floats Settings Position Wire.

(** ** The subscriber's cursor *)

Inductive SequenceDecision :=
| Accept
| AcceptWithGap (missing : N)
| DropDuplicate
| DropOutOfOrder.

Record SequenceDiagnostics := mkSeqDiagnostics {
  sd_gap_events : N;
  sd_missing_sequences : N;
  sd_duplicate_drops : N;
  sd_out_of_order_drops : N;
}.
#[export] Instance eta_SequenceDiagnostics : Eta SequenceDiagnostics := λ d,
  mkSeqDiagnostics (sd_gap_events d) (sd_missing_sequences d) (sd_duplicate_drops d)
    (sd_out_of_order_drops d).

Record SequenceCursor := mkCursor {
  cursor_boot_id : bytes;
  cursor_last_sequence : option N;
  cursor_diagnostics : SequenceDiagnostics;
}.
#[export] Instance eta_SequenceCursor : Eta SequenceCursor := λ c,
  mkCursor (cursor_boot_id c) (cursor_last_sequence c) (cursor_diagnostics c).

Definition SequenceCursor_new (boot_id : bytes) : SequenceCursor :=
  mkCursor boot_id None (mkSeqDiagnostics 0 0 0 0).

Definition decide_sequence (self : SequenceCursor) (sequence : N) : SequenceDecision * SequenceCursor :=
  match cursor_last_sequence self with
  | None => (Accept, self <| cursor_last_sequence := Some sequence |>)
  | Some previous =>
      if sequence =? previous then
        (DropDuplicate, self <| cursor_diagnostics ::= λ d, d <| sd_duplicate_drops ::= increment |> |>)
      else if sequence <? previous then
        (DropOutOfOrder,
          self <| cursor_diagnostics ::= λ d, d <| sd_out_of_order_drops ::= increment |> |>)
      else
        let self := self <| cursor_last_sequence := Some sequence |> in
        let missing := saturating_sub (saturating_sub sequence previous) 1 in
        if missing =? 0 then (Accept, self)
        else
          (AcceptWithGap missing,
            self <| cursor_diagnostics ::= λ d,
              d <| sd_gap_events ::= increment |>
                <| sd_missing_sequences ::= λ m, saturating_add m missing |> |>)
  end.

(** ** The cell *)

Inductive LatestConnectOutcome := LcAccepted | LcDropped | LcOldGenerationDropped.

Inductive LatestPublishOutcome :=
| LpAccepted
| LpAcceptedWithGap (missing : N)
| LpDuplicateDropped
| LpOutOfOrderDropped
| LpOldGenerationDropped
| LpRetiredBootDropped
| LpIdentityMismatchDropped
| LpBootMismatchDropped
| LpInvalidTransitionDropped.

Record LatestDiagnostics := mkLatestDiagnostics {
  accepted_samples : N;
  gap_events : N;
  missing_sequences : N;
  duplicate_drops : N;
  out_of_order_drops : N;
  old_generation_drops : N;
  retired_boot_drops : N;
  identity_mismatch_drops : N;
  boot_mismatch_drops : N;
  invalid_transition_drops : N;
}.
#[export] Instance eta_LatestDiagnostics : Eta LatestDiagnostics := λ d,
  mkLatestDiagnostics (accepted_samples d) (gap_events d) (missing_sequences d)
    (duplicate_drops d) (out_of_order_drops d) (old_generation_drops d) (retired_boot_drops d)
    (identity_mismatch_drops d) (boot_mismatch_drops d) (invalid_transition_drops d).

Definition LatestDiagnostics_default : LatestDiagnostics := mkLatestDiagnostics 0 0 0 0 0 0 0 0 0 0.

Inductive LatestSignal := Open (value : option SubscribeResponse) | Closed.

Inductive LatestTelemetryError := Validation | LtClosed.

(** [LatestInner] with the [LatestState] inside its mutex. *)
Record LatestTelemetry := mkLatest {
  expected_world_alias : string;
  expected_subject_id : bytes;
  expected_coordinate_profile_sha256 : string;
  closed : bool;
  generation : N;
  active_boot_id : option bytes;
  last_sequence : option N;
  retired_boots : RetiredBootFilter;
  diagnostics : LatestDiagnostics;
  signal : LatestSignal;
}.
#[export] Instance eta_LatestTelemetry : Eta LatestTelemetry := λ l,
  mkLatest (expected_world_alias l) (expected_subject_id l) (expected_coordinate_profile_sha256 l)
    (closed l) (generation l) (active_boot_id l) (last_sequence l) (retired_boots l)
    (diagnostics l) (signal l).

(** The envelope with which [new] checks the identity it is bound to. *)
Definition validation_sample (world_alias : string) (subject_id : bytes) (profile : string) :
    SubscribeResponse := {|
  protocol_version := PROTOCOL_VERSION;
  Wire.world_alias := world_alias;
  Wire.subject_id := subject_id;
  boot_id := replicate 16 Byte.x00;
  sequence := 1;
  rest_completed_at_unix_ms := 1;
  age_at_emit_ms := 0;
  position_x := f64_of_Z 0;
  position_y := f64_of_Z 0;
  position_z := f64_of_Z 0;
  heading_degrees := None;
  heading_source := 0;
  trace_id := replicate 16 Byte.x00;
  coordinate_space := 1;
  coordinate_profile_sha256 := profile |}.

(** [From<ValidationError>] and the failed [try_into]. *)
Definition as_validation {A E} (r : result A E) : result A LatestTelemetryError :=
  map_err (λ _, Validation) r.

(** [<[u8; N]>::try_from]. *)
Definition try_into_array (size : N) (bs : bytes) : result bytes LatestTelemetryError :=
  if len bs =? size then Ok bs else Err Validation.

Definition new (world_alias : string) (subject_id : bytes) (profile : string) :
    result LatestTelemetry LatestTelemetryError :=
  let? subject_id := try_into_array 32 subject_id in
  let? _ := as_validation (validate_envelope (validation_sample world_alias subject_id profile) profile) in
  Ok {|
    expected_world_alias := world_alias;
    expected_subject_id := subject_id;
    expected_coordinate_profile_sha256 := profile;
    closed := false;
    generation := 0;
    active_boot_id := None;
    last_sequence := None;
    retired_boots := RetiredBootFilter_default;
    diagnostics := LatestDiagnostics_default;
    signal := Open None |}.

Definition connect (self : LatestTelemetry) (g : N) : LatestConnectOutcome * LatestTelemetry :=
  if closed self then (LcDropped, self)
  else if (g =? 0) || (g =? generation self) then (LcDropped, self)
  else if g <? generation self then
    (LcOldGenerationDropped,
      self <| diagnostics ::= λ d, d <| old_generation_drops ::= increment |> |>)
  else
    let self :=
      match active_boot_id self with
      | Some boot_id =>
          self <| active_boot_id := None |>
               <| retired_boots := filter_insert (retired_boots self) boot_id |>
      | None => self
      end in
    (LcAccepted, self <| generation := g |> <| last_sequence := None |> <| signal := Open None |>).

(** The [match] on the last sequence: a drop, or the outcome of an accepted value. *)
Definition sequence_outcome (self : LatestTelemetry) (value : SubscribeResponse) :
    LatestPublishOutcome * bool * LatestTelemetry :=
  match last_sequence self with
  | Some previous =>
      if sequence value =? previous then
        (LpDuplicateDropped, false,
          self <| diagnostics ::= λ d, d <| duplicate_drops ::= increment |> |>)
      else if sequence value <? previous then
        (LpOutOfOrderDropped, false,
          self <| diagnostics ::= λ d, d <| out_of_order_drops ::= increment |> |>)
      else if saturating_add previous 1 <? sequence value then
        let missing := saturating_sub (saturating_sub (sequence value) previous) 1 in
        (LpAcceptedWithGap missing, true,
          self <| diagnostics ::= λ d,
            d <| gap_events ::= increment |>
              <| missing_sequences ::= λ m, saturating_add m missing |> |>)
      else (LpAccepted, true, self)
  | None => (LpAccepted, true, self)
  end.

(** The checks of the identity and the generation, in order. *)
Definition publish_drop (self : LatestTelemetry) (g : N) (value : SubscribeResponse) :
    option (LatestPublishOutcome * LatestTelemetry) :=
  if negb (String.eqb (Wire.world_alias value) (expected_world_alias self))
     || negb (bool_decide (Wire.subject_id value = expected_subject_id self)) then
    Some (LpIdentityMismatchDropped,
      self <| diagnostics ::= λ d, d <| identity_mismatch_drops ::= increment |> |>)
  else if g =? 0 then
    Some (LpInvalidTransitionDropped,
      self <| diagnostics ::= λ d, d <| invalid_transition_drops ::= increment |> |>)
  else if g <? generation self then
    Some (LpOldGenerationDropped,
      self <| diagnostics ::= λ d, d <| old_generation_drops ::= increment |> |>)
  else if negb (g =? generation self) then
    Some (LpInvalidTransitionDropped,
      self <| diagnostics ::= λ d, d <| invalid_transition_drops ::= increment |> |>)
  else None.

Definition publish (self : LatestTelemetry) (g : N) (value : SubscribeResponse) :
    result LatestPublishOutcome LatestTelemetryError * LatestTelemetry :=
  match validate_envelope value (expected_coordinate_profile_sha256 self) with
  | Err _ => (Err Validation, self)
  | Ok _ =>
      if closed self then (Err LtClosed, self)
      else
        match publish_drop self g value with
        | Some (outcome, self) => (Ok outcome, self)
        | None =>
            match try_into_array 16 (boot_id value) with
            | Err e => (Err e, self)
            | Ok boot_id =>
                if filter_contains (retired_boots self) boot_id then
                  (Ok LpRetiredBootDropped,
                    self <| diagnostics ::= λ d, d <| retired_boot_drops ::= increment |> |>)
                else if is_some_and (active_boot_id self) (λ active, negb (bool_decide (active = boot_id)))
                then
                  (Ok LpBootMismatchDropped,
                    self <| diagnostics ::= λ d, d <| boot_mismatch_drops ::= increment |> |>)
                else
                  match sequence_outcome self value with
                  | (outcome, false, self) => (Ok outcome, self)
                  | (outcome, true, self) =>
                      (Ok outcome,
                        self <| active_boot_id := Some boot_id |>
                             <| last_sequence := Some (sequence value) |>
                             <| diagnostics ::= λ d, d <| accepted_samples ::= increment |> |>
                             <| signal := Open (Some value) |>)
                  end
            end
        end
  end.

Definition current (self : LatestTelemetry) : option SubscribeResponse :=
  match signal self with Open value => value | Closed => None end.

Definition buffered_state_count (self : LatestTelemetry) : N :=
  match signal self with Open (Some _) => 1 | _ => 0 end.

Definition close (self : LatestTelemetry) : LatestTelemetry :=
  self <| closed := true |> <| signal := Closed |>.

Definition is_bound_to (self : LatestTelemetry) (world_alias : string) (subject_id : bytes)
    (profile : string) : bool :=
  String.eqb (expected_world_alias self) world_alias
  && bool_decide (expected_subject_id self = subject_id)
  && String.eqb (expected_coordinate_profile_sha256 self) profile.

(** ** Subscribers *)

Definition cursor_needs_current (resume : option ResumeCursor) (current : SubscribeResponse) : bool :=
  is_none_or resume (λ resume,
    negb (bool_decide (resume_boot_id resume = boot_id current))
    || (resume_sequence resume <? sequence current)).

(** What one turn of the loop of [next_after] does with the signal it borrows; [None]
    awaits a change. *)
Definition next_after_turn (resume : option ResumeCursor) (observed : LatestSignal) :
    option (result SubscribeResponse LatestTelemetryError) :=
  match observed with
  | Open (Some value) => if cursor_needs_current resume value then Some (Ok value) else None
  | Closed => Some (Err LtClosed)
  | Open None => None
  end.

(** [next_after] on the signals its receiver observes, one per turn; [None] is still
    pending. The sender lives as long as the cell, so [changed] never fails. *)
Fixpoint next_after (resume : option ResumeCursor) (observed : list LatestSignal) :
    option (result SubscribeResponse LatestTelemetryError) :=
  match observed with
  | [] => None
  | s :: observed =>
      match next_after_turn resume s with
      | Some r => Some r
      | None => next_after resume observed
      end
  end.

(** ** Sequence accounting *)

Definition decision_accepts (d : SequenceDecision) : bool :=
  match d with Accept | AcceptWithGap _ => true | _ => false end.

Definition decide_all (c : SequenceCursor) (l : list N) : list SequenceDecision * SequenceCursor :=
  fold_left (λ '(ds, c) q, let '(d, c) := decide_sequence c q in (ds ++ [d], c)) l ([], c).

Definition accepted_count (ds : list SequenceDecision) : N :=
  len (List.filter decision_accepts ds).

Lemma decide_all_snoc c l q :
  decide_all c (l ++ [q]) =
  let '(ds, c) := decide_all c l in let '(d, c) := decide_sequence c q in (ds ++ [d], c).
Proof. unfold decide_all. rewrite fold_left_app. by destruct (fold_left _ l _). Qed.

Lemma accepted_count_snoc ds d :
  accepted_count (ds ++ [d]) = accepted_count ds + if decision_accepts d then 1 else 0.
Proof.
  unfold accepted_count, len. rewrite List.filter_app, length_app. simpl.
  destruct (decision_accepts d); simpl; lia.
Qed.

(** The cursor after the sequences [first :: l]; [top] is the greatest of them. *)
Record accounted (first : N) (l : list N) (ds : list SequenceDecision) (c : SequenceCursor) (top : N) :
    Prop := {
  acc_length : length ds = length l;
  acc_last : cursor_last_sequence c = Some top;
  acc_first : head l = Some first;
  acc_top : top ∈ l ∧ Forall (λ q, q ≤ top) l;
  acc_decisions : ∀ i q d, l !! i = Some q → ds !! i = Some d →
    (decision_accepts d = true ↔ ∀ j p, (j < i)%nat → l !! j = Some p → p < q);
  acc_span : first ≤ top ∧
    accepted_count ds + sd_missing_sequences (cursor_diagnostics c) = top - first + 1;
  acc_total : accepted_count ds + sd_duplicate_drops (cursor_diagnostics c)
    + sd_out_of_order_drops (cursor_diagnostics c) = len l;
}.

Lemma accounted_init boot first :
  accounted first [first] [Accept] ((SequenceCursor_new boot) <| cursor_last_sequence := Some first |>) first.
Proof.
  constructor; try done.
  - split; [set_solver|by repeat constructor].
  - intros [|i] q d; simpl; [|done]. intros [= <-] [= <-]. split; [intros _ j p Hj; lia|done].
  - simpl. unfold accepted_count, len. simpl. lia.
Qed.

Lemma decisions_snoc {A} (P : nat → N → Prop) (l : list N) (ds : list A) (f : A → bool) q d :
  length ds = length l →
  (∀ i q d, l !! i = Some q → ds !! i = Some d → (f d = true ↔ P i q)) →
  (f d = true ↔ P (length l) q) →
  ∀ i q' d', (l ++ [q]) !! i = Some q' → (ds ++ [d]) !! i = Some d' → (f d' = true ↔ P i q').
Proof.
  intros Hlen H Hq i q' d' Hi Hd.
  apply lookup_snoc_Some in Hi as [[Hi Hl]|[-> <-]]; apply lookup_snoc_Some in Hd as [[Hi' Hl']|[Hi' <-]];
    try lia; eauto.
Qed.

Lemma earlier_snoc (l : list N) x q i :
  (i <= length l)%nat →
  (∀ j p, (j < i)%nat → (l ++ [x]) !! j = Some p → p < q) ↔
  (∀ j p, (j < i)%nat → l !! j = Some p → p < q).
Proof.
  intros Hi. split; intros H j p Hj Hl; apply (H j); try done.
  - by apply lookup_app_l_Some.
  - by rewrite lookup_app_l in Hl by lia.
Qed.

Lemma all_earlier (l : list N) top q :
  top ∈ l → Forall (λ p, p ≤ top) l →
  (∀ j p, (j < length l)%nat → l !! j = Some p → p < q) ↔ top < q.
Proof.
  intros Hin Hall. split.
  - intros H. apply list_elem_of_lookup in Hin as [j Hj]. by eapply H, Hj; eapply lookup_lt_Some.
  - intros Hq j p _ Hp. eapply Forall_lookup_1 in Hall; [|done]. simpl in Hall. lia.
Qed.

(** One more sequence, whatever the decision on it. *)
Lemma accounted_extend first l ds c top q d c' top' :
  accounted first l ds c top →
  cursor_last_sequence c' = Some top' → top' = N.max top q →
  (decision_accepts d = true ↔ top < q) →
  accepted_count (ds ++ [d]) + sd_missing_sequences (cursor_diagnostics c') = top' - first + 1 →
  accepted_count (ds ++ [d]) + sd_duplicate_drops (cursor_diagnostics c')
    + sd_out_of_order_drops (cursor_diagnostics c') = len l + 1 →
  accounted first (l ++ [q]) (ds ++ [d]) c' top'.
Proof.
  intros [Hlen Hlast Hfirst [Hin Hall] Hdec [Hle Hspan] Htot] Hlast' Htop' Hd Hspan' Htot'.
  constructor; try done.
  - by rewrite !length_app, Hlen.
  - by destruct l.
  - split.
    + rewrite elem_of_app, list_elem_of_singleton. destruct (N.max_spec top q) as [[_ E]|[_ E]];
        rewrite Htop', E; tauto.
    + apply Forall_app. split; [|constructor; [lia|done]].
      eapply Forall_impl; [exact Hall|]. simpl. lia.
  - intros i q' d' Hi Hd'.
    rewrite earlier_snoc by (apply lookup_lt_Some in Hi; rewrite length_app in Hi; simpl in Hi; lia).
    revert i q' d' Hi Hd'. apply (decisions_snoc (λ i q', ∀ j p, (j < i)%nat → l !! j = Some p → p < q')); try done.
    by rewrite all_earlier.
  - split; [lia|done].
  - rewrite Htot'. unfold len. rewrite length_app. simpl. lia.
Qed.

Lemma accounted_step first l ds c top q :
  accounted first l ds c top → is_u64 top → is_u64 q → len l < u64_max →
  let '(d, c') := decide_sequence c q in accounted first (l ++ [q]) (ds ++ [d]) c' (N.max top q).
Proof.
  intros Ha Ht Hq Hlen. unfold decide_sequence. rewrite (acc_last _ _ _ _ _ Ha).
  pose proof (acc_span _ _ _ _ _ Ha) as [Hf Hs]. pose proof (acc_total _ _ _ _ _ Ha) as Htot.
  destruct (N.eqb_spec q top) as [->|Hne].
  { eapply accounted_extend; [exact Ha|..]; cbn; rewrite ?accepted_count_snoc; cbn;
      try exact (acc_last _ _ _ _ _ Ha); try (split; [done|lia]); try int_lia.
    rewrite (acc_last _ _ _ _ _ Ha). f_equal. lia. }
  destruct (N.ltb_spec q top) as [Hlt|Hge].
  { eapply accounted_extend; [exact Ha|..]; cbn; rewrite ?accepted_count_snoc; cbn;
      try (split; [done|lia]); try int_lia.
    rewrite (acc_last _ _ _ _ _ Ha). f_equal. lia. }
  destruct (N.eqb_spec (saturating_sub (saturating_sub q top) 1) 0) as [Hm|Hm];
    (eapply accounted_extend; [exact Ha|..]; cbn; rewrite ?accepted_count_snoc; cbn;
      try (f_equal; lia); try (split; [lia|done]); int_lia).
Qed.

Lemma decide_all_accounted boot first rest :
  Forall is_u64 (first :: rest) → len (first :: rest) ≤ u64_max →
  let '(ds, c) := decide_all (SequenceCursor_new boot) (first :: rest) in
  ∃ top, is_u64 top ∧ accounted first (first :: rest) ds c top.
Proof.
  induction rest as [|q rest IH] using rev_ind; intros Hr Hlen.
  - exists first. split; [by inversion_clear Hr|]. apply accounted_init.
  - rewrite app_comm_cons in *. apply Forall_app in Hr as [Hr Hq]. inversion_clear Hq as [|? ? Hu _].
    assert (len (first :: rest) < u64_max) as Hlt
      by (unfold len in *; rewrite length_app in Hlen; simpl in *; lia).
    rewrite decide_all_snoc. specialize (IH Hr ltac:(lia)).
    destruct (decide_all _ (first :: rest)) as [ds c]. destruct IH as (top & Ht & Ha).
    pose proof (accounted_step _ _ _ _ _ q Ha Ht Hu Hlt) as Hstep.
    destruct (decide_sequence c q) as [d c']. exists (N.max top q).
    split; [unfold is_u64 in *; lia|done].
Qed.

(** ** Invariant of the cell *)

Record latest_inv (l : LatestTelemetry) : Prop := {
  inv_filter : length (bits (retired_boots l)) = 32%nat;
  inv_active : ∀ b, active_boot_id l = Some b → filter_contains (retired_boots l) b = false;
  inv_signal :
    match signal l with
    | Closed => closed l = true
    | Open None => closed l = false ∧ active_boot_id l = None ∧ last_sequence l = None
    | Open (Some v) =>
        closed l = false ∧ generation l ≠ 0 ∧
        valid_envelope v (expected_coordinate_profile_sha256 l) ∧
        Wire.world_alias v = expected_world_alias l ∧ Wire.subject_id v = expected_subject_id l ∧
        active_boot_id l = Some (boot_id v) ∧ last_sequence l = Some (sequence v)
    end;
}.

(** The state moved on from [l] to [l']: the identity is kept, generations grow, within
    one the boot stays and sequences grow, and left boots are retired for good. *)
Record moved_on (l l' : LatestTelemetry) : Prop := {
  mv_identity : expected_world_alias l' = expected_world_alias l ∧
    expected_subject_id l' = expected_subject_id l ∧
    expected_coordinate_profile_sha256 l' = expected_coordinate_profile_sha256 l;
  mv_closed : closed l = true → closed l' = true;
  mv_generation : generation l ≤ generation l';
  mv_same : generation l = generation l' →
    (∀ b, active_boot_id l = Some b → active_boot_id l' = Some b) ∧
    (∀ q, last_sequence l = Some q → ∃ q', last_sequence l' = Some q' ∧ q ≤ q');
  mv_retired : ∀ b, filter_contains (retired_boots l) b = true →
    filter_contains (retired_boots l') b = true;
  mv_left : generation l < generation l' → ∀ b, active_boot_id l = Some b →
    filter_contains (retired_boots l') b = true;
}.

Lemma moved_on_refl l : moved_on l l.
Proof. constructor; try done; try lia. intros _. split; [done|]. intros q ?. by exists q. Qed.

Lemma moved_on_trans l1 l2 l3 : moved_on l1 l2 → moved_on l2 l3 → moved_on l1 l3.
Proof.
  intros [(I1 & I2 & I3) C1 G1 S1 R1 L1] [(J1 & J2 & J3) C2 G2 S2 R2 L2]. constructor.
  - split_and!; congruence.
  - auto.
  - lia.
  - intros E. destruct S1 as [A1 Q1]; [lia|]. destruct S2 as [A2 Q2]; [lia|]. split; [auto|].
    intros q (q' & (q'' & ? & ?)%Q2 & ?)%Q1. exists q''. split; [done|lia].
  - auto.
  - intros Hlt b Hb. destruct (decide (generation l1 = generation l2)) as [E|E].
    + apply L2; [lia|]. by apply S1.
    + apply R2, L1; [lia|done].
Qed.

Lemma moved_on_diagnostics l d : moved_on l (l <| diagnostics := d |>).
Proof. destruct (moved_on_refl l). by constructor. Qed.

Lemma latest_inv_diagnostics l d : latest_inv l → latest_inv (l <| diagnostics := d |>).
Proof. by intros []. Qed.

#[local] Hint Resolve moved_on_refl moved_on_diagnostics latest_inv_diagnostics : pal.

Lemma try_into_array_ok size bs a : try_into_array size bs = Ok a ↔ a = bs ∧ len bs = size.
Proof.
  unfold try_into_array. destruct (N.eqb_spec (len bs) size); split; [by intros [= <-]|by intros [-> _]|done|lia].
Qed.

Lemma latest_new_inv w s p l :
  new w s p = Ok l →
  latest_inv l ∧ expected_world_alias l = w ∧ expected_subject_id l = s ∧
  expected_coordinate_profile_sha256 l = p ∧ signal l = Open None.
Proof.
  unfold new. rewrite and_then_ok. intros (s' & [-> Hs]%try_into_array_ok & H).
  apply and_then_ok in H as ([] & _ & [= <-]). split; [by constructor|done].
Qed.

Lemma connect_moves l g : latest_inv l → latest_inv (connect l g).2 ∧ moved_on l (connect l g).2.
Proof.
  intros Hi. unfold connect. destruct (closed l) eqn:Hc; [by split; auto with pal|].
  destruct ((g =? 0) || _)%bool eqn:Hg; [by split; auto with pal|].
  destruct (N.ltb_spec g (generation l)); [split; [by apply (latest_inv_diagnostics l)|apply (moved_on_diagnostics l)]|]. reflect_bool.
  destruct (active_boot_id l) as [b|] eqn:Hb; cbn.
  - destruct (filter_insert_spec (retired_boots l) b (inv_filter _ Hi)) as (F1 & F2 & F3).
    split; constructor; cbn; try done; try lia. intros _ b' ?. by simplify_eq.
  - destruct Hi as [Hf Ha Hs]. split; constructor; cbn; try done; try lia; intros; congruence.
Qed.

Lemma gap_missing p q : is_u64 q → saturating_add p 1 < q → q - p - 1 ≠ 0.
Proof. int_lia. Qed.

Lemma no_gap p q : is_u64 q → q ≤ saturating_add p 1 → 0 = q - p - 1.
Proof. int_lia. Qed.

Lemma sequence_outcome_spec l v o a l' :
  sequence_outcome l v = (o, a, l') →
  (∃ d, l' = l <| diagnostics := d |>) ∧
  (a = true ↔ ∀ p, last_sequence l = Some p → p < sequence v) ∧
  (a = true → is_u64 (sequence v) → ∃ missing,
     missing = match last_sequence l with Some p => sequence v - p - 1 | None => 0 end ∧
     o = if missing =? 0 then LpAccepted else LpAcceptedWithGap missing).
Proof.
  unfold sequence_outcome. destruct (last_sequence l) as [p|] eqn:Hp.
  2: { intros [= <- <- <-]. split; [exists (diagnostics l); by destruct l|]. split; [done|]. intros _ _. by exists 0. }
  destruct (N.eqb_spec (sequence v) p).
  { intros [= <- <- <-]. split; [by eexists|]. split; [|done]. split; [done|].
    intros H. specialize (H p eq_refl). exfalso. lia. }
  destruct (N.ltb_spec (sequence v) p).
  { intros [= <- <- <-]. split; [by eexists|]. split; [|done]. split; [done|].
    intros H'. specialize (H' p eq_refl). exfalso. lia. }
  assert (∀ p', Some p = Some p' → p' < sequence v) by (intros ? [= <-]; lia).
  destruct (N.ltb_spec (saturating_add p 1) (sequence v)) as [Hgap|Hgap]; intros [= <- <- <-].
  - split; [by eexists|]. split; [done|]. intros _ Hu. exists (sequence v - p - 1). split; [done|].
    pose proof (gap_missing p (sequence v) Hu Hgap) as Hm. apply N.eqb_neq in Hm. by rewrite Hm.
  - split; [exists (diagnostics l); by destruct l|]. split; [done|]. intros _ Hu. exists 0.
    split; [by apply no_gap|done].
Qed.

Lemma publish_drop_spec l g v :
  match publish_drop l g v with
  | Some (_, l') => ∃ d, l' = l <| diagnostics := d |>
  | None => Wire.world_alias v = expected_world_alias l ∧ Wire.subject_id v = expected_subject_id l ∧
      g ≠ 0 ∧ g = generation l
  end.
Proof.
  unfold publish_drop. destruct (String.eqb_spec (Wire.world_alias v) (expected_world_alias l)); simpl;
    [|by eexists].
  case_bool_decide; simpl; [|by eexists].
  destruct (N.eqb_spec g 0); [by eexists|]. destruct (N.ltb_spec g (generation l)); [by eexists|].
  destruct (N.eqb_spec g (generation l)); simpl; [done|by eexists].
Qed.

(** What [publish] does: it accepts and shows the value, or changes counters alone. *)
Lemma publish_cases l g v r l' :
  publish l g v = (r, l') →
  (∃ d, l' = l <| diagnostics := d |> ∧ ∀ o, r = Ok o → o ≠ LpAccepted ∧ ∀ m, o ≠ LpAcceptedWithGap m) ∨
  ∃ d, validate_envelope v (expected_coordinate_profile_sha256 l) = Ok tt ∧ closed l = false ∧
    Wire.world_alias v = expected_world_alias l ∧ Wire.subject_id v = expected_subject_id l ∧
    g ≠ 0 ∧ g = generation l ∧ filter_contains (retired_boots l) (boot_id v) = false ∧
    (∀ b, active_boot_id l = Some b → b = boot_id v) ∧
    (∀ p, last_sequence l = Some p → p < sequence v) ∧
    (r = Ok LpAccepted ∨ ∃ m, r = Ok (LpAcceptedWithGap m)) ∧
    l' = l <| diagnostics := d |> <| active_boot_id := Some (boot_id v) |>
           <| last_sequence := Some (sequence v) |> <| signal := Open (Some v) |>.
Proof.
  unfold publish. intros H.
  destruct (validate_envelope v _) as [[]|e] eqn:Hv.
  2: { injection H as <- <-. left. exists (diagnostics l). split; [by destruct l|done]. }
  destruct (closed l) eqn:Hc.
  { injection H as <- <-. left. exists (diagnostics l). split; [by destruct l|done]. }
  pose proof (publish_drop_spec l g v) as Hd. destruct (publish_drop l g v) as [[o l1]|] eqn:Hdrop.
  { injection H as <- <-. destruct Hd as [d ->]. left. exists d. split; [done|]. intros o' [= <-].
    clear -Hdrop. unfold publish_drop in Hdrop. repeat step_if_in Hdrop; by simplify_eq. }
  destruct Hd as (Hw & Hs & Hg0 & Hg).
  destruct (try_into_array 16 (boot_id v)) as [b|e] eqn:Hb.
  2: { injection H as <- <-. left. exists (diagnostics l). split; [by destruct l|done]. }
  apply try_into_array_ok in Hb as [-> Hb].
  destruct (filter_contains _ _) eqn:Hret.
  { injection H as <- <-. left. eexists. split; [reflexivity|]. by intros o [= <-]. }
  destruct (is_some_and (active_boot_id l) _) eqn:Hact.
  { injection H as <- <-. left. eexists. split; [reflexivity|]. by intros o [= <-]. }
  destruct (sequence_outcome l v) as [[o a] l1] eqn:Ho.
  pose proof (sequence_outcome_spec _ _ _ _ _ Ho) as ([d ->] & Ha & _). destruct a.
  - injection H as <- <-. right. eexists.
    split_and!; try done.
    + intros b Hab. rewrite Hab in Hact. simpl in Hact. by reflect_bool.
    + by apply Ha.
    + clear -Ho. unfold sequence_outcome in Ho. repeat step_if_in Ho; simplify_eq; eauto.
  - injection H as <- <-. left. exists d. split; [done|]. intros o' [= <-].
    clear -Ho. unfold sequence_outcome in Ho. repeat step_if_in Ho; by simplify_eq.
Qed.

Lemma publish_moves l g v :
  latest_inv l → latest_inv (publish l g v).2 ∧ moved_on l (publish l g v).2.
Proof.
  intros Hi. destruct (publish l g v) as [r l'] eqn:Hp. simpl.
  apply publish_cases in Hp
    as [(d & -> & _)|(d & Hv & Hc & Hw & Hs & Hg0 & Hg & Hr & Ha & Hq & _ & ->)]; [by auto with pal|].
  apply validate_envelope_ok in Hv. split.
  - destruct Hi as [H1 H2 H3]. constructor; cbn.
    + done.
    + by intros b [= <-].
    + split_and!; try done; congruence.
  - constructor; cbn; try done; try lia.
    intros _. split; [intros b Hb; by rewrite (Ha b Hb)|].
    intros q Hlq. exists (sequence v). split; [done|]. specialize (Hq q Hlq). lia.
Qed.

Lemma close_moves l : latest_inv l → latest_inv (close l) ∧ moved_on l (close l).
Proof.
  intros [H1 H2 H3]. split; [by constructor|]. constructor; cbn; try done; try lia.
  intros _. split; [done|]. intros q ?. by exists q.
Qed.

(** ** Runs *)

Inductive op :=
| OConnect (g : N)
| OPublish (g : N) (value : SubscribeResponse)
| OClose.

Definition run_op (l : LatestTelemetry) (o : op) : LatestTelemetry :=
  match o with
  | OConnect g => (connect l g).2
  | OPublish g value => (publish l g value).2
  | OClose => close l
  end.

Definition run (l : LatestTelemetry) (os : list op) : LatestTelemetry := fold_left run_op os l.

(** The signals a run makes visible, the initial one first. *)
Fixpoint signals (l : LatestTelemetry) (os : list op) : list LatestSignal :=
  signal l :: match os with [] => [] | o :: os => signals (run_op l o) os end.

Lemma run_op_moves l o : latest_inv l → latest_inv (run_op l o) ∧ moved_on l (run_op l o).
Proof. destruct o; [apply connect_moves|apply publish_moves|apply close_moves]. Qed.

Lemma run_moves l os : latest_inv l → latest_inv (run l os) ∧ moved_on l (run l os).
Proof.
  revert l. induction os as [|o os IH]; intros l Hi; simpl; [by auto with pal|].
  destruct (run_op_moves l o Hi) as [Hi' Hm]. destruct (IH _ Hi') as [Hi'' Hm'].
  split; [done|]. by eapply moved_on_trans.
Qed.

Lemma last_signal l os : last (signals l os) = Some (signal (run l os)).
Proof.
  revert l. induction os as [|o os IH]; intros l; [done|]. cbn [signals run fold_left].
  rewrite last_cons. fold (run (run_op l o) os). by rewrite IH.
Qed.

Lemma elem_of_signals l os s :
  s ∈ signals l os → ∃ os1 os2, os = os1 ++ os2 ∧ signal (run l os1) = s.
Proof.
  revert l. induction os as [|o os IH]; intros l; cbn [signals]; rewrite elem_of_cons.
  - intros [->|[]%elem_of_nil]. by exists [], [].
  - intros [->|(os1 & os2 & -> & Hs)%IH]; [by exists [], (o :: os)|]. by exists (o :: os1), os2.
Qed.

(** Of two values shown at two moments the later one is not older. *)
Definition not_older (l1 : LatestTelemetry) (v1 : SubscribeResponse) (l2 : LatestTelemetry)
    (v2 : SubscribeResponse) : Prop :=
  (generation l1 = generation l2 ∧ boot_id v1 = boot_id v2 ∧ sequence v1 ≤ sequence v2) ∨
  (generation l1 < generation l2 ∧ boot_id v1 ≠ boot_id v2).

Lemma current_signal l v : current l = Some v ↔ signal l = Open (Some v).
Proof. unfold current. destruct (signal l); split; congruence. Qed.

Lemma shown_not_older l1 l2 v1 v2 :
  latest_inv l1 → latest_inv l2 → moved_on l1 l2 →
  current l1 = Some v1 → current l2 = Some v2 → not_older l1 v1 l2 v2.
Proof.
  intros [_ _ S1] [_ A2 S2] [_ _ Hg Hs Hr Hl] C1%current_signal C2%current_signal.
  rewrite C1 in S1. rewrite C2 in S2.
  destruct S1 as (_ & _ & _ & _ & _ & B1 & Q1), S2 as (_ & _ & _ & _ & _ & B2 & Q2).
  destruct (decide (generation l1 = generation l2)) as [E|E].
  - left. destruct (Hs E) as [Hb Hq]. apply Hb in B1. destruct (Hq _ Q1) as (q & Hq' & Hle).
    split_and!; try done; congruence.
  - right. split; [lia|]. intros Eb. assert (generation l1 < generation l2) as Hlt by lia.
    pose proof (Hl Hlt _ B1) as Hret. rewrite Eb in Hret. by rewrite (A2 _ B2) in Hret.
Qed.

Lemma next_after_some resume obs r :
  next_after resume obs = Some r → ∃ sg, sg ∈ obs ∧ next_after_turn resume sg = Some r.
Proof.
  induction obs as [|sg obs IH]; simpl; [done|]. destruct (next_after_turn resume sg) eqn:Hs.
  - intros [= ->]. exists sg. split; [by left|done].
  - intros (sg' & ? & ?)%IH. exists sg'. split; [by right|done].
Qed.

Lemma next_after_wakes resume obs sg r :
  sg ∈ obs → next_after_turn resume sg = Some r → next_after resume obs ≠ None.
Proof.
  intros Hin Hs. induction Hin as [sg obs|sg sg' obs Hin IH]; simpl; [by rewrite Hs|].
  destruct (next_after_turn resume sg'); [done|by apply IH].
Qed.

(** ** Properties *)

(** The subscriber's accounting is exact on every stream of sequences that fits
    the counters: a sequence is accepted precisely when it exceeds all before it, the
    accepted and the missing ones together fill the span from the first to the
    greatest, and accepted ones and drops together count every sequence once. *)
Theorem sequence_accounting (boot : bytes) (first : N) (rest : list N) :
  Forall is_u64 (first :: rest) → len (first :: rest) ≤ u64_max →
  let '(ds, c) := decide_all (SequenceCursor_new boot) (first :: rest) in
  ∃ top, cursor_last_sequence c = Some top ∧
    top ∈ first :: rest ∧ (∀ q, q ∈ first :: rest → q ≤ top) ∧
    (∀ i q d, (first :: rest) !! i = Some q → ds !! i = Some d →
       (decision_accepts d = true ↔ ∀ j p, (j < i)%nat → (first :: rest) !! j = Some p → p < q)) ∧
    accepted_count ds + sd_missing_sequences (cursor_diagnostics c) = top - first + 1 ∧
    accepted_count ds + sd_duplicate_drops (cursor_diagnostics c)
      + sd_out_of_order_drops (cursor_diagnostics c) = len (first :: rest).
Proof.
  intros Hr Hlen. pose proof (decide_all_accounted boot first rest Hr Hlen) as H.
  destruct (decide_all _ (first :: rest)) as [ds c].
  destruct H as (top & _ & [_ Hlast _ [Hin Hall] Hdec [_ Hspan] Htot]).
  exists top. split; [done|]. split; [done|]. split; [by apply Forall_forall|]. done.
Qed.

(** Along any interleaving of its operations the cell shows valid envelopes of its
    own world and subject only, never rolls back — a later value belongs to the same
    boot with a sequence no smaller, or to a later generation and another boot — and
    after [close] it shows nothing, accepts nothing and connects no more. *)
Theorem latest_never_rolls_back (w : string) (s : bytes) (p : string) (l : LatestTelemetry)
    (os1 os2 : list op) :
  new w s p = Ok l →
  let l1 := run l os1 in
  let l2 := run l1 os2 in
  (∀ v2, current l2 = Some v2 →
     valid_envelope v2 p ∧ Wire.world_alias v2 = w ∧ Wire.subject_id v2 = s ∧
     ∀ v1, current l1 = Some v1 → not_older l1 v1 l2 v2) ∧
  (OClose ∈ os1 → current l2 = None ∧
     (∀ g, connect l2 g = (LcDropped, l2)) ∧
     ∀ g v, (publish l2 g v).2 = l2 ∧ is_ok (publish l2 g v).1 = false).
Proof.
  intros Hnew. apply latest_new_inv in Hnew as (Hi & Hw & Hs & Hp & _).
  destruct (run_moves l os1 Hi) as [Hi1 Hm1]. destruct (run_moves _ os2 Hi1) as [Hi2 Hm2].
  pose proof (moved_on_trans _ _ _ Hm1 Hm2) as Hm. cbv zeta. split.
  - intros v2 Hv2. pose proof Hv2 as Hsig. apply current_signal in Hsig.
    pose proof (inv_signal _ Hi2) as Hs2. rewrite Hsig in Hs2.
    destruct (mv_identity _ _ Hm) as (E1 & E2 & E3), Hs2 as (_ & _ & Hval & ? & ? & _).
    rewrite E3, Hp in Hval. split_and!; try done; try congruence.
    intros v1 Hv1. by apply shown_not_older.
  - intros Hin. assert (closed (run (run l os1) os2) = true) as Hc.
    { apply (mv_closed _ _ Hm2). apply list_elem_of_split in Hin as (a & b & ->).
      unfold run. rewrite fold_left_app. cbn [fold_left run_op].
      pose proof (run_moves l a Hi) as [Hia _]. destruct (close_moves _ Hia) as [Hic _].
      pose proof (run_moves _ b Hic) as [_ Hmc]. by apply (mv_closed _ _ Hmc). }
    split; [|split].
    + pose proof (inv_signal _ Hi2) as Hs2. unfold current. destruct (signal _) as [[v|]|]; [|done|done].
      destruct Hs2. congruence.
    + intros g. unfold connect. by rewrite Hc.
    + intros g v. unfold publish. destruct (validate_envelope _ _); [|done]. by rewrite Hc.
Qed.

(** A subscriber makes progress. Resuming from a value [v1] it got from the cell,
    and observing any part of the later signals that includes the last one, as a watch
    channel guarantees, it is woken with a result as soon as the cell is closed or
    shows something newer; and what it is given was shown by the cell, belongs to
    another boot or has a greater sequence, and is never older than [v1]. *)
Theorem subscriber_progress (w : string) (s : bytes) (p : string) (l : LatestTelemetry)
    (os1 os2 : list op) (v1 : SubscribeResponse) (observed : list LatestSignal) :
  new w s p = Ok l →
  let l1 := run l os1 in
  let resume := Some (mkResume (boot_id v1) (sequence v1)) in
  current l1 = Some v1 →
  observed `sublist_of` signals l1 os2 → last observed = last (signals l1 os2) →
  (closed (run l1 os2) = true ∨ (∃ v, current (run l1 os2) = Some v ∧
     (boot_id v = boot_id v1 → sequence v ≠ sequence v1)) → next_after resume observed ≠ None) ∧
  (∀ v2, next_after resume observed = Some (Ok v2) →
     ∃ os2a os2b, os2 = os2a ++ os2b ∧ current (run l1 os2a) = Some v2 ∧
       not_older l1 v1 (run l1 os2a) v2 ∧ (boot_id v1 = boot_id v2 → sequence v1 < sequence v2)) ∧
  (next_after resume observed = Some (Err LtClosed) → closed (run l1 os2) = true).
Proof.
  intros Hnew. apply latest_new_inv in Hnew as (Hi & _).
  destruct (run_moves l os1 Hi) as [Hi1 _]. cbv zeta. intros Hv1 Hsub Hlast.
  assert (∀ os v, current (run (run l os1) os) = Some v → not_older (run l os1) v1 (run (run l os1) os) v)
    as Hnot.
  { intros os v Hv. destruct (run_moves _ os Hi1) as [? ?]. by apply shown_not_older. }
  rewrite last_signal in Hlast. destruct (run_moves _ os2 Hi1) as [Hi2 Hm2].
  assert (∀ sg r, sg ∈ observed → next_after_turn (Some (mkResume (boot_id v1) (sequence v1))) sg = Some r →
    ∃ os2a os2b, os2 = os2a ++ os2b ∧ signal (run (run l os1) os2a) = sg) as Hobs.
  { intros sg r Hin _. by apply elem_of_signals, (elem_of_sublist observed). }
  split; [|split].
  - intros Hend. apply last_Some in Hlast as [obs ->].
    assert (signal (run (run l os1) os2) ∈ obs ++ [signal (run (run l os1) os2)]) as Hin by set_solver.
    pose proof (inv_signal _ Hi2) as Hs2. destruct Hend as [Hc|(v & Hc & Hq)].
    + destruct (signal (run (run l os1) os2)) as [[v|]|]; [destruct Hs2; congruence|destruct Hs2; congruence|].
      by eapply next_after_wakes.
    + pose proof (Hnot _ _ Hc) as Hold. apply current_signal in Hc. rewrite Hc in Hin |- *.
      eapply next_after_wakes; [exact Hin|]. unfold next_after_turn, cursor_needs_current. simpl.
      case_bool_decide as Hb; [|done]. simpl. destruct (N.ltb_spec (sequence v1) (sequence v)); [done|].
      symmetry in Hb. specialize (Hq Hb). destruct Hold as [(_ & _ & ?)|[_ ?]]; [lia|congruence].
  - intros v2 (sg & Hin & Hs)%next_after_some. destruct (Hobs _ _ Hin Hs) as (a & b & -> & Hsig).
    exists a, b. unfold next_after_turn in Hs. destruct sg as [[v|]|]; try done.
    destruct (cursor_needs_current _ v) eqn:Hn; simplify_eq. apply current_signal in Hsig.
    split_and!; auto. intros Hb. unfold cursor_needs_current in Hn. simpl in Hn.
    rewrite (bool_decide_eq_true_2 _ Hb) in Hn. simpl in Hn. by reflect_bool.
  - intros (sg & Hin & Hs)%next_after_some. destruct (Hobs _ _ Hin Hs) as (a & b & -> & Hsig).
    unfold next_after_turn in Hs. destruct sg as [[v|]|]; try done.
    { by destruct (cursor_needs_current _ v). }
    destruct (run_moves _ a Hi1) as [Hia _]. pose proof (inv_signal _ Hia) as Hsa. rewrite Hsig in Hsa.
    unfold run at 1. rewrite fold_left_app. destruct (run_moves _ b Hia) as [_ Hmb].
    by apply (mv_closed _ _ Hmb).
Qed.

Definition demo_boot_envelope (b : Byte.byte) (q : N) : SubscribeResponse :=
  mkEnvelope 2 "world-a" (repeat Byte.x42 32) (repeat b 16) q 1 0 (f64_of_Z 5) (f64_of_Z 0)
    (f64_of_Z 0) None 0 (repeat Byte.x33 16) 1 demo_profile.
Definition demo_cell : LatestTelemetry :=
  mkLatest "world-a" (repeat Byte.x42 32) demo_profile false 0 None None RetiredBootFilter_default
    LatestDiagnostics_default (Open None).

(** The fixture of [tests/latest_state.rs]: 1, 4, 4, 3. *)
Example decide_demo :
  (decide_all (SequenceCursor_new []) [1; 4; 4; 3]).1 =
  [Accept; AcceptWithGap 2; DropDuplicate; DropOutOfOrder].
Proof. reflexivity. Qed.

Lemma sequence_accounting_witness :
  let c := (decide_all (SequenceCursor_new [Byte.x01]) [1; 4; 4; 3]).2 in
  ∃ top, cursor_last_sequence c = Some top ∧ top ∈ [1; 4; 4; 3].
Proof.
  assert (Forall is_u64 [1; 4; 4; 3]) as H1 by (repeat constructor; int_lia).
  assert (len [1; 4; 4; 3] ≤ u64_max) as H2 by (unfold len; simpl; int_lia).
  destruct (sequence_accounting [Byte.x01] 1 [4; 4; 3] H1 H2) as (top & Ht & Hin & _).
  exists top. split; [exact Ht|exact Hin].
Defined.

Lemma latest_never_rolls_back_witness :
  let os1 := [OConnect 1; OPublish 1 (demo_boot_envelope Byte.x11 5)] in
  let os2 := [OPublish 1 (demo_boot_envelope Byte.x11 4); OConnect 2;
              OPublish 2 (demo_boot_envelope Byte.x22 1)] in
  current (run (run demo_cell os1) os2) = Some (demo_boot_envelope Byte.x22 1) ∧
  not_older (run demo_cell os1) (demo_boot_envelope Byte.x11 5)
    (run (run demo_cell os1) os2) (demo_boot_envelope Byte.x22 1).
Proof.
  cbv zeta.
  set (os1 := [OConnect 1; OPublish 1 (demo_boot_envelope Byte.x11 5)]).
  set (os2 := [OPublish 1 (demo_boot_envelope Byte.x11 4); OConnect 2;
               OPublish 2 (demo_boot_envelope Byte.x22 1)]).
  assert (new "world-a" (repeat Byte.x42 32) demo_profile = Ok demo_cell) as Hnew
    by (vm_compute; reflexivity).
  assert (current (run (run demo_cell os1) os2) = Some (demo_boot_envelope Byte.x22 1)) as H2
    by (vm_compute; reflexivity).
  assert (current (run demo_cell os1) = Some (demo_boot_envelope Byte.x11 5)) as H1
    by (vm_compute; reflexivity).
  destruct (latest_never_rolls_back _ _ _ demo_cell os1 os2 Hnew) as [Hshown _].
  split; [exact H2|]. by apply (Hshown _ H2).
Defined.

Lemma subscriber_progress_witness :
  let os1 := [OConnect 1; OPublish 1 (demo_boot_envelope Byte.x11 5)] in
  let os2 := [OPublish 1 (demo_boot_envelope Byte.x11 7)] in
  let observed := signals (run demo_cell os1) os2 in
  next_after (Some (mkResume (repeat Byte.x11 16) 5)) observed ≠ None.
Proof.
  cbv zeta.
  set (os1 := [OConnect 1; OPublish 1 (demo_boot_envelope Byte.x11 5)]).
  set (os2 := [OPublish 1 (demo_boot_envelope Byte.x11 7)]).
  assert (new "world-a" (repeat Byte.x42 32) demo_profile = Ok demo_cell) as Hnew
    by (vm_compute; reflexivity).
  assert (current (run demo_cell os1) = Some (demo_boot_envelope Byte.x11 5)) as H1
    by (vm_compute; reflexivity).
  destruct (subscriber_progress _ _ _ demo_cell os1 os2 (demo_boot_envelope Byte.x11 5)
    (signals (run demo_cell os1) os2) Hnew H1 (reflexivity _) eq_refl) as [Hwake _].
  apply Hwake. right. exists (demo_boot_envelope Byte.x11 7).
  split; [vm_compute; reflexivity|]. intros _. vm_compute. discriminate.
Defined.
