(* ===== verification/Framing.v ===== *)
(** * Length-prefixed frames

    Models [crates/pal-protocol/src/framing.rs] ([FrameCodec]) and
    [crates/pal-windows-ipc/src/framed_stream.rs] ([FramedStream], the reassembly of
    frames from arbitrary chunks). Protobuf messages are a type [M] with an encoder
    and a decoder, arguments of the definitions. The loop of [push] runs with fuel:
    every turn consumes a byte of the input, so one more than its length is enough
    ([push_loop_feed]). *)

From S2P Require Import Prelude.

Definition MAX_PAYLOAD_LEN : N := 1048576.
Definition MAX_FRAME_LEN : N := MAX_PAYLOAD_LEN + 4.

Inductive FrameError := Truncated | Empty | TooLarge | TrailingBytes | Encode | Decode.

(** ** One frame *)

Section Codec.
Context {M : Type} (encoded_len : M → N) (encode_message : M → option bytes)
  (decode_message : bytes → option M).

(** [FrameCodec::encode]; [Message::encode] appends to the vector. *)
Definition encode (message : M) : result bytes FrameError :=
  let payload_len := encoded_len message in
  if payload_len =? 0 then Err Empty
  else if MAX_PAYLOAD_LEN <? payload_len then Err TooLarge
  else
    let frame := le_bytes 4 payload_len in
    match encode_message message with
    | Some payload => Ok (frame ++ payload)
    | None => Err Encode
    end.

(** [FrameCodec::decode]. *)
Definition decode (frame : bytes) : result M FrameError :=
  if len frame <? 4 then Err Truncated
  else
    let declared_len := le_value (take 4 frame) in
    if declared_len =? 0 then Err Empty
    else if MAX_PAYLOAD_LEN <? declared_len then Err TooLarge
    else
      let body_len := len frame - 4 in
      if body_len <? declared_len then Err Truncated
      else if declared_len <? body_len then Err TrailingBytes
      else ok_or (decode_message (drop 4 frame)) Decode.
End Codec.

(** ** Reassembly *)

Definition MAX_QUEUED_FRAMES : N := 1024.

Inductive StreamError := SeEmpty | SeTooLarge | SeTruncated | SeMalformed | SeQueueFull.

Record FramedStream := mkStream {
  buffer : bytes;
  completed : list bytes;
  queued_bytes : N;
}.
#[export] Instance eta_FramedStream : Eta FramedStream := λ s,
  mkStream (buffer s) (completed s) (queued_bytes s).

Definition FramedStream_new : FramedStream := mkStream [] [] 0.

Definition declared_len (self : FramedStream) : N := le_value (take 4 (buffer self)).

Definition validate_declared_len (self : FramedStream) : result unit StreamError * FramedStream :=
  let declared := declared_len self in
  if declared =? 0 then (Err SeEmpty, self <| buffer := [] |>)
  else if MAX_PAYLOAD_LEN <? declared then (Err SeTooLarge, self <| buffer := [] |>)
  else (Ok tt, self).

(** The end of a turn: a complete frame goes to the queue, or the queue is full. *)
Definition complete_frame (self : FramedStream) (payload_len : N) :
    result unit StreamError * FramedStream :=
  if len (buffer self) =? payload_len + 4 then
    if (len (completed self) =? MAX_QUEUED_FRAMES)
       || is_none_or (checked_add (queued_bytes self) payload_len) (λ total, MAX_PAYLOAD_LEN <? total)
    then (Err SeQueueFull, self <| buffer := [] |>)
    else
      let payload := drop 4 (buffer self) in
      (Ok tt, self <| buffer := [] |> <| queued_bytes ::= λ n, n + len payload |>
                   <| completed ::= λ c, c ++ [payload] |>)
  else (Ok tt, self).

(** [extend_from_slice(&input[..take])] and the rest of the input. *)
Definition consume (self : FramedStream) (needed : nat) (input : bytes) : FramedStream * bytes :=
  (self <| buffer ::= λ b, b ++ take needed input |>, drop needed input).

(** The rest of a turn, the prefix being complete: [None] is the underflow of
    [frame_len - self.buffer.len()]. *)
Definition push_payload (self : FramedStream) (input : bytes) :
    option (result unit StreamError * FramedStream * bytes) :=
  let payload_len := declared_len self in
  let frame_len := payload_len + 4 in
  if frame_len <? len (buffer self) then None
  else
    let '(self, input) := consume self (N.to_nat (frame_len - len (buffer self))) input in
    Some (complete_frame self payload_len, input).

Fixpoint push_loop (fuel : nat) (self : FramedStream) (input : bytes) :
    option (result unit StreamError * FramedStream) :=
  match fuel with
  | O => None
  | S fuel =>
      if is_empty input then Some (Ok tt, self)
      else
        let turn self input :=
          match push_payload self input with
          | None => None
          | Some ((Ok _, self), input) => push_loop fuel self input
          | Some ((Err e, self), _) => Some (Err e, self)
          end in
        if len (buffer self) <? 4 then
          let '(self, input) := consume self (4 - length (buffer self)) input in
          if len (buffer self) <? 4 then Some (Ok tt, self)
          else
            match validate_declared_len self with
            | (Err e, self) => Some (Err e, self)
            | (Ok _, self) => turn self input
            end
        else turn self input
  end.

Definition push (self : FramedStream) (input : bytes) :
    option (result unit StreamError * FramedStream) :=
  push_loop (S (length input)) self input.

(** [None] inside the result is the empty queue; the queued bytes are a [usize]. *)
Definition next_payload (self : FramedStream) : option bytes * FramedStream :=
  match completed self with
  | [] => (None, self)
  | payload :: rest =>
      (Some payload, self <| completed := rest |> <| queued_bytes ::= λ n, n - len payload |>)
  end.

Definition next_message {M} (decode_message : bytes → option M) (self : FramedStream) :
    result (option M) StreamError * FramedStream :=
  match next_payload self with
  | (None, self) => (Ok None, self)
  | (Some payload, self) =>
      match decode_message payload with
      | Some m => (Ok (Some m), self)
      | None => (Err SeMalformed, self)
      end
  end.

Definition finish (self : FramedStream) : result unit StreamError :=
  if is_empty (buffer self) then Ok tt else Err SeTruncated.

Definition buffered_len (self : FramedStream) : N := len (buffer self).

(** ** Invariant *)

Definition payload_ok (payload : bytes) : Prop := 0 < len payload ≤ MAX_PAYLOAD_LEN.

(** A buffer that waits for more: a part of a prefix, or an acceptable prefix and a
    part of its payload. *)
Definition waiting (b : bytes) : Prop :=
  (length b < 4)%nat ∨
  ((4 ≤ length b)%nat ∧ 0 < le_value (take 4 b) ≤ MAX_PAYLOAD_LEN ∧ len b < le_value (take 4 b) + 4).

Definition total_len (l : list bytes) : N := foldr (λ p n, len p + n) 0 l.

Record stream_inv (s : FramedStream) : Prop := {
  si_waiting : waiting (buffer s);
  si_payloads : Forall payload_ok (completed s);
  si_count : len (completed s) ≤ MAX_QUEUED_FRAMES;
  si_queued : queued_bytes s = total_len (completed s);
  si_bound : queued_bytes s ≤ MAX_PAYLOAD_LEN;
}.

(** ** The reference: one byte at a time *)

Definition feed_byte (s : FramedStream) (b : Byte.byte) : result unit StreamError * FramedStream :=
  let s' := s <| buffer ::= λ bs, bs ++ [b] |> in
  if (length (buffer s') <? 4)%nat then (Ok tt, s')
  else if (length (buffer s') =? 4)%nat then validate_declared_len s'
  else complete_frame s' (declared_len s').

Fixpoint feed (s : FramedStream) (input : bytes) : result unit StreamError * FramedStream :=
  match input with
  | [] => (Ok tt, s)
  | b :: input =>
      match feed_byte s b with
      | (Ok _, s) => feed s input
      | (Err e, s) => (Err e, s)
      end
  end.

Lemma total_len_app l1 l2 : total_len (l1 ++ l2) = total_len l1 + total_len l2.
Proof. induction l1 as [|p l1 IH]; simpl; [done|]. rewrite IH. lia. Qed.

Lemma len_app {A} (l1 l2 : list A) : len (l1 ++ l2) = len l1 + len l2.
Proof. unfold len. rewrite length_app. lia. Qed.

Lemma feed_app s i1 i2 :
  feed s (i1 ++ i2) =
  match feed s i1 with (Ok _, s) => feed s i2 | (Err e, s) => (Err e, s) end.
Proof.
  revert s. induction i1 as [|b i1 IH]; intros s; simpl; [done|].
  destruct (feed_byte s b) as [[[]|e] s']; [apply IH|done].
Qed.

Lemma validate_declared_len_cases s :
  4 ≤ len (buffer s) →
  (0 < declared_len s ≤ MAX_PAYLOAD_LEN ∧ validate_declared_len s = (Ok tt, s)) ∨
  ∃ e, validate_declared_len s = (Err e, s <| buffer := [] |>).
Proof.
  intros Hlen. unfold validate_declared_len.
  destruct (N.eqb_spec (declared_len s) 0); [right; by eexists|].
  destruct (N.ltb_spec MAX_PAYLOAD_LEN (declared_len s)); [right; by eexists|left; split; [lia|done]].
Qed.

(** Bytes that neither complete a prefix nor a frame are just buffered. *)
Lemma feed_buffer s input :
  waiting (buffer s) →
  (length (buffer s) + length input < 4)%nat ∨
  ((4 ≤ length (buffer s))%nat ∧ len (buffer s) + len input < declared_len s + 4) →
  feed s input = (Ok tt, s <| buffer ::= λ b, b ++ input |>) ∧ waiting (buffer s ++ input).
Proof.
  revert s. induction input as [|b input IH]; intros s Hw Hfit; simpl.
  { rewrite app_nil_r. split; [|done]. by destruct s. }
  assert (waiting (buffer s ++ [b]) ∧ feed_byte s b = (Ok tt, s <| buffer ::= λ bs, bs ++ [b] |>))
    as [Hw' Hb].
  { unfold feed_byte. cbn [buffer]. simpl. rewrite length_app. simpl. destruct Hfit as [Hfit|[H4 Hfit]].
    - destruct (Nat.ltb_spec (length (buffer s) + 1) 4); [|simpl in Hfit; lia].
      split; [|done]. left. rewrite length_app. simpl. simpl in Hfit. lia.
    - destruct (Nat.ltb_spec (length (buffer s) + 1) 4); [lia|].
      destruct (Nat.eqb_spec (length (buffer s) + 1) 4); [lia|].
      assert (take 4 (buffer s ++ [b]) = take 4 (buffer s)) as Htake by (by rewrite take_app_le).
      unfold declared_len in Hfit. destruct Hw as [?|(_ & Hd & Hlt)]; [lia|].
      unfold complete_frame, declared_len. cbn [buffer]. rewrite Htake.
      unfold len in *. rewrite length_app. simpl in Hfit |- *.
      destruct (N.eqb_spec (N.of_nat (length (buffer s) + 1)) (le_value (take 4 (buffer s)) + 4)); [lia|].
      split; [|done]. right. rewrite length_app, Htake. unfold len. rewrite length_app. simpl.
      split; [lia|]. split; [done|lia]. }
  rewrite Hb. destruct (IH (s <| buffer ::= λ bs, bs ++ [b] |>)) as [Hf Hwf]; [done| |].
  - destruct Hfit as [Hfit|[H4 Hfit]].
    + left. simpl. rewrite length_app. simpl in *. lia.
    + right. simpl. rewrite length_app. simpl. split; [lia|]. unfold declared_len in *. cbn [buffer].
      rewrite take_app_le by lia. rewrite len_app. unfold len in *. simpl in *. lia.
  - rewrite Hf. simpl in *. rewrite <- !app_assoc in *. by split.
Qed.

Lemma waiting_nil : waiting [].
Proof. left. simpl. lia. Qed.

Lemma waiting_split b :
  waiting b → (length b < 4)%nat ∨
    ((4 ≤ length b)%nat ∧ 0 < le_value (take 4 b) ≤ MAX_PAYLOAD_LEN ∧ len b < le_value (take 4 b) + 4).
Proof. done. Qed.

(** The last byte of a chunk on which nothing happened before. *)
Lemma feed_last s chunk b :
  waiting (buffer s) →
  (length (buffer s) + length chunk < 4)%nat ∨
  ((4 ≤ length (buffer s))%nat ∧ len (buffer s) + len chunk < declared_len s + 4) →
  feed s (chunk ++ [b]) =
  let s' := s <| buffer ::= λ bs, bs ++ chunk ++ [b] |> in
  if (length (buffer s') <? 4)%nat then (Ok tt, s')
  else if (length (buffer s') =? 4)%nat then validate_declared_len s'
  else complete_frame s' (declared_len s').
Proof.
  intros Hw Hfit. destruct (feed_buffer s chunk Hw Hfit) as [Hf _]. rewrite feed_app, Hf. simpl.
  unfold feed_byte. cbn [buffer]. simpl. rewrite <- !app_assoc. step_if; [done|]. step_if.
  - by destruct (validate_declared_len _) as [[[]|e] s'].
  - by destruct (complete_frame _ _) as [[[]|e] s'].
Qed.

Lemma take_snoc_exists {A} n (l : list A) :
  (0 < n ≤ length l)%nat → ∃ chunk b, take n l = chunk ++ [b] ∧ length chunk = (n - 1)%nat.
Proof.
  intros Hn. destruct (take n l) as [|b chunk _] eqn:Hl using rev_ind.
  - apply (f_equal length) in Hl. rewrite length_take in Hl. simpl in Hl. lia.
  - exists chunk, b. split; [done|]. apply (f_equal length) in Hl.
    rewrite length_take, length_app in Hl. simpl in Hl. lia.
Qed.

Lemma feed_prefix s input :
  (length (buffer s) < 4)%nat → (4 ≤ length (buffer s) + length input)%nat →
  feed s (take (4 - length (buffer s)) input) =
  validate_declared_len (s <| buffer ::= λ b, b ++ take (4 - length (buffer s)) input |>).
Proof.
  intros Hb Hi. destruct (take_snoc_exists (4 - length (buffer s)) input) as (chunk & b & -> & Hc); [lia|].
  rewrite feed_last; [|by left|left; lia]. cbv zeta. simpl. rewrite !length_app. simpl.
  destruct (Nat.ltb_spec (length (buffer s) + (length chunk + 1)) 4); [lia|].
  by destruct (Nat.eqb_spec (length (buffer s) + (length chunk + 1)) 4); [|lia].
Qed.

Lemma feed_frame s input :
  (4 ≤ length (buffer s))%nat → len (buffer s) < declared_len s + 4 → waiting (buffer s) →
  declared_len s + 4 ≤ len (buffer s) + len input →
  let needed := N.to_nat (declared_len s + 4 - len (buffer s)) in
  feed s (take needed input) =
  complete_frame (s <| buffer ::= λ b, b ++ take needed input |>) (declared_len s).
Proof.
  intros Hb Hlt Hw Hi needed. unfold len in *.
  destruct (take_snoc_exists needed input) as (chunk & b & -> & Hc); [lia|].
  rewrite feed_last; [|done|right; unfold len; lia]. cbv zeta. simpl. rewrite !length_app. simpl.
  destruct (Nat.ltb_spec (length (buffer s) + (length chunk + 1)) 4); [lia|].
  destruct (Nat.eqb_spec (length (buffer s) + (length chunk + 1)) 4); [lia|].
  f_equal. unfold declared_len. cbn [buffer]. simpl. by rewrite take_app_le by lia.
Qed.

Lemma complete_frame_ok_buffer s n s' :
  complete_frame s n = (Ok tt, s') → buffer s' = [] ∨ s' = s.
Proof.
  unfold complete_frame. destruct (len (buffer s) =? n + 4); [|intros [= <-]; by right].
  destruct (_ || _)%bool; [done|]. intros [= <-]. by left.
Qed.

Lemma complete_frame_incomplete s n : len (buffer s) ≠ n + 4 → complete_frame s n = (Ok tt, s).
Proof. intros Hn. unfold complete_frame. by destruct (N.eqb_spec (len (buffer s)) (n + 4)). Qed.

Lemma complete_frame_waiting s n r s' :
  complete_frame s n = (r, s') → len (buffer s) = n + 4 → buffer s' = [].
Proof.
  unfold complete_frame. intros H E. rewrite E, N.eqb_refl in H.
  destruct (_ || _)%bool; by injection H as <- <-.
Qed.

Lemma push_payload_feed s input :
  (4 ≤ length (buffer s))%nat → waiting (buffer s) →
  ∃ r s' rest, push_payload s input = Some (r, s', rest) ∧ (length rest ≤ length input - 1)%nat ∧
    waiting (buffer s') ∧
    feed s input = match r with Ok _ => feed s' rest | Err e => (Err e, s') end.
Proof.
  intros Hb Hw. destruct (waiting_split _ Hw) as [?|(_ & Hd & Hlt)]; [lia|].
  fold (declared_len s) in Hd, Hlt. unfold push_payload.
  destruct (N.ltb_spec (declared_len s + 4) (len (buffer s))); [lia|].
  set (needed := N.to_nat (declared_len s + 4 - len (buffer s))). unfold consume.
  destruct (complete_frame (s <| buffer ::= λ b, b ++ take needed input |>) (declared_len s))
    as [r s'] eqn:Hc.
  exists r, s', (drop needed input). split; [done|]. split; [rewrite length_drop; unfold len in *; lia|].
  destruct (decide (declared_len s + 4 ≤ len (buffer s) + len input)) as [Hfit|Hfit].
  - assert (len (buffer s ++ take needed input) = declared_len s + 4) as Hfull.
    { unfold len in *. rewrite length_app, length_take. lia. }
    rewrite (complete_frame_waiting _ _ _ _ Hc Hfull). split; [apply waiting_nil|].
    rewrite <- (take_drop needed input) at 1. rewrite feed_app.
    rewrite feed_frame by (done || lia). fold needed. by rewrite Hc; destruct r.
  - assert (take needed input = input) as Htake by (apply take_ge; unfold len in *; lia).
    assert (drop needed input = []) as Hdrop by (apply drop_ge; unfold len in *; lia).
    destruct (feed_buffer s input Hw) as [Hf Hwf]; [right; split; [lia|lia]|].
    rewrite Htake in Hc. rewrite complete_frame_incomplete in Hc by (simpl; rewrite len_app; lia).
    injection Hc as <- <-. rewrite Hdrop. split; [done|]. by rewrite Hf.
Qed.

(** The loop of [push] is the byte-wise reference, and leaves a waiting buffer. *)
Lemma push_loop_feed fuel s input :
  (length input < fuel)%nat → waiting (buffer s) →
  push_loop fuel s input = Some (feed s input) ∧ waiting (buffer (feed s input).2).
Proof.
  revert s input. induction fuel as [|fuel IH]; intros s input Hfuel Hw; [lia|].
  assert (∀ s input', (length input' < length input)%nat ∨ length input' = length input ∧ input' ≠ [] →
    (length input' ≤ fuel)%nat → input ≠ [] → (4 ≤ length (buffer s))%nat → waiting (buffer s) →
    match push_payload s input' with
    | None => None
    | Some ((Ok _, s), input) => push_loop fuel s input
    | Some ((Err e, s), _) => Some (Err e, s)
    end = Some (feed s input') ∧ waiting (buffer (feed s input').2)) as Hturn.
  { clear s Hw. intros s input' Hlen Hf Hne H4 Hw.
    destruct (push_payload_feed s input' H4 Hw) as (r & s' & rest & -> & Hrest & Hw' & ->).
    destruct r as [[]|e]; [|done]. apply IH; [|done].
    destruct input as [|b0 input0]; [done|]. simpl in Hfuel, Hlen. destruct input'; simpl in *; lia. }
  cbn [push_loop]. destruct input as [|b input']; [by simpl|]. set (input := b :: input') in *.
  replace (is_empty input) with false by done.
  destruct (N.ltb_spec (len (buffer s)) 4) as [Hb|Hb]; [|apply Hturn; try done; unfold len in *; simpl in *; lia || (right; done)].
  unfold consume. cbn [buffer]. simpl (buffer (_ <| buffer ::= _ |>)).
  destruct (decide (4 ≤ length (buffer s) + length input)%nat) as [Hfit|Hfit].
  - assert (length (buffer s ++ take (4 - length (buffer s)) input) = 4%nat) as H4.
    { rewrite length_app, length_take. unfold len in Hb. lia. }
    destruct (N.ltb_spec (len (buffer s ++ take (4 - length (buffer s)) input)) 4); [unfold len in *; lia|].
    replace (feed s input) with (feed s (take (4 - length (buffer s)) input ++ drop (4 - length (buffer s)) input))
      by (by rewrite take_drop).
    rewrite feed_app.
    rewrite feed_prefix by (unfold len in Hb; lia).
    set (s1 := s <| buffer ::= λ b, b ++ take (4 - length (buffer s)) input |>).
    assert (buffer s1 = buffer s ++ take (4 - length (buffer s)) input) as Hs1 by done.
    destruct (validate_declared_len_cases s1) as [[Hd ->]|[e ->]].
    + rewrite Hs1. unfold len. lia.
    + apply Hturn; rewrite ?Hs1; try lia.
      * left. rewrite length_drop. unfold len in Hb. simpl. lia.
      * rewrite length_drop. simpl in *. lia.
      * done.
      * right. fold (declared_len s1) in *. rewrite <- Hs1. unfold declared_len in Hd.
        split; [by rewrite Hs1, H4|]. split; [done|]. unfold len. rewrite Hs1, H4. rewrite <- Hs1. lia.
    + split; [done|]. apply waiting_nil.
  - assert (take (4 - length (buffer s)) input = input) as -> by (apply take_ge; lia).
    destruct (N.ltb_spec (len (buffer s ++ input)) 4); [|unfold len in *; rewrite length_app in *; lia].
    destruct (feed_buffer s input Hw) as [-> Hwf]; [left; lia|]. done.
Qed.

(** ** The invariant is kept *)

Lemma new_stream_inv : stream_inv FramedStream_new.
Proof. constructor; try done; try (unfold len, MAX_QUEUED_FRAMES, MAX_PAYLOAD_LEN; simpl; lia). apply waiting_nil. Qed.

Lemma stream_inv_buffer s b : stream_inv s → waiting b → stream_inv (s <| buffer := b |>).
Proof. by intros [] ?. Qed.

Lemma len_drop {A} n (l : list A) : len (drop n l) = len l - N.of_nat n.
Proof. unfold len. rewrite length_drop. lia. Qed.

Lemma complete_frame_inv s b n r s' :
  complete_frame (s <| buffer := b |>) n = (r, s') → stream_inv s →
  0 < n ≤ MAX_PAYLOAD_LEN → len b = n + 4 → stream_inv s'.
Proof.
  unfold complete_frame. intros H Hi Hn Hb. cbn [buffer completed queued_bytes] in H. simpl in H.
  rewrite Hb, N.eqb_refl in H.
  destruct ((len (completed s) =? MAX_QUEUED_FRAMES) || _)%bool eqn:Hfull.
  { injection H as <- <-. apply (stream_inv_buffer s [] Hi), waiting_nil. }
  injection H as <- <-. reflect_bool.
  assert (queued_bytes s + n ≤ MAX_PAYLOAD_LEN) as Hq.
  { match goal with Hx : is_none_or _ _ = false |- _ => revert Hx end. unfold is_none_or, checked_add.
    destruct (queued_bytes s + n <=? u64_max); [|done]. intros Hx. by reflect_bool. }
  assert (len (drop 4 b) = n) as Hd by (rewrite len_drop; lia).
  destruct Hi as [_ Hp Hc Hs _]. constructor; cbn [buffer completed queued_bytes]; simpl.
  - apply waiting_nil.
  - apply Forall_app. split; [done|]. constructor; [|done]. unfold payload_ok. lia.
  - rewrite len_app. unfold len at 2. simpl. unfold MAX_QUEUED_FRAMES in *. lia.
  - rewrite total_len_app, Hs. simpl. lia.
  - lia.
Qed.

Lemma feed_byte_inv s b r s' : feed_byte s b = (r, s') → stream_inv s → stream_inv s'.
Proof.
  intros H Hi. pose proof (si_waiting _ Hi) as Hw. unfold feed_byte in H. cbv zeta in H.
  change (s <| buffer ::= λ bs, bs ++ [b] |>) with (s <| buffer := buffer s ++ [b] |>) in H.
  set (s1 := s <| buffer := buffer s ++ [b] |>) in *.
  assert (buffer s1 = buffer s ++ [b]) as Hs1 by done. rewrite Hs1 in H.
  assert (length (buffer s ++ [b]) = length (buffer s) + 1)%nat as Hlen by (rewrite length_app; simpl; lia).
  destruct (Nat.ltb_spec (length (buffer s ++ [b])) 4).
  { injection H as <- <-. apply stream_inv_buffer; [done|]. by left. }
  destruct (Nat.eqb_spec (length (buffer s ++ [b])) 4) as [H4|H4].
  - destruct (validate_declared_len_cases s1) as [[Hd E]|[e E]]; [rewrite Hs1; unfold len; lia| |];
      rewrite E in H; injection H as <- <-.
    + apply stream_inv_buffer; [done|]. right. unfold declared_len in Hd. rewrite Hs1 in Hd.
      split; [lia|]. split; [done|]. unfold len. lia.
    + apply (stream_inv_buffer s [] Hi), waiting_nil.
  - destruct Hw as [?|(Hge & Hd & Hlt)]; [lia|].
    assert (declared_len s1 = le_value (take 4 (buffer s))) as E.
    { unfold declared_len. rewrite Hs1, take_app_le; [done|lia]. }
    rewrite E in H. destruct (decide (len (buffer s ++ [b]) = le_value (take 4 (buffer s)) + 4)) as [Hfull|Hn].
    + by eapply complete_frame_inv.
    + rewrite complete_frame_incomplete in H by (by rewrite Hs1). injection H as <- <-.
      apply stream_inv_buffer; [done|]. right. rewrite take_app_le by lia.
      unfold len in *. split; [lia|]. split; [done|lia].
Qed.

Lemma feed_inv s input : stream_inv s → stream_inv (feed s input).2.
Proof.
  revert s. induction input as [|b input IH]; intros s Hi; simpl; [done|].
  destruct (feed_byte s b) as [[[]|e] s'] eqn:Hb; [apply IH|]; by eapply feed_byte_inv.
Qed.

(** An error leaves an empty buffer. *)
Lemma feed_byte_err s b e s' : feed_byte s b = (Err e, s') → buffer s' = [].
Proof.
  unfold feed_byte, validate_declared_len, complete_frame. intros H. cbv zeta in H.
  repeat (step_if_in H; try (by simplify_eq)); by injection H as _ <-.
Qed.

Lemma feed_err s input e s' : feed s input = (Err e, s') → buffer s' = [].
Proof.
  revert s. induction input as [|b input IH]; intros s; simpl; [done|].
  destruct (feed_byte s b) as [[[]|e1] s1] eqn:Hb; [apply IH|]. intros [= -> ->]. by eapply feed_byte_err.
Qed.

Lemma push_feed s input : stream_inv s → push s input = Some (feed s input).
Proof. intros Hi. apply push_loop_feed; [lia|apply Hi]. Qed.

Lemma next_payload_inv s p s' : next_payload s = (p, s') → stream_inv s → stream_inv s'.
Proof.
  unfold next_payload. intros H [Hw Hp Hc Hs Hb]. destruct (completed s) as [|p0 rest] eqn:E.
  - injection H as <- <-. by constructor; rewrite ?E.
  - injection H as <- <-. inversion_clear Hp. simpl in Hs.
    constructor; cbn [buffer completed queued_bytes]; simpl; try done; try lia.
    unfold len in *. simpl in Hc. lia.
Qed.

Inductive stream_reachable : FramedStream → Prop :=
| reach_new : stream_reachable FramedStream_new
| reach_push s input r s' : stream_reachable s → push s input = Some (r, s') → stream_reachable s'
| reach_next s p s' : stream_reachable s → next_payload s = (p, s') → stream_reachable s'.

Lemma stream_reachable_inv s : stream_reachable s → stream_inv s.
Proof.
  induction 1 as [|s input r s' _ IH H|s p s' _ IH H].
  - apply new_stream_inv.
  - rewrite push_feed in H by done. injection H as H. pose proof (feed_inv s input IH) as Hi. by rewrite H in Hi.
  - by eapply next_payload_inv.
Qed.

(** ** Well-formed frames *)

Definition frame_of (payload : bytes) : bytes := le_bytes 4 (len payload) ++ payload.
#[global] Arguments frame_of : simpl never.
#[local] Arguments le_bytes : simpl never.

Lemma take_frame payload : take 4 (frame_of payload) = le_bytes 4 (len payload).
Proof. unfold frame_of. rewrite take_app_le by (by rewrite length_le_bytes). by rewrite take_ge. Qed.

Lemma drop_frame payload : drop 4 (frame_of payload) = payload.
Proof. unfold frame_of. by rewrite drop_app_ge by (by rewrite length_le_bytes). Qed.

Lemma frame_prefix payload : payload_ok payload → le_value (le_bytes 4 (len payload)) = len payload.
Proof. intros [_ H]. apply le_value_bytes. unfold MAX_PAYLOAD_LEN in H. simpl. lia. Qed.

Lemma len_frame payload : len (frame_of payload) = len payload + 4.
Proof. unfold frame_of. rewrite len_app. unfold len at 1. rewrite length_le_bytes. lia. Qed.

(** From an empty buffer a frame whose payload fits the queue is queued. *)
Lemma feed_one_frame s payload :
  buffer s = [] → payload_ok payload → len (completed s) < MAX_QUEUED_FRAMES →
  queued_bytes s + len payload ≤ MAX_PAYLOAD_LEN →
  feed s (frame_of payload) =
    (Ok tt, s <| queued_bytes ::= λ n, n + len payload |> <| completed ::= λ c, c ++ [payload] |>).
Proof.
  intros Hb Hp Hc Hq. unfold frame_of. rewrite feed_app.
  assert (length (le_bytes 4 (len payload)) = 4%nat) as H4 by apply length_le_bytes.
  pose proof (feed_prefix s (le_bytes 4 (len payload))) as Hpre. rewrite Hb in Hpre. simpl (length []) in Hpre.
  rewrite Nat.sub_0_r, take_ge in Hpre by lia. rewrite Hpre by lia.
  set (s1 := s <| buffer ::= λ b, b ++ le_bytes 4 (len payload) |>).
  assert (buffer s1 = le_bytes 4 (len payload)) as Hs1 by (unfold s1; cbn [buffer]; simpl; by rewrite Hb).
  assert (declared_len s1 = len payload) as Hd.
  { unfold declared_len. rewrite Hs1, take_ge by lia. by apply frame_prefix. }
  assert (0 < len payload ≤ MAX_PAYLOAD_LEN) as Hp' by exact Hp.
  assert (len (buffer s1) = 4) as Hl1 by (rewrite Hs1; unfold len at 1; by rewrite H4).
  destruct (validate_declared_len_cases s1) as [[_ ->]|[e E]]; [lia| |].
  2: { unfold validate_declared_len in E. rewrite Hd in E.
       destruct (N.eqb_spec (len payload) 0); [lia|].
       destruct (N.ltb_spec MAX_PAYLOAD_LEN (len payload)); [lia|done]. }
  pose proof (feed_frame s1 payload) as Hf. cbv zeta in Hf. rewrite Hd, Hl1 in Hf.
  rewrite take_ge in Hf by (unfold len; lia). rewrite Hf.
  - unfold complete_frame. cbn [buffer completed queued_bytes]. cbv [modify_field].
    cbn [buffer completed queued_bytes]. rewrite Hs1. fold (frame_of payload). rewrite len_frame, N.eqb_refl.
    change (completed s1) with (completed s). change (queued_bytes s1) with (queued_bytes s).
    rewrite drop_frame. destruct (N.eqb_spec (len (completed s)) MAX_QUEUED_FRAMES); [lia|].
    unfold checked_add. destruct (N.leb_spec (queued_bytes s + len payload) u64_max).
    2: { unfold MAX_PAYLOAD_LEN in *. int_lia. }
    cbn [orb is_none_or]. destruct (N.ltb_spec MAX_PAYLOAD_LEN (queued_bytes s + len payload)); [lia|].
    destruct s. cbn in *. by subst.
  - rewrite Hs1, H4. lia.
  - lia.
  - right. rewrite Hs1. split; [lia|]. rewrite take_ge by lia. rewrite frame_prefix by done.
    split; [done|]. unfold len at 1. rewrite H4. lia.
  - lia.
Qed.

Lemma feed_frames s payloads :
  buffer s = [] → Forall payload_ok payloads →
  len (completed s) + len payloads ≤ MAX_QUEUED_FRAMES →
  queued_bytes s + total_len payloads ≤ MAX_PAYLOAD_LEN →
  feed s (concat (frame_of <$> payloads)) =
    (Ok tt, mkStream [] (completed s ++ payloads) (queued_bytes s + total_len payloads)).
Proof.
  revert s. induction payloads as [|p payloads IH]; intros s Hb Hp Hc Hq.
  { simpl. rewrite app_nil_r, N.add_0_r. destruct s; simpl in *; by subst. }
  inversion_clear Hp. simpl in Hq. rewrite fmap_cons. cbn [concat]. rewrite feed_app, feed_one_frame; try done; unfold len in *; simpl in Hc; try lia.
  rewrite IH; cbn [buffer completed queued_bytes]; simpl; try done.
  - rewrite <- app_assoc. simpl. unfold len. by rewrite N.add_assoc.
  - unfold len. rewrite length_app. simpl. lia.
  - unfold len. lia.
Qed.

(** Pushing chunk after chunk, and draining the queue into messages. *)
Fixpoint push_all (s : FramedStream) (chunks : list bytes) :
    option (result unit StreamError * FramedStream) :=
  match chunks with
  | [] => Some (Ok tt, s)
  | chunk :: chunks =>
      match push s chunk with
      | Some (Ok _, s) => push_all s chunks
      | other => other
      end
  end.

Fixpoint drain {M} (fuel : nat) (decode_message : bytes → option M) (s : FramedStream) :
    result (list M) StreamError :=
  match fuel with
  | O => Ok []
  | S fuel =>
      match next_message decode_message s with
      | (Ok None, _) => Ok []
      | (Ok (Some m), s) => let? ms := drain fuel decode_message s in Ok (m :: ms)
      | (Err e, _) => Err e
      end
  end.

Lemma push_all_feed s chunks : stream_inv s → push_all s chunks = Some (feed s (concat chunks)).
Proof.
  revert s. induction chunks as [|c chunks IH]; intros s Hi; simpl; [done|].
  rewrite push_feed, feed_app by done. pose proof (feed_inv s c Hi) as Hi'.
  destruct (feed s c) as [[[]|e] s']; [by apply IH|done].
Qed.

Lemma encode_frame {M} (encoded_len : M → N) encode_message m f :
  (∀ payload, encode_message m = Some payload → len payload = encoded_len m) →
  encode encoded_len encode_message m = Ok f ↔
  ∃ payload, encode_message m = Some payload ∧ payload_ok payload ∧ f = frame_of payload.
Proof.
  intros Hlen. unfold encode, payload_ok. destruct (encode_message m) as [payload|] eqn:Hm.
  - specialize (Hlen payload eq_refl). rewrite <- Hlen. fold (frame_of payload).
    destruct (N.eqb_spec (len payload) 0); [split; [done|intros (? & [= <-] & ? & _); lia]|].
    destruct (N.ltb_spec MAX_PAYLOAD_LEN (len payload)); [split; [done|intros (? & [= <-] & ? & _); lia]|].
    split; [intros [= <-]; exists payload; repeat split; lia || done|].
    by intros (? & [= <-] & _ & ->).
  - split; [|by intros (? & ? & _)]. by repeat step_if.
Qed.

(** The prefix of a long enough byte string decides how [decode] reads it. *)
Lemma decode_cases {M} (decode_message : bytes → option M) f :
  4 ≤ len f →
  decode decode_message f =
    let declared := le_value (take 4 f) in
    if declared =? 0 then Err Empty
    else if MAX_PAYLOAD_LEN <? declared then Err TooLarge
    else if len f <? declared + 4 then Err Truncated
    else if declared + 4 <? len f then Err TrailingBytes
    else ok_or (decode_message (drop 4 f)) Decode.
Proof.
  intros H. unfold decode. destruct (N.ltb_spec (len f) 4); [lia|]. cbv zeta. do 2 (step_if; [done|]).
  destruct (N.ltb_spec (len f - 4) (le_value (take 4 f))), (N.ltb_spec (len f) (le_value (take 4 f) + 4));
    try lia; [done|].
  by destruct (N.ltb_spec (le_value (take 4 f)) (len f - 4)), (N.ltb_spec (le_value (take 4 f) + 4) (len f));
    try lia.
Qed.

Lemma decode_framed {M} (decode_message : bytes → option M) payload rest :
  payload_ok payload →
  decode decode_message (frame_of payload ++ rest) =
  if is_empty rest then ok_or (decode_message payload) Decode else Err TrailingBytes.
Proof.
  intros Hp. assert (length (frame_of payload) = 4 + length payload)%nat as Hl.
  { unfold frame_of. by rewrite length_app, length_le_bytes. }
  rewrite decode_cases by (rewrite len_app, len_frame; lia). cbv zeta.
  rewrite take_app_le, take_frame, frame_prefix by (done || lia). destruct Hp as [Hp1 Hp2].
  destruct (N.eqb_spec (len payload) 0); [lia|].
  destruct (N.ltb_spec MAX_PAYLOAD_LEN (len payload)); [lia|]. rewrite len_app, len_frame.
  destruct (N.ltb_spec (len payload + 4 + len rest) (len payload + 4)); [lia|].
  destruct rest as [|b rest]; simpl is_empty.
  - unfold len at 2. simpl (length []). rewrite N.add_0_r, N.ltb_irrefl, app_nil_r, drop_frame. done.
  - destruct (N.ltb_spec (len payload + 4) (len payload + 4 + len (b :: rest))) as [|Hx]; [done|].
    unfold len in Hx. simpl in Hx. lia.
Qed.

Lemma decode_truncated {M} (decode_message : bytes → option M) payload k :
  payload_ok payload → (k < length (frame_of payload))%nat →
  decode decode_message (take k (frame_of payload)) = Err Truncated.
Proof.
  intros Hp Hk. destruct (decide (k < 4)%nat) as [H4|H4].
  - unfold decode. destruct (N.ltb_spec (len (take k (frame_of payload))) 4) as [|Hx]; [done|].
    unfold len in Hx. rewrite length_take in Hx. lia.
  - assert (len (take k (frame_of payload)) = N.of_nat k) as Hl by (unfold len; rewrite length_take; lia).
    rewrite decode_cases by lia. cbv zeta. rewrite take_take, Nat.min_l, take_frame, frame_prefix by (done || lia).
    destruct Hp as [Hp1 Hp2]. destruct (N.eqb_spec (len payload) 0); [lia|].
    destruct (N.ltb_spec MAX_PAYLOAD_LEN (len payload)); [lia|].
    destruct (N.ltb_spec (len (take k (frame_of payload))) (len payload + 4)) as [|Hx]; [done|].
    unfold frame_of in Hk. rewrite length_app, length_le_bytes in Hk. unfold len in *. lia.
Qed.

Lemma decode_ok {M} (decode_message : bytes → option M) f m :
  decode decode_message f = Ok m ↔
  ∃ payload, f = frame_of payload ∧ payload_ok payload ∧ decode_message payload = Some m.
Proof.
  split.
  - intros H. destruct (N.ltb_spec (len f) 4) as [Hl|Hl].
    { unfold decode in H. apply N.ltb_lt in Hl. by rewrite Hl in H. }
    rewrite decode_cases in H by lia. cbv zeta in H. repeat (step_if_in H; [done|]). reflect_bool.
    apply ok_or_ok in H. exists (drop 4 f).
    assert (len (drop 4 f) = le_value (take 4 f)) as Hd by (rewrite len_drop; lia).
    split; [|split; [split; rewrite Hd; lia|done]].
    unfold frame_of. rewrite Hd.
    assert (length (take 4 f) = 4%nat) as Ht by (rewrite length_take; unfold len in Hl; lia).
    pose proof (le_bytes_value (take 4 f)) as E. rewrite Ht in E. by rewrite E, take_drop.
  - intros (payload & -> & Hp & Hm). pose proof (decode_framed decode_message payload [] Hp) as H.
    rewrite app_nil_r in H. rewrite H. simpl. by rewrite Hm.
Qed.

Lemma drain_queue {M} (decode_message : bytes → option M) payloads ms q :
  Forall2 (λ p m, decode_message p = Some m) payloads ms →
  drain (S (length ms)) decode_message (mkStream [] payloads q) = Ok ms.
Proof.
  intros H. revert q. induction H as [|p m payloads ms Hp H IH]; intros q; [done|].
  assert (next_message decode_message (mkStream [] (p :: payloads) q) =
    (Ok (Some m), mkStream [] payloads (q - len p))) as E
    by (unfold next_message; simpl; by rewrite Hp).
  change (length (m :: ms)) with (S (length ms)). remember (S (length ms)) as n. cbn [drain].
  by rewrite E, IH.
Qed.

(** ** Properties *)

(** C38: a frame codec over a lawful message codec is exact. What [encode] makes,
    [decode] reads back; [decode] accepts precisely the four-byte length of a nonempty
    payload of at most a mebibyte followed by that payload and nothing else; every
    proper prefix of such a frame is [Truncated] and every extension [TrailingBytes]. *)
Theorem frame_codec_exact {M : Type} (encoded_len : M → N) (encode_message : M → option bytes)
    (decode_message : bytes → option M) :
  (∀ m payload, encode_message m = Some payload →
     len payload = encoded_len m ∧ decode_message payload = Some m) →
  (∀ m f, encode encoded_len encode_message m = Ok f → decode decode_message f = Ok m) ∧
  (∀ f m, decode decode_message f = Ok m ↔
     ∃ payload, f = frame_of payload ∧ payload_ok payload ∧ decode_message payload = Some m) ∧
  (∀ payload, payload_ok payload →
     (∀ k, (k < length (frame_of payload))%nat →
        decode decode_message (take k (frame_of payload)) = Err Truncated) ∧
     (∀ rest, rest ≠ [] → decode decode_message (frame_of payload ++ rest) = Err TrailingBytes)).
Proof.
  intros Hcodec. split; [|split].
  - intros m f Hf. apply encode_frame in Hf as (payload & Hm & Hp & ->); [|by intros ? []%Hcodec].
    apply decode_ok. exists payload. by apply Hcodec in Hm as [_ ?].
  - apply decode_ok.
  - intros payload Hp. split; [intros k; by apply decode_truncated|].
    intros rest Hr. rewrite decode_framed by done. by destruct rest.
Qed.

(** In every reachable state [push] terminates without underflow on every input
    and is the byte-wise reference, so the chunking of a stream does not matter. The
    queue stays within 1024 frames and one mebibyte, which [queued_bytes] counts
    exactly, the buffer stays below one frame, and an error leaves it empty. *)
Theorem push_reassembles (s : FramedStream) (a b : bytes) :
  stream_reachable s →
  push s (a ++ b) = Some (feed s (a ++ b)) ∧
  (match push s a with
   | Some (Ok _, s1) => push s1 b = push s (a ++ b)
   | Some (Err e, s1) => push s (a ++ b) = Some (Err e, s1) ∧ buffer s1 = []
   | None => False
   end) ∧
  len (completed s) ≤ MAX_QUEUED_FRAMES ∧ queued_bytes s = total_len (completed s) ∧
  queued_bytes s ≤ MAX_PAYLOAD_LEN ∧ buffered_len s < MAX_FRAME_LEN.
Proof.
  intros Hr. apply stream_reachable_inv in Hr as Hi. rewrite !push_feed by done.
  pose proof (feed_inv s a Hi) as Hia. split; [done|]. split.
  - rewrite feed_app. destruct (feed s a) as [[[]|e] s1] eqn:Ha; [by apply push_feed|].
    split; [done|]. by eapply feed_err.
  - destruct Hi as [Hw _ Hc Hs Hb]. split_and!; try done.
    unfold buffered_len, MAX_FRAME_LEN, MAX_PAYLOAD_LEN. destruct Hw as [Hw|(_ & Hd & Hw)].
    + unfold len. lia.
    + unfold MAX_PAYLOAD_LEN in Hd. lia.
Qed.

(** Messages that fit the queue survive the wire. However the concatenated frames
    are cut into chunks, a fresh stream accepts them all, is left at a frame boundary,
    and yields the messages in order. *)
Theorem framed_roundtrip {M : Type} (encoded_len : M → N) (encode_message : M → option bytes)
    (decode_message : bytes → option M) (ms : list M) (frames chunks : list bytes) :
  (∀ m payload, encode_message m = Some payload →
     len payload = encoded_len m ∧ decode_message payload = Some m) →
  Forall2 (λ m f, encode encoded_len encode_message m = Ok f) ms frames →
  len ms ≤ MAX_QUEUED_FRAMES → foldr (λ m n, encoded_len m + n) 0 ms ≤ MAX_PAYLOAD_LEN →
  concat chunks = concat frames →
  ∃ s, push_all FramedStream_new chunks = Some (Ok tt, s) ∧ finish s = Ok tt ∧
    drain (S (length ms)) decode_message s = Ok ms.
Proof.
  intros Hcodec Hms Hcount Htotal Hchunks.
  assert (∃ payloads, frames = frame_of <$> payloads ∧ Forall payload_ok payloads ∧
    Forall2 (λ p m, decode_message p = Some m) payloads ms ∧
    total_len payloads = foldr (λ m n, encoded_len m + n) 0 ms) as (payloads & -> & Hp & Hd & Hl).
  { clear -Hcodec Hms. induction Hms as [|m f ms frames Hf _ (ps & -> & Hp & Hd & Hl)]; [by exists []|].
    apply encode_frame in Hf as (p & Hm & Hpok & ->); [|by intros ? []%Hcodec].
    apply Hcodec in Hm as [Hlen Hdec]. exists (p :: ps). split_and!; try done; try (by constructor).
    simpl. by rewrite Hl, Hlen. }
  rewrite push_all_feed by apply new_stream_inv. rewrite Hchunks, feed_frames; try done.
  - eexists. split; [reflexivity|]. split; [done|]. by apply drain_queue.
  - apply Forall2_length in Hd. unfold len in *. simpl. lia.
  - simpl. by rewrite Hl.
Qed.

(** A message codec for the witnesses: a message is its payload. *)
Definition demo_encode (m : bytes) : option bytes := Some m.
Definition demo_decode (payload : bytes) : option bytes := Some payload.

Lemma frame_codec_exact_witness :
  decode demo_decode (frame_of [Byte.x61; Byte.x62]) = Ok [Byte.x61; Byte.x62] ∧
  decode demo_decode (take 5 (frame_of [Byte.x61; Byte.x62])) = Err Truncated.
Proof.
  destruct (frame_codec_exact (λ m : bytes, len m) demo_encode demo_decode) as (H1 & _ & H3);
    [intros m payload [= <-]; split; reflexivity|].
  split; [apply H1; reflexivity|].
  apply H3; [split; vm_compute; [reflexivity|discriminate]|]. vm_compute. lia.
Defined.

Lemma push_reassembles_witness :
  let f := frame_of [Byte.x61; Byte.x62] in
  ∃ s, push FramedStream_new (take 3 f) = Some (Ok tt, s) ∧
    push s (drop 3 f) = push FramedStream_new (take 3 f ++ drop 3 f).
Proof.
  cbv zeta.
  destruct (push_reassembles FramedStream_new (take 3 (frame_of [Byte.x61; Byte.x62]))
    (drop 3 (frame_of [Byte.x61; Byte.x62])) reach_new) as (_ & H & _).
  exists (mkStream (take 3 (frame_of [Byte.x61; Byte.x62])) [] 0).
  split; [vm_compute; reflexivity|exact H].
Defined.

Lemma framed_roundtrip_witness :
  ∃ s, push_all FramedStream_new [[Byte.x01; Byte.x00]; [Byte.x00; Byte.x00; Byte.x61; Byte.x01];
                                  [Byte.x00; Byte.x00; Byte.x00; Byte.x62]] = Some (Ok tt, s) ∧
    finish s = Ok tt ∧ drain 3 demo_decode s = Ok [[Byte.x61]; [Byte.x62]].
Proof.
  apply (framed_roundtrip (λ m : bytes, len m) demo_encode demo_decode [[Byte.x61]; [Byte.x62]]
    [frame_of [Byte.x61]; frame_of [Byte.x62]]).
  - intros m payload [= <-]. split; reflexivity.
  - repeat constructor.
  - vm_compute. discriminate.
  - vm_compute. discriminate.
  - reflexivity.
Defined.
