(* ===== verification/Protocol.v ===== *)
(** * The local protocol

    Models [crates/pal-protocol/src/lib.rs] over the messages of
    [proto/palcompanion/v2/common.proto] and [local.proto]: the conversions between
    wire messages and domain values, and the validation of local envelopes. A wire
    enum is an [i32] with the conversions of [WireEnum], the interface through which
    the decoders read it. Float bits in an error are the float itself. *)

From S2P Require Import Prelude Floats Settings Position View.

(** ** Wire enums *)

(** What the generated enums provide: [TryFrom<i32>] and [as i32], with their laws. *)
Class WireEnum (W : Type) := {
  try_from : Z → option W;
  as_i32 : W → Z;
  try_from_as_i32 : ∀ w, try_from (as_i32 w) = Some w;
  as_i32_try_from : ∀ n w, try_from n = Some w → as_i32 w = n;
}.

(** A wire enum from the list of its variants in the order of their numbers. *)
Definition find_variant {W} (number : W → Z) (variants : list W) (n : Z) : option W :=
  List.find (λ w, (number w =? n)%Z) variants.

Lemma find_variant_number {W} (number : W → Z) variants n w :
  find_variant number variants n = Some w → number w = n.
Proof. intros [_ H]%find_some. by apply Z.eqb_eq. Qed.

Module v2.
Inductive RotationMode := RmUnspecified | NorthUp | HeadingUp.
Inductive InputMode := ImUnspecified | Locked | TemporaryInteractive | PinnedInteractive | LayoutEdit.
Inductive DisplayMode := DmUnspecified | MiniMap | ExpandedMap.
Inductive FpsProfile := FpUnspecified | Auto | Thirty | Sixty.
Inductive Freshness := FrUnspecified | Live | Delayed | Stale | Offline.

Definition RotationMode_number (m : RotationMode) : Z :=
  match m with RmUnspecified => 0 | NorthUp => 1 | HeadingUp => 2 end.
Definition InputMode_number (m : InputMode) : Z :=
  match m with
  | ImUnspecified => 0 | Locked => 1 | TemporaryInteractive => 2 | PinnedInteractive => 3
  | LayoutEdit => 4
  end.
Definition DisplayMode_number (m : DisplayMode) : Z :=
  match m with DmUnspecified => 0 | MiniMap => 1 | ExpandedMap => 2 end.
Definition FpsProfile_number (p : FpsProfile) : Z :=
  match p with FpUnspecified => 0 | Auto => 1 | Thirty => 2 | Sixty => 3 end.
Definition Freshness_number (f : Freshness) : Z :=
  match f with FrUnspecified => 0 | Live => 1 | Delayed => 2 | Stale => 3 | Offline => 4 end.

Inductive OverlayCommandKind :=
| OcUnspecified | Start | Stop | Restart | Show | Hide | EnterInteractive | ExitInteractive
| OpenExpanded | CloseExpanded | ZoomIn | ZoomOut | ToggleRotation | Lock | ToggleVisibility
| ToggleFastTravel | ToggleBoss | ToggleWanted | ToggleDungeon | ToggleTower | ToggleEgg
| ToggleResources | ToggleSalvage.

Definition OverlayCommandKind_number (k : OverlayCommandKind) : Z :=
  match k with
  | OcUnspecified => 0 | Start => 1 | Stop => 2 | Restart => 3 | Show => 4 | Hide => 5
  | EnterInteractive => 6 | ExitInteractive => 7 | OpenExpanded => 8 | CloseExpanded => 9
  | ZoomIn => 10 | ZoomOut => 11 | ToggleRotation => 12 | Lock => 13 | ToggleVisibility => 14
  | ToggleFastTravel => 15 | ToggleBoss => 16 | ToggleWanted => 17 | ToggleDungeon => 18
  | ToggleTower => 19 | ToggleEgg => 20 | ToggleResources => 21 | ToggleSalvage => 22
  end.

Record PoiFilters := mkPoiFilters {
  fast_travel : bool;
  boss : bool;
  dungeon : bool;
  wanted : bool;
  enabled_layer_ids : list string;
  selected_pal_ids : list string;
  night_only : bool;
}.

Record HotkeyModifiers := mkModifiers { control : bool; alt : bool; shift : bool; windows : bool }.

Record HotkeyChord := mkChord { modifiers : option HotkeyModifiers; virtual_key : N }.

Record HotkeyBindings := mkBindings {
  overlay_visibility : option HotkeyChord;
  rotation_toggle : option HotkeyChord;
  temporary_interaction : option HotkeyChord;
  interaction_lock : option HotkeyChord;
}.

Record OverlaySettings := mkSettings {
  enabled : bool;
  auto_show : bool;
  rotation_mode : Z;
  input_mode : Z;
  display_mode : Z;
  opacity : f32;
  diameter_px : N;
  zoom : f32;
  normalized_x : f32;
  normalized_y : f32;
  fps_profile : Z;
  poi_filters : option PoiFilters;
  hotkey_bindings : option HotkeyBindings;
}.

Record WindowSnapshot := mkWindow {
  process_id : N;
  client_left : Z;
  client_top : Z;
  client_width : N;
  client_height : N;
  dpi : N;
  visible : bool;
  active : bool;
  minimized : bool;
}.

Record PositionData := mkPosition {
  world_alias : string;
  subject_id : bytes;
  source_boot_id : bytes;
  source_connection_generation : N;
  sequence : N;
  x : f64;
  y : f64;
  z : f64;
  heading_degrees : option f32;
  age_at_receive_upper_bound_ms : N;
  received_at_monotonic_ms : N;
}.
End v2.

#[export] Program Instance RotationMode_wire : WireEnum v2.RotationMode := {|
  try_from := find_variant v2.RotationMode_number [v2.RmUnspecified; v2.NorthUp; v2.HeadingUp];
  as_i32 := v2.RotationMode_number |}.
Next Obligation. by intros []. Qed.
Next Obligation. intros n w. apply find_variant_number. Qed.

#[export] Program Instance InputMode_wire : WireEnum v2.InputMode := {|
  try_from := find_variant v2.InputMode_number
    [v2.ImUnspecified; v2.Locked; v2.TemporaryInteractive; v2.PinnedInteractive; v2.LayoutEdit];
  as_i32 := v2.InputMode_number |}.
Next Obligation. by intros []. Qed.
Next Obligation. intros n w. apply find_variant_number. Qed.

#[export] Program Instance DisplayMode_wire : WireEnum v2.DisplayMode := {|
  try_from := find_variant v2.DisplayMode_number [v2.DmUnspecified; v2.MiniMap; v2.ExpandedMap];
  as_i32 := v2.DisplayMode_number |}.
Next Obligation. by intros []. Qed.
Next Obligation. intros n w. apply find_variant_number. Qed.

#[export] Program Instance FpsProfile_wire : WireEnum v2.FpsProfile := {|
  try_from := find_variant v2.FpsProfile_number [v2.FpUnspecified; v2.Auto; v2.Thirty; v2.Sixty];
  as_i32 := v2.FpsProfile_number |}.
Next Obligation. by intros []. Qed.
Next Obligation. intros n w. apply find_variant_number. Qed.

#[export] Program Instance Freshness_wire : WireEnum v2.Freshness := {|
  try_from := find_variant v2.Freshness_number
    [v2.FrUnspecified; v2.Live; v2.Delayed; v2.Stale; v2.Offline];
  as_i32 := v2.Freshness_number |}.
Next Obligation. by intros []. Qed.
Next Obligation. intros n w. apply find_variant_number. Qed.

#[export] Program Instance OverlayCommandKind_wire : WireEnum v2.OverlayCommandKind := {|
  try_from := find_variant v2.OverlayCommandKind_number
    [v2.OcUnspecified; v2.Start; v2.Stop; v2.Restart; v2.Show; v2.Hide; v2.EnterInteractive;
     v2.ExitInteractive; v2.OpenExpanded; v2.CloseExpanded; v2.ZoomIn; v2.ZoomOut;
     v2.ToggleRotation; v2.Lock; v2.ToggleVisibility; v2.ToggleFastTravel; v2.ToggleBoss;
     v2.ToggleWanted; v2.ToggleDungeon; v2.ToggleTower; v2.ToggleEgg; v2.ToggleResources;
     v2.ToggleSalvage];
  as_i32 := v2.OverlayCommandKind_number |}.
Next Obligation. by intros []. Qed.
Next Obligation. intros n w. apply find_variant_number. Qed.

(** ** Errors *)

Inductive ConversionValue :=
| CvMissing | CvEmpty | CvEnum (n : Z) | CvU32 (n : N) | CvF32Bits (x : f32) | CvF64Bits (x : f64).

Inductive DomainValidationReason :=
| DrSettings (e : SettingsValidationError)
| DrWindow (e : WindowSnapshot.error)
| DrPosition (e : PositionValidationError).

Inductive DomainConversionError :=
| MissingMessage (field : string)
| InvalidEnum (field : string) (value : Z)
| OutOfRangeU32 (field : string) (value : N)
| InvalidDomainValue (field : string) (value : ConversionValue) (reason : DomainValidationReason).

Definition error_field (self : DomainConversionError) : string :=
  match self with
  | MissingMessage field | InvalidEnum field _ | OutOfRangeU32 field _ | InvalidDomainValue field _ _ =>
      field
  end.

Definition error_value (self : DomainConversionError) : ConversionValue :=
  match self with
  | MissingMessage _ => CvMissing
  | InvalidEnum _ value => CvEnum value
  | OutOfRangeU32 _ value => CvU32 value
  | InvalidDomainValue _ value _ => value
  end.

(** The [field] methods of the domain errors. *)
Definition hotkey_action_field (action : HotkeyAction) : string :=
  match action with
  | OverlayVisibility => "hotkey_bindings.overlay_visibility"
  | RotationToggle => "hotkey_bindings.rotation_toggle"
  | TemporaryInteraction => "hotkey_bindings.temporary_interaction"
  | InteractionLock => "hotkey_bindings.interaction_lock"
  end.

Definition settings_error_field (e : SettingsValidationError) : string :=
  match e with
  | OpacityOutOfRange => "opacity"
  | DiameterOutOfRange => "diameter_px"
  | ZoomOutOfRange => "zoom"
  | NormalizedXOutOfRange => "normalized_x"
  | NormalizedYOutOfRange => "normalized_y"
  | InvalidHotkey action _ => hotkey_action_field action
  | TooManyEnabledLayers | TooManySelectedPals | HiddenUnverifiedMapFilterId | InvalidMapFilterId
  | DuplicateMapFilterId => "poi_filters"
  end.

Definition position_error_field (e : PositionValidationError) : string :=
  match e with
  | EmptyWorldAlias => "world_alias"
  | EmptySubjectId => "subject_id"
  | EmptyAgentBootId => "agent_boot_id"
  | NonFiniteX => "x"
  | NonFiniteY => "y"
  | NonFiniteZ => "z"
  | NonFiniteHeading => "heading_degrees"
  end.

(** ** Enum conversions *)

Definition encode_rotation_mode (value : RotationMode) : v2.RotationMode :=
  match value with NorthUp => v2.NorthUp | HeadingUp => v2.HeadingUp end.
Definition decode_rotation_mode (value : v2.RotationMode) : result RotationMode DomainConversionError :=
  match value with
  | v2.RmUnspecified => Err (InvalidEnum "rotation_mode" (as_i32 value))
  | v2.NorthUp => Ok NorthUp
  | v2.HeadingUp => Ok HeadingUp
  end.

Definition encode_input_mode (value : InputMode) : v2.InputMode :=
  match value with
  | Locked => v2.Locked
  | TemporaryInteractive => v2.TemporaryInteractive
  | PinnedInteractive => v2.PinnedInteractive
  | LayoutEdit => v2.LayoutEdit
  end.
Definition decode_input_mode (value : v2.InputMode) : result InputMode DomainConversionError :=
  match value with
  | v2.ImUnspecified => Err (InvalidEnum "input_mode" (as_i32 value))
  | v2.Locked => Ok Locked
  | v2.TemporaryInteractive => Ok TemporaryInteractive
  | v2.PinnedInteractive => Ok PinnedInteractive
  | v2.LayoutEdit => Ok LayoutEdit
  end.

Definition encode_display_mode (value : DisplayMode) : v2.DisplayMode :=
  match value with MiniMap => v2.MiniMap | ExpandedMap => v2.ExpandedMap end.
Definition decode_display_mode (value : v2.DisplayMode) : result DisplayMode DomainConversionError :=
  match value with
  | v2.DmUnspecified => Err (InvalidEnum "display_mode" (as_i32 value))
  | v2.MiniMap => Ok MiniMap
  | v2.ExpandedMap => Ok ExpandedMap
  end.

Definition encode_fps_profile (value : FpsProfile) : v2.FpsProfile :=
  match value with FpsAuto => v2.Auto | FpsThirty => v2.Thirty | FpsSixty => v2.Sixty end.
Definition decode_fps_profile (value : v2.FpsProfile) : result FpsProfile DomainConversionError :=
  match value with
  | v2.FpUnspecified => Err (InvalidEnum "fps_profile" (as_i32 value))
  | v2.Auto => Ok FpsAuto
  | v2.Thirty => Ok FpsThirty
  | v2.Sixty => Ok FpsSixty
  end.

Definition encode_freshness (value : Freshness) : v2.Freshness :=
  match value with
  | Live => v2.Live | Delayed => v2.Delayed | Stale => v2.Stale | Offline => v2.Offline
  end.
Definition decode_freshness (value : v2.Freshness) : result Freshness DomainConversionError :=
  match value with
  | v2.FrUnspecified => Err (InvalidEnum "freshness" (as_i32 value))
  | v2.Live => Ok Live
  | v2.Delayed => Ok Delayed
  | v2.Stale => Ok Stale
  | v2.Offline => Ok Offline
  end.

Definition encode_overlay_action (value : OverlayAction) : v2.OverlayCommandKind :=
  match value with
  | Show => v2.Show
  | Hide => v2.Hide
  | ToggleVisibility => v2.ToggleVisibility
  | EnterInteractive => v2.EnterInteractive
  | ExitInteractive => v2.ExitInteractive
  | OpenExpanded => v2.OpenExpanded
  | CloseExpanded => v2.CloseExpanded
  | ZoomIn => v2.ZoomIn
  | ZoomOut => v2.ZoomOut
  | ToggleRotation => v2.ToggleRotation
  | Lock => v2.Lock
  | ToggleFastTravel => v2.ToggleFastTravel
  | ToggleBoss => v2.ToggleBoss
  | ToggleWanted => v2.ToggleWanted
  | ToggleDungeon => v2.ToggleDungeon
  | ToggleTower => v2.ToggleTower
  | ToggleEgg => v2.ToggleEgg
  | ToggleResources => v2.ToggleResources
  | ToggleSalvage => v2.ToggleSalvage
  end.

Definition decode_overlay_action (value : v2.OverlayCommandKind) :
    result OverlayAction DomainConversionError :=
  match value with
  | v2.OcUnspecified | v2.Start | v2.Stop | v2.Restart =>
      Err (InvalidEnum "overlay_command.command" (as_i32 value))
  | v2.Show => Ok Show
  | v2.Hide => Ok Hide
  | v2.EnterInteractive => Ok EnterInteractive
  | v2.ExitInteractive => Ok ExitInteractive
  | v2.OpenExpanded => Ok OpenExpanded
  | v2.CloseExpanded => Ok CloseExpanded
  | v2.ZoomIn => Ok ZoomIn
  | v2.ZoomOut => Ok ZoomOut
  | v2.ToggleRotation => Ok ToggleRotation
  | v2.Lock => Ok Lock
  | v2.ToggleVisibility => Ok ToggleVisibility
  | v2.ToggleFastTravel => Ok ToggleFastTravel
  | v2.ToggleBoss => Ok ToggleBoss
  | v2.ToggleWanted => Ok ToggleWanted
  | v2.ToggleDungeon => Ok ToggleDungeon
  | v2.ToggleTower => Ok ToggleTower
  | v2.ToggleEgg => Ok ToggleEgg
  | v2.ToggleResources => Ok ToggleResources
  | v2.ToggleSalvage => Ok ToggleSalvage
  end.

Definition checked_enum {Wire Domain} `{WireEnum Wire} (field : string) (raw : Z)
    (decode : Wire → result Domain DomainConversionError) : result Domain DomainConversionError :=
  let? wire := ok_or (try_from raw) (InvalidEnum field raw) in
  decode wire.

(** ** Settings *)

Definition hotkey_value (value : option HotkeyChord) : ConversionValue :=
  match value with None => CvMissing | Some chord => CvU32 (virtual_key chord) end.

Definition settings_value (settings : OverlaySettings) (field : string) : ConversionValue :=
  if String.eqb field "opacity" then CvF32Bits (opacity settings)
  else if String.eqb field "diameter_px" then CvU32 (diameter_px settings)
  else if String.eqb field "zoom" then CvF32Bits (zoom settings)
  else if String.eqb field "normalized_x" then CvF32Bits (normalized_x settings)
  else if String.eqb field "normalized_y" then CvF32Bits (normalized_y settings)
  else if String.eqb field "hotkey_bindings.overlay_visibility" then
    hotkey_value (overlay_visibility (hotkey_bindings settings))
  else if String.eqb field "hotkey_bindings.rotation_toggle" then
    hotkey_value (rotation_toggle (hotkey_bindings settings))
  else if String.eqb field "hotkey_bindings.temporary_interaction" then
    hotkey_value (temporary_interaction (hotkey_bindings settings))
  else if String.eqb field "hotkey_bindings.interaction_lock" then
    hotkey_value (interaction_lock (hotkey_bindings settings))
  else CvMissing.

(** The [map_err] of both directions. *)
Definition settings_error (settings : OverlaySettings) (reason : SettingsValidationError) :
    DomainConversionError :=
  let field := settings_error_field reason in
  InvalidDomainValue field (settings_value settings field) (DrSettings reason).

Definition wire_hotkey (value : HotkeyChord) : v2.HotkeyChord :=
  v2.mkChord
    (Some (v2.mkModifiers (control (modifiers value)) (alt (modifiers value))
             (shift (modifiers value)) (windows (modifiers value))))
    (virtual_key value).

Definition encode_overlay_settings (value : OverlaySettings) :
    result v2.OverlaySettings DomainConversionError :=
  let? _ := map_err (settings_error value) (validate value) in
  Ok {|
    v2.enabled := enabled value;
    v2.auto_show := auto_show value;
    v2.rotation_mode := as_i32 (encode_rotation_mode (rotation_mode value));
    v2.input_mode := as_i32 (encode_input_mode (input_mode value));
    v2.display_mode := as_i32 (encode_display_mode (display_mode value));
    v2.opacity := opacity value;
    v2.diameter_px := diameter_px value;
    v2.zoom := zoom value;
    v2.normalized_x := normalized_x value;
    v2.normalized_y := normalized_y value;
    v2.fps_profile := as_i32 (encode_fps_profile (fps_profile value));
    v2.poi_filters := Some {|
      v2.fast_travel := fast_travel (poi_filters value);
      v2.boss := boss (poi_filters value);
      v2.dungeon := dungeon (poi_filters value);
      v2.wanted := wanted (poi_filters value);
      v2.enabled_layer_ids := enabled_layer_ids (poi_filters value);
      v2.selected_pal_ids := selected_pal_ids (poi_filters value);
      v2.night_only := night_only (poi_filters value) |};
    v2.hotkey_bindings := Some {|
      v2.overlay_visibility := wire_hotkey <$> overlay_visibility (hotkey_bindings value);
      v2.rotation_toggle := wire_hotkey <$> rotation_toggle (hotkey_bindings value);
      v2.temporary_interaction := wire_hotkey <$> temporary_interaction (hotkey_bindings value);
      v2.interaction_lock := wire_hotkey <$> interaction_lock (hotkey_bindings value) |} |}.

Definition hotkey_modifiers_field (field : string) : string :=
  if String.eqb field "hotkey_bindings.overlay_visibility" then
    "hotkey_bindings.overlay_visibility.modifiers"
  else if String.eqb field "hotkey_bindings.rotation_toggle" then
    "hotkey_bindings.rotation_toggle.modifiers"
  else if String.eqb field "hotkey_bindings.temporary_interaction" then
    "hotkey_bindings.temporary_interaction.modifiers"
  else if String.eqb field "hotkey_bindings.interaction_lock" then
    "hotkey_bindings.interaction_lock.modifiers"
  else "hotkey_bindings.modifiers".

Definition hotkey_key_field (field : string) : string :=
  if String.eqb field "hotkey_bindings.overlay_visibility" then
    "hotkey_bindings.overlay_visibility.virtual_key"
  else if String.eqb field "hotkey_bindings.rotation_toggle" then
    "hotkey_bindings.rotation_toggle.virtual_key"
  else if String.eqb field "hotkey_bindings.temporary_interaction" then
    "hotkey_bindings.temporary_interaction.virtual_key"
  else if String.eqb field "hotkey_bindings.interaction_lock" then
    "hotkey_bindings.interaction_lock.virtual_key"
  else "hotkey_bindings.virtual_key".

(** [u16::try_from]. *)
Definition u16_try_from (n : N) : option N := if n <=? u16_max then Some n else None.

Definition checked_hotkey (field : string) (value : option v2.HotkeyChord) :
    result (option HotkeyChord) DomainConversionError :=
  match value with
  | None => Ok None
  | Some value =>
      let? modifiers := ok_or (v2.modifiers value) (MissingMessage (hotkey_modifiers_field field)) in
      let? virtual_key := ok_or (u16_try_from (v2.virtual_key value))
                            (OutOfRangeU32 (hotkey_key_field field) (v2.virtual_key value)) in
      Ok (Some (mkHotkeyChord
        (mkHotkeyModifiers (v2.control modifiers) (v2.alt modifiers) (v2.shift modifiers)
           (v2.windows modifiers)) virtual_key))
  end.

Definition decode_overlay_settings (value : v2.OverlaySettings) :
    result OverlaySettings DomainConversionError :=
  let? filters := ok_or (v2.poi_filters value) (MissingMessage "poi_filters") in
  let? bindings := ok_or (v2.hotkey_bindings value) (MissingMessage "hotkey_bindings") in
  let? rotation_mode := checked_enum "rotation_mode" (v2.rotation_mode value) decode_rotation_mode in
  let? input_mode := checked_enum "input_mode" (v2.input_mode value) decode_input_mode in
  let? display_mode := checked_enum "display_mode" (v2.display_mode value) decode_display_mode in
  let? fps_profile := checked_enum "fps_profile" (v2.fps_profile value) decode_fps_profile in
  let? overlay_visibility :=
    checked_hotkey "hotkey_bindings.overlay_visibility" (v2.overlay_visibility bindings) in
  let? rotation_toggle :=
    checked_hotkey "hotkey_bindings.rotation_toggle" (v2.rotation_toggle bindings) in
  let? temporary_interaction :=
    checked_hotkey "hotkey_bindings.temporary_interaction" (v2.temporary_interaction bindings) in
  let? interaction_lock :=
    checked_hotkey "hotkey_bindings.interaction_lock" (v2.interaction_lock bindings) in
  let settings := {|
    enabled := v2.enabled value;
    auto_show := v2.auto_show value;
    rotation_mode := rotation_mode;
    input_mode := input_mode;
    display_mode := display_mode;
    opacity := v2.opacity value;
    diameter_px := v2.diameter_px value;
    zoom := v2.zoom value;
    normalized_x := v2.normalized_x value;
    normalized_y := v2.normalized_y value;
    fps_profile := fps_profile;
    poi_filters := {|
      fast_travel := v2.fast_travel filters;
      boss := v2.boss filters;
      wanted := v2.wanted filters;
      dungeon := v2.dungeon filters;
      enabled_layer_ids := v2.enabled_layer_ids filters;
      selected_pal_ids := v2.selected_pal_ids filters;
      night_only := v2.night_only filters |};
    hotkey_bindings := mkHotkeyBindings overlay_visibility rotation_toggle temporary_interaction
      interaction_lock |} in
  let? _ := map_err (settings_error settings) (validate settings) in
  Ok settings.

(** ** Windows and positions *)

Definition encode_window_snapshot (value : WindowSnapshot.t) : v2.WindowSnapshot :=
  v2.mkWindow (WindowSnapshot.process_id value) (WindowSnapshot.client_left value)
    (WindowSnapshot.client_top value) (WindowSnapshot.client_width value)
    (WindowSnapshot.client_height value) (WindowSnapshot.dpi value) (WindowSnapshot.visible value)
    (WindowSnapshot.active value) (WindowSnapshot.minimized value).

Definition window_value (value : v2.WindowSnapshot) (reason : WindowSnapshot.error) : ConversionValue :=
  match reason with
  | WindowSnapshot.VisibleWidthZero => CvU32 (v2.client_width value)
  | WindowSnapshot.VisibleHeightZero => CvU32 (v2.client_height value)
  | WindowSnapshot.VisibleDpiZero => CvU32 (v2.dpi value)
  end.

Definition decode_window_snapshot (value : v2.WindowSnapshot) :
    result WindowSnapshot.t DomainConversionError :=
  map_err (λ reason, InvalidDomainValue (WindowSnapshot.field reason) (window_value value reason)
                       (DrWindow reason))
    (WindowSnapshot.new (v2.process_id value) (v2.client_left value) (v2.client_top value)
       (v2.client_width value) (v2.client_height value) (v2.dpi value) (v2.visible value)
       (v2.active value) (v2.minimized value)).

Definition encode_position_sample (value : PositionSample.t) : v2.PositionData :=
  v2.mkPosition (PositionSample.world_alias value) (PositionSample.subject_id value)
    (PositionSample.agent_boot_id value) (PositionSample.source_connection_generation value)
    (PositionSample.sequence value) (PositionSample.x value) (PositionSample.y value)
    (PositionSample.z value) (PositionSample.heading_degrees value)
    (SampleClock.age_at_receive_upper_bound_ms (PositionSample.clock value))
    (SampleClock.received_at_monotonic_ms (PositionSample.clock value)).

Definition position_wire_field (reason : PositionValidationError) : string :=
  match reason with EmptyAgentBootId => "source_boot_id" | _ => position_error_field reason end.

(** [None] is the panic of [expect] on a missing heading. *)
Definition position_value (value : v2.PositionData) (reason : PositionValidationError) :
    option ConversionValue :=
  match reason with
  | EmptyWorldAlias | EmptySubjectId | EmptyAgentBootId => Some CvEmpty
  | NonFiniteX => Some (CvF64Bits (v2.x value))
  | NonFiniteY => Some (CvF64Bits (v2.y value))
  | NonFiniteZ => Some (CvF64Bits (v2.z value))
  | NonFiniteHeading => CvF32Bits <$> v2.heading_degrees value
  end.

Definition decode_position_sample (value : v2.PositionData) :
    option (result PositionSample.t DomainConversionError) :=
  match PositionSample.new (v2.world_alias value) (v2.subject_id value) (v2.source_boot_id value)
          (v2.source_connection_generation value) (v2.sequence value) (v2.x value) (v2.y value)
          (v2.z value) (v2.heading_degrees value)
          (SampleClock.received_with_age (v2.age_at_receive_upper_bound_ms value)
             (v2.received_at_monotonic_ms value)) with
  | Ok sample => Some (Ok sample)
  | Err reason =>
      shown ← position_value value reason;
      Some (Err (InvalidDomainValue (position_wire_field reason) shown (DrPosition reason)))
  end.

(** ** Both directions agree *)

(** [virtual_key] is a [u16] in the domain. *)
Definition u16_chord (chord : option HotkeyChord) : Prop :=
  match chord with Some c => virtual_key c ≤ u16_max | None => True end.

Definition u16_keys (bindings : HotkeyBindings) : Prop :=
  u16_chord (overlay_visibility bindings) ∧ u16_chord (rotation_toggle bindings) ∧
  u16_chord (temporary_interaction bindings) ∧ u16_chord (interaction_lock bindings).

(** An encoder and a decoder of a wire enum that undo each other. *)
Class EnumConversion {Wire Domain} `{WireEnum Wire} (encode : Domain → Wire)
    (decode : Wire → result Domain DomainConversionError) : Prop :=
  conversion : ∀ w d, decode w = Ok d ↔ w = encode d.

Ltac enum_conversion := intros [] []; split; (reflexivity || discriminate).
#[export] Instance rotation_mode_conversion : EnumConversion encode_rotation_mode decode_rotation_mode.
Proof. enum_conversion. Qed.
#[export] Instance input_mode_conversion : EnumConversion encode_input_mode decode_input_mode.
Proof. enum_conversion. Qed.
#[export] Instance display_mode_conversion : EnumConversion encode_display_mode decode_display_mode.
Proof. enum_conversion. Qed.
#[export] Instance fps_profile_conversion : EnumConversion encode_fps_profile decode_fps_profile.
Proof. enum_conversion. Qed.
#[export] Instance freshness_conversion : EnumConversion encode_freshness decode_freshness.
Proof. enum_conversion. Qed.
#[export] Instance overlay_action_conversion : EnumConversion encode_overlay_action decode_overlay_action.
Proof. enum_conversion. Qed.

Lemma checked_enum_ok {Wire Domain} `{WireEnum Wire} (encode : Domain → Wire)
    (decode : Wire → result Domain DomainConversionError) `{!EnumConversion encode decode} field raw d :
  checked_enum field raw decode = Ok d ↔ raw = as_i32 (encode d).
Proof.
  unfold checked_enum. rewrite and_then_ok. split.
  - intros (w & Hw%ok_or_ok & Hd). apply conversion in Hd as ->. by rewrite (as_i32_try_from _ _ Hw).
  - intros ->. exists (encode d). split; [by rewrite try_from_as_i32|]. by apply conversion.
Qed.

Lemma checked_hotkey_ok field value chord :
  checked_hotkey field value = Ok chord ↔ u16_chord chord ∧ value = wire_hotkey <$> chord.
Proof.
  destruct value as [[m k]|]; cbn [checked_hotkey v2.modifiers v2.virtual_key].
  2: { split; [by intros [= <-]|]. by destruct chord as [c|]; [intros [_ ?]|]. }
  unfold u16_try_from. split.
  - intros ([c a s w] & ->%ok_or_ok & H)%and_then_ok.
    apply and_then_ok in H as (k' & Hk%ok_or_ok & [= <-]).
    destruct (N.leb_spec k u16_max); simplify_eq. by split.
  - intros [Hc Hv]. destruct chord as [[[c a s w] k']|]; simplify_eq/=.
    unfold wire_hotkey in Hv. simpl in Hv. injection Hv as -> ->. simpl.
    destruct (N.leb_spec k' u16_max) as [|Hx]; [done|]. simpl in Hc. lia.
Qed.

Lemma encode_overlay_settings_ok s w :
  encode_overlay_settings s = Ok w →
  valid_settings s ∧
  v2.enabled w = enabled s ∧ v2.auto_show w = auto_show s ∧
  v2.rotation_mode w = as_i32 (encode_rotation_mode (rotation_mode s)) ∧
  v2.input_mode w = as_i32 (encode_input_mode (input_mode s)) ∧
  v2.display_mode w = as_i32 (encode_display_mode (display_mode s)).
Proof.
  unfold encode_overlay_settings. intros ([] & Hv%map_err_ok & [= <-])%and_then_ok.
  apply validate_ok in Hv. done.
Qed.

Lemma encode_settings_valid s :
  valid_settings s → ∃ w, encode_overlay_settings s = Ok w.
Proof. intros Hv%validate_ok. unfold encode_overlay_settings. rewrite Hv. by eexists. Qed.

Lemma decode_encode_settings s w :
  u16_keys (hotkey_bindings s) → encode_overlay_settings s = Ok w → decode_overlay_settings w = Ok s.
Proof.
  intros (K1 & K2 & K3 & K4) H. unfold encode_overlay_settings in H.
  apply and_then_ok in H as ([] & Hv%map_err_ok & [= <-]). unfold decode_overlay_settings.
  cbn [v2.poi_filters v2.hotkey_bindings ok_or and_then v2.rotation_mode v2.input_mode
       v2.display_mode v2.fps_profile v2.overlay_visibility v2.rotation_toggle
       v2.temporary_interaction v2.interaction_lock].
  change v2.RotationMode_number with (as_i32 (W := v2.RotationMode)).
  change v2.InputMode_number with (as_i32 (W := v2.InputMode)).
  change v2.DisplayMode_number with (as_i32 (W := v2.DisplayMode)).
  change v2.FpsProfile_number with (as_i32 (W := v2.FpsProfile)).
  rewrite (proj2 (checked_enum_ok encode_rotation_mode decode_rotation_mode _ _ _) eq_refl),
    (proj2 (checked_enum_ok encode_input_mode decode_input_mode _ _ _) eq_refl),
    (proj2 (checked_enum_ok encode_display_mode decode_display_mode _ _ _) eq_refl),
    (proj2 (checked_enum_ok encode_fps_profile decode_fps_profile _ _ _) eq_refl).
  cbn [and_then].
  rewrite (proj2 (checked_hotkey_ok _ _ _) (conj K1 eq_refl)). cbn [and_then].
  rewrite (proj2 (checked_hotkey_ok _ _ _) (conj K2 eq_refl)). cbn [and_then].
  rewrite (proj2 (checked_hotkey_ok _ _ _) (conj K3 eq_refl)). cbn [and_then].
  rewrite (proj2 (checked_hotkey_ok _ _ _) (conj K4 eq_refl)).
  cbn [and_then]. destruct s as [? ? ? ? ? ? ? ? ? ? ? [] []]. simpl in *. by rewrite Hv.
Qed.

Lemma encode_decode_settings s w :
  decode_overlay_settings w = Ok s → u16_keys (hotkey_bindings s) ∧ encode_overlay_settings s = Ok w.
Proof.
  unfold decode_overlay_settings. intros H.
  apply and_then_ok in H as (f & Hf%ok_or_ok & H). apply and_then_ok in H as (b & Hb%ok_or_ok & H).
  apply and_then_ok in H as (m1 & M1%(checked_enum_ok encode_rotation_mode decode_rotation_mode) & H).
  apply and_then_ok in H as (m2 & M2%(checked_enum_ok encode_input_mode decode_input_mode) & H).
  apply and_then_ok in H as (m3 & M3%(checked_enum_ok encode_display_mode decode_display_mode) & H).
  apply and_then_ok in H as (m4 & M4%(checked_enum_ok encode_fps_profile decode_fps_profile) & H).
  apply and_then_ok in H as (k1 & [K1 E1]%checked_hotkey_ok & H).
  apply and_then_ok in H as (k2 & [K2 E2]%checked_hotkey_ok & H).
  apply and_then_ok in H as (k3 & [K3 E3]%checked_hotkey_ok & H).
  apply and_then_ok in H as (k4 & [K4 E4]%checked_hotkey_ok & H). cbv zeta in H.
  apply and_then_ok in H as ([] & Hv%map_err_ok & [= <-]). split; [done|].
  unfold encode_overlay_settings. rewrite Hv. cbn [map_err and_then].
  destruct w as [? ? ? ? ? ? ? ? ? ? ? pf hb], f, b. simpl in *. by subst.
Qed.

Lemma decode_position_total value :
  ∃ r, decode_position_sample value = Some r ∧
  ∀ sample, r = Ok sample ↔
    PositionSample.new (v2.world_alias value) (v2.subject_id value) (v2.source_boot_id value)
      (v2.source_connection_generation value) (v2.sequence value) (v2.x value) (v2.y value)
      (v2.z value) (v2.heading_degrees value)
      (SampleClock.received_with_age (v2.age_at_receive_upper_bound_ms value)
         (v2.received_at_monotonic_ms value)) = Ok sample.
Proof.
  unfold decode_position_sample. destruct (PositionSample.new _ _ _ _ _ _ _ _ _ _) as [p|reason] eqn:Hn.
  { exists (Ok p). split; [done|]. split; congruence. }
  assert (∃ shown, position_value value reason = Some shown) as [shown ->].
  { destruct reason; try by eexists. simpl. destruct (v2.heading_degrees value); [by eexists|].
    exfalso. clear -Hn. unfold PositionSample.new in Hn. by repeat step_if_in Hn. }
  eexists. split; [reflexivity|]. done.
Qed.

(** ** Properties *)

(** The wire form of settings and commands is a faithful copy. Settings encode
    exactly when they are valid, and a message decodes to settings exactly when it is
    what those settings encode to, so both round trips are identities and decoding
    lets nothing invalid in; every overlay action survives its wire command, and the
    commands that are no actions are refused. *)
Theorem settings_wire_bijection (s : OverlaySettings) (w : v2.OverlaySettings)
    (k : v2.OverlayCommandKind) (a : OverlayAction) :
  ((∃ w', encode_overlay_settings s = Ok w') ↔ valid_settings s) ∧
  (decode_overlay_settings w = Ok s ↔
     u16_keys (hotkey_bindings s) ∧ encode_overlay_settings s = Ok w) ∧
  (decode_overlay_settings w = Ok s → valid_settings s) ∧
  (decode_overlay_action k = Ok a ↔ k = encode_overlay_action a).
Proof.
  split; [|split; [|split]].
  - split; [|apply encode_settings_valid]. by intros (w' & [Hv _]%encode_overlay_settings_ok).
  - split; [apply encode_decode_settings|]. intros [? ?]. by apply decode_encode_settings.
  - intros [_ [Hv _]%encode_overlay_settings_ok]%encode_decode_settings. done.
  - apply conversion.
Qed.

(** Windows and positions cross the wire too. A valid window comes back as it
    was; a position comes back with its heading normalized once more, and no message
    can make the decoder panic. *)
Theorem window_position_roundtrip (window : WindowSnapshot.t) (p : PositionSample.t)
    (message : v2.PositionData) :
  (WindowSnapshot.valid window → decode_window_snapshot (encode_window_snapshot window) = Ok window) ∧
  (∀ m s, decode_window_snapshot m = Ok s → WindowSnapshot.valid s ∧ encode_window_snapshot s = m) ∧
  decode_position_sample message ≠ None ∧
  (PositionSample.acceptable (PositionSample.world_alias p) (PositionSample.subject_id p)
     (PositionSample.agent_boot_id p) (PositionSample.x p) (PositionSample.y p) (PositionSample.z p)
     (PositionSample.heading_degrees p) →
   decode_position_sample (encode_position_sample p) = Some (Ok
     (PositionSample.mk (PositionSample.world_alias p) (PositionSample.subject_id p)
        (PositionSample.agent_boot_id p) (PositionSample.source_connection_generation p)
        (PositionSample.sequence p) (PositionSample.x p) (PositionSample.y p) (PositionSample.z p)
        (PositionSample.normalize_heading <$> PositionSample.heading_degrees p)
        (PositionSample.clock p)))).
Proof.
  split; [|split; [|split]].
  - intros Hv. unfold decode_window_snapshot, encode_window_snapshot.
    apply map_err_ok, WindowSnapshot.window_new_ok. destruct window. done.
  - intros m s H. unfold decode_window_snapshot in H.
    apply map_err_ok, WindowSnapshot.window_new_ok in H as [Hv ->]. split; [done|]. by destruct m.
  - by destruct (decode_position_total message) as (r & -> & _).
  - intros Ha. destruct (decode_position_total (encode_position_sample p)) as (r & -> & Hr).
    f_equal. apply Hr, PositionSample.sample_new_ok. split; [done|]. by destruct p as [? ? ? ? ? ? ? ? ? []].
Qed.

(** A heading just below zero is stored as a full turn, which the next decoding stores
    as zero: the two hops of one sample disagree. *)
Lemma heading_changes_on_second_hop :
  PositionSample.normalize_heading (f32_lit (-1) 10000000000) = f32_of_Z 360 ∧
  feq (PositionSample.normalize_heading (f32_of_Z 360)) (f32_of_Z 0) = true.
Proof. by vm_compute. Qed.

Lemma window_position_roundtrip_witness :
  let window := WindowSnapshot.mk 7 (-5) 3 800 600 96 true true false in
  let p := PositionSample.mk "world-a" [Byte.x01] [Byte.x02] 1 4 (f64_of_Z 5) (f64_of_Z 6)
             (f64_of_Z 7) (Some (f32_of_Z 90)) (SampleClock.mk 10 20) in
  decode_window_snapshot (encode_window_snapshot window) = Ok window ∧
  decode_position_sample (encode_position_sample p) = Some (Ok p).
Proof.
  cbv zeta.
  set (window := WindowSnapshot.mk 7 (-5) 3 800 600 96 true true false).
  set (p := PositionSample.mk "world-a" [Byte.x01] [Byte.x02] 1 4 (f64_of_Z 5) (f64_of_Z 6)
             (f64_of_Z 7) (Some (f32_of_Z 90)) (SampleClock.mk 10 20)).
  destruct (window_position_roundtrip window p (encode_position_sample p)) as (H1 & _ & _ & H4).
  split.
  - apply H1. intros _. done.
  - rewrite H4; [vm_compute; reflexivity|]. unfold PositionSample.acceptable.
    do 6 (split; [done|]). intros h [= <-]. vm_compute. reflexivity.
Defined.

Lemma settings_wire_bijection_witness :
  ∃ w, encode_overlay_settings OverlaySettings_default = Ok w ∧
       decode_overlay_settings w = Ok OverlaySettings_default.
Proof.
  destruct (settings_wire_bijection OverlaySettings_default
    (v2.mkSettings true true 1 1 1 (f32_lit 90 100) 320 (f32_lit 1 1) (f32_lit 85 100) (f32_lit 20 100) 1
      (Some (v2.mkPoiFilters true true true false DEFAULT_OVERLAY_LAYER_IDS [] false))
      (Some (v2.mkBindings None None None None))) v2.Show Show) as (_ & H2 & _).
  eexists. split; [|apply H2; split; [repeat split|]]; reflexivity.
Defined.
