(* ===== verification/Handshake.v ===== *)
(** * Local messages and the hello gate

    Models the envelopes of [proto/palcompanion/v2/local.proto], their validation in
    [crates/pal-protocol/src/lib.rs], and the gate of
    [crates/pal-windows-ipc/src/handshake.rs] that admits a client by its first
    message and checks every later one. The payloads that no modelled code reads are a
    trace id and opaque bytes. *)

From S2P Require Import Prelude Floats Settings Position View Protocol.

(** ** Messages *)

Module local.
Inductive ClientRole := CrUnspecified | ManagementUi | Overlay.
Definition ClientRole_number (r : ClientRole) : Z :=
  match r with CrUnspecified => 0 | ManagementUi => 3 | Overlay => 2 end.

Inductive ProtocolErrorCode :=
| PeUnspecified | PeNone | UnsupportedVersion | InvalidConnectionId | InvalidTraceId | InvalidRole
| UnexpectedPayload | InvalidSettings | VersionConflict | HotkeyConflict | ValidationFailed.
Definition ProtocolErrorCode_number (c : ProtocolErrorCode) : Z :=
  match c with
  | PeUnspecified => 0 | PeNone => 1 | UnsupportedVersion => 2 | InvalidConnectionId => 3
  | InvalidTraceId => 4 | InvalidRole => 5 | UnexpectedPayload => 6 | InvalidSettings => 7
  | VersionConflict => 8 | HotkeyConflict => 9 | ValidationFailed => 10
  end.

Inductive OverlaySettingField :=
| OfUnspecified | FEnabled | FAutoShow | FRotationMode | FInputMode | FDisplayMode | FOpacity
| FDiameterPx | FZoom | FNormalizedX | FNormalizedY | FFpsProfile | FPoiFilters | FHotkeyBindings.
Definition OverlaySettingField_number (f : OverlaySettingField) : Z :=
  match f with
  | OfUnspecified => 0 | FEnabled => 1 | FAutoShow => 2 | FRotationMode => 3 | FInputMode => 4
  | FDisplayMode => 5 | FOpacity => 6 | FDiameterPx => 7 | FZoom => 8 | FNormalizedX => 9
  | FNormalizedY => 10 | FFpsProfile => 11 | FPoiFilters => 12 | FHotkeyBindings => 13
  end.

Inductive SettingsApplyStatus :=
| SaUnspecified | SaApplied | SaVersionConflict | SaValidationRejected | SaHotkeyConflict.
Definition SettingsApplyStatus_number (s : SettingsApplyStatus) : Z :=
  match s with
  | SaUnspecified => 0 | SaApplied => 1 | SaVersionConflict => 2 | SaValidationRejected => 3
  | SaHotkeyConflict => 4
  end.

Inductive OverlayCommandStatus := OsUnspecified | OsApplied | OsNoOp | OsRejected | OsFailed.
Definition OverlayCommandStatus_number (s : OverlayCommandStatus) : Z :=
  match s with OsUnspecified => 0 | OsApplied => 1 | OsNoOp => 2 | OsRejected => 3 | OsFailed => 4 end.

Record ClientHello := mkHello {
  role : Z;
  process_id : N;
  minimum_protocol_version : N;
  maximum_protocol_version : N;
}.

Record SettingsPatch := mkPatch {
  patch_trace_id : bytes;
  patch_expected_version : N;
  candidate : option v2.OverlaySettings;
  changed_fields : list Z;
}.

Record SettingsSnapshot := mkSnapshot {
  snapshot_trace_id : bytes;
  snapshot_version : N;
  snapshot_settings : option v2.OverlaySettings;
}.

Record SettingsAck := mkAck {
  ack_trace_id : bytes;
  ack_status : Z;
  applied_version : N;
  ack_settings : option v2.OverlaySettings;
  hotkey_conflicts : list (Z * Z * option v2.HotkeyChord);
}.

Record OverlayCommand := mkCommand {
  command_trace_id : bytes;
  command : Z;
  command_expected_version : N;
}.

Record OverlayCommandResult := mkCommandResult {
  result_trace_id : bytes;
  result_status : Z;
  result_visible : bool;
  result_input_mode : Z;
  result_display_mode : Z;
  result_version : N;
  error_code : Z;
  result_settings : option v2.OverlaySettings;
}.

Record ProtocolError := mkError { code : Z; field : string; offending_value : string }.

Inductive Payload :=
| ClientHelloP (p : ClientHello)
| SettingsPatchP (p : SettingsPatch)
| SettingsAckP (p : SettingsAck)
| CoreStatusP (rest : bytes)
| PositionP (trace_id : bytes) (rest : bytes)
| RenderSnapshotP (trace_id : bytes) (rest : bytes)
| OverlayCommandP (p : OverlayCommand)
| OverlayCommandResultP (p : OverlayCommandResult)
| RenderAppliedP (trace_id : bytes) (rest : bytes)
| ErrorP (p : ProtocolError)
| ProductRequestP (trace_id : bytes) (rest : bytes)
| ProductResponseP (trace_id : bytes) (rest : bytes)
| SettingsQueryP (trace_id : bytes)
| SettingsSnapshotP (p : SettingsSnapshot)
| MapViewIntentP (trace_id : bytes) (rest : bytes)
| MapViewUpdateP (trace_id : bytes) (rest : bytes).

Record LocalEnvelope := mkLocalEnvelope {
  protocol_version : N;
  connection_id : bytes;
  message_id : N;
  reply_to_message_id : option N;
  payload : option Payload;
}.
End local.
Import local.

#[export] Instance ClientRole_eq_dec : EqDecision ClientRole.
Proof. solve_decision. Defined.
#[export] Instance OverlaySettingField_eq_dec : EqDecision OverlaySettingField.
Proof. solve_decision. Defined.

#[export] Program Instance ClientRole_wire : WireEnum ClientRole := {|
  try_from := find_variant ClientRole_number [CrUnspecified; ManagementUi; Overlay];
  as_i32 := ClientRole_number |}.
Next Obligation. by intros []. Qed.
Next Obligation. intros n w. apply find_variant_number. Qed.

#[export] Program Instance OverlaySettingField_wire : WireEnum OverlaySettingField := {|
  try_from := find_variant OverlaySettingField_number
    [OfUnspecified; FEnabled; FAutoShow; FRotationMode; FInputMode; FDisplayMode; FOpacity;
     FDiameterPx; FZoom; FNormalizedX; FNormalizedY; FFpsProfile; FPoiFilters; FHotkeyBindings];
  as_i32 := OverlaySettingField_number |}.
Next Obligation. by intros []. Qed.
Next Obligation. intros n w. apply find_variant_number. Qed.

Definition PROTOCOL_VERSION : N := 2.

(** ** Envelope validation *)

Inductive LocalValidationError :=
| MissingPayload
| InvalidLength (field : string) (expected actual : N).

Definition validate_len (field : string) (value : bytes) (expected : N) :
    result unit LocalValidationError :=
  if len value =? expected then Ok tt else Err (InvalidLength field expected (len value)).

Definition payload_trace (p : Payload) : option (string * bytes) :=
  match p with
  | SettingsPatchP p => Some ("settings_patch.trace_id", patch_trace_id p)
  | SettingsAckP p => Some ("settings_ack.trace_id", ack_trace_id p)
  | PositionP t _ => Some ("position.trace_id", t)
  | RenderSnapshotP t _ => Some ("render_snapshot.trace_id", t)
  | OverlayCommandP p => Some ("overlay_command.trace_id", command_trace_id p)
  | OverlayCommandResultP p => Some ("overlay_command_result.trace_id", result_trace_id p)
  | RenderAppliedP t _ => Some ("render_applied.trace_id", t)
  | ProductRequestP t _ => Some ("product_request.trace_id", t)
  | ProductResponseP t _ => Some ("product_response.trace_id", t)
  | SettingsQueryP t => Some ("settings_query.trace_id", t)
  | SettingsSnapshotP p => Some ("settings_snapshot.trace_id", snapshot_trace_id p)
  | MapViewIntentP t _ => Some ("map_view_intent.trace_id", t)
  | MapViewUpdateP t _ => Some ("map_view_update.trace_id", t)
  | ClientHelloP _ | CoreStatusP _ | ErrorP _ => None
  end.

Definition validate_local_envelope (envelope : LocalEnvelope) : result unit LocalValidationError :=
  let? _ := validate_len "connection_id" (connection_id envelope) 16 in
  let? p := ok_or (payload envelope) MissingPayload in
  match payload_trace p with
  | Some (field, value) => validate_len field value 16
  | None => Ok tt
  end.

(** ** The gate *)

Inductive HelloRejectionKind :=
| ExpectedHello | SecondHello | HrInvalidRole | InvalidProcessId | HrInvalidConnectionId
| InvalidMessageId | IncompatibleVersion.

Record HelloRejection := mkRejection {
  rejection_kind : HelloRejectionKind;
  rejection_code : ProtocolErrorCode;
  rejection_field : string;
}.

Record HelloAccepted := mkAccepted {
  accepted_process_id : N;
  accepted_connection_id : bytes;
  accepted_client_role : ClientRole;
}.

Inductive AllowedRole := ArManagementUi | ArOverlay | AnyLocalClient.

Record SessionPolicy := mkSessionPolicy { allowed_role : AllowedRole }.

Definition management_ui : SessionPolicy := mkSessionPolicy ArManagementUi.
Definition overlay : SessionPolicy := mkSessionPolicy ArOverlay.
Definition any_local_client : SessionPolicy := mkSessionPolicy AnyLocalClient.

Definition client_role (self : SessionPolicy) : option ClientRole :=
  match allowed_role self with
  | ArManagementUi => Some ManagementUi
  | ArOverlay => Some Overlay
  | AnyLocalClient => None
  end.

Definition permits_for_role (self : SessionPolicy) (role : ClientRole) (p : Payload) : bool :=
  let effective_role :=
    match allowed_role self with
    | AnyLocalClient => role
    | ArManagementUi => ManagementUi
    | ArOverlay => Overlay
    end in
  match effective_role with
  | CrUnspecified => false
  | Overlay =>
      match p with
      | ClientHelloP _ | RenderAppliedP _ _ | OverlayCommandP _ | SettingsPatchP _ | SettingsQueryP _ =>
          true
      | _ => false
      end
  | ManagementUi => match p with RenderSnapshotP _ _ | RenderAppliedP _ _ => false | _ => true end
  end.

Definition permits (self : SessionPolicy) (p : Payload) : bool :=
  is_some_and (client_role self) (λ role, permits_for_role self role p).

Record HelloGate := mkGate { policy : SessionPolicy; accepted : option HelloAccepted }.

Definition HelloGate_new (policy : SessionPolicy) : HelloGate := mkGate policy None.
Definition is_established (self : HelloGate) : bool := is_some (accepted self).
Definition gate_connection_id (self : HelloGate) : option bytes :=
  accepted_connection_id <$> accepted self.
Definition accepted_role (self : HelloGate) : option ClientRole :=
  accepted_client_role <$> accepted self.

Definition validate_common (envelope : LocalEnvelope) : result unit HelloRejection :=
  if negb (len (connection_id envelope) =? 16) then
    Err (mkRejection HrInvalidConnectionId InvalidConnectionId "connection_id")
  else if message_id envelope =? 0 then
    Err (mkRejection InvalidMessageId ValidationFailed "message_id")
  else if negb (protocol_version envelope =? PROTOCOL_VERSION) then
    Err (mkRejection IncompatibleVersion UnsupportedVersion "protocol_version")
  else Ok tt.

Definition unexpected_payload : HelloRejection := mkRejection ExpectedHello UnexpectedPayload "payload".

(** The checks of a hello, in order; [role] is the role of the client. *)
Definition check_hello (self : HelloGate) (hello : ClientHello) : result ClientRole HelloRejection :=
  let role := try_from (role hello) in
  match role with
  | None | Some CrUnspecified => Err (mkRejection HrInvalidRole InvalidRole "client_hello.role")
  | Some role =>
      if is_some_and (client_role (policy self)) (λ required, negb (bool_decide (role = required))) then
        Err (mkRejection HrInvalidRole InvalidRole "client_hello.role")
      else if process_id hello =? 0 then
        Err (mkRejection InvalidProcessId ValidationFailed "client_hello.process_id")
      else if (PROTOCOL_VERSION <? minimum_protocol_version hello)
              || (maximum_protocol_version hello <? PROTOCOL_VERSION)
              || (maximum_protocol_version hello <? minimum_protocol_version hello) then
        Err (mkRejection IncompatibleVersion UnsupportedVersion "client_hello.protocol_range")
      else Ok role
  end.

Definition evaluate (self : HelloGate) (envelope : LocalEnvelope) :
    result HelloAccepted HelloRejection * HelloGate :=
  match accepted self with
  | Some _ => (Err (mkRejection SecondHello UnexpectedPayload "payload"), self)
  | None =>
      match payload envelope with
      | Some (ClientHelloP hello) =>
          match validate_common envelope with
          | Err e => (Err e, self)
          | Ok _ =>
              match check_hello self hello with
              | Err e => (Err e, self)
              | Ok role =>
                  let a := mkAccepted (process_id hello) (connection_id envelope) role in
                  (Ok a, mkGate (policy self) (Some a))
              end
          end
      | _ => (Err unexpected_payload, self)
      end
  end.

Definition validate_established (self : HelloGate) (envelope : LocalEnvelope) :
    result unit HelloRejection :=
  match accepted self with
  | None => Err unexpected_payload
  | Some a =>
      match payload envelope with
      | Some (ClientHelloP _) => Err (mkRejection SecondHello UnexpectedPayload "payload")
      | _ =>
          let? _ := validate_common envelope in
          if negb (bool_decide (connection_id envelope = accepted_connection_id a)) then
            Err (mkRejection HrInvalidConnectionId InvalidConnectionId "connection_id")
          else
            match payload envelope with
            | None => Err unexpected_payload
            | Some p =>
                if negb (permits_for_role (policy self) (accepted_client_role a) p) then
                  Err unexpected_payload
                else Ok tt
            end
      end
  end.

(** ** Specification *)

(** The addressing of an acceptable envelope. *)
Definition well_addressed (e : LocalEnvelope) : Prop :=
  len (connection_id e) = 16 ∧ message_id e ≠ 0 ∧ protocol_version e = PROTOCOL_VERSION.

(** A role the policy admits. *)
Definition role_admitted (p : SessionPolicy) (r : ClientRole) : Prop :=
  r ≠ CrUnspecified ∧ ∀ required, client_role p = Some required → r = required.

Definition acceptable_hello (p : SessionPolicy) (h : ClientHello) (r : ClientRole) : Prop :=
  role h = as_i32 r ∧ role_admitted p r ∧ process_id h ≠ 0 ∧
  minimum_protocol_version h ≤ PROTOCOL_VERSION ≤ maximum_protocol_version h.

Lemma validate_common_ok e : validate_common e = Ok tt ↔ well_addressed e.
Proof.
  unfold validate_common, well_addressed.
  destruct (N.eqb_spec (len (connection_id e)) 16); simpl; [|split; [done|tauto]].
  destruct (N.eqb_spec (message_id e) 0); simpl; [split; [done|tauto]|].
  destruct (N.eqb_spec (protocol_version e) PROTOCOL_VERSION); simpl; [done|split; [done|tauto]].
Qed.

Lemma check_hello_ok g h r : check_hello g h = Ok r ↔ acceptable_hello (policy g) h r.
Proof.
  unfold check_hello, acceptable_hello, role_admitted. split.
  - intros H. destruct (try_from (role h)) as [r'|] eqn:Hr; [|done].
    assert (r' ≠ CrUnspecified ∧ r' = r ∧
      is_some_and (client_role (policy g)) (λ q, negb (bool_decide (r' = q))) = false ∧
      process_id h ≠ 0 ∧ minimum_protocol_version h ≤ PROTOCOL_VERSION ≤ maximum_protocol_version h)
      as (Hu & <- & Hq & Hp & Hv).
    { destruct r'; [done|..]; repeat (step_if_in H; [done|]); injection H as <-; reflect_bool;
        (split; [done|]); (split; [done|]); (split; [done|]); (split; [done|]); lia. }
    split; [by rewrite (as_i32_try_from _ _ Hr)|]. split; [|done]. split; [done|].
    intros q Hrq. rewrite Hrq in Hq. simpl in Hq. by reflect_bool.
  - intros (-> & [Hu Hq] & Hp & Hv). rewrite try_from_as_i32.
    assert (is_some_and (client_role (policy g)) (λ q, negb (bool_decide (r = q))) = false) as Hrole.
    { destruct (client_role (policy g)) as [q|]; [|done]. simpl. by rewrite bool_decide_eq_true_2 by auto. }
    assert ((PROTOCOL_VERSION <? minimum_protocol_version h)
      || (maximum_protocol_version h <? PROTOCOL_VERSION)
      || (maximum_protocol_version h <? minimum_protocol_version h) = false) as Hrange.
    { apply orb_false_iff. split; [apply orb_false_iff; split|]; apply N.ltb_ge; lia. }
    apply N.eqb_neq in Hp. destruct r; [done|..]; by rewrite Hrole, Hp, Hrange.
Qed.

Lemma evaluate_ok g e a g' :
  evaluate g e = (Ok a, g') ↔
  accepted g = None ∧ well_addressed e ∧
  (∃ h, payload e = Some (ClientHelloP h) ∧ acceptable_hello (policy g) h (accepted_client_role a) ∧
     accepted_process_id a = process_id h) ∧
  accepted_connection_id a = connection_id e ∧ g' = mkGate (policy g) (Some a).
Proof.
  unfold evaluate. split.
  - intros H. destruct (accepted g); [done|]. destruct (payload e) as [[h| | | | | | | | | | | | | | |]|]; try done.
    destruct (validate_common e) as [[]|] eqn:Hc; [|done]. apply validate_common_ok in Hc.
    destruct (check_hello g h) as [r|] eqn:Hh; [|done]. apply check_hello_ok in Hh.
    injection H as <- <-. split; [done|]. split; [done|]. split; [by exists h|done].
  - intros (-> & ->%validate_common_ok & (h & -> & ->%check_hello_ok & Hp) & Hc & ->).
    rewrite <- Hc, <- Hp. by destruct a.
Qed.

Lemma evaluate_err g e r g' : evaluate g e = (Err r, g') → g' = g.
Proof. unfold evaluate. intros H. repeat (step_if_in H; try (by simplify_eq)); by repeat case_match; simplify_eq. Qed.

Lemma validate_established_ok g e :
  validate_established g e = Ok tt ↔
  ∃ a p, accepted g = Some a ∧ well_addressed e ∧ connection_id e = accepted_connection_id a ∧
    payload e = Some p ∧ (∀ h, p ≠ ClientHelloP h) ∧
    permits_for_role (policy g) (accepted_client_role a) p = true.
Proof.
  unfold validate_established. destruct (accepted g) as [a|]; [|split; [done|by intros (? & ? & ? & _)]].
  assert ((∃ h, payload e = Some (ClientHelloP h)) ∨ ∀ h, payload e ≠ Some (ClientHelloP h)) as [[h Hh]|Hh].
  { destruct (payload e) as [[h| | | | | | | | | | | | | | |]|]; [left; by eexists|right..]; done. }
  { rewrite Hh. split; [done|]. intros (? & ? & _ & _ & _ & [= <-] & Hn & _). by destruct (Hn h). }
  transitivity ((let? _ := validate_common e in
    if negb (bool_decide (connection_id e = accepted_connection_id a)) then
      Err (mkRejection HrInvalidConnectionId InvalidConnectionId "connection_id")
    else match payload e with
         | None => Err unexpected_payload
         | Some p => if negb (permits_for_role (policy g) (accepted_client_role a) p)
                     then Err unexpected_payload else Ok tt
         end) = Ok tt).
  { destruct (payload e) as [[h| | | | | | | | | | | | | | |]|]; try done. by destruct (Hh h). }
  rewrite and_then_ok. split.
  - intros ([] & Hc%validate_common_ok & H). case_bool_decide as Hid; [|done].
    simpl in H. destruct (payload e) as [p|]; [|done]. destruct (permits_for_role _ _ p) eqn:Hp; [|done].
    exists a, p. split_and!; try done. intros h ->. by destruct (Hh h).
  - intros (? & p & [= <-] & Hc%validate_common_ok & Hid & Hpl & _ & Hp). exists tt. split; [done|].
    rewrite bool_decide_eq_true_2 by done. simpl. by rewrite Hpl, Hp.
Qed.

(** ** A session *)

(** How a session uses its gate: [evaluate] until established, then
    [validate_established]. *)
Definition gate_step (g : HelloGate) (e : LocalEnvelope) : result (option HelloAccepted) HelloRejection * HelloGate :=
  if is_established g then
    match validate_established g e with
    | Ok _ => (Ok None, g)
    | Err r => (Err r, g)
    end
  else
    match evaluate g e with
    | (Ok a, g) => (Ok (Some a), g)
    | (Err r, g) => (Err r, g)
    end.

Definition gate_run (g : HelloGate) (es : list LocalEnvelope) : HelloGate :=
  fold_left (λ g e, (gate_step g e).2) es g.

(** An envelope that establishes the session. *)
Definition establishes (p : SessionPolicy) (e : LocalEnvelope) (a : HelloAccepted) : Prop :=
  well_addressed e ∧
  (∃ h, payload e = Some (ClientHelloP h) ∧ acceptable_hello p h (accepted_client_role a) ∧
     accepted_process_id a = process_id h) ∧
  accepted_connection_id a = connection_id e.

Lemma gate_step_cases g e r g' :
  gate_step g e = (r, g') →
  (accepted g = None ∧ ∃ a, r = Ok (Some a) ∧ establishes (policy g) e a ∧ g' = mkGate (policy g) (Some a)) ∨
  (g' = g ∧ (r = Ok None → validate_established g e = Ok tt) ∧
   (∀ a, r ≠ Ok (Some a)) ∧ (accepted g = None → ∀ a, ¬ establishes (policy g) e a)).
Proof.
  unfold gate_step, is_established. destruct (accepted g) as [a0|] eqn:Ha; simpl.
  - destruct (validate_established g e) as [[]|] eqn:Hv; intros [= <- <-]; right; done.
  - destruct (evaluate g e) as [[a|k] g1] eqn:He; intros [= <- <-].
    + left. split; [done|]. exists a. apply evaluate_ok in He as (_ & Hc & Hh & Hid & ->).
      split; [done|]. split; [|done]. split; [done|]. by split.
    + right. pose proof (evaluate_err _ _ _ _ He) as ->. split; [done|]. split; [done|]. split; [done|].
      intros _ a (Hc & Hh & Hid).
      assert (evaluate g e = (Ok a, mkGate (policy g) (Some a))) as Hok by (by apply evaluate_ok).
      by rewrite Hok in He.
Qed.

Lemma gate_run_policy g es : policy (gate_run g es) = policy g.
Proof.
  revert g. induction es as [|e es IH]; intros g; simpl; [done|]. rewrite IH.
  destruct (gate_step g e) as [r g'] eqn:Hs.
  by destruct (gate_step_cases _ _ _ _ Hs) as [(_ & a & _ & _ & ->)|(-> & _)].
Qed.

Lemma gate_run_first p es :
  match accepted (gate_run (HelloGate_new p) es) with
  | Some a => ∃ es1 e es2, es = es1 ++ e :: es2 ∧ establishes p e a ∧
      ∀ e', e' ∈ es1 → ∀ a', ¬ establishes p e' a'
  | None => ∀ e', e' ∈ es → ∀ a', ¬ establishes p e' a'
  end.
Proof.
  induction es as [|e es IH] using rev_ind; [by intros e' []%elem_of_nil|].
  unfold gate_run in *. rewrite fold_left_app. cbn [fold_left]. fold (gate_run (HelloGate_new p) es) in *.
  pose proof (gate_run_policy (HelloGate_new p) es) as Hp. cbn [policy HelloGate_new] in Hp.
  destruct (gate_step (gate_run (HelloGate_new p) es) e) as [r g'] eqn:Hs. cbn [snd].
  destruct (gate_step_cases _ _ _ _ Hs) as [(Hn & a & -> & He & ->)|(-> & _ & _ & Hne)].
  - rewrite Hn in IH. cbn [accepted]. exists es, e, []. rewrite Hp in He. done.
  - destruct (accepted (gate_run (HelloGate_new p) es)) as [a|].
    + destruct IH as (es1 & e1 & es2 & -> & He & Hfirst). exists es1, e1, (es2 ++ [e]).
      split; [|done]. by rewrite <- app_assoc.
    + intros e' [Hin| ->%list_elem_of_singleton]%elem_of_app; [by apply IH|].
      rewrite <- Hp. by apply Hne.
Qed.

(** ** Properties *)

(** A gate admits one client and keeps to it. After any envelopes its identity is
    that of the first acceptable hello, with a role its policy admits; from then on it
    passes exactly the well-addressed envelopes that carry the connection id of that
    hello and a payload its role may send, and never a hello again; before, it passes
    nothing else. *)
Theorem gate_admits_first (p : SessionPolicy) (es : list LocalEnvelope) (e : LocalEnvelope) :
  let g := gate_run (HelloGate_new p) es in
  match accepted g with
  | None =>
      (∀ e' a', e' ∈ es → ¬ establishes p e' a') ∧ (gate_step g e).1 ≠ Ok None ∧
      (∀ a, (gate_step g e).1 = Ok (Some a) ↔ establishes p e a)
  | Some a =>
      (∃ es1 e0 es2, es = es1 ++ e0 :: es2 ∧ establishes p e0 a ∧
         ∀ e' a', e' ∈ es1 → ¬ establishes p e' a') ∧
      (gate_step g e).2 = g ∧
      ((gate_step g e).1 = Ok None ↔
         well_addressed e ∧ connection_id e = accepted_connection_id a ∧
         ∃ payload_, payload e = Some payload_ ∧ (∀ h, payload_ ≠ ClientHelloP h) ∧
           permits_for_role p (accepted_client_role a) payload_ = true) ∧
      (∀ a', (gate_step g e).1 ≠ Ok (Some a'))
  end.
Proof.
  cbv zeta. pose proof (gate_run_first p es) as Hfirst.
  pose proof (gate_run_policy (HelloGate_new p) es) as Hp. cbn [policy HelloGate_new] in Hp.
  set (g := gate_run (HelloGate_new p) es) in *.
  destruct (gate_step g e) as [r g'] eqn:Hs. pose proof (gate_step_cases _ _ _ _ Hs) as Hcases.
  cbn [fst snd]. destruct (accepted g) as [a|] eqn:Ha.
  - destruct Hcases as [(? & _)|(-> & Hok & Hno & _)]; [done|].
    split. { destruct Hfirst as (es1 & e0 & es2 & -> & ? & ?). exists es1, e0, es2. eauto. }
    split; [done|]. split; [|done]. transitivity (validate_established g e = Ok tt).
    + split; [done|]. intros Hv. unfold gate_step, is_established in Hs. rewrite Ha, Hv in Hs.
      by injection Hs as <-.
    + rewrite validate_established_ok, Hp, Ha. split.
      * intros (? & q & [= <-] & ? & ? & ? & ? & ?). split; [done|]. split; [done|]. by exists q.
      * intros (? & ? & q & ? & ? & ?). by exists a, q.
  - split; [eauto|]. destruct Hcases as [(_ & a & -> & He & ->)|(-> & Hok & Hno & Hne)].
    + split; [done|]. intros a'. rewrite Hp in He. split; [by intros [= <-]|]. intros He'.
      destruct He as (_ & (h & Hh & Hacc & Hpid) & Hid), He' as (_ & (h' & Hh' & Hacc' & Hpid') & Hid').
      rewrite Hh in Hh'. injection Hh' as <-. destruct Hacc as [Hr _], Hacc' as [Hr' _].
      destruct a as [pi ci ro], a' as [pi' ci' ro']. simpl in *. do 2 f_equal; try congruence.
      f_equal; try congruence. clear -Hr Hr'. rewrite Hr in Hr'. destruct ro, ro'; (done || discriminate).
    + split; [|intros a'; split; [by intros ?%Hno|rewrite <- Hp; by intros ?%Hne]].
      intros Hn. specialize (Hok Hn). apply validate_established_ok in Hok as (a & _ & Hga & _). congruence.
Qed.

Definition demo_hello : LocalEnvelope :=
  mkLocalEnvelope 2 (replicate 16 Byte.x07) 1 None (Some (ClientHelloP (mkHello 2 4242 1 2))).
Definition demo_query : LocalEnvelope :=
  mkLocalEnvelope 2 (replicate 16 Byte.x07) 2 None (Some (SettingsQueryP (replicate 16 Byte.x01))).

(** An overlay client says hello and then asks for the settings. *)
Example gate_demo :
  gate_step (gate_run (HelloGate_new any_local_client) [demo_query; demo_hello]) demo_query =
  (Ok None, mkGate any_local_client (Some (mkAccepted 4242 (replicate 16 Byte.x07) Overlay))).
Proof. reflexivity. Qed.
