(* ===== verification/SettingsStore.v ===== *)
(** * The versioned settings store

    Models [crates/pal-core-win/src/settings_store.rs]: the settings with their
    version, patched field by field, changed by overlay actions and locked when a
    client leaves. [None] is a panic: the [expect] on a field number and the
    [unreachable!] of [copy_field]. *)

From S2P Require Import Prelude Floats Settings Position View Protocol Handshake.
Import local.

(** ** Data *)

Record StoreSnapshot := mkStoreSnapshot { snap_settings : OverlaySettings; snap_version : N }.

Inductive PatchRejection :=
| MissingCandidate
| InvalidCandidate (error : DomainConversionError)
| EmptyFieldMask
| UnspecifiedField
| UnknownField
| DuplicateField
| InvalidEffective (error : SettingsValidationError)
| VersionOverflow.

Inductive PatchResult :=
| PrApplied (snapshot : StoreSnapshot)
| PrVersionConflict (snapshot : StoreSnapshot)
| PrRejected (current : StoreSnapshot) (reason : PatchRejection).

Inductive ActionResult :=
| ArApplied (snapshot : StoreSnapshot)
| ArNoOp (snapshot : StoreSnapshot)
| ArVersionConflict (snapshot : StoreSnapshot)
| ArRejected (current : StoreSnapshot) (reason : PatchRejection).

Record SettingsStore := mkStore { settings : OverlaySettings; version : N }.

(** ** Operations *)

Definition SettingsStore_new (settings : OverlaySettings) : result SettingsStore SettingsValidationError :=
  let? _ := validate settings in Ok (mkStore settings 1).

Definition snapshot (self : SettingsStore) : StoreSnapshot :=
  mkStoreSnapshot (settings self) (version self).

Definition rejected (self : SettingsStore) (reason : PatchRejection) : PatchResult :=
  PrRejected (snapshot self) reason.
Definition rejected_action (self : SettingsStore) (reason : PatchRejection) : ActionResult :=
  ArRejected (snapshot self) reason.
Definition reject_missing_candidate (self : SettingsStore) : PatchResult :=
  rejected self MissingCandidate.

(** The loop of [validate_fields]; [previous] is [changed_fields[..index]]. *)
Fixpoint validate_fields_from (previous fields : list Z) : result unit PatchRejection :=
  match fields with
  | [] => Ok tt
  | raw :: fields =>
      let? field := ok_or (try_from raw) UnknownField in
      if bool_decide (field = OfUnspecified) then Err UnspecifiedField
      else if contains previous raw then Err DuplicateField
      else validate_fields_from (previous ++ [raw]) fields
  end.

Definition validate_fields (changed_fields : list Z) : result unit PatchRejection :=
  if is_empty changed_fields then Err EmptyFieldMask else validate_fields_from [] changed_fields.

Definition copy_field (target candidate : OverlaySettings) (field : OverlaySettingField) :
    option OverlaySettings :=
  match field with
  | OfUnspecified => None
  | FEnabled => Some (target <| enabled := enabled candidate |>)
  | FAutoShow => Some (target <| auto_show := auto_show candidate |>)
  | FRotationMode => Some (target <| rotation_mode := rotation_mode candidate |>)
  | FInputMode => Some (target <| input_mode := input_mode candidate |>)
  | FDisplayMode => Some (target <| display_mode := display_mode candidate |>)
  | FOpacity => Some (target <| opacity := opacity candidate |>)
  | FDiameterPx => Some (target <| diameter_px := diameter_px candidate |>)
  | FZoom => Some (target <| zoom := zoom candidate |>)
  | FNormalizedX => Some (target <| normalized_x := normalized_x candidate |>)
  | FNormalizedY => Some (target <| normalized_y := normalized_y candidate |>)
  | FFpsProfile => Some (target <| fps_profile := fps_profile candidate |>)
  | FPoiFilters => Some (target <| poi_filters := poi_filters candidate |>)
  | FHotkeyBindings => Some (target <| hotkey_bindings := hotkey_bindings candidate |>)
  end.

Fixpoint copy_fields (effective candidate : OverlaySettings) (changed_fields : list Z) :
    option OverlaySettings :=
  match changed_fields with
  | [] => Some effective
  | raw :: changed_fields =>
      field ← try_from raw;
      effective ← copy_field effective candidate field;
      copy_fields effective candidate changed_fields
  end.

Definition apply_patch (self : SettingsStore) (expected_version : N) (candidate : v2.OverlaySettings)
    (changed_fields : list Z) : option (PatchResult * SettingsStore) :=
  if negb (expected_version =? version self) then Some (PrVersionConflict (snapshot self), self)
  else
    match decode_overlay_settings candidate with
    | Err error => Some (rejected self (InvalidCandidate error), self)
    | Ok candidate =>
        match validate_fields changed_fields with
        | Err error => Some (rejected self error, self)
        | Ok _ =>
            match checked_add (version self) 1 with
            | None => Some (rejected self VersionOverflow, self)
            | Some next_version =>
                effective ← copy_fields (settings self) candidate changed_fields;
                match validate effective with
                | Err error => Some (rejected self (InvalidEffective error), self)
                | Ok _ =>
                    let self := mkStore effective next_version in
                    Some (PrApplied (snapshot self), self)
                end
            end
        end
    end.

(** The derived [==] on settings: floats compare as floats. *)
Definition settings_eq (a b : OverlaySettings) : bool :=
  Bool.eqb (enabled a) (enabled b) && Bool.eqb (auto_show a) (auto_show b)
  && bool_decide (rotation_mode a = rotation_mode b) && bool_decide (input_mode a = input_mode b)
  && bool_decide (display_mode a = display_mode b) && feq (opacity a) (opacity b)
  && (diameter_px a =? diameter_px b) && feq (zoom a) (zoom b)
  && feq (normalized_x a) (normalized_x b) && feq (normalized_y a) (normalized_y b)
  && bool_decide (fps_profile a = fps_profile b) && bool_decide (poi_filters a = poi_filters b)
  && bool_decide (hotkey_bindings a = hotkey_bindings b).

Definition apply_action (self : SettingsStore) (expected_version : N) (action : OverlayAction) :
    ActionResult * SettingsStore :=
  if negb (expected_version =? version self) then (ArVersionConflict (snapshot self), self)
  else
    match checked_add (version self) 1 with
    | None => (rejected_action self VersionOverflow, self)
    | Some next_version =>
        let effective := reduce_overlay_action (settings self) action in
        if settings_eq effective (settings self) then (ArNoOp (snapshot self), self)
        else
          match validate effective with
          | Err error => (rejected_action self (InvalidEffective error), self)
          | Ok _ =>
              let self := mkStore effective next_version in
              (ArApplied (snapshot self), self)
          end
    end.

Definition force_locked (self : SettingsStore) : result StoreSnapshot PatchRejection * SettingsStore :=
  if bool_decide (input_mode (settings self) = Settings.Locked) then (Ok (snapshot self), self)
  else
    match checked_add (version self) 1 with
    | None => (Err VersionOverflow, self)
    | Some next_version =>
        let effective := (settings self) <| input_mode := Settings.Locked |> in
        match validate effective with
        | Err error => (Err (InvalidEffective error), self)
        | Ok _ =>
            let self := mkStore effective next_version in
            (Ok (snapshot self), self)
        end
    end.

(** ** A store in use *)

(** The calls that change a store, and what they tell their caller: the snapshot, and
    whether a write was accepted at the version it expected. *)
Inductive StoreOp :=
| OpPatch (expected_version : N) (candidate : v2.OverlaySettings) (changed_fields : list Z)
| OpAction (expected_version : N) (action : OverlayAction)
| OpLock.

Record outcome := mkOutcome { shown : option StoreSnapshot; accepted_at : option N }.

Definition patch_outcome (expected_version : N) (r : PatchResult) : outcome :=
  match r with
  | PrApplied s => mkOutcome (Some s) (Some expected_version)
  | PrVersionConflict s | PrRejected s _ => mkOutcome (Some s) None
  end.

Definition action_outcome (expected_version : N) (r : ActionResult) : outcome :=
  match r with
  | ArApplied s => mkOutcome (Some s) (Some expected_version)
  | ArNoOp s | ArVersionConflict s | ArRejected s _ => mkOutcome (Some s) None
  end.

Definition store_step (op : StoreOp) (self : SettingsStore) : option (outcome * SettingsStore) :=
  match op with
  | OpPatch ev candidate fields =>
      '(r, self) ← apply_patch self ev candidate fields; Some (patch_outcome ev r, self)
  | OpAction ev action =>
      let '(r, self) := apply_action self ev action in Some (action_outcome ev r, self)
  | OpLock =>
      match force_locked self with
      | (Ok s, self) => Some (mkOutcome (Some s) None, self)
      | (Err _, self) => Some (mkOutcome None None, self)
      end
  end.

Fixpoint store_run (ops : list StoreOp) (self : SettingsStore) :
    option (list outcome * SettingsStore) :=
  match ops with
  | [] => Some ([], self)
  | op :: ops =>
      '(o, self) ← store_step op self;
      '(os, self) ← store_run ops self;
      Some (o :: os, self)
  end.

(** ** Specification *)

(** The value of one field of the settings. *)
Inductive FieldValue :=
| VNone | VBool (b : bool) | VRotation (m : RotationMode) | VInput (m : InputMode)
| VDisplay (m : DisplayMode) | VF32 (x : f32) | VN (n : N) | VFps (p : FpsProfile)
| VFilters (p : PoiFilters) | VHotkeys (b : HotkeyBindings).

Definition field_of (f : OverlaySettingField) (s : OverlaySettings) : FieldValue :=
  match f with
  | OfUnspecified => VNone
  | FEnabled => VBool (enabled s)
  | FAutoShow => VBool (auto_show s)
  | FRotationMode => VRotation (rotation_mode s)
  | FInputMode => VInput (input_mode s)
  | FDisplayMode => VDisplay (display_mode s)
  | FOpacity => VF32 (opacity s)
  | FDiameterPx => VN (diameter_px s)
  | FZoom => VF32 (zoom s)
  | FNormalizedX => VF32 (normalized_x s)
  | FNormalizedY => VF32 (normalized_y s)
  | FFpsProfile => VFps (fps_profile s)
  | FPoiFilters => VFilters (poi_filters s)
  | FHotkeyBindings => VHotkeys (hotkey_bindings s)
  end.

Definition known_field (raw : Z) : Prop := ∃ f, raw = as_i32 f ∧ f ≠ OfUnspecified.

Definition mask_ok (fields : list Z) : Prop :=
  fields ≠ [] ∧ NoDup fields ∧ ∀ raw, raw ∈ fields → known_field raw.

Record store_ok (s : SettingsStore) : Prop := {
  so_valid : valid_settings (settings s);
  so_version : 1 ≤ version s ≤ u64_max;
}.

(** The settings a patch asks for: the fields of the mask from the candidate, the
    others as they were. *)
Definition patched (fields : list Z) (candidate before after : OverlaySettings) : Prop :=
  ∀ f, field_of f after = field_of f (if contains fields (as_i32 f) then candidate else before).

(** ** Lemmas *)

Lemma as_i32_field_inj (f g : OverlaySettingField) : as_i32 f = as_i32 g → f = g.
Proof. intros H. apply (f_equal try_from) in H. rewrite !try_from_as_i32 in H. congruence. Qed.

Lemma copy_field_spec target candidate f :
  f ≠ OfUnspecified →
  ∃ t, copy_field target candidate f = Some t ∧
    (∀ g, field_of g t = field_of g (if decide (g = f) then candidate else target)) ∧
    (valid_settings target → valid_settings candidate → valid_settings t).
Proof.
  intros Hf. destruct f; [done|..]; (eexists; split; [reflexivity|]; split;
    [by intros []|intros [] []; by constructor]).
Qed.

Lemma copy_fields_spec target candidate fields :
  (∀ raw, raw ∈ fields → known_field raw) →
  ∃ t, copy_fields target candidate fields = Some t ∧ patched fields candidate target t ∧
    (valid_settings target → valid_settings candidate → valid_settings t).
Proof.
  revert target. induction fields as [|raw fields IH]; intros target Hk; cbn [copy_fields].
  { exists target. done. }
  destruct (Hk raw) as (f & -> & Hf); [by left|]. rewrite try_from_as_i32. cbn [mbind option_bind].
  destruct (copy_field_spec target candidate f Hf) as (t1 & -> & Hg & Hv). cbn [mbind option_bind].
  destruct (IH t1) as (t & -> & Hp & Hv'); [intros; apply Hk; by right|].
  exists t. split; [done|]. split; [|by auto]. intros g. rewrite (Hp g).
  destruct (contains fields (as_i32 g)) eqn:Hin; reflect_bool.
  - rewrite (proj2 (contains_true _ _)) by (by right). done.
  - rewrite Hg. destruct (decide (g = f)) as [->|Hne].
    + rewrite (proj2 (contains_true _ _)) by (by left). done.
    + rewrite (proj2 (contains_false _ _)); [done|].
      intros [H|H]%elem_of_cons; [by apply as_i32_field_inj in H|done].
Qed.

Lemma validate_fields_from_ok previous fields :
  validate_fields_from previous fields = Ok tt →
  NoDup fields ∧ (∀ raw, raw ∈ fields → raw ∉ previous) ∧ ∀ raw, raw ∈ fields → known_field raw.
Proof.
  revert previous. induction fields as [|raw fields IH]; intros previous; cbn [validate_fields_from].
  { intros _. split; [constructor|]. split; by intros ? ?%elem_of_nil. }
  intros (f & Hf%ok_or_ok & H)%and_then_ok. case_bool_decide as Hu; [done|].
  destruct (contains previous raw) eqn:Hc; [done|]. reflect_bool.
  destruct (IH _ H) as (Hnd & Hp & Hk). apply as_i32_try_from in Hf.
  split; [constructor; [|done]|split].
  - intros Hin. apply (Hp _ Hin), elem_of_app. right. by left.
  - intros r [->|Hr]%elem_of_cons; [done|]. specialize (Hp _ Hr). set_solver.
  - intros r [->|Hr]%elem_of_cons; [by exists f|auto].
Qed.

Lemma validate_fields_ok fields : validate_fields fields = Ok tt → mask_ok fields.
Proof.
  unfold validate_fields. destruct fields as [|raw fields]; [done|]. cbn [is_empty].
  intros (? & _ & ?)%validate_fields_from_ok. by split.
Qed.

(** Why a patch is refused. *)
Definition refusal_justified (s : SettingsStore) (w : v2.OverlaySettings) (fields : list Z)
    (reason : PatchRejection) : Prop :=
  match reason with
  | MissingCandidate | InvalidEffective _ => False
  | InvalidCandidate e => decode_overlay_settings w = Err e
  | EmptyFieldMask => fields = []
  | UnspecifiedField => as_i32 OfUnspecified ∈ fields
  | UnknownField => ∃ raw, raw ∈ fields ∧ ∀ f : OverlaySettingField, raw ≠ as_i32 f
  | DuplicateField => ¬ NoDup fields
  | VersionOverflow => version s = u64_max
  end.

Lemma validate_fields_from_err s w previous fields reason :
  validate_fields_from previous fields = Err reason → refusal_justified s w (previous ++ fields) reason.
Proof.
  revert previous. induction fields as [|raw fields IH]; intros previous; cbn [validate_fields_from]; [done|].
  intros H. rewrite and_then_err in H. destruct H as [Hu|(f & Hf%ok_or_ok & H)].
  { destruct (try_from raw) eqn:Hr; [done|]. injection Hu as <-. exists raw.
    split; [apply elem_of_app; right; by left|]. intros f ->. by rewrite try_from_as_i32 in Hr. }
  apply as_i32_try_from in Hf. case_bool_decide as Hu.
  { subst. injection H as <-. simpl. apply elem_of_app. right. by left. }
  destruct (contains previous raw) eqn:Hc; reflect_bool.
  - injection H as <-. simpl. rewrite NoDup_app. intros (_ & Hd & _). apply (Hd raw Hc). by left.
  - specialize (IH _ H). by rewrite <- app_assoc in IH.
Qed.

Lemma validate_fields_err s w fields reason :
  validate_fields fields = Err reason → refusal_justified s w fields reason.
Proof.
  unfold validate_fields. destruct fields as [|raw fields]; [by intros [= <-]|].
  apply (validate_fields_from_err s w []).
Qed.

Lemma next_version_ok s v :
  store_ok s → checked_add (version s) 1 = Some v → v = version s + 1 ∧ 1 ≤ v ≤ u64_max.
Proof. intros [_ H] [-> Hv]%checked_add_some. split; [done|]. lia. Qed.

Lemma checked_add_none a b : checked_add a b = None ↔ u64_max < a + b.
Proof. unfold checked_add. destruct (N.leb_spec (a + b) u64_max); split; (done || lia). Qed.

(** Every operation leaves a sound store, and either leaves it as it is or moves it one
    version on. *)
Definition moves (s s' : SettingsStore) : Prop := s' = s ∨ version s' = version s + 1.

Lemma apply_patch_spec s ev w fields :
  store_ok s →
  ∃ r s', apply_patch s ev w fields = Some (r, s') ∧ store_ok s' ∧
  match r with
  | PrApplied shown =>
      ev = version s ∧ version s' = version s + 1 ∧ shown = snapshot s' ∧ mask_ok fields ∧
      ∃ c, decode_overlay_settings w = Ok c ∧ patched fields c (settings s) (settings s')
  | PrVersionConflict shown => ev ≠ version s ∧ s' = s ∧ shown = snapshot s
  | PrRejected shown reason =>
      ev = version s ∧ s' = s ∧ shown = snapshot s ∧ refusal_justified s w fields reason
  end.
Proof.
  intros Hs. unfold apply_patch. destruct (N.eqb_spec ev (version s)) as [->|Hev]; cbn [negb].
  2: { eexists _, _. by split. }
  destruct (decode_overlay_settings w) as [c|e] eqn:Hd; [|by eexists _, _; split].
  destruct (validate_fields fields) as [[]|e] eqn:Hf.
  2: { eexists _, _. split; [done|]. split; [done|]. split_and!; try done.
       by apply validate_fields_err. }
  apply validate_fields_ok in Hf as (Hne & Hnd & Hk).
  destruct (checked_add (version s) 1) as [v|] eqn:Hv.
  2: { eexists _, _. split; [done|]. split; [done|]. split_and!; try done. simpl.
       apply checked_add_none in Hv. destruct Hs as [_ Hb]. lia. }
  destruct (next_version_ok _ _ Hs Hv) as [-> Hb].
  destruct (copy_fields_spec (settings s) c fields Hk) as (t & -> & Hp & Hvalid). cbn [mbind option_bind].
  assert (valid_settings t) as Ht.
  { apply Hvalid; [apply Hs|]. apply encode_decode_settings in Hd as [_ Hd].
    by apply encode_overlay_settings_ok in Hd as [? _]. }
  rewrite (proj2 (validate_ok t) Ht). eexists _, _. split; [done|]. split; [by constructor|].
  split_and!; try done. by exists c.
Qed.

Lemma apply_action_spec s ev a :
  store_ok s →
  let '(r, s') := apply_action s ev a in
  store_ok s' ∧
  match r with
  | ArApplied shown =>
      ev = version s ∧ version s' = version s + 1 ∧ shown = snapshot s' ∧
      settings s' = reduce_overlay_action (settings s) a
  | ArNoOp shown | ArVersionConflict shown | ArRejected shown _ => s' = s ∧ shown = snapshot s
  end.
Proof.
  intros Hs. unfold apply_action. destruct (N.eqb_spec ev (version s)) as [->|Hev]; [|done]. cbn [negb].
  destruct (checked_add (version s) 1) as [v|] eqn:Hv; [|done].
  destruct (next_version_ok _ _ Hs Hv) as [-> Hb].
  destruct (settings_eq _ _); [done|].
  destruct (validate (reduce_overlay_action (settings s) a)) as [[]|] eqn:Hr; [|done].
  split; [|done]. constructor; [|done]. by apply validate_ok.
Qed.

Lemma force_locked_spec s :
  store_ok s →
  let '(r, s') := force_locked s in
  store_ok s' ∧
  match r with
  | Ok shown =>
      moves s s' ∧ shown = snapshot s' ∧ input_mode (settings s') = Settings.Locked ∧
      (∀ f, f ≠ FInputMode → field_of f (settings s') = field_of f (settings s))
  | Err reason =>
      s' = s ∧ reason = VersionOverflow ∧ version s = u64_max ∧
      input_mode (settings s) ≠ Settings.Locked
  end.
Proof.
  intros Hs. unfold force_locked. case_bool_decide as Hl; [split; [done|]; split_and!; [by left|done..]|].
  destruct (checked_add (version s) 1) as [v|] eqn:Hv.
  2: { split; [done|]. apply checked_add_none in Hv. destruct Hs as [_ Hb]. split_and!; try done. lia. }
  destruct (next_version_ok _ _ Hs Hv) as [-> Hb].
  set (t := (settings s) <| input_mode := Settings.Locked |>).
  assert (valid_settings t) as Ht by (destruct Hs as [[] _]; by constructor).
  rewrite (proj2 (validate_ok t) Ht). split; [by constructor|].
  split_and!; try done; [by right|]. by intros [].
Qed.

Lemma store_step_spec op s :
  store_ok s →
  ∃ o s', store_step op s = Some (o, s') ∧ store_ok s' ∧ moves s s' ∧
    (∀ shown_, shown o = Some shown_ → shown_ = snapshot s') ∧
    (∀ ev, accepted_at o = Some ev → ev = version s ∧ version s' = version s + 1).
Proof.
  intros Hs. destruct op as [ev w fields|ev a|]; cbn [store_step].
  - destruct (apply_patch_spec s ev w fields Hs) as (r & s' & -> & Hs' & Hr).
    cbn [mbind option_bind]. eexists _, _. split; [done|]. split; [done|].
    destruct r as [sn|sn|sn e]; [destruct Hr as (-> & Hv & -> & _); split; [by right|]|
      destruct Hr as (_ & -> & ->); split; [by left|]|
      destruct Hr as (_ & -> & -> & _); split; [by left|]]; (split; [by intros ? [= <-]|]); by intros ? [= <-].
  - pose proof (apply_action_spec s ev a Hs) as H. destruct (apply_action s ev a) as [r s'].
    destruct H as [Hs' Hr]. eexists _, _. split; [done|]. split; [done|].
    destruct r as [sn|sn|sn|sn e]; [destruct Hr as (-> & Hv & -> & _); split; [by right|]|
      destruct Hr as [-> ->]; split; [by left|]..]; (split; [by intros ? [= <-]|]); by intros ? [= <-].
  - pose proof (force_locked_spec s Hs) as H. destruct (force_locked s) as [r s'].
    destruct H as [Hs' Hr]. destruct r as [sn|e].
    + destruct Hr as (Hm & -> & _). eexists _, _. split; [done|]. split; [done|]. split; [done|].
      split; [by intros ? [= <-]|done].
    + destruct Hr as (-> & _). eexists _, _. split; [done|]. split; [done|]. split; [by left|done].
Qed.

(** The snapshots and the accepted writes of a run. *)
Definition shown_all (os : list outcome) : list StoreSnapshot := omap shown os.
Definition accepted_all (os : list outcome) : list N := omap accepted_at os.

(** A snapshot is no newer than another; equal versions are equal snapshots. *)
Definition snap_le (a b : StoreSnapshot) : Prop :=
  snap_version a ≤ snap_version b ∧ (snap_version a = snap_version b → a = b).

Lemma moves_snap_le s s' x : moves s s' → snap_le (snapshot s') x → snap_le (snapshot s) x.
Proof.
  intros [->|Hv]; [done|]. intros [Hle Heq]. unfold snap_le in *. simpl in *. split; [lia|].
  intros E. rewrite <- E in Hle. lia.
Qed.

Lemma snap_le_refl a : snap_le a a.
Proof. by split. Qed.

Lemma store_run_spec ops s :
  store_ok s →
  ∃ os s', store_run ops s = Some (os, s') ∧ store_ok s' ∧
    snap_le (snapshot s) (snapshot s') ∧
    Forall (snap_le (snapshot s)) (shown_all os) ∧
    StronglySorted snap_le (shown_all os) ∧
    Forall (λ x, snap_le x (snapshot s')) (shown_all os) ∧
    Forall (λ v, version s ≤ v < version s') (accepted_all os) ∧
    StronglySorted N.lt (accepted_all os).
Proof.
  revert s. induction ops as [|op ops IH]; intros s Hs; cbn [store_run].
  { exists [], s. split_and!; try done; constructor. }
  destruct (store_step_spec op s Hs) as (o & s1 & -> & Hs1 & Hm & Hsh & Hacc). cbn [mbind option_bind].
  destruct (IH s1 Hs1) as (os & s' & -> & Hs' & Hle & Hf & Hss & Hl & Ha & Has). cbn [mbind option_bind].
  exists (o :: os), s'. split; [done|]. split; [done|].
  split; [by eapply moves_snap_le|].
  assert (Forall (snap_le (snapshot s)) (shown_all os)) as Hf'.
  { eapply Forall_impl; [exact Hf|]. intros x. by apply moves_snap_le. }
  assert (Forall (λ v, version s ≤ v < version s') (accepted_all os)) as Ha'.
  { eapply Forall_impl; [exact Ha|]. simpl. intros v. destruct Hm as [->|Hm]; [done|]. lia. }
  split; [|split; [|split; [|split]]].
  - unfold shown_all in *. cbn [omap list_omap]. destruct (shown o) as [x|]; [|done].
    rewrite (Hsh x eq_refl). constructor; [|done]. eapply moves_snap_le; [done|]. apply snap_le_refl.
  - unfold shown_all in *. cbn [omap list_omap]. destruct (shown o) as [x|]; [|done].
    rewrite (Hsh x eq_refl). by constructor.
  - unfold shown_all in *. cbn [omap list_omap]. destruct (shown o) as [x|]; [|done].
    rewrite (Hsh x eq_refl). by constructor.
  - unfold accepted_all in *. cbn [omap list_omap]. destruct (accepted_at o) as [v|]; [|done].
    destruct (Hacc v eq_refl) as [-> Hv]. constructor; [|done].
    destruct Hle as [Hle _]. simpl in Hle. lia.
  - unfold accepted_all in *. cbn [omap list_omap]. destruct (accepted_at o) as [v|]; [|done].
    destruct (Hacc v eq_refl) as [-> Hv]. constructor; [done|].
    eapply Forall_impl; [exact Ha|]. simpl. lia.
Qed.

Lemma length_store_run ops s os s' : store_run ops s = Some (os, s') → length os = length ops.
Proof.
  revert s os. induction ops as [|op ops IH]; intros s os; cbn [store_run]; [by intros [= <- _]|].
  destruct (store_step op s) as [[o s1]|]; [|done]. cbn [mbind option_bind].
  destruct (store_run ops s1) as [[os1 s2]|] eqn:H; [|done]. intros H2. simplify_eq/=. f_equal. by eapply IH.
Qed.

Lemma new_store_ok settings s : SettingsStore_new settings = Ok s → store_ok s ∧ version s = 1.
Proof.
  unfold SettingsStore_new. intros ([] & Hv%validate_ok & [= <-])%and_then_ok.
  split; [|done]. constructor; [done|]. simpl. unfold u64_max. lia.
Qed.

(** ** Properties *)

(** A patch does what its mask says, or nothing. On a sound store it never
    panics; it is applied exactly when it expects the current version, its candidate
    decodes, its mask is nonempty, known and free of duplicates, and the version can
    still grow. Then the next version holds the candidate's value in every field of
    the mask and the old value in every other, and it is valid, since validation looks
    at the fields one by one; in all other cases nothing changes, the caller sees the
    current snapshot, and the reason given is true. *)
Theorem patch_exact (s : SettingsStore) (expected_version : N) (w : v2.OverlaySettings)
    (fields : list Z) :
  store_ok s →
  ∃ r s', apply_patch s expected_version w fields = Some (r, s') ∧ store_ok s' ∧
  ((∃ shown, r = PrApplied shown) ↔
     expected_version = version s ∧ is_ok (decode_overlay_settings w) = true ∧ mask_ok fields ∧
     version s < u64_max) ∧
  match r with
  | PrApplied shown =>
      version s' = version s + 1 ∧ shown = snapshot s' ∧
      ∃ c, decode_overlay_settings w = Ok c ∧ patched fields c (settings s) (settings s')
  | PrVersionConflict shown => expected_version ≠ version s ∧ s' = s ∧ shown = snapshot s
  | PrRejected shown reason => s' = s ∧ shown = snapshot s ∧ refusal_justified s w fields reason
  end.
Proof.
  intros Hs. destruct (apply_patch_spec s expected_version w fields Hs) as (r & s' & Ha & Hs' & Hr).
  exists r, s'. split; [done|]. split; [done|]. destruct r as [sn|sn|sn reason].
  - destruct Hr as (-> & Hv & -> & Hm & c & Hc & Hp). split; [|eauto].
    split; [intros _|eauto]. rewrite Hc. split_and!; try done. destruct Hs' as [_ Hb]. lia.
  - destruct Hr as (Hne & -> & ->). split; [|done]. split; [by intros [? ?]|by intros [? _]].
  - destruct Hr as (-> & -> & -> & Hj). split; [|done].
    split; [by intros [? ?]|]. intros (_ & Hd & (Hne & Hnd & Hk) & Hv). exfalso.
    destruct reason; simpl in Hj; try done.
    + by rewrite Hj in Hd.
    + destruct (Hk _ Hj) as (f & Hf & Hn). by destruct f.
    + destruct Hj as (raw & Hin & Hraw). destruct (Hk _ Hin) as (f & -> & _). by destruct (Hraw f).
    + lia.
Qed.

(** The store is a linear history. Whatever patches, actions and locks arrive, in
    any order and expecting any versions, no call panics and the settings stay valid;
    the snapshots the callers see never go back, one version always means the same
    settings, and no two writes are accepted at the same expected version, so no
    update is lost. *)
Theorem store_history (initial : OverlaySettings) (s0 : SettingsStore) (ops : list StoreOp) :
  SettingsStore_new initial = Ok s0 →
  ∃ os s, store_run ops s0 = Some (os, s) ∧ length os = length ops ∧
  valid_settings (settings s) ∧
  (∀ i j a b, i ≤ j →
     shown_all os !! N.to_nat i = Some a → shown_all os !! N.to_nat j = Some b →
     1 ≤ snap_version a ≤ snap_version b ∧ snap_version b ≤ version s ∧
     (snap_version a = snap_version b → snap_settings a = snap_settings b)) ∧
  NoDup (accepted_all os) ∧ len (accepted_all os) < version s.
Proof.
  intros [Hs Hv]%new_store_ok.
  destruct (store_run_spec ops s0 Hs) as (os & s & Hr & Hs' & Hle & Hf & Hss & Hl & Ha & Has).
  exists os, s. split; [done|]. split; [by eapply length_store_run|]. split; [apply Hs'|]. split; [|split].
  - intros i j a b Hij Hi Hj.
    assert (snap_le a b) as [Hab Heq].
    { destruct (decide (i = j)) as [->|Hne]; [rewrite Hi in Hj; injection Hj as <-; apply snap_le_refl|].
      eapply (StronglySorted_two _ _ (N.to_nat i) (N.to_nat j)); try done. lia. }
    rewrite Forall_lookup in Hf, Hl. destruct (Hf _ _ Hi) as [Hlo _]. destruct (Hl _ _ Hj) as [Hhi _].
    simpl in *. split; [lia|]. split; [done|]. intros E. by rewrite (Heq E).
  - by apply NoDup_strictly_sorted.
  - destruct Hs' as [_ Hb]. rewrite Hv in Ha.
    pose proof (strictly_sorted_room _ _ _ Has Ha). unfold len. lia.
Qed.

Definition demo_candidate : v2.OverlaySettings :=
  v2.mkSettings true true 2 1 1 (f32_lit 1 2) 320 (f32_lit 1 1) (f32_lit 85 100) (f32_lit 20 100) 1
    (Some (v2.mkPoiFilters true true true false DEFAULT_OVERLAY_LAYER_IDS [] false))
    (Some (v2.mkBindings None None None None)).

(** A mask with the rotation mode only: the opacity of the candidate stays out. *)
Definition demo_patched : SettingsStore :=
  mkStore (OverlaySettings_default <| rotation_mode := Settings.HeadingUp |>) 2.

Lemma demo_store_ok : store_ok (mkStore OverlaySettings_default 1).
Proof. constructor; [apply default_valid|]. simpl. unfold u64_max. lia. Qed.

Lemma patch_exact_witness :
  store_ok (mkStore OverlaySettings_default 1) ∧
  apply_patch (mkStore OverlaySettings_default 1) 1 demo_candidate [as_i32 FRotationMode] =
    Some (PrApplied (snapshot demo_patched), demo_patched) ∧
  store_ok demo_patched.
Proof.
  split; [apply demo_store_ok|]. split; [vm_compute; reflexivity|].
  destruct (patch_exact (mkStore OverlaySettings_default 1) 1 demo_candidate [as_i32 FRotationMode]
    demo_store_ok) as (r & s' & Ha & Hs' & _).
  vm_compute in Ha. injection Ha as _ <-. exact Hs'.
Defined.

Lemma store_history_witness :
  SettingsStore_new OverlaySettings_default = Ok (mkStore OverlaySettings_default 1) ∧
  ∃ os s, store_run [OpAction 1 Settings.ZoomIn; OpAction 1 Settings.ZoomIn; OpLock;
                     OpPatch 2 demo_candidate [as_i32 FRotationMode]]
            (mkStore OverlaySettings_default 1) = Some (os, s) ∧
    accepted_all os = [1; 2] ∧ version s = 3 ∧ NoDup (accepted_all os).
Proof.
  split; [vm_compute; reflexivity|].
  destruct (store_history OverlaySettings_default (mkStore OverlaySettings_default 1)
    [OpAction 1 Settings.ZoomIn; OpAction 1 Settings.ZoomIn; OpLock;
     OpPatch 2 demo_candidate [as_i32 FRotationMode]]) as (os & s & Hr & _ & _ & _ & Hnd & _);
    [vm_compute; reflexivity|].
  exists os, s. split; [done|]. vm_compute in Hr. injection Hr as <- <-. split_and!; done.
Defined.
