(* ===== verification/IpcSession.v ===== *)
(** * A local session over a pipe

    Models [crates/pal-windows-ipc/src/session.rs]: the loop that reads chunks from a
    pipe, reassembles envelopes, validates them, hands them to a session and writes its
    answers. The session is the interface [LocalSession]; the pipe is the sequence of
    what its reads and writes give. [None] is a panic of the session. The inner loop
    runs with fuel: one more than the queued frames is enough ([drain_enough]). *)

From S2P Require Import Prelude Floats Settings Position View Protocol Framing Handshake.
Import local.

(** ** The interface *)

(** [LocalSession]; [F] is its [SessionFailure]. *)
Class LocalSession (S F : Type) := {
  handle : S → LocalEnvelope → option (result (option bytes) F * S);
  disconnected : S → S;
}.

(** ** The pipe *)

Inductive IoErrorKind := Interrupted | TimedOut | InvalidData (error : StreamError) | OtherIo.

(** What the loop meets next: its cancellation token is set, a read fails, or a read
    gives bytes; no bytes are the end of the stream, as is the end of the list. *)
Inductive ReadEvent := CancelSeen | ReadFails (kind : IoErrorKind) | Chunk (bytes_ : bytes).

(** The events of a session, what its writes give (success when the list is used up),
    and whether it is cancelled when the stream ends. *)
Record Connection := mkConnection {
  reads : list ReadEvent;
  write_faults : list (option IoErrorKind);
  cancelled_at_end : bool;
}.

Definition READ_CHUNK_LEN : N := 65536.

Inductive PipeError (F : Type) :=
| PeIo (kind : IoErrorKind)
| PeStream (error : StreamError)
| PeInvalidEnvelope (error : LocalValidationError)
| PeSession (failure : F)
| PeFrameTooLarge (length_ : N)
| PeWriteTimeout
| PeReadTimeout
| PeCancelled.
Arguments PeIo {F} kind.
Arguments PeStream {F} error.
Arguments PeInvalidEnvelope {F} error.
Arguments PeSession {F} failure.
Arguments PeFrameTooLarge {F} length_.
Arguments PeWriteTimeout {F}.
Arguments PeReadTimeout {F}.
Arguments PeCancelled {F}.

Definition map_read_error {F} (kind : IoErrorKind) : PipeError F :=
  match kind with Interrupted => PeCancelled | TimedOut => PeReadTimeout | k => PeIo k end.
Definition map_write_error {F} (kind : IoErrorKind) : PipeError F :=
  match kind with Interrupted => PeCancelled | TimedOut => PeWriteTimeout | k => PeIo k end.

(** ** The loop *)

Section Session.
Context {S F : Type} `{LocalSession S F} (decode_message : bytes → option LocalEnvelope).

(** The answers written so far travel with the state. *)
Definition write_response (faults : list (option IoErrorKind)) (frame : bytes) :
    result (list (option IoErrorKind)) (PipeError F) :=
  if MAX_PAYLOAD_LEN + 4 <? len frame then Err (PeFrameTooLarge (len frame))
  else
    match faults with
    | Some kind :: _ => Err (map_write_error kind)
    | None :: faults => Ok faults
    | [] => Ok []
    end.

(** The turn of the inner loop for one envelope. *)
Definition answer (faults : list (option IoErrorKind)) (s : S) (envelope : LocalEnvelope) :
    option (result (list (option IoErrorKind)) (PipeError F) * S * list bytes) :=
  match validate_local_envelope envelope with
  | Err e => Some (Err (PeInvalidEnvelope e), s, [])
  | Ok _ =>
      match handle s envelope with
      | None => None
      | Some (Err failure, s) => Some (Err (PeSession failure), s, [])
      | Some (Ok None, s) => Some (Ok faults, s, [])
      | Some (Ok (Some frame), s) =>
          match write_response faults frame with
          | Ok faults => Some (Ok faults, s, [frame])
          | Err e => Some (Err e, s, [])
          end
      end
  end.

Fixpoint drain_frames (fuel : nat) (faults : list (option IoErrorKind)) (decoder : FramedStream)
    (s : S) : option (result (list (option IoErrorKind) * FramedStream) (PipeError F) * S * list bytes) :=
  match fuel with
  | O => None
  | Datatypes.S fuel =>
      match next_message decode_message decoder with
      | (Err e, _) => Some (Err (PeStream e), s, [])
      | (Ok None, decoder) => Some (Ok (faults, decoder), s, [])
      | (Ok (Some envelope), decoder) =>
          match answer faults s envelope with
          | None => None
          | Some (Err e, s, out) => Some (Err e, s, out)
          | Some (Ok faults, s, out) =>
              match drain_frames fuel faults decoder s with
              | None => None
              | Some (r, s, out') => Some (r, s, out ++ out')
              end
          end
      end
  end.

Definition session_end (cancelled : bool) (decoder : FramedStream) : result unit (PipeError F) :=
  if cancelled then Err PeCancelled
  else match finish decoder with Ok _ => Ok tt | Err e => Err (PeStream e) end.

Fixpoint session_loop (cancelled : bool) (events : list ReadEvent)
    (faults : list (option IoErrorKind)) (decoder : FramedStream) (s : S) :
    option (result unit (PipeError F) * S * list bytes) :=
  match events with
  | [] => Some (session_end cancelled decoder, s, [])
  | CancelSeen :: _ => Some (Err PeCancelled, s, [])
  | ReadFails kind :: _ => Some (Err (map_read_error kind), s, [])
  | Chunk chunk :: events =>
      if is_empty chunk then Some (session_end cancelled decoder, s, [])
      else
        match push decoder chunk with
        | None => None
        | Some (Err e, _) => Some (Err (map_read_error (InvalidData e)), s, [])
        | Some (Ok _, decoder) =>
            match drain_frames (Datatypes.S (length (completed decoder))) faults decoder s with
            | None => None
            | Some (Err e, s, out) => Some (Err e, s, out)
            | Some (Ok (faults, decoder), s, out) =>
                match session_loop cancelled events faults decoder s with
                | None => None
                | Some (r, s, out') => Some (r, s, out ++ out')
                end
            end
        end
  end.

Definition run_session_inner (connection : Connection) (s : S) :
    option (result unit (PipeError F) * S * list bytes) :=
  session_loop (cancelled_at_end connection) (reads connection) (write_faults connection)
    FramedStream_new s.

Definition run_session (connection : Connection) (s : S) :
    option (result unit (PipeError F) * S * list bytes) :=
  match run_session_inner connection s with
  | None => None
  | Some (r, s, out) => Some (r, disconnected s, out)
  end.

(** ** The reference: envelopes instead of bytes *)

Fixpoint serve (faults : list (option IoErrorKind)) (s : S) (ms : list LocalEnvelope) :
    option (result (list (option IoErrorKind)) (PipeError F) * S * list bytes) :=
  match ms with
  | [] => Some (Ok faults, s, [])
  | m :: ms =>
      match answer faults s m with
      | None => None
      | Some (Err e, s, out) => Some (Err e, s, out)
      | Some (Ok faults, s, out) =>
          match serve faults s ms with
          | None => None
          | Some (r, s, out') => Some (r, s, out ++ out')
          end
      end
  end.

Lemma serve_app faults s ms1 ms2 :
  serve faults s (ms1 ++ ms2) =
  match serve faults s ms1 with
  | None => None
  | Some (Err e, s, out) => Some (Err e, s, out)
  | Some (Ok faults, s, out) =>
      match serve faults s ms2 with
      | None => None
      | Some (r, s, out') => Some (r, s, out ++ out')
      end
  end.
Proof.
  revert faults s. induction ms1 as [|m ms1 IH]; intros faults s; cbn [serve app].
  { by destruct (serve faults s ms2) as [[[? ?] ?]|]. }
  destruct (answer faults s m) as [[[[f|e] s1] out]|]; [|done..]. rewrite IH.
  destruct (serve f s1 ms1) as [[[[f1|e] s2] out1]|]; [|done..].
  destruct (serve f1 s2 ms2) as [[[r s3] out2]|]; [|done]. by rewrite app_assoc.
Qed.

(** Draining a queue of decodable payloads serves their messages. *)
Lemma drain_serves fuel faults b ps ms s :
  Forall2 (λ p m, decode_message p = Some m) ps ms → (length ps < fuel)%nat →
  drain_frames fuel faults (mkStream b ps (total_len ps)) s =
  match serve faults s ms with
  | None => None
  | Some (Ok faults, s, out) => Some (Ok (faults, mkStream b [] 0), s, out)
  | Some (Err e, s, out) => Some (Err e, s, out)
  end.
Proof.
  intros Hd. revert fuel faults s.
  induction Hd as [|p m ps ms Hp Hd IH]; intros fuel faults s Hf; (destruct fuel as [|fuel]; [simpl in Hf; lia|]).
  { done. }
  cbn [drain_frames serve]. unfold next_message, next_payload. cbn [completed]. rewrite Hp.
  destruct (answer faults s m) as [[[[f|e] s1] out]|]; [|done..].
  change ((mkStream b (p :: ps) (total_len (p :: ps))) <| completed := ps |> <| queued_bytes ::= λ n, n - len p |>)
    with (mkStream b ps (len p + total_len ps - len p)).
  replace (len p + total_len ps - len p) with (total_len ps) by lia.
  rewrite IH by (simpl in Hf; lia). by destruct (serve f s1 ms) as [[[[f1|e] s2] out1]|].
Qed.

(** Whatever is queued, the inner loop ends. *)
Lemma drain_enough fuel faults decoder s :
  (∀ s e, handle s e ≠ None) → (length (completed decoder) < fuel)%nat → stream_inv decoder →
  ∃ r s' out, drain_frames fuel faults decoder s = Some (r, s', out) ∧
    ∀ f d, r = Ok (f, d) → stream_inv d.
Proof.
  intros Hh. revert faults decoder s. induction fuel as [|fuel IH]; intros faults decoder s Hf Hi; [lia|].
  cbn [drain_frames]. unfold next_message. destruct (next_payload decoder) as [p d] eqn:Hn.
  pose proof (next_payload_inv _ _ _ Hn Hi) as Hid. unfold next_payload in Hn.
  destruct (completed decoder) as [|p0 rest] eqn:Hc.
  { injection Hn as <- <-. eexists _, _, _. split; [done|]. by intros f d [= _ <-]. }
  injection Hn as <- Hd. destruct (decode_message p0) as [m|]; [|by eexists _, _, _].
  unfold answer. destruct (validate_local_envelope m); [|by eexists _, _, _].
  destruct (handle s m) as [[[[frame|]|failure] s1]|] eqn:Hm; [..|by destruct (Hh _ _ Hm)]; [..|by eexists _, _, _].
  - destruct (write_response faults frame) as [f|e]; [|by eexists _, _, _].
    destruct (IH f d s1) as (r & s' & out & -> & Hr); [rewrite <- Hd; simpl in *; lia|done|]. eauto.
  - destruct (IH faults d s1) as (r & s' & out & -> & Hr); [rewrite <- Hd; simpl in *; lia|done|]. eauto.
Qed.

Lemma session_loop_total cancelled events faults decoder s :
  (∀ s e, handle s e ≠ None) → stream_inv decoder →
  session_loop cancelled events faults decoder s ≠ None.
Proof.
  intros Hh. revert faults decoder s. induction events as [|ev events IH]; intros faults decoder s Hi; [done|].
  destruct ev as [|k|chunk]; [done..|]. cbn [session_loop]. destruct (is_empty chunk); [done|].
  rewrite push_feed by done. pose proof (feed_inv decoder chunk Hi) as Hi'.
  destruct (feed decoder chunk) as [[[]|e] d]; [|done].
  destruct (drain_enough (Datatypes.S (length (completed d))) faults d s Hh) as ([[f d']|e] & s' & out & -> & Hr);
    [lia|done| |done].
  specialize (IH f d' s' (Hr _ _ eq_refl)). by destruct (session_loop _ _ _ _ _) as [[[? ?] ?]|].
Qed.

(** ** Chunks and frames *)

Definition frames (ps : list bytes) : bytes := concat (frame_of <$> ps).

Lemma waiting_prefix x y : waiting (x ++ y) → waiting x.
Proof.
  intros Hw. destruct (decide (length x < 4)%nat) as [?|H4]; [by left|]. right.
  assert (take 4 (x ++ y) = take 4 x) as Ht by (by rewrite take_app_le by lia).
  destruct Hw as [Hl|(_ & Hd & Hl)]; [rewrite length_app in Hl; lia|].
  rewrite Ht in Hd, Hl. rewrite len_app in Hl. split; [lia|]. split; [done|lia].
Qed.

Lemma waiting_frame_prefix x y p : payload_ok p → y ≠ [] → x ++ y = frame_of p → waiting x.
Proof.
  intros Hp Hy E. destruct (decide (length x < 4)%nat) as [?|H4]; [by left|]. right. split; [lia|].
  assert (take 4 x = le_bytes 4 (len p)) as Ht by (by rewrite <- take_frame, <- E, take_app_le by lia).
  rewrite Ht, frame_prefix by done. split; [done|]. apply (f_equal len) in E.
  rewrite len_app, len_frame in E. destruct y as [|y0 y]; [done|].
  assert (0 < len (y0 :: y)) by (unfold len; simpl; lia). lia.
Qed.

(** A prefix of a stream of frames is some of the frames and a part that waits. *)
Lemma split_frames x rest ps b' :
  Forall payload_ok ps → waiting b' → x ++ rest = frames ps ++ b' →
  ∃ ps1 ps2 b1, ps = ps1 ++ ps2 ∧ x = frames ps1 ++ b1 ∧ waiting b1 ∧ b1 ++ rest = frames ps2 ++ b'.
Proof.
  revert x. induction ps as [|p ps IH]; intros x Hp Hb E.
  { exists [], [], x. simpl in E. split_and!; try done. rewrite <- E in Hb. by eapply waiting_prefix. }
  apply Forall_cons in Hp as [Hp Hps]. unfold frames in E. rewrite fmap_cons in E. cbn [concat] in E.
  fold (frames ps) in E. rewrite <- app_assoc in E.
  destruct (decide (length (frame_of p) ≤ length x)%nat) as [Hle|Hlt].
  - assert (x = frame_of p ++ drop (length (frame_of p)) x) as Hx.
    { rewrite <- (take_drop (length (frame_of p)) x) at 1. f_equal.
      apply (f_equal (take (length (frame_of p)))) in E.
      rewrite take_app_le in E by lia. by rewrite take_app_length in E. }
    rewrite Hx, <- app_assoc in E. apply app_inv_head in E.
    destruct (IH _ Hps Hb E) as (ps1 & ps2 & b1 & -> & Hx1 & Hb1 & E1).
    exists (p :: ps1), ps2, b1. split; [done|]. split; [|done]. rewrite Hx, Hx1 at 1.
    unfold frames. rewrite fmap_cons. cbn [concat]. by rewrite app_assoc.
  - exists [], (p :: ps), x. split; [done|]. split; [done|]. split.
    + apply (waiting_frame_prefix x (drop (length x) (frame_of p)) p); [done| |].
      * intros Hn. apply (f_equal length) in Hn. rewrite length_drop in Hn. cbn [length] in Hn. unfold bytes in *. lia.
      * apply (f_equal (take (length x))) in E. rewrite take_app_length, take_app_le in E by lia.
        rewrite E at 1. apply take_drop.
    + rewrite E. unfold frames at 2. rewrite fmap_cons. cbn [concat]. by rewrite <- app_assoc.
Qed.

Lemma len_cons {A} (x : A) l : len (x :: l) = len l + 1.
Proof. unfold len. cbn [length]. lia. Qed.

Lemma len_frames ps : len (frames ps) = total_len ps + 4 * len ps.
Proof.
  induction ps as [|p ps IH]; [done|]. unfold frames in *. rewrite fmap_cons. cbn [concat].
  rewrite len_app, len_frame, IH. change (total_len (p :: ps)) with (len p + total_len ps).
  rewrite len_cons. lia.
Qed.

(** A chunk that arrives at a part [b] of a frame completes at most one frame that it
    does not contain. *)
Lemma chunk_completes b c p ps b1 :
  waiting b → payload_ok p → b ++ c = frames (p :: ps) ++ b1 →
  len b < len p + 4 ∧ total_len ps + 4 * len ps < len c.
Proof.
  intros Hw Hp E. unfold frames in E. rewrite fmap_cons in E. cbn [concat] in E. fold (frames ps) in E.
  assert (len b < len p + 4) as Hb.
  { destruct Hw as [Hl|(H4 & _ & Hl)]; [unfold len at 1; lia|].
    assert (take 4 b = le_bytes 4 (len p)) as Ht.
    { assert (4 ≤ length (frame_of p))%nat by (unfold frame_of; rewrite length_app, length_le_bytes; lia).
      apply (f_equal (take 4)) in E. rewrite take_app_le in E by lia. rewrite E.
      rewrite <- app_assoc, take_app_le by done. apply take_frame. }
    rewrite Ht, frame_prefix in Hl by done. done. }
  split; [done|]. apply (f_equal len) in E. rewrite !len_app, len_frame, len_frames in E. lia.
Qed.

Lemma feed_waiting st b :
  buffer st = [] → waiting b → feed st b = (Ok tt, st <| buffer := b |>).
Proof.
  intros Hst Hb. destruct (decide (length b < 4)%nat) as [Hl|Hl].
  { destruct (feed_buffer st b) as [-> _]; [rewrite Hst; apply waiting_nil|left; by rewrite Hst|].
    destruct st. simpl in *. by rewrite Hst. }
  destruct Hb as [?|(_ & Hd & Hlt)]; [lia|].
  rewrite <- (take_drop 4 b) at 1. rewrite feed_app.
  pose proof (feed_prefix st b) as Hp. rewrite Hst in Hp. cbn [length] in Hp.
  rewrite Nat.sub_0_r in Hp. rewrite Hp by lia. clear Hp.
  change (st <| buffer ::= λ b0, b0 ++ take 4 b |>) with (st <| buffer := buffer st ++ take 4 b |>).
  rewrite Hst. cbn [app]. set (s1 := st <| buffer := take 4 b |>).
  assert (length (take 4 b) = 4)%nat as H4 by (rewrite length_take; lia).
  assert (declared_len s1 = le_value (take 4 b)) as Hs1
    by (unfold declared_len; cbn [buffer]; simpl; by rewrite take_ge by lia).
  assert (len (buffer s1) = 4) as Hl1 by (unfold len, s1; simpl; by rewrite H4).
  destruct (validate_declared_len_cases s1) as [[_ ->]|[e E]]; [lia| |].
  2: { unfold validate_declared_len in E. rewrite Hs1 in E.
       destruct (N.eqb_spec (le_value (take 4 b)) 0); [lia|].
       destruct (N.ltb_spec MAX_PAYLOAD_LEN (le_value (take 4 b))); [lia|done]. }
  assert (len (drop 4 b) = len b - 4) as Hdrop by apply len_drop.
  assert (4 ≤ len b) by (unfold len; lia).
  destruct (feed_buffer s1 (drop 4 b)) as [-> _].
  - right. unfold s1. cbn [buffer]. simpl. rewrite take_take, Nat.min_id. split; [lia|]. split; [done|].
    unfold len. rewrite H4. lia.
  - right. rewrite Hs1, Hl1, Hdrop. unfold s1. simpl. lia.
  - unfold s1. simpl. by rewrite take_drop.
Qed.

(** A chunk that completes frames within the bounds of the queue. *)
Lemma feed_chunk b c ps b1 :
  waiting b → waiting b1 → Forall payload_ok ps → b ++ c = frames ps ++ b1 →
  len ps ≤ MAX_QUEUED_FRAMES → total_len ps ≤ MAX_PAYLOAD_LEN →
  feed (mkStream b [] 0) c = (Ok tt, mkStream b1 ps (total_len ps)).
Proof.
  intros Hb Hb1 Hp E Hcount Htotal.
  assert (feed FramedStream_new (b ++ c) = feed (mkStream b [] 0) c) as <-.
  { rewrite feed_app, feed_waiting by done. done. }
  rewrite E, feed_app. unfold frames. rewrite feed_frames; try done.
  by rewrite feed_waiting.
Qed.

(** What a client may send in one chunk so that the queue takes it. *)
Definition fits (smallest : N) (ps : list bytes) (chunks : list bytes) : Prop :=
  Forall (λ p, 0 < smallest ≤ len p ∧ len p + READ_CHUNK_LEN ≤ MAX_PAYLOAD_LEN) ps ∧
  Forall (λ c, c ≠ [] ∧ len c ≤ READ_CHUNK_LEN ∧ len c ≤ 1023 * (smallest + 4)) chunks.

Lemma fits_queue smallest b c ps b1 :
  Forall (λ p, 0 < smallest ≤ len p ∧ len p + READ_CHUNK_LEN ≤ MAX_PAYLOAD_LEN) ps →
  len c ≤ READ_CHUNK_LEN → len c ≤ 1023 * (smallest + 4) →
  waiting b → b ++ c = frames ps ++ b1 →
  Forall payload_ok ps ∧ len ps ≤ MAX_QUEUED_FRAMES ∧ total_len ps ≤ MAX_PAYLOAD_LEN.
Proof.
  intros Hp Hc1 Hc2 Hw E.
  assert (Forall payload_ok ps) as Hok.
  { eapply Forall_impl; [exact Hp|]. intros p [? ?]. unfold payload_ok, READ_CHUNK_LEN in *. lia. }
  split; [done|]. destruct ps as [|p ps]; [unfold len, MAX_QUEUED_FRAMES, MAX_PAYLOAD_LEN; simpl; lia|].
  apply Forall_cons in Hok as [Hokp _].
  destruct (chunk_completes b c p ps b1 Hw Hokp E) as [_ Ht].
  apply Forall_cons in Hp as [[_ Hp] Hps].
  assert (smallest * len ps ≤ total_len ps) as Hs.
  { clear -Hps. induction Hps as [|q ps [Hq _] _ IH]; [by rewrite N.mul_0_r|].
    change (total_len (q :: ps)) with (len q + total_len ps). rewrite len_cons, N.mul_add_distr_l. lia. }
  change (total_len (p :: ps)) with (len p + total_len ps). rewrite len_cons.
  unfold MAX_QUEUED_FRAMES, bytes in *. split; [|lia].
  assert ((smallest + 4) * len ps < 1023 * (smallest + 4)) by (rewrite N.mul_add_distr_r; lia). nia.
Qed.

Lemma loop_serves smallest cancelled chunks b b' ps ms faults s :
  fits smallest ps chunks → Forall2 (λ p m, decode_message p = Some m) ps ms →
  waiting b → waiting b' → b ++ concat chunks = frames ps ++ b' →
  session_loop cancelled (Chunk <$> chunks) faults (mkStream b [] 0) s =
  match serve faults s ms with
  | None => None
  | Some (Ok _, s, out) => Some (session_end cancelled (mkStream b' [] 0), s, out)
  | Some (Err e, s, out) => Some (Err e, s, out)
  end.
Proof.
  intros [Hp Hc]. revert b ps ms faults s Hp.
  induction Hc as [|c chunks (Hne & Hc1 & Hc2) _ IH]; intros b ps ms faults s Hp Hd Hb Hb' E.
  { assert (ps = []) as ->.
    { destruct ps as [|p ps]; [done|]. exfalso.
      assert (payload_ok p) as Hok.
      { apply Forall_cons in Hp as [[? ?] _]. unfold payload_ok, READ_CHUNK_LEN in *. lia. }
      destruct (chunk_completes b [] p ps b' Hb Hok E) as [_ Ht]. unfold len in Ht at 2. cbn [length] in Ht. lia. }
    inversion Hd; subst. simpl in E. rewrite app_nil_r in E. by subst. }
  assert (Forall payload_ok ps) as Hok.
  { eapply Forall_impl; [exact Hp|]. intros p [? ?]. unfold payload_ok, READ_CHUNK_LEN in *. lia. }
  cbn [concat] in E. rewrite app_assoc in E.
  destruct (split_frames _ _ _ _ Hok Hb' E) as (ps1 & ps2 & b1 & -> & E1 & Hb1 & E2).
  apply Forall_app in Hp as [Hp1 Hp2]. apply Forall2_app_inv_l in Hd as (ms1 & ms2 & Hd1 & Hd2 & ->).
  destruct (fits_queue smallest b c ps1 b1 Hp1 Hc1 Hc2 Hb E1) as (Hok1 & Hcount & Htotal).
  rewrite fmap_cons. cbn [session_loop]. destruct c as [|c0 c]; [done|]. cbn [is_empty].
  assert (stream_inv (mkStream b [] 0)) as Hinv.
  { constructor; simpl; try done; unfold len, MAX_QUEUED_FRAMES, MAX_PAYLOAD_LEN; simpl; lia. }
  rewrite push_feed, (feed_chunk b (c0 :: c) ps1 b1) by done. cbn [completed].
  rewrite (drain_serves _ _ _ _ ms1) by (done || lia). rewrite serve_app.
  destruct (serve faults s ms1) as [[[[f|e] s1] out1]|]; [|done..].
  rewrite (IH b1 ps2 ms2 f s1) by done.
  by destruct (serve f s1 ms2) as [[[[f2|e] s2] out2]|].
Qed.
End Session.

(** ** Properties *)

(** A session is served envelope by envelope, whatever the pipe does to the bytes.
    When the chunks are the frames of some messages and perhaps a part of another
    frame, cut anywhere (no chunk being larger than the read buffer, nor so full of
    tiny frames that the queue overflows), the answers, the session's state and the
    error are those of validating and handling the messages one after the other; at
    the end the stream is clean exactly at a frame boundary, and the session is told
    that it is disconnected, once and last, also after an error. Whatever else the
    pipe gives, a session whose handler never panics comes to an end. *)
Theorem session_serves {S F : Type} `{LocalSession S F}
    (decode_message : bytes → option LocalEnvelope) (smallest : N) (cancelled : bool)
    (chunks ps : list bytes) (part : bytes) (ms : list LocalEnvelope)
    (faults : list (option IoErrorKind)) (s : S) :
  fits smallest ps chunks → Forall2 (λ p m, decode_message p = Some m) ps ms → waiting part →
  concat chunks = frames ps ++ part →
  run_session decode_message (mkConnection (Chunk <$> chunks) faults cancelled) s =
    (match serve faults s ms with
     | None => None
     | Some (Ok _, s, out) =>
         Some (if cancelled then Err PeCancelled
               else if is_empty part then Ok tt else Err (PeStream SeTruncated),
               disconnected s, out)
     | Some (Err e, s, out) => Some (Err e, disconnected s, out)
     end) ∧
  ((∀ s e, handle s e ≠ None) →
   ∀ connection s, run_session decode_message connection s ≠ None).
Proof.
  intros Hfits Hd Hpart Hchunks. split.
  - unfold run_session, run_session_inner. cbn [reads write_faults cancelled_at_end].
    change FramedStream_new with (mkStream [] [] 0).
    rewrite (loop_serves decode_message smallest cancelled chunks [] part ps ms) by (done || apply waiting_nil).
    destruct (serve faults s ms) as [[[[f|e] s1] out]|]; [|done..].
    do 2 f_equal. unfold session_end, finish. cbn [buffer]. destruct cancelled; [done|].
    by destruct (is_empty part).
  - intros Hh connection s'. unfold run_session, run_session_inner.
    pose proof (session_loop_total decode_message (cancelled_at_end connection) (reads connection)
      (write_faults connection) FramedStream_new s' Hh new_stream_inv) as Ht.
    by destruct (session_loop _ _ _ _ _ _) as [[[? ?] ?]|].
Qed.

(** A session for the witness: it answers a settings query with its connection id, and
    counts the envelopes; a message is a query whose trace id is the payload. *)
#[local] Instance demo_session : LocalSession (N * bool) unit := {|
  handle s e := Some (Ok (Some (connection_id e)), (s.1 + 1, s.2));
  disconnected s := (s.1, true) |}.
Definition demo_message (payload : bytes) : LocalEnvelope :=
  mkLocalEnvelope 2 (replicate 16 Byte.x07) 1 None (Some (SettingsQueryP payload)).
Definition demo_decoder (payload : bytes) : option LocalEnvelope := Some (demo_message payload).
Definition demo_trace : bytes := replicate 16 Byte.x01.
Definition demo_chunks : list bytes :=
  [take 3 (frame_of demo_trace); drop 3 (frame_of demo_trace) ++ frame_of demo_trace ++ [Byte.x05]].

Lemma session_serves_witness :
  run_session demo_decoder (mkConnection (Chunk <$> demo_chunks) [] false) (0, false) =
  Some (Err (PeStream SeTruncated), (2, true), [replicate 16 Byte.x07; replicate 16 Byte.x07]).
Proof.
  destruct (session_serves demo_decoder 16 false demo_chunks [demo_trace; demo_trace] [Byte.x05]
    [demo_message demo_trace; demo_message demo_trace] [] (0, false)) as [H _].
  - split; repeat constructor; vm_compute; (reflexivity || discriminate).
  - repeat constructor.
  - apply waiting_nil || (left; simpl; lia).
  - reflexivity.
  - rewrite H. vm_compute. reflexivity.
Defined.
