(* ===== verification/ControlSession.v ===== *)
(** * Control sessions

    Models [crates/pal-core-win/src/control_session.rs] and the adapter of
    [ipc_runtime.rs]: a session behind its hello gate answers queries, commands and
    patches of one client out of a settings store that all sessions share. The store is
    an argument: a handler takes its lock at most once, so that the interleaving of
    sessions is the interleaving of their handlers. The protobuf encoder is a
    parameter; [None] is a panic, one of the [expect]s on stored settings. *)

From S2P Require Import Prelude Floats Settings Position View Protocol Framing Handshake.
From S2P Require Import IpcSession SettingsStore.
Import local.

Inductive SessionError :=
| FrameEncode (error : FrameError)
| ResponseIdOverflow
| Disconnect (reason : PatchRejection).

Record ControlSession := mkSession { gate : HelloGate; next_response_id : N }.
#[export] Instance eta_ControlSession : Eta ControlSession := λ s,
  mkSession (gate s) (next_response_id s).

Definition from_shared : ControlSession := mkSession (HelloGate_new any_local_client) 1.

(** [map(Some)] on a response. *)
Definition some_frame {S E} (r : result bytes E * S) : result (option bytes) E * S :=
  match r with (Ok frame, s) => (Ok (Some frame), s) | (Err e, s) => (Err e, s) end.

(** The status and the error code that answer a command. *)
Definition command_status (r : ActionResult) : OverlayCommandStatus * ProtocolErrorCode * StoreSnapshot :=
  match r with
  | ArApplied s => (OsApplied, PeNone, s)
  | ArNoOp s => (OsNoOp, PeNone, s)
  | ArVersionConflict s => (OsRejected, VersionConflict, s)
  | ArRejected s _ => (OsRejected, InvalidSettings, s)
  end.

Definition patch_status (r : PatchResult) : SettingsApplyStatus * StoreSnapshot :=
  match r with
  | PrApplied s => (SaApplied, s)
  | PrVersionConflict s => (SaVersionConflict, s)
  | PrRejected s _ => (SaValidationRejected, s)
  end.

(** The [expect] on the encoding of stored settings. *)
Definition expect_encoded (settings : OverlaySettings) : option v2.OverlaySettings :=
  match encode_overlay_settings settings with Ok w => Some w | Err _ => None end.

Section Responses.
Context (encoded_len : LocalEnvelope → N) (encode_message : LocalEnvelope → option bytes).

Definition established_connection_id (self : ControlSession) : bytes :=
  match gate_connection_id (gate self) with Some value => value | None => replicate 16 Byte.x00 end.

Definition response (self : ControlSession) (request : LocalEnvelope) (payload : Payload)
    (connection_id : bytes) : result bytes SessionError * ControlSession :=
  let id := next_response_id self in
  match checked_add id 1 with
  | None => (Err ResponseIdOverflow, self)
  | Some next =>
      (map_err FrameEncode (encode encoded_len encode_message
         (mkLocalEnvelope PROTOCOL_VERSION connection_id id (Some (message_id request)) (Some payload))),
       self <| next_response_id := next |>)
  end.

Definition protocol_error_values (self : ControlSession) (request : LocalEnvelope)
    (code : ProtocolErrorCode) (field : string) : result (option bytes) SessionError * ControlSession :=
  some_frame (response self request (ErrorP (mkError (ProtocolErrorCode_number code) field ""))
    (established_connection_id self)).

Definition protocol_error (self : ControlSession) (request : LocalEnvelope) (rejection : HelloRejection) :
    result (option bytes) SessionError * ControlSession :=
  protocol_error_values self request (rejection_code rejection) (rejection_field rejection).

Definition disconnect (self : ControlSession) (store : SettingsStore) :
    result StoreSnapshot SessionError * SettingsStore :=
  if negb (is_established (gate self)) then (Ok (snapshot store), store)
  else
    let '(r, store) := force_locked store in
    (map_err Disconnect r, store).

(** The three requests an established client can make. *)
Definition handle_query (self : ControlSession) (store : SettingsStore) (envelope : LocalEnvelope)
    (trace_id : bytes) : option (result (option bytes) SessionError * ControlSession * SettingsStore) :=
  let s := snapshot store in
  w ← expect_encoded (snap_settings s);
  Some (some_frame (response self envelope (SettingsSnapshotP (mkSnapshot trace_id (snap_version s) (Some w)))
          (established_connection_id self)), store).

Definition command_error (self : ControlSession) (store : SettingsStore) (envelope : LocalEnvelope) :
    option (result (option bytes) SessionError * ControlSession * SettingsStore) :=
  Some (protocol_error_values self envelope ValidationFailed "overlay_command.command", store).

Definition handle_command (self : ControlSession) (store : SettingsStore) (envelope : LocalEnvelope)
    (c : OverlayCommand) : option (result (option bytes) SessionError * ControlSession * SettingsStore) :=
  match try_from (command c) with
  | None => command_error self store envelope
  | Some raw_command =>
      match decode_overlay_action raw_command with
      | Err _ => command_error self store envelope
      | Ok action =>
          let '(result, store) := apply_action store (command_expected_version c) action in
          let '(status, error_code, s) := command_status result in
          let settings := snap_settings s in
          w ← expect_encoded settings;
          Some (some_frame (response self envelope
            (OverlayCommandResultP (mkCommandResult (command_trace_id c) (OverlayCommandStatus_number status)
               (enabled settings) (as_i32 (encode_input_mode (input_mode settings)))
               (as_i32 (encode_display_mode (display_mode settings))) (snap_version s)
               (ProtocolErrorCode_number error_code) (Some w)))
            (established_connection_id self)), store)
      end
  end.

(** The [match] on the candidate, under the lock of the store. *)
Definition patch_result (store : SettingsStore) (p : SettingsPatch) : option (PatchResult * SettingsStore) :=
  match candidate p with
  | Some c => apply_patch store (patch_expected_version p) c (changed_fields p)
  | None => Some (reject_missing_candidate store, store)
  end.

Definition handle_patch (self : ControlSession) (store : SettingsStore) (envelope : LocalEnvelope)
    (p : SettingsPatch) : option (result (option bytes) SessionError * ControlSession * SettingsStore) :=
  if negb (len (patch_trace_id p) =? 16) then
    Some (protocol_error_values self envelope InvalidTraceId "settings_patch.trace_id", store)
  else if bool_decide (accepted_role (gate self) = Some Overlay)
          && negb (bool_decide (changed_fields p = [as_i32 FPoiFilters])) then
    Some (protocol_error_values self envelope UnexpectedPayload "settings_patch.changed_fields", store)
  else
    '(result, store) ← patch_result store p;
    let '(status, s) := patch_status result in
    w ← expect_encoded (snap_settings s);
    Some (some_frame (response self envelope
      (SettingsAckP (mkAck (patch_trace_id p) (SettingsApplyStatus_number status) (snap_version s) (Some w) []))
      (established_connection_id self)), store).

Definition handle_envelope (self : ControlSession) (store : SettingsStore) (envelope : LocalEnvelope) :
    option (result (option bytes) SessionError * ControlSession * SettingsStore) :=
  if negb (is_established (gate self)) then
    match evaluate (gate self) envelope with
    | (Ok _, g) => Some (Ok None, self <| gate := g |>, store)
    | (Err rejection, g) => Some (protocol_error (self <| gate := g |>) envelope rejection, store)
    end
  else
    match validate_established (gate self) envelope with
    | Err rejection => Some (protocol_error self envelope rejection, store)
    | Ok _ =>
        match payload envelope with
        | Some (SettingsQueryP trace_id) => handle_query self store envelope trace_id
        | Some (OverlayCommandP c) => handle_command self store envelope c
        | Some (SettingsPatchP p) => handle_patch self store envelope p
        | _ => Some (protocol_error_values self envelope UnexpectedPayload "payload", store)
        end
    end.

(** ** Specification *)

(** A message that shows the settings of a store. *)
Definition shows (shown : option v2.OverlaySettings) (store : SettingsStore) : Prop :=
  ∃ w, shown = Some w ∧ encode_overlay_settings (settings store) = Ok w.

Definition error_reply (code : ProtocolErrorCode) (field : string) : Payload :=
  ErrorP (mkError (ProtocolErrorCode_number code) field "").

(** What a client may patch: an overlay only its filters. *)
Definition mask_allowed (g : HelloGate) (p : SettingsPatch) : Prop :=
  accepted_role g = Some Overlay → changed_fields p = [as_i32 FPoiFilters].

Definition query_reply (store : SettingsStore) (trace_id : bytes) (reply : Payload) : Prop :=
  ∃ r, reply = SettingsSnapshotP r ∧ snapshot_trace_id r = trace_id ∧
    snapshot_version r = version store ∧ shows (snapshot_settings r) store.

Definition command_reply (store store' : SettingsStore) (c : OverlayCommand) (action : OverlayAction)
    (reply : Payload) : Prop :=
  ∃ res r, apply_action store (command_expected_version c) action = (res, store') ∧
    reply = OverlayCommandResultP r ∧ result_trace_id r = command_trace_id c ∧
    result_version r = version store' ∧ shows (result_settings r) store' ∧
    result_visible r = enabled (settings store') ∧
    result_status r = OverlayCommandStatus_number (command_status res).1.1 ∧
    error_code r = ProtocolErrorCode_number (command_status res).1.2 ∧
    (result_status r = OverlayCommandStatus_number OsApplied ↔ version store' = version store + 1) ∧
    (error_code r = ProtocolErrorCode_number VersionConflict ↔
       command_expected_version c ≠ version store).

Definition patch_reply (store store' : SettingsStore) (p : SettingsPatch) (reply : Payload) : Prop :=
  ∃ res a, patch_result store p = Some (res, store') ∧
    reply = SettingsAckP a ∧ ack_trace_id a = patch_trace_id p ∧
    applied_version a = version store' ∧ shows (ack_settings a) store' ∧
    ack_status a = SettingsApplyStatus_number (patch_status res).1 ∧
    (ack_status a = SettingsApplyStatus_number SaApplied ↔ version store' = version store + 1).

(** The answer to an envelope and its effect, by what the gate says and what it asks. *)
Definition reply_spec (g : HelloGate) (store store' : SettingsStore) (e : LocalEnvelope)
    (reply : Payload) : Prop :=
  match (gate_step g e).1 with
  | Ok (Some _) => False
  | Err rejection =>
      reply = error_reply (rejection_code rejection) (rejection_field rejection) ∧ store' = store
  | Ok None =>
      match payload e with
      | Some (SettingsQueryP trace_id) => query_reply store trace_id reply ∧ store' = store
      | Some (OverlayCommandP c) =>
          (∃ a, command c = as_i32 (encode_overlay_action a) ∧ command_reply store store' c a reply) ∨
          ((∀ a, command c ≠ as_i32 (encode_overlay_action a)) ∧
           reply = error_reply ValidationFailed "overlay_command.command" ∧ store' = store)
      | Some (SettingsPatchP p) =>
          (len (patch_trace_id p) = 16 ∧ mask_allowed g p ∧ patch_reply store store' p reply) ∨
          (len (patch_trace_id p) ≠ 16 ∧
           reply = error_reply InvalidTraceId "settings_patch.trace_id" ∧ store' = store) ∨
          (¬ mask_allowed g p ∧
           reply = error_reply UnexpectedPayload "settings_patch.changed_fields" ∧ store' = store)
      | _ => reply = error_reply UnexpectedPayload "payload" ∧ store' = store
      end
  end.

(** The reply goes out under the session's next number, or not at all. *)
Definition replies (self self' : ControlSession) (e : LocalEnvelope) (reply : Payload)
    (r : result (option bytes) SessionError) : Prop :=
  (next_response_id self' = next_response_id self + 1 ∧ next_response_id self < u64_max ∧
   r = match encode encoded_len encode_message
               (mkLocalEnvelope PROTOCOL_VERSION (established_connection_id self)
                  (next_response_id self) (Some (message_id e)) (Some reply)) with
       | Ok frame => Ok (Some frame)
       | Err error => Err (FrameEncode error)
       end) ∨
  (next_response_id self' = next_response_id self ∧ u64_max ≤ next_response_id self ∧
   r = Err ResponseIdOverflow).

Lemma response_replies self e reply r self' :
  some_frame (response self e reply (established_connection_id self)) = (r, self') →
  replies self self' e reply r ∧ gate self' = gate self.
Proof.
  unfold response, replies. destruct (checked_add (next_response_id self) 1) as [next|] eqn:Hn; simpl.
  - apply checked_add_some in Hn as [-> Hle].
    destruct (encode _ _ _) as [frame|error]; simpl; intros [= <- <-]; (split; [left|done]);
      (split; [done|]); (split; [lia|done]).
  - apply checked_add_none in Hn. intros [= <- <-]. split; [right|done]. split; [done|]. split; [lia|done].
Qed.

Lemma expect_stored store :
  store_ok store → ∃ w, expect_encoded (settings store) = Some w ∧ encode_overlay_settings (settings store) = Ok w.
Proof.
  intros [Hv _]. destruct (encode_settings_valid _ Hv) as [w Hw]. exists w. unfold expect_encoded.
  by rewrite Hw.
Qed.

Lemma action_store_ok store ev a res store' :
  store_ok store → apply_action store ev a = (res, store') →
  store_ok store' ∧ snd (command_status res) = snapshot store' ∧
  (fst (fst (command_status res)) = OsApplied ↔ version store' = version store + 1) ∧
  (snd (fst (command_status res)) = VersionConflict ↔ ev ≠ version store).
Proof.
  intros Hs Ha. pose proof (apply_action_spec store ev a Hs) as Hspec. rewrite Ha in Hspec.
  destruct Hspec as [Hs' Hr]. split; [done|].
  assert ((∃ s, res = ArVersionConflict s) ↔ ev ≠ version store) as Hc.
  { unfold apply_action in Ha. destruct (N.eqb_spec ev (version store)) as [->|Hne]; cbn [negb] in Ha.
    - split; [|done]. intros [s ->]. by repeat step_if_in Ha; simplify_eq.
    - injection Ha as <- _. split; [done|]. by eexists. }
  destruct res as [s|s|s|s e]; simpl.
  - destruct Hr as (-> & Hv & -> & _). rewrite <- Hc. split; [done|]. split; [done|]. by split; [|intros [? ?]].
  - destruct Hr as [-> ->]. rewrite <- Hc. split; [done|]. split; [split; [done|lia]|]. by split; [|intros [? ?]].
  - destruct Hr as [-> ->]. rewrite <- Hc. split; [done|]. split; [split; [done|lia]|]. split; [by eexists|done].
  - destruct Hr as [-> ->]. rewrite <- Hc. split; [done|]. split; [split; [done|lia]|]. by split; [|intros [? ?]].
Qed.

Lemma patch_store_ok store p :
  store_ok store →
  ∃ res store', patch_result store p = Some (res, store') ∧ store_ok store' ∧ moves store store' ∧
    snd (patch_status res) = snapshot store' ∧
    (fst (patch_status res) = SaApplied ↔ version store' = version store + 1).
Proof.
  intros Hs. unfold patch_result. destruct (candidate p) as [c|].
  - destruct (apply_patch_spec store (patch_expected_version p) c (changed_fields p) Hs)
      as (res & store' & -> & Hs' & Hr). exists res, store'. split; [done|]. split; [done|].
    destruct res as [s|s|s e]; simpl.
    + destruct Hr as (_ & Hv & -> & _). split; [by right|]. done.
    + destruct Hr as (_ & -> & ->). split; [by left|]. split; [done|]. split; [done|lia].
    + destruct Hr as (_ & -> & -> & _). split; [by left|]. split; [done|]. split; [done|lia].
  - eexists _, _. split; [done|]. split; [done|]. split; [by left|]. split; [done|]. simpl. split; [done|lia].
Qed.

Lemma OverlayCommandStatus_inj a b :
  OverlayCommandStatus_number a = OverlayCommandStatus_number b ↔ a = b.
Proof. destruct a, b; simpl; split; (done || congruence). Qed.
Lemma ProtocolErrorCode_inj a b : ProtocolErrorCode_number a = ProtocolErrorCode_number b ↔ a = b.
Proof. destruct a, b; simpl; split; (done || congruence). Qed.
Lemma SettingsApplyStatus_inj a b :
  SettingsApplyStatus_number a = SettingsApplyStatus_number b ↔ a = b.
Proof. destruct a, b; simpl; split; (done || congruence). Qed.

(** ** The handlers meet the specification *)

(** The outcome of a handler: a reply that goes out, and what it did to the store. *)
Definition handled (self : ControlSession) (store : SettingsStore) (e : LocalEnvelope)
    (spec : SettingsStore → Payload → Prop)
    (outcome : option (result (option bytes) SessionError * ControlSession * SettingsStore)) : Prop :=
  ∃ r self' store' reply, outcome = Some (r, self', store') ∧ spec store' reply ∧
    replies self self' e reply r ∧ gate self' = gate self ∧ store_ok store' ∧
    (store' = store ∨ ∃ op o, store_step op store = Some (o, store')).

Lemma handled_mono self store e (spec spec' : SettingsStore → Payload → Prop) outcome :
  handled self store e spec outcome → (∀ store' reply, spec store' reply → spec' store' reply) →
  handled self store e spec' outcome.
Proof. intros (r & self' & store' & reply & ? & ? & ?) Hs. exists r, self', store', reply. auto. Qed.

Lemma respond_handled self store store' e reply spec :
  spec store' reply → store_ok store' →
  (store' = store ∨ ∃ op o, store_step op store = Some (o, store')) →
  handled self store e spec
    (Some (some_frame (response self e reply (established_connection_id self)), store')).
Proof.
  intros Hspec Hs Hstep.
  destruct (some_frame (response self e reply (established_connection_id self))) as [r self'] eqn:Hr.
  apply response_replies in Hr as [Hr Hg]. by exists r, self', store', reply.
Qed.

Lemma error_handled self store e code field (spec : SettingsStore → Payload → Prop) :
  store_ok store → spec store (error_reply code field) →
  handled self store e spec (Some (protocol_error_values self e code field, store)).
Proof. intros Hs Hspec. by apply respond_handled; [|done|left]. Qed.

Lemma query_handled self store e trace_id :
  store_ok store →
  handled self store e (λ store' reply, query_reply store trace_id reply ∧ store' = store)
    (handle_query self store e trace_id).
Proof.
  intros Hs. destruct (expect_stored store Hs) as (w & Hw & Henc). unfold handle_query. cbn [snapshot snap_settings].
  rewrite Hw. cbn [mbind option_bind]. apply respond_handled; [|done|by left]. split; [|done].
  eexists. split; [reflexivity|]. split; [done|]. split; [done|]. by exists w.
Qed.

Lemma as_i32_action_decode c k :
  try_from (command c) = Some k →
  (∀ a, command c = as_i32 (encode_overlay_action a) ↔ decode_overlay_action k = Ok a).
Proof.
  intros Hk a. rewrite (conversion (encode := encode_overlay_action) (decode := decode_overlay_action)).
  pose proof (as_i32_try_from _ _ Hk) as Hc. split; [|by intros <-]. intros E.
  rewrite E, try_from_as_i32 in Hk. congruence.
Qed.

Lemma command_handled self store e c :
  store_ok store →
  handled self store e (λ store' reply,
    (∃ a, command c = as_i32 (encode_overlay_action a) ∧ command_reply store store' c a reply) ∨
    ((∀ a, command c ≠ as_i32 (encode_overlay_action a)) ∧
     reply = error_reply ValidationFailed "overlay_command.command" ∧ store' = store))
    (handle_command self store e c).
Proof.
  intros Hs. unfold handle_command, command_error.
  destruct (try_from (command c)) as [k|] eqn:Hk.
  2: { apply error_handled; [done|]. right. split; [|done]. intros a E.
       by rewrite E, try_from_as_i32 in Hk. }
  pose proof (as_i32_action_decode c k Hk) as Hdec.
  destruct (decode_overlay_action k) as [a|] eqn:Ha.
  2: { apply error_handled; [done|]. right. split; [|done]. intros a E. by apply Hdec in E. }
  destruct (apply_action store (command_expected_version c) a) as [res store'] eqn:Hact.
  destruct (action_store_ok store _ _ _ _ Hs Hact) as (Hs' & Hsn & Hst & Hcode).
  destruct (command_status res) as [[status code_] s] eqn:Hc. simpl in Hsn, Hst, Hcode. subst s.
  destruct (expect_stored store' Hs') as (w & Hw & Henc). cbn [snapshot snap_settings].
  rewrite Hw. cbn [mbind option_bind]. apply respond_handled; [left; exists a; split; [by apply Hdec|]|done|].
  - eexists _, _. split; [exact Hact|]. split; [reflexivity|]. cbn [result_trace_id result_version
      result_settings result_visible result_status error_code].
    split; [done|]. split; [done|]. split; [by exists w|]. split; [done|].
    rewrite Hc. cbn [fst snd]. split; [done|]. split; [done|].
    split; [by rewrite OverlayCommandStatus_inj|by rewrite ProtocolErrorCode_inj].
  - right. exists (OpAction (command_expected_version c) a). cbn [store_step]. rewrite Hact. by eexists.
Qed.

Lemma patch_handled self store e p :
  store_ok store →
  handled self store e (λ store' reply,
    (len (patch_trace_id p) = 16 ∧ mask_allowed (gate self) p ∧ patch_reply store store' p reply) ∨
    (len (patch_trace_id p) ≠ 16 ∧
     reply = error_reply InvalidTraceId "settings_patch.trace_id" ∧ store' = store) ∨
    (¬ mask_allowed (gate self) p ∧
     reply = error_reply UnexpectedPayload "settings_patch.changed_fields" ∧ store' = store))
    (handle_patch self store e p).
Proof.
  intros Hs. unfold handle_patch, mask_allowed.
  destruct (N.eqb_spec (len (patch_trace_id p)) 16) as [Hl|Hl]; cbn [negb].
  2: { apply error_handled; [done|]. right. left. done. }
  case_bool_decide as Hrole; case_bool_decide as Hmask; cbn [andb negb].
  2: { apply error_handled; [done|]. right. right. split; [auto|done]. }
  all: destruct (patch_store_ok store p Hs) as (res & store' & Hres & Hs' & _ & Hsn & Hst);
    rewrite Hres; cbn [mbind option_bind]; destruct (patch_status res) as [status s] eqn:Hp;
    simpl in Hsn, Hst; subst s; destruct (expect_stored store' Hs') as (w & Hw & Henc);
    cbn [snapshot snap_settings]; rewrite Hw; cbn [mbind option_bind];
    (apply respond_handled; [left; split; [done|]; split; [done|]|done|]).
  all: try (eexists _, _; split; [exact Hres|]; split; [reflexivity|];
    cbn [ack_trace_id applied_version ack_settings ack_status];
    split; [done|]; split; [done|]; split; [by exists w|]; rewrite Hp; cbn [fst]; split; [done|];
    by rewrite SettingsApplyStatus_inj).
  all: unfold patch_result in Hres; destruct (candidate p) as [c|]; [|injection Hres as _ <-; by left];
    right; exists (OpPatch (patch_expected_version p) c (changed_fields p)); cbn [store_step];
    rewrite Hres; by eexists.
Qed.

Lemma handle_envelope_spec self store e :
  store_ok store →
  (∃ a g, gate_step (gate self) e = (Ok (Some a), g) ∧
     handle_envelope self store e = Some (Ok None, self <| gate := g |>, store)) ∨
  ((gate_step (gate self) e).2 = gate self ∧
   handled self store e (λ store' reply, reply_spec (gate self) store store' e reply)
     (handle_envelope self store e)).
Proof.
  intros Hs. unfold handle_envelope, reply_spec, gate_step.
  destruct (is_established (gate self)) eqn:Hest; cbn [negb].
  - right. destruct (validate_established (gate self) e) as [[]|rej] eqn:Hv; cbn [fst snd]; (split; [done|]).
    2: { apply error_handled; done. }
    destruct (payload e) as [[h|p|a|rest|t rest|t rest|c|cr|t rest|pe|t rest|t rest|t|sn|t rest|t rest]|];
      try (apply error_handled; done).
    + by apply patch_handled.
    + by apply command_handled.
    + by apply query_handled.
  - destruct (evaluate (gate self) e) as [[a|rej] g] eqn:He.
    + left. by exists a, g.
    + right. apply evaluate_err in He as ->. split; [done|]. cbn [fst].
      replace (self <| gate := gate self |>) with self by (by destruct self).
      by apply error_handled.
Qed.

(** ** Sessions that share a store *)

(** A client connects, sends an envelope, or leaves; a session that left handles
    nothing any more. *)
Inductive SystemStep := Connect | Send (i : nat) (e : LocalEnvelope) | Leave (i : nat).

Record System := mkSystem { sessions : list (option ControlSession); shared : SettingsStore }.

Definition system_step (step : SystemStep) (sys : System) : option System :=
  match step with
  | Connect => Some (mkSystem (sessions sys ++ [Some from_shared]) (shared sys))
  | Send i e =>
      match sessions sys !! i with
      | Some (Some self) =>
          '(_, self, store) ← handle_envelope self (shared sys) e;
          Some (mkSystem (<[i := Some self]> (sessions sys)) store)
      | _ => Some sys
      end
  | Leave i =>
      match sessions sys !! i with
      | Some (Some self) =>
          let '(_, store) := disconnect self (shared sys) in
          Some (mkSystem (<[i := None]> (sessions sys)) store)
      | _ => Some sys
      end
  end.

Fixpoint system_run (steps : list SystemStep) (sys : System) : option System :=
  match steps with
  | [] => Some sys
  | step :: steps => sys ← system_step step sys; system_run steps sys
  end.

Lemma disconnect_spec self store :
  store_ok store →
  let '(r, store') := disconnect self store in
  store_ok store' ∧ (store' = store ∨ ∃ o, store_step OpLock store = Some (o, store')) ∧
  (is_established (gate self) = true →
   input_mode (settings store') = Settings.Locked ∨ version store = u64_max).
Proof.
  intros Hs. unfold disconnect. destruct (is_established (gate self)); cbn [negb]; [|by split; [|split; [left|]]].
  pose proof (force_locked_spec store Hs) as H. cbn [store_step].
  destruct (force_locked store) as [[s|reason] store']; destruct H as [Hs' Hr].
  - split; [done|]. split; [right; by eexists|]. intros _. left. by destruct Hr as (_ & _ & ? & _).
  - split; [done|]. split; [right; by eexists|]. intros _. right. by destruct Hr as (_ & _ & ? & _).
Qed.

Lemma system_step_spec step sys :
  store_ok (shared sys) →
  ∃ sys', system_step step sys = Some sys' ∧ store_ok (shared sys') ∧
    (shared sys' = shared sys ∨ ∃ op o, store_step op (shared sys) = Some (o, shared sys')).
Proof.
  intros Hs. destruct step as [|i e|i]; cbn [system_step].
  - eexists. split; [done|]. split; [done|by left].
  - destruct (sessions sys !! i) as [[self|]|]; [|eexists; split; [done|]; split; [done|by left]..].
    destruct (handle_envelope_spec self (shared sys) e Hs)
      as [(a & g & _ & ->)|[_ (r & self' & store' & reply & -> & _ & _ & _ & Hs' & Hstep)]];
      cbn [mbind option_bind]; (eexists; split; [reflexivity|]); [by split; [|left]|by split].
  - destruct (sessions sys !! i) as [[self|]|]; [|eexists; split; [done|]; split; [done|by left]..].
    pose proof (disconnect_spec self (shared sys) Hs) as H.
    destruct (disconnect self (shared sys)) as [r store']. destruct H as (Hs' & Hstep & _).
    eexists. split; [done|]. split; [done|]. destruct Hstep as [?|[o Ho]]; [by left|right; eauto].
Qed.

Lemma system_run_spec steps sys :
  store_ok (shared sys) →
  ∃ sys' ops os, system_run steps sys = Some sys' ∧ store_run ops (shared sys) = Some (os, shared sys') ∧
    (length ops ≤ length steps)%nat.
Proof.
  revert sys. induction steps as [|step steps IH]; intros sys Hs; cbn [system_run].
  { exists sys, [], []. split_and!; done. }
  destruct (system_step_spec step sys Hs) as (sys1 & -> & Hs1 & Hstep). cbn [mbind option_bind].
  destruct (IH sys1 Hs1) as (sys' & ops & os & -> & Hrun & Hlen).
  destruct Hstep as [E|(op & o & Ho)].
  - rewrite <- E. exists sys', ops, os. split_and!; try done. simpl. lia.
  - exists sys', (op :: ops), (o :: os). split; [done|]. cbn [store_run]. rewrite Ho.
    cbn [mbind option_bind]. rewrite Hrun. split; [done|]. simpl. lia.
Qed.
End Responses.

(** The adapter of the runtime, a session for the pipe loop. *)
#[export] Instance ControlSessionAdapter (encoded_len : LocalEnvelope → N)
    (encode_message : LocalEnvelope → option bytes) :
  LocalSession (ControlSession * SettingsStore) SessionError := {|
  handle '(self, store) e :=
    match handle_envelope encoded_len encode_message self store e with
    | Some (r, self, store) => Some (r, (self, store))
    | None => None
    end;
  disconnected '(self, store) := let '(_, store) := disconnect self store in (self, store);
|}.

(** ** Properties *)

(** C6: a control session answers every envelope, and rightly. Over a sound store no
    envelope makes it panic. A hello that the gate takes is answered by silence;
    anything else by one reply, under the session's next number, with the number of
    its request: the error the gate or the session finds, with the store untouched; for
    a query the settings and their version; for a command or a patch the outcome of
    the store's operation and the settings that hold after it, where an overlay may
    patch its filters only. The store stays sound. *)
Theorem session_answers (encoded_len : LocalEnvelope → N) (encode_message : LocalEnvelope → option bytes)
    (self : ControlSession) (store : SettingsStore) (e : LocalEnvelope) :
  store_ok store →
  ∃ r self' store', handle_envelope encoded_len encode_message self store e = Some (r, self', store') ∧
    gate self' = (gate_step (gate self) e).2 ∧ store_ok store' ∧
    ((∃ a, (gate_step (gate self) e).1 = Ok (Some a) ∧ r = Ok None ∧
        next_response_id self' = next_response_id self ∧ store' = store) ∨
     ∃ reply, reply_spec (gate self) store store' e reply ∧
        replies encoded_len encode_message self self' e reply r).
Proof.
  intros Hs. destruct (handle_envelope_spec encoded_len encode_message self store e Hs)
    as [(a & g & Hg & ->)|[Hg (r & self' & store' & reply & -> & Hspec & Hr & Hgate & Hs' & _)]].
  - eexists _, _, _. split; [reflexivity|]. rewrite Hg. split; [done|]. split; [done|]. left. by exists a.
  - exists r, self', store'. split; [done|]. rewrite Hg. split; [done|]. split; [done|]. right. by exists reply.
Qed.

(** Sessions share the store without losing updates. However clients connect, send
    and leave, the server never panics, the settings stay valid, and the shared store
    is that of some sequence of store operations, at most one per step, so that its
    history is linear; a client that leaves after its hello leaves the input locked,
    unless the version can grow no more. *)
Theorem shared_store_linear (encoded_len : LocalEnvelope → N) (encode_message : LocalEnvelope → option bytes)
    (initial : OverlaySettings) (s0 : SettingsStore) (steps : list SystemStep) :
  SettingsStore_new initial = Ok s0 →
  ∃ sys, system_run encoded_len encode_message steps (mkSystem [] s0) = Some sys ∧
    valid_settings (settings (shared sys)) ∧
    (∃ ops os, store_run ops s0 = Some (os, shared sys) ∧ (length ops ≤ length steps)%nat) ∧
    (∀ i self, sessions sys !! i = Some (Some self) → is_established (gate self) = true →
       version (shared sys) < u64_max →
       ∃ sys', system_step encoded_len encode_message (Leave i) sys = Some sys' ∧
         input_mode (settings (shared sys')) = Settings.Locked).
Proof.
  intros [Hs _]%new_store_ok.
  destruct (system_run_spec encoded_len encode_message steps (mkSystem [] s0) Hs)
    as (sys & ops & os & Hrun & Hops & Hlen).
  exists sys. split; [done|].
  destruct (store_run_spec ops s0 Hs) as (os' & s' & Hops' & Hs' & _).
  cbn [shared] in Hops. rewrite Hops in Hops'. injection Hops' as <- <-.
  split; [apply Hs'|]. split; [eauto|].
  intros i self Hi He Hv. cbn [system_step]. rewrite Hi.
  pose proof (disconnect_spec self (shared sys) Hs') as H.
  destruct (disconnect self (shared sys)) as [r store']. destruct H as (_ & _ & H).
  eexists. split; [reflexivity|]. destruct (H He) as [?|?]; [done|lia].
Qed.

(** Every message is one byte: enough to see what the server does. *)
Definition demo_len (e : LocalEnvelope) : N := 1.
Definition demo_bytes (e : LocalEnvelope) : option bytes := Some [byte_of (message_id e)].

Definition demo_id : bytes := replicate 16 Byte.x07.
Definition demo_overlay : HelloGate := mkGate any_local_client (Some (mkAccepted 4242 demo_id Overlay)).
Definition demo_store : SettingsStore := mkStore OverlaySettings_default 1.
Definition demo_command : LocalEnvelope :=
  mkLocalEnvelope 2 demo_id 9 None (Some (OverlayCommandP (mkCommand demo_id 6 1))).

(** An overlay enters the interactive mode with its second message. *)
Lemma session_answers_witness :
  store_ok demo_store ∧
  ∃ r self' store', handle_envelope demo_len demo_bytes (mkSession demo_overlay 3) demo_store demo_command =
      Some (r, self', store') ∧
    r = Ok (Some [Byte.x01; Byte.x00; Byte.x00; Byte.x00; Byte.x03]) ∧ next_response_id self' = 4 ∧
    version store' = 2 ∧ store_ok store'.
Proof.
  split; [apply demo_store_ok|].
  destruct (session_answers demo_len demo_bytes (mkSession demo_overlay 3) demo_store demo_command
    demo_store_ok) as (r & self' & store' & H & _ & Hs & _).
  exists r, self', store'. split; [done|]. vm_compute in H. injection H as <- <- <-.
  split_and!; [reflexivity..|exact Hs].
Defined.

Definition demo_steps : list SystemStep :=
  [Connect; Connect; Send 0 demo_hello; Send 0 demo_command; Send 1 demo_command].

Lemma shared_store_linear_witness :
  SettingsStore_new OverlaySettings_default = Ok demo_store ∧
  ∃ sys sys', system_run demo_len demo_bytes demo_steps (mkSystem [] demo_store) = Some sys ∧
    version (shared sys) = 2 ∧
    input_mode (settings (shared sys)) = Settings.PinnedInteractive ∧
    system_step demo_len demo_bytes (Leave 0) sys = Some sys' ∧
    input_mode (settings (shared sys')) = Settings.Locked.
Proof.
  split; [vm_compute; reflexivity|].
  destruct (shared_store_linear demo_len demo_bytes OverlaySettings_default demo_store demo_steps)
    as (sys & Hrun & _ & _ & Hleave); [vm_compute; reflexivity|].
  assert (Hsys := Hrun). vm_compute in Hsys. injection Hsys as Hsys.
  destruct (Hleave 0%nat (mkSession demo_overlay 2)) as (sys' & Hstep & Hlock);
    [by rewrite <- Hsys|reflexivity|by rewrite <- Hsys|].
  exists sys, sys'. split; [exact Hrun|]. split; [by rewrite <- Hsys|]. split; [by rewrite <- Hsys|].
  split; [exact Hstep|exact Hlock].
Defined.
