(* ===== verification/Pipeline.v ===== *)
(** * The agent's publishing pipeline

    Models [crates/pal-agent]: [pipeline.rs] (an observation of the selected player
    becomes the next envelope of the latest-telemetry cell), [health.rs] and
    [metrics.rs] (the counters), and the polling loop of [poller.rs]. Random bytes,
    clocks and the answers of the REST source are arguments; the health monitor, which
    the poller and the pipeline share, is a state passed along. *)

From S2P Require Import Prelude Floats Settings Position BootFilter Wire Latest.

(** ** Health *)

(** [RestError], without the payload of the errors that are classified as one. *)
Inductive RestError :=
| InvalidSelector | InvalidWorldAlias | SelectedPlayerMissing | SelectedPlayerAmbiguous
| SelectedPlayerInactive | ReDecode | InvalidEndpoint | EndpointNotAllowed | InvalidClientConfig
| ConnectionUntrusted | Unauthorized | RedirectRejected | CompressionNotAllowed
| ContentTypeRejected | ResponseTooLarge | ReTimeout | ReTransport | UnexpectedStatus (status : N).

Inductive HealthErrorKind :=
| SelectionMissing | SelectionInactive | SelectionAmbiguous | Authentication | HkTimeout | HkDecode
| Policy | HkTransport | Publication.

Record AgentMetrics := mkMetrics {
  successful_polls : N;
  failed_polls : N;
  emitted_samples : N;
  publish_failures : N;
}.
#[export] Instance eta_AgentMetrics : Eta AgentMetrics := λ m,
  mkMetrics (successful_polls m) (failed_polls m) (emitted_samples m) (publish_failures m).

(** [HealthMonitor] with the [HealthState] inside its mutex. *)
Record HealthMonitor := mkHealth {
  metrics : AgentMetrics;
  consecutive_failures : N;
  last_error : option HealthErrorKind;
}.
#[export] Instance eta_HealthMonitor : Eta HealthMonitor := λ h,
  mkHealth (metrics h) (consecutive_failures h) (last_error h).

Definition HealthMonitor_default : HealthMonitor := mkHealth (mkMetrics 0 0 0 0) 0 None.

Definition classify (error : RestError) : HealthErrorKind :=
  match error with
  | SelectedPlayerMissing => SelectionMissing
  | SelectedPlayerInactive => SelectionInactive
  | SelectedPlayerAmbiguous => SelectionAmbiguous
  | Unauthorized => Authentication
  | ReTimeout => HkTimeout
  | ReDecode => HkDecode
  | InvalidSelector | InvalidWorldAlias | InvalidEndpoint | EndpointNotAllowed
  | InvalidClientConfig | ConnectionUntrusted | RedirectRejected | CompressionNotAllowed
  | ContentTypeRejected | ResponseTooLarge => Policy
  | ReTransport | UnexpectedStatus _ => HkTransport
  end.

Definition record_poll_success (self : HealthMonitor) : HealthMonitor :=
  self <| metrics ::= λ m, m <| successful_polls ::= increment |> |>
       <| consecutive_failures := 0 |> <| last_error := None |>.

Definition record_poll_failure (self : HealthMonitor) (error : RestError) : HealthMonitor :=
  self <| metrics ::= λ m, m <| failed_polls ::= increment |> |>
       <| consecutive_failures ::= increment |> <| last_error := Some (classify error) |>.

Definition record_emitted (self : HealthMonitor) : HealthMonitor :=
  self <| metrics ::= λ m, m <| emitted_samples ::= increment |> |>.

Definition record_publish_failure (self : HealthMonitor) : HealthMonitor :=
  self <| metrics ::= λ m, m <| publish_failures ::= increment |> |>
       <| consecutive_failures ::= increment |> <| last_error := Some Publication |>.

Record HealthSnapshot := mkHealthSnapshot {
  degraded : bool;
  hs_metrics : AgentMetrics;
  hs_consecutive_failures : N;
  hs_last_error : option HealthErrorKind;
}.

Definition health_snapshot (self : HealthMonitor) : HealthSnapshot :=
  mkHealthSnapshot (0 <? consecutive_failures self) (metrics self) (consecutive_failures self)
    (last_error self).

(** ** Subject digests *)

Definition hex_nibble (value : N) : option N :=
  if (48 <=? value) && (value <=? 57) then Some (value - 48)
  else if (97 <=? value) && (value <=? 102) then Some (value - 97 + 10) else None.

(** The loop over [chunks_exact(2)]. *)
Fixpoint decode_pairs (digits : list N) : option bytes :=
  match digits with
  | high :: low :: digits =>
      h ← hex_nibble high;
      l ← hex_nibble low;
      rest ← decode_pairs digits;
      Some (byte_of (N.lor (N.shiftl h 4) l) :: rest)
  | _ => Some []
  end.

Definition decode_sha256 (value : string) : option bytes :=
  if negb (str_len value =? 64) || negb (str_all canonical_digit value) then None
  else decode_pairs (str_bytes value).

(** ** The pipeline *)

Record SafePlayerObservation := mkObservation {
  observed_subject_id : string;
  obs_x : f64;
  obs_y : f64;
  obs_z : f64;
  obs_heading_degrees : option f32;
  obs_server_fps : f64;
  obs_average_server_fps : f64;
  obs_actor_count : N;
}.

(** Nanoseconds: the wall clock since the Unix epoch, and the monotonic clock. *)
Record TimedResponse := mkTimed {
  value : SafePlayerObservation;
  rest_completed_at : Z;
  completed_monotonic : N;
}.

Inductive PipelineError :=
| InvalidConfiguration | RandomUnavailable | PublisherUnavailable | IdentityMismatch
| SequenceExhausted | InvalidTimestamp | PublisherRejected.

Record AgentPipeline := mkPipeline {
  pl_world_alias : string;
  pl_subject_id : bytes;
  pl_profile : string;
  rotation_z_validated : bool;
  pl_boot_id : bytes;
  next_sequence : N;
  pl_generation : N;
  latest : LatestTelemetry;
}.
#[export] Instance eta_AgentPipeline : Eta AgentPipeline := λ p,
  mkPipeline (pl_world_alias p) (pl_subject_id p) (pl_profile p) (rotation_z_validated p)
    (pl_boot_id p) (next_sequence p) (pl_generation p) (latest p).

(** [random] is what [getrandom::fill] puts into sixteen bytes, or its failure. *)
Definition AgentPipeline_new (world_alias : string) (subject_id : bytes) (profile : string)
    (rotation_z_validated : bool) (latest : LatestTelemetry) (random : option bytes) :
    result AgentPipeline PipelineError :=
  let? subject_id := (if len subject_id =? 32 then Ok subject_id else Err InvalidConfiguration) in
  if negb (is_bound_to latest world_alias subject_id profile) then Err InvalidConfiguration
  else
    let? boot_id := ok_or random RandomUnavailable in
    if bool_decide (boot_id = replicate 16 Byte.x00) then Err RandomUnavailable
    else
      match connect latest 1 with
      | (LcAccepted, latest) =>
          Ok (mkPipeline world_alias subject_id profile rotation_z_validated boot_id 1 1 latest)
      | _ => Err PublisherUnavailable
      end.

(** Milliseconds of a wall-clock time, as a positive [i64]. *)
Definition unix_millis (completed_at : Z) : result Z PipelineError :=
  if (completed_at <? 0)%Z then Err InvalidTimestamp
  else
    let ms := (completed_at / 1000000)%Z in
    if (i64_max <? ms)%Z then Err InvalidTimestamp
    else if (ms <=? 0)%Z then Err InvalidTimestamp else Ok ms.

Definition age_millis (now completed : N) : N := N.min ((now - completed) / 1000000) u32_max.

Definition emitted_heading (self : AgentPipeline) (observation : SafePlayerObservation) :
    option f32 * Z :=
  if rotation_z_validated self then
    match obs_heading_degrees observation with Some heading => (Some heading, 1%Z) | None => (None, 0%Z) end
  else (None, 0%Z).

Definition next_envelope (self : AgentPipeline) (response : TimedResponse) (completed_ms : Z)
    (age : N) (trace_id : bytes) : SubscribeResponse :=
  let '(heading, source) := emitted_heading self (value response) in {|
  protocol_version := PROTOCOL_VERSION;
  Wire.world_alias := pl_world_alias self;
  Wire.subject_id := pl_subject_id self;
  boot_id := pl_boot_id self;
  sequence := next_sequence self;
  rest_completed_at_unix_ms := completed_ms;
  age_at_emit_ms := age;
  position_x := obs_x (value response);
  position_y := obs_y (value response);
  position_z := obs_z (value response);
  heading_degrees := heading;
  heading_source := source;
  trace_id := trace_id;
  coordinate_space := 1;
  coordinate_profile_sha256 := pl_profile self |}.

(** [now] is the monotonic clock at the emission. *)
Definition emit_inner (self : AgentPipeline) (health : HealthMonitor) (response : TimedResponse)
    (now : N) (random : option bytes) : result unit PipelineError * AgentPipeline * HealthMonitor :=
  match decode_sha256 (observed_subject_id (value response)) with
  | None => (Err IdentityMismatch, self, health)
  | Some observed_subject =>
      if negb (bool_decide (observed_subject = pl_subject_id self)) then (Err IdentityMismatch, self, health)
      else if next_sequence self =? u64_max then (Err SequenceExhausted, self, health)
      else
        match unix_millis (rest_completed_at response) with
        | Err e => (Err e, self, health)
        | Ok completed_ms =>
            match random with
            | None => (Err RandomUnavailable, self, health)
            | Some trace_id =>
                let envelope := next_envelope self response completed_ms
                                  (age_millis now (completed_monotonic response)) trace_id in
                match publish (latest self) (pl_generation self) envelope with
                | (Err _, l) => (Err PublisherUnavailable, self <| latest := l |>, health)
                | (Ok (LpAccepted | LpAcceptedWithGap _), l) =>
                    (Ok tt, self <| latest := l |> <| next_sequence ::= λ n, saturating_add n 1 |>,
                      record_emitted health)
                | (Ok _, l) => (Err PublisherRejected, self <| latest := l |>, health)
                end
            end
        end
  end.

Definition emit (self : AgentPipeline) (health : HealthMonitor) (response : TimedResponse)
    (now : N) (random : option bytes) : result unit PipelineError * AgentPipeline * HealthMonitor :=
  match emit_inner self health response now random with
  | (Err e, self, health) => (Err e, self, record_publish_failure health)
  | ok => ok
  end.

(** ** The poller *)

Inductive PollerExit := Shutdown | TrustLost.

Definition poll_interval_ok (interval_ms : N) : bool := contains [500; 1000; 2000] interval_ms.

(** What a [select!] gives: a tick or the data, or a change of the shutdown watch, which
    says whether to stop. *)
Inductive Selected (A : Type) := Ready (a : A) | Changed (stop : bool).
Arguments Ready {A} a.
Arguments Changed {A} stop.

(** One turn of the loop, with what its awaits, checks and clocks give. *)
Record PollTurn := mkTurn {
  tick : Selected unit;
  trusted_before : bool;
  game_data : Selected (result TimedResponse RestError);
  trusted_after : bool;
  turn_now : N;
  turn_random : option bytes;
}.

Definition is_untrusted (result : result TimedResponse RestError) : bool :=
  match result with Err ConnectionUntrusted => true | _ => false end.

Definition poll_turn (turn : PollTurn) (self : AgentPipeline) (health : HealthMonitor) :
    option PollerExit * AgentPipeline * HealthMonitor :=
  match tick turn with
  | Changed stop => (if stop then Some Shutdown else None, self, health)
  | Ready _ =>
      if negb (trusted_before turn) then (Some TrustLost, self, health)
      else
        match game_data turn with
        | Changed stop => (if stop then Some Shutdown else None, self, health)
        | Ready result =>
            if is_untrusted result then (Some TrustLost, self, health)
            else if negb (trusted_after turn) then (Some TrustLost, self, health)
            else
              match result with
              | Ok sample =>
                  let health := record_poll_success health in
                  let '(_, self, health) := emit self health sample (turn_now turn) (turn_random turn) in
                  (None, self, health)
              | Err error => (None, self, record_poll_failure health error)
              end
        end
  end.

(** The loop; [None] is still running. *)
Fixpoint poll_run (turns : list PollTurn) (self : AgentPipeline) (health : HealthMonitor) :
    option PollerExit * AgentPipeline * HealthMonitor :=
  match turns with
  | [] => (None, self, health)
  | turn :: turns =>
      match poll_turn turn self health with
      | (None, self, health) => poll_run turns self health
      | stopped => stopped
      end
  end.

(** ** The identity of a remote source *)

Definition REMOTE_IDENTITY_RECHECK_INTERVAL : N := 30000000000.

Record SanitizedServerInfo := mkServerInfo { info_version : string; server_subject_id : string }.
#[export] Instance SanitizedServerInfo_eq_dec : EqDecision SanitizedServerInfo.
Proof. solve_decision. Defined.

Record RemoteIdentityCheck := mkIdentityCheck { expected : SanitizedServerInfo; last_verified : N }.

Definition is_due (self : RemoteIdentityCheck) (now : N) : bool :=
  REMOTE_IDENTITY_RECHECK_INTERVAL <=? now - last_verified self.

Definition confirm (self : RemoteIdentityCheck) (current : SanitizedServerInfo) (now : N) :
    result unit RestError * RemoteIdentityCheck :=
  if negb (bool_decide (current = expected self)) then (Err ConnectionUntrusted, self)
  else (Ok tt, mkIdentityCheck (expected self) now).

(** [revalidate_remote_identity_if_due]: [info] is the answer of the endpoint, read when
    the check is due. *)
Definition revalidate_remote_identity_if_due (self : RemoteIdentityCheck) (now : N)
    (info : result SanitizedServerInfo RestError) (confirmed_at : N) :
    result unit RestError * RemoteIdentityCheck :=
  if negb (is_due self now) then (Ok tt, self)
  else
    match info with
    | Err e => (Err e, self)
    | Ok current => confirm self current confirmed_at
    end.

(** ** Lemmas: digests *)

Definition hex_digit (n : N) : N := if n <? 10 then 48 + n else 87 + n.

(** The digits [decode_sha256] reads back. *)
Definition hex (bs : bytes) : list N :=
  flat_map (λ b, [hex_digit (Byte.to_N b / 16); hex_digit (Byte.to_N b mod 16)]) bs.

Lemma hex_nibble_some d n : hex_nibble d = Some n ↔ d = hex_digit n ∧ n < 16.
Proof.
  unfold hex_nibble, hex_digit.
  destruct (N.leb_spec 48 d), (N.leb_spec d 57), (N.leb_spec 97 d), (N.leb_spec d 102), (N.ltb_spec n 10);
    simpl; (split; [intros ?; simplify_eq|intros [??]]); try (split; lia); try lia; try (f_equal; lia).
Qed.

Lemma nibbles_byte h l :
  h < 16 → l < 16 → Byte.to_N (byte_of (N.lor (N.shiftl h 4) l)) = 16 * h + l.
Proof.
  intros Hh Hl.
  assert (forallb (λ h, forallb (λ l, Byte.to_N (byte_of (N.lor (N.shiftl h 4) l)) =? 16 * h + l)
    (map N.of_nat (seq 0 16))) (map N.of_nat (seq 0 16)) = true) as H by (vm_compute; reflexivity).
  rewrite forallb_forall in H.
  assert (∀ n, n < 16 → In n (map N.of_nat (seq 0 16))) as Hin.
  { intros n Hn. apply in_map_iff. exists (N.to_nat n). split; [lia|]. apply in_seq. lia. }
  specialize (H h (Hin h Hh)). rewrite forallb_forall in H. specialize (H l (Hin l Hl)).
  by apply N.eqb_eq in H.
Qed.

Lemma byte_nibbles b : byte_of (N.lor (N.shiftl (Byte.to_N b / 16) 4) (Byte.to_N b mod 16)) = b.
Proof. by destruct b. Qed.

Lemma decode_pairs_hex bs : decode_pairs (hex bs) = Some bs.
Proof.
  induction bs as [|b bs IH]; [done|]. cbn [hex flat_map app decode_pairs]. fold (hex bs).
  assert (hex_nibble (hex_digit (Byte.to_N b / 16)) = Some (Byte.to_N b / 16)) as -> by (by destruct b).
  assert (hex_nibble (hex_digit (Byte.to_N b mod 16)) = Some (Byte.to_N b mod 16)) as -> by (by destruct b).
  cbn [mbind option_bind]. rewrite IH. cbn [mbind option_bind]. by rewrite byte_nibbles.
Qed.

Lemma decode_pairs_some n digits bs :
  length digits = (2 * n)%nat → decode_pairs digits = Some bs → digits = hex bs ∧ length bs = n.
Proof.
  revert digits bs. induction n as [|n IH]; intros digits bs Hl H.
  { destruct digits; [|done]. by injection H as <-. }
  destruct digits as [|d1 [|d2 digits]]; simpl in Hl; [lia|lia|]. cbn [decode_pairs] in H.
  destruct (hex_nibble d1) as [h|] eqn:Hh; [|done]. destruct (hex_nibble d2) as [l|] eqn:Hlo; [|done].
  cbn [mbind option_bind] in H. destruct (decode_pairs digits) as [rest|] eqn:Hr; [|done].
  cbn [mbind option_bind] in H. injection H as <-.
  destruct (IH digits rest) as [-> Hlen]; [lia|done|].
  apply hex_nibble_some in Hh as [-> Hh]. apply hex_nibble_some in Hlo as [-> Hlo].
  cbn [hex flat_map app length]. fold (hex rest). rewrite nibbles_byte by done. split; [|by rewrite Hlen].
  replace ((16 * h + l) / 16) with h by (rewrite N.mul_comm, N.div_add_l, (N.div_small l) by lia; lia).
  replace ((16 * h + l) mod 16) with l; [done|].
  by rewrite N.add_comm, N.mul_comm, N.Div0.mod_add, N.mod_small.
Qed.

Lemma decode_sha256_hex v bs : decode_sha256 v = Some bs ↔ str_bytes v = hex bs ∧ len bs = 32.
Proof.
  assert (length (str_bytes v) = String.length v) as Hl.
  { unfold str_bytes. rewrite length_map. induction v as [|c v IH]; simpl; [done|by rewrite IH]. }
  unfold decode_sha256, str_len. split.
  - intros H. destruct (N.eqb_spec (N.of_nat (String.length v)) 64); [|done].
    destruct (str_all canonical_digit v); [|done]. simpl in H.
    apply (decode_pairs_some 32) in H as [? ?]; [|lia]. split; [done|]. unfold len. lia.
  - intros [Hv Hlen]. assert (length (hex bs) = 2 * length bs)%nat as Hh.
    { clear. induction bs as [|b bs IH]; [done|]. cbn [hex flat_map app length]. fold (hex bs). lia. }
    rewrite <- Hl, Hv, Hh. destruct (N.eqb_spec (N.of_nat (2 * length bs)) 64); [|unfold len in Hlen; lia].
    cbn [negb orb]. unfold str_all. rewrite Hv.
    assert (forallb canonical_digit (hex bs) = true) as ->; [|apply decode_pairs_hex].
    clear. induction bs as [|b bs IH]; [done|]. cbn [hex flat_map app forallb]. fold (hex bs).
    rewrite IH, andb_true_r. by destruct b.
Qed.

(** ** Invariant *)

(** A pipeline that publishes alone into a cell it opened. *)
Record pipeline_inv (p : AgentPipeline) : Prop := {
  pi_identity : expected_world_alias (latest p) = pl_world_alias p ∧
    expected_subject_id (latest p) = pl_subject_id p ∧
    expected_coordinate_profile_sha256 (latest p) = pl_profile p;
  pi_open : closed (latest p) = false;
  pi_generation : pl_generation p = 1 ∧ Latest.generation (latest p) = 1;
  pi_boot : active_boot_id (latest p) = None ∨ active_boot_id (latest p) = Some (pl_boot_id p);
  pi_retired : filter_contains (retired_boots (latest p)) (pl_boot_id p) = false;
  pi_sequence : 1 ≤ next_sequence p ≤ u64_max;
  pi_published :
    match current (latest p) with
    | None => next_sequence p = 1 ∧ last_sequence (latest p) = None
    | Some e => last_sequence (latest p) = Some (sequence e) ∧ next_sequence p = sequence e + 1 ∧
        1 ≤ sequence e ∧ boot_id e = pl_boot_id p
    end;
  pi_lengths : len (pl_boot_id p) = 16 ∧ len (pl_subject_id p) = 32;
  pi_valid : pl_world_alias p ≠ "" ∧ str_len (pl_world_alias p) ≤ 64 ∧
    str_is_ascii (pl_world_alias p) = true ∧ canonical_sha256 (pl_profile p);
}.

(** What an emission needs of its response. *)
Definition publishable (p : AgentPipeline) (r : TimedResponse) (random : option bytes) : Prop :=
  str_bytes (observed_subject_id (value r)) = hex (pl_subject_id p) ∧
  next_sequence p < u64_max ∧ is_ok (unix_millis (rest_completed_at r)) = true ∧ random ≠ None ∧
  is_finite (obs_x (value r)) = true ∧ is_finite (obs_y (value r)) = true ∧
  is_finite (obs_z (value r)) = true ∧
  (∀ h, rotation_z_validated p = true → obs_heading_degrees (value r) = Some h →
     in_range_excl (f32_lit 0 1) (f32_lit 360 1) h = true ∧ is_finite h = true).

Lemma unix_millis_ok t ms : unix_millis t = Ok ms → (0 < ms ≤ i64_max)%Z.
Proof.
  unfold unix_millis. destruct (Z.ltb_spec t 0); [done|].
  destruct (Z.ltb_spec i64_max (t / 1000000)); [done|].
  destruct (Z.leb_spec (t / 1000000) 0); [done|]. intros [= <-]. lia.
Qed.

Lemma next_envelope_valid p r ms age trace :
  pipeline_inv p → len trace = 16 → (0 < ms)%Z →
  valid_envelope (next_envelope p r ms age trace) (pl_profile p) ↔
  is_finite (obs_x (value r)) = true ∧ is_finite (obs_y (value r)) = true ∧
  is_finite (obs_z (value r)) = true ∧
  (∀ h, rotation_z_validated p = true → obs_heading_degrees (value r) = Some h →
     in_range_excl (f32_lit 0 1) (f32_lit 360 1) h = true ∧ is_finite h = true).
Proof.
  intros [_ _ _ _ _ Hseq _ [Hboot Hsub] (Ha1 & Ha2 & Ha3 & Hprof)] Htrace Hms. split.
  - intros Hv. pose proof (env_position _ _ Hv) as Hp. pose proof (env_heading _ _ Hv) as Hh.
    unfold next_envelope, emitted_heading in Hp, Hh. clear Hv. revert Hp Hh.
    destruct (rotation_z_validated p); [destruct (obs_heading_degrees (value r)) as [h|]|]; cbn;
      intros (? & ? & ?) Hh; (split; [done|]); (split; [done|]); (split; [done|]); try done.
    intros h' _ [= <-]. by destruct Hh as [[? _]|(? & [= <-] & ? & ? & _)].
  - intros (Hx & Hy & Hz & Hh). unfold next_envelope, emitted_heading.
    destruct (rotation_z_validated p); [destruct (obs_heading_degrees (value r)) as [h|]|];
      (constructor; cbn [protocol_version Wire.world_alias Wire.subject_id boot_id trace_id sequence
        rest_completed_at_unix_ms position_x position_y position_z heading_degrees heading_source
        coordinate_space coordinate_profile_sha256]; try done; try lia; try (by left)).
    right. exists h. destruct (Hh h eq_refl eq_refl) as [? ?]. split; [done|]. split; [done|].
    split; [done|by left].
Qed.

Lemma next_envelope_fields p r ms age trace :
  let e := next_envelope p r ms age trace in
  Wire.world_alias e = pl_world_alias p ∧ Wire.subject_id e = pl_subject_id p ∧
  boot_id e = pl_boot_id p ∧ sequence e = next_sequence p.
Proof. unfold next_envelope. by destruct (emitted_heading p (value r)). Qed.

(** A valid envelope of the pipeline is never dropped by its cell. *)
Lemma publish_next p e :
  pipeline_inv p → valid_envelope e (pl_profile p) →
  Wire.world_alias e = pl_world_alias p → Wire.subject_id e = pl_subject_id p →
  boot_id e = pl_boot_id p → sequence e = next_sequence p →
  ∃ d, publish (latest p) (pl_generation p) e =
    (Ok LpAccepted, (latest p) <| diagnostics := d |> <| active_boot_id := Some (pl_boot_id p) |>
       <| last_sequence := Some (sequence e) |> <| signal := Open (Some e) |>).
Proof.
  intros [(Hw & Hs & Hp) Hopen [Hg1 Hg2] Hboot Hret Hseq Hpub [Hb _] _] Hv Ew Es Eb Eq.
  unfold publish. rewrite Hp, (proj2 (validate_envelope_ok e _) Hv), Hopen.
  unfold publish_drop. rewrite Ew, Es, Hw, Hs, String.eqb_refl, bool_decide_eq_true_2, Hg1, Hg2 by done.
  cbn [negb orb]. replace (1 =? 0) with false by done. replace (1 <? 1) with false by done.
  replace (1 =? 1) with true by done. cbn [negb].
  unfold try_into_array. rewrite Eb, Hb, N.eqb_refl, Hret.
  assert (is_some_and (active_boot_id (latest p)) (λ active, negb (bool_decide (active = pl_boot_id p))) = false)
    as -> by (destruct Hboot as [->| ->]; [done|]; simpl; by rewrite bool_decide_eq_true_2).
  unfold sequence_outcome.
  destruct (current (latest p)) as [c|].
  - destruct Hpub as (Hl & Hn & Hc & _). rewrite Hl.
    destruct (N.eqb_spec (sequence e) (sequence c)); [lia|].
    destruct (N.ltb_spec (sequence e) (sequence c)); [lia|].
    assert (saturating_add (sequence c) 1 = sequence c + 1) as -> by (clear -Hn Hseq; int_lia).
    destruct (N.ltb_spec (sequence c + 1) (sequence e)); [lia|]. by eexists.
  - destruct Hpub as [_ ->]. by eexists.
Qed.

Lemma publish_invalid p e :
  pipeline_inv p → ¬ valid_envelope e (pl_profile p) →
  publish (latest p) (pl_generation p) e = (Err Validation, latest p).
Proof.
  intros [(_ & _ & Hp) _ _ _ _ _ _ _ _] Hv. unfold publish. rewrite Hp.
  destruct (validate_envelope e (pl_profile p)) as [[]|] eqn:H; [|done].
  by apply validate_envelope_ok in H.
Qed.

(** What the published envelope says of the observation. *)
Definition envelope_of (p : AgentPipeline) (r : TimedResponse) (e : SubscribeResponse) : Prop :=
  sequence e = next_sequence p ∧ boot_id e = pl_boot_id p ∧
  Wire.world_alias e = pl_world_alias p ∧ Wire.subject_id e = pl_subject_id p ∧
  position_x e = obs_x (value r) ∧ position_y e = obs_y (value r) ∧ position_z e = obs_z (value r) ∧
  heading_degrees e = (if rotation_z_validated p then obs_heading_degrees (value r) else None) ∧
  Ok (rest_completed_at_unix_ms e) = unix_millis (rest_completed_at r).

(** Why an emission fails. *)
Definition emit_failure (p : AgentPipeline) (r : TimedResponse) (random : option bytes)
    (e : PipelineError) : Prop :=
  match e with
  | IdentityMismatch => str_bytes (observed_subject_id (value r)) ≠ hex (pl_subject_id p)
  | SequenceExhausted => next_sequence p = u64_max
  | InvalidTimestamp => unix_millis (rest_completed_at r) = Err InvalidTimestamp
  | RandomUnavailable => random = None
  | PublisherUnavailable =>
      is_finite (obs_x (value r)) = false ∨ is_finite (obs_y (value r)) = false ∨
      is_finite (obs_z (value r)) = false ∨
      (∃ h, rotation_z_validated p = true ∧ obs_heading_degrees (value r) = Some h ∧
         ¬ (in_range_excl (f32_lit 0 1) (f32_lit 360 1) h = true ∧ is_finite h = true))
  | InvalidConfiguration | PublisherRejected => False
  end.

Lemma published_inv p e d :
  pipeline_inv p → boot_id e = pl_boot_id p → sequence e = next_sequence p → next_sequence p < u64_max →
  pipeline_inv (p <| latest := (latest p) <| diagnostics := d |> <| active_boot_id := Some (pl_boot_id p) |>
       <| last_sequence := Some (sequence e) |> <| signal := Open (Some e) |> |>
    <| next_sequence ::= λ n, saturating_add n 1 |>).
Proof.
  intros [H1 H2 H3 H4 H5 H6 H7 H8 H9] Hb Hs Hlt.
  assert (saturating_add (next_sequence p) 1 = next_sequence p + 1) as Hn by (clear -Hlt; int_lia).
  constructor; cbn; rewrite ?Hn; try done; [by right|lia|]. rewrite Hs. split; [done|]. split; [done|].
  split; [lia|done].
Qed.

Lemma not_valid_failure p r ms age trace random :
  pipeline_inv p → len trace = 16 → (0 < ms)%Z →
  ¬ valid_envelope (next_envelope p r ms age trace) (pl_profile p) →
  emit_failure p r random PublisherUnavailable.
Proof.
  intros Hi Ht Hms Hn. rewrite next_envelope_valid in Hn by done. simpl.
  destruct (is_finite (obs_x (value r))); [|by left]. right.
  destruct (is_finite (obs_y (value r))); [|by left]. right.
  destruct (is_finite (obs_z (value r))); [|by left]. right.
  destruct (rotation_z_validated p) eqn:Hr; [|destruct Hn; split_and!; done].
  destruct (obs_heading_degrees (value r)) as [h|] eqn:Hh; [|destruct Hn; split_and!; done].
  exists h. split; [done|]. split; [done|]. intros Hok. apply Hn. split_and!; try done.
  by intros ? _ [= <-].
Qed.

Lemma subject_matches p r :
  pipeline_inv p →
  match decode_sha256 (observed_subject_id (value r)) with
  | Some s => s = pl_subject_id p ↔ str_bytes (observed_subject_id (value r)) = hex (pl_subject_id p)
  | None => str_bytes (observed_subject_id (value r)) ≠ hex (pl_subject_id p)
  end.
Proof.
  intros Hi. destruct (pi_lengths _ Hi) as [_ Hlen].
  destruct (decode_sha256 (observed_subject_id (value r))) as [s|] eqn:Hd.
  - pose proof (proj1 (decode_sha256_hex _ _) Hd) as [Hs _]. split; [by intros <-|]. intros E.
    assert (decode_sha256 (observed_subject_id (value r)) = Some (pl_subject_id p)) as Hp
      by (by apply decode_sha256_hex).
    congruence.
  - intros E. by rewrite (proj2 (decode_sha256_hex _ (pl_subject_id p)) (conj E Hlen)) in Hd.
Qed.

Lemma emit_inner_spec p health r now random :
  pipeline_inv p → (∀ t, random = Some t → len t = 16) →
  let '(res, p', health') := emit_inner p health r now random in
  pipeline_inv p' ∧
  match res with
  | Ok _ => publishable p r random ∧ health' = record_emitted health ∧
      (∃ l e, p' = p <| latest := l |> <| next_sequence := next_sequence p + 1 |> ∧
         current l = Some e ∧ envelope_of p r e)
  | Err err => emit_failure p r random err ∧ p' = p ∧ health' = health
  end.
Proof.
  intros Hi Hrandom. unfold emit_inner. pose proof (subject_matches p r Hi) as Hsub.
  destruct (decode_sha256 (observed_subject_id (value r))) as [s|]; [|done].
  case_bool_decide as Hs; cbn [negb].
  2: { split; [done|]. split; [|done]. simpl. by rewrite <- Hsub. }
  apply Hsub in Hs. destruct (N.eqb_spec (next_sequence p) u64_max) as [Hmax|Hmax]; [done|].
  destruct (unix_millis (rest_completed_at r)) as [ms|e] eqn:Hms.
  2: { split; [done|]. split; [|done]. assert (e = InvalidTimestamp) as -> by
         (unfold unix_millis in Hms; by repeat step_if_in Hms; simplify_eq). done. }
  destruct random as [trace|]; [|done]. specialize (Hrandom trace eq_refl).
  pose proof (unix_millis_ok _ _ Hms) as Hpos.
  set (e := next_envelope p r ms (age_millis now (completed_monotonic r)) trace).
  destruct (next_envelope_fields p r ms (age_millis now (completed_monotonic r)) trace) as (E1 & E2 & E3 & E4).
  fold e in E1, E2, E3, E4.
  destruct (validate_envelope e (pl_profile p)) as [[]|err] eqn:Hv.
  - apply validate_envelope_ok in Hv. destruct (publish_next p e Hi Hv E1 E2 E3 E4) as [d ->].
    assert (next_sequence p < u64_max) as Hlt by (pose proof (pi_sequence _ Hi); lia).
    split; [by apply published_inv|]. split; [|split; [done|]].
    + unfold e in Hv. rewrite next_envelope_valid in Hv by (done || lia).
      destruct Hv as (? & ? & ? & ?). unfold publishable. rewrite Hms. by split_and!.
    + eexists _, e. split; [|split].
      * cbv [modify_field]. assert (saturating_add (next_sequence p) 1 = next_sequence p + 1) as Hn by (clear -Hlt; int_lia).
        cbn. rewrite Hn. reflexivity.
      * reflexivity.
      * unfold envelope_of. rewrite Hms. split_and!; try done; unfold e, next_envelope, emitted_heading;
          (destruct (rotation_z_validated p); [destruct (obs_heading_degrees (value r))|]); done.
  - assert (¬ valid_envelope e (pl_profile p)) as Hn by (intros H%validate_envelope_ok; congruence).
    rewrite (publish_invalid p e Hi Hn). replace (p <| latest := latest p |>) with p by (by destruct p).
    split; [done|]. split; [|done]. eapply not_valid_failure; [done|done| |done]. lia.
Qed.

Lemma emit_failure_not_publishable p r random e :
  emit_failure p r random e → ¬ publishable p r random.
Proof.
  intros Hf (H1 & H2 & H3 & H4 & H5 & H6 & H7 & H8). destruct e; simpl in Hf; try done; try lia.
  - rewrite H5, H6, H7 in Hf. destruct Hf as [?|[?|[?|(h & Hr & Hh & Hn)]]]; try done. by apply Hn, H8.
  - by rewrite Hf in H3.
Qed.

Lemma new_pipeline_inv w s profile l0 rotation random p :
  Latest.new w s profile = Ok l0 → (∀ b, random = Some b → len b = 16) →
  AgentPipeline_new w s profile rotation l0 random = Ok p →
  pipeline_inv p ∧ next_sequence p = 1 ∧ current (latest p) = None.
Proof.
  intros Hl Hr. pose proof Hl as Hn. unfold Latest.new in Hn.
  apply and_then_ok in Hn as (s' & [-> Hlen]%try_into_array_ok & Hn).
  apply and_then_ok in Hn as ([] & Hv%map_err_ok & [= <-]). apply validate_envelope_ok in Hv.
  unfold AgentPipeline_new. intros (s1 & Hs1 & H)%and_then_ok.
  destruct (N.eqb_spec (len s) 32); [|done]. injection Hs1 as <-.
  destruct (is_bound_to _ _ _ _) eqn:Hb; [|done]. cbn [negb] in H.
  apply and_then_ok in H as (b & Hrb%ok_or_ok & H). case_bool_decide; [done|].
  unfold connect in H. cbn in H. injection H as <-.
  destruct Hv as [_ Ha _ _ _ _ _ _ _ _ [_ Hp]]. cbn in Ha.
  split; [|done]. constructor; cbn -[filter_contains]; try done; try (by left).
  - apply filter_default_contains.
  - split; [by apply Hr|done].
  - destruct Ha as (? & ? & ?). done.
Qed.

(** ** The poller *)

(** What makes the loop stop in a turn. *)
Definition demands (t : PollTurn) (e : PollerExit) : Prop :=
  match e with
  | Shutdown =>
      tick t = Changed true ∨
      ((∃ u, tick t = Ready u) ∧ trusted_before t = true ∧ game_data t = Changed true)
  | TrustLost =>
      (∃ u, tick t = Ready u) ∧
      (trusted_before t = false ∨
       ∃ r, game_data t = Ready r ∧ (r = Err ConnectionUntrusted ∨ trusted_after t = false))
  end.

(** The counters after at most [k] finished polls. *)
Record poller_inv (k : N) (p : AgentPipeline) (h : HealthMonitor) : Prop := {
  po_pipeline : pipeline_inv p;
  po_polls : successful_polls (metrics h) + failed_polls (metrics h) ≤ k;
  po_accounted : emitted_samples (metrics h) + publish_failures (metrics h) = successful_polls (metrics h);
  po_sequence : next_sequence p = emitted_samples (metrics h) + 1;
  po_failures : consecutive_failures h ≤ k ∧ (0 < consecutive_failures h ↔ last_error h ≠ None);
}.

Lemma emit_spec p health r now random :
  pipeline_inv p → (∀ t, random = Some t → len t = 16) →
  let '(res, p', health') := emit p health r now random in
  pipeline_inv p' ∧
  match res with
  | Ok _ => publishable p r random ∧ health' = record_emitted health ∧
      (∃ l e, p' = p <| latest := l |> <| next_sequence := next_sequence p + 1 |> ∧
         current l = Some e ∧ envelope_of p r e)
  | Err err => emit_failure p r random err ∧ p' = p ∧ health' = record_publish_failure health
  end.
Proof.
  intros Hi Hr. pose proof (emit_inner_spec p health r now random Hi Hr) as H. unfold emit.
  destruct (emit_inner p health r now random) as [[[u|e] p'] h']; [done|].
  destruct H as (? & ? & ? & ->). done.
Qed.

Lemma poll_turn_spec k t p h :
  poller_inv k p h → (∀ b, turn_random t = Some b → len b = 16) → k < u64_max →
  match poll_turn t p h with
  | (Some e, p', h') => demands t e ∧ p' = p ∧ h' = h
  | (None, p', h') => (∀ e, ¬ demands t e) ∧ poller_inv (k + 1) p' h'
  end.
Proof.
  intros [Hp Hk Hacc Hseq [Hcf Hle]] Hrandom Hlt. unfold poll_turn.
  assert (poller_inv (k + 1) p h) as Hsame by (constructor; try done; [lia|]; split; [lia|done]).
  destruct (tick t) as [u|[]] eqn:Ht; [|by split; [left|]|].
  2: { split; [|done]. intros []; simpl; rewrite Ht; [by intros [?|[[? ?] _]]|by intros [[? ?] _]]. }
  destruct (trusted_before t) eqn:Hb; cbn [negb].
  2: { split; [|done]. split; [by exists u|by left]. }
  destruct (game_data t) as [res|[]] eqn:Hd.
  2: { split; [|done]. right. split; [by exists u|done]. }
  2: { split; [|done]. intros []; simpl; rewrite Ht, Hb, Hd.
       - by intros [?|(_ & _ & ?)].
       - by intros (_ & [?|(? & ? & _)]). }
  destruct (is_untrusted res) eqn:Hu.
  { split; [|done]. split; [by exists u|]. right. exists res. split; [done|]. left.
    by destruct res as [|[]]. }
  destruct (trusted_after t) eqn:Ha; cbn [negb].
  2: { split; [|done]. split; [by exists u|]. right. exists res. split; [done|by right]. }
  assert (∀ e, ¬ demands t e) as Hno.
  { intros e He. destruct e; simpl in He; rewrite Ht, Hb, Hd in He.
    - by destruct He as [?|(_ & _ & ?)].
    - destruct He as (_ & [?|(r & [= <-] & [->|?])]); [done|done|congruence]. }
  destruct res as [sample|error].
  - pose proof (emit_spec p (record_poll_success h) sample (turn_now t) (turn_random t) Hp Hrandom) as He.
    destruct (emit p (record_poll_success h) sample (turn_now t) (turn_random t)) as [[[[]|e] p'] h'].
    + destruct He as (Hp' & _ & -> & l & e & -> & _ & _). split; [exact Hno|].
      constructor; cbn [record_emitted record_poll_success metrics consecutive_failures last_error];
        try done; cbn -[N.add]; rewrite ?increment_exact by lia; try lia. split; [lia|]. split; [lia|done].
    + destruct He as (Hp' & _ & -> & ->). split; [exact Hno|].
      constructor; cbn -[N.add]; rewrite ?increment_exact by (unfold u64_max in *; lia); try done; try lia.
      split; [lia|]. split; [done|lia].
  - split; [exact Hno|].
    constructor; cbn -[N.add]; rewrite ?increment_exact by lia; try done; try lia.
    split; [lia|]. split; [done|lia].
Qed.

Lemma poll_run_spec k turns p h :
  poller_inv k p h → (∀ t b, t ∈ turns → turn_random t = Some b → len b = 16) →
  k + len turns < u64_max →
  let '(exit, p', h') := poll_run turns p h in
  poller_inv (k + len turns) p' h' ∧
  match exit with
  | None => ∀ t e, t ∈ turns → ¬ demands t e
  | Some e => ∃ t1 t t2, turns = t1 ++ t :: t2 ∧ demands t e ∧
      (∀ t' e', t' ∈ t1 → ¬ demands t' e') ∧ poll_run t1 p h = (None, p', h')
  end.
Proof.
  revert k p h. induction turns as [|t turns IH]; intros k p h Hi Hr Hk; cbn [poll_run].
  { unfold len. simpl. rewrite N.add_0_r. split; [done|]. by intros t e ?%elem_of_nil. }
  assert (len (t :: turns) = len turns + 1) as Hl by (unfold len; cbn [length]; lia). rewrite Hl in *.
  pose proof (poll_turn_spec k t p h Hi) as Ht. specialize (Ht (λ b, Hr t b (list_elem_of_here _ _)) ltac:(lia)).
  destruct (poll_turn t p h) as [[[e|] p1] h1] eqn:Hturn.
  - destruct Ht as (Hd & -> & ->). split.
    + destruct Hi as [? ? ? ? [? ?]]. constructor; try done; [lia|]. split; [lia|done].
    + exists [], t, turns. split; [done|]. split; [done|]. split; [by intros ? ? ?%elem_of_nil|done].
  - destruct Ht as [Hno Hi1]. specialize (IH (k + 1) p1 h1 Hi1).
    specialize (IH (λ t' b Hin, Hr t' b (list_elem_of_further _ _ _ Hin)) ltac:(lia)).
    destruct (poll_run turns p1 h1) as [[exit p'] h'] eqn:Hrun. destruct IH as [Hi' Hexit].
    replace (k + (len turns + 1)) with (k + 1 + len turns) by lia. split; [done|].
    destruct exit as [e|].
    + destruct Hexit as (t1 & t0 & t2 & -> & Hd & Hn & Hr1). exists (t :: t1), t0, t2.
      split; [done|]. split; [done|]. split.
      * intros t' e' [->|Hin]%elem_of_cons; [apply Hno|by apply Hn].
      * cbn [poll_run]. by rewrite Hturn.
    + intros t' e' [->|Hin]%elem_of_cons; [apply Hno|by apply Hexit].
Qed.

(** ** Properties *)

(** C12: an emission publishes the observation, exactly when it may. For a pipeline that
    publishes alone into the cell it opened, an emission succeeds precisely when the
    observation is of the configured player (its digest is the lower-case hexadecimal
    form of the subject), the clock and the random source work, the coordinates are
    finite and a validated heading is in range; then the cell shows the next sequence
    number with the coordinates of the observation, and the heading only if the profile
    validates it. The cell never drops it, and every error leaves the pipeline and what
    subscribers see as they were, names its reason and is counted. *)
Theorem emit_exact (p : AgentPipeline) (health : HealthMonitor) (r : TimedResponse) (now : N)
    (random : option bytes) :
  pipeline_inv p → (∀ t, random = Some t → len t = 16) →
  let '(res, p', health') := emit p health r now random in
  pipeline_inv p' ∧ (res = Ok tt ↔ publishable p r random) ∧
  match res with
  | Ok _ =>
      health' = record_emitted health ∧ next_sequence p' = next_sequence p + 1 ∧
      ∃ e, current (latest p') = Some e ∧ envelope_of p r e
  | Err err => emit_failure p r random err ∧ p' = p ∧ health' = record_publish_failure health
  end.
Proof.
  intros Hi Hr. pose proof (emit_spec p health r now random Hi Hr) as H.
  destruct (emit p health r now random) as [[[[]|e] p'] h']; destruct H as [Hi' H]; (split; [done|]).
  - destruct H as (Hp & -> & l & e & -> & Hc & He). split; [done|]. split; [done|]. split; [done|]. by exists e.
  - split; [|done]. split; [done|]. intros Hp. destruct H as [Hf _].
    by apply emit_failure_not_publishable in Hf.
Qed.

(** The poller accounts for every poll and stops when it must. Started on a fresh
    cell, whatever its ticks, its source and its trust checks give, it stops in the
    first turn that is told to shut down or finds its trust gone, and publishes
    nothing in that turn; until then every finished poll is counted once, every
    successful one is either the next sequence number or a publish failure, the cell
    shows the last number emitted, and the health is degraded exactly while the last
    poll failed. *)
Theorem poller_accounts (w : string) (s : bytes) (profile : string) (l0 : LatestTelemetry)
    (rotation : bool) (random : option bytes) (p : AgentPipeline) (turns : list PollTurn) :
  Latest.new w s profile = Ok l0 → (∀ b, random = Some b → len b = 16) →
  AgentPipeline_new w s profile rotation l0 random = Ok p →
  (∀ t b, t ∈ turns → turn_random t = Some b → len b = 16) → len turns < u64_max →
  let '(exit, p', h) := poll_run turns p HealthMonitor_default in
  match exit with
  | None => ∀ t e, t ∈ turns → ¬ demands t e
  | Some e => ∃ t1 t t2, turns = t1 ++ t :: t2 ∧ demands t e ∧
      (∀ t' e', t' ∈ t1 → ¬ demands t' e') ∧ poll_run t1 p HealthMonitor_default = (None, p', h)
  end ∧
  successful_polls (metrics h) + failed_polls (metrics h) ≤ len turns ∧
  emitted_samples (metrics h) + publish_failures (metrics h) = successful_polls (metrics h) ∧
  next_sequence p' = emitted_samples (metrics h) + 1 ∧
  match current (latest p') with
  | None => emitted_samples (metrics h) = 0
  | Some e => sequence e = emitted_samples (metrics h) ∧ boot_id e = pl_boot_id p'
  end ∧
  (degraded (health_snapshot h) = true ↔ last_error h ≠ None).
Proof.
  intros Hl Hb Hn Hr Hlen. destruct (new_pipeline_inv _ _ _ _ _ _ _ Hl Hb Hn) as (Hi & Hseq & Hcur).
  assert (poller_inv 0 p HealthMonitor_default) as Hp0.
  { by constructor. }
  pose proof (poll_run_spec 0 turns p HealthMonitor_default Hp0 Hr ltac:(lia)) as H.
  destruct (poll_run turns p HealthMonitor_default) as [[exit p'] h]. rewrite N.add_0_l in H.
  destruct H as [[Hp Hk Hacc Hs [_ Hle]] Hexit]. split; [done|]. split; [done|]. split; [done|].
  split; [done|]. split.
  - pose proof (pi_published _ Hp) as Hpub. destruct (current (latest p')) as [e|].
    + destruct Hpub as (_ & He & _ & Hbe). split; [lia|done].
    + destruct Hpub as [He _]. lia.
  - unfold health_snapshot. cbn [degraded]. by rewrite N.ltb_lt, Hle.
Qed.

Definition demo_subject : bytes := repeat Byte.x42 32.
Definition demo_cell : LatestTelemetry :=
  match Latest.new "world-a" demo_subject demo_profile with Ok l => l | Err _ => mkLatest "" [] "" true 0 None None RetiredBootFilter_default LatestDiagnostics_default Closed end.
Definition demo_pipeline : AgentPipeline :=
  mkPipeline "world-a" demo_subject demo_profile true (repeat Byte.x11 16) 1 1 (connect demo_cell 1).2.
Definition demo_digest : string := string_of_list_ascii (concat (repeat ["4"%char; "2"%char] 32)).
Definition demo_response (x : f64) : TimedResponse :=
  mkTimed (mkObservation demo_digest x (f64_of_Z 2) (f64_of_Z 3) (Some (f32_of_Z 90)) (f64_of_Z 60) (f64_of_Z 59) 4) 1700000000000000000 5.
Definition demo_random : option bytes := Some (repeat Byte.x33 16).

Lemma demo_pipeline_new :
  AgentPipeline_new "world-a" demo_subject demo_profile true demo_cell (Some (repeat Byte.x11 16)) =
  Ok demo_pipeline.
Proof. vm_compute. reflexivity. Qed.

Lemma demo_pipeline_inv : pipeline_inv demo_pipeline.
Proof.
  destruct (new_pipeline_inv "world-a" demo_subject demo_profile demo_cell true (Some (repeat Byte.x11 16))
    demo_pipeline) as [H _]; [vm_compute; reflexivity|by intros b [= <-]|apply demo_pipeline_new|exact H].
Qed.

Lemma demo_random_length t : demo_random = Some t → len t = 16.
Proof. by intros [= <-]. Qed.

Lemma emit_exact_witness :
  pipeline_inv demo_pipeline ∧
  (emit demo_pipeline HealthMonitor_default (demo_response (f64_of_Z 1)) 9 demo_random).1.1 = Ok tt ∧
  publishable demo_pipeline (demo_response (f64_of_Z 1)) demo_random.
Proof.
  split; [apply demo_pipeline_inv|].
  assert ((emit demo_pipeline HealthMonitor_default (demo_response (f64_of_Z 1)) 9 demo_random).1.1 = Ok tt)
    as Hok by (vm_compute; reflexivity).
  split; [exact Hok|].
  pose proof (emit_exact demo_pipeline HealthMonitor_default (demo_response (f64_of_Z 1)) 9 demo_random
    demo_pipeline_inv demo_random_length) as H.
  destruct (emit demo_pipeline HealthMonitor_default (demo_response (f64_of_Z 1)) 9 demo_random) as [[res p'] h'].
  destruct H as (_ & Hiff & _). apply Hiff. exact Hok.
Defined.

(** The selected actor's rotation arrives here as it was measured. A quarter turn to the
    left, -90 degrees, is no wire heading: the whole sample is refused, position and all,
    and the error blames the publisher. *)
Example negative_rotation_drops_position :
  let observation := mkObservation demo_digest (f64_of_Z 1) (f64_of_Z 2) (f64_of_Z 3) (Some (f32_of_Z (-90)))
                       (f64_of_Z 60) (f64_of_Z 59) 4 in
  (emit demo_pipeline HealthMonitor_default (mkTimed observation 1700000000000000000 5) 9 demo_random).1.1 =
  Err PublisherUnavailable.
Proof. vm_compute. reflexivity. Qed.

(** Two polls publish, one fails in between, and the fifth turn finds its trust gone. *)
Definition demo_turns : list PollTurn :=
  let turn data trusted := mkTurn (Ready tt) true data trusted 9 demo_random in
  [turn (Ready (Ok (demo_response (f64_of_Z 1)))) true;
   turn (Ready (Err ReTimeout)) true;
   turn (Changed false) true;
   turn (Ready (Ok (demo_response (f64_of_Z 7)))) true;
   turn (Ready (Ok (demo_response (f64_of_Z 8)))) false].

Lemma poller_accounts_witness :
  Latest.new "world-a" demo_subject demo_profile = Ok demo_cell ∧
  ∃ p' h, poll_run demo_turns demo_pipeline HealthMonitor_default = (Some TrustLost, p', h) ∧
    emitted_samples (metrics h) = 2 ∧ next_sequence p' = emitted_samples (metrics h) + 1.
Proof.
  split; [vm_compute; reflexivity|].
  pose proof (poller_accounts "world-a" demo_subject demo_profile demo_cell true (Some (repeat Byte.x11 16))
    demo_pipeline demo_turns) as H.
  destruct (poll_run demo_turns demo_pipeline HealthMonitor_default) as [[exit p'] h] eqn:Hrun.
  destruct H as (_ & _ & _ & Hseq & _).
  - vm_compute. reflexivity.
  - intros b [= <-]. reflexivity.
  - apply demo_pipeline_new.
  - intros t b Ht Hb. unfold demo_turns in Ht. cbv zeta in Ht.
    repeat (apply elem_of_cons in Ht as [->|Ht]; [injection Hb as <-; reflexivity|]). by apply elem_of_nil in Ht.
  - vm_compute. reflexivity.
  - exists p', h. assert (exit = Some TrustLost ∧ emitted_samples (metrics h) = 2) as [-> He].
    { assert (Hc := Hrun). vm_compute in Hc. injection Hc as <- _ <-. by split. }
    split; [done|]. split; [exact He|exact Hseq].
Defined.
