(* ===== verification/Supervisor.v ===== *)
(** * The overlay supervisor

    Models [crates/pal-core-win/src/overlay_supervisor.rs]: the restart policy and the
    tick that watches one child process. Instants and durations are nanoseconds; what
    the operating system says of the child and the executable in a tick is an
    argument. *)

From S2P Require Import Prelude.

Definition second : N := 1000000000.
Definition STABLE_CHILD_INTERVAL : N := 30 * second.
Definition MAX_RESTART_DELAY : N := 30 * second.

Inductive OverlaySupervisorStatus := Started | Running | Exited | BackingOff | ExecutableMissing | StartFailed.
#[export] Instance OverlaySupervisorStatus_eq_dec : EqDecision OverlaySupervisorStatus.
Proof. solve_decision. Defined.

(** [consecutive_failures] is a [u32]. *)
Record RestartPolicy := mkPolicy { consecutive_failures : N }.

Definition restart_delay (consecutive_failures : N) : N :=
  let exponent := N.min (consecutive_failures - 1) 5 in
  N.min (N.shiftl 1 exponent * second) MAX_RESTART_DELAY.

Definition record_failure (self : RestartPolicy) : N * RestartPolicy :=
  let self := mkPolicy (N.min (consecutive_failures self + 1) u32_max) in
  (restart_delay (consecutive_failures self), self).

Definition record_stable_child (self : RestartPolicy) : RestartPolicy := mkPolicy 0.

(** The child is the handle of a running process; the executable and its arguments are
    fixed. *)
Record OverlaySupervisor := mkSupervisor {
  child : bool;
  child_started_at : option N;
  retry_at : option N;
  policy : RestartPolicy;
}.
#[export] Instance eta_OverlaySupervisor : Eta OverlaySupervisor := λ s,
  mkSupervisor (child s) (child_started_at s) (retry_at s) (policy s).

Definition with_arguments : OverlaySupervisor := mkSupervisor false None None (mkPolicy 0).

(** What [try_wait], [is_regular_file] and [spawn] give. *)
Inductive ChildState := StillRunning | HasExited | WaitFailed.
Record World := mkWorld { child_state : ChildState; regular_file : bool; spawns : bool }.

(** [self.retry_at = Some(now + self.policy.record_failure())]. *)
Definition back_off (self : OverlaySupervisor) (now : N) : OverlaySupervisor :=
  let '(delay, p) := record_failure (policy self) in
  self <| policy := p |> <| retry_at := Some (now + delay) |>.

Definition tick (world : World) (self : OverlaySupervisor) (now : N) :
    OverlaySupervisorStatus * OverlaySupervisor :=
  if child self then
    match child_state world with
    | StillRunning =>
        if is_some_and (child_started_at self) (λ started, STABLE_CHILD_INTERVAL <=? now - started)
        then (Running, self <| policy ::= record_stable_child |>)
        else (Running, self)
    | HasExited | WaitFailed =>
        (Exited, back_off (self <| child := false |> <| child_started_at := None |>) now)
    end
  else if is_some_and (retry_at self) (λ retry_at, now <? retry_at) then (BackingOff, self)
  else if negb (regular_file world) then (ExecutableMissing, back_off self now)
  else if spawns world then
    (Started, self <| child := true |> <| child_started_at := Some now |> <| retry_at := None |>)
  else (StartFailed, back_off self now).

Definition shutdown (self : OverlaySupervisor) : OverlaySupervisor :=
  if child self then self <| child := false |> <| child_started_at := None |> else self.

(** ** Reachable states *)

(** A supervisor after ticks at times that never go back, the last one at [last]. *)
Inductive sup_reachable : N → OverlaySupervisor → Prop :=
| sup_new last : sup_reachable last with_arguments
| sup_tick last s world now status s' :
    sup_reachable last s → last ≤ now → tick world s now = (status, s') → sup_reachable now s'.

Record sup_inv (last : N) (s : OverlaySupervisor) : Prop := {
  si_child : child s = true → retry_at s = None ∧ ∃ started, child_started_at s = Some started;
  si_retry : ∀ r, retry_at s = Some r → r ≤ last + MAX_RESTART_DELAY;
  si_policy : consecutive_failures (policy s) ≤ u32_max;
}.

Definition failed (status : OverlaySupervisorStatus) : Prop :=
  status = Exited ∨ status = ExecutableMissing ∨ status = StartFailed.

(** The delay after [k] failures in a row: one second, doubled every time, at most
    thirty. *)
Fixpoint doubling (k : nat) : N :=
  match k with O => second | S k => N.min (2 * doubling k) MAX_RESTART_DELAY end.

Lemma restart_delay_bounds k : second ≤ restart_delay k ≤ MAX_RESTART_DELAY.
Proof.
  unfold restart_delay, MAX_RESTART_DELAY. set (x := N.min (k - 1) 5). rewrite N.shiftl_1_l.
  assert (1 ≤ 2 ^ x) by (pose proof (N.pow_nonzero 2 x ltac:(lia)); lia). unfold second. lia.
Qed.

Lemma doubling_max k : (5 ≤ k)%nat → doubling k = MAX_RESTART_DELAY.
Proof.
  intros Hk. induction Hk as [|k Hk IH]; [reflexivity|]. cbn [doubling]. by rewrite IH.
Qed.

Lemma restart_delay_doubling k : restart_delay (N.of_nat k + 1) = doubling k.
Proof.
  do 5 (destruct k as [|k]; [reflexivity|]). rewrite doubling_max by lia. unfold restart_delay.
  replace (N.min (N.of_nat (S (S (S (S (S k))))) + 1 - 1) 5) with 5 by lia. reflexivity.
Qed.

Lemma back_off_inv last s now :
  sup_inv last s → child s = false → sup_inv now (back_off s now).
Proof.
  intros [H1 H2 H3] Hc. unfold back_off, record_failure.
  pose proof (restart_delay_bounds (N.min (consecutive_failures (policy s) + 1) u32_max)).
  constructor; cbn -[N.add N.min restart_delay]; [congruence| |unfold u32_max; lia].
  intros r [= <-]. lia.
Qed.

Lemma tick_inv last world s now status s' :
  sup_inv last s → last ≤ now → tick world s now = (status, s') → sup_inv now s'.
Proof.
  intros Hi Hle. pose proof Hi as [H1 H2 H3].
  assert (sup_inv now s) as Hs by (constructor; try done; intros r Hr; specialize (H2 r Hr); lia).
  unfold tick. destruct (child s) eqn:Hc.
  - destruct (child_state world).
    + destruct (is_some_and _ _); intros [= _ <-]; [|done].
      destruct Hs as [? ? ?]. by constructor.
    + intros [= _ <-]. apply (back_off_inv now); [|done]. destruct Hs as [? ? ?]. by constructor.
    + intros [= _ <-]. apply (back_off_inv now); [|done]. destruct Hs as [? ? ?]. by constructor.
  - destruct (is_some_and (retry_at s) _); [by intros [= _ <-]|].
    destruct (regular_file world); cbn [negb].
    2: { intros [= _ <-]. by apply (back_off_inv now). }
    destruct (spawns world); intros [= _ <-]; [|by apply (back_off_inv now)].
    destruct Hs as [? ? ?]. constructor; cbn; try done. intros _. split; [done|]. by eexists.
Qed.

Lemma sup_reachable_inv last s : sup_reachable last s → sup_inv last s.
Proof.
  induction 1 as [last|last s world now status s' _ IH Hle Ht]; [|by eapply tick_inv].
  by constructor.
Qed.

Lemma back_off_spec s now :
  let k := N.min (consecutive_failures (policy s) + 1) u32_max in
  retry_at (back_off s now) = Some (now + restart_delay k) ∧
  consecutive_failures (policy (back_off s now)) = k ∧ child (back_off s now) = child s.
Proof. done. Qed.

(** ** Properties *)

(** The overlay is restarted, neither at once nor never. In every reachable state a
    running child is never started again; a failure (an exit, a missing executable, a
    failed start) is counted and sets the next attempt one to thirty seconds ahead,
    doubling with every failure in a row; until then ticks change nothing; a child
    that ran for thirty seconds clears the count; and thirty seconds after any tick
    that left no child, a tick starts one if the executable is there and can be
    started. *)
Theorem supervisor_restarts (last now : N) (s : OverlaySupervisor) (world : World) :
  sup_reachable last s → last ≤ now →
  let '(status, s') := tick world s now in
  (status = Started → child s = false ∧ child s' = true) ∧
  (failed status → child s' = false ∧
     let k := consecutive_failures (policy s') in
     k = N.min (consecutive_failures (policy s) + 1) u32_max ∧
     (∃ delay, retry_at s' = Some (now + delay) ∧ delay = doubling (N.to_nat k - 1) ∧
        second ≤ delay ≤ MAX_RESTART_DELAY)) ∧
  (status = BackingOff → s' = s ∧ ∃ r, retry_at s = Some r ∧ now < r) ∧
  (∀ started, child_started_at s = Some started → status = Running →
     started + STABLE_CHILD_INTERVAL ≤ now → consecutive_failures (policy s') = 0) ∧
  (child s = false → last + MAX_RESTART_DELAY ≤ now → regular_file world = true → spawns world = true →
     status = Started).
Proof.
  intros Hr Hle. apply sup_reachable_inv in Hr as [H1 H2 H3].
  assert (∀ s0, consecutive_failures (policy s0) = consecutive_failures (policy s) →
    let k := consecutive_failures (policy (back_off s0 now)) in
    k = N.min (consecutive_failures (policy s) + 1) u32_max ∧
    (∃ delay, retry_at (back_off s0 now) = Some (now + delay) ∧ delay = doubling (N.to_nat k - 1) ∧
       second ≤ delay ≤ MAX_RESTART_DELAY)) as Hback.
  { intros s0 E k. destruct (back_off_spec s0 now) as (Hra & Hk & _). rewrite E in Hra, Hk.
    fold k in Hk. split; [done|]. eexists. split; [exact Hra|]. rewrite <- Hk.
    split; [|apply restart_delay_bounds]. rewrite <- restart_delay_doubling. f_equal.
    unfold u32_max in *. lia. }
  unfold tick. destruct (child s) eqn:Hc.
  - destruct (H1 eq_refl) as [Hra [started Hst]]. rewrite Hst.
    destruct (child_state world); cbn [is_some_and].
    + destruct (N.leb_spec STABLE_CHILD_INTERVAL (now - started)) as [Hstable|Hstable].
      * split; [done|]. split; [by intros [?|[?|?]]|]. split; [done|]. split; [done|done].
      * split; [done|]. split; [by intros [?|[?|?]]|]. split; [done|]. split; [|done].
        intros ? [= <-] _ ?. lia.
    + split; [done|]. split; [|done]. intros _. split; [done|]. by apply Hback.
    + split; [done|]. split; [|done]. intros _. split; [done|]. by apply Hback.
  - destruct (retry_at s) as [r|] eqn:Hra; cbn [is_some_and].
    + destruct (N.ltb_spec now r) as [Hlt|Hlt].
      { split; [done|]. split; [by intros [?|[?|?]]|]. split; [intros _; split; [done|]; by exists r|].
        split; [done|]. intros _ Hlate. specialize (H2 r eq_refl). lia. }
      destruct (regular_file world); cbn [negb]; [destruct (spawns world)|].
      * split; [done|]. split; [by intros [?|[?|?]]|]. split; [done|]. by split.
      * split; [done|]. split; [intros _; split; [done|]; by apply Hback|]. by split.
      * split; [done|]. split; [intros _; split; [done|]; by apply Hback|]. by split.
    + destruct (regular_file world); cbn [negb]; [destruct (spawns world)|].
      * split; [done|]. split; [by intros [?|[?|?]]|]. split; [done|]. by split.
      * split; [done|]. split; [intros _; split; [done|]; by apply Hback|]. by split.
      * split; [done|]. split; [intros _; split; [done|]; by apply Hback|]. by split.
Qed.

Definition missing : World := mkWorld StillRunning false false.
Definition available : World := mkWorld StillRunning true true.

(** The executable is missing twice; thirty seconds later it is there. *)
Definition demo_supervisor : OverlaySupervisor :=
  (tick missing (tick missing with_arguments 0).2 second).2.

Lemma demo_supervisor_reachable : sup_reachable second demo_supervisor.
Proof.
  eapply (sup_tick 0 (tick missing with_arguments 0).2 missing second ExecutableMissing);
    [|unfold second; lia|reflexivity].
  eapply (sup_tick 0 with_arguments missing 0 ExecutableMissing); [constructor|lia|reflexivity].
Qed.

Lemma supervisor_restarts_witness :
  sup_reachable second demo_supervisor ∧ retry_at demo_supervisor = Some (3 * second) ∧
  (tick available demo_supervisor (31 * second)).1 = Started.
Proof.
  split; [apply demo_supervisor_reachable|]. split; [reflexivity|].
  pose proof (supervisor_restarts second (31 * second) demo_supervisor available demo_supervisor_reachable) as H.
  destruct (tick available demo_supervisor (31 * second)) as [status s'].
  destruct H as (_ & _ & _ & _ & H); [unfold second; lia|].
  apply H; [reflexivity|vm_compute; discriminate|reflexivity|reflexivity].
Defined.
