(* ===== verification/Privacy.v ===== *)
(** * Pseudonyms of players and servers

    Models [crates/pal-rest/src/privacy.rs]: the validation of player selectors and
    aliases, and the keyed pseudonyms that replace raw identities. SHA-256 is a
    parameter, a function whose digests have 32 bytes; keys and raw identities are
    overwritten on drop, which leaves no trace in a model. *)

From S2P Require Import Prelude Floats Settings Position BootFilter Wire Latest Pipeline.

(** ** Selectors *)

Inductive SelectorKind := UserId | InstanceId.
#[export] Instance SelectorKind_eq_dec : EqDecision SelectorKind.
Proof. solve_decision. Defined.

Definition domain_tag (self : SelectorKind) : bytes :=
  match self with UserId => as_bytes "user-id" | InstanceId => as_bytes "instance-id" end.

(** [chars().any(char::is_control)] on UTF-8: the control characters are the bytes below
    32, byte 127, and U+0080 to U+009F, which are C2 followed by 80 to 9F. *)
Fixpoint any_control (bytes_ : list N) : bool :=
  match bytes_ with
  | [] => false
  | b :: rest =>
      (b <? 32) || (b =? 127)
      || ((b =? 0xC2) && match rest with c :: _ => (0x80 <=? c) && (c <=? 0x9F) | [] => false end)
      || any_control rest
  end.

Record PlayerSelector := mkSelector { selector_value : string; selector_kind_ : SelectorKind }.

Definition from_value (value : string) (kind : SelectorKind) : result PlayerSelector RestError :=
  if str_is_empty value || (1024 <? str_len value) || any_control (str_bytes value) then
    Err InvalidSelector
  else Ok (mkSelector value kind).

Definition validate_world_alias (world_alias : string) : result unit RestError :=
  if str_is_empty world_alias || (256 <? str_len world_alias) || any_control (str_bytes world_alias) then
    Err InvalidWorldAlias
  else Ok tt.

(** ** Observations *)

Record SelectedPlayerObservation := mkSelected {
  raw_selected_id : bytes;
  selector_kind : SelectorKind;
  sel_x : f64;
  sel_y : f64;
  sel_z : f64;
  sel_heading_degrees : option f32;
  sel_server_fps : f64;
  sel_average_server_fps : f64;
  sel_actor_count : N;
}.

Record RawServerInfo := mkRawServer { raw_version : string; world_guid : bytes }.

(** ** The keyed pseudonym *)

Definition HMAC_BLOCK_BYTES : nat := 64.
Definition PLAYER_DOMAIN : bytes := as_bytes "pal-companion/player-subject/v1".
Definition SERVER_DOMAIN : bytes := as_bytes "pal-companion/server-subject/v1".

Definition append_part (output value : bytes) : bytes := output ++ be_bytes 8 (len value) ++ value.

(** [pad[index] ^= byte] over the key. *)
Fixpoint xor_key (key pad : bytes) : bytes :=
  match key, pad with
  | k :: key, p :: pad => byte_of (N.lxor (Byte.to_N p) (Byte.to_N k)) :: xor_key key pad
  | _, _ => pad
  end.

(** The character [HEX[index]]. *)
Definition hex_char (index : N) : ascii :=
  match String.get (N.to_nat index) "0123456789abcdef" with Some c => c | None => Ascii.zero end.

Fixpoint hex_lower (bs : bytes) : string :=
  match bs with
  | [] => EmptyString
  | b :: bs =>
      String (hex_char (N.shiftr (Byte.to_N b) 4))
        (String (hex_char (N.land (Byte.to_N b) 0x0f)) (hex_lower bs))
  end.

Section Pseudonymizer.
Context (sha256 : bytes → bytes).

Definition hmac_sha256 (key message : bytes) : bytes :=
  let inner_pad := xor_key key (replicate HMAC_BLOCK_BYTES Byte.x36) in
  let outer_pad := xor_key key (replicate HMAC_BLOCK_BYTES Byte.x5c) in
  sha256 (outer_pad ++ sha256 (inner_pad ++ message)).

Definition pseudonym (key domain : bytes) (world_alias : string) (parts : list bytes) :
    result string RestError :=
  let? _ := validate_world_alias world_alias in
  let message := append_part (append_part [] domain) (as_bytes world_alias) in
  Ok (hex_lower (hmac_sha256 key (fold_left append_part parts message))).

Definition sanitize_player (selected : SelectedPlayerObservation) (key : bytes) (world_alias : string) :
    result SafePlayerObservation RestError :=
  let? subject_id := pseudonym key PLAYER_DOMAIN world_alias
                       [domain_tag (selector_kind selected); raw_selected_id selected] in
  Ok (mkObservation subject_id (sel_x selected) (sel_y selected) (sel_z selected)
        (sel_heading_degrees selected) (sel_server_fps selected) (sel_average_server_fps selected)
        (sel_actor_count selected)).

Definition sanitize_server_info (raw : RawServerInfo) (key : bytes) (world_alias : string) :
    result SanitizedServerInfo RestError :=
  let? server_subject_id := pseudonym key SERVER_DOMAIN world_alias [world_guid raw] in
  Ok (mkServerInfo (raw_version raw) server_subject_id).

(** ** Lemmas *)

(** A message of parts: each is preceded by its length in eight bytes. *)
Definition framed (part : bytes) : bytes := be_bytes 8 (len part) ++ part.
Definition framed_parts (parts : list bytes) : bytes := mjoin (framed <$> parts).

Lemma append_parts_app output parts :
  fold_left append_part parts output = output ++ framed_parts parts.
Proof.
  revert output. induction parts as [|p parts IH]; intros output; simpl; [by rewrite app_nil_r|].
  rewrite IH. unfold append_part, framed_parts, framed. simpl. by rewrite <- !app_assoc.
Qed.

Lemma framed_cons p parts : framed_parts (p :: parts) = be_bytes 8 (len p) ++ p ++ framed_parts parts.
Proof. unfold framed_parts, framed. cbn [fmap list_fmap mjoin list_join]. by rewrite <- app_assoc. Qed.

Lemma framed_parts_inj ps1 ps2 :
  Forall (λ p, is_u64 (len p)) ps1 → Forall (λ p, is_u64 (len p)) ps2 →
  framed_parts ps1 = framed_parts ps2 → ps1 = ps2.
Proof.
  intros H1. revert ps2. induction H1 as [|p1 ps1 Hp1 _ IH]; intros ps2 H2 E.
  - destruct ps2 as [|p2 ps2]; [done|]. rewrite framed_cons in E. apply (f_equal length) in E.
    rewrite !length_app, length_be_bytes in E. simpl in E. lia.
  - destruct H2 as [|p2 ps2 Hp2 H2].
    { rewrite framed_cons in E. apply (f_equal length) in E.
      rewrite !length_app, length_be_bytes in E. simpl in E. lia. }
    rewrite !framed_cons in E. apply app_inj_1 in E as [Hl E]; [|by rewrite !length_be_bytes].
    assert (len p1 = len p2) as Hlen.
    { apply (be_bytes_inj 8); [..|done]; unfold is_u64, u64_max in *; simpl; lia. }
    apply app_inj_1 in E as [-> E]; [|unfold len in Hlen; lia]. by rewrite (IH ps2).
Qed.

(** Digits of the pseudonym and digits the agent reads are the same. *)
Lemma hex_lower_digits bs : str_bytes (hex_lower bs) = hex bs.
Proof.
  induction bs as [|b bs IH]; [done|]. unfold str_bytes in *.
  cbn [hex_lower list_ascii_of_string map hex flat_map app]. rewrite IH. fold (hex bs).
  f_equal; [|f_equal]; by destruct b.
Qed.

Lemma hex_inj bs1 bs2 : hex bs1 = hex bs2 → bs1 = bs2.
Proof. intros E. pose proof (decode_pairs_hex bs1) as H. rewrite E, decode_pairs_hex in H. congruence. Qed.

Lemma hex_lower_inj bs1 bs2 : hex_lower bs1 = hex_lower bs2 → bs1 = bs2.
Proof. intros E. apply hex_inj. by rewrite <- !hex_lower_digits, E. Qed.

(** ** Specification *)

Definition alias_ok (world_alias : string) : Prop :=
  world_alias ≠ "" ∧ str_len world_alias ≤ 256 ∧ any_control (str_bytes world_alias) = false.

Definition kind_name (kind : SelectorKind) : string :=
  match kind with UserId => "user-id" | InstanceId => "instance-id" end.

(** The message that stands for a player, and the one that stands for a server. *)
Definition player_message (world_alias : string) (s : SelectedPlayerObservation) : bytes :=
  framed_parts [as_bytes "pal-companion/player-subject/v1"; as_bytes world_alias;
                as_bytes (kind_name (selector_kind s)); raw_selected_id s].
Definition server_message (world_alias : string) (raw : RawServerInfo) : bytes :=
  framed_parts [as_bytes "pal-companion/server-subject/v1"; as_bytes world_alias; world_guid raw].

(** HMAC of RFC 2104: the key is filled up with zeros to a block, and hashed with the inner
    and the outer pad. *)
Definition xor_byte (a b : Byte.byte) : Byte.byte := byte_of (N.lxor (Byte.to_N a) (Byte.to_N b)).
Definition HMAC (key message : bytes) : bytes :=
  let block := key ++ replicate (64 - length key) Byte.x00 in
  let padded pad := zip_with xor_byte block (replicate 64 pad) in
  sha256 (padded Byte.x5c ++ sha256 (padded Byte.x36 ++ message)).

(** These two messages differ and have one code. *)
Definition collide (key m1 m2 : bytes) : Prop := m1 ≠ m2 ∧ HMAC key m1 = HMAC key m2.

Lemma xor_byte_zero p : xor_byte Byte.x00 p = p.
Proof. by destruct p. Qed.

Lemma xor_key_block key n pad :
  xor_key key (replicate (length key + n) pad) =
  zip_with xor_byte (key ++ replicate n Byte.x00) (replicate (length key + n) pad).
Proof.
  induction key as [|k key IH]; cbn.
  - induction n as [|n IHn]; [done|]. cbn. rewrite xor_byte_zero. f_equal. by destruct n.
  - unfold xor_byte at 1. by rewrite IH, N.lxor_comm.
Qed.

Lemma hmac_exact key message : (length key ≤ 64)%nat → hmac_sha256 key message = HMAC key message.
Proof.
  intros Hk. unfold hmac_sha256, HMAC_BLOCK_BYTES, HMAC. cbv zeta.
  replace 64%nat with (length key + (64 - length key))%nat at 1 2 by lia.
  rewrite !xor_key_block. by replace (length key + (64 - length key))%nat with 64%nat by lia.
Qed.

Lemma validate_alias_ok a : validate_world_alias a = Ok tt ↔ alias_ok a.
Proof.
  unfold validate_world_alias, alias_ok. destruct (str_is_empty a) eqn:He; simpl.
  { apply str_is_empty_true in He. split; [done|]. by intros [? _]. }
  assert (a ≠ "") by (by intros ->).
  destruct (N.ltb_spec 256 (str_len a)); simpl; [split; [done|lia]|].
  destruct (any_control (str_bytes a)); split; try done. by intros (_ & _ & ?).
Qed.

Lemma pseudonym_ok key domain a parts p :
  pseudonym key domain a parts = Ok p ↔
  alias_ok a ∧ p = hex_lower (hmac_sha256 key (framed_parts (domain :: as_bytes a :: parts))).
Proof.
  unfold pseudonym. rewrite and_then_ok.
  change (fold_left append_part parts (append_part (append_part [] domain) (as_bytes a)))
    with (fold_left append_part (domain :: as_bytes a :: parts) []).
  rewrite append_parts_app, app_nil_l.
  split.
  - intros ([] & Ha%validate_alias_ok & [= <-]). done.
  - intros [Ha%validate_alias_ok ->]. by exists tt.
Qed.

Lemma alias_len_u64 a : alias_ok a → is_u64 (len (as_bytes a)).
Proof.
  intros (_ & Hl & _). rewrite len_as_bytes. unfold is_u64, u64_max. lia.
Qed.

Lemma domain_tag_name kind : domain_tag kind = as_bytes (kind_name kind).
Proof. by destruct kind. Qed.

Lemma kind_name_inj k1 k2 : as_bytes (kind_name k1) = as_bytes (kind_name k2) → k1 = k2.
Proof. by destruct k1, k2. Qed.

(** Parts whose lengths fit in eight bytes. *)
Local Ltac short_parts :=
  repeat constructor; try done; try (by apply alias_len_u64);
  match goal with |- is_u64 (len (as_bytes (kind_name ?k))) => by destruct k end.

Lemma player_message_inj a1 a2 s1 s2 :
  alias_ok a1 → alias_ok a2 → is_u64 (len (raw_selected_id s1)) → is_u64 (len (raw_selected_id s2)) →
  player_message a1 s1 = player_message a2 s2 →
  a1 = a2 ∧ selector_kind s1 = selector_kind s2 ∧ raw_selected_id s1 = raw_selected_id s2.
Proof.
  intros Ha1 Ha2 H1 H2 E. apply framed_parts_inj in E; [|short_parts..].
  injection E as ?%as_bytes_inj ?%kind_name_inj ?. done.
Qed.

Lemma server_message_inj a1 a2 i1 i2 :
  alias_ok a1 → alias_ok a2 → is_u64 (len (world_guid i1)) → is_u64 (len (world_guid i2)) →
  server_message a1 i1 = server_message a2 i2 → a1 = a2 ∧ world_guid i1 = world_guid i2.
Proof.
  intros Ha1 Ha2 H1 H2 E. apply framed_parts_inj in E; [|repeat constructor; try done; by apply alias_len_u64..].
  injection E as ?%as_bytes_inj ?. done.
Qed.

Lemma player_server_message a1 a2 s i :
  alias_ok a1 → alias_ok a2 → is_u64 (len (raw_selected_id s)) → is_u64 (len (world_guid i)) →
  player_message a1 s ≠ server_message a2 i.
Proof.
  intros Ha1 Ha2 H1 H2 E. apply framed_parts_inj in E; [discriminate|short_parts|].
  repeat constructor; try done; by apply alias_len_u64.
Qed.

(** Sanitizing succeeds on the aliases that may be used, and only the identity changes. *)
Lemma sanitize_player_exact s key a o :
  (length key ≤ 64)%nat →
  sanitize_player s key a = Ok o ↔
  alias_ok a ∧
  o = mkObservation (hex_lower (HMAC key (player_message a s))) (sel_x s) (sel_y s) (sel_z s)
        (sel_heading_degrees s) (sel_server_fps s) (sel_average_server_fps s) (sel_actor_count s).
Proof.
  intros Hk. unfold sanitize_player. rewrite and_then_ok, <- hmac_exact by done. split.
  - intros (p & [Ha ->]%pseudonym_ok & [= <-]). split; [done|]. unfold player_message.
    by rewrite <- domain_tag_name.
  - intros [Ha ->]. eexists. split; [by apply pseudonym_ok|]. unfold player_message.
    by rewrite <- domain_tag_name.
Qed.

Lemma sanitize_server_exact raw key a i :
  (length key ≤ 64)%nat →
  sanitize_server_info raw key a = Ok i ↔
  alias_ok a ∧ i = mkServerInfo (raw_version raw) (hex_lower (HMAC key (server_message a raw))).
Proof.
  intros Hk. unfold sanitize_server_info. rewrite and_then_ok, <- hmac_exact by done. split.
  - by intros (p & [Ha ->]%pseudonym_ok & [= <-]).
  - intros [Ha ->]. eexists. split; [by apply pseudonym_ok|done].
Qed.

Lemma hex_lower_decode bs : len bs = 32 → decode_sha256 (hex_lower bs) = Some bs.
Proof. intros Hl. apply decode_sha256_hex. by split; [apply hex_lower_digits|]. Qed.

(** Codes agree when the messages do, or when these messages collide. *)
Lemma hex_code_eq key m1 m2 :
  hex_lower (HMAC key m1) = hex_lower (HMAC key m2) ↔ m1 = m2 ∨ collide key m1 m2.
Proof.
  split; [|by intros [->|[_ ->]]]. intros E%hex_lower_inj.
  destruct (decide (m1 = m2)); [by left|by right].
Qed.
End Pseudonymizer.

(** ** Properties *)

(** C36: pseudonyms tell players apart and nothing else. Sanitizing fails exactly on an
    alias the agent may not use; its result carries every measurement unchanged and, in
    place of the raw identity, sixty-four digits that the pipeline reads back as the HMAC of
    the length-prefixed domain, alias, selector kind and identity. Hence two players share a
    pseudonym only if alias, kind and identity all agree, two servers only if alias and world
    agree, and a player shares one with a server never, unless the two messages that stand
    for them, which then differ, have the same HMAC under the key. *)
Theorem pseudonyms_separate (sha256 : bytes → bytes) (key : bytes) (a1 a2 : string)
    (s1 s2 : SelectedPlayerObservation) (i1 i2 : RawServerInfo) :
  len key = 32 → (∀ m, len (sha256 m) = 32) →
  is_u64 (len (raw_selected_id s1)) → is_u64 (len (raw_selected_id s2)) →
  is_u64 (len (world_guid i1)) → is_u64 (len (world_guid i2)) →
  (is_ok (sanitize_player sha256 s1 key a1) = true ↔ alias_ok a1) ∧
  (is_ok (sanitize_server_info sha256 i1 key a1) = true ↔ alias_ok a1) ∧
  (∀ o, sanitize_player sha256 s1 key a1 = Ok o →
     decode_sha256 (observed_subject_id o) = Some (HMAC sha256 key (player_message a1 s1)) ∧
     obs_x o = sel_x s1 ∧ obs_y o = sel_y s1 ∧ obs_z o = sel_z s1 ∧
     obs_heading_degrees o = sel_heading_degrees s1 ∧ obs_server_fps o = sel_server_fps s1 ∧
     obs_average_server_fps o = sel_average_server_fps s1 ∧ obs_actor_count o = sel_actor_count s1) ∧
  (∀ i, sanitize_server_info sha256 i1 key a1 = Ok i →
     decode_sha256 (server_subject_id i) = Some (HMAC sha256 key (server_message a1 i1)) ∧
     info_version i = raw_version i1) ∧
  (∀ o1 o2, sanitize_player sha256 s1 key a1 = Ok o1 → sanitize_player sha256 s2 key a2 = Ok o2 →
     observed_subject_id o1 = observed_subject_id o2 ↔
     (a1 = a2 ∧ selector_kind s1 = selector_kind s2 ∧ raw_selected_id s1 = raw_selected_id s2) ∨
     collide sha256 key (player_message a1 s1) (player_message a2 s2)) ∧
  (∀ j1 j2, sanitize_server_info sha256 i1 key a1 = Ok j1 → sanitize_server_info sha256 i2 key a2 = Ok j2 →
     server_subject_id j1 = server_subject_id j2 ↔
     (a1 = a2 ∧ world_guid i1 = world_guid i2) ∨
     collide sha256 key (server_message a1 i1) (server_message a2 i2)) ∧
  (∀ o i, sanitize_player sha256 s1 key a1 = Ok o → sanitize_server_info sha256 i2 key a2 = Ok i →
     observed_subject_id o = server_subject_id i →
     collide sha256 key (player_message a1 s1) (server_message a2 i2)).
Proof.
  intros Hkey Hsha L1 L2 L3 L4. assert (length key ≤ 64)%nat as Hk by (unfold len in Hkey; lia).
  assert (∀ m, len (HMAC sha256 key m) = 32) as Hlen by (intros m; apply Hsha).
  split_and!.
  - destruct (sanitize_player sha256 s1 key a1) as [o|] eqn:Ho.
    + by apply sanitize_player_exact in Ho as [? _].
    + split; [done|]. intros Ha. by rewrite (proj2 (sanitize_player_exact _ _ _ _ _ Hk) (conj Ha eq_refl)) in Ho.
  - destruct (sanitize_server_info sha256 i1 key a1) as [o|] eqn:Ho.
    + by apply sanitize_server_exact in Ho as [? _].
    + split; [done|]. intros Ha. by rewrite (proj2 (sanitize_server_exact _ _ _ _ _ Hk) (conj Ha eq_refl)) in Ho.
  - intros o [_ ->]%sanitize_player_exact; [|done]. split; [by apply hex_lower_decode|done].
  - intros i [_ ->]%sanitize_server_exact; [|done]. split; [by apply hex_lower_decode|done].
  - intros o1 o2 [Ha1 ->]%sanitize_player_exact [Ha2 ->]%sanitize_player_exact; [|done..]. cbn.
    rewrite hex_code_eq. split; (intros [H|H]; [left|by right]); [by apply player_message_inj|].
    destruct H as (-> & Hkind & Hid). unfold player_message. by rewrite Hkind, Hid.
  - intros o1 o2 [Ha1 ->]%sanitize_server_exact [Ha2 ->]%sanitize_server_exact; [|done..]. cbn.
    rewrite hex_code_eq. split; (intros [H|H]; [left|by right]); [by apply server_message_inj|].
    destruct H as (-> & Hid). unfold server_message. by rewrite Hid.
  - intros o i [Ha1 ->]%sanitize_player_exact [Ha2 ->]%sanitize_server_exact; [|done..]. cbn.
    intros [E|E]%hex_code_eq; [|done]. by apply player_server_message in E.
Qed.

(** A stand-in for the digest: the last 32 bytes of the message, padded. *)
Definition demo_sha (m : bytes) : bytes := take 32 (reverse m ++ replicate 32 Byte.x00).

Lemma demo_sha_length m : len (demo_sha m) = 32.
Proof. unfold demo_sha, len. rewrite length_take, length_app, length_replicate. lia. Qed.

Definition demo_selected (id : bytes) : SelectedPlayerObservation :=
  mkSelected id UserId (f64_of_Z 1) (f64_of_Z 2) (f64_of_Z 3) None (f64_of_Z 60) (f64_of_Z 59) 4.

Lemma pseudonyms_separate_witness :
  let key := replicate 32 Byte.x01 in
  let s1 := demo_selected [Byte.x61] in
  let s2 := demo_selected [Byte.x62] in
  ∃ o1 o2, sanitize_player demo_sha s1 key "world-a" = Ok o1 ∧
    sanitize_player demo_sha s2 key "world-a" = Ok o2 ∧
    decode_sha256 (observed_subject_id o1) = Some (HMAC demo_sha key (player_message "world-a" s1)) ∧
    (observed_subject_id o1 = observed_subject_id o2 ↔
     ("world-a" = "world-a" ∧ UserId = UserId ∧ [Byte.x61] = [Byte.x62]) ∨
     collide demo_sha key (player_message "world-a" s1) (player_message "world-a" s2)).
Proof.
  intros key s1 s2.
  destruct (pseudonyms_separate demo_sha key "world-a" "world-a" s1 s2
    (mkRawServer "v1" [Byte.x63]) (mkRawServer "v1" [Byte.x64])) as (_ & _ & H1 & _ & H2 & _);
    [reflexivity|apply demo_sha_length|vm_compute; discriminate..|].
  destruct (sanitize_player demo_sha s1 key "world-a") as [o1|] eqn:E1; [|vm_compute in E1; discriminate].
  destruct (sanitize_player demo_sha s2 key "world-a") as [o2|] eqn:E2; [|vm_compute in E2; discriminate].
  exists o1, o2. split; [reflexivity|]. split; [reflexivity|].
  split; [exact (proj1 (H1 o1 eq_refl))|exact (H2 o1 o2 eq_refl eq_refl)].
Defined.
