(* ===== verification/MapGeometry.v ===== *)
(** * Map geometry

    Models [crates/pal-map-pack-store/src/transform.rs] (points, rectangles, the affine
    transform from world to map coordinates and the evidence that calibrates it) and the
    errors, digests and canonical writer of [lib.rs]. [f64::hypot] is an argument:
    Rust takes it from the platform's C library. *)

From S2P Require Import Prelude Floats FloatInt.

(** ** Errors *)

Inductive TransformError :=
| NonFiniteMatrix | SingularMatrix | WorldPointXNonFinite | WorldPointYNonFinite
| MapPointXNonFinite | MapPointYNonFinite | NonFiniteRectangle | DegenerateRectangle.
#[export] Instance TransformError_eq_dec : EqDecision TransformError.
Proof. solve_decision. Defined.

Definition TransformError_field (self : TransformError) : option string :=
  match self with
  | WorldPointXNonFinite => Some "world_point.x"
  | WorldPointYNonFinite => Some "world_point.y"
  | MapPointXNonFinite => Some "map_point.x"
  | MapPointYNonFinite => Some "map_point.y"
  | _ => None
  end.

Inductive MapPackError :=
| InvalidExpectedBuild
| BuildMismatch (expected actual : string)
| MissingComponent (component : string)
| ReadFailed (component : string)
| SizeLimit (component : string)
| ParseFailed (component : string)
| InvalidField (component field : string)
| InvalidHash (field : string)
| HashMismatch (component : string)
| UnsafePath (field : string)
| ReparsePoint (component : string)
| PathEscape (component : string)
| DuplicateEntry (component : string)
| InvalidMapRegionCoordinate
| OutsideMapRegions
| AmbiguousMapRegions
| MissingTile
| UnknownTile (level y x : N)
| OrphanTile
| Transform (error : TransformError).
#[export] Instance MapPackError_eq_dec : EqDecision MapPackError.
Proof. solve_decision. Defined.

(** ** Points and rectangles *)

Module WorldPoint.
Record t := mk { x : f64; y : f64 }.
#[global] Instance eq_dec : EqDecision t.
Proof. solve_decision. Defined.

Definition new (x y : f64) : result t TransformError :=
  if negb (is_finite x) then Err WorldPointXNonFinite
  else if negb (is_finite y) then Err WorldPointYNonFinite
  else Ok (mk x y).

Definition valid (p : t) : Prop := is_finite (x p) = true ∧ is_finite (y p) = true.

Lemma world_point_ok x y p :
  new x y = Ok p ↔ p = mk x y ∧ is_finite x = true ∧ is_finite y = true.
Proof. unfold new. destruct (is_finite x), (is_finite y); simpl; naive_solver. Qed.

Lemma world_point_new x y : is_finite x = true → is_finite y = true → new x y = Ok (mk x y).
Proof. intros. by apply world_point_ok. Qed.
End WorldPoint.

Module MapPoint.
Record t := mk { x : f64; y : f64 }.
#[global] Instance eq_dec : EqDecision t.
Proof. solve_decision. Defined.

Definition new (x y : f64) : result t TransformError :=
  if negb (is_finite x) then Err MapPointXNonFinite
  else if negb (is_finite y) then Err MapPointYNonFinite
  else Ok (mk x y).

Definition valid (p : t) : Prop := is_finite (x p) = true ∧ is_finite (y p) = true.

Lemma map_point_ok x y p :
  new x y = Ok p ↔ p = mk x y ∧ is_finite x = true ∧ is_finite y = true.
Proof. unfold new. destruct (is_finite x), (is_finite y); simpl; naive_solver. Qed.

Lemma map_point_new x y : is_finite x = true → is_finite y = true → new x y = Ok (mk x y).
Proof. intros. by apply map_point_ok. Qed.
End MapPoint.

Module MapRect.
Record t := mk { min_x : f64; min_y : f64; max_x : f64; max_y : f64 }.
#[global] Instance eq_dec : EqDecision t.
Proof. solve_decision. Defined.

Definition new (min_x min_y max_x max_y : f64) : result t TransformError :=
  if negb (forallb is_finite [min_x; min_y; max_x; max_y]) then Err NonFiniteRectangle
  else if flt max_x min_x || flt max_y min_y then Err DegenerateRectangle
  else Ok (mk min_x min_y max_x max_y).

Definition contains (self : t) (point : MapPoint.t) : bool :=
  fle (min_x self) (MapPoint.x point) && fle (MapPoint.x point) (max_x self)
  && fle (min_y self) (MapPoint.y point) && fle (MapPoint.y point) (max_y self).

(** The derived [==]. *)
Definition eqb (a b : t) : bool :=
  feq (min_x a) (min_x b) && feq (min_y a) (min_y b)
  && feq (max_x a) (max_x b) && feq (max_y a) (max_y b).

Definition valid (r : t) : Prop :=
  is_finite (min_x r) = true ∧ is_finite (min_y r) = true ∧
  is_finite (max_x r) = true ∧ is_finite (max_y r) = true ∧
  fle (min_x r) (max_x r) = true ∧ fle (min_y r) (max_y r) = true.

Lemma map_rect_ok a b c d r : new a b c d = Ok r ↔ r = mk a b c d ∧ valid (mk a b c d).
Proof.
  unfold new, valid. simpl.
  destruct (is_finite a) eqn:Ha, (is_finite b) eqn:Hb, (is_finite c) eqn:Hc, (is_finite d) eqn:Hd;
    simpl; try naive_solver.
  rewrite !flt_not_fle by eauto with pal.
  destruct (fle a c), (fle b d); simpl; naive_solver.
Qed.

Lemma map_rect_new_some a b c d : valid (mk a b c d) → new a b c d = Ok (mk a b c d).
Proof. intros. by apply map_rect_ok. Qed.

Lemma map_rect_new_valid a b c d r : new a b c d = Ok r → valid r.
Proof. intros [-> ?]%map_rect_ok. done. Qed.
End MapRect.

(** ** The affine transform *)

(** [[[f64; 3]; 2]]. *)
Record Matrix := mkMatrix { m00 : f64; m01 : f64; m02 : f64; m10 : f64; m11 : f64; m12 : f64 }.

Definition flatten (m : Matrix) : list f64 := [m00 m; m01 m; m02 m; m10 m; m11 m; m12 m].
Definition matrix_eqb (a b : Matrix) : bool :=
  forallb (λ '(x, y), feq x y) (zip (flatten a) (flatten b)).

Record CalibrationEvidence := mkCalibration {
  landmark_count : N;
  reference_count : N;
  sealed_holdout_count : N;
  reference_median_error_px : f64;
  reference_max_error_px : f64;
  sealed_holdout_median_error_px : f64;
  sealed_holdout_max_error_px : f64;
  sealed_holdout_sha256 : bytes;
}.

Module WorldToMapTransform.
Record t := mk { matrix : Matrix; calibration : option CalibrationEvidence }.
#[global] Instance eta : Eta t := λ r, mk (matrix r) (calibration r).

Definition RELATIVE_DETERMINANT_EPSILON : f64 := f64_lit 1 1000000000000.

Definition new (m : Matrix) : result t TransformError :=
  if negb (forallb is_finite (flatten m)) then Err NonFiniteMatrix
  else
    let linear_scale := fmax (fmax (fmax (fabs (m00 m)) (fabs (m01 m))) (fabs (m10 m))) (fabs (m11 m)) in
    if feq linear_scale f64_zero then Err SingularMatrix
    else
      let fdiv := fdiv prec64 emax64 in
      let fmul := fmul prec64 emax64 in
      let normalized_determinant :=
        fsub prec64 emax64
          (fmul (fdiv (m00 m) linear_scale) (fdiv (m11 m) linear_scale))
          (fmul (fdiv (m01 m) linear_scale) (fdiv (m10 m) linear_scale)) in
      if negb (is_finite normalized_determinant)
         || fle (fabs normalized_determinant) RELATIVE_DETERMINANT_EPSILON
      then Err SingularMatrix
      else Ok (mk m None).

Definition project (self : t) (point : WorldPoint.t) : result MapPoint.t TransformError :=
  let fadd := fadd prec64 emax64 in
  let fmul := fmul prec64 emax64 in
  let m := matrix self in
  MapPoint.new
    (fadd (fadd (fmul (m00 m) (WorldPoint.x point)) (fmul (m01 m) (WorldPoint.y point))) (m02 m))
    (fadd (fadd (fmul (m10 m) (WorldPoint.x point)) (fmul (m11 m) (WorldPoint.y point))) (m12 m)).

Lemma transform_new_matrix m t : new m = Ok t → matrix t = m ∧ forallb is_finite (flatten m) = true.
Proof. unfold new. repeat step_if; intros; simplify_eq; reflect_bool; auto. Qed.
End WorldToMapTransform.

(** ** Digests *)

(** [parse_hash]: 64 lower-case hexadecimal digits. *)
Definition canonical_digit (byte : N) : bool :=
  is_ascii_digit byte || ((97 <=? byte) && (byte <=? 102)).

Definition hash_nibble (byte : N) : N :=
  if is_ascii_digit byte then byte - 48
  else if (97 <=? byte) && (byte <=? 102) then byte - 97 + 10 else 0.

Fixpoint hash_pairs (digits : list N) : bytes :=
  match digits with
  | high :: low :: digits =>
      byte_of (N.lor (N.shiftl (hash_nibble high) 4) (hash_nibble low)) :: hash_pairs digits
  | _ => []
  end.

Definition parse_hash (value field : string) : result bytes MapPackError :=
  if negb (str_len value =? 64) || negb (str_all canonical_digit value) then Err (InvalidHash field)
  else Ok (hash_pairs (str_bytes value)).

(** The character [HEX[index]]. *)
Definition hash_char (index : N) : ascii :=
  match String.get (N.to_nat index) "0123456789abcdef" with Some c => c | None => Ascii.zero end.

Fixpoint encode_hash (hash : bytes) : string :=
  match hash with
  | [] => EmptyString
  | b :: hash =>
      String (hash_char (N.shiftr (Byte.to_N b) 4))
        (String (hash_char (N.land (Byte.to_N b) 0x0f)) (encode_hash hash))
  end.

(** ** The canonical writer

    The hasher is the sequence of bytes fed to it; [finish] hashes them. *)

Module CanonicalWriter.
Definition new (domain : bytes) : bytes := domain.
Definition u8 (self : bytes) (value : N) : bytes := self ++ le_bytes 1 value.
Definition u32 (self : bytes) (value : N) : bytes := self ++ le_bytes 4 value.
Definition u64 (self : bytes) (value : N) : bytes := self ++ le_bytes 8 value.
Definition i32 (self : bytes) (value : Z) : bytes :=
  self ++ le_bytes 4 (Z.to_N (value mod 4294967296)%Z).
Definition f64 (self : bytes) (value : f64) : bytes := self ++ le_bytes 8 (f64_to_bits value).
Definition string (self : bytes) (value : string) : bytes :=
  u32 self (str_len value) ++ as_bytes value.
Definition hash (self value : bytes) : bytes := self ++ value.
End CanonicalWriter.

(** An encoding that a decoder can follow: it determines the value and where it ends. *)
Definition prefix_free {A} (P : A → Prop) (enc : A → bytes) : Prop :=
  ∀ a b s t, P a → P b → enc a ++ s = enc b ++ t → a = b ∧ s = t.

Lemma prefix_free_fixed {A} (P : A → Prop) (enc : A → bytes) k :
  (∀ a, P a → length (enc a) = k) → (∀ a b, P a → P b → enc a = enc b → a = b) →
  prefix_free P enc.
Proof.
  intros Hk Hinj a b s t Ha Hb E. apply app_inj_1 in E as [E ->]; [|by rewrite !Hk]. auto.
Qed.

Lemma le_bytes_inj k a b :
  a < 256 ^ N.of_nat k → b < 256 ^ N.of_nat k → le_bytes k a = le_bytes k b → a = b.
Proof. intros Ha Hb E. by rewrite <- (le_value_bytes k a), <- (le_value_bytes k b), E. Qed.

Lemma prefix_free_le k : prefix_free (λ n, n < 256 ^ N.of_nat k) (le_bytes k).
Proof.
  apply (prefix_free_fixed _ _ k); intros; [apply length_le_bytes|by eapply le_bytes_inj].
Qed.

Lemma prefix_free_u32 : prefix_free (λ n, n ≤ u32_max) (le_bytes 4).
Proof. intros a b s t Ha Hb. by apply prefix_free_le; unfold u32_max in *; simpl; lia. Qed.

Lemma prefix_free_u64 : prefix_free is_u64 (le_bytes 8).
Proof. intros a b s t Ha Hb. by apply prefix_free_le; unfold is_u64, u64_max in *; simpl; lia. Qed.

Lemma prefix_free_i32 :
  prefix_free (λ z, -2147483648 ≤ z < 2147483648)%Z (λ z, le_bytes 4 (Z.to_N (z mod 4294967296)%Z)).
Proof.
  intros a b s t Ha Hb E.
  pose proof (Z.mod_pos_bound a 4294967296 eq_refl). pose proof (Z.mod_pos_bound b 4294967296 eq_refl).
  apply prefix_free_u32 in E as [E ->]; [|unfold u32_max; lia..]. split; [|done].
  pose proof (Z.div_mod a 4294967296 ltac:(lia)). pose proof (Z.div_mod b 4294967296 ltac:(lia)). lia.
Qed.

Lemma prefix_free_f64 :
  prefix_free (λ x, f64_ok x = true ∧ is_finite x = true) (λ x, le_bytes 8 (f64_to_bits x)).
Proof.
  apply (prefix_free_fixed _ _ 8); intros; destruct_and?; [apply length_le_bytes|].
  apply f64_to_bits_inj; try done. apply (le_bytes_inj 8); [by apply f64_to_bits_bound..|done].
Qed.

Lemma prefix_free_hash : prefix_free (λ h : bytes, length h = 32%nat) (λ h, h).
Proof. by apply (prefix_free_fixed _ _ 32). Qed.

Lemma prefix_free_string :
  prefix_free (λ s, str_len s ≤ u32_max) (λ s, le_bytes 4 (str_len s) ++ as_bytes s).
Proof.
  intros a b s t Ha Hb E. rewrite <- !app_assoc in E. apply prefix_free_u32 in E as [Hl E]; [|done..].
  apply app_inj_1 in E as [E%as_bytes_inj ->]; [done|].
  rewrite <- !len_as_bytes in Hl. unfold len in Hl. lia.
Qed.

Lemma prefix_free_list {A} (P : A → Prop) (enc : A → bytes) l1 l2 s t :
  prefix_free P enc → Forall P l1 → Forall P l2 → length l1 = length l2 →
  mjoin (enc <$> l1) ++ s = mjoin (enc <$> l2) ++ t → l1 = l2 ∧ s = t.
Proof.
  intros Hpf. revert l2. induction l1 as [|a l1 IH]; intros [|b l2] H1 H2 Hl E; try done.
  apply Forall_cons in H1 as [Ha H1], H2 as [Hb H2]. rewrite !fmap_cons in E. simpl in E.
  rewrite <- !app_assoc in E. apply Hpf in E as [-> E]; [|done..].
  injection Hl as Hl. by apply IH in E as [-> ->].
Qed.

(** Digests have 32 bytes. *)
Lemma length_hash_pairs n digits : length digits = (2 * n)%nat → length (hash_pairs digits) = n.
Proof.
  revert digits. induction n as [|n IH]; intros [|a [|b digits]]; simpl; intros Hl; try lia.
  f_equal. apply IH. lia.
Qed.

Lemma parse_hash_length value field hash : parse_hash value field = Ok hash → length hash = 32%nat.
Proof.
  unfold parse_hash. step_if; [done|]. intros [= <-]. reflect_bool. apply length_hash_pairs.
  unfold str_bytes. rewrite length_map. rewrite <- len_as_bytes in *. unfold len, as_bytes in *.
  unfold list_byte_of_string in *. rewrite length_map in *. lia.
Qed.

(** ** Calibration evidence *)

Definition PARITY_POINT_COUNT : N := 25.
Definition PARITY_TOLERANCE_PX : f64 := f64_lit 1 100.

Record RawParityPoint := mkParity {
  parity_world_x : f64;
  parity_world_y : f64;
  expected_map_x : f64;
  expected_map_y : f64;
}.

Record RawCalibrationEvidence := mkRawCalibration {
  raw_landmark_count : N;
  raw_reference_count : N;
  raw_sealed_holdout_count : N;
  reference_center_count : N;
  reference_north_west_count : N;
  reference_north_east_count : N;
  reference_south_west_count : N;
  reference_south_east_count : N;
  sealed_holdout_center_count : N;
  sealed_holdout_north_west_count : N;
  sealed_holdout_north_east_count : N;
  sealed_holdout_south_west_count : N;
  sealed_holdout_south_east_count : N;
  raw_reference_median_error_px : f64;
  raw_reference_max_error_px : f64;
  raw_sealed_holdout_median_error_px : f64;
  raw_sealed_holdout_max_error_px : f64;
  raw_sealed_holdout_sha256 : string;
  parity_points : list RawParityPoint;
}.

(** [u32::checked_add]. *)
Definition checked_add_u32 (a b : N) : option N := if a + b <=? u32_max then Some (a + b) else None.

Definition valid_error_pair (median maximum : f64) : bool :=
  is_finite median && is_finite maximum && fle f64_zero median && fle f64_zero maximum
  && fle median (f64_of_N 10) && fle maximum (f64_of_N 25) && fle median maximum.

Definition coordinate_bits (value : f64) : N :=
  if feq value f64_zero then f64_to_bits f64_zero else f64_to_bits value.

Definition invalid_transform {A} (field : string) : result A MapPackError :=
  Err (InvalidField "transform" field).

(** The slots of the 5 by 5 grid in the order of the loops: (grid_y, grid_x). *)
Definition grid_slots : list (N * N) :=
  '(grid_y) ← [0; 1; 2; 3; 4]; '(grid_x) ← [0; 1; 2; 3; 4]; [(grid_y, grid_x)].

Section Calibration.
Context (hypot : f64 → f64 → f64).

Definition slot_matches (expected_x expected_y : f64) (map_width_px map_height_px : N) (slot : N * N) :
    bool :=
  let '(grid_y, grid_x) := slot in
  let fmul := fmul prec64 emax64 in
  let fdiv := fdiv prec64 emax64 in
  let fsub := fsub prec64 emax64 in
  let slot_x := fdiv (fmul (f64_of_N map_width_px) (f64_of_N grid_x)) (f64_of_N 4) in
  let slot_y := fdiv (fmul (f64_of_N map_height_px) (f64_of_N grid_y)) (f64_of_N 4) in
  fle (hypot (fsub expected_x slot_x) (fsub expected_y slot_y)) PARITY_TOLERANCE_PX.

(** The loops, with the early return on a second match. *)
Fixpoint find_slot (matches : N * N → bool) (slots : list (N * N)) (match_found : option (N * N)) :
    option (N * N) :=
  match slots with
  | [] => match_found
  | (grid_y, grid_x) :: slots =>
      if matches (grid_y, grid_x) then
        if is_some match_found then None else find_slot matches slots (Some (grid_x, grid_y))
      else find_slot matches slots match_found
  end.

Definition grid_slot (expected_x expected_y : f64) (map_width_px map_height_px : N) : option (N * N) :=
  find_slot (slot_matches expected_x expected_y map_width_px map_height_px) grid_slots None.

(** The three sets of the loop over the parity points. *)
Record ParitySets := mkSets {
  world_points : gset (N * N);
  expected_points : gset (N * N);
  covered_grid_slots : gset (N * N);
}.

(** One turn of the loop. *)
Definition check_parity (transform : WorldToMapTransform.t) (map_width_px map_height_px : N)
    (sets : ParitySets) (parity : RawParityPoint) : result ParitySets MapPackError :=
  if negb (forallb is_finite [parity_world_x parity; parity_world_y parity;
                              expected_map_x parity; expected_map_y parity])
  then invalid_transform "parity_points"
  else if flt (expected_map_x parity) f64_zero
          || flt (f64_of_N map_width_px) (expected_map_x parity)
          || flt (expected_map_y parity) f64_zero
          || flt (f64_of_N map_height_px) (expected_map_y parity)
  then invalid_transform "parity_points"
  else
    let world := (coordinate_bits (parity_world_x parity), coordinate_bits (parity_world_y parity)) in
    let expected := (coordinate_bits (expected_map_x parity), coordinate_bits (expected_map_y parity)) in
    if bool_decide (world ∈ world_points sets) || bool_decide (expected ∈ expected_points sets)
    then invalid_transform "parity_points"
    else
      let? slot := ok_or (grid_slot (expected_map_x parity) (expected_map_y parity)
                            map_width_px map_height_px)
                     (InvalidField "transform" "parity_points") in
      if bool_decide (slot ∈ covered_grid_slots sets) then invalid_transform "parity_points"
      else
        let? point := map_err Transform (WorldPoint.new (parity_world_x parity) (parity_world_y parity)) in
        let? projected := map_err Transform (WorldToMapTransform.project transform point) in
        let error := hypot (fsub prec64 emax64 (MapPoint.x projected) (expected_map_x parity))
                           (fsub prec64 emax64 (MapPoint.y projected) (expected_map_y parity)) in
        if negb (is_finite error) || flt PARITY_TOLERANCE_PX error
        then invalid_transform "parity_points"
        else Ok (mkSets ({[ world ]} ∪ world_points sets) ({[ expected ]} ∪ expected_points sets)
                        ({[ slot ]} ∪ covered_grid_slots sets)).

Fixpoint check_parities (transform : WorldToMapTransform.t) (map_width_px map_height_px : N)
    (sets : ParitySets) (parities : list RawParityPoint) : result ParitySets MapPackError :=
  match parities with
  | [] => Ok sets
  | parity :: parities =>
      let? sets := check_parity transform map_width_px map_height_px sets parity in
      check_parities transform map_width_px map_height_px sets parities
  end.

Definition counts_expected (raw : RawCalibrationEvidence) : bool :=
  let reference_sum :=
    checked_add_u32 (reference_center_count raw) (reference_north_west_count raw)
      ≫= λ value, checked_add_u32 value (reference_north_east_count raw)
      ≫= λ value, checked_add_u32 value (reference_south_west_count raw)
      ≫= λ value, checked_add_u32 value (reference_south_east_count raw) in
  let sealed_holdout_sum :=
    checked_add_u32 (sealed_holdout_center_count raw) (sealed_holdout_north_west_count raw)
      ≫= λ value, checked_add_u32 value (sealed_holdout_north_east_count raw)
      ≫= λ value, checked_add_u32 value (sealed_holdout_south_west_count raw)
      ≫= λ value, checked_add_u32 value (sealed_holdout_south_east_count raw) in
  let landmark_sum := checked_add_u32 (raw_reference_count raw) (raw_sealed_holdout_count raw) in
  negb (negb (raw_landmark_count raw =? 15)
        || negb (raw_reference_count raw =? 10)
        || negb (raw_sealed_holdout_count raw =? 5)
        || negb (reference_center_count raw =? 2)
        || negb (reference_north_west_count raw =? 2)
        || negb (reference_north_east_count raw =? 2)
        || negb (reference_south_west_count raw =? 2)
        || negb (reference_south_east_count raw =? 2)
        || negb (sealed_holdout_center_count raw =? 1)
        || negb (sealed_holdout_north_west_count raw =? 1)
        || negb (sealed_holdout_north_east_count raw =? 1)
        || negb (sealed_holdout_south_west_count raw =? 1)
        || negb (sealed_holdout_south_east_count raw =? 1)
        || negb (bool_decide (reference_sum = Some (raw_reference_count raw)))
        || negb (bool_decide (sealed_holdout_sum = Some (raw_sealed_holdout_count raw)))
        || negb (bool_decide (landmark_sum = Some (raw_landmark_count raw)))).

(** [CalibrationEvidence::validate]. *)
Definition validate_calibration (raw : RawCalibrationEvidence) (transform : WorldToMapTransform.t)
    (map_width_px map_height_px : N) : result CalibrationEvidence MapPackError :=
  if negb (counts_expected raw) then invalid_transform "calibration_counts"
  else if negb (valid_error_pair (raw_reference_median_error_px raw) (raw_reference_max_error_px raw))
          || negb (valid_error_pair (raw_sealed_holdout_median_error_px raw)
                                    (raw_sealed_holdout_max_error_px raw))
  then invalid_transform "calibration_errors"
  else
    let? sha256 := parse_hash (raw_sealed_holdout_sha256 raw) "calibration.sealed_holdout_sha256" in
    if bool_decide (sha256 = replicate 32 Byte.x00) then invalid_transform "sealed_holdout_sha256"
    else if negb (len (parity_points raw) =? PARITY_POINT_COUNT) then invalid_transform "parity_points"
    else
      let? sets := check_parities transform map_width_px map_height_px (mkSets ∅ ∅ ∅)
                     (parity_points raw) in
      if negb (N.of_nat (size (covered_grid_slots sets)) =? PARITY_POINT_COUNT)
      then invalid_transform "parity_points"
      else Ok (mkCalibration (raw_landmark_count raw) (raw_reference_count raw)
                 (raw_sealed_holdout_count raw) (raw_reference_median_error_px raw)
                 (raw_reference_max_error_px raw) (raw_sealed_holdout_median_error_px raw)
                 (raw_sealed_holdout_max_error_px raw) sha256).
End Calibration.

(** ** What accepted evidence shows *)

(** The grid slots a parity point may land in, as the code names them: (grid_x, grid_y). *)
Definition grid : list (N * N) := (λ '(grid_y, grid_x), (grid_x, grid_y)) <$> grid_slots.

Section CalibrationLemmas.
Context (hypot : f64 → f64 → f64) (transform : WorldToMapTransform.t) (w h : N).

Definition world_bits (p : RawParityPoint) : N * N :=
  (coordinate_bits (parity_world_x p), coordinate_bits (parity_world_y p)).

(** The point lies on the map, in the given slot, and its projection is within tolerance. *)
Definition parity_good (p : RawParityPoint) (slot : N * N) : Prop :=
  grid_slot hypot (expected_map_x p) (expected_map_y p) w h = Some slot ∧
  in_range f64_zero (f64_of_N w) (expected_map_x p) = true ∧
  in_range f64_zero (f64_of_N h) (expected_map_y p) = true ∧
  ∃ projected,
    WorldToMapTransform.project transform (WorldPoint.mk (parity_world_x p) (parity_world_y p)) =
      Ok projected ∧
    fle (hypot (fsub prec64 emax64 (MapPoint.x projected) (expected_map_x p))
               (fsub prec64 emax64 (MapPoint.y projected) (expected_map_y p)))
        PARITY_TOLERANCE_PX = true.

Lemma find_slot_elem matches slots o slot :
  find_slot matches slots o = Some slot →
  o = Some slot ∨ slot ∈ (λ '(grid_y, grid_x), (grid_x, grid_y)) <$> slots.
Proof.
  revert o. induction slots as [|[y x] slots IH]; intros o; simpl; [auto|].
  rewrite elem_of_cons. repeat step_if; [done| |]; intros [H|]%IH; simplify_eq; auto.
Qed.

Lemma grid_slot_grid x y slot : grid_slot hypot x y w h = Some slot → slot ∈ grid.
Proof. intros [|]%find_slot_elem; done. Qed.

Lemma f64_of_N_finite n : (n < 2 ^ 53)%N → is_nan (f64_of_N n) = false.
Proof. intros Hn. apply is_finite_not_nan. by destruct (of_N_ok n Hn) as (_ & ? & _). Qed.

Lemma check_parity_ok s p s' :
  w < 2 ^ 53 → h < 2 ^ 53 →
  check_parity hypot transform w h s p = Ok s' →
  ∃ slot, parity_good p slot ∧ (slot ∉ covered_grid_slots s) ∧
    covered_grid_slots s' = ({[ slot ]} ∪ covered_grid_slots s) ∧
    (world_bits p ∉ world_points s) ∧ world_points s' = ({[ world_bits p ]} ∪ world_points s).
Proof.
  intros Hw Hh. unfold check_parity, invalid_transform.
  destruct (forallb is_finite _) eqn:Hf; [|done]. cbn [forallb] in Hf. cbn [negb].
  apply andb_true_iff in Hf as [Hwx [Hwy [Hx [Hy _]%andb_true_iff]%andb_true_iff]%andb_true_iff].
  pose proof (f64_of_N_finite w Hw). pose proof (f64_of_N_finite h Hh).
  rewrite (flt_not_fle _ f64_zero), (flt_not_fle (f64_of_N w)), (flt_not_fle (expected_map_y p)),
    (flt_not_fle (f64_of_N h)) by eauto with pal.
  destruct (fle f64_zero (expected_map_x p)) eqn:H1, (fle (expected_map_x p) (f64_of_N w)) eqn:H2,
    (fle f64_zero (expected_map_y p)) eqn:H3, (fle (expected_map_y p) (f64_of_N h)) eqn:H4;
    cbn [negb orb]; try done.
  case_bool_decide as Hwp; [done|]. case_bool_decide; [done|]. cbn [orb].
  rewrite and_then_ok. intros (slot & Hslot%ok_or_ok & Hk).
  case_bool_decide as Hcov; [done|]. unfold WorldPoint.new in Hk. rewrite Hwx, Hwy in Hk.
  cbn [negb map_err and_then] in Hk. apply and_then_ok in Hk as (projected & Hp%map_err_ok & Hk).
  destruct (is_finite (hypot _ _)) eqn:He; [|done]. cbn [negb orb] in Hk.
  rewrite flt_not_fle in Hk by eauto with pal.
  destruct (fle _ _) eqn:Hle in Hk; [|done]. cbn [negb] in Hk. simplify_eq.
  exists slot. split_and!; try done. unfold parity_good, in_range. rewrite H1, H2, H3, H4.
  split_and!; try done. by exists projected.
Qed.

Lemma check_parities_ok ps s s' :
  w < 2 ^ 53 → h < 2 ^ 53 →
  check_parities hypot transform w h s ps = Ok s' →
  ∃ slots, Forall2 parity_good ps slots ∧ NoDup slots ∧
    (∀ slot, slot ∈ slots → slot ∉ covered_grid_slots s) ∧
    NoDup (world_bits <$> ps) ∧ (∀ p, p ∈ ps → world_bits p ∉ world_points s).
Proof.
  intros Hw Hh. revert s. induction ps as [|p ps IH]; intros s; simpl.
  { intros. exists []. split_and!; try constructor; by intros ? ?%elem_of_nil. }
  rewrite and_then_ok. intros (s1 & Hp & Hps).
  apply check_parity_ok in Hp as (slot & Hgood & Hslot & Hcov & Hwp & Hw1); [|done..].
  apply IH in Hps as (slots & Hall & Hnd & Hnew & Hwnd & Hwnew).
  exists (slot :: slots). split_and!.
  - by constructor.
  - constructor; [|done]. rewrite Hcov in Hnew. intros Hin%Hnew. set_solver.
  - rewrite Hcov in Hnew. intros x [->|Hin]%elem_of_cons; [done|]. apply Hnew in Hin. set_solver.
  - constructor; [|done]. rewrite Hw1 in Hwnew. intros (q & Hq & Hin)%list_elem_of_fmap.
    apply Hwnew in Hin. rewrite <- Hq in Hin. set_solver.
  - rewrite Hw1 in Hwnew. intros q [->|Hin]%elem_of_cons; [done|]. apply Hwnew in Hin. set_solver.
Qed.
End CalibrationLemmas.

(** Calibration evidence that is accepted consists of 25 distinct world points, one for
    every slot of the 5 by 5 grid over the map, each projected by the transform to within
    a hundredth of a pixel of the expected map point, which lies on the map. *)
Theorem calibration_covers hypot raw transform w h evidence :
  w < 2 ^ 53 → h < 2 ^ 53 →
  validate_calibration hypot raw transform w h = Ok evidence →
  NoDup (world_bits <$> parity_points raw) ∧
  ∃ slots, slots ≡ₚ grid ∧ Forall2 (parity_good hypot transform w h) (parity_points raw) slots.
Proof.
  intros Hw Hh. unfold validate_calibration, invalid_transform.
  destruct (counts_expected raw); [|done]. cbn [negb]. step_if; [done|].
  rewrite and_then_ok. intros (sha & _ & Hk). case_bool_decide; [done|].
  destruct (N.eqb_spec (len (parity_points raw)) PARITY_POINT_COUNT) as [Hlen|]; [|done].
  apply and_then_ok in Hk as (sets & Hsets & _).
  apply check_parities_ok in Hsets as (slots & Hall & Hnd & _ & Hwnd & _); [|done..].
  split; [done|]. exists slots. split; [|done].
  pose proof (Forall2_length _ _ _ Hall) as Hl.
  assert (slots ⊆+ grid) as Hsub.
  { apply NoDup_submseteq; [done|]. intros slot Hin.
    apply list_elem_of_lookup in Hin as [i Hi].
    destruct (Forall2_lookup_r _ _ _ _ _ Hall Hi) as (p & _ & Hg & _). by eapply grid_slot_grid. }
  apply submseteq_length_Permutation; [done|].
  unfold len, PARITY_POINT_COUNT in Hlen. change (length grid) with 25%nat. lia.
Qed.

(** A computable stand-in for [f64::hypot]. *)
Definition demo_hypot (x y : f64) : f64 :=
  SFsqrt prec64 emax64 (fadd prec64 emax64 (fmul prec64 emax64 x x) (fmul prec64 emax64 y y)).

(** The transform of a map of [w] by [h] pixels whose world bounds are given: north is up. *)
Definition demo_matrix (min_x min_y max_x max_y : f64) (w h : N) : Matrix :=
  let x_scale := fdiv prec64 emax64 (f64_of_N w) (fsub prec64 emax64 max_y min_y) in
  let y_scale := fdiv prec64 emax64 (f64_of_N h) (fsub prec64 emax64 max_x min_x) in
  mkMatrix f64_zero x_scale (fmul prec64 emax64 (fneg min_y) x_scale)
    (fneg y_scale) f64_zero (fmul prec64 emax64 max_x y_scale).

(** Evidence over a map of 8 by 8 pixels and a world of 400 by 400 around the origin. *)
Definition demo_parity : list RawParityPoint :=
  (λ '(grid_x, grid_y),
     mkParity (f64_of_Z (200 - 100 * Z.of_N grid_y)) (f64_of_Z (100 * Z.of_N grid_x - 200))
       (f64_of_N (2 * grid_x)) (f64_of_N (2 * grid_y))) <$> grid.

Definition demo_calibration (parity : list RawParityPoint) : RawCalibrationEvidence :=
  mkRawCalibration 15 10 5 2 2 2 2 2 1 1 1 1 1 (f64_of_N 1) (f64_of_N 2) (f64_of_N 1) (f64_of_N 2)
    "0123456789abcdef0123456789abcdef0123456789abcdef0123456789abcdef" parity.

Definition demo_transform : WorldToMapTransform.t :=
  WorldToMapTransform.mk
    (demo_matrix (f64_of_Z (-200)) (f64_of_Z (-200)) (f64_of_Z 200) (f64_of_Z 200) 8 8) None.

Lemma calibration_covers_witness :
  ∃ slots, slots ≡ₚ grid ∧
    Forall2 (parity_good demo_hypot demo_transform 8 8)
      (parity_points (demo_calibration demo_parity)) slots.
Proof.
  refine (proj2 (calibration_covers demo_hypot (demo_calibration demo_parity) demo_transform 8 8
    (mkCalibration 15 10 5 (f64_of_N 1) (f64_of_N 2) (f64_of_N 1) (f64_of_N 2)
       (hash_pairs (str_bytes "0123456789abcdef0123456789abcdef0123456789abcdef0123456789abcdef")))
    _ _ _)); vm_compute; reflexivity.
Defined.
