(* ===== verification/PackFiles.v ===== *)
(** * Files of a map pack

    Models [crates/pal-map-pack-store/src/integrity.rs]: names that are safe to open, the
    walk from the root to a file without crossing a link, and reads that check size and
    digest. The calls of [std::fs] are the operations of the record [FileSystem]; a path
    is the list of its components. SHA-256 is a parameter. *)

From S2P Require Import Prelude Floats FloatInt MapGeometry.

Definition MAX_MANIFEST_BYTES : N := 1048576.
Definition MAX_TRANSFORM_BYTES : N := 1048576.
Definition MAX_POIS_BYTES : N := 16777216.
Definition MAX_TILE_INDEX_BYTES : N := 16777216.
Definition MAX_TILE_BYTES : N := 16777216.
Definition MAX_RELATIVE_PATH_BYTES : N := 240.
Definition MAX_UNINDEXED_ENTRIES_PER_DIRECTORY : N := 32.

(** ** Safe names *)

(** [starts_with] and [ends_with] of a character. *)
Definition starts_with_char (c : ascii) (s : string) : bool :=
  match s with String d _ => Ascii.eqb d c | EmptyString => false end.
Fixpoint ends_with_char (c : ascii) (s : string) : bool :=
  match s with
  | EmptyString => false
  | String d EmptyString => Ascii.eqb d c
  | String _ s => ends_with_char c s
  end.

(** [contains("//")]. *)
Fixpoint contains_double (c : ascii) (s : string) : bool :=
  match s with
  | String d (String e _ as s') => (Ascii.eqb d c && Ascii.eqb e c) || contains_double c s'
  | _ => false
  end.

Definition char_any (p : ascii → bool) (s : string) : bool := existsb p (list_ascii_of_string s).

(** The characters Windows reserves in names. *)
Definition reserved_char (c : ascii) : bool :=
  existsb (Ascii.eqb c) ["\"%char; ":"%char; Ascii.zero; "<"%char; ">"%char; ascii_of_N 34; "|"%char;
                         "?"%char; "*"%char].

(** [split_once('.')] up to the first dot, or the whole. *)
Fixpoint stem_of (component : string) : string :=
  match component with
  | EmptyString => EmptyString
  | String c rest => if Ascii.eqb c "."%char then EmptyString else String c (stem_of rest)
  end.

(** [trim_end_matches(&[' ', '.'])]. *)
Fixpoint trim_end (s : string) : string :=
  match s with
  | EmptyString => EmptyString
  | String c rest =>
      match trim_end rest with
      | EmptyString =>
          if Ascii.eqb c " "%char || Ascii.eqb c "."%char then EmptyString else String c EmptyString
      | rest => String c rest
      end
  end.

Definition strip_prefix (prefix s : string) : option string :=
  if starts_with s prefix
  then Some (String.substring (String.length prefix) (String.length s - String.length prefix) s)
  else None.

Definition is_dos_device (component : string) : bool :=
  let stem := to_ascii_uppercase (trim_end (stem_of component)) in
  existsb (String.eqb stem) ["CON"; "PRN"; "AUX"; "NUL"; "CONIN$"; "CONOUT$"; "CLOCK$"]
  || is_some_and
       (match strip_prefix "COM" stem with Some s => Some s | None => strip_prefix "LPT" stem end)
       (λ suffix, match suffix with
                  | String c EmptyString => (49 <=? N_of_ascii c) && (N_of_ascii c <=? 57)
                  | _ => false
                  end).

(** [Path::components] on Windows, as far as the kinds of components matter. *)
Inductive Component := CPrefix | CRootDir | CCurDir | CParentDir | CNormal (name : string).

Definition is_separator (c : ascii) : bool := Ascii.eqb c "/"%char || Ascii.eqb c "\"%char.

Fixpoint path_pieces (first : bool) (pieces : list string) : list Component :=
  match pieces with
  | [] => []
  | piece :: pieces =>
      (if str_is_empty piece then []
       else if String.eqb piece "." then (if first then [CCurDir] else [])
       else if String.eqb piece ".." then [CParentDir]
       else [CNormal piece]) ++ path_pieces false pieces
  end.

Definition path_components (value : string) : list Component :=
  let rooted (s : string) := match s with String c _ => is_separator c | _ => false end in
  let slashes := str_map (λ c, if is_separator c then "/"%char else c) in
  match value with
  | String d (String ":" rest) =>
      CPrefix :: (if rooted rest then [CRootDir] else []) ++ path_pieces false (split_on "/" (slashes rest))
  | _ =>
      if rooted value
      then match value with
           | String _ (String c _) => if is_separator c then [CPrefix; CRootDir] else [CRootDir]
           | _ => [CRootDir]
           end ++ path_pieces false (split_on "/" (slashes value))
      else path_pieces true (split_on "/" (slashes value))
  end.

(** [Path::is_absolute] on Windows: a prefix and a root. *)
Definition path_is_absolute (value : string) : bool :=
  match path_components value with CPrefix :: CRootDir :: _ => true | _ => false end.

Definition unsafe_component (component : string) : bool :=
  str_is_empty component
  || String.eqb component "."
  || String.eqb component ".."
  || starts_with_char " " component
  || ends_with_char " " component
  || ends_with_char "." component
  || (128 <? str_len component)
  || existsb (λ byte, (byte <? 0x20) || (byte =? 0x7f)) (str_bytes component)
  || is_dos_device component.

Definition validate_relative_name (value field : string) : result unit MapPackError :=
  if str_is_empty value
     || (MAX_RELATIVE_PATH_BYTES <? str_len value)
     || negb (str_is_ascii value)
     || starts_with_char "/" value
     || ends_with_char "/" value
     || contains_double "/" value
     || char_any reserved_char value
     || starts_with_char " " value
     || ends_with_char " " value
     || ends_with_char "." value
  then Err (UnsafePath field)
  else if existsb unsafe_component (split_on "/" value) then Err (UnsafePath field)
  else if path_is_absolute value
          || existsb (λ c, match c with CNormal _ => false | _ => true end) (path_components value)
  then Err (UnsafePath field)
  else Ok tt.

(** ** The file system

    [fs::symlink_metadata], [fs::metadata], [fs::canonicalize], [File::open] with
    [read_to_end], the chunks a loop of [read] delivers, [seek] to the end and
    [fs::read_dir]. *)

Inductive IoErrorKind := NotFound | OtherError.
Definition io (A : Type) : Type := result A IoErrorKind.

Definition PathBuf : Type := list string.

Record Metadata := mkMetadata {
  is_symlink : bool;
  file_attributes : N;
  is_dir : bool;
  is_file : bool;
  metadata_len : N;
}.

Record FileSystem := mkFs {
  symlink_metadata : PathBuf → io Metadata;
  metadata : PathBuf → io Metadata;
  canonicalize : PathBuf → io PathBuf;
  open_file : PathBuf → io unit;
  contents : PathBuf → io bytes;
  chunks : PathBuf → list (io bytes);
  seek_end : PathBuf → io N;
  read_dir : PathBuf → io (list (io PathBuf));
}.

Definition map_missing (error : IoErrorKind) (component : string) : MapPackError :=
  match error with NotFound => MissingComponent component | OtherError => ReadFailed component end.

(** [.map_err(|_| ReadFailed)]. *)
Definition read_failed {A} (component : string) (r : io A) : result A MapPackError :=
  map_err (λ _, ReadFailed component) r.

Definition windows_reparse (m : Metadata) : bool := negb (N.land (file_attributes m) 0x400 =? 0).

Definition reject_reparse (m : Metadata) (component : string) : result unit MapPackError :=
  if is_symlink m || windows_reparse m then Err (ReparsePoint component) else Ok tt.

(** [Path::starts_with]: by components. *)
Fixpoint path_starts_with (path root : PathBuf) : bool :=
  match root, path with
  | [], _ => true
  | r :: root, p :: path => String.eqb p r && path_starts_with path root
  | _ :: _, [] => false
  end.

Section Integrity.
Context (sha256 : bytes → bytes) (fs : FileSystem).

Definition checked_metadata (path : PathBuf) (component : string) : result Metadata MapPackError :=
  let? m := map_err (λ e, map_missing e component) (symlink_metadata fs path) in
  let? _ := reject_reparse m component in
  Ok m.

Definition validate_root (root : PathBuf) : result PathBuf MapPackError :=
  let? m := checked_metadata root "root" in
  if negb (is_dir m) then Err (ReadFailed "root") else read_failed "root" (canonicalize fs root).

(** The loop over the parts. *)
Fixpoint walk_parts (current : PathBuf) (parts : list string) (component : string) :
    result PathBuf MapPackError :=
  match parts with
  | [] => Ok current
  | part :: parts =>
      let current := current ++ [part] in
      let? _ := checked_metadata current component in
      walk_parts current parts component
  end.

Definition walk_components (root : PathBuf) (relative component : string) :
    result PathBuf MapPackError :=
  let? m := checked_metadata root component in
  if negb (is_dir m) then Err (ReadFailed component)
  else
    let? current_root := read_failed component (canonicalize fs root) in
    if negb (bool_decide (current_root = root)) then Err (PathEscape component)
    else walk_parts root (split_on "/" relative) component.

Definition canonical_contained (root path : PathBuf) (component : string) :
    result PathBuf MapPackError :=
  let? canonical := read_failed component (canonicalize fs path) in
  if negb (path_starts_with canonical root) then Err (PathEscape component) else Ok canonical.

Definition resolve_existing_file (root : PathBuf) (relative component : string) :
    result PathBuf MapPackError :=
  let? _ := validate_relative_name relative "relative_path" in
  let? path := walk_components root relative component in
  let? m := checked_metadata path component in
  if negb (is_file m) then Err (ReadFailed component) else canonical_contained root path component.

Definition resolve_existing_directory (root : PathBuf) (relative component : string) :
    result PathBuf MapPackError :=
  let? _ := validate_relative_name relative "relative_path" in
  let? path := walk_components root relative component in
  let? m := checked_metadata path component in
  if negb (is_dir m) then Err (ReadFailed component) else canonical_contained root path component.

(** [reader.take(max + 1).read_to_end]. *)
Definition read_stream_bounded (reader : io bytes) (max_bytes : N) (component : string) :
    result bytes MapPackError :=
  let? read_limit := ok_or (checked_add max_bytes 1) (SizeLimit component) in
  let? all := read_failed component reader in
  let bs := take (N.to_nat read_limit) all in
  if max_bytes <? len bs then Err (SizeLimit component) else Ok bs.

Definition read_bounded (root : PathBuf) (relative component : string) (max_bytes : N) :
    result bytes MapPackError :=
  let? path := resolve_existing_file root relative component in
  let? m := map_err (λ e, map_missing e component) (metadata fs path) in
  if max_bytes <? metadata_len m then Err (SizeLimit component)
  else
    let? _ := read_failed component (open_file fs path) in
    let? bs := read_stream_bounded (contents fs path) max_bytes component in
    if negb (len bs =? metadata_len m) then Err (ReadFailed component) else Ok bs.

Definition read_hashed (root : PathBuf) (relative component : string) (max_bytes : N)
    (expected_hash : bytes) : result bytes MapPackError :=
  let? bs := read_bounded root relative component max_bytes in
  if negb (bool_decide (sha256 bs = expected_hash)) then Err (HashMismatch component) else Ok bs.

Definition read_verified_bytes (root : PathBuf) (relative component : string) (expected_size : N)
    (expected_hash : bytes) : result bytes MapPackError :=
  if (expected_size =? 0) || (MAX_TILE_BYTES <? expected_size) then Err (SizeLimit component)
  else
    let? path := resolve_existing_file root relative component in
    let? m := map_err (λ e, map_missing e component) (metadata fs path) in
    if negb (is_file m) || negb (metadata_len m =? expected_size) then Err (HashMismatch component)
    else
      let? _ := read_failed component (open_file fs path) in
      let? bs := read_stream_bounded (contents fs path) expected_size component in
      if negb (len bs =? expected_size) || negb (bool_decide (sha256 bs = expected_hash))
      then Err (HashMismatch component) else Ok bs.

(** The loop of [verify_streaming_file]: total and hashed bytes so far. *)
Fixpoint stream_loop (reads : list (io bytes)) (total : N) (hashed : bytes) (component : string) :
    result (N * bytes) MapPackError :=
  match reads with
  | [] => Ok (total, hashed)
  | read :: reads =>
      let? chunk := read_failed component read in
      if len chunk =? 0 then Ok (total, hashed)
      else
        let? total := ok_or (checked_add total (len chunk)) (SizeLimit component) in
        if MAX_TILE_BYTES <? total then Err (SizeLimit component)
        else stream_loop reads total (hashed ++ chunk) component
  end.

Definition verify_streaming_file (root : PathBuf) (relative component : string) (expected_size : N)
    (expected_hash : bytes) : result unit MapPackError :=
  if MAX_TILE_BYTES <? expected_size then Err (SizeLimit component)
  else
    let? path := resolve_existing_file root relative component in
    let? before := map_err (λ e, map_missing e component) (metadata fs path) in
    if negb (is_file before) || negb (metadata_len before =? expected_size)
    then Err (HashMismatch component)
    else
      let? _ := read_failed component (open_file fs path) in
      let? '(total, hashed) := stream_loop (chunks fs path) 0 [] component in
      let? after := read_failed component (seek_end fs path) in
      if negb (total =? expected_size) || negb (after =? expected_size)
         || negb (bool_decide (sha256 hashed = expected_hash))
      then Err (HashMismatch component) else Ok tt.

(** ** The tree of tiles *)

(** The loop over [read_dir], with its bound. *)
Fixpoint take_entries (limit : N) (taken : N) (entries : list (io PathBuf)) :
    result (list PathBuf) MapPackError :=
  match entries with
  | [] => Ok []
  | entry :: entries =>
      if limit <=? taken then Err (SizeLimit "tiles")
      else
        let? entry := read_failed "tiles" entry in
        let? rest := take_entries limit (taken + 1) entries in
        Ok (entry :: rest)
  end.

Definition read_directory_bounded (directory : PathBuf) (expected_count : N) :
    result (list PathBuf) MapPackError :=
  let? limit := ok_or (checked_add expected_count MAX_UNINDEXED_ENTRIES_PER_DIRECTORY)
                  (SizeLimit "tiles") in
  let? entries := read_failed "tiles" (read_dir fs directory) in
  take_entries limit 0 entries.

Definition join_slash (pieces : list string) : string := String.concat "/" pieces.

Definition relative_name (root path : PathBuf) : result string MapPackError :=
  if path_starts_with path root then Ok (join_slash (drop (length root) path))
  else Err (PathEscape "tiles").

(** One entry of the root of the tree; the sets are the names seen, and seen in lower case. *)
Definition check_directory (root : PathBuf) (expected_directories : gset string)
    (sets : gset string * gset string) (entry : PathBuf) :
    result (gset string * gset string) MapPackError :=
  let '(directories, folded) := sets in
  let? m := read_failed "tiles" (symlink_metadata fs entry) in
  let? _ := reject_reparse m "tiles" in
  if negb (is_dir m) then Err OrphanTile
  else
    let? canonical := canonical_contained root entry "tiles" in
    let? name := relative_name root canonical in
    let? _ := validate_relative_name name "tile.directory" in
    if negb (bool_decide (name ∈ expected_directories)) then Err OrphanTile
    else if bool_decide (name ∈ directories) || bool_decide (to_ascii_lowercase name ∈ folded)
    then Err (DuplicateEntry "tile_path")
    else Ok ({[ name ]} ∪ directories, {[ to_ascii_lowercase name ]} ∪ folded).

(** One entry of a directory of tiles: names in this directory, in all, and in lower case. *)
Definition check_file (root : PathBuf) (expected_in_directory : gset string)
    (sets : gset string * gset string * gset string) (entry : PathBuf) :
    result (gset string * gset string * gset string) MapPackError :=
  let '(actual_in_directory, files, folded) := sets in
  let? m := read_failed "tiles" (symlink_metadata fs entry) in
  let? _ := reject_reparse m "tiles" in
  if negb (is_file m) then Err OrphanTile
  else
    let? canonical := canonical_contained root entry "tiles" in
    let? name := relative_name root canonical in
    let? _ := validate_relative_name name "tile.relative_path" in
    if negb (bool_decide (name ∈ expected_in_directory)) then Err OrphanTile
    else if bool_decide (name ∈ actual_in_directory) || bool_decide (name ∈ files)
            || bool_decide (to_ascii_lowercase name ∈ folded)
    then Err (DuplicateEntry "tile_path")
    else Ok ({[ name ]} ∪ actual_in_directory, {[ name ]} ∪ files,
             {[ to_ascii_lowercase name ]} ∪ folded).

(** A loop that threads a state through a fallible body. *)
Fixpoint try_fold {S A} (f : S → A → result S MapPackError) (s : S) (l : list A) :
    result S MapPackError :=
  match l with
  | [] => Ok s
  | a :: l => let? s := f s a in try_fold f s l
  end.

(** The files of [expected_files] directly inside a directory. *)
Definition directly_inside (directory path : string) : bool :=
  match strip_prefix (directory ++ "/")%string path with
  | Some rest => negb (char_any (Ascii.eqb "/") rest)
  | None => false
  end.

Definition check_tile_directory (root : PathBuf) (expected_files : gset string)
    (sets : gset string * gset string) (directory : string) :
    result (gset string * gset string) MapPackError :=
  let '(files, folded) := sets in
  let expected_in_directory := filter (λ path, directly_inside directory path = true) expected_files in
  let? path := resolve_existing_directory root directory "tiles" in
  let? entries := read_directory_bounded path (N.of_nat (size expected_in_directory)) in
  let? '(actual_in_directory, files, folded) :=
    try_fold (check_file root expected_in_directory) (∅, files, folded) entries in
  if negb (bool_decide (actual_in_directory = expected_in_directory)) then Err OrphanTile
  else Ok (files, folded).

Definition validate_tile_tree (root : PathBuf) (tile_root_relative : string)
    (expected_files expected_directories : gset string) : result unit MapPackError :=
  let? tiles := resolve_existing_directory root tile_root_relative "tiles" in
  let? root_entries := read_directory_bounded tiles (N.of_nat (size expected_directories)) in
  let? '(directories, folded) :=
    try_fold (check_directory root expected_directories) (∅, ∅) root_entries in
  if negb (bool_decide (directories = expected_directories)) then Err OrphanTile
  else
    let? '(files, _) :=
      try_fold (check_tile_directory root expected_files) (∅, folded)
        (sort_strings (elements expected_directories)) in
    if negb (bool_decide (files = expected_files)) then Err OrphanTile else Ok tt.
End Integrity.

(** ** Names: the pieces of an accepted name are safe *)

(** What a piece of a name may be: printable ASCII without reserved characters, no spaces
    or dots at its ends, at most 128 bytes, not a device. *)
Definition safe_char (c : ascii) : bool :=
  (0x20 <=? N_of_ascii c) && (N_of_ascii c <? 0x7f)
  && negb (Ascii.eqb c "/") && negb (reserved_char c).

Record safe_piece (s : string) : Prop := {
  sp_nonempty : str_is_empty s = false;
  sp_len : str_len s ≤ 128;
  sp_chars : Forall (λ c, safe_char c = true) (list_ascii_of_string s);
  sp_no_space_first : starts_with_char " " s = false;
  sp_no_space_last : ends_with_char " " s = false;
  sp_no_dot_last : ends_with_char "." s = false;
  sp_no_device : is_dos_device s = false;
}.

Lemma split_on_cons sep s : ∃ piece pieces, split_on sep s = piece :: pieces.
Proof.
  destruct s as [|c s]; simpl; [eauto|]. destruct (Ascii.eqb c sep); [eauto|].
  destruct (split_on sep s); eauto.
Qed.

(** A property of the string that the separator does not have is one of some piece. *)
Lemma split_on_chars (p : ascii → bool) sep s :
  (∀ piece, piece ∈ split_on sep s → Forall (λ c, p c = true) (list_ascii_of_string piece)) ↔
  Forall (λ c, c = sep ∨ p c = true) (list_ascii_of_string s).
Proof.
  induction s as [|c s IH]; simpl.
  { split; [constructor|]. intros _ piece ->%list_elem_of_singleton. constructor. }
  destruct (Ascii.eqb_spec c sep) as [->|Hc].
  - rewrite Forall_cons, <- IH. split.
    + intros H. split; [by left|]. intros piece Hp. apply H. by right.
    + intros [_ H] piece [->|Hp]%elem_of_cons; [constructor|auto].
  - destruct (split_on_cons sep s) as (x & xs & Hx). rewrite Hx in *. rewrite Forall_cons, <- IH.
    split.
    + intros H. pose proof (H _ (list_elem_of_here _ _)) as Hh. simpl in Hh.
      apply Forall_cons in Hh as [Hh1 Hh2]. split; [by right|].
      intros piece [->|Hp]%elem_of_cons; [done|]. apply H. by right.
    + intros [[Heq|Hc'] Hall] piece; [done|]. intros [->|Hp]%elem_of_cons.
      * simpl. constructor; [done|]. apply Hall. left.
      * apply Hall. by right.
Qed.

Lemma split_on_starts c sep s :
  c ≠ sep → starts_with_char c s = true →
  ∃ piece, piece ∈ split_on sep s ∧ starts_with_char c piece = true.
Proof.
  intros Hc. destruct s as [|d s]; simpl; [done|]. intros ->%Ascii.eqb_eq.
  destruct (Ascii.eqb_spec c sep); [done|].
  destruct (split_on_cons sep s) as (x & xs & ->). exists (String c x). split; [left|].
  simpl. apply Ascii.eqb_refl.
Qed.

Lemma ends_with_char_cons c d s : ends_with_char c s = true → ends_with_char c (String d s) = true.
Proof. by destruct s. Qed.

Lemma split_on_ends c sep s :
  c ≠ sep → ends_with_char c s = true →
  ∃ piece, piece ∈ split_on sep s ∧ ends_with_char c piece = true.
Proof.
  intros Hc. induction s as [|d s IH]; [done|]. intros Hs.
  destruct s as [|e s].
  - simpl in Hs. apply Ascii.eqb_eq in Hs as ->. simpl.
    destruct (Ascii.eqb_spec c sep); [done|]. exists (String c EmptyString). split; [left|].
    simpl. apply Ascii.eqb_refl.
  - destruct IH as (piece & Hp & He); [done|]. cbn [split_on] in *.
    destruct (Ascii.eqb d sep); [exists piece; split; [by right|done]|].
    destruct (split_on_cons sep (String e s)) as (x & xs & Hx).
    change (match Ascii.eqb e sep with true => _ | false => _ end) with (split_on sep (String e s)) in *.
    rewrite Hx in *. apply elem_of_cons in Hp as [->|Hp].
    + exists (String d x). split; [left|]. by apply ends_with_char_cons.
    + exists piece. split; [by right|done].
Qed.

Lemma split_on_empty sep s :
  starts_with_char sep s || ends_with_char sep s || contains_double sep s = true →
  EmptyString ∈ split_on sep s.
Proof.
  assert (∀ s, ends_with_char sep s || contains_double sep s = true →
    EmptyString ∈ tail (split_on sep s)) as Hrest.
  { clear s. induction s as [|c s IH]; [done|]. destruct s as [|d s].
    { simpl. rewrite orb_false_r. intros ->%Ascii.eqb_eq. rewrite Ascii.eqb_refl. left. }
    intros H. cbn [split_on].
    change (match Ascii.eqb d sep with true => _ | false => _ end) with (split_on sep (String d s)).
    change (ends_with_char sep (String d s)
      || ((Ascii.eqb c sep && Ascii.eqb d sep) || contains_double sep (String d s)) = true) in H.
    destruct (ends_with_char sep (String d s) || contains_double sep (String d s)) eqn:Hr.
    - specialize (IH eq_refl). destruct (split_on_cons sep (String d s)) as (x & xs & Hx).
      rewrite Hx in *. destruct (Ascii.eqb c sep); simpl in *; [by right|done].
    - apply orb_false_iff in Hr as [He Hd]. rewrite He, Hd, orb_false_r in H. simpl in H.
      apply andb_true_iff in H as [Hc Hd']. rewrite Hc. cbn [tail].
      cbn [split_on]. rewrite Hd'. left. }
  intros H. destruct (ends_with_char sep s || contains_double sep s) eqn:Hr.
  - specialize (Hrest _ Hr). destruct (split_on sep s); [done|]. by right.
  - apply orb_false_iff in Hr as [He Hd]. rewrite He, Hd, !orb_false_r in H.
    destruct s as [|c s]; [done|]. simpl in *. rewrite H. left.
Qed.

Lemma reserved_colon : reserved_char ":" = true.
Proof. reflexivity. Qed.
Lemma reserved_backslash : reserved_char "\" = true.
Proof. reflexivity. Qed.

Lemma str_map_id (f : ascii → ascii) s :
  Forall (λ c, f c = c) (list_ascii_of_string s) → str_map f s = s.
Proof. induction s as [|c s IH]; simpl; [done|]. intros [-> ?]%Forall_cons. by rewrite IH. Qed.

(** A name free of reserved characters that does not start with a slash is a relative path
    whose components are its pieces. *)
Lemma path_components_normal s :
  Forall (λ c, reserved_char c = false) (list_ascii_of_string s) →
  starts_with_char "/" s = false →
  Forall (λ piece, str_is_empty piece = false ∧ ends_with_char "." piece = false) (split_on "/" s) →
  path_components s = CNormal <$> split_on "/" s.
Proof.
  intros Hchars Hstart Hpieces.
  assert (str_map (λ c, if is_separator c then "/"%char else c) s = s) as Hs.
  { apply str_map_id. eapply Forall_impl; [exact Hchars|]. intros c Hc. simpl in Hc.
    unfold is_separator. destruct (Ascii.eqb_spec c "/"%char) as [->|]; [done|].
    destruct (Ascii.eqb_spec c "\"%char) as [->|]; [by rewrite reserved_backslash in Hc|done]. }
  assert (path_components s = path_pieces true (split_on "/" s)) as ->.
  { unfold path_components. rewrite Hs. destruct s as [|c s]; [done|].
    assert (is_separator c = false) as Hc.
    { apply Forall_cons in Hchars as [Hc _]. unfold is_separator. simpl in Hstart. rewrite Hstart.
      destruct (Ascii.eqb_spec c "\"%char) as [->|]; [by rewrite reserved_backslash in Hc|done]. }
    rewrite Hc. destruct s as [|d s]; [done|].
    apply Forall_cons in Hchars as [_ [Hd _]%Forall_cons].
    destruct (Ascii.eqb_spec d ":"%char) as [->|Hd']; [by rewrite reserved_colon in Hd|].
    destruct d as [[] [] [] [] [] [] [] []]; try reflexivity. done. }
  assert (∀ first, path_pieces first (split_on "/" s) = CNormal <$> split_on "/" s) as H; [|apply H].
  clear -Hpieces. induction Hpieces as [|piece pieces [He Hd] _ IH]; intros first; [done|]. simpl.
  rewrite He, IH. destruct (String.eqb_spec piece ".") as [->|]; [done|].
  by destruct (String.eqb_spec piece "..") as [->|].
Qed.

Lemma unsafe_component_false s :
  unsafe_component s = false →
  str_is_empty s = false ∧ str_len s ≤ 128 ∧ starts_with_char " " s = false ∧
  ends_with_char " " s = false ∧ ends_with_char "." s = false ∧ is_dos_device s = false ∧
  Forall (λ c, 0x20 ≤ N_of_ascii c ∧ N_of_ascii c ≠ 0x7f) (list_ascii_of_string s).
Proof.
  unfold unsafe_component, str_bytes. intros H. reflect_bool. split_and!; try done.
  rewrite Forall_forall. intros c Hc.
  destruct (existsb _ _) eqn:He in *; [done|].
  assert (¬ ((N_of_ascii c <? 0x20) || (N_of_ascii c =? 0x7f) = true)) as Hn.
  { intros Hn. apply not_true_iff_false in He. apply He, existsb_exists.
    exists (N_of_ascii c). split; [|done]. apply in_map. by apply list_elem_of_In. }
  apply not_true_iff_false in Hn. reflect_bool. lia.
Qed.

Lemma safe_piece_component s : safe_piece s → unsafe_component s = false.
Proof.
  intros [He Hl Hc H1 H2 H3 H4]. unfold unsafe_component. rewrite He, H1, H2, H3, H4.
  destruct (String.eqb_spec s ".") as [->|]; [done|].
  destruct (String.eqb_spec s "..") as [->|]; [done|].
  destruct (N.ltb_spec 128 (str_len s)); [lia|]. simpl. rewrite orb_false_r.
  apply not_true_iff_false. intros (b & Hb & Hlt)%existsb_exists.
  apply in_map_iff in Hb as (c & <- & Hin). rewrite <- list_elem_of_In in Hin.
  rewrite Forall_forall in Hc. apply Hc in Hin. unfold safe_char in Hin.
  apply orb_true_iff in Hlt as [Hlt|Hlt]; reflect_bool; lia.
Qed.

Lemma char_any_false p s :
  char_any p s = false ↔ Forall (λ c, p c = false) (list_ascii_of_string s).
Proof.
  unfold char_any. induction (list_ascii_of_string s) as [|c l IH]; simpl.
  - split; [constructor|done].
  - rewrite orb_false_iff, Forall_cons. tauto.
Qed.

Lemma str_is_ascii_chars s :
  str_is_ascii s = true ↔ Forall (λ c, N_of_ascii c < 128) (list_ascii_of_string s).
Proof.
  unfold str_is_ascii, str_bytes, is_ascii_byte.
  induction (list_ascii_of_string s) as [|c l IH]; simpl.
  - split; [constructor|done].
  - rewrite andb_true_iff, N.ltb_lt, Forall_cons. tauto.
Qed.

Lemma relative_name_safe value field :
  validate_relative_name value field = Ok tt →
  str_len value ≤ MAX_RELATIVE_PATH_BYTES ∧ Forall safe_piece (split_on "/" value).
Proof.
  unfold validate_relative_name. step_if; [done|]. step_if; [done|]. intros _. reflect_bool.
  split; [done|]. apply Forall_forall. intros piece Hp.
  assert (unsafe_component piece = false) as Hu.
  { apply not_true_iff_false. intros Hu. apply not_true_iff_false in Heqb0.
    apply Heqb0, existsb_exists. exists piece. by rewrite <- list_elem_of_In. }
  apply unsafe_component_false in Hu as (He & Hl & Hu1 & Hu2 & Hu3 & Hu4 & Hc).
  split; try done.
  match goal with Hx : char_any _ _ = false |- _ => apply char_any_false in Hx as Hres end.
  match goal with Hx : str_is_ascii _ = true |- _ => apply str_is_ascii_chars in Hx as Hasc end.
  set (ok := λ c, negb (Ascii.eqb c "/") && negb (reserved_char c) && (N_of_ascii c <? 128)).
  rewrite Forall_forall in Hres, Hasc, Hc |- *.
  assert (Forall (λ c, c = "/"%char ∨ ok c = true) (list_ascii_of_string value)) as Hall.
  { apply Forall_forall. intros c Hin. unfold ok.
    destruct (Ascii.eqb_spec c "/"%char); [by left|right].
    rewrite (Hres c Hin). apply N.ltb_lt. auto. }
  intros c Hin. pose proof (proj2 (split_on_chars ok "/" value) Hall piece Hp) as Hpc.
  rewrite Forall_forall in Hpc. specialize (Hpc c Hin). specialize (Hc c Hin).
  unfold ok in Hpc. unfold safe_char. reflect_bool. rewrite !andb_true_iff, !negb_true_iff.
  split_and!; try done; [apply N.leb_le|apply N.ltb_lt]; lia.
Qed.

Section SafeName.
Context (value : string) (Hsafe : Forall safe_piece (split_on "/" value)).

Lemma no_unsafe_piece (P : bool) :
  (P = true → ∃ piece, piece ∈ split_on "/" value ∧ ¬ safe_piece piece) → P = false.
Proof.
  intros HP. apply not_true_iff_false. intros (piece & Hin & Hn)%HP.
  rewrite Forall_forall in Hsafe. by apply Hn, Hsafe.
Qed.

Lemma safe_name_chars :
  Forall (λ c, c = "/"%char ∨ safe_char c = true) (list_ascii_of_string value).
Proof.
  apply split_on_chars. intros piece Hp. rewrite Forall_forall in Hsafe. apply Hsafe, Hp.
Qed.

Lemma safe_name_slashes :
  starts_with_char "/" value = false ∧ ends_with_char "/" value = false ∧
  contains_double "/" value = false.
Proof.
  assert (starts_with_char "/" value || ends_with_char "/" value || contains_double "/" value
    = false) as Hslash.
  { apply no_unsafe_piece. intros Hp%split_on_empty. exists EmptyString. split; [done|]. by intros []. }
  by apply orb_false_iff in Hslash as [[??]%orb_false_iff ?].
Qed.

Lemma safe_name_ends :
  starts_with_char " " value = false ∧ ends_with_char " " value = false ∧
  ends_with_char "." value = false.
Proof.
  split_and!; apply no_unsafe_piece;
    [intros (p & Hp & Hu)%(split_on_starts _ "/")|intros (p & Hp & Hu)%(split_on_ends _ "/")..];
    try done; exists p; (split; [done|]); intros []; congruence.
Qed.

Lemma safe_name_reserved : Forall (λ c, reserved_char c = false) (list_ascii_of_string value).
Proof.
  eapply Forall_impl; [exact safe_name_chars|]. intros c [->|Hc]; [done|]. unfold safe_char in Hc.
  by reflect_bool.
Qed.

Lemma safe_name_ascii : str_is_ascii value = true.
Proof.
  apply str_is_ascii_chars. eapply Forall_impl; [exact safe_name_chars|].
  intros c [->|Hc]; [done|]. unfold safe_char in Hc. reflect_bool. lia.
Qed.

Lemma safe_name_components : path_components value = CNormal <$> split_on "/" value.
Proof.
  apply path_components_normal; [apply safe_name_reserved|apply safe_name_slashes|].
  eapply Forall_impl; [exact Hsafe|]. by intros piece [].
Qed.

Lemma safe_name_accepted field :
  str_len value ≤ MAX_RELATIVE_PATH_BYTES → validate_relative_name value field = Ok tt.
Proof.
  intros Hlen. unfold validate_relative_name, path_is_absolute.
  destruct safe_name_slashes as (-> & -> & ->), safe_name_ends as (-> & -> & ->).
  rewrite safe_name_ascii, safe_name_components.
  rewrite (proj2 (char_any_false reserved_char value) safe_name_reserved).
  assert (str_is_empty value = false) as ->.
  { apply no_unsafe_piece. intros ->%str_is_empty_true. exists EmptyString. split; [left|].
    by intros []. }
  destruct (N.ltb_spec MAX_RELATIVE_PATH_BYTES (str_len value)); [lia|]. cbn [negb orb].
  assert (existsb unsafe_component (split_on "/" value) = false) as ->.
  { apply no_unsafe_piece. intros (p & Hp & Hu)%existsb_exists. exists p.
    rewrite list_elem_of_In. split; [done|]. intros Hs%safe_piece_component. congruence. }
  generalize (split_on "/" value). intros [|x xs]; [done|]. simpl.
  by induction xs.
Qed.
End SafeName.

(** A relative name is accepted exactly when it has at most 240 bytes and each of its
    slash-separated pieces is a plain file name: printable ASCII without reserved
    characters, neither empty nor ending in a dot or space (so never a parent reference)
    and not a device. The path it denotes then has exactly those pieces as its components,
    all of them normal; every other name is refused as unsafe. *)
Theorem relative_name_exact value field :
  (validate_relative_name value field = Ok tt ↔
   str_len value ≤ MAX_RELATIVE_PATH_BYTES ∧ Forall safe_piece (split_on "/" value)) ∧
  (validate_relative_name value field = Ok tt →
   path_components value = CNormal <$> split_on "/" value) ∧
  (validate_relative_name value field ≠ Ok tt →
   validate_relative_name value field = Err (UnsafePath field)).
Proof.
  split_and!.
  - split; [apply relative_name_safe|]. intros [??]. by apply safe_name_accepted.
  - intros [_ ?]%relative_name_safe. by apply safe_name_components.
  - unfold validate_relative_name. repeat step_if; done.
Qed.

(** ** Confined and authentic reads *)

Section ReadLemmas.
Context (sha256 : bytes → bytes) (fs : FileSystem).

(** The path exists and is neither a link nor a reparse point. *)
Definition unlinked (path : PathBuf) : Prop :=
  ∃ m, symlink_metadata fs path = Ok m ∧ is_symlink m = false ∧ windows_reparse m = false.

(** [path] is what the name denotes below a canonical root, reached without crossing a
    link on the way, and it stays below the root. *)
Definition confined (root : PathBuf) (relative : string) (path : PathBuf) : Prop :=
  let parts := split_on "/" relative in
  Forall safe_piece parts ∧ canonicalize fs root = Ok root ∧
  (∀ k, (k ≤ length parts)%nat → unlinked (root ++ take k parts)) ∧
  canonicalize fs (root ++ parts) = Ok path ∧ path_starts_with path root = true.

Lemma checked_metadata_ok path component m :
  checked_metadata fs path component = Ok m → symlink_metadata fs path = Ok m ∧ unlinked path.
Proof.
  unfold checked_metadata, reject_reparse. rewrite and_then_ok. intros (m' & Hm%map_err_ok & Hk).
  destruct (is_symlink m' || windows_reparse m') eqn:Hr; [done|]. simpl in Hk. simplify_eq.
  apply orb_false_iff in Hr as [??]. split; [done|]. by exists m.
Qed.

Lemma walk_parts_ok current parts component path :
  walk_parts fs current parts component = Ok path →
  path = current ++ parts ∧ ∀ k, (1 ≤ k ≤ length parts)%nat → unlinked (current ++ take k parts).
Proof.
  revert current. induction parts as [|part parts IH]; intros current; simpl.
  { intros [= ->]. rewrite app_nil_r. split; [done|lia]. }
  rewrite and_then_ok. intros (m & [_ Hu]%checked_metadata_ok & [-> Hk]%IH).
  rewrite <- app_assoc. split; [done|]. intros [|[|k]] Hle; [lia|done|].
  specialize (Hk (S k)). rewrite <- app_assoc in Hk. apply Hk. lia.
Qed.

Lemma walk_components_ok root relative component path :
  walk_components fs root relative component = Ok path →
  path = root ++ split_on "/" relative ∧ canonicalize fs root = Ok root ∧
  ∀ k, (k ≤ length (split_on "/" relative))%nat → unlinked (root ++ take k (split_on "/" relative)).
Proof.
  unfold walk_components, read_failed. rewrite and_then_ok.
  intros (m & [_ Hu]%checked_metadata_ok & Hk). destruct (is_dir m); [|done]. simpl in Hk.
  apply and_then_ok in Hk as (current & Hc%map_err_ok & Hk).
  case_bool_decide; [subst|done]. simpl in Hk. apply walk_parts_ok in Hk as [-> Hk].
  split_and!; try done. intros [|k] Hle; [by rewrite app_nil_r|]. apply Hk. lia.
Qed.

Lemma resolve_ok (kind : Metadata → bool) root relative component path :
  (let? _ := validate_relative_name relative "relative_path" in
   let? path := walk_components fs root relative component in
   let? m := checked_metadata fs path component in
   if negb (kind m) then Err (ReadFailed component)
   else canonical_contained fs root path component) = Ok path →
  confined root relative path.
Proof.
  rewrite and_then_ok. intros ([] & [_ Hsafe]%relative_name_safe & Hk).
  apply and_then_ok in Hk as (walked & (-> & Hroot & Hun)%walk_components_ok & Hk).
  apply and_then_ok in Hk as (m & _ & Hk). destruct (kind m); [|done]. simpl in Hk.
  unfold canonical_contained, read_failed in Hk.
  apply and_then_ok in Hk as (canonical & Hc%map_err_ok & Hk).
  destruct (path_starts_with canonical root) eqn:Hs; [|done]. simpl in Hk. simplify_eq.
  by split_and!.
Qed.

Lemma resolve_file_ok root relative component path :
  resolve_existing_file fs root relative component = Ok path → confined root relative path.
Proof. apply (resolve_ok is_file). Qed.

Lemma resolve_directory_ok root relative component path :
  resolve_existing_directory fs root relative component = Ok path → confined root relative path.
Proof. apply (resolve_ok is_dir). Qed.

(** A bounded read that succeeds has read all there is. *)
Lemma read_stream_bounded_ok reader max_bytes component bs :
  read_stream_bounded reader max_bytes component = Ok bs → reader = Ok bs ∧ len bs ≤ max_bytes.
Proof.
  unfold read_stream_bounded, read_failed. rewrite and_then_ok.
  intros (limit & [-> Hmax]%ok_or_ok%checked_add_some & Hk).
  apply and_then_ok in Hk as (all & Ha%map_err_ok & Hk).
  destruct (N.ltb_spec max_bytes (len (take (N.to_nat (max_bytes + 1)) all))) as [|Hle]; [done|].
  simplify_eq. unfold len in *. rewrite length_take in Hle.
  rewrite take_ge by lia. split; [done|lia].
Qed.

Lemma read_bounded_ok root relative component max_bytes bs :
  read_bounded fs root relative component max_bytes = Ok bs →
  ∃ path, confined root relative path ∧ contents fs path = Ok bs ∧ len bs ≤ max_bytes.
Proof.
  unfold read_bounded. rewrite and_then_ok. intros (path & Hp%resolve_file_ok & Hk).
  apply and_then_ok in Hk as (m & _ & Hk). step_if_in Hk; [done|].
  apply and_then_ok in Hk as ([] & _ & Hk).
  apply and_then_ok in Hk as (bs' & [Hc Hl]%read_stream_bounded_ok & Hk).
  step_if_in Hk; simplify_eq. by exists path.
Qed.

Lemma read_hashed_ok root relative component max_bytes hash bs :
  read_hashed sha256 fs root relative component max_bytes hash = Ok bs →
  sha256 bs = hash ∧
  ∃ path, confined root relative path ∧ contents fs path = Ok bs ∧ len bs ≤ max_bytes.
Proof.
  unfold read_hashed. rewrite and_then_ok. intros (bs' & Hr%read_bounded_ok & Hk).
  case_bool_decide; simpl in Hk; simplify_eq. done.
Qed.

Lemma read_verified_bytes_ok root relative component size hash bs :
  read_verified_bytes sha256 fs root relative component size hash = Ok bs →
  sha256 bs = hash ∧ len bs = size ∧ 0 < size ≤ MAX_TILE_BYTES ∧
  ∃ path, confined root relative path ∧ contents fs path = Ok bs.
Proof.
  unfold read_verified_bytes. step_if; [done|]. rewrite and_then_ok.
  intros (path & Hp%resolve_file_ok & Hk). apply and_then_ok in Hk as (m & _ & Hk).
  step_if_in Hk; [done|]. apply and_then_ok in Hk as ([] & _ & Hk).
  apply and_then_ok in Hk as (bs' & [Hc Hl]%read_stream_bounded_ok & Hk).
  step_if_in Hk; [done|]. simplify_eq. reflect_bool. split_and!; try done; [lia|]. by exists path.
Qed.

(** The loop hashes the chunks up to the first empty one. *)
Lemma stream_loop_ok reads total hashed component total' hashed' :
  stream_loop reads total hashed component = Ok (total', hashed') →
  ∃ read, hashed' = hashed ++ read ∧ total' = total + len read ∧
    ∃ pieces rest, reads = (Ok <$> pieces) ++ rest ∧ read = mjoin pieces ∧
      (rest = [] ∨ ∃ rest', rest = Ok [] :: rest').
Proof.
  revert total hashed. induction reads as [|r reads IH]; intros total hashed; simpl.
  { intros [= -> ->]. exists []. rewrite app_nil_r. split_and!; [done|unfold len; simpl; lia|].
    exists [], []. auto. }
  rewrite and_then_ok. intros (chunk & Hr%map_err_ok & Hk). subst r.
  destruct (N.eqb_spec (len chunk) 0) as [Hz|Hz].
  - simplify_eq. exists []. rewrite app_nil_r. split_and!; [done|unfold len; simpl; lia|].
    exists [], (Ok chunk :: reads). split_and!; [done|done|]. right. destruct chunk; [|done]. eauto.
  - apply and_then_ok in Hk as (t & [-> _]%ok_or_ok%checked_add_some & Hk).
    step_if_in Hk; [done|]. apply IH in Hk as (read & -> & -> & pieces & rest & -> & -> & Hrest).
    exists (chunk ++ mjoin pieces). split_and!.
    + by rewrite app_assoc.
    + unfold len. rewrite length_app. lia.
    + exists (chunk :: pieces), rest. auto.
Qed.

Lemma verify_streaming_file_ok root relative component size hash :
  verify_streaming_file sha256 fs root relative component size hash = Ok tt →
  ∃ path pieces rest, confined root relative path ∧
    chunks fs path = (Ok <$> pieces) ++ rest ∧ (rest = [] ∨ ∃ rest', rest = Ok [] :: rest') ∧
    sha256 (mjoin pieces) = hash ∧ len (mjoin pieces) = size ∧ seek_end fs path = Ok size.
Proof.
  unfold verify_streaming_file. step_if; [done|]. rewrite and_then_ok.
  intros (path & Hp%resolve_file_ok & Hk). apply and_then_ok in Hk as (m & _ & Hk).
  step_if_in Hk; [done|]. apply and_then_ok in Hk as ([] & _ & Hk).
  apply and_then_ok in Hk as ([total hashed] & Hs%stream_loop_ok & Hk).
  destruct Hs as (read & -> & -> & pieces & rest & Hr & -> & Hrest).
  apply and_then_ok in Hk as (after & Ha%map_err_ok & Hk). step_if_in Hk; [done|]. reflect_bool.
  subst. exists path, pieces, rest. split_and!; done.
Qed.
End ReadLemmas.

(** ** The tree of tiles holds what the index lists *)

Section TreeLemmas.
Context (fs : FileSystem) (root : PathBuf).

(** A directory entry that is no link and whose canonical path below the root is [name]. *)
Definition entry_named (entry : PathBuf) (name : string) : Prop :=
  unlinked fs entry ∧ ∃ canonical, canonicalize fs entry = Ok canonical ∧
    path_starts_with canonical root = true ∧ name = join_slash (drop (length root) canonical).

(** The entries of a directory and their names, without repetition. *)
Definition directory_lists (path : PathBuf) (names : gset string) : Prop :=
  ∃ entries ns, read_dir fs path = Ok (Ok <$> entries) ∧ Forall2 entry_named entries ns ∧
    NoDup ns ∧ list_to_set ns = names.

Lemma take_entries_ok limit taken entries l :
  take_entries limit taken entries = Ok l → entries = Ok <$> l.
Proof.
  revert taken l. induction entries as [|e entries IH]; intros taken l; simpl; [by intros [= <-]|].
  step_if; [done|]. rewrite and_then_ok. intros (e' & ->%map_err_ok & Hk).
  apply and_then_ok in Hk as (rest & ->%IH & Hk). by simplify_eq.
Qed.

Lemma read_directory_bounded_ok path expected l :
  read_directory_bounded fs path expected = Ok l → read_dir fs path = Ok (Ok <$> l).
Proof.
  unfold read_directory_bounded, read_failed. rewrite and_then_ok. intros (limit & _ & Hk).
  apply and_then_ok in Hk as (entries & He%map_err_ok & ->%take_entries_ok). done.
Qed.

(** The checks both kinds of entries share. *)
Lemma entry_name_ok entry m name :
  read_failed "tiles" (symlink_metadata fs entry) = Ok m →
  reject_reparse m "tiles" = Ok tt →
  (∃ canonical, canonical_contained fs root entry "tiles" = Ok canonical ∧
    relative_name root canonical = Ok name) →
  entry_named entry name.
Proof.
  intros Hm%map_err_ok Hr (canonical & Hc & Hn).
  unfold reject_reparse in Hr. step_if_in Hr; [done|]. reflect_bool.
  unfold canonical_contained, read_failed in Hc.
  apply and_then_ok in Hc as (c & Hc%map_err_ok & Hk).
  destruct (path_starts_with c root) eqn:Hs; [|done]. simpl in Hk. simplify_eq.
  unfold relative_name in Hn. rewrite Hs in Hn. simplify_eq.
  split; [by exists m|]. by exists canonical.
Qed.

Lemma check_directory_ok dirs directories folded entry directories' folded' :
  check_directory fs root dirs (directories, folded) entry = Ok (directories', folded') →
  ∃ name, entry_named entry name ∧ (name ∉ directories) ∧ directories' = ({[ name ]} ∪ directories).
Proof.
  unfold check_directory. rewrite and_then_ok. intros (m & Hm & Hk).
  apply and_then_ok in Hk as ([] & Hr & Hk). step_if_in Hk; [done|].
  apply and_then_ok in Hk as (canonical & Hc & Hk). apply and_then_ok in Hk as (name & Hn & Hk).
  apply and_then_ok in Hk as ([] & _ & Hk). step_if_in Hk; [done|].
  step_if_in Hk; [done|]. reflect_bool. simplify_eq.
  exists name. split_and!; try done. eapply entry_name_ok; eauto.
Qed.

Lemma check_file_ok expected actual files folded entry actual' files' folded' :
  check_file fs root expected (actual, files, folded) entry = Ok (actual', files', folded') →
  ∃ name, entry_named entry name ∧ (name ∉ actual) ∧ actual' = ({[ name ]} ∪ actual) ∧
    files' = ({[ name ]} ∪ files) ∧ (name ∈ expected).
Proof.
  unfold check_file. rewrite and_then_ok. intros (m & Hm & Hk).
  apply and_then_ok in Hk as ([] & Hr & Hk). step_if_in Hk; [done|].
  apply and_then_ok in Hk as (canonical & Hc & Hk). apply and_then_ok in Hk as (name & Hn & Hk).
  apply and_then_ok in Hk as ([] & _ & Hk). step_if_in Hk; [done|].
  step_if_in Hk; [done|]. reflect_bool. simplify_eq.
  exists name. split_and!; try done. eapply entry_name_ok; eauto.
Qed.

Lemma fold_directories_ok dirs entries directories folded directories' folded' :
  try_fold (check_directory fs root dirs) (directories, folded) entries = Ok (directories', folded') →
  ∃ names, Forall2 entry_named entries names ∧ NoDup names ∧
    (∀ n, n ∈ names → n ∉ directories) ∧ directories' = (list_to_set names ∪ directories).
Proof.
  revert directories folded. induction entries as [|e entries IH]; intros directories folded; simpl.
  { intros [= <- <-]. exists []. split_and!; [constructor|constructor|by intros ? ?%elem_of_nil|].
    set_solver. }
  rewrite and_then_ok. intros ([d f] & (name & Hn & Hnew & ->)%check_directory_ok & Hk).
  apply IH in Hk as (names & Hall & Hnd & Hdis & ->). exists (name :: names). split_and!.
  - by constructor.
  - constructor; [|done]. intros Hin%Hdis. set_solver.
  - intros n [->|Hin]%elem_of_cons; [done|]. apply Hdis in Hin. set_solver.
  - rewrite list_to_set_cons. set_solver.
Qed.

Lemma fold_files_ok expected entries actual files folded actual' files' folded' :
  try_fold (check_file fs root expected) (actual, files, folded) entries = Ok (actual', files', folded') →
  ∃ names, Forall2 entry_named entries names ∧ NoDup names ∧
    (∀ n, n ∈ names → n ∉ actual) ∧ actual' = (list_to_set names ∪ actual) ∧
    files' = (list_to_set names ∪ files).
Proof.
  revert actual files folded.
  induction entries as [|e entries IH]; intros actual files folded; simpl.
  { intros [= <- <- <-]. exists []. split_and!; [constructor|constructor|by intros ? ?%elem_of_nil|..];
      set_solver. }
  rewrite and_then_ok. intros ([[a f] g] & (name & Hn & Hnew & -> & -> & _)%check_file_ok & Hk).
  apply IH in Hk as (names & Hall & Hnd & Hdis & -> & ->). exists (name :: names). split_and!.
  - by constructor.
  - constructor; [|done]. intros Hin%Hdis. set_solver.
  - intros n [->|Hin]%elem_of_cons; [done|]. apply Hdis in Hin. set_solver.
  - rewrite list_to_set_cons. set_solver.
  - rewrite list_to_set_cons. set_solver.
Qed.

Definition files_inside (files : gset string) (directory : string) : gset string :=
  filter (λ path, directly_inside directory path = true) files.

Lemma check_tile_directory_ok expected files folded directory files' folded' :
  check_tile_directory fs root expected (files, folded) directory = Ok (files', folded') →
  (∃ path, resolve_existing_directory fs root directory "tiles" = Ok path ∧
    directory_lists path (files_inside expected directory)) ∧
  files' = (files_inside expected directory ∪ files).
Proof.
  unfold check_tile_directory. rewrite and_then_ok. intros (path & Hp & Hk).
  apply and_then_ok in Hk as (entries & He%read_directory_bounded_ok & Hk).
  apply and_then_ok in Hk as ([[a f] g] & Hf & Hk). case_bool_decide as Ha; [|done].
  simpl in Hk. simplify_eq. apply fold_files_ok in Hf as (names & Hall & Hnd & _ & Hn & ->).
  rewrite union_empty_r_L in Hn. fold (files_inside expected directory) in Hn. rewrite <- Hn.
  split; [|done]. exists path. split; [done|]. by exists entries, names.
Qed.

Lemma fold_tile_directories_ok expected directories files folded files' folded' :
  try_fold (check_tile_directory fs root expected) (files, folded) directories = Ok (files', folded') →
  (∀ d, d ∈ directories → ∃ path, resolve_existing_directory fs root d "tiles" = Ok path ∧
    directory_lists path (files_inside expected d)) ∧
  ∀ f, f ∈ files' ↔ f ∈ files ∨ ∃ d, d ∈ directories ∧ f ∈ files_inside expected d.
Proof.
  revert files folded. induction directories as [|d directories IH]; intros files folded; simpl.
  { intros [= <- <-]. split; [by intros ? ?%elem_of_nil|]. intros f. split; [auto|].
    intros [?|(? & ?%elem_of_nil & _)]; done. }
  rewrite and_then_ok. intros ([fi fo] & [Hd ->]%check_tile_directory_ok & [Hds Hf]%IH). split.
  - intros x [->|Hin]%elem_of_cons; [done|]. by apply Hds.
  - intros f. rewrite Hf, elem_of_union. setoid_rewrite elem_of_cons. naive_solver.
Qed.
End TreeLemmas.

(** When the tree of tiles is accepted, its root lists exactly the expected
    directories, every one of them lists exactly the expected files that lie directly in it,
    no entry anywhere is a link, and every expected file lies in an expected directory:
    nothing is missing and nothing is left over. *)
Theorem tile_tree_exact fs root tile_root files directories :
  validate_tile_tree fs root tile_root files directories = Ok tt →
  (∃ path, resolve_existing_directory fs root tile_root "tiles" = Ok path ∧
    directory_lists fs root path directories) ∧
  (∀ d, d ∈ directories → ∃ path, resolve_existing_directory fs root d "tiles" = Ok path ∧
    directory_lists fs root path (files_inside files d)) ∧
  ∀ f, f ∈ files → ∃ d, d ∈ directories ∧ directly_inside d f = true.
Proof.
  unfold validate_tile_tree. rewrite and_then_ok. intros (path & Hp & Hk).
  apply and_then_ok in Hk as (entries & He%read_directory_bounded_ok & Hk).
  apply and_then_ok in Hk as ([ds folded] & Hd & Hk). case_bool_decide as Heq; [subst|done].
  simpl in Hk. apply and_then_ok in Hk as ([fs' g] & Hf & Hk). case_bool_decide as Heq; [subst|done].
  apply fold_directories_ok in Hd as (names & Hall & Hnd & _ & Hn).
  rewrite union_empty_r_L in Hn. apply fold_tile_directories_ok in Hf as [Hds Hfiles].
  split_and!.
  - exists path. split; [done|]. by exists entries, names.
  - intros d Hin. apply Hds. by rewrite elem_of_sort_strings, elem_of_elements.
  - intros f [?|(d & Hin & Hf)]%Hfiles; [set_solver|]. exists d.
    rewrite elem_of_sort_strings, elem_of_elements in Hin. split; [done|].
    by apply elem_of_filter in Hf as [? _].
Qed.

(** ** A small file system *)

(** A file system of the given files, with the directories above them; the contents of a
    file are its path. *)
Definition demo_bytes (path : PathBuf) : bytes := as_bytes (join_slash path).

Definition demo_dir (files : list PathBuf) (path : PathBuf) : bool :=
  existsb (λ f, path_starts_with f path && negb (bool_decide (f = path))) files.

Definition demo_fs (files : list PathBuf) : FileSystem :=
  let stat path :=
    if bool_decide (path ∈ files) then Ok (mkMetadata false 0x20 false true (len (demo_bytes path)))
    else if demo_dir files path then Ok (mkMetadata false 0x10 true false 0)
    else Err NotFound in
  mkFs stat stat Ok (λ _, Ok tt) (λ path, Ok (demo_bytes path)) (λ path, [Ok (demo_bytes path)])
    (λ path, Ok (len (demo_bytes path)))
    (λ path, Ok (Ok <$> remove_dups (take (S (length path))
                                     <$> List.filter (λ f, path_starts_with f path) files))).

(** A stand-in for SHA-256: 32 bytes that depend on every byte of the message. *)
Definition demo_sha256 (message : bytes) : bytes :=
  le_bytes 32 (fold_left (λ h b, (h * 257 + Byte.to_N b + 1) mod 2 ^ 256) message 7).

Definition demo_tile_files : list PathBuf :=
  [["pack"; "tiles"; "0"; "0_0.jpg"]; ["pack"; "tiles"; "0"; "0_1.jpg"]; ["pack"; "tiles"; "1"; "0_0.jpg"]].

Lemma tile_tree_exact_witness :
  ∃ path, resolve_existing_directory (demo_fs demo_tile_files) ["pack"] "tiles" "tiles" = Ok path ∧
    directory_lists (demo_fs demo_tile_files) ["pack"] path {["tiles/0"; "tiles/1"]}.
Proof.
  apply (tile_tree_exact (demo_fs demo_tile_files) ["pack"] "tiles"
           {["tiles/0/0_0.jpg"; "tiles/0/0_1.jpg"; "tiles/1/0_0.jpg"]} {["tiles/0"; "tiles/1"]}).
  vm_compute. reflexivity.
Defined.

(** A tile that is not expected is noticed. *)
Example orphan_refused :
  validate_tile_tree (demo_fs demo_tile_files) ["pack"] "tiles"
    {["tiles/0/0_0.jpg"; "tiles/1/0_0.jpg"]} {["tiles/0"; "tiles/1"]} = Err OrphanTile.
Proof. vm_compute. reflexivity. Qed.
