(* ===== verification/MapManifest.v ===== *)
(** * The manifest of a map pack

    Models [crates/pal-map-pack-store/src/manifest.rs]: parsing of the manifest into
    regions, their authoritative rows, the selection of the region of a world position,
    and the canonical hash that identifies the pack. JSON decoding and SHA-256 are
    parameters. *)

From S2P Require Import Prelude Floats FloatInt MapGeometry PackFiles.

Definition MAP_PACK_SCHEMA_VERSION : N := 2.
Definition TRANSFORM_SCHEMA_VERSION : N := 2.
Definition POI_SCHEMA_VERSION : N := 2.
Definition TILE_INDEX_SCHEMA_VERSION : N := 2.
Definition EXPECTED_CUE4PARSE_VERSION : string := "1.2.2.202607".
Definition MAX_SOURCE_CONTAINERS : N := 4096.
Definition MAX_SMALL_STRING : N := 128.
Definition MAX_MAP_REGIONS : N := 64.

(** ** Data *)

Record RawSourceContainerFingerprint := mkRawContainer {
  raw_relative_name : string;
  raw_size_bytes : N;
  raw_sha256 : string;
}.

Record RawMapRegion := mkRawRegion {
  raw_map_id : string;
  raw_region_id : string;
  raw_source_texture_path : string;
  raw_world_min_x : f64;
  raw_world_min_y : f64;
  raw_world_max_x : f64;
  raw_world_max_y : f64;
  raw_block_size_x : f64;
  raw_block_size_y : f64;
  raw_grid_position_x : f64;
  raw_grid_position_y : f64;
  raw_priority : Z;
  raw_map_width_px : N;
  raw_map_height_px : N;
  raw_map_asset_sha256 : string;
  world_to_map_matrix : Matrix;
  raw_transform_relative_path : string;
  raw_transform_sha256 : string;
  raw_tile_set_sha256 : string;
  raw_tile_index_sha256 : string;
  raw_tile_index_relative_path : string;
}.

Record MapRegion := mkRegion {
  map_id : string;
  region_id : string;
  source_texture_path : string;
  world_min_x : f64;
  world_min_y : f64;
  world_max_x : f64;
  world_max_y : f64;
  block_size_x : f64;
  block_size_y : f64;
  grid_position_x : f64;
  grid_position_y : f64;
  priority : Z;
  map_width_px : N;
  map_height_px : N;
  map_asset_sha256 : bytes;
  world_to_map_transform : WorldToMapTransform.t;
  transform_relative_path : string;
  transform_sha256 : bytes;
  tile_set_sha256 : bytes;
  tile_index_sha256 : bytes;
  tile_index_relative_path : string;
}.

Definition region_prefix (map_id region_id : string) : string :=
  "regions/" ++ to_ascii_lowercase map_id ++ "/" ++ to_ascii_lowercase region_id.

Definition path_prefix (self : MapRegion) : string := region_prefix (map_id self) (region_id self).

Definition region_contains (self : MapRegion) (world_x world_y : f64) : bool :=
  fle (world_min_x self) world_x && fle world_x (world_max_x self)
  && fle (world_min_y self) world_y && fle world_y (world_max_y self).

Definition overlaps (self other : MapRegion) : bool :=
  fle (world_min_x self) (world_max_x other) && fle (world_min_x other) (world_max_x self)
  && fle (world_min_y self) (world_max_y other) && fle (world_min_y other) (world_max_y self).

Record SourceContainerFingerprint := mkContainer {
  container_name : string;
  container_size : N;
  container_sha256 : bytes;
}.

Record RawMapPackManifest := mkRawManifest {
  raw_game_build_id : string;
  raw_schema_version : N;
  raw_source_input_set_sha256 : string;
  raw_source_containers : list RawSourceContainerFingerprint;
  raw_source_contract_sha256 : string;
  raw_mapping_sha256 : string;
  raw_map_regions : list RawMapRegion;
  raw_pois_sha256 : string;
  raw_cue4parse_version : string;
  raw_tile_core_size_px : N;
  raw_tile_gutter_px : N;
  raw_extractor_version : string;
  raw_extractor_commit : string;
  raw_coordinate_transform_version : N;
  raw_poi_schema_version : N;
  raw_generated_at : string;
}.

Record MapPackManifest := mkManifest {
  game_build_id : string;
  schema_version : N;
  source_input_set_sha256 : bytes;
  source_containers : list SourceContainerFingerprint;
  source_contract_sha256 : bytes;
  mapping_sha256 : bytes;
  map_regions : list MapRegion;
  pois_sha256 : bytes;
  cue4parse_version : string;
  tile_core_size_px : N;
  tile_gutter_px : N;
  extractor_version : string;
  extractor_commit : string;
  coordinate_transform_version : N;
  poi_schema_version : N;
  generated_at : string;
}.
#[export] Instance MapPackManifest_eta : Eta MapPackManifest := λ r,
  mkManifest (game_build_id r) (schema_version r) (source_input_set_sha256 r) (source_containers r)
    (source_contract_sha256 r) (mapping_sha256 r) (map_regions r) (pois_sha256 r)
    (cue4parse_version r) (tile_core_size_px r) (tile_gutter_px r) (extractor_version r)
    (extractor_commit r) (coordinate_transform_version r) (poi_schema_version r) (generated_at r).

(** ** Fields *)

Definition invalid_manifest {A} (field : string) : result A MapPackError :=
  Err (InvalidField "manifest" field).

Definition valid_build_id (value : string) : bool :=
  negb (str_is_empty value) && (str_len value <=? 32) && str_all is_ascii_digit value.

Definition validate_small_ascii (value field : string) : result unit MapPackError :=
  if str_is_empty value || (MAX_SMALL_STRING <? str_len value) || negb (str_all is_ascii_graphic value)
  then invalid_manifest field else Ok tt.

Definition validate_texture_path (value : string) : result unit MapPackError :=
  if (240 <? str_len value) || negb (starts_with value "/Game/") || char_any (Ascii.eqb "\") value
     || negb (str_all is_ascii_graphic value)
  then invalid_manifest "map_regions.source_texture_path" else Ok tt.

(** ** Regions *)

Definition geometry_invalid (raw : RawMapRegion) : bool :=
  existsb (λ v, negb (is_finite v))
    [raw_world_min_x raw; raw_world_min_y raw; raw_world_max_x raw; raw_world_max_y raw;
     raw_block_size_x raw; raw_block_size_y raw; raw_grid_position_x raw; raw_grid_position_y raw]
  || fle (raw_world_max_x raw) (raw_world_min_x raw)
  || fle (raw_world_max_y raw) (raw_world_min_y raw)
  || fle (raw_block_size_x raw) f64_zero
  || fle (raw_block_size_y raw) f64_zero
  || (raw_priority raw <? 0)%Z
  || (raw_map_width_px raw =? 0)
  || (raw_map_height_px raw =? 0)
  || (8192 <? raw_map_width_px raw)
  || (8192 <? raw_map_height_px raw).

(** The construction of the region in the order of its fields. *)
Definition build_region (raw : RawMapRegion) : result MapRegion MapPackError :=
  let? asset := parse_hash (raw_map_asset_sha256 raw) "map_regions.map_asset_sha256" in
  let? transform := map_err Transform (WorldToMapTransform.new (world_to_map_matrix raw)) in
  let? transform_hash := parse_hash (raw_transform_sha256 raw) "map_regions.transform_sha256" in
  let? tile_set := parse_hash (raw_tile_set_sha256 raw) "map_regions.tile_set_sha256" in
  let? tile_index := parse_hash (raw_tile_index_sha256 raw) "map_regions.tile_index_sha256" in
  Ok (mkRegion (raw_map_id raw) (raw_region_id raw) (raw_source_texture_path raw)
        (raw_world_min_x raw) (raw_world_min_y raw) (raw_world_max_x raw) (raw_world_max_y raw)
        (raw_block_size_x raw) (raw_block_size_y raw) (raw_grid_position_x raw)
        (raw_grid_position_y raw) (raw_priority raw) (raw_map_width_px raw) (raw_map_height_px raw)
        asset transform (raw_transform_relative_path raw) transform_hash tile_set tile_index
        (raw_tile_index_relative_path raw)).

(** The separator [\0] of an identifier. *)
Definition nul_str : string := String Ascii.zero EmptyString.

(** One turn of the loop: the regions so far and the identifiers seen, in both cases. *)
Definition parse_region_row (state : list MapRegion * (gset string * gset string)) (raw : RawMapRegion) :
    result (list MapRegion * (gset string * gset string)) MapPackError :=
  let '(regions, (identifiers, folded)) := state in
  let? _ := validate_small_ascii (raw_map_id raw) "map_regions.map_id" in
  let? _ := validate_small_ascii (raw_region_id raw) "map_regions.region_id" in
  if negb (str_all is_ascii_alphanumeric (raw_map_id raw))
     || negb (str_all is_ascii_alphanumeric (raw_region_id raw))
  then invalid_manifest "map_regions.identifiers"
  else
    let? _ := validate_texture_path (raw_source_texture_path raw) in
    if geometry_invalid raw then invalid_manifest "map_regions.geometry"
    else
      let identifier := (raw_map_id raw ++ nul_str ++ raw_region_id raw)%string in
      if bool_decide (identifier ∈ identifiers)
         || bool_decide (to_ascii_lowercase identifier ∈ folded)
      then Err (DuplicateEntry "map_region")
      else
        let prefix := region_prefix (raw_map_id raw) (raw_region_id raw) in
        let? _ := validate_relative_name (raw_transform_relative_path raw)
                    "map_regions.transform_relative_path" in
        let? _ := validate_relative_name (raw_tile_index_relative_path raw)
                    "map_regions.tile_index_relative_path" in
        if negb (String.eqb (raw_transform_relative_path raw) (prefix ++ "/transform.json"))
           || negb (String.eqb (raw_tile_index_relative_path raw) (prefix ++ "/tile-index.json"))
        then invalid_manifest "map_regions.relative_paths"
        else
          let? region := build_region raw in
          Ok (regions ++ [region],
              ({[ identifier ]} ∪ identifiers, {[ to_ascii_lowercase identifier ]} ∪ folded)).

Definition then_with (c d : comparison) : comparison := match c with Eq => d | _ => c end.

Definition region_cmp (left right : MapRegion) : comparison :=
  then_with (then_with (priority left ?= priority right)%Z (String.compare (map_id left) (map_id right)))
    (String.compare (region_id left) (region_id right)).

(** Two regions of equal priority that overlap. *)
Fixpoint any_ambiguous (regions : list MapRegion) : bool :=
  match regions with
  | [] => false
  | region :: others =>
      existsb (λ other, (priority region =? priority other)%Z && overlaps region other) others
      || any_ambiguous others
  end.

(** A row of [exact]: identifiers, texture, world bounds and priority. *)
Definition authoritative_rows : list (string * string * string * (f64 * f64 * f64 * f64) * Z) :=
  [("MainMap", "FirstRegion", "/Game/Pal/Texture/UI/Map/T_WorldMap.T_WorldMap",
    (f64_of_Z (-1099400), f64_of_Z (-724400), f64_of_Z 349400, f64_of_Z 724400), 0%Z);
   ("Tree", "DummyRegion", "/Game/Pal/Texture/UI/Map/T_TreeMap.T_TreeMap",
    (f64_lit 694703 2, f64_of_Z (-818197), f64_lit 1378297 2, f64_of_Z (-476400)), 1%Z)].

Definition row_matches (region : MapRegion)
    (expected : string * string * string * (f64 * f64 * f64 * f64) * Z) : bool :=
  let '(m, r, texture, (min_x, min_y, max_x, max_y), p) := expected in
  String.eqb (map_id region) m && String.eqb (region_id region) r
  && String.eqb (source_texture_path region) texture
  && feq (world_min_x region) min_x && feq (world_min_y region) min_y
  && feq (world_max_x region) max_x && feq (world_max_y region) max_y
  && feq (block_size_x region) (f64_of_N 1) && feq (block_size_y region) (f64_of_N 1)
  && feq (grid_position_x region) f64_zero && feq (grid_position_y region) f64_zero
  && (priority region =? p)%Z.

Definition validate_authoritative_regions (regions : list MapRegion) : result unit MapPackError :=
  if negb (len regions =? len authoritative_rows)
  then invalid_manifest "map_regions.authoritative_rows"
  else if negb (forallb (λ '(region, expected), row_matches region expected)
                  (zip regions authoritative_rows))
  then invalid_manifest "map_regions.authoritative_rows"
  else Ok tt.

(** [collect::<BTreeSet<_>>().len()]. *)
Definition distinct (hashes : list bytes) : N := len (remove_dups hashes).

Definition parse_map_regions (raw_regions : list RawMapRegion) : result (list MapRegion) MapPackError :=
  if is_empty raw_regions || (MAX_MAP_REGIONS <? len raw_regions) then invalid_manifest "map_regions"
  else
    let? '(regions, _) := try_fold parse_region_row ([], (∅, ∅)) raw_regions in
    let regions := sort_by region_cmp regions in
    if any_ambiguous regions then Err AmbiguousMapRegions
    else
      let? _ := validate_authoritative_regions regions in
      if negb (distinct (map_asset_sha256 <$> regions) =? len regions)
         || negb (distinct (tile_set_sha256 <$> regions) =? len regions)
      then invalid_manifest "map_regions.distinct_content"
      else Ok regions.

(** [select_map_region]. *)
Definition max_priority (regions : list MapRegion) : option Z :=
  match priority <$> regions with
  | [] => None
  | p :: ps => Some (fold_left Z.max ps p)
  end.

Definition select_map_region (regions : list MapRegion) (world_x world_y : f64) :
    result MapRegion MapPackError :=
  if negb (is_finite world_x) || negb (is_finite world_y) then Err InvalidMapRegionCoordinate
  else
    let? highest := ok_or (max_priority (List.filter (λ r, region_contains r world_x world_y) regions))
                      OutsideMapRegions in
    match List.filter (λ r, (priority r =? highest)%Z && region_contains r world_x world_y) regions with
    | [] => Err OutsideMapRegions
    | [selected] => Ok selected
    | _ => Err AmbiguousMapRegions
    end.

(** ** The manifest *)

Section Manifest.
Context (sha256 : bytes → bytes) (parse_json : bytes → option RawMapPackManifest).

Definition canonical_source_input_message (containers : list SourceContainerFingerprint) : bytes :=
  fold_left
    (λ writer container,
      CanonicalWriter.hash
        (CanonicalWriter.u64 (CanonicalWriter.string writer (container_name container))
           (container_size container))
        (container_sha256 container))
    containers
    (CanonicalWriter.u32 (CanonicalWriter.new (as_bytes ("pal-source-input-v1" ++ nul_str)))
       (len containers)).

Definition canonical_source_input_hash (containers : list SourceContainerFingerprint) : bytes :=
  sha256 (canonical_source_input_message containers).

(** One turn of the loop over the containers. *)
Definition parse_container (state : list SourceContainerFingerprint * (gset string * gset string))
    (raw : RawSourceContainerFingerprint) :
    result (list SourceContainerFingerprint * (gset string * gset string)) MapPackError :=
  let '(containers, (names, folded)) := state in
  let name := raw_relative_name raw in
  let? _ := validate_relative_name name "source_containers.relative_name" in
  if (raw_size_bytes raw =? 0) || bool_decide (name ∈ names)
     || bool_decide (to_ascii_lowercase name ∈ folded)
  then Err (DuplicateEntry "source_container")
  else
    let? sha256 := parse_hash (raw_sha256 raw) "source_containers.sha256" in
    Ok (containers ++ [mkContainer name (raw_size_bytes raw) sha256],
        ({[ name ]} ∪ names, {[ to_ascii_lowercase name ]} ∪ folded)).

Definition container_cmp (left right : SourceContainerFingerprint) : comparison :=
  String.compare (container_name left) (container_name right).

(** [MapPackManifest::parse]. *)
Definition parse_manifest (bs : bytes) (expected_build : string) :
    result MapPackManifest MapPackError :=
  let? raw := ok_or (parse_json bs) (ParseFailed "manifest") in
  if negb (raw_schema_version raw =? MAP_PACK_SCHEMA_VERSION) then invalid_manifest "schema_version"
  else if negb (valid_build_id (raw_game_build_id raw)) then invalid_manifest "game_build_id"
  else if negb (String.eqb (raw_game_build_id raw) expected_build) then
    Err (BuildMismatch expected_build (raw_game_build_id raw))
  else if negb (String.eqb (raw_cue4parse_version raw) EXPECTED_CUE4PARSE_VERSION) then
    invalid_manifest "cue4parse_version"
  else if negb (raw_coordinate_transform_version raw =? TRANSFORM_SCHEMA_VERSION) then
    invalid_manifest "coordinate_transform_version"
  else if negb (raw_poi_schema_version raw =? POI_SCHEMA_VERSION) then
    invalid_manifest "poi_schema_version"
  else if negb (raw_tile_core_size_px raw =? 512) then invalid_manifest "tile_core_size_px"
  else if negb (raw_tile_gutter_px raw =? 2) then invalid_manifest "tile_gutter_px"
  else
    let? _ := validate_small_ascii (raw_extractor_version raw) "extractor_version" in
    let? _ := validate_small_ascii (raw_extractor_commit raw) "extractor_commit" in
    let? _ := validate_small_ascii (raw_generated_at raw) "generated_at" in
    if is_empty (raw_source_containers raw) || (MAX_SOURCE_CONTAINERS <? len (raw_source_containers raw))
    then invalid_manifest "source_containers"
    else
      let? '(containers, _) := try_fold parse_container ([], (∅, ∅)) (raw_source_containers raw) in
      let containers := sort_by container_cmp containers in
      let? input_set := parse_hash (raw_source_input_set_sha256 raw) "source_input_set_sha256" in
      if negb (bool_decide (canonical_source_input_hash containers = input_set)) then
        Err (HashMismatch "source_input_set")
      else
        let? contract := parse_hash (raw_source_contract_sha256 raw) "source_contract_sha256" in
        let? mapping := parse_hash (raw_mapping_sha256 raw) "mapping_sha256" in
        let? regions := parse_map_regions (raw_map_regions raw) in
        let? pois := parse_hash (raw_pois_sha256 raw) "pois_sha256" in
        Ok (mkManifest (raw_game_build_id raw) (raw_schema_version raw) input_set containers contract
              mapping regions pois (raw_cue4parse_version raw) (raw_tile_core_size_px raw)
              (raw_tile_gutter_px raw) (raw_extractor_version raw) (raw_extractor_commit raw)
              (raw_coordinate_transform_version raw) (raw_poi_schema_version raw)
              (raw_generated_at raw)).

(** The part of the canonical message one region contributes. *)
Definition write_region (writer : bytes) (region : MapRegion) : bytes :=
  let w := CanonicalWriter.string writer (map_id region) in
  let w := CanonicalWriter.string w (region_id region) in
  let w := CanonicalWriter.string w (source_texture_path region) in
  let w := fold_left CanonicalWriter.f64
             [world_min_x region; world_min_y region; world_max_x region; world_max_y region;
              block_size_x region; block_size_y region; grid_position_x region;
              grid_position_y region] w in
  let w := CanonicalWriter.i32 w (priority region) in
  let w := CanonicalWriter.u32 w (map_width_px region) in
  let w := CanonicalWriter.u32 w (map_height_px region) in
  let w := CanonicalWriter.hash w (map_asset_sha256 region) in
  let w := fold_left CanonicalWriter.f64
             (flatten (WorldToMapTransform.matrix (world_to_map_transform region))) w in
  let w := CanonicalWriter.string w (transform_relative_path region) in
  let w := CanonicalWriter.hash w (transform_sha256 region) in
  let w := CanonicalWriter.hash w (tile_set_sha256 region) in
  let w := CanonicalWriter.hash w (tile_index_sha256 region) in
  CanonicalWriter.string w (tile_index_relative_path region).

Definition canonical_pack_message (self : MapPackManifest) : bytes :=
  let w := CanonicalWriter.new (as_bytes ("pal-map-pack-v2" ++ nul_str)) in
  let w := CanonicalWriter.u32 w (schema_version self) in
  let w := CanonicalWriter.string w (game_build_id self) in
  let w := CanonicalWriter.hash w (source_input_set_sha256 self) in
  let w := CanonicalWriter.hash w (source_contract_sha256 self) in
  let w := CanonicalWriter.hash w (mapping_sha256 self) in
  let w := CanonicalWriter.u32 w (len (map_regions self)) in
  let w := fold_left write_region (map_regions self) w in
  let w := CanonicalWriter.hash w (pois_sha256 self) in
  let w := CanonicalWriter.string w (cue4parse_version self) in
  let w := CanonicalWriter.u32 w (tile_core_size_px self) in
  let w := CanonicalWriter.u32 w (tile_gutter_px self) in
  let w := CanonicalWriter.string w (extractor_version self) in
  let w := CanonicalWriter.string w (extractor_commit self) in
  let w := CanonicalWriter.u32 w (coordinate_transform_version self) in
  CanonicalWriter.u32 w (poi_schema_version self).

Definition canonical_pack_hash (self : MapPackManifest) : bytes := sha256 (canonical_pack_message self).
End Manifest.

(** ** Selecting a region *)

Lemma contains_overlap r r' x y :
  region_contains r x y = true → region_contains r' x y = true → overlaps r r' = true.
Proof.
  unfold region_contains, overlaps. intros. reflect_bool.
  rewrite !andb_true_iff. split_and!; by eapply fle_trans.
Qed.

Lemma elem_of_List_filter {A} (p : A → bool) l x : x ∈ List.filter p l ↔ x ∈ l ∧ p x = true.
Proof. apply elem_of_retain. Qed.

Lemma fold_max_Z ps p :
  (fold_left Z.max ps p = p ∨ fold_left Z.max ps p ∈ ps) ∧
  (p ≤ fold_left Z.max ps p)%Z ∧ ∀ q, q ∈ ps → (q ≤ fold_left Z.max ps p)%Z.
Proof.
  revert p. induction ps as [|q ps IH]; intros p; simpl.
  { split_and!; [auto|lia|by intros ? ?%elem_of_nil]. }
  destruct (IH (Z.max p q)) as (H1 & H2 & H3). split_and!.
  - destruct H1 as [->|]; [|right; by right].
    destruct (Z.max_spec p q) as [[_ ->]|[_ ->]]; [right; left|auto].
  - lia.
  - intros x [->|Hx]%elem_of_cons; [lia|auto].
Qed.

Lemma max_priority_some l h :
  max_priority l = Some h →
  (∃ r, r ∈ l ∧ priority r = h) ∧ ∀ r, r ∈ l → (priority r ≤ h)%Z.
Proof.
  unfold max_priority. destruct l as [|r l]; [done|]. rewrite fmap_cons. intros [= <-].
  destruct (fold_max_Z (priority <$> l) (priority r)) as (H1 & H2 & H3). split.
  - destruct H1 as [->|(x & -> & Hx)%list_elem_of_fmap]; [by exists r; split; [left|]|].
    exists x. split; [by right|done].
  - intros x [->|Hx]%elem_of_cons; [done|]. apply H3, list_elem_of_fmap. eauto.
Qed.

Lemma max_priority_none l : max_priority l = None ↔ l = [].
Proof. unfold max_priority. by destruct l. Qed.

(** Without ambiguous overlaps, at most one region of a priority contains a point. *)
Lemma unambiguous_filter regions p x y :
  any_ambiguous regions = false →
  ∀ r, r ∈ regions → priority r = p → region_contains r x y = true →
  List.filter (λ r, (priority r =? p)%Z && region_contains r x y) regions = [r].
Proof.
  induction regions as [|q regions IH]; simpl; [by intros _ ? ?%elem_of_nil|].
  intros [Hq Hr]%orb_false_iff r Hin Hp Hc.
  assert (∀ a, priority q = p → region_contains q x y = true → a ∈ regions → priority a = p →
    region_contains a x y = false) as Hno.
  { intros a Hqp Hqc Ha Hap. apply not_true_iff_false. intros Hac.
    apply not_true_iff_false in Hq. apply Hq, existsb_exists. exists a.
    rewrite <- list_elem_of_In, Hqp, Hap, Z.eqb_refl. split; [done|]. by eapply contains_overlap. }
  apply elem_of_cons in Hin as [<-|Hin].
  - rewrite Hp, Z.eqb_refl, Hc. simpl. f_equal. specialize (λ a, Hno a Hp Hc).
    clear -Hno. induction regions as [|b regions IH]; simpl; [done|].
    destruct (Z.eqb_spec (priority b) p) as [Hb|]; simpl.
    + rewrite (Hno b (list_elem_of_here _ _) Hb). apply IH. intros a Ha. apply Hno. by right.
    + apply IH. intros a Ha. apply Hno. by right.
  - destruct (Z.eqb_spec (priority q) p) as [Hqp|]; simpl; [|by apply IH].
    destruct (region_contains q x y) eqn:Hqc; [|by apply IH].
    by rewrite (Hno r Hqp eq_refl Hin Hp) in Hc.
Qed.

Lemma select_map_region_spec regions x y :
  any_ambiguous regions = false →
  match select_map_region regions x y with
  | Ok r => is_finite x = true ∧ is_finite y = true ∧ r ∈ regions ∧ region_contains r x y = true ∧
      ∀ r', r' ∈ regions → region_contains r' x y = true → r' = r ∨ (priority r' < priority r)%Z
  | Err InvalidMapRegionCoordinate => is_finite x = false ∨ is_finite y = false
  | Err OutsideMapRegions => is_finite x = true ∧ is_finite y = true ∧
      ∀ r, r ∈ regions → region_contains r x y = false
  | Err _ => False
  end.
Proof.
  intros Hun. unfold select_map_region.
  destruct (is_finite x) eqn:Hx, (is_finite y) eqn:Hy; simpl; try tauto.
  destruct (max_priority _) as [h|] eqn:Hm; simpl.
  - apply max_priority_some in Hm as [(r & [Hin Hc]%elem_of_List_filter & Hh) Hmax].
    rewrite (unambiguous_filter regions h x y Hun r) by done. split_and!; try done.
    intros r' Hin' Hc'. destruct (decide (priority r' = h)) as [Hp'|].
    + left. pose proof (unambiguous_filter regions h x y Hun r Hin Hh Hc) as E1.
      rewrite (unambiguous_filter regions h x y Hun r' Hin' Hp' Hc') in E1. by simplify_eq.
    + right. specialize (Hmax r'). rewrite elem_of_List_filter in Hmax.
      specialize (Hmax (conj Hin' Hc')). lia.
  - apply max_priority_none in Hm. split_and!; try done. intros r Hin.
    apply not_true_iff_false. intros Hc.
    assert (r ∈ List.filter (λ r, region_contains r x y) regions) as H
      by by apply elem_of_List_filter.
    rewrite Hm in H. by apply elem_of_nil in H.
Qed.

Lemma parse_map_regions_ok raw regions :
  parse_map_regions raw = Ok regions →
  any_ambiguous regions = false ∧ validate_authoritative_regions regions = Ok tt ∧
  ∃ parsed sets, try_fold parse_region_row ([], (∅, ∅)) raw = Ok (parsed, sets) ∧
    regions = sort_by region_cmp parsed.
Proof.
  unfold parse_map_regions. step_if; [done|]. rewrite and_then_ok.
  intros ([parsed sets] & Hp & Hk). step_if_in Hk; [done|].
  apply and_then_ok in Hk as ([] & Hv & Hk). step_if_in Hk; [done|]. simplify_eq.
  split_and!; try done. by exists parsed, sets.
Qed.

(** ** What a parsed manifest is *)

Record manifest_parsed (sha256 : bytes → bytes) (raw : RawMapPackManifest) (build : string)
    (m : MapPackManifest) : Prop := {
  mp_schema : schema_version m = MAP_PACK_SCHEMA_VERSION;
  mp_build : game_build_id m = build;
  mp_build_valid : valid_build_id (game_build_id m) = true;
  mp_cue4parse : cue4parse_version m = EXPECTED_CUE4PARSE_VERSION;
  mp_transform_version : coordinate_transform_version m = TRANSFORM_SCHEMA_VERSION;
  mp_poi_version : poi_schema_version m = POI_SCHEMA_VERSION;
  mp_core : tile_core_size_px m = 512;
  mp_gutter : tile_gutter_px m = 2;
  mp_extractor_version : validate_small_ascii (extractor_version m) "extractor_version" = Ok tt;
  mp_extractor_commit : validate_small_ascii (extractor_commit m) "extractor_commit" = Ok tt;
  mp_count : len (raw_source_containers raw) ≤ MAX_SOURCE_CONTAINERS;
  mp_containers : ∃ parsed sets,
    try_fold parse_container ([], (∅, ∅)) (raw_source_containers raw) = Ok (parsed, sets) ∧
    source_containers m = sort_by container_cmp parsed;
  mp_input : canonical_source_input_hash sha256 (source_containers m) = source_input_set_sha256 m;
  mp_hashes : Forall (λ h : bytes, length h = 32%nat)
    [source_input_set_sha256 m; source_contract_sha256 m; mapping_sha256 m; pois_sha256 m];
  mp_regions : parse_map_regions (raw_map_regions raw) = Ok (map_regions m);
}.

Lemma parse_manifest_ok sha256 parse_json bs build m :
  parse_manifest sha256 parse_json bs build = Ok m →
  ∃ raw, parse_json bs = Some raw ∧ manifest_parsed sha256 raw build m.
Proof.
  unfold parse_manifest. rewrite and_then_ok. intros (raw & Hraw%ok_or_ok & Hk).
  exists raw. split; [done|]. repeat (step_if_in Hk; [done|]).
  apply and_then_ok in Hk as ([] & Hev & Hk). apply and_then_ok in Hk as ([] & Hec & Hk).
  apply and_then_ok in Hk as ([] & Hga & Hk). step_if_in Hk; [done|].
  apply and_then_ok in Hk as ([containers sets] & Hc & Hk).
  apply and_then_ok in Hk as (input & Hi%parse_hash_length & Hk). case_bool_decide; [|done].
  apply and_then_ok in Hk as (contract & Hcon%parse_hash_length & Hk).
  apply and_then_ok in Hk as (mapping & Hmap%parse_hash_length & Hk).
  apply and_then_ok in Hk as (regions & Hr & Hk).
  apply and_then_ok in Hk as (pois & Hp%parse_hash_length & Hk). cbn [negb] in Hk. simplify_eq.
  reflect_bool. repeat match goal with H : String.eqb _ _ = true |- _ => apply String.eqb_eq in H end.
  split; simpl; try done; [by exists containers, sets|by repeat constructor].
Qed.

(** On a parsed manifest, [select_map_region] refuses non-finite coordinates, reports a
    point outside every region as such, and otherwise returns the region containing the
    point whose priority strictly exceeds that of every other region containing it; it
    never finds the choice ambiguous. *)
Theorem region_selection sha256 parse_json bs build m x y :
  parse_manifest sha256 parse_json bs build = Ok m →
  match select_map_region (map_regions m) x y with
  | Ok r => is_finite x = true ∧ is_finite y = true ∧ r ∈ map_regions m ∧
      region_contains r x y = true ∧
      ∀ r', r' ∈ map_regions m → region_contains r' x y = true →
        r' = r ∨ (priority r' < priority r)%Z
  | Err InvalidMapRegionCoordinate => is_finite x = false ∨ is_finite y = false
  | Err OutsideMapRegions => is_finite x = true ∧ is_finite y = true ∧
      ∀ r, r ∈ map_regions m → region_contains r x y = false
  | Err _ => False
  end.
Proof.
  intros (raw & _ & Hm)%parse_manifest_ok. apply select_map_region_spec.
  by apply mp_regions, parse_map_regions_ok in Hm as [? _].
Qed.

(** ** The identity of a pack *)

Definition string_bytes (s : string) : bytes := le_bytes 4 (str_len s) ++ as_bytes s.
Definition f64_bytes (x : f64) : bytes := le_bytes 8 (f64_to_bits x).
Definition i32_bytes (z : Z) : bytes := le_bytes 4 (Z.to_N (z mod 4294967296)%Z).

Definition region_floats (r : MapRegion) : list f64 :=
  [world_min_x r; world_min_y r; world_max_x r; world_max_y r;
   block_size_x r; block_size_y r; grid_position_x r; grid_position_y r].
Definition region_matrix (r : MapRegion) : list f64 :=
  flatten (WorldToMapTransform.matrix (world_to_map_transform r)).

(** What [write_region] appends. *)
Definition region_bytes (r : MapRegion) : bytes :=
  string_bytes (map_id r) ++ string_bytes (region_id r) ++ string_bytes (source_texture_path r)
  ++ mjoin (f64_bytes <$> region_floats r) ++ i32_bytes (priority r)
  ++ le_bytes 4 (map_width_px r) ++ le_bytes 4 (map_height_px r) ++ map_asset_sha256 r
  ++ mjoin (f64_bytes <$> region_matrix r) ++ string_bytes (transform_relative_path r)
  ++ transform_sha256 r ++ tile_set_sha256 r ++ tile_index_sha256 r
  ++ string_bytes (tile_index_relative_path r).

Definition datum (x : f64) : Prop := f64_ok x = true ∧ is_finite x = true.
Definition short (s : string) : Prop := str_len s ≤ u32_max.

(** Regions whose fields have their machine types, with finite numbers. *)
Record region_ok (r : MapRegion) : Prop := {
  ro_strings : Forall short [map_id r; region_id r; source_texture_path r;
                             transform_relative_path r; tile_index_relative_path r];
  ro_floats : Forall datum (region_floats r);
  ro_matrix : Forall datum (region_matrix r);
  ro_priority : (-2147483648 ≤ priority r < 2147483648)%Z;
  ro_width : map_width_px r ≤ u32_max;
  ro_height : map_height_px r ≤ u32_max;
  ro_hashes : Forall (λ h : bytes, length h = 32%nat)
    [map_asset_sha256 r; transform_sha256 r; tile_set_sha256 r; tile_index_sha256 r];
  ro_calibration : WorldToMapTransform.calibration (world_to_map_transform r) = None;
}.

Lemma write_f64s l w : fold_left CanonicalWriter.f64 l w = w ++ mjoin (f64_bytes <$> l).
Proof.
  revert w. induction l as [|x l IH]; intros w; simpl; [by rewrite app_nil_r|].
  rewrite IH. unfold CanonicalWriter.f64. by rewrite <- app_assoc.
Qed.

Lemma write_region_bytes w r : write_region w r = w ++ region_bytes r.
Proof.
  unfold write_region. rewrite !write_f64s.
  unfold region_bytes, CanonicalWriter.string, CanonicalWriter.hash, CanonicalWriter.u32,
    CanonicalWriter.i32, string_bytes. by rewrite <- !app_assoc.
Qed.

Lemma write_regions rs w : fold_left write_region rs w = w ++ mjoin (region_bytes <$> rs).
Proof.
  revert w. induction rs as [|r rs IH]; intros w; simpl; [by rewrite app_nil_r|].
  rewrite IH, write_region_bytes. by rewrite <- app_assoc.
Qed.

Lemma flatten_inj a b : flatten a = flatten b → a = b.
Proof. destruct a, b. intros [=]. by subst. Qed.

Lemma prefix_free_region : prefix_free region_ok region_bytes.
Proof.
  intros a b s t [Sa Fa Ma Pa Wa Ha Xa Ca] [Sb Fb Mb Pb Wb Hb Xb Cb] E.
  rewrite !Forall_cons in Sa, Sb. rewrite !Forall_cons in Xa, Xb. destruct_and?.
  unfold region_bytes in E. rewrite <- !app_assoc in E.
  apply prefix_free_string in E as [E1 E]; [|done..].
  apply prefix_free_string in E as [E2 E]; [|done..].
  apply prefix_free_string in E as [E3 E]; [|done..].
  apply (prefix_free_list datum) in E as [E4 E]; [|apply prefix_free_f64|done..].
  apply prefix_free_i32 in E as [E5 E]; [|done..].
  apply prefix_free_u32 in E as [E6 E]; [|done..].
  apply prefix_free_u32 in E as [E7 E]; [|done..].
  apply prefix_free_hash in E as [E8 E]; [|done..].
  apply (prefix_free_list datum) in E as [E9 E]; [|apply prefix_free_f64|done..].
  apply prefix_free_string in E as [E10 E]; [|done..].
  apply prefix_free_hash in E as [E11 E]; [|done..].
  apply prefix_free_hash in E as [E12 E]; [|done..].
  apply prefix_free_hash in E as [E13 E]; [|done..].
  apply prefix_free_string in E as [E14 ->]; [|done..]. split; [|done].
  apply flatten_inj in E9. destruct a, b; unfold region_floats in E4; simpl in *.
  destruct world_to_map_transform0, world_to_map_transform1; simpl in *.
  injection E4 as -> -> -> -> -> -> -> ->. by subst.
Qed.

Lemma region_row_ok state raw regions sets :
  parse_region_row state raw = Ok (regions, sets) →
  ∃ region, regions = state.1 ++ [region] ∧ build_region raw = Ok region ∧
    geometry_invalid raw = false ∧
    Forall (λ s, str_len s ≤ MAX_RELATIVE_PATH_BYTES)
      [raw_map_id raw; raw_region_id raw; raw_source_texture_path raw;
       raw_transform_relative_path raw; raw_tile_index_relative_path raw].
Proof.
  destruct state as [old [ids folded]]. unfold parse_region_row.
  rewrite and_then_ok. intros ([] & Hid & Hk). apply and_then_ok in Hk as ([] & Hrid & Hk).
  step_if_in Hk; [done|]. apply and_then_ok in Hk as ([] & Ht & Hk).
  step_if_in Hk; [done|]. step_if_in Hk; [done|].
  apply and_then_ok in Hk as ([] & [Hp1 _]%relative_name_safe & Hk).
  apply and_then_ok in Hk as ([] & [Hp2 _]%relative_name_safe & Hk). step_if_in Hk; [done|].
  apply and_then_ok in Hk as (region & Hb & Hk). injection Hk as <- <-.
  exists region. split_and!; [done..|].
  unfold validate_small_ascii, validate_texture_path, invalid_manifest in *.
  step_if_in Hid; [done|]. step_if_in Hrid; [done|]. step_if_in Ht; [done|]. reflect_bool.
  unfold MAX_SMALL_STRING, MAX_RELATIVE_PATH_BYTES in *. repeat constructor; lia.
Qed.

(** The numbers of a decoded document have their machine types. *)
Record raw_region_typed (raw : RawMapRegion) : Prop := {
  rt_floats : Forall (λ x, f64_ok x = true)
    [raw_world_min_x raw; raw_world_min_y raw; raw_world_max_x raw; raw_world_max_y raw;
     raw_block_size_x raw; raw_block_size_y raw; raw_grid_position_x raw; raw_grid_position_y raw];
  rt_matrix : Forall (λ x, f64_ok x = true) (flatten (world_to_map_matrix raw));
  rt_priority : (-2147483648 ≤ raw_priority raw < 2147483648)%Z;
}.

Record raw_typed (raw : RawMapPackManifest) : Prop := {
  rt_regions : Forall raw_region_typed (raw_map_regions raw);
  rt_sizes : Forall (λ c, is_u64 (raw_size_bytes c)) (raw_source_containers raw);
}.

Lemma forallb_finite l : forallb is_finite l = true ↔ Forall (λ x, is_finite x = true) l.
Proof.
  induction l as [|x l IH]; simpl; [split; constructor|].
  by rewrite andb_true_iff, Forall_cons, IH.
Qed.

Lemma existsb_not_finite l :
  existsb (λ v, negb (is_finite v)) l = false → Forall (λ x, is_finite x = true) l.
Proof.
  induction l as [|x l IH]; simpl; [constructor|].
  rewrite orb_false_iff, negb_false_iff. intros [??]. constructor; auto.
Qed.

Lemma Forall_datum l :
  Forall (λ x, f64_ok x = true) l → Forall (λ x, is_finite x = true) l → Forall datum l.
Proof. intros H1 H2. rewrite Forall_forall in *. split; auto. Qed.

Lemma build_region_ok raw region :
  raw_region_typed raw → geometry_invalid raw = false → build_region raw = Ok region →
  Forall (λ s, str_len s ≤ MAX_RELATIVE_PATH_BYTES)
    [raw_map_id raw; raw_region_id raw; raw_source_texture_path raw;
     raw_transform_relative_path raw; raw_tile_index_relative_path raw] →
  region_ok region.
Proof.
  intros [Tf Tm Tp] Hg Hb Hs. unfold build_region in Hb.
  apply and_then_ok in Hb as (asset & Ha%parse_hash_length & Hk).
  apply and_then_ok in Hk as (t & Ht%map_err_ok & Hk).
  apply and_then_ok in Hk as (th & Hth%parse_hash_length & Hk).
  apply and_then_ok in Hk as (ts & Hts%parse_hash_length & Hk).
  apply and_then_ok in Hk as (ti & Hti%parse_hash_length & Hk). injection Hk as <-.
  assert (WorldToMapTransform.matrix t = world_to_map_matrix raw ∧
    WorldToMapTransform.calibration t = None ∧
    Forall (λ x, is_finite x = true) (flatten (world_to_map_matrix raw))) as (Hm & Hc & Hf).
  { pose proof (WorldToMapTransform.transform_new_matrix _ _ Ht) as [? ?%forallb_finite].
    split_and!; try done. unfold WorldToMapTransform.new in Ht. repeat step_if_in Ht; by simplify_eq. }
  unfold geometry_invalid in Hg.
  repeat match type of Hg with (_ || _)%bool = false => apply orb_false_iff in Hg as [Hg ?] end.
  reflect_bool. rewrite !Forall_cons in Hs. destruct_and?.
  unfold MAX_RELATIVE_PATH_BYTES in *. split; simpl; try done.
  - unfold short, u32_max. repeat constructor; lia.
  - apply Forall_datum; [done|]. by apply existsb_not_finite.
  - unfold region_matrix. simpl. rewrite Hm. by apply Forall_datum.
  - unfold u32_max. lia.
  - unfold u32_max. lia.
  - by repeat constructor.
Qed.

(** A fold that appends one element for each row keeps a property of the elements. *)
Lemma try_fold_Forall {A B S} (f : list B * S → A → result (list B * S) MapPackError)
    (P : B → Prop) (Q : A → Prop) :
  (∀ l s a l' s', Q a → f (l, s) a = Ok (l', s') → ∃ b, l' = l ++ [b] ∧ P b) →
  ∀ rows l s l' s', Forall Q rows → Forall P l → try_fold f (l, s) rows = Ok (l', s') → Forall P l'.
Proof.
  intros Hf rows. induction rows as [|a rows IH]; intros l s l' s' Hrows Hl; simpl.
  { by intros [= <- <-]. }
  apply Forall_cons in Hrows as [Ha Hrows]. rewrite and_then_ok. intros ([l1 s1] & H1 & Hk).
  destruct (Hf _ _ _ _ _ Ha H1) as (b & -> & Hb). eapply IH; [done| |done].
  apply Forall_app. auto.
Qed.

Lemma parsed_regions_ok raw regions :
  Forall raw_region_typed raw → parse_map_regions raw = Ok regions →
  Forall region_ok regions ∧ len regions ≤ u32_max.
Proof.
  intros Ht (_ & Hv & parsed & sets & Hp & ->)%parse_map_regions_ok. split.
  - rewrite sort_by_Permutation.
    eapply (try_fold_Forall _ _ raw_region_typed); [|done| |exact Hp]; [|constructor].
    intros l s a l' s' Ha (region & -> & Hb & Hg & Hs)%region_row_ok. exists region.
    split; [done|]. by eapply build_region_ok.
  - unfold validate_authoritative_regions in Hv. step_if_in Hv; [done|]. reflect_bool.
    rewrite Heqb. by vm_compute.
Qed.

Definition container_bytes (c : SourceContainerFingerprint) : bytes :=
  string_bytes (container_name c) ++ le_bytes 8 (container_size c) ++ container_sha256 c.

Record container_ok (c : SourceContainerFingerprint) : Prop := {
  co_name : short (container_name c);
  co_size : is_u64 (container_size c);
  co_hash : length (container_sha256 c) = 32%nat;
}.

Lemma prefix_free_container : prefix_free container_ok container_bytes.
Proof.
  intros a b s t [Na Za Ha] [Nb Zb Hb] E. unfold container_bytes in E. rewrite <- !app_assoc in E.
  apply prefix_free_string in E as [E1 E]; [|done..].
  apply prefix_free_u64 in E as [E2 E]; [|done..].
  apply prefix_free_hash in E as [E3 ->]; [|done..].
  destruct a, b; simpl in *. by subst.
Qed.

Lemma write_containers cs w :
  fold_left
    (λ writer container,
      CanonicalWriter.hash
        (CanonicalWriter.u64 (CanonicalWriter.string writer (container_name container))
           (container_size container))
        (container_sha256 container)) cs w = w ++ mjoin (container_bytes <$> cs).
Proof.
  revert w. induction cs as [|c cs IH]; intros w; simpl; [by rewrite app_nil_r|]. rewrite IH.
  unfold CanonicalWriter.hash, CanonicalWriter.u64, CanonicalWriter.string, CanonicalWriter.u32,
    container_bytes, string_bytes. by rewrite <- !app_assoc.
Qed.

Lemma parse_container_ok state raw containers sets :
  parse_container state raw = Ok (containers, sets) → is_u64 (raw_size_bytes raw) →
  ∃ c, containers = state.1 ++ [c] ∧ container_ok c.
Proof.
  destruct state as [old [names folded]]. unfold parse_container. rewrite and_then_ok.
  intros ([] & [Hn _]%relative_name_safe & Hk) Hs. step_if_in Hk; [done|].
  apply and_then_ok in Hk as (h & Hh%parse_hash_length & Hk). injection Hk as <- <-.
  eexists. split; [done|]. split; try done. unfold short, u32_max, MAX_RELATIVE_PATH_BYTES in *.
  simpl. lia.
Qed.

(** Fields of their types, as parsing leaves them. *)
Record manifest_ok (m : MapPackManifest) : Prop := {
  mo_regions : Forall region_ok (map_regions m);
  mo_region_count : len (map_regions m) ≤ u32_max;
  mo_containers : Forall container_ok (source_containers m);
  mo_container_count : len (source_containers m) ≤ u32_max;
  mo_strings : Forall short [game_build_id m; cue4parse_version m; extractor_version m; extractor_commit m];
  mo_numbers : Forall (λ n, n ≤ u32_max) [schema_version m; tile_core_size_px m; tile_gutter_px m;
    coordinate_transform_version m; poi_schema_version m];
  mo_hashes : Forall (λ h : bytes, length h = 32%nat)
    [source_input_set_sha256 m; source_contract_sha256 m; mapping_sha256 m; pois_sha256 m];
}.

Lemma try_fold_length {A B S} (f : list B * S → A → result (list B * S) MapPackError) :
  (∀ l s a l' s', f (l, s) a = Ok (l', s') → ∃ b, l' = l ++ [b]) →
  ∀ rows l s l' s', try_fold f (l, s) rows = Ok (l', s') → length l' = (length l + length rows)%nat.
Proof.
  intros Hf rows. induction rows as [|a rows IH]; intros l s l' s'; simpl.
  { intros [= <- <-]. lia. }
  rewrite and_then_ok. intros ([l1 s1] & H1 & Hk).
  destruct (Hf _ _ _ _ _ H1) as (b & ->). apply IH in Hk. rewrite length_app in Hk. simpl in Hk. lia.
Qed.

Lemma parse_container_snoc state raw containers sets :
  parse_container state raw = Ok (containers, sets) → ∃ c, containers = state.1 ++ [c].
Proof.
  destruct state as [old [names folded]]. unfold parse_container. rewrite and_then_ok.
  intros ([] & _ & Hk). step_if_in Hk; [done|]. apply and_then_ok in Hk as (h & _ & Hk).
  injection Hk as <- <-. eauto.
Qed.

Lemma small_ascii_short value field : validate_small_ascii value field = Ok tt → short value.
Proof.
  unfold validate_small_ascii. step_if; [done|]. reflect_bool. intros _.
  unfold short, u32_max, MAX_SMALL_STRING in *. lia.
Qed.

Lemma parsed_manifest_ok sha256 raw build m :
  raw_typed raw → manifest_parsed sha256 raw build m → manifest_ok m.
Proof.
  intros [Tr Ts] Hm. destruct (parsed_regions_ok _ _ Tr (mp_regions _ _ _ _ Hm)) as [Hr Hl].
  destruct (mp_containers _ _ _ _ Hm) as (parsed & sets & Hp & Hc).
  pose proof (mp_build_valid _ _ _ _ Hm) as Hb. unfold valid_build_id in Hb. reflect_bool.
  split; try done.
  - rewrite Hc, sort_by_Permutation.
    eapply (try_fold_Forall _ _ (λ c, is_u64 (raw_size_bytes c))); [|done| |exact Hp]; [|constructor].
    intros l s a l' s' Ha Hf. eapply (parse_container_ok (l, s)); done.
  - apply try_fold_length in Hp; [|intros l s a l' s'; apply (parse_container_snoc (l, s))].
    pose proof (mp_count _ _ _ _ Hm) as Hcount. rewrite Hc. unfold len in *.
    rewrite sort_by_Permutation. simpl in Hp. unfold MAX_SOURCE_CONTAINERS, u32_max in *. lia.
  - repeat constructor.
    + unfold short, u32_max. lia.
    + rewrite (mp_cue4parse _ _ _ _ Hm). by vm_compute.
    + eapply small_ascii_short, (mp_extractor_version _ _ _ _ Hm).
    + eapply small_ascii_short, (mp_extractor_commit _ _ _ _ Hm).
  - rewrite (mp_schema _ _ _ _ Hm), (mp_core _ _ _ _ Hm), (mp_gutter _ _ _ _ Hm),
      (mp_transform_version _ _ _ _ Hm), (mp_poi_version _ _ _ _ Hm).
    repeat constructor; by vm_compute.
  - apply (mp_hashes _ _ _ _ Hm).
Qed.

Lemma source_input_message_inj cs1 cs2 :
  Forall container_ok cs1 → Forall container_ok cs2 → len cs1 ≤ u32_max → len cs2 ≤ u32_max →
  canonical_source_input_message cs1 = canonical_source_input_message cs2 → cs1 = cs2.
Proof.
  intros H1 H2 L1 L2. unfold canonical_source_input_message. rewrite !write_containers.
  unfold CanonicalWriter.u32, CanonicalWriter.new. intros E. rewrite <- !app_assoc in E.
  apply app_inv_head in E. apply prefix_free_u32 in E as [El E]; [|done..].
  rewrite <- (app_nil_r (mjoin (container_bytes <$> cs1))),
    <- (app_nil_r (mjoin (container_bytes <$> cs2))) in E.
  apply (prefix_free_list container_ok) in E as [E _]; try done.
  - apply prefix_free_container.
  - unfold len in El. lia.
Qed.

Lemma pack_message_bytes m :
  canonical_pack_message m =
  as_bytes ("pal-map-pack-v2" ++ nul_str) ++ le_bytes 4 (schema_version m)
  ++ string_bytes (game_build_id m) ++ source_input_set_sha256 m ++ source_contract_sha256 m
  ++ mapping_sha256 m ++ le_bytes 4 (len (map_regions m)) ++ mjoin (region_bytes <$> map_regions m)
  ++ pois_sha256 m ++ string_bytes (cue4parse_version m) ++ le_bytes 4 (tile_core_size_px m)
  ++ le_bytes 4 (tile_gutter_px m) ++ string_bytes (extractor_version m)
  ++ string_bytes (extractor_commit m) ++ le_bytes 4 (coordinate_transform_version m)
  ++ le_bytes 4 (poi_schema_version m) ++ [].
Proof.
  unfold canonical_pack_message. rewrite write_regions.
  unfold CanonicalWriter.string, CanonicalWriter.hash, CanonicalWriter.u32, CanonicalWriter.new,
    string_bytes. rewrite app_nil_r. by rewrite <- !app_assoc.
Qed.

(** The canonical message determines every field but the containers, which it binds
    through their digest, and the generation time. *)
Lemma pack_message_inj m1 m2 :
  manifest_ok m1 → manifest_ok m2 → canonical_pack_message m1 = canonical_pack_message m2 →
  m1 <| generated_at := EmptyString |> <| source_containers := [] |> =
  m2 <| generated_at := EmptyString |> <| source_containers := [] |>.
Proof.
  intros [R1 L1 _ _ S1 N1 X1] [R2 L2 _ _ S2 N2 X2] E. rewrite !pack_message_bytes in E.
  apply app_inv_head in E.
  rewrite !Forall_cons in S1, S2. rewrite !Forall_cons in N1, N2. rewrite !Forall_cons in X1, X2.
  destruct_and?.
  apply prefix_free_u32 in E as [E1 E]; [|done..].
  apply prefix_free_string in E as [E2 E]; [|done..].
  apply prefix_free_hash in E as [E3 E]; [|done..].
  apply prefix_free_hash in E as [E4 E]; [|done..].
  apply prefix_free_hash in E as [E5 E]; [|done..].
  apply prefix_free_u32 in E as [E6 E]; [|done..].
  apply (prefix_free_list region_ok) in E as [E7 E];
    [|apply prefix_free_region|done|done|unfold len in E6; lia].
  apply prefix_free_hash in E as [E8 E]; [|done..].
  apply prefix_free_string in E as [E9 E]; [|done..].
  apply prefix_free_u32 in E as [E10 E]; [|done..].
  apply prefix_free_u32 in E as [E11 E]; [|done..].
  apply prefix_free_string in E as [E12 E]; [|done..].
  apply prefix_free_string in E as [E13 E]; [|done..].
  apply prefix_free_u32 in E as [E14 E]; [|done..].
  apply prefix_free_u32 in E as [E15 _]; [|done..].
  destruct m1, m2; simpl in *. by subst.
Qed.

(** Two messages with one digest. *)
Definition collision (sha256 : bytes → bytes) (a b : bytes) : Prop := a ≠ b ∧ sha256 a = sha256 b.

(** The canonical hash identifies a pack: two manifests that parse and have the same
    canonical hash agree in every field but the generation time (source containers, region
    geometry down to the bits of each coordinate, and all content digests included), unless
    the two messages hashed are a collision of the digest. *)
Theorem pack_identity_binds sha256 parse_json bs1 bs2 build1 build2 m1 m2
    (parse_json_typed : ∀ bs raw, parse_json bs = Some raw → raw_typed raw) :
  parse_manifest sha256 parse_json bs1 build1 = Ok m1 →
  parse_manifest sha256 parse_json bs2 build2 = Ok m2 →
  canonical_pack_hash sha256 m1 = canonical_pack_hash sha256 m2 →
  collision sha256 (canonical_pack_message m1) (canonical_pack_message m2) ∨
  collision sha256 (canonical_source_input_message (source_containers m1))
    (canonical_source_input_message (source_containers m2)) ∨
  m1 <| generated_at := EmptyString |> = m2 <| generated_at := EmptyString |>.
Proof.
  intros (raw1 & J1%parse_json_typed & M1)%parse_manifest_ok
         (raw2 & J2%parse_json_typed & M2)%parse_manifest_ok Hh.
  pose proof (parsed_manifest_ok _ _ _ _ J1 M1) as O1.
  pose proof (parsed_manifest_ok _ _ _ _ J2 M2) as O2.
  destruct (decide (canonical_pack_message m1 = canonical_pack_message m2)) as [E|]; [|by left].
  right. apply pack_message_inj in E; [|done..].
  assert (source_input_set_sha256 m1 = source_input_set_sha256 m2) as Hs
    by exact (f_equal source_input_set_sha256 E).
  rewrite <- (mp_input _ _ _ _ M1), <- (mp_input _ _ _ _ M2) in Hs.
  destruct (decide (canonical_source_input_message (source_containers m1) =
    canonical_source_input_message (source_containers m2))) as [Ec|]; [|by left].
  right. apply source_input_message_inj in Ec; [|apply O1|apply O2|apply O1|apply O2].
  clear -E Ec. destruct m1, m2. cbn in *. injection E. intros. by subst.
Qed.

(** ** Facts about parsed regions *)

Lemma build_region_fields raw region :
  build_region raw = Ok region →
  map_width_px region = raw_map_width_px raw ∧ map_height_px region = raw_map_height_px raw.
Proof.
  unfold build_region. rewrite and_then_ok. intros (? & _ & Hk).
  do 4 (apply and_then_ok in Hk as (? & _ & Hk)). by injection Hk as <-.
Qed.

Lemma parsed_regions_dimensions raw regions :
  parse_map_regions raw = Ok regions →
  Forall (λ r, 0 < map_width_px r ≤ 8192 ∧ 0 < map_height_px r ≤ 8192) regions.
Proof.
  intros (_ & _ & parsed & sets & Hp & ->)%parse_map_regions_ok. rewrite sort_by_Permutation.
  eapply (try_fold_Forall _ _ (λ _, True)); [|by apply Forall_true| |exact Hp]; [|constructor].
  intros l s a l' s' _ (region & -> & Hb & Hg & _)%region_row_ok. exists region.
  split; [done|]. destruct (build_region_fields _ _ Hb) as [-> ->].
  unfold geometry_invalid in Hg. reflect_bool. lia.
Qed.

(** The two authoritative regions have different identifiers. *)
Lemma authoritative_distinct regions r1 r2 :
  validate_authoritative_regions regions = Ok tt → r1 ∈ regions → r2 ∈ regions →
  map_id r1 = map_id r2 → r1 = r2.
Proof.
  unfold validate_authoritative_regions. destruct regions as [|a [|b [|c regions]]]; try done.
  2: { destruct (N.eqb_spec (len (a :: b :: c :: regions)) (len authoritative_rows)) as [Hl|];
         [unfold len in Hl; simpl in Hl; lia|done]. }
  intros Hv. step_if_in Hv; [done|]. step_if_in Hv; [done|]. clear Hv Heqb0.
  unfold authoritative_rows, row_matches in Heqb1. cbn [zip zip_with forallb] in Heqb1. reflect_bool.
  repeat match goal with H : String.eqb _ _ = true |- _ => apply String.eqb_eq in H end.
  rewrite !elem_of_cons, !elem_of_nil. intros [->|[->|[]]] [->|[->|[]]]; congruence.
Qed.

(** ** A small pack *)

(** Digests of the files of the small pack, as the manifest states them. *)
Definition demo_digest (path : PathBuf) : string := encode_hash (demo_sha256 (demo_bytes path)).

Definition demo_raw_region (m r texture : string) (min_x min_y max_x max_y : f64) (p : Z) (tiles : string) :
    RawMapRegion :=
  let prefix := region_prefix m r in
  let file name := ["pack"; "regions"; to_ascii_lowercase m; to_ascii_lowercase r; name] in
  mkRawRegion m r texture min_x min_y max_x max_y (f64_of_N 1) (f64_of_N 1) f64_zero f64_zero p 8 8
    (demo_digest ["asset"; m]) (demo_matrix min_x min_y max_x max_y 8 8)
    (prefix ++ "/transform.json") (demo_digest (file "transform.json")) tiles
    (demo_digest (file "tile-index.json")) (prefix ++ "/tile-index.json").

Definition demo_main_matrix : Matrix :=
  demo_matrix (f64_of_Z (-1099400)) (f64_of_Z (-724400)) (f64_of_Z 349400) (f64_of_Z 724400) 8 8.

(** A region of which only the map size and the transform matter. *)
Definition demo_map_region (w h : N) : MapRegion :=
  mkRegion "MainMap" "FirstRegion" EmptyString f64_zero f64_zero f64_zero f64_zero f64_zero f64_zero f64_zero
    f64_zero 0 w h [] (WorldToMapTransform.mk demo_main_matrix None) EmptyString [] [] [] EmptyString.

(** The two authoritative regions, given the digests of their tile sets. *)
Definition demo_raw_regions (tiles_main tiles_tree : string) : list RawMapRegion :=
  [demo_raw_region "Tree" "DummyRegion" "/Game/Pal/Texture/UI/Map/T_TreeMap.T_TreeMap"
     (f64_lit 694703 2) (f64_of_Z (-818197)) (f64_lit 1378297 2) (f64_of_Z (-476400)) 1 tiles_tree;
   demo_raw_region "MainMap" "FirstRegion" "/Game/Pal/Texture/UI/Map/T_WorldMap.T_WorldMap"
     (f64_of_Z (-1099400)) (f64_of_Z (-724400)) (f64_of_Z 349400) (f64_of_Z 724400) 0 tiles_main].

Definition demo_container : RawSourceContainerFingerprint :=
  mkRawContainer "Pal/Content/Paks/Pal-Windows.pak" 1024 (demo_digest ["source"]).

Definition demo_raw_manifest (tiles_main tiles_tree generated : string) : RawMapPackManifest :=
  mkRawManifest "23456789" 2
    (encode_hash (canonical_source_input_hash demo_sha256
       [mkContainer "Pal/Content/Paks/Pal-Windows.pak" 1024 (demo_sha256 (demo_bytes ["source"]))]))
    [demo_container] (demo_digest ["contract"]) (demo_digest ["mapping"])
    (demo_raw_regions tiles_main tiles_tree) (demo_digest ["pack"; "pois.json"])
    EXPECTED_CUE4PARSE_VERSION 512 2 "1.0.0" "abcdef0" 2 2 generated.

Definition demo_manifest_at (generated : string) : result MapPackManifest MapPackError :=
  parse_manifest demo_sha256
    (λ _, Some (demo_raw_manifest (demo_digest ["main"]) (demo_digest ["tree"]) generated)) []
    "23456789".

Definition demo_manifest (generated : string) : MapPackManifest :=
  match demo_manifest_at generated with
  | Ok m => m
  | Err _ => mkManifest EmptyString 0 [] [] [] [] [] [] EmptyString 0 0 EmptyString EmptyString 0 0 EmptyString
  end.

Lemma demo_manifest_typed tiles_main tiles_tree generated :
  raw_typed (demo_raw_manifest tiles_main tiles_tree generated).
Proof.
  split.
  - repeat constructor; vm_compute; (reflexivity || discriminate).
  - repeat constructor. by vm_compute.
Qed.

(** Where the two regions overlap, the one of higher priority is selected. *)
Lemma region_selection_witness :
  ∃ r, select_map_region (map_regions (demo_manifest "now")) (f64_of_Z 348000) (f64_of_Z (-500000)) = Ok r ∧
    map_id r = "Tree"%string ∧
    ∀ r', r' ∈ map_regions (demo_manifest "now") →
      region_contains r' (f64_of_Z 348000) (f64_of_Z (-500000)) = true →
      r' = r ∨ (priority r' < priority r)%Z.
Proof.
  assert (demo_manifest_at "now" = Ok (demo_manifest "now")) as Hm by (vm_compute; reflexivity).
  pose proof (region_selection demo_sha256 _ _ _ _ (f64_of_Z 348000) (f64_of_Z (-500000)) Hm) as H.
  destruct (select_map_region (map_regions (demo_manifest "now")) (f64_of_Z 348000) (f64_of_Z (-500000)))
    as [r|e] eqn:E; [|vm_compute in E; discriminate].
  exists r. split; [reflexivity|]. destruct H as (_ & _ & _ & _ & H).
  split; [vm_compute in E; injection E as <-; reflexivity|exact H].
Defined.

Lemma pack_identity_binds_witness :
  canonical_pack_hash demo_sha256 (demo_manifest "then") =
    canonical_pack_hash demo_sha256 (demo_manifest "now") ∧
  (collision demo_sha256 (canonical_pack_message (demo_manifest "then"))
     (canonical_pack_message (demo_manifest "now")) ∨
   collision demo_sha256 (canonical_source_input_message (source_containers (demo_manifest "then")))
     (canonical_source_input_message (source_containers (demo_manifest "now"))) ∨
   (demo_manifest "then") <| generated_at := EmptyString |> =
     (demo_manifest "now") <| generated_at := EmptyString |>).
Proof.
  assert (canonical_pack_hash demo_sha256 (demo_manifest "then") =
    canonical_pack_hash demo_sha256 (demo_manifest "now")) as Hh by (vm_compute; reflexivity).
  split; [exact Hh|].
  apply (pack_identity_binds demo_sha256
    (λ bs, Some (demo_raw_manifest (demo_digest ["main"]) (demo_digest ["tree"])
                   (if is_empty bs then "then" else "now")))
    [] [Byte.x00] "23456789" "23456789" (demo_manifest "then") (demo_manifest "now")).
  - intros bs raw [= <-]. apply demo_manifest_typed.
  - vm_compute. reflexivity.
  - vm_compute. reflexivity.
  - exact Hh.
Defined.
