(* ===== verification/PoiIndex.v ===== *)
(** * The index of points of interest

    Models [crates/pal-map-pack-store/src/poi.rs]: validation of the points of a pack, and
    the spatial index that answers which of them lie in a rectangle. JSON decoding and
    [f64::hypot] are arguments. *)

From S2P Require Import Prelude Floats FloatInt MapGeometry PackFiles MapManifest.

Definition MAX_POIS : N := 100000.
Definition MAX_POI_ID_BYTES : N := 128.
Definition MAX_DISPLAY_NAME_BYTES : N := 256.
Definition MAX_ENTITY_ID_BYTES : N := 128.
Definition BUCKET_SIZE_PX : f64 := f64_of_N 256.

(** ** Kinds and filters *)

Inductive PoiKind := FastTravel | Boss | Wanted | Dungeon.
#[export] Instance PoiKind_eq_dec : EqDecision PoiKind.
Proof. solve_decision. Defined.

(** [kind as u8]. *)
Definition kind_u8 (kind : PoiKind) : N :=
  match kind with FastTravel => 0 | Boss => 1 | Wanted => 2 | Dungeon => 3 end.

(** [PoiHandle] and [PoiFilterMask] are newtypes of [u32] and [u8]. *)
Definition PoiHandle : Type := N.
Definition PoiFilterMask : Type := N.

Definition mask_none : PoiFilterMask := 0.
Definition mask_all : PoiFilterMask := 15.
Definition from_kinds (kinds : list PoiKind) : PoiFilterMask :=
  fold_left (λ mask kind, N.lor mask (N.shiftl 1 (kind_u8 kind))) kinds 0.
Definition mask_contains (self : PoiFilterMask) (kind : PoiKind) : bool :=
  negb (N.land self (N.shiftl 1 (kind_u8 kind)) =? 0).

(** ** Points *)

Record Poi := mkPoi {
  poi_id : string;
  poi_map_id : string;
  poi_region_id : string;
  poi_kind : PoiKind;
  display_name : string;
  entity_id : option string;
  poi_world : WorldPoint.t;
  poi_map : MapPoint.t;
  source_build_id : string;
  verified : bool;
}.

Record PoiIndex := mkPoiIndex {
  records : list Poi;
  buckets : gmap (N * N) (list PoiHandle);
  index_width_px : N;
  index_height_px : N;
}.

Definition poi_get (self : PoiIndex) (handle : PoiHandle) : option Poi :=
  records self !! N.to_nat handle.

(** [(value / BUCKET_SIZE_PX).floor().max(0.0) as u32]. *)
Definition bucket (value : f64) : N :=
  as_u32 (fmax (ffloor (fdiv prec64 emax64 value BUCKET_SIZE_PX)) f64_zero).

(** [lo..=hi]. *)
Definition range_inclusive (lo hi : N) : list N :=
  (λ i, lo + N.of_nat i) <$> seq 0 (N.to_nat (hi + 1 - lo)).

(** The loop over the handles of a bucket; a handle outside the records would panic. *)
Fixpoint push_visible (records : list Poi) (rect : MapRect.t) (filters : PoiFilterMask)
    (handles : list PoiHandle) : option (list PoiHandle) :=
  match handles with
  | [] => Some []
  | handle :: handles =>
      poi ← records !! N.to_nat handle;
      rest ← push_visible records rect filters handles;
      Some (if mask_contains filters (poi_kind poi) && MapRect.contains rect (poi_map poi)
            then handle :: rest else rest)
  end.

(** [slice::sort_unstable] on handles. *)
Definition sort_handles (l : list N) : list N := merge_sort N.le l.

Definition visible_into (self : PoiIndex) (rect : MapRect.t) (filters : PoiFilterMask) :
    option (list PoiHandle) :=
  if filters =? mask_none then Some []
  else
    let min_x := fmax (MapRect.min_x rect) f64_zero in
    let min_y := fmax (MapRect.min_y rect) f64_zero in
    let max_x := fmin (MapRect.max_x rect) (f64_of_N (index_width_px self)) in
    let max_y := fmin (MapRect.max_y rect) (f64_of_N (index_height_px self)) in
    if flt max_x min_x || flt max_y min_y then Some []
    else
      output ← mapM
        (λ '(y, x), push_visible (records self) rect filters (unwrap_or (buckets self !! (y, x)) []))
        (y ← range_inclusive (bucket min_y) (bucket max_y);
         x ← range_inclusive (bucket min_x) (bucket max_x);
         [(y, x)]);
      Some (dedup (sort_handles (mjoin output))).

Definition poi_cmp (left right : Poi) : comparison :=
  then_with (kind_u8 (poi_kind left) ?= kind_u8 (poi_kind right))
    (String.compare (poi_id left) (poi_id right)).

(** [entry(key).or_default().push(handle)]. *)
Definition push_bucket (buckets : gmap (N * N) (list PoiHandle)) (key : N * N) (handle : PoiHandle) :
    gmap (N * N) (list PoiHandle) :=
  <[ key := unwrap_or (buckets !! key) [] ++ [handle] ]> buckets.

Definition poi_bucket (poi : Poi) : N * N :=
  (bucket (MapPoint.y (poi_map poi)), bucket (MapPoint.x (poi_map poi))).

(** The loop over the records, from index [next] on. *)
Fixpoint fill_buckets (buckets : gmap (N * N) (list PoiHandle)) (next : N) (records : list Poi) :
    gmap (N * N) (list PoiHandle) :=
  match records with
  | [] => buckets
  | poi :: records => fill_buckets (push_bucket buckets (poi_bucket poi) next) (next + 1) records
  end.

Definition from_records (records : list Poi) (region : MapRegion) : PoiIndex :=
  let records := sort_by poi_cmp records in
  mkPoiIndex records (fill_buckets ∅ 0 records) (map_width_px region) (map_height_px region).

(** ** Parsing *)

Record RawPoi := mkRawPoi {
  rp_id : string;
  rp_map_id : string;
  rp_region_id : string;
  rp_kind : string;
  rp_display_name : string;
  rp_entity_id : option string;
  rp_world_x : f64;
  rp_world_y : f64;
  rp_map_x : f64;
  rp_map_y : f64;
  rp_source_build_id : string;
  rp_verified : bool;
}.

Record RawPoiDocument := mkRawPois {
  rd_schema_version : N;
  rd_game_build_id : string;
  rd_poi_count : N;
  rd_pois : list RawPoi;
}.

Definition invalid_poi {A} (field : string) : result A MapPackError := Err (InvalidField "pois" field).

Definition parse_kind (value : string) : result PoiKind MapPackError :=
  if String.eqb value "fast_travel" then Ok FastTravel
  else if String.eqb value "boss" then Ok Boss
  else if String.eqb value "wanted" then Ok Wanted
  else if String.eqb value "dungeon" then Ok Dungeon
  else invalid_poi "pois.kind".

(** [position]. *)
Fixpoint position {A} (p : A → bool) (l : list A) : option nat :=
  match l with
  | [] => None
  | x :: l => if p x then Some O else S <$> position p l
  end.

Definition entity_invalid (entity_id : string) : bool :=
  str_is_empty entity_id || (MAX_ENTITY_ID_BYTES <? str_len entity_id)
  || negb (str_all (λ byte, is_ascii_alphanumeric byte || (byte =? 95)) entity_id).

Section Parsing.
Context (hypot : f64 → f64 → f64) (parse_json : bytes → option RawPoiDocument).

(** The state of the loop: ids seen, kinds seen, records of each region. *)
Record PoiState := mkPoiState {
  ids : gset string;
  kind_coverage : list bool;
  records_by_region : list (list Poi);
}.

Definition parse_poi (build : string) (regions : list MapRegion) (state : PoiState) (raw : RawPoi) :
    result PoiState MapPackError :=
  if str_is_empty (rp_id raw) || (MAX_POI_ID_BYTES <? str_len (rp_id raw))
     || negb (str_all is_ascii_graphic (rp_id raw)) || bool_decide (rp_id raw ∈ ids state)
  then invalid_poi "pois.id"
  else if str_is_empty (rp_display_name raw) || (MAX_DISPLAY_NAME_BYTES <? str_len (rp_display_name raw))
  then invalid_poi "pois.display_name"
  else if is_some_and (rp_entity_id raw) entity_invalid then invalid_poi "pois.entity_id"
  else
    let? kind := parse_kind (rp_kind raw) in
    let? region_index := ok_or (position (λ region, String.eqb (map_id region) (rp_map_id raw)
                                                    && String.eqb (region_id region) (rp_region_id raw))
                                  regions)
                           (InvalidField "pois" "pois.region_identity") in
    let? region := ok_or (regions !! region_index) (InvalidField "pois" "pois.region_identity") in
    if negb (String.eqb (rp_source_build_id raw) build) then invalid_poi "pois.source_build_id"
    else if negb (rp_verified raw) then invalid_poi "pois.verified"
    else if negb (forallb is_finite [rp_world_x raw; rp_world_y raw; rp_map_x raw; rp_map_y raw])
    then invalid_poi "pois.coordinates"
    else
      let? selected_region := select_map_region regions (rp_world_x raw) (rp_world_y raw) in
      if negb (String.eqb (map_id selected_region) (rp_map_id raw))
         || negb (String.eqb (region_id selected_region) (rp_region_id raw))
      then invalid_poi "pois.region_selection"
      else
        let? world := map_err Transform (WorldPoint.new (rp_world_x raw) (rp_world_y raw)) in
        let? map := map_err Transform (MapPoint.new (rp_map_x raw) (rp_map_y raw)) in
        if negb (region_contains region (rp_world_x raw) (rp_world_y raw))
           || flt (rp_map_x raw) f64_zero
           || flt (f64_of_N (map_width_px region)) (rp_map_x raw)
           || flt (rp_map_y raw) f64_zero
           || flt (f64_of_N (map_height_px region)) (rp_map_y raw)
        then invalid_poi "pois.map_coordinates"
        else
          let? projected := map_err Transform
                              (WorldToMapTransform.project (world_to_map_transform region) world) in
          let parity_error := hypot (fsub prec64 emax64 (MapPoint.x projected) (MapPoint.x map))
                                    (fsub prec64 emax64 (MapPoint.y projected) (MapPoint.y map)) in
          if negb (is_finite parity_error) || flt PARITY_TOLERANCE_PX parity_error
          then invalid_poi "pois.coordinate_parity"
          else
            let poi := mkPoi (rp_id raw) (rp_map_id raw) (rp_region_id raw) kind
                         (rp_display_name raw) (rp_entity_id raw) world map (rp_source_build_id raw)
                         (rp_verified raw) in
            Ok (mkPoiState ({[ rp_id raw ]} ∪ ids state)
                  (<[ N.to_nat (kind_u8 kind) := true ]> (kind_coverage state))
                  (alter (λ records, records ++ [poi]) region_index (records_by_region state))).

Definition parse_by_region (bs : bytes) (build : string) (regions : list MapRegion) :
    result (list PoiIndex) MapPackError :=
  let? raw := ok_or (parse_json bs) (ParseFailed "pois") in
  if negb (rd_schema_version raw =? POI_SCHEMA_VERSION) then invalid_poi "schema_version"
  else if negb (String.eqb (rd_game_build_id raw) build) then invalid_poi "game_build_id"
  else if negb (rd_poi_count raw =? len (rd_pois raw)) || (MAX_POIS <? len (rd_pois raw))
          || (len (rd_pois raw) <? 3)
  then invalid_poi "poi_count"
  else
    let? state := try_fold (parse_poi build regions)
                    (mkPoiState ∅ [false; false; false; false] ((λ _, []) <$> regions))
                    (rd_pois raw) in
    let covered (kind : PoiKind) := unwrap_or (kind_coverage state !! N.to_nat (kind_u8 kind)) false in
    if negb (covered FastTravel) || negb (covered Boss) || negb (covered Dungeon)
    then invalid_poi "poi_kind_coverage"
    else Ok ((λ '(records, region), from_records records region)
               <$> zip (records_by_region state) regions).
End Parsing.

(** ** Buckets *)

Lemma bucket_spec v :
  f64_ok v = true → is_finite v = true → nonneg v = true →
  bucket v = N.min (Z.to_N (int_part v / 256)) u32_max.
Proof.
  intros Ov Fv Nv. unfold bucket, BUCKET_SIZE_PX.
  destruct (fdiv_256_int_part v Ov Fv Nv) as (Oq & Fq & Nq & Hq).
  destruct (ffloor_int_part _ Oq Fq Nq) as (Hf & Ff & Nf).
  set (f := ffloor _) in *.
  assert (fmax f f64_zero = f) as ->.
  { unfold fmax. rewrite is_finite_not_nan by done. cbn [is_nan f64_zero].
    rewrite flt_not_fle by (done || by apply is_finite_not_nan). unfold nonneg in Nf. by rewrite Nf. }
  by rewrite as_u32_finite, Hf, Hq.
Qed.

(** Coordinates of points and rectangles that take part in the search. *)
Definition coordinate (v : f64) : Prop := f64_ok v = true ∧ is_finite v = true ∧ nonneg v = true.

Lemma bucket_mono a b : coordinate a → coordinate b → fle a b = true → bucket a ≤ bucket b.
Proof.
  intros (? & ? & ?) (? & ? & ?) Hle. rewrite !bucket_spec by done.
  pose proof (int_part_mono a b) as Hm.
  assert (int_part a / 256 ≤ int_part b / 256)%Z by (apply Z.div_le_mono; auto with lia). lia.
Qed.

Lemma elem_of_range_inclusive lo hi n : n ∈ range_inclusive lo hi ↔ lo ≤ n ≤ hi.
Proof.
  unfold range_inclusive. rewrite list_elem_of_fmap. split.
  - intros (i & -> & Hi%elem_of_seq). lia.
  - intros Hn. exists (N.to_nat (n - lo)). split; [lia|]. apply elem_of_seq. lia.
Qed.

Lemma fill_buckets_lookup rs bs next key h :
  h ∈ unwrap_or (fill_buckets bs next rs !! key) [] ↔
  h ∈ unwrap_or (bs !! key) [] ∨
  ∃ i poi, rs !! i = Some poi ∧ poi_bucket poi = key ∧ h = next + N.of_nat i.
Proof.
  revert bs next. induction rs as [|poi rs IH]; intros bs next; simpl.
  { split; [auto|]. intros [?|(i & poi & Hi & _)]; done. }
  rewrite IH. unfold push_bucket. destruct (decide (poi_bucket poi = key)) as [Hk|Hk].
  - subst. rewrite lookup_insert_eq. simpl. rewrite elem_of_app, list_elem_of_singleton. split.
    + intros [[?| ->]|(i & p & Hi & Hb & ->)]; [by left|right..].
      * exists O, poi. split_and!; [done|done|lia].
      * exists (S i), p. split_and!; [done|done|lia].
    + intros [?|([|i] & p & Hi & Hb & ->)]; [auto|left; right; lia|right].
      exists i, p. split_and!; [done|done|lia].
  - rewrite lookup_insert_ne by done. split.
    + intros [?|(i & p & Hi & Hb & ->)]; [by left|right]. exists (S i), p. split_and!; [done..|lia].
    + intros [?|([|i] & p & Hi & Hb & ->)]; [auto|by simplify_eq/=|right].
      exists i, p. split_and!; [done|done|lia].
Qed.

(** ** The search *)

Section Search.
Context (rs : list Poi) (rect : MapRect.t) (filters : PoiFilterMask).

(** What the linear scan would keep. *)
Definition passes (h : PoiHandle) : bool :=
  is_some_and (rs !! N.to_nat h)
    (λ poi, mask_contains filters (poi_kind poi) && MapRect.contains rect (poi_map poi)).

Definition all_handles : list PoiHandle := N.of_nat <$> seq 0 (length rs).

Lemma push_visible_spec handles :
  Forall (λ h, is_Some (rs !! N.to_nat h)) handles →
  push_visible rs rect filters handles = Some (List.filter passes handles).
Proof.
  induction 1 as [|h handles [poi Hp] _ IH]; [done|].
  cbn [push_visible List.filter]. unfold passes at 1. rewrite Hp, IH. simpl. by destruct (_ && _).
Qed.

Lemma elem_of_all_handles h : h ∈ all_handles ↔ is_Some (rs !! N.to_nat h).
Proof.
  unfold all_handles. rewrite list_elem_of_fmap, lookup_lt_is_Some. split.
  - intros (i & -> & Hi%elem_of_seq). lia.
  - intros Hl. exists (N.to_nat h). split; [lia|]. apply elem_of_seq. lia.
Qed.

Lemma all_handles_sorted : StronglySorted N.le all_handles.
Proof.
  unfold all_handles. generalize (length rs), O. induction n as [|n IH]; intros start; simpl.
  { constructor. }
  constructor; [apply IH|]. rewrite Forall_fmap, Forall_forall. intros x Hx%elem_of_seq. simpl. lia.
Qed.

Lemma filter_sorted (p : N → bool) l : StronglySorted N.le l → StronglySorted N.le (List.filter p l).
Proof.
  induction 1 as [|x l Hl IH Hx]; simpl; [constructor|]. destruct (p x); [|done].
  constructor; [done|]. rewrite Forall_forall in *. intros y [Hy _]%elem_of_List_filter. auto.
Qed.

(** A sorted and deduplicated list is determined by its elements. *)
Lemma sort_dedup_unique l l' :
  StronglySorted N.le l' → NoDup l' → (∀ h, h ∈ l ↔ h ∈ l') → dedup (sort_handles l) = l'.
Proof.
  intros Hs Hnd He.
  assert (Sorted N.le (sort_handles l)) as Hsort by (apply Sorted_merge_sort; apply _).
  apply (StronglySorted_unique N.le).
  - apply Sorted_StronglySorted; [apply _|]. by apply Sorted_dedup.
  - done.
  - apply NoDup_Permutation; [by apply (NoDup_sorted_dedup N.le)|done|].
    intros h. unfold sort_handles. by rewrite elem_of_dedup, merge_sort_Permutation.
Qed.

Lemma mapM_pure {A B} (f : A → option B) (g : A → B) l :
  (∀ a, a ∈ l → f a = Some (g a)) → mapM f l = Some (g <$> l).
Proof.
  induction l as [|a l IH]; intros Hf; [done|]. simpl. rewrite Hf by left. simpl.
  rewrite IH; [done|]. intros b Hb. apply Hf. by right.
Qed.

Lemma mask_none_contains kind : mask_contains mask_none kind = false.
Proof. by destruct kind. Qed.

Lemma passes_none : filters = mask_none → List.filter passes all_handles = [].
Proof.
  intros Hf. assert (∀ h, passes h = false) as Hno.
  { intros h. unfold passes. destruct (rs !! _); [|done]. cbn [is_some_and]. by rewrite Hf, mask_none_contains. }
  induction all_handles as [|h l IH]; [done|]. simpl. by rewrite Hno.
Qed.
End Search.

Lemma NoDup_all_handles rs : NoDup (all_handles rs).
Proof. unfold all_handles. apply NoDup_fmap_2; [apply _|apply NoDup_seq]. Qed.

(** Points on a map of the given size. *)
Definition on_map (w h : N) (p : MapPoint.t) : Prop :=
  coordinate (MapPoint.x p) ∧ coordinate (MapPoint.y p) ∧
  fle (MapPoint.x p) (f64_of_N w) = true ∧ fle (MapPoint.y p) (f64_of_N h) = true.

(** Rectangles whose corners are data of their type. *)
Definition rect_data (r : MapRect.t) : Prop :=
  MapRect.valid r ∧ f64_ok (MapRect.min_x r) = true ∧ f64_ok (MapRect.min_y r) = true ∧
  f64_ok (MapRect.max_x r) = true ∧ f64_ok (MapRect.max_y r) = true.

(** The interval searched along one axis holds every coordinate of the rectangle that is
    on the map, and its ends are coordinates when it is not empty. *)
Lemma searched_interval lo hi w v :
  f64_ok lo = true → is_finite lo = true → f64_ok hi = true → is_finite hi = true → w ≤ u32_max →
  let lo' := fmax lo f64_zero in
  let hi' := fmin hi (f64_of_N w) in
  (flt hi' lo' = false → coordinate lo' ∧ coordinate hi') ∧
  (coordinate v → fle v (f64_of_N w) = true → fle lo v = true → fle v hi = true →
   flt hi' lo' = false ∧ bucket lo' ≤ bucket v ≤ bucket hi').
Proof.
  intros Ol Fl Oh Fh Hw lo' hi'.
  destruct (of_N_ok w) as (Ow & Fw & Nw); [unfold u32_max in Hw; lia|].
  assert (f64_ok lo' = true ∧ is_finite lo' = true) as [Olo Flo]
    by (unfold lo', fmax; repeat step_if; done).
  assert (f64_ok hi' = true ∧ is_finite hi' = true) as [Ohi Fhi]
    by (unfold hi', fmin; repeat step_if; done).
  assert (nonneg lo' = true) as Nlo by by apply fmax_lower.
  assert (flt hi' lo' = false → coordinate lo' ∧ coordinate hi') as Hends.
  { intros Hf. split; [done|]. split_and!; try done.
    eapply fle_trans; [exact Nlo|]. apply flt_false_fle; eauto with pal. }
  split; [done|]. intros Hv Hvw Hlo Hhi.
  assert (fle lo' v = true) as H1 by (apply fmax_upper; [done|apply Hv]).
  assert (fle v hi' = true) as H2 by by apply fmin_lower.
  assert (flt hi' lo' = false) as Hf.
  { rewrite flt_not_fle by eauto with pal. by rewrite (fle_trans lo' v hi'). }
  split; [done|]. destruct (Hends Hf). split; by apply bucket_mono.
Qed.

Lemma fill_buckets_holds rs key h :
  h ∈ unwrap_or (fill_buckets ∅ 0 rs !! key) [] ↔
  ∃ poi, rs !! N.to_nat h = Some poi ∧ poi_bucket poi = key.
Proof.
  rewrite fill_buckets_lookup, lookup_empty. simpl. split.
  - intros [?%elem_of_nil|(i & poi & Hi & Hk & ->)]; [done|]. exists poi.
    by rewrite N.add_0_l, Nat2N.id.
  - intros (poi & Hp & Hk). right. exists (N.to_nat h), poi. split_and!; [done..|lia].
Qed.

(** What the scan keeps lies in the buckets that are searched. *)
Lemma passes_in_search rs w h rect filters :
  w ≤ u32_max → h ≤ u32_max → Forall (λ poi, on_map w h (poi_map poi)) rs → rect_data rect →
  let x0 := fmax (MapRect.min_x rect) f64_zero in
  let x1 := fmin (MapRect.max_x rect) (f64_of_N w) in
  let y0 := fmax (MapRect.min_y rect) f64_zero in
  let y1 := fmin (MapRect.max_y rect) (f64_of_N h) in
  ∀ handle, passes rs rect filters handle = true →
  ∃ poi, rs !! N.to_nat handle = Some poi ∧
    flt x1 x0 || flt y1 y0 = false ∧
    bucket x0 ≤ (poi_bucket poi).2 ≤ bucket x1 ∧ bucket y0 ≤ (poi_bucket poi).1 ≤ bucket y1.
Proof.
  intros Hw Hh Hmap ((Fx & Fy & FX & FY & _) & Ox & Oy & OX & OY) x0 x1 y0 y1 handle Hpass.
  unfold passes in Hpass. destruct (rs !! N.to_nat handle) as [poi|] eqn:Hp; [|done].
  exists poi. split; [done|]. cbn [is_some_and] in Hpass. unfold MapRect.contains in Hpass.
  reflect_bool. pose proof (Forall_lookup_1 _ _ _ _ Hmap Hp) as (Cx & Cy & Lx & Ly).
  destruct (searched_interval _ _ _ (MapPoint.x (poi_map poi)) Ox Fx OX FX Hw) as [_ HX].
  destruct (searched_interval _ _ _ (MapPoint.y (poi_map poi)) Oy Fy OY FY Hh) as [_ HY].
  destruct HX as [HX BX]; [done..|]. destruct HY as [HY BY]; [done..|].
  unfold x1, x0, y1, y0. rewrite HX, HY. split; [done|]. split; [exact BX|exact BY].
Qed.

(** The search finds what a scan over the points would. *)
Lemma visible_into_spec rs region rect filters :
  map_width_px region ≤ u32_max → map_height_px region ≤ u32_max →
  Forall (λ poi, on_map (map_width_px region) (map_height_px region) (poi_map poi)) rs →
  rect_data rect →
  visible_into (from_records rs region) rect filters =
  Some (List.filter (passes (sort_by poi_cmp rs) rect filters) (all_handles (sort_by poi_cmp rs))).
Proof.
  intros Hw Hh Hmap Hrect. rewrite <- (sort_by_Permutation poi_cmp) in Hmap.
  pose proof (passes_in_search _ _ _ rect filters Hw Hh Hmap Hrect) as Hin. cbv zeta in Hin.
  unfold visible_into, from_records. cbn [records buckets index_width_px index_height_px].
  set (recs := sort_by poi_cmp rs) in *. clearbody recs.
  destruct (N.eqb_spec filters mask_none) as [Hnone|_]; [by rewrite passes_none|].
  destruct (flt _ _ || flt _ _) eqn:Hempty.
  { f_equal. symmetry. apply elem_of_nil_inv.
    intros h [_ (poi & _ & He & _)%Hin]%elem_of_List_filter. congruence. }
  rewrite (mapM_pure _ (λ '(y, x), List.filter (passes recs rect filters)
    (unwrap_or (fill_buckets ∅ 0 recs !! (y, x)) []))).
  2: { intros [y x] _. apply push_visible_spec, Forall_forall.
       intros h (poi & Hp & _)%fill_buckets_holds. eauto. }
  simpl. f_equal. apply sort_dedup_unique.
  - apply filter_sorted, all_handles_sorted.
  - eapply sublist_NoDup; [apply NoDup_all_handles|apply retain_sublist].
  - intros h. rewrite elem_of_List_filter, elem_of_all_handles. setoid_rewrite list_elem_of_join.
    split.
    + intros (l & Hh' & ([y x] & -> & _)%list_elem_of_fmap).
      apply elem_of_List_filter in Hh' as [(poi & Hp & _)%fill_buckets_holds ?]. eauto.
    + intros [_ Hpass]. destruct (Hin h Hpass) as (poi & Hp & _ & Hx & Hy).
      eexists. split; [|apply list_elem_of_fmap; exists (poi_bucket poi); split; [done|]].
      * destruct (poi_bucket poi) as [y x] eqn:Hb. apply elem_of_List_filter. split; [|done].
        apply fill_buckets_holds. eauto.
      * destruct (poi_bucket poi) as [y x]. simpl in *. apply list_elem_of_bind. exists y.
        split; [|by apply elem_of_range_inclusive]. apply list_elem_of_bind. exists x.
        split; [left|by apply elem_of_range_inclusive].
Qed.

(** C19: the spatial index answers a query exactly as a scan over all points would: for any
    points on the map, any rectangle and any filter, [visible_into] returns, without panic,
    the handles of precisely the points whose kind the filter admits and that lie in the
    rectangle, each once and in ascending order. *)
Theorem visible_exact rs region rect filters :
  map_width_px region ≤ u32_max → map_height_px region ≤ u32_max →
  Forall (λ poi, on_map (map_width_px region) (map_height_px region) (poi_map poi)) rs →
  rect_data rect →
  visible_into (from_records rs region) rect filters =
  Some (List.filter (passes (sort_by poi_cmp rs) rect filters) (all_handles (sort_by poi_cmp rs))).
Proof. apply visible_into_spec. Qed.

(** ** Parsed indexes *)

Section Parsed.
Context (hypot : f64 → f64 → f64) (build : string) (regions : list MapRegion).

(** A point that belongs to its region: selected by its world position, on its map, and
    within tolerance of where the transform of the region projects it. *)
Record poi_valid (region : MapRegion) (poi : Poi) : Prop := {
  pv_region : poi_map_id poi = map_id region ∧ poi_region_id poi = region_id region;
  pv_verified : verified poi = true ∧ source_build_id poi = build;
  pv_selected : ∃ selected,
    select_map_region regions (WorldPoint.x (poi_world poi)) (WorldPoint.y (poi_world poi)) = Ok selected ∧
    map_id selected = map_id region ∧ region_id selected = region_id region;
  pv_on_map : on_map (map_width_px region) (map_height_px region) (poi_map poi);
  pv_projected : ∃ projected,
    WorldToMapTransform.project (world_to_map_transform region) (poi_world poi) = Ok projected ∧
    fle (hypot (fsub prec64 emax64 (MapPoint.x projected) (MapPoint.x (poi_map poi)))
               (fsub prec64 emax64 (MapPoint.y projected) (MapPoint.y (poi_map poi))))
        PARITY_TOLERANCE_PX = true;
}.

Lemma position_some {A} (p : A → bool) l i :
  position p l = Some i → ∃ x, l !! i = Some x ∧ p x = true.
Proof.
  revert i. induction l as [|x l IH]; intros i; [done|]. cbn [position].
  destruct (p x) eqn:Hp; [intros [= <-]; by exists x|].
  intros (j & Hj & ->)%fmap_Some. by apply IH.
Qed.

Lemma parse_poi_ok state raw state' :
  (∀ region, region ∈ regions → map_width_px region ≤ u32_max ∧ map_height_px region ≤ u32_max) →
  f64_ok (rp_map_x raw) = true → f64_ok (rp_map_y raw) = true →
  parse_poi hypot build regions state raw = Ok state' →
  ∃ i region poi, regions !! i = Some region ∧ poi_valid region poi ∧ (rp_id raw ∉ ids state) ∧
    ids state' = ({[ rp_id raw ]} ∪ ids state) ∧ poi_id poi = rp_id raw ∧
    records_by_region state' = alter (λ records, records ++ [poi]) i (records_by_region state).
Proof.
  intros Hdims Ox Oy. unfold parse_poi, invalid_poi. step_if; [done|]. step_if; [done|].
  step_if; [done|]. rewrite and_then_ok. intros (kind & _ & Hk).
  apply and_then_ok in Hk as (i & (r0 & Hr0 & Hid)%ok_or_ok%position_some & Hk).
  apply and_then_ok in Hk as (region & Hr%ok_or_ok & Hk).
  assert (r0 = region) as -> by congruence. step_if_in Hk; [done|]. step_if_in Hk; [done|].
  destruct (forallb is_finite _) eqn:Hf; [|done]. cbn [negb] in Hk.
  apply forallb_finite in Hf. rewrite !Forall_cons in Hf. destruct Hf as (Fwx & Fwy & Fx & Fy & _).
  apply and_then_ok in Hk as (selected & Hsel & Hk). step_if_in Hk; [done|].
  apply and_then_ok in Hk as (world & [-> _]%map_err_ok%WorldPoint.world_point_ok & Hk).
  apply and_then_ok in Hk as (map & [-> _]%map_err_ok%MapPoint.map_point_ok & Hk).
  destruct (Hdims region) as [Hw Hh]; [by eapply list_elem_of_lookup_2|].
  assert (∀ n, n ≤ u32_max → is_nan (f64_of_N n) = false) as Hnan.
  { intros n Hn. apply f64_of_N_finite. unfold u32_max in Hn. lia. }
  rewrite !(flt_not_fle _ f64_zero), !(flt_not_fle (f64_of_N _)) in Hk by eauto with pal.
  step_if_in Hk; [done|]. apply and_then_ok in Hk as (projected & Hp%map_err_ok & Hk).
  destruct (is_finite (hypot _ _)) eqn:He; [|done]. cbn [negb orb] in Hk.
  rewrite flt_not_fle in Hk by eauto with pal. destruct (fle _ _) eqn:Hle in Hk; [|done].
  cbn [negb] in Hk. injection Hk as <-. reflect_bool.
  repeat match goal with H : String.eqb _ _ = true |- _ => apply String.eqb_eq in H end.
  exists i, region, (mkPoi (rp_id raw) (rp_map_id raw) (rp_region_id raw) kind (rp_display_name raw)
    (rp_entity_id raw) (WorldPoint.mk (rp_world_x raw) (rp_world_y raw))
    (MapPoint.mk (rp_map_x raw) (rp_map_y raw)) (rp_source_build_id raw) (rp_verified raw)).
  split; [done|]. split; [|by split_and!].
  split; simpl; [by split|by split|..|by exists projected].
  - exists selected. split_and!; [done|congruence..].
  - by split_and!.
Qed.

(** The document's numbers are data of their type. *)
Definition pois_typed (raw : RawPoiDocument) : Prop :=
  Forall (λ p, f64_ok (rp_map_x p) = true ∧ f64_ok (rp_map_y p) = true) (rd_pois raw).

Definition state_valid (state : PoiState) : Prop :=
  Forall2 (λ rs region, Forall (poi_valid region) rs ∧ NoDup (poi_id <$> rs) ∧
    ∀ p, p ∈ rs → poi_id p ∈ ids state) (records_by_region state) regions.

Lemma parse_poi_valid state raw state' :
  (∀ region, region ∈ regions → map_width_px region ≤ u32_max ∧ map_height_px region ≤ u32_max) →
  f64_ok (rp_map_x raw) = true → f64_ok (rp_map_y raw) = true →
  state_valid state → parse_poi hypot build regions state raw = Ok state' → state_valid state'.
Proof.
  intros Hdims Ox Oy Hs Hk. destruct (parse_poi_ok _ _ _ Hdims Ox Oy Hk) as
    (i & region & poi & Hr & Hpoi & Hnew & Hids & Hpid & Hrecs). unfold state_valid in *.
  rewrite Hrecs, Hids. clear Hrecs Hids. apply Forall2_same_length_lookup.
  split; [rewrite length_alter; by eapply Forall2_length|].
  intros j rs r Hj Hrj. destruct (decide (i = j)) as [->|Hij].
  - rewrite list_lookup_alter_eq in Hj. apply fmap_Some in Hj as (rs0 & Hj & ->).
    assert (r = region) as -> by congruence.
    destruct (Forall2_lookup_lr _ _ _ _ _ _ Hs Hj Hrj) as (Hall & Hnd & Hin). split_and!.
    + apply Forall_app. auto.
    + rewrite fmap_app. apply NoDup_app. split_and!; [done| |apply NoDup_singleton].
      intros x (p & -> & Hp)%list_elem_of_fmap Hx. apply list_elem_of_singleton in Hx.
      apply Hnew. rewrite <- Hpid, <- Hx. auto.
    + intros p [Hp| ->%list_elem_of_singleton]%elem_of_app; set_solver.
  - rewrite list_lookup_alter_ne in Hj by done.
    destruct (Forall2_lookup_lr _ _ _ _ _ _ Hs Hj Hrj) as (Hall & Hnd & Hin).
    split_and!; [done..|]. intros p Hp. set_solver.
Qed.

(** The ids of the points of all regions. *)
Definition region_ids (rss : list (list Poi)) : list string := mjoin (fmap poi_id <$> rss).

Lemma region_ids_alter rss i poi :
  (i < length rss)%nat →
  region_ids (alter (λ records, records ++ [poi]) i rss) ≡ₚ region_ids rss ++ [poi_id poi].
Proof.
  unfold region_ids. revert i. induction rss as [|rs rss IH]; intros i Hi; simpl in Hi; [lia|].
  destruct i as [|i].
  - change (alter ?f 0%nat (rs :: rss)) with (f rs :: rss). cbn. rewrite fmap_app. simpl.
    rewrite <- !app_assoc. apply Permutation_app_head. by rewrite Permutation_app_comm.
  - change (alter ?f (S i) (rs :: rss)) with (rs :: alter f i rss). cbn.
    rewrite IH by lia. by rewrite app_assoc.
Qed.

Lemma initial_valid : state_valid (mkPoiState ∅ [false; false; false; false] ((λ _, []) <$> regions)).
Proof.
  unfold state_valid. cbn [records_by_region]. apply Forall2_fmap_l, Forall_Forall2_diag.
  apply Forall_forall. intros r _. split_and!; [constructor|constructor|by intros ? ?%elem_of_nil].
Qed.

(** The loop keeps every point, each under its region. *)
Lemma parse_pois_ok raws state state' :
  (∀ region, region ∈ regions → map_width_px region ≤ u32_max ∧ map_height_px region ≤ u32_max) →
  Forall (λ p, f64_ok (rp_map_x p) = true ∧ f64_ok (rp_map_y p) = true) raws →
  state_valid state → try_fold (parse_poi hypot build regions) state raws = Ok state' →
  state_valid state' ∧
  region_ids (records_by_region state') ≡ₚ region_ids (records_by_region state) ++ (rp_id <$> raws).
Proof.
  intros Hdims Hraws. revert state. induction Hraws as [|p ps [Ox Oy] _ IH]; intros s Hs; simpl.
  { intros [= ->]. by rewrite app_nil_r. }
  rewrite and_then_ok. intros (s1 & H1 & Hf).
  destruct (IH s1 (parse_poi_valid _ _ _ Hdims Ox Oy Hs H1) Hf) as [Hv ->]. split; [done|].
  destruct (parse_poi_ok _ _ _ Hdims Ox Oy H1) as (i & region & poi & Hr & _ & _ & _ & <- & ->).
  rewrite region_ids_alter, <- app_assoc; [done|].
  apply Forall2_length in Hs. rewrite Hs. by eapply lookup_lt_Some.
Qed.

Lemma parse_by_region_ok parse_json bs idxs
    (parse_json_typed : ∀ bs raw, parse_json bs = Some raw → pois_typed raw) :
  (∀ region, region ∈ regions → map_width_px region ≤ u32_max ∧ map_height_px region ≤ u32_max) →
  parse_by_region hypot parse_json bs build regions = Ok idxs →
  Forall2 (λ idx region, ∃ rs, idx = from_records rs region ∧ Forall (poi_valid region) rs ∧
    NoDup (poi_id <$> rs)) idxs regions ∧
  ∃ raw, parse_json bs = Some raw ∧ rd_schema_version raw = POI_SCHEMA_VERSION ∧
    rd_game_build_id raw = build ∧ region_ids (records <$> idxs) ≡ₚ rp_id <$> rd_pois raw.
Proof.
  intros Hdims. unfold parse_by_region. rewrite and_then_ok.
  intros (raw & Hraw%ok_or_ok & Hk). repeat (step_if_in Hk; [done|]).
  apply and_then_ok in Hk as (state & Hst & Hk). step_if_in Hk; [done|]. injection Hk as <-.
  apply parse_pois_ok in Hst as [Hvalid Hids]; [|done|by eapply parse_json_typed|apply initial_valid].
  assert (region_ids ((λ _, []) <$> regions) = []) as Hnil
    by (unfold region_ids; clear; induction regions as [|? ? IH]; [done|exact IH]).
  cbn [records_by_region] in Hids. rewrite Hnil in Hids. split.
  - unfold state_valid in Hvalid. clear -Hvalid.
    induction Hvalid as [|rs r rss rs' (Hall & Hnd & _) _ IH]; simpl; constructor; [|done].
    by exists rs.
  - exists raw. reflect_bool.
    repeat match goal with H : String.eqb _ _ = true |- _ => apply String.eqb_eq in H end.
    split_and!; try done. etransitivity; [|exact Hids].
    unfold state_valid in Hvalid. clear -Hvalid. unfold region_ids.
    induction Hvalid as [|rs r rss rs' _ _ IH]; cbn; [done|].
    by rewrite IH, sort_by_Permutation.
Qed.
End Parsed.

(** ** Points of the small pack *)

(** A document whose points are the projections of world points of a region. *)
Definition demo_poi (m r : string) (matrix : Matrix) (id kind : string) (x y : Z) : RawPoi :=
  let world := WorldPoint.mk (f64_of_Z x) (f64_of_Z y) in
  let point := match WorldToMapTransform.project (WorldToMapTransform.mk matrix None) world with
               | Ok p => p
               | Err _ => MapPoint.mk f64_zero f64_zero
               end in
  mkRawPoi id m r kind id None (f64_of_Z x) (f64_of_Z y) (MapPoint.x point) (MapPoint.y point)
    "23456789" true.

Definition demo_pois : RawPoiDocument :=
  mkRawPois 2 "23456789" 3
    [demo_poi "MainMap" "FirstRegion" demo_main_matrix "statue_1" "fast_travel" 0 0;
     demo_poi "MainMap" "FirstRegion" demo_main_matrix "boss_1" "boss" (-600000) 300000;
     demo_poi "MainMap" "FirstRegion" demo_main_matrix "dungeon_1" "dungeon" (-1000000) (-700000)].

Lemma demo_pois_typed : pois_typed demo_pois.
Proof. repeat constructor. Qed.

(** Two points on a map of 1000 by 1000 pixels, in different buckets. *)
Definition demo_points : list Poi :=
  [mkPoi "b" "MainMap" "FirstRegion" Boss "b" None (WorldPoint.mk f64_zero f64_zero)
     (MapPoint.mk (f64_of_N 900) (f64_of_N 300)) "1" true;
   mkPoi "a" "MainMap" "FirstRegion" FastTravel "a" None (WorldPoint.mk f64_zero f64_zero)
     (MapPoint.mk (f64_lit 1 2) (f64_of_N 1000)) "1" true].

Lemma visible_exact_witness :
  visible_into (from_records demo_points (demo_map_region 1000 1000))
    (MapRect.mk (fneg (f64_of_N 5)) (f64_of_N 300) (f64_of_N 2000) (f64_of_N 2000)) mask_all = Some [0; 1].
Proof.
  rewrite (visible_exact demo_points (demo_map_region 1000 1000)).
  - vm_compute. reflexivity.
  - vm_compute. discriminate.
  - vm_compute. discriminate.
  - repeat constructor; vm_compute; reflexivity.
  - repeat split; vm_compute; reflexivity.
Defined.
