(* ===== verification/TileIndex.v ===== *)
(** * The index of map tiles

    Models [crates/pal-map-pack-store/src/tile_index.rs]: the pyramid of levels a map must
    have, the rectangle of every tile, and the parsing of an index, which must list exactly
    the tiles of the pyramid and match the files on disk. *)

From S2P Require Import Prelude Floats FloatInt MapGeometry PackFiles MapManifest.

Definition MAX_TILES : N := 100000.

(** ** Data *)

Record TileKey := mkKey { key_level : N; key_y : N; key_x : N }.
#[export] Instance TileKey_eq_dec : EqDecision TileKey.
Proof. solve_decision. Defined.
#[export] Instance TileKey_countable : Countable TileKey.
Proof.
  refine (inj_countable' (λ k, (key_level k, key_y k, key_x k)) (λ '(l, y, x), mkKey l y x) _).
  by intros [].
Defined.

(** The derived order: level, then row, then column. *)
Definition key_cmp (a b : TileKey) : comparison :=
  then_with (then_with (key_level a ?= key_level b) (key_y a ?= key_y b)) (key_x a ?= key_x b).

Record TileLevel := mkLevel {
  tl_level : N;
  tl_width_px : N;
  tl_height_px : N;
  grid_width : N;
  grid_height : N;
}.
#[export] Instance TileLevel_eq_dec : EqDecision TileLevel.
Proof. solve_decision. Defined.

Record TileDescriptor := mkTile {
  tile_key : TileKey;
  tile_path : string;
  tile_size : N;
  tile_sha256 : bytes;
  tile_rect : MapRect.t;
}.

Record TileIndex := mkTileIndex { levels : list TileLevel; entries : list TileDescriptor }.

(** [slice::binary_search_by_key]: the interval is halved until one element is left. *)
Fixpoint bsearch (fuel : nat) (entries : list TileDescriptor) (key : TileKey) (base size : nat) :
    option nat :=
  match fuel with
  | O => None
  | S fuel =>
      if Nat.leb size 1 then
        match entries !! base with
        | Some e => match key_cmp (tile_key e) key with Eq => Some base | _ => None end
        | None => None
        end
      else
        let half := Nat.div2 size in
        let mid := (base + half)%nat in
        match entries !! mid with
        | Some e =>
            let base := match key_cmp (tile_key e) key with Gt => base | _ => mid end in
            bsearch fuel entries key base (size - half)
        | None => None
        end
  end.

(** [TileIndex::get]. *)
Definition tile_get (self : TileIndex) (key : TileKey) : option TileDescriptor :=
  match bsearch (S (length (entries self))) (entries self) key 0 (length (entries self)) with
  | Some index => entries self !! index
  | None => None
  end.

(** ** The pyramid *)

Definition invalid_tile {A} (field : string) : result A MapPackError :=
  Err (InvalidField "tile_index" field).

(** [u32::div_ceil]; the divisors are at least two. *)
Definition div_ceil (a b : N) : N := (a + b - 1) / b.

(** The levels [level..=31], with the sizes of the first. *)
Fixpoint pyramid_from (fuel : nat) (level width height core : N) : result (list TileLevel) MapPackError :=
  match fuel with
  | O => invalid_tile "levels"
  | S fuel =>
      let this := mkLevel level width height (div_ceil width core) (div_ceil height core) in
      if (width <=? core) && (height <=? core) then Ok [this]
      else
        let? rest := pyramid_from fuel (level + 1) (div_ceil width 2) (div_ceil height 2) core in
        Ok (this :: rest)
  end.

Definition expected_pyramid (width height core : N) : result (list TileLevel) MapPackError :=
  pyramid_from 32 0 width height core.

(** [u64::checked_shl] and [u64::checked_mul]. *)
Definition checked_shl (a k : N) : option N :=
  if k <? 64 then Some (N.shiftl a k mod u64_modulus) else None.
Definition checked_mul (a b : N) : option N := if a * b <=? u64_max then Some (a * b) else None.

(** The products cannot overflow: only keys of the pyramid get here. *)
Definition expected_map_rect (key : TileKey) (tile_core_size_px : N) (region : MapRegion) :
    result MapRect.t MapPackError :=
  let? scale := ok_or (checked_shl 1 (key_level key)) (InvalidField "tile_index" "tiles.level") in
  let? span := ok_or (checked_mul tile_core_size_px scale) (InvalidField "tile_index" "tiles.level") in
  let min_x := key_x key * span in
  let min_y := key_y key * span in
  let max_x := N.min (min_x + span) (map_width_px region) in
  let max_y := N.min (min_y + span) (map_height_px region) in
  map_err Transform
    (MapRect.new (f64_of_N min_x) (f64_of_N min_y) (f64_of_N max_x) (f64_of_N max_y)).

Definition level_keys (level : TileLevel) : list TileKey :=
  y ← N.of_nat <$> seq 0 (N.to_nat (grid_height level));
  x ← N.of_nat <$> seq 0 (N.to_nat (grid_width level));
  [mkKey (tl_level level) y x].

(** ** Parsing *)

Record RawTileLevel := mkRawLevel {
  rl_level : N;
  rl_width_px : N;
  rl_height_px : N;
  rl_grid_width : N;
  rl_grid_height : N;
}.

Record RawMapRect := mkRawRect { rr_min_x : f64; rr_min_y : f64; rr_max_x : f64; rr_max_y : f64 }.

Record RawTileDescriptor := mkRawTile {
  rtile_level : N;
  rtile_y : N;
  rtile_x : N;
  rtile_path : string;
  rtile_size_bytes : N;
  rtile_sha256 : string;
  rtile_map_rect : RawMapRect;
}.

Record RawTileIndex := mkRawTileIndex {
  ri_schema_version : N;
  ri_game_build_id : string;
  ri_map_id : string;
  ri_region_id : string;
  ri_map_width_px : N;
  ri_map_height_px : N;
  ri_tile_core_size_px : N;
  ri_tile_gutter_px : N;
  ri_level_count : N;
  ri_tile_count : N;
  ri_levels : list RawTileLevel;
  ri_tiles : list RawTileDescriptor;
}.

(** Decimal digits of a number, as [format!] prints them. *)
Fixpoint decimal_digits (fuel : nat) (n : N) (acc : string) : string :=
  match fuel with
  | O => acc
  | S fuel =>
      let acc := String (ascii_of_N (48 + n mod 10)) acc in
      if n <? 10 then acc else decimal_digits fuel (n / 10) acc
  end.
Definition display_N (n : N) : string := decimal_digits (S (N.to_nat (N.size n))) n EmptyString.

Definition level_of_raw (raw : RawTileLevel) : TileLevel :=
  mkLevel (rl_level raw) (rl_width_px raw) (rl_height_px raw) (rl_grid_width raw) (rl_grid_height raw).

(** [levels_by_key]: a map from level numbers. *)
Definition insert_level (map : gmap N TileLevel) (raw : RawTileLevel) :
    result (gmap N TileLevel) MapPackError :=
  match map !! rl_level raw with
  | Some _ => Err (DuplicateEntry "tile_level")
  | None => Ok (<[ rl_level raw := level_of_raw raw ]> map)
  end.

(** The state of the loop over the tiles. *)
Record TileState := mkTileState {
  seen_keys : gset TileKey;
  seen_paths : gset string;
  folded_paths : gset string;
  new_entries : list TileDescriptor;
}.

Definition expected_tile_path (region : MapRegion) (key : TileKey) : string :=
  path_prefix region ++ "/tiles/" ++ display_N (key_level key) ++ "/" ++ display_N (key_y key)
  ++ "_" ++ display_N (key_x key) ++ ".jpg".

Definition parse_tile (expected_keys : gset TileKey) (tile_core_size_px : N) (region : MapRegion)
    (state : TileState) (raw : RawTileDescriptor) : result TileState MapPackError :=
  let key := mkKey (rtile_level raw) (rtile_y raw) (rtile_x raw) in
  if bool_decide (key ∈ seen_keys state) then Err (DuplicateEntry "tile_key")
  else if negb (bool_decide (key ∈ expected_keys)) then invalid_tile "tiles.key"
  else
    let? _ := validate_relative_name (rtile_path raw) "tiles.relative_path" in
    if negb (String.eqb (rtile_path raw) (expected_tile_path region key))
    then invalid_tile "tiles.relative_path"
    else if bool_decide (rtile_path raw ∈ seen_paths state)
            || bool_decide (to_ascii_lowercase (rtile_path raw) ∈ folded_paths state)
    then Err (DuplicateEntry "tile_path")
    else if (rtile_size_bytes raw =? 0) || (MAX_TILE_BYTES <? rtile_size_bytes raw)
    then Err (SizeLimit "tile")
    else
      let? sha256 := parse_hash (rtile_sha256 raw) "tiles.sha256" in
      let r := rtile_map_rect raw in
      let? map_rect := map_err Transform
                         (MapRect.new (rr_min_x r) (rr_min_y r) (rr_max_x r) (rr_max_y r)) in
      let? expected_rect := expected_map_rect key tile_core_size_px region in
      if negb (MapRect.eqb map_rect expected_rect) then invalid_tile "tiles.map_rect"
      else
        Ok (mkTileState ({[ key ]} ∪ seen_keys state) ({[ rtile_path raw ]} ∪ seen_paths state)
              ({[ to_ascii_lowercase (rtile_path raw) ]} ∪ folded_paths state)
              (new_entries state
               ++ [mkTile key (rtile_path raw) (rtile_size_bytes raw) sha256 map_rect])).

Definition write_tile (writer : bytes) (entry : TileDescriptor) : bytes :=
  let w := CanonicalWriter.u8 writer (key_level (tile_key entry)) in
  let w := CanonicalWriter.u32 w (key_y (tile_key entry)) in
  let w := CanonicalWriter.u32 w (key_x (tile_key entry)) in
  let w := CanonicalWriter.string w (tile_path entry) in
  let w := CanonicalWriter.u64 w (tile_size entry) in
  CanonicalWriter.hash w (tile_sha256 entry).

Definition canonical_tile_set_message (entries : list TileDescriptor) : bytes :=
  fold_left write_tile entries
    (CanonicalWriter.u32 (CanonicalWriter.new (as_bytes ("pal-tile-set-v1" ++ nul_str)))
       (len entries)).

Section Index.
Context (sha256 : bytes → bytes) (parse_json : bytes → option RawTileIndex).

Definition canonical_tile_set_hash (entries : list TileDescriptor) : bytes :=
  sha256 (canonical_tile_set_message entries).

(** The checks before the tiles: the header and the levels. *)
Definition check_header (raw : RawTileIndex) (manifest : MapPackManifest) (region : MapRegion) :
    result unit MapPackError :=
  if negb (ri_schema_version raw =? TILE_INDEX_SCHEMA_VERSION)
     || negb (ri_schema_version raw =? MAP_PACK_SCHEMA_VERSION)
  then invalid_tile "schema_version"
  else if negb (String.eqb (ri_game_build_id raw) (game_build_id manifest)) then
    invalid_tile "game_build_id"
  else if negb (String.eqb (ri_map_id raw) (map_id region))
          || negb (String.eqb (ri_region_id raw) (region_id region))
  then invalid_tile "region_identity"
  else if negb (ri_map_width_px raw =? map_width_px region)
          || negb (ri_map_height_px raw =? map_height_px region)
  then invalid_tile "map_dimensions"
  else if negb (ri_tile_core_size_px raw =? tile_core_size_px manifest)
          || negb (ri_tile_gutter_px raw =? tile_gutter_px manifest)
  then invalid_tile "tile_geometry"
  else Ok tt.

Definition check_levels (raw : RawTileIndex) (expected_levels : list TileLevel) :
    result unit MapPackError :=
  if negb (ri_level_count raw =? len (ri_levels raw))
     || negb (len (ri_levels raw) =? len expected_levels)
  then invalid_tile "level_count"
  else
    let? levels_by_key := try_fold insert_level ∅ (ri_levels raw) in
    if negb (forallb (λ expected, bool_decide (levels_by_key !! tl_level expected = Some expected))
               expected_levels)
    then invalid_tile "levels"
    else Ok tt.

Definition expected_tile_count (expected_levels : list TileLevel) : N :=
  foldr (λ level count, grid_width level * grid_height level + count) 0 expected_levels.

Definition parse_and_verify (fs : FileSystem) (bs : bytes) (root : PathBuf)
    (manifest : MapPackManifest) (region : MapRegion) : result TileIndex MapPackError :=
  let? raw := ok_or (parse_json bs) (ParseFailed "tile_index") in
  let? _ := check_header raw manifest region in
  let? expected_levels := expected_pyramid (map_width_px region) (map_height_px region)
                            (tile_core_size_px manifest) in
  let? _ := check_levels raw expected_levels in
  if negb (ri_tile_count raw =? len (ri_tiles raw))
     || negb (len (ri_tiles raw) =? expected_tile_count expected_levels)
     || (MAX_TILES <? len (ri_tiles raw))
  then invalid_tile "tile_count"
  else
    let expected_keys := list_to_set (expected_levels ≫= level_keys) in
    let? state := try_fold (parse_tile expected_keys (tile_core_size_px manifest) region)
                    (mkTileState ∅ ∅ ∅ []) (ri_tiles raw) in
    if negb (bool_decide (seen_keys state = expected_keys)) then Err MissingTile
    else
      let entries := sort_by (λ a b, key_cmp (tile_key a) (tile_key b)) (new_entries state) in
      let? _ := try_for_each (λ d, verify_streaming_file sha256 fs root (tile_path d) "tile"
                                     (tile_size d) (tile_sha256 d)) entries in
      let expected_directories : gset string :=
        list_to_set ((λ level, path_prefix region ++ "/tiles/" ++ display_N (tl_level level))%string
                       <$> expected_levels) in
      let? _ := validate_tile_tree fs root (path_prefix region ++ "/tiles") (seen_paths state)
                  expected_directories in
      if negb (bool_decide (canonical_tile_set_hash entries = tile_set_sha256 region))
      then Err (HashMismatch "tile_set")
      else Ok (mkTileIndex expected_levels entries).
End Index.

Example tile_path_shape :
  (display_N 0 ++ "/" ++ display_N 15 ++ "_" ++ display_N 4294967295)%string = "0/15_4294967295".
Proof. reflexivity. Qed.

(** ** Ceilings *)

Lemma div_ceil_spec a b n : 0 < b → n < div_ceil a b ↔ n * b < a.
Proof.
  intros Hb. unfold div_ceil. split; intros Hn.
  - assert ((n + 1) * b ≤ a + b - 1); [|lia].
    pose proof (N.Div0.mul_div_le (a + b - 1) b). nia.
  - apply N.lt_le_trans with (n + 1); [lia|]. apply N.div_le_lower_bound; nia.
Qed.

Lemma div_ceil_le a b m : 0 < b → div_ceil a b ≤ m ↔ a ≤ m * b.
Proof. intros Hb. pose proof (div_ceil_spec a b m Hb). lia. Qed.

(** Two numbers with the same predecessors are equal. *)
Lemma N_ext a b : (∀ n, n < a ↔ n < b) → a = b.
Proof. intros H. pose proof (H a). pose proof (H b). lia. Qed.

Lemma div_ceil_div_ceil a b c : 0 < b → 0 < c → div_ceil (div_ceil a b) c = div_ceil a (b * c).
Proof.
  intros Hb Hc. apply N_ext. intros n. rewrite !div_ceil_spec by lia.
  by replace (n * (b * c)) with (n * c * b) by lia.
Qed.

Lemma div_ceil_1 a : div_ceil a 1 = a.
Proof. unfold div_ceil. rewrite N.div_1_r. lia. Qed.

(** ** The levels *)

(** Level [i] of the pyramid over a map of [w] by [h] pixels. *)
Definition level_at (w h core i : N) : TileLevel :=
  mkLevel i (div_ceil w (2 ^ i)) (div_ceil h (2 ^ i)) (div_ceil w (core * 2 ^ i)) (div_ceil h (core * 2 ^ i)).

Definition levels_upto (w h core : N) (from count : nat) : list TileLevel :=
  (λ i, level_at w h core (N.of_nat i)) <$> seq from count.

Lemma pow2_pos i : 0 < 2 ^ i.
Proof. by apply N.neq_0_lt_0, N.pow_nonzero. Qed.

(** One level of the recursion, on the sizes of level [i]. *)
Lemma pyramid_step fuel i w h core :
  0 < core →
  pyramid_from (S fuel) (N.of_nat i) (div_ceil w (2 ^ N.of_nat i)) (div_ceil h (2 ^ N.of_nat i)) core =
  if (w <=? core * 2 ^ N.of_nat i) && (h <=? core * 2 ^ N.of_nat i)
  then Ok [level_at w h core (N.of_nat i)]
  else
    let? rest := pyramid_from fuel (N.of_nat (S i)) (div_ceil w (2 ^ N.of_nat (S i)))
                   (div_ceil h (2 ^ N.of_nat (S i))) core in
    Ok (level_at w h core (N.of_nat i) :: rest).
Proof.
  intros Hc. pose proof (pow2_pos (N.of_nat i)). cbn [pyramid_from].
  assert (∀ a, (div_ceil a (2 ^ N.of_nat i) <=? core) = (a <=? core * 2 ^ N.of_nat i)) as Hle.
  { intros a. apply eq_true_iff_eq. by rewrite !N.leb_le, div_ceil_le. }
  rewrite !Hle. unfold level_at. rewrite !div_ceil_div_ceil, !(N.mul_comm (2 ^ N.of_nat i)) by lia.
  rewrite !Nat2N.inj_succ, !N.pow_succ_r', N.add_1_r. done.
Qed.

Lemma pyramid_from_spec fuel i w h core :
  0 < core → w ≤ core * 2 ^ N.of_nat (i + fuel) → h ≤ core * 2 ^ N.of_nat (i + fuel) →
  ∃ k, (k ≤ fuel)%nat ∧
    pyramid_from (S fuel) (N.of_nat i) (div_ceil w (2 ^ N.of_nat i)) (div_ceil h (2 ^ N.of_nat i)) core =
      Ok (levels_upto w h core i (S k)) ∧
    w ≤ core * 2 ^ N.of_nat (i + k) ∧ h ≤ core * 2 ^ N.of_nat (i + k).
Proof.
  intros Hc. revert i. induction fuel as [|fuel IH]; intros i Hw Hh; rewrite pyramid_step by done;
    destruct ((w <=? core * 2 ^ N.of_nat i) && (h <=? core * 2 ^ N.of_nat i)) eqn:E.
  1, 3: exists O; reflect_bool; rewrite Nat.add_0_r; (split; [lia|done]).
  - exfalso. rewrite Nat.add_0_r in *. apply not_true_iff_false in E. apply E.
    by rewrite andb_true_iff, !N.leb_le.
  - rewrite <- Nat.add_succ_comm in Hw, Hh.
    destruct (IH (S i) Hw Hh) as (k & Hk & -> & Hs). exists (S k). rewrite <- Nat.add_succ_comm.
    split; [lia|]. split; [done|exact Hs].
Qed.

(** The pyramid exists for every map of [u32] size, and ends with a level of one tile. *)
Lemma expected_pyramid_spec w h core :
  2 ≤ core → w ≤ u32_max → h ≤ u32_max →
  ∃ k, (k < 32)%nat ∧ expected_pyramid w h core = Ok (levels_upto w h core 0 (S k)) ∧
    w ≤ core * 2 ^ N.of_nat k ∧ h ≤ core * 2 ^ N.of_nat k.
Proof.
  intros Hc Hw Hh. destruct (pyramid_from_spec 31 0 w h core) as (k & Hk & Hp & Hs).
  1, 2, 3: change (2 ^ N.of_nat (0 + 31)) with 2147483648 || idtac; unfold u32_max in *; lia.
  exists k. split; [lia|]. rewrite !div_ceil_1 in Hp. done.
Qed.

Lemma elem_of_levels_upto w h core n level :
  level ∈ levels_upto w h core 0 n ↔ ∃ i, (i < n)%nat ∧ level = level_at w h core (N.of_nat i).
Proof.
  unfold levels_upto. rewrite list_elem_of_fmap. split.
  - intros (i & -> & Hi%elem_of_seq). exists i. split; [lia|done].
  - intros (i & Hi & ->). exists i. split; [done|]. apply elem_of_seq. lia.
Qed.

Lemma elem_of_level_keys level key :
  key ∈ level_keys level ↔
  key_level key = tl_level level ∧ key_y key < grid_height level ∧ key_x key < grid_width level.
Proof.
  unfold level_keys. rewrite list_elem_of_bind. split.
  - intros (y & (x & Hk & (i & -> & Hi%elem_of_seq)%list_elem_of_fmap)%list_elem_of_bind
      & (j & -> & Hj%elem_of_seq)%list_elem_of_fmap).
    apply list_elem_of_singleton in Hk as ->. simpl. lia.
  - destruct key as [l y x]. simpl. intros (-> & Hy & Hx). exists y. split.
    + apply list_elem_of_bind. exists x. split; [left|]. apply list_elem_of_fmap.
      exists (N.to_nat x). split; [lia|]. apply elem_of_seq. lia.
    + apply list_elem_of_fmap. exists (N.to_nat y). split; [lia|]. apply elem_of_seq. lia.
Qed.

(** ** Tiles partition the map *)

(** The rectangle of a tile in integers, for tiles of the pyramid. *)
Lemma expected_map_rect_exact region core i x y :
  i < 32 → core ≤ u32_max → map_width_px region ≤ u32_max → map_height_px region ≤ u32_max →
  x * (core * 2 ^ i) < map_width_px region → y * (core * 2 ^ i) < map_height_px region →
  let span := core * 2 ^ i in
  expected_map_rect (mkKey i y x) core region =
  Ok (MapRect.mk (f64_of_N (x * span)) (f64_of_N (y * span))
        (f64_of_N (N.min (x * span + span) (map_width_px region)))
        (f64_of_N (N.min (y * span + span) (map_height_px region)))).
Proof.
  intros Hi Hc Hw Hh Hx Hy span. unfold expected_map_rect, checked_shl, checked_mul.
  cbn [key_level key_x key_y]. destruct (N.ltb_spec i 64); [|lia]. cbn [ok_or and_then].
  assert (2 ^ i < 2 ^ 32) as Hp by (apply N.pow_lt_mono_r; lia). change (2 ^ 32) with 4294967296 in Hp.
  rewrite N.shiftl_1_l. rewrite (N.mod_small (2 ^ i)) by (unfold u64_modulus; lia).
  destruct (N.leb_spec (core * 2 ^ i) u64_max) as [|Hbig].
  2: { unfold u64_max, u32_max in *. nia. }
  cbn [ok_or and_then]. fold span. unfold u32_max in *.
  assert (∀ n, n ≤ 4294967295 → is_finite (f64_of_N n) = true) as Hf.
  { intros n Hn. destruct (of_N_ok n); [lia|tauto]. }
  assert (∀ a b, a ≤ b → b ≤ 4294967295 → fle (f64_of_N a) (f64_of_N b) = true) as Hle.
  { intros a b ? ?. by apply of_N_le; lia. }
  rewrite MapRect.map_rect_new_some; [done|].
  unfold MapRect.valid. simpl. split_and!; try (apply Hf; lia); apply Hle; lia.
Qed.

(** The pixel lies in the half-open rectangle. *)
Definition pixel_in (r : MapRect.t) (px py : N) : bool :=
  fle (MapRect.min_x r) (f64_of_N px) && flt (f64_of_N px) (MapRect.max_x r)
  && fle (MapRect.min_y r) (f64_of_N py) && flt (f64_of_N py) (MapRect.max_y r).

Lemma of_N_lt a b : a ≤ u32_max → b ≤ u32_max → flt (f64_of_N a) (f64_of_N b) = true ↔ a < b.
Proof.
  unfold u32_max. intros Ha Hb. destruct (of_N_ok a) as (_ & ? & _); [lia|].
  destruct (of_N_ok b) as (_ & ? & _); [lia|]. rewrite flt_not_fle by auto with pal.
  rewrite negb_true_iff, <- not_true_iff_false, of_N_le by lia. lia.
Qed.

Lemma pixel_in_tile region core i x y rect px py :
  i < 32 → 0 < core ≤ u32_max → map_width_px region ≤ u32_max → map_height_px region ≤ u32_max →
  x * (core * 2 ^ i) < map_width_px region → y * (core * 2 ^ i) < map_height_px region →
  px < map_width_px region → py < map_height_px region →
  expected_map_rect (mkKey i y x) core region = Ok rect →
  pixel_in rect px py = true ↔ px / (core * 2 ^ i) = x ∧ py / (core * 2 ^ i) = y.
Proof.
  intros Hi [Hc0 Hc] Hw Hh Hx Hy Hpx Hpy. rewrite expected_map_rect_exact by done. intros [= <-].
  unfold pixel_in. cbn [MapRect.min_x MapRect.min_y MapRect.max_x MapRect.max_y].
  rewrite !andb_true_iff, !of_N_le, !of_N_lt by (unfold u32_max in *; lia).
  set (span := core * 2 ^ i) in *.
  assert (span ≠ 0) as Hz by (unfold span; pose proof (pow2_pos i); nia).
  clearbody span.
  assert (∀ p t, p / span = t ↔ t * span ≤ p < t * span + span) as Hdiv.
  { intros p t. split.
    - intros <-. pose proof (N.div_mod p span Hz) as Hd. pose proof (N.mod_lt p span Hz).
      rewrite N.mul_comm in Hd. set (q := p / span) in *. set (r := p mod span) in *. lia.
    - intros Hp. symmetry. apply (N.div_unique p span t (p - t * span)); lia. }
  rewrite !Hdiv. lia.
Qed.

(** For every map of 32-bit size and every tile size of at least two, the pyramid exists
    within 32 levels and its last level is a single tile; at every level, each pixel of the
    map lies in the rectangle of exactly one tile of the grid, so the tiles neither overlap
    nor leave gaps, and no rectangle overflows or is degenerate. *)
Theorem pyramid_partitions region core :
  2 ≤ core ≤ u32_max → map_width_px region ≤ u32_max → map_height_px region ≤ u32_max →
  0 < map_width_px region → 0 < map_height_px region →
  ∃ levels, expected_pyramid (map_width_px region) (map_height_px region) core = Ok levels ∧
    (∃ top, last levels = Some top ∧ grid_width top = 1 ∧ grid_height top = 1) ∧
    ∀ level px py, level ∈ levels → px < map_width_px region → py < map_height_px region →
      ∃ key rect, key ∈ level_keys level ∧ expected_map_rect key core region = Ok rect ∧
        pixel_in rect px py = true ∧
        ∀ key' rect', key' ∈ level_keys level → expected_map_rect key' core region = Ok rect' →
          pixel_in rect' px py = true → key' = key.
Proof.
  intros [Hc2 Hc] Hw Hh Hw0 Hh0.
  destruct (expected_pyramid_spec (map_width_px region) (map_height_px region) core) as
    (k & Hk & Hp & Hkw & Hkh); [done..|].
  exists (levels_upto (map_width_px region) (map_height_px region) core 0 (S k)). split; [done|]. split.
  { exists (level_at (map_width_px region) (map_height_px region) core (N.of_nat k)).
    unfold levels_upto. rewrite seq_S, fmap_app. simpl. rewrite last_snoc. split; [done|].
    assert (∀ a, 0 < a → a ≤ core * 2 ^ N.of_nat k → div_ceil a (core * 2 ^ N.of_nat k) = 1) as H1.
    { intros a Ha Hle. apply N.le_antisymm; [apply div_ceil_le; lia|].
      apply N.lt_pred_le, div_ceil_spec; simpl; lia. }
    split; by apply H1. }
  intros level px py (i & Hi & ->)%elem_of_levels_upto Hpx Hpy.
  pose proof (pow2_pos (N.of_nat i)). set (span := core * 2 ^ N.of_nat i).
  assert (0 < span) by (unfold span; nia).
  assert (∀ p a, p < a → p / span * span < a) as Hin.
  { intros p a Hpa. pose proof (N.Div0.mul_div_le p span). lia. }
  exists (mkKey (N.of_nat i) (py / span) (px / span)). eexists.
  split; [|split; [|split]].
  - apply elem_of_level_keys. simpl. rewrite !div_ceil_spec by done. auto.
  - apply expected_map_rect_exact; try done; [lia|by apply Hin..].
  - apply (pixel_in_tile region core (N.of_nat i) (px / span) (py / span));
      [lia|lia|done|done|by apply Hin..|done|done| |done].
    apply expected_map_rect_exact; try done; [lia|by apply Hin..].
  - intros [l y x] rect' (Hl & Hy & Hx)%elem_of_level_keys Hrect Hpix. simpl in Hl, Hy, Hx. subst l.
    rewrite div_ceil_spec in Hy, Hx by done.
    apply (pixel_in_tile region core (N.of_nat i) x y) in Hpix as [<- <-]; done || lia.
Qed.

(** ** Keys are totally ordered *)

Definition key_lt (a b : TileKey) : Prop :=
  key_level a < key_level b ∨
  (key_level a = key_level b ∧
   (key_y a < key_y b ∨ (key_y a = key_y b ∧ key_x a < key_x b))).

Lemma key_cmp_spec a b :
  match key_cmp a b with Eq => a = b | Lt => key_lt a b | Gt => key_lt b a end.
Proof.
  unfold key_cmp, key_lt, then_with. destruct a as [l y x], b as [l' y' x']. simpl.
  destruct (N.compare_spec l l'); subst; try lia. destruct (N.compare_spec y y'); subst; try lia.
  destruct (N.compare_spec x x'); subst; (done || lia).
Qed.

Lemma key_lt_irrefl a b : key_lt a b → a ≠ b.
Proof. unfold key_lt. intros H ->. lia. Qed.

Lemma key_lt_asym a b : key_lt a b → ¬ key_lt b a.
Proof. unfold key_lt. lia. Qed.

#[export] Instance key_lt_trans : Transitive key_lt.
Proof. unfold key_lt. intros a b c. lia. Qed.

Definition by_key : relation TileDescriptor := λ a b, key_lt (tile_key a) (tile_key b).

(** ** Binary search *)

Section BinarySearch.
Context (entries : list TileDescriptor) (key : TileKey).
Context (Hsorted : StronglySorted by_key entries).

Lemma entries_order i j a b :
  (i < j)%nat → entries !! i = Some a → entries !! j = Some b → key_lt (tile_key a) (tile_key b).
Proof. intros Hij Hi Hj. exact (StronglySorted_two by_key entries i j a b Hsorted Hij Hi Hj). Qed.

(** Everything with the key lies in the interval searched. *)
Definition confines (base size : nat) : Prop :=
  ∀ j e, entries !! j = Some e → tile_key e = key → (base ≤ j < base + size)%nat.

Lemma bsearch_spec fuel base size :
  (0 < size)%nat → (size ≤ fuel)%nat → (base + size ≤ length entries)%nat → confines base size →
  match bsearch fuel entries key base size with
  | Some j => ∃ e, entries !! j = Some e ∧ tile_key e = key
  | None => ∀ j e, entries !! j = Some e → tile_key e ≠ key
  end.
Proof.
  revert base size. induction fuel as [|fuel IH]; intros base size Hs Hf Hlen Hc; [lia|].
  cbn [bsearch]. destruct (Nat.leb_spec size 1) as [H1|H1].
  - assert (size = 1%nat) as -> by lia.
    destruct (lookup_lt_is_Some_2 entries base) as [e He]; [lia|]. rewrite He.
    pose proof (key_cmp_spec (tile_key e) key) as Hk.
    assert (key_lt (tile_key e) key ∨ key_lt key (tile_key e) →
      ∀ j e', entries !! j = Some e' → tile_key e' ≠ key) as Hno.
    { intros Hlt j e' Hj Hk'. pose proof (Hc j e' Hj Hk'). assert (j = base) as -> by lia.
      assert (e' = e) as -> by congruence. rewrite Hk' in Hlt. unfold key_lt in Hlt. lia. }
    destruct (key_cmp (tile_key e) key); [by exists e|apply Hno; auto..].
  - assert (Nat.div2 size < size)%nat by (apply Nat.lt_div2; lia).
    assert (0 < Nat.div2 size)%nat by (destruct size as [|[|?]]; [lia|lia|apply Nat.lt_0_succ]).
    assert (2 * Nat.div2 size ≤ size)%nat
      by (rewrite Nat.div2_div; apply Nat.Div0.mul_div_le).
    set (half := Nat.div2 size) in *.
    destruct (lookup_lt_is_Some_2 entries (base + half)) as [e He]; [lia|]. rewrite He.
    pose proof (key_cmp_spec (tile_key e) key) as Hk.
    apply IH; try (destruct (key_cmp (tile_key e) key); lia).
    intros j e' Hj Hk'. pose proof (Hc j e' Hj Hk') as Hj'.
    assert (key_lt (tile_key e) key → (base + half < j)%nat) as Hup.
    { intros Hlt. destruct (Nat.lt_trichotomy j (base + half)) as [Hjm|[->|?]]; [..|done].
      - pose proof (entries_order _ _ _ _ Hjm Hj He) as Ho. rewrite Hk' in Ho.
        by apply key_lt_asym in Ho.
      - assert (e' = e) as -> by congruence. rewrite Hk' in Hlt. by apply key_lt_irrefl in Hlt. }
    assert (key_lt key (tile_key e) → (j < base + half)%nat) as Hdown.
    { intros Hlt. destruct (Nat.lt_trichotomy j (base + half)) as [?|[->|Hjm]]; [done|..].
      - assert (e' = e) as -> by congruence. rewrite Hk' in Hlt. by apply key_lt_irrefl in Hlt.
      - pose proof (entries_order _ _ _ _ Hjm He Hj) as Ho. rewrite Hk' in Ho.
        by apply key_lt_asym in Ho. }
    assert (tile_key e = key → j = (base + half)%nat) as Heq.
    { intros Hek. destruct (Nat.lt_trichotomy j (base + half)) as [Hjm|[?|Hjm]]; [exfalso|done|exfalso].
      - pose proof (entries_order _ _ _ _ Hjm Hj He) as Ho. apply key_lt_irrefl in Ho. congruence.
      - pose proof (entries_order _ _ _ _ Hjm He Hj) as Ho. apply key_lt_irrefl in Ho. congruence. }
    destruct (key_cmp (tile_key e) key); [specialize (Heq Hk)|specialize (Hup Hk)|specialize (Hdown Hk)];
      lia.
Qed.

Lemma tile_get_spec levels d :
  tile_get (mkTileIndex levels entries) key = Some d ↔ d ∈ entries ∧ tile_key d = key.
Proof.
  unfold tile_get. cbn [TileIndex.entries].
  assert (match bsearch (S (length entries)) entries key 0 (length entries) with
    | Some j => ∃ e, entries !! j = Some e ∧ tile_key e = key
    | None => ∀ j e, entries !! j = Some e → tile_key e ≠ key
    end) as Hb.
  { destruct (decide (entries = [])) as [Hz|Hz]; [by rewrite Hz|].
    assert (0 < length entries)%nat by (destruct entries; [done|simpl; lia]).
    apply bsearch_spec; [lia..|]. intros j e Hj _. apply lookup_lt_Some in Hj. lia. }
  destruct (bsearch _ _ _ _ _) as [j|] eqn:E.
  - destruct Hb as (e & He & Hk). rewrite He. split.
    + intros [= <-]. split; [by eapply list_elem_of_lookup_2|done].
    + intros [Hd Hkd]. apply list_elem_of_lookup in Hd as [i Hi].
      destruct (Nat.lt_trichotomy i j) as [Hij|[->|Hij]]; [|congruence|].
      * pose proof (entries_order _ _ _ _ Hij Hi He) as Ho. apply key_lt_irrefl in Ho. congruence.
      * pose proof (entries_order _ _ _ _ Hij He Hi) as Ho. apply key_lt_irrefl in Ho. congruence.
  - split; [done|]. intros [Hd Hkd]. apply list_elem_of_lookup in Hd as [i Hi]. by apply Hb in Hi.
Qed.
End BinarySearch.

(** ** Parsed indexes *)

Section ParsedIndex.
Context (expected : gset TileKey) (core : N) (region : MapRegion).

(** A listed tile: its path and rectangle are those its key demands. *)
Record tile_valid (d : TileDescriptor) : Prop := {
  tv_key : tile_key d ∈ expected;
  tv_path : tile_path d = expected_tile_path region (tile_key d);
  tv_size : 0 < tile_size d ≤ MAX_TILE_BYTES;
  tv_hash : length (tile_sha256 d) = 32%nat;
  tv_rect : ∃ rect, expected_map_rect (tile_key d) core region = Ok rect ∧
    MapRect.eqb (tile_rect d) rect = true;
}.

Record tiles_parsed (state : TileState) : Prop := {
  tp_keys : seen_keys state = list_to_set (tile_key <$> new_entries state);
  tp_paths : seen_paths state = list_to_set (tile_path <$> new_entries state);
  tp_nodup : NoDup (tile_key <$> new_entries state);
  tp_valid : Forall tile_valid (new_entries state);
}.

Lemma parse_tile_ok state raw state' :
  tiles_parsed state → parse_tile expected core region state raw = Ok state' → tiles_parsed state'.
Proof.
  intros [Hkeys Hpaths Hnd Hv]. unfold parse_tile. case_bool_decide as Hseen; [done|].
  case_bool_decide as Hexp; [|done]. cbn [negb]. rewrite and_then_ok. intros ([] & _ & Hk).
  step_if_in Hk; [done|]. step_if_in Hk; [done|]. step_if_in Hk; [done|].
  apply and_then_ok in Hk as (hash & Hh%parse_hash_length & Hk).
  apply and_then_ok in Hk as (rect & _ & Hk). apply and_then_ok in Hk as (erect & He & Hk).
  step_if_in Hk; [done|]. injection Hk as <-. reflect_bool.
  repeat match goal with H : String.eqb _ _ = true |- _ => apply String.eqb_eq in H end.
  split; cbn [seen_keys seen_paths new_entries].
  - rewrite fmap_app, list_to_set_app_L, Hkeys. simpl. set_solver.
  - rewrite fmap_app, list_to_set_app_L, Hpaths. simpl. set_solver.
  - rewrite fmap_app. apply NoDup_app. split_and!; [done| |apply NoDup_singleton].
    intros k Hk ->%list_elem_of_singleton. apply Hseen. rewrite Hkeys. by apply elem_of_list_to_set.
  - apply Forall_app. split; [done|]. constructor; [|constructor].
    split; simpl; try done; [lia|by exists erect].
Qed.

Lemma parse_tiles_ok raws state state' :
  tiles_parsed state → try_fold (parse_tile expected core region) state raws = Ok state' →
  tiles_parsed state'.
Proof.
  revert state. induction raws as [|raw raws IH]; intros state Hs; simpl; [by intros [= <-]|].
  rewrite and_then_ok. intros (s1 & H1 & Hk). eapply IH; [|done]. by eapply parse_tile_ok.
Qed.
End ParsedIndex.

Lemma sort_by_key_sorted l :
  NoDup (tile_key <$> l) →
  StronglySorted by_key (sort_by (λ a b, key_cmp (tile_key a) (tile_key b)) l).
Proof.
  intros Hnd. set (le := λ a b, key_lt (tile_key a) (tile_key b) ∨ tile_key a = tile_key b).
  assert (Sorted le (sort_by (λ a b, key_cmp (tile_key a) (tile_key b)) l)) as Hs.
  { apply sort_by_sorted; unfold le; intros a b Hc;
      pose proof (key_cmp_spec (tile_key a) (tile_key b)) as Hk;
      destruct (key_cmp (tile_key a) (tile_key b)); auto; done. }
  rewrite <- (sort_by_Permutation (λ a b, key_cmp (tile_key a) (tile_key b)) l) in Hnd.
  apply Sorted_StronglySorted in Hs.
  2: { unfold le. intros a b c [Hab|Hab] [Hbc|Hbc]; rewrite ?Hab, <- ?Hbc; auto. left. by eapply key_lt_trans. }
  revert Hs Hnd. generalize (sort_by (λ a b, key_cmp (tile_key a) (tile_key b)) l). clear.
  induction 1 as [|a l Hl IH Ha]; [constructor|]. rewrite fmap_cons. intros [Hn Hnd]%NoDup_cons.
  constructor; [by apply IH|]. rewrite Forall_forall in *. intros b Hb.
  destruct (Ha b Hb) as [|Heq]; [done|]. exfalso. apply Hn. rewrite Heq.
  apply list_elem_of_fmap. eauto.
Qed.

(** What an accepted index lists. *)
Lemma parse_and_verify_ok sha256 parse_json fs bs root manifest region index :
  parse_and_verify sha256 parse_json fs bs root manifest region = Ok index →
  expected_pyramid (map_width_px region) (map_height_px region) (tile_core_size_px manifest) =
    Ok (levels index) ∧
  StronglySorted by_key (entries index) ∧
  (∀ key, is_Some (tile_get index key) ↔ ∃ level, level ∈ levels index ∧ key ∈ level_keys level) ∧
  (∀ key d, tile_get index key = Some d →
    tile_key d = key ∧ tile_path d = expected_tile_path region key ∧
    (∃ rect, expected_map_rect key (tile_core_size_px manifest) region = Ok rect ∧
      MapRect.eqb (tile_rect d) rect = true) ∧
    verify_streaming_file sha256 fs root (tile_path d) "tile" (tile_size d) (tile_sha256 d) = Ok tt) ∧
  (∃ directories, validate_tile_tree fs root (path_prefix region ++ "/tiles")
    (list_to_set (tile_path <$> entries index)) directories = Ok tt) ∧
  canonical_tile_set_hash sha256 (entries index) = tile_set_sha256 region.
Proof.
  unfold parse_and_verify. rewrite and_then_ok. intros (raw & _ & Hk).
  apply and_then_ok in Hk as ([] & _ & Hk). apply and_then_ok in Hk as (ls & Hls & Hk).
  apply and_then_ok in Hk as ([] & _ & Hk). step_if_in Hk; [done|].
  set (expected := list_to_set (ls ≫= level_keys)) in Hk.
  apply and_then_ok in Hk as (state & Hst & Hk). case_bool_decide as Hseen; [|done].
  cbn [negb] in Hk. apply and_then_ok in Hk as ([] & Hfiles%try_for_each_ok & Hk).
  apply and_then_ok in Hk as ([] & Htree & Hk). case_bool_decide as Hhash; [|done].
  cbn [negb] in Hk. injection Hk as <-. cbn [levels entries].
  apply parse_tiles_ok in Hst as [Hkeys Hpaths Hnd Hv].
  2: { split; [done|done|constructor|constructor]. }
  pose proof (sort_by_key_sorted _ Hnd) as Hsorted.
  pose proof (sort_by_Permutation (λ a b, key_cmp (tile_key a) (tile_key b)) (new_entries state)) as Hp.
  set (es := sort_by _ _) in *. clearbody es.
  rewrite <- Hp in Hv. rewrite Forall_forall in Hv, Hfiles. split_and!; try done.
  - intros key. assert (key ∈ expected ↔ ∃ level, level ∈ ls ∧ key ∈ level_keys level) as <-.
    { unfold expected. rewrite elem_of_list_to_set, list_elem_of_bind. naive_solver. }
    rewrite <- Hseen, Hkeys, elem_of_list_to_set, list_elem_of_fmap. unfold is_Some.
    setoid_rewrite (tile_get_spec es key Hsorted ls). setoid_rewrite Hp. naive_solver.
  - intros key d Hd. apply (tile_get_spec es key Hsorted ls) in Hd as [Hin <-].
    destruct (Hv d Hin) as [_ Hpath _ _ Hrect]. split_and!; auto.
  - rewrite Hpaths in Htree. eexists.
    assert (list_to_set (tile_path <$> es) = (list_to_set (tile_path <$> new_entries state) : gset string))
      as ->; [|exact Htree].
    apply set_eq. intros p. by rewrite !elem_of_list_to_set, Hp.
Qed.

(** C15: an index that is accepted lists exactly the tiles of the expected pyramid: looking up
    a key finds a tile if and only if the key belongs to a level, and the tile found has
    that key, the path and rectangle the key demands, and a file on disk whose size and
    digest were verified; the directories hold nothing else, and the digest of the whole
    set is the one the manifest states. *)
Theorem tile_index_exact sha256 parse_json fs bs root manifest region index :
  parse_and_verify sha256 parse_json fs bs root manifest region = Ok index →
  expected_pyramid (map_width_px region) (map_height_px region) (tile_core_size_px manifest) =
    Ok (levels index) ∧
  StronglySorted by_key (entries index) ∧
  (∀ key, is_Some (tile_get index key) ↔ ∃ level, level ∈ levels index ∧ key ∈ level_keys level) ∧
  (∀ key d, tile_get index key = Some d →
    tile_key d = key ∧ tile_path d = expected_tile_path region key ∧
    (∃ rect, expected_map_rect key (tile_core_size_px manifest) region = Ok rect ∧
      MapRect.eqb (tile_rect d) rect = true) ∧
    verify_streaming_file sha256 fs root (tile_path d) "tile" (tile_size d) (tile_sha256 d) = Ok tt) ∧
  (∃ directories, validate_tile_tree fs root (path_prefix region ++ "/tiles")
    (list_to_set (tile_path <$> entries index)) directories = Ok tt) ∧
  canonical_tile_set_hash sha256 (entries index) = tile_set_sha256 region.
Proof. apply parse_and_verify_ok. Qed.

(** ** The tiles of the small pack *)

Lemma pyramid_partitions_witness :
  ∃ levels, expected_pyramid 1000 700 512 = Ok levels ∧
    ∀ level px py, level ∈ levels → px < 1000 → py < 700 →
      ∃ key rect, key ∈ level_keys level ∧ expected_map_rect key 512 (demo_map_region 1000 700) = Ok rect ∧
        pixel_in rect px py = true.
Proof.
  destruct (pyramid_partitions (demo_map_region 1000 700) 512) as (levels & Hl & _ & Hp);
    [by vm_compute..|]. exists levels. split; [exact Hl|]. intros level px py H1 H2 H3.
  destruct (Hp level px py H1 H2 H3) as (key & rect & Hk & Hr & Hpix & _). by exists key, rect.
Defined.

(** The index document of a region of 8 by 8 pixels: one level, one tile. *)
Definition demo_tile_path (m r : string) : PathBuf :=
  ["pack"; "regions"; to_ascii_lowercase m; to_ascii_lowercase r; "tiles"; "0"; "0_0.jpg"].

Definition demo_raw_tiles (m r : string) : RawTileIndex :=
  mkRawTileIndex 2 "23456789" m r 8 8 512 2 1 1 [mkRawLevel 0 8 8 1 1]
    [mkRawTile 0 0 0 (region_prefix m r ++ "/tiles/0/0_0.jpg") (len (demo_bytes (demo_tile_path m r)))
       (demo_digest (demo_tile_path m r)) (mkRawRect f64_zero f64_zero (f64_of_N 8) (f64_of_N 8))].

Definition demo_tile_entries (m r : string) : list TileDescriptor :=
  [mkTile (mkKey 0 0 0) (region_prefix m r ++ "/tiles/0/0_0.jpg") (len (demo_bytes (demo_tile_path m r)))
     (demo_sha256 (demo_bytes (demo_tile_path m r)))
     (MapRect.mk f64_zero f64_zero (f64_of_N 8) (f64_of_N 8))].

(** The manifest with the digests of those tile sets. *)
Definition demo_pack_manifest : RawMapPackManifest :=
  demo_raw_manifest
    (encode_hash (canonical_tile_set_hash demo_sha256 (demo_tile_entries "MainMap" "FirstRegion")))
    (encode_hash (canonical_tile_set_hash demo_sha256 (demo_tile_entries "Tree" "DummyRegion"))) "now".

Definition demo_region_files (m r : string) : list PathBuf :=
  let file name := ["pack"; "regions"; to_ascii_lowercase m; to_ascii_lowercase r; name] in
  [file "transform.json"; file "tile-index.json"; demo_tile_path m r].

Definition demo_pack_fs : FileSystem :=
  demo_fs ([["pack"; "manifest.json"]; ["pack"; "pois.json"]]
           ++ demo_region_files "MainMap" "FirstRegion" ++ demo_region_files "Tree" "DummyRegion").

Definition demo_parsed : MapPackManifest :=
  match parse_manifest demo_sha256 (λ _, Some demo_pack_manifest) [] "23456789" with
  | Ok m => m
  | Err _ => demo_manifest EmptyString
  end.

Definition demo_main_region : MapRegion :=
  match map_regions demo_parsed with r :: _ => r | [] => demo_map_region 0 0 end.

Lemma tile_index_exact_witness :
  ∃ index, parse_and_verify demo_sha256 (λ _, Some (demo_raw_tiles "MainMap" "FirstRegion")) demo_pack_fs
      [] ["pack"] demo_parsed demo_main_region = Ok index ∧
    ∀ key, is_Some (tile_get index key) ↔ ∃ level, level ∈ levels index ∧ key ∈ level_keys level.
Proof.
  destruct (parse_and_verify demo_sha256 (λ _, Some (demo_raw_tiles "MainMap" "FirstRegion")) demo_pack_fs
    [] ["pack"] demo_parsed demo_main_region) as [index|e] eqn:E; [|vm_compute in E; discriminate].
  exists index. split; [reflexivity|].
  exact (proj1 (proj2 (proj2 (tile_index_exact _ _ _ _ _ _ _ _ E)))).
Defined.
