(* ===== verification/MapPack.v ===== *)
(** * Map packs

    Models the store of [crates/pal-map-pack-store/src/lib.rs] and [parse_region] of
    [transform.rs]: opening a pack, which reads and checks every component against the
    digests of the manifest, and choosing the part of the pack for a world position. The
    JSON decoders, SHA-256, [f64::hypot] and the file system are parameters. *)

From S2P Require Import Prelude Floats FloatInt MapGeometry PackFiles MapManifest PoiIndex TileIndex.

Definition MAX_ACTIVE_POINTER_BYTES : N := 16 * 1024.

(** ** The transform of a region *)

Record RawTransformDocument := mkRawTransform {
  rx_schema_version : N;
  rx_game_build_id : string;
  rx_map_id : string;
  rx_region_id : string;
  rx_transform_kind : string;
  rx_map_width_px : N;
  rx_map_height_px : N;
  rx_matrix : Matrix;
  rx_calibration : option RawCalibrationEvidence;
}.

Definition authoritative_bounds_matrix (region : MapRegion) : Matrix :=
  let fdiv := fdiv prec64 emax64 in
  let fsub := fsub prec64 emax64 in
  let fmul := fmul prec64 emax64 in
  let map_x_scale := fdiv (f64_of_N (map_width_px region))
                       (fsub (world_max_y region) (world_min_y region)) in
  let map_y_scale := fdiv (f64_of_N (map_height_px region))
                       (fsub (world_max_x region) (world_min_x region)) in
  mkMatrix f64_zero map_x_scale (fmul (fneg (world_min_y region)) map_x_scale)
    (fneg map_y_scale) f64_zero (fmul (world_max_x region) map_y_scale).

Definition is_region (region : MapRegion) (m r : string) : bool :=
  String.eqb (map_id region) m && String.eqb (region_id region) r.

Section TransformParsing.
Context (hypot : f64 → f64 → f64) (parse_json : bytes → option RawTransformDocument).

Definition parse_transform_region (bs : bytes) (build : string) (region : MapRegion) :
    result WorldToMapTransform.t MapPackError :=
  let? raw := ok_or (parse_json bs) (ParseFailed "transform") in
  if negb (rx_schema_version raw =? TRANSFORM_SCHEMA_VERSION) then invalid_transform "schema_version"
  else if negb (String.eqb (rx_game_build_id raw) build) then invalid_transform "game_build_id"
  else if negb (String.eqb (rx_map_id raw) (map_id region))
          || negb (String.eqb (rx_region_id raw) (region_id region))
  then invalid_transform "region_identity"
  else if negb (rx_map_width_px raw =? map_width_px region)
          || negb (rx_map_height_px raw =? map_height_px region)
  then invalid_transform "map_dimensions"
  else
    let? transform := map_err Transform (WorldToMapTransform.new (rx_matrix raw)) in
    let matrix := WorldToMapTransform.matrix transform in
    if negb (matrix_eqb matrix (WorldToMapTransform.matrix (world_to_map_transform region)))
    then invalid_transform "manifest_matrix"
    else
      let main := is_region region "MainMap" "FirstRegion" in
      let tree := is_region region "Tree" "DummyRegion" in
      let bounds := matrix_eqb matrix (authoritative_bounds_matrix region) in
      let calibrate raw_calibration :=
        let? evidence := validate_calibration hypot raw_calibration transform
                           (map_width_px region) (map_height_px region) in
        Ok (transform <| WorldToMapTransform.calibration := Some evidence |>) in
      match rx_calibration raw with
      | Some calibration =>
          if String.eqb (rx_transform_kind raw) "reference_fitted_affine_validated" && main then
            calibrate calibration
          else if String.eqb (rx_transform_kind raw) "authoritative_world_bounds_validated" && main then
            if negb bounds then invalid_transform "authoritative_world_bounds_matrix"
            else calibrate calibration
          else invalid_transform "transform_kind"
      | None =>
          if String.eqb (rx_transform_kind raw) "authoritative_region_bounds" && tree then
            if negb bounds then invalid_transform "authoritative_region_bounds_matrix"
            else Ok transform
          else invalid_transform "transform_kind"
      end.
End TransformParsing.

(** ** The store *)

Record RawActivePackPointer := mkPointer {
  ap_schema_version : N;
  ap_game_build_id : string;
  ap_relative_version_path : string;
  ap_manifest_sha256 : string;
}.

Record MapRegionPack := mkRegionPack {
  pack_root : PathBuf;
  pack_region : MapRegion;
  pack_transform : WorldToMapTransform.t;
  pack_poi_index : PoiIndex;
  pack_tile_index : TileIndex;
}.

Record MapPackStore := mkStore {
  store_manifest : MapPackManifest;
  region_packs : list MapRegionPack;
  store_hash : bytes;
}.

Section Store.
Context (sha256 : bytes → bytes) (hypot : f64 → f64 → f64) (fs : FileSystem).
Context (pointer_json : bytes → option RawActivePackPointer).
Context (manifest_json : bytes → option RawMapPackManifest).
Context (pois_json : bytes → option RawPoiDocument).
Context (transform_json : bytes → option RawTransformDocument).
Context (tiles_json : bytes → option RawTileIndex).

(** One turn of the loop over the regions and their points. *)
Definition open_region (root : PathBuf) (manifest : MapPackManifest) (region : MapRegion)
    (poi_index : PoiIndex) : result MapRegionPack MapPackError :=
  let? transform_bytes := read_hashed sha256 fs root (transform_relative_path region) "transform"
                            MAX_TRANSFORM_BYTES (transform_sha256 region) in
  let? transform := parse_transform_region hypot transform_json transform_bytes
                      (game_build_id manifest) region in
  let? tile_index_bytes := read_hashed sha256 fs root (tile_index_relative_path region) "tile_index"
                             MAX_TILE_INDEX_BYTES (tile_index_sha256 region) in
  let? tile_index := parse_and_verify sha256 tiles_json fs tile_index_bytes root manifest region in
  Ok (mkRegionPack root region transform poi_index tile_index).

Fixpoint open_regions (root : PathBuf) (manifest : MapPackManifest)
    (pairs : list (MapRegion * PoiIndex)) : result (list MapRegionPack) MapPackError :=
  match pairs with
  | [] => Ok []
  | (region, poi_index) :: pairs =>
      let? pack := open_region root manifest region poi_index in
      let? packs := open_regions root manifest pairs in
      Ok (pack :: packs)
  end.

(** [MapPackStore::open]. *)
Definition open_store (root : PathBuf) (expected_build : string) : result MapPackStore MapPackError :=
  if negb (valid_build_id expected_build) then Err InvalidExpectedBuild
  else
    let? root := validate_root fs root in
    let? manifest_bytes := read_bounded fs root "manifest.json" "manifest" MAX_MANIFEST_BYTES in
    let? manifest := parse_manifest sha256 manifest_json manifest_bytes expected_build in
    let? poi_bytes := read_hashed sha256 fs root "pois.json" "pois" MAX_POIS_BYTES
                        (pois_sha256 manifest) in
    let? poi_indexes := parse_by_region hypot pois_json poi_bytes (game_build_id manifest)
                          (map_regions manifest) in
    let? packs := open_regions root manifest (zip (map_regions manifest) poi_indexes) in
    Ok (mkStore manifest packs (canonical_pack_hash sha256 manifest)).

Definition open_published (dataset_root : PathBuf) (expected_build : string) :
    result MapPackStore MapPackError :=
  if negb (valid_build_id expected_build) then Err InvalidExpectedBuild
  else
    let? dataset_root := validate_root fs dataset_root in
    let? pointer_bytes := read_bounded fs dataset_root (expected_build ++ ".active.json")
                            "active_pointer" MAX_ACTIVE_POINTER_BYTES in
    let? pointer := ok_or (pointer_json pointer_bytes) (ParseFailed "active_pointer") in
    if negb (ap_schema_version pointer =? 1)
       || negb (String.eqb (ap_game_build_id pointer) expected_build)
    then Err (InvalidField "active_pointer" "identity")
    else
      let? _ := validate_relative_name (ap_relative_version_path pointer)
                  "active_pointer.relative_version_path" in
      match strip_prefix ".versions/" (ap_relative_version_path pointer) with
      | None => Err (UnsafePath "active_pointer.relative_version_path")
      | Some version_name =>
          if str_is_empty version_name || char_any (Ascii.eqb "/") version_name
          then Err (UnsafePath "active_pointer.relative_version_path")
          else
            let? expected_manifest_hash :=
              parse_hash (ap_manifest_sha256 pointer) "active_pointer.manifest_sha256" in
            let? version_root := resolve_existing_directory fs dataset_root
                                   (ap_relative_version_path pointer) "version_root" in
            let? manifest_bytes := read_bounded fs version_root "manifest.json" "manifest"
                                     MAX_MANIFEST_BYTES in
            if negb (bool_decide (sha256 manifest_bytes = expected_manifest_hash))
            then Err (HashMismatch "active_pointer")
            else open_store version_root expected_build
      end.

Definition select_region_pack_index (self : MapPackStore) (world_x world_y : f64) :
    result nat MapPackError :=
  let? selected := select_map_region (map_regions (store_manifest self)) world_x world_y in
  ok_or (position (λ pack, String.eqb (map_id (pack_region pack)) (map_id selected)
                           && String.eqb (region_id (pack_region pack)) (region_id selected))
           (region_packs self))
    (MissingComponent "map_region_pack").

Definition region_pack (self : MapPackStore) (index : nat) : option MapRegionPack :=
  region_packs self !! index.

Definition select_region_pack (self : MapPackStore) (world_x world_y : f64) :
    result MapRegionPack MapPackError :=
  let? index := select_region_pack_index self world_x world_y in
  ok_or (region_pack self index) (MissingComponent "map_region_pack").

Definition read_verified_tile (self : MapRegionPack) (key : TileKey) : result bytes MapPackError :=
  let? descriptor := ok_or (tile_get (pack_tile_index self) key)
                       (UnknownTile (key_level key) (key_y key) (key_x key)) in
  read_verified_bytes sha256 fs (pack_root self) (tile_path descriptor) "tile" (tile_size descriptor)
    (tile_sha256 descriptor).

(** ** What an open store is *)

(** The bytes of the file the name denotes below the root, reached without crossing a link,
    and their digest. *)
Definition authentic (root : PathBuf) (relative : string) (digest bs : bytes) : Prop :=
  sha256 bs = digest ∧ ∃ path, confined fs root relative path ∧ contents fs path = Ok bs.

(** The file of a tile, as it was streamed when the pack was opened. *)
Definition tile_authentic (root : PathBuf) (d : TileDescriptor) : Prop :=
  ∃ path pieces rest, confined fs root (tile_path d) path ∧
    chunks fs path = (Ok <$> pieces) ++ rest ∧ (rest = [] ∨ ∃ rest', rest = Ok [] :: rest') ∧
    sha256 (mjoin pieces) = tile_sha256 d ∧ len (mjoin pieces) = tile_size d.

(** A transform that its document states for this region of this build: it is the one of the
    manifest, and calibrated by evidence that covers the map, or the one of the world bounds. *)
Record transform_valid (build : string) (region : MapRegion) (raw : RawTransformDocument)
    (t : WorldToMapTransform.t) : Prop := {
  tf_schema : rx_schema_version raw = TRANSFORM_SCHEMA_VERSION;
  tf_build : rx_game_build_id raw = build;
  tf_region : rx_map_id raw = map_id region ∧ rx_region_id raw = region_id region;
  tf_size : rx_map_width_px raw = map_width_px region ∧ rx_map_height_px raw = map_height_px region;
  tf_matrix : WorldToMapTransform.matrix t = rx_matrix raw ∧
    matrix_eqb (rx_matrix raw) (WorldToMapTransform.matrix (world_to_map_transform region)) = true;
  tf_kind :
    let bounds := matrix_eqb (rx_matrix raw) (authoritative_bounds_matrix region) = true in
    match rx_calibration raw with
    | Some c =>
        map_id region = "MainMap" ∧ region_id region = "FirstRegion" ∧
        is_Some (WorldToMapTransform.calibration t) ∧
        (rx_transform_kind raw = "reference_fitted_affine_validated" ∨
         rx_transform_kind raw = "authoritative_world_bounds_validated" ∧ bounds) ∧
        NoDup (world_bits <$> parity_points c) ∧
        ∃ slots, slots ≡ₚ grid ∧
          Forall2 (parity_good hypot (WorldToMapTransform.mk (rx_matrix raw) None)
                     (map_width_px region) (map_height_px region)) (parity_points c) slots
    | None =>
        map_id region = "Tree" ∧ region_id region = "DummyRegion" ∧
        WorldToMapTransform.calibration t = None ∧
        rx_transform_kind raw = "authoritative_region_bounds" ∧ bounds
    end;
}.

(** The part of a pack for a region of the manifest. *)
Record part_authentic (build : string) (root : PathBuf) (manifest : MapPackManifest)
    (region : MapRegion) (pack : MapRegionPack) : Prop := {
  pa_root : pack_root pack = root;
  pa_region : pack_region pack = region;
  pa_transform : ∃ bs raw,
    authentic root (transform_relative_path region) (transform_sha256 region) bs ∧
    transform_json bs = Some raw ∧ transform_valid build region raw (pack_transform pack);
  pa_index : ∃ bs raw,
    authentic root (tile_index_relative_path region) (tile_index_sha256 region) bs ∧
    tiles_json bs = Some raw ∧ ri_game_build_id raw = build ∧
    ri_map_id raw = map_id region ∧ ri_region_id raw = region_id region;
  pa_keys : ∃ levels,
    expected_pyramid (map_width_px region) (map_height_px region) (tile_core_size_px manifest) = Ok levels ∧
    ∀ key, is_Some (tile_get (pack_tile_index pack) key) ↔ ∃ level, level ∈ levels ∧ key ∈ level_keys level;
  pa_tiles : ∀ key d, tile_get (pack_tile_index pack) key = Some d →
    tile_key d = key ∧ tile_path d = expected_tile_path region key ∧ tile_authentic root d;
  pa_sorted : StronglySorted by_key (entries (pack_tile_index pack));
  pa_tile_set :
    canonical_tile_set_hash sha256 (entries (pack_tile_index pack)) = tile_set_sha256 region;
  pa_points : ∃ rs, pack_poi_index pack = from_records rs region ∧
    Forall (poi_valid hypot build (map_regions manifest) region) rs ∧ NoDup (poi_id <$> rs);
}.

(** Everything an open store guarantees to its users, below a canonical root. *)
Record store_authentic (build : string) (root : PathBuf) (store : MapPackStore) : Prop := {
  so_manifest : ∃ path bs raw,
    confined fs root "manifest.json" path ∧ contents fs path = Ok bs ∧
    manifest_json bs = Some raw ∧ manifest_parsed sha256 raw build (store_manifest store);
  so_hash : store_hash store = canonical_pack_hash sha256 (store_manifest store);
  so_parts : Forall2 (part_authentic build root (store_manifest store))
    (map_regions (store_manifest store)) (region_packs store);
  so_dimensions : Forall (λ r, 0 < map_width_px r ≤ 8192 ∧ 0 < map_height_px r ≤ 8192)
    (map_regions (store_manifest store));
  so_points : ∃ bs raw,
    authentic root "pois.json" (pois_sha256 (store_manifest store)) bs ∧
    pois_json bs = Some raw ∧ rd_game_build_id raw = build ∧
    region_ids ((λ pack, records (pack_poi_index pack)) <$> region_packs store) ≡ₚ
      rp_id <$> rd_pois raw;
}.

Lemma read_hashed_authentic root relative component max_bytes hash bs :
  read_hashed sha256 fs root relative component max_bytes hash = Ok bs → authentic root relative hash bs.
Proof. intros (Hh & path & Hp & Hc & _)%read_hashed_ok. split; [done|]. by exists path. Qed.

Lemma is_region_true region m r : is_region region m r = true ↔ map_id region = m ∧ region_id region = r.
Proof. unfold is_region. by rewrite andb_true_iff, !String.eqb_eq. Qed.

Lemma transform_new_ok m t : WorldToMapTransform.new m = Ok t → t = WorldToMapTransform.mk m None.
Proof.
  unfold WorldToMapTransform.new. step_if; [done|]. cbv zeta. step_if; [done|]. step_if; [done|].
  by intros [= <-].
Qed.

Lemma parse_transform_ok bs build region t :
  map_width_px region < 2 ^ 53 → map_height_px region < 2 ^ 53 →
  parse_transform_region hypot transform_json bs build region = Ok t →
  ∃ raw, transform_json bs = Some raw ∧ transform_valid build region raw t.
Proof.
  intros Hw Hh. unfold parse_transform_region, invalid_transform. rewrite and_then_ok.
  intros (raw & Hraw%ok_or_ok & Hk). exists raw. split; [done|]. repeat (step_if_in Hk; [done|]).
  apply and_then_ok in Hk as (t0 & ->%map_err_ok%transform_new_ok & Hk). cbv zeta in Hk.
  cbn [WorldToMapTransform.matrix] in Hk.
  destruct (matrix_eqb (rx_matrix raw) (WorldToMapTransform.matrix _)) eqn:Hm; [|done].
  cbn [negb] in Hk. reflect_bool.
  repeat match goal with H : String.eqb _ _ = true |- _ => apply String.eqb_eq in H end.
  assert (∀ c, (let? evidence := validate_calibration hypot c (WorldToMapTransform.mk (rx_matrix raw) None)
                  (map_width_px region) (map_height_px region) in
                Ok ((WorldToMapTransform.mk (rx_matrix raw) None)
                      <| WorldToMapTransform.calibration := Some evidence |>)) = Ok t →
    WorldToMapTransform.matrix t = rx_matrix raw ∧ is_Some (WorldToMapTransform.calibration t) ∧
    NoDup (world_bits <$> parity_points c) ∧ ∃ slots, slots ≡ₚ grid ∧
      Forall2 (parity_good hypot (WorldToMapTransform.mk (rx_matrix raw) None)
                 (map_width_px region) (map_height_px region)) (parity_points c) slots) as Hcal.
  { intros c (evidence & He & Ht)%and_then_ok. injection Ht as <-.
    split; [done|]. split; [by eexists|]. by eapply calibration_covers. }
  destruct (rx_calibration raw) as [c|] eqn:Hc.
  - destruct (String.eqb (rx_transform_kind raw) "reference_fitted_affine_validated"
              && is_region region "MainMap" "FirstRegion") eqn:Hfit;
      [|destruct (String.eqb (rx_transform_kind raw) "authoritative_world_bounds_validated"
              && is_region region "MainMap" "FirstRegion") eqn:Hbounds; [step_if_in Hk|]]; try done.
    + apply andb_true_iff in Hfit as [Hkind%String.eqb_eq [? ?]%is_region_true].
      destruct (Hcal c Hk) as (? & ? & ? & ?).
      split; [done..|split; done|]. cbv zeta. rewrite Hc. split_and!; auto.
    + apply andb_true_iff in Hbounds as [Hkind%String.eqb_eq [? ?]%is_region_true].
      destruct (Hcal c Hk) as (? & ? & ? & ?). reflect_bool.
      split; [done..|split; done|]. cbv zeta. rewrite Hc. split_and!; auto.
  - destruct (String.eqb (rx_transform_kind raw) "authoritative_region_bounds"
              && is_region region "Tree" "DummyRegion") eqn:Htree; [step_if_in Hk|]; try done.
    apply andb_true_iff in Htree as [Hkind%String.eqb_eq [? ?]%is_region_true].
    injection Hk as <-. reflect_bool.
    split; [done..|split; done|]. cbv zeta. rewrite Hc. by split_and!.
Qed.

Lemma index_document fs' bs root manifest region index :
  parse_and_verify sha256 tiles_json fs' bs root manifest region = Ok index →
  ∃ raw, tiles_json bs = Some raw ∧ ri_game_build_id raw = game_build_id manifest ∧
    ri_map_id raw = map_id region ∧ ri_region_id raw = region_id region.
Proof.
  unfold parse_and_verify. rewrite and_then_ok. intros (raw & Hraw%ok_or_ok & Hk).
  apply and_then_ok in Hk as ([] & Hh & _). exists raw. unfold check_header in Hh.
  repeat (step_if_in Hh; [done|]). reflect_bool.
  repeat match goal with H : String.eqb _ _ = true |- _ => apply String.eqb_eq in H end. done.
Qed.

(** One part, opened over points that are known to be valid. *)
Lemma open_region_ok root manifest region index pack rs :
  map_width_px region < 2 ^ 53 → map_height_px region < 2 ^ 53 →
  index = from_records rs region →
  Forall (poi_valid hypot (game_build_id manifest) (map_regions manifest) region) rs →
  NoDup (poi_id <$> rs) →
  open_region root manifest region index = Ok pack →
  part_authentic (game_build_id manifest) root manifest region pack ∧ pack_poi_index pack = index.
Proof.
  intros Hw Hh -> Hrs Hnd. unfold open_region. rewrite and_then_ok.
  intros (tb & Htb%read_hashed_authentic & Hp).
  apply and_then_ok in Hp as (t & Ht%parse_transform_ok & Hp); [|done..].
  apply and_then_ok in Hp as (ib & Hib%read_hashed_authentic & Hp).
  apply and_then_ok in Hp as (i & Hi & Hp). injection Hp as <-.
  pose proof (index_document _ _ _ _ _ _ Hi) as Hdoc.
  apply parse_and_verify_ok in Hi as (Hpyr & Hsorted & Hkeys & Htiles & _ & Hset).
  split; [|done]. destruct Ht as (raw & Hraw & Ht). destruct Hdoc as (iraw & Hiraw & Hids).
  split; cbn [pack_root pack_region pack_transform pack_tile_index pack_poi_index]; try done.
  - by exists tb, raw.
  - by exists ib, iraw.
  - by exists (levels i).
  - intros key d Hd. destruct (Htiles key d Hd) as (Hkey & Hpath & _ & Hv).
    split_and!; [done|done|].
    apply verify_streaming_file_ok in Hv as (path & pieces & rest & ? & ? & ? & ? & ? & _).
    by exists path, pieces, rest.
  - by exists rs.
Qed.

Lemma open_regions_ok root manifest regions indexes packs :
  Forall (λ r, 0 < map_width_px r ≤ 8192 ∧ 0 < map_height_px r ≤ 8192) regions →
  Forall2 (λ idx region, ∃ rs, idx = from_records rs region ∧
    Forall (poi_valid hypot (game_build_id manifest) (map_regions manifest) region) rs ∧
    NoDup (poi_id <$> rs)) indexes regions →
  open_regions root manifest (zip regions indexes) = Ok packs →
  Forall2 (part_authentic (game_build_id manifest) root manifest) regions packs ∧
  pack_poi_index <$> packs = indexes.
Proof.
  intros Hdims Hidx. revert packs.
  induction Hidx as [|idx region idxs regions (rs & Hfrom & Hrs & Hnd) _ IH]; intros packs; simpl.
  { by intros [= <-]. }
  inversion_clear Hdims as [|? ? [Hw Hh] Hdims']. rewrite and_then_ok. intros (pack & Hp & Hk).
  apply and_then_ok in Hk as (packs' & Hps & Hk). injection Hk as <-.
  destruct (open_region_ok root manifest region idx pack rs) as [Ha Hi]; try done; [lia|lia|].
  destruct (IH Hdims' packs' Hps) as [Hall His]. split; [by constructor|]. cbn. by rewrite Hi, His.
Qed.

Lemma open_store_ok root build store
    (pois_json_typed : ∀ bs raw, pois_json bs = Some raw → pois_typed raw) :
  open_store root build = Ok store →
  ∃ real, unlinked fs root ∧ canonicalize fs root = Ok real ∧ store_authentic build real store.
Proof.
  unfold open_store. step_if; [done|]. rewrite and_then_ok. intros (real & Hroot & Hk).
  unfold validate_root, read_failed in Hroot.
  apply and_then_ok in Hroot as (md & [_ Hun]%checked_metadata_ok & Hroot).
  step_if_in Hroot; [done|]. apply map_err_ok in Hroot.
  exists real. split; [done|]. split; [done|].
  apply and_then_ok in Hk as (mb & (mpath & Hmp & Hmc & _)%read_bounded_ok & Hk).
  apply and_then_ok in Hk as (m & Hm & Hk).
  destruct (parse_manifest_ok _ _ _ _ _ Hm) as (raw & Hraw & Hparsed).
  pose proof (parsed_regions_dimensions _ _ (mp_regions _ _ _ _ Hparsed)) as Hdims.
  pose proof (mp_build _ _ _ _ Hparsed) as Hbuild.
  apply and_then_ok in Hk as (pb & Hpb%read_hashed_authentic & Hk).
  apply and_then_ok in Hk as (idxs & Hidxs & Hk).
  apply and_then_ok in Hk as (packs & Hpacks & Hk). injection Hk as <-.
  apply parse_by_region_ok in Hidxs as [Hidxs (praw & Hpraw & _ & Hpbuild & Hids)]; [|done|].
  2: { intros r Hr. rewrite Forall_forall in Hdims. specialize (Hdims r Hr). unfold u32_max. lia. }
  apply open_regions_ok in Hpacks as [Hpacks Hpi]; [|done..]. rewrite Hbuild in Hpacks, Hpbuild.
  split; cbn [store_manifest store_hash region_packs]; try done.
  - by exists mpath, mb, raw.
  - exists pb, praw. split_and!; try done. etransitivity; [|exact Hids].
    rewrite <- Hpi, <- list_fmap_compose. done.
Qed.

(** A store keeps the regions of its manifest, in order. *)
Lemma authentic_regions build root store :
  store_authentic build root store →
  pack_region <$> region_packs store = map_regions (store_manifest store).
Proof.
  intros [_ _ Hparts _ _]. revert Hparts. generalize (map_regions (store_manifest store)). intros regions.
  generalize (store_manifest store). intros m Hparts.
  induction Hparts as [|r p rs ps [_ Hp _ _ _ _ _ _ _] _ IH]; [done|]. cbn. by rewrite Hp, IH.
Qed.

(** What a published version is: the pointer of the build names a directory below the
    dataset and the digest of the manifest in it. *)
Theorem open_published_pinned dataset_root build store :
  open_published dataset_root build = Ok store →
  ∃ real pointer_path pb pointer version manifest_path mb,
    canonicalize fs dataset_root = Ok real ∧
    confined fs real (build ++ ".active.json") pointer_path ∧ contents fs pointer_path = Ok pb ∧
    pointer_json pb = Some pointer ∧ ap_game_build_id pointer = build ∧
    confined fs real (ap_relative_version_path pointer) version ∧
    confined fs version "manifest.json" manifest_path ∧ contents fs manifest_path = Ok mb ∧
    parse_hash (ap_manifest_sha256 pointer) "active_pointer.manifest_sha256" = Ok (sha256 mb) ∧
    open_store version build = Ok store.
Proof.
  unfold open_published. step_if; [done|]. rewrite and_then_ok. intros (real & Hroot & Hk).
  unfold validate_root, read_failed in Hroot.
  apply and_then_ok in Hroot as (md & _ & Hroot). step_if_in Hroot; [done|]. apply map_err_ok in Hroot.
  apply and_then_ok in Hk as (pb & (ppath & Hpp & Hpc & _)%read_bounded_ok & Hk).
  apply and_then_ok in Hk as (pointer & Hpointer%ok_or_ok & Hk). step_if_in Hk; [done|].
  apply and_then_ok in Hk as ([] & _ & Hk). destruct (strip_prefix _ _) as [name|]; [|done].
  step_if_in Hk; [done|]. apply and_then_ok in Hk as (hash & Hhash & Hk).
  apply and_then_ok in Hk as (version & Hv%resolve_directory_ok & Hk).
  apply and_then_ok in Hk as (mb & (mpath & Hmp & Hmc & _)%read_bounded_ok & Hk).
  case_bool_decide as Hs; [|done]. cbn [negb] in Hk. reflect_bool. rewrite <- Hs in Hhash.
  repeat match goal with H : String.eqb _ _ = true |- _ => apply String.eqb_eq in H end.
  by exists real, ppath, pb, pointer, version, mpath, mb.
Qed.

Lemma position_is_some {A} (p : A → bool) l x : x ∈ l → p x = true → is_Some (position p l).
Proof.
  induction l as [|y l IH]; [by intros ?%elem_of_nil|]. intros [->|Hx]%elem_of_cons Hp; cbn [position].
  - rewrite Hp. by eexists.
  - destruct (p y); [by eexists|]. destruct (IH Hx Hp) as [i ->]. by eexists.
Qed.

(** The part selected is the one of the region selected. *)
Lemma select_region_pack_spec build root store x y region :
  store_authentic build root store →
  select_map_region (map_regions (store_manifest store)) x y = Ok region →
  region ∈ map_regions (store_manifest store) →
  ∃ i pack, select_region_pack_index store x y = Ok i ∧ region_pack store i = Some pack ∧
    select_region_pack store x y = Ok pack ∧ pack_region pack = region.
Proof.
  intros Hstore Hsel Hin. pose proof (authentic_regions _ _ _ Hstore) as Hregions.
  destruct Hstore as [Hm _ _ _ _]. unfold select_region_pack, select_region_pack_index.
  rewrite Hsel. cbn [and_then].
  rewrite <- Hregions in Hin. apply list_elem_of_fmap in Hin as (pack & Hpr & Hpack).
  edestruct (position_is_some (λ pack, String.eqb (map_id (pack_region pack)) (map_id region)
    && String.eqb (region_id (pack_region pack)) (region_id region)) _ pack Hpack) as [i Hi].
  { rewrite <- Hpr, !String.eqb_refl. done. }
  rewrite Hi. cbn [ok_or and_then]. apply position_some in Hi as (found & Hfound & Hids).
  exists i, found. unfold region_pack. rewrite Hfound. cbn [ok_or]. split_and!; try done.
  destruct Hm as (path & bs & raw & _ & _ & _ & Hparsed).
  pose proof (mp_regions _ _ _ _ Hparsed) as (_ & Hv & _)%parse_map_regions_ok.
  apply andb_true_iff in Hids as [Hid%String.eqb_eq _].
  apply (authoritative_distinct _ _ _ Hv); [..|done]; rewrite <- Hregions; apply list_elem_of_fmap.
  - exists found. split; [done|]. by eapply list_elem_of_lookup_2.
  - by exists pack.
Qed.
End Store.

(** C14: opening a pack authenticates it. Everything is read below the canonical form of the
    given root, which is no link, and no link is crossed on the way. The manifest parsed for
    the expected build. The points come from the bytes of pois.json whose digest the manifest
    states, all of them and no other: each lies on the map of its region, is selected by its
    world position and is projected to within tolerance of its map position. Every region
    has one part, in order: its transform is the one of the manifest, from a document with
    the digest of the manifest, calibrated on every slot of the map or derived from the world
    bounds; its tile index has the digest of the manifest and lists exactly the pyramid, and
    the file of every tile had the size and digest listed. For any world position, the part
    selected is that of the unique region of highest priority containing it, and a part is
    never missing. *)
Theorem open_store_authentic sha256 hypot fs manifest_json pois_json transform_json tiles_json
    root build store
    (pois_json_typed : ∀ bs raw, pois_json bs = Some raw → pois_typed raw) :
  open_store sha256 hypot fs manifest_json pois_json transform_json tiles_json root build = Ok store →
  (∃ real, unlinked fs root ∧ canonicalize fs root = Ok real ∧
     store_authentic sha256 hypot fs manifest_json pois_json transform_json tiles_json build real store) ∧
  ∀ x y,
    match select_region_pack store x y with
    | Ok pack => ∃ i, region_packs store !! i = Some pack ∧
        select_region_pack_index store x y = Ok i ∧
        region_contains (pack_region pack) x y = true ∧
        ∀ other, other ∈ map_regions (store_manifest store) → region_contains other x y = true →
          other = pack_region pack ∨ (priority other < priority (pack_region pack))%Z
    | Err InvalidMapRegionCoordinate => is_finite x = false ∨ is_finite y = false
    | Err OutsideMapRegions =>
        ∀ r, r ∈ map_regions (store_manifest store) → region_contains r x y = false
    | Err _ => False
    end.
Proof.
  intros Ho. apply open_store_ok in Ho as Hok; [|done]. split; [done|]. intros x y.
  destruct Hok as (real & _ & _ & Hok).
  destruct (so_manifest _ _ _ _ _ _ _ _ _ _ Hok) as (path & bs & raw & _ & _ & _ & Hparsed).
  pose proof (mp_regions _ _ _ _ Hparsed) as (Hun & _ & _)%parse_map_regions_ok.
  pose proof (select_map_region_spec _ x y Hun) as Hspec.
  destruct (select_map_region _ x y) as [region|e] eqn:Hsel.
  - destruct Hspec as (_ & _ & Hin & Hc & Hbest).
    destruct (select_region_pack_spec _ _ _ _ _ _ _ _ _ _ x y _ Hok Hsel Hin) as
      (i & pack & Hi & Hpack & -> & <-). by exists i.
  - unfold select_region_pack, select_region_pack_index. rewrite Hsel. simpl.
    destruct e; try done. by destruct Hspec as (_ & _ & ?).
Qed.

(** ** The small pack, opened *)

(** Evidence on the grid over the main map: the world is 1448800 units across. *)
Definition demo_main_parity : list RawParityPoint :=
  (λ '(grid_x, grid_y),
     mkParity (f64_of_Z (349400 - 362200 * Z.of_N grid_y)) (f64_of_Z (362200 * Z.of_N grid_x - 724400))
       (f64_of_N (2 * grid_x)) (f64_of_N (2 * grid_y))) <$> grid.

Definition demo_raw_transform (m r kind : string) (matrix : Matrix)
    (evidence : option RawCalibrationEvidence) : RawTransformDocument :=
  mkRawTransform TRANSFORM_SCHEMA_VERSION "23456789" m r kind 8 8 matrix evidence.

Definition demo_region_file (m r name : string) : bytes :=
  demo_bytes ["pack"; "regions"; to_ascii_lowercase m; to_ascii_lowercase r; name].

Definition demo_transform_json (bs : bytes) : option RawTransformDocument :=
  if bool_decide (bs = demo_region_file "MainMap" "FirstRegion" "transform.json") then
    Some (demo_raw_transform "MainMap" "FirstRegion" "authoritative_world_bounds_validated"
            demo_main_matrix (Some (demo_calibration demo_main_parity)))
  else if bool_decide (bs = demo_region_file "Tree" "DummyRegion" "transform.json") then
    Some (demo_raw_transform "Tree" "DummyRegion" "authoritative_region_bounds"
            (demo_matrix (f64_lit 694703 2) (f64_of_Z (-818197)) (f64_lit 1378297 2)
               (f64_of_Z (-476400)) 8 8) None)
  else None.

Definition demo_tiles_json (bs : bytes) : option RawTileIndex :=
  if bool_decide (bs = demo_region_file "MainMap" "FirstRegion" "tile-index.json") then
    Some (demo_raw_tiles "MainMap" "FirstRegion")
  else if bool_decide (bs = demo_region_file "Tree" "DummyRegion" "tile-index.json") then
    Some (demo_raw_tiles "Tree" "DummyRegion")
  else None.

Definition demo_open : result MapPackStore MapPackError :=
  open_store demo_sha256 demo_hypot demo_pack_fs (λ _, Some demo_pack_manifest) (λ _, Some demo_pois)
    demo_transform_json demo_tiles_json ["pack"] "23456789".

(** The region selected at a world position of the small pack. *)
Definition demo_selected (x y : f64) : result string MapPackError :=
  let? store := demo_open in
  let? pack := select_region_pack store x y in
  Ok (map_id (pack_region pack)).

(** The small pack opens, and the overlap of its two regions belongs to the tree. *)
Lemma open_store_authentic_witness :
  ∃ store pack, demo_open = Ok store ∧
    select_region_pack store (f64_of_Z 348000) (f64_of_Z (-500000)) = Ok pack ∧
    map_id (pack_region pack) = "Tree" ∧
    ∀ other, other ∈ map_regions (store_manifest store) →
      region_contains other (f64_of_Z 348000) (f64_of_Z (-500000)) = true →
      other = pack_region pack ∨ (priority other < priority (pack_region pack))%Z.
Proof.
  assert (∀ (bs : bytes) raw, Some demo_pois = Some raw → pois_typed raw) as Htyped
    by (intros bs raw [= <-]; exact demo_pois_typed).
  assert (demo_selected (f64_of_Z 348000) (f64_of_Z (-500000)) = Ok "Tree") as Hs
    by (vm_compute; reflexivity).
  unfold demo_selected in Hs.
  apply and_then_ok in Hs as (store & E & Hs). apply and_then_ok in Hs as (pack & Hp & Hs).
  exists store, pack.
  assert (map_id (pack_region pack) = "Tree") as Hid by congruence.
  destruct (open_store_authentic demo_sha256 demo_hypot demo_pack_fs _ (λ _, Some demo_pois)
              demo_transform_json demo_tiles_json _ _ store Htyped E) as [_ Hsel].
  specialize (Hsel (f64_of_Z 348000) (f64_of_Z (-500000))). rewrite Hp in Hsel.
  destruct Hsel as (_ & _ & _ & _ & Hbest).
  exact (conj E (conj Hp (conj Hid Hbest))).
Defined.
