(* ===== verification/Viewport.v ===== *)
(** * Viewports

    Models [crates/pal-render/src/viewport.rs]: validated output metrics, the minimap and
    expanded-map viewports with their projections, bounds and containment tests, the pose
    of the view, and the interpolation of player poses. [f64::sin_cos] and [f64::hypot],
    whose precision Rust leaves open, are parameters. *)

From S2P Require Import Prelude Floats FloatInt FloatRound Settings Position MapGeometry.

Definition MAX_OUTPUT_DIMENSION_PX : N := 16384.
Definition MIN_ZOOM : f32 := f32_lit 1 2.
Definition MAX_ZOOM : f32 := f32_of_Z 4.

(** [f64::EPSILON], [f64::MAX] and the factor of [to_radians]. *)
Definition f64_epsilon : f64 := S754_finite false 4503599627370496 (-104).
Definition f64_max : f64 := S754_finite false 9007199254740991 971.
Definition f64_pi : f64 := S754_finite false 7074237752028440 (-51).
Definition to_radians (x : f64) : f64 := mul64 x (div64 f64_pi (f64_of_N 180)).

Definition f64_half : f64 := f64_lit 1 2.
Definition f64_one : f64 := f64_of_N 1.

Inductive ViewportValidationError :=
| OutputWidthOutOfRange | OutputHeightOutOfRange | MapPixelsPerScreenPixelInvalid | ZoomOutOfRange
| ScreenXNonFinite | ScreenYNonFinite | RotationNonFinite | PlayerZNonFinite
| PlayerHeadingNonFinite | ProjectionNonFinite.
#[export] Instance ViewportValidationError_eq_dec : EqDecision ViewportValidationError.
Proof. solve_decision. Defined.

Definition ViewportValidationError_field (self : ViewportValidationError) : string :=
  match self with
  | OutputWidthOutOfRange => "output_width_px"
  | OutputHeightOutOfRange => "output_height_px"
  | MapPixelsPerScreenPixelInvalid => "map_pixels_per_screen_pixel_at_zoom_one"
  | ZoomOutOfRange => "zoom"
  | ScreenXNonFinite => "screen.x"
  | ScreenYNonFinite => "screen.y"
  | RotationNonFinite => "map_rotation_degrees"
  | PlayerZNonFinite => "player.z"
  | PlayerHeadingNonFinite => "player.heading_degrees"
  | ProjectionNonFinite => "projection"
  end.

Definition validate_zoom (zoom : f32) : result unit ViewportValidationError :=
  if in_range MIN_ZOOM MAX_ZOOM zoom then Ok tt else Err ZoomOutOfRange.

Definition validate_rotation (rotation : f32) : result unit ViewportValidationError :=
  if is_finite rotation then Ok tt else Err RotationNonFinite.

Definition boundary_epsilon (center : MapPoint.t) (extent : f64) : f64 :=
  mul64 (mul64 (f64_of_N 64) f64_epsilon)
    (fmax (fmax (fmax (fabs (MapPoint.x center)) (fabs (MapPoint.y center))) (fabs extent)) f64_one).

Definition within_inclusive (value bound epsilon : f64) : bool :=
  fle value bound || (is_finite value && fle (sub64 value bound) epsilon).

Definition saturating_add_f64 (lhs rhs : f64) : f64 :=
  let result := add64 lhs rhs in
  if is_finite result then result
  else if is_sign_negative lhs then fneg f64_max else f64_max.

Definition saturating_mul_f64 (lhs rhs : f64) : f64 :=
  let result := mul64 lhs rhs in
  if is_finite result then result
  else if xorb (is_sign_negative lhs) (is_sign_negative rhs) then fneg f64_max else f64_max.

Definition lerp_f64 (from to t : f64) : f64 :=
  if fle t f64_zero then from
  else if fle f64_one t then to
  else if Bool.eqb (is_sign_negative from) (is_sign_negative to) then
    add64 from (mul64 (sub64 to from) t)
  else add64 (mul64 from (sub64 f64_one t)) (mul64 to t).

Definition intersect_map_bounds (min_x min_y max_x max_y : f64) (map_width_px map_height_px : N) :
    option MapRect.t :=
  if (map_width_px =? 0) || (map_height_px =? 0) then None
  else
    let width := f64_of_N map_width_px in
    let height := f64_of_N map_height_px in
    if flt max_x f64_zero || flt max_y f64_zero || flt width min_x || flt height min_y then None
    else
      match MapRect.new (fmax min_x f64_zero) (fmax min_y f64_zero) (fmin max_x width)
              (fmin max_y height) with
      | Ok rect => Some rect
      | Err _ => None
      end.

(** ** Metrics and screen points *)

Module ViewportMetrics.
Record t := mk {
  output_width_px : N;
  output_height_px : N;
  map_pixels_per_screen_pixel_at_zoom_one : f64;
}.

Definition new (output_width_px output_height_px : N) (map_pixels_per_screen_pixel_at_zoom_one : f64) :
    result t ViewportValidationError :=
  let mpp := map_pixels_per_screen_pixel_at_zoom_one in
  if negb ((1 <=? output_width_px) && (output_width_px <=? MAX_OUTPUT_DIMENSION_PX))
  then Err OutputWidthOutOfRange
  else if negb ((1 <=? output_height_px) && (output_height_px <=? MAX_OUTPUT_DIMENSION_PX))
  then Err OutputHeightOutOfRange
  else if negb (is_finite mpp) || fle mpp f64_zero
          || negb (is_finite (mul64 mpp (f64_of_N (output_width_px + output_height_px))))
  then Err MapPixelsPerScreenPixelInvalid
  else Ok (mk output_width_px output_height_px mpp).

Definition effective_map_pixels_per_screen_pixel (self : t) (zoom : f32) : f64 :=
  div64 (map_pixels_per_screen_pixel_at_zoom_one self) (f64_from_f32 zoom).
End ViewportMetrics.

Module ScreenPoint.
Record t := mk { x : f64; y : f64 }.

Definition new (x y : f64) : result t ViewportValidationError :=
  if negb (is_finite x) then Err ScreenXNonFinite
  else if negb (is_finite y) then Err ScreenYNonFinite
  else Ok (mk x y).
End ScreenPoint.

(** ** The two viewports *)

Section Trigonometry.
Context (sin_cos : f64 → f64 * f64) (hypot : f64 → f64 → f64).

Definition rotate (x y : f64) (degrees : f32) : f64 * f64 :=
  let radians := to_radians (f64_from_f32 degrees) in
  let '(sine, cosine) := sin_cos radians in
  (sub64 (mul64 cosine x) (mul64 sine y), add64 (mul64 sine x) (mul64 cosine y)).

Record MiniMapViewport := mkMini {
  mini_center : MapPoint.t;
  mini_zoom : f32;
  mini_metrics : ViewportMetrics.t;
}.

Definition mini_new (center : MapPoint.t) (zoom : f32) (metrics : ViewportMetrics.t) :
    result MiniMapViewport ViewportValidationError :=
  let? _ := validate_zoom zoom in
  Ok (mkMini center zoom metrics).

Definition mini_scale (self : MiniMapViewport) : f64 :=
  ViewportMetrics.effective_map_pixels_per_screen_pixel (mini_metrics self) (mini_zoom self).

Definition radius_map_pixels (self : MiniMapViewport) : f64 :=
  mul64
    (mul64 (f64_of_N (N.min (ViewportMetrics.output_width_px (mini_metrics self))
                            (ViewportMetrics.output_height_px (mini_metrics self)))) f64_half)
    (mini_scale self).

Definition mini_broad_phase_bounds (self : MiniMapViewport) (map_width_px map_height_px : N) :
    option MapRect.t :=
  let radius := radius_map_pixels self in
  intersect_map_bounds
    (saturating_add_f64 (MapPoint.x (mini_center self)) (fneg radius))
    (saturating_add_f64 (MapPoint.y (mini_center self)) (fneg radius))
    (saturating_add_f64 (MapPoint.x (mini_center self)) radius)
    (saturating_add_f64 (MapPoint.y (mini_center self)) radius)
    map_width_px map_height_px.

Definition mini_contains_map_point (self : MiniMapViewport) (point : MapPoint.t) : bool :=
  let radius := radius_map_pixels self in
  let epsilon := boundary_epsilon (mini_center self) radius in
  within_inclusive
    (hypot (sub64 (MapPoint.x point) (MapPoint.x (mini_center self)))
           (sub64 (MapPoint.y point) (MapPoint.y (mini_center self))))
    radius epsilon.

Record ExpandedMapViewport := mkExpanded {
  expanded_center : MapPoint.t;
  expanded_zoom : f32;
  expanded_metrics : ViewportMetrics.t;
}.

Definition expanded_new (center : MapPoint.t) (zoom : f32) (metrics : ViewportMetrics.t) :
    result ExpandedMapViewport ViewportValidationError :=
  let? _ := validate_zoom zoom in
  Ok (mkExpanded center zoom metrics).

Definition expanded_scale (self : ExpandedMapViewport) : f64 :=
  ViewportMetrics.effective_map_pixels_per_screen_pixel (expanded_metrics self) (expanded_zoom self).

Definition half_output (size : N) : f64 := mul64 (f64_of_N size) f64_half.

Definition map_to_screen (self : ExpandedMapViewport) (point : MapPoint.t)
    (map_rotation_degrees : f32) : result ScreenPoint.t ViewportValidationError :=
  let? _ := validate_rotation map_rotation_degrees in
  let scale := expanded_scale self in
  let local_x := div64 (sub64 (MapPoint.x point) (MapPoint.x (expanded_center self))) scale in
  let local_y := div64 (sub64 (MapPoint.y point) (MapPoint.y (expanded_center self))) scale in
  let '(rotated_x, rotated_y) := rotate local_x local_y map_rotation_degrees in
  ScreenPoint.new
    (add64 rotated_x (half_output (ViewportMetrics.output_width_px (expanded_metrics self))))
    (add64 rotated_y (half_output (ViewportMetrics.output_height_px (expanded_metrics self)))).

Definition screen_to_map (self : ExpandedMapViewport) (point : ScreenPoint.t)
    (map_rotation_degrees : f32) : result MapPoint.t ViewportValidationError :=
  let? _ := validate_rotation map_rotation_degrees in
  let screen_x := sub64 (ScreenPoint.x point)
                    (half_output (ViewportMetrics.output_width_px (expanded_metrics self))) in
  let screen_y := sub64 (ScreenPoint.y point)
                    (half_output (ViewportMetrics.output_height_px (expanded_metrics self))) in
  let '(local_x, local_y) := rotate screen_x screen_y (fneg map_rotation_degrees) in
  let scale := expanded_scale self in
  map_err (λ _, ProjectionNonFinite)
    (MapPoint.new (add64 (MapPoint.x (expanded_center self)) (mul64 local_x scale))
                  (add64 (MapPoint.y (expanded_center self)) (mul64 local_y scale))).

Definition saturating_inverse_corner (self : ExpandedMapViewport) (screen_offset : f64 * f64)
    (map_rotation_degrees : f32) : f64 * f64 :=
  let '(local_x, local_y) := rotate screen_offset.1 screen_offset.2 (fneg map_rotation_degrees) in
  let scale := expanded_scale self in
  (saturating_add_f64 (MapPoint.x (expanded_center self)) (saturating_mul_f64 local_x scale),
   saturating_add_f64 (MapPoint.y (expanded_center self)) (saturating_mul_f64 local_y scale)).

(** One turn of the loop over the corners: (min_x, min_y, max_x, max_y). *)
Definition extend_bounds (bounds : f64 * f64 * f64 * f64) (point : f64 * f64) : f64 * f64 * f64 * f64 :=
  let '(min_x, min_y, max_x, max_y) := bounds in
  (fmin min_x point.1, fmin min_y point.2, fmax max_x point.1, fmax max_y point.2).

Definition expanded_broad_phase_bounds (self : ExpandedMapViewport) (map_width_px map_height_px : N)
    (map_rotation_degrees : f32) : option MapRect.t :=
  match validate_rotation map_rotation_degrees with
  | Err _ => None
  | Ok _ =>
      let half_width := half_output (ViewportMetrics.output_width_px (expanded_metrics self)) in
      let half_height := half_output (ViewportMetrics.output_height_px (expanded_metrics self)) in
      let inverse corner := saturating_inverse_corner self corner map_rotation_degrees in
      let first := inverse (fneg half_width, fneg half_height) in
      let '(min_x, min_y, max_x, max_y) :=
        fold_left (λ bounds corner, extend_bounds bounds (inverse corner))
          [(half_width, fneg half_height); (half_width, half_height); (fneg half_width, half_height)]
          (first.1, first.2, first.1, first.2) in
      intersect_map_bounds min_x min_y max_x max_y map_width_px map_height_px
  end.

Definition expanded_contains_map_point (self : ExpandedMapViewport) (point : MapPoint.t)
    (map_rotation_degrees : f32) : bool :=
  match validate_rotation map_rotation_degrees with
  | Err _ => false
  | Ok _ =>
      let delta_x := sub64 (MapPoint.x point) (MapPoint.x (expanded_center self)) in
      let delta_y := sub64 (MapPoint.y point) (MapPoint.y (expanded_center self)) in
      if negb (is_finite delta_x) || negb (is_finite delta_y) then false
      else
        let '(local_x, local_y) := rotate delta_x delta_y map_rotation_degrees in
        if negb (is_finite local_x) || negb (is_finite local_y) then false
        else
          let scale := expanded_scale self in
          let half_width :=
            mul64 (half_output (ViewportMetrics.output_width_px (expanded_metrics self))) scale in
          let half_height :=
            mul64 (half_output (ViewportMetrics.output_height_px (expanded_metrics self))) scale in
          let epsilon := boundary_epsilon (expanded_center self) (fmax half_width half_height) in
          within_inclusive (fabs local_x) half_width epsilon
          && within_inclusive (fabs local_y) half_height epsilon
  end.

(** ** The viewport in use *)

Inductive ActiveViewport :=
| Mini (viewport : MiniMapViewport)
| Expanded (viewport : ExpandedMapViewport).

Definition center (self : ActiveViewport) : MapPoint.t :=
  match self with Mini v => mini_center v | Expanded v => expanded_center v end.

Definition zoom (self : ActiveViewport) : f32 :=
  match self with Mini v => mini_zoom v | Expanded v => expanded_zoom v end.

Definition metrics (self : ActiveViewport) : ViewportMetrics.t :=
  match self with Mini v => mini_metrics v | Expanded v => expanded_metrics v end.

Definition effective_map_pixels_per_screen_pixel (self : ActiveViewport) : f64 :=
  match self with Mini v => mini_scale v | Expanded v => expanded_scale v end.

Definition broad_phase_bounds (self : ActiveViewport) (map_width_px map_height_px : N)
    (map_rotation_degrees : f32) : option MapRect.t :=
  match self with
  | Mini v => mini_broad_phase_bounds v map_width_px map_height_px
  | Expanded v => expanded_broad_phase_bounds v map_width_px map_height_px map_rotation_degrees
  end.

Definition contains_map_point (self : ActiveViewport) (point : MapPoint.t)
    (map_rotation_degrees : f32) : bool :=
  match self with
  | Mini v => mini_contains_map_point v point
  | Expanded v => expanded_contains_map_point v point map_rotation_degrees
  end.
End Trigonometry.

Record ViewportLayout := mkLayout {
  layout_mini : ViewportMetrics.t;
  layout_expanded : ViewportMetrics.t;
}.

(** ** Poses *)

Inductive HeadingStatus := Available | Unavailable.
#[export] Instance HeadingStatus_eq_dec : EqDecision HeadingStatus.
Proof. solve_decision. Defined.

Record ViewportPose := mkPose {
  pose_map_rotation_degrees : f32;
  pose_player_rotation_degrees : f32;
  pose_heading_status : HeadingStatus;
}.

Definition rem_360 (heading : f32) : f32 := rem_euclid prec32 emax32 heading (f32_of_Z 360).

Definition compute_viewport_pose (mode : RotationMode) (heading : option f32) : ViewportPose :=
  match (heading ≫= λ value, if is_finite value then Some value else None) with
  | None => mkPose (f32_of_Z 0) (f32_of_Z 0) Unavailable
  | Some heading =>
      let heading := rem_360 heading in
      match mode with
      | NorthUp => mkPose (f32_of_Z 0) heading Available
      | HeadingUp => mkPose (fneg heading) (f32_of_Z 0) Available
      end
  end.

Module PlayerPose.
Record t := mk {
  world : WorldPoint.t;
  map : MapPoint.t;
  z : f64;
  heading_degrees : option f32;
}.

Definition new (world : WorldPoint.t) (map : MapPoint.t) (z : f64) (heading_degrees : option f32) :
    result t ViewportValidationError :=
  if negb (is_finite z) then Err PlayerZNonFinite
  else if is_some_and heading_degrees (λ heading, negb (is_finite heading))
  then Err PlayerHeadingNonFinite
  else Ok (mk world map z (rem_360 <$> heading_degrees)).
End PlayerPose.

Inductive InterpolationPolicy := Interpolate | Freeze.
#[export] Instance InterpolationPolicy_eq_dec : EqDecision InterpolationPolicy.
Proof. solve_decision. Defined.

Definition interpolate_player_pose (from to : PlayerPose.t) (t : f32) (policy : InterpolationPolicy) :
    option PlayerPose.t :=
  if bool_decide (policy = Freeze) then Some to
  else
    let t := if is_nan t then f32_of_Z 1 else fclamp t (f32_of_Z 0) (f32_of_Z 1) in
    let t64 := f64_from_f32 t in
    world ← expect (WorldPoint.new
      (lerp_f64 (WorldPoint.x (PlayerPose.world from)) (WorldPoint.x (PlayerPose.world to)) t64)
      (lerp_f64 (WorldPoint.y (PlayerPose.world from)) (WorldPoint.y (PlayerPose.world to)) t64));
    map ← expect (MapPoint.new
      (lerp_f64 (MapPoint.x (PlayerPose.map from)) (MapPoint.x (PlayerPose.map to)) t64)
      (lerp_f64 (MapPoint.y (PlayerPose.map from)) (MapPoint.y (PlayerPose.map to)) t64));
    let z := lerp_f64 (PlayerPose.z from) (PlayerPose.z to) t64 in
    let heading_degrees :=
      match PlayerPose.heading_degrees from, PlayerPose.heading_degrees to with
      | Some from, Some to => Some (shortest_angle_lerp from to t)
      | _, to => to
      end in
    Some (PlayerPose.mk world map z heading_degrees).

(** ** Interpolation stays between its endpoints *)

Section Lerp.
Local Open Scope Z_scope.

(** [v] lies between 0 and [w]. *)
Definition towards (w v : Z) : Prop := (0 ≤ v ≤ w) ∨ (w ≤ v ≤ 0).

Lemma one_val : data f64_one ∧ val f64_one = unit_val.
Proof. split; [done|]. unfold f64_one. rewrite (proj2 (f64_of_N_data 1 eq_refl)). lia. Qed.

Lemma zero_data : data f64_zero.
Proof. done. Qed.

Lemma representable_max : representable max_val.
Proof. split; [by compute|]. exists (2 ^ 53 - 1), 971. by compute. Qed.

Lemma val_multiple x : f64_ok x = true → ∃ k, val x = k * weight (-1074).
Proof.
  intros Hx. destruct x as [| | |s m e]; [by exists 0..|].
  apply f64_ok_finite in Hx as (? & _). exists (cond_Zopp s (Zpos m) * 2 ^ (e - -1074)).
  cbn [val]. rewrite (weight_split e (-1074)) by lia. lia.
Qed.

Lemma sign_val x : if is_sign_negative x then val x ≤ 0 else 0 ≤ val x.
Proof.
  destruct x as [[]|[]| |[] m e]; cbn [val is_sign_negative cond_Zopp]; try lia;
    pose proof (Z.pow_nonneg 2 (e + 2148) ltac:(lia)); unfold weight; nia.
Qed.

Lemma rounded_data V P r lo hi :
  rounded V P r → representable lo → representable hi → lo * P ≤ V ≤ hi * P →
  data r ∧ lo ≤ val r ≤ hi.
Proof. intros [Ho _ Hb] Hl Hh HV. destruct (Hb lo hi Hl Hh HV). by split; [split|]. Qed.

(** A factor of at most one shrinks. *)
Lemma fmul_shrink x u :
  data x → data u → 0 ≤ val u ≤ unit_val → data (mul64 x u) ∧ towards (val x) (val (mul64 x u)).
Proof.
  intros Hx Hu Hv. pose proof (fmul_rounded x u Hx Hu) as Hr. pose proof unit_val_pos.
  pose proof (representable_val x Hx) as Rx. unfold towards.
  set (a := val x) in *. set (U := unit_val) in *. clearbody U.
  destruct (Z.le_ge_cases 0 a) as [Ha|Ha].
  - destruct (rounded_data _ _ _ 0 a Hr representable_0 Rx) as [? ?]; [nia|auto].
  - destruct (rounded_data _ _ _ a 0 Hr Rx representable_0) as [? ?]; [nia|auto].
Qed.

(** A step that comes from an [f32] strictly between 0 and 1. *)
Definition small_step (t : f64) : Prop :=
  data t ∧ 0 < val t ∧ val t * 2 ^ 24 ≤ (2 ^ 24 - 1) * unit_val.

(** Shrinking the rounded difference by such a step leaves room for its rounding error. *)
Lemma step_room d D :
  data d → 2 ^ 53 * Z.abs (val d - D) ≤ Z.abs D → (∃ k, D = k * weight (-1074)) →
  ∃ z, representable z ∧ z ≤ Z.abs D ∧ Z.abs (val d) * (2 ^ 24 - 1) ≤ z * 2 ^ 24.
Proof.
  intros Hd Hnear [k HD]. pose proof (representable_val d Hd) as [Hmax _].
  destruct Hd as [Ho Hf]. destruct d as [s| | |s m e]; try done.
  { exists 0. split; [apply representable_0|]. simpl in *. lia. }
  apply f64_ok_finite in Ho as (He & Hm & Hn). pose proof (weight_pos e ltac:(lia)) as Hw.
  assert (Z.abs (val (S754_finite s m e)) = Zpos m * weight e) as Habs
    by (cbn [val]; destruct s; cbn [cond_Zopp]; lia).
  destruct (Z.le_gt_cases (2 ^ 52) (Zpos m)) as [Hbig|Hsmall].
  - exists ((Zpos m - 2 ^ 28) * weight e).
    assert (0 ≤ (Zpos m - 2 ^ 28) * weight e) by nia.
    split; [|split; nia]. split; [lia|]. exists (Zpos m - 2 ^ 28), e. lia.
  - assert (e = -1074) as -> by lia.
    assert (val (S754_finite s m (-1074)) = D) as <-.
    { rewrite HD in *. cbn [val] in *. set (c := cond_Zopp s (Zpos m)) in *.
      rewrite <- Z.mul_sub_distr_r, !Z.abs_mul, (Z.abs_eq (weight _)) in Hnear by lia.
      assert (Z.abs (c - k) = 0); [|f_equal; lia].
      assert (Z.abs k ≤ Z.abs (c - k) + Zpos m) by (unfold c; destruct s; simpl; lia).
      set (w := weight (-1074)) in *. clearbody w c. nia. }
    exists (Zpos m * weight (-1074)). split; [|lia].
    split; [lia|]. exists (Zpos m), (-1074). lia.
Qed.

Lemma lerp_increment from to t :
  data from → data to → small_step t → Z.abs (val to - val from) ≤ max_val →
  let p := mul64 (sub64 to from) t in data p ∧ towards (val to - val from) (val p).
Proof.
  intros Hfrom Hto (Ht & Ht0 & Ht1) Hmax p. set (D := val to - val from) in *.
  destruct (rounded_data D 1 (sub64 to from) (- max_val) max_val) as [Hd _];
    [by apply fsub_rounded|apply representable_opp, representable_max|apply representable_max|lia|].
  assert (2 ^ 53 * Z.abs (val (sub64 to from) - D) ≤ Z.abs D) as Hnear.
  { unfold D. rewrite fsub_fadd in *. pose proof (fadd_near to (fneg from) Hto) as Hn.
    rewrite val_fneg in Hn. replace (val to - val from) with (val to + - val from) by lia.
    apply Hn; [by apply data_fneg|apply Hd]. }
  destruct (val_multiple to) as [k1 H1]; [apply Hto|].
  destruct (val_multiple from) as [k2 H2]; [apply Hfrom|].
  destruct (step_room (sub64 to from) D Hd Hnear) as (z & Hz & HzD & Hroom).
  { exists (k1 - k2). unfold D. lia. }
  pose proof (fmul_rounded _ t Hd Ht) as Hr. fold p in Hr. pose proof unit_val_pos as Hunit.
  set (U := unit_val) in *. clearbody U D. set (a := val (sub64 to from)) in *. clearbody a.
  assert (Z.abs (a * val t) ≤ z * U) as HVz.
  { rewrite Z.abs_mul, (Z.abs_eq (val t)) by lia.
    assert (Z.abs a * val t * 2 ^ 24 ≤ z * 2 ^ 24 * U); [|nia]. nia. }
  unfold towards. destruct (Z.le_ge_cases 0 D) as [HD|HD].
  - assert (0 ≤ a) by lia. destruct (rounded_data _ _ p 0 z Hr representable_0 Hz); [nia|].
    split; [done|]. left. lia.
  - assert (a ≤ 0) by lia.
    destruct (rounded_data _ _ p (- z) 0 Hr (representable_opp _ Hz) representable_0); [nia|].
    split; [done|]. right. lia.
Qed.

(** [v] lies between [a] and [b]. *)
Definition between (a b v : Z) : Prop := a ≤ v ≤ b ∨ b ≤ v ≤ a.

Lemma lerp_between from to t :
  data from → data to → data t → (fle t f64_zero = false → fle f64_one t = false → small_step t) →
  data (lerp_f64 from to t) ∧ between (val from) (val to) (val (lerp_f64 from to t)).
Proof.
  intros Hfrom Hto Ht Hsmall. pose proof (representable_val _ Hfrom) as Rf.
  pose proof (representable_val _ Hto) as Rt. unfold lerp_f64, between.
  destruct (fle t f64_zero); [split; [done|lia]|]. destruct (fle f64_one t); [split; [done|lia]|].
  specialize (Hsmall eq_refl eq_refl). pose proof (sign_val from) as Sf. pose proof (sign_val to) as St.
  destruct (Bool.eqb (is_sign_negative from) (is_sign_negative to)) eqn:Hs.
  - apply eqb_prop in Hs. rewrite <- Hs in St.
    destruct (lerp_increment from to t Hfrom Hto Hsmall) as [Hp Htow].
    { pose proof (proj1 Rf). pose proof (proj1 Rt). destruct (is_sign_negative from); lia. }
    set (p := mul64 (sub64 to from) t) in *.
    pose proof (fadd_rounded from p Hfrom Hp) as Hr. destruct Htow as [Htow|Htow].
    + destruct (rounded_data _ _ _ (val from) (val to) Hr Rf Rt); [lia|auto].
    + destruct (rounded_data _ _ _ (val to) (val from) Hr Rt Rf); [lia|auto].
  - apply eqb_false_iff in Hs. destruct one_val as [D1 V1]. destruct Hsmall as (_ & Ht0 & Ht1).
    pose proof unit_val_pos as Hunit.
    destruct (rounded_data _ _ _ 0 (val f64_one) (fsub_rounded f64_one t D1 Ht) representable_0) as [Du Vu];
      [by apply representable_val|lia|].
    destruct (fmul_shrink from (sub64 f64_one t)) as [Dq Tq]; [done|done|lia|].
    destruct (fmul_shrink to t) as [Dr Tr]; [done|done|lia|].
    pose proof (fadd_rounded _ _ Dq Dr) as Hr. unfold towards in *.
    destruct (is_sign_negative from), (is_sign_negative to);
      [by destruct Hs| | |by destruct Hs].
    + destruct (rounded_data _ _ _ (val from) (val to) Hr Rf Rt); [lia|auto].
    + destruct (rounded_data _ _ _ (val to) (val from) Hr Rt Rf); [lia|auto].
Qed.

(** The step of an [f32] leaves a margin of one part in [2 ^ 24] to one. *)
Lemma f32_step t :
  f32_ok t = true → is_finite t = true → fle (f64_from_f32 t) f64_zero = false →
  fle f64_one (f64_from_f32 t) = false → small_step (f64_from_f32 t).
Proof.
  intros Ho Hf H0 H1. destruct (f64_from_f32_exact t Ho Hf) as [Hd Hv].
  destruct one_val as [D1 V1].
  apply not_true_iff_false in H0, H1. rewrite (fle_val _ _ Hd zero_data) in H0.
  rewrite (fle_val _ _ D1 Hd), V1 in H1. change (val f64_zero) with 0 in H0.
  split; [done|]. split; [lia|]. rewrite Hv in *.
  destruct t as [| | |s m e]; try (simpl in H0; lia).
  apply f32_ok_finite in Ho as (He & Hm & _). cbn [val] in *. pose proof (weight_pos e ltac:(lia)).
  destruct s; cbn [cond_Zopp] in *; [nia|].
  assert (e < 0) as Hneg.
  { destruct (Z.lt_ge_cases e 0); [done|]. exfalso.
    assert (unit_val ≤ weight e) by (apply Z.pow_le_mono_r; lia). nia. }
  assert (unit_val = 2 ^ (- e) * weight e) as Hu.
  { unfold unit_val, weight. rewrite <- Z.pow_add_r by lia. f_equal. lia. }
  rewrite Hu in *. set (w := weight e) in *. clearbody w.
  assert (Zpos m < 2 ^ (- e)) as Hlt by nia.
  assert (Zpos m * 2 ^ 24 ≤ (2 ^ 24 - 1) * 2 ^ (- e)); [|nia].
  destruct (Z.le_gt_cases (- e) 24) as [Hle|Hgt].
  - assert (2 ^ (- e) ≤ 2 ^ 24) by (apply Z.pow_le_mono_r; lia). nia.
  - assert (2 ^ 25 ≤ 2 ^ (- e)) by (apply Z.pow_le_mono_r; lia). nia.
Qed.
End Lerp.

(** The numbers of a pose. *)
Definition pose_coordinates : list (PlayerPose.t → f64) :=
  [λ p, WorldPoint.x (PlayerPose.world p); λ p, WorldPoint.y (PlayerPose.world p);
   λ p, MapPoint.x (PlayerPose.map p); λ p, MapPoint.y (PlayerPose.map p); PlayerPose.z].

Definition pose_data (p : PlayerPose.t) : Prop := Forall (λ c, data (c p)) pose_coordinates.

(** [v] lies between [a] and [b], as the floating-point comparisons see it. *)
Definition lies_between (a b v : f64) : Prop :=
  (fle a v = true ∧ fle v b = true) ∨ (fle b v = true ∧ fle v a = true).

Lemma lies_between_val a b v : data a → data b → data v → between (val a) (val b) (val v) → lies_between a b v.
Proof.
  intros Ha Hb Hv Hbet. unfold lies_between. rewrite !fle_val by done. exact Hbet.
Qed.

(** The step the code computes from its argument. *)
Definition clamped_step (t : f32) : f32 :=
  if is_nan t then f32_of_Z 1 else fclamp t (f32_of_Z 0) (f32_of_Z 1).

Lemma f32_one : f32_of_Z 1 = S754_finite false 8388608 (-23).
Proof. reflexivity. Qed.

Lemma clamped_step_ok t :
  f32_ok t = true → f32_ok (clamped_step t) = true ∧ is_finite (clamped_step t) = true.
Proof.
  intros Ht. unfold clamped_step, fclamp. destruct t as [|[]| |s m e]; try by vm_compute.
  cbn [is_nan]. step_if; [by vm_compute|]. step_if; [by vm_compute|done].
Qed.

Lemma clamped_step_low t :
  f32_ok t = true → fle t (f32_of_Z 0) = true → fle (f64_from_f32 (clamped_step t)) f64_zero = true.
Proof.
  intros Ho Ht. destruct t as [[]|[]| |[] m e]; try done.
Qed.

Lemma clamped_step_high t :
  is_nan t = true ∨ fle (f32_of_Z 1) t = true → clamped_step t = f32_of_Z 1.
Proof.
  unfold clamped_step. intros [->|Ht]; [done|].
  destruct t as [|[]| |s m e]; try done. unfold fclamp. cbn [is_nan].
  destruct s; [done|].
  assert (flt (S754_finite false m e) (f32_of_Z 0) = false) as -> by done.
  destruct (flt (f32_of_Z 1) (S754_finite false m e)) eqn:Hlt; [done|].
  rewrite flt_not_fle in Hlt by done. apply negb_false_iff in Hlt.
  rewrite f32_one in *. apply fle_finite in Ht, Hlt. cbv iota in *.
  assert (e = -23)%Z as -> by lia. f_equal. lia.
Qed.

Lemma step_lerp from to t :
  data from → data to → f32_ok t = true →
  let v := lerp_f64 from to (f64_from_f32 (clamped_step t)) in
  data v ∧ lies_between from to v ∧
  (fle t (f32_of_Z 0) = true → v = from) ∧
  (is_nan t = true ∨ fle (f32_of_Z 1) t = true → v = to).
Proof.
  intros Hf Ht Ho v. destruct (clamped_step_ok t Ho) as [Oc Fc].
  destruct (f64_from_f32_exact _ Oc Fc) as [Dc _].
  destruct (lerp_between from to (f64_from_f32 (clamped_step t)) Hf Ht Dc) as [Dv Bv];
    [by apply f32_step|].
  fold v in Dv, Bv. split; [done|]. split; [by apply lies_between_val|]. unfold v, lerp_f64. split.
  - intros Hlow. by rewrite clamped_step_low.
  - intros ->%clamped_step_high. done.
Qed.

(** Interpolating between two poses neither panics nor overshoots. Whatever finite poses
    and whatever step, NaN and infinities included, the result exists, and each of its
    numbers is finite and lies between those of the two poses, in spite of rounding and
    however far apart they are; a step of zero or less gives the first pose, one of one or
    more, or NaN, the second, and [Freeze] the second as it is. *)
Theorem interpolation_bounded from to t policy :
  pose_data from → pose_data to → f32_ok t = true →
  ∃ pose, interpolate_player_pose from to t policy = Some pose ∧
    (policy = Freeze → pose = to) ∧
    (policy = Interpolate →
     Forall (λ c, data (c pose) ∧ lies_between (c from) (c to) (c pose) ∧
       (fle t (f32_of_Z 0) = true → c pose = c from) ∧
       (is_nan t = true ∨ fle (f32_of_Z 1) t = true → c pose = c to)) pose_coordinates).
Proof.
  intros Hfrom Hto Ho. destruct policy; [|by exists to].
  unfold interpolate_player_pose. cbn [bool_decide]. fold (clamped_step t).
  unfold pose_data, pose_coordinates in *. rewrite !Forall_cons in Hfrom, Hto.
  destruct Hfrom as (Fx & Fy & Gx & Gy & Fz & _), Hto as (Tx & Ty & Ux & Uy & Tz & _).
  pose proof (step_lerp _ _ t Fx Tx Ho) as Lx. pose proof (step_lerp _ _ t Fy Ty Ho) as Ly.
  pose proof (step_lerp _ _ t Gx Ux Ho) as Mx. pose proof (step_lerp _ _ t Gy Uy Ho) as My.
  pose proof (step_lerp _ _ t Fz Tz Ho) as Lz. cbv zeta in *.
  rewrite WorldPoint.world_point_new, MapPoint.map_point_new; [|apply Mx|apply My|apply Lx|apply Ly].
  eexists. split; [reflexivity|]. split; [done|]. intros _.
  rewrite !Forall_cons. cbn. done.
Qed.

Definition far_pose (bound : f64) : PlayerPose.t :=
  PlayerPose.mk (WorldPoint.mk bound bound) (MapPoint.mk bound bound) bound None.

Lemma interpolation_bounded_witness :
  ∃ pose, interpolate_player_pose (far_pose (fneg f64_max)) (far_pose f64_max) (f32_lit 3 10) Interpolate
          = Some pose ∧ data (PlayerPose.z pose).
Proof.
  destruct (interpolation_bounded (far_pose (fneg f64_max)) (far_pose f64_max) (f32_lit 3 10) Interpolate)
    as (pose & Hpose & _ & Hall).
  - unfold pose_data, pose_coordinates. repeat constructor.
  - unfold pose_data, pose_coordinates. repeat constructor.
  - reflexivity.
  - exists pose. split; [exact Hpose|]. specialize (Hall eq_refl).
    unfold pose_coordinates in Hall. rewrite !Forall_cons in Hall. apply Hall.
Defined.
