(* ===== verification/Culling.v ===== *)
(** * Culling

    Models [crates/pal-render/src/culling.rs]: the level of detail for a scale, the bounds
    around a viewport, and the selection of the points and tiles to draw. *)

From S2P Require Import Prelude Floats FloatInt FloatRound Settings Position MapGeometry PackFiles MapManifest.
From S2P Require Import PoiIndex TileIndex Viewport.

(** [2.0_f64.powi(level)], exact for every [u8]. *)
Definition powi_2 (level : N) : f64 := f64_of_Z (2 ^ Z.of_N level).

(** [Iterator::min] and [Iterator::max]. *)
Definition iter_min (l : list N) : option N :=
  match l with [] => None | x :: l => Some (fold_left N.min l x) end.
Definition iter_max (l : list N) : option N :=
  match l with [] => None | x :: l => Some (fold_left N.max l x) end.

Definition select_lod_level (levels : list TileLevel) (effective_mpp : f64) : option N :=
  if is_nan effective_mpp || fle effective_mpp f64_zero then None
  else
    first_level ← iter_min (tl_level <$> levels);
    Some (unwrap_or
      (iter_max (List.filter (λ level, fle (powi_2 level) effective_mpp) (tl_level <$> levels)))
      first_level).

Definition rectangles_intersect (left right : MapRect.t) : bool :=
  fle (MapRect.min_x left) (MapRect.max_x right)
  && fle (MapRect.min_x right) (MapRect.max_x left)
  && fle (MapRect.min_y left) (MapRect.max_y right)
  && fle (MapRect.min_y right) (MapRect.max_y left).

Section Culling.
Context (sin_cos : f64 → f64 * f64) (hypot : f64 → f64 → f64).

Definition conservative_bounds (viewport : ActiveViewport) (map_rotation_degrees : f32)
    (map_width_px map_height_px : N) : option MapRect.t :=
  bounds ← broad_phase_bounds sin_cos viewport map_width_px map_height_px map_rotation_degrees;
  let metrics := metrics viewport in
  let extent :=
    mul64 (mul64 f64_half
             (f64_of_N (N.max (ViewportMetrics.output_width_px metrics)
                              (ViewportMetrics.output_height_px metrics))))
      (effective_map_pixels_per_screen_pixel viewport) in
  let epsilon :=
    mul64 (mul64 (f64_of_N 64) f64_epsilon)
      (fmax (fmax (fmax (fabs (MapPoint.x (center viewport))) (fabs (MapPoint.y (center viewport))))
               (fabs extent)) f64_one) in
  match MapRect.new
          (fmax (sub64 (MapRect.min_x bounds) epsilon) f64_zero)
          (fmax (sub64 (MapRect.min_y bounds) epsilon) f64_zero)
          (fmin (add64 (MapRect.max_x bounds) epsilon) (f64_of_N map_width_px))
          (fmin (add64 (MapRect.max_y bounds) epsilon) (f64_of_N map_height_px)) with
  | Ok rect => Some rect
  | Err _ => None
  end.

(** The contents of [output] afterwards; [None] would be a panic of the index. *)
Definition select_visible_pois_into (index : PoiIndex) (viewport : ActiveViewport) (pose : ViewportPose)
    (map_width_px map_height_px : N) (filters : PoiFilterMask) : option (list PoiHandle) :=
  match conservative_bounds viewport (pose_map_rotation_degrees pose) map_width_px map_height_px with
  | None => Some []
  | Some bounds =>
      output ← visible_into index bounds filters;
      let output :=
        List.filter
          (λ handle, is_some_and (poi_get index handle)
             (λ poi, contains_map_point sin_cos hypot viewport (poi_map poi)
                       (pose_map_rotation_degrees pose)))
          output in
      Some (dedup (sort_handles output))
  end.

Definition sort_keys (l : list TileKey) : list TileKey := sort_by key_cmp l.

Definition select_visible_tiles_into (index : TileIndex) (viewport : ActiveViewport) (pose : ViewportPose)
    (map_width_px map_height_px : N) : list TileKey :=
  match select_lod_level (levels index) (effective_map_pixels_per_screen_pixel viewport) with
  | None => []
  | Some level =>
      match conservative_bounds viewport (pose_map_rotation_degrees pose) map_width_px map_height_px with
      | None => []
      | Some bounds =>
          dedup (sort_keys
            (tile_key <$> List.filter
               (λ tile, (key_level (tile_key tile) =? level)
                        && rectangles_intersect bounds (tile_rect tile)) (entries index)))
      end
  end.
End Culling.

(** The level for a scale between two levels, below the first and above the last. *)
Example lod_levels :
  (λ mpp, select_lod_level [mkLevel 0 0 0 0 0; mkLevel 1 0 0 0 0; mkLevel 2 0 0 0 0] mpp)
    <$> [f64_lit 1 4; f64_lit 39 10; f64_of_N 9; f64_zero] = [Some 0; Some 1; Some 2; None].
Proof. reflexivity. Qed.

(** ** Bounds along one axis

    Numbers are compared as integers, their values in units of [2 ^ -2148]. *)

Section Axis.
Local Open Scope Z_scope.

(** A value at a distance from the centre of at most the radius, as computed. *)
Record near_axis (c r p : f64) : Prop := {
  na_c : data c;
  na_r : data r;
  na_p : data p;
  na_radius : 0 ≤ val r;
  na_dist : data (sub64 p c) ∧ Z.abs (val (sub64 p c)) ≤ val r;
}.

(** The exact distance exceeds the radius at most by the rounding error. *)
Lemma near_exact c r p :
  near_axis c r p →
  2 ^ 53 * Z.abs (val p - val c) ≤ 2 ^ 53 * val r + 2 * val r ∧ Z.abs (val p - val c) ≤ 2 * val r.
Proof.
  intros [Hc Hr Hp Hr0 [Hd Hle]]. rewrite fsub_fadd in *.
  pose proof (fadd_near p (fneg c) Hp (data_fneg c Hc) (proj2 Hd)) as Hn. rewrite val_fneg in Hn.
  replace (val p + - val c) with (val p - val c) in Hn by lia. lia.
Qed.

Lemma max_data : data f64_max ∧ val f64_max = max_val.
Proof. split; [split; vm_compute; reflexivity|by compute]. Qed.

(** A saturated sum respects every bound of the exact one that a datum can hold. *)
Lemma saturating_add_spec x y :
  data x → data y →
  let s := saturating_add_f64 x y in
  data s ∧
  (∀ lo, representable lo → lo ≤ val x + val y → lo ≤ val s) ∧
  (∀ hi, representable hi → val x + val y ≤ hi → val s ≤ hi) ∧
  (s = add64 x y ∨ (val s = max_val ∧ max_val < val x + val y)
     ∨ (val s = - max_val ∧ val x + val y < - max_val)).
Proof.
  intros Hx Hy s. pose proof (fadd_rounded x y Hx Hy) as Hr.
  pose proof representable_max as Rm. pose proof max_val_pos.
  destruct (representable_val x Hx) as [Bx _], (representable_val y Hy) as [By _].
  unfold s, saturating_add_f64. destruct (is_finite (add64 x y)) eqn:Hf.
  - split; [split; [apply Hr|done]|]. split_and!; [..|by left].
    + intros lo Hlo HV. apply (rd_lower _ _ _ Hr lo Hf Hlo). lia.
    + intros hi Hhi HV. apply (rd_upper _ _ _ Hr hi Hf Hhi). lia.
  - assert (max_val < val x + val y ∨ val x + val y < - max_val) as Hout.
    { destruct (decide (- max_val ≤ val x + val y ≤ max_val)); [|lia].
      destruct (rd_between _ _ _ Hr (- max_val) max_val) as [Hc _];
        [by apply representable_opp|done|lia|congruence]. }
    destruct max_data as [Dm Vm]. pose proof (sign_val x) as Hs. revert Hs.
    destruct (is_sign_negative x); intros Hs.
    + split; [by apply data_fneg|]. rewrite val_fneg, Vm.
      split_and!; [intros lo [? _] ?; lia|intros hi [? _] ?; lia|]. right. right. lia.
    + split; [done|]. rewrite Vm.
      split_and!; [intros lo [? _] ?; lia|intros hi [? _] ?; lia|]. right. left. lia.
Qed.

(** The edges of the computed interval around the centre. *)
Record edges (c r p lo hi : Z) : Prop := {
  ed_order : lo ≤ c ≤ hi;
  ed_lo : 2 ^ 53 * (lo - p) ≤ Z.abs c + 3 * r;
  ed_hi : 2 ^ 53 * (p - hi) ≤ Z.abs c + 3 * r;
}.

Lemma axis_edges c r p :
  near_axis c r p →
  edges (val c) (val r) (val p) (val (saturating_add_f64 c (fneg r))) (val (saturating_add_f64 c r)).
Proof.
  intros Hn. pose proof (near_exact c r p Hn) as [H1 H2]. destruct Hn as [Hc Hr Hp Hr0 _].
  pose proof (representable_val c Hc) as Rc. pose proof (representable_val p Hp) as [Bp _].
  destruct (saturating_add_spec c (fneg r) Hc (data_fneg r Hr)) as (Dl & _ & Ul & El).
  destruct (saturating_add_spec c r Hc Hr) as (Dh & Lh & _ & Eh).
  pose proof (fadd_near c (fneg r) Hc (data_fneg r Hr)) as Nl. pose proof (fadd_near c r Hc Hr) as Nh.
  rewrite val_fneg in *.
  specialize (Ul (val c) Rc ltac:(lia)). specialize (Lh (val c) Rc ltac:(lia)).
  split; [lia|..].
  - destruct El as [El|[[El ?]|[El ?]]].
    + rewrite El in *. specialize (Nl (proj2 Dl)). lia.
    + destruct Rc as [? _]. lia.
    + lia.
  - destruct Eh as [Eh|[[Eh ?]|[Eh ?]]].
    + rewrite Eh in *. specialize (Nh (proj2 Dh)). lia.
    + lia.
    + destruct Rc as [? _]. lia.
Qed.

(** The distance from a centre right of a whole number to that number is a datum. *)
Lemma representable_gap c w :
  data c → (w ≤ u32_max)%N → Z.of_N w * unit_val ≤ val c ≤ Z.of_N u32_max * unit_val →
  representable (Z.of_N w * unit_val - val c).
Proof.
  intros Hc Hw [Hlo Hhi]. pose proof (representable_val c Hc) as [Bc _]. destruct Hc as [Ho Hf].
  pose proof unit_val_pos. destruct c as [s| | |s m e]; try done.
  { cbn [val] in *. replace (Z.of_N w * unit_val - 0) with 0 by nia. apply representable_0. }
  apply f64_ok_finite in Ho as (He & Hm & Hn). pose proof (weight_pos e ltac:(lia)).
  cbn [val] in *. destruct s; cbn [cond_Zopp] in *.
  { assert (Zpos m * weight e ≤ 0) by nia. nia. }
  split; [lia|].
  assert (e < 0) as Hneg.
  { destruct (Z.lt_ge_cases e 0); [done|]. exfalso. specialize (Hn ltac:(lia)).
    assert (unit_val ≤ weight e) by (apply Z.pow_le_mono_r; lia). unfold u32_max in Hhi. nia. }
  assert (unit_val = 2 ^ (- e) * weight e) as Hu.
  { unfold unit_val, weight. rewrite <- Z.pow_add_r by lia. f_equal. lia. }
  exists (Z.of_N w * 2 ^ (- e) - Zpos m), e. split; [lia|]. rewrite Hu in *.
  split; [|lia]. set (Q := 2 ^ (- e)) in *. set (W := weight e) in *. clearbody Q W.
  assert (Z.of_N w * Q ≤ Zpos m) by nia.
  assert (0 < Q) by nia. nia.
Qed.

(** An interval around a point of the map meets the map. *)
Lemma axis_meets c r p w :
  near_axis c r p → (w ≤ u32_max)%N → Z.abs (val c) ≤ Z.of_N u32_max * unit_val →
  0 ≤ val p ≤ Z.of_N w * unit_val →
  0 ≤ val (saturating_add_f64 c r) ∧ val (saturating_add_f64 c (fneg r)) ≤ Z.of_N w * unit_val.
Proof.
  intros Hn Hw Hcen Hp. destruct Hn as [Hc Hr Dp Hr0 [Hd Hle]].
  pose proof (fsub_rounded p c Dp Hc) as Hs. pose proof (representable_val c Hc) as Rc.
  pose proof (representable_val r Hr) as Rr.
  destruct (saturating_add_spec c (fneg r) Hc (data_fneg r Hr)) as (_ & _ & Ul & _).
  destruct (saturating_add_spec c r Hc Hr) as (_ & Lh & _ & _). rewrite val_fneg in *.
  destruct (f64_of_N_data w) as [Dw Vw]; [unfold u32_max in *; lia|].
  pose proof (representable_val _ Dw) as Rw. rewrite Vw in Rw.
  split.
  - apply Lh; [apply representable_0|].
    pose proof (rd_lower _ _ _ Hs (- val c) (proj2 Hd) (representable_opp _ Rc) ltac:(lia)). lia.
  - apply Ul; [done|]. destruct (Z.le_gt_cases (val c) (Z.of_N w * unit_val)) as [?|Hgt]; [lia|].
    pose proof (rd_upper _ _ _ Hs (Z.of_N w * unit_val - val c) (proj2 Hd)) as Hup.
    specialize (Hup (representable_gap c w Hc Hw ltac:(lia)) ltac:(lia)). lia.
Qed.

(** ** The margin *)

(** A value of at least one keeps its digits when divided by a small power of two. *)
Lemma representable_shift x k :
  data x → unit_val ≤ val x → 0 ≤ k ≤ 1000 → ∃ q, val x = 2 ^ k * q ∧ representable q.
Proof.
  intros Hx Hu Hk. pose proof (representable_val x Hx) as [Bx _]. destruct Hx as [Ho Hf].
  pose proof unit_val_pos. destruct x as [s| | |s m e]; try done.
  apply f64_ok_finite in Ho as (He & Hm & _). pose proof (weight_pos e ltac:(lia)).
  cbn [val] in *. destruct s; cbn [cond_Zopp] in *.
  { assert (Zneg m * weight e ≤ 0) by nia. lia. }
  assert (-53 ≤ e) as Hlow.
  { destruct (Z.le_gt_cases (-53) e); [done|]. exfalso.
    assert (unit_val = 2 ^ (- e) * weight e) as Heq.
    { unfold unit_val, weight. rewrite <- Z.pow_add_r by lia. f_equal. lia. }
    assert (2 ^ 53 ≤ 2 ^ (- e)) by (apply Z.pow_le_mono_r; lia). rewrite Heq in *.
    set (Q := 2 ^ (- e)) in *. set (W := weight e) in *. clearbody Q W. nia. }
  assert (0 < 2 ^ k) by (apply Z.pow_pos_nonneg; lia).
  exists (Zpos m * weight (e - k)).
  assert (weight e = 2 ^ k * weight (e - k)) as Hsplit.
  { rewrite (weight_split e (e - k)) by lia. do 2 f_equal. lia. }
  pose proof (weight_pos (e - k) ltac:(lia)). split; [rewrite Hsplit; lia|].
  split; [|exists (Zpos m), (e - k); lia]. rewrite Hsplit in *.
  set (Q := 2 ^ k) in *. set (W := weight (e - k)) in *. clearbody Q W. nia.
Qed.

Definition margin_factor : f64 := mul64 (f64_of_N 64) f64_epsilon.

(** The margin is one part in [2 ^ 46] of the largest number involved. *)
Lemma margin_exact x :
  data x → unit_val ≤ val x →
  data (mul64 margin_factor x) ∧ 2 ^ 46 * val (mul64 margin_factor x) = val x.
Proof.
  intros Hx Hu. destruct (representable_shift x 46 Hx Hu) as (q & Hq & Rq); [lia|].
  assert (data margin_factor) as Dm by (split; vm_compute; reflexivity).
  assert (2 ^ 46 * val margin_factor = unit_val) as Vm by (vm_compute; reflexivity).
  pose proof (fmul_rounded _ x Dm Hx) as Hr. pose proof unit_val_pos.
  destruct (rounded_data _ _ _ q q Hr Rq Rq) as [? ?]; [|split; [done|lia]].
  rewrite Hq, <- Vm. lia.
Qed.

Lemma max_val_large : 2 ^ 100 * unit_val ≤ max_val.
Proof. vm_compute. discriminate. Qed.

(** One axis of the bounds: they exist, and the widened ones hold the point. *)
Lemma widened_axis c r p w eps T :
  near_axis c r p → (w ≤ u32_max)%N → Z.abs (val c) ≤ Z.of_N u32_max * unit_val →
  0 ≤ val p ≤ Z.of_N w * unit_val →
  data eps → 2 ^ 46 * val eps = T → Z.abs (val c) ≤ T → val r ≤ 4 * T → T ≤ max_val →
  let lo := fmax (saturating_add_f64 c (fneg r)) f64_zero in
  let hi := fmin (saturating_add_f64 c r) (f64_of_N w) in
  let lo' := fmax (sub64 lo eps) f64_zero in
  let hi' := fmin (add64 hi eps) (f64_of_N w) in
  flt (saturating_add_f64 c r) f64_zero = false ∧
  flt (f64_of_N w) (saturating_add_f64 c (fneg r)) = false ∧
  (data lo ∧ data hi ∧ fle lo hi = true) ∧ data lo' ∧ data hi' ∧
  fle lo' hi' = true ∧ fle lo' p = true ∧ fle p hi' = true.
Proof.
  intros Hn Hw Hcen Hp Deps HT HcT HrT HTmax lo hi lo' hi'.
  destruct (axis_meets c r p w Hn Hw Hcen Hp) as [M1 M2].
  destruct (axis_edges c r p Hn) as [E1 E2 E3].
  destruct (saturating_add_spec c (fneg r)) as (Dl & _); [apply Hn|apply data_fneg, Hn|].
  destruct (saturating_add_spec c r) as (Dh & _); [apply Hn..|].
  destruct (f64_of_N_data w) as [Dw Vw]; [unfold u32_max in *; lia|].
  pose proof (na_p _ _ _ Hn) as Dp. pose proof (na_radius _ _ _ Hn).
  pose proof zero_data as D0. pose proof max_val_large. pose proof unit_val_pos.
  destruct (val_fmax _ _ Dl D0) as [Dlo Vlo]. fold lo in Dlo, Vlo.
  destruct (val_fmin _ _ Dh Dw) as [Dhi Vhi]. fold hi in Dhi, Vhi.
  change (val f64_zero) with 0 in *. pose proof (representable_val _ Dp) as Rp.
  pose proof (representable_val _ Dlo) as Rlo. pose proof (representable_val _ Dhi) as Rhi.
  assert (Z.of_N w * unit_val ≤ 2 ^ 32 * unit_val) as Hw32
    by (apply Z.mul_le_mono_nonneg_r; unfold u32_max in *; lia).
  destruct (rounded_data _ _ _ (- val eps) (val lo) (fsub_rounded lo eps Dlo Deps)) as [Ds Vs];
    [apply representable_opp, representable_val, Deps|done|lia|].
  destruct (rounded_data _ _ _ (val hi) max_val (fadd_rounded hi eps Dhi Deps)) as [Da Va];
    [done|apply representable_max|lia|].
  pose proof (rd_upper _ _ _ (fsub_rounded lo eps Dlo Deps) (val p) (proj2 Ds) Rp ltac:(lia)).
  pose proof (rd_lower _ _ _ (fadd_rounded hi eps Dhi Deps) (val p) (proj2 Da) Rp ltac:(lia)).
  destruct (val_fmax _ _ Ds D0) as [Dlo' Vlo']. fold lo' in Dlo', Vlo'.
  destruct (val_fmin _ _ Da Dw) as [Dhi' Vhi']. fold hi' in Dhi', Vhi'.
  change (val f64_zero) with 0 in *.
  split_and!; try done; [apply not_true_iff_false; rewrite flt_val by done; change (val f64_zero) with 0; lia| | | | | ];
    try (apply not_true_iff_false; rewrite flt_val by done; lia); rewrite fle_val by done; lia.
Qed.

(** ** Scale and radius *)

Lemma fmul_comm x y : mul64 x y = mul64 y x.
Proof.
  destruct x as [s1|s1| |s1 m1 e1], y as [s2|s2| |s2 m2 e2]; simpl; rewrite 1?(xorb_comm s1 s2); try done.
  by rewrite (Pos.mul_comm m1 m2), (Z.add_comm e1 e2).
Qed.

(** Half the number of pixels is exact. *)
Lemma half_product n :
  (n <= 65536)%N →
  data (mul64 f64_half (f64_of_N n)) ∧ 2 * val (mul64 f64_half (f64_of_N n)) = Z.of_N n * unit_val.
Proof.
  intros Hn. destruct (f64_of_N_data n) as [Dn Vn]; [lia|].
  assert (data f64_half) as Dh by (split; vm_compute; reflexivity).
  assert (2 * val f64_half = unit_val) as Vh by (vm_compute; reflexivity).
  pose proof (fmul_rounded _ _ Dh Dn) as Hr. pose proof max_val_large. pose proof unit_val_pos.
  assert (representable (Z.of_N n * weight (-1))) as Rq.
  { split; [|exists (Z.of_N n), (-1); lia]. assert (unit_val = 2 * weight (-1)) as Hu by (by compute).
    pose proof (weight_pos (-1) ltac:(lia)). rewrite Hu in *. nia. }
  assert (val f64_half = weight (-1)) as Vw by (by compute).
  destruct (rounded_data _ _ _ _ _ Hr Rq Rq) as [? Hv]; [rewrite Vn, Vw; lia|].
  split; [done|]. rewrite <- Vh, Vw. lia.
Qed.

(** A zoom within its limits is at least a half. *)
Lemma zoom_val zoom :
  f32_ok zoom = true → in_range MIN_ZOOM MAX_ZOOM zoom = true →
  data (f64_from_f32 zoom) ∧ unit_val ≤ 2 * val (f64_from_f32 zoom) ∧
  is_sign_negative (f64_from_f32 zoom) = false.
Proof.
  intros Ho Hin. pose proof Hin as Hz. unfold in_range in Hz. apply andb_true_iff in Hz as [Hlo _].
  assert (is_finite zoom = true) as Hf by (by apply in_range_finite in Hin).
  destruct (f64_from_f32_exact zoom Ho Hf) as [Hd Hv]. split; [done|].
  assert (unit_val ≤ 2 * val (f64_from_f32 zoom)) as Hu.
  { rewrite Hv. assert (MIN_ZOOM = S754_finite false 8388608 (-24)) as Hmin by (vm_compute; reflexivity).
    rewrite Hmin in Hlo. destruct zoom as [[]|[]| |[] m e]; try done.
    apply f32_ok_finite in Ho as (He & _ & Hn). apply fle_finite in Hlo. cbv iota in Hlo.
    cbn [val cond_Zopp]. assert (unit_val = 2 ^ 24 * weight (-24)) as -> by (by compute).
    rewrite (weight_split e (-24)) by lia. pose proof (weight_pos (-24) ltac:(lia)).
    assert (2 ^ 0 ≤ 2 ^ (e - -24)) by (apply Z.pow_le_mono_r; lia).
    assert (2 ^ 23 ≤ Zpos m) by lia.
    set (Q := 2 ^ (e - -24)) in *. set (W := weight (-24)) in *. clearbody Q W.
    change (2 ^ 0) with 1 in *. assert (2 ^ 23 * 1 ≤ Zpos m * Q) by (apply Z.mul_le_mono_nonneg; lia).
    assert (2 ^ 24 * W ≤ 2 * (Zpos m * Q) * W) by (apply Z.mul_le_mono_nonneg_r; lia). lia. }
  split; [done|]. pose proof (sign_val (f64_from_f32 zoom)) as Hs. pose proof unit_val_pos.
  destruct (is_sign_negative _); [lia|done].
Qed.

Lemma representable_double x :
  data x → 2 * Z.abs (val x) < 2 ^ 53 * weight 971 → representable (2 * val x).
Proof.
  intros Hx Hlt. destruct Hx as [Ho Hf]. destruct x as [s| | |s m e]; try done; [apply representable_0|].
  apply f64_ok_finite in Ho as (He & Hm & Hn). cbn [val] in *.
  pose proof (weight_pos e ltac:(lia)). pose proof (weight_pos 970 ltac:(lia)).
  assert (weight 971 = 2 * weight 970) as W971 by (by rewrite (weight_split 971 970) by lia).
  assert (Z.abs (cond_Zopp s (Zpos m) * weight e) = Zpos m * weight e) as Habs
    by (destruct s; simpl cond_Zopp; nia).
  rewrite Habs in Hlt.
  assert (2 * (cond_Zopp s (Zpos m) * weight e) = cond_Zopp s (Zpos m) * weight (e + 1)) as Heq
    by (rewrite weight_add by lia; lia).
  split; [|exists (cond_Zopp s (Zpos m)), (e + 1); rewrite Heq; destruct s; simpl cond_Zopp; lia].
  rewrite Z.abs_mul, Habs. unfold max_val. destruct (decide (e = 971)) as [->|He'].
  - change (Z.abs 2) with 2. set (W := weight 971) in *. clearbody W. nia.
  - assert (weight e ≤ weight 970) by (apply Z.pow_le_mono_r; lia). change (Z.abs 2) with 2. rewrite W971 in *.
    set (W := weight 970) in *. set (We := weight e) in *. clearbody W We. nia.
Qed.

(** Metrics that passed validation, as numbers. *)
Record metrics_data (m : ViewportMetrics.t) : Prop := {
  md_width : (1 ≤ ViewportMetrics.output_width_px m ≤ 16384)%N;
  md_height : (1 ≤ ViewportMetrics.output_height_px m ≤ 16384)%N;
  md_mpp : data (ViewportMetrics.map_pixels_per_screen_pixel_at_zoom_one m);
  md_positive : 0 < val (ViewportMetrics.map_pixels_per_screen_pixel_at_zoom_one m);
  md_range : val (ViewportMetrics.map_pixels_per_screen_pixel_at_zoom_one m)
             * Z.of_N (ViewportMetrics.output_width_px m + ViewportMetrics.output_height_px m)
             < 2 ^ 53 * weight 971;
}.

Lemma metrics_new_data w h mpp m :
  f64_ok mpp = true → ViewportMetrics.new w h mpp = Ok m →
  m = ViewportMetrics.mk w h mpp ∧ metrics_data m.
Proof.
  intros Ho. unfold ViewportMetrics.new, MAX_OUTPUT_DIMENSION_PX. step_if; [done|]. step_if; [done|].
  step_if; [done|]. intros [= <-]. split; [done|]. reflect_bool.
  repeat match goal with H : negb _ = false |- _ => apply negb_false_iff in H end. reflect_bool.
  assert (data mpp) as Dm by done.
  destruct (f64_of_N_data (w + h)) as [Dn Vn]; [lia|].
  match goal with H : fle mpp f64_zero = false |- _ =>
    apply not_true_iff_false in H; rewrite (fle_val mpp f64_zero Dm zero_data) in H;
    change (val f64_zero) with 0 in H end.
  split; simpl; [lia|lia|done|lia|].
  pose proof (fmul_rounded mpp _ Dm Dn) as Hr. pose proof unit_val_pos.
  match goal with H : is_finite (mul64 _ _) = true |- _ => apply (rd_range _ _ _ Hr) in H as Hlt end.
  rewrite Vn in Hlt. rewrite Z.abs_eq in Hlt by nia.
  apply (Z.mul_lt_mono_pos_r unit_val); lia.
Qed.

(** The scale is finite and at most twice that of zoom one. *)
Lemma scale_data m zoom :
  metrics_data m → f32_ok zoom = true → in_range MIN_ZOOM MAX_ZOOM zoom = true →
  let s := ViewportMetrics.effective_map_pixels_per_screen_pixel m zoom in
  data s ∧ 0 ≤ val s ≤ 2 * val (ViewportMetrics.map_pixels_per_screen_pixel_at_zoom_one m).
Proof.
  intros [Hw Hh Dm Hpos Hrange] Ho Hz s. unfold ViewportMetrics.effective_map_pixels_per_screen_pixel in s.
  destruct (zoom_val zoom Ho Hz) as (Dz & Hu & Hs). pose proof unit_val_pos.
  set (mpp := ViewportMetrics.map_pixels_per_screen_pixel_at_zoom_one m) in *.
  pose proof (fdiv_rounded mpp _ Dm Dz ltac:(lia)) as Hr. rewrite Hs in Hr. cbn [cond_Zopp] in Hr.
  apply (rounded_data _ _ _ 0 (2 * val mpp) Hr representable_0).
  - apply representable_double; [done|]. rewrite Z.abs_eq by lia. nia.
  - nia.
Qed.

(** Half of up to the larger side of the output, scaled. *)
Lemma extent_data m s n :
  metrics_data m → data s →
  0 ≤ val s ≤ 2 * val (ViewportMetrics.map_pixels_per_screen_pixel_at_zoom_one m) →
  (n ≤ N.max (ViewportMetrics.output_width_px m) (ViewportMetrics.output_height_px m))%N →
  let v := mul64 (mul64 f64_half (f64_of_N n)) s in
  data v ∧ 0 ≤ val v.
Proof.
  intros [Hw Hh Dm Hpos Hrange] Ds [Hs0 Hs] Hn v.
  set (mpp := val (ViewportMetrics.map_pixels_per_screen_pixel_at_zoom_one m)) in *.
  destruct (half_product n) as [Dh Vh]; [lia|]. pose proof unit_val_pos.
  pose proof (fmul_rounded _ s Dh Ds) as Hr. pose proof (weight_pos 971 ltac:(lia)).
  destruct (rounded_data _ _ _ 0 max_val Hr representable_0 representable_max) as [? [? _]]; [|done].
  set (a := val (mul64 f64_half (f64_of_N n))) in *. clearbody a. split; [nia|].
  assert (mpp * (Z.of_N n + 1) < 2 ^ 53 * weight 971) as Hn1 by nia.
  assert (Z.of_N n * mpp ≤ max_val) as Hmax.
  { unfold max_val. set (W := weight 971) in *. clearbody W.
    destruct (Z.le_gt_cases W mpp); [lia|]. assert (0 ≤ Z.of_N n ≤ 2 ^ 14) by lia. nia. }
  assert (a * val s * 2 ≤ max_val * unit_val * 2); [|lia].
  replace (a * val s * 2) with (Z.of_N n * unit_val * val s) by (rewrite <- Vh; lia).
  set (M := max_val) in *. clearbody M. nia.
Qed.

(** The extent used for the margin covers a quarter of the radius, or both are small. *)
Lemma extent_radius m s n N :
  metrics_data m → data s →
  0 ≤ val s ≤ 2 * val (ViewportMetrics.map_pixels_per_screen_pixel_at_zoom_one m) → (n ≤ N)%N →
  (N ≤ N.max (ViewportMetrics.output_width_px m) (ViewportMetrics.output_height_px m))%N →
  val (mul64 (mul64 f64_half (f64_of_N n)) s) ≤
    4 * Z.max unit_val (val (mul64 (mul64 f64_half (f64_of_N N)) s)).
Proof.
  intros Hm Ds Hs HnN HN. destruct (extent_data m s n Hm Ds Hs ltac:(lia)) as [Dr Hr0].
  destruct (extent_data m s N Hm Ds Hs HN) as [De He0]. destruct Hm as [Hw Hh _ _ _].
  destruct (half_product n) as [Dn Vn]; [lia|]. destruct (half_product N) as [DN VN]; [lia|].
  pose proof (fmul_rounded _ s Dn Ds) as Rr. pose proof (fmul_rounded _ s DN Ds) as Re.
  pose proof unit_val_pos.
  set (r := mul64 (mul64 f64_half (f64_of_N n)) s) in *.
  set (E := mul64 (mul64 f64_half (f64_of_N N)) s) in *.
  destruct (Z.le_gt_cases (val r) unit_val) as [|Hbig]; [lia|].
  destruct (representable_shift r 2 Dr ltac:(lia)) as (q & Hq & Rq); [lia|].
  pose proof (rd_half _ _ _ Rr (proj2 Dr)) as Hhalf.
  assert (q ≤ val E); [|lia]. apply (rd_lower _ _ _ Re q (proj2 De) Rq).
  set (a := val (mul64 f64_half (f64_of_N n))) in *. set (b := val (mul64 f64_half (f64_of_N N))) in *.
  assert (0 ≤ a ≤ b) by nia. rewrite !Z.abs_eq in Hhalf by nia.
  change (2 ^ 2) with 4 in Hq. rewrite Hq in Hhalf. nia.
Qed.
End Axis.

(** ** The bounds hold everything within the radius *)

(** A minimap that passed validation, with its centre within reach of a map of [u32] size. *)
Record mini_data (v : MiniMapViewport) : Prop := {
  mini_metrics_data : metrics_data (mini_metrics v);
  mini_zoom_data : f32_ok (mini_zoom v) = true ∧ in_range MIN_ZOOM MAX_ZOOM (mini_zoom v) = true;
  mini_center_data : data (MapPoint.x (mini_center v)) ∧ data (MapPoint.y (mini_center v));
  mini_center_x : fle (fabs (MapPoint.x (mini_center v))) (f64_of_N u32_max) = true;
  mini_center_y : fle (fabs (MapPoint.y (mini_center v))) (f64_of_N u32_max) = true;
}.

(** [f64::hypot] is at least each of its arguments. *)
Definition hypot_covers (hypot : f64 → f64 → f64) : Prop :=
  ∀ a b, is_nan a = false → is_nan b = false →
    fle (fabs a) (hypot a b) = true ∧ fle (fabs b) (hypot a b) = true.

(** The point is within the radius of the minimap, as the code computes it. *)
Definition within_radius (hypot : f64 → f64 → f64) (v : MiniMapViewport) (p : MapPoint.t) : Prop :=
  fle (hypot (sub64 (MapPoint.x p) (MapPoint.x (mini_center v)))
             (sub64 (MapPoint.y p) (MapPoint.y (mini_center v)))) (radius_map_pixels v) = true.

Lemma near_axis_intro c r p h :
  data c → data p → data r → (0 ≤ val r)%Z →
  fle (fabs (sub64 p c)) h = true → fle h r = true → near_axis c r p.
Proof.
  intros Hc Hp Hr Hr0 Hh Hhr. pose proof (fle_trans _ _ _ Hh Hhr) as Hle.
  assert (data (sub64 p c)) as Hd.
  { apply (fle_fabs_data _ r); [|done|done]. apply fsub_ok; [apply Hp|apply Hc]. }
  split; [done..|]. split; [done|]. rewrite fle_val in Hle by (done || by apply data_fabs).
  by rewrite val_fabs in Hle.
Qed.

(** Centre and margin of a minimap. *)
Definition mini_extent (v : MiniMapViewport) : f64 :=
  mul64 (mul64 f64_half
           (f64_of_N (N.max (ViewportMetrics.output_width_px (mini_metrics v))
                            (ViewportMetrics.output_height_px (mini_metrics v))))) (mini_scale v).

Definition mini_reach (v : MiniMapViewport) : f64 :=
  fmax (fmax (fmax (fabs (MapPoint.x (mini_center v))) (fabs (MapPoint.y (mini_center v))))
         (fabs (mini_extent v))) f64_one.

Lemma fmax3_one a b c :
  data a → data b → data c →
  data (fmax (fmax (fmax a b) c) f64_one) ∧
  val (fmax (fmax (fmax a b) c) f64_one) = Z.max (Z.max (Z.max (val a) (val b)) (val c)) unit_val.
Proof.
  intros Da Db Dc. destruct one_val as [D1 V1]. rewrite <- V1. generalize dependent f64_one.
  intros one D1 _. destruct (val_fmax _ _ Da Db) as [D2 <-]. destruct (val_fmax _ _ D2 Dc) as [D3 <-].
  apply (val_fmax _ _ D3 D1).
Qed.

Lemma mini_numbers v :
  mini_data v →
  data (radius_map_pixels v) ∧ (0 ≤ val (radius_map_pixels v))%Z ∧
  data (mini_reach v) ∧ (unit_val ≤ val (mini_reach v))%Z ∧
  (Z.abs (val (MapPoint.x (mini_center v))) ≤ val (mini_reach v))%Z ∧
  (Z.abs (val (MapPoint.y (mini_center v))) ≤ val (mini_reach v))%Z ∧
  (val (radius_map_pixels v) ≤ 4 * val (mini_reach v))%Z.
Proof.
  intros [Hm [Oz Hz] [Dx Dy] _ _]. destruct (scale_data _ _ Hm Oz Hz) as [Ds Vs].
  pose proof (extent_data _ _ (N.min (ViewportMetrics.output_width_px (mini_metrics v))
    (ViewportMetrics.output_height_px (mini_metrics v))) Hm Ds Vs ltac:(lia)) as [Dr Vr].
  pose proof (extent_data _ _ (N.max (ViewportMetrics.output_width_px (mini_metrics v))
    (ViewportMetrics.output_height_px (mini_metrics v))) Hm Ds Vs ltac:(lia)) as [De Ve].
  pose proof (extent_radius _ _ (N.min (ViewportMetrics.output_width_px (mini_metrics v))
    (ViewportMetrics.output_height_px (mini_metrics v))) (N.max (ViewportMetrics.output_width_px (mini_metrics v))
    (ViewportMetrics.output_height_px (mini_metrics v))) Hm Ds Vs ltac:(lia) ltac:(lia)) as Hre.
  unfold radius_map_pixels. rewrite (fmul_comm (f64_of_N _)). fold (mini_scale v) in *.
  fold (mini_extent v) in De, Ve, Hre.
  destruct (fmax3_one _ _ _ (data_fabs _ Dx) (data_fabs _ Dy) (data_fabs _ De)) as [D4 V4].
  fold (mini_reach v) in D4, V4. rewrite !val_fabs in V4. split_and!; try done; lia.
Qed.

Lemma center_bound c : data c → fle (fabs c) (f64_of_N u32_max) = true →
  (Z.abs (val c) ≤ Z.of_N u32_max * unit_val)%Z.
Proof.
  intros Hc Hle. destruct (f64_of_N_data u32_max) as [Dm Vm]; [by vm_compute|].
  revert Hle Dm Vm. generalize (f64_of_N u32_max). intros m Hle Dm <-.
  apply (fle_val _ _ (data_fabs _ Hc) Dm) in Hle. by rewrite val_fabs in Hle.
Qed.

Lemma on_map_axis v w :
  coordinate v → fle v (f64_of_N w) = true → (w ≤ u32_max) →
  data v ∧ (0 ≤ val v ≤ Z.of_N w * unit_val)%Z.
Proof.
  intros (Ho & Hf & Hn) Hle Hw. destruct (f64_of_N_data w) as [Dw Vw]; [unfold u32_max in *; lia|].
  assert (data v) as Hv by done. split; [done|]. apply (fle_val _ _ Hv Dw) in Hle. rewrite Vw in Hle.
  unfold nonneg in Hn. apply (fle_val f64_zero v) in Hn; [|done..]. done.
Qed.

Lemma conservative_mini sin_cos hypot v rotation w h p :
  hypot_covers hypot → mini_data v → 0 < w ≤ u32_max → 0 < h ≤ u32_max → on_map w h p →
  within_radius hypot v p →
  ∃ bounds, conservative_bounds sin_cos (Mini v) rotation w h = Some bounds ∧
    rect_data bounds ∧ MapRect.contains bounds p = true.
Proof.
  intros Hhyp Hv [Hw0 Hw] [Hh0 Hh] (Cx & Cy & Lx & Ly) Hin.
  destruct (on_map_axis _ _ Cx Lx Hw) as [Dpx Bpx]. destruct (on_map_axis _ _ Cy Ly Hh) as [Dpy Bpy].
  destruct (mini_numbers v Hv) as (Dr & Vr & Dt & Vt & Tx & Ty & Tr).
  pose proof Hv as [_ _ [Dcx Dcy] Bcx%center_bound Bcy%center_bound]; [|done..].
  destruct (margin_exact _ Dt Vt) as [Deps Veps].
  pose proof (representable_val _ Dt) as [Bt _].
  unfold within_radius in Hin.
  destruct (Hhyp (sub64 (MapPoint.x p) (MapPoint.x (mini_center v)))
              (sub64 (MapPoint.y p) (MapPoint.y (mini_center v)))) as [Hx Hy];
    [by apply (rd_not_nan _ _ _ (fsub_rounded _ _ Dpx Dcx))|by apply (rd_not_nan _ _ _ (fsub_rounded _ _ Dpy Dcy))|].
  pose proof (near_axis_intro _ _ _ _ Dcx Dpx Dr Vr Hx Hin) as Nx.
  pose proof (near_axis_intro _ _ _ _ Dcy Dpy Dr Vr Hy Hin) as Ny.
  destruct (widened_axis _ _ _ _ _ _ Nx Hw Bcx Bpx Deps Veps Tx Tr ltac:(lia)) as
    (X1 & X2 & (X3 & X4 & X5) & X6 & X7 & X8 & X9 & X10).
  destruct (widened_axis _ _ _ _ _ _ Ny Hh Bcy Bpy Deps Veps Ty Tr ltac:(lia)) as
    (Y1 & Y2 & (Y3 & Y4 & Y5) & Y6 & Y7 & Y8 & Y9 & Y10).
  unfold conservative_bounds, broad_phase_bounds, mini_broad_phase_bounds, intersect_map_bounds.
  destruct (N.eqb_spec w 0); [lia|]. destruct (N.eqb_spec h 0); [lia|]. cbn [orb].
  rewrite X1, Y1, X2, Y2. cbn [orb].
  rewrite MapRect.map_rect_new_some; [|split_and!; [apply X3|apply Y3|apply X4|apply Y4|done|done]].
  cbn [mbind option_bind MapRect.min_x MapRect.min_y MapRect.max_x MapRect.max_y
       metrics center effective_map_pixels_per_screen_pixel].
  fold margin_factor (mini_extent v) (mini_reach v).
  rewrite MapRect.map_rect_new_some; [|split_and!; [apply X6|apply Y6|apply X7|apply Y7|done|done]].
  eexists. split; [reflexivity|]. split.
  - split; [split_and!; [apply X6|apply Y6|apply X7|apply Y7|done|done]|].
    split_and!; [apply X6|apply Y6|apply X7|apply Y7].
  - unfold MapRect.contains. cbn [MapRect.min_x MapRect.min_y MapRect.max_x MapRect.max_y].
    by rewrite X9, X10, Y9, Y10.
Qed.

(** ** Level of detail *)

Lemma fold_min_spec l x : fold_left N.min l x ∈ x :: l ∧ ∀ y, y ∈ x :: l → fold_left N.min l x ≤ y.
Proof.
  revert x. induction l as [|z l IH]; intros x; cbn [fold_left].
  { split; [left|]. intros y ->%list_elem_of_singleton. lia. }
  destruct (IH (N.min x z)) as [Hin Hmin]. split.
  - apply elem_of_cons in Hin as [->|?]; [|by do 2 right].
    destruct (N.min_spec x z) as [[_ ->]|[_ ->]]; [left|right; left].
  - intros y. rewrite !elem_of_cons. intros [->|[->|Hy]].
    + specialize (Hmin (N.min x z) ltac:(left)). lia.
    + specialize (Hmin (N.min x z) ltac:(left)). lia.
    + apply Hmin. by right.
Qed.

Lemma fold_max_N l x : fold_left N.max l x ∈ x :: l ∧ ∀ y, y ∈ x :: l → y ≤ fold_left N.max l x.
Proof.
  revert x. induction l as [|z l IH]; intros x; cbn [fold_left].
  { split; [left|]. intros y ->%list_elem_of_singleton. lia. }
  destruct (IH (N.max x z)) as [Hin Hmax]. split.
  - apply elem_of_cons in Hin as [->|?]; [|by do 2 right].
    destruct (N.max_spec x z) as [[_ ->]|[_ ->]]; [right; left|left].
  - intros y. rewrite !elem_of_cons. intros [->|[->|Hy]].
    + specialize (Hmax (N.max x z) ltac:(left)). lia.
    + specialize (Hmax (N.max x z) ltac:(left)). lia.
    + apply Hmax. by right.
Qed.

(** The level chosen is the greatest whose scale does not exceed the map's, or the first. *)
Lemma select_lod_spec ls mpp level :
  select_lod_level ls mpp = Some level →
  level ∈ tl_level <$> ls ∧
  (∀ l, l ∈ tl_level <$> ls → fle (powi_2 l) mpp = true → l ≤ level) ∧
  (fle (powi_2 level) mpp = true ∨ ∀ l, l ∈ tl_level <$> ls → level ≤ l).
Proof.
  unfold select_lod_level. step_if; [done|]. generalize (tl_level <$> ls). clear. intros ls.
  unfold iter_min, iter_max. destruct ls as [|x ls]; [done|]. cbn [mbind option_bind].
  destruct (fold_min_spec ls x) as [Hin Hmin].
  destruct (List.filter _ (x :: ls)) as [|y fs] eqn:Hf; cbn [unwrap_or]; intros [= <-].
  - split; [done|]. split; [|by right]. intros l Hl Hle. exfalso.
    assert (l ∈ List.filter (λ l, fle (powi_2 l) mpp) (x :: ls)) as Hc by by apply elem_of_List_filter.
    rewrite Hf in Hc. by apply elem_of_nil in Hc.
  - destruct (fold_max_N fs y) as [Hy Hmax]. rewrite <- Hf in Hy, Hmax.
    apply elem_of_List_filter in Hy as [Hy Hle]. split; [done|]. split; [|by left].
    intros l Hl Hl'. apply Hmax. by apply elem_of_List_filter.
Qed.

(** ** Tiles around a point *)

(** Some tile of every level holds a point of the map. *)
Lemma tile_at_point region core ls level p :
  2 ≤ core ≤ u32_max → 0 < map_width_px region ≤ u32_max → 0 < map_height_px region ≤ u32_max →
  expected_pyramid (map_width_px region) (map_height_px region) core = Ok ls → level ∈ ls →
  on_map (map_width_px region) (map_height_px region) p →
  ∃ key rect, key ∈ level_keys level ∧ expected_map_rect key core region = Ok rect ∧
    MapRect.contains rect p = true.
Proof.
  intros [Hc2 Hc] [Hw0 Hw] [Hh0 Hh] Hls Hlevel (Cx & Cy & Lx & Ly).
  destruct (expected_pyramid_spec (map_width_px region) (map_height_px region) core) as
    (k & Hk & Hp & _); [done..|].
  assert (ls = levels_upto (map_width_px region) (map_height_px region) core 0 (S k)) as -> by congruence.
  apply elem_of_levels_upto in Hlevel as (i & Hi & ->).
  pose proof (pow2_pos (N.of_nat i)). set (span := core * 2 ^ N.of_nat i).
  assert (0 < span) by (unfold span; nia).
  assert (∀ v w, coordinate v → fle v (f64_of_N w) = true → 0 < w ≤ u32_max →
    ∃ t, t * span < w ∧ fle (f64_of_N (t * span)) v = true ∧
      fle v (f64_of_N (N.min (t * span + span) w)) = true) as Haxis.
  { intros v w Cv Lv [Hw0' Hw']. destruct (on_map_axis v w Cv Lv Hw') as [Dv Bv].
    pose proof unit_val_pos as Hu. set (q := Z.to_N (val v / unit_val)).
    assert (Z.of_N q * unit_val ≤ val v < (Z.of_N q + 1) * unit_val)%Z as Hq.
    { assert (0 ≤ val v / unit_val)%Z by (apply Z.div_pos; lia).
      pose proof (Z.mul_div_le (val v) unit_val Hu). pose proof (Z.mul_succ_div_gt (val v) unit_val Hu).
      unfold q. rewrite Z2N.id by done. lia. }
    set (n := N.min q (w - 1)). exists (n / span).
    pose proof (N.Div0.mul_div_le n span). pose proof (N.mul_succ_div_gt n span ltac:(lia)).
    assert (n / span * span ≤ n < n / span * span + span) as Hn by lia.
    set (t := n / span) in *. clearbody t. split; [lia|].
    destruct (f64_of_N_data (t * span)) as [D1 V1]; [unfold u32_max in *; lia|].
    destruct (f64_of_N_data (N.min (t * span + span) w)) as [D2 V2]; [unfold u32_max in *; lia|].
    rewrite (fle_val _ _ D1 Dv), (fle_val _ _ Dv D2), V1, V2. clearbody q. split; nia. }
  destruct (Haxis (MapPoint.x p) (map_width_px region) Cx Lx) as (tx & Hx & Hx1 & Hx2); [done|].
  destruct (Haxis (MapPoint.y p) (map_height_px region) Cy Ly) as (ty & Hy & Hy1 & Hy2); [done|].
  exists (mkKey (N.of_nat i) ty tx). eexists. split; [|split].
  - apply elem_of_level_keys. simpl. by rewrite !div_ceil_spec by done.
  - apply expected_map_rect_exact; try done. lia.
  - unfold MapRect.contains. cbn [MapRect.min_x MapRect.min_y MapRect.max_x MapRect.max_y].
    fold span. by rewrite Hx1, Hx2, Hy1, Hy2.
Qed.

Lemma rectangles_share_point a b p :
  MapRect.contains a p = true → MapRect.contains b p = true → rectangles_intersect a b = true.
Proof.
  unfold MapRect.contains, rectangles_intersect. rewrite !andb_true_iff. intros. destruct_and!.
  split_and!; by eapply fle_trans.
Qed.

Lemma contains_eqb a b p : MapRect.eqb a b = true → MapRect.contains b p = true → MapRect.contains a p = true.
Proof.
  unfold MapRect.contains, MapRect.eqb. rewrite !andb_true_iff. intros. destruct_and!.
  repeat match goal with H : feq _ _ = true |- _ => apply feq_fle in H as [? ?] end.
  split_and!; by eapply fle_trans.
Qed.

(** ** Selections *)

(** The numbers of a viewport are data of their types, and so are the library's results. *)
Definition viewport_typed (v : ActiveViewport) : Prop :=
  f64_ok (MapPoint.x (center v)) = true ∧ f64_ok (MapPoint.y (center v)) = true ∧
  f64_ok (ViewportMetrics.map_pixels_per_screen_pixel_at_zoom_one (metrics v)) = true ∧
  f32_ok (zoom v) = true.

Definition sin_cos_typed (sin_cos : f64 → f64 * f64) : Prop :=
  ∀ x, f64_ok (sin_cos x).1 = true ∧ f64_ok (sin_cos x).2 = true.

#[local] Hint Resolve f64_of_N_ok : pal.

Lemma from_f32_ok z : f32_ok z = true → f64_ok (f64_from_f32 z) = true.
Proof.
  intros Ho. destruct z as [| | |s m e]; try done. by apply (f64_from_f32_exact (S754_finite s m e) Ho).
Qed.
#[local] Hint Resolve from_f32_ok : pal.

Lemma saturating_add_ok x y : f64_ok x = true → f64_ok y = true → f64_ok (saturating_add_f64 x y) = true.
Proof. intros. unfold saturating_add_f64. repeat step_if; eauto with pal. Qed.

Lemma saturating_mul_ok x y : f64_ok x = true → f64_ok y = true → f64_ok (saturating_mul_f64 x y) = true.
Proof. intros. unfold saturating_mul_f64. repeat step_if; eauto with pal. Qed.
#[local] Hint Resolve saturating_add_ok saturating_mul_ok : pal.

Definition rect_ok (r : MapRect.t) : Prop :=
  f64_ok (MapRect.min_x r) = true ∧ f64_ok (MapRect.min_y r) = true ∧
  f64_ok (MapRect.max_x r) = true ∧ f64_ok (MapRect.max_y r) = true.

Lemma map_rect_data a b c d r :
  f64_ok a = true → f64_ok b = true → f64_ok c = true → f64_ok d = true →
  MapRect.new a b c d = Ok r → rect_data r.
Proof. intros ? ? ? ? [-> ?]%MapRect.map_rect_ok. by split_and!. Qed.

Lemma intersect_rect_data a b c d w h r :
  f64_ok a = true → f64_ok b = true → f64_ok c = true → f64_ok d = true →
  intersect_map_bounds a b c d w h = Some r → rect_data r.
Proof.
  intros ? ? ? ?. unfold intersect_map_bounds. step_if; [done|]. step_if; [done|].
  destruct (MapRect.new _ _ _ _) eqn:Hr; [|done]. intros [= <-].
  eapply map_rect_data; [..|exact Hr]; eauto with pal.
Qed.

Section Selections.
Context (sin_cos : f64 → f64 * f64) (hypot : f64 → f64 → f64) (Htrig : sin_cos_typed sin_cos).

Lemma rotate_ok x y degrees :
  f64_ok x = true → f64_ok y = true →
  f64_ok (rotate sin_cos x y degrees).1 = true ∧ f64_ok (rotate sin_cos x y degrees).2 = true.
Proof.
  intros. unfold rotate. destruct (Htrig (to_radians (f64_from_f32 degrees))).
  destruct (sin_cos _) as [sine cosine]. simpl in *. eauto 10 with pal.
Qed.

Lemma inverse_corner_ok v corner rotation :
  viewport_typed (Expanded v) → f64_ok corner.1 = true → f64_ok corner.2 = true →
  f64_ok (saturating_inverse_corner sin_cos v corner rotation).1 = true ∧
  f64_ok (saturating_inverse_corner sin_cos v corner rotation).2 = true.
Proof.
  intros (? & ? & ? & ?) Hx Hy. unfold saturating_inverse_corner. simpl in *.
  destruct (rotate_ok _ _ (fneg rotation) Hx Hy). destruct (rotate _ _ _ _) as [lx ly]. simpl in *.
  unfold expanded_scale, ViewportMetrics.effective_map_pixels_per_screen_pixel. eauto 10 with pal.
Qed.

Lemma extend_ok bounds point :
  f64_ok bounds.1.1.1 = true → f64_ok bounds.1.1.2 = true → f64_ok bounds.1.2 = true →
  f64_ok bounds.2 = true → f64_ok point.1 = true → f64_ok point.2 = true →
  let b := extend_bounds bounds point in
  f64_ok b.1.1.1 = true ∧ f64_ok b.1.1.2 = true ∧ f64_ok b.1.2 = true ∧ f64_ok b.2 = true.
Proof. destruct bounds as [[[? ?] ?] ?]. simpl. intros. eauto 10 with pal. Qed.

Lemma broad_phase_data v w h rotation r :
  viewport_typed v → w ≤ u32_max → h ≤ u32_max →
  broad_phase_bounds sin_cos v w h rotation = Some r → rect_data r.
Proof.
  intros Hv Hw Hh. destruct v as [v|v]; cbn [broad_phase_bounds].
  - destruct Hv as (? & ? & ? & ?). simpl in *. unfold mini_broad_phase_bounds.
    assert (f64_ok (radius_map_pixels v) = true).
    { unfold radius_map_pixels, mini_scale, ViewportMetrics.effective_map_pixels_per_screen_pixel.
      repeat apply fmul_ok; [apply f64_of_N_ok|done|by apply fdiv_ok, from_f32_ok]. }
    apply intersect_rect_data; eauto with pal.
  - unfold expanded_broad_phase_bounds. step_if; [|done].
    set (half_width := half_output _). set (half_height := half_output _).
    assert (∀ n, f64_ok (half_output n) = true) as Hhalf.
    { intros n. apply fmul_ok; [apply f64_of_N_ok|done]. }
    pose proof (Hhalf (ViewportMetrics.output_width_px (expanded_metrics v)) : f64_ok half_width = true).
    pose proof (Hhalf (ViewportMetrics.output_height_px (expanded_metrics v)) : f64_ok half_height = true).
    clearbody half_width half_height.
    pose proof (λ c, inverse_corner_ok v c rotation Hv) as Hc.
    destruct (Hc (fneg half_width, fneg half_height)); [simpl; eauto with pal..|].
    destruct (Hc (half_width, fneg half_height)); [simpl; eauto with pal..|].
    destruct (Hc (half_width, half_height)); [simpl; eauto with pal..|].
    destruct (Hc (fneg half_width, half_height)); [simpl; eauto with pal..|].
    cbn [fold_left]. unfold extend_bounds. cbn [fst snd].
    apply intersect_rect_data; eauto with pal.
Qed.

Lemma conservative_bounds_data v rotation w h r :
  viewport_typed v → w ≤ u32_max → h ≤ u32_max →
  conservative_bounds sin_cos v rotation w h = Some r → rect_data r.
Proof.
  intros Hv Hw Hh. unfold conservative_bounds. intros (b & Hb & Hr)%bind_Some.
  apply broad_phase_data in Hb as (_ & ? & ? & ? & ?); [|done..]. destruct Hv as (? & ? & ? & ?).
  set (eps := mul64 (mul64 _ f64_epsilon) _) in Hr.
  assert (f64_ok eps = true).
  { unfold eps. clear Hr eps. repeat apply fmul_ok; [apply f64_of_N_ok|done|].
    apply fmax_ok; [|exact (f64_of_N_ok 1)]. repeat apply fmax_ok; apply fabs_ok; [done..|]. apply fmul_ok.
    - apply fmul_ok; [done|apply f64_of_N_ok].
    - destruct v; simpl in *; by apply fdiv_ok, from_f32_ok. }
  clearbody eps. destruct (MapRect.new _ _ _ _) eqn:Hn in Hr; [|done]. injection Hr as <-.
  eapply map_rect_data; [..|exact Hn]; eauto with pal.
Qed.

Definition poi_selected (index : PoiIndex) (bounds : MapRect.t) (filters : PoiFilterMask)
    (v : ActiveViewport) (rotation : f32) (h : PoiHandle) : bool :=
  passes (records index) bounds filters h
  && is_some_and (poi_get index h) (λ poi, contains_map_point sin_cos hypot v (poi_map poi) rotation).

Lemma select_pois_spec rs region v pose filters :
  map_width_px region ≤ u32_max → map_height_px region ≤ u32_max →
  Forall (λ poi, on_map (map_width_px region) (map_height_px region) (poi_map poi)) rs →
  viewport_typed v →
  let index := from_records rs region in
  select_visible_pois_into sin_cos hypot index v pose (map_width_px region) (map_height_px region) filters
  = match conservative_bounds sin_cos v (pose_map_rotation_degrees pose)
            (map_width_px region) (map_height_px region) with
    | None => Some []
    | Some bounds =>
        Some (List.filter (poi_selected index bounds filters v (pose_map_rotation_degrees pose))
                (all_handles (records index)))
    end.
Proof.
  intros Hw Hh Hmap Hv index. unfold select_visible_pois_into.
  destruct (conservative_bounds _ _ _ _ _) as [bounds|] eqn:Hb; [|done].
  apply conservative_bounds_data in Hb; [|done..].
  unfold index. rewrite visible_into_spec by done. fold index. cbn [mbind option_bind]. f_equal.
  apply sort_dedup_unique.
  - apply filter_sorted, all_handles_sorted.
  - eapply sublist_NoDup; [apply NoDup_all_handles|apply retain_sublist].
  - intros h. rewrite !elem_of_List_filter. unfold poi_selected. rewrite andb_true_iff.
    change (sort_by poi_cmp rs) with (records index). tauto.
Qed.
End Selections.

Lemma filter_handles_strict (p : N → bool) rs : StronglySorted N.lt (List.filter p (all_handles rs)).
Proof.
  unfold all_handles. generalize (length rs), O. induction n as [|n IH]; intros start; simpl; [constructor|].
  destruct (p _); [|apply IH]. constructor; [apply IH|]. apply Forall_forall.
  intros h [(i & -> & Hi%elem_of_seq)%list_elem_of_fmap _]%elem_of_List_filter. lia.
Qed.

Lemma within_radius_contains hypot v p :
  within_radius hypot v p → mini_contains_map_point hypot v p = true.
Proof. unfold within_radius, mini_contains_map_point, within_inclusive. by intros ->. Qed.

(** C22: the points drawn are the right ones. For any viewport, rotation and filter the
    selection never panics and lists, in strictly ascending order, only points whose kind
    the filter admits and that the viewport contains; and for a validated minimap whose
    centre is within reach of the map, no point within the radius is missed, although the
    bounds that prune the search are computed with rounding errors. *)
Theorem visible_pois_complete sin_cos hypot rs region v pose filters
    (sin_cos_ok : sin_cos_typed sin_cos) (hypot_ok : hypot_covers hypot) :
  0 < map_width_px region ≤ u32_max → 0 < map_height_px region ≤ u32_max →
  Forall (λ poi, on_map (map_width_px region) (map_height_px region) (poi_map poi)) rs →
  viewport_typed v →
  let index := from_records rs region in
  ∃ output,
    select_visible_pois_into sin_cos hypot index v pose (map_width_px region) (map_height_px region) filters
    = Some output ∧
    StronglySorted N.lt output ∧
    (∀ h, h ∈ output → ∃ poi, poi_get index h = Some poi ∧ mask_contains filters (poi_kind poi) = true ∧
       contains_map_point sin_cos hypot v (poi_map poi) (pose_map_rotation_degrees pose) = true) ∧
    (∀ mini h poi, v = Mini mini → mini_data mini → poi_get index h = Some poi →
       mask_contains filters (poi_kind poi) = true → within_radius hypot mini (poi_map poi) → h ∈ output).
Proof.
  intros Hw Hh Hmap Hv index. unfold index.
  rewrite (select_pois_spec sin_cos hypot sin_cos_ok) by (done || lia). fold index.
  assert (∀ mini h poi, v = Mini mini → mini_data mini → poi_get index h = Some poi →
    within_radius hypot mini (poi_map poi) → ∃ bounds,
      conservative_bounds sin_cos v (pose_map_rotation_degrees pose) (map_width_px region)
        (map_height_px region) = Some bounds ∧ MapRect.contains bounds (poi_map poi) = true) as Hfound.
  { intros mini h poi -> Hmini Hp Hin.
    destruct (conservative_mini sin_cos hypot mini (pose_map_rotation_degrees pose) (map_width_px region)
      (map_height_px region) (poi_map poi)) as (b & ? & _ & ?); [done..| |done|by exists b].
    unfold index, from_records, poi_get in Hp. cbn [records] in Hp.
    rewrite <- (sort_by_Permutation poi_cmp) in Hmap. exact (Forall_lookup_1 _ _ _ _ Hmap Hp). }
  destruct (conservative_bounds _ _ _ _ _) as [bounds|]; eexists; (split; [done|]).
  - split; [apply filter_handles_strict|]. split.
    + intros h [_ Hs]%elem_of_List_filter. unfold poi_selected, passes in Hs.
      unfold poi_get in *. destruct (records index !! N.to_nat h) as [poi|]; [|done].
      cbn [is_some_and] in Hs. reflect_bool. exists poi. by split_and!.
    + intros mini h poi Hmini Hd Hp Hk Hin. destruct (Hfound mini h poi Hmini Hd Hp Hin) as (b & [= <-] & Hc).
      apply elem_of_List_filter. split; [apply elem_of_all_handles; by exists poi|].
      unfold poi_selected, passes. unfold poi_get in *. rewrite Hp. cbn [is_some_and].
      rewrite Hk, Hc, Hmini. cbn [contains_map_point]. by rewrite within_radius_contains.
  - split; [constructor|]. split; [by intros h ?%elem_of_nil|].
    intros mini h poi Hmini Hd Hp _ Hin. by destruct (Hfound mini h poi Hmini Hd Hp Hin) as (b & ? & _).
Qed.

(** ** Selected tiles *)

Definition key_le (a b : TileKey) : Prop := key_lt a b ∨ a = b.

#[local] Instance key_le_trans : Transitive key_le.
Proof. intros a b c [Hab| ->] [Hbc| <-]; unfold key_le; auto. left. by eapply key_lt_trans. Qed.

#[local] Instance key_le_antisymm : AntiSymm (=) key_le.
Proof. intros a b [Hab|Hab] [Hba|Hba]; try done. by apply key_lt_asym in Hab. Qed.

Lemma sort_keys_strict l : StronglySorted key_lt (dedup (sort_keys l)).
Proof.
  assert (Sorted key_le (sort_keys l)) as Hs.
  { apply sort_by_sorted; unfold key_le; intros a b Hc; pose proof (key_cmp_spec a b) as Hk;
      destruct (key_cmp a b); subst; auto; done. }
  pose proof (NoDup_sorted_dedup key_le (sort_keys l) Hs) as Hnd.
  apply Sorted_dedup, Sorted_StronglySorted in Hs; [|apply _].
  revert Hs Hnd. generalize (dedup (sort_keys l)). clear.
  induction 1 as [|a l Hl IH Ha]; [constructor|]. intros [Hn Hnd]%NoDup_cons.
  constructor; [by apply IH|]. rewrite Forall_forall in *. intros b Hb.
  destruct (Ha b Hb) as [|Heq]; [done|]. by subst.
Qed.

Lemma elem_of_selected_keys key l : key ∈ dedup (sort_keys l) ↔ key ∈ l.
Proof. unfold sort_keys. by rewrite elem_of_dedup, sort_by_Permutation. Qed.

(** Every tile selected is a tile of the index, of the level chosen. *)
Lemma selected_tile_known sin_cos index v pose w h key :
  StronglySorted by_key (entries index) →
  key ∈ select_visible_tiles_into sin_cos index v pose w h →
  select_lod_level (levels index) (effective_map_pixels_per_screen_pixel v) = Some (key_level key) ∧
  is_Some (tile_get index key).
Proof.
  intros Hsorted. unfold select_visible_tiles_into.
  destruct (select_lod_level _ _) as [level|]; [|by intros ?%elem_of_nil].
  destruct (conservative_bounds _ _ _ _ _) as [bounds|]; [|by intros ?%elem_of_nil].
  intros (d & -> & [Hd Hk]%elem_of_List_filter)%elem_of_selected_keys%list_elem_of_fmap. reflect_bool.
  split; [congruence|]. exists d. destruct index. by apply tile_get_spec.
Qed.

(** C34: the tiles drawn cover the view. For an accepted index the tiles selected are tiles of
    the index, listed in strictly ascending order, all of one level: the greatest whose scale
    does not exceed that of the view, or the first. For a validated minimap whose centre is
    within reach of the map, every map position within the radius lies in a selected tile, so
    the minimap shows no hole. *)
Theorem visible_tiles_cover sha256 parse_json fs bs root manifest region index sin_cos hypot v pose level
    (hypot_ok : hypot_covers hypot) :
  parse_and_verify sha256 parse_json fs bs root manifest region = Ok index →
  2 ≤ tile_core_size_px manifest ≤ u32_max →
  0 < map_width_px region ≤ u32_max → 0 < map_height_px region ≤ u32_max →
  select_lod_level (levels index) (effective_map_pixels_per_screen_pixel v) = Some level →
  let output := select_visible_tiles_into sin_cos index v pose (map_width_px region) (map_height_px region) in
  let available := tl_level <$> levels index in
  let scale := effective_map_pixels_per_screen_pixel v in
  level ∈ available ∧
  (∀ l, l ∈ available → fle (powi_2 l) scale = true → l ≤ level) ∧
  (fle (powi_2 level) scale = true ∨ ∀ l, l ∈ available → level ≤ l) ∧
  StronglySorted key_lt output ∧
  (∀ key, key ∈ output → key_level key = level ∧ is_Some (tile_get index key)) ∧
  (∀ mini p, v = Mini mini → mini_data mini → on_map (map_width_px region) (map_height_px region) p →
     within_radius hypot mini p →
     ∃ key d, key ∈ output ∧ tile_get index key = Some d ∧ MapRect.contains (tile_rect d) p = true).
Proof.
  intros Hindex Hcore Hw Hh Hlod output available scale.
  pose proof (select_lod_spec _ _ _ Hlod) as (Hl1 & Hl2 & Hl3).
  do 3 (split; [assumption|]). clear Hl1 Hl2 Hl3 available scale.
  apply parse_and_verify_ok in Hindex as (Hls & Hsorted & Hkeys & Hrects & _).
  assert (∀ key d, tile_get index key = Some d ↔ d ∈ entries index ∧ tile_key d = key) as Hget
    by (intros; destruct index; by apply tile_get_spec).
  assert (∀ key, key ∈ output → key_level key = level ∧ is_Some (tile_get index key)) as Hknown.
  { intros key Hkey%selected_tile_known; [|done]. destruct Hkey as [? ?]. split; [congruence|done]. }
  unfold output, select_visible_tiles_into in *. rewrite Hlod in *. clear output.
  destruct (conservative_bounds _ _ _ _ _) as [bounds|] eqn:Hb.
  - split; [apply sort_keys_strict|]. split; [exact Hknown|].
    { intros mini p -> Hmini Hp Hin.
      destruct (conservative_mini sin_cos hypot mini (pose_map_rotation_degrees pose) (map_width_px region)
        (map_height_px region) p) as (b & Hb' & _ & Hc); [done..|].
      assert (b = bounds) as -> by congruence.
      apply select_lod_spec in Hlod as ((l & -> & Hl)%list_elem_of_fmap & _).
      destruct (tile_at_point region (tile_core_size_px manifest) (levels index) l p) as
        (key & rect & Hkey & Hrect & Hcr); [done..|].
      destruct (proj2 (Hkeys key)) as [d Hd]; [eauto|].
      destruct (Hrects key d Hd) as (Hdk & _ & (rect' & Hr' & Heq) & _).
      assert (rect' = rect) as -> by congruence. pose proof (contains_eqb _ _ _ Heq Hcr) as Hcd.
      exists key, d. split; [|done]. apply elem_of_selected_keys, list_elem_of_fmap. exists d.
      split; [done|]. apply elem_of_List_filter. split; [by apply Hget in Hd as [? _]|].
      apply elem_of_level_keys in Hkey as (Hkl & _).
      rewrite Hdk, Hkl, N.eqb_refl. by rewrite (rectangles_share_point _ _ p). }
  - split; [constructor|]. split; [exact Hknown|]. intros mini p -> Hmini Hp Hin.
    destruct (conservative_mini sin_cos hypot mini (pose_map_rotation_degrees pose) (map_width_px region)
      (map_height_px region) p) as (b & Hb' & _); [done..|congruence].
Qed.

(** ** A small view *)

Definition chebyshev (a b : f64) : f64 := fmax (fabs a) (fabs b).

Lemma chebyshev_covers : hypot_covers chebyshev.
Proof.
  intros a b Ha Hb. unfold chebyshev. split; [|apply fmax_lower; by destruct b].
  unfold fmax. assert (is_nan (fabs a) = false) as -> by by destruct a.
  assert (is_nan (fabs b) = false) as Hn by by destruct b. rewrite Hn.
  destruct (flt (fabs a) (fabs b)) eqn:Hlt; [by apply flt_fle|apply fle_refl; by destruct a].
Qed.

Definition no_turn : f64 → f64 * f64 := λ _, (f64_zero, f64_one).

Lemma no_turn_typed : sin_cos_typed no_turn.
Proof. intros x. split; [reflexivity|exact (f64_of_N_ok 1)]. Qed.

(** A minimap of 200 by 100 screen pixels, one map pixel each. *)
Definition demo_mini (x y : N) : MiniMapViewport :=
  mkMini (MapPoint.mk (f64_of_N x) (f64_of_N y)) (f32_of_Z 1) (ViewportMetrics.mk 200 100 f64_one).

Definition demo_pose : ViewportPose := mkPose (f32_of_Z 0) (f32_of_Z 0) Unavailable.

Lemma demo_mini_data x y : x ≤ 1000 → y ≤ 1000 → mini_data (demo_mini x y).
Proof.
  intros Hx Hy. destruct (f64_of_N_data x) as [Dx _]; [lia|]. destruct (f64_of_N_data y) as [Dy _]; [lia|].
  assert (∀ n, n ≤ 1000 → fle (fabs (f64_of_N n)) (f64_of_N u32_max) = true) as Hle.
  { intros n Hn. destruct (f64_of_N_data n) as [Dn Vn]; [lia|].
    destruct (f64_of_N_data u32_max) as [Dm Vm]; [reflexivity|].
    apply (fle_val _ _ (data_fabs _ Dn) Dm). rewrite val_fabs, Vn, Vm. unfold u32_max.
    pose proof unit_val_pos. set (U := unit_val) in *. clearbody U. rewrite Z.abs_eq; nia. }
  split; cbn [demo_mini mini_metrics mini_zoom mini_center]; [|split; vm_compute; reflexivity|by split|..].
  - apply (metrics_new_data 200 100 f64_one); vm_compute; reflexivity.
  - by apply Hle.
  - by apply Hle.
Qed.

Lemma visible_pois_complete_witness :
  ∃ output, select_visible_pois_into no_turn chebyshev (from_records demo_points (demo_map_region 1000 1000))
      (Mini (demo_mini 880 320)) demo_pose 1000 1000 mask_all = Some output ∧ 1 ∈ output.
Proof.
  destruct (visible_pois_complete no_turn chebyshev demo_points (demo_map_region 1000 1000)
    (Mini (demo_mini 880 320)) demo_pose mask_all no_turn_typed chebyshev_covers)
    as (output & Hout & _ & _ & Hall).
  - split; vm_compute; [reflexivity|discriminate].
  - split; vm_compute; [reflexivity|discriminate].
  - repeat constructor; vm_compute; reflexivity.
  - repeat split; vm_compute; reflexivity.
  - exists output. split; [exact Hout|].
    eapply (Hall (demo_mini 880 320) 1 _ eq_refl).
    + apply demo_mini_data; vm_compute; discriminate.
    + vm_compute. reflexivity.
    + vm_compute. reflexivity.
    + vm_compute. reflexivity.
Defined.

(** The level of detail of the small pack for a view of scale one at its corner. *)
Definition demo_index : result TileIndex MapPackError :=
  parse_and_verify demo_sha256 (λ _, Some (demo_raw_tiles "MainMap" "FirstRegion")) demo_pack_fs
    [] ["pack"] demo_parsed demo_main_region.

Definition demo_level : result (option N) MapPackError :=
  let? index := demo_index in
  Ok (select_lod_level (levels index) (effective_map_pixels_per_screen_pixel (Mini (demo_mini 20 20)))).

Definition demo_point : MapPoint.t := MapPoint.mk (f64_of_N 3) (f64_of_N 8).

Lemma demo_point_on_map : on_map 8 8 demo_point.
Proof. split; [|split; [|split]]; [repeat constructor..|vm_compute; reflexivity|vm_compute; reflexivity]. Qed.

Lemma demo_region_size : map_width_px demo_main_region = 8 ∧ map_height_px demo_main_region = 8.
Proof. split; vm_compute; reflexivity. Qed.

(** Its one tile is drawn. *)
Lemma visible_tiles_cover_witness :
  ∃ index key d, demo_index = Ok index ∧
    key ∈ select_visible_tiles_into no_turn index (Mini (demo_mini 20 20)) demo_pose
            (map_width_px demo_main_region) (map_height_px demo_main_region) ∧
    tile_get index key = Some d ∧ MapRect.contains (tile_rect d) demo_point = true.
Proof.
  destruct demo_region_size as [Hw Hh].
  assert (demo_level = Ok (Some 0)) as Hlevel by (vm_compute; reflexivity).
  apply and_then_ok in Hlevel as (index & E & Hlod). injection Hlod as Hlod.
  destruct (visible_tiles_cover demo_sha256 (λ _, Some (demo_raw_tiles "MainMap" "FirstRegion")) demo_pack_fs
    [] ["pack"] demo_parsed demo_main_region index no_turn chebyshev (Mini (demo_mini 20 20)) demo_pose 0
    chebyshev_covers E) as (_ & _ & _ & _ & _ & Hall).
  - split; vm_compute; discriminate.
  - rewrite Hw. split; vm_compute; [reflexivity|discriminate].
  - rewrite Hh. split; vm_compute; [reflexivity|discriminate].
  - exact Hlod.
  - destruct (Hall (demo_mini 20 20) demo_point eq_refl) as (key & d & Hkey & Hd & Hc).
    + apply demo_mini_data; vm_compute; discriminate.
    + rewrite Hw, Hh. exact demo_point_on_map.
    + vm_compute. reflexivity.
    + exists index, key, d. exact (conj E (conj Hkey (conj Hd Hc))).
Defined.
