(* ===== verification/Snapshot.v ===== *)
(** * Render snapshots

    Models [crates/pal-render/src/snapshot.rs]: what is drawn for a core state, a map pack and
    the metrics of the output. The scratch vectors that the builder reuses are part of its
    state; [Arc]s are the values they share. *)

From S2P Require Import Prelude Floats FloatInt FloatRound Settings Position View CoreState MapGeometry.
From S2P Require Import PackFiles MapManifest PoiIndex TileIndex MapPack Viewport Culling.

Record SourceCursor := mkCursor {
  cursor_generation : N;
  cursor_boot_id : bytes;
  cursor_sequence : N;
}.

Inductive SnapshotError :=
| SnapTransform (error : TransformError)
| SnapViewport (error : ViewportValidationError).

Record RenderSnapshot := mkSnapshot {
  snap_pack : MapPackStore;
  snap_build_id : string;
  snap_pack_hash : bytes;
  snap_settings_version : N;
  snap_source_cursor : option SourceCursor;
  snap_visible : bool;
  snap_display_mode : DisplayMode;
  snap_freshness : Freshness;
  snap_heading_status : HeadingStatus;
  snap_interpolation_policy : InterpolationPolicy;
  snap_player_pose : option PlayerPose.t;
  snap_region_index : option nat;
  snap_viewport : ActiveViewport;
  snap_viewport_pose : ViewportPose;
  snap_poi_filters : PoiFilterMask;
  snap_visible_tiles : list TileKey;
  snap_visible_pois : list PoiHandle;
}.

(** [RenderSnapshot::region_pack]. *)
Definition snap_region_pack (self : RenderSnapshot) : option MapRegionPack :=
  index ← snap_region_index self;
  region_pack (snap_pack self) index.

Record SnapshotBuilder := mkBuilder {
  builder_pack : MapPackStore;
  tile_scratch : list TileKey;
  poi_scratch : list PoiHandle;
}.

Definition builder_new (pack : MapPackStore) : SnapshotBuilder := mkBuilder pack [] [].

(** The pack that was replaced, and the builder. *)
Definition replace_pack (self : SnapshotBuilder) (pack : MapPackStore) : MapPackStore * SnapshotBuilder :=
  (builder_pack self, mkBuilder pack (tile_scratch self) (poi_scratch self)).

Record SnapshotSourceData := mkSourceData {
  data_cursor : option SourceCursor;
  data_player_pose : option PlayerPose.t;
  data_region_index : option nat;
}.

Definition cleared_source_data (cursor : SourceCursor) : SnapshotSourceData :=
  mkSourceData (Some cursor) None None.

Definition source_data (self : SnapshotBuilder) (state : CoreState) :
    result SnapshotSourceData SnapshotError :=
  match position_sample state with
  | None => Ok (mkSourceData None None None)
  | Some sample =>
      let? world := map_err SnapTransform
                      (WorldPoint.new (PositionSample.x sample) (PositionSample.y sample)) in
      let cursor := mkCursor (PositionSample.source_connection_generation sample)
                      (PositionSample.agent_boot_id sample) (PositionSample.sequence sample) in
      match select_region_pack_index (builder_pack self) (WorldPoint.x world) (WorldPoint.y world) with
      | Err _ => Ok (cleared_source_data cursor)
      | Ok region_index =>
          match region_pack (builder_pack self) region_index with
          | None => Ok (cleared_source_data cursor)
          | Some region_pack =>
              match WorldToMapTransform.project (pack_transform region_pack) world with
              | Err _ => Ok (cleared_source_data cursor)
              | Ok map =>
                  let heading :=
                    if heading_available state then PositionSample.heading_degrees sample else None in
                  let? pose := map_err SnapViewport
                                 (PlayerPose.new world map (PositionSample.z sample) heading) in
                  Ok (mkSourceData (Some cursor) (Some pose) (Some region_index))
              end
          end
      end
  end.

Definition active_viewport (state : CoreState) (layout : ViewportLayout)
    (player_pose : option PlayerPose.t) : result ActiveViewport SnapshotError :=
  match display_mode (settings state) with
  | MiniMap =>
      let view := mini_map_view state in
      let? center :=
        match player_pose with
        | Some player => Ok (PlayerPose.map player)
        | None => map_err SnapTransform
                    (MapPoint.new (MiniMapView.center_x view) (MiniMapView.center_y view))
        end in
      let? viewport := map_err SnapViewport
                         (mini_new center (MiniMapView.zoom view) (layout_mini layout)) in
      Ok (Mini viewport)
  | ExpandedMap =>
      let view := expanded_map_view state in
      let? center := map_err SnapTransform
                       (MapPoint.new (ExpandedMapView.center_x view) (ExpandedMapView.center_y view)) in
      let? viewport := map_err SnapViewport
                         (expanded_new center (ExpandedMapView.zoom view) (layout_expanded layout)) in
      Ok (Expanded viewport)
  end.

(** [kinds.into_iter().flatten()] of the four slots. *)
Definition poi_filter_mask (filters : PoiFilters) : PoiFilterMask :=
  from_kinds (omap id
    [if fast_travel filters then Some FastTravel else None;
     if boss filters then Some Boss else None;
     if wanted filters then Some Wanted else None;
     if dungeon filters then Some Dungeon else None]).

Definition interpolation_policy (freshness : Freshness) : InterpolationPolicy :=
  match freshness with
  | Live | Delayed => Interpolate
  | Stale | Offline => Freeze
  end.

Section Build.
Context (sin_cos : f64 → f64 * f64) (hypot : f64 → f64 → f64).

(** The builder afterwards and the snapshot or the error; [None] is a panic. *)
Definition build (self : SnapshotBuilder) (state : CoreState) (layout : ViewportLayout) :
    option (SnapshotBuilder * result RenderSnapshot SnapshotError) :=
  match source_data self state with
  | Err error => Some (self, Err error)
  | Ok (mkSourceData source_cursor player_pose active_region_index) =>
      match active_viewport state layout player_pose with
      | Err error => Some (self, Err error)
      | Ok active_viewport =>
          let heading := player_pose ≫= PlayerPose.heading_degrees in
          let viewport_pose := compute_viewport_pose (rotation_mode (settings state)) heading in
          let poi_filters := poi_filter_mask (poi_filters (settings state)) in
          let manifest := store_manifest (builder_pack self) in
          scratch ←
            match active_region_index ≫= region_pack (builder_pack self) with
            | Some region_pack =>
                let region := pack_region region_pack in
                let tiles := select_visible_tiles_into sin_cos (pack_tile_index region_pack)
                               active_viewport viewport_pose (map_width_px region)
                               (map_height_px region) in
                pois ← select_visible_pois_into sin_cos hypot (pack_poi_index region_pack)
                         active_viewport viewport_pose (map_width_px region) (map_height_px region)
                         poi_filters;
                Some (tiles, pois)
            | None => Some ([], [])
            end;
          Some (mkBuilder (builder_pack self) scratch.1 scratch.2,
                Ok (mkSnapshot (builder_pack self) (game_build_id manifest)
                      (store_hash (builder_pack self)) (settings_version state) source_cursor
                      (visible state && is_some active_region_index)
                      (display_mode (settings state)) (freshness state)
                      (pose_heading_status viewport_pose) (interpolation_policy (freshness state))
                      player_pose active_region_index active_viewport viewport_pose poi_filters
                      scratch.1 scratch.2))
      end
  end.
End Build.

(** ** What a snapshot is built from *)

(** A state as the domain's constructors make it: samples and views with finite numbers,
    zooms within their limits. *)
Record state_typed (s : CoreState) : Prop := {
  st_sample p : position_sample s = Some p →
    data (PositionSample.x p) ∧ data (PositionSample.y p) ∧ is_finite (PositionSample.z p) = true ∧
    ∀ heading, PositionSample.heading_degrees p = Some heading → is_finite heading = true;
  st_mini : data (MiniMapView.center_x (mini_map_view s)) ∧ data (MiniMapView.center_y (mini_map_view s)) ∧
    f32_ok (MiniMapView.zoom (mini_map_view s)) = true ∧ MiniMapView.valid (mini_map_view s);
  st_expanded : data (ExpandedMapView.center_x (expanded_map_view s)) ∧
    data (ExpandedMapView.center_y (expanded_map_view s)) ∧
    f32_ok (ExpandedMapView.zoom (expanded_map_view s)) = true ∧
    ExpandedMapView.valid (expanded_map_view s);
}.

Definition matrix_ok (m : Matrix) : Prop := Forall (λ x, f64_ok x = true) (flatten m).

(** A pack whose components passed the checks of [open_store]. *)
Record pack_usable (pack : MapRegionPack) : Prop := {
  pu_matrix : matrix_ok (WorldToMapTransform.matrix (pack_transform pack));
  pu_width : 0 < map_width_px (pack_region pack) ≤ 8192;
  pu_height : 0 < map_height_px (pack_region pack) ≤ 8192;
  pu_tiles : StronglySorted by_key (entries (pack_tile_index pack));
  pu_points : ∃ rs, pack_poi_index pack = from_records rs (pack_region pack) ∧
    Forall (λ poi, on_map (map_width_px (pack_region pack)) (map_height_px (pack_region pack))
                     (poi_map poi)) rs;
}.

Lemma store_packs_usable sha256 hypot fs manifest_json pois_json transform_json tiles_json build root store :
  store_authentic sha256 hypot fs manifest_json pois_json transform_json tiles_json build root store →
  Forall (λ pack, matrix_ok (WorldToMapTransform.matrix (pack_transform pack))) (region_packs store) →
  Forall pack_usable (region_packs store).
Proof.
  intros [_ _ Hparts Hdims _] Hmatrix. rewrite Forall_forall in Hdims. rewrite Forall_forall in Hmatrix.
  apply Forall_forall. intros pack [i Hi]%list_elem_of_lookup.
  destruct (Forall2_lookup_r _ _ _ _ _ Hparts Hi) as (region & Hr & Hpart).
  destruct (Hdims region) as [Hw Hh]; [by eapply list_elem_of_lookup_2|].
  destruct Hpart as [_ Hregion _ _ _ _ Hsorted _ (rs & Hrs & Hvalid & _)]. subst region.
  split; [by eapply Hmatrix, list_elem_of_lookup_2|done|done|done|].
  exists rs. split; [done|]. eapply Forall_impl; [exact Hvalid|]. intros poi Hpoi. apply Hpoi.
Qed.

Lemma project_ok t world map :
  matrix_ok (WorldToMapTransform.matrix t) → f64_ok (WorldPoint.x world) = true →
  f64_ok (WorldPoint.y world) = true → WorldToMapTransform.project t world = Ok map →
  data (MapPoint.x map) ∧ data (MapPoint.y map).
Proof.
  unfold matrix_ok, flatten. rewrite !Forall_cons. intros (? & ? & ? & ? & ? & ? & _) Hx Hy.
  intros [-> [? ?]]%MapPoint.map_point_ok. cbn [MapPoint.x MapPoint.y].
  split; (split; [|done]); eauto 10 with pal.
Qed.

Definition sample_cursor (sample : PositionSample.t) : SourceCursor :=
  mkCursor (PositionSample.source_connection_generation sample) (PositionSample.agent_boot_id sample)
    (PositionSample.sequence sample).

(** The player is drawn exactly where the region selected for its position projects it. *)
Record player_located (store : MapPackStore) (state : CoreState) (i : nat) (pose : PlayerPose.t) : Prop := {
  pl_sample : ∃ sample, position_sample state = Some sample ∧
    PlayerPose.world pose = WorldPoint.mk (PositionSample.x sample) (PositionSample.y sample) ∧
    PlayerPose.z pose = PositionSample.z sample ∧
    PlayerPose.heading_degrees pose =
      rem_360 <$> (if heading_available state then PositionSample.heading_degrees sample else None);
  pl_region : select_region_pack_index store (WorldPoint.x (PlayerPose.world pose))
    (WorldPoint.y (PlayerPose.world pose)) = Ok i;
  pl_pack : ∃ pack, region_packs store !! i = Some pack ∧
    WorldToMapTransform.project (pack_transform pack) (PlayerPose.world pose) = Ok (PlayerPose.map pose);
  pl_map : data (MapPoint.x (PlayerPose.map pose)) ∧ data (MapPoint.y (PlayerPose.map pose));
}.

(** Either there is no position on the map, or a player located in a region. *)
Definition source_located (store : MapPackStore) (state : CoreState) (d : SnapshotSourceData) : Prop :=
  data_cursor d = sample_cursor <$> position_sample state ∧
  match data_region_index d, data_player_pose d with
  | Some i, Some pose => player_located store state i pose
  | None, None => True
  | _, _ => False
  end.

Lemma source_data_spec self state :
  state_typed state → Forall pack_usable (region_packs (builder_pack self)) →
  ∃ d, source_data self state = Ok d ∧ source_located (builder_pack self) state d.
Proof.
  intros [Hsample _ _] Hpacks. unfold source_data.
  destruct (position_sample state) as [sample|] eqn:Hs.
  2: { eexists. split; [done|]. split; [|done]. by rewrite Hs. }
  destruct (Hsample sample eq_refl) as (Dx & Dy & Fz & Fh). clear Hsample.
  rewrite WorldPoint.world_point_new by (apply Dx || apply Dy). cbn [map_err and_then WorldPoint.x WorldPoint.y].
  assert (source_located (builder_pack self) state (cleared_source_data (sample_cursor sample))) as Hclear
    by (split; [by rewrite Hs|done]).
  destruct (select_region_pack_index _ _ _) as [i|e] eqn:Hi; [|by eexists].
  destruct (region_pack _ _) as [pack|] eqn:Hp; [|by eexists].
  destruct (WorldToMapTransform.project _ _) as [map|e] eqn:Hm; [|by eexists].
  unfold PlayerPose.new. rewrite Fz. cbn [negb].
  assert (is_some_and (if heading_available state then PositionSample.heading_degrees sample else None)
    (λ heading, negb (is_finite heading)) = false) as ->.
  { destruct (heading_available state); [|done].
    destruct (PositionSample.heading_degrees sample) as [h|]; [|done]. cbn [is_some_and].
    by rewrite (Fh h). }
  eexists. split; [reflexivity|]. split; [by rewrite Hs|]. cbn [data_region_index data_player_pose].
  pose proof (Forall_lookup_1 _ _ _ _ Hpacks Hp) as Hu.
  split; cbn [PlayerPose.world PlayerPose.map PlayerPose.z PlayerPose.heading_degrees]; eauto.
  apply (project_ok _ _ _ (pu_matrix _ Hu)) in Hm; [done|apply Dx|apply Dy].
Qed.

(** The metrics of both modes. *)
Definition layout_data (layout : ViewportLayout) : Prop :=
  metrics_data (layout_mini layout) ∧ metrics_data (layout_expanded layout).

(** What the viewport shows: the player's surroundings on the minimap, the view otherwise. *)
Definition viewport_of (state : CoreState) (layout : ViewportLayout) (pose : option PlayerPose.t) :
    ActiveViewport :=
  match display_mode (settings state) with
  | MiniMap =>
      let view := mini_map_view state in
      Mini (mkMini
        match pose with
        | Some player => PlayerPose.map player
        | None => MapPoint.mk (MiniMapView.center_x view) (MiniMapView.center_y view)
        end (MiniMapView.zoom view) (layout_mini layout))
  | ExpandedMap =>
      let view := expanded_map_view state in
      Expanded (mkExpanded
        (MapPoint.mk (ExpandedMapView.center_x view) (ExpandedMapView.center_y view))
        (ExpandedMapView.zoom view) (layout_expanded layout))
  end.

Lemma active_viewport_spec state layout pose :
  state_typed state → layout_data layout →
  (∀ p, pose = Some p → data (MapPoint.x (PlayerPose.map p)) ∧ data (MapPoint.y (PlayerPose.map p))) →
  active_viewport state layout pose = Ok (viewport_of state layout pose) ∧
  viewport_typed (viewport_of state layout pose) ∧ metrics_data (metrics (viewport_of state layout pose)).
Proof.
  intros [_ (Mx & My & Mz & Mv) (Ex & Ey & Ez & Ev)] [Hm He] Hpose.
  unfold active_viewport, viewport_of. destruct (display_mode (settings state)).
  - destruct Mv as (_ & _ & Mv). unfold mini_new, Viewport.validate_zoom.
    change (in_range Viewport.MIN_ZOOM Viewport.MAX_ZOOM) with (in_range View.MIN_ZOOM View.MAX_ZOOM).
    rewrite Mv. destruct pose as [p|].
    + destruct (Hpose p eq_refl) as [[? ?] [? ?]]. split; [done|]. split; [|done].
      split_and!; [done|done|apply Hm|done].
    + rewrite MapPoint.map_point_new by (apply Mx || apply My). split; [done|]. split; [|done].
      split_and!; [apply Mx|apply My|apply Hm|done].
  - destruct Ev as (_ & _ & Ev). unfold expanded_new, Viewport.validate_zoom.
    change (in_range Viewport.MIN_ZOOM Viewport.MAX_ZOOM) with (in_range View.MIN_ZOOM View.MAX_ZOOM).
    rewrite Ev. rewrite MapPoint.map_point_new by (apply Ex || apply Ey). split; [done|]. split; [|done].
    split_and!; [apply Ex|apply Ey|apply He|done].
Qed.

(** ** Snapshots *)

(** What a snapshot promises to the renderer. *)
Record snapshot_ok (store : MapPackStore) (state : CoreState) (layout : ViewportLayout)
    (snap : RenderSnapshot) : Prop := {
  sn_pack : snap_pack snap = store ∧ snap_pack_hash snap = store_hash store ∧
    snap_build_id snap = game_build_id (store_manifest store);
  sn_cursor : snap_source_cursor snap = sample_cursor <$> position_sample state;
  sn_visible : snap_visible snap = visible state && is_some (snap_region_index snap);
  sn_viewport : snap_viewport snap = viewport_of state layout (snap_player_pose snap);
  sn_metrics : metrics_data (metrics (snap_viewport snap));
  sn_policy : snap_interpolation_policy snap = interpolation_policy (freshness state);
  sn_region :
    match snap_region_index snap, snap_player_pose snap with
    | Some i, Some pose =>
        player_located store state i pose ∧
        ∃ pack, region_packs store !! i = Some pack ∧
          (∀ key, key ∈ snap_visible_tiles snap → is_Some (tile_get (pack_tile_index pack) key)) ∧
          (∀ h, h ∈ snap_visible_pois snap → ∃ poi, poi_get (pack_poi_index pack) h = Some poi ∧
             mask_contains (snap_poi_filters snap) (poi_kind poi) = true)
    | None, None => snap_visible_tiles snap = [] ∧ snap_visible_pois snap = []
    | _, _ => False
    end;
}.

Section BuildSpec.
Context (sin_cos : f64 → f64 * f64) (hypot : f64 → f64 → f64) (Htrig : sin_cos_typed sin_cos).

Lemma usable_pois pack v pose filters :
  pack_usable pack → viewport_typed v →
  ∃ output, select_visible_pois_into sin_cos hypot (pack_poi_index pack) v pose
      (map_width_px (pack_region pack)) (map_height_px (pack_region pack)) filters = Some output ∧
    ∀ h, h ∈ output → ∃ poi, poi_get (pack_poi_index pack) h = Some poi ∧
      mask_contains filters (poi_kind poi) = true.
Proof.
  intros [_ Hw Hh _ (rs & -> & Hrs)] Hv.
  rewrite (select_pois_spec sin_cos hypot Htrig) by (done || unfold u32_max; lia).
  destruct (conservative_bounds _ _ _ _ _) as [bounds|]; eexists; (split; [done|]).
  - intros h [_ Hsel]%elem_of_List_filter. unfold poi_selected, passes, poi_get in *.
    destruct (records _ !! N.to_nat h) as [poi|]; [|done]. cbn [is_some_and] in Hsel.
    reflect_bool. by exists poi.
  - by intros h ?%elem_of_nil.
Qed.

Lemma build_spec self state layout :
  state_typed state → layout_data layout → Forall pack_usable (region_packs (builder_pack self)) →
  ∃ self' snap, build sin_cos hypot self state layout = Some (self', Ok snap) ∧
    self' = mkBuilder (builder_pack self) (snap_visible_tiles snap) (snap_visible_pois snap) ∧
    snapshot_ok (builder_pack self) state layout snap.
Proof.
  intros Hstate Hlayout Hpacks. unfold build.
  destruct (source_data_spec self state Hstate Hpacks) as ([cursor pose region] & -> & Hcur & Hloc).
  cbn [data_cursor data_player_pose data_region_index] in Hcur, Hloc.
  destruct (active_viewport_spec state layout pose Hstate Hlayout) as (-> & Htyped & Hmetrics).
  { intros p ->. destruct region; [|done]. apply Hloc. }
  destruct region as [i|], pose as [p|]; try done; cbn [mbind option_bind].
  - destruct (pl_pack _ _ _ _ Hloc) as (pack & Hpack & _). unfold region_pack at 1. rewrite Hpack.
    pose proof (Forall_lookup_1 _ _ _ _ Hpacks Hpack) as Hu.
    destruct (usable_pois pack (viewport_of state layout (Some p))
      (compute_viewport_pose (rotation_mode (settings state)) (PlayerPose.heading_degrees p))
      (poi_filter_mask (poi_filters (settings state))) Hu Htyped) as (pois & -> & Hpois).
    cbn [mbind option_bind fst snd]. do 2 eexists. split; [reflexivity|]. split; [done|]. split; try done. cbn.
    split; [done|]. exists pack. split; [done|]. split; [|done].
    intros key Hkey. by apply selected_tile_known in Hkey as [_ ?]; [|apply Hu].
  - cbn [fst snd]. do 2 eexists. split; [reflexivity|]. split; [done|]. by split.
Qed.
End BuildSpec.

(** C21: a snapshot is always built, and is coherent. For every typed state, usable pack and
    valid layout, whatever the scratch vectors held before, building neither panics nor
    fails; the snapshot is visible only over a region, in which the player is located where
    the transform of that region projects its sample; the minimap is centred on the player;
    stale and offline positions are frozen; every tile and point listed exists in the pack,
    and the points are of the kinds the filter admits. *)
Theorem snapshot_total sin_cos hypot self state layout (sin_cos_ok : sin_cos_typed sin_cos) :
  state_typed state → layout_data layout → Forall pack_usable (region_packs (builder_pack self)) →
  ∃ snap,
    snapshot_ok (builder_pack self) state layout snap ∧
    ∀ tiles pois, build sin_cos hypot (mkBuilder (builder_pack self) tiles pois) state layout =
      Some (mkBuilder (builder_pack self) (snap_visible_tiles snap) (snap_visible_pois snap), Ok snap).
Proof.
  intros Hstate Hlayout Hpacks.
  destruct (build_spec sin_cos hypot sin_cos_ok self state layout Hstate Hlayout Hpacks)
    as (self' & snap & Hb & -> & Hok).
  exists snap. split; [done|]. intros tiles pois. destruct self as [pack tiles0 pois0].
  assert (source_data (mkBuilder pack tiles pois) state = source_data (mkBuilder pack tiles0 pois0) state)
    as Hsource by done.
  unfold build in *. cbn [builder_pack] in *. rewrite Hsource.
  destruct (source_data _ state) as [[cursor pose region]|e]; [|done].
  destruct (active_viewport state layout pose); done.
Qed.

(** ** A player on the small pack *)

Definition matrices_ok (store : MapPackStore) : bool :=
  forallb (λ pack, forallb f64_ok (flatten (WorldToMapTransform.matrix (pack_transform pack))))
    (region_packs store).

Lemma matrices_ok_forall store :
  matrices_ok store = true →
  Forall (λ pack, matrix_ok (WorldToMapTransform.matrix (pack_transform pack))) (region_packs store).
Proof.
  unfold matrices_ok, matrix_ok. rewrite !forallb_forall. intros Hok. apply Forall_forall. intros pack Hp.
  apply list_elem_of_In, Hok in Hp. rewrite forallb_forall in Hp. apply Forall_forall.
  intros x Hx. by apply Hp, list_elem_of_In.
Qed.

Lemma demo_store_usable : ∃ store, demo_open = Ok store ∧ Forall pack_usable (region_packs store).
Proof.
  assert ((let? store := demo_open in Ok (matrices_ok store)) = Ok true) as Hok by (vm_compute; reflexivity).
  apply and_then_ok in Hok as (store & E & Hm). exists store. split; [exact E|].
  apply (open_store_ok _ _ _ _ (λ _, Some demo_pois)) in E as (real & _ & _ & Hstore).
  - eapply store_packs_usable; [exact Hstore|apply matrices_ok_forall; congruence].
  - intros bs raw [= <-]. exact demo_pois_typed.
Qed.

Definition demo_sample : PositionSample.t :=
  PositionSample.mk "world" [Byte.x01] [Byte.x02] 1 7 f64_zero f64_zero (f64_of_N 100) None (SampleClock.mk 0 0).

Definition demo_state : CoreState :=
  mkCoreState OverlaySettings_default 1 None (Some demo_sample) Live false true true true
    (MiniMapView.mk f64_zero f64_zero (f32_of_Z 1)) (ExpandedMapView.mk f64_zero f64_zero (f32_of_Z 1)).

Lemma demo_state_typed : state_typed demo_state.
Proof.
  split.
  - intros p [= <-]. split; [done|]. split; [done|]. split; [vm_compute; reflexivity|]. intros h [=].
  - split; [done|]. split; [done|]. split; [vm_compute; reflexivity|]. repeat split.
  - split; [done|]. split; [done|]. split; [vm_compute; reflexivity|]. repeat split.
Qed.

Definition demo_layout : ViewportLayout :=
  mkLayout (ViewportMetrics.mk 288 288 f64_one) (ViewportMetrics.mk 1120 630 f64_one).

Lemma demo_layout_data : layout_data demo_layout.
Proof.
  split.
  - apply (metrics_new_data 288 288 f64_one); vm_compute; reflexivity.
  - apply (metrics_new_data 1120 630 f64_one); vm_compute; reflexivity.
Qed.

Lemma snapshot_total_witness :
  ∃ store snap, demo_open = Ok store ∧ snapshot_ok store demo_state demo_layout snap ∧
    ∀ tiles pois, build no_turn chebyshev (mkBuilder store tiles pois) demo_state demo_layout =
      Some (mkBuilder store (snap_visible_tiles snap) (snap_visible_pois snap), Ok snap).
Proof.
  destruct demo_store_usable as (store & E & Hu).
  destruct (snapshot_total no_turn chebyshev (builder_new store) demo_state demo_layout no_turn_typed
    demo_state_typed demo_layout_data Hu) as (snap & Hok & Hb).
  exists store, snap. exact (conj E (conj Hok Hb)).
Defined.
