(* ===== verification/RenderCommands.v ===== *)
(** * Render commands

    Models [crates/pal-render/src/render_commands.rs]: the flat list of commands a renderer
    executes for a snapshot. An [expect] that fails is [None]. *)

From S2P Require Import Prelude Floats FloatInt FloatRound Settings Position View CoreState MapGeometry.
From S2P Require Import PackFiles MapManifest PoiIndex TileIndex MapPack Viewport Culling Snapshot.

Record MapTransformCommand := mkTransformCommand {
  tc_viewport : ActiveViewport;
  tc_map_rotation_degrees : f32;
}.

Record RegionTileIdentity := mkTileIdentity {
  ti_pack_hash : bytes;
  ti_region_index : nat;
  ti_key : TileKey;
}.

Record MapTileCommand := mkTileCommand {
  mt_identity : RegionTileIdentity;
  mt_map_rect : MapRect.t;
}.

Record RegionPoiIdentity := mkPoiIdentity {
  pi_pack_hash : bytes;
  pi_region_index : nat;
  pi_handle : PoiHandle;
}.

Record PoiCommand := mkPoiCommand {
  pc_identity : RegionPoiIdentity;
  pc_kind : PoiKind;
  pc_map_position : MapPoint.t;
}.

Record PlayerArrowCommand := mkArrowCommand {
  pa_screen_position : ScreenPoint.t;
  pa_rotation_degrees : f32;
}.

Inductive RenderCommand :=
| CommandTransform (command : MapTransformCommand)
| CommandTile (command : MapTileCommand)
| CommandPoi (command : PoiCommand)
| CommandArrow (command : PlayerArrowCommand).

(** Lengths of vectors fit a [usize], so that the saturating sums are sums. *)
Definition required_capacity (snapshot : RenderSnapshot) : nat :=
  if negb (snap_visible snapshot) || is_none (snap_region_pack snapshot) then 0%nat
  else
    let player_arrow_count := if is_some (snap_player_pose snapshot) then 1%nat else 0%nat in
    (1 + length (snap_visible_tiles snapshot) + length (snap_visible_pois snapshot)
     + player_arrow_count)%nat.

Definition tile_command (snapshot : RenderSnapshot) (region_index : nat) (key : TileKey) :
    option RenderCommand :=
  pack ← snap_region_pack snapshot;
  descriptor ← tile_get (pack_tile_index pack) key;
  Some (CommandTile (mkTileCommand (mkTileIdentity (snap_pack_hash snapshot) region_index key)
          (tile_rect descriptor))).

Definition poi_command (snapshot : RenderSnapshot) (region_index : nat) (handle : PoiHandle) :
    option RenderCommand :=
  pack ← snap_region_pack snapshot;
  poi ← poi_get (pack_poi_index pack) handle;
  Some (CommandPoi (mkPoiCommand (mkPoiIdentity (snap_pack_hash snapshot) region_index handle)
          (poi_kind poi) (poi_map poi))).

Definition screen_center (metrics : ViewportMetrics.t) : result ScreenPoint.t ViewportValidationError :=
  ScreenPoint.new (mul64 (f64_of_N (ViewportMetrics.output_width_px metrics)) f64_half)
    (mul64 (f64_of_N (ViewportMetrics.output_height_px metrics)) f64_half).

(** The buffer after [build_from]; what it held before is cleared. *)
Definition build_from (snapshot : RenderSnapshot) : option (list RenderCommand) :=
  match snap_region_pack snapshot with
  | None => Some []
  | Some _ =>
      if negb (snap_visible snapshot) then Some []
      else
        let transform :=
          CommandTransform (mkTransformCommand (snap_viewport snapshot)
            (pose_map_rotation_degrees (snap_viewport_pose snapshot))) in
        region_index ← snap_region_index snapshot;
        tiles ← mapM (tile_command snapshot region_index) (snap_visible_tiles snapshot);
        pois ← mapM (poi_command snapshot region_index) (snap_visible_pois snapshot);
        arrow ←
          match snap_player_pose snapshot with
          | None => Some []
          | Some _ =>
              screen_position ← expect (screen_center (metrics (snap_viewport snapshot)));
              Some [CommandArrow (mkArrowCommand screen_position
                      (pose_player_rotation_degrees (snap_viewport_pose snapshot)))]
          end;
        Some (transform :: tiles ++ pois ++ arrow)
  end.

(** ** Every snapshot can be drawn *)

Lemma screen_center_ok m :
  metrics_data m → ∃ x y, screen_center m = Ok (ScreenPoint.mk x y) ∧ data x ∧ data y ∧
    (2 * val x = Z.of_N (ViewportMetrics.output_width_px m) * unit_val)%Z ∧
    (2 * val y = Z.of_N (ViewportMetrics.output_height_px m) * unit_val)%Z.
Proof.
  intros [Hw Hh _ _ _]. unfold screen_center, ScreenPoint.new.
  rewrite !(fmul_comm (f64_of_N _)).
  destruct (half_product (ViewportMetrics.output_width_px m)) as [Dx Vx]; [lia|].
  destruct (half_product (ViewportMetrics.output_height_px m)) as [Dy Vy]; [lia|].
  rewrite (proj2 Dx), (proj2 Dy). cbn [negb]. by do 2 eexists.
Qed.

(** A command draws what its key or handle stands for. *)
Definition draws_tile (snap : RenderSnapshot) (pack : MapRegionPack) (i : nat) (key : TileKey)
    (c : RenderCommand) : Prop :=
  ∃ d, tile_get (pack_tile_index pack) key = Some d ∧
    c = CommandTile (mkTileCommand (mkTileIdentity (snap_pack_hash snap) i key) (tile_rect d)).

Definition draws_poi (snap : RenderSnapshot) (pack : MapRegionPack) (i : nat) (h : PoiHandle)
    (c : RenderCommand) : Prop :=
  ∃ poi, poi_get (pack_poi_index pack) h = Some poi ∧
    c = CommandPoi (mkPoiCommand (mkPoiIdentity (snap_pack_hash snap) i h) (poi_kind poi) (poi_map poi)).

(** The frame of a visible snapshot: the map, its tiles, its points, and the player on top,
    in the middle of the output. *)
Definition frame (snap : RenderSnapshot) (commands : list RenderCommand) : Prop :=
  ∃ pack i tiles pois x y,
    snap_region_index snap = Some i ∧ region_packs (snap_pack snap) !! i = Some pack ∧
    commands =
      CommandTransform (mkTransformCommand (snap_viewport snap)
        (pose_map_rotation_degrees (snap_viewport_pose snap))) :: tiles ++ pois ++
      [CommandArrow (mkArrowCommand (ScreenPoint.mk x y)
         (pose_player_rotation_degrees (snap_viewport_pose snap)))] ∧
    Forall2 (draws_tile snap pack i) (snap_visible_tiles snap) tiles ∧
    Forall2 (draws_poi snap pack i) (snap_visible_pois snap) pois ∧
    (2 * val x = Z.of_N (ViewportMetrics.output_width_px (metrics (snap_viewport snap))) * unit_val)%Z ∧
    (2 * val y = Z.of_N (ViewportMetrics.output_height_px (metrics (snap_viewport snap))) * unit_val)%Z.

Lemma build_from_visible store state layout snap :
  snapshot_ok store state layout snap → snap_visible snap = true →
  ∃ commands, build_from snap = Some commands ∧ length commands = required_capacity snap ∧
    frame snap commands.
Proof.
  intros [(Hstore & _) _ Hvis _ Hmetrics _ Hregion] Hv.
  unfold build_from, required_capacity, snap_region_pack. rewrite Hv in *. cbn [negb orb].
  destruct (snap_region_index snap) as [i|] eqn:Hi; [|by rewrite andb_false_r in Hvis].
  destruct (snap_player_pose snap) as [pose|]; [|done].
  destruct Hregion as (_ & pack & Hpack & Htiles & Hpois).
  cbn [mbind option_bind]. unfold region_pack. rewrite Hstore, Hpack. cbn [is_none orb].
  destruct (screen_center_ok _ Hmetrics) as (x & y & -> & _ & _ & Vx & Vy). cbn [expect mbind option_bind].
  destruct (mapM_total (tile_command snap i) (draws_tile snap pack i) (snap_visible_tiles snap))
    as (tiles & -> & Ht).
  { intros key [d Hd]%Htiles. eexists. split; [|by exists d].
    unfold tile_command, snap_region_pack. rewrite Hi. cbn [mbind option_bind]. unfold region_pack.
    rewrite Hstore, Hpack. cbn [mbind option_bind]. by rewrite Hd. }
  destruct (mapM_total (poi_command snap i) (draws_poi snap pack i) (snap_visible_pois snap))
    as (pois & -> & Hp).
  { intros h (poi & Hd & _)%Hpois. eexists. split; [|by exists poi].
    unfold poi_command, snap_region_pack. rewrite Hi. cbn [mbind option_bind]. unfold region_pack.
    rewrite Hstore, Hpack. cbn [mbind option_bind]. by rewrite Hd. }
  cbn [mbind option_bind]. eexists. split; [reflexivity|]. split.
  - cbn [length is_some]. rewrite !length_app, (Forall2_length _ _ _ Ht), (Forall2_length _ _ _ Hp).
    simpl. lia.
  - exists pack, i, tiles, pois, x, y. rewrite Hstore. by split_and!.
Qed.

Lemma build_from_hidden snap :
  snap_visible snap = false → build_from snap = Some [] ∧ required_capacity snap = 0%nat.
Proof.
  intros Hv. unfold build_from, required_capacity. rewrite Hv. by destruct (snap_region_pack snap).
Qed.

(** C20: a frame can always be drawn. For every typed state, usable pack and valid layout, the
    snapshot is built and none of the [expect]s of the command buffer can fail: a hidden
    snapshot gives no command; a visible one gives the map, then exactly its tiles and its
    points in order, each with the data of its index, then the player's arrow in the middle
    of the output; and the number of commands is exactly the capacity reserved. *)
Theorem frame_total sin_cos hypot self state layout (sin_cos_ok : sin_cos_typed sin_cos) :
  state_typed state → layout_data layout → Forall pack_usable (region_packs (builder_pack self)) →
  ∃ self' snap commands,
    build sin_cos hypot self state layout = Some (self', Ok snap) ∧
    build_from snap = Some commands ∧
    length commands = required_capacity snap ∧
    if snap_visible snap then frame snap commands else commands = [].
Proof.
  intros Hstate Hlayout Hpacks.
  destruct (build_spec sin_cos hypot sin_cos_ok self state layout Hstate Hlayout Hpacks)
    as (self' & snap & Hb & _ & Hok). exists self', snap.
  destruct (snap_visible snap) eqn:Hv.
  - destruct (build_from_visible _ _ _ _ Hok Hv) as (commands & ? & ? & ?). by exists commands.
  - destruct (build_from_hidden snap Hv) as [? ->]. by exists [].
Qed.

Lemma frame_total_witness :
  ∃ store self' snap commands, demo_open = Ok store ∧
    build no_turn chebyshev (builder_new store) demo_state demo_layout = Some (self', Ok snap) ∧
    build_from snap = Some commands ∧ length commands = required_capacity snap.
Proof.
  destruct demo_store_usable as (store & E & Hu).
  destruct (frame_total no_turn chebyshev (builder_new store) demo_state demo_layout no_turn_typed
    demo_state_typed demo_layout_data Hu) as (self' & snap & commands & Hb & Hc & Hl & _).
  exists store, self', snap, commands. exact (conj E (conj Hb (conj Hc Hl))).
Defined.
