(* ===== verification/OverlayVisual.v ===== *)
(** * The look of the overlay

    Models [crates/pal-render/src/overlay_visual.rs]: sizes and colours, the actions of the
    rail and of the filter strip, and the plan of the chrome around the map. *)

From S2P Require Import Prelude Settings Position.

Record Rgba8 := mkRgba8 { red : N; green : N; blue : N; alpha : N }.

Definition rgb (self : Rgba8) : list N := [red self; green self; blue self].
Definition rgba (self : Rgba8) : list N := [red self; green self; blue self; alpha self].

Record OverlayPalette := mkPalette {
  neutral_backdrop : Rgba8;
  neutral_rail : Rgba8;
  neutral_border : Rgba8;
  minimap_bezel_shadow : Rgba8;
  minimap_bezel_outer : Rgba8;
  minimap_bezel_body : Rgba8;
  minimap_bezel_highlight : Rgba8;
  minimap_bezel_inner : Rgba8;
  minimap_tick_muted : Rgba8;
  neutral_text : Rgba8;
  neutral_muted : Rgba8;
  cyan_live : Rgba8;
  amber_warning : Rgba8;
}.

Record OverlayVisualSpec := mkVisualSpec {
  client_inset_dip : N;
  mini_width_dip : N;
  mini_height_dip : N;
  expanded_width_dip : N;
  expanded_height_dip : N;
  expanded_rail_width_dip : N;
  expanded_header_height_dip : N;
  expanded_panel_width_dip : N;
  expanded_panel_inset_dip : N;
  expanded_search_row_height_dip : N;
  corner_radius_dip : N;
  border_dip : N;
  minimap_bezel_body_dip : N;
  minimap_bezel_inner_inset_dip : N;
  minimap_tick_length_dip : N;
  rail_button_dip : N;
  rail_inset_dip : N;
  filter_button_width_dip : N;
  filter_button_height_dip : N;
  filter_button_gap_dip : N;
  filter_strip_inset_dip : N;
  status_dot_dip : N;
  palette : OverlayPalette;
}.

Definition OVERLAY_VISUAL_V1 : OverlayVisualSpec := {|
  client_inset_dip := 16;
  mini_width_dip := 288;
  mini_height_dip := 288;
  expanded_width_dip := 1120;
  expanded_height_dip := 630;
  expanded_rail_width_dip := 56;
  expanded_header_height_dip := 0;
  expanded_panel_width_dip := 260;
  expanded_panel_inset_dip := 14;
  expanded_search_row_height_dip := 50;
  corner_radius_dip := 10;
  border_dip := 1;
  minimap_bezel_body_dip := 6;
  minimap_bezel_inner_inset_dip := 9;
  minimap_tick_length_dip := 8;
  rail_button_dip := 40;
  rail_inset_dip := 8;
  filter_button_width_dip := 114;
  filter_button_height_dip := 34;
  filter_button_gap_dip := 8;
  filter_strip_inset_dip := 12;
  status_dot_dip := 8;
  palette := {|
    neutral_backdrop := mkRgba8 0x07 0x0d 0x14 0xee;
    neutral_rail := mkRgba8 0x0b 0x17 0x21 0xf4;
    neutral_border := mkRgba8 0x42 0x6f 0x7a 0xe8;
    minimap_bezel_shadow := mkRgba8 0x02 0x07 0x0b 0xff;
    minimap_bezel_outer := mkRgba8 0x0a 0x17 0x1e 0xff;
    minimap_bezel_body := mkRgba8 0x18 0x30 0x3a 0xff;
    minimap_bezel_highlight := mkRgba8 0x8f 0xd6 0xdc 0xff;
    minimap_bezel_inner := mkRgba8 0x2d 0x55 0x5f 0xff;
    minimap_tick_muted := mkRgba8 0x5a 0x7d 0x85 0xff;
    neutral_text := mkRgba8 0xee 0xf4 0xf7 0xff;
    neutral_muted := mkRgba8 0xa7 0xb3 0xbe 0xff;
    cyan_live := mkRgba8 0x34 0xd7 0xe6 0xff;
    amber_warning := mkRgba8 0xf2 0xb8 0x4b 0xff;
  |};
|}.

(** ** Actions *)

Inductive GateBadge := Approved | NotApproved.
#[export] Instance GateBadge_eq_dec : EqDecision GateBadge.
Proof. solve_decision. Defined.

Inductive StatusTone := Neutral | Cyan | Amber.

Inductive RailAction := Collapse | ZoomIn | ZoomOut | ToggleRotation | Lock.
#[export] Instance RailAction_eq_dec : EqDecision RailAction.
Proof. solve_decision. Defined.

Definition rail_index (self : RailAction) : nat :=
  match self with
  | Collapse => 0
  | ZoomIn => 1
  | ZoomOut => 2
  | ToggleRotation => 3
  | Lock => 4
  end%nat.

Inductive FilterAction :=
| FilterFastTravel | FilterBoss | FilterWanted | FilterDungeon
| FilterTower | FilterEgg | FilterResources | FilterSalvage.
#[export] Instance FilterAction_eq_dec : EqDecision FilterAction.
Proof. solve_decision. Defined.

Definition filter_index (self : FilterAction) : nat :=
  match self with
  | FilterFastTravel => 0
  | FilterBoss => 1
  | FilterWanted => 2
  | FilterDungeon => 3
  | FilterTower => 4
  | FilterEgg => 5
  | FilterResources => 6
  | FilterSalvage => 7
  end%nat.

Definition label_ko (self : FilterAction) : string :=
  match self with
  | FilterFastTravel => "참수리 상"
  | FilterBoss => "필드 보스"
  | FilterWanted => "지명수배"
  | FilterDungeon => "던전"
  | FilterTower => "탑"
  | FilterEgg => "팰의 알"
  | FilterResources => "자원"
  | FilterSalvage => "인양"
  end.

Definition compact_label_ko (self : FilterAction) : string :=
  match self with
  | FilterFastTravel => "이동"
  | FilterBoss => "보스"
  | FilterWanted => "현상"
  | FilterDungeon => "던전"
  | FilterTower => "탑"
  | FilterEgg => "알"
  | FilterResources => "자원"
  | FilterSalvage => "인양"
  end.

Definition imgui_label_ko (self : FilterAction) : string :=
  match self with
  | FilterFastTravel => "이동##filter_fast_travel"
  | FilterBoss => "보스##filter_boss"
  | FilterWanted => "현상##filter_wanted"
  | FilterDungeon => "던전##filter_dungeon"
  | FilterTower => "탑##filter_tower"
  | FilterEgg => "알##filter_egg"
  | FilterResources => "자원##filter_resources"
  | FilterSalvage => "인양##filter_salvage"
  end.

Inductive RailButtonState := Idle | Hovered | Pressed | Active.
#[export] Instance RailButtonState_eq_dec : EqDecision RailButtonState.
Proof. solve_decision. Defined.

Definition rail_button_tone (state : RailButtonState) : StatusTone :=
  match state with
  | Idle => Neutral
  | Hovered | Pressed | Active => Amber
  end.

Definition filter_button_tone (state : RailButtonState) : StatusTone :=
  match state with
  | Idle => Neutral
  | Hovered | Pressed => Amber
  | Active => Cyan
  end.

Definition EXPANDED_RAIL : list RailAction := [Collapse; ZoomIn; ZoomOut; ToggleRotation; Lock].
Definition EXPANDED_FILTERS : list FilterAction :=
  [FilterFastTravel; FilterBoss; FilterWanted; FilterDungeon; FilterTower; FilterEgg;
   FilterResources; FilterSalvage].

(** ** The plan *)

Record ChromePlan := mkChromePlan {
  status_tone : StatusTone;
  gate_badge : GateBadge;
  rail_actions : list RailAction;
  rail_button_states : list RailButtonState;
  filter_actions : list FilterAction;
  filter_button_states : list RailButtonState;
}.
#[export] Instance ChromePlan_eta : Eta ChromePlan :=
  λ r, mkChromePlan (status_tone r) (gate_badge r) (rail_actions r) (rail_button_states r)
         (filter_actions r) (filter_button_states r).

(** Reading outside an array would panic. *)
Definition rail_button_state (self : ChromePlan) (action : RailAction) : option RailButtonState :=
  rail_button_states self !! rail_index action.

Definition with_rail_button_state (self : ChromePlan) (action : RailAction) (state : RailButtonState) :
    ChromePlan :=
  self <| rail_button_states ::= <[ rail_index action := state ]> |>.

Definition filter_button_state (self : ChromePlan) (action : FilterAction) : option RailButtonState :=
  filter_button_states self !! filter_index action.

Definition with_filter_button_state (self : ChromePlan) (action : FilterAction)
    (state : RailButtonState) : ChromePlan :=
  self <| filter_button_states ::= <[ filter_index action := state ]> |>.

Definition filter_selection (filters : PoiFilters) : list (FilterAction * bool) :=
  [(FilterFastTravel, fast_travel filters); (FilterBoss, boss filters); (FilterWanted, wanted filters);
   (FilterDungeon, dungeon filters);
   (FilterTower, layer_group_selected (enabled_layer_ids filters) TOWER_LAYER_IDS);
   (FilterEgg, layer_group_selected (enabled_layer_ids filters) EGG_LAYER_IDS);
   (FilterResources, layer_group_selected (enabled_layer_ids filters) RESOURCE_LAYER_IDS);
   (FilterSalvage, layer_group_selected (enabled_layer_ids filters) SALVAGE_LAYER_IDS)].

Definition with_filter_selection (self : ChromePlan) (filters : PoiFilters) : ChromePlan :=
  fold_left (λ self '(action, selected),
               self <| filter_button_states ::=
                 <[ filter_index action := if (selected : bool) then Active else Idle ]> |>)
    (filter_selection filters) self.

Definition has_filter_strip (self : ChromePlan) : bool := negb (is_empty (filter_actions self)).
Definition shows_cardinals (self : ChromePlan) : bool := negb (is_empty (rail_actions self)).
Definition shows_scale_bar (self : ChromePlan) : bool := negb (is_empty (rail_actions self)).

Definition build_chrome_plan (display_mode : DisplayMode) (input_mode : InputMode)
    (freshness : Freshness) (gate_badge : GateBadge) : ChromePlan :=
  let status_tone :=
    match freshness, gate_badge with Live, Approved => Cyan | _, _ => Amber end in
  mkChromePlan status_tone gate_badge
    match display_mode with MiniMap => [] | ExpandedMap => EXPANDED_RAIL end
    (replicate 5 Idle)
    match display_mode with MiniMap => [] | ExpandedMap => EXPANDED_FILTERS end
    (replicate 8 Idle).

(** ** Buttons *)

(** The arrays have a place for every action. *)
Definition plan_ok (p : ChromePlan) : Prop :=
  length (rail_button_states p) = 5%nat ∧ length (filter_button_states p) = 8%nat.

Lemma rail_index_inj a b : rail_index a = rail_index b → a = b.
Proof. by destruct a, b. Qed.

Lemma filter_index_inj a b : filter_index a = filter_index b → a = b.
Proof. by destruct a, b. Qed.

Lemma rail_states_with p action state :
  rail_button_states (with_rail_button_state p action state) =
    <[ rail_index action := state ]> (rail_button_states p) ∧
  filter_button_states (with_rail_button_state p action state) = filter_button_states p.
Proof. done. Qed.

Lemma filter_states_with p action state :
  filter_button_states (with_filter_button_state p action state) =
    <[ filter_index action := state ]> (filter_button_states p) ∧
  rail_button_states (with_filter_button_state p action state) = rail_button_states p.
Proof. done. Qed.

(** Setting a button changes that button and no other; reading never fails. *)
Lemma rail_button_spec p action state other :
  plan_ok p →
  plan_ok (with_rail_button_state p action state) ∧
  rail_button_state (with_rail_button_state p action state) other =
    if decide (other = action) then Some state else rail_button_state p other.
Proof.
  intros [Hr Hf]. destruct (rail_states_with p action state) as [E1 E2].
  unfold plan_ok, rail_button_state. rewrite E1, E2, length_insert. split; [done|].
  destruct (decide (other = action)) as [->|Hne].
  - apply list_lookup_insert_eq. rewrite Hr. destruct action; simpl; lia.
  - apply list_lookup_insert_ne. intros Heq%rail_index_inj. congruence.
Qed.

Lemma filter_button_spec p action state other :
  plan_ok p →
  plan_ok (with_filter_button_state p action state) ∧
  filter_button_state (with_filter_button_state p action state) other =
    if decide (other = action) then Some state else filter_button_state p other.
Proof.
  intros [Hr Hf]. destruct (filter_states_with p action state) as [E1 E2].
  unfold plan_ok, filter_button_state. rewrite E1, E2, length_insert. split; [done|].
  destruct (decide (other = action)) as [->|Hne].
  - apply list_lookup_insert_eq. rewrite Hf. destruct action; simpl; lia.
  - apply list_lookup_insert_ne. intros Heq%filter_index_inj. congruence.
Qed.

(** After a selection the strip shows exactly the filters of the settings, whatever the
    buttons showed before. *)
Lemma filter_selection_shown p filters action :
  plan_ok p →
  ∃ selected, (action, selected) ∈ filter_selection filters ∧
    filter_button_state (with_filter_selection p filters) action =
      Some (if (selected : bool) then Active else Idle).
Proof.
  intros [_ Hf]. destruct p as [tone badge rail rstates filts fs]. cbn in Hf.
  do 8 (destruct fs as [|? fs]; [discriminate|]). destruct fs; [|discriminate].
  unfold filter_selection.
  destruct action; eexists; (split; [|cbn; reflexivity]); rewrite ?elem_of_cons; naive_solver.
Qed.

(** A plan of the expanded map has all actions; one of the minimap has none. *)
Lemma chrome_plan_shape display input freshness badge :
  let p := build_chrome_plan display input freshness badge in
  plan_ok p ∧
  (status_tone p = Cyan ↔ freshness = Live ∧ badge = Approved) ∧
  (has_filter_strip p = true ↔ display = ExpandedMap) ∧
  (shows_cardinals p = true ↔ display = ExpandedMap) ∧
  (display = ExpandedMap → (∀ a, a ∈ rail_actions p) ∧ (∀ a, a ∈ filter_actions p)).
Proof.
  split; [done|]. split; [by destruct freshness, badge; naive_solver|].
  split; [by destruct display|]. split; [by destruct display|]. intros ->.
  split; intros []; apply (bool_decide_unpack _), I.
Qed.
