(* ===== verification/LocalPosition.v ===== *)
(** * The local position pump

    Models [crates/pal-overlay-win/src/local_position_source.rs]: the validation of the one
    supported game process, the traversal of its pointer chain, and the pump that feeds what
    it reads into the server-agent channel of [ServerAgent]. The memory of the process and
    the identity the operating system reports are arguments of a step: a session answers the
    [i]-th read of [len] bytes at an address, and may answer differently the next time. *)

From S2P Require Import Prelude BootFilter Floats FloatInt FloatRound Settings Position View CoreState PositionSource.
From S2P Require Import Reducer ServerAgent.

Definition EXECUTABLE_SHA256 : bytes :=
  byte_of <$>
    [0xfe; 0x3c; 0x15; 0x06; 0x45; 0x24; 0xba; 0xe1; 0x94; 0x78; 0x52; 0x46; 0x7c; 0x4f; 0x92; 0xbc;
     0x22; 0x46; 0x9a; 0xcc; 0x03; 0x3a; 0x3d; 0x3c; 0x80; 0x31; 0xea; 0xb4; 0x32; 0x4e; 0x41; 0xe8].
Definition BUILD_ID : N := 24575825.
Definition EXECUTABLE_FILE_SIZE : N := 161397248.
Definition LOADED_MODULE_SIZE : N := 167432192.
Definition ROOT_RVA : N := 0x9667260.
Definition POINTER_READ_OFFSETS : list N := [0; 0x1b8; 0x38; 0; 0x30; 0x348; 0x298].
Definition CAMERA_OFFSET : N := 0x128.
Definition CAMERA_BLOCK_BYTES : N := 40.
Definition SAMPLE_INTERVAL_MS : N := 100.
Definition MAX_ABSOLUTE_WORLD_COORDINATE : f64 := f64_of_N 2000000.
Definition MIN_PLAUSIBLE_YAW : f64 := fneg (f64_of_N 360).
Definition MAX_PLAUSIBLE_YAW : f64 := f64_of_N 360.

Record LocalProcessIdentity := mkIdentity {
  build_id : N;
  executable_sha256 : bytes;
  executable_file_size : N;
  module_base : N;
  module_size : N;
}.
#[export] Instance LocalProcessIdentity_eq_dec : EqDecision LocalProcessIdentity.
Proof. solve_decision. Defined.

Record LocalPositionSourceIdentity := mkSourceIdentity {
  si_world_alias : string;
  si_subject_id : bytes;
  si_boot_id : bytes;
  si_starting_generation : N;
}.

Inductive LocalPositionSourceError :=
| InvalidSourceIdentity | ExactBuildMismatch | StillActive | GenerationOverflow | SourceHandoffRejected.
#[export] Instance LocalPositionSourceError_eq_dec : EqDecision LocalPositionSourceError.
Proof. solve_decision. Defined.

Definition source_identity_new (world_alias : string) (subject_id boot_id : bytes) (starting_generation : N) :
    result LocalPositionSourceIdentity LocalPositionSourceError :=
  if str_is_empty world_alias || (64 <? str_len world_alias) || negb (str_is_ascii world_alias)
     || bool_decide (subject_id = replicate 32 Byte.x00) || bool_decide (boot_id = replicate 32 Byte.x00)
     || (starting_generation =? 0)
  then Err InvalidSourceIdentity
  else Ok (mkSourceIdentity world_alias subject_id boot_id starting_generation).

Inductive LocalPositionTerminalReason :=
| IdentityMismatch | ReadFailed | NoActiveWorld | InvalidPointer | UnstablePointerChain
| InvalidPosition | TerminalMonotonicRegression | SequenceOverflow | HandoffRejected.
#[export] Instance LocalPositionTerminalReason_eq_dec : EqDecision LocalPositionTerminalReason.
Proof. solve_decision. Defined.

Inductive LocalPositionStep :=
| StepIdle
| StepUnavailable (generation : N)
| StepPublished (generation sequence : N)
| StepClockInvalid (generation : N)
| StepDisconnected (generation : N) (reason : LocalPositionTerminalReason).

Inductive PumpPhase := PhaseActive | ClockInvalidPendingDisconnect | PhaseDisconnected.
#[export] Instance PumpPhase_eq_dec : EqDecision PumpPhase.
Proof. solve_decision. Defined.

(** [reader] says whether the pump holds one. *)
Record Pump := mkPump {
  reader : bool;
  bound_process : LocalProcessIdentity;
  source_identity : LocalPositionSourceIdentity;
  pump_boot_id : bytes;
  pump_generation : N;
  pump_sequence : N;
  next_sample_at_ms : option N;
  last_step_at_ms : option N;
  phase : PumpPhase;
  terminal_reason : option LocalPositionTerminalReason;
  world_available : bool;
}.
#[export] Instance Pump_eta : Eta Pump := λ r,
  mkPump (reader r) (bound_process r) (source_identity r) (pump_boot_id r) (pump_generation r)
    (pump_sequence r) (next_sample_at_ms r) (last_step_at_ms r) (phase r) (terminal_reason r)
    (world_available r).

(** ** Reading the process *)


(** [usize] is 64 bits wide on the supported target. *)
Definition checked_add (base offset : N) : result N LocalPositionTerminalReason :=
  let? address := ok_or (Prelude.checked_add base offset) InvalidPointer in
  if address =? 0 then Err InvalidPointer else Ok address.

Definition validate_exact_process (identity : LocalProcessIdentity) :
    result unit LocalPositionSourceError :=
  let root_end := Prelude.checked_add ROOT_RVA 8 in
  if negb (build_id identity =? BUILD_ID)
     || negb (bool_decide (executable_sha256 identity = EXECUTABLE_SHA256))
     || negb (executable_file_size identity =? EXECUTABLE_FILE_SIZE)
     || (module_base identity =? 0)
     || negb (module_size identity =? LOADED_MODULE_SIZE)
     || is_none (Prelude.checked_add (module_base identity) (module_size identity))
     || is_none_or root_end (λ root_end, module_size identity <? root_end)
  then Err ExactBuildMismatch
  else Ok tt.

(** [session i address len]: the [i]-th read of a session. *)
Definition ReadSession : Type := nat → N → N → option bytes.

Section Session.
Context (session : ReadSession).

Definition read_pointer (i : nat) (address : N) : result N LocalPositionTerminalReason :=
  if address =? 0 then Err InvalidPointer
  else
    let? bs := ok_or (session i address 8) ReadFailed in
    let pointer := le_value bs in
    if pointer =? 0 then Err NoActiveWorld else Ok pointer.

(** The loop from the [i]-th link on: the pointers it read. *)
Fixpoint resolve_links (i : nat) (pointer_base : N) (offsets : list N) :
    result (list N) LocalPositionTerminalReason :=
  match offsets with
  | [] => Ok []
  | offset :: offsets =>
      let? pointer_slot := checked_add pointer_base offset in
      let? pointer := read_pointer i pointer_slot in
      let? pointers := resolve_links (S i) pointer offsets in
      Ok (pointer :: pointers)
  end.

Record ResolvedPointerChain := mkChain { pointers : list N; camera_address : N }.

Definition resolve_pointer_chain (i : nat) (root_slot : N) :
    result ResolvedPointerChain LocalPositionTerminalReason :=
  let? pointers := resolve_links i root_slot POINTER_READ_OFFSETS in
  let? camera_address := checked_add (List.last pointers root_slot) CAMERA_OFFSET in
  Ok (mkChain pointers camera_address).

Fixpoint verify_links (i : nat) (pointer_base : N) (offsets expected : list N) :
    result N LocalPositionTerminalReason :=
  match offsets, expected with
  | offset :: offsets, pointer :: expected =>
      let? pointer_slot := checked_add pointer_base offset in
      let? observed := read_pointer i pointer_slot in
      if negb (observed =? pointer) then Err UnstablePointerChain
      else verify_links (S i) pointer offsets expected
  | _, _ => Ok pointer_base
  end.

Definition verify_pointer_chain (i : nat) (root_slot : N) (expected : ResolvedPointerChain) :
    result unit LocalPositionTerminalReason :=
  let? pointer_base := verify_links i root_slot POINTER_READ_OFFSETS (pointers expected) in
  let? address := checked_add pointer_base CAMERA_OFFSET in
  if negb (address =? camera_address expected) then Err UnstablePointerChain else Ok tt.
End Session.

(** [f64::from_bits]; every NaN is the one of the model. *)
Definition f64_from_bits (bits : N) : f64 :=
  let sign := N.testbit bits 63 in
  let exponent := N.land (N.shiftr bits 52) 0x7ff in
  let fraction := N.land bits 0xfffffffffffff in
  if exponent =? 0x7ff then if fraction =? 0 then S754_infinity sign else S754_nan
  else if exponent =? 0 then
    match fraction with 0 => S754_zero sign | Npos m => S754_finite sign m (-1074) end
  else
    match fraction + 2 ^ 52 with
    | 0 => S754_zero sign
    | Npos m => S754_finite sign m (Z.of_N exponent - 1075)
    end.

Definition read_f64 (bs : bytes) (offset : nat) : f64 :=
  f64_from_bits (le_value (take 8 (drop offset bs))).

Record LocalPositionObservation := mkObservation {
  obs_x : f64;
  obs_y : f64;
  obs_z : f64;
  obs_yaw_degrees : f64;
}.

Definition decode_camera_block (camera : bytes) :
    result (option LocalPositionObservation) LocalPositionTerminalReason :=
  let x := read_f64 camera 0 in
  let y := read_f64 camera 8 in
  let z := read_f64 camera 16 in
  let yaw_degrees := read_f64 camera 32 in
  if negb (is_finite x) || negb (is_finite y) || negb (is_finite z) || negb (is_finite yaw_degrees)
     || flt MAX_ABSOLUTE_WORLD_COORDINATE (fabs x) || flt MAX_ABSOLUTE_WORLD_COORDINATE (fabs y)
     || flt MAX_ABSOLUTE_WORLD_COORDINATE (fabs z)
     || negb (in_range MIN_PLAUSIBLE_YAW MAX_PLAUSIBLE_YAW yaw_degrees)
  then Err InvalidPosition
  else if feq x f64_zero && feq y f64_zero && feq z f64_zero && feq yaw_degrees f64_zero then Ok None
  else Ok (Some (mkObservation x y z yaw_degrees)).

Definition read_stable_position_in_session (session : ReadSession) (identity : LocalProcessIdentity) :
    result (option LocalPositionObservation) LocalPositionTerminalReason :=
  let? root_slot := checked_add (module_base identity) ROOT_RVA in
  let? chain_before := resolve_pointer_chain session 0 root_slot in
  let? _ := ok_or (Prelude.checked_add (camera_address chain_before) CAMERA_BLOCK_BYTES) InvalidPointer in
  let? camera := ok_or (session 7%nat (camera_address chain_before) CAMERA_BLOCK_BYTES) ReadFailed in
  let? _ := verify_pointer_chain session 8 root_slot chain_before in
  decode_camera_block camera.

(** What the process answers during one sample: its identity before and after, and the
    session in between. [None] is an error of the reader. *)
Record Reading := mkReading {
  identity_before : option LocalProcessIdentity;
  read_session : option ReadSession;
  identity_after : option LocalProcessIdentity;
}.

Definition read_stable_position (self : Pump) (r : Reading) :
    result (option LocalPositionObservation) LocalPositionTerminalReason :=
  if negb (reader self) then Err ReadFailed
  else
    let? before := ok_or (identity_before r) ReadFailed in
    if negb (bool_decide (before = bound_process self)) || negb (is_ok (validate_exact_process before))
    then Err IdentityMismatch
    else
      let? session := ok_or (read_session r) ReadFailed in
      let observation := read_stable_position_in_session session before in
      let? after := ok_or (identity_after r) ReadFailed in
      if negb (bool_decide (after = before)) || negb (is_ok (validate_exact_process after))
      then Err IdentityMismatch
      else
        match observation with
        | Ok observation => Ok observation
        | Err NoActiveWorld => Ok None
        | Err reason => Err reason
        end.

(** ** The pump *)

Fixpoint xor_bytes (a b : bytes) : bytes :=
  match a, b with
  | x :: a, y :: b => byte_of (N.lxor (Byte.to_N x) (Byte.to_N y)) :: xor_bytes a b
  | _, _ => []
  end.

Definition derive_connection_boot_id (base : bytes) (generation : N) : bytes :=
  take 24 base ++ xor_bytes (drop 24 base) (le_bytes 8 generation).

(** The pump and the inbox it shares with the source it returns. *)
Definition pump_new (identity : option LocalProcessIdentity)
    (source_identity : LocalPositionSourceIdentity) :
    result (Pump * Inbox) LocalPositionSourceError :=
  let? bound_process := ok_or identity ExactBuildMismatch in
  let? _ := validate_exact_process bound_process in
  let generation := si_starting_generation source_identity in
  let? inbox := map_err (λ _, InvalidSourceIdentity)
                  (server_agent_channel (si_world_alias source_identity) (si_subject_id source_identity)) in
  let '(outcome, inbox) := connect inbox generation in
  if negb (bool_decide (outcome = CtAccepted)) then Err SourceHandoffRejected
  else
    Ok (mkPump true bound_process source_identity (si_boot_id source_identity) generation 0 None None
          PhaseActive None false, inbox).

Definition pump_disconnect (self : Pump) (inbox : Inbox) (reason : LocalPositionTerminalReason) :
    LocalPositionStep * Pump * Inbox :=
  let '(self, inbox) :=
    if bool_decide (phase self = PhaseDisconnected) then (self, inbox)
    else
      (self <| reader := false |> <| phase := PhaseDisconnected |> <| terminal_reason := Some reason |>,
       (disconnect inbox (pump_generation self)).2) in
  (StepDisconnected (pump_generation self) reason, self, inbox).

Definition pump_publish (self : Pump) (inbox : Inbox) (now_monotonic_ms : N)
    (observation : LocalPositionObservation) : LocalPositionStep * Pump * Inbox :=
  match Prelude.checked_add (pump_sequence self) 1 with
  | None => pump_disconnect self inbox SequenceOverflow
  | Some sequence =>
      let frame := mkFrame (si_world_alias (source_identity self)) (si_subject_id (source_identity self))
                     (pump_boot_id self) (pump_generation self) sequence (obs_x observation)
                     (obs_y observation) (obs_z observation)
                     (Some (f32_from_f64 (obs_yaw_degrees observation))) 0 in
      match publish_position inbox frame now_monotonic_ms with
      | (Ok Accepted, inbox) =>
          (StepPublished (pump_generation self) sequence,
           self <| world_available := true |> <| pump_sequence := sequence |>
                <| next_sample_at_ms := Some (saturating_add now_monotonic_ms SAMPLE_INTERVAL_MS) |>,
           inbox)
      | (_, inbox) => pump_disconnect self inbox HandoffRejected
      end
  end.

Definition pump_step (self : Pump) (inbox : Inbox) (r : Reading) (now_monotonic_ms : N) :
    LocalPositionStep * Pump * Inbox :=
  match phase self with
  | ClockInvalidPendingDisconnect => pump_disconnect self inbox TerminalMonotonicRegression
  | PhaseDisconnected => (StepIdle, self, inbox)
  | PhaseActive =>
      if is_some_and (last_step_at_ms self) (λ last, now_monotonic_ms <? last) then
        (StepClockInvalid (pump_generation self),
         self <| phase := ClockInvalidPendingDisconnect |>
              <| terminal_reason := Some TerminalMonotonicRegression |>,
         (clock_invalid inbox (pump_generation self) MonotonicRegression).2)
      else
        let self := self <| last_step_at_ms := Some now_monotonic_ms |> in
        if is_some_and (next_sample_at_ms self) (λ due, now_monotonic_ms <? due)
        then (StepIdle, self, inbox)
        else
          match read_stable_position self r with
          | Ok (Some observation) => pump_publish self inbox now_monotonic_ms observation
          | Ok None =>
              let self :=
                self <| next_sample_at_ms := Some (saturating_add now_monotonic_ms SAMPLE_INTERVAL_MS) |> in
              if world_available self then
                let self := self <| world_available := false |> in
                match unavailable inbox (pump_generation self) with
                | (CtAccepted, inbox) => (StepUnavailable (pump_generation self), self, inbox)
                | (_, inbox) => pump_disconnect self inbox HandoffRejected
                end
              else (StepIdle, self, inbox)
          | Err reason => pump_disconnect self inbox reason
          end
  end.

Definition reconnect (self : Pump) (inbox : Inbox) (identity : option LocalProcessIdentity)
    (now_monotonic_ms : N) : result unit LocalPositionSourceError * Pump * Inbox :=
  if negb (bool_decide (phase self = PhaseDisconnected)) then (Err StillActive, self, inbox)
  else
    match ok_or identity ExactBuildMismatch with
    | Err e => (Err e, self, inbox)
    | Ok identity =>
        match validate_exact_process identity with
        | Err e => (Err e, self, inbox)
        | Ok _ =>
            match Prelude.checked_add (pump_generation self) 1 with
            | None => (Err GenerationOverflow, self, inbox)
            | Some generation =>
                let '(outcome, inbox) := connect inbox generation in
                if negb (bool_decide (outcome = CtAccepted))
                then (Err SourceHandoffRejected, self, inbox)
                else
                  (Ok tt,
                   self <| reader := true |> <| bound_process := identity |>
                        <| pump_generation := generation |>
                        <| pump_boot_id :=
                             derive_connection_boot_id (si_boot_id (source_identity self)) generation |>
                        <| next_sample_at_ms := Some now_monotonic_ms |>
                        <| last_step_at_ms := Some now_monotonic_ms |>
                        <| phase := PhaseActive |> <| terminal_reason := None |>
                        <| world_available := false |>,
                   inbox)
            end
        end
    end.

(** [drop]: a pump that is not disconnected disconnects its sender. *)
Definition pump_drop (self : Pump) (inbox : Inbox) : Inbox :=
  if bool_decide (phase self = PhaseDisconnected) then inbox
  else (disconnect inbox (pump_generation self)).2.

(** ** What a sample proves *)

(** The links of the chain as one traversal saw them, starting with the [i]-th read. *)
Fixpoint chain_read (session : ReadSession) (i : nat) (base : N) (offsets pointers : list N) : Prop :=
  match offsets, pointers with
  | [], [] => True
  | offset :: offsets, pointer :: pointers =>
      base + offset ≤ u64_max ∧
      (∃ bs, session i (base + offset) 8 = Some bs ∧ le_value bs = pointer) ∧ pointer ≠ 0 ∧
      chain_read session (S i) pointer offsets pointers
  | _, _ => False
  end.

Lemma checked_add_ok base offset a :
  checked_add base offset = Ok a ↔ a = base + offset ∧ base + offset ≤ u64_max ∧ a ≠ 0.
Proof.
  unfold checked_add, Prelude.checked_add. destruct (N.leb_spec (base + offset) u64_max); cbn [ok_or and_then].
  - destruct (N.eqb_spec (base + offset) 0); split; naive_solver lia.
  - split; [done|lia].
Qed.

Lemma read_pointer_ok session i a p :
  read_pointer session i a = Ok p → (∃ bs, session i a 8 = Some bs ∧ le_value bs = p) ∧ p ≠ 0.
Proof.
  unfold read_pointer. step_if; [done|]. rewrite and_then_ok. intros (bs & Hbs%ok_or_ok & Hk).
  destruct (N.eqb_spec (le_value bs) 0); [done|]. injection Hk as <-. eauto.
Qed.

Lemma resolve_links_ok session i base offsets ps :
  resolve_links session i base offsets = Ok ps → chain_read session i base offsets ps.
Proof.
  revert i base ps. induction offsets as [|o offsets IH]; intros i base ps; cbn [resolve_links].
  { by intros [= <-]. }
  rewrite and_then_ok. intros (a & (-> & ? & _)%checked_add_ok & Hk).
  apply and_then_ok in Hk as (p & [? ?]%read_pointer_ok & Hk).
  apply and_then_ok in Hk as (ps' & Hps & Hk). injection Hk as <-. cbn. auto.
Qed.

Lemma verify_links_ok session i base offsets ps last :
  length ps = length offsets → verify_links session i base offsets ps = Ok last →
  chain_read session i base offsets ps ∧ last = List.last ps base.
Proof.
  revert i base ps. induction offsets as [|o offsets IH]; intros i base [|p ps] Hl; try done; cbn [verify_links].
  { by intros [= <-]. }
  rewrite and_then_ok. intros (a & (-> & ? & _)%checked_add_ok & Hk).
  apply and_then_ok in Hk as (q & [? ?]%read_pointer_ok & Hk).
  destruct (N.eqb_spec q p) as [->|]; [|done]. cbn [negb] in Hk. injection Hl as Hl.
  apply IH in Hk as [Hc ->]; [|done]. cbn [chain_read]. split; [auto|].
  destruct ps as [|p' ps]; [done|]. simpl. clear. revert p'. induction ps as [|p'' ps IHl]; intros p'; [done|].
  simpl. apply IHl.
Qed.

Lemma chain_read_length session i base offsets ps :
  chain_read session i base offsets ps → length ps = length offsets.
Proof.
  revert i base ps. induction offsets as [|o offsets IH]; intros i base [|p ps]; cbn; try done.
  intros (_ & _ & _ & H). f_equal. eauto.
Qed.

Lemma f64_from_bits_ok bits : f64_ok (f64_from_bits bits) = true.
Proof.
  unfold f64_from_bits. set (exponent := N.land (N.shiftr bits 52) 0x7ff).
  set (fraction := N.land bits 0xfffffffffffff).
  assert (exponent < 2 ^ 11) as He.
  { unfold exponent. change 0x7ff with (N.ones 11). rewrite N.land_ones. by apply N.mod_lt. }
  assert (fraction < 2 ^ 52) as Hf.
  { unfold fraction. change 0xfffffffffffff with (N.ones 52). rewrite N.land_ones. by apply N.mod_lt. }
  clearbody exponent fraction. destruct (N.eqb_spec exponent 0x7ff); [by step_if|].
  destruct (N.eqb_spec exponent 0).
  - destruct fraction as [|m]; [done|]. apply f64_ok_finite. lia.
  - destruct (fraction + 2 ^ 52) as [|m] eqn:Hm; [done|]. apply f64_ok_finite. lia.
Qed.

(** A position that the world can hold. *)
Record observation_ok (o : LocalPositionObservation) : Prop := {
  ob_data : Forall data [obs_x o; obs_y o; obs_z o; obs_yaw_degrees o];
  ob_bounds : Forall (λ v, fle (fabs v) MAX_ABSOLUTE_WORLD_COORDINATE = true) [obs_x o; obs_y o; obs_z o];
  ob_yaw : in_range MIN_PLAUSIBLE_YAW MAX_PLAUSIBLE_YAW (obs_yaw_degrees o) = true;
}.

Lemma decode_camera_ok camera o :
  decode_camera_block camera = Ok (Some o) →
  o = mkObservation (read_f64 camera 0) (read_f64 camera 8) (read_f64 camera 16) (read_f64 camera 32) ∧
  observation_ok o.
Proof.
  unfold decode_camera_block. step_if; [done|]. step_if; [done|]. intros [= <-]. split; [done|].
  reflect_bool.
  repeat match goal with H : negb _ = false |- _ => apply negb_false_iff in H end.
  assert (is_nan MAX_ABSOLUTE_WORLD_COORDINATE = false) as Hn by done.
  split; cbn [obs_x obs_y obs_z obs_yaw_degrees]; rewrite ?Forall_cons; [|  |done].
  { split_and!; try (split; [apply f64_from_bits_ok|done]); done. }
  assert (∀ v, is_finite v = true → flt MAX_ABSOLUTE_WORLD_COORDINATE (fabs v) = false →
    fle (fabs v) MAX_ABSOLUTE_WORLD_COORDINATE = true) as Hle.
  { intros v Hv Hlt. apply flt_false_fle; [|done..]. by destruct v. }
  split_and!; eauto.
Qed.

(** ** The heading narrows to a finite [f32] *)

Section Narrowing.
Local Open Scope Z_scope.
Context (prec emax : Z) (prec_pos : 0 < prec) (range : emin prec emax < emax - prec).

Lemma shr_fexp_aligned M e l :
  0 ≤ M → e ≤ fexp prec emax (Zdigits2 M + e) →
  ∃ r, shr_fexp prec emax M e l = (r, fexp prec emax (Zdigits2 M + e)) ∧
    shr_m r = M / 2 ^ (fexp prec emax (Zdigits2 M + e) - e).
Proof.
  intros HM He. unfold shr_fexp. set (f := fexp prec emax _) in *.
  destruct (f - e) as [|p|p] eqn:Hn; [| |lia]; cbn [shr]; eexists.
  - split; [f_equal; lia|]. by rewrite shr_m_record, Z.div_1_r.
  - split; [f_equal; lia|]. rewrite iter_shr_1_m; by rewrite shr_m_record.
Qed.

Lemma shr_fexp_finite M e l :
  0 ≤ M → Zdigits2 M + e ≤ emax → e ≤ emax - prec →
  ∃ r e', shr_fexp prec emax M e l = (r, e') ∧ 0 ≤ shr_m r ∧ e' ≤ emax - prec.
Proof.
  intros HM HD He. destruct (Z.le_gt_cases e (fexp prec emax (Zdigits2 M + e))) as [Hle|Hgt].
  - destruct (shr_fexp_aligned M e l HM Hle) as (r & -> & Hr). eexists _, _. split; [done|].
    rewrite Hr. split; [by apply Z.div_pos; [|apply Z.pow_pos_nonneg; lia]|]. unfold fexp. lia.
  - unfold shr_fexp. destruct (fexp prec emax (Zdigits2 M + e) - e) eqn:Hn; [lia|lia|].
    cbn [shr]. eexists _, _. by rewrite shr_m_record.
Qed.

Lemma round_aux_finite s M e :
  0 ≤ M → Zdigits2 M + e < emax → e ≤ fexp prec emax (Zdigits2 M + e) →
  is_finite (binary_round_aux prec emax s M e loc_Exact) = true.
Proof.
  intros HM HD He. unfold binary_round_aux.
  destruct (shr_fexp_aligned M e loc_Exact HM He) as (r & -> & Hr).
  set (f := fexp prec emax (Zdigits2 M + e)) in *.
  assert (f < emax - prec) as Hf by (unfold f, fexp; lia).
  set (R := round_nearest_even (shr_m r) _).
  assert (R = shr_m r ∨ R = shr_m r + 1) as HR by apply round_nearest_even_cases.
  set (k := Z.max (Zdigits2 M + e - f) 0).
  assert (0 ≤ shr_m r < 2 ^ k) as Hq.
  { rewrite Hr. split; [apply Z.div_pos; [done|apply Z.pow_pos_nonneg; lia]|].
    apply Z.div_lt_upper_bound; [apply Z.pow_pos_nonneg; lia|]. rewrite <- Z.pow_add_r by lia.
    destruct (decide (M = 0)) as [->|]; [apply Z.pow_pos_nonneg; lia|].
    eapply Z.lt_le_trans; [apply (Zdigits2_bounds M); lia|].
    apply Z.pow_le_mono_r; lia. }
  assert (Zdigits2 R ≤ k + 1) as Hd.
  { apply Zdigits2_le; [lia|]. rewrite Z.add_1_r, Z.pow_succ_r by lia. lia. }
  assert (k ≤ prec) as Hk by (unfold k, f, fexp; lia).
  destruct (shr_fexp_finite R f loc_Exact) as (r' & e' & -> & Hr' & He'); [lia..|].
  destruct (shr_m r') as [|m|m]; [done| |lia].
  by destruct (Z.leb_spec e' (emax - prec)); [|lia].
Qed.

Lemma convert_finite x :
  match x with
  | S754_finite _ m e => Zpos (digits2_pos m) + e < emax
  | S754_zero _ => True
  | _ => False
  end → is_finite (convert prec emax x) = true.
Proof.
  destruct x as [s| | |s m e]; try done. intros HD. unfold convert.
  assert (is_finite (binary_round prec emax s m e) = true); [|by destruct s].
  unfold binary_round. set (f := fexp prec emax (Zpos (digits2_pos m) + e)) in *.
  destruct (Z.le_gt_cases f e) as [Hle|Hgt].
  - pose proof (shl_align_value m e f Hle) as Hv. pose proof (snd_shl_align m e f Hle) as Hs.
    destruct (shl_align m e f) as [mz ez]. cbn [fst snd] in Hv, Hs. subst ez.
    assert (Zpos (digits2_pos mz) = Zpos (digits2_pos m) + (e - f)) as Hd.
    { pose proof (digits2_pos_bounds m) as [Hlo Hhi]. apply digits2_pos_unique; [lia|]. rewrite Hv.
      pose proof (Z.pow_pos_nonneg 2 (e - f) ltac:(lia) ltac:(lia)).
      replace (Zpos (digits2_pos m) + (e - f) - 1) with ((Zpos (digits2_pos m) - 1) + (e - f)) by lia.
      rewrite !Z.pow_add_r by lia. nia. }
    assert (Zpos (digits2_pos m) + (e - f) + f = Zpos (digits2_pos m) + e) as Hsum by lia.
    apply round_aux_finite; cbn [Zdigits2]; rewrite ?Hd, ?Hsum; [lia..|done].
  - unfold shl_align. destruct (f - e) eqn:Hd; [lia| |lia].
    apply round_aux_finite; cbn [Zdigits2]; [lia|done|]. fold f. lia.
Qed.
End Narrowing.

(** A plausible yaw narrows to a finite heading. *)
Lemma yaw_narrows v :
  f64_ok v = true → in_range MIN_PLAUSIBLE_YAW MAX_PLAUSIBLE_YAW v = true →
  is_finite (f32_from_f64 v) = true.
Proof.
  intros Hok Hr. unfold f32_from_f64. apply convert_finite; [done|done|].
  assert (f64_ok MAX_PLAUSIBLE_YAW = true ∧ f64_ok MIN_PLAUSIBLE_YAW = true) as [O1 O2] by done.
  assert (is_finite v = true) as Hfin by (by apply (in_range_finite MIN_PLAUSIBLE_YAW MAX_PLAUSIBLE_YAW)).
  unfold in_range in Hr. apply andb_true_iff in Hr as [Hlo Hhi].
  destruct (f64_of_N_data 360 ltac:(done)) as [D360 V360].
  apply (fle_val v MAX_PLAUSIBLE_YAW (conj Hok Hfin) D360) in Hhi.
  apply (fle_val MIN_PLAUSIBLE_YAW v (data_fneg _ D360) (conj Hok Hfin)) in Hlo.
  unfold MIN_PLAUSIBLE_YAW, MAX_PLAUSIBLE_YAW in Hlo, Hhi. rewrite val_fneg, V360 in *.
  destruct v as [| | |s m e]; try done.
  apply f64_ok_finite in Hok as (He & _). pose proof (digits2_pos_bounds m) as [Hm _].
  set (d := Zpos (digits2_pos m)) in *.
  assert (Zpos m * weight e ≤ 360 * unit_val)%Z as Hv by (destruct s; cbn [val cond_Zopp] in *; lia).
  assert (d + e ≤ 9)%Z; [|unfold emax32; lia].
  destruct (Z.le_gt_cases (d + e) 9) as [|Hgt]; [done|exfalso].
  pose proof (weight_pos e ltac:(lia)) as Hw.
  assert (weight (d - 1 + e) ≤ Zpos m * weight e)%Z as H1.
  { rewrite (Z.add_comm (d - 1)), weight_add by (unfold d; lia). apply Z.mul_le_mono_nonneg_r; lia. }
  assert (2 ^ 9 * unit_val ≤ weight (d - 1 + e))%Z as H2.
  { replace (2 ^ 9 * unit_val)%Z with (weight 9) by (vm_compute; done).
    unfold weight. apply Z.pow_le_mono_r; lia. }
  pose proof unit_val_pos. set (u := unit_val) in *. clearbody u. lia.
Qed.

(** ** Each connection has a boot of its own *)

Lemma byte_eq_to_N b c : Byte.to_N b = Byte.to_N c → b = c.
Proof. intros H. by rewrite <- (byte_of_to_N b 0), <- (byte_of_to_N c 0), H. Qed.

Lemma lxor_byte x y : x < 256 → y < 256 → N.lxor x y < 256.
Proof.
  intros Hx Hy. destruct (decide (N.lxor x y = 0)) as [->|Hn]; [done|].
  apply (N.log2_lt_pow2 _ 8); [lia|]. eapply N.le_lt_trans; [apply N.log2_lxor|].
  assert (∀ z, z < 256 → N.log2 z < 8) as Hlog.
  { intros z Hz. destruct (decide (z = 0)) as [->|]; [done|]. apply N.log2_lt_pow2; [lia|done]. }
  apply N.max_lub_lt; auto.
Qed.

Lemma to_N_byte_lt b : Byte.to_N b < 256.
Proof. pose proof (Byte.to_N_bounded b). lia. Qed.

Lemma to_N_xor b c : Byte.to_N (byte_of (N.lxor (Byte.to_N b) (Byte.to_N c))) = N.lxor (Byte.to_N b) (Byte.to_N c).
Proof. rewrite to_N_byte_of. apply N.mod_small, lxor_byte; apply to_N_byte_lt. Qed.

Lemma xor_bytes_inj a b c :
  length b = length a → length c = length a → xor_bytes a b = xor_bytes a c → b = c.
Proof.
  revert b c. induction a as [|x a IH]; intros [|y b] [|z c]; try done. cbn [xor_bytes length].
  intros [= Hb] [= Hc] [= Hx Hr]. f_equal; [|by apply IH].
  apply (f_equal Byte.to_N) in Hx. rewrite !to_N_xor in Hx. apply byte_eq_to_N.
  apply (f_equal (N.lxor (Byte.to_N x))) in Hx. rewrite <- !N.lxor_assoc, N.lxor_nilpotent in Hx. done.
Qed.

Lemma xor_bytes_zeros a : xor_bytes a (replicate (length a) Byte.x00) = a.
Proof.
  induction a as [|x a IH]; [done|]. cbn [length replicate xor_bytes]. rewrite IH. f_equal.
  apply byte_eq_to_N. rewrite to_N_xor. apply N.lxor_0_r.
Qed.

Lemma derive_inj base g g' :
  length base = 32%nat → is_u64 g → is_u64 g' →
  derive_connection_boot_id base g = derive_connection_boot_id base g' → g = g'.
Proof.
  unfold derive_connection_boot_id. intros Hl Hg Hg' H%app_inv_head.
  apply xor_bytes_inj in H; rewrite ?length_le_bytes, ?length_drop, ?Hl; try done.
  rewrite <- (le_value_bytes 8 g), <- (le_value_bytes 8 g'), H by (change (256 ^ N.of_nat 8) with (u64_max + 1); int_lia).
  done.
Qed.

Lemma derive_zero base : length base = 32%nat → derive_connection_boot_id base 0 = base.
Proof.
  intros Hl. unfold derive_connection_boot_id. change (le_bytes 8 0) with (replicate 8 Byte.x00).
  assert (length (drop 24 base) = 8%nat) as Hd by (by rewrite length_drop, Hl).
  pose proof (xor_bytes_zeros (drop 24 base)) as Hx. rewrite Hd in Hx. rewrite Hx. apply take_drop.
Qed.

(** The boot of a connection: the first one has the source's own. *)
Definition boot_of (si : LocalPositionSourceIdentity) (g : N) : bytes :=
  if g =? si_starting_generation si then si_boot_id si
  else derive_connection_boot_id (si_boot_id si) g.

Lemma boot_of_inj si g g' :
  length (si_boot_id si) = 32%nat → is_u64 g → is_u64 g' → g ≠ 0 → g' ≠ 0 →
  boot_of si g = boot_of si g' → g = g'.
Proof.
  intros Hl Hg Hg' H0 H0'.
  set (key g := if g =? si_starting_generation si then 0 else g).
  assert (∀ g, boot_of si g = derive_connection_boot_id (si_boot_id si) (key g)) as Hkey.
  { intros k. unfold boot_of, key. step_if; [by rewrite derive_zero|done]. }
  assert (∀ g, is_u64 g → is_u64 (key g)) as Hu by (intros k Hk; unfold key; step_if; [int_lia|done]).
  rewrite !Hkey. intros Heq%derive_inj; auto. unfold key in Heq.
  destruct (N.eqb_spec g (si_starting_generation si)), (N.eqb_spec g' (si_starting_generation si));
    congruence.
Qed.

(** ** What the channel does with a frame of the pump *)

(** The part of the inbox that the pump's invariant speaks of. *)
Record same_link (i i' : Inbox) : Prop := {
  sl_alias : expected_world_alias i' = expected_world_alias i;
  sl_subject : expected_subject_id i' = expected_subject_id i;
  sl_generation : generation i' = generation i;
}.

Lemma same_link_refl i : same_link i i.
Proof. done. Qed.

Lemma push_control_link i e :
  same_link i (push_control i e).1 ∧ connected (push_control i e).1 = connected i ∧
  generation_has_sample (push_control i e).1 = generation_has_sample i ∧
  active_boot_id (push_control i e).1 = active_boot_id i ∧
  last_sequence (push_control i e).1 = last_sequence i ∧
  last_received_monotonic_ms (push_control i e).1 = last_received_monotonic_ms i ∧
  pending_sample (push_control i e).1 = pending_sample i ∧
  retired_boots (push_control i e).1 = retired_boots i.
Proof. unfold push_control. by destruct (push _ _). Qed.

Lemma accept_frame_fields i frame now sample :
  let i' := accept_frame i frame now sample in
  same_link i i' ∧ connected i' = connected i ∧ generation_has_sample i' = true ∧
  active_boot_id i' = Some (unwrap_or (active_boot_id i) (fr_agent_boot_id frame)) ∧
  last_sequence i' = Some (fr_sequence frame) ∧ last_received_monotonic_ms i' = Some now ∧
  pending_sample i' = Some (Sample sample).
Proof.
  cbv zeta. unfold accept_frame. destruct i as [? ? ? ? ? active ? ? ? ? pending ?].
  by destruct (saturating_add _ 1 <? _), pending, active.
Qed.

(** A frame of the current connection that follows everything received is accepted. *)
Lemma publish_in_boot_accepts i frame now :
  (∀ q, last_sequence i = Some q → q < fr_sequence frame) →
  (∀ t, last_received_monotonic_ms i = Some t → t ≤ now) →
  PositionSample.acceptable (fr_world_alias frame) (fr_subject_id frame) (fr_agent_boot_id frame)
    (fr_x frame) (fr_y frame) (fr_z frame) (fr_heading_degrees frame) →
  publish_in_boot i frame now =
  (Ok Accepted, accept_frame i frame now
     (PositionSample.mk (fr_world_alias frame) (fr_subject_id frame) (fr_agent_boot_id frame)
        (fr_generation frame) (fr_sequence frame) (fr_x frame) (fr_y frame) (fr_z frame)
        (PositionSample.normalize_heading <$> fr_heading_degrees frame)
        (SampleClock.received_with_age (fr_age_upper_bound_ms frame) now))).
Proof.
  intros Hq Ht Hok. unfold publish_in_boot, sequence_drop.
  assert (is_some_and (last_received_monotonic_ms i) (λ last, now <? last) = false) as Hclock.
  { destruct (last_received_monotonic_ms i) as [t|]; [|done]. simpl. specialize (Ht t eq_refl).
    destruct (N.ltb_spec now t); [lia|done]. }
  destruct (last_sequence i) as [q|].
  - specialize (Hq q eq_refl). destruct (N.eqb_spec (fr_sequence frame) q); [lia|].
    destruct (N.ltb_spec (fr_sequence frame) q); [lia|]. rewrite Hclock.
    by rewrite (proj2 (PositionSample.sample_new_ok _ _ _ _ _ _ _ _ _ _ _) (conj Hok eq_refl)).
  - rewrite Hclock.
    by rewrite (proj2 (PositionSample.sample_new_ok _ _ _ _ _ _ _ _ _ _ _) (conj Hok eq_refl)).
Qed.

(** ** The invariant of the pump and its channel *)

Record pump_inv (si : LocalPositionSourceIdentity) (p : Pump) (i : Inbox) : Prop := {
  pi_identity : source_identity p = si;
  pi_alias : expected_world_alias i = si_world_alias si;
  pi_subject : expected_subject_id i = si_subject_id si;
  pi_generation : generation i = pump_generation p;
  pi_range : is_u64 (pump_generation p) ∧ pump_generation p ≠ 0;
  pi_start : si_starting_generation si ≤ pump_generation p;
  pi_active : phase p = PhaseActive →
    connected i = true ∧ reader p = true ∧ pump_boot_id p = boot_of si (pump_generation p);
  pi_idle : phase p = PhaseDisconnected → connected i = false ∧ reader p = false;
  pi_quiet : connected i = false → pending_sample i = None;
  pi_boot : ∀ b, active_boot_id i = Some b →
    ∃ g, is_u64 g ∧ g ≠ 0 ∧ g ≤ pump_generation p ∧ b = boot_of si g ∧
      (g ≠ pump_generation p → generation_has_sample i = false);
  pi_no_boot : active_boot_id i = None → last_received_monotonic_ms i = None;
  pi_sequence : ∀ q, last_sequence i = Some q → q ≤ pump_sequence p;
  pi_received : phase p = PhaseActive → active_boot_id i = Some (boot_of si (pump_generation p)) →
    ∀ t, last_received_monotonic_ms i = Some t → ∃ t', last_step_at_ms p = Some t' ∧ t ≤ t';
}.

(** The constants of a source the pump accepts. *)
Record source_ok (si : LocalPositionSourceIdentity) : Prop := {
  so_alias : si_world_alias si ≠ EmptyString;
  so_subject : si_subject_id si ≠ [];
  so_boot : length (si_boot_id si) = 32%nat;
}.

Lemma boot_of_nonempty si g : source_ok si → boot_of si g ≠ [].
Proof.
  intros [_ _ Hb] Hn. apply (f_equal length) in Hn. revert Hn. unfold boot_of.
  step_if; [by rewrite Hb|]. unfold derive_connection_boot_id.
  rewrite length_app, length_take, Hb. done.
Qed.

Lemma frame_acceptable si g o :
  source_ok si → observation_ok o →
  PositionSample.acceptable (si_world_alias si) (si_subject_id si) (boot_of si g) (obs_x o) (obs_y o)
    (obs_z o) (Some (f32_from_f64 (obs_yaw_degrees o))).
Proof.
  intros Hs [Hf _ Hy]. rewrite !Forall_cons in Hf. destruct Hf as ([] & [] & [] & [] & _).
  split_and!; try done; [apply Hs|apply Hs|by apply boot_of_nonempty|].
  intros h [= <-]. by apply yaw_narrows.
Qed.

Lemma pump_inv_diagnostics si p i f : pump_inv si p i → pump_inv si p (i <| diagnostics ::= f |>).
Proof. intros []. by constructor. Qed.

(** What a control operation leaves of the inbox. *)
Record same_boot (i i' : Inbox) : Prop := {
  sb_link : same_link i i';
  sb_sample : generation_has_sample i = false → generation_has_sample i' = false;
  sb_active : active_boot_id i' = active_boot_id i;
  sb_sequence : last_sequence i' = last_sequence i;
  sb_received : last_received_monotonic_ms i' = last_received_monotonic_ms i;
}.

Lemma disconnect_current i :
  generation i ≠ 0 → (connected i = false → pending_sample i = None) →
  let i' := (disconnect i (generation i)).2 in
  same_boot i i' ∧ connected i' = false ∧ pending_sample i' = None.
Proof.
  intros H0 Hp. cbv zeta. unfold disconnect. rewrite N.ltb_irrefl, N.eqb_refl.
  apply N.eqb_neq in H0. rewrite H0. cbn [orb negb].
  destruct (connected i) eqn:Hc; cbn [negb]; [|by split; [|auto]].
  match goal with |- context [push_control ?j ?e] =>
    pose proof (push_control_link j e) as (Hl & E1 & E2 & E3 & E4 & E5 & E6 & _);
    destruct (push_control j e) as [i' queued] end.
  cbn [fst] in *. destruct Hl, queued; cbn [negb snd]; split_and!; try done; by constructor.
Qed.

Lemma clock_invalid_current i reason :
  generation i ≠ 0 → (connected i = false → pending_sample i = None) →
  let i' := (clock_invalid i (generation i) reason).2 in
  same_boot i i' ∧ pending_sample i' = None.
Proof.
  intros H0 Hp. cbv zeta. unfold clock_invalid. rewrite N.ltb_irrefl, N.eqb_refl.
  apply N.eqb_neq in H0. rewrite H0. cbn [orb negb].
  destruct (connected i) eqn:Hc; cbn [negb]; [|by split; [|auto]].
  unfold queue_clock_invalid. destruct (has_clock_invalid _ _); [by split|].
  match goal with |- context [push_control ?j ?e] =>
    pose proof (push_control_link j e) as (Hl & E1 & E2 & E3 & E4 & E5 & E6 & _);
    destruct (push_control j e) as [i' queued] end.
  cbn [fst] in *. destruct Hl, queued; cbn [negb snd]; split_and!; try done;
    (constructor; cbn in *; [by constructor|intros; congruence..]).
Qed.

(** The invariant once the pump is no longer active. *)
Lemma pump_inv_retire si p i p' i' :
  pump_inv si p i → same_boot i i' → pending_sample i' = None →
  source_identity p' = source_identity p → pump_generation p' = pump_generation p →
  pump_sequence p' = pump_sequence p →
  phase p' ≠ PhaseActive → (phase p' = PhaseDisconnected → connected i' = false ∧ reader p' = false) →
  pump_inv si p' i'.
Proof.
  intros [] [[La Ls Lg] Hh Ha Hq Ht] Hp Es Eg Eq Hphase Hidle.
  constructor; rewrite ?La, ?Ls, ?Lg, ?Ha, ?Hq, ?Ht, ?Es, ?Eg, ?Eq; try done.
  intros b Hb. destruct (pi_boot0 b Hb) as (g & ? & ? & ? & ? & Hg). exists g. split_and!; auto.
Qed.

Lemma pump_disconnect_inv si p i reason :
  pump_inv si p i →
  let '(step, p', i') := pump_disconnect p i reason in
  pump_inv si p' i' ∧ step = StepDisconnected (pump_generation p) reason ∧ phase p' = PhaseDisconnected ∧
  connected i' = false.
Proof.
  intros Hi. unfold pump_disconnect. destruct (bool_decide_reflect (phase p = PhaseDisconnected)) as [Hd|Hd].
  - split_and!; try done. by apply (pi_idle _ _ _ Hi).
  - pose proof (pi_range _ _ _ Hi) as [_ H0]. rewrite <- (pi_generation _ _ _ Hi) in *.
    destruct (disconnect_current i H0 (pi_quiet _ _ _ Hi)) as (Hb & Hc & Hp).
    split_and!; try done; [by apply (pump_inv_retire si p i)|].
    cbn. by rewrite (pi_generation _ _ _ Hi).
Qed.

(** ** Publishing *)

(** The inbox holds a sample of the observation, of the current boot and generation. *)
Definition delivers (p : Pump) (o : LocalPositionObservation) (i : Inbox) : Prop :=
  ∃ s, pending_sample i = Some (Sample s) ∧
    PositionSample.x s = obs_x o ∧ PositionSample.y s = obs_y o ∧ PositionSample.z s = obs_z o ∧
    PositionSample.heading_degrees s =
      Some (PositionSample.normalize_heading (f32_from_f64 (obs_yaw_degrees o))) ∧
    PositionSample.agent_boot_id s = pump_boot_id p ∧
    PositionSample.source_connection_generation s = pump_generation p ∧
    PositionSample.sequence s = pump_sequence p + 1.

(** The channel answers a frame of an active pump in one of two ways. *)
Lemma publish_position_pump si p i now o :
  source_ok si → pump_inv si p i → phase p = PhaseActive → last_step_at_ms p = Some now →
  observation_ok o →
  let frame := mkFrame (si_world_alias si) (si_subject_id si) (pump_boot_id p) (pump_generation p)
                 (pump_sequence p + 1) (obs_x o) (obs_y o) (obs_z o)
                 (Some (f32_from_f64 (obs_yaw_degrees o))) 0 in
  if filter_contains (retired_boots i) (pump_boot_id p) then
    publish_position i frame now =
      (Ok RetiredBootDropped, i <| diagnostics ::= λ d, d <| retired_boot_drops ::= increment |> |>)
  else ∃ i', publish_position i frame now = (Ok Accepted, i') ∧ delivers p o i' ∧ same_link i i' ∧
    connected i' = true ∧ active_boot_id i' = Some (pump_boot_id p) ∧
    last_sequence i' = Some (pump_sequence p + 1) ∧ last_received_monotonic_ms i' = Some now.
Proof.
  intros Hs Hi Ha Hnow Ho frame.
  pose proof (pi_active _ _ _ Hi Ha) as (Hc & _ & Hboot). pose proof (pi_range _ _ _ Hi) as [Hu H0].
  unfold publish_position.
  rewrite (pi_alias _ _ _ Hi), (pi_subject _ _ _ Hi), (pi_generation _ _ _ Hi), Hc. unfold frame.
  cbn [fr_world_alias fr_subject_id fr_agent_boot_id fr_generation fr_sequence].
  rewrite !bool_decide_true, N.ltb_irrefl, N.eqb_refl by done.
  apply N.eqb_neq in H0 as H0'. rewrite H0'.
  destruct (N.eqb_spec (pump_sequence p + 1) 0); [lia|]. cbn [negb orb].
  destruct (filter_contains _ _); [done|].
  pose proof (frame_acceptable si (pump_generation p) o Hs Ho) as Hok. rewrite <- Hboot in Hok.
  assert (∀ j, same_link i j → connected j = true →
    (active_boot_id j = None ∨ active_boot_id j = Some (pump_boot_id p)) →
    (∀ q, last_sequence j = Some q → q ≤ pump_sequence p) →
    (∀ t, last_received_monotonic_ms j = Some t → t ≤ now) →
    ∃ i', publish_in_boot j frame now = (Ok Accepted, i') ∧ delivers p o i' ∧ same_link i i' ∧
      connected i' = true ∧ active_boot_id i' = Some (pump_boot_id p) ∧
      last_sequence i' = Some (pump_sequence p + 1) ∧ last_received_monotonic_ms i' = Some now) as Hacc.
  { intros j Hl Hcj Haj Hq Ht. rewrite publish_in_boot_accepts; [|intros q Hqj; specialize (Hq q Hqj); cbn; lia|done|done].
    eexists. split; [done|].
    match goal with |- context [accept_frame j ?f ?t ?s] =>
      destruct (accept_frame_fields j f t s) as (Hl' & E1 & E2 & E3 & E4 & E5 & E6);
      set (i' := accept_frame j f t s) in * end.
    clearbody i'. rewrite E1, E3, E4, E5. split_and!; try done.
    - by eexists.
    - destruct Hl as [La Ls Lg], Hl' as [La' Ls' Lg']. constructor; congruence.
    - by destruct Haj as [->| ->]. }
  destruct (active_boot_id i) as [b|] eqn:Hb; cbn [is_some_and].
  - destruct (bool_decide_reflect (b = pump_boot_id p)) as [->|Hne]; cbn [negb].
    + apply Hacc; [done|done|by right|apply Hi|]. intros t Ht.
      rewrite Hboot in Hb. destruct (pi_received _ _ _ Hi Ha Hb t Ht) as (t' & Ht' & Hle).
      congruence.
    + destruct (pi_boot _ _ _ Hi b Hb) as (g & Hg & Hg0 & Hle & -> & Hsample).
      rewrite Hsample; [|congruence]. unfold retire_active_boot. rewrite Hb.
      apply Hacc; try done; by left.
  - apply Hacc; [done|done|by left|apply Hi|]. intros t Ht.
    by rewrite (pi_no_boot _ _ _ Hi Hb) in Ht.
Qed.

Lemma pump_publish_spec si p i now o :
  source_ok si → pump_inv si p i → phase p = PhaseActive → last_step_at_ms p = Some now →
  observation_ok o → 
  let '(step, p', i') := pump_publish p i now o in
  pump_inv si p' i' ∧
  if u64_max <=? pump_sequence p then step = StepDisconnected (pump_generation p) SequenceOverflow
  else if filter_contains (retired_boots i) (pump_boot_id p)
  then step = StepDisconnected (pump_generation p) HandoffRejected
  else step = StepPublished (pump_generation p) (pump_sequence p + 1) ∧ delivers p o i'.
Proof.
  intros Hs Hi Ha Hnow Ho. unfold pump_publish, Prelude.checked_add.
  destruct (N.leb_spec (pump_sequence p + 1) u64_max) as [Hq|Hq].
  2:{ destruct (N.leb_spec u64_max (pump_sequence p)); [|lia].
      pose proof (pump_disconnect_inv si p i SequenceOverflow Hi) as Hd.
      destruct (pump_disconnect p i SequenceOverflow) as [[step p'] i']. tauto. }
  destruct (N.leb_spec u64_max (pump_sequence p)); [lia|].
  pose proof (publish_position_pump si p i now o Hs Hi Ha Hnow Ho) as Hp. cbv zeta in Hp.
  rewrite (pi_identity _ _ _ Hi). destruct (filter_contains _ _).
  - rewrite Hp.
    match goal with |- context [pump_disconnect p ?j _] =>
      pose proof (pump_disconnect_inv si p j HandoffRejected (pump_inv_diagnostics _ _ _ _ Hi)) as Hd end.
    destruct (pump_disconnect _ _ _) as [[step p'] i']. tauto.
  - destruct Hp as (i' & -> & Hd & [La Ls Lg] & Hc & Hb & Hsq & Ht).
    pose proof (pi_active _ _ _ Hi Ha) as (_ & Hr & Hboot).
    split; [|done]. destruct Hi. constructor; cbn; rewrite ?La, ?Ls, ?Lg, ?Hb, ?Hsq, ?Ht; try done.
    + intros Hd'. congruence.
    + by rewrite Hc.
    + intros b [= <-]. exists (pump_generation p). rewrite Hboot. by destruct pi_range0.
    + intros q [= <-]. lia.
    + intros _ _ t [= <-]. by exists now.
Qed.

(** ** Runs of the pump, its owner and the overlay *)

Inductive pump_event :=
| EvStep (r : Reading) (now_monotonic_ms : N)
| EvReconnect (found : option LocalProcessIdentity) (now_monotonic_ms : N)
| EvPoll (now_monotonic_ms : N).

Definition pump_run1 (state : Pump * Inbox) (e : pump_event) : Pump * Inbox :=
  let '(p, i) := state in
  match e with
  | EvStep r now => let '(_, p, i) := pump_step p i r now in (p, i)
  | EvReconnect found now => let '(_, p, i) := reconnect p i found now in (p, i)
  | EvPoll now => (p, (poll_agent now i).2)
  end.

Definition pump_run (state : Pump * Inbox) (es : list pump_event) : Pump * Inbox :=
  fold_left pump_run1 es state.

Lemma connect_fields i g :
  g ≠ 0 → let '(outcome, i') := connect i g in
  if bool_decide (outcome = CtAccepted) then
    expected_world_alias i' = expected_world_alias i ∧ expected_subject_id i' = expected_subject_id i ∧
    generation i' = g ∧ connected i' = true ∧ generation_has_sample i' = false ∧
    active_boot_id i' = active_boot_id i ∧ last_sequence i' = last_sequence i ∧
    last_received_monotonic_ms i' = last_received_monotonic_ms i
  else i' = i ∨ ∃ f, i' = i <| diagnostics ::= f |>.
Proof.
  intros H0. unfold connect. destruct (_ || _); [by left|]. step_if; [by right; eexists|].
  step_if; [by right; eexists|].
  match goal with |- context [push_control ?j ?e] =>
    pose proof (push_control_link j e) as ([] & E1 & E2 & E3 & E4 & E5 & _);
    destruct (push_control j e) as [i' queued] end.
  cbn in *. rewrite bool_decide_true by done. by split_and!.
Qed.

Lemma pump_new_inv identity si p i :
  length (si_boot_id si) = 32%nat → is_u64 (si_starting_generation si) →
  pump_new identity si = Ok (p, i) → source_ok si ∧ pump_inv si p i.
Proof.
  unfold pump_new. intros Hb Hu. rewrite and_then_ok. intros (bp & _ & Hk).
  apply and_then_ok in Hk as (u & _ & Hk). apply and_then_ok in Hk as (i0 & Hc%map_err_ok & Hk).
  unfold server_agent_channel in Hc. step_if_in Hc; [done|]. injection Hc as <-. reflect_bool.
  destruct (decide (si_starting_generation si = 0)) as [Hz|Hz]; [by rewrite Hz in Hk|].
  match type of Hk with context [connect ?j ?g] =>
    pose proof (connect_fields j g Hz) as Hconnect; destruct (connect j g) as [outcome i'] end.
  destruct (bool_decide (outcome = CtAccepted)); [|done]. cbn [negb] in Hk. injection Hk as <- <-.
  cbn in Hconnect. destruct Hconnect as (E1 & E2 & E3 & E4 & E5 & E6 & E7 & E8).
  split.
  - split; [by intros E; rewrite E in *| |done]. intros E. rewrite E in *. done.
  - constructor; cbn; rewrite ?E1, ?E2, ?E3, ?E4, ?E6, ?E7, ?E8; try done.
    intros _. split_and!; try done. unfold boot_of. by rewrite N.eqb_refl.
Qed.

Lemma pump_inv_step_clock si p i now :
  pump_inv si p i → (∀ t, last_step_at_ms p = Some t → t ≤ now) →
  pump_inv si (p <| last_step_at_ms := Some now |>) i.
Proof.
  intros [] Hle. constructor; try done. cbn. intros Ha Hb t Ht.
  destruct (pi_received0 Ha Hb t Ht) as (t' & Ht' & ?). specialize (Hle t' Ht'). exists now. split; [done|lia].
Qed.

(** The invariant does not see the sampling schedule. *)
Lemma pump_inv_schedule si p i due available :
  pump_inv si p i → pump_inv si (p <| next_sample_at_ms := due |> <| world_available := available |>) i.
Proof. intros []. by constructor. Qed.

Lemma pump_inv_unavailable si p i :
  pump_inv si p i → phase p = PhaseActive →
  ∃ i', unavailable i (pump_generation p) = (CtAccepted, i') ∧ pump_inv si p i'.
Proof.
  intros Hi Ha. pose proof (pi_active _ _ _ Hi Ha) as (Hc & _). pose proof (pi_range _ _ _ Hi) as [_ H0].
  unfold unavailable. rewrite (pi_generation _ _ _ Hi), Hc, N.ltb_irrefl, N.eqb_refl.
  apply N.eqb_neq in H0. rewrite H0. eexists. split; [done|]. destruct Hi. constructor; try done.
  cbn. congruence.
Qed.

Lemma session_observation session identity o :
  read_stable_position_in_session session identity = Ok (Some o) → observation_ok o.
Proof.
  unfold read_stable_position_in_session. intros (? & _ & Hk)%and_then_ok.
  apply and_then_ok in Hk as (? & _ & Hk). apply and_then_ok in Hk as (? & _ & Hk).
  apply and_then_ok in Hk as (? & _ & Hk). apply and_then_ok in Hk as (? & _ & Hk).
  by apply decode_camera_ok in Hk as [_ ?].
Qed.

Lemma read_position_ok p r o :
  read_stable_position p r = Ok (Some o) →
  ∃ session, identity_before r = Some (bound_process p) ∧ identity_after r = Some (bound_process p) ∧
    validate_exact_process (bound_process p) = Ok tt ∧ read_session r = Some session ∧
    read_stable_position_in_session session (bound_process p) = Ok (Some o).
Proof.
  unfold read_stable_position. step_if; [done|]. intros (before & Hbefore%ok_or_ok & Hk)%and_then_ok.
  step_if_in Hk; [done|]. apply and_then_ok in Hk as (session & Hsession%ok_or_ok & Hk).
  apply and_then_ok in Hk as (after & Hafter%ok_or_ok & Hk). step_if_in Hk; [done|].
  reflect_bool. repeat match goal with
    | H : negb _ = false |- _ => apply negb_false_iff in H
    | H : bool_decide _ = true |- _ => apply bool_decide_eq_true in H
    end. subst. exists session. split_and!; try done.
  - by destruct (validate_exact_process (bound_process p)) as [[]|].
  - destruct (read_stable_position_in_session session (bound_process p)) as [|[]]; congruence.
Qed.

Lemma pump_step_inv si p i r now :
  source_ok si → pump_inv si p i → let '(_, p', i') := pump_step p i r now in pump_inv si p' i'.
Proof.
  intros Hs Hi. unfold pump_step. destruct (phase p) eqn:Ha; [| |done].
  2:{ pose proof (pump_disconnect_inv si p i TerminalMonotonicRegression Hi) as Hd.
      destruct (pump_disconnect _ _ _) as [[? ?] ?]. apply Hd. }
  destruct (is_some_and (last_step_at_ms p) _) eqn:Hclock.
  - pose proof (pi_range _ _ _ Hi) as [_ H0]. rewrite <- (pi_generation _ _ _ Hi) in *.
    destruct (clock_invalid_current i MonotonicRegression H0 (pi_quiet _ _ _ Hi)) as [Hb Hp].
    by apply (pump_inv_retire si p i).
  - assert (∀ t, last_step_at_ms p = Some t → t ≤ now) as Hle.
    { intros t Ht. rewrite Ht in Hclock. cbn [is_some_and] in Hclock. by apply N.ltb_ge in Hclock. }
    apply (pump_inv_step_clock _ _ _ _ Hi) in Hle as Hi'. set (q := p <| last_step_at_ms := Some now |>) in *.
    assert (phase q = PhaseActive) as Hq by done. assert (last_step_at_ms q = Some now) as Ht by done.
    clearbody q. cbv zeta. step_if; [done|].
    destruct (read_stable_position q r) as [[o|]|reason] eqn:Hread.
    + apply read_position_ok in Hread as (session & _ & _ & _ & _ & Ho%session_observation).
      pose proof (pump_publish_spec si q i now o Hs Hi' Hq Ht Ho) as Hp.
      destruct (pump_publish q i now o) as [[? ?] ?]. apply Hp.
    + step_if.
      * pose proof (pump_inv_schedule _ _ _ (Some (saturating_add now SAMPLE_INTERVAL_MS)) false Hi') as Hi2.
        destruct (pump_inv_unavailable _ _ _ Hi2 Hq) as (i' & Hun & Hi3).
        cbn [pump_generation] in *.
        match goal with |- context [unavailable i ?g] => change (unavailable i g) with
          (unavailable i (pump_generation (q <| next_sample_at_ms := Some (saturating_add now SAMPLE_INTERVAL_MS) |>
             <| world_available := false |>))) end.
        by rewrite Hun.
      * exact (pump_inv_schedule _ _ _ (Some (saturating_add now SAMPLE_INTERVAL_MS)) (world_available q) Hi').
    + pose proof (pump_disconnect_inv si q i reason Hi') as Hd.
      destruct (pump_disconnect _ _ _) as [[? ?] ?]. apply Hd.
Qed.

Lemma pump_reconnect_inv si p i process now :
  source_ok si → pump_inv si p i → let '(_, p', i') := reconnect p i process now in pump_inv si p' i'.
Proof.
  intros Hs Hi. unfold reconnect. destruct (bool_decide_reflect (phase p = PhaseDisconnected)) as [Hd|]; [|done].
  cbn [negb]. destruct (ok_or process ExactBuildMismatch) as [found|]; [|done].
  destruct (validate_exact_process found); [|done].
  unfold Prelude.checked_add. destruct (N.leb_spec (pump_generation p + 1) u64_max) as [Hu|]; [|done].
  assert (pump_generation p + 1 ≠ 0) as H0 by lia.
  pose proof (connect_fields i (pump_generation p + 1) H0) as Hconnect.
  destruct (connect i (pump_generation p + 1)) as [outcome i']. destruct (bool_decide (outcome = CtAccepted)).
  - destruct Hconnect as (E1 & E2 & E3 & E4 & E5 & E6 & E7 & E8). cbn [negb].
    pose proof (pi_start _ _ _ Hi) as Hstart. pose proof (pi_range _ _ _ Hi) as [Hgu Hg0].
    assert (boot_of si (pump_generation p + 1) =
            derive_connection_boot_id (si_boot_id si) (pump_generation p + 1)) as Hboot.
    { unfold boot_of. by destruct (N.eqb_spec (pump_generation p + 1) (si_starting_generation si)); [lia|]. }
    pose proof (pi_identity _ _ _ Hi) as Hid.
    assert (∀ g, is_u64 g → g ≠ 0 → g ≤ pump_generation p →
      boot_of si g ≠ boot_of si (pump_generation p + 1)) as Hother.
    { intros g Hg Hgn Hle Heq. apply boot_of_inj in Heq; [lia|apply Hs|done|int_lia|done|done]. }
    destruct Hi. constructor; cbn; rewrite ?E1, ?E2, ?E3, ?E4, ?E5, ?E6, ?E7, ?E8; try done.
    + lia.
    + intros _. split_and!; try done. by rewrite Hid, Hboot.
    + intros b Hb. destruct (pi_boot0 b Hb) as (g & ? & ? & ? & ? & _). exists g. split_and!; try done. lia.
    + intros _ Hb. destruct (pi_boot0 _ Hb) as (g & ? & ? & ? & Heq & _). by destruct (Hother g).
  - assert (pump_inv si p i') by (destruct Hconnect as [->|[f ->]]; [done|by apply pump_inv_diagnostics]).
    done.
Qed.

Lemma pump_poll_inv si p i now : pump_inv si p i → pump_inv si p (poll_agent now i).2.
Proof.
  intros []. unfold poll_agent. destruct (pop (pending_controls i)) as [control q].
  destruct control; cbn; by constructor.
Qed.

Lemma pump_run_inv si es state :
  source_ok si → pump_inv si state.1 state.2 →
  pump_inv si (pump_run state es).1 (pump_run state es).2.
Proof.
  intros Hs. revert state. induction es as [|e es IH]; intros [p i] Hi; [done|].
  apply IH. destruct e as [r now|found now|now]; cbn [pump_run1].
  - pose proof (pump_step_inv si p i r now Hs Hi) as H'. by destruct (pump_step p i r now) as [[? ?] ?].
  - pose proof (pump_reconnect_inv si p i found now Hs Hi) as H'.
    by destruct (reconnect p i found now) as [[? ?] ?].
  - by apply pump_poll_inv.
Qed.

Lemma session_stable session identity o :
  read_stable_position_in_session session identity = Ok (Some o) →
  ∃ ps camera,
    chain_read session 0 (module_base identity + ROOT_RVA) POINTER_READ_OFFSETS ps ∧
    session 7%nat (List.last ps (module_base identity + ROOT_RVA) + CAMERA_OFFSET) CAMERA_BLOCK_BYTES = Some camera ∧
    chain_read session 8 (module_base identity + ROOT_RVA) POINTER_READ_OFFSETS ps ∧
    decode_camera_block camera = Ok (Some o).
Proof.
  unfold read_stable_position_in_session.
  intros (root & (-> & _ & _)%checked_add_ok & Hk)%and_then_ok.
  apply and_then_ok in Hk as (chain & Hchain & Hk). unfold resolve_pointer_chain in Hchain.
  apply and_then_ok in Hchain as (ps & Hps%resolve_links_ok & Hchain).
  apply and_then_ok in Hchain as (a & (-> & _ & _)%checked_add_ok & Hchain). injection Hchain as <-.
  apply and_then_ok in Hk as (u1 & _ & Hk). apply and_then_ok in Hk as (camera & Hcamera%ok_or_ok & Hk).
  apply and_then_ok in Hk as (u2 & Hverify & Hk). unfold verify_pointer_chain in Hverify.
  cbn [pointers camera_address] in *. apply and_then_ok in Hverify as (last & Hlast & _).
  apply verify_links_ok in Hlast as [Hagain _]; [|by eapply chain_read_length].
  by exists ps, camera.
Qed.

(** ** Properties *)

(** C24: a position the pump reads is one consistent snapshot of the bound process. The
    operating system reported the bound identity before and after, and it is exactly the
    supported build; the seven pointers of the chain read before the camera block are the
    seven read again after it, none of them null; the block read in between is the
    observation, whose coordinates are finite and within the bounds of the world. *)
Theorem pump_reads_stable (p : Pump) (r : Reading) (o : LocalPositionObservation) :
  read_stable_position p r = Ok (Some o) →
  let root := module_base (bound_process p) + ROOT_RVA in
  identity_before r = Some (bound_process p) ∧ identity_after r = Some (bound_process p) ∧
  validate_exact_process (bound_process p) = Ok tt ∧
  ∃ session ps camera,
    read_session r = Some session ∧
    chain_read session 0 root POINTER_READ_OFFSETS ps ∧
    session 7%nat (List.last ps root + CAMERA_OFFSET) CAMERA_BLOCK_BYTES = Some camera ∧
    chain_read session 8 root POINTER_READ_OFFSETS ps ∧
    o = mkObservation (read_f64 camera 0) (read_f64 camera 8) (read_f64 camera 16) (read_f64 camera 32) ∧
    observation_ok o.
Proof.
  intros (session & H1 & H2 & H3 & H4 & Hs)%read_position_ok root. split_and!; try done.
  apply session_stable in Hs as (ps & camera & ? & ? & ? & [? ?]%decode_camera_ok).
  exists session, ps, camera. by split_and!.
Qed.

(** C25: whatever the process, its owner and the overlay do, an active pump owns the
    current connection of its channel and a disconnected one has none. A due sample that
    an active pump reads is delivered: the inbox then holds exactly that observation, with
    the pump's boot and generation and the next sequence number. The only exceptions are
    an exhausted sequence counter and a boot the channel has retired. *)
Theorem pump_feeds_channel (process : option LocalProcessIdentity) (si : LocalPositionSourceIdentity)
    (p0 : Pump) (i0 : Inbox) (es : list pump_event) :
  length (si_boot_id si) = 32%nat → is_u64 (si_starting_generation si) →
  pump_new process si = Ok (p0, i0) →
  let '(p, i) := pump_run (p0, i0) es in
  (phase p = PhaseActive → connected i = true ∧ generation i = pump_generation p) ∧
  (phase p = PhaseDisconnected → connected i = false ∧ pending_sample i = None) ∧
  ∀ r now o,
    phase p = PhaseActive →
    is_some_and (last_step_at_ms p) (λ last, now <? last) = false →
    is_some_and (next_sample_at_ms p) (λ due, now <? due) = false →
    read_stable_position p r = Ok (Some o) →
    let '(step, p', i') := pump_step p i r now in
    if u64_max <=? pump_sequence p then step = StepDisconnected (pump_generation p) SequenceOverflow
    else if filter_contains (retired_boots i) (pump_boot_id p)
    then step = StepDisconnected (pump_generation p) HandoffRejected
    else step = StepPublished (pump_generation p) (pump_sequence p + 1) ∧ delivers p o i'.
Proof.
  intros Hb Hu Hnew. apply pump_new_inv in Hnew as [Hs Hi]; [|done..].
  pose proof (pump_run_inv si es (p0, i0) Hs Hi) as Hi'.
  destruct (pump_run (p0, i0) es) as [p i]. cbn [fst snd] in Hi'. split_and!.
  - intros Ha. split; [by apply (pi_active _ _ _ Hi' Ha)|apply Hi'].
  - intros Hd. pose proof (pi_idle _ _ _ Hi' Hd) as [Hc _]. split; [done|by apply Hi'].
  - intros r now o Ha Hclock Hdue Hread. unfold pump_step. rewrite Ha, Hclock. cbv zeta.
    change (next_sample_at_ms (p <| last_step_at_ms := Some now |>)) with (next_sample_at_ms p).
    change (read_stable_position (p <| last_step_at_ms := Some now |>) r) with (read_stable_position p r).
    rewrite Hdue, Hread. apply read_position_ok in Hread as (session & _ & _ & _ & _ & Ho%session_observation).
    assert (∀ t, last_step_at_ms p = Some t → t ≤ now) as Hle.
    { intros t Ht. rewrite Ht in Hclock. cbn [is_some_and] in Hclock. by apply N.ltb_ge in Hclock. }
    pose proof (pump_publish_spec si _ i now o Hs (pump_inv_step_clock _ _ _ _ Hi' Hle) Ha eq_refl Ho) as Hp.
    destruct (pump_publish _ i now o) as [[step p'] i']. exact (proj2 Hp).
Qed.

(** ** A run *)

Definition demo_process : LocalProcessIdentity :=
  mkIdentity BUILD_ID EXECUTABLE_SHA256 EXECUTABLE_FILE_SIZE 0x140000000 LOADED_MODULE_SIZE.
Definition demo_source : LocalPositionSourceIdentity :=
  mkSourceIdentity "w" (replicate 32 Byte.x07) (replicate 32 Byte.x01) 5.

(** A process whose every pointer is [0x5000], with the camera at (1, 2, 3) and yaw -90. *)
Definition demo_camera : bytes :=
  le_bytes 8 0x3ff0000000000000 ++ le_bytes 8 0x4000000000000000 ++ le_bytes 8 0x4008000000000000 ++
  le_bytes 8 0 ++ le_bytes 8 0xc056800000000000.
Definition demo_session : ReadSession := λ i address len,
  if len =? 8 then Some (le_bytes 8 0x5000) else Some demo_camera.
Definition demo_reading : Reading := mkReading (Some demo_process) (Some demo_session) (Some demo_process).

Definition demo_events : list pump_event :=
  [EvStep demo_reading 10; EvPoll 10; EvPoll 10; EvStep demo_reading 5; EvStep demo_reading 6;
   EvReconnect (Some demo_process) 20; EvPoll 20].

Definition demo_pump : result (Pump * Inbox) LocalPositionSourceError := pump_new (Some demo_process) demo_source.

Lemma pump_reads_stable_witness :
  match demo_pump with
  | Ok (p, _) =>
      match read_stable_position p demo_reading with
      | Ok (Some o) => observation_ok o
      | _ => False
      end
  | Err _ => False
  end.
Proof.
  destruct demo_pump as [[p i]|] eqn:Hp; [|vm_compute in Hp; discriminate].
  destruct (read_stable_position p demo_reading) as [[o|]|] eqn:Hr;
    [|vm_compute in Hp; injection Hp as <- <-; vm_compute in Hr; discriminate..].
  destruct (pump_reads_stable p demo_reading o Hr) as (_ & _ & _ & session & ps & camera & H).
  exact (proj2 (proj2 (proj2 (proj2 (proj2 H))))).
Defined.

Lemma pump_feeds_channel_witness :
  match demo_pump with
  | Ok (p0, i0) =>
      let '(p, i) := pump_run (p0, i0) demo_events in
      phase p = PhaseActive ∧ connected i = true ∧ pump_generation p = 6 ∧ pump_sequence p = 1
  | Err _ => False
  end.
Proof.
  assert (match demo_pump with
          | Ok state => phase (pump_run state demo_events).1 = PhaseActive ∧
              pump_generation (pump_run state demo_events).1 = 6 ∧
              pump_sequence (pump_run state demo_events).1 = 1
          | Err _ => False
          end) as Hrun by (vm_compute; repeat split).
  destruct demo_pump as [[p0 i0]|] eqn:Hp; [|contradiction].
  destruct Hrun as (Ha & Hg & Hq).
  assert (is_u64 5) as Hu by int_lia.
  pose proof (pump_feeds_channel (Some demo_process) demo_source p0 i0 demo_events eq_refl Hu Hp) as H.
  destruct (pump_run (p0, i0) demo_events) as [p i]. cbn [fst] in *.
  exact (conj Ha (conj (proj1 (proj1 H Ha)) (conj Hg Hq))).
Defined.
