(* ===== verification/Placement.v ===== *)
(** * Where the overlay is placed

    Models the geometry of [crates/pal-overlay-win/src/lib.rs],
    [crates/pal-overlay-win/src/placement.rs] and the button rectangles of
    [crates/pal-overlay-win/src/gdi_correctness_renderer.rs]: the rectangles of the compact
    and of the expanded map inside the client area of the game, in physical pixels. *)

From S2P Require Import Prelude Floats FloatInt FloatRound Settings Position OverlayVisual.

(** ** [i32] and [u32] *)

Definition i32_min : Z := (-2147483648)%Z.
Definition i32_max : Z := 2147483647%Z.
Definition is_u32 (n : N) : Prop := n ≤ u32_max.
Definition is_i32 (z : Z) : Prop := (i32_min ≤ z ≤ i32_max)%Z.

(** [i32::try_from] of a wider integer; [checked_add], [checked_sub] and [checked_mul] of
    [i32] are it, of the exact result. *)
Definition i32_try_from (z : Z) : option Z :=
  if ((i32_min <=? z) && (z <=? i32_max))%Z then Some z else None.
(** [u32::try_from] of an [i32]. *)
Definition u32_try_from (z : Z) : option N := if (0 <=? z)%Z then Some (Z.to_N z) else None.
(** [checked_add] and [checked_mul] of [u32]. *)
Definition checked_u32 (n : N) : option N := if n <=? u32_max then Some n else None.
(** [checked_sub] of [u32]. *)
Definition checked_sub_u32 (a b : N) : option N := if b <=? a then Some (a - b) else None.
(** [saturating_add] and [saturating_mul] of [u32]. *)
Definition saturating_u32 (n : N) : N := N.min n u32_max.

Lemma i32_try_from_some z y : i32_try_from z = Some y ↔ y = z ∧ is_i32 z.
Proof. unfold i32_try_from, is_i32. step_if; reflect_bool; split; naive_solver lia. Qed.

Lemma u32_try_from_some z n : u32_try_from z = Some n ↔ z = Z.of_N n.
Proof. unfold u32_try_from. step_if; reflect_bool; split; intros; simplify_eq; try lia. f_equal. lia. Qed.

Lemma checked_u32_some a b : checked_u32 a = Some b ↔ b = a ∧ is_u32 a.
Proof. unfold checked_u32, is_u32. step_if; reflect_bool; split; naive_solver lia. Qed.

Lemma checked_sub_u32_some a b c : checked_sub_u32 a b = Some c ↔ b + c = a.
Proof. unfold checked_sub_u32. step_if; reflect_bool; split; intros; simplify_eq; try lia. f_equal. lia. Qed.

(** [f64::round]: to the nearest integer, halves away from zero. *)
Definition fround (x : f64) : f64 :=
  match x with
  | S754_finite s m e =>
      if (0 <=? e)%Z then x
      else
        let q := ((2 * Zpos m + 2 ^ (- e)) / 2 ^ (1 - e))%Z in
        if (q =? 0)%Z then S754_zero s else binary_normalize prec64 emax64 (cond_Zopp s q) 0 s
  | _ => x
  end.

(** [f64::sqrt]. *)
Definition fsqrt (x : f64) : f64 := SFsqrt prec64 emax64 x.

(** ** Rectangles *)

Module PhysicalPoint.
Record t := mk { x : Z; y : Z }.
End PhysicalPoint.

Module PhysicalSize.
Record t := mk { width : N; height : N }.
#[global] Instance t_eq_dec : EqDecision t.
Proof. solve_decision. Defined.

Definition from_side (side : N) : t := mk side side.
End PhysicalSize.

Module PhysicalRect.
Record t := mk { left : Z; top : Z; width : N; height : N }.
#[global] Instance t_eq_dec : EqDecision t.
Proof. solve_decision. Defined.

Definition contains (self : t) (point : PhysicalPoint.t) : bool :=
  ((left self <=? PhysicalPoint.x point) && (PhysicalPoint.x point <? left self + Z.of_N (width self)) &&
   (top self <=? PhysicalPoint.y point) && (PhysicalPoint.y point <? top self + Z.of_N (height self)))%Z.
End PhysicalRect.
Import PhysicalRect.

Inductive HitShape := RoundedRectangle (bounds : PhysicalRect.t) (corner_radius_px : N).
#[export] Instance HitShape_eq_dec : EqDecision HitShape.
Proof. solve_decision. Defined.

Definition bounds (self : HitShape) : PhysicalRect.t :=
  match self with RoundedRectangle bounds _ => bounds end.

Record OverlayLayout := mkLayout {
  host_rect : PhysicalRect.t;
  surface_shape : HitShape;
  map_viewport_rect : PhysicalRect.t;
  control_rail_rect : option PhysicalRect.t;
  viewport_size : PhysicalSize.t;
}.
#[export] Instance OverlayLayout_eq_dec : EqDecision OverlayLayout.
Proof. solve_decision. Defined.
#[export] Instance OverlayLayout_eta : Eta OverlayLayout := λ r,
  mkLayout (host_rect r) (surface_shape r) (map_viewport_rect r) (control_rail_rect r) (viewport_size r).

(** ** The layouts of a client area *)

Definition DEFAULT_MINIMAP_SIZE_DIP : N := mini_width_dip OVERLAY_VISUAL_V1.
Definition MIN_SUPPORTED_MINIMAP_SIZE_DIP : N := 180.
Definition MAX_SUPPORTED_MINIMAP_SIZE_DIP : N := 640.
Definition REFERENCE_CLIENT_WIDTH_PX : f64 := f64_of_N 1600.
Definition REFERENCE_CLIENT_HEIGHT_PX : f64 := f64_of_N 900.
Definition MIN_RESPONSIVE_UI_SCALE : f64 := f64_lit 50 100.
Definition MINI_MAX_CLIENT_WIDTH_FRACTION : f64 := f64_lit 28 100.
Definition MINI_MAX_CLIENT_HEIGHT_FRACTION : f64 := f64_lit 38 100.
Definition EXPANDED_CLIENT_WIDTH_FRACTION : f64 := f64_lit 88 100.
Definition EXPANDED_CLIENT_HEIGHT_FRACTION : f64 := f64_lit 88 100.

(** From [crates/pal-fullscreen-bridge/src/lib.rs]. *)
Definition MAX_FRAME_PIXELS : N := 1024 * 1024.

Record TopLeftOverlayLayouts := mkLayouts { mini : OverlayLayout; expanded : OverlayLayout }.

Inductive TopLeftLayoutError :=
| ZeroDpi | MiniSizeOutOfRange | ScaledGeometryOverflow | InsufficientClientSpace.
#[export] Instance TopLeftLayoutError_eq_dec : EqDecision TopLeftLayoutError.
Proof. solve_decision. Defined.

Definition TopLeftLayoutError_fmt (self : TopLeftLayoutError) : string :=
  match self with
  | ZeroDpi => "tracked client DPI must be nonzero"
  | MiniSizeOutOfRange => "minimap size must be within 180..=640 DIP"
  | ScaledGeometryOverflow => "scaled overlay geometry exceeds supported bounds"
  | InsufficientClientSpace => "tracked client cannot fit the exact overlay surface and two insets"
  end.

Definition f64_u32_max : f64 := f64_of_N u32_max.

(** The end of [scale_visual] and [fraction_of]. *)
Definition rounded_u32 (scaled : f64) : result N TopLeftLayoutError :=
  if negb (is_finite scaled) || flt scaled (f64_of_N 1) || flt f64_u32_max scaled
  then Err ScaledGeometryOverflow else Ok (as_u32 scaled).

Definition scale_visual (value : N) (scale : f64) : result N TopLeftLayoutError :=
  rounded_u32 (fround (mul64 (f64_of_N value) scale)).
Definition fraction_of (value : N) (fraction : f64) : result N TopLeftLayoutError :=
  rounded_u32 (fround (mul64 (f64_of_N value) fraction)).

Definition checked_screen_add (base : Z) (offset : N) : result Z TopLeftLayoutError :=
  ok_or (i32_try_from (base + Z.of_N offset)) ScaledGeometryOverflow.

Definition responsive_ui_scale (client : PhysicalRect.t) (dpi : N) : f64 :=
  let dpi_scale := div64 (f64_of_N dpi) (f64_of_N 96) in
  let client_scale :=
    fmax (fmin (div64 (f64_of_N (width client)) REFERENCE_CLIENT_WIDTH_PX)
               (div64 (f64_of_N (height client)) REFERENCE_CLIENT_HEIGHT_PX))
         MIN_RESPONSIVE_UI_SCALE in
  fmin dpi_scale client_scale.

(** The loop of [bounded_transfer_size]; every turn takes one pixel off the longer side. *)
Fixpoint shrink (fuel : nat) (maximum_pixels width height : N) : option (N * N) :=
  if maximum_pixels <? width * height then
    match fuel with
    | O => None
    | S fuel =>
        if height <=? width then shrink fuel maximum_pixels (N.max (width - 1) 1) height
        else shrink fuel maximum_pixels width (N.max (height - 1) 1)
    end
  else Some (width, height).

(** [None] would be a loop that does not end. *)
Definition bounded_transfer_size (logical_width logical_height : N) :
    option (result PhysicalSize.t TopLeftLayoutError) :=
  if (logical_width =? 0) || (logical_height =? 0) then Some (Err ScaledGeometryOverflow)
  else
    let logical_pixels := logical_width * logical_height in
    if u64_max <? logical_pixels then Some (Err ScaledGeometryOverflow)
    else if logical_pixels <=? MAX_FRAME_PIXELS then
      Some (Ok (PhysicalSize.mk logical_width logical_height))
    else
      let scale := fsqrt (div64 (f64_of_N MAX_FRAME_PIXELS) (f64_of_N logical_pixels)) in
      let side n := as_u32 (fmax (ffloor (mul64 (f64_of_N n) scale)) (f64_of_N 1)) in
      '(width, height) ← shrink (N.to_nat (side logical_width + side logical_height)) MAX_FRAME_PIXELS
                           (side logical_width) (side logical_height);
      Some (Ok (PhysicalSize.mk width height)).

(** The rectangles of [top_left_overlay_layouts], before the transfer size. *)
Record LayoutGeometry := mkGeometry {
  mini_bounds : PhysicalRect.t;
  expanded_bounds : PhysicalRect.t;
  corner_radius_px : N;
  rail_rect : PhysicalRect.t;
  map_rect : PhysicalRect.t;
}.

Definition layout_geometry (client : PhysicalRect.t) (dpi requested_mini_size_px : N) :
    result LayoutGeometry TopLeftLayoutError :=
  if dpi =? 0 then Err ZeroDpi
  else if negb ((MIN_SUPPORTED_MINIMAP_SIZE_DIP <=? requested_mini_size_px)
                && (requested_mini_size_px <=? MAX_SUPPORTED_MINIMAP_SIZE_DIP))
  then Err MiniSizeOutOfRange
  else
    let ui_scale := responsive_ui_scale client dpi in
    let? inset := scale_visual (client_inset_dip OVERLAY_VISUAL_V1) ui_scale in
    let? expanded_width := fraction_of (width client) EXPANDED_CLIENT_WIDTH_FRACTION in
    let? expanded_height := fraction_of (height client) EXPANDED_CLIENT_HEIGHT_FRACTION in
    let? minimum_expanded_width :=
      scale_visual (expanded_width_dip OVERLAY_VISUAL_V1) MIN_RESPONSIVE_UI_SCALE in
    let? minimum_expanded_height :=
      scale_visual (expanded_height_dip OVERLAY_VISUAL_V1) MIN_RESPONSIVE_UI_SCALE in
    if (expanded_width <? minimum_expanded_width) || (expanded_height <? minimum_expanded_height)
    then Err InsufficientClientSpace
    else
      let expanded_scale :=
        fmin (div64 (f64_of_N expanded_width) (f64_of_N (expanded_width_dip OVERLAY_VISUAL_V1)))
             (div64 (f64_of_N expanded_height) (f64_of_N (expanded_height_dip OVERLAY_VISUAL_V1))) in
      let? rail_width := scale_visual (expanded_rail_width_dip OVERLAY_VISUAL_V1) expanded_scale in
      let? corner_radius := scale_visual (corner_radius_dip OVERLAY_VISUAL_V1) expanded_scale in
      let available_width := width client - saturating_u32 (inset * 2) in
      let available_height := height client - saturating_u32 (inset * 2) in
      let? mini_width_cap := fraction_of (width client) MINI_MAX_CLIENT_WIDTH_FRACTION in
      let? mini_height_cap := fraction_of (height client) MINI_MAX_CLIENT_HEIGHT_FRACTION in
      let mini_size :=
        N.min (N.min (N.min (N.min requested_mini_size_px mini_width_cap) mini_height_cap)
                 available_width) available_height in
      if mini_size =? 0 then Err InsufficientClientSpace
      else
        let? map_width := ok_or (checked_sub_u32 expanded_width rail_width) ScaledGeometryOverflow in
        let? two_insets := ok_or (checked_u32 (inset * 2)) ScaledGeometryOverflow in
        let? required_width := ok_or (checked_u32 (mini_size + two_insets)) ScaledGeometryOverflow in
        let? required_height := ok_or (checked_u32 (mini_size + two_insets)) ScaledGeometryOverflow in
        if (width client <? required_width) || (height client <? required_height)
           || (width client <? expanded_width) || (height client <? expanded_height)
        then Err InsufficientClientSpace
        else
          let? mini_left := checked_screen_add (left client) inset in
          let? mini_top := checked_screen_add (top client) inset in
          let? expanded_left := checked_screen_add (left client) ((width client - expanded_width) / 2) in
          let? expanded_top := checked_screen_add (top client) ((height client - expanded_height) / 2) in
          let? map_left := checked_screen_add expanded_left rail_width in
          Ok (mkGeometry (PhysicalRect.mk mini_left mini_top mini_size mini_size)
                (PhysicalRect.mk expanded_left expanded_top expanded_width expanded_height)
                corner_radius
                (PhysicalRect.mk expanded_left expanded_top rail_width expanded_height)
                (PhysicalRect.mk map_left expanded_top map_width expanded_height)).

Definition layouts_of (client : PhysicalRect.t) (g : LayoutGeometry) (transfer_size : PhysicalSize.t) :
    TopLeftOverlayLayouts :=
  let mini_size := width (mini_bounds g) in
  mkLayouts
    (mkLayout client (RoundedRectangle (mini_bounds g) (mini_size / 2)) (mini_bounds g) None
       (PhysicalSize.mk mini_size mini_size))
    (mkLayout client (RoundedRectangle (expanded_bounds g) (corner_radius_px g)) (map_rect g)
       (Some (rail_rect g)) transfer_size).

Definition top_left_overlay_layouts (client : PhysicalRect.t) (dpi requested_mini_size_px : N) :
    option (result TopLeftOverlayLayouts TopLeftLayoutError) :=
  match layout_geometry client dpi requested_mini_size_px with
  | Err e => Some (Err e)
  | Ok g =>
      transfer_size ← bounded_transfer_size (width (map_rect g)) (height (map_rect g));
      Some (let? transfer_size := transfer_size in Ok (layouts_of client g transfer_size))
  end.

(** ** Buttons *)

Definition is_circular_minimap_layout (layout : OverlayLayout) : bool :=
  is_none (control_rail_rect layout)
  && (width (map_viewport_rect layout) =? height (map_viewport_rect layout))
  && match surface_shape layout with
     | RoundedRectangle bounds corner_radius_px =>
         (width bounds =? height bounds) && (width bounds <=? saturating_u32 (corner_radius_px * 2))
     end.

Definition corner_radius (layout : OverlayLayout) : N :=
  match surface_shape layout with RoundedRectangle _ corner_radius_px => corner_radius_px end.

Definition estimated_dpi (layout : OverlayLayout) : N :=
  if is_circular_minimap_layout layout then
    let width := width (bounds (surface_shape layout)) in
    N.max (saturating_u32 (saturating_u32 (width * 96) + mini_width_dip OVERLAY_VISUAL_V1 / 2)
           / mini_width_dip OVERLAY_VISUAL_V1) 1
  else
    let radius := corner_radius layout in
    if radius =? 0 then 96
    else
      let reference_radius := N.max (corner_radius_dip OVERLAY_VISUAL_V1) 1 in
      saturating_u32 (saturating_u32 (radius * 96) + reference_radius / 2) / reference_radius.

(** Both factors are [u32]: the product is not saturated. *)
Definition scale_dip (value dpi : N) : Z :=
  let physical := saturating_add (N.min (value * dpi) u64_max) 48 / 96 in
  unwrap_or (i32_try_from (Z.of_N (N.max physical 1))) i32_max.

Definition checked_add_i32 (a b : Z) : option Z := i32_try_from (a + b).
Definition checked_sub_i32 (a b : Z) : option Z := i32_try_from (a - b).
Definition checked_mul_i32 (a b : Z) : option Z := i32_try_from (a * b).

(** The last point of a rectangle of [i32] sizes. *)
Definition last_point (left top width height : Z) : option PhysicalPoint.t :=
  w ← checked_sub_i32 width 1;
  x ← checked_add_i32 left w;
  h ← checked_sub_i32 height 1;
  y ← checked_add_i32 top h;
  Some (PhysicalPoint.mk x y).

Definition filter_panel_rect (layout : OverlayLayout) : option PhysicalRect.t :=
  _ ← control_rail_rect layout;
  let dpi := estimated_dpi layout in
  let inset := scale_dip (expanded_panel_inset_dip OVERLAY_VISUAL_V1) dpi in
  let panel_width := scale_dip (expanded_panel_width_dip OVERLAY_VISUAL_V1) dpi in
  let button_height := scale_dip (filter_button_height_dip OVERLAY_VISUAL_V1) dpi in
  let gap := scale_dip (filter_button_gap_dip OVERLAY_VISUAL_V1) dpi in
  buttons ← checked_mul_i32 button_height 4;
  partial ← checked_add_i32 (scale_dip 70 dpi) buttons;
  gaps ← checked_mul_i32 gap 3;
  panel_height ← checked_add_i32 partial gaps;
  panel_top ← checked_add_i32 (top (map_viewport_rect layout)) inset;
  panel_left ← checked_add_i32 (left (map_viewport_rect layout)) inset;
  w ← u32_try_from panel_width;
  h ← u32_try_from panel_height;
  corner ← last_point panel_left panel_top panel_width panel_height;
  if contains (map_viewport_rect layout) corner
  then Some (PhysicalRect.mk panel_left panel_top w h) else None.

Definition filter_button_rect (layout : OverlayLayout) (action : FilterAction) : option PhysicalRect.t :=
  panel ← filter_panel_rect layout;
  let dpi := estimated_dpi layout in
  let button_width := scale_dip (filter_button_width_dip OVERLAY_VISUAL_V1) dpi in
  let button_height := scale_dip (filter_button_height_dip OVERLAY_VISUAL_V1) dpi in
  let gap := scale_dip (filter_button_gap_dip OVERLAY_VISUAL_V1) dpi in
  let inset := scale_dip (expanded_panel_inset_dip OVERLAY_VISUAL_V1) dpi in
  let index := Z.of_nat (filter_index action) in
  let column := (index mod 2)%Z in
  let row := (index / 2)%Z in
  x0 ← checked_add_i32 (left panel) inset;
  across ← checked_add_i32 button_width gap;
  dx ← checked_mul_i32 column across;
  x ← checked_add_i32 x0 dx;
  y0 ← checked_add_i32 (top panel) (scale_dip 58 dpi);
  down ← checked_add_i32 button_height gap;
  dy ← checked_mul_i32 row down;
  y ← checked_add_i32 y0 dy;
  w ← u32_try_from button_width;
  h ← u32_try_from button_height;
  corner ← last_point x y button_width button_height;
  if contains (map_viewport_rect layout) corner then Some (PhysicalRect.mk x y w h) else None.

(** The place of the actions in the dock of the map. *)
Definition dock_index (action : RailAction) : option Z :=
  match action with
  | ZoomOut => Some 0%Z
  | ZoomIn => Some 1%Z
  | ToggleRotation => Some 2%Z
  | Lock => Some 3%Z
  | Collapse => None
  end.

(** [i32] division truncates. *)
Definition rail_action_rect (layout : OverlayLayout) (action : RailAction) : option PhysicalRect.t :=
  rail ← control_rail_rect layout;
  let dpi := estimated_dpi layout in
  let inset := scale_dip (rail_inset_dip OVERLAY_VISUAL_V1) dpi in
  let button := scale_dip (rail_button_dip OVERLAY_VISUAL_V1) dpi in
  let gap := scale_dip (rail_inset_dip OVERLAY_VISUAL_V1) dpi in
  '(x, y) ←
    (if bool_decide (action = Collapse) then
       w ← i32_try_from (Z.of_N (width rail));
       spare ← checked_sub_i32 w button;
       x ← checked_add_i32 (left rail) (Z.quot spare 2);
       y ← checked_add_i32 (top rail) inset;
       Some (x, y)
     else
       index ← dock_index action;
       h ← i32_try_from (Z.of_N (height (map_viewport_rect layout)));
       bottom ← checked_add_i32 (top (map_viewport_rect layout)) h;
       x0 ← checked_add_i32 (left (map_viewport_rect layout)) inset;
       across ← checked_add_i32 button gap;
       dx ← checked_mul_i32 index across;
       x ← checked_add_i32 x0 dx;
       y0 ← checked_sub_i32 bottom inset;
       y ← checked_sub_i32 y0 button;
       Some (x, y));
  w ← u32_try_from button;
  Some (PhysicalRect.mk x y w w).

Definition action_dock_rect (layout : OverlayLayout) : option PhysicalRect.t :=
  _ ← control_rail_rect layout;
  let dpi := estimated_dpi layout in
  let inset := scale_dip (rail_inset_dip OVERLAY_VISUAL_V1) dpi in
  let button := scale_dip (rail_button_dip OVERLAY_VISUAL_V1) dpi in
  let gap := scale_dip (rail_inset_dip OVERLAY_VISUAL_V1) dpi in
  buttons ← checked_mul_i32 button 4;
  gaps ← checked_mul_i32 gap 3;
  dock_width ← checked_add_i32 buttons gaps;
  h ← i32_try_from (Z.of_N (height (map_viewport_rect layout)));
  bottom ← checked_add_i32 (top (map_viewport_rect layout)) h;
  x ← checked_add_i32 (left (map_viewport_rect layout)) inset;
  y0 ← checked_sub_i32 bottom inset;
  y ← checked_sub_i32 y0 button;
  w ← u32_try_from dock_width;
  h ← u32_try_from button;
  Some (PhysicalRect.mk x y w h).

Definition rect_center (rect : PhysicalRect.t) : option PhysicalPoint.t :=
  w ← i32_try_from (Z.of_N (width rect));
  x ← checked_add_i32 (left rect) (w / 2);
  h ← i32_try_from (Z.of_N (height rect));
  y ← checked_add_i32 (top rect) (h / 2);
  Some (PhysicalPoint.mk x y).

(** [localize], [native_rect], [inset_rect] and [inset_radius] of the renderer; [None] is
    [InvalidGeometry]. *)
Definition local_surface_rect (layout : OverlayLayout) : PhysicalRect.t :=
  let b := bounds (surface_shape layout) in PhysicalRect.mk 0 0 (width b) (height b).

Definition localize (rect : PhysicalRect.t) (layout : OverlayLayout) : option PhysicalRect.t :=
  let b := bounds (surface_shape layout) in
  x ← i32_try_from (left rect - left b);
  y ← i32_try_from (top rect - top b);
  Some (PhysicalRect.mk x y (width rect) (height rect)).

Record RECT := mkRECT { rc_left : Z; rc_top : Z; rc_right : Z; rc_bottom : Z }.

Definition native_rect (rect : PhysicalRect.t) : option RECT :=
  w ← i32_try_from (Z.of_N (width rect));
  right ← checked_add_i32 (left rect) w;
  h ← i32_try_from (Z.of_N (height rect));
  bottom ← checked_add_i32 (top rect) h;
  Some (mkRECT (left rect) (top rect) right bottom).

Definition inset_rect (rect : PhysicalRect.t) (inset : Z) : option PhysicalRect.t :=
  n ← u32_try_from inset;
  doubled ← checked_u32 (n * 2);
  w ← checked_sub_u32 (width rect) doubled;
  h ← checked_sub_u32 (height rect) doubled;
  if (w =? 0) || (h =? 0) then None
  else
    i ← i32_try_from (Z.of_N n);
    x ← checked_add_i32 (left rect) i;
    y ← checked_add_i32 (top rect) i;
    Some (PhysicalRect.mk x y w h).

Definition inset_radius (radius : N) (inset : Z) : N :=
  radius - unwrap_or (u32_try_from inset) u32_max.

Definition color_ref (color : Rgba8) : N :=
  N.lor (N.lor (red color) (N.shiftl (green color) 8)) (N.shiftl (blue color) 16).

(** ** Roots and roundings are data *)

Section Roundings.
Local Open Scope Z_scope.

(** The integer root that [fsqrt] rounds. *)
Lemma fsqrt_parts m e :
  ∃ q e' s loc, fsqrt (S754_finite false m e) = binary_round_aux prec64 emax64 false q e' loc ∧
    0 ≤ q ∧ e' ≤ target q e' ∧ 0 ≤ s ∧ e = 2 * e' + s ∧ q * q ≤ Zpos m * 2 ^ s < (q + 1) * (q + 1) ∧
    e' = Z.min (fexp prec64 emax64 (Z.div2 (Zpos (digits2_pos m) + e + 1))) (Z.div2 e).
Proof.
  unfold fsqrt, SFsqrt, SFsqrt_core_binary. cbn [Zdigits2].
  pose proof (digits2_pos_bounds m) as [Hlo _]. set (d := Zpos (digits2_pos m)) in *.
  assert (1 ≤ d) as Hd by (unfold d; lia).
  set (e' := Z.min _ _). set (s := e - 2 * e').
  assert (0 ≤ s) as Hs.
  { pose proof (Z.le_min_r (fexp prec64 emax64 (Z.div2 (d + e + 1))) (Z.div2 e)) as Hmin.
    fold e' in Hmin. rewrite (Z.div2_div e) in Hmin. pose proof (Z.mul_div_le e 2 ltac:(lia)). lia. }
  set (m' := match s with Zpos _ => Z.shiftl (Zpos m) s | Z0 => Zpos m | Zneg _ => 0 end).
  assert (m' = Zpos m * 2 ^ s) as Hm.
  { unfold m'. destruct s; [lia|by rewrite Z.shiftl_mul_pow2|lia]. }
  pose proof (Z.pow_pos_nonneg 2 s ltac:(lia) Hs) as Hp.
  assert (0 ≤ m') as Hm0 by lia. pose proof (Z.sqrtrem_spec m' Hm0) as Hq.
  destruct (Z.sqrtrem m') as [q r]. destruct Hq as [Hq Hr].
  assert (0 ≤ q) as Hq0 by lia.
  exists q, e', s. eexists. split; [reflexivity|]. split; [done|]. rewrite <- Hm.
  split; [|split; [done|]; split; [lia|]; split; [lia|done]].
  rewrite target_eq. unfold e' at 1. unfold fexp, emin, prec64, emax64.
  destruct (Z.max_spec (Z.div2 (d + e + 1) - 53) (3 - 1024 - 53)) as [[? ->]|[? ->]]; [lia|].
  set (k := (d + s + 1) / 2).
  assert (1 ≤ k) as Hk by (unfold k; apply Z.div_le_lower_bound; lia).
  assert (2 * k ≤ d + s + 1) as Hk2 by (unfold k; apply Z.mul_div_le; lia).
  assert (Z.div2 (d + e + 1) = k + e') as ->.
  { rewrite Z.div2_div. replace (d + e + 1) with (d + s + 1 + e' * 2) by (unfold s; lia).
    by rewrite Z.div_add by lia. }
  assert (k ≤ Zdigits2 q); [|lia]. replace k with (k - 1 + 1) by lia.
  apply Zdigits2_ge; [lia|].
  destruct (Z.le_gt_cases (2 ^ (k - 1)) q) as [|Hlt]; [done|exfalso].
  assert (2 ^ (k - 1) * 2 ^ (k - 1) ≤ m') as Hsq.
  { rewrite Hm, <- Z.pow_add_r by lia. etransitivity; [apply (Z.pow_le_mono_r 2 _ (d - 1 + s)); lia|].
    rewrite Z.pow_add_r by lia. apply Z.mul_le_mono_nonneg_r; lia. }
  set (P := 2 ^ (k - 1)) in *. clearbody P. nia.
Qed.

Lemma fsqrt_ok x : f64_ok x = true → f64_ok (fsqrt x) = true.
Proof.
  destruct x as [| | |[] m e]; try done; [by destruct s|]. intros _.
  destruct (fsqrt_parts m e) as (q & e' & s & loc & -> & Hq & Ht & _).
  destruct (round_aux_pack false q e' loc Hq Ht) as (r' & _ & Hform & ->). by apply pack_ok.
Qed.

Lemma normalize_ok z s : f64_ok (binary_normalize prec64 emax64 z 0 s) = true.
Proof. apply (normalize_rounded z 0 s). lia. Qed.

Lemma ffloor_ok x : f64_ok x = true → f64_ok (ffloor x) = true.
Proof.
  destruct x as [| | |s m e]; try done. intros Hx. cbn [ffloor]. step_if; [done|].
  cbv zeta. step_if; [done|]. apply normalize_ok.
Qed.

Lemma fround_ok x : f64_ok x = true → f64_ok (fround x) = true.
Proof.
  destruct x as [| | |s m e]; try done. intros Hx. cbn [fround]. step_if; [done|].
  cbv zeta. step_if; [done|]. apply normalize_ok.
Qed.

(** A datum of at least one truncates to a positive integer. *)
Lemma as_u32_positive x : f64_ok x = true → fle (f64_of_N 1) x = true → (1 ≤ as_u32 x)%N.
Proof.
  intros Hx Hle. destruct (is_finite x) eqn:Hf.
  - rewrite as_u32_finite by done.
    assert (int_part (f64_of_N 1) ≤ int_part x) as Hm.
    { apply int_part_mono; try done. unfold nonneg. apply (fle_trans _ (f64_of_N 1)); done. }
    change (int_part (f64_of_N 1)) with 1 in Hm. unfold u32_max. lia.
  - destruct x as [|[]| |]; done.
Qed.

Lemma as_u32_bound x : (as_u32 x ≤ u32_max)%N.
Proof. destruct x as [|[]| |]; unfold as_u32; lia. Qed.
End Roundings.

Lemma rounded_u32_ok x n : f64_ok x = true → rounded_u32 x = Ok n → is_u32 n ∧ 1 ≤ n.
Proof.
  unfold rounded_u32. intros Hx H. step_if_in H; [done|]. injection H as <-. reflect_bool.
  split; [apply as_u32_bound|]. apply as_u32_positive; [done|].
  assert (is_finite x = true) as Hf by (by destruct (is_finite x)).
  apply flt_false_fle; try done; by apply is_finite_not_nan.
Qed.

Lemma scale_visual_ok v s n : f64_ok s = true → scale_visual v s = Ok n → is_u32 n ∧ 1 ≤ n.
Proof. intros Hs. apply rounded_u32_ok, fround_ok, fmul_ok; [apply f64_of_N_ok|done]. Qed.

(** ** The transfer size *)

Lemma shrink_ends fuel maximum w h :
  1 ≤ maximum → 1 ≤ w → 1 ≤ h → w + h ≤ N.of_nat fuel →
  ∃ w' h', shrink fuel maximum w h = Some (w', h') ∧ 1 ≤ w' ≤ w ∧ 1 ≤ h' ≤ h ∧ w' * h' ≤ maximum.
Proof.
  intros Hm. revert w h. induction fuel as [|fuel IH]; intros w h Hw Hh Hf; [lia|].
  cbn [shrink]. destruct (N.ltb_spec maximum (w * h)) as [Hlt|Hle].
  - destruct (N.leb_spec h w) as [Hhw|Hhw].
    + assert (2 ≤ w) by nia. replace (N.max (w - 1) 1) with (w - 1) by lia.
      destruct (IH (w - 1) h) as (w' & h' & -> & ? & ? & ?); [lia..|].
      exists w', h'. split_and!; lia || done.
    + assert (2 ≤ h) by nia. replace (N.max (h - 1) 1) with (h - 1) by lia.
      destruct (IH w (h - 1)) as (w' & h' & -> & ? & ? & ?); [lia..|].
      exists w', h'. split_and!; lia || done.
  - exists w, h. split_and!; lia || done.
Qed.

(** The transfer size is total; it is the logical size whenever that fits. *)
Lemma transfer_size_spec w h :
  is_u32 w → is_u32 h →
  ∃ r, bounded_transfer_size w h = Some r ∧
    match r with
    | Ok size => 1 ≤ PhysicalSize.width size ∧ 1 ≤ PhysicalSize.height size ∧
        PhysicalSize.width size * PhysicalSize.height size ≤ MAX_FRAME_PIXELS ∧
        (w * h ≤ MAX_FRAME_PIXELS → size = PhysicalSize.mk w h)
    | Err e => e = ScaledGeometryOverflow ∧ (w = 0 ∨ h = 0)
    end.
Proof.
  intros Hw Hh. unfold bounded_transfer_size.
  destruct ((w =? 0) || (h =? 0)) eqn:H0.
  { eexists. split; [done|]. split; [done|]. apply orb_true_iff in H0 as [?%N.eqb_eq|?%N.eqb_eq]; auto. }
  apply orb_false_iff in H0 as [Hw0%N.eqb_neq Hh0%N.eqb_neq]. cbv zeta.
  destruct (N.ltb_spec u64_max (w * h)) as [Hbig|_].
  { exfalso. unfold is_u32, u32_max, u64_max in *. nia. }
  destruct (N.leb_spec (w * h) MAX_FRAME_PIXELS) as [Hfit|Hbig].
  { eexists. split; [done|]. cbn. split_and!; done || lia. }
  set (scale := fsqrt _). assert (f64_ok scale = true) as Hscale.
  { apply fsqrt_ok, fdiv_ok; apply f64_of_N_ok. }
  clearbody scale. set (side n := as_u32 (fmax (ffloor (mul64 (f64_of_N n) scale)) (f64_of_N 1))).
  assert (∀ n, 1 ≤ side n) as Hside.
  { intros n. apply as_u32_positive.
    - apply fmax_ok; [|apply f64_of_N_ok]. apply ffloor_ok, fmul_ok; [apply f64_of_N_ok|done].
    - by apply fmax_lower. }
  fold (side w) (side h).
  destruct (shrink_ends (N.to_nat (side w + side h)) MAX_FRAME_PIXELS (side w) (side h))
    as (w' & h' & -> & [? _] & [? _] & ?); [done|done|done|lia|].
  eexists. split; [done|]. cbn [PhysicalSize.width PhysicalSize.height]. split_and!; done || lia.
Qed.

(** ** The rectangles *)

Definition inside (r c : PhysicalRect.t) : Prop :=
  (left c ≤ left r ∧ left r + Z.of_N (width r) ≤ left c + Z.of_N (width c) ∧
   top c ≤ top r ∧ top r + Z.of_N (height r) ≤ top c + Z.of_N (height c))%Z.

(** [a] and [b] lie side by side and make up [r]. *)
Definition splits (r a b : PhysicalRect.t) : Prop :=
  left a = left r ∧ left b = (left a + Z.of_N (width a))%Z ∧ width a + width b = width r ∧
  top a = top r ∧ top b = top r ∧ height a = height r ∧ height b = height r.

Definition on_screen (r : PhysicalRect.t) : Prop := is_i32 (left r) ∧ is_i32 (top r).

Record geometry_ok (client : PhysicalRect.t) (requested : N) (g : LayoutGeometry) : Prop := {
  go_mini : inside (mini_bounds g) client;
  go_square : height (mini_bounds g) = width (mini_bounds g);
  go_size : 1 ≤ width (mini_bounds g) ≤ requested;
  go_expanded : inside (expanded_bounds g) client;
  go_minimum : 560 ≤ width (expanded_bounds g) ∧ 315 ≤ height (expanded_bounds g);
  go_split : splits (expanded_bounds g) (rail_rect g) (map_rect g);
  go_screen : Forall on_screen [mini_bounds g; expanded_bounds g; rail_rect g; map_rect g];
}.

Lemma checked_screen_add_ok base offset z :
  checked_screen_add base offset = Ok z → z = (base + Z.of_N offset)%Z ∧ is_i32 z.
Proof. by intros [-> ?]%ok_or_ok%i32_try_from_some. Qed.

Lemma half_room a b : b ≤ a → (Z.of_N ((a - b) / 2) + Z.of_N b ≤ Z.of_N a)%Z.
Proof. intros Hle. pose proof (N.Div0.mul_div_le (a - b) 2). lia. Qed.

Lemma layout_geometry_ok client dpi requested g :
  layout_geometry client dpi requested = Ok g → geometry_ok client requested g.
Proof.
  unfold layout_geometry. step_if; [done|]. step_if; [done|].
  assert (scale_visual (expanded_width_dip OVERLAY_VISUAL_V1) MIN_RESPONSIVE_UI_SCALE = Ok 560) as -> by (by vm_compute).
  assert (scale_visual (expanded_height_dip OVERLAY_VISUAL_V1) MIN_RESPONSIVE_UI_SCALE = Ok 315) as -> by (by vm_compute).
  cbv zeta. intros (inset & _ & Hk)%and_then_ok. apply and_then_ok in Hk as (ew & _ & Hk).
  apply and_then_ok in Hk as (eh & _ & Hk). cbn [and_then] in Hk. step_if_in Hk; [done|].
  apply and_then_ok in Hk as (rail & _ & Hk). apply and_then_ok in Hk as (radius & _ & Hk).
  apply and_then_ok in Hk as (wcap & _ & Hk). apply and_then_ok in Hk as (hcap & _ & Hk).
  match type of Hk with context [N.min ?a (height client - ?b)] => set (size := N.min a (height client - b)) in * end.
  assert (size ≤ requested) as Hsize by lia. clearbody size.
  step_if_in Hk; [done|].
  apply and_then_ok in Hk as (mw & Hmw%ok_or_ok%checked_sub_u32_some & Hk).
  apply and_then_ok in Hk as (insets & [-> _]%ok_or_ok%checked_u32_some & Hk).
  apply and_then_ok in Hk as (rw & [-> _]%ok_or_ok%checked_u32_some & Hk).
  apply and_then_ok in Hk as (rh & [-> _]%ok_or_ok%checked_u32_some & Hk).
  step_if_in Hk; [done|].
  apply and_then_ok in Hk as (ml & [-> ?]%checked_screen_add_ok & Hk).
  apply and_then_ok in Hk as (mt & [-> ?]%checked_screen_add_ok & Hk).
  apply and_then_ok in Hk as (el & [-> ?]%checked_screen_add_ok & Hk).
  apply and_then_ok in Hk as (et & [-> ?]%checked_screen_add_ok & Hk).
  apply and_then_ok in Hk as (pl & [-> ?]%checked_screen_add_ok & Hk).
  injection Hk as <-. reflect_bool.
  pose proof (half_room (width client) ew ltac:(lia)). pose proof (half_room (height client) eh ltac:(lia)).
  set (dx := (width client - ew) / 2) in *. set (dy := (height client - eh) / 2) in *. clearbody dx dy.
  split; unfold inside, splits, on_screen; cbn [mini_bounds expanded_bounds rail_rect map_rect left top width height].
  - lia.
  - done.
  - lia.
  - lia.
  - lia.
  - split_and!; lia || done.
  - rewrite !Forall_cons. split_and!; done.
Qed.

(** C30: whenever the overlay accepts a client area, both layouts stay inside it. The
    compact map is a non-empty square no larger than requested; the expanded surface is at
    least 560 by 315 pixels, its rail and its viewport lie side by side and make it up
    exactly; every corner is a valid screen coordinate. The loop that fits the picture into
    the shared frame always ends, with a non-empty size of at most the pixels of a frame,
    which is the viewport itself if that fits. *)
Theorem layouts_inside_client (client : PhysicalRect.t) (dpi requested : N) :
  is_u32 (width client) → is_u32 (height client) →
  ∃ r, top_left_overlay_layouts client dpi requested = Some r ∧
  ∀ l, r = Ok l →
    host_rect (mini l) = client ∧ host_rect (expanded l) = client ∧
    control_rail_rect (mini l) = None ∧
    let m := bounds (surface_shape (mini l)) in
    let e := bounds (surface_shape (expanded l)) in
    let v := map_viewport_rect (expanded l) in
    let t := viewport_size (expanded l) in
    inside m client ∧ height m = width m ∧ 1 ≤ width m ≤ requested ∧ map_viewport_rect (mini l) = m ∧
    inside e client ∧ 560 ≤ width e ∧ 315 ≤ height e ∧
    (∃ rail, control_rail_rect (expanded l) = Some rail ∧ splits e rail v ∧ on_screen rail) ∧
    on_screen m ∧ on_screen e ∧ on_screen v ∧
    1 ≤ PhysicalSize.width t ∧ 1 ≤ PhysicalSize.height t ∧
    PhysicalSize.width t * PhysicalSize.height t ≤ MAX_FRAME_PIXELS ∧
    (width v * height v ≤ MAX_FRAME_PIXELS → t = PhysicalSize.mk (width v) (height v)).
Proof.
  intros Hw Hh. unfold top_left_overlay_layouts.
  destruct (layout_geometry client dpi requested) as [g|e] eqn:Hg; [|by eexists].
  apply layout_geometry_ok in Hg as [Hm Hsq Hsz He [Hew Heh] Hsp Hsc].
  rewrite !Forall_cons in Hsc. destruct Hsc as (? & ? & ? & ? & _).
  assert (is_u32 (width (map_rect g)) ∧ is_u32 (height (map_rect g))) as [Hmw Hmh].
  { destruct Hsp as (? & ? & ? & ? & ? & ? & ?). unfold inside, is_u32 in *. lia. }
  destruct (transfer_size_spec _ _ Hmw Hmh) as (r & -> & Hr). cbn [mbind option_bind].
  eexists. split; [done|]. intros l Hl. destruct r as [size|]; [|done]. injection Hl as <-.
  destruct Hr as (? & ? & ? & ?).
  cbn [layouts_of mini expanded host_rect control_rail_rect surface_shape bounds map_viewport_rect viewport_size].
  split_and!; try (done || lia). by exists (rail_rect g).
Qed.

Definition demo_client : PhysicalRect.t := PhysicalRect.mk (-8) 30 1920 1080.

Lemma layouts_inside_client_witness :
  match top_left_overlay_layouts demo_client 144 420 with
  | Some (Ok l) =>
      bounds (surface_shape (mini l)) = PhysicalRect.mk 11 49 410 410 ∧
      bounds (surface_shape (expanded l)) = PhysicalRect.mk 107 95 1690 950 ∧
      inside (bounds (surface_shape (expanded l))) demo_client ∧
      PhysicalSize.width (viewport_size (expanded l)) * PhysicalSize.height (viewport_size (expanded l))
        ≤ MAX_FRAME_PIXELS
  | _ => False
  end.
Proof.
  assert (match top_left_overlay_layouts demo_client 144 420 with
          | Some (Ok l) => (bounds (surface_shape (mini l)), bounds (surface_shape (expanded l)))
          | _ => (demo_client, demo_client)
          end = (PhysicalRect.mk 11 49 410 410, PhysicalRect.mk 107 95 1690 950)) as Hrun
    by (vm_compute; reflexivity).
  destruct (layouts_inside_client demo_client 144 420) as (r & Hr & H); [done..|].
  destruct (top_left_overlay_layouts demo_client 144 420) as [[l|e]|]; [|discriminate Hrun..].
  injection Hr as <-. injection Hrun as Hmini Hexp. specialize (H l eq_refl). cbv zeta in H.
  split; [exact Hmini|]. split; [exact Hexp|]. split; apply H.
Defined.
