(* ===== verification/FloatCast.v ===== *)
(** * Casts and the fused product

    [f64::mul_add] and the casts to [i32] that the software rasterizer uses, with the value
    of [floor] and [round] of a non-negative datum as a division of integers. *)

From S2P Require Import Prelude Floats FloatInt FloatRound Placement.

Local Open Scope Z_scope.

(** [x.mul_add(y, z)]: the product and the sum with one rounding. A product with a zero, an
    infinity or a NaN is exact already. *)
Definition mul_add (x y z : f64) : f64 :=
  match x, y with
  | S754_finite sx mx ex, S754_finite sy my ey =>
      match z with
      | S754_finite sz mz ez =>
          let e := Z.min (ex + ey) ez in
          binary_normalize prec64 emax64
            (cond_Zopp (xorb sx sy) (Zpos (mx * my) * 2 ^ (ex + ey - e))
             + cond_Zopp sz (Zpos mz * 2 ^ (ez - e))) e false
      | S754_zero _ => mul64 x y
      | _ => z
      end
  | _, _ => add64 (mul64 x y) z
  end.

(** [x as i32]: truncation that saturates; NaN becomes zero. *)
Definition as_i32 (x : f64) : Z :=
  match x with
  | S754_finite s m e =>
      let t := cond_Zopp s (if 0 <=? e then Zpos m * 2 ^ e else Zpos m / 2 ^ (- e)) in
      Z.max i32_min (Z.min t i32_max)
  | S754_infinity s => if s then i32_min else i32_max
  | _ => 0
  end.

(** [f64::from] of an [i32]. *)
Definition f64_of_i32 (z : Z) : f64 := f64_of_Z z.

(** The value of an [i32] sum or product in the shipped profile, which wraps. *)
Definition wrap_i32 (z : Z) : Z := (z + 2147483648) mod 4294967296 - 2147483648.

Lemma wrap_i32_id z : is_i32 z → wrap_i32 z = z.
Proof. unfold is_i32, i32_min, i32_max, wrap_i32. intros. rewrite Z.mod_small by lia. lia. Qed.

Lemma as_i32_range x : is_i32 (as_i32 x).
Proof.
  unfold is_i32. destruct x as [|[]| |s m e]; [by vm_compute..|]. cbn [as_i32]. unfold i32_min, i32_max. lia.
Qed.

(** ** Results are data of the format *)

Lemma binary_round_ok s m e : -2148 ≤ e → f64_ok (binary_round prec64 emax64 s m e) = true.
Proof.
  intros He. unfold binary_round.
  change (fexp prec64 emax64 (Zpos (digits2_pos m) + e)) with (target (Zpos m) e).
  pose proof (shl_align_target m e) as Ha. pose proof (target_eq (Zpos m) e) as Ht'.
  assert (∃ mz ez, shl_align m e (target (Zpos m) e) = (mz, ez) ∧ -2148 ≤ ez) as (mz & ez & Hs & Hez).
  { unfold shl_align. destruct (target (Zpos m) e - e) eqn:Hd; eexists _, _; (split; [done|lia]). }
  rewrite Hs in *. destruct Ha as (Ht & _).
  destruct (round_exact s (Zpos mz) ez) as (R & f & -> & Hro); [lia..|]. apply pack_ok, Hro.
Qed.

Lemma normalize_any_ok z e s : -2148 ≤ e → f64_ok (binary_normalize prec64 emax64 z e s) = true.
Proof. intros He. destruct z; [done|by apply binary_round_ok..]. Qed.

Lemma mul_add_ok x y z : f64_ok x = true → f64_ok y = true → f64_ok z = true → f64_ok (mul_add x y z) = true.
Proof.
  intros Hx Hy Hz. pose proof (fmul_ok x y Hx Hy) as Hm.
  assert (f64_ok (add64 (mul64 x y) z) = true) by by apply fadd_ok.
  destruct x as [| | |sx mx ex], y as [| | |sy my ey]; [done..|].
  destruct z as [| | |sz mz ez]; [done..|]. cbn [mul_add].
  apply f64_ok_finite in Hx as (? & _), Hy as (? & _), Hz as (? & _). apply normalize_any_ok. lia.
Qed.

(** ** Rounding a non-negative datum to an integer *)

Lemma val_nonneg x : data x → 0 ≤ val x → (∃ s, x = S754_zero s) ∨ ∃ m e, x = S754_finite false m e.
Proof.
  intros [Ho Hf] Hv. destruct x as [s|s| |[] m e]; try done; eauto. exfalso.
  apply f64_ok_finite in Ho as (He & _). pose proof (weight_pos e ltac:(lia)). cbn [val cond_Zopp] in Hv. nia.
Qed.

Lemma weight_unit e : -2148 ≤ e ≤ 0 → unit_val = 2 ^ (- e) * weight e.
Proof. intros He. change unit_val with (weight 0). rewrite (weight_split 0 e) by lia. do 2 f_equal. Qed.

Lemma as_u32_finite_pos m e :
  as_u32 (S754_finite false m e) = N.min (Z.to_N (if 0 <=? e then Zpos m * 2 ^ e else Zpos m / 2 ^ (- e))) u32_max.
Proof. done. Qed.

Lemma as_u32_of_Z z : 0 ≤ z < 2 ^ 53 → as_u32 (f64_of_Z z) = N.min (Z.to_N z) u32_max.
Proof.
  intros Hz. pose proof (of_N_int_part (Z.to_N z) ltac:(lia)) as Hi.
  destruct (of_N_ok (Z.to_N z) ltac:(lia)) as (_ & Hf & _). unfold f64_of_N in *. rewrite Z2N.id in * by lia.
  by rewrite as_u32_finite, Hi.
Qed.

Lemma as_u32_value x :
  data x → 0 ≤ val x → as_u32 x = N.min (Z.to_N (val x / unit_val)) u32_max.
Proof.
  intros Hx Hv. destruct (val_nonneg x Hx Hv) as [[s ->]|(m & e & ->)]; [by destruct s|].
  destruct Hx as [(He & _)%f64_ok_finite _]. rewrite as_u32_finite_pos. cbn [val cond_Zopp].
  pose proof (weight_pos e ltac:(lia)). destruct (Z.leb_spec 0 e) as [H0|H0].
  - rewrite (weight_split e 0), Z.mul_assoc by lia. change (weight 0) with unit_val.
    rewrite Z.div_mul, Z.sub_0_r by done. done.
  - rewrite (weight_unit e) by lia. rewrite Z.div_mul_cancel_r; [done| |lia].
    pose proof (Z.pow_pos_nonneg 2 (- e)). lia.
Qed.

Lemma as_u32_fround x :
  data x → 0 ≤ val x →
  as_u32 (fround x) = N.min (Z.to_N ((2 * val x + unit_val) / (2 * unit_val))) u32_max.
Proof.
  intros Hx Hv. destruct (val_nonneg x Hx Hv) as [[s ->]|(m & e & ->)]; [by destruct s|].
  destruct Hx as [(He & Hm & _)%f64_ok_finite _]. cbn [fround cond_Zopp].
  pose proof (weight_pos e ltac:(lia)) as Hw. destruct (Z.leb_spec 0 e) as [H0|H0].
  - rewrite as_u32_finite_pos. destruct (Z.leb_spec 0 e); [|lia]. do 2 f_equal. cbn [val cond_Zopp].
    rewrite (weight_split e 0), Z.sub_0_r by lia. change (weight 0) with unit_val.
    pose proof unit_val_pos. apply (Z.div_unique _ _ _ unit_val); lia.
  - assert (0 < 2 ^ (- e)) as Hp by (apply Z.pow_pos_nonneg; lia).
    assert (2 ^ (1 - e) = 2 * 2 ^ (- e)) as H1 by (rewrite <- Z.pow_succ_r by lia; f_equal; lia).
    rewrite H1. set (q := (2 * Zpos m + 2 ^ (- e)) / (2 * 2 ^ (- e))).
    assert ((2 * val (S754_finite false m e) + unit_val) / (2 * unit_val) = q) as ->.
    { cbn [val cond_Zopp]. rewrite (weight_unit e) by lia.
      replace (2 * (Zpos m * weight e) + 2 ^ (- e) * weight e) with ((2 * Zpos m + 2 ^ (- e)) * weight e) by lia.
      rewrite Z.mul_assoc. by rewrite Z.div_mul_cancel_r by lia. }
    assert (0 ≤ q) as Hq by (apply Z.div_pos; lia).
    assert (q < 2 ^ 53) as Hq2.
    { apply Z.div_lt_upper_bound; [lia|].
      assert (2 ^ 1 ≤ 2 ^ (- e)) by (apply Z.pow_le_mono_r; lia). nia. }
    destruct (Z.eqb_spec q 0) as [->|]; [done|]. apply (as_u32_of_Z q). lia.
Qed.

Lemma as_u32_ffloor x :
  data x → 0 ≤ val x → as_u32 (ffloor x) = N.min (Z.to_N (val x / unit_val)) u32_max.
Proof.
  intros Hx Hv. destruct (val_nonneg x Hx Hv) as [[s ->]|(m & e & ->)]; [by destruct s|].
  pose proof (as_u32_value _ Hx Hv) as Hval. cbn [ffloor cond_Zopp].
  destruct Hx as [(He & Hm & _)%f64_ok_finite _]. destruct (Z.leb_spec 0 e) as [H0|H0]; [done|].
  rewrite as_u32_finite_pos in Hval. destruct (Z.leb_spec 0 e); [lia|]. rewrite <- Hval.
  assert (0 ≤ Zpos m / 2 ^ (- e)) by (apply Z.div_pos; [lia|apply Z.pow_pos_nonneg; lia]).
  assert (Zpos m / 2 ^ (- e) < 2 ^ 53) as Hq2.
  { apply Z.div_lt_upper_bound; [apply Z.pow_pos_nonneg; lia|].
    assert (2 ^ 0 ≤ 2 ^ (- e)) by (apply Z.pow_le_mono_r; lia). nia. }
  destruct (Z.eqb_spec (Zpos m / 2 ^ (- e)) 0) as [->|]; [done|]. by apply as_u32_of_Z.
Qed.

(** A difference of two numbers of units that is a number of units is exact. *)
Lemma representable_units k : Z.abs k ≤ 2 ^ 53 → representable (k * unit_val).
Proof.
  intros Hk. change unit_val with (weight 0). split.
  - rewrite Z.abs_mul, (Z.abs_eq (weight 0)) by (pose proof (weight_pos 0); lia).
    unfold max_val. rewrite (weight_split 971 0) by lia. pose proof (weight_pos 0 ltac:(lia)).
    assert (2 ^ 2 ≤ 2 ^ (971 - 0)) by (apply Z.pow_le_mono_r; lia).
    set (Q := 2 ^ (971 - 0)) in *. set (w := weight 0) in *. clearbody Q w. nia.
  - exists k, 0. split; [lia|]. done.
Qed.

Lemma rounded_units V k r : rounded V 1 r → V = k * unit_val → Z.abs k ≤ 2 ^ 53 → data r ∧ val r = k * unit_val.
Proof.
  intros [Ho _ Hb _ _ _ _] -> Hk. pose proof (representable_units k Hk) as Hr.
  destruct (Hb _ _ Hr Hr) as [Hf Hv]; [lia|]. split; [by split|lia].
Qed.

(** Bits above a number are added to it. *)
Lemma lor_shiftl_low a b k : (a < 2 ^ k)%N → N.lor (N.shiftl b k) a = (b * 2 ^ k + a)%N.
Proof.
  intros Ha. rewrite <- N.shiftl_mul_pow2, <- N.lxor_lor, <- N.add_nocarry_lxor; try done.
  all: apply N.bits_inj; intros n; rewrite N.land_spec, N.bits_0; destruct (N.lt_ge_cases n k).
  1,3: by rewrite N.shiftl_spec_low.
  all: by rewrite <- (N.mod_small a (2 ^ k)), N.mod_pow2_bits_high, andb_false_r.
Qed.

Lemma val_fclamp x lo hi :
  data x → data lo → data hi → val lo ≤ val hi →
  data (fclamp x lo hi) ∧ val (fclamp x lo hi) = Z.max (val lo) (Z.min (val x) (val hi)).
Proof.
  intros Hx Hlo Hhi Hle. unfold fclamp.
  destruct (flt x lo) eqn:H1; [apply flt_val in H1; [|done..]; split; [done|lia]|].
  apply not_true_iff_false in H1. rewrite flt_val in H1 by done.
  destruct (flt hi x) eqn:H2; [apply flt_val in H2; [|done..]; split; [done|lia]|].
  apply not_true_iff_false in H2. rewrite flt_val in H2 by done. split; [done|lia].
Qed.

(** ** Results that are not NaN *)

Lemma binary_round_not_nan s m e : -2148 ≤ e → is_nan (binary_round prec64 emax64 s m e) = false.
Proof.
  intros He. unfold binary_round.
  change (fexp prec64 emax64 (Zpos (digits2_pos m) + e)) with (target (Zpos m) e).
  pose proof (shl_align_target m e) as Ha. pose proof (target_eq (Zpos m) e) as Ht'.
  assert (∃ mz ez, shl_align m e (target (Zpos m) e) = (mz, ez) ∧ -2148 ≤ ez) as (mz & ez & Hs & Hez).
  { unfold shl_align. destruct (target (Zpos m) e - e) eqn:Hd; eexists _, _; (split; [done|lia]). }
  rewrite Hs in *. destruct Ha as (Ht & _).
  destruct (round_exact s (Zpos mz) ez) as (R & f & -> & _); [lia..|]. apply pack_not_nan.
Qed.

Lemma mul_add_not_nan x y z : data x → data y → data z → is_nan (mul_add x y z) = false.
Proof.
  intros Hx Hy Hz. pose proof (fmul_rounded x y Hx Hy) as Hm. pose proof (rd_not_nan _ _ _ Hm) as Hn.
  assert ((∃ s, mul64 x y = S754_zero s) → is_nan (add64 (mul64 x y) z) = false) as Hzero.
  { intros [s Hs]. rewrite Hs. apply (rd_not_nan _ _ _ (fadd_rounded (S754_zero s) z ltac:(done) Hz)). }
  destruct Hx as [Hx Fx], Hy as [Hy Fy], Hz as [Hz Fz].
  destruct x as [| | |sx mx ex], y as [| | |sy my ey]; try done; try (apply Hzero; by eexists).
  destruct z as [| | |sz mz ez]; try done. cbn [mul_add].
  apply f64_ok_finite in Hx as (? & _), Hy as (? & _), Hz as (? & _).
  set (m := (_ + _)%Z). destruct m; [done|by apply binary_round_not_nan; lia..].
Qed.

Lemma fmul_not_nan x y : is_nan x = false → f64_ok x = true → data y → val y ≠ 0 → is_nan (mul64 x y) = false.
Proof.
  intros Hn Ho Hy Hv. destruct (data_cases x Ho) as [Hx|Hx].
  - apply (rd_not_nan _ _ _ (fmul_rounded x y Hx Hy)).
  - destruct x as [|s| |]; try done. destruct Hy as [_ Hy]. destruct y; done.
Qed.

Lemma fsub_not_nan x y : data x → is_nan y = false → f64_ok y = true → is_nan (sub64 x y) = false.
Proof.
  intros Hx Hn Ho. destruct (data_cases y Ho) as [Hy|Hy].
  - apply (rd_not_nan _ _ _ (fsub_rounded x y Hx Hy)).
  - destruct y as [|s| |]; try done. destruct Hx as [_ Hx]. by destruct x.
Qed.

(** Clamping anything but NaN gives a datum between the bounds. *)
Lemma fclamp_between x lo hi :
  is_nan x = false → f64_ok x = true → data lo → data hi → val lo ≤ val hi →
  data (fclamp x lo hi) ∧ val lo ≤ val (fclamp x lo hi) ≤ val hi.
Proof.
  intros Hn Ho Hlo Hhi Hle. destruct (data_cases x Ho) as [Hx|Hx].
  { destruct (val_fclamp x lo hi Hx Hlo Hhi Hle) as [Hd ->]. split; [done|lia]. }
  destruct x as [|s| |]; try done. unfold fclamp. destruct s.
  - assert (flt (S754_infinity true) lo = true) as -> by (destruct Hlo as [_ Hlo]; by destruct lo as [| | |[]]).
    split; [done|lia].
  - assert (flt (S754_infinity false) lo = false) as -> by (destruct Hlo as [_ Hlo]; by destruct lo as [| | |[]]).
    assert (flt hi (S754_infinity false) = true) as -> by (destruct Hhi as [_ Hhi]; by destruct hi as [| | |[]]).
    split; [done|lia].
Qed.

Lemma fround_not_nan x : is_nan x = false → is_nan (fround x) = false.
Proof.
  destruct x as [| | |s m e]; try done. intros _. cbn [fround]. destruct (0 <=? e); [done|].
  set (q := _ / _). destruct (q =? 0); [done|]. apply (rd_not_nan _ _ _ (normalize_rounded _ 0 _ ltac:(lia))).
Qed.

(** Results within whole-number bounds. *)
Lemma units_between V P r lo hi :
  rounded V P r → Z.abs lo ≤ 2 ^ 53 → Z.abs hi ≤ 2 ^ 53 → lo * unit_val * P ≤ V ≤ hi * unit_val * P →
  data r ∧ lo * unit_val ≤ val r ≤ hi * unit_val.
Proof.
  intros [Ho _ Hb _ _ _ _] Hlo Hhi HV.
  destruct (Hb _ _ (representable_units lo Hlo) (representable_units hi Hhi) HV). by split; [split|].
Qed.

Definition between_units (lo hi : Z) (x : f64) : Prop := data x ∧ lo * unit_val ≤ val x ≤ hi * unit_val.

Lemma add_between a b c d x y :
  between_units a b x → between_units c d y → Z.abs (a + c) ≤ 2 ^ 53 → Z.abs (b + d) ≤ 2 ^ 53 →
  between_units (a + c) (b + d) (add64 x y).
Proof.
  intros [Dx Vx] [Dy Vy] H1 H2. apply (units_between _ _ _ _ _ (fadd_rounded x y Dx Dy)); [done..|lia].
Qed.

Lemma sub_between a b c d x y :
  between_units a b x → between_units c d y → Z.abs (a - d) ≤ 2 ^ 53 → Z.abs (b - c) ≤ 2 ^ 53 →
  between_units (a - d) (b - c) (sub64 x y).
Proof.
  intros [Dx Vx] [Dy Vy] H1 H2. apply (units_between _ _ _ _ _ (fsub_rounded x y Dx Dy)); [done..|lia].
Qed.

(** A product of numbers that are not negative. *)
Lemma mul_between b d x y :
  between_units 0 b x → between_units 0 d y → 0 ≤ b → 0 ≤ d → b * d ≤ 2 ^ 53 →
  between_units 0 (b * d) (mul64 x y).
Proof.
  intros [Dx Vx] [Dy Vy] Hb Hd H. pose proof unit_val_pos.
  apply (units_between _ _ _ _ _ (fmul_rounded x y Dx Dy)); [lia|nia|].
  set (U := unit_val) in *. clearbody U. split; [nia|].
  assert (val x * val y ≤ (b * U) * (d * U)) by (apply Z.mul_le_mono_nonneg; lia). nia.
Qed.

Lemma of_N_between n : (n < 2 ^ 53)%N → between_units (Z.of_N n) (Z.of_N n) (f64_of_N n).
Proof. intros Hn. destruct (f64_of_N_data n Hn) as [D V]. split; [done|lia]. Qed.

Lemma between_weaken a b c d x : between_units a b x → c ≤ a → b ≤ d → between_units c d x.
Proof. intros [D V] H1 H2. pose proof unit_val_pos. split; [done|nia]. Qed.

Lemma div_between b x y :
  between_units 0 b x → data y → unit_val ≤ val y → 0 ≤ b ≤ 2 ^ 53 → between_units 0 b (div64 x y).
Proof.
  intros [Dx Vx] Dy Vy Hb. pose proof unit_val_pos.
  assert (is_sign_negative y = false) as Hs.
  { destruct y as [[]|[]| |[] m e]; try done; try (cbn [val] in Vy; lia). exfalso.
    destruct Dy as [(He & _)%f64_ok_finite _]. pose proof (weight_pos e ltac:(lia)). cbn [val cond_Zopp] in Vy. nia. }
  pose proof (fdiv_rounded x y Dx Dy ltac:(lia)) as Hr. rewrite Hs, Z.abs_eq in Hr by lia. cbn [cond_Zopp] in Hr.
  apply (units_between _ _ _ _ _ Hr); [lia|lia|]. set (U := unit_val) in *. clearbody U. nia.
Qed.

(** ** Rounding to an [i32] *)

Lemma binary_round_neg m e : binary_round prec64 emax64 true m e = fneg (binary_round prec64 emax64 false m e).
Proof.
  unfold binary_round. destruct (shl_align _ _ _) as [mz ez]. unfold binary_round_aux.
  destruct (shr_fexp _ _ (Zpos mz) ez loc_Exact) as [r e1]. destruct (shr_fexp _ _ _ e1 loc_Exact) as [r' e2].
  destruct (shr_m r'); [done| |done]. by destruct (Z.leb e2 _).
Qed.

Lemma fround_fneg x : fround (fneg x) = fneg (fround x).
Proof.
  destruct x as [| | |s m e]; try done. cbn [fneg SFopp fround]. destruct (Z.leb_spec 0 e); [done|].
  set (q := _ / _). assert (0 ≤ q) by (apply Z.div_pos; [|apply Z.pow_pos_nonneg]; lia).
  destruct (Z.eqb_spec q 0); [done|]. destruct q as [|q|q]; [done| |lia].
  destruct s; [change (binary_round prec64 emax64 false q 0 = fneg (binary_round prec64 emax64 true q 0))|
    change (binary_round prec64 emax64 true q 0 = fneg (binary_round prec64 emax64 false q 0))];
    rewrite binary_round_neg; [|done].
  by destruct (binary_round prec64 emax64 false q 0) as [[]|[]| |[]].
Qed.

Lemma as_i32_nonneg y :
  is_sign_negative y = false → is_finite y = true → as_i32 y = Z.min (Z.of_N (as_u32 y)) i32_max.
Proof.
  destruct y as [s|s| |[] m e]; try done. intros _ _. rewrite as_u32_finite_pos. cbn [as_i32 cond_Zopp].
  set (t := if 0 <=? e then _ else _).
  assert (0 ≤ t).
  { unfold t. destruct (0 <=? e); [apply Z.mul_nonneg_nonneg; [lia|apply Z.pow_nonneg; lia]|].
    destruct (Z.le_gt_cases 0 (2 ^ (- e))) as [Hp|Hp]; [|pose proof (Z.pow_nonneg 2 (- e)); lia].
    destruct (decide (2 ^ (- e) = 0)) as [->|]; [done|]. apply Z.div_pos; lia. }
  unfold i32_max, i32_min, u32_max. lia.
Qed.

Lemma as_i32_fneg y : is_finite y = true → as_i32 y < i32_max → i32_min < as_i32 y → as_i32 (fneg y) = - as_i32 y.
Proof.
  destruct y as [s|s| |s m e]; try done. intros _. cbn [fneg SFopp as_i32]. unfold i32_max, i32_min.
  set (t := if 0 <=? e then _ else _). destruct s; cbn [negb cond_Zopp]; lia.
Qed.

Lemma fround_sign x :
  data x → 0 ≤ val x → val x < 2 ^ 52 * unit_val → fround x = S754_zero true ∨
  is_sign_negative (fround x) = false ∧ is_finite (fround x) = true.
Proof.
  intros Hx Hv Hmax. destruct (val_nonneg x Hx Hv) as [[[] ->]|(m & e & ->)]; [by left|by right|]. right.
  destruct Hx as [(He & Hm & _)%f64_ok_finite _]. cbn [fround cond_Zopp]. destruct (Z.leb_spec 0 e); [done|].
  set (q := _ / _). assert (0 ≤ q) by (apply Z.div_pos; [|apply Z.pow_pos_nonneg]; lia).
  destruct (Z.eqb_spec q 0); [done|]. destruct (of_Z_exact q) as (m' & e' & Hq & _).
  { split; [lia|]. apply Z.div_lt_upper_bound; [apply Z.pow_pos_nonneg; lia|].
    assert (2 ^ (1 - e) = 2 * 2 ^ (- e)) as -> by (rewrite <- Z.pow_succ_r by lia; f_equal; lia).
    assert (2 ^ 1 ≤ 2 ^ (- e)) by (apply Z.pow_le_mono_r; lia). nia. }
  change (binary_normalize prec64 emax64 q 0 false) with (f64_of_Z q). by rewrite Hq.
Qed.

Lemma round_i32_value x :
  data x → 0 ≤ val x ≤ 2000000000 * unit_val →
  as_i32 (fround x) = (2 * val x + unit_val) / (2 * unit_val) ∧ is_finite (fround x) = true.
Proof.
  intros Hx Hv. pose proof unit_val_pos as HU.
  assert (val x < 2 ^ 52 * unit_val) as Hmax by (change (2 ^ 52) with 4503599627370496; nia).
  pose proof (as_u32_fround x Hx (proj1 Hv)) as Hu.
  assert ((2 * val x + unit_val) / (2 * unit_val) < 2000000001) by (apply Z.div_lt_upper_bound; lia).
  assert (0 ≤ (2 * val x + unit_val) / (2 * unit_val)) by (apply Z.div_pos; lia).
  set (q := (2 * val x + unit_val) / (2 * unit_val)) in *. clearbody q.
  destruct (fround_sign x Hx (proj1 Hv) Hmax) as [Hr|[Hs Hf]].
  - rewrite Hr in *. split; [|done]. change (as_u32 (S754_zero true)) with 0%N in Hu. cbn [as_i32].
    unfold u32_max in Hu. lia.
  - split; [|done]. rewrite as_i32_nonneg, Hu by done. unfold u32_max, i32_max. lia.
Qed.

Lemma round_i32_nonneg x hi :
  data x → 0 ≤ val x ≤ hi * unit_val → 0 ≤ hi ≤ 2000000000 → 0 ≤ as_i32 (fround x) ≤ hi ∧ is_finite (fround x) = true.
Proof.
  intros Hx Hv Hhi. pose proof unit_val_pos as HU. destruct (round_i32_value x Hx) as [-> Hf]; [nia|]. split; [|done].
  assert ((2 * val x + unit_val) / (2 * unit_val) < hi + 1) by (apply Z.div_lt_upper_bound; lia).
  assert (0 ≤ (2 * val x + unit_val) / (2 * unit_val)) by (apply Z.div_pos; lia). lia.
Qed.

(** Rounding stays within whole-number bounds. *)
Lemma round_i32_between x lo hi :
  data x → lo * unit_val ≤ val x ≤ hi * unit_val → -2000000000 ≤ lo ≤ 0 → 0 ≤ hi ≤ 2000000000 →
  lo ≤ as_i32 (fround x) ≤ hi.
Proof.
  intros Hx Hv Hlo Hhi. destruct (Z.le_gt_cases 0 (val x)) as [H0|H0].
  - destruct (round_i32_nonneg x hi Hx) as [H _]; lia.
  - destruct (round_i32_nonneg (fneg x) (- lo) (data_fneg x Hx)) as [H Hf];
      [rewrite val_fneg; lia|unfold i32_min, i32_max in *; lia|].
    assert (x = fneg (fneg x)) as -> by (destruct x as [[]|[]| |[] ? ?]; done).
    rewrite fround_fneg, as_i32_fneg; [lia|done|..]; unfold i32_min, i32_max in *; lia.
Qed.

(** ** The fused product, rounded *)

Lemma normalize_rounded_low m e sz :
  -2148 ≤ e → rounded (m * weight e) 1 (binary_normalize prec64 emax64 m e sz).
Proof.
  intros He.
  assert (∀ s p, rounded (cond_Zopp s (Zpos p * weight e)) 1 (binary_round prec64 emax64 s p e)) as Hround.
  { intros s p. unfold binary_round.
    change (fexp prec64 emax64 (Zpos (digits2_pos p) + e)) with (target (Zpos p) e).
    pose proof (shl_align_target p e) as Ha. pose proof (target_eq (Zpos p) e) as Ht'.
    assert (∃ mz ez, shl_align p e (target (Zpos p) e) = (mz, ez) ∧ -2148 ≤ ez) as (mz & ez & Hs & Hez).
    { unfold shl_align. destruct (target (Zpos p) e - e) eqn:Hd; eexists _, _; (split; [done|lia]). }
    rewrite Hs in *. destruct Ha as (Ht & Hle & _ & Hv).
    destruct (round_exact s (Zpos mz) ez) as (R & f & -> & Hro); [lia..|].
    rewrite (weight_split e ez), Z.mul_assoc, <- Hv by lia.
    pose proof (weight_pos ez Hez). apply pack_rounded; [lia|lia|done]. }
  destruct m as [|m|m]; simpl.
  - by apply zero_rounded.
  - by apply (Hround false).
  - replace (Zneg m * weight e) with (- (Zpos m * weight e)) by lia. by apply (Hround true).
Qed.

Lemma mul_add_rounded x y z :
  data x → data y → data z → rounded (val x * val y + val z * unit_val) unit_val (mul_add x y z).
Proof.
  intros Hx Hy Hz. pose proof (fmul_rounded x y Hx Hy) as Hm. pose proof unit_val_pos as HU.
  assert ((∃ s, mul64 x y = S754_zero s) → val x * val y = 0 →
    rounded (val x * val y + val z * unit_val) unit_val (add64 (mul64 x y) z)) as Hzero.
  { intros [s Hs] H0. rewrite Hs, H0. pose proof (fadd_rounded (S754_zero s) z ltac:(done) Hz) as Hr.
    apply (rounded_scale _ _ unit_val) in Hr; [|done]. by rewrite Z.mul_1_l in Hr. }
  pose proof Hx as [Ox Fx]. pose proof Hy as [Oy Fy]. pose proof Hz as [Oz Fz].
  destruct x as [| | |sx mx ex], y as [| | |sy my ey]; try done;
    try (apply Hzero; [by eexists|cbn [val]; lia]).
  destruct z as [| | |sz mz ez]; try done.
  { cbn [mul_add]. by replace (val (S754_zero s) * unit_val) with 0 by done; rewrite Z.add_0_r. }
  cbn [mul_add]. apply f64_ok_finite in Ox as (? & _), Oy as (? & _), Oz as (? & _).
  set (e := Z.min (ex + ey) ez).
  pose proof (normalize_rounded_low (cond_Zopp (xorb sx sy) (Zpos (mx * my) * 2 ^ (ex + ey - e))
    + cond_Zopp sz (Zpos mz * 2 ^ (ez - e))) e false ltac:(lia)) as Hr.
  apply (rounded_scale _ _ unit_val) in Hr; [|done]. rewrite Z.mul_1_l in Hr.
  replace (val _ * val _ + val _ * unit_val)
    with ((cond_Zopp (xorb sx sy) (Zpos (mx * my) * 2 ^ (ex + ey - e)) + cond_Zopp sz (Zpos mz * 2 ^ (ez - e)))
          * weight e * unit_val); [done|].
  cbn [val]. rewrite (weight_split ez e) by lia.
  assert (weight ex * weight ey = 2 ^ (ex + ey - e) * weight e * unit_val) as Hw.
  { rewrite weight_mul, (weight_split (ex + ey) e) by lia. done. }
  rewrite Pos2Z.inj_mul.
  transitivity (cond_Zopp (xorb sx sy) (Zpos mx * Zpos my) * (weight ex * weight ey)
                + cond_Zopp sz (Zpos mz) * (2 ^ (ez - e) * weight e) * unit_val).
  - rewrite Hw. destruct sx, sy, sz; cbn [xorb cond_Zopp]; lia.
  - destruct sx, sy, sz; cbn [xorb cond_Zopp]; lia.
Qed.

(** ** The square root *)

(** The root is at most one part in a thousand too small. *)
Lemma fsqrt_lower x :
  data x → unit_val ≤ val x ≤ 2 ^ 30 * unit_val →
  data (fsqrt x) ∧ 0 < val (fsqrt x) ∧ (999 * 999) * (val x * unit_val) ≤ (1000 * val (fsqrt x)) * (1000 * val (fsqrt x)).
Proof.
  intros Hx Hv. pose proof unit_val_pos as HU.
  destruct (val_nonneg x Hx ltac:(lia)) as [[s0 ->]|(m & e & ->)]; [cbn [val] in Hv; lia|].
  destruct Hx as [(He & Hm & _)%f64_ok_finite _]. cbn [val cond_Zopp] in Hv.
  pose proof (digits2_pos_bounds m) as [Hd1 Hd2]. set (d := Zpos (digits2_pos m)) in *.
  assert (1 ≤ d ≤ 53) as Hd.
  { split; [unfold d; lia|]. unfold d. apply digits2_le; lia. }
  assert (1 ≤ d + e) as Hde.
  { destruct (Z.le_gt_cases 1 (d + e)) as [|Hlt]; [done|exfalso].
    rewrite (weight_unit e) in Hv by lia. pose proof (weight_pos e ltac:(lia)).
    assert (2 ^ d ≤ 2 ^ (- e)) by (apply Z.pow_le_mono_r; lia). nia. }
  assert (e ≤ 30) as He30.
  { destruct (Z.le_gt_cases e 30) as [|Hgt]; [done|exfalso].
    rewrite (weight_split e 0) in Hv by lia. change (weight 0) with unit_val in Hv.
    assert (2 ^ 31 ≤ 2 ^ (e - 0)) by (apply Z.pow_le_mono_r; lia).
    destruct Hv as [_ Hv]. rewrite Z.mul_assoc in Hv. apply Z.mul_le_mono_pos_r in Hv; [|done].
    change (2 ^ 31) with 2147483648 in *. change (2 ^ 30) with 1073741824 in *. nia. }
  destruct (fsqrt_parts m e) as (q & e' & s & loc & Hr & Hq & Ht & Hs & Hes & [Hq1 Hq2] & He'). rewrite Hr.
  assert (-52 ≤ e') as Hlow.
  { rewrite He'. fold d. rewrite !Z.div2_div. unfold fexp, emin, prec64, emax64.
    assert (1 ≤ (d + e + 1) / 2) by (apply Z.div_le_lower_bound; lia).
    assert (-26 ≤ e / 2) by (apply Z.div_le_lower_bound; lia). lia. }
  pose proof (target_eq q e') as Hte.
  assert (53 ≤ Zdigits2 q) as Hdq by lia.
  assert (0 < q) as Hqpos.
  { destruct (Z.le_gt_cases q 0); [|done]. replace q with 0 in Hdq by lia. cbn in Hdq. lia. }
  pose proof (Zdigits2_bounds q Hqpos) as [Hb1 _].
  assert (Zdigits2 q ≤ 53 + s) as Hdq2.
  { apply Zdigits2_le; [lia|]. rewrite Z.pow_add_r by lia. split; [lia|].
    pose proof (Z.pow_pos_nonneg 2 s ltac:(lia) Hs). nia. }
  destruct (round_aux_pack false q e' loc Hq Ht) as (r & Hshr & Hform & ->).
  destruct (shr_fexp_m q e' loc Hq Ht) as (r' & Hshr' & Hmr). rewrite Hshr in Hshr'. injection Hshr' as <-.
  set (R := round_nearest_even _ _) in *. set (f := target q e') in *. set (k := f - e') in *.
  assert (f = Zdigits2 q + e' - 53) as Hf by lia.
  assert (0 < 2 ^ k) as Hk by (apply Z.pow_pos_nonneg; lia).
  assert (2 ^ 52 * 2 ^ k ≤ q) as Hkq.
  { rewrite <- Z.pow_add_r by lia. by replace (52 + k) with (Zdigits2 q - 1) by lia. }
  assert (q / 2 ^ k ≤ R) as HR.
  { rewrite <- Hmr. unfold R. destruct (round_nearest_even_cases (shr_m r) (loc_of_shr_record r)) as [-> | ->]; lia. }
  pose proof (Z.mul_div_le q (2 ^ k) Hk) as Hdiv1. pose proof (Z.mul_succ_div_gt q (2 ^ k) Hk) as Hdiv2.
  pose proof (weight_pos e' ltac:(lia)) as Hw'. pose proof (weight_pos f ltac:(lia)) as Hwf.
  assert (R * weight f = R * 2 ^ k * weight e') as Hval.
  { rewrite (weight_split f e') by lia. fold k. lia. }
  destruct (pack_finite false R f Hform) as [Hfin Hpv].
  { cbn [cond_Zopp]. destruct Hform as (HRb & _). unfold max_val. rewrite (weight_split 971 f) by lia.
    assert (2 ^ 2 ≤ 2 ^ (971 - f)) by (apply Z.pow_le_mono_r; lia).
    set (Q := 2 ^ (971 - f)) in *. set (w := weight f) in *. clearbody Q w. nia. }
  split; [split; [by apply pack_ok|done]|]. rewrite Hpv. cbn [cond_Zopp]. rewrite Hval.
  change (2 ^ 52) with 4503599627370496 in *.
  set (P := 2 ^ k) in *. set (W := weight e') in *.
  assert (999 * (q + 1) ≤ 1000 * (R * P)) as Hroot by nia.
  split; [nia|].
  assert (Zpos m * weight e * unit_val = Zpos m * 2 ^ s * (W * W)) as HVW.
  { unfold W. rewrite weight_mul by lia. replace (e' + e') with (2 * e') by lia.
    rewrite (weight_split e (2 * e')) by lia. replace (e - 2 * e') with s by lia. lia. }
  cbn [val cond_Zopp]. rewrite HVW. clearbody P W.
  assert (999 * 999 * (Zpos m * 2 ^ s) ≤ (1000 * (R * P)) * (1000 * (R * P))).
  { transitivity ((999 * (q + 1)) * (999 * (q + 1))); [lia|]. apply Z.mul_le_mono_nonneg; lia. }
  nia.
Qed.

(** ** Absolute error *)

(** The step of a fixed-point number with twelve fractional bits. *)
Definition tiny : Z := weight (-12).

Lemma tiny_pos : 0 < tiny.
Proof. apply weight_pos. lia. Qed.

Lemma unit_tiny : unit_val = 4096 * tiny.
Proof. unfold tiny. rewrite (weight_unit (-12)) by lia. done. Qed.

Lemma representable_tiny k : Z.abs k ≤ 2 ^ 53 → representable (k * tiny).
Proof.
  intros Hk. unfold tiny. pose proof (weight_pos (-12) ltac:(lia)). split; [|exists k, (-12); lia].
  rewrite Z.abs_mul, (Z.abs_eq (weight (-12))) by lia. unfold max_val. rewrite (weight_split 971 (-12)) by lia.
  assert (2 ^ 1 ≤ 2 ^ (971 - -12)) by (apply Z.pow_le_mono_r; lia).
  set (Q := 2 ^ (971 - -12)) in *. set (w := weight (-12)) in *. clearbody Q w.
  change (2 ^ 53) with 9007199254740992 in *. rewrite Z.mul_assoc. apply Z.mul_le_mono_nonneg_r; lia.
Qed.

(** A result of moderate size is off by less than a step. *)
Lemma rounded_near V P r :
  rounded V P r → 0 < P → Z.abs V ≤ 2 ^ 40 * unit_val * P → data r ∧ Z.abs (val r * P - V) ≤ tiny * P.
Proof.
  intros [Ho _ Hb _ _ _ _] HP HV. pose proof tiny_pos as Ht. rewrite unit_tiny in HV.
  assert (0 < tiny * P) as HtP by nia. pose proof (Z.mul_div_le V (tiny * P) HtP) as H1.
  pose proof (Z.mul_succ_div_gt V (tiny * P) HtP) as H2. set (k := V / (tiny * P)) in *.
  assert (Z.abs k ≤ 2 ^ 52 + 1) as Hk.
  { change (2 ^ 40) with 1099511627776 in HV. change (2 ^ 52 + 1) with 4503599627370497.
    set (t := tiny * P) in *. clearbody k. assert (Z.abs V ≤ 4503599627370496 * t) by (unfold t; nia).
    clearbody t. nia. }
  change (2 ^ 52 + 1) with 4503599627370497 in Hk.
  destruct (Hb (k * tiny) ((k + 1) * tiny)) as [Hf Hr]; [apply representable_tiny; lia..|nia|].
  split; [by split|]. nia.
Qed.

(** The value of a rounded datum. *)
Lemma fround_value x :
  data x → 0 ≤ val x < 2 ^ 52 * unit_val →
  data (fround x) ∧ val (fround x) = (2 * val x + unit_val) / (2 * unit_val) * unit_val.
Proof.
  intros Hx Hv. pose proof unit_val_pos as HU.
  destruct (val_nonneg x Hx (proj1 Hv)) as [[s ->]|(m & e & ->)].
  { split; [done|]. cbn [val fround]. by rewrite Z.div_small by lia. }
  pose proof Hx as [(He & Hm & _)%f64_ok_finite _]. pose proof (weight_pos e ltac:(lia)) as Hw.
  cbn [fround cond_Zopp]. destruct (Z.leb_spec 0 e) as [H0|H0].
  - split; [done|]. cbn [val cond_Zopp]. rewrite (weight_split e 0), Z.sub_0_r by lia. change (weight 0) with unit_val.
    rewrite Z.mul_assoc. f_equal. apply (Z.div_unique _ _ _ unit_val); lia.
  - assert (0 < 2 ^ (- e)) as Hp by (apply Z.pow_pos_nonneg; lia).
    assert (2 ^ (1 - e) = 2 * 2 ^ (- e)) as H1 by (rewrite <- Z.pow_succ_r by lia; f_equal; lia).
    rewrite H1. set (q := (2 * Zpos m + 2 ^ (- e)) / (2 * 2 ^ (- e))).
    assert ((2 * val (S754_finite false m e) + unit_val) / (2 * unit_val) = q) as ->.
    { cbn [val cond_Zopp]. rewrite (weight_unit e) by lia.
      replace (2 * (Zpos m * weight e) + 2 ^ (- e) * weight e) with ((2 * Zpos m + 2 ^ (- e)) * weight e) by lia.
      rewrite Z.mul_assoc. by rewrite Z.div_mul_cancel_r by lia. }
    assert (0 ≤ q) as Hq by (apply Z.div_pos; lia).
    assert (q < 2 ^ 53) as Hq2.
    { apply Z.div_lt_upper_bound; [lia|].
      assert (2 ^ 1 ≤ 2 ^ (- e)) by (apply Z.pow_le_mono_r; lia). nia. }
    destruct (Z.eqb_spec q 0) as [->|]; [done|]. change (binary_normalize prec64 emax64 q 0 false) with (f64_of_Z q).
    destruct (f64_of_N_data (Z.to_N q)) as [D V]; [lia|]. unfold f64_of_N in *. by rewrite Z2N.id in * by lia.
Qed.
