(* ===== verification/OverlayInput.v ===== *)
(** * What a click on the overlay means

    Models the input side of [crates/pal-overlay-win/src/lib.rs] and
    [crates/pal-overlay-win/src/control_intent.rs]: which points the surface covers, what a
    click or the wheel hits, and the intents the hotkeys stand for. Windows regions are the
    arguments [create_round_rect_rgn] and [pt_in_region]. *)

From S2P Require Import Prelude Floats FloatInt Settings Position OverlayVisual Hotkeys Placement.
Import PhysicalRect.

(** ** Intents *)

Inductive ControlIntent :=
| IntentAction (expected_settings_version : N) (action : OverlayAction)
| ReplacePoiFilters (expected_settings_version : N) (filters : PoiFilters).

Definition intent_action (self : ControlIntent) : option OverlayAction :=
  match self with IntentAction _ action => Some action | ReplacePoiFilters _ _ => None end.

Definition expected_settings_version (self : ControlIntent) : N :=
  match self with IntentAction version _ => version | ReplacePoiFilters version _ => version end.

Definition control_intent_for_hotkey (action : HotkeyAction) (settings : OverlaySettings)
    (expected_settings_version : N) : ControlIntent :=
  let action :=
    match action with
    | OverlayVisibility => ToggleVisibility
    | RotationToggle => Settings.ToggleRotation
    | TemporaryInteraction =>
        match input_mode settings with
        | Locked => EnterInteractive
        | TemporaryInteractive | PinnedInteractive | LayoutEdit => Settings.Lock
        end
    | InteractionLock => Settings.Lock
    end in
  IntentAction expected_settings_version action.

(** ** Targets *)

Inductive HitTest := Transparent | Client.
Inductive ResizeHandle := North | NorthEast | East | SouthEast | South | SouthWest | West | NorthWest.
#[export] Instance ResizeHandle_eq_dec : EqDecision ResizeHandle.
Proof. solve_decision. Defined.
Inductive LayoutHitTarget := LayoutNone | LayoutMap | Move | Resize (handle : ResizeHandle).
Inductive InteractionTarget := TargetNone | TargetMap | TargetFilterStrip | TargetControlRail.
#[export] Instance InteractionTarget_eq_dec : EqDecision InteractionTarget.
Proof. solve_decision. Defined.

Definition rail_overlay_action (action : RailAction) : OverlayAction :=
  match action with
  | Collapse => CloseExpanded
  | ZoomIn => Settings.ZoomIn
  | ZoomOut => Settings.ZoomOut
  | ToggleRotation => Settings.ToggleRotation
  | Lock => Settings.Lock
  end.

Definition filter_overlay_action (action : FilterAction) : OverlayAction :=
  match action with
  | FilterFastTravel => ToggleFastTravel
  | FilterBoss => ToggleBoss
  | FilterWanted => ToggleWanted
  | FilterDungeon => ToggleDungeon
  | FilterTower => ToggleTower
  | FilterEgg => ToggleEgg
  | FilterResources => ToggleResources
  | FilterSalvage => ToggleSalvage
  end.

Definition resize_handle (bounds : PhysicalRect.t) (point : PhysicalPoint.t) : option ResizeHandle :=
  let GRIP := 12%Z in
  let x := PhysicalPoint.x point in
  let y := PhysicalPoint.y point in
  let left := left bounds in
  let top := top bounds in
  let right := (left + Z.of_N (width bounds))%Z in
  let bottom := (top + Z.of_N (height bounds))%Z in
  let west := (x - left <? GRIP)%Z in
  let east := (right - x <=? GRIP)%Z in
  let north := (y - top <? GRIP)%Z in
  let south := (bottom - y <=? GRIP)%Z in
  match north, east, south, west with
  | true, true, _, _ => Some NorthEast
  | true, _, _, true => Some NorthWest
  | _, true, true, _ => Some SouthEast
  | _, _, true, true => Some SouthWest
  | true, _, _, _ => Some North
  | _, true, _, _ => Some East
  | _, _, true, _ => Some South
  | _, _, _, true => Some West
  | _, _, _, _ => None
  end.

(** ** The region of the surface *)

Inductive RoundedRegionError := InvalidGeometry | NativeCreateFailed (code : N).

Definition region_error_code (self : RoundedRegionError) : N :=
  match self with InvalidGeometry => 0 | NativeCreateFailed code => code end.

Section Region.
Context {Region : Type}.
Context (create_round_rect_rgn : Z → Z → Z → Z → Z → Z → result Region N).
Context (pt_in_region : Region → Z → Z → bool).

Definition OwnedRoundedRegion_create (bounds : PhysicalRect.t) (corner_radius_px : N) :
    result Region RoundedRegionError :=
  let? w := ok_or (i32_try_from (Z.of_N (width bounds))) InvalidGeometry in
  let? h := ok_or (i32_try_from (Z.of_N (height bounds))) InvalidGeometry in
  let? right := ok_or (r ← checked_add_i32 (left bounds) w; checked_add_i32 r 1) InvalidGeometry in
  let? bottom := ok_or (b ← checked_add_i32 (top bounds) h; checked_add_i32 b 1) InvalidGeometry in
  let effective_corner_radius_px :=
    N.min (N.min corner_radius_px (width bounds / 2)) (height bounds / 2) in
  let? ellipse :=
    ok_or (d ← checked_u32 (effective_corner_radius_px * 2); i32_try_from (Z.of_N d)) InvalidGeometry in
  map_err NativeCreateFailed
    (create_round_rect_rgn (left bounds) (top bounds) right bottom ellipse ellipse).

Record SurfaceHitRegion := mkSurface { screen_bounds : PhysicalRect.t; local_region : option Region }.

Definition SurfaceHitRegion_new (shape : HitShape) : SurfaceHitRegion :=
  match shape with
  | RoundedRectangle bounds corner_radius_px =>
      let local_bounds := PhysicalRect.mk 0 0 (width bounds) (height bounds) in
      mkSurface bounds
        match OwnedRoundedRegion_create local_bounds corner_radius_px with
        | Ok region => Some region
        | Err _ => None
        end
  end.

(** The differences of two [i32] fit an [i64]. *)
Definition surface_contains (self : SurfaceHitRegion) (screen_point : PhysicalPoint.t) : bool :=
  if negb (contains (screen_bounds self) screen_point) then false
  else
    match local_region self with
    | None => false
    | Some region =>
        match i32_try_from (PhysicalPoint.x screen_point - left (screen_bounds self)),
              i32_try_from (PhysicalPoint.y screen_point - top (screen_bounds self)) with
        | Some local_x, Some local_y => pt_in_region region local_x local_y
        | _, _ => false
        end
    end.

Inductive PreviewPixelRole := ExteriorColorKey | OpaqueMapInterior.

Definition base_color_ref (self : PreviewPixelRole) : N :=
  match self with ExteriorColorKey => 0x00000000 | OpaqueMapInterior => 0x00808080 end.

Definition preview_pixel_role (layout : OverlayLayout) (screen_point : PhysicalPoint.t) : PreviewPixelRole :=
  if surface_contains (SurfaceHitRegion_new (surface_shape layout)) screen_point
  then OpaqueMapInterior else ExteriorColorKey.

(** ** The controller *)

Record InputController := mkInput {
  mode : InputMode;
  layout : OverlayLayout;
  surface_region : SurfaceHitRegion;
  effective_settings_version : N;
}.

Definition InputController_new (mode : InputMode) (layout : OverlayLayout) : InputController :=
  mkInput mode layout (SurfaceHitRegion_new (surface_shape layout)) 0.

Definition set_effective_settings_version (self : InputController) (version : N) : InputController :=
  mkInput (mode self) (layout self) (surface_region self) version.

Definition locked (self : InputController) : bool := bool_decide (mode self = Locked).

Definition hit (bounds : option PhysicalRect.t) (screen_point : PhysicalPoint.t) : bool :=
  is_some_and bounds (λ bounds, contains bounds screen_point).

Definition rail_action_at (self : InputController) (screen_point : PhysicalPoint.t) : option RailAction :=
  if locked self || is_none (control_rail_rect (layout self)) then None
  else
    find (λ action, hit (rail_action_rect (layout self) action) screen_point)
      [Collapse; ZoomIn; ZoomOut; ToggleRotation; Lock].

Definition filter_action_at (self : InputController) (screen_point : PhysicalPoint.t) : option FilterAction :=
  if locked self || is_none (control_rail_rect (layout self)) then None
  else
    find (λ action, hit (filter_button_rect (layout self) action) screen_point)
      [FilterFastTravel; FilterBoss; FilterWanted; FilterDungeon; FilterTower; FilterEgg;
       FilterResources; FilterSalvage].

Definition wm_nchittest (self : InputController) (screen_point : PhysicalPoint.t) : HitTest :=
  if locked self || negb (surface_contains (surface_region self) screen_point)
  then Transparent else Client.

Definition interaction_target (self : InputController) (screen_point : PhysicalPoint.t) : InteractionTarget :=
  if locked self || negb (surface_contains (surface_region self) screen_point) then TargetNone
  else if hit (control_rail_rect (layout self)) screen_point
          || is_some (rail_action_at self screen_point) then TargetControlRail
  else if is_some (filter_action_at self screen_point) then TargetFilterStrip
  else if contains (map_viewport_rect (layout self)) screen_point then TargetMap
  else TargetNone.

Definition layout_hit_target (self : InputController) (screen_point : PhysicalPoint.t) : LayoutHitTarget :=
  if locked self || negb (surface_contains (surface_region self) screen_point) then LayoutNone
  else if negb (bool_decide (mode self = LayoutEdit)) then
    match interaction_target self screen_point with
    | TargetMap | TargetFilterStrip | TargetControlRail => LayoutMap
    | TargetNone => LayoutNone
    end
  else
    match resize_handle (bounds (surface_shape (layout self))) screen_point with
    | Some handle => Resize handle
    | None => Move
    end.

(** The sink is called with the intent that comes first in the answer; its error is the
    error of the handler. *)
Section Sink.
Context {E : Type} (submit : ControlIntent → result unit E).

Definition submit_action (self : InputController) (action : OverlayAction) :
    option ControlIntent * result bool E :=
  let intent := IntentAction (effective_settings_version self) action in
  (Some intent, let? _ := submit intent in Ok true).

Definition handle_left_click (self : InputController) (screen_point : PhysicalPoint.t) :
    option ControlIntent * result bool E :=
  if locked self then (None, Ok false)
  else
    let action :=
      match rail_overlay_action <$> rail_action_at self screen_point with
      | Some action => Some action
      | None => filter_overlay_action <$> filter_action_at self screen_point
      end in
    match action with
    | None => (None, Ok false)
    | Some action => submit_action self action
    end.

Definition handle_wheel (self : InputController) (screen_point : PhysicalPoint.t) (delta : Z) :
    option ControlIntent * result bool E :=
  if locked self || (delta =? 0)%Z
     || negb (bool_decide (interaction_target self screen_point = TargetMap))
  then (None, Ok false)
  else submit_action self (if (0 <? delta)%Z then Settings.ZoomIn else Settings.ZoomOut).
End Sink.
End Region.

(** ** Buttons do not overlap *)

Definition disjoint (r s : PhysicalRect.t) : Prop :=
  ∀ p, contains r p = true → contains s p = true → False.

Lemma rect_contains r p :
  contains r p = true ↔
  (left r ≤ PhysicalPoint.x p < left r + Z.of_N (width r) ∧
   top r ≤ PhysicalPoint.y p < top r + Z.of_N (height r))%Z.
Proof. unfold contains. rewrite !andb_true_iff, !Z.leb_le, !Z.ltb_lt. lia. Qed.

Lemma scale_dip_range v d : (1 ≤ scale_dip v d ≤ i32_max)%Z.
Proof.
  unfold scale_dip. cbv zeta. set (n := N.max _ 1). assert (1 ≤ n) by lia. clearbody n.
  destruct (i32_try_from (Z.of_N n)) as [z|] eqn:Hz; [|by cbn].
  apply i32_try_from_some in Hz as [-> Hr]. unfold is_i32 in Hr. cbn [unwrap_or]. lia.
Qed.

Ltac option_steps :=
  repeat match goal with
  | H : (_ ≫= _) = Some _ |- _ => apply bind_Some in H as (? & ? & H)
  | H : checked_add_i32 _ _ = Some _ |- _ => apply i32_try_from_some in H as [-> _]
  | H : checked_sub_i32 _ _ = Some _ |- _ => apply i32_try_from_some in H as [-> _]
  | H : checked_mul_i32 _ _ = Some _ |- _ => apply i32_try_from_some in H as [-> _]
  | H : i32_try_from _ = Some _ |- _ => apply i32_try_from_some in H as [-> _]
  | H : u32_try_from _ = Some _ |- _ => apply u32_try_from_some in H
  | H : Some (PhysicalPoint.mk _ _) = Some _ |- _ => injection H as <-
  end.

(** The grid of the filter buttons. *)
Lemma filter_button_place layout action r :
  filter_button_rect layout action = Some r →
  ∃ panel w h gap : Z, ∃ y0 : Z,
    panel = (left (map_viewport_rect layout) + 2 * scale_dip 14 (estimated_dpi layout))%Z ∧
    y0 = (top (map_viewport_rect layout) + scale_dip 14 (estimated_dpi layout)
          + scale_dip 58 (estimated_dpi layout))%Z ∧
    w = scale_dip 114 (estimated_dpi layout) ∧ h = scale_dip 34 (estimated_dpi layout) ∧
    gap = scale_dip 8 (estimated_dpi layout) ∧
    left r = (panel + Z.of_nat (filter_index action) mod 2 * (w + gap))%Z ∧
    top r = (y0 + Z.of_nat (filter_index action) / 2 * (h + gap))%Z ∧
    Z.of_N (width r) = w ∧ Z.of_N (height r) = h ∧ inside r (map_viewport_rect layout).
Proof.
  unfold filter_button_rect, filter_panel_rect, last_point. intros H.
  apply bind_Some in H as (panel & Hpanel & H). option_steps.
  destruct (contains _ _) eqn:Hc1 in Hpanel; [|done]. injection Hpanel as <-.
  destruct (contains _ _) eqn:Hc in H; [|done]. injection H as <-. cbn [left top width height] in *.
  pose proof (scale_dip_range 14 (estimated_dpi layout)). pose proof (scale_dip_range 58 (estimated_dpi layout)).
  pose proof (scale_dip_range 114 (estimated_dpi layout)). pose proof (scale_dip_range 34 (estimated_dpi layout)).
  pose proof (scale_dip_range 8 (estimated_dpi layout)).
  cbn [OVERLAY_VISUAL_V1 expanded_panel_inset_dip filter_button_width_dip filter_button_height_dip
       filter_button_gap_dip expanded_panel_width_dip] in *.
  eexists _, _, _, _, _. split_and!; try done; try lia.
  apply rect_contains in Hc as [Hx Hy]. cbn [PhysicalPoint.x PhysicalPoint.y] in Hx, Hy.
  unfold inside. cbn [left top width height].
  assert (0 ≤ Z.of_nat (filter_index action) mod 2 ≤ 1 ∧ 0 ≤ Z.of_nat (filter_index action) / 2 ≤ 3)%Z
    as [Hcol Hrow] by (destruct action; vm_compute; by split_and!).
  set (col := (Z.of_nat (filter_index action) mod 2)%Z) in *.
  set (row := (Z.of_nat (filter_index action) / 2)%Z) in *. clearbody col row.
  assert (0 ≤ col * (scale_dip 114 (estimated_dpi layout) + scale_dip 8 (estimated_dpi layout)))%Z by nia.
  assert (0 ≤ row * (scale_dip 34 (estimated_dpi layout) + scale_dip 8 (estimated_dpi layout)))%Z by nia.
  split_and!; lia.
Qed.

(** The dock of the map, from left to right. *)
Lemma dock_button_place layout action r :
  action ≠ Collapse → rail_action_rect layout action = Some r →
  ∃ index w gap : Z,
    dock_index action = Some index ∧ w = scale_dip 40 (estimated_dpi layout) ∧
    gap = scale_dip 8 (estimated_dpi layout) ∧
    left r = (left (map_viewport_rect layout) + gap + index * (w + gap))%Z ∧
    Z.of_N (width r) = w.
Proof.
  intros Hne. unfold rail_action_rect. rewrite bool_decide_false by done.
  intros H. apply bind_Some in H as (rail & _ & H). apply bind_Some in H as ([x y] & Hxy & H).
  option_steps. injection H as <-. injection Hxy as <- <-.
  cbn [OVERLAY_VISUAL_V1 rail_inset_dip rail_button_dip left width] in *.
  eexists _, _, _. split_and!; [eassumption|reflexivity|reflexivity|lia|lia].
Qed.

Lemma dock_index_inj a b i : dock_index a = Some i → dock_index b = Some i → a = b.
Proof. by destruct a, b; intros [= <-]. Qed.

(** Two places of width [w] at different multiples of a larger pitch do not overlap. *)
Lemma pitch_disjoint (i j w gap x o : Z) :
  (1 ≤ w → 0 ≤ gap → i ≠ j →
   o + i * (w + gap) ≤ x < o + i * (w + gap) + w →
   o + j * (w + gap) ≤ x < o + j * (w + gap) + w → False)%Z.
Proof.
  intros Hw Hg Hne Hi Hj. destruct (Z.lt_trichotomy i j) as [Hlt|[->|Hlt]]; [|done|].
  - assert ((i + 1) * (w + gap) ≤ j * (w + gap))%Z by (apply Z.mul_le_mono_nonneg_r; lia). lia.
  - assert ((j + 1) * (w + gap) ≤ i * (w + gap))%Z by (apply Z.mul_le_mono_nonneg_r; lia). lia.
Qed.

Lemma dock_disjoint layout a b r s :
  a ≠ Collapse → b ≠ Collapse → a ≠ b →
  rail_action_rect layout a = Some r → rail_action_rect layout b = Some s → disjoint r s.
Proof.
  intros Ha Hb Hne Hr Hs p Hp Hq.
  apply dock_button_place in Hr as (i & w & gap & Hi & Hw & Hgap & Hl & Hwr); [|done].
  apply dock_button_place in Hs as (j & w' & gap' & Hj & -> & -> & Hl' & Hws); [|done].
  apply rect_contains in Hp as [Hx _], Hq as [Hx' _].
  pose proof (scale_dip_range 40 (estimated_dpi layout)). pose proof (scale_dip_range 8 (estimated_dpi layout)).
  rewrite Hl, Hwr, Hw, Hgap in Hx. rewrite Hl', Hws in Hx'.
  refine (pitch_disjoint i j _ _ (PhysicalPoint.x p) _ _ _ _ Hx Hx'); [lia|lia|].
  intros ->. by destruct Hne; eapply dock_index_inj.
Qed.

Lemma filter_disjoint layout a b r s :
  a ≠ b → filter_button_rect layout a = Some r → filter_button_rect layout b = Some s → disjoint r s.
Proof.
  intros Hne Hr Hs p Hp Hq.
  apply filter_button_place in Hr as (o & w & h & gap & y0 & Ho & Hy0 & Hw & Hh & Hg & Hl & Ht & Hwr & Hhr & _).
  apply filter_button_place in Hs as (o' & w' & h' & gap' & y0' & -> & -> & -> & -> & -> & Hl' & Ht' & Hws & Hhs & _).
  apply rect_contains in Hp as [Hx Hy], Hq as [Hx' Hy'].
  pose proof (scale_dip_range 114 (estimated_dpi layout)). pose proof (scale_dip_range 34 (estimated_dpi layout)).
  pose proof (scale_dip_range 8 (estimated_dpi layout)).
  rewrite Hl, Hwr, Ho, Hw, Hg in Hx. rewrite Ht, Hhr, Hy0, Hh, Hg in Hy.
  rewrite Hl', Hws in Hx'. rewrite Ht', Hhs in Hy'.
  destruct (decide (Z.of_nat (filter_index a) mod 2 = Z.of_nat (filter_index b) mod 2)%Z) as [Hc|Hc].
  - refine (pitch_disjoint _ _ _ _ (PhysicalPoint.y p) _ _ _ _ Hy Hy'); [lia|lia|].
    intros Hrow. apply Hne, filter_index_inj.
    pose proof (Z.div_mod (Z.of_nat (filter_index a)) 2). pose proof (Z.div_mod (Z.of_nat (filter_index b)) 2). lia.
  - refine (pitch_disjoint _ _ _ _ (PhysicalPoint.x p) _ _ _ Hc Hx Hx'); lia.
Qed.

(** ** Properties *)

(** The button that a point of an unlocked expanded overlay presses: collapse wins over the
    dock, the rail over the filters. *)
Inductive pressed (layout : OverlayLayout) (p : PhysicalPoint.t) : OverlayAction → Prop :=
| pressed_rail action r :
    rail_action_rect layout action = Some r → contains r p = true →
    (action ≠ Collapse → hit (rail_action_rect layout Collapse) p = false) →
    pressed layout p (rail_overlay_action action)
| pressed_filter action r :
    filter_button_rect layout action = Some r → contains r p = true →
    (∀ other, hit (rail_action_rect layout other) p = false) →
    pressed layout p (filter_overlay_action action).

Lemma hit_true bounds p : hit bounds p = true ↔ ∃ r, bounds = Some r ∧ contains r p = true.
Proof. destruct bounds; cbn; naive_solver. Qed.

Lemma rail_action_at_spec {Region} (self : InputController (Region := Region)) p :
  locked self = false →
  match rail_action_at self p with
  | Some action => hit (rail_action_rect (layout self) action) p = true ∧
      (action ≠ Collapse → hit (rail_action_rect (layout self) Collapse) p = false)
  | None => ∀ action, hit (rail_action_rect (layout self) action) p = false
  end.
Proof.
  intros Hl. unfold rail_action_at. rewrite Hl. destruct (control_rail_rect (layout self)) eqn:Hr; cbn [orb is_none].
  - cbn [find]. destruct (hit (rail_action_rect (layout self) Collapse) p) eqn:H0; [by split|].
    repeat match goal with |- context [hit ?b p] =>
      lazymatch goal with H : hit b p = _ |- _ => fail | _ => destruct (hit b p) eqn:? end end;
      try (by split); intros []; done.
  - intros action. unfold rail_action_rect. by rewrite Hr.
Qed.

Lemma filter_action_at_spec {Region} (self : InputController (Region := Region)) p :
  locked self = false →
  match filter_action_at self p with
  | Some action => hit (filter_button_rect (layout self) action) p = true
  | None => ∀ action, hit (filter_button_rect (layout self) action) p = false
  end.
Proof.
  intros Hl. unfold filter_action_at. rewrite Hl. destruct (control_rail_rect (layout self)) eqn:Hr; cbn [orb is_none].
  - match goal with |- context [find ?f ?l] => destruct (find f l) as [a|] eqn:Hf end.
    + by apply find_some in Hf as [_ Hf].
    + intros action. apply (find_none _ _ Hf action). destruct action; cbn; tauto.
  - intros action. unfold filter_button_rect, filter_panel_rect. by rewrite Hr.
Qed.

Lemma pressed_unique layout p a b : pressed layout p a → pressed layout p b → a = b.
Proof.
  intros [action r Hr Hp Hc|action r Hr Hp Hc] [action' r' Hr' Hp' Hc'|action' r' Hr' Hp' Hc'].
  - f_equal. destruct (decide (action = action')) as [|Hne]; [done|exfalso].
    destruct (decide (action = Collapse)) as [->|Ha].
    { rewrite (proj2 (hit_true _ _)) in Hc' by eauto. by specialize (Hc' ltac:(congruence)). }
    destruct (decide (action' = Collapse)) as [->|Ha'].
    { rewrite (proj2 (hit_true _ _)) in Hc by eauto. by specialize (Hc ltac:(congruence)). }
    exact (dock_disjoint layout action action' r r' Ha Ha' Hne Hr Hr' p Hp Hp').
  - specialize (Hc' action). rewrite (proj2 (hit_true _ _)) in Hc' by eauto. done.
  - specialize (Hc action'). rewrite (proj2 (hit_true _ _)) in Hc by eauto. done.
  - f_equal. destruct (decide (action = action')) as [|Hne]; [done|exfalso].
    exact (filter_disjoint layout action action' r r' Hne Hr Hr' p Hp Hp').
Qed.

(** C29: a click submits exactly the action of the button it presses, with the settings
    version the controller shows; no two buttons of the dock and no two filters overlap, so
    that button is unique, and a click on no button submits nothing. While the overlay is
    locked every point is transparent and no click and no turn of the wheel submits
    anything. The wheel zooms on the map only, and a point outside the surface hits
    nothing. *)
Theorem click_exact {Region E : Type} (pt_in_region : Region → Z → Z → bool)
    (submit : ControlIntent → result unit E) (self : InputController (Region := Region))
    (p : PhysicalPoint.t) (delta : Z) :
  let version := effective_settings_version self in
  (if locked self then
     wm_nchittest pt_in_region self p = Transparent ∧ interaction_target pt_in_region self p = TargetNone ∧
     handle_left_click submit self p = (None, Ok false) ∧
     handle_wheel pt_in_region submit self p delta = (None, Ok false)
   else
     (∀ action, (handle_left_click submit self p).1 = Some (IntentAction version action) ↔
                pressed (layout self) p action) ∧
     ((handle_left_click submit self p).1 = None → ∀ action, ¬ pressed (layout self) p action) ∧
     ((handle_wheel pt_in_region submit self p delta).1 ≠ None →
        interaction_target pt_in_region self p = TargetMap ∧
        contains (map_viewport_rect (layout self)) p = true ∧ ∀ action, ¬ pressed (layout self) p action)) ∧
  (contains (screen_bounds (surface_region self)) p = false →
     wm_nchittest pt_in_region self p = Transparent ∧ interaction_target pt_in_region self p = TargetNone).
Proof.
  intros version. split.
  2:{ intros Hout. unfold wm_nchittest, interaction_target, surface_contains. rewrite Hout.
      cbn [negb]. by rewrite orb_true_r. }
  destruct (locked self) eqn:Hl.
  { unfold wm_nchittest, interaction_target, handle_left_click, handle_wheel. by rewrite Hl. }
  pose proof (rail_action_at_spec self p Hl) as Hrail. pose proof (filter_action_at_spec self p Hl) as Hfilter.
  assert ((rail_action_at self p = None → filter_action_at self p = None →
    ∀ action, ¬ pressed (layout self) p action)) as Hnone.
  { intros Er Ef. rewrite Er in Hrail. rewrite Ef in Hfilter. intros b [b' r Hr Hp _|b' r Hr Hp _].
    - specialize (Hrail b'). rewrite (proj2 (hit_true _ _)) in Hrail by eauto. done.
    - specialize (Hfilter b'). rewrite (proj2 (hit_true _ _)) in Hfilter by eauto. done. }
  assert (∃ found, (handle_left_click submit self p).1 = IntentAction version <$> found ∧
    match found with
    | Some action => pressed (layout self) p action
    | None => rail_action_at self p = None ∧ filter_action_at self p = None
    end) as (found & Hfound & Hpress).
  { unfold handle_left_click. rewrite Hl. destruct (rail_action_at self p) as [a|] eqn:Er; cbn [fmap option_fmap option_map].
    - exists (Some (rail_overlay_action a)). split; [done|].
      destruct Hrail as [(r & Hr & Hp)%hit_true Hc]. by eapply pressed_rail.
    - destruct (filter_action_at self p) as [a|] eqn:Ef; cbn [fmap option_fmap option_map].
      + exists (Some (filter_overlay_action a)). split; [done|].
        apply hit_true in Hfilter as (r & Hr & Hp). by eapply pressed_filter.
      + by exists None. }
  split_and!.
  - intros action. rewrite Hfound. destruct found as [a|]; cbn.
    + split; [by intros [= <-]|]. intros Hq. by rewrite (pressed_unique _ _ _ _ Hq Hpress).
    + split; [done|]. intros Hq. destruct Hpress as [Er Ef]. by destruct (Hnone Er Ef action).
  - rewrite Hfound. destruct found as [a|]; [done|]. intros _. destruct Hpress. by apply Hnone.
  - unfold handle_wheel. destruct (_ || _) eqn:Hg; [done|]. intros _. reflect_bool.
    assert (interaction_target pt_in_region self p = TargetMap) as Ht by
      (by destruct (bool_decide_reflect (interaction_target pt_in_region self p = TargetMap))).
    split; [done|]. unfold interaction_target in Ht. repeat (step_if_in Ht; [done|]). step_if_in Ht; [|done].
    reflect_bool. split; [done|]. apply Hnone.
    + by destruct (rail_action_at self p).
    + by destruct (filter_action_at self p).
Qed.

(** ** A click *)

Definition demo_expanded : OverlayLayout :=
  mkLayout (PhysicalRect.mk (-8) 30 1920 1080) (RoundedRectangle (PhysicalRect.mk 107 95 1690 950) 15)
    (PhysicalRect.mk 192 95 1605 950) (Some (PhysicalRect.mk 107 95 85 950)) (PhysicalSize.mk 1331 787).

Definition demo_input : InputController (Region := unit) :=
  set_effective_settings_version
    (InputController_new (λ _ _ _ _ _ _, Ok tt) PinnedInteractive demo_expanded) 4.

Lemma click_exact_witness :
  (handle_left_click (E := unit) (λ _, Ok tt) demo_input (PhysicalPoint.mk 420 280)).1 =
    Some (IntentAction 4 ToggleDungeon) ∧
  pressed demo_expanded (PhysicalPoint.mk 420 280) ToggleDungeon.
Proof.
  assert ((handle_left_click (E := unit) (λ _, Ok tt) demo_input (PhysicalPoint.mk 420 280)).1 =
    Some (IntentAction 4 ToggleDungeon)) as Hrun by (vm_compute; reflexivity).
  destruct (click_exact (λ _ _ _, true) (E := unit) (λ _, Ok tt) demo_input (PhysicalPoint.mk 420 280) 0) as [H _].
  split; [exact Hrun|]. exact (proj1 (proj1 H ToggleDungeon) Hrun).
Defined.
