(* ===== verification/OverlayHost.v ===== *)
(** * The overlay host

    Models [crates/pal-overlay-win/src/host_model.rs] and
    [crates/pal-overlay-win/src/mailbox.rs]: when the overlay window is shown and takes
    input. The trait [OverlayShellBackend] is a class; what the theorems need of a shell are
    the laws of [LawfulShell]. *)

From S2P Require Import Prelude Floats Settings Position View OverlayVisual Tracker Placement.

Inductive SuspendReason := Minimized | Inactive | DisplayChange | Explicit.
#[export] Instance SuspendReason_eq_dec : EqDecision SuspendReason.
Proof. solve_decision. Defined.

Inductive OverlayLifecycle := LcDetached | LcHiddenAttached | LcVisible | LcSuspended (reason : SuspendReason).
#[export] Instance OverlayLifecycle_eq_dec : EqDecision OverlayLifecycle.
Proof. solve_decision. Defined.

Inductive HostUpdate := HuChanged | HuUnchanged.
#[export] Instance HostUpdate_eq_dec : EqDecision HostUpdate.
Proof. solve_decision. Defined.

Record HostPlan := mkPlan {
  hp_layout : OverlayLayout;
  hp_display_mode : DisplayMode;
  hp_input_mode : InputMode;
  hp_visible : bool;
}.
#[export] Instance HostPlan_eq_dec : EqDecision HostPlan.
Proof. solve_decision. Defined.

Definition window_rect (self : HostPlan) : PhysicalRect.t := bounds (surface_shape (hp_layout self)).
Definition transparent (self : HostPlan) : bool := bool_decide (hp_input_mode self = Locked).
Definition topmost (_ : HostPlan) : bool := true.
Definition no_activate (_ : HostPlan) : bool := true.

Class OverlayShellBackend (B E : Type) := {
  apply_plan : HostPlan → B → result unit E * B;
  hide_fail_closed : B → result unit E * B;
}.
#[export] Hint Mode OverlayShellBackend ! - : typeclass_instances.

Record OverlayHostController (B : Type) := mkHost {
  backend : B;
  layout : OverlayLayout;
  mini_layout : OverlayLayout;
  expanded_layout : OverlayLayout;
  display_mode : DisplayMode;
  input_mode : InputMode;
  lifecycle : OverlayLifecycle;
  requested_visible : bool;
  attached_window : option WindowId;
  last_plan : option HostPlan;
}.
Arguments mkHost {B}.
Arguments backend {B}.
Arguments layout {B}.
Arguments mini_layout {B}.
Arguments expanded_layout {B}.
Arguments display_mode {B}.
Arguments input_mode {B}.
Arguments lifecycle {B}.
Arguments requested_visible {B}.
Arguments attached_window {B}.
Arguments last_plan {B}.
#[export] Instance OverlayHostController_eta {B} : Eta (OverlayHostController B) := λ r,
  mkHost (backend r) (layout r) (mini_layout r) (expanded_layout r) (display_mode r) (input_mode r)
    (lifecycle r) (requested_visible r) (attached_window r) (last_plan r).

Section Controller.
Context {B E : Type} `{!OverlayShellBackend B E}.
Implicit Types self : OverlayHostController B.

Definition host_new (backend : B) (layouts : TopLeftOverlayLayouts) : OverlayHostController B :=
  mkHost backend (mini layouts) (mini layouts) (expanded layouts) MiniMap Locked LcDetached true None None.

Definition is_visible self : bool := bool_decide (lifecycle self = LcVisible).

Definition is_suspended self : bool :=
  match lifecycle self with LcSuspended _ => true | _ => false end.

(** The layout of a display mode. *)
Definition layout_for self (mode : DisplayMode) : OverlayLayout :=
  match mode with MiniMap => mini_layout self | ExpandedMap => expanded_layout self end.

Definition current_plan self : HostPlan :=
  mkPlan (layout self) (display_mode self) (input_mode self) (is_visible self).

Definition apply_current self (state_changed : bool) : result HostUpdate E * OverlayHostController B :=
  let plan := current_plan self in
  if bool_decide (last_plan self = Some plan) then
    (Ok (if state_changed then HuChanged else HuUnchanged), self)
  else
    match apply_plan plan (backend self) with
    | (Err error, shell) =>
        let '(_, shell) := hide_fail_closed shell in
        (Err error,
         self <| backend := shell |> <| input_mode := Locked |>
              <| lifecycle := if is_some (attached_window self) then LcHiddenAttached else LcDetached |>
              <| last_plan := None |>)
    | (Ok _, shell) => (Ok HuChanged, self <| backend := shell |> <| last_plan := Some plan |>)
    end.

Definition attach self (game : TrackedWindow) : result HostUpdate E * OverlayHostController B :=
  let prior := is_visible self in
  let snapshot := tw_snapshot game in
  let host :=
    PhysicalRect.mk (WindowSnapshot.client_left snapshot) (WindowSnapshot.client_top snapshot)
      (WindowSnapshot.client_width snapshot) (WindowSnapshot.client_height snapshot) in
  let self := self <| attached_window := Some (tw_id game) |>
                   <| mini_layout ::= λ l, l <| host_rect := host |> |>
                   <| expanded_layout ::= λ l, l <| host_rect := host |> |> in
  let self := self <| layout := layout_for self (display_mode self) |> in
  let self :=
    if WindowSnapshot.minimized snapshot then
      self <| input_mode := Locked |> <| lifecycle := LcSuspended Minimized |>
    else if negb (WindowSnapshot.active snapshot) || negb (WindowSnapshot.visible snapshot) then
      self <| input_mode := Locked |> <| lifecycle := LcSuspended Inactive |>
    else if requested_visible self then self <| lifecycle := LcVisible |>
    else self <| input_mode := Locked |> <| lifecycle := LcHiddenAttached |> in
  apply_current self (negb (Bool.eqb prior (is_visible self))).

Definition apply_layouts self (layouts : TopLeftOverlayLayouts) :
    result HostUpdate E * OverlayHostController B :=
  if bool_decide (mini_layout self = mini layouts) && bool_decide (expanded_layout self = expanded layouts)
  then (Ok HuUnchanged, self)
  else
    let self := self <| mini_layout := mini layouts |> <| expanded_layout := expanded layouts |> in
    apply_current (self <| layout := layout_for self (display_mode self) |>) true.

Definition set_display_mode self (mode : DisplayMode) : result HostUpdate E * OverlayHostController B :=
  if bool_decide (display_mode self = mode) then (Ok HuUnchanged, self)
  else apply_current (self <| display_mode := mode |> <| layout := layout_for self mode |>) true.

Definition set_input_mode self (mode : InputMode) : result HostUpdate E * OverlayHostController B :=
  let actual := if is_visible self then mode else Locked in
  if bool_decide (input_mode self = actual) then (Ok HuUnchanged, self)
  else apply_current (self <| input_mode := actual |>) true.

Definition set_requested_visible self (visible : bool) : result HostUpdate E * OverlayHostController B :=
  if Bool.eqb (requested_visible self) visible then (Ok HuUnchanged, self)
  else
    let self := self <| requested_visible := visible |> in
    if is_none (attached_window self) then (Ok HuChanged, self)
    else if is_suspended self then apply_current (self <| input_mode := Locked |>) true
    else if visible then apply_current (self <| lifecycle := LcVisible |>) true
    else apply_current (self <| input_mode := Locked |> <| lifecycle := LcHiddenAttached |>) true.

(** [.map(|_| ())]. *)
Definition as_unit (r : result HostUpdate E * OverlayHostController B) :
    result unit E * OverlayHostController B :=
  (let? _ := r.1 in Ok tt, r.2).

Definition suspend self (reason : SuspendReason) : result unit E * OverlayHostController B :=
  if bool_decide (lifecycle self = LcDetached) || bool_decide (lifecycle self = LcSuspended reason)
  then (Ok tt, self)
  else as_unit (apply_current (self <| input_mode := Locked |> <| lifecycle := LcSuspended reason |>) true).

Definition detach self : result unit E * OverlayHostController B :=
  if bool_decide (lifecycle self = LcDetached) then (Ok tt, self)
  else
    as_unit (apply_current (self <| input_mode := Locked |> <| lifecycle := LcDetached |>
                                 <| attached_window := None |>) true).
End Controller.

(** ** The mailbox of snapshots *)

Record LatestMailbox (T : Type) := mkMailbox { mb_generation : N; latest : option (N * T) }.
Arguments mkMailbox {T}.
Arguments mb_generation {T}.
Arguments latest {T}.

Definition mailbox_new {T} : LatestMailbox T := mkMailbox 0 None.

(** [None] is the panic of the exhausted counter. *)
Definition mailbox_publish {T} (self : LatestMailbox T) (value : T) : option (N * LatestMailbox T) :=
  generation ← checked_add (mb_generation self) 1;
  Some (generation, mkMailbox generation (Some (generation, value))).

Definition take_latest {T} (self : LatestMailbox T) : option (N * T) * LatestMailbox T :=
  (latest self, mkMailbox (mb_generation self) None).

(** ** Runs *)

Inductive host_op :=
| OpAttach (game : TrackedWindow)
| OpLayouts (layouts : TopLeftOverlayLayouts)
| OpDisplayMode (mode : DisplayMode)
| OpInputMode (mode : InputMode)
| OpRequestedVisible (visible : bool)
| OpSuspend (reason : SuspendReason)
| OpDetach.

(** What a shell promises: a plan it accepts is the one it shows, and hiding hides. [shown]
    is [None] when nothing is shown. *)
Class LawfulShell (B E : Type) `{!OverlayShellBackend B E} := {
  shown : B → option HostPlan;
  shown_apply plan shell shell' : apply_plan plan shell = (Ok tt, shell') → shown shell' = Some plan;
  shown_hide shell shell' : hide_fail_closed shell = (Ok tt, shell') → shown shell' = None;
}.

Section Invariant.
Context {B E : Type} `{HS : !OverlayShellBackend B E} `{!LawfulShell B E}.
Implicit Types c : OverlayHostController B.

Definition host_step c (o : host_op) : result unit E * OverlayHostController B :=
  match o with
  | OpAttach game => as_unit (attach c game)
  | OpLayouts layouts => as_unit (apply_layouts c layouts)
  | OpDisplayMode mode => as_unit (set_display_mode c mode)
  | OpInputMode mode => as_unit (set_input_mode c mode)
  | OpRequestedVisible visible => as_unit (set_requested_visible c visible)
  | OpSuspend reason => suspend c reason
  | OpDetach => detach c
  end.

Definition host_run c (os : list host_op) : OverlayHostController B :=
  fold_left (λ c o, (host_step c o).2) os c.

(** The state before the plan is applied. *)
Record host_ok c : Prop := {
  ho_input : input_mode c ≠ Locked → lifecycle c = LcVisible;
  ho_attached : lifecycle c = LcDetached ↔ attached_window c = None;
  ho_layout : layout c = layout_for c (display_mode c);
  ho_requested : lifecycle c = LcVisible → requested_visible c = true;
}.

(** The state and the shell agree; [b0] is the shell nothing was applied to. *)
Record host_inv (b0 : B) c : Prop := {
  hi_ok : host_ok c;
  hi_plan plan : last_plan c = Some plan → plan = current_plan c ∧ shown (backend c) = Some plan;
  hi_none : last_plan c = None →
    lifecycle c ≠ LcVisible ∧
    (backend c = b0 ∨ shown (backend c) = None ∨
     ∃ shell e, hide_fail_closed shell = (Err e, backend c));
}.

Lemma host_ok_plan c : host_ok c → hp_visible (current_plan c) = false → hp_input_mode (current_plan c) = Locked.
Proof.
  intros [Hi _ _ _] Hv. cbn in *. unfold is_visible in Hv. reflect_bool.
  destruct (input_mode c); [done|..]; exfalso; apply Hv; apply Hi; done.
Qed.

(** Applying the plan establishes the invariant, whatever the shell answers. *)
Lemma apply_current_inv b0 c changed :
  host_ok c → (∀ plan, last_plan c = Some plan → shown (backend c) = Some plan) →
  let '(r, c') := apply_current c changed in
  host_inv b0 c' ∧
  match r with
  | Ok _ => last_plan c' = Some (current_plan c') ∧ current_plan c' = current_plan c
  | Err _ => last_plan c' = None ∧ input_mode c' = Locked
  end.
Proof.
  intros Hok Hshown. unfold apply_current.
  destruct (bool_decide_reflect (last_plan c = Some (current_plan c))) as [Hp|Hp].
  { split; [|done]. split; [done| |congruence]. intros plan Hl. split; [congruence|auto]. }
  destruct (apply_plan (current_plan c) (backend c)) as [[[]|e] shell] eqn:Happly.
  - split; [|done]. split; [by destruct Hok| |done]. intros plan [= <-]. split; [done|].
    by eapply shown_apply.
  - destruct (hide_fail_closed shell) as [r shell'] eqn:Hhide. cbn.
    destruct Hok as [Hi Ha Hl Hr]. split; [|done]. split.
    + split; cbn; try done; destruct (attached_window c); done.
    + done.
    + intros _. cbn. split; [by destruct (attached_window c)|]. right.
      destruct r as [[]|e']; [left; by eapply shown_hide|right; eauto].
Qed.

Lemma shown_of_inv b0 c : host_inv b0 c → ∀ plan, last_plan c = Some plan → shown (backend c) = Some plan.
Proof. intros Hi plan Hp. by apply (hi_plan _ _ Hi). Qed.

(** One operation: it is a plan that is applied, or nothing that the plan depends on
    changes. *)
Definition step_spec (b0 : B) c (r : result unit E) c' : Prop :=
  host_inv b0 c' ∧
  match r with
  | Ok _ => last_plan c' = Some (current_plan c') ∨ (current_plan c' = current_plan c ∧ backend c' = backend c)
  | Err _ => last_plan c' = None ∧ input_mode c' = Locked
  end.

Lemma applied_spec b0 c c1 changed :
  host_ok c1 → last_plan c1 = last_plan c → backend c1 = backend c → host_inv b0 c →
  let '(r, c') := as_unit (apply_current c1 changed) in step_spec b0 c r c'.
Proof.
  intros Hok Hp Hb Hi.
  assert (∀ plan, last_plan c1 = Some plan → shown (backend c1) = Some plan) as Hs.
  { rewrite Hp, Hb. by apply (shown_of_inv b0). }
  pose proof (apply_current_inv b0 c1 changed Hok Hs) as Ha.
  unfold as_unit. destruct (apply_current c1 changed) as [[u|e] c']; cbn [fst snd and_then];
    destruct Ha as [? Ha]; (split; [done|]); [left; apply Ha|done].
Qed.

Lemma unchanged_spec b0 c : host_inv b0 c → step_spec b0 c (Ok tt) c.
Proof. intros Hi. split; [done|]. by right. Qed.

Lemma host_step_spec b0 c o :
  host_inv b0 c → let '(r, c') := host_step c o in step_spec b0 c r c'.
Proof.
  intros Hi. pose proof (hi_ok _ _ Hi) as [H1 H2 H3 H4].
  destruct o as [game|layouts|mode|mode|visible|reason|]; cbn [host_step].
  - unfold attach. apply applied_spec; [|by repeat step_if..|done].
    destruct (WindowSnapshot.minimized _); [by split|].
    destruct (_ || _); [by split|].
    destruct (requested_visible c) eqn:Hr; cbn; rewrite Hr; by split.
  - unfold apply_layouts. destruct (_ && _); [by apply unchanged_spec|]. apply applied_spec; [by split|done..].
  - unfold set_display_mode. destruct (bool_decide _); [by apply unchanged_spec|].
    apply applied_spec; [by split|done..].
  - unfold set_input_mode. destruct (bool_decide _) eqn:He; [by apply unchanged_spec|].
    apply applied_spec; try done. split; cbn; try done. unfold is_visible.
    destruct (bool_decide_reflect (lifecycle c = LcVisible)); done.
  - unfold set_requested_visible. destruct (Bool.eqb _ _) eqn:He; [by apply unchanged_spec|].
    cbv zeta. cbn [attached_window lifecycle]. 
    destruct (is_none (attached_window c)) eqn:Hn.
    { assert (attached_window c = None) as Ha by (by destruct (attached_window c)).
      assert (lifecycle c = LcDetached) as Hd by (by apply H2).
      cbn. rewrite Ha. cbn. unfold as_unit. cbn [fst snd and_then]. split; [|by right].
      destruct Hi as [_ Hp Hnone]. split; [|done|done]. split; cbn; try done. by rewrite Hd. }
    assert (attached_window c ≠ None) as Ha by (by destruct (attached_window c)).
    cbn. destruct (attached_window c) as [w|] eqn:Hw; [|done]. cbn [is_none].
    destruct (is_suspended _) eqn:Hsus.
    { apply applied_spec; try done. split; cbn; try done; rewrite ?Hw; try done.
      unfold is_suspended in Hsus. cbn in Hsus. by destruct (lifecycle c). }
    destruct visible; apply applied_spec; try done; split; cbn; rewrite ?Hw; done.
  - unfold suspend. destruct (_ || _) eqn:He; [by apply unchanged_spec|].
    apply applied_spec; try done. reflect_bool. split; cbn; try done.
    split; [done|]. intros Hn. by apply H2 in Hn.
  - unfold detach. destruct (bool_decide _) eqn:He; [by apply unchanged_spec|].
    apply applied_spec; [by split|done..].
Qed.

Lemma host_run_inv b0 c os : host_inv b0 c → host_inv b0 (host_run c os).
Proof.
  revert c. induction os as [|o os IH]; intros c Hi; [done|]. apply IH.
  pose proof (host_step_spec b0 c o Hi) as Hs. destruct (host_step c o) as [r c']. apply Hs.
Qed.
End Invariant.

(** A mailbox hands out the newest value, once. *)
Lemma mailbox_newest {T} (m m' : LatestMailbox T) v g :
  mailbox_publish m v = Some (g, m') →
  g = mb_generation m + 1 ∧ (take_latest m').1 = Some (g, v) ∧ (take_latest (take_latest m').2).1 = None.
Proof.
  unfold mailbox_publish. intros (g' & Hg & Hm)%bind_Some. apply checked_add_some in Hg as [-> _].
  injection Hm as <- <-. done.
Qed.

(** ** Properties *)

(** C26: the overlay fails closed. After any operations, from a shell [b0]: the overlay
    takes input only while it is visible; while it is visible it was requested, a game
    window is attached, and the shell shows exactly the current plan. While it is not, the
    shell shows nothing, or a hidden and locked plan, unless nothing was ever applied or
    hiding itself failed. An operation that fails leaves the overlay locked and not visible. *)
Theorem host_fail_closed {B E : Type} `{!OverlayShellBackend B E} `{!LawfulShell B E}
    (b0 : B) (layouts : TopLeftOverlayLayouts) (os : list host_op) (o : host_op) :
  let '(r, c) := host_step (host_run (host_new b0 layouts) os) o in
  (input_mode c ≠ Locked → lifecycle c = LcVisible) ∧
  (lifecycle c = LcVisible →
     requested_visible c = true ∧ attached_window c ≠ None ∧
     shown (backend c) = Some (current_plan c) ∧ hp_visible (current_plan c) = true) ∧
  (lifecycle c ≠ LcVisible →
     match shown (backend c) with
     | Some plan => hp_visible plan = false ∧ hp_input_mode plan = Locked
     | None => True
     end ∨ backend c = b0 ∨ ∃ shell e, hide_fail_closed shell = (Err e, backend c)) ∧
  (r ≠ Ok tt → lifecycle c ≠ LcVisible ∧ input_mode c = Locked).
Proof.
  assert (host_inv b0 (host_new b0 layouts)) as H0.
  { split; [by split|done|]. intros _. split; [done|by left]. }
  pose proof (host_step_spec b0 _ o (host_run_inv b0 _ os H0)) as Hs.
  destruct (host_step (host_run (host_new b0 layouts) os) o) as [r c]. destruct Hs as [Hi Hr].
  pose proof (hi_ok _ _ Hi) as [H1 H2 H3 H4]. split_and!.
  - done.
  - intros Hv. destruct (last_plan c) as [plan|] eqn:Hp; [|by destruct (hi_none _ _ Hi Hp)].
    destruct (hi_plan _ _ Hi plan Hp) as [-> Hs]. split_and!; [auto| |done|].
    + intros Hn. apply H2 in Hn. congruence.
    + cbn. unfold is_visible. by rewrite bool_decide_true.
  - intros Hv. destruct (last_plan c) as [plan|] eqn:Hp.
    + left. destruct (hi_plan _ _ Hi plan Hp) as [-> ->].
      assert (hp_visible (current_plan c) = false) as Hh by (cbn; unfold is_visible; by rewrite bool_decide_false).
      split; [done|]. by apply host_ok_plan.
    + destruct (hi_none _ _ Hi Hp) as [_ [?|[->|?]]]; auto.
  - intros Hne. destruct r as [[]|e]; [done|]. destruct Hr as [Hp Hl]. split; [|done].
    by apply (hi_none _ _ Hi Hp).
Qed.

(** ** A run *)

(** A shell that cannot show the expanded map. *)
#[export] Instance demo_shell : OverlayShellBackend (option HostPlan) unit := {|
  apply_plan plan shell :=
    if bool_decide (hp_display_mode plan = ExpandedMap) then (Err tt, shell) else (Ok tt, Some plan);
  hide_fail_closed _ := (Ok tt, None);
|}.

#[export, refine] Instance demo_shell_lawful : LawfulShell (option HostPlan) unit := {| shown shell := shell |}.
Proof.
  - intros plan shell shell'. cbn. by destruct (bool_decide _); intros [= <-].
  - intros shell shell'. cbn. by intros [= <-].
Defined.

Definition demo_layout (side : N) : OverlayLayout :=
  let r := PhysicalRect.mk 0 0 side side in
  mkLayout r (RoundedRectangle r 4) r None (PhysicalSize.mk side side).
Definition demo_layouts : TopLeftOverlayLayouts := mkLayouts (demo_layout 200) (demo_layout 700).
Definition demo_game : TrackedWindow :=
  mkTracked 9 1 "game.exe" (WindowSnapshot.mk 77 0 0 1920 1080 96 true true false).
Definition demo_host_ops : list host_op := [OpAttach demo_game; OpInputMode PinnedInteractive].

Lemma host_fail_closed_witness :
  let '(r, c) := host_step (host_run (host_new None demo_layouts) demo_host_ops) (OpDisplayMode ExpandedMap) in
  r = Err tt ∧ lifecycle c = LcHiddenAttached ∧ input_mode c = Locked ∧ backend c = None ∧
  lifecycle (host_run (host_new None demo_layouts) demo_host_ops) = LcVisible.
Proof.
  pose proof (host_fail_closed None demo_layouts demo_host_ops (OpDisplayMode ExpandedMap)) as H.
  assert (∃ c, host_step (host_run (host_new None demo_layouts) demo_host_ops) (OpDisplayMode ExpandedMap) = (Err tt, c) ∧
    lifecycle c = LcHiddenAttached ∧ backend c = None) as (c & Hc & Hl & Hb)
    by (eexists; vm_compute; split; [reflexivity|split; reflexivity]).
  rewrite Hc in H |- *. split; [reflexivity|]. split; [exact Hl|]. split; [|split; [exact Hb|vm_compute; reflexivity]].
  apply H. discriminate.
Defined.
