(* ===== verification/FrameBridge.v ===== *)
(** * The shared-memory frame bridge

    Models [crates/pal-fullscreen-bridge/src/lib.rs]: the mapping through which the overlay
    hands rendered frames to the consumer injected into the game. Both processes run
    concurrently. Every access of the writer is a list of single stores, and a reader sees a
    mapping of its own at each of its loads: [view i] is the mapping at the [i]-th load. The
    order of the stores and loads is the program order; the weaker orders the hardware may
    allow around the atomics are not modelled. A search entry is written and read as one
    store and one load, a pixel as four. *)

From S2P Require Import Prelude Floats FloatInt FloatRound Settings Position OverlayVisual Placement.

Definition DEFAULT_MAPPING_ID : string := "/pal_companion_fullscreen_frame_v3".
Definition MAX_SEARCH_ENTRIES : N := 2048.
Definition BYTES_PER_PIXEL : N := 4.
Definition SEARCH_TITLE_BYTES : N := 72.
Definition SEARCH_SUBTITLE_BYTES : N := 72.
Definition MAGIC : N := le_value (as_bytes "PALFSV02").
Definition SCHEMA_VERSION : N := 3.
Definition MAX_PAYLOAD_BYTES : N := MAX_FRAME_PIXELS * BYTES_PER_PIXEL.

(** ** Codes *)

Inductive FrameDisplayMode := FrMiniMap | FrExpandedMap.
#[export] Instance FrameDisplayMode_eq_dec : EqDecision FrameDisplayMode.
Proof. solve_decision. Defined.
Definition display_mode_code (self : FrameDisplayMode) : N :=
  match self with FrMiniMap => 0 | FrExpandedMap => 1 end.
Definition display_mode_from_raw (value : N) : option FrameDisplayMode :=
  match value with 0 => Some FrMiniMap | 1 => Some FrExpandedMap | _ => None end.

Inductive FrameInputMode := FrLocked | FrInteractive.
Definition input_mode_code (self : FrameInputMode) : N :=
  match self with FrLocked => 0 | FrInteractive => 1 end.
Definition input_mode_from_raw (value : N) : option FrameInputMode :=
  match value with 0 => Some FrLocked | 1 => Some FrInteractive | _ => None end.

Record FramePoiFilters := mkFrameFilters {
  fr_fast_travel : bool;
  fr_boss : bool;
  fr_wanted : bool;
  fr_dungeon : bool;
  fr_tower : bool;
  fr_egg : bool;
  fr_resources : bool;
  fr_salvage : bool;
}.
Definition FramePoiFilters_default : FramePoiFilters :=
  mkFrameFilters true true false true true false false false.

Definition flag (b : bool) (bit : N) : N := if b then bit else 0.
Definition to_bits (self : FramePoiFilters) : N :=
  N.lor (N.lor (N.lor (N.lor (N.lor (N.lor (N.lor
    (flag (fr_fast_travel self) 1) (flag (fr_boss self) 2)) (flag (fr_wanted self) 4))
    (flag (fr_dungeon self) 8)) (flag (fr_tower self) 16)) (flag (fr_egg self) 32))
    (flag (fr_resources self) 64)) (flag (fr_salvage self) 128).
Definition from_bits (bits : N) : FramePoiFilters :=
  let on bit := negb (N.land bits bit =? 0) in
  mkFrameFilters (on 1) (on 2) (on 4) (on 8) (on 16) (on 32) (on 64) (on 128).

Inductive ConsumerAction :=
| CaToggleFastTravel | CaToggleBoss | CaToggleWanted | CaToggleDungeon | CaToggleTower | CaToggleEgg
| CaToggleResources | CaToggleSalvage | CaCloseExpanded | CaZoomIn | CaZoomOut | CaToggleRotation
| CaLock | CaEnterInteractive.
#[export] Instance ConsumerAction_eq_dec : EqDecision ConsumerAction.
Proof. solve_decision. Defined.

Definition consumer_action_code (self : ConsumerAction) : N :=
  match self with
  | CaToggleFastTravel => 1
  | CaToggleBoss => 2
  | CaToggleWanted => 3
  | CaToggleDungeon => 4
  | CaToggleTower => 5
  | CaToggleEgg => 6
  | CaToggleResources => 7
  | CaToggleSalvage => 8
  | CaCloseExpanded => 9
  | CaZoomIn => 10
  | CaZoomOut => 11
  | CaToggleRotation => 12
  | CaLock => 13
  | CaEnterInteractive => 14
  end.
Definition consumer_action_from_raw (value : N) : option ConsumerAction :=
  match value with
  | 1 => Some CaToggleFastTravel
  | 2 => Some CaToggleBoss
  | 3 => Some CaToggleWanted
  | 4 => Some CaToggleDungeon
  | 5 => Some CaToggleTower
  | 6 => Some CaToggleEgg
  | 7 => Some CaToggleResources
  | 8 => Some CaToggleSalvage
  | 9 => Some CaCloseExpanded
  | 10 => Some CaZoomIn
  | 11 => Some CaZoomOut
  | 12 => Some CaToggleRotation
  | 13 => Some CaLock
  | 14 => Some CaEnterInteractive
  | _ => None
  end.

Inductive FrameSearchKind := KindPal | KindPoi | KindResource.
Definition search_kind_code (self : FrameSearchKind) : N :=
  match self with KindPal => 1 | KindPoi => 2 | KindResource => 3 end.
Definition search_kind_from_raw (value : N) : option FrameSearchKind :=
  match value with 1 => Some KindPal | 2 => Some KindPoi | 3 => Some KindResource | _ => None end.

Record FrameSearchEntry := mkSearchEntry {
  se_kind : FrameSearchKind;
  se_title : string;
  se_subtitle : string;
}.

Inductive ConsumerBackend := BackendUnknown | DirectX11 | DirectX12.
Definition backend_code (self : ConsumerBackend) : N :=
  match self with BackendUnknown => 0 | DirectX11 => 11 | DirectX12 => 12 end.
Definition backend_from_raw (value : N) : ConsumerBackend :=
  match value with 11 => DirectX11 | 12 => DirectX12 | _ => BackendUnknown end.

Record FrameControls := mkControls { fc_input_mode : FrameInputMode; fc_poi_filters : FramePoiFilters }.
Definition FrameControls_default : FrameControls := mkControls FrLocked FramePoiFilters_default.

Record FrameMetadata := mkMetadata {
  fm_display_mode : FrameDisplayMode;
  fm_controls : FrameControls;
  fm_opacity : f32;
  fm_logical_visible : bool;
  fm_display_width : N;
  fm_display_height : N;
}.

Record FullscreenFrame := mkFrame {
  ff_sequence : N;
  ff_width : N;
  ff_height : N;
  ff_display_width : N;
  ff_display_height : N;
  ff_display_mode : FrameDisplayMode;
  ff_input_mode : FrameInputMode;
  ff_poi_filters : FramePoiFilters;
  ff_opacity : f32;
  ff_logical_visible : bool;
  ff_rgba : list N;
}.

Record ConsumerStatus := mkConsumerStatus { cs_backend : ConsumerBackend; cs_heartbeat_age_ms : N }.

Inductive BridgeError :=
| InvalidDimensions | PixelCountMismatch | InvalidSearchCatalog | IncompatibleMapping.
#[export] Instance BridgeError_eq_dec : EqDecision BridgeError.
Proof. solve_decision. Defined.

(** ** The mapping *)

Record SharedHeader := mkHeader {
  magic : N;
  schema_version : N;
  capacity_bytes : N;
  sequence : N;
  width : N;
  height : N;
  payload_bytes : N;
  display_mode : N;
  opacity_bits : N;
  logical_visible : N;
  writer_heartbeat_ms : N;
  consumer_heartbeat_ms : N;
  consumer_backend : N;
  poi_filter_bits : N;
  input_mode : N;
  consumer_action : N;
  consumer_action_sequence : N;
  search_sequence : N;
  search_count : N;
  consumer_search_selection : N;
  consumer_search_sequence : N;
  reserved : list N;
}.
#[export] Instance SharedHeader_eta : Eta SharedHeader := λ h,
  mkHeader (magic h) (schema_version h) (capacity_bytes h) (sequence h) (width h) (height h)
    (payload_bytes h) (display_mode h) (opacity_bits h) (logical_visible h) (writer_heartbeat_ms h)
    (consumer_heartbeat_ms h) (consumer_backend h) (poi_filter_bits h) (input_mode h)
    (consumer_action h) (consumer_action_sequence h) (search_sequence h) (search_count h)
    (consumer_search_selection h) (consumer_search_sequence h) (reserved h).

Definition RESERVED_CELLS : nat := 11.
Definition DISPLAY_WIDTH_RESERVED_INDEX : nat := 0.
Definition DISPLAY_HEIGHT_RESERVED_INDEX : nat := 1.
Definition CONSUMER_PAN_RESERVED_INDEX : nat := 2.
Definition CONSUMER_RECENTER_SEQUENCE_RESERVED_INDEX : nat := 3.

Record SharedSearchEntry := mkSharedEntry {
  sh_kind : N;
  sh_title_length : N;
  sh_subtitle_length : N;
  sh_title : bytes;
  sh_subtitle : bytes;
}.

Record Mapping := mkMapping {
  header : SharedHeader;
  search : list SharedSearchEntry;
  payload : list N;
}.
#[export] Instance Mapping_eta : Eta Mapping := λ m, mkMapping (header m) (search m) (payload m).

Definition header_compatible (view : nat → Mapping) : bool :=
  (magic (header (view 0%nat)) =? MAGIC)
  && (schema_version (header (view 1%nat)) =? SCHEMA_VERSION)
  && (capacity_bytes (header (view 2%nat)) =? MAX_PAYLOAD_BYTES).

Definition checked_pixel_count (width height : N) : result N BridgeError :=
  if (width =? 0) || (height =? 0) then Err InvalidDimensions
  else
    let pixel_count := width * height in
    if (u64_max <? pixel_count) || (MAX_FRAME_PIXELS <? pixel_count) then Err InvalidDimensions
    else Ok pixel_count.

(** [f32::to_bits] and [f32::from_bits]. *)
Definition f32_to_bits (x : f32) : N :=
  let sign (s : bool) := if s then N.shiftl 1 31 else 0 in
  match x with
  | S754_zero s => sign s
  | S754_infinity s => sign s + N.shiftl 255 23
  | S754_nan => N.shiftl 0x1FF 22
  | S754_finite s m e =>
      if N.pos m <? N.shiftl 1 23 then sign s + N.pos m
      else sign s + N.shiftl (Z.to_N (e + 150)) 23 + (N.pos m - N.shiftl 1 23)
  end.

Definition f32_from_bits (bits : N) : f32 :=
  let sign := N.testbit bits 31 in
  let exponent := N.land (N.shiftr bits 23) 0xff in
  let fraction := N.land bits 0x7fffff in
  if exponent =? 0xff then if fraction =? 0 then S754_infinity sign else S754_nan
  else if exponent =? 0 then
    match fraction with 0 => S754_zero sign | Npos m => S754_finite sign m (-149) end
  else
    match fraction + 2 ^ 23 with
    | 0 => S754_zero sign
    | Npos m => S754_finite sign m (Z.of_N exponent - 150)
    end.

Definition clamp_opacity (x : f32) : f32 := fclamp x (f32_lit 2 10) (f32_of_Z 1).

(** ** The writer: single stores *)

Definition write : Type := Mapping → Mapping.

Definition store (f : SharedHeader → SharedHeader) : write := λ m, m <| header ::= f |>.
Definition store_reserved (index : nat) (value : N) : write :=
  store (λ h, h <| reserved ::= <[index := value]> |>).
Definition store_byte (index : nat) (value : N) : write := λ m, m <| payload ::= <[index := value]> |>.
Definition store_entry (index : nat) (entry : SharedSearchEntry) : write :=
  λ m, m <| search ::= <[index := entry]> |>.

(** [sequence.fetch_add(1)]; what it returns is the sequence before. *)
Definition begin_frame : write := store (λ h, h <| sequence ::= λ s, wrapping_add s 1 |>).
(** [(old | 1).wrapping_add(1) & !1]. *)
Definition published (old : N) : N := N.ldiff (wrapping_add (N.lor old 1) 1) 1.

Section Publish.
(** The C library's [hypot], which the alpha of the round mini map uses. *)
Context (hypot : f64 → f64 → f64).

(** [x as u8]. *)
Definition as_u8 (x : f64) : N := N.min (as_u32 x) 255.

Definition frame_alpha (index : nat) (width height : N) (display_mode : FrameDisplayMode) : N :=
  if bool_decide (display_mode = FrExpandedMap) then 255
  else
    let half := f64_lit 5 10 in
    let index := N.of_nat index in
    let x := add64 (f64_of_N (index mod width)) half in
    let y := add64 (f64_of_N (index / width)) half in
    let center_x := mul64 (f64_of_N width) half in
    let center_y := mul64 (f64_of_N height) half in
    let radius := sub64 (mul64 (f64_of_N (N.min width height)) half) (f64_of_N 1) in
    let edge := sub64 radius (hypot (sub64 x center_x) (sub64 y center_y)) in
    as_u8 (fround (mul64 (fclamp (add64 edge half) (f64_of_N 0) (f64_of_N 1)) (f64_of_N 255))).

Definition pixel_bytes (index : nat) (source width height : N) (display_mode : FrameDisplayMode) : list N :=
  [N.land (N.shiftr source 16) 255; N.land (N.shiftr source 8) 255; N.land source 255;
   frame_alpha index width height display_mode].

(** The bytes of a picture, in the order of the payload. *)
Definition rgba_bytes (width height : N) (display_mode : FrameDisplayMode) (pixels : list N) : list N :=
  concat (imap (λ index source, pixel_bytes index source width height display_mode) pixels).

Definition publish_writes (old now width_ height_ : N) (metadata : FrameMetadata) (pixels : list N) :
    list write :=
  [begin_frame;
   store (λ h, h <| width := width_ |>);
   store (λ h, h <| height := height_ |>);
   store (λ h, h <| payload_bytes := N.of_nat (length pixels) * BYTES_PER_PIXEL |>);
   store (λ h, h <| display_mode := display_mode_code (fm_display_mode metadata) |>);
   store (λ h, h <| input_mode := input_mode_code (fc_input_mode (fm_controls metadata)) |>);
   store (λ h, h <| poi_filter_bits := to_bits (fc_poi_filters (fm_controls metadata)) |>);
   store (λ h, h <| opacity_bits := f32_to_bits (clamp_opacity (fm_opacity metadata)) |>);
   store (λ h, h <| logical_visible := if fm_logical_visible metadata then 1 else 0 |>);
   store_reserved DISPLAY_WIDTH_RESERVED_INDEX (fm_display_width metadata);
   store_reserved DISPLAY_HEIGHT_RESERVED_INDEX (fm_display_height metadata);
   store (λ h, h <| writer_heartbeat_ms := now |>)]
  ++ imap store_byte (rgba_bytes width_ height_ (fm_display_mode metadata) pixels)
  ++ [store (λ h, h <| sequence := published old |>)].

(** [publish_rgb_u32_with_controls]: the checks, then the stores; the answer is the sequence. *)
Definition publish_rgb_u32_with_controls (m : Mapping) (now width_ height_ : N)
    (metadata : FrameMetadata) (pixels : list N) : result (N * list write) BridgeError :=
  let? pixel_count := checked_pixel_count width_ height_ in
  if (fm_display_width metadata =? 0) || (fm_display_height metadata =? 0) then Err InvalidDimensions
  else if negb (len pixels =? pixel_count) then Err PixelCountMismatch
  else
    let old := sequence (header m) in
    Ok (published old, publish_writes old now width_ height_ metadata pixels).

Definition publish_rgb_u32 (m : Mapping) (now width_ height_ : N) (display_mode : FrameDisplayMode)
    (opacity : f32) (logical_visible : bool) (pixels : list N) : result (N * list write) BridgeError :=
  publish_rgb_u32_with_controls m now width_ height_
    (mkMetadata display_mode FrameControls_default opacity logical_visible width_ height_) pixels.
End Publish.

Definition set_logical_visible (m : Mapping) (now : N) (visible : bool) : list write :=
  let visible := if visible then 1 else 0 in
  if logical_visible (header m) =? visible then [store (λ h, h <| writer_heartbeat_ms := now |>)]
  else
    let old := sequence (header m) in
    [begin_frame; store (λ h, h <| logical_visible := visible |>);
     store (λ h, h <| writer_heartbeat_ms := now |>);
     store (λ h, h <| sequence := published old |>)].

Definition run (m : Mapping) (ws : list write) : Mapping := fold_left (λ m w, w m) ws m.

(** ** The reader *)

Definition read_latest (view : nat → Mapping) (last_sequence : N) : option FullscreenFrame :=
  if negb (header_compatible view) then None
  else
    let before := sequence (header (view 3%nat)) in
    if (before =? 0) || negb (N.land before 1 =? 0) || (before =? last_sequence) then None
    else
      let width_ := width (header (view 4%nat)) in
      let height_ := height (header (view 5%nat)) in
      raw_width ← reserved (header (view 6%nat)) !! DISPLAY_WIDTH_RESERVED_INDEX;
      raw_height ← reserved (header (view 7%nat)) !! DISPLAY_HEIGHT_RESERVED_INDEX;
      let payload_bytes_ := payload_bytes (header (view 8%nat)) in
      mode ← display_mode_from_raw (display_mode (header (view 9%nat)));
      input ← input_mode_from_raw (input_mode (header (view 10%nat)));
      let filters := from_bits (poi_filter_bits (header (view 11%nat))) in
      let opacity := f32_from_bits (opacity_bits (header (view 12%nat))) in
      let visible := negb (logical_visible (header (view 13%nat)) =? 0) in
      pixel_count ← match checked_pixel_count width_ height_ with Ok n => Some n | Err _ => None end;
      if negb (payload_bytes_ =? pixel_count * BYTES_PER_PIXEL) || (MAX_PAYLOAD_BYTES <? payload_bytes_)
      then None
      else
        let count := N.to_nat payload_bytes_ in
        rgba ← mapM (λ k, payload (view (14 + k)%nat) !! k) (seq 0 count);
        let after := sequence (header (view (14 + count)%nat)) in
        if negb (before =? after) || negb (N.land after 1 =? 0) then None
        else
          Some (mkFrame after width_ height_ (N.max raw_width width_) (N.max raw_height height_) mode
                  input filters (clamp_opacity opacity) visible rgba).

(** ** Runs of the writer, store by store *)

Inductive frame_op :=
| OpPublish (now width height : N) (metadata : FrameMetadata) (pixels : list N)
| OpVisible (now : N) (visible : bool).

Definition writes_of (hypot : f64 → f64 → f64) (m : Mapping) (op : frame_op) : list write :=
  match op with
  | OpPublish now width height metadata pixels =>
      match publish_rgb_u32_with_controls hypot m now width height metadata pixels with
      | Ok (_, ws) => ws
      | Err _ => []
      end
  | OpVisible now visible => set_logical_visible m now visible
  end.

Definition perform (hypot : f64 → f64 → f64) (m : Mapping) (op : frame_op) : Mapping :=
  run m (writes_of hypot m op).
Definition performs (hypot : f64 → f64 → f64) (m : Mapping) (ops : list frame_op) : Mapping :=
  fold_left (perform hypot) ops m.

(** The mapping before each store. *)
Fixpoint trace_before (m : Mapping) (ws : list write) : list Mapping :=
  match ws with [] => [] | w :: ws => m :: trace_before (w m) ws end.

(** Every mapping there is while the operations run. *)
Fixpoint history (hypot : f64 → f64 → f64) (m : Mapping) (ops : list frame_op) : list Mapping :=
  match ops with
  | [] => [m]
  | op :: ops =>
      let ws := writes_of hypot m op in
      trace_before m ws ++ history hypot (run m ws) ops
  end.

(** What a reader of the history may see: its loads come in order. *)
Definition observes (h : list Mapping) (view : nat → Mapping) : Prop :=
  ∃ t : nat → nat, (∀ i j, (i ≤ j)%nat → (t i ≤ t j)%nat) ∧ ∀ i, h !! t i = Some (view i).

(** ** The sequence lock *)

Definition compat_part (m : Mapping) : N * N * N :=
  (magic (header m), schema_version (header m), capacity_bytes (header m)).

Record FrameCells := mkCells {
  ce_width : N;
  ce_height : N;
  ce_payload_bytes : N;
  ce_display_mode : N;
  ce_opacity_bits : N;
  ce_logical_visible : N;
  ce_poi_filter_bits : N;
  ce_input_mode : N;
  ce_display_width : option N;
  ce_display_height : option N;
  ce_payload : list N;
}.

Definition frame_part (m : Mapping) : FrameCells :=
  let h := header m in
  mkCells (width h) (height h) (payload_bytes h) (display_mode h) (opacity_bits h) (logical_visible h)
    (poi_filter_bits h) (input_mode h) (reserved h !! DISPLAY_WIDTH_RESERVED_INDEX)
    (reserved h !! DISPLAY_HEIGHT_RESERVED_INDEX) (payload m).

Definition seq_of (m : Mapping) : N := sequence (header m).

(** One store: the frame changes only while the sequence is odd. *)
Record lock_step (a b : Mapping) : Prop := {
  ls_compat : compat_part b = compat_part a;
  ls_frame : frame_part b = frame_part a ∨ N.odd (seq_of a) = true;
  ls_sequence : seq_of b = seq_of a ∨ seq_of b = seq_of a + 1;
}.

Lemma lock_steps a b :
  rtc lock_step a b →
  compat_part b = compat_part a ∧ seq_of a ≤ seq_of b ∧
  (seq_of b = seq_of a → N.odd (seq_of a) = false → frame_part b = frame_part a).
Proof.
  induction 1 as [a|a b c [Hc Hf Hs] _ (IHc & IHs & IHf)]; [by split_and!|].
  split_and!; [congruence|lia|]. intros Heq Hodd.
  assert (seq_of b = seq_of a) as Hb by lia. rewrite Hb in *.
  rewrite IHf by done. destruct Hf as [Hf|Hf]; [done|congruence].
Qed.

(** Consecutive elements are related. *)
Fixpoint linked {A} (R : relation A) (l : list A) : Prop :=
  match l with
  | [] => True
  | a :: l => match l with [] => True | b :: _ => R a b ∧ linked R l end
  end.

Lemma linked_cons {A} (R : relation A) a b l : linked R (a :: b :: l) ↔ R a b ∧ linked R (b :: l).
Proof. done. Qed.

Lemma linked_app {A} (R : relation A) l1 x l2 :
  linked R (l1 ++ [x]) → linked R (x :: l2) → linked R (l1 ++ x :: l2).
Proof.
  induction l1 as [|a l1 IH]; [done|]. destruct l1 as [|b l1]; cbn [app].
  - rewrite !linked_cons. tauto.
  - rewrite !linked_cons. intros [? ?] ?. auto.
Qed.

Lemma linked_rtc {A} (R : relation A) l i j a b :
  linked R l → (i ≤ j)%nat → l !! i = Some a → l !! j = Some b → rtc R a b.
Proof.
  revert i j a b. induction l as [|x l IH]; intros i j a b Hl Hij Ha Hb; [done|].
  destruct l as [|y l].
  { apply list_lookup_singleton_Some in Ha as [-> <-], Hb as [-> <-]. done. }
  rewrite linked_cons in Hl. destruct Hl as [Hxy Hl].
  destruct i as [|i], j as [|j]; cbn in Ha, Hb; simplify_eq; [done| |lia|].
  - eapply rtc_l; [exact Hxy|]. apply (IH 0%nat j); [done|lia|done|done].
  - apply (IH i j); [done|lia|done|done].
Qed.

(** A store inside the lock. *)
Definition body_write (w : write) : Prop :=
  ∀ m, seq_of (w m) = seq_of m ∧ compat_part (w m) = compat_part m.

Lemma published_even old :
  N.odd old = false → old + 2 ≤ u64_max → published old = old + 2.
Proof.
  intros Ho Hb. unfold published.
  assert (N.lor old 1 = old + 1) as -> by (by destruct old as [|[p|p|]]).
  unfold wrapping_add. rewrite N.mod_small by int_lia.
  assert (N.odd (old + 2) = false) as He by (rewrite N.odd_add, Ho; done).
  replace (old + 1 + 1) with (old + 2) by lia.
  apply N.bits_inj. intros n. rewrite N.ldiff_spec. destruct n as [|n].
  - by rewrite N.bit0_odd, He.
  - rewrite (N.bits_above_log2 1) by (cbn; lia). by rewrite andb_true_r.
Qed.

Lemma writes_app m ws1 ws2 : run m (ws1 ++ ws2) = run (run m ws1) ws2.
Proof. apply fold_left_app. Qed.

Lemma body_trace m body final :
  Forall body_write body → N.odd (seq_of m) = true →
  seq_of (run m (body ++ [store (λ h, h <| sequence := final |>)])) = final ∧
  compat_part (run m (body ++ [store (λ h, h <| sequence := final |>)])) = compat_part m ∧
  (final = seq_of m + 1 →
   linked lock_step (trace_before m (body ++ [store (λ h, h <| sequence := final |>)]) ++
                     [run m (body ++ [store (λ h, h <| sequence := final |>)])])) ∧
  ∀ x, x ∈ trace_before m (body ++ [store (λ h, h <| sequence := final |>)]) → N.odd (seq_of x) = true.
Proof.
  intros Hb. revert m. induction Hb as [|w body Hw Hb IH]; intros m Hodd; cbn [app trace_before run fold_left].
  - split_and!; [done|done| |].
    + intros ->. split; [|done]. split; [done|by left|by right].
    + intros x ->%list_elem_of_singleton. done.
  - destruct (Hw m) as [Hs Hc]. destruct (IH (w m)) as (H1 & H2 & H3 & H4); [by rewrite Hs|].
    split_and!; [done| | |].
    + etransitivity; [exact H2|done].
    + intros Hf. specialize (H3 ltac:(by rewrite Hs)).
      destruct (body ++ _) as [|w' rest] eqn:Hrest; [by destruct body|].
      cbn [trace_before app] in *. rewrite linked_cons. split; [|done].
      split; [done|by right|by left].
    + intros x [->|Hx]%elem_of_cons; [done|auto].
Qed.

Lemma locked_trace m body :
  Forall body_write body → N.odd (seq_of m) = false → seq_of m + 2 ≤ u64_max →
  let ws := begin_frame :: body ++ [store (λ h, h <| sequence := published (seq_of m) |>)] in
  seq_of (run m ws) = seq_of m + 2 ∧
  linked lock_step (trace_before m ws ++ [run m ws]) ∧
  ∀ x, x ∈ trace_before m ws → x = m ∨ N.odd (seq_of x) = true.
Proof.
  intros Hb He Hmax ws. unfold ws. clear ws. rewrite published_even by done.
  assert (seq_of (begin_frame m) = seq_of m + 1) as Hs.
  { unfold seq_of, begin_frame. cbn. unfold wrapping_add. apply N.mod_small. unfold seq_of in Hmax. int_lia. }
  destruct (body_trace (begin_frame m) body (seq_of m + 2) Hb) as (H1 & H2 & H3 & H4).
  { by rewrite Hs, N.odd_add, He. }
  split_and!.
  - exact H1.
  - specialize (H3 ltac:(rewrite Hs; lia)). cbn [trace_before run fold_left].
    destruct (body ++ _) as [|w rest] eqn:Hrest; [by destruct body|].
    cbn [trace_before app] in *. rewrite linked_cons. split; [|done].
    split; [done|by left|by right].
  - intros x [->|Hx]%elem_of_cons; [by left|right; auto].
Qed.

Lemma store_byte_body k v : body_write (store_byte k v).
Proof. done. Qed.

(** What an operation does to the lock: its first mapping is the one it starts from, it ends
    quiescent, and in between the sequence is odd. *)
Record op_trace (m : Mapping) (ws : list write) : Prop := {
  ot_end : N.odd (seq_of (run m ws)) = false ∧ seq_of (run m ws) ≤ seq_of m + 2;
  ot_linked : linked lock_step (trace_before m ws ++ [run m ws]);
  ot_inside x : x ∈ trace_before m ws → x = m ∨ N.odd (seq_of x) = true;
}.

Lemma locked_op m body :
  Forall body_write body → N.odd (seq_of m) = false → seq_of m + 2 ≤ u64_max →
  op_trace m (begin_frame :: body ++ [store (λ h, h <| sequence := published (seq_of m) |>)]).
Proof.
  intros Hb He Hmax. destruct (locked_trace m body Hb He Hmax) as (H1 & H2 & H3).
  split; [|done|done]. rewrite H1. split; [by rewrite N.odd_add, He|lia].
Qed.

Lemma frame_op_trace hypot m op :
  N.odd (seq_of m) = false → seq_of m + 2 ≤ u64_max → op_trace m (writes_of hypot m op).
Proof.
  intros He Hmax. destruct op as [now w h metadata pixels|now visible]; cbn [writes_of].
  - destruct (publish_rgb_u32_with_controls hypot m now w h metadata pixels) as [[s ws]|e] eqn:Hp.
    + unfold publish_rgb_u32_with_controls in Hp. apply and_then_ok in Hp as (n & _ & Hp).
      step_if_in Hp; [done|]. step_if_in Hp; [done|]. injection Hp as <- <-.
      unfold publish_writes. fold (seq_of m).
      set (cells := [_; _; _; _; _; _; _; _; _; _; _; _]).
      assert (cells = begin_frame :: tail cells) as -> by done. cbn [app]. rewrite (assoc_L app).
      apply locked_op; [|done|done]. apply Forall_app. split.
      * unfold cells. cbn [tail]. repeat (constructor; [done|]). constructor.
      * apply Forall_forall. intros w' Hw. apply elem_of_lookup_imap in Hw as (k & v & -> & _).
        apply store_byte_body.
    + split; [|done|by intros x Hx%elem_of_nil].
      split; [exact He|]. change (seq_of m ≤ seq_of m + 2). lia.
  - unfold set_logical_visible. destruct (_ =? _).
    + split.
      * split; [exact He|]. change (seq_of m ≤ seq_of m + 2). lia.
      * split; [|done]. by split; [|left|left].
      * intros x ->%list_elem_of_singleton. by left.
    + fold (seq_of m).
      apply (locked_op m [store (λ h, h <| logical_visible := if visible then 1 else 0 |>);
                          store (λ h, h <| writer_heartbeat_ms := now |>)]); [|done|done].
      repeat (constructor; [done|]). constructor.
Qed.

(** ** A read is a read of one published frame *)

Lemma trace_before_head m w ws : trace_before m (w :: ws) = m :: trace_before (w m) ws.
Proof. done. Qed.

Lemma history_cons hypot m op ops :
  writes_of hypot m op ≠ [] → ∃ l, history hypot m (op :: ops) = m :: l.
Proof. cbn [history]. destruct (writes_of hypot m op) as [|w ws]; [done|]. intros _. by eexists. Qed.

(** Skipping an operation that stores nothing, the history starts with [m]. *)
Lemma history_head hypot m ops : ∃ l, history hypot m ops = m :: l.
Proof.
  induction ops as [|op ops IH]; [by eexists|]. cbn [history].
  destruct (writes_of hypot m op) as [|w ws]; [done|]. by eexists.
Qed.

Lemma history_linked hypot m ops :
  N.odd (seq_of m) = false → seq_of m + 2 * len ops ≤ u64_max →
  linked lock_step (history hypot m ops) ∧
  ∀ x, x ∈ history hypot m ops → N.odd (seq_of x) = false →
    ∃ k, (k ≤ length ops)%nat ∧ x = performs hypot m (take k ops).
Proof.
  revert m. induction ops as [|op ops IH]; intros m He Hmax; cbn [history].
  { split; [done|]. intros x ->%list_elem_of_singleton _. exists 0%nat. split; [lia|done]. }
  unfold len in *. cbn [length] in Hmax. destruct (frame_op_trace hypot m op He ltac:(lia)) as [[He' Hs'] Hl Hin].
  destruct (IH (run m (writes_of hypot m op)) He' ltac:(lia)) as [IHl IHx].
  destruct (history_head hypot (run m (writes_of hypot m op)) ops) as [l Hhead]. split.
  - rewrite Hhead in *. by apply linked_app.
  - intros x [Hx|Hx]%elem_of_app Hodd.
    + destruct (Hin x Hx) as [->|Hx']; [|congruence]. exists 0%nat. split; [lia|done].
    + destruct (IHx x Hx Hodd) as (k & Hk & ->). exists (S k). cbn [length take]. split; [lia|done].
Qed.

(** A reader alone with a mapping [m]. *)
Definition read_alone (m : Mapping) (last_sequence : N) : option FullscreenFrame :=
  read_latest (λ _, m) last_sequence.

Lemma land_one_even n : negb (N.land n 1 =? 0) = N.odd n.
Proof. by destruct n as [|[p|p|]]. Qed.

Lemma mapM_ext_elem {A B} (f g : A → option B) l :
  (∀ a, a ∈ l → f a = g a) → mapM f l = mapM g l.
Proof.
  induction l as [|a l IH]; intros H; [done|]. cbn. rewrite (H a) by apply list_elem_of_here.
  rewrite IH; [done|]. intros b Hb. by apply H, list_elem_of_further.
Qed.

(** A read depends only on the cells it loads. *)
Lemma read_latest_ext view m last f :
  read_latest view last = Some f →
  (∀ i, (i < 3)%nat → compat_part (view i) = compat_part m) →
  (∀ i, (3 ≤ i ≤ 14 + N.to_nat (payload_bytes (header (view 8%nat))))%nat →
     frame_part (view i) = frame_part m ∧ seq_of (view i) = seq_of m) →
  read_alone m last = Some f.
Proof.
  intros Hf Hcompat Hframe.
  assert (∀ i, (3 ≤ i ≤ 14 + N.to_nat (payload_bytes (header (view 8%nat))))%nat →
    sequence (header (view i)) = sequence (header m) ∧ payload (view i) = payload m) as Hseq.
  { intros i Hi. destruct (Hframe i Hi) as [Hp Hs]. by injection Hp. }
  assert (∀ i, (i < 14)%nat → (3 ≤ i)%nat → frame_part (view i) = frame_part m) as Hcells.
  { intros i Hi Hi'. apply Hframe. lia. }
  pose proof (Hcompat 0%nat ltac:(lia)) as C0. injection C0 as C0 _ _.
  pose proof (Hcompat 1%nat ltac:(lia)) as C1. injection C1 as _ C1 _.
  pose proof (Hcompat 2%nat ltac:(lia)) as C2. injection C2 as _ _ C2.
  pose proof (Hcells 8%nat ltac:(lia) ltac:(lia)) as Hp8. injection Hp8 as _ _ E8 _ _ _ _ _ _ _ _.
  unfold read_latest, header_compatible in Hf. unfold read_alone, read_latest, header_compatible.
  rewrite <- C0, <- C1, <- C2. step_if_in Hf; [done|].
  rewrite (proj1 (Hseq 3%nat ltac:(lia))) in Hf. cbv zeta in *. step_if_in Hf; [done|].
  pose proof (Hcells 4%nat ltac:(lia) ltac:(lia)) as Hp. injection Hp as E4 _ _ _ _ _ _ _ _ _ _.
  pose proof (Hcells 5%nat ltac:(lia) ltac:(lia)) as Hp. injection Hp as _ E5 _ _ _ _ _ _ _ _ _.
  pose proof (Hcells 6%nat ltac:(lia) ltac:(lia)) as Hp. injection Hp as _ _ _ _ _ _ _ _ E6 _ _.
  pose proof (Hcells 7%nat ltac:(lia) ltac:(lia)) as Hp. injection Hp as _ _ _ _ _ _ _ _ _ E7 _.
  pose proof (Hcells 9%nat ltac:(lia) ltac:(lia)) as Hp. injection Hp as _ _ _ E9 _ _ _ _ _ _ _.
  pose proof (Hcells 10%nat ltac:(lia) ltac:(lia)) as Hp. injection Hp as _ _ _ _ _ _ _ E10 _ _ _.
  pose proof (Hcells 11%nat ltac:(lia) ltac:(lia)) as Hp. injection Hp as _ _ _ _ _ _ E11 _ _ _ _.
  pose proof (Hcells 12%nat ltac:(lia) ltac:(lia)) as Hp. injection Hp as _ _ _ _ E12 _ _ _ _ _ _.
  pose proof (Hcells 13%nat ltac:(lia) ltac:(lia)) as Hp. injection Hp as _ _ _ _ _ E13 _ _ _ _ _.
  clear Hcells Hframe Hcompat. rewrite E4, E5, E6, E7, E9, E10, E11, E12, E13 in Hf.
  rewrite <- E8.
  set (count := N.to_nat (payload_bytes (header (view 8%nat)))) in *.
  rewrite (proj1 (Hseq (14 + count)%nat ltac:(lia))) in Hf.
  assert (∀ k, k ∈ seq 0 count → payload (view (14 + k)%nat) !! k = payload m !! k) as Hbytes.
  { intros k Hk%elem_of_seq. by rewrite (proj2 (Hseq (14 + k)%nat ltac:(lia))). }
  assert (mapM (λ k, payload (view (14 + k)%nat) !! k) (seq 0 count) =
          mapM (λ k, payload m !! k) (seq 0 count)) as Hmap.
  { apply mapM_ext_elem. done. }
  rewrite Hmap in Hf. exact Hf.
Qed.

Lemma read_latest_sequences view last f :
  read_latest view last = Some f →
  N.odd (seq_of (view 3%nat)) = false ∧ ff_sequence f = seq_of (view 3%nat) ∧
  seq_of (view (14 + N.to_nat (payload_bytes (header (view 8%nat))))%nat) = seq_of (view 3%nat).
Proof.
  unfold read_latest. intros H. step_if_in H; [done|]. cbv zeta in H. step_if_in H; [done|].
  apply bind_Some in H as (w & _ & H). apply bind_Some in H as (h & _ & H).
  apply bind_Some in H as (mode & _ & H). apply bind_Some in H as (input & _ & H).
  apply bind_Some in H as (n & _ & H). step_if_in H; [done|].
  apply bind_Some in H as (rgba & _ & H). step_if_in H; [done|]. injection H as <-.
  reflect_bool. cbn [ff_sequence]. fold (seq_of (view 3%nat)) in *.
  match goal with H : seq_of (view 3%nat) = _ |- _ => rewrite <- H in * end.
  split_and!; [|done|done]. rewrite <- land_one_even.
  match goal with H : N.land (seq_of _) 1 = 0 |- _ => by rewrite H end.
Qed.

Lemma observes_rtc hypot m ops view i j :
  N.odd (seq_of m) = false → seq_of m + 2 * len ops ≤ u64_max → observes (history hypot m ops) view →
  (i ≤ j)%nat → rtc lock_step (view i) (view j).
Proof.
  intros He Hmax (t & Ht & Hview) Hij. eapply linked_rtc; [by apply history_linked| |apply Hview|apply Hview].
  by apply Ht.
Qed.

(** ** What is published is what is read *)

Lemma filters_bits f : from_bits (to_bits f) = f.
Proof. destruct f as [[] [] [] [] [] [] [] []]; vm_compute; done. Qed.

Lemma f32_bits_fields (s : bool) (e f : N) :
  e < 256 → f < 2 ^ 23 →
  let bits := (if s then 2 ^ 31 else 0) + e * 2 ^ 23 + f in
  N.testbit bits 31 = s ∧ N.land (N.shiftr bits 23) 0xff = e ∧ N.land bits 0x7fffff = f.
Proof.
  intros He Hf bits. change 0xff with (N.ones 8). change 0x7fffff with (N.ones 23).
  rewrite !N.land_ones, N.shiftr_div_pow2, N.testbit_odd, N.shiftr_div_pow2.
  change (2 ^ 8) with 256. change (2 ^ 23) with 8388608 in *. change (2 ^ 31) with 2147483648 in *.
  assert (bits = (if s then 1 else 0) * 2147483648 + (e * 8388608 + f)) as Hb by (unfold bits; destruct s; lia).
  split_and!.
  - assert (bits / 2147483648 = if s then 1 else 0) as ->; [|by destruct s].
    symmetry. apply (N.div_unique _ _ _ (e * 8388608 + f)); lia.
  - assert (bits / 8388608 = (if s then 256 else 0) + e) as ->.
    { symmetry. apply (N.div_unique _ _ _ f); [done|]. unfold bits. destruct s; lia. }
    destruct s; [|by rewrite N.mod_small by lia].
    replace (256 + e) with (e + 1 * 256) by lia. rewrite N.Div0.mod_add. by apply N.mod_small.
  - symmetry. apply (N.mod_unique _ _ ((if s then 256 else 0) + e)); [done|]. unfold bits. destruct s; lia.
Qed.

Lemma f32_bits_roundtrip x : f32_ok x = true → f32_from_bits (f32_to_bits x) = x.
Proof.
  destruct x as [s|s| |s m e]; [by destruct s|by destruct s|done|].
  intros (He & Hm & Hn)%f32_ok_finite. unfold f32_to_bits.
  change (N.shiftl 1 23) with 8388608. change (2 ^ 24)%Z with 16777216%Z in *. change (2 ^ 23)%Z with 8388608%Z in *.
  assert ((if s then N.shiftl 1 31 else 0) = (if s then 2 ^ 31 else 0)) as -> by (by destruct s).
  destruct (N.ltb_spec (N.pos m) 8388608) as [Hlt|Hge].
  - destruct (f32_bits_fields s 0 (N.pos m)) as (H1 & H2 & H3); [done|done|].
    rewrite N.mul_0_l, N.add_0_r in H1, H2, H3. unfold f32_from_bits. rewrite H1, H2, H3.
    change (0 =? 0xff) with false. change (0 =? 0) with true. cbv iota. f_equal. lia.
  - rewrite N.shiftl_mul_pow2.
    destruct (f32_bits_fields s (Z.to_N (e + 150)) (N.pos m - 8388608)) as (H1 & H2 & H3); [lia|cbn; lia|].
    unfold f32_from_bits. rewrite H1, H2, H3.
    destruct (N.eqb_spec (Z.to_N (e + 150)) 0xff); [lia|].
    destruct (N.eqb_spec (Z.to_N (e + 150)) 0); [lia|].
    change (2 ^ 23) with 8388608. replace (N.pos m - 8388608 + 8388608) with (N.pos m) by lia.
    f_equal. lia.
Qed.

Lemma clamp_opacity_ok x : f32_ok x = true → f32_ok (clamp_opacity x) = true.
Proof. intros Hx. unfold clamp_opacity, fclamp. by repeat step_if. Qed.

Lemma clamp_opacity_idem x : clamp_opacity (clamp_opacity x) = clamp_opacity x.
Proof.
  unfold clamp_opacity, fclamp at 2 3. destruct (flt x (f32_lit 2 10)) eqn:Hlo; [by vm_compute|].
  destruct (flt (f32_of_Z 1) x) eqn:Hhi; [by vm_compute|]. unfold fclamp. by rewrite Hlo, Hhi.
Qed.

(** Storing bytes one by one from an index on. *)
Lemma run_store_bytes m bs o :
  (o + length bs ≤ length (payload m))%nat →
  let m' := run m (imap (λ k v, store_byte (o + k) v) bs) in
  header m' = header m ∧ search m' = search m ∧ length (payload m') = length (payload m) ∧
  (∀ k, (k < length bs)%nat → payload m' !! (o + k)%nat = bs !! k) ∧
  (∀ k, (k < o)%nat → payload m' !! k = payload m !! k).
Proof.
  revert m o. induction bs as [|b bs IH]; intros m o Hl.
  { cbn. split_and!; try done. intros k Hk. lia. }
  cbn [imap run fold_left length] in *. fold (run (store_byte (o + 0) b m)).
  assert (imap ((λ k v, store_byte (o + k) v) ∘ S) bs = imap (λ k v, store_byte (S o + k) v) bs) as ->.
  { apply imap_ext. intros k v _. cbn. by rewrite Nat.add_succ_r. }
  rewrite Nat.add_0_r.
  destruct (IH (store_byte o b m) (S o)) as (H1 & H2 & H3 & H4 & H5).
  { cbn. rewrite length_insert. lia. }
  cbn [store_byte payload header search] in *. split_and!.
  - exact H1.
  - exact H2.
  - etransitivity; [exact H3|]. cbn. by rewrite length_insert.
  - intros [|k] Hk.
    + rewrite Nat.add_0_r. etransitivity; [apply H5; lia|]. cbn. rewrite list_lookup_insert_eq; [done|lia].
    + rewrite <- Nat.add_succ_comm. etransitivity; [apply H4; lia|done].
  - intros k Hk. etransitivity; [apply H5; lia|]. cbn. by rewrite list_lookup_insert_ne by lia.
Qed.

Lemma length_concat_imap {A B} (f : nat → A → list B) n l :
  (∀ i a, length (f i a) = n) → length (concat (imap f l)) = (n * length l)%nat.
Proof.
  intros Hf. revert f Hf. induction l as [|a l IH]; intros f Hf; cbn [imap concat length]; [lia|].
  rewrite length_app, Hf, IH by (intros; apply Hf). lia.
Qed.

Lemma length_rgba_bytes hypot w h mode px : length (rgba_bytes hypot w h mode px) = (4 * length px)%nat.
Proof. by apply length_concat_imap. Qed.

Lemma mapM_lookup {A} (l bs : list A) n :
  n = length bs → (∀ k, (k < length bs)%nat → l !! k = bs !! k) →
  mapM (λ k, l !! k) (seq 0 n) = Some bs.
Proof.
  intros -> H. apply mapM_Some. apply Forall2_same_length_lookup. rewrite length_seq. split; [done|].
  intros i k b Hk Hb. apply lookup_seq in Hk as [-> Hk]. by rewrite H.
Qed.

Lemma checked_pixel_count_ok w h n :
  checked_pixel_count w h = Ok n → n = w * h ∧ 1 ≤ n ≤ MAX_FRAME_PIXELS ∧ w ≠ 0 ∧ h ≠ 0.
Proof.
  unfold checked_pixel_count. intros H. step_if_in H; [done|]. step_if_in H; [done|]. injection H as <-.
  reflect_bool. split; [done|]. split; [nia|done].
Qed.

Lemma display_mode_roundtrip mode : display_mode_from_raw (display_mode_code mode) = Some mode.
Proof. by destruct mode. Qed.

Lemma input_mode_roundtrip mode : input_mode_from_raw (input_mode_code mode) = Some mode.
Proof. by destruct mode. Qed.

(** The mapping both sides have validated. *)
Record mapping_ok (m : Mapping) : Prop := {
  mo_compat : header_compatible (λ _, m) = true;
  mo_payload : MAX_PAYLOAD_BYTES ≤ len (payload m);
  mo_reserved : length (reserved (header m)) = RESERVED_CELLS;
}.

(** ** Properties *)

(** C4: no frame is ever torn. While the writer publishes frames and changes the
    visibility, store by store, a reader whose loads fall anywhere in between either gets
    nothing or exactly the frame that the mapping held after some whole number of the
    writer's operations; the sequence it reports is the one of that mapping. The writer must
    start with an even sequence, and the sequence must not wrap around. *)
Theorem read_atomic (hypot : f64 → f64 → f64) (m : Mapping) (ops : list frame_op) (view : nat → Mapping)
    (last : N) (f : FullscreenFrame) :
  N.odd (seq_of m) = false → seq_of m + 2 * len ops ≤ u64_max →
  observes (history hypot m ops) view → read_latest view last = Some f →
  ∃ k, (k ≤ length ops)%nat ∧ read_alone (performs hypot m (take k ops)) last = Some f ∧
    ff_sequence f = seq_of (performs hypot m (take k ops)).
Proof.
  intros He Hmax Hobs Hread. pose proof (read_latest_sequences view last f Hread) as (Hodd & Hf & Hafter).
  set (final := (14 + N.to_nat (payload_bytes (header (view 8%nat))))%nat) in *.
  assert (view 3%nat ∈ history hypot m ops) as Hin.
  { destruct Hobs as (t & _ & Hview). eapply list_elem_of_lookup_2, Hview. }
  destruct (proj2 (history_linked hypot m ops He Hmax) _ Hin Hodd) as (k & Hk & Hstate).
  exists k. split; [done|]. rewrite <- Hstate. split; [|done].
  assert (∀ i j, (i ≤ j)%nat → rtc lock_step (view i) (view j)) as Hr.
  { intros i j. by apply (observes_rtc hypot m ops). }
  eapply read_latest_ext; [exact Hread| |]; fold final.
  - intros i Hi. symmetry. apply (lock_steps _ _ (Hr i 3%nat ltac:(lia))).
  - intros i Hi. destruct (lock_steps _ _ (Hr 3%nat i ltac:(lia))) as (_ & H1 & H2).
    destruct (lock_steps _ _ (Hr i final ltac:(lia))) as (_ & H3 & _).
    assert (seq_of (view i) = seq_of (view 3%nat)) as Hs by lia. split; [by apply H2|done].
Qed.

(** C5: publishing and reading are inverse. When the writer accepts a frame, a reader that
    loads the mapping afterwards, and has not read that sequence yet, gets exactly that
    frame: its dimensions, a display size no smaller than the picture, its modes and filters,
    the clamped opacity, and the bytes of every pixel. *)
Theorem publish_then_read (hypot : f64 → f64 → f64) (m : Mapping) (now w h : N)
    (metadata : FrameMetadata) (pixels : list N) (s last : N) (ws : list write) :
  mapping_ok m → N.odd (seq_of m) = false → seq_of m + 2 ≤ u64_max → f32_ok (fm_opacity metadata) = true →
  publish_rgb_u32_with_controls hypot m now w h metadata pixels = Ok (s, ws) → s ≠ last →
  read_alone (run m ws) last =
    Some (mkFrame (seq_of m + 2) w h (N.max (fm_display_width metadata) w) (N.max (fm_display_height metadata) h)
            (fm_display_mode metadata) (fc_input_mode (fm_controls metadata))
            (fc_poi_filters (fm_controls metadata)) (clamp_opacity (fm_opacity metadata))
            (fm_logical_visible metadata) (rgba_bytes hypot w h (fm_display_mode metadata) pixels)).
Proof.
  intros [Hc Hp Hr] He Hmax Hop Hpub Hlast. unfold publish_rgb_u32_with_controls in Hpub.
  apply and_then_ok in Hpub as (n & Hn & Hpub). step_if_in Hpub; [done|]. step_if_in Hpub; [done|].
  injection Hpub as <- <-. pose proof Hn as Hcount. apply checked_pixel_count_ok in Hn as (Hnwh & Hn & _ & _).
  reflect_bool. fold (seq_of m) in *. rewrite (published_even (seq_of m)) in * by done.
  set (bytes := rgba_bytes hypot w h (fm_display_mode metadata) pixels).
  assert (length bytes = (4 * length pixels)%nat) as Hlen by apply length_rgba_bytes.
  assert (len pixels = n) as Hpx by done. unfold len in Hpx, Hp.
  unfold publish_writes. fold bytes. rewrite published_even by done. rewrite !writes_app.
  set (m1 := run m [_; _; _; _; _; _; _; _; _; _; _; _]).
  assert (payload m1 = payload m) as Hp1 by done.
  destruct (run_store_bytes m1 bytes 0) as (H1 & _ & _ & H4 & _).
  { rewrite Hp1, Hlen. unfold MAX_PAYLOAD_BYTES, BYTES_PER_PIXEL in Hp. lia. }
  cbn [Nat.add] in H1, H4. change (imap (λ k v, store_byte k v) bytes) with (imap store_byte bytes) in H1, H4.
  set (m2 := run m1 (imap store_byte bytes)) in *. clearbody m2.
  destruct (reserved (header m)) as [|r0 [|r1 rest]] eqn:Hres; [done|done|].
  unfold read_alone, read_latest. set (m3 := run m2 _).
  assert (payload m3 = payload m2) as Hp3 by done.
  assert (header m3 = (header m1) <| sequence := seq_of m + 2 |>) as Hh
    by (rewrite <- H1; reflexivity).
  clearbody m3. unfold header_compatible in *. rewrite Hh, Hp3. clear Hh Hp3 H1.
  assert (reserved (header m1) = fm_display_width metadata :: fm_display_height metadata :: rest) as Hr1
    by (unfold m1; cbn; by rewrite Hres).
  unfold m1 in *. cbn in Hc, Hr1 |- *. rewrite Hc, Hr1. cbn [negb lookup list_lookup].
  fold (seq_of m).
  assert (N.odd (seq_of m + 2) = false) as He2 by (by rewrite N.odd_add, He).
  rewrite land_one_even, He2, N.eqb_refl.
  destruct (N.eqb_spec (seq_of m + 2) 0); [lia|]. destruct (N.eqb_spec (seq_of m + 2) last); [done|].
  change ((fm_display_width metadata :: fm_display_height metadata :: rest) !! DISPLAY_WIDTH_RESERVED_INDEX)
    with (Some (fm_display_width metadata)).
  change ((fm_display_width metadata :: fm_display_height metadata :: rest) !! DISPLAY_HEIGHT_RESERVED_INDEX)
    with (Some (fm_display_height metadata)).
  rewrite display_mode_roundtrip, input_mode_roundtrip, filters_bits, f32_bits_roundtrip, clamp_opacity_idem, Hcount
    by (by apply clamp_opacity_ok).
  cbn [orb negb mbind option_bind].
  rewrite Hpx, N.eqb_refl. destruct (N.ltb_spec MAX_PAYLOAD_BYTES (n * BYTES_PER_PIXEL)) as [Hbig|_].
  { unfold MAX_PAYLOAD_BYTES, BYTES_PER_PIXEL in Hbig. lia. }
  cbn [orb negb]. rewrite (mapM_lookup (payload m2) bytes); [|unfold BYTES_PER_PIXEL; lia|exact H4].
  cbn [mbind option_bind]. by destruct (fm_logical_visible metadata).
Qed.

(** ** Examples *)

Definition sample_header : SharedHeader :=
  mkHeader MAGIC SCHEMA_VERSION MAX_PAYLOAD_BYTES 2 0 0 0 0 0 0 0 0 0 0 0 0 0 0 0 0 0 (replicate RESERVED_CELLS 0).
Definition sample_metadata : FrameMetadata :=
  mkMetadata FrExpandedMap FrameControls_default (f32_of_Z 1) true 4 2.
Definition sample_pixels : list N := [0x112233; 0x445566].

(** The reader starts while the first frame is written, waits, and reads the second one. *)
Lemma read_atomic_witness :
  let hypot : f64 → f64 → f64 := λ _ _, S754_zero false in
  let m := mkMapping sample_header [] (replicate 8 0) in
  let ops := [OpPublish 5 2 1 sample_metadata [1; 2]; OpVisible 6 false;
              OpPublish 7 2 1 sample_metadata sample_pixels] in
  let view := λ i, if (i <? 3)%nat then run m (take 4 (writes_of hypot m (OpPublish 5 2 1 sample_metadata [1; 2])))
                   else performs hypot m ops in
  match read_latest view 2 with
  | Some f => ff_sequence f = 8 ∧ ∃ k, (k ≤ length ops)%nat ∧
      read_alone (performs hypot m (take k ops)) 2 = Some f ∧
      ff_sequence f = seq_of (performs hypot m (take k ops))
  | None => False
  end.
Proof.
  intros hypot m ops view. destruct (read_latest view 2) as [f|] eqn:Hf; [|vm_compute in Hf; discriminate Hf].
  split; [vm_compute in Hf; injection Hf as <-; reflexivity|].
  apply (read_atomic hypot m ops view 2 f); [reflexivity|vm_compute; discriminate| |exact Hf].
  exists (λ i, if (i <? 3)%nat then 4%nat else (length (history hypot m ops) - 1)%nat). split.
  - intros i j Hij. destruct (Nat.ltb_spec i 3), (Nat.ltb_spec j 3); vm_compute; lia.
  - intros i. unfold view. destruct (i <? 3)%nat; vm_compute; reflexivity.
Defined.

Lemma publish_then_read_witness :
  let hypot : f64 → f64 → f64 := λ _ _, S754_zero false in
  let m := mkMapping sample_header [] (replicate (N.to_nat MAX_PAYLOAD_BYTES) 0) in
  match publish_rgb_u32_with_controls hypot m 5 2 1 sample_metadata sample_pixels with
  | Ok (s, ws) =>
      s = 4 ∧
      read_alone (run m ws) 2 =
        Some (mkFrame (seq_of m + 2) 2 1 (N.max 4 2) (N.max 2 1) FrExpandedMap FrLocked FramePoiFilters_default
                (clamp_opacity (f32_of_Z 1)) true (rgba_bytes hypot 2 1 FrExpandedMap sample_pixels))
  | Err _ => False
  end.
Proof.
  intros hypot m.
  destruct (publish_rgb_u32_with_controls hypot m 5 2 1 sample_metadata sample_pixels) as [[s ws]|] eqn:Hp;
    [|discriminate Hp].
  assert (s = 4) as Hs by (cbn in Hp; injection Hp as <- _; reflexivity). split; [exact Hs|].
  refine (publish_then_read hypot m 5 2 1 sample_metadata sample_pixels s 2 ws _ _ _ _ Hp _).
  - split; [reflexivity| |apply length_replicate].
    cbn [payload m]. unfold len. rewrite length_replicate, N2Nat.id. reflexivity.
  - reflexivity.
  - vm_compute. discriminate.
  - vm_compute. reflexivity.
  - rewrite Hs. discriminate.
Defined.
