(* ===== verification/SubPixel.v ===== *)
(** * Drags in sixteenths of a pixel

    The numbers of [encode_pan_delta] and [decode_pan_delta] of
    [crates/pal-fullscreen-bridge/src/lib.rs]: a coordinate is scaled by sixteen, rounded,
    clamped and cast. What comes out is the integer nearest to sixteen times its exact value
    ([quantize_exact]), and a number of sixteen bits is given back as exactly its sixteenth
    ([sixteenth_back]). *)

From S2P Require Import Prelude Floats FloatInt FloatRound.

(** ** The code *)

Definition i16_min : Z := (-32768)%Z.
Definition i16_max : Z := 32767%Z.
Definition is_i16 (z : Z) : Prop := (i16_min ≤ z ≤ i16_max)%Z.
Definition saturating_i16 (z : Z) : Z := Z.max i16_min (Z.min z i16_max).

(** [f32::round]. *)
Definition fround32 (x : f32) : f32 :=
  match x with
  | S754_finite s m e =>
      if (0 <=? e)%Z then x
      else
        let q := ((2 * Zpos m + 2 ^ (- e)) / 2 ^ (1 - e))%Z in
        if (q =? 0)%Z then S754_zero s else binary_normalize prec32 emax32 (cond_Zopp s q) 0 s
  | _ => x
  end.

(** [x as i16]: truncation that saturates; NaN becomes zero. *)
Definition as_i16 (x : f32) : Z :=
  match x with
  | S754_finite s m e =>
      saturating_i16 (cond_Zopp s (if (0 <=? e)%Z then Zpos m * 2 ^ e else Zpos m / 2 ^ (- e)))
  | S754_infinity s => if s then i16_min else i16_max
  | _ => 0%Z
  end.

Definition PAN_SUBPIXEL_UNITS : f32 := f32_of_Z 16.

Definition quantize (value : f32) : Z :=
  as_i16 (fclamp (fround32 (fmul prec32 emax32 value PAN_SUBPIXEL_UNITS)) (f32_of_Z i16_min) (f32_of_Z i16_max)).

(** ** The specification *)

(** The integer nearest to sixteen times the exact value, ties away from zero, held within
    sixteen bits. Values are integers scaled by [unit_val]. *)
Definition sixteenths (v : f32) : Z :=
  let a := ((32 * Z.abs (val v) + unit_val) / (2 * unit_val))%Z in
  Z.max (-32768) (Z.min (Z.sgn (val v) * a) 32767).

Local Open Scope Z_scope.

(** ** Exact rounding of [f32] *)

Lemma iter_shr_multiple p m :
  SpecFloat.iter_pos shr_1 p (Build_shr_record (Zpos m * 2 ^ Zpos p) false false) =
  Build_shr_record (Zpos m) false false.
Proof.
  assert (∀ z, 0 < z → shr_1 (Build_shr_record (z * 2) false false) = Build_shr_record z false false) as H1.
  { intros [|z|z] Hz; [lia| |lia]. rewrite Z.mul_comm. done. }
  enough (∀ z, 0 < z → SpecFloat.iter_pos shr_1 p (Build_shr_record (z * 2 ^ Zpos p) false false) =
    Build_shr_record z false false) as H by (apply H; lia).
  induction p as [p IH|p IH|]; intros z Hz; cbn [SpecFloat.iter_pos]; [| |by apply H1].
  - pose proof (Z.pow_pos_nonneg 2 (Zpos p)).
    replace (z * 2 ^ Zpos p~1) with (z * 2 ^ Zpos p * 2 ^ Zpos p * 2).
    + rewrite H1 by nia. rewrite IH by nia. by rewrite IH.
    + replace (Zpos p~1) with (Zpos p + Zpos p + 1) by lia. rewrite !Z.pow_add_r by lia. lia.
  - pose proof (Z.pow_pos_nonneg 2 (Zpos p)).
    replace (z * 2 ^ Zpos p~0) with (z * 2 ^ Zpos p * 2 ^ Zpos p).
    + rewrite IH by nia. by rewrite IH.
    + replace (Zpos p~0) with (Zpos p + Zpos p) by lia. rewrite !Z.pow_add_r by lia. lia.
Qed.

Lemma digits2_multiple m n :
  0 ≤ n → Zdigits2 (Zpos m * 2 ^ n) = Zpos (digits2_pos m) + n.
Proof.
  intros Hn. pose proof (Z.pow_pos_nonneg 2 n ltac:(lia) Hn).
  pose proof (digits2_pos_bounds m) as [Hlo Hhi].
  destruct (Zpos m * 2 ^ n) as [|M|M] eqn:E; [nia| |nia]. cbn [Zdigits2].
  apply digits2_pos_unique; [lia|]. rewrite <- E.
  replace (Zpos (digits2_pos m) + n - 1) with (Zpos (digits2_pos m) - 1 + n) by lia.
  rewrite !Z.pow_add_r by lia. split; [apply Z.mul_le_mono_nonneg_r|apply Z.mul_lt_mono_pos_r]; lia.
Qed.

(** A significand that ends in as many zeros as it must lose is not rounded. *)
Lemma round_aux_exact s m n e :
  0 ≤ n → Z.max (Zpos (digits2_pos m) + n + e - 24) (-149) = e + n →
  binary_round_aux prec32 emax32 s (Zpos m * 2 ^ n) e loc_Exact =
  if e + n <=? 104 then S754_finite s m (e + n) else S754_infinity s.
Proof.
  intros Hn He. unfold binary_round_aux.
  assert (shr_fexp prec32 emax32 (Zpos m * 2 ^ n) e loc_Exact =
    (Build_shr_record (Zpos m) false false, e + n)) as ->.
  { unfold shr_fexp. rewrite digits2_multiple by done. unfold fexp, emin, prec32, emax32.
    change (3 - 128 - 24) with (-149). rewrite He. replace (e + n - e) with n by lia.
    destruct n as [|p|p]; [|cbn [shr shr_record_of_loc]; by rewrite iter_shr_multiple|lia].
    cbn [shr shr_record_of_loc]. rewrite Z.mul_1_r. f_equal. lia. }
  cbn [loc_of_shr_record shr_m round_nearest_even].
  assert (shr_fexp prec32 emax32 (Zpos m) (e + n) loc_Exact =
    (Build_shr_record (Zpos m) false false, e + n)) as ->.
  { unfold shr_fexp. cbn [Zdigits2]. unfold fexp, emin, prec32, emax32.
    replace (Z.max _ _ - (e + n)) with 0 by lia. done. }
  done.
Qed.

(** The integers of 24 bits are data. *)
Lemma round_small s z :
  Zpos z < 2 ^ 24 →
  ∃ m k, binary_round prec32 emax32 s z 0 = S754_finite s m (- k) ∧ 0 ≤ k ≤ 23 ∧
    Zpos m = Zpos z * 2 ^ k ∧ Zpos (digits2_pos m) = 24.
Proof.
  intros Hz. pose proof (digits2_pos_bounds z) as [Hlo Hhi].
  pose proof (digits2_le z 24 ltac:(lia) Hz) as Hd. set (d := Zpos (digits2_pos z)) in *.
  assert (1 ≤ d) by lia. unfold binary_round. fold d.
  assert (fexp prec32 emax32 (d + 0) = - (24 - d)) as -> by (unfold fexp, emin, prec32, emax32; lia).
  pose proof (shl_align_value z 0 (- (24 - d)) ltac:(lia)) as Hv.
  pose proof (snd_shl_align z 0 (- (24 - d)) ltac:(lia)) as He.
  destruct (shl_align z 0 (- (24 - d))) as [m e]. simpl in Hv, He. subst e.
  replace (0 - - (24 - d)) with (24 - d) in Hv by lia.
  assert (Zpos (digits2_pos m) = 24) as Hm.
  { pose proof (digits2_multiple z (24 - d) ltac:(lia)) as Hz'. rewrite <- Hv in Hz'.
    cbn [Zdigits2] in Hz'. lia. }
  exists m, (24 - d). split_and!; try done; [|lia..].
  pose proof (round_aux_exact s m 0 (- (24 - d)) ltac:(lia) ltac:(lia)) as Hr.
  rewrite Z.mul_1_r, Z.add_0_r in Hr. rewrite Hr. by destruct (Z.leb_spec (- (24 - d)) 104); [|lia].
Qed.

(** ** The factor *)

Lemma units_16 : PAN_SUBPIXEL_UNITS = S754_finite false 8388608 (-19).
Proof. reflexivity. Qed.

(** A product by sixteen loses nothing, if it does not overflow. *)
Lemma scaled_16 s m e :
  f32_ok (S754_finite s m e) = true →
  ∃ m' e', Zpos m' < 2 ^ 24 ∧ e ≤ e' ∧ Zpos m' * weight e' = 16 * (Zpos m * weight e) ∧
    (-149 < e' → 2 ^ 23 ≤ Zpos m') ∧ e' ≤ 108 ∧
    fmul prec32 emax32 (S754_finite s m e) PAN_SUBPIXEL_UNITS =
    if e' <=? 104 then S754_finite s m' e' else S754_infinity s.
Proof.
  intros (He & Hm & Hn)%f32_ok_finite. pose proof (digits2_pos_bounds m) as [Hlo Hhi].
  pose proof (digits2_le m 24 ltac:(lia) Hm) as Hd.
  assert (-149 < e → Zpos (digits2_pos m) = 24) as Hfull.
  { intros Hlt. apply digits2_pos_unique; [lia|]. change (24 - 1) with 23. specialize (Hn Hlt). lia. }
  set (d := Zpos (digits2_pos m)) in *. set (n := Z.max (d - 1) (-130 - e)).
  assert (0 ≤ n ≤ 23) as Hn23 by lia.
  pose proof (Z.pow_pos_nonneg 2 (23 - n) ltac:(lia) ltac:(lia)) as Hpos.
  destruct (Zpos m * 2 ^ (23 - n)) as [|m'|m'] eqn:Hm'; [nia| |nia].
  assert (Zpos (digits2_pos m') = d + (23 - n)) as Hd'.
  { pose proof (digits2_multiple m (23 - n) ltac:(lia)) as H. rewrite Hm' in H. exact H. }
  assert (Zpos m * Zpos 8388608 = Zpos m' * 2 ^ n) as Hprod.
  { rewrite <- Hm', <- Z.mul_assoc, <- Z.pow_add_r by lia. by replace (23 - n + n) with 23 by lia. }
  pose proof (digits2_pos_bounds m') as [Hlo' Hhi'].
  exists m', (e - 19 + n). split_and!.
  - eapply Z.lt_le_trans; [exact Hhi'|]. apply Z.pow_le_mono_r; lia.
  - lia.
  - rewrite <- Hm'. change 16 with (2 ^ 4). rewrite (Z.mul_comm (2 ^ 4)), <- !Z.mul_assoc. f_equal.
    unfold weight. rewrite <- !Z.pow_add_r by lia. f_equal. lia.
  - intros Hlt. eapply Z.le_trans; [|exact Hlo']. apply Z.pow_le_mono_r; lia.
  - lia.
  - rewrite units_16. unfold fmul, SFmul. rewrite xorb_false_r.
    change (Zpos (m * 8388608)) with (Zpos m * Zpos 8388608). rewrite Hprod.
    replace (e + -19) with (e - 19) by lia. by apply round_aux_exact; lia.
Qed.

(** ** Rounding and casting *)

(** A significand that is full wherever it can be. *)
Definition full (m : positive) (e : Z) : Prop := Zpos m < 2 ^ 24 ∧ (-149 < e → 2 ^ 23 ≤ Zpos m).

(** The integer a datum is cut to, before it saturates. *)
Definition magnitude (m : positive) (e : Z) : Z :=
  if 0 <=? e then Zpos m * 2 ^ e else Zpos m / 2 ^ (- e).

Lemma magnitude_large m e k :
  2 ^ 23 ≤ Zpos m → 0 ≤ k → - k ≤ e → Zpos m / 2 ^ k ≤ magnitude m e.
Proof.
  intros Hm Hk He. unfold magnitude. pose proof (Z.pow_pos_nonneg 2 k ltac:(lia) Hk).
  destruct (Z.leb_spec 0 e).
  - pose proof (Z.pow_pos_nonneg 2 e ltac:(lia) ltac:(lia)).
    transitivity (Zpos m); [apply Z.div_le_upper_bound; [done|]; nia|]. clear -H0. nia.
  - apply Z.div_le_compat_l; [lia|]. split; [apply Z.pow_pos_nonneg; lia|].
    apply Z.pow_le_mono_r; lia.
Qed.

(** The bounds of the clamp are those the cast saturates at. *)
Lemma clamp_cast x :
  match x with S754_finite _ m e => full m e | _ => True end →
  as_i16 (fclamp x (f32_of_Z i16_min) (f32_of_Z i16_max)) = as_i16 x.
Proof.
  change (f32_of_Z i16_min) with (S754_finite true 8388608 (-8)).
  change (f32_of_Z i16_max) with (S754_finite false 16776704 (-9)).
  destruct x as [[]|[]| |s m e]; [done..|]. intros [Hm Hfull]. unfold fclamp.
  rewrite !flt_not_fle by done. destruct s.
  - destruct (fle (S754_finite true 8388608 (-8)) (S754_finite true m e)) eqn:Hlo; cbn [negb]; [done|].
    apply not_true_iff_false in Hlo. rewrite fle_finite in Hlo.
    assert (2 ^ 23 ≤ Zpos m) as Hm23 by (apply Hfull; lia).
    pose proof (magnitude_large m e 8 Hm23 ltac:(lia) ltac:(lia)) as Hl.
    assert (32768 ≤ Zpos m / 2 ^ 8) by (apply Z.div_le_lower_bound; lia).
    change (as_i16 (S754_finite true 8388608 (-8))) with (-32768).
    unfold as_i16. fold (magnitude m e). cbn [cond_Zopp].
    unfold saturating_i16, i16_min, i16_max. lia.
  - change (negb (fle (S754_finite true 8388608 (-8)) (S754_finite false m e))) with false. cbv iota.
    destruct (fle (S754_finite false m e) (S754_finite false 16776704 (-9))) eqn:Hhi; cbn [negb]; [done|].
    apply not_true_iff_false in Hhi. rewrite fle_finite in Hhi.
    assert (2 ^ 23 ≤ Zpos m) as Hm23 by (apply Hfull; lia).
    assert (32767 ≤ magnitude m e) as Hl.
    { destruct (decide (e = -9)) as [->|Hne].
      - unfold magnitude. cbn [Z.leb Z.compare]. apply Z.div_le_lower_bound; lia.
      - pose proof (magnitude_large m e 8 Hm23 ltac:(lia) ltac:(lia)) as Hl.
        assert (32767 ≤ Zpos m / 2 ^ 8) by (apply Z.div_le_lower_bound; lia). lia. }
    change (as_i16 (S754_finite false 16776704 (-9))) with 32767.
    unfold as_i16. fold (magnitude m e). cbn [cond_Zopp].
    unfold saturating_i16, i16_min, i16_max. lia.
Qed.

Lemma digits_24_full m e : Zpos (digits2_pos m) = 24 → full m e.
Proof.
  intros Hd. pose proof (digits2_pos_bounds m) as Hb. rewrite Hd in Hb. split; [lia|].
  change 23 with (24 - 1). lia.
Qed.

(** The nearest integer, ties away from zero. *)
Definition nearest (m : positive) (e : Z) : Z :=
  if 0 <=? e then Zpos m * 2 ^ e else (2 * Zpos m + 2 ^ (- e)) / 2 ^ (1 - e).

Lemma nearest_small m e : Zpos m < 2 ^ 24 → e < 0 → 0 ≤ nearest m e < 2 ^ 24.
Proof.
  intros Hm He. unfold nearest. destruct (Z.leb_spec 0 e); [lia|].
  replace (1 - e) with (1 + - e) by lia. rewrite Z.pow_add_r by lia.
  assert (2 ^ 1 ≤ 2 ^ (- e)) by (apply Z.pow_le_mono_r; lia). change (2 ^ 1) with 2 in *.
  split; [apply Z.div_pos; lia|]. apply Z.div_lt_upper_bound; nia.
Qed.

Lemma round_cast s m e :
  full m e →
  let y := fround32 (S754_finite s m e) in
  match y with S754_finite _ m e => full m e | _ => True end ∧
  as_i16 y = saturating_i16 (cond_Zopp s (nearest m e)).
Proof.
  intros Hf. cbn [fround32]. unfold nearest. destruct (Z.leb_spec 0 e) as [He|He].
  { split; [done|]. unfold as_i16. by destruct (Z.leb_spec 0 e); [|lia]. }
  pose proof (nearest_small m e (proj1 Hf) He) as Hq. unfold nearest in Hq.
  destruct (Z.leb_spec 0 e) as [|_]; [lia|]. set (q := (2 * Zpos m + 2 ^ (- e)) / 2 ^ (1 - e)) in *.
  clearbody q. destruct q as [|q|q]; [by destruct s| |lia]. cbn [Z.eqb].
  destruct (round_small s q ltac:(lia)) as (m' & k & Hr & Hk & Hm' & Hd).
  assert (binary_normalize prec32 emax32 (cond_Zopp s (Zpos q)) 0 s = S754_finite s m' (- k)) as ->
    by (destruct s; exact Hr).
  split; [by apply digits_24_full|]. unfold as_i16. do 2 f_equal.
  pose proof (Z.pow_pos_nonneg 2 k ltac:(lia) ltac:(lia)).
  destruct (Z.leb_spec 0 (- k)).
  - assert (k = 0) as -> by lia. rewrite Hm'. change (- 0) with 0. lia.
  - rewrite Z.opp_involutive, Hm'. by rewrite Z.div_mul by lia.
Qed.

(** ** The main theorems *)

Lemma nearest_val m e :
  -149 ≤ e → (2 * (Zpos m * weight e) + unit_val) / (2 * unit_val) = nearest m e.
Proof.
  intros He. unfold nearest. pose proof unit_val_pos. pose proof (weight_pos e ltac:(lia)) as Hw.
  destruct (Z.leb_spec 0 e) as [Hp|Hn].
  - assert (weight e = 2 ^ e * unit_val) as -> by (unfold weight, unit_val; rewrite <- Z.pow_add_r by lia; f_equal; lia).
    symmetry. apply Z.div_unique_pos with unit_val; [lia|]. ring.
  - assert (unit_val = 2 ^ (- e) * weight e) as ->
      by (unfold weight, unit_val; rewrite <- Z.pow_add_r by lia; f_equal; lia).
    replace (1 - e) with (1 + - e) by lia. rewrite Z.pow_add_r by lia. change (2 ^ 1) with 2.
    rewrite <- (Z.div_mul_cancel_r (2 * Zpos m + 2 ^ (- e)) (2 * 2 ^ (- e)) (weight e)).
    + f_equal; ring.
    + pose proof (Z.pow_pos_nonneg 2 (- e)). lia.
    + lia.
Qed.

(** The code computes the integer nearest to sixteen times a coordinate. *)
Lemma quantize_exact v : f32_ok v = true → is_finite v = true → quantize v = sixteenths v.
Proof.
  destruct v as [s| | |s m e]; [intros _ _; by destruct s|done..|]. intros Hv _.
  destruct (scaled_16 s m e Hv) as (m' & e' & Hm' & Hee & Hw & Hfull & Hmax & Hmul).
  apply f32_ok_finite in Hv as (He & _ & _). unfold quantize, sixteenths. rewrite Hmul.
  assert ((32 * Z.abs (val (S754_finite s m e)) + unit_val) / (2 * unit_val) = nearest m' e') as ->.
  { rewrite <- nearest_val, Hw by lia. f_equal. pose proof (weight_pos e ltac:(lia)).
    cbn [val]. destruct s; cbn [cond_Zopp]; nia. }
  assert (Z.sgn (val (S754_finite s m e)) * nearest m' e' = cond_Zopp s (nearest m' e')) as ->.
  { pose proof (weight_pos e ltac:(lia)). cbn [val]. destruct s; cbn [cond_Zopp];
      [rewrite Z.sgn_neg by nia|rewrite Z.sgn_pos by nia]; lia. }
  change (Z.max (-32768) (Z.min (cond_Zopp s (nearest m' e')) 32767))
    with (saturating_i16 (cond_Zopp s (nearest m' e'))).
  destruct (Z.leb_spec e' 104) as [Hfin|Hinf].
  - destruct (round_cast s m' e' (conj Hm' Hfull)) as [Hok <-]. by apply clamp_cast.
  - rewrite clamp_cast by done. cbn [fround32 as_i16]. specialize (Hfull ltac:(lia)).
    assert (2 ^ 23 ≤ nearest m' e') as Hbig.
    { unfold nearest. destruct (Z.leb_spec 0 e'); [|lia].
      pose proof (Z.pow_pos_nonneg 2 e' ltac:(lia) ltac:(lia)). nia. }
    unfold saturating_i16, i16_min, i16_max. destruct s; cbn [cond_Zopp]; lia.
Qed.

Lemma sixteenths_range v : is_i16 (sixteenths v).
Proof. unfold is_i16, i16_min, i16_max, sixteenths. lia. Qed.

(** Within the lane, the error is at most half a sixteenth. *)
Lemma sixteenths_near v :
  16 * Z.abs (val v) ≤ 32767 * unit_val →
  2 * Z.abs (sixteenths v * unit_val - 16 * val v) ≤ unit_val.
Proof.
  intros Hv. unfold sixteenths. pose proof unit_val_pos as Hu. generalize dependent unit_val.
  intros U Hv HU. set (a := (32 * Z.abs (val v) + U) / (2 * U)).
  pose proof (Z.mul_div_le (32 * Z.abs (val v) + U) (2 * U) ltac:(lia)) as Hlo.
  pose proof (Z.mul_succ_div_gt (32 * Z.abs (val v) + U) (2 * U) ltac:(lia)) as Hhi.
  fold a in Hlo, Hhi. clearbody a.
  assert (0 ≤ a ≤ 32767) by nia.
  destruct (Z.sgn_spec (val v)) as [[Hs ->]|[[Hs ->]|[Hs ->]]]; rewrite Z.max_r, Z.min_l by lia; nia.
Qed.

(** ** The way back *)

Lemma of_i16 x :
  is_i16 x → x ≠ 0 →
  ∃ m k, f32_of_Z x = S754_finite (x <? 0) m (- k) ∧ 0 ≤ k ≤ 23 ∧ Zpos m = Z.abs x * 2 ^ k ∧
    Zpos (digits2_pos m) = 24.
Proof.
  unfold is_i16, i16_min, i16_max. intros Hx Hne.
  destruct x as [|x|x]; [done| |]; unfold f32_of_Z, of_Z; cbn [binary_normalize Z.abs Z.ltb Z.compare];
    apply round_small; lia.
Qed.

(** A lane divided by sixteen is exactly its sixteenth. *)
Lemma sixteenth_back x :
  is_i16 x →
  let d := fdiv prec32 emax32 (f32_of_Z x) PAN_SUBPIXEL_UNITS in
  is_finite d = true ∧ 16 * val d = x * unit_val.
Proof.
  intros Hx d. destruct (decide (x = 0)) as [->|Hne]; [done|].
  destruct (of_i16 x Hx Hne) as (m & k & Hf & Hk & Hm & Hd). subst d. rewrite Hf, units_16.
  unfold fdiv, SFdiv, SFdiv_core_binary. rewrite xorb_false_r.
  change (Zdigits2 (Zpos 8388608)) with 24. cbn [Zdigits2]. rewrite Hd.
  assert (Z.min (fexp prec32 emax32 (24 + - k - (24 + -19))) (- k - -19) = - k - 5) as ->
    by (unfold fexp, emin, prec32, emax32; lia).
  replace (- k - -19 - (- k - 5)) with 24 by lia. cbv iota.
  rewrite Z.shiftl_mul_pow2 by lia.
  assert (Z.div_eucl (Zpos m * 2 ^ 24) (Zpos 8388608) = (Zpos m * 2 ^ 1, 0)) as ->.
  { assert (∀ a b, Z.div_eucl a b = (a / b, a mod b)) as ->
      by (intros a b; unfold Z.div, Z.modulo; by destruct (Z.div_eucl a b)).
    replace (Zpos m * 2 ^ 24) with (Zpos m * 2 ^ 1 * 8388608) by lia.
    by rewrite Z.mod_mul, Z.div_mul by lia. }
  change (new_location 8388608 0) with loc_Exact.
  rewrite round_aux_exact by lia. destruct (Z.leb_spec (- k - 5 + 1) 104); [|lia].
  split; [done|]. cbn [val]. rewrite Hm.
  assert (unit_val = 16 * 2 ^ k * weight (- k - 5 + 1)) as ->.
  { change 16 with (2 ^ 4). unfold weight, unit_val. rewrite <- !Z.pow_add_r by lia. f_equal. lia. }
  destruct (Z.ltb_spec x 0); cbn [cond_Zopp]; [rewrite Z.abs_neq by lia|rewrite Z.abs_eq by lia]; ring.
Qed.
