(* ===== verification/FrameChannels.v ===== *)
(** * The side channels of the frame bridge

    Models the rest of [crates/pal-fullscreen-bridge/src/lib.rs]: the start of a writer, the
    search catalog with its own sequence lock, and what the consumer hands back: actions,
    drags, recentring, search selections and its heartbeat. *)

From S2P Require Import Prelude Floats FloatInt FloatRound Settings Position OverlayVisual Placement FrameBridge SubPixel.

(** ** Starting a writer *)

Definition fetch_add_u32 (n : N) : N := (n + 1) mod (u32_max + 1).

(** [(sequence + 1) & !1]. *)
Definition rounded_up (sequence : N) : N := N.ldiff (wrapping_add sequence 1) 1.

Definition initialize_header (m : Mapping) : list write :=
  let sequence_ := wrapping_add (sequence (header m)) 1 in
  [begin_frame;
   store (λ h, h <| magic := MAGIC |>);
   store (λ h, h <| schema_version := SCHEMA_VERSION |>);
   store (λ h, h <| capacity_bytes := MAX_PAYLOAD_BYTES |>);
   store (λ h, h <| width := 0 |>);
   store (λ h, h <| height := 0 |>);
   store (λ h, h <| payload_bytes := 0 |>);
   store (λ h, h <| poi_filter_bits := to_bits FramePoiFilters_default |>);
   store (λ h, h <| input_mode := input_mode_code FrLocked |>);
   store (λ h, h <| consumer_action := 0 |>);
   store (λ h, h <| consumer_action_sequence := 0 |>);
   store (λ h, h <| search_sequence := 0 |>);
   store (λ h, h <| search_count := 0 |>);
   store (λ h, h <| consumer_search_selection := u32_max |>);
   store (λ h, h <| consumer_search_sequence := 0 |>)]
  ++ ((λ index, store_reserved index 0) <$> seq 0 RESERVED_CELLS)
  ++ [store (λ h, h <| logical_visible := 0 |>);
      store (λ h, h <| writer_heartbeat_ms := 0 |>);
      store (λ h, h <| consumer_heartbeat_ms := 0 |>);
      store (λ h, h <| consumer_backend := backend_code BackendUnknown |>);
      store (λ h, h <| sequence := rounded_up sequence_ |>)].

(** ** The search catalog *)

(** [char::is_char_boundary] of a byte inside a text: not a continuation byte. *)
Definition is_continuation (b : Byte.byte) : bool :=
  let n := Byte.to_N b in (0x80 <=? n) && (n <? 0xc0).

Definition is_char_boundary (bs : list Byte.byte) (index : nat) : bool :=
  match bs !! index with
  | Some b => (index =? 0)%nat || negb (is_continuation b)
  | None => (index =? length bs)%nat
  end.

(** [str::from_utf8]: the well-formed sequences of Unicode. *)
Definition in_bytes (lo hi : N) (b : Byte.byte) : bool := (lo <=? Byte.to_N b) && (Byte.to_N b <=? hi).

Fixpoint valid_utf8 (bs : bytes) : bool :=
  match bs with
  | [] => true
  | b0 :: r0 =>
      if in_bytes 0 0x7f b0 then valid_utf8 r0
      else
        match r0 with
        | [] => false
        | b1 :: r1 =>
            if in_bytes 0xc2 0xdf b0 then is_continuation b1 && valid_utf8 r1
            else
              match r1 with
              | [] => false
              | b2 :: r2 =>
                  if (in_bytes 0xe0 0xe0 b0 && in_bytes 0xa0 0xbf b1)
                     || (in_bytes 0xe1 0xec b0 && is_continuation b1)
                     || (in_bytes 0xed 0xed b0 && in_bytes 0x80 0x9f b1)
                     || (in_bytes 0xee 0xef b0 && is_continuation b1)
                  then is_continuation b2 && valid_utf8 r2
                  else
                    match r2 with
                    | [] => false
                    | b3 :: r3 =>
                        ((in_bytes 0xf0 0xf0 b0 && in_bytes 0x90 0xbf b1)
                         || (in_bytes 0xf1 0xf3 b0 && is_continuation b1)
                         || (in_bytes 0xf4 0xf4 b0 && in_bytes 0x80 0x8f b1))
                        && is_continuation b2 && is_continuation b3 && valid_utf8 r3
                    end
              end
        end
  end.

(** The loop of [copy_utf8_prefix]: back to a character boundary. *)
Fixpoint prefix_length (source : bytes) (length : nat) : nat :=
  match length with
  | O => O
  | S shorter => if is_char_boundary source length then length else prefix_length source shorter
  end.

(** The length, and the target with the prefix copied over its start. *)
Definition copy_utf8_prefix (source : string) (target : bytes) : nat * bytes :=
  let source := as_bytes source in
  let length_ := prefix_length source (Nat.min (length source) (length target)) in
  (length_, take length_ source ++ drop length_ target).

Definition zeros (n : N) : bytes := replicate (N.to_nat n) Byte.x00.

Definition SharedSearchEntry_empty : SharedSearchEntry :=
  mkSharedEntry 0 0 0 (zeros SEARCH_TITLE_BYTES) (zeros SEARCH_SUBTITLE_BYTES).

Definition from_public (entry : FrameSearchEntry) : result SharedSearchEntry BridgeError :=
  let '(title_length, title) := copy_utf8_prefix (se_title entry) (zeros SEARCH_TITLE_BYTES) in
  let '(subtitle_length, subtitle) := copy_utf8_prefix (se_subtitle entry) (zeros SEARCH_SUBTITLE_BYTES) in
  if (title_length =? 0)%nat then Err InvalidSearchCatalog
  else
    Ok (mkSharedEntry (search_kind_code (se_kind entry)) (N.of_nat title_length) (N.of_nat subtitle_length)
          title subtitle).

Definition from_utf8 (bs : bytes) : option string :=
  if valid_utf8 bs then Some (string_of_list_byte bs) else None.

Definition decode_public (self : SharedSearchEntry) : option FrameSearchEntry :=
  if (sh_title_length self =? 0) || (SEARCH_TITLE_BYTES <? sh_title_length self)
     || (SEARCH_SUBTITLE_BYTES <? sh_subtitle_length self)
  then None
  else
    kind ← search_kind_from_raw (sh_kind self);
    title ← from_utf8 (take (N.to_nat (sh_title_length self)) (sh_title self));
    subtitle ← from_utf8 (take (N.to_nat (sh_subtitle_length self)) (sh_subtitle self));
    Some (mkSearchEntry kind title subtitle).

(** The stores of the entries, up to the first one that is refused. *)
Fixpoint entry_writes (index : nat) (entries : list FrameSearchEntry) : list write * result unit BridgeError :=
  match entries with
  | [] => ([], Ok tt)
  | entry :: entries =>
      match from_public entry with
      | Err e => ([], Err e)
      | Ok shared =>
          let '(ws, r) := entry_writes (S index) entries in (store_entry index shared :: ws, r)
      end
  end.

Definition begin_search : write := store (λ h, h <| search_sequence ::= λ s, wrapping_add s 1 |>).

(** A catalog that is refused half-way leaves its sequence odd. *)
Definition publish_search_catalog (m : Mapping) (entries : list FrameSearchEntry) :
    list write * result N BridgeError :=
  if MAX_SEARCH_ENTRIES <? len entries then ([], Err InvalidSearchCatalog)
  else
    let old := search_sequence (header m) in
    let fill := (λ index, store_entry index SharedSearchEntry_empty) <$> seq 0 (N.to_nat MAX_SEARCH_ENTRIES) in
    let '(ws, r) := entry_writes 0 entries in
    match r with
    | Err e => (begin_search :: fill ++ ws, Err e)
    | Ok _ =>
        (begin_search :: fill ++ ws
         ++ [store (λ h, h <| search_count := len entries |>);
             store (λ h, h <| search_sequence := published old |>)],
         Ok (published old))
    end.

Definition read_search_catalog (view : nat → Mapping) (last_sequence : N) :
    option (N * list FrameSearchEntry) :=
  if negb (header_compatible view) then None
  else
    let before := search_sequence (header (view 3%nat)) in
    if (before =? 0) || negb (N.land before 1 =? 0) || (before =? last_sequence) then None
    else
      let count := search_count (header (view 4%nat)) in
      if MAX_SEARCH_ENTRIES <? count then None
      else
        let n := N.to_nat count in
        entries ← mapM (λ k, entry ← search (view (5 + k)%nat) !! k; decode_public entry) (seq 0 n);
        let after := search_sequence (header (view (5 + n)%nat)) in
        if negb (before =? after) || negb (N.land after 1 =? 0) then None
        else Some (after, entries).

(** ** What the consumer hands back *)

(** A counter that skips zero: the stores, and the sequence answered. *)
Definition submit_action (m : Mapping) (action : ConsumerAction) : list write * N :=
  let next := fetch_add_u32 (consumer_action_sequence (header m)) in
  ([store (λ h, h <| consumer_action := consumer_action_code action |>);
    store (λ h, h <| consumer_action_sequence ::= fetch_add_u32 |>)]
   ++ (if next =? 0 then [store (λ h, h <| consumer_action_sequence := 1 |>)] else []),
   if next =? 0 then 1 else next).

Definition take_consumer_action (view : nat → Mapping) (last_sequence : N) : option (N * ConsumerAction) :=
  if negb (header_compatible view) then None
  else
    let sequence := consumer_action_sequence (header (view 3%nat)) in
    if (sequence =? 0) || (sequence =? last_sequence) then None
    else
      action ← consumer_action_from_raw (consumer_action (header (view 4%nat)));
      Some (sequence, action).

Definition submit_recenter (m : Mapping) : option (list write * N) :=
  sequence ← reserved (header m) !! CONSUMER_RECENTER_SEQUENCE_RESERVED_INDEX;
  let next := fetch_add_u32 sequence in
  Some ([store (λ h, h <| reserved ::= alter fetch_add_u32 CONSUMER_RECENTER_SEQUENCE_RESERVED_INDEX |>)]
        ++ (if next =? 0 then [store_reserved CONSUMER_RECENTER_SEQUENCE_RESERVED_INDEX 1] else []),
        if next =? 0 then 1 else next).

Definition take_consumer_recenter (view : nat → Mapping) (last_sequence : N) : option N :=
  if negb (header_compatible view) then None
  else
    sequence ← reserved (header (view 3%nat)) !! CONSUMER_RECENTER_SEQUENCE_RESERVED_INDEX;
    if negb (sequence =? 0) && negb (sequence =? last_sequence) then Some sequence else None.

Definition submit_search_selection (m : Mapping) (index : N) : option (list write * N) :=
  if u32_max <? index then None
  else if search_count (header m) <=? index then None
  else
    let next := fetch_add_u32 (consumer_search_sequence (header m)) in
    Some ([store (λ h, h <| consumer_search_selection := index |>);
           store (λ h, h <| consumer_search_sequence ::= fetch_add_u32 |>)]
          ++ (if next =? 0 then [store (λ h, h <| consumer_search_sequence := 1 |>)] else []),
          if next =? 0 then 1 else next).

Definition take_consumer_search_selection (view : nat → Mapping) (last_sequence : N) : option (N * N) :=
  if negb (header_compatible view) then None
  else
    let sequence := consumer_search_sequence (header (view 3%nat)) in
    if (sequence =? 0) || (sequence =? last_sequence) then None
    else
      let index := consumer_search_selection (header (view 4%nat)) in
      if index <? search_count (header (view 5%nat)) then Some (sequence, index) else None.

Definition mark_consumer_alive (now : N) (backend : ConsumerBackend) : list write :=
  [store (λ h, h <| consumer_backend := backend_code backend |>);
   store (λ h, h <| consumer_heartbeat_ms := now |>)].
Definition mark_consumer_stopped : list write := [store (λ h, h <| consumer_heartbeat_ms := 0 |>)].

Definition consumer_status (view : nat → Mapping) (now maximum_age_ms : N) : option ConsumerStatus :=
  if negb (header_compatible view) then None
  else
    let heartbeat := consumer_heartbeat_ms (header (view 3%nat)) in
    if heartbeat =? 0 then None
    else
      let age := saturating_sub now heartbeat in
      if age <=? maximum_age_ms then
        Some (mkConsumerStatus (backend_from_raw (consumer_backend (header (view 4%nat)))) age)
      else None.

Definition writer_heartbeat_age_ms (view : nat → Mapping) (now : N) : option N :=
  if negb (header_compatible view) then None
  else
    let heartbeat := writer_heartbeat_ms (header (view 3%nat)) in
    if heartbeat =? 0 then None else Some (saturating_sub now heartbeat).
Definition writer_is_alive (view : nat → Mapping) (now maximum_age_ms : N) : bool :=
  is_some_and (writer_heartbeat_age_ms view now) (λ age, age <=? maximum_age_ms).

(** ** Drags *)

(** [x as u16] and [x as i16] between the lanes of a [u32]. *)
Definition u16_of_i16 (z : Z) : N := Z.to_N (z mod 65536).
Definition i16_of_u16 (n : N) : Z := if n <? 32768 then Z.of_N n else (Z.of_N n - 65536)%Z.

Definition pack_pan_lanes (x y : Z) : N := N.lor (u16_of_i16 x) (N.shiftl (u16_of_i16 y) 16).
Definition unpack_pan_lanes (packed : N) : Z * Z :=
  (i16_of_u16 (N.land packed 0xffff), i16_of_u16 (N.land (N.shiftr packed 16) 0xffff)).

Definition accumulate_packed_pan (current delta : N) : N :=
  let '(current_x, current_y) := unpack_pan_lanes current in
  let '(delta_x, delta_y) := unpack_pan_lanes delta in
  pack_pan_lanes (saturating_i16 (current_x + delta_x)) (saturating_i16 (current_y + delta_y)).

Definition encode_pan_delta (raster_delta_x raster_delta_y : f32) : option N :=
  if negb (is_finite raster_delta_x) || negb (is_finite raster_delta_y) then None
  else
    let x := quantize raster_delta_x in
    let y := quantize raster_delta_y in
    if ((x =? 0) && (y =? 0))%Z then None else Some (pack_pan_lanes x y).

Definition decode_pan_delta (packed : N) : option (f32 * f32) :=
  let '(x, y) := unpack_pan_lanes packed in
  if ((x =? 0) && (y =? 0))%Z then None
  else Some (fdiv prec32 emax32 (f32_of_Z x) PAN_SUBPIXEL_UNITS, fdiv prec32 emax32 (f32_of_Z y) PAN_SUBPIXEL_UNITS).

(** The update of the pan cell is one atomic store. *)
Definition submit_pan_delta (raster_delta_x raster_delta_y : f32) : list write * bool :=
  match encode_pan_delta raster_delta_x raster_delta_y with
  | None => ([], false)
  | Some delta =>
      ([store (λ h, h <| reserved ::= alter (λ current, accumulate_packed_pan current delta)
                           CONSUMER_PAN_RESERVED_INDEX |>)], true)
  end.

(** The swap: what the cell held, and the store of zero. *)
Definition take_consumer_pan_delta (m : Mapping) : option (list write * option (f32 * f32)) :=
  if negb (header_compatible (λ _, m)) then Some ([], None)
  else
    packed ← reserved (header m) !! CONSUMER_PAN_RESERVED_INDEX;
    Some ([store_reserved CONSUMER_PAN_RESERVED_INDEX 0], decode_pan_delta packed).

(** ** Text cut at a character boundary *)

Lemma in_bytes_true lo hi b : in_bytes lo hi b = true ↔ lo ≤ Byte.to_N b ≤ hi.
Proof. unfold in_bytes. by rewrite andb_true_iff, !N.leb_le. Qed.

Lemma is_continuation_true b : is_continuation b = true ↔ 0x80 ≤ Byte.to_N b < 0xc0.
Proof. unfold is_continuation. by rewrite andb_true_iff, N.leb_le, N.ltb_lt. Qed.

Lemma in_bytes_continuation lo hi b :
  0x80 ≤ lo → hi < 0xc0 → in_bytes lo hi b = true → is_continuation b = true.
Proof. rewrite in_bytes_true, is_continuation_true. lia. Qed.

(** A text is a character and a text. *)
Lemma utf8_step bs :
  valid_utf8 bs = true → bs ≠ [] →
  ∃ c rest, bs = c ++ rest ∧ c ≠ [] ∧ (length c ≤ 4)%nat ∧ valid_utf8 rest = true ∧
    Forall (λ b, is_continuation b = true) (tail c) ∧ ∀ s, valid_utf8 s = true → valid_utf8 (c ++ s) = true.
Proof.
  intros Hv Hne. destruct bs as [|b0 r0]; [done|]. cbn [valid_utf8] in Hv.
  destruct (in_bytes 0 0x7f b0) eqn:H0.
  { exists [b0], r0. split_and!; [done|done|cbn; lia|done|constructor|]. intros s Hs. cbn [app valid_utf8]. by rewrite H0. }
  destruct r0 as [|b1 r1]; [done|].
  destruct (in_bytes 0xc2 0xdf b0) eqn:H1.
  { apply andb_true_iff in Hv as [Hb1 Hv]. exists [b0; b1], r1. split_and!; [done|done|cbn; lia|done|by repeat constructor|].
    intros s Hs. cbn [app valid_utf8]. by rewrite H0, H1, Hb1. }
  destruct r1 as [|b2 r2]; [done|]. destruct (_ || _ || _ || _) eqn:H2 in Hv.
  { apply andb_true_iff in Hv as [Hb2 Hv]. exists [b0; b1; b2], r2.
    assert (is_continuation b1 = true) as Hb1.
    { repeat (apply orb_true_iff in H2 as [H2|H2]); apply andb_true_iff in H2 as [_ H2];
        done || by eapply in_bytes_continuation; [..|exact H2]. }
    split_and!; [done|done|cbn; lia|done|by repeat constructor|].
    intros s Hs. cbn [app valid_utf8]. by rewrite H0, H1, H2, Hb2. }
  destruct r2 as [|b3 r3]; [done|].
  apply andb_true_iff in Hv as [Hv Hr]. apply andb_true_iff in Hv as [Hv Hb3].
  apply andb_true_iff in Hv as [H3 Hb2].
  assert (is_continuation b1 = true) as Hb1.
  { pose proof H3 as H4. repeat (apply orb_true_iff in H4 as [H4|H4]); apply andb_true_iff in H4 as [_ H4];
      done || by eapply in_bytes_continuation; [..|exact H4]. }
  exists [b0; b1; b2; b3], r3. split_and!; [done|done|cbn; lia|done|by repeat constructor|].
  intros s Hs. cbn [app valid_utf8]. by rewrite H0, H1, H2, H3, Hb2, Hb3.
Qed.

Lemma utf8_prefix bs k :
  valid_utf8 bs = true → is_char_boundary bs k = true → valid_utf8 (take k bs) = true.
Proof.
  remember (length bs) as n eqn:Hn. revert bs k Hn. induction (lt_wf n) as [n _ IH]. intros bs k -> Hv Hk.
  destruct (decide (bs = [])) as [->|Hne]; [by rewrite take_nil|].
  destruct (utf8_step bs Hv Hne) as (c & rest & -> & Hc & _ & Hrest & Hcont & Hjoin).
  destruct (decide (k = 0%nat)) as [->|Hk0]; [done|].
  destruct (decide (length c ≤ k)%nat) as [Hle|Hgt].
  - rewrite take_app_ge by done. apply Hjoin. apply (IH (length rest)); try done.
    + rewrite length_app. destruct c; [done|]. cbn. lia.
    + revert Hk. unfold is_char_boundary.
      rewrite (lookup_app_r c rest k) by done. rewrite length_app.
      destruct (rest !! (k - length c)%nat); [|].
      * rewrite !orb_true_iff, !Nat.eqb_eq. intros [->|?]; [done|by right].
      * rewrite !Nat.eqb_eq. lia.
  - exfalso. destruct c as [|b c]; [done|]. destruct k as [|k]; [done|]. cbn [length] in Hgt.
    unfold is_char_boundary in Hk. rewrite lookup_app_l in Hk by (cbn; lia). cbn [lookup list_lookup] in Hk.
    destruct (_ !! k) as [x|] eqn:Hx in Hk.
    + pose proof (Forall_lookup_1 _ _ k x Hcont Hx) as Hx'. cbn beta in Hx'. by rewrite Hx' in Hk.
    + apply (lookup_ge_None_1 (c : list Byte.byte)) in Hx. lia.
Qed.

Lemma prefix_length_spec source n :
  (n ≤ length source)%nat →
  (prefix_length source n ≤ n)%nat ∧ is_char_boundary source (prefix_length source n) = true ∧
  (n = length source → prefix_length source n = n) ∧
  ∀ k, (k ≤ n)%nat → is_char_boundary source k = true → (k ≤ prefix_length source n)%nat.
Proof.
  induction n as [|n IH]; intros Hn; cbn [prefix_length].
  - split_and!; try done. unfold is_char_boundary. destruct source; [done|]. by cbn.
  - destruct (is_char_boundary source (S n)) eqn:Hb.
    + split_and!; done || lia.
    + destruct (IH ltac:(lia)) as (H1 & H2 & _ & H4). split_and!; [lia|done| |].
      * intros Heq. exfalso. unfold is_char_boundary in Hb. rewrite Heq in Hb.
        rewrite (proj2 (lookup_ge_None source (length source))) in Hb by lia. by rewrite Nat.eqb_refl in Hb.
      * intros k Hk Hkb. destruct (decide (k = S n)) as [->|]; [congruence|]. apply H4; [lia|done].
Qed.

(** What is left of a text in a field of [size] bytes. *)
Definition cut (size : N) (s : string) : string :=
  string_of_list_byte (take (prefix_length (as_bytes s) (Nat.min (length (as_bytes s)) (N.to_nat size))) (as_bytes s)).

Definition text_ok (s : string) : Prop := valid_utf8 (as_bytes s) = true.

Lemma cut_short size s : str_len s ≤ size → cut size s = s.
Proof.
  intros Hs. unfold cut. rewrite <- len_as_bytes in Hs. unfold len in Hs. rewrite Nat.min_l by lia.
  destruct (prefix_length_spec (as_bytes s) (length (as_bytes s))) as (_ & _ & H & _); [done|].
  rewrite H by done. rewrite firstn_all. unfold as_bytes. by rewrite string_of_list_byte_of_string.
Qed.

(** A text that is not empty keeps at least its first character. *)
Lemma cut_nonempty s n :
  text_ok s → s ≠ EmptyString → (4 ≤ n)%nat →
  prefix_length (as_bytes s) (Nat.min (length (as_bytes s)) n) ≠ 0%nat.
Proof.
  intros Hs Hne Hn Heq. assert (as_bytes s ≠ []) as Hb.
  { intros Hb. apply Hne, as_bytes_inj. by rewrite Hb. }
  destruct (utf8_step _ Hs Hb) as (c & rest & Hcr & Hc & Hl & Hrest & _ & _).
  destruct (prefix_length_spec (as_bytes s) (Nat.min (length (as_bytes s)) n)) as (_ & _ & _ & H); [lia|].
  specialize (H (length c)). rewrite Heq in H. destruct c as [|b c]; [done|].
  assert (length (as_bytes s) = length (b :: c) + length rest)%nat as Hlen by (by rewrite Hcr, length_app).
  assert (is_char_boundary (as_bytes s) (length (b :: c)) = true) as Hbd.
  { unfold is_char_boundary. rewrite Hcr, lookup_app_r by done. rewrite Nat.sub_diag.
    destruct rest as [|b' rest]; [by rewrite app_nil_r, Nat.eqb_refl|].
    cbn [lookup list_lookup]. cbn [valid_utf8] in Hrest.
    destruct (is_continuation b') eqn:Hcont; [|by rewrite orb_true_r]. exfalso.
    apply is_continuation_true in Hcont.
    assert (∀ lo hi, 0xc0 ≤ lo ∨ hi < 0x80 → in_bytes lo hi b' = false) as Hout.
    { intros lo hi Hr. apply not_true_iff_false. rewrite in_bytes_true. lia. }
    rewrite !Hout in Hrest by lia. cbn [andb orb] in Hrest. by destruct rest as [|? [|? [|? ?]]]. }
  specialize (H ltac:(cbn in *; lia) Hbd). cbn in H. lia.
Qed.

(** ** The catalog *)

Definition cut_entry (e : FrameSearchEntry) : FrameSearchEntry :=
  mkSearchEntry (se_kind e) (cut SEARCH_TITLE_BYTES (se_title e)) (cut SEARCH_SUBTITLE_BYTES (se_subtitle e)).

Definition entry_ok (e : FrameSearchEntry) : Prop := text_ok (se_title e) ∧ text_ok (se_subtitle e).

Lemma copy_utf8_prefix_cut s size n target :
  text_ok s → copy_utf8_prefix s (zeros size) = (n, target) →
  (n ≤ N.to_nat size)%nat ∧ from_utf8 (take n target) = Some (cut size s) ∧
  n = prefix_length (as_bytes s) (Nat.min (length (as_bytes s)) (N.to_nat size)).
Proof.
  intros Hs. unfold copy_utf8_prefix, zeros. rewrite length_replicate. intros [= <- <-].
  destruct (prefix_length_spec (as_bytes s) (Nat.min (length (as_bytes s)) (N.to_nat size))) as (H1 & H2 & _); [lia|].
  split_and!; [lia| |done].
  rewrite take_app_le, take_take, Nat.min_id by (rewrite length_take; lia).
  unfold from_utf8. by rewrite (utf8_prefix _ _ Hs H2).
Qed.

Lemma kind_roundtrip k : search_kind_from_raw (search_kind_code k) = Some k.
Proof. by destruct k. Qed.

Lemma from_public_decode e :
  entry_ok e →
  match from_public e with
  | Ok shared => se_title e ≠ EmptyString ∧ decode_public shared = Some (cut_entry e)
  | Err error => se_title e = EmptyString ∧ error = InvalidSearchCatalog
  end.
Proof.
  intros [Ht Hs]. unfold from_public.
  destruct (copy_utf8_prefix (se_title e) _) as [tn title] eqn:Ecopy.
  destruct (copy_utf8_prefix (se_subtitle e) _) as [sn subtitle] eqn:Ecopy'.
  apply copy_utf8_prefix_cut in Ecopy as (H1 & H2 & H3); [|done].
  apply copy_utf8_prefix_cut in Ecopy' as (H1' & H2' & _); [|done].
  destruct (Nat.eqb_spec tn 0) as [Hz|Hz].
  - split; [|done]. destruct (decide (se_title e = EmptyString)) as [|Hne]; [done|].
    exfalso. revert Hz. rewrite H3. apply cut_nonempty; [done|done|]. unfold SEARCH_TITLE_BYTES. lia.
  - split.
    { intros Heq. rewrite Heq in H3. cbn in H3. done. }
    unfold decode_public. cbn [sh_title_length sh_subtitle_length sh_kind sh_title sh_subtitle].
    destruct (N.eqb_spec (N.of_nat tn) 0); [lia|].
    destruct (N.ltb_spec SEARCH_TITLE_BYTES (N.of_nat tn)); [lia|].
    destruct (N.ltb_spec SEARCH_SUBTITLE_BYTES (N.of_nat sn)); [lia|]. cbn [orb].
    rewrite kind_roundtrip, !Nat2N.id, H2, H2'. done.
Qed.

Lemma run_store_entries m es o :
  (o + length es ≤ length (search m))%nat →
  let m' := run m (imap (λ k e, store_entry (o + k) e) es) in
  header m' = header m ∧ length (search m') = length (search m) ∧
  (∀ k, (k < length es)%nat → search m' !! (o + k)%nat = es !! k) ∧
  (∀ k, (k < o)%nat → search m' !! k = search m !! k).
Proof.
  revert m o. induction es as [|e es IH]; intros m o Hl.
  { cbn. split_and!; try done. intros k Hk. lia. }
  cbn [imap run fold_left length] in *. fold (run (store_entry (o + 0) e m)).
  assert (imap ((λ k v, store_entry (o + k) v) ∘ S) es = imap (λ k v, store_entry (S o + k) v) es) as ->.
  { apply imap_ext. intros k v _. cbn. by rewrite Nat.add_succ_r. }
  rewrite Nat.add_0_r.
  destruct (IH (store_entry o e m) (S o)) as (H1 & H2 & H3 & H4).
  { cbn. rewrite length_insert. lia. }
  split_and!.
  - exact H1.
  - etransitivity; [exact H2|]. cbn. by rewrite length_insert.
  - intros [|k] Hk.
    + rewrite Nat.add_0_r. etransitivity; [apply H4; lia|]. cbn. rewrite list_lookup_insert_eq; [done|lia].
    + rewrite <- Nat.add_succ_comm. etransitivity; [apply H3; lia|done].
  - intros k Hk. etransitivity; [apply H4; lia|]. cbn. by rewrite list_lookup_insert_ne by lia.
Qed.

Lemma run_fill m places :
  let m' := run m ((λ index, store_entry index SharedSearchEntry_empty) <$> places) in
  header m' = header m ∧ length (search m') = length (search m).
Proof.
  revert m. induction places as [|i places IH]; intros m; [done|]. cbn [fmap list_fmap run fold_left].
  destruct (IH (store_entry i SharedSearchEntry_empty m)) as [H1 H2]. split; [exact H1|].
  etransitivity; [exact H2|]. cbn. by rewrite length_insert.
Qed.

Lemma entry_writes_spec es o :
  Forall entry_ok es →
  let '(ws, r) := entry_writes o es in
  if bool_decide (Forall (λ e, se_title e ≠ EmptyString) es) then
    r = Ok tt ∧ ∃ shared, ws = imap (λ k s, store_entry (o + k) s) shared ∧
      Forall2 (λ e s, decode_public s = Some (cut_entry e)) es shared
  else r = Err InvalidSearchCatalog.
Proof.
  intros Hes. revert o. induction Hes as [|e es He Hes IH]; intros o; cbn [entry_writes].
  { rewrite bool_decide_true by constructor. split; [done|]. by exists []. }
  pose proof (from_public_decode e He) as Hp. destruct (from_public e) as [shared|error].
  - destruct Hp as [Hne Hd]. specialize (IH (S o)). destruct (entry_writes (S o) es) as [ws r].
    destruct (bool_decide_reflect (Forall (λ e, se_title e ≠ EmptyString) es)) as [Hall|Hall].
    + rewrite bool_decide_true by by constructor. destruct IH as [-> (ss & -> & Hss)]. split; [done|].
      exists (shared :: ss). split; [|by constructor]. cbn [imap]. rewrite Nat.add_0_r. f_equal.
      apply imap_ext. intros k v _. cbn. by rewrite Nat.add_succ_r.
    + rewrite bool_decide_false by (by rewrite Forall_cons; intros [_ ?]). done.
  - destruct Hp as [Hz ->]. rewrite bool_decide_false by (by rewrite Forall_cons; intros [? _]). done.
Qed.

(** ** The pan cell *)

Lemma u16_lane z : is_i16 z → u16_of_i16 z < 65536 ∧ i16_of_u16 (u16_of_i16 z) = z.
Proof.
  unfold is_i16, i16_min, i16_max, u16_of_i16, i16_of_u16. intros Hz.
  pose proof (Z.mod_pos_bound z 65536 ltac:(lia)) as Hm. split; [lia|].
  destruct (Z.le_gt_cases 0 z).
  - rewrite Z.mod_small by lia. destruct (N.ltb_spec (Z.to_N z) 32768); lia.
  - assert (z mod 65536 = z + 65536)%Z as ->.
    { symmetry. apply (Z.mod_unique _ _ (-1)); lia. }
    destruct (N.ltb_spec (Z.to_N (z + 65536)) 32768); lia.
Qed.

Lemma unpack_pack x y : is_i16 x → is_i16 y → unpack_pan_lanes (pack_pan_lanes x y) = (x, y).
Proof.
  intros Hx Hy. unfold unpack_pan_lanes, pack_pan_lanes.
  destruct (u16_lane x Hx) as [Hx1 Hx2]. destruct (u16_lane y Hy) as [Hy1 Hy2].
  set (a := u16_of_i16 x) in *. set (b := u16_of_i16 y) in *.
  assert (N.lor a (N.shiftl b 16) = a + b * 65536) as ->.
  { rewrite N.shiftl_mul_pow2. change (2 ^ 16) with 65536.
    rewrite <- N.lxor_lor, <- N.add_nocarry_lxor; try done.
    all: change 65536 with (2 ^ 16); rewrite <- N.shiftl_mul_pow2; apply N.bits_inj; intros n;
      rewrite N.land_spec, N.bits_0; destruct (N.lt_ge_cases n 16);
      [rewrite N.shiftl_spec_low by done; apply andb_false_r|
       rewrite <- (N.mod_small a (2 ^ 16)), N.mod_pow2_bits_high by done; done]. }
  change 0xffff with (N.ones 16). rewrite !N.land_ones, N.shiftr_div_pow2. change (2 ^ 16) with 65536.
  rewrite N.Div0.mod_add, (N.mod_small a) by done. rewrite N.div_add, (N.div_small a), N.add_0_l by done.
  rewrite N.mod_small by done. by rewrite Hx2, Hy2.
Qed.

Lemma saturating_i16_range z : is_i16 (saturating_i16 z).
Proof. unfold is_i16, saturating_i16, i16_min, i16_max. lia. Qed.

Lemma accumulate_lanes cx cy dx dy :
  is_i16 cx → is_i16 cy → is_i16 dx → is_i16 dy →
  unpack_pan_lanes (accumulate_packed_pan (pack_pan_lanes cx cy) (pack_pan_lanes dx dy)) =
  (saturating_i16 (cx + dx), saturating_i16 (cy + dy)).
Proof.
  intros. unfold accumulate_packed_pan. rewrite !unpack_pack by done. cbv beta iota.
  apply unpack_pack; apply saturating_i16_range.
Qed.

(** The cell after a list of drags. *)
Definition pan_cell (cell : N) (drags : list (f32 * f32)) : N :=
  fold_left (λ cell '(x, y),
    match encode_pan_delta x y with Some delta => accumulate_packed_pan cell delta | None => cell end) drags cell.

(** What a list of drags adds up to in sixteenths of a pixel: each drag counts as the
    integers nearest to sixteen times its coordinates, one that is not finite as nothing. *)
Definition drag_lane (lane : f32 * f32 → f32) (d : f32 * f32) : Z :=
  if is_finite d.1 && is_finite d.2 then sixteenths (lane d) else 0%Z.
Fixpoint pan_sum (lane : f32 * f32 → f32) (drags : list (f32 * f32)) : Z :=
  match drags with [] => 0%Z | d :: drags => (drag_lane lane d + pan_sum lane drags)%Z end.

Definition drag_ok (d : f32 * f32) : Prop := f32_ok d.1 = true ∧ f32_ok d.2 = true.

(** One drag moves the lanes by what it counts, as long as they do not overflow. *)
Lemma pan_cell_step d sx sy :
  drag_ok d → is_i16 sx → is_i16 sy →
  is_i16 (sx + drag_lane fst d) → is_i16 (sy + drag_lane snd d) →
  pan_cell (pack_pan_lanes sx sy) [d] = pack_pan_lanes (sx + drag_lane fst d) (sy + drag_lane snd d).
Proof.
  destruct d as [x y]. intros [Ox Oy] Hx Hy Hsx Hsy. unfold pan_cell, drag_lane, encode_pan_delta in *.
  cbn [fold_left fst snd] in *.
  destruct (is_finite x) eqn:Fx, (is_finite y) eqn:Fy; cbn [andb orb negb] in *; rewrite ?Z.add_0_r; try done.
  cbn [fst snd] in Ox, Oy. rewrite !quantize_exact by done.
  pose proof (sixteenths_range x) as Qx. pose proof (sixteenths_range y) as Qy.
  destruct ((sixteenths x =? 0)%Z && (sixteenths y =? 0)%Z) eqn:Hz.
  { apply andb_true_iff in Hz as [->%Z.eqb_eq ->%Z.eqb_eq]. by rewrite !Z.add_0_r. }
  unfold accumulate_packed_pan. rewrite !unpack_pack by done. cbv beta iota.
  unfold saturating_i16, is_i16 in *. f_equal; lia.
Qed.

Lemma pan_cell_lanes drags sx sy :
  Forall drag_ok drags →
  (∀ k, (k ≤ length drags)%nat → is_i16 (sx + pan_sum fst (take k drags)) ∧ is_i16 (sy + pan_sum snd (take k drags))) →
  pan_cell (pack_pan_lanes sx sy) drags =
  pack_pan_lanes (sx + pan_sum fst drags) (sy + pan_sum snd drags).
Proof.
  intros Hok. revert sx sy. induction Hok as [|d drags Hd _ IH]; intros sx sy Hin.
  { cbn. by rewrite !Z.add_0_r. }
  change (pan_cell ?c (d :: drags)) with (pan_cell (pan_cell c [d]) drags).
  destruct (Hin 0%nat ltac:(cbn; lia)) as [H0x H0y]. destruct (Hin 1%nat ltac:(cbn; lia)) as [H1x H1y].
  cbn [take pan_sum] in *. rewrite !Z.add_0_r in *.
  rewrite pan_cell_step by done. rewrite IH; [by rewrite !Z.add_assoc|].
  intros k Hk. rewrite <- !Z.add_assoc. apply (Hin (S k)). cbn. lia.
Qed.

(** The exact sum of the coordinates, and drags that fit in a lane. *)
Fixpoint drag_total (lane : f32 * f32 → f32) (drags : list (f32 * f32)) : Z :=
  match drags with [] => 0%Z | d :: drags => (val (lane d) + drag_total lane drags)%Z end.
Definition fits_lane (d : f32 * f32) : Prop :=
  is_finite d.1 = true ∧ is_finite d.2 = true ∧
  (16 * Z.abs (val d.1) ≤ 32767 * unit_val)%Z ∧ (16 * Z.abs (val d.2) ≤ 32767 * unit_val)%Z.

Lemma pan_sum_near (lane : f32 * f32 → f32) drags :
  (∀ d, fits_lane d → (16 * Z.abs (val (lane d)) ≤ 32767 * unit_val)%Z) →
  Forall fits_lane drags →
  (2 * Z.abs (pan_sum lane drags * unit_val - 16 * drag_total lane drags) ≤ Z.of_N (len drags) * unit_val)%Z.
Proof.
  intros Hlane. induction 1 as [|d drags Hd _ IH]; [done|]. pose proof (sixteenths_near _ (Hlane d Hd)) as Hn.
  cbn [pan_sum drag_total]. unfold drag_lane. destruct Hd as (-> & -> & _). cbn [andb].
  assert (Z.of_N (len (d :: drags)) = Z.of_N (len drags) + 1)%Z as -> by (unfold len; cbn [length]; lia).
  revert Hn IH. pose proof unit_val_pos as Hu. generalize unit_val Hu. intros U HU. lia.
Qed.

Definition drag_writes (drags : list (f32 * f32)) : list write :=
  d ← drags; (submit_pan_delta d.1 d.2).1.

Lemma run_drags drags m cell :
  reserved (header m) !! CONSUMER_PAN_RESERVED_INDEX = Some cell →
  let m' := run m (drag_writes drags) in
  compat_part m' = compat_part m ∧
  reserved (header m') !! CONSUMER_PAN_RESERVED_INDEX =
    Some (pan_cell cell drags).
Proof.
  revert m cell. induction drags as [|[x y] drags IH]; intros m cell Hcell; [done|].
  unfold drag_writes, pan_cell in *. cbn [mbind list_bind fold_left fst snd]. rewrite writes_app.
  unfold submit_pan_delta at 1 3. destruct (encode_pan_delta x y) as [delta|]; cbn [fst snd].
  - set (m1 := run m _).
    assert (reserved (header m1) !! CONSUMER_PAN_RESERVED_INDEX = Some (accumulate_packed_pan cell delta)) as H1.
    { unfold m1. cbn. rewrite list_lookup_alter_eq. unfold lookup in Hcell |- *. by rewrite Hcell. }
    assert (compat_part m1 = compat_part m) as Hc by done. clearbody m1.
    destruct (IH m1 _ H1) as [-> ->]. done.
  - by apply IH.
Qed.

Lemma compat_part_compatible m m' :
  compat_part m' = compat_part m → header_compatible (λ _, m') = header_compatible (λ _, m).
Proof. unfold header_compatible. intros [= -> -> ->]. done. Qed.

(** ** Properties *)

(** C31: the drags of the consumer add up without loss. Each drag counts as the integers
    nearest to sixteen times its coordinates, held within sixteen bits, and one that is not a
    number as nothing. From an empty cell, as long as no partial sum leaves the sixteen bits
    of a lane, the overlay that swaps the cell out gets exactly a sixteenth of the sum in both
    directions, one direction never spills into the other, and the cell is empty again; drags
    that cancel out count as none. If every drag fits in a lane, what the overlay gets differs
    from the exact sum of the coordinates by at most a thirty-second of a pixel per drag. *)
Theorem pan_lossless (m : Mapping) (drags : list (f32 * f32)) :
  header_compatible (λ _, m) = true → reserved (header m) !! CONSUMER_PAN_RESERVED_INDEX = Some 0 →
  Forall drag_ok drags →
  (∀ k, (k ≤ length drags)%nat →
    is_i16 (pan_sum fst (take k drags)) ∧ is_i16 (pan_sum snd (take k drags))) →
  let x := pan_sum fst drags in
  let y := pan_sum snd drags in
  (∃ ws out, take_consumer_pan_delta (run m (drag_writes drags)) = Some (ws, out) ∧
    (out = None ↔ x = 0%Z ∧ y = 0%Z) ∧
    (∀ dx dy, out = Some (dx, dy) →
       is_finite dx = true ∧ is_finite dy = true ∧
       (16 * val dx = x * unit_val)%Z ∧ (16 * val dy = y * unit_val)%Z) ∧
    reserved (header (run (run m (drag_writes drags)) ws)) !! CONSUMER_PAN_RESERVED_INDEX = Some 0) ∧
  (Forall fits_lane drags →
     (2 * Z.abs (x * unit_val - 16 * drag_total fst drags) ≤ Z.of_N (len drags) * unit_val)%Z ∧
     (2 * Z.abs (y * unit_val - 16 * drag_total snd drags) ≤ Z.of_N (len drags) * unit_val)%Z).
Proof.
  intros Hc H0 Hok Hsums x y. destruct (run_drags drags m 0 H0) as [Hcompat Hcell].
  apply compat_part_compatible in Hcompat. rewrite Hc in Hcompat.
  assert (is_i16 x ∧ is_i16 y) as [Hx Hy].
  { destruct (Hsums (length drags) ltac:(done)) as [Hx Hy]. rewrite firstn_all in Hx, Hy. done. }
  change (pan_cell 0 drags) with (pan_cell (pack_pan_lanes 0 0) drags) in Hcell.
  rewrite (pan_cell_lanes drags 0 0 Hok Hsums), !Z.add_0_l in Hcell. fold x y in Hcell.
  split; [|intros Hf; split; apply pan_sum_near; try done; by intros d (_ & _ & ? & ?)].
  set (m1 := run m (drag_writes drags)) in *. clearbody m1.
  exists [store_reserved CONSUMER_PAN_RESERVED_INDEX 0], (decode_pan_delta (pack_pan_lanes x y)).
  unfold decode_pan_delta. rewrite unpack_pack by done. cbv beta iota. split_and!.
  - unfold take_consumer_pan_delta. rewrite Hcompat. cbn [negb].
    unfold lookup in Hcell |- *. rewrite Hcell. cbn [mbind option_bind].
    unfold decode_pan_delta. by rewrite unpack_pack.
  - destruct (Z.eqb_spec x 0), (Z.eqb_spec y 0); cbn; split; (done || tauto || by intros [??]).
  - destruct ((x =? 0)%Z && (y =? 0)%Z); [done|]. intros dx dy [= <- <-].
    destruct (sixteenth_back x Hx), (sixteenth_back y Hy). done.
  - cbn. rewrite list_lookup_insert_eq; [done|]. by eapply lookup_lt_Some.
Qed.

(** C23: the search catalog survives the mapping. The writer refuses a catalog exactly when
    it has too many entries or an entry without a title; every other catalog is read back
    entry by entry, each text cut at a character boundary so that it still is a text, and
    unchanged when it fits its field. *)
Theorem catalog_roundtrip (m : Mapping) (entries : list FrameSearchEntry) (last : N) :
  header_compatible (λ _, m) = true → length (search m) = N.to_nat MAX_SEARCH_ENTRIES → Forall entry_ok entries →
  N.odd (search_sequence (header m)) = false → search_sequence (header m) + 2 ≤ u64_max →
  let '(ws, r) := publish_search_catalog m entries in
  let s := search_sequence (header m) + 2 in
  (r = Ok s ↔ len entries ≤ MAX_SEARCH_ENTRIES ∧ Forall (λ e, se_title e ≠ EmptyString) entries) ∧
  (r = Ok s → s ≠ last → read_search_catalog (λ _, run m ws) last = Some (s, cut_entry <$> entries)) ∧
  ∀ e, str_len (se_title e) ≤ SEARCH_TITLE_BYTES → str_len (se_subtitle e) ≤ SEARCH_SUBTITLE_BYTES →
    cut_entry e = e.
Proof.
  intros Hc Hlen Hes He Hmax. unfold publish_search_catalog.
  assert (∀ e, str_len (se_title e) ≤ SEARCH_TITLE_BYTES → str_len (se_subtitle e) ≤ SEARCH_SUBTITLE_BYTES →
    cut_entry e = e) as Hshort.
  { intros [k t s] Ht Hs. unfold cut_entry. cbn [se_kind se_title se_subtitle] in *. by rewrite !cut_short. }
  destruct (N.ltb_spec MAX_SEARCH_ENTRIES (len entries)) as [Hbig|Hfit].
  { split_and!; try done. split; [done|lia]. }
  pose proof (entry_writes_spec entries 0 Hes) as Hw. destruct (entry_writes 0 entries) as [ws r].
  destruct (bool_decide_reflect (Forall (λ e, se_title e ≠ EmptyString) entries)) as [Hall|Hall].
  2:{ subst r. split_and!; try done. split; [done|]. by intros [_ ?]. }
  destruct Hw as [-> (shared & -> & Hshared)]. cbv zeta. rewrite published_even by done.
  split_and!; [done| |done]. intros _ Hlast.
  set (fill := (λ index, store_entry index SharedSearchEntry_empty) <$> seq 0 (N.to_nat MAX_SEARCH_ENTRIES)).
  assert (∀ a b c, begin_search :: a ++ b ++ c = [begin_search] ++ a ++ b ++ c) as -> by done.
  rewrite !writes_app. set (m1 := run m [begin_search]).
  destruct (run_fill m1 (seq 0 (N.to_nat MAX_SEARCH_ENTRIES))) as [Hf1 Hf2]. fold fill in Hf1, Hf2.
  set (m2 := run m1 fill) in *. clearbody m2. assert (search m1 = search m) as Hm1 by done.
  pose proof (Forall2_length _ _ _ Hshared) as Hlens. unfold len in Hfit.
  destruct (run_store_entries m2 shared 0) as (Hs1 & Hs2 & Hs3 & _).
  { rewrite Hf2, Hm1, Hlen. lia. }
  cbn [Nat.add] in Hs1, Hs2, Hs3. set (m3 := run m2 _) in *. clearbody m3.
  set (m4 := run m3 _).
  assert (header m4 = (header m1) <| search_count := len entries |>
                        <| search_sequence := search_sequence (header m) + 2 |>) as Hh
    by (rewrite <- Hf1, <- Hs1; reflexivity).
  assert (search m4 = search m3) as Hsearch by done. clearbody m4.
  unfold read_search_catalog, header_compatible in *. rewrite Hh, Hsearch. clear Hh Hsearch.
  unfold m1. cbn. cbn in Hc. rewrite Hc. cbn [negb].
  assert (N.odd (search_sequence (header m) + 2) = false) as He2 by (by rewrite N.odd_add, He).
  rewrite !land_one_even, He2, N.eqb_refl.
  destruct (N.eqb_spec (search_sequence (header m) + 2) 0); [lia|].
  destruct (N.eqb_spec (search_sequence (header m) + 2) last); [done|]. cbn [orb negb].
  destruct (N.ltb_spec MAX_SEARCH_ENTRIES (len entries)); [unfold len in *; lia|].
  assert (mapM (λ k, entry ← search m3 !! k; decode_public entry) (seq 0 (N.to_nat (len entries))) =
          Some (cut_entry <$> entries)) as Hmap.
  { unfold len. rewrite Nat2N.id. apply mapM_Some, Forall2_same_length_lookup.
    rewrite length_seq, length_fmap. split; [done|]. intros k k' e' Hk He'.
    apply lookup_seq in Hk as [-> Hk]. apply list_lookup_fmap_Some in He' as (e0 & -> & He0).
    destruct (Forall2_lookup_l _ _ _ _ _ Hshared He0) as (sh & Hsh & Hdec).
    cbn [Nat.add]. rewrite Hs3, Hsh by lia. done. }
  rewrite Hmap. done.
Qed.

(** ** Examples *)

(** A mapping with room for two pixels and three entries, as a first writer leaves it. *)
Definition small_header : SharedHeader :=
  mkHeader 0 0 0 0 0 0 0 0 0 0 0 0 0 0 0 0 0 0 0 0 0 (replicate RESERVED_CELLS 0).
Definition small_mapping : Mapping :=
  let m := mkMapping small_header (replicate 3 SharedSearchEntry_empty) (replicate 8 0) in
  run m (initialize_header m).
Definition map_picture (now : N) (pixels : list N) : frame_op :=
  OpPublish now 2 1 (mkMetadata FrExpandedMap FrameControls_default (f32_of_Z 1) true 2 1) pixels.

Lemma catalog_roundtrip_witness :
  let entries := [mkSearchEntry KindPal "Lamball" EmptyString; mkSearchEntry KindPoi "Tower" "Rayne"] in
  let m := mkMapping (header small_mapping) (replicate (N.to_nat MAX_SEARCH_ENTRIES) SharedSearchEntry_empty) [] in
  Forall entry_ok entries ∧
  let '(ws, r) := publish_search_catalog m entries in
  let s := search_sequence (header m) + 2 in
  (r = Ok s ↔ len entries ≤ MAX_SEARCH_ENTRIES ∧ Forall (λ e, se_title e ≠ EmptyString) entries) ∧
  (r = Ok s → s ≠ 0 → read_search_catalog (λ _, run m ws) 0 = Some (s, cut_entry <$> entries)) ∧
  ∀ e, str_len (se_title e) ≤ SEARCH_TITLE_BYTES → str_len (se_subtitle e) ≤ SEARCH_SUBTITLE_BYTES →
    cut_entry e = e.
Proof.
  intros entries m. assert (Forall entry_ok entries) as He by (repeat constructor). split; [exact He|].
  apply catalog_roundtrip; [vm_compute; reflexivity|apply length_replicate|exact He|vm_compute; reflexivity|].
  vm_compute. discriminate.
Defined.

Lemma pan_lossless_witness :
  let drags := [(f32_of_Z 3, f32_lit 5 10); (S754_nan, f32_of_Z 9); (f32_of_Z (-1), f32_of_Z 0)] in
  pan_sum fst drags = 32%Z ∧ pan_sum snd drags = 8%Z ∧
  ∃ ws dx dy, take_consumer_pan_delta (run small_mapping (drag_writes drags)) = Some (ws, Some (dx, dy)) ∧
    (16 * val dx = 32 * unit_val)%Z ∧ (16 * val dy = 8 * unit_val)%Z ∧
    reserved (header (run (run small_mapping (drag_writes drags)) ws)) !! CONSUMER_PAN_RESERVED_INDEX = Some 0.
Proof.
  intros drags. assert (pan_sum fst drags = 32%Z) as Hx by (vm_compute; reflexivity).
  assert (pan_sum snd drags = 8%Z) as Hy by (vm_compute; reflexivity).
  split; [exact Hx|]. split; [exact Hy|].
  pose proof (pan_lossless small_mapping drags) as H. cbv zeta in H. rewrite Hx, Hy in H.
  destruct H as [(ws & out & Ht & Hnone & Hsome & Hcell) _];
    [vm_compute; reflexivity|vm_compute; reflexivity|repeat constructor| |].
  - intros [|[|[|[|k]]]] Hk; [..|cbn in Hk; lia]; vm_compute; repeat split; discriminate.
  - destruct out as [[dx dy]|]; [|destruct (proj1 Hnone eq_refl); discriminate].
    exists ws, dx, dy. destruct (Hsome dx dy eq_refl) as (_ & _ & Hdx & Hdy).
    split; [exact Ht|]. split; [exact Hdx|]. split; [exact Hdy|exact Hcell].
Defined.

(** A writer that dies inside a frame leaves the sequence odd. The increment of the next
    writer makes it even while the frame is half of one picture and half of the other, a
    reader accepts it, and the sequence the new writer ends with is the same one. *)
Theorem crash_recovery_torn (hypot : f64 → f64 → f64) :
  let before := perform hypot small_mapping (map_picture 5 [0x111111; 0x222222]) in
  let dead := run before (take 16 (writes_of hypot before (map_picture 6 [0x333333; 0x444444]))) in
  ff_rgba <$> read_alone before 2 = Some [0x11; 0x11; 0x11; 255; 0x22; 0x22; 0x22; 255] ∧
  read_alone dead 4 = None ∧
  (λ f, (ff_sequence f, ff_rgba f)) <$> read_alone (run dead (take 1 (initialize_header dead))) 4 =
    Some (6, [0x33; 0x33; 0x33; 255; 0x22; 0x22; 0x22; 255]) ∧
  seq_of (run dead (initialize_header dead)) = 6.
Proof. by vm_compute. Qed.

(** A catalog that is refused leaves its sequence odd. The next catalog is then written
    under an even sequence: a reader takes a part of it, and never looks at the whole. *)
Theorem failed_catalog_breaks_lock :
  let entry title := mkSearchEntry KindPal title EmptyString in
  let full := [entry "Anubis"; entry "Bushi"; entry "Cattiva"] in
  let '(ws1, r1) := publish_search_catalog small_mapping [entry "Anubis"; entry "Bushi"] in
  let m1 := run small_mapping ws1 in
  let '(ws2, r2) := publish_search_catalog m1 [entry EmptyString] in
  let m2 := run m1 ws2 in
  let '(ws3, r3) := publish_search_catalog m2 full in
  r1 = Ok 2 ∧ r2 = Err InvalidSearchCatalog ∧ r3 = Ok 4 ∧
  read_search_catalog (λ _, run m2 (take (length ws3 - 2) ws3)) 2 =
    Some (4, [entry "Anubis"; entry "Bushi"]) ∧
  read_search_catalog (λ _, run m2 ws3) 4 = None ∧
  read_search_catalog (λ _, run m2 ws3) 2 = Some (4, full).
Proof. by vm_compute. Qed.

(** The sequence and the action are two loads: an action submitted in between is taken under
    the sequence of the one before, which is lost, and is taken again under its own. *)
Theorem action_taken_twice :
  let m1 := run small_mapping (submit_action small_mapping CaLock).1 in
  let ws := (submit_action m1 CaZoomIn).1 in
  let view (i : nat) := if (i <=? 3)%nat then m1 else run m1 (take 1 ws) in
  take_consumer_action view 0 = Some (1, CaZoomIn) ∧
  take_consumer_action (λ _, run m1 ws) 1 = Some (2, CaZoomIn).
Proof. by vm_compute. Qed.
