(* ===== verification/MapRaster.v ===== *)
(** * Map pictures and icons

    Models the pictures of [crates/pal-overlay-win/src/actual_map_preview.rs]: the BMP decoder,
    the rasters it gives, bilinear samples of a raster, and the icons of points of interest
    with their premultiplied samples. An access outside a picture, which the code would
    answer with a panic, is [None]. *)

From S2P Require Import Prelude Floats FloatInt FloatRound Placement Viewport FloatCast.

Definition MAX_MAP_SIDE : N := 4096.
Definition MAX_POI_ICON_SIDE : N := 512.
Definition MAX_PREVIEW_BMP_FILE_BYTES : N := 64 * 1024 * 1024.

Inductive MapRasterError := DimensionsOutOfRange | PixelCountMismatch.

Inductive BmpDecodeError :=
| BmpTruncated
| InvalidSignature
| UnsupportedDibHeader
| BmpDimensionsOutOfRange
| UnsupportedPlanes
| UnsupportedBitDepth
| UnsupportedCompression
| PixelDataOutOfRange
| BmpRaster (error : MapRasterError).

Inductive MapFileError := MapIo | FileTooLarge | Decode (error : BmpDecodeError).

Record MapRaster := mkRaster { raster_width : N; raster_height : N; raster_pixels : list N }.

Definition validate_map_dimensions (width height : N) : result unit MapRasterError :=
  if (width =? 0) || (height =? 0) || (MAX_MAP_SIDE <? width) || (MAX_MAP_SIDE <? height)
  then Err DimensionsOutOfRange else Ok tt.

(** [usize] has 64 bits. *)
Definition checked_usize (n : N) : option N := if n <=? u64_max then Some n else None.

Definition raster_new (width height : N) (pixels : list N) : result MapRaster MapRasterError :=
  let? _ := validate_map_dimensions width height in
  let? expected := ok_or (checked_usize (width * height)) DimensionsOutOfRange in
  if negb (len pixels =? expected) then Err PixelCountMismatch
  else Ok (mkRaster width height pixels).

(** ** The BMP decoder *)

Definition read_le (size : nat) (bs : bytes) (offset : nat) : result N BmpDecodeError :=
  if (offset + size <=? length bs)%nat then Ok (le_value (take size (drop offset bs))) else Err BmpTruncated.
Definition read_u16 (bs : bytes) (offset : nat) : result N BmpDecodeError := read_le 2 bs offset.
Definition read_u32 (bs : bytes) (offset : nat) : result N BmpDecodeError := read_le 4 bs offset.
Definition read_i32 (bs : bytes) (offset : nat) : result Z BmpDecodeError :=
  let? raw := read_le 4 bs offset in
  Ok (if raw <? 2147483648 then Z.of_N raw else (Z.of_N raw - 4294967296)%Z).

Record BmpLayout := mkBmpLayout {
  bmp_width : N;
  bmp_height : N;
  bmp_top_down : bool;
  bmp_bytes_per_pixel : N;
  bmp_row_stride : N;
  bmp_pixel_offset : N;
}.

(** The header, up to the check of the pixel data. *)
Definition bmp_layout (bs : bytes) : result BmpLayout BmpDecodeError :=
  if len bs <? 54 then Err BmpTruncated
  else if negb (bool_decide (take 2 bs = as_bytes "BM")) then Err InvalidSignature
  else
    let? pixel_offset := read_u32 bs 10 in
    let? dib_size := read_u32 bs 14 in
    if dib_size <? 40 then Err UnsupportedDibHeader
    else
      let? width_signed := read_i32 bs 18 in
      let? height_signed := read_i32 bs 22 in
      if ((width_signed <=? 0) || (height_signed =? 0) || (height_signed =? i32_min))%Z
      then Err BmpDimensionsOutOfRange
      else
        let? width := ok_or (u32_try_from width_signed) BmpDimensionsOutOfRange in
        let height := Z.abs_N height_signed in
        let? _ := map_err BmpRaster (validate_map_dimensions width height) in
        let? planes := read_u16 bs 26 in
        if negb (planes =? 1) then Err UnsupportedPlanes
        else
          let? bits_per_pixel := read_u16 bs 28 in
          if negb ((bits_per_pixel =? 24) || (bits_per_pixel =? 32)) then Err UnsupportedBitDepth
          else
            let? compression := read_u32 bs 30 in
            if negb (compression =? 0) then Err UnsupportedCompression
            else
              let bytes_per_pixel := bits_per_pixel / 8 in
              let? unpadded_row := ok_or (checked_usize (width * bytes_per_pixel)) BmpDimensionsOutOfRange in
              let? padded := ok_or (checked_usize (unpadded_row + 3)) BmpDimensionsOutOfRange in
              let row_stride := N.ldiff padded 3 in
              let? pixel_bytes := ok_or (checked_usize (row_stride * height)) BmpDimensionsOutOfRange in
              let? pixel_end := ok_or (checked_usize (pixel_offset + pixel_bytes)) PixelDataOutOfRange in
              if (pixel_offset <? 14 + dib_size) || (len bs <? pixel_end) then Err PixelDataOutOfRange
              else Ok (mkBmpLayout width height (height_signed <? 0)%Z bytes_per_pixel row_stride pixel_offset).

Definition byte_at (bs : list Byte.byte) (index : N) : option N := Byte.to_N <$> bs !! N.to_nat index.

Definition rgb (red green blue : N) : N := N.lor (N.lor (N.shiftl red 16) (N.shiftl green 8)) blue.

(** The place of a pixel in the file. *)
Definition pixel_source (l : BmpLayout) (x destination_y : N) : N :=
  let source_y := if bmp_top_down l then destination_y else bmp_height l - destination_y - 1 in
  bmp_pixel_offset l + source_y * bmp_row_stride l + x * bmp_bytes_per_pixel l.

Definition decode_pixel (bs : bytes) (source : N) : option N :=
  blue ← byte_at bs source;
  green ← byte_at bs (source + 1);
  red ← byte_at bs (source + 2);
  Some (rgb red green blue).

Definition range (n : N) : list N := N.of_nat <$> seq 0 (N.to_nat n).

(** The two loops over the pixels; [None] where an index is out of range. *)
Definition decode_pixels (bs : bytes) (l : BmpLayout) : option (list N) :=
  @concat N <$> mapM (λ y, mapM (λ x, decode_pixel bs (pixel_source l x y)) (range (bmp_width l))) (range (bmp_height l)).

Definition decode_bmp (bs : bytes) : option (result MapRaster BmpDecodeError) :=
  match bmp_layout bs with
  | Err e => Some (Err e)
  | Ok l =>
      pixels ← decode_pixels bs l;
      Some (map_err BmpRaster (raster_new (bmp_width l) (bmp_height l) pixels))
  end.

(** The file: its length by the metadata, and what is read of it, each of which may fail. *)
Definition load_bmp_file (file : option (option N * option bytes)) : option (result MapRaster MapFileError) :=
  match file with
  | None => Some (Err MapIo)
  | Some (None, _) => Some (Err MapIo)
  | Some (Some length, contents) =>
      if MAX_PREVIEW_BMP_FILE_BYTES <? length then Some (Err FileTooLarge)
      else
        match contents with
        | None => Some (Err MapIo)
        | Some contents =>
            let bs := take (N.to_nat (MAX_PREVIEW_BMP_FILE_BYTES + 1)) contents in
            if MAX_PREVIEW_BMP_FILE_BYTES <? len bs then Some (Err FileTooLarge)
            else map_err Decode <$> decode_bmp bs
        end
  end.

(** ** Samples of a raster *)

Definition picture_at (width : N) (pixels : list N) (x y : N) : option N := pixels !! N.to_nat (y * width + x).

Definition raster_pixel (self : MapRaster) (x y : N) : option N :=
  if (raster_width self <=? x) || (raster_height self <=? y) then None
  else picture_at (raster_width self) (raster_pixels self) x y.

Definition channel (pixel shift : N) : N := N.land (N.shiftr pixel shift) 0xff.
Definition channel_f64 (pixel shift : N) : f64 := f64_of_N (channel pixel shift).

Definition packed_channel (top_left top_right bottom_left bottom_right : N) (x_weight y_weight : f64) (shift : N) : N :=
  let c pixel := channel_f64 pixel shift in
  let top := add64 (c top_left) (mul64 (sub64 (c top_right) (c top_left)) x_weight) in
  let bottom := add64 (c bottom_left) (mul64 (sub64 (c bottom_right) (c bottom_left)) x_weight) in
  N.min (as_u32 (fround (add64 top (mul64 (sub64 bottom top) y_weight)))) 0xff.

Definition interpolate_packed (top_left top_right bottom_left bottom_right : N) (x_weight y_weight : f64) : N :=
  fold_left (λ packed shift,
    N.lor packed (N.shiftl (packed_channel top_left top_right bottom_left bottom_right x_weight y_weight shift) shift))
    [24; 16; 8; 0] 0.

(** The four samples around a point that is inside the picture, and the weights. *)
Definition corners (width height : N) (pixel : N → N → option N) (x y : f64) :
    option (N * N * N * N * f64 * f64) :=
  let x0 := as_u32 (ffloor x) in
  let y0 := as_u32 (ffloor y) in
  let x1 := N.min (x0 + 1) (width - 1) in
  let y1 := N.min (y0 + 1) (height - 1) in
  top_left ← pixel x0 y0;
  top_right ← pixel x1 y0;
  bottom_left ← pixel x0 y1;
  bottom_right ← pixel x1 y1;
  Some (top_left, top_right, bottom_left, bottom_right, sub64 x (f64_of_N x0), sub64 y (f64_of_N y0)).

(** The outer [None] is the panic of an access outside the raster. *)
Definition sample_bilinear (map : MapRaster) (x y : f64) : option (option N) :=
  if negb (is_finite x) || negb (is_finite y) then Some None
  else
    let low := fneg f64_half in
    if flt x low || flt y low || flt (sub64 (f64_of_N (raster_width map)) f64_half) x
       || flt (sub64 (f64_of_N (raster_height map)) f64_half) y
    then Some None
    else
      let x := fclamp x f64_zero (f64_of_N (raster_width map - 1)) in
      let y := fclamp y f64_zero (f64_of_N (raster_height map - 1)) in
      '(tl, tr, bl, br, x_weight, y_weight) ← corners (raster_width map) (raster_height map) (raster_pixel map) x y;
      Some (Some (interpolate_packed tl tr bl br x_weight y_weight)).

(** ** Icons *)

Record IconVisibleBounds := mkIconBounds { ib_left : N; ib_top : N; ib_right : N; ib_bottom : N }.

Record MapPoiIcon := mkIcon {
  icon_width : N;
  icon_height : N;
  icon_pixels : list N;
  visible_bounds : IconVisibleBounds;
}.

Definition from_argb_pixels (width height : N) (pixels : list N) : IconVisibleBounds :=
  let '(b, found) :=
    fold_left (λ '(b, found) '(index, pixel),
      if N.shiftr pixel 24 =? 0 then (b, found)
      else
        let x := index mod width in
        let y := index / width in
        (mkIconBounds (N.min (ib_left b) x) (N.min (ib_top b) y) (N.max (ib_right b) x) (N.max (ib_bottom b) y), true))
      (imap (λ index pixel, (N.of_nat index, pixel)) pixels) (mkIconBounds width height 0 0, false) in
  if found then b else mkIconBounds 0 0 (saturating_sub width 1) (saturating_sub height 1).

Definition ib_width (self : IconVisibleBounds) : N := ib_right self - ib_left self + 1.
Definition ib_height (self : IconVisibleBounds) : N := ib_bottom self - ib_top self + 1.

(** A picture decoded by the image library: its size and the bytes of each pixel. *)
Record RgbaImage := mkRgba { rgba_width : N; rgba_height : N; rgba_pixels : list (N * N * N * N) }.

Definition decode_with_format (image : option RgbaImage) : option MapPoiIcon :=
  image ← image;
  let width := rgba_width image in
  let height := rgba_height image in
  if (width =? 0) || (height =? 0) || (MAX_POI_ICON_SIDE <? width) || (MAX_POI_ICON_SIDE <? height) then None
  else
    let pixels := (λ '(r, g, b, a),
      N.lor (N.lor (N.lor (N.shiftl a 24) (N.shiftl r 16)) (N.shiftl g 8)) b) <$> rgba_pixels image in
    Some (mkIcon width height pixels (from_argb_pixels width height pixels)).

Definition sum64 (xs : list f64) : f64 := fold_left add64 xs (S754_zero true).

Definition interpolate_argb_premultiplied (top_left top_right bottom_left bottom_right : N)
    (x_weight y_weight : f64) : N :=
  let one := f64_one in
  let n255 := f64_of_N 255 in
  let samples :=
    [(top_left, mul64 (sub64 one x_weight) (sub64 one y_weight));
     (top_right, mul64 x_weight (sub64 one y_weight));
     (bottom_left, mul64 (sub64 one x_weight) y_weight);
     (bottom_right, mul64 x_weight y_weight)] in
  let alpha := sum64 ((λ '(pixel, weight), mul64 (channel_f64 pixel 24) weight) <$> samples) in
  if fle alpha f64_epsilon then 0
  else
    let blended shift :=
      let premultiplied := sum64 ((λ '(pixel, weight),
        mul64 (mul64 (channel_f64 pixel shift) (div64 (channel_f64 pixel 24) n255)) weight) <$> samples) in
      as_u32 (fclamp (fround (div64 (mul64 premultiplied n255) alpha)) f64_zero n255) in
    N.lor (N.lor (N.lor (N.shiftl (as_u32 (fclamp (fround alpha) f64_zero n255)) 24)
      (N.shiftl (blended 16) 16)) (N.shiftl (blended 8) 8)) (blended 0).

(** [None] is the panic of an access outside the icon. *)
Definition sample_argb_bilinear (width height : N) (pixels : list N) (x y : f64) : option N :=
  let x := fclamp x f64_zero (f64_of_N (width - 1)) in
  let y := fclamp y f64_zero (f64_of_N (height - 1)) in
  '(tl, tr, bl, br, x_weight, y_weight) ← corners width height (picture_at width pixels) x y;
  Some (interpolate_argb_premultiplied tl tr bl br x_weight y_weight).

Definition sample_scaled_visible_fit (self : MapPoiIcon) (x y target_side : N) : option N :=
  let target_side := N.max target_side 1 in
  let source_width := ib_width (visible_bounds self) in
  let source_height := ib_height (visible_bounds self) in
  let fit_scale := fmin (div64 (f64_of_N target_side) (f64_of_N source_width))
                        (div64 (f64_of_N target_side) (f64_of_N source_height)) in
  let fitted size := as_u32 (fclamp (fround (mul64 (f64_of_N size) fit_scale)) f64_one (f64_of_N target_side)) in
  let fitted_width := fitted source_width in
  let fitted_height := fitted source_height in
  let offset_x := (target_side - fitted_width) / 2 in
  let offset_y := (target_side - fitted_height) / 2 in
  if (x <? offset_x) || (y <? offset_y) || (offset_x + fitted_width <=? x) || (offset_y + fitted_height <=? y)
  then Some 0
  else
    let source start offset place source_size fitted_size :=
      sub64 (add64 (f64_of_N start)
               (div64 (mul64 (add64 (f64_of_N (place - offset)) f64_half) (f64_of_N source_size))
                  (f64_of_N fitted_size))) f64_half in
    sample_argb_bilinear (icon_width self) (icon_height self) (icon_pixels self)
      (source (ib_left (visible_bounds self)) offset_x x source_width fitted_width)
      (source (ib_top (visible_bounds self)) offset_y y source_height fitted_height).

(** ** Pictures *)

Record raster_ok (r : MapRaster) : Prop := {
  ra_width : 1 ≤ raster_width r ≤ MAX_MAP_SIDE;
  ra_height : 1 ≤ raster_height r ≤ MAX_MAP_SIDE;
  ra_pixels : len (raster_pixels r) = raster_width r * raster_height r;
}.

Lemma picture_place w h x y : x < w → y < h → y * w + x < w * h.
Proof. intros. assert (y + 1 ≤ h) by lia. nia. Qed.

Lemma picture_at_some w h pixels x y :
  len pixels = w * h → x < w → y < h → ∃ p, picture_at w pixels x y = Some p ∧ p ∈ pixels.
Proof.
  intros Hl Hx Hy. unfold picture_at. destruct (lookup_lt_is_Some_2 pixels (N.to_nat (y * w + x))) as [p Hp].
  { pose proof (picture_place w h x y Hx Hy). unfold len in Hl. lia. }
  exists p. split; [done|]. by eapply list_elem_of_lookup_2.
Qed.

Lemma raster_pixel_some r x y :
  raster_ok r → x < raster_width r → y < raster_height r → ∃ p, raster_pixel r x y = Some p ∧ p ∈ raster_pixels r.
Proof.
  intros [_ _ Hp] Hx Hy. unfold raster_pixel.
  destruct (N.leb_spec (raster_width r) x); [lia|]. destruct (N.leb_spec (raster_height r) y); [lia|].
  by apply (picture_at_some _ (raster_height r)).
Qed.







(** ** The decoder *)










(** ** Samples *)

Definition weight_ok (w : f64) : Prop := data w ∧ (0 ≤ val w ≤ unit_val)%Z.

(** The place and the weight of a coordinate inside [n] pixels. *)
Lemma place_spec n x :
  1 ≤ n ≤ MAX_MAP_SIDE → data x → (0 ≤ val x ≤ (Z.of_N n - 1) * unit_val)%Z →
  let x0 := as_u32 (ffloor x) in
  x0 < n ∧ weight_ok (sub64 x (f64_of_N x0)) ∧
  (∀ k, val x = (Z.of_N k * unit_val)%Z → x0 = k ∧ val (sub64 x (f64_of_N x0)) = 0%Z).
Proof.
  intros Hn Hx Hv x0. unfold MAX_MAP_SIDE in Hn. pose proof unit_val_pos as HU.
  assert (x0 = Z.to_N (val x / unit_val)) as Hx0.
  { unfold x0. rewrite as_u32_ffloor by (done || lia).
    assert (val x / unit_val <= 4095)%Z by (apply Z.div_le_upper_bound; first [lia|nia]). unfold u32_max. lia. }
  assert (0 <= val x / unit_val)%Z as Hq by (apply Z.div_pos; lia).
  assert (val x / unit_val < Z.of_N n)%Z as Hqn by (apply Z.div_lt_upper_bound; lia).
  destruct (f64_of_N_data x0) as [Hd0 Hv0]; [lia|].
  pose proof (fsub_rounded x (f64_of_N x0) Hx Hd0) as Hr. rewrite Hv0 in Hr.
  assert (Z.of_N x0 = val x / unit_val)%Z as Hz by lia.
  pose proof (Z.div_mod (val x) unit_val ltac:(lia)) as Hdm.
  pose proof (Z.mod_pos_bound (val x) unit_val HU) as Hmod.
  split_and!; [lia| |].
  - unfold weight_ok. apply (rounded_data _ _ _ 0 unit_val Hr representable_0).
    + rewrite <- (Z.mul_1_l unit_val). apply representable_units. done.
    + rewrite Hz. lia.
  - intros k Hk. assert (Z.of_N x0 = Z.of_N k) as Hkk by (rewrite Hz, Hk; apply Z.div_mul; lia).
    split; [lia|]. destruct (rounded_units _ 0 _ Hr) as [_ ->]; [rewrite Hkk, Hk; lia|done|done].
Qed.

(** The four samples come from the picture. *)
Lemma corners_spec w h pixel x y :
  1 ≤ w ≤ MAX_MAP_SIDE → 1 ≤ h ≤ MAX_MAP_SIDE →
  (∀ i j, i < w → j < h → is_Some (pixel i j)) →
  data x → (0 ≤ val x ≤ (Z.of_N w - 1) * unit_val)%Z → data y → (0 ≤ val y ≤ (Z.of_N h - 1) * unit_val)%Z →
  ∃ tl tr bl br xw yw, corners w h pixel x y = Some (tl, tr, bl, br, xw, yw) ∧ weight_ok xw ∧ weight_ok yw ∧
    (∀ p, p ∈ [tl; tr; bl; br] → ∃ i j, i < w ∧ j < h ∧ pixel i j = Some p) ∧
    (∀ i j, val x = (Z.of_N i * unit_val)%Z → val y = (Z.of_N j * unit_val)%Z →
      pixel i j = Some tl ∧ val xw = 0%Z ∧ val yw = 0%Z).
Proof.
  intros Hw Hh Hp Hx Hvx Hy Hvy.
  destruct (place_spec w x Hw Hx Hvx) as (Hx0 & Hxw & Hxe). destruct (place_spec h y Hh Hy Hvy) as (Hy0 & Hyw & Hye).
  unfold corners. cbv zeta in *. set (x0 := as_u32 (ffloor x)) in *. set (y0 := as_u32 (ffloor y)) in *.
  assert (N.min (x0 + 1) (w - 1) < w) as Hx1 by lia. assert (N.min (y0 + 1) (h - 1) < h) as Hy1 by lia.
  set (x1 := N.min (x0 + 1) (w - 1)) in *. set (y1 := N.min (y0 + 1) (h - 1)) in *.
  destruct (Hp x0 y0) as [tl Htl]; [done..|]. destruct (Hp x1 y0) as [tr Htr]; [done..|].
  destruct (Hp x0 y1) as [bl Hbl]; [done..|]. destruct (Hp x1 y1) as [br Hbr]; [done..|].
  rewrite Htl, Htr, Hbl, Hbr. cbn [mbind option_bind].
  eexists _, _, _, _, _, _. split; [done|]. split; [done|]. split; [done|]. split.
  - intros p Hin. repeat (apply elem_of_cons in Hin as [->|Hin]; [by eauto 6|]). by apply elem_of_nil in Hin.
  - intros i j Hi Hj. destruct (Hxe i Hi) as [<- ->]. destruct (Hye j Hj) as [<- ->]. done.
Qed.

Lemma channel_le p s : channel p s ≤ 255.
Proof.
  unfold channel. change (N.land (N.shiftr p s) (N.ones 8) ≤ 255). rewrite N.land_ones. change (2 ^ 8) with 256.
  pose proof (N.mod_lt (N.shiftr p s) 256 ltac:(done)). lia.
Qed.

Lemma channel_data p s : data (channel_f64 p s) ∧ val (channel_f64 p s) = (Z.of_N (channel p s) * unit_val)%Z.
Proof. pose proof (channel_le p s). unfold channel_f64. apply f64_of_N_data. lia. Qed.

Lemma zero_weight a d w :
  data a → data d → weight_ok w → val w = 0%Z →
  data (add64 a (mul64 d w)) ∧ val (add64 a (mul64 d w)) = val a.
Proof.
  intros Ha Hd [Hw _] H0. pose proof (fmul_rounded d w Hd Hw) as Hr. rewrite H0, Z.mul_0_r in Hr.
  destruct (rounded_data _ _ _ 0 0 Hr representable_0 representable_0) as [Hp Hpv]; [lia|].
  pose proof (fadd_rounded a _ Ha Hp) as Hs. replace (val (mul64 d w)) with 0%Z in Hs by lia.
  pose proof (representable_val a Ha) as Ra.
  destruct (rounded_data _ _ _ _ _ Hs Ra Ra) as [? ?]; [lia|]. split; [done|lia].
Qed.

(** A weighted step from one whole number towards another stays between them. *)
Lemma whole_step a b w i j :
  data a → data b → weight_ok w → val a = (Z.of_N i * unit_val)%Z → val b = (Z.of_N j * unit_val)%Z →
  i ≤ 255 → j ≤ 255 →
  data (add64 a (mul64 (sub64 b a) w)) ∧
  (Z.min (val a) (val b) ≤ val (add64 a (mul64 (sub64 b a) w)) ≤ Z.max (val a) (val b))%Z.
Proof.
  intros Ha Hb [Hw Hwv] Hva Hvb Hi Hj.
  pose proof (fsub_rounded b a Hb Ha) as Hd.
  destruct (rounded_units _ (Z.of_N j - Z.of_N i) _ Hd) as [Hdd Hdv]; [lia|lia|].
  destruct (fmul_shrink _ _ Hdd Hw Hwv) as [Hp Ht]. pose proof (fadd_rounded a _ Ha Hp) as Hs.
  apply (rounded_data _ _ _ _ _ Hs).
  - destruct (Z.min_spec (val a) (val b)) as [[_ ->]|[_ ->]]; by apply representable_val.
  - destruct (Z.max_spec (val a) (val b)) as [[_ ->]|[_ ->]]; by apply representable_val.
  - rewrite Hdv in Ht. unfold towards in Ht. lia.
Qed.

(** In general the roundings may leave the interval, by far less than half a unit. *)
Lemma near_step a b w :
  data a → data b → weight_ok w → (0 ≤ val a ≤ 255 * unit_val)%Z → (0 ≤ val b ≤ 255 * unit_val)%Z →
  data (add64 a (mul64 (sub64 b a) w)) ∧
  (4 * Z.min (val a) (val b) ≤ 4 * val (add64 a (mul64 (sub64 b a) w)) + unit_val)%Z ∧
  (4 * val (add64 a (mul64 (sub64 b a) w)) ≤ 4 * Z.max (val a) (val b) + unit_val)%Z.
Proof.
  intros Ha Hb [Hw Hwv] Hva Hvb. pose proof unit_val_pos as HU.
  pose proof (representable_units (-512) ltac:(done)) as Rlo. pose proof (representable_units 512 ltac:(done)) as Rhi.
  pose proof (fsub_rounded b a Hb Ha) as Hd.
  destruct (rounded_data _ _ _ _ _ Hd Rlo Rhi) as [Hdd Hdv]; [lia|].
  assert (2 ^ 53 * Z.abs (val (sub64 b a) - (val b - val a)) <= Z.abs (val b - val a))%Z as Hnear.
  { rewrite fsub_fadd. pose proof (fadd_near b (fneg a) Hb (data_fneg a Ha)) as Hn. rewrite val_fneg in Hn.
    replace (val b + - val a)%Z with (val b - val a)%Z in Hn by lia. apply Hn. rewrite <- fsub_fadd. apply Hdd. }
  destruct (fmul_shrink _ _ Hdd Hw Hwv) as [Hp Ht]. set (d := sub64 b a) in *. set (p := mul64 d w) in *.
  pose proof (fadd_rounded a p Ha Hp) as Hs. unfold towards in Ht.
  pose proof (representable_units (-1024) ltac:(done)) as Rlo'. pose proof (representable_units 1024 ltac:(done)) as Rhi'.
  destruct (rounded_data _ _ _ _ _ Hs Rlo' Rhi') as [Hsd Hsv]; [lia|]. split; [done|].
  pose proof (fadd_near a p Ha Hp (proj2 Hsd)) as Hns. clear Hs Hd Rlo Rhi Rlo' Rhi'.
  set (U := unit_val) in *. clearbody U. clearbody d p.
  change (2 ^ 53)%Z with 9007199254740992%Z in *. lia.
Qed.

Lemma as_u32_fround_neg x : data x → (val x ≤ 0)%Z → as_u32 (fround x) = 0.
Proof.
  intros [Ho Hf] Hv. destruct x as [[]|s| |[] m e]; try done.
  - cbn [fround cond_Zopp]. destruct (Z.leb_spec 0 e) as [|He]; [done|].
    set (q := Z.div _ _). assert (0 <= q)%Z by (apply Z.div_pos; [|apply Z.pow_pos_nonneg]; lia).
    destruct (Z.eqb_spec q 0) as [|Hq]; [done|]. destruct q as [|q|q]; [done| |lia].
    change (as_u32 (binary_round prec64 emax64 true q 0) = 0).
    destruct (binary_round_rounds true q 0 ltac:(lia)) as (R & f & -> & _). unfold pack. by repeat step_if.
  - exfalso. apply f64_ok_finite in Ho as (He & _). pose proof (weight_pos e ltac:(lia)). cbn [val cond_Zopp] in Hv. nia.
Qed.

(** Rounding a value near an interval of whole numbers gives a number of the interval. *)
Lemma round_within x lo hi :
  data x → lo ≤ hi → hi ≤ 255 →
  (4 * (Z.of_N lo * unit_val) ≤ 4 * val x + unit_val)%Z → (4 * val x ≤ 4 * (Z.of_N hi * unit_val) + unit_val)%Z →
  lo ≤ as_u32 (fround x) ≤ hi.
Proof.
  intros Hx Hle Hhi Hl Hh. pose proof unit_val_pos as HU. destruct (Z.le_gt_cases 0 (val x)) as [Hv|Hv].
  - rewrite as_u32_fround by done. set (q := ((2 * val x + unit_val) / (2 * unit_val))%Z).
    assert (Z.of_N lo <= q)%Z by (apply Z.div_le_lower_bound; lia).
    assert (q < Z.of_N hi + 1)%Z by (apply Z.div_lt_upper_bound; lia). unfold u32_max. lia.
  - rewrite as_u32_fround_neg by (done || lia). assert (Z.of_N lo * unit_val < unit_val)%Z by lia.
    assert (lo = 0); [|lia]. destruct (decide (lo = 0)); [done|]. nia.
Qed.

Lemma packed_channel_within tl tr bl br xw yw s lo hi :
  weight_ok xw → weight_ok yw → (∀ p, p ∈ [tl; tr; bl; br] → lo ≤ channel p s ≤ hi) → hi ≤ 255 →
  lo ≤ packed_channel tl tr bl br xw yw s ≤ hi.
Proof.
  intros Hxw Hyw Hp Hhi. unfold packed_channel.
  assert (∀ p q, p ∈ [tl; tr; bl; br] → q ∈ [tl; tr; bl; br] →
    let t := add64 (channel_f64 p s) (mul64 (sub64 (channel_f64 q s) (channel_f64 p s)) xw) in
    data t ∧ (Z.of_N lo * unit_val ≤ val t ≤ Z.of_N hi * unit_val)%Z) as Hrow.
  { intros p q Hp1 Hq1. destruct (channel_data p s) as [Dp Vp]. destruct (channel_data q s) as [Dq Vq].
    pose proof (channel_le p s). pose proof (channel_le q s). pose proof (Hp p Hp1). pose proof (Hp q Hq1).
    destruct (whole_step _ _ _ _ _ Dp Dq Hxw Vp Vq) as [Dt Vt]; [done..|]. split; [done|].
    rewrite Vp, Vq in Vt. pose proof unit_val_pos. nia. }
  destruct (Hrow tl tr) as [Dt Vt]; [by repeat constructor..|].
  destruct (Hrow bl br) as [Db Vb]; [by repeat constructor..|].
  set (top := add64 (channel_f64 tl s) _) in *. set (bottom := add64 (channel_f64 bl s) _) in *. clearbody top bottom.
  pose proof (Hp tl ltac:(by repeat constructor)) as Htl. pose proof unit_val_pos as HU.
  destruct (near_step top bottom yw Dt Db Hyw) as (Ds & Hl & Hh); [nia|nia|].
  pose proof (round_within _ lo hi Ds ltac:(lia) Hhi ltac:(lia) ltac:(lia)). lia.
Qed.

Lemma packed_channel_exact tl tr bl br xw yw s :
  weight_ok xw → weight_ok yw → val xw = 0%Z → val yw = 0%Z → packed_channel tl tr bl br xw yw s = channel tl s.
Proof.
  intros Hxw Hyw Hx0 Hy0. unfold packed_channel.
  assert (∀ p q, data (sub64 (channel_f64 q s) (channel_f64 p s))) as Hsub.
  { intros p q. destruct (channel_data p s) as [Dp Vp]. destruct (channel_data q s) as [Dq Vq].
    pose proof (fsub_rounded _ _ Dq Dp) as Hd. rewrite Vp, Vq in Hd.
    pose proof (channel_le p s). pose proof (channel_le q s).
    apply (rounded_units _ (Z.of_N (channel q s) - Z.of_N (channel p s)) _ Hd); lia. }
  destruct (channel_data tl s) as [Dtl Vtl]. destruct (channel_data bl s) as [Dbl Vbl].
  destruct (zero_weight _ _ _ Dtl (Hsub tl tr) Hxw Hx0) as [Dt Vt].
  destruct (zero_weight _ _ _ Dbl (Hsub bl br) Hxw Hx0) as [Db Vb].
  set (top := add64 (channel_f64 tl s) _) in *. set (bottom := add64 (channel_f64 bl s) _) in *. clearbody top bottom.
  pose proof (channel_le tl s). pose proof (channel_le bl s). pose proof unit_val_pos as HU.
  assert (data (sub64 bottom top)) as Hd.
  { pose proof (fsub_rounded _ _ Db Dt) as Hr. rewrite Vt, Vb, Vtl, Vbl in Hr.
    apply (rounded_units _ (Z.of_N (channel bl s) - Z.of_N (channel tl s)) _ Hr); lia. }
  destruct (zero_weight _ _ _ Dt Hd Hyw Hy0) as [Ds Vs]. rewrite Vt, Vtl in Vs.
  pose proof (round_within _ (channel tl s) (channel tl s) Ds ltac:(lia) ltac:(lia) ltac:(lia) ltac:(lia)). lia.
Qed.

Lemma packed_channel_le tl tr bl br xw yw s : packed_channel tl tr bl br xw yw s ≤ 255.
Proof. unfold packed_channel. lia. Qed.

(** The four bytes of a packed number. *)
Lemma packed_bytes a b c d :
  a ≤ 255 → b ≤ 255 → c ≤ 255 → d ≤ 255 →
  let p := N.lor (N.lor (N.lor (N.lor 0 (N.shiftl a 24)) (N.shiftl b 16)) (N.shiftl c 8)) (N.shiftl d 0) in
  p = a * 16777216 + b * 65536 + c * 256 + d ∧
  channel p 24 = a ∧ channel p 16 = b ∧ channel p 8 = c ∧ channel p 0 = d.
Proof.
  intros Ha Hb Hc Hd p.
  assert (p = a * 16777216 + b * 65536 + c * 256 + d) as Hp.
  { unfold p. rewrite N.lor_0_l, N.shiftl_0_r.
    assert (N.shiftl b 16 < 2 ^ 24) as Hb'.
    { rewrite N.shiftl_mul_pow2. change (2 ^ 16) with 65536. change (2 ^ 24) with 16777216. lia. }
    assert (N.shiftl c 8 < 2 ^ 16) as Hc'.
    { rewrite N.shiftl_mul_pow2. change (2 ^ 8) with 256. change (2 ^ 16) with 65536. lia. }
    rewrite (lor_shiftl_low _ a 24) by done. rewrite N.shiftl_mul_pow2.
    change (2 ^ 16) with 65536. change (2 ^ 24) with 16777216.
    replace (a * 16777216 + b * 65536) with ((a * 256 + b) * 2 ^ 16) by (change (2 ^ 16) with 65536; lia).
    rewrite <- N.shiftl_mul_pow2, lor_shiftl_low by done. rewrite N.shiftl_mul_pow2.
    change (2 ^ 16) with 65536. change (2 ^ 8) with 256.
    replace ((a * 256 + b) * 65536 + c * 256) with ((a * 65536 + b * 256 + c) * 2 ^ 8) by (change (2 ^ 8) with 256; lia).
    rewrite <- N.shiftl_mul_pow2, lor_shiftl_low by (change (2 ^ 8) with 256; lia).
    rewrite !N.shiftl_mul_pow2. change (2 ^ 8) with 256. change (2 ^ 16) with 65536. lia. }
  split; [exact Hp|]. clearbody p. subst p. unfold channel. change 0xff with (N.ones 8).
  rewrite !N.land_ones, !N.shiftr_div_pow2. change (2 ^ 8) with 256. change (2 ^ 16) with 65536.
  change (2 ^ 24) with 16777216. change (2 ^ 0) with 1.
  assert (∀ n q r k, n = k * q + r → r < k → (n / k) mod 256 = q mod 256) as Hdm.
  { intros n q r k -> Hr. f_equal. symmetry. by apply (N.div_unique _ _ _ r). }
  split_and!.
  - rewrite (Hdm _ a (b * 65536 + c * 256 + d)) by lia. apply N.mod_small. lia.
  - rewrite (Hdm _ (a * 256 + b) (c * 256 + d)) by lia. symmetry. apply (N.mod_unique _ _ a); lia.
  - rewrite (Hdm _ (a * 65536 + b * 256 + c) d) by lia. symmetry. apply (N.mod_unique _ _ (a * 256 + b)); lia.
  - rewrite N.div_1_r. symmetry. apply (N.mod_unique _ _ (a * 65536 + b * 256 + c)); lia.
Qed.

Definition channel_shifts : list N := [24; 16; 8; 0].

Lemma interpolate_channels tl tr bl br xw yw s :
  s ∈ channel_shifts →
  channel (interpolate_packed tl tr bl br xw yw) s = packed_channel tl tr bl br xw yw s.
Proof.
  intros Hs. unfold interpolate_packed. cbn [fold_left].
  destruct (packed_bytes (packed_channel tl tr bl br xw yw 24) (packed_channel tl tr bl br xw yw 16)
    (packed_channel tl tr bl br xw yw 8) (packed_channel tl tr bl br xw yw 0)) as (_ & H24 & H16 & H8 & H0);
    [apply packed_channel_le..|].
  unfold channel_shifts in Hs. repeat (apply elem_of_cons in Hs as [->|Hs]; [done|]). by apply elem_of_nil in Hs.
Qed.

Lemma half_val : data f64_half ∧ (2 * val f64_half = unit_val)%Z.
Proof. split; [by vm_compute|by vm_compute]. Qed.

(** A coordinate that is not refused, clamped to the pixels. *)
Lemma clamped_place x n :
  1 ≤ n ≤ MAX_MAP_SIDE → data x →
  let c := fclamp x f64_zero (f64_of_N (n - 1)) in
  data c ∧ (0 ≤ val c ≤ (Z.of_N n - 1) * unit_val)%Z ∧
  (∀ i, i < n → val x = (Z.of_N i * unit_val)%Z → val c = val x).
Proof.
  intros Hn Hx c. unfold MAX_MAP_SIDE in Hn. destruct (f64_of_N_data (n - 1)) as [Dn Vn]; [lia|].
  pose proof unit_val_pos as HU. assert (val f64_zero = 0%Z) as V0 by done.
  replace (Z.of_N (n - 1)) with (Z.of_N n - 1)%Z in Vn by lia.
  destruct (val_fclamp x f64_zero (f64_of_N (n - 1)) Hx zero_data Dn) as [Dc Vc]; [nia|]. fold c in Dc, Vc.
  rewrite V0, Vn in Vc. split; [done|]. split; [nia|]. intros i Hi Hv. rewrite Vc, Hv. nia.
Qed.

Lemma sample_argb_some w h pixels x y :
  1 ≤ w ≤ MAX_MAP_SIDE → 1 ≤ h ≤ MAX_MAP_SIDE → len pixels = w * h → data x → data y →
  is_Some (sample_argb_bilinear w h pixels x y).
Proof.
  intros Hw Hh Hl Hx Hy. unfold sample_argb_bilinear.
  destruct (clamped_place x w Hw Hx) as (Dx & Vx & _). destruct (clamped_place y h Hh Hy) as (Dy & Vy & _).
  assert (∀ i j, i < w → j < h → is_Some (picture_at w pixels i j)) as Hp.
  { intros i j Hi Hj. destruct (picture_at_some w h pixels i j Hl Hi Hj) as (p & -> & _). by eexists. }
  destruct (corners_spec w h _ _ _ Hw Hh Hp Dx Vx Dy Vy) as (tl & tr & bl & br & xw & yw & -> & _). by eexists.
Qed.

(** ** Icons *)

Record bounds_ok (w h : N) (b : IconVisibleBounds) : Prop := {
  bo_x : ib_left b ≤ ib_right b < w;
  bo_y : ib_top b ≤ ib_bottom b < h;
}.

Record icon_ok (i : MapPoiIcon) : Prop := {
  io_width : 1 ≤ icon_width i ≤ MAX_POI_ICON_SIDE;
  io_height : 1 ≤ icon_height i ≤ MAX_POI_ICON_SIDE;
  io_pixels : len (icon_pixels i) = icon_width i * icon_height i;
  io_bounds : bounds_ok (icon_width i) (icon_height i) (visible_bounds i);
}.

Lemma from_argb_pixels_ok w h pixels :
  1 ≤ w → 1 ≤ h → len pixels = w * h → bounds_ok w h (from_argb_pixels w h pixels).
Proof.
  intros Hw Hh Hl. unfold from_argb_pixels. set (step := λ '(b, found) '(index, pixel), _).
  set (inside (s : IconVisibleBounds * bool) := let '(b, found) := s in
    ib_right b < w ∧ ib_bottom b < h ∧ (found = true → ib_left b ≤ ib_right b ∧ ib_top b ≤ ib_bottom b)).
  assert (∀ l s, (∀ i p, (i, p) ∈ l → i < w * h) → inside s → inside (fold_left step l s)) as Hfold.
  { induction l as [|[i p] l IH]; intros [b found] Hi Hs; [done|]. cbn [fold_left]. apply IH.
    { intros i' p' Hin. by apply (Hi i' p'), elem_of_cons; right. }
    unfold step. destruct (N.shiftr p 24 =? 0); [done|]. cbn in Hs |- *.
    assert (i < w * h) as Hiw by (by apply (Hi i p), elem_of_cons; left).
    pose proof (N.mod_lt i w ltac:(lia)). assert (i / w < h) by (apply N.Div0.div_lt_upper_bound; lia). lia. }
  assert (inside (fold_left step (imap (λ index pixel, (N.of_nat index, pixel)) pixels) (mkIconBounds w h 0 0, false)))
    as Hend.
  { apply Hfold; [|cbn; lia]. intros i p Hin. apply elem_of_lookup_imap in Hin as (j & x & [= -> ->] & Hj).
    apply lookup_lt_Some in Hj. unfold len in Hl. lia. }
  destruct (fold_left step _ _) as [b found]. destruct found; cbn in Hend.
  - destruct Hend as (H1 & H2 & H3). specialize (H3 eq_refl). split; lia.
  - unfold saturating_sub. split; cbn; lia.
Qed.

Lemma decode_with_format_ok image i :
  (∀ im, image = Some im → len (rgba_pixels im) = rgba_width im * rgba_height im) →
  decode_with_format image = Some i → icon_ok i.
Proof.
  intros Hlen Hi. unfold decode_with_format in Hi. destruct image as [im|]; [|done]. cbn [mbind option_bind] in Hi.
  destruct (N.eqb_spec (rgba_width im) 0), (N.eqb_spec (rgba_height im) 0),
    (N.ltb_spec MAX_POI_ICON_SIDE (rgba_width im)), (N.ltb_spec MAX_POI_ICON_SIDE (rgba_height im)); try done.
  cbn [orb] in Hi. injection Hi as <-. specialize (Hlen im eq_refl).
  assert (∀ f : N * N * N * N → N, len (f <$> rgba_pixels im) = rgba_width im * rgba_height im) as Hmap
    by (intros f; unfold len in *; by rewrite length_fmap).
  split; cbn [icon_width icon_height icon_pixels visible_bounds]; [lia|lia|apply Hmap|].
  apply from_argb_pixels_ok; [lia|lia|apply Hmap].
Qed.

Lemma fitted_bounds s t x :
  1 ≤ t < 2 ^ 32 → is_nan x = false → f64_ok x = true →
  1 ≤ as_u32 (fclamp (fround (mul64 (f64_of_N s) x)) f64_one (f64_of_N t)) ≤ t ∨ is_nan (mul64 (f64_of_N s) x) = true.
Proof.
  intros Ht Hn Ho. destruct (is_nan (mul64 (f64_of_N s) x)) eqn:Hm; [by right|left].
  assert (f64_ok (mul64 (f64_of_N s) x) = true) as Hok by (apply fmul_ok; [apply f64_of_N_ok|done]).
  change (2 ^ 32) with 4294967296 in Ht.
  destruct (of_N_between t) as [Dt Vt]; [change (2 ^ 53) with 9007199254740992; lia|].
  destruct one_val as [D1 V1]. pose proof unit_val_pos.
  destruct (fclamp_between (fround (mul64 (f64_of_N s) x)) f64_one (f64_of_N t)) as [Dc Vc];
    [by apply fround_not_nan|by apply fround_ok|done|done|nia|].
  set (c := fclamp _ _ _) in *. clearbody c. rewrite as_u32_value by (done || lia).
  assert (1 <= val c / unit_val)%Z by (apply Z.div_le_lower_bound; lia).
  assert (val c / unit_val <= Z.of_N t)%Z by (apply Z.div_le_upper_bound; lia). unfold u32_max. lia.
Qed.

(** A sample of an icon scaled to any side never reads outside the icon. *)
Lemma sample_icon_some icon x y side :
  icon_ok icon → side < 2 ^ 32 → is_Some (sample_scaled_visible_fit icon x y side).
Proof.
  intros [Hw Hh Hl [Hbx Hby]] Hside. unfold MAX_POI_ICON_SIDE in Hw, Hh. unfold sample_scaled_visible_fit.
  set (t := N.max side 1). set (b := visible_bounds icon) in *.
  assert (1 ≤ ib_width b ≤ 512) as Hsw by (unfold ib_width; lia).
  assert (1 ≤ ib_height b ≤ 512) as Hsh by (unfold ib_height; lia).
  set (sw := ib_width b) in *. set (sh := ib_height b) in *. clearbody sw sh.
  change (2 ^ 32) with 4294967296 in Hside. pose proof unit_val_pos as HU.
  assert (1 ≤ t < 4294967296) as Ht by lia. clearbody t.
  assert (∀ n, n < 2 ^ 53 → between_units 0 (Z.of_N n) (f64_of_N n)) as Hn.
  { intros n Hn. eapply between_weaken; [by apply of_N_between|lia|lia]. }
  change (2 ^ 53) with 9007199254740992 in Hn.
  assert (∀ s, 1 ≤ s ≤ 512 → between_units 0 (Z.of_N t) (div64 (f64_of_N t) (f64_of_N s))) as Hdiv.
  { intros s Hs. destruct (of_N_between s) as [Ds Vs]; [change (2 ^ 53) with 9007199254740992; lia|].
    apply div_between; [apply Hn; lia|done|nia|lia]. }
  pose proof (Hdiv sw Hsw) as [D1 V1]. pose proof (Hdiv sh Hsh) as [D2 V2].
  destruct (val_fmin _ _ D1 D2) as [Df Vf]. set (fit := fmin _ _) in *.
  assert (between_units 0 (Z.of_N t) fit) as Hfit by (split; [done|lia]).
  assert (∀ s, 1 ≤ s ≤ 512 →
    1 ≤ as_u32 (fclamp (fround (mul64 (f64_of_N s) fit)) f64_one (f64_of_N t)) ≤ t) as Hfitted.
  { intros s Hs. destruct (fitted_bounds s t fit) as [H|H]; [change (2 ^ 32) with 4294967296; lia|by apply is_finite_not_nan, Df|apply Df|done|].
    destruct (mul_between (Z.of_N s) (Z.of_N t) (f64_of_N s) fit) as [[_ Fm] _]; [apply Hn; lia|done|lia|lia|change (2 ^ 53)%Z with 9007199254740992%Z; nia|].
    by rewrite is_finite_not_nan in H. }
  pose proof (Hfitted sw Hsw) as Hfw. pose proof (Hfitted sh Hsh) as Hfh.
  set (fw := as_u32 (fclamp (fround (mul64 (f64_of_N sw) fit)) f64_one (f64_of_N t))) in *.
  set (fh := as_u32 (fclamp (fround (mul64 (f64_of_N sh) fit)) f64_one (f64_of_N t))) in *. clearbody fw fh.
  set (ox := (t - fw) / 2). set (oy := (t - fh) / 2).
  destruct (N.ltb_spec x ox) as [|Hx1]; [by eexists|]. destruct (N.ltb_spec y oy) as [|Hy1]; [by eexists|].
  destruct (N.leb_spec (ox + fw) x) as [|Hx2]; [by eexists|]. destruct (N.leb_spec (oy + fh) y) as [|Hy2]; [by eexists|].
  cbn [orb].
  assert (∀ start place s f, start < 512 → place < f → f ≤ t → 1 ≤ s ≤ 512 →
    data (sub64 (add64 (f64_of_N start) (div64 (mul64 (add64 (f64_of_N place) f64_half) (f64_of_N s)) (f64_of_N f)))
            f64_half)) as Hsource.
  { intros start place s f H1 H2 H3 H4.
    assert (between_units 0 1 f64_half) as Hhalf by by vm_compute.
    pose proof (add_between _ _ _ _ _ _ (Hn place ltac:(lia)) Hhalf ltac:(lia) ltac:(lia)) as Ha.
    pose proof (mul_between _ (Z.of_N s) _ (f64_of_N s) Ha (Hn s ltac:(lia)) ltac:(lia) ltac:(lia) ltac:(change (2 ^ 53)%Z with 9007199254740992%Z; nia)) as Hm.
    destruct (of_N_between f) as [Df' Vf']; [change (2 ^ 53) with 9007199254740992; lia|].
    pose proof (div_between _ _ (f64_of_N f) Hm Df' ltac:(nia) ltac:(nia)) as Hd.
    pose proof (add_between _ _ _ _ _ _ (Hn start ltac:(lia)) Hd ltac:(lia) ltac:(nia)) as Hs.
    apply (sub_between _ _ _ _ _ _ Hs Hhalf); nia. }
  apply sample_argb_some; [unfold MAX_MAP_SIDE; lia|unfold MAX_MAP_SIDE; lia|done|apply Hsource; lia|apply Hsource; lia].
Qed.

(** ** The limits of a sample *)

Lemma upper_limit n :
  1 ≤ n ≤ MAX_MAP_SIDE →
  data (sub64 (f64_of_N n) f64_half) ∧ ((Z.of_N n - 1) * unit_val ≤ val (sub64 (f64_of_N n) f64_half))%Z.
Proof.
  intros Hn. unfold MAX_MAP_SIDE in Hn. destruct (f64_of_N_data n) as [Dn Vn]; [lia|].
  destruct half_val as [Dh Vh]. pose proof unit_val_pos. pose proof (fsub_rounded _ _ Dn Dh) as Hr.
  destruct (rounded_data _ _ _ ((Z.of_N n - 1) * unit_val) (Z.of_N n * unit_val) Hr) as [? ?];
    [apply representable_units; lia|apply representable_units; lia|rewrite Vn; lia|]. split; [done|lia].
Qed.

Lemma pixel_inside i n :
  i < n → n ≤ MAX_MAP_SIDE →
  flt (f64_of_N i) (fneg f64_half) = false ∧ flt (sub64 (f64_of_N n) f64_half) (f64_of_N i) = false.
Proof.
  intros Hi Hn. destruct (upper_limit n) as [Dl Vl]; [lia|]. unfold MAX_MAP_SIDE in Hn.
  destruct (f64_of_N_data i) as [Di Vi]; [lia|]. destruct half_val as [Dh Vh]. pose proof unit_val_pos.
  split; apply not_true_iff_false; rewrite flt_val by (done || by apply data_fneg).
  - rewrite val_fneg. nia.
  - nia.
Qed.

(** ** Properties *)


(** A sample is either outside the raster or made of four of its pixels. *)
Lemma sample_bilinear_spec map x y :
  raster_ok map → f64_ok x = true → f64_ok y = true →
  let exact i j := x = f64_of_N i ∧ y = f64_of_N j ∧ i < raster_width map ∧ j < raster_height map in
  (sample_bilinear map x y = Some None ∧ ∀ i j, ¬ exact i j) ∨
  ∃ tl tr bl br xw yw,
    sample_bilinear map x y = Some (Some (interpolate_packed tl tr bl br xw yw)) ∧ weight_ok xw ∧ weight_ok yw ∧
    (∀ p, p ∈ [tl; tr; bl; br] → p ∈ raster_pixels map) ∧
    (∀ i j, exact i j → raster_pixel map i j = Some tl ∧ val xw = 0%Z ∧ val yw = 0%Z).
Proof.
  intros Hmap Hx Hy exact. pose proof Hmap as [Hw Hh Hlen]. unfold sample_bilinear.
  assert (∀ i n, i < n → n ≤ MAX_MAP_SIDE → data (f64_of_N i) ∧ val (f64_of_N i) = (Z.of_N i * unit_val)%Z) as Hplace.
  { intros i n Hi Hn. apply f64_of_N_data. unfold MAX_MAP_SIDE in Hn. lia. }
  step_if.
  { left. split; [done|]. intros i j (-> & -> & Hi & Hj).
    destruct (Hplace i _ Hi) as [[_ Fi] _]; [lia|]. destruct (Hplace j _ Hj) as [[_ Fj] _]; [lia|].
    rewrite Fi, Fj in Heqb. done. }
  reflect_bool. assert (data x) as Dx by done. assert (data y) as Dy by done.
  destruct half_val as [Dhalf Vhalf]. pose proof unit_val_pos as HU.
  destruct (clamped_place x _ Hw Dx) as (Dcx & Vcx & Ecx). destruct (clamped_place y _ Hh Dy) as (Dcy & Vcy & Ecy).
  cbv zeta in *. step_if.
  { left. split; [done|]. intros i j (-> & -> & Hi & Hj).
    destruct (pixel_inside i _ Hi (proj2 Hw)) as [Hi1 Hi2]. destruct (pixel_inside j _ Hj (proj2 Hh)) as [Hj1 Hj2].
    by rewrite Hi1, Hi2, Hj1, Hj2 in Heqb. }
  right.
  assert (∀ i j, i < raster_width map → j < raster_height map → is_Some (raster_pixel map i j)) as Hp.
  { intros i j Hi Hj. destruct (raster_pixel_some map i j Hmap Hi Hj) as (p & -> & _). by eexists. }
  destruct (corners_spec _ _ _ _ _ Hw Hh Hp Dcx Vcx Dcy Vcy)
    as (tl & tr & bl & br & xw & yw & -> & Hxw & Hyw & Hfrom & Hexact).
  cbn [mbind option_bind]. exists tl, tr, bl, br, xw, yw. split; [done|]. split; [done|]. split; [done|]. split.
  - intros p Hin. destruct (Hfrom p Hin) as (i & j & Hi & Hj & Hpix).
    destruct (raster_pixel_some map i j Hmap Hi Hj) as (p' & Hp' & Hin'). by simplify_eq.
  - intros i j (-> & -> & Hi & Hj). destruct (Hplace i _ Hi) as [_ Vi]; [lia|]. destruct (Hplace j _ Hj) as [_ Vj]; [lia|].
    apply Hexact; [by rewrite (Ecx i)|by rewrite (Ecy j)].
Qed.

Definition is_rgb (c : N) : Prop := c < 2 ^ 24.

(** From a raster without alpha come samples without alpha. *)
Lemma sample_bilinear_rgb map x y :
  raster_ok map → Forall is_rgb (raster_pixels map) → f64_ok x = true → f64_ok y = true →
  ∃ s, sample_bilinear map x y = Some s ∧ ∀ c, s = Some c → is_rgb c.
Proof.
  intros Hmap Hall Hx Hy.
  destruct (sample_bilinear_spec map x y Hmap Hx Hy) as [[-> _]|(tl & tr & bl & br & xw & yw & -> & Hxw & Hyw & Hin & _)].
  { by eexists. }
  eexists. split; [done|]. intros c [= <-]. unfold interpolate_packed. cbn [fold_left].
  assert (packed_channel tl tr bl br xw yw 24 = 0) as H24.
  { apply N.le_0_r. apply (packed_channel_within tl tr bl br xw yw 24 0 0); [done|done| |lia].
    intros p Hp. assert (is_rgb p) as Hrgb by (by eapply Forall_forall; [exact Hall|apply Hin]).
    unfold channel. rewrite N.shiftr_div_pow2, N.div_small by done. done. }
  pose proof (packed_channel_le tl tr bl br xw yw 16). pose proof (packed_channel_le tl tr bl br xw yw 8).
  pose proof (packed_channel_le tl tr bl br xw yw 0).
  destruct (packed_bytes (packed_channel tl tr bl br xw yw 24) (packed_channel tl tr bl br xw yw 16)
    (packed_channel tl tr bl br xw yw 8) (packed_channel tl tr bl br xw yw 0)) as [Hp _]; [apply packed_channel_le..|].
  unfold is_rgb. rewrite Hp, H24. change (2 ^ 24) with 16777216. lia.
Qed.

(** A sample of the map never reads outside the raster and never makes up a colour: in
    each channel it lies between any bounds the raster's own pixels keep. At the centre of a
    pixel it is exactly that pixel. *)
Theorem sample_exact (map : MapRaster) (x y : f64) :
  raster_ok map → f64_ok x = true → f64_ok y = true →
  ∃ s, sample_bilinear map x y = Some s ∧
    (∀ c, s = Some c → ∀ shift lo hi, shift ∈ channel_shifts → hi ≤ 255 →
       (∀ p, p ∈ raster_pixels map → lo ≤ channel p shift ≤ hi) → lo ≤ channel c shift ≤ hi) ∧
    (∀ i j p, x = f64_of_N i → y = f64_of_N j → raster_pixel map i j = Some p →
       ∃ c, s = Some c ∧ ∀ shift, shift ∈ channel_shifts → channel c shift = channel p shift).
Proof.
  intros Hmap Hx Hy.
  assert (∀ i j p, raster_pixel map i j = Some p → i < raster_width map ∧ j < raster_height map) as Hinside.
  { unfold raster_pixel. intros i j p Hp. step_if_in Hp; [done|]. reflect_bool. lia. }
  destruct (sample_bilinear_spec map x y Hmap Hx Hy)
    as [[-> Hno]|(tl & tr & bl & br & xw & yw & -> & Hxw & Hyw & Hin & Hexact)]; (eexists; split; [done|]).
  - split; [done|]. intros i j p -> -> (Hi & Hj)%Hinside. by destruct (Hno i j).
  - split.
    + intros c [= <-] shift lo hi Hs Hhi Hall. rewrite interpolate_channels by done.
      apply packed_channel_within; [done|done| |done]. intros p Hp. by apply Hall, Hin.
    + intros i j p Hi Hj Hpix. destruct (Hinside i j p Hpix) as [Hi' Hj'].
      destruct (Hexact i j) as (Htl & Hx0 & Hy0); [done|]. rewrite Hpix in Htl. injection Htl as <-.
      eexists. split; [done|]. intros shift Hs. rewrite interpolate_channels by done. by apply packed_channel_exact.
Qed.

(** ** Examples *)

Definition demo_header (width height : N) (bits : N) : bytes :=
  as_bytes "BM" ++ le_bytes 4 0 ++ le_bytes 4 0 ++ le_bytes 4 54 ++ le_bytes 4 40
  ++ le_bytes 4 width ++ le_bytes 4 height ++ le_bytes 2 1 ++ le_bytes 2 bits ++ replicate 24 Byte.x00.

(** A bottom-up picture of two by two pixels, its rows padded to eight bytes. *)
Example decode_small :
  decode_bmp (demo_header 2 2 24 ++ le_bytes 6 0x060504030201 ++ le_bytes 2 0
              ++ le_bytes 6 0x0c0b0a090807 ++ le_bytes 2 0) =
    Some (Ok (mkRaster 2 2 [0x090807; 0x0c0b0a; 0x030201; 0x060504])).
Proof. by vm_compute. Qed.

Example decode_short : decode_bmp (demo_header 2 2 24 ++ le_bytes 6 0) = Some (Err PixelDataOutOfRange).
Proof. by vm_compute. Qed.

Lemma sample_exact_witness :
  let map := mkRaster 2 1 [0x102030; 0x302010] in
  sample_bilinear map f64_half f64_zero = Some (Some 0x202020) ∧
  ∃ s, sample_bilinear map f64_half f64_zero = Some s ∧
    (∀ c, s = Some c → ∀ shift lo hi, shift ∈ channel_shifts → hi ≤ 255 →
       (∀ p, p ∈ raster_pixels map → lo ≤ channel p shift ≤ hi) → lo ≤ channel c shift ≤ hi) ∧
    (∀ i j p, f64_half = f64_of_N i → f64_zero = f64_of_N j → raster_pixel map i j = Some p →
       ∃ c, s = Some c ∧ ∀ shift, shift ∈ channel_shifts → channel c shift = channel p shift).
Proof.
  intros map. split; [vm_compute; reflexivity|].
  apply (sample_exact map f64_half f64_zero); [split; [split; discriminate|split; discriminate|reflexivity]|reflexivity|reflexivity].
Defined.
