(* ===== verification/MapView.v ===== *)
(** * The view of the map

    Models [WorldToImageTransform] and [MapView] of
    [crates/pal-overlay-win/src/actual_map_preview.rs]: the projection of the world on the
    picture, and the view of the picture with its rotation, its markers and its panning. The
    sine and cosine of the C library are arguments. *)

From S2P Require Import Prelude Floats FloatInt FloatRound Placement Viewport FloatCast.

(** ** The projection *)

Record NormalizedMapPoint := mkNormalized { np_x : f64; np_y : f64 }.

Record WorldToImageTransform := mkWorldToImage {
  wi_min_world_x : f64;
  wi_min_world_y : f64;
  wi_max_world_x : f64;
  wi_max_world_y : f64;
  x_from_world_x : f64;
  x_from_world_y : f64;
  x_offset : f64;
  y_from_world_x : f64;
  y_from_world_y : f64;
  y_offset : f64;
}.

Inductive WorldToImageTransformError :=
| NonFiniteBounds
| DegenerateBounds
| InvalidMapDimensions
| NonFiniteMatrix
| SingularMatrix.

Definition RELATIVE_DETERMINANT_EPSILON : f64 := f64_lit 1 1000000000000.

Definition from_world_bounds (min_world_x min_world_y max_world_x max_world_y : f64) :
    result WorldToImageTransform WorldToImageTransformError :=
  if negb (forallb is_finite [min_world_x; min_world_y; max_world_x; max_world_y]) then Err NonFiniteBounds
  else
    let world_x_span := sub64 max_world_x min_world_x in
    let world_y_span := sub64 max_world_y min_world_y in
    if fle world_x_span f64_zero || fle world_y_span f64_zero then Err DegenerateBounds
    else
      Ok (mkWorldToImage min_world_x min_world_y max_world_x max_world_y
            f64_zero (div64 f64_one world_y_span) (div64 (fneg min_world_y) world_y_span)
            (div64 (fneg f64_one) world_x_span) f64_zero (div64 max_world_x world_x_span)).

Definition from_affine_map_pixels (min_world_x min_world_y max_world_x max_world_y : f64)
    (map_width_px map_height_px : N) (m00 m01 m02 m10 m11 m12 : f64) :
    result WorldToImageTransform WorldToImageTransformError :=
  if negb (forallb is_finite [min_world_x; min_world_y; max_world_x; max_world_y]) then Err NonFiniteBounds
  else if fle max_world_x min_world_x || fle max_world_y min_world_y then Err DegenerateBounds
  else if (map_width_px =? 0) || (map_height_px =? 0) then Err InvalidMapDimensions
  else if negb (forallb is_finite [m00; m01; m02; m10; m11; m12]) then Err NonFiniteMatrix
  else
    let linear_scale := fmax (fmax (fmax (fabs m00) (fabs m01)) (fabs m10)) (fabs m11) in
    if feq linear_scale f64_zero then Err SingularMatrix
    else
      let scaled x := div64 x linear_scale in
      let normalized_determinant :=
        sub64 (mul64 (scaled m00) (scaled m11)) (mul64 (scaled m01) (scaled m10)) in
      if negb (is_finite normalized_determinant)
         || fle (fabs normalized_determinant) RELATIVE_DETERMINANT_EPSILON
      then Err SingularMatrix
      else
        let map_width := f64_of_N map_width_px in
        let map_height := f64_of_N map_height_px in
        Ok (mkWorldToImage min_world_x min_world_y max_world_x max_world_y
              (div64 m00 map_width) (div64 m01 map_width) (div64 m02 map_width)
              (div64 m10 map_height) (div64 m11 map_height) (div64 m12 map_height)).

Definition project (self : WorldToImageTransform) (world_x world_y : f64) : NormalizedMapPoint :=
  mkNormalized
    (mul_add (x_from_world_x self) world_x (mul_add (x_from_world_y self) world_y (x_offset self)))
    (mul_add (y_from_world_x self) world_x (mul_add (y_from_world_y self) world_y (y_offset self))).

Definition project_within_bounds (self : WorldToImageTransform) (world_x world_y : f64) :
    option NormalizedMapPoint :=
  if negb (is_finite world_x) || negb (is_finite world_y) then None
  else if in_range (wi_min_world_x self) (wi_max_world_x self) world_x
          && in_range (wi_min_world_y self) (wi_max_world_y self) world_y
  then Some (project self world_x world_y) else None.

(** [None] is the panic of the [expect]. *)
Definition authoritative_main_map_world_to_image : option WorldToImageTransform :=
  match from_world_bounds (f64_of_Z (-1099400)) (f64_of_Z (-724400)) (f64_of_Z 349400) (f64_of_Z 724400) with
  | Ok t => Some t
  | Err _ => None
  end.

(** ** The view *)

Inductive MapViewError := ViewNonFinite | ScaleOutOfRange | InvalidDimensions.

Record MapView := mkMapView {
  center_x : f64;
  center_y : f64;
  player_map_x : option f64;
  player_map_y : option f64;
  highlight_map_x : option f64;
  highlight_map_y : option f64;
  source_pixels_per_screen_pixel : f64;
  map_rotation_degrees : f32;
  player_rotation_degrees : f32;
}.
#[export] Instance MapView_eta : Eta MapView := λ v,
  mkMapView (center_x v) (center_y v) (player_map_x v) (player_map_y v) (highlight_map_x v) (highlight_map_y v)
    (source_pixels_per_screen_pixel v) (map_rotation_degrees v) (player_rotation_degrees v).

Definition MIN_SOURCE_SCALE : f64 := f64_lit 1 100.
Definition MAX_SOURCE_SCALE : f64 := f64_of_N 4096.
Definition scale_in_range (scale : f64) : bool := in_range MIN_SOURCE_SCALE MAX_SOURCE_SCALE scale.

Definition with_rotations (x y scale : f64) (map_rotation player_rotation : f32) : result MapView MapViewError :=
  if negb (is_finite x) || negb (is_finite y) || negb (is_finite scale) || negb (is_finite map_rotation)
     || negb (is_finite player_rotation)
  then Err ViewNonFinite
  else if negb (scale_in_range scale) then Err ScaleOutOfRange
  else Ok (mkMapView x y (Some x) (Some y) None None scale map_rotation player_rotation).

Definition view_new (x y scale : f64) (map_rotation : f32) : result MapView MapViewError :=
  with_rotations x y scale map_rotation (f32_of_Z 0).

Definition without_player_marker (self : MapView) : MapView :=
  self <| player_map_x := None |> <| player_map_y := None |>.

Definition browse (x y scale : f64) : result MapView MapViewError :=
  let? view := view_new x y scale (f32_of_Z 0) in
  Ok (view <| player_map_x := None |> <| player_map_y := None |>).

Definition player_map_pose (self : MapView) : option (f64 * f64 * f32) :=
  x ← player_map_x self;
  y ← player_map_y self;
  Some (x, y, player_rotation_degrees self).

Definition with_player_map_pose (self : MapView) (map_x map_y : f64) (rotation_degrees : f32) :
    result MapView MapViewError :=
  if negb (is_finite map_x) || negb (is_finite map_y) || negb (is_finite rotation_degrees) then Err ViewNonFinite
  else Ok (self <| player_map_x := Some map_x |> <| player_map_y := Some map_y |>
                <| player_rotation_degrees := rotation_degrees |>).

(** [f64::clamp] panics unless its bounds are ordered. *)
Definition checked_clamp (x lo hi : f64) : option f64 := if fle lo hi then Some (fclamp x lo hi) else None.

Definition clamp_map_center (center half_extent map_extent : f64) : option f64 :=
  if fle map_extent (mul64 half_extent (f64_of_N 2)) then Some (mul64 map_extent f64_half)
  else checked_clamp center half_extent (sub64 map_extent half_extent).

Section Rotation.
Context (sin cos : f64 → f64).

Definition rotation_radians (degrees : f32) : f64 := to_radians (f64_from_f32 degrees).

Definition source_delta (self : MapView) (raster_delta_x raster_delta_y : f64) : f64 * f64 :=
  let radians := rotation_radians (map_rotation_degrees self) in
  let cosine := cos radians in
  let sine := sin radians in
  (mul64 (mul_add cosine raster_delta_x (mul64 sine raster_delta_y)) (source_pixels_per_screen_pixel self),
   mul64 (mul_add (fneg sine) raster_delta_x (mul64 cosine raster_delta_y)) (source_pixels_per_screen_pixel self)).

Definition source_half_extent (self : MapView) (viewport_width viewport_height : N) : f64 * f64 :=
  let radians := rotation_radians (map_rotation_degrees self) in
  let cosine := cos radians in
  let sine := sin radians in
  let half_width := mul64 (f64_of_N viewport_width) f64_half in
  let half_height := mul64 (f64_of_N viewport_height) f64_half in
  (mul64 (add64 (mul64 (fabs cosine) half_width) (mul64 (fabs sine) half_height)) (source_pixels_per_screen_pixel self),
   mul64 (add64 (mul64 (fabs sine) half_width) (mul64 (fabs cosine) half_height)) (source_pixels_per_screen_pixel self)).

Definition panned_by_raster_delta (self : MapView) (raster_delta_x raster_delta_y : f64)
    (viewport_width viewport_height map_width map_height : N) : option (result MapView MapViewError) :=
  if negb (is_finite raster_delta_x) || negb (is_finite raster_delta_y) then Some (Err ViewNonFinite)
  else if (viewport_width =? 0) || (viewport_height =? 0) || (map_width =? 0) || (map_height =? 0)
  then Some (Err InvalidDimensions)
  else
    let '(source_delta_x, source_delta_y) := source_delta self raster_delta_x raster_delta_y in
    let '(half_extent_x, half_extent_y) := source_half_extent self viewport_width viewport_height in
    x ← clamp_map_center (sub64 (center_x self) source_delta_x) half_extent_x (f64_of_N map_width);
    y ← clamp_map_center (sub64 (center_y self) source_delta_y) half_extent_y (f64_of_N map_height);
    Some (Ok (self <| center_x := x |> <| center_y := y |>)).
End Rotation.

Definition with_raster_transform (self : MapView) (scale : f64) (map_rotation : f32) : result MapView MapViewError :=
  if negb (is_finite scale) || negb (is_finite map_rotation) then Err ViewNonFinite
  else if negb (scale_in_range scale) then Err ScaleOutOfRange
  else Ok (self <| source_pixels_per_screen_pixel := scale |> <| map_rotation_degrees := map_rotation |>).

Definition with_search_focus (self : MapView) (map_x map_y : f64) : result MapView MapViewError :=
  if negb (is_finite map_x) || negb (is_finite map_y) then Err ViewNonFinite
  else Ok (self <| center_x := map_x |> <| center_y := map_y |>
                <| highlight_map_x := Some map_x |> <| highlight_map_y := Some map_y |>).

Definition search_focus (map_x map_y scale : f64) : result MapView MapViewError :=
  let? view := view_new map_x map_y scale (f32_of_Z 0) in
  Ok (view <| player_map_x := None |> <| player_map_y := None |>
           <| highlight_map_x := Some map_x |> <| highlight_map_y := Some map_y |>).

(** ** Well-formed views *)

(** A finite number of the format. *)
Definition datum32 (x : f32) : Prop := f32_ok x = true ∧ is_finite x = true.

Definition marker_ok (x y : option f64) : Prop :=
  match x, y with Some x, Some y => data x ∧ data y | None, None => True | _, _ => False end.

Record view_ok (v : MapView) : Prop := {
  vo_center : data (center_x v) ∧ data (center_y v);
  vo_player : marker_ok (player_map_x v) (player_map_y v);
  vo_highlight : marker_ok (highlight_map_x v) (highlight_map_y v);
  vo_scale : data (source_pixels_per_screen_pixel v) ∧ scale_in_range (source_pixels_per_screen_pixel v) = true;
  vo_rotation : datum32 (map_rotation_degrees v) ∧ datum32 (player_rotation_degrees v);
}.

(** The two functions of the C library, on finite arguments. *)
Record trig_laws (sin cos : f64 → f64) : Prop := {
  tl_sin x : data x → data (sin x) ∧ (Z.abs (val (sin x)) ≤ unit_val)%Z;
  tl_cos x : data x → data (cos x) ∧ (Z.abs (val (cos x)) ≤ unit_val)%Z;
}.

Lemma with_rotations_ok x y scale map_rotation player_rotation :
  f64_ok x = true → f64_ok y = true → f64_ok scale = true → f32_ok map_rotation = true → f32_ok player_rotation = true →
  match with_rotations x y scale map_rotation player_rotation with
  | Ok v => view_ok v ∧ v = mkMapView x y (Some x) (Some y) None None scale map_rotation player_rotation
  | Err _ => True
  end.
Proof.
  intros. unfold with_rotations. step_if; [done|]. step_if; [done|]. reflect_bool. by repeat split.
Qed.

(** The operations on views, as a client of the module may call them. *)
Inductive view_op :=
| VWithoutPlayer
| VPlayer (map_x map_y : f64) (rotation : f32)
| VRaster (scale : f64) (rotation : f32)
| VFocus (map_x map_y : f64)
| VPan (delta_x delta_y : f64) (viewport_width viewport_height map_width map_height : N).

Definition op_typed (op : view_op) : Prop :=
  match op with
  | VWithoutPlayer => True
  | VPlayer x y r => f64_ok x = true ∧ f64_ok y = true ∧ f32_ok r = true
  | VRaster s r => f64_ok s = true ∧ f32_ok r = true
  | VFocus x y => f64_ok x = true ∧ f64_ok y = true
  | VPan dx dy vw vh mw mh =>
      f64_ok dx = true ∧ f64_ok dy = true ∧ is_u32 vw ∧ is_u32 vh ∧ is_u32 mw ∧ is_u32 mh
  end.

(** [None] is a panic. *)
Definition apply_op (sin cos : f64 → f64) (v : MapView) (op : view_op) : option (result MapView MapViewError) :=
  match op with
  | VWithoutPlayer => Some (Ok (without_player_marker v))
  | VPlayer x y r => Some (with_player_map_pose v x y r)
  | VRaster s r => Some (with_raster_transform v s r)
  | VFocus x y => Some (with_search_focus v x y)
  | VPan dx dy vw vh mw mh => panned_by_raster_delta sin cos v dx dy vw vh mw mh
  end.

(** ** Panning *)

Lemma scale_bounds s :
  data s → scale_in_range s = true → (0 < val s ≤ 4096 * unit_val)%Z.
Proof.
  intros Hs Hr. unfold scale_in_range, in_range in Hr. apply andb_true_iff in Hr as [Hlo Hhi].
  destruct (f64_of_N_data 4096) as [D4 V4]; [done|].
  apply fle_val in Hhi; [|done..]. unfold MAX_SOURCE_SCALE in Hhi. rewrite V4 in Hhi.
  apply fle_val in Hlo; [|by vm_compute|done].
  assert (0 < val MIN_SOURCE_SCALE)%Z by by vm_compute. lia.
Qed.

Lemma radians_data degrees : datum32 degrees → data (rotation_radians degrees).
Proof.
  intros [Ho Hf]. unfold rotation_radians, to_radians. destruct (f64_from_f32_exact degrees Ho Hf) as [Hd _].
  apply fmul_shrink; [done|by vm_compute|]. by vm_compute.
Qed.

(** A factor on the left that is at most one. *)
Lemma fmul_unit_l u x :
  data u → data x → (0 ≤ val u ≤ unit_val)%Z → (0 ≤ val x)%Z →
  data (mul64 u x) ∧ (0 ≤ val (mul64 u x) ≤ val x)%Z.
Proof.
  intros Hu Hx Hv Hx0. pose proof (fmul_rounded u x Hu Hx) as Hr.
  apply (rounded_data _ _ _ _ _ Hr representable_0); [by apply representable_val|nia].
Qed.

Lemma half_extent_bound a b hw hh s :
  data a → data b → (Z.abs (val a) ≤ unit_val)%Z → (Z.abs (val b) ≤ unit_val)%Z →
  data hw → data hh → (0 ≤ val hw ≤ 4294967296 * unit_val)%Z → (0 ≤ val hh ≤ 4294967296 * unit_val)%Z →
  data s → (0 < val s ≤ 4096 * unit_val)%Z →
  let e := mul64 (add64 (mul64 (fabs a) hw) (mul64 (fabs b) hh)) s in
  data e ∧ (0 ≤ val e ≤ 2 ^ 45 * unit_val)%Z.
Proof.
  intros Ha Hb Va Vb Hw Hh Vw Vh Hs Vs e. pose proof unit_val_pos as HU.
  destruct (fmul_unit_l (fabs a) hw) as [D1 V1]; [by apply data_fabs|done|rewrite val_fabs; lia|lia|].
  destruct (fmul_unit_l (fabs b) hh) as [D2 V2]; [by apply data_fabs|done|rewrite val_fabs; lia|lia|].
  pose proof (fadd_rounded _ _ D1 D2) as Hsum.
  destruct (rounded_data _ _ _ 0 (2 ^ 33 * unit_val) Hsum representable_0) as [D3 V3];
    [by apply representable_units|change (2 ^ 33)%Z with 8589934592%Z; lia|].
  apply (rounded_data _ _ _ 0 (2 ^ 45 * unit_val) (fmul_rounded _ _ D3 Hs) representable_0).
  - by apply representable_units.
  - change (2 ^ 45)%Z with (8589934592 * 4096)%Z. change (2 ^ 33)%Z with 8589934592%Z in V3.
    set (t := val (add64 _ _)) in *. set (U := unit_val) in *. set (v := val s) in *. clearbody t U v. nia.
Qed.

Lemma half_size n : is_u32 n → data (mul64 (f64_of_N n) f64_half) ∧ (0 ≤ val (mul64 (f64_of_N n) f64_half) ≤ 4294967296 * unit_val)%Z.
Proof.
  intros Hn. unfold is_u32, u32_max in Hn. destruct (f64_of_N_data n) as [Dn Vn]; [lia|]. pose proof unit_val_pos.
  assert (data f64_half ∧ (0 ≤ val f64_half ≤ unit_val)%Z) as [Dh Vh] by by vm_compute.
  destruct (fmul_shrink (f64_of_N n) f64_half Dn Dh Vh) as [D T]. split; [done|]. unfold towards in T. nia.
Qed.

(** The center never leaves the room the viewport needs, and the clamp never panics. *)
Lemma clamp_map_center_ok center half map :
  is_nan center = false → f64_ok center = true → data half → (0 ≤ val half ≤ 2 ^ 45 * unit_val)%Z →
  1 ≤ map → is_u32 map →
  ∃ c, clamp_map_center center half (f64_of_N map) = Some c ∧ data c ∧ (0 ≤ val c ≤ Z.of_N map * unit_val)%Z ∧
    (2 * val half < Z.of_N map * unit_val → val half ≤ val c ∧ fle c (sub64 (f64_of_N map) half) = true)%Z ∧
    (Z.of_N map * unit_val ≤ 2 * val half → c = mul64 (f64_of_N map) f64_half)%Z.
Proof.
  intros Hn Ho Hd Hv Hmap Hu. unfold is_u32, u32_max in Hu. pose proof unit_val_pos as HU.
  destruct (f64_of_N_data map) as [Dm Vm]; [lia|]. destruct (f64_of_N_data 2) as [D2 V2]; [done|].
  assert (data (mul64 half (f64_of_N 2)) ∧ val (mul64 half (f64_of_N 2)) = (2 * val half)%Z) as [Dt Vt].
  { pose proof (fmul_rounded half (f64_of_N 2) Hd D2) as Hr. rewrite V2 in Hr.
    assert (representable (2 * val half)) as Hrep.
    { destruct (representable_val half Hd) as [_ (m & e & He & Hm & Heq)]. split.
      - destruct (representable_units (2 ^ 46) ltac:(done)) as [Hmax _]. rewrite !Z.abs_eq in * by lia.
        change (2 ^ 46)%Z with (2 * 2 ^ 45)%Z in Hmax. lia.
      - exists m, (e + 1)%Z. split; [lia|]. split; [done|]. rewrite Heq, (weight_split (e + 1) e) by lia.
        replace (e + 1 - e)%Z with 1%Z by lia. lia. }
    destruct (rounded_data _ _ _ _ _ Hr Hrep Hrep) as [D V]; [lia|]. split; [done|lia]. }
  unfold clamp_map_center. destruct (fle (f64_of_N map) (mul64 half (f64_of_N 2))) eqn:Hle.
  - apply fle_val in Hle; [|done..].
    assert (data f64_half ∧ (0 ≤ val f64_half ≤ unit_val)%Z) as [Dh Vh] by by vm_compute.
    destruct (fmul_shrink (f64_of_N map) f64_half Dm Dh Vh) as [Dc Tc].
    eexists. split; [done|]. split; [done|]. split; [unfold towards in Tc; nia|]. split; [lia|done].
  - apply not_true_iff_false in Hle. rewrite fle_val in Hle by done.
    pose proof (fsub_rounded _ _ Dm Hd) as Hr.
    destruct (rounded_data _ _ _ (val half) (val (f64_of_N map)) Hr) as [Ds Vs];
      [by apply representable_val|by apply representable_val|lia|].
    unfold checked_clamp. assert (fle half (sub64 (f64_of_N map) half) = true) as -> by (apply fle_val; [done..|lia]).
    destruct (fclamp_between center half (sub64 (f64_of_N map) half) Hn Ho Hd Ds ltac:(lia)) as [Dc Vc].
    eexists. split; [done|]. split; [done|]. split; [lia|]. split; [|lia].
    intros _. split; [lia|]. apply fle_val; [done..|lia].
Qed.

Lemma source_delta_ok sin cos v dx dy :
  trig_laws sin cos → view_ok v → data dx → data dy →
  let '(sx, sy) := source_delta sin cos v dx dy in
  (is_nan sx = false ∧ f64_ok sx = true) ∧ (is_nan sy = false ∧ f64_ok sy = true).
Proof.
  intros [Hsin Hcos] Hv Hx Hy. unfold source_delta. destruct (vo_scale v Hv) as [Ds Hr].
  pose proof (scale_bounds _ Ds Hr) as Vs. pose proof (radians_data _ (proj1 (vo_rotation v Hv))) as Dr.
  destruct (Hsin _ Dr) as [Dsin Vsin]. destruct (Hcos _ Dr) as [Dcos Vcos].
  set (sine := sin _) in *. set (cosine := cos _) in *. clearbody sine cosine.
  assert (∀ u x, data u → data x → (Z.abs (val u) ≤ unit_val)%Z → data (mul64 u x)) as Hmul.
  { intros u x Du Dx Vu. pose proof (fmul_rounded u x Du Dx) as Hm. pose proof (representable_val x Dx) as Rx.
    apply (rounded_data _ _ _ (- Z.abs (val x)) (Z.abs (val x)) Hm).
    - destruct (Z.abs_spec (val x)) as [[_ ->]|[_ ->]]; [by apply representable_opp|].
      by replace (- - val x)%Z with (val x) by lia.
    - destruct (Z.abs_spec (val x)) as [[_ ->]|[_ ->]]; [done|by apply representable_opp].
    - pose proof (Z.abs_mul (val u) (val x)). nia. }
  assert (data (fneg sine)) as Dneg by by apply data_fneg.
  split; split.
  - apply fmul_not_nan; [apply mul_add_not_nan; auto|apply mul_add_ok; [apply Dcos|apply Hx|by apply Hmul]|done|lia].
  - apply fmul_ok; [apply mul_add_ok; [apply Dcos|apply Hx|by apply Hmul]|apply Ds].
  - apply fmul_not_nan; [apply mul_add_not_nan; auto|apply mul_add_ok; [apply Dneg|apply Hx|by apply Hmul]|done|lia].
  - apply fmul_ok; [apply mul_add_ok; [apply Dneg|apply Hx|by apply Hmul]|apply Ds].
Qed.

Lemma source_half_extent_ok sin cos v vw vh :
  trig_laws sin cos → view_ok v → is_u32 vw → is_u32 vh →
  let '(hx, hy) := source_half_extent sin cos v vw vh in
  (data hx ∧ (0 ≤ val hx ≤ 2 ^ 45 * unit_val)%Z) ∧ (data hy ∧ (0 ≤ val hy ≤ 2 ^ 45 * unit_val)%Z).
Proof.
  intros [Hsin Hcos] Hv Hw Hh. unfold source_half_extent. destruct (vo_scale v Hv) as [Ds Hr].
  pose proof (scale_bounds _ Ds Hr) as Vs. pose proof (radians_data _ (proj1 (vo_rotation v Hv))) as Dr.
  destruct (Hsin _ Dr) as [Dsin Vsin]. destruct (Hcos _ Dr) as [Dcos Vcos].
  destruct (half_size vw Hw) as [Dw Vw]. destruct (half_size vh Hh) as [Dh Vh].
  split; by apply half_extent_bound.
Qed.

(** A coordinate the panning may leave: in the middle of a map smaller than the viewport,
    otherwise with room for half the viewport on both sides. *)
Definition center_inside (c half : f64) (map : N) : Prop :=
  let extent := f64_of_N map in
  if (2 * val half <? Z.of_N map * unit_val)%Z then fle half c = true ∧ fle c (sub64 extent half) = true
  else c = mul64 extent f64_half.

Lemma panned_spec sin cos v dx dy vw vh mw mh :
  trig_laws sin cos → view_ok v → f64_ok dx = true → f64_ok dy = true →
  is_u32 vw → is_u32 vh → is_u32 mw → is_u32 mh →
  ∃ r, panned_by_raster_delta sin cos v dx dy vw vh mw mh = Some r ∧
    match r with
    | Err ViewNonFinite => is_finite dx = false ∨ is_finite dy = false
    | Err InvalidDimensions => vw = 0 ∨ vh = 0 ∨ mw = 0 ∨ mh = 0
    | Err _ => False
    | Ok v' => ∃ x y, v' = v <| center_x := x |> <| center_y := y |> ∧
        (data x ∧ data y) ∧ (0 ≤ val x ≤ Z.of_N mw * unit_val)%Z ∧ (0 ≤ val y ≤ Z.of_N mh * unit_val)%Z ∧
        let '(hx, hy) := source_half_extent sin cos v vw vh in center_inside x hx mw ∧ center_inside y hy mh
    end.
Proof.
  intros Ht Hv Hdx Hdy Hvw Hvh Hmw Hmh. unfold panned_by_raster_delta.
  destruct (is_finite dx) eqn:Fx; cbn [negb orb]; [|eexists; split; [done|by left]].
  destruct (is_finite dy) eqn:Fy; cbn [negb orb]; [|eexists; split; [done|by right]].
  destruct (N.eqb_spec vw 0); [eexists; split; [done|cbn; tauto]|]. destruct (N.eqb_spec vh 0); [eexists; split; [done|cbn; tauto]|].
  destruct (N.eqb_spec mw 0); [eexists; split; [done|cbn; tauto]|]. destruct (N.eqb_spec mh 0); [eexists; split; [done|cbn; tauto]|].
  cbn [orb]. assert (data dx) as Dx by done. assert (data dy) as Dy by done.
  pose proof (source_delta_ok sin cos v dx dy Ht Hv Dx Dy) as Hd.
  pose proof (source_half_extent_ok sin cos v vw vh Ht Hv Hvw Hvh) as He.
  destruct (source_delta sin cos v dx dy) as [sx sy]. destruct (source_half_extent sin cos v vw vh) as [hx hy].
  destruct Hd as [[Nx Ox] [Ny Oy]]. destruct He as [[Dhx Vhx] [Dhy Vhy]]. destruct (vo_center v Hv) as [Dcx Dcy].
  destruct (clamp_map_center_ok (sub64 (center_x v) sx) hx mw) as (x & -> & Dx' & Vx & Rx & Mx);
    [by apply fsub_not_nan|apply fsub_ok; [apply Dcx|done]|done|done|lia|done|].
  destruct (clamp_map_center_ok (sub64 (center_y v) sy) hy mh) as (y & -> & Dy' & Vy & Ry & My);
    [by apply fsub_not_nan|apply fsub_ok; [apply Dcy|done]|done|done|lia|done|].
  cbn [mbind option_bind]. eexists. split; [done|]. exists x, y. split_and!; [done|done|done|lia|lia|lia|lia| |].
  - unfold center_inside. destruct (Z.ltb_spec (2 * val hx) (Z.of_N mw * unit_val)) as [Hlt|Hge]; [|by apply Mx].
    destruct (Rx Hlt) as [Hlo Hhi]. split; [by apply fle_val|done].
  - unfold center_inside. destruct (Z.ltb_spec (2 * val hy) (Z.of_N mh * unit_val)) as [Hlt|Hge]; [|by apply My].
    destruct (Ry Hlt) as [Hlo Hhi]. split; [by apply fle_val|done].
Qed.

(** The fields of an updated view. *)
Ltac view_fields := split; cbn; unfold data, datum32 in *; tauto.

Lemma apply_op_ok sin cos v op r :
  trig_laws sin cos → view_ok v → op_typed op → apply_op sin cos v op = Some (Ok r) → view_ok r.
Proof.
  intros Ht Hv Hop H. destruct op as [|x y rot|s rot|x y|dx dy vw vh mw mh]; cbn [apply_op op_typed] in *.
  - injection H as <-. destruct Hv as [? ? ? ? ?]. by split.
  - injection H as H. unfold with_player_map_pose in H. step_if_in H; [done|]. injection H as <-. reflect_bool.
    destruct Hop as (? & ? & ?), Hv as [? ? ? ? [? ?]]. by view_fields.
  - injection H as H. unfold with_raster_transform in H. step_if_in H; [done|]. step_if_in H; [done|].
    injection H as <-. reflect_bool. destruct Hop as (? & ?), Hv as [? ? ? ? [? ?]]. by view_fields.
  - injection H as H. unfold with_search_focus in H. step_if_in H; [done|]. injection H as <-. reflect_bool.
    destruct Hop as (? & ?), Hv as [? ? ? ? ?]. by view_fields.
  - destruct Hop as (Hdx & Hdy & Hvw & Hvh & Hmw & Hmh).
    destruct (panned_spec sin cos v dx dy vw vh mw mh Ht Hv Hdx Hdy Hvw Hvh Hmw Hmh) as (r' & Hr' & Hspec).
    rewrite Hr' in H. injection H as ->. destruct Hspec as (x & y & -> & [Dx Dy] & _).
    destruct Hv as [? ? ? ? ?]. by split.
Qed.

Fixpoint apply_ops (sin cos : f64 → f64) (v : MapView) (ops : list view_op) : option MapView :=
  match ops with
  | [] => Some v
  | op :: ops =>
      r ← apply_op sin cos v op;
      apply_ops sin cos (match r with Ok v' => v' | Err _ => v end) ops
  end.

(** ** Properties *)

(** C17: every view of the map is well-formed. Whatever a client does with a view the
    constructors accept, no operation panics, and the view that results has finite
    coordinates and rotations, a scale within the limits, and each marker either with both of its
    coordinates or with none. *)
Theorem views_well_formed (sin cos : f64 → f64) (x y scale : f64) (map_rotation player_rotation : f32)
    (v : MapView) (ops : list view_op) :
  trig_laws sin cos → f64_ok x = true → f64_ok y = true → f64_ok scale = true →
  f32_ok map_rotation = true → f32_ok player_rotation = true → Forall op_typed ops →
  with_rotations x y scale map_rotation player_rotation = Ok v →
  ∃ v', apply_ops sin cos v ops = Some v' ∧ view_ok v'.
Proof.
  intros Ht Hx Hy Hs Hm Hp Hops Hv. pose proof (with_rotations_ok x y scale _ _ Hx Hy Hs Hm Hp) as H.
  rewrite Hv in H. destruct H as [Hok _]. clear Hv. revert v Hok.
  induction Hops as [|op ops Hop Hops IH]; intros v Hok; cbn [apply_ops]; [by exists v|].
  assert (∃ r, apply_op sin cos v op = Some r) as [r Hr].
  { destruct op as [|? ? ?|? ?|? ?|dx dy vw vh mw mh]; cbn [apply_op]; [by eexists..|].
    destruct Hop as (Hdx & Hdy & Hvw & Hvh & Hmw & Hmh).
    destruct (panned_spec sin cos v dx dy vw vh mw mh Ht Hok Hdx Hdy Hvw Hvh Hmw Hmh) as (r & -> & _). by eexists. }
  rewrite Hr. cbn [mbind option_bind]. apply IH. destruct r as [v'|e]; [|done]. by eapply apply_op_ok.
Qed.

(** Dragging the map never leaves it. The new center is at least half the rotated
    viewport away from both ends of the map, or exactly in the middle of a map that is
    smaller than the viewport; nothing but the center changes. A drag is refused only when it
    is not finite, and a viewport or a map only when it is empty. *)
Theorem pan_stays_on_map (sin cos : f64 → f64) (v : MapView) (dx dy : f64) (vw vh mw mh : N) :
  trig_laws sin cos → view_ok v → f64_ok dx = true → f64_ok dy = true →
  is_u32 vw → is_u32 vh → is_u32 mw → is_u32 mh →
  match panned_by_raster_delta sin cos v dx dy vw vh mw mh with
  | None => False
  | Some (Err e) =>
      (e = ViewNonFinite ∧ (is_finite dx = false ∨ is_finite dy = false)) ∨
      (e = InvalidDimensions ∧ (vw = 0 ∨ vh = 0 ∨ mw = 0 ∨ mh = 0))
  | Some (Ok v') =>
      let '(hx, hy) := source_half_extent sin cos v vw vh in
      v' = v <| center_x := center_x v' |> <| center_y := center_y v' |> ∧
      center_inside (center_x v') hx mw ∧ center_inside (center_y v') hy mh ∧
      (0 ≤ val (center_x v') ≤ Z.of_N mw * unit_val)%Z ∧ (0 ≤ val (center_y v') ≤ Z.of_N mh * unit_val)%Z
  end.
Proof.
  intros Ht Hv Hdx Hdy Hvw Hvh Hmw Hmh.
  destruct (panned_spec sin cos v dx dy vw vh mw mh Ht Hv Hdx Hdy Hvw Hvh Hmw Hmh) as ([v'|e] & -> & Hr).
  - destruct Hr as (x & y & -> & _ & Hx & Hy & Hin). destruct (source_half_extent sin cos v vw vh) as [hx hy].
    cbn. tauto.
  - destruct e; [by left|done|by right].
Qed.

(** ** Examples *)

(** The values at a rotation of zero, for any other argument as well. *)
Definition flat_sin (x : f64) : f64 := f64_zero.
Definition flat_cos (x : f64) : f64 := f64_one.

Lemma flat_laws : trig_laws flat_sin flat_cos.
Proof. split; intros x _; by vm_compute. Qed.

Definition demo_view : MapView :=
  mkMapView (f64_of_N 100) (f64_of_N 200) (Some (f64_of_N 100)) (Some (f64_of_N 200)) None None f64_one
    (f32_of_Z 0) (f32_of_Z 0).

Lemma demo_view_ok : view_ok demo_view.
Proof. by repeat split. Qed.

Lemma pan_stays_on_map_witness :
  let v := demo_view in
  let dx := f64_of_N 500 in
  let dy := f64_of_Z (-40) in
  match panned_by_raster_delta flat_sin flat_cos v dx dy 320 4000 2048 2048 with
  | Some (Ok v') =>
      center_x v' = f64_of_N 160 ∧ center_y v' = f64_of_N 1024 ∧
      let '(hx, hy) := source_half_extent flat_sin flat_cos v 320 4000 in
      v' = v <| center_x := center_x v' |> <| center_y := center_y v' |> ∧
      center_inside (center_x v') hx 2048 ∧ center_inside (center_y v') hy 2048 ∧
      (0 ≤ val (center_x v') ≤ Z.of_N 2048 * unit_val)%Z ∧ (0 ≤ val (center_y v') ≤ Z.of_N 2048 * unit_val)%Z
  | _ => False
  end.
Proof.
  intros v dx dy.
  pose proof (pan_stays_on_map flat_sin flat_cos v dx dy 320 4000 2048 2048 flat_laws demo_view_ok eq_refl eq_refl)
    as H.
  specialize (H ltac:(discriminate) ltac:(discriminate) ltac:(discriminate) ltac:(discriminate)).
  destruct (panned_by_raster_delta flat_sin flat_cos v dx dy 320 4000 2048 2048) as [[v'|e]|] eqn:Hp;
    [|vm_compute in Hp; discriminate Hp|vm_compute in Hp; discriminate Hp].
  split; [vm_compute in Hp; injection Hp as <-; vm_compute; reflexivity|].
  split; [vm_compute in Hp; injection Hp as <-; vm_compute; reflexivity|]. exact H.
Defined.

Lemma views_well_formed_witness :
  let ops := [VPan (f64_of_N 500) f64_zero 320 320 2048 2048; VFocus (S754_nan) f64_zero; VWithoutPlayer] in
  ∃ v', apply_ops flat_sin flat_cos (mkMapView (f64_of_N 100) (f64_of_N 200) (Some (f64_of_N 100))
      (Some (f64_of_N 200)) None None f64_one (f32_of_Z 0) (f32_of_Z 0)) ops = Some v' ∧ view_ok v'.
Proof.
  intros ops.
  apply (views_well_formed flat_sin flat_cos (f64_of_N 100) (f64_of_N 200) f64_one (f32_of_Z 0) (f32_of_Z 0) _ ops
           flat_laws); [reflexivity|reflexivity|reflexivity|reflexivity|reflexivity| |reflexivity].
  unfold ops. repeat constructor; discriminate.
Defined.
