(* ===== verification/MapSurface.v ===== *)
(** * The software rasterizer of the map

    Models [CpuMapSurface] of [crates/pal-overlay-win/src/actual_map_preview.rs]: the map
    under a view, the markers of points of interest with the grid that keeps them apart, the
    arrow of the player and the search highlight, pixel by pixel. A painting step that would
    panic is [None]. Coordinates are [i32]; sums that reach outside the surface wrap as they do
    in the shipped profile. The extents of the shapes come from scales between 0.81 and 1.64
    and are far from the limits of [i32]. *)

From S2P Require Import Prelude Floats FloatInt FloatRound Settings Placement Viewport FloatCast MapRaster MapView.

Definition MAX_SURFACE_SIDE : N := 4096.
Definition OUT_OF_MAP_BACKDROP : N := 0x00070d14.
Definition PLAYER_COLOR : N := 0x0034d7e6.
Definition PLAYER_REAR_COLOR : N := 0x008fe4e8.
Definition PLAYER_RING_COLOR : N := 0x00c9f5f7.
Definition ICON_SHADOW_COLOR : N := 0x00071019.
Definition ICON_WHITE : N := 0x00f4fbff.
Definition FAST_TRAVEL_DARK : N := 0x00005f78.
Definition FAST_TRAVEL_COLOR : N := 0x0000d8ef.
Definition BOSS_PLATE_COLOR : N := 0x00142830.
Definition BOSS_RING_COLOR : N := 0x00d7e8e5.
Definition BOSS_ACCENT_COLOR : N := 0x00d94052.
Definition WANTED_COLOR : N := 0x00d94052.
Definition WANTED_DARK : N := 0x00301820.
Definition DUNGEON_RING_COLOR : N := 0x007155c9.
Definition DUNGEON_ACCENT_COLOR : N := 0x00bca9ff.
Definition DUNGEON_MOUTH_COLOR : N := 0x0015202b.

(** ** Points of interest *)

Inductive MapPoiKind := PkFastTravel | PkBoss | PkWanted | PkDungeon | PkSupplemental | PkPalSpawn.
#[export] Instance MapPoiKind_eq_dec : EqDecision MapPoiKind.
Proof. solve_decision. Defined.

Definition SUPPLEMENTAL_LAYER_IDS : list string :=
  ["respawn"; "tower"; "sealed-realm"; "biome-boss"; "oil-rig"; "map-unlock"; "sky-warp"; "dimensional-warp";
   "dimensional-distortion"; "enemy-camp"; "anti-air-turret"; "pal-merchant"; "merchant"; "npc";
   "messenger-of-love"; "effigy"; "medal"; "memo"; "egg"; "skill-fruit"; "world-tree-fruit"; "ancient-shrine";
   "treasure-map"; "elemental-chest"; "chest"; "poi"; "kinship-peach"; "fishing-spot"; "salvage-rank-1";
   "salvage-rank-2"; "oil-field"; "soralite"; "chromite"; "hexolite-quartz"; "ancient-bark"; "ancient-lava";
   "ore-copper"; "ore-coal"; "ore-quartz"; "ore-sulfur"; "ore-crystal"; "healing-spring"; "paloxite"]%string.

Record MapPoi := mkMapPoi {
  poi_map_x : f64;
  poi_map_y : f64;
  poi_kind : MapPoiKind;
  poi_icon : option MapPoiIcon;
  poi_filter_id : option string;
  supplemental_filter_bit : N;
  night_spawn : bool;
}.
#[export] Instance MapPoi_eta : Eta MapPoi := λ p,
  mkMapPoi (poi_map_x p) (poi_map_y p) (poi_kind p) (poi_icon p) (poi_filter_id p) (supplemental_filter_bit p)
    (night_spawn p).

Definition map_poi_new (map_x map_y : f64) (kind : MapPoiKind) : option MapPoi :=
  if is_finite map_x && is_finite map_y then Some (mkMapPoi map_x map_y kind None None 0 false) else None.

Definition supplemental_layer_bit (layer_id : string) : option N :=
  (λ '(index, _), N.shiftl 1 (N.of_nat index)) <$> list_find (eq layer_id) SUPPLEMENTAL_LAYER_IDS.

Definition with_icon (self : MapPoi) (icon : MapPoiIcon) : MapPoi := self <| poi_icon := Some icon |>.
Definition with_pal_spawn_filter (self : MapPoi) (species_id : string) (night : bool) : MapPoi :=
  self <| poi_filter_id := Some species_id |> <| night_spawn := night |>.
Definition with_supplemental_filter (self : MapPoi) (layer_id : string) : option MapPoi :=
  bit ← supplemental_layer_bit layer_id;
  Some (self <| supplemental_filter_bit := bit |> <| poi_filter_id := Some layer_id |>).

Definition supplemental_filter_mask (filters : PoiFilters) : N :=
  fold_left N.lor (omap supplemental_layer_bit (enabled_layer_ids filters)) 0.

Record IconVisualPolicy := mkPolicy { artwork_scale : f64; offset_x_fraction : f64; offset_y_fraction : f64 }.

Definition milli (z : Z) : f64 := f64_lit z 1000.

Definition poi_icon_visual_policy (poi : MapPoi) : IconVisualPolicy :=
  let policy scale x y := mkPolicy (f64_lit scale 100) (milli x) (milli y) in
  match poi_kind poi with
  | PkFastTravel => policy 110 5 40
  | PkDungeon => policy 100 (-8) 16
  | PkWanted => policy 94 (-13) (-31)
  | PkBoss => policy 94 0 0
  | PkPalSpawn => policy 100 0 0
  | PkSupplemental =>
      match poi_filter_id poi with
      | None => policy 100 0 0
      | Some id =>
          let among ids := bool_decide (id ∈ (ids : list string)) in
          if among ["effigy"%string] then policy 100 (-27) (-16)
          else if among ["ancient-lava"%string] then policy 100 (-20) (-20)
          else if among ["salvage-rank-1"; "salvage-rank-2"]%string then policy 100 (-20) (-12)
          else if among ["poi"%string] then policy 100 (-47) (-8)
          else if among ["fishing-spot"%string] then policy 100 0 (-39)
          else if among ["healing-spring"%string] then policy 100 20 (-12)
          else if among ["oil-field"%string] then policy 100 (-27) (-8)
          else if among ["soralite"%string] then policy 100 (-4) (-8)
          else policy 100 0 0
      end
  end%Z.

Definition ascii_lower (b : Byte.byte) : N :=
  let n := Byte.to_N b in if (65 <=? n) && (n <=? 90) then n + 32 else n.
Definition eq_ignore_ascii_case (a b : bytes) : bool := bool_decide (ascii_lower <$> a = ascii_lower <$> b).

Definition pal_spawn_filter_enabled (poi : MapPoi) (filters : PoiFilters) : bool :=
  match poi_filter_id poi with
  | None => false
  | Some species =>
      let species := as_bytes species in
      existsb (λ selected,
        let selected := as_bytes selected in
        eq_ignore_ascii_case species selected
        || ((length selected <? length species)%nat
            && bool_decide ((species : list Byte.byte) !! (length species - length selected - 1)%nat = Some Byte.x5f)
            && eq_ignore_ascii_case (drop (length species - length selected) species) selected))
        (selected_pal_ids filters)
  end.

(** ** The surface *)

Record SurfaceCounters := mkSurfaceCounters {
  rasterized_frames : N;
  last_raster_cpu_100ns : N;
  raster_cpu_100ns_total : N;
  raster_cpu_timing_samples : N;
  raster_cpu_timing_failures : N;
}.
#[export] Instance SurfaceCounters_eta : Eta SurfaceCounters := λ c,
  mkSurfaceCounters (rasterized_frames c) (last_raster_cpu_100ns c) (raster_cpu_100ns_total c)
    (raster_cpu_timing_samples c) (raster_cpu_timing_failures c).

Record CpuMapSurface := mkSurface {
  size : PhysicalSize.t;
  pixels : list N;
  visible_poi_centers : list (Z * Z);
  (** [usize::MAX] is [None]. *)
  poi_occupancy : list (option nat);
  performance_counters : SurfaceCounters;
}.
#[export] Instance CpuMapSurface_eta : Eta CpuMapSurface := λ s,
  mkSurface (size s) (pixels s) (visible_poi_centers s) (poi_occupancy s) (performance_counters s).

Definition surface_pixel_count (size : PhysicalSize.t) : option N :=
  let w := PhysicalSize.width size in
  let h := PhysicalSize.height size in
  if (w =? 0) || (h =? 0) || (MAX_SURFACE_SIDE <? w) || (MAX_SURFACE_SIDE <? h) then None
  else checked_usize (w * h).

(** The only error is [DimensionsOutOfRange]. *)
Definition surface_new (size : PhysicalSize.t) : option CpuMapSurface :=
  pixel_count ← surface_pixel_count size;
  Some (mkSurface size (replicate (N.to_nat pixel_count) 0) [] [] (mkSurfaceCounters 0 0 0 0 0)).

Definition surface_resize (self : CpuMapSurface) (new_size : PhysicalSize.t) : option (CpuMapSurface * bool) :=
  if bool_decide (new_size = size self) then Some (self, false)
  else
    pixel_count ← surface_pixel_count new_size;
    Some (self <| pixels ::= resize (N.to_nat pixel_count) 0 |> <| size := new_size |>, true).

Definition surface_pixel (self : CpuMapSurface) (x y : N) : option N :=
  if (PhysicalSize.width (size self) <=? x) || (PhysicalSize.height (size self) <=? y) then None
  else pixels self !! N.to_nat (y * PhysicalSize.width (size self) + x).

(** ** Painting *)

Definition paint : Type := CpuMapSurface → option CpuMapSurface.
Definition skip : paint := Some.
Definition andThen (p q : paint) : paint := λ s, s' ← p s; q s'.
Notation "p ;; q" := (andThen p q) (at level 100, q at level 200, right associativity).
Definition given {A} (o : option A) (p : A → paint) : paint := λ s, a ← o; p a s.

(** [for i in lo..=hi]. *)
Definition zrange (lo hi : Z) : list Z := (λ i, lo + Z.of_nat i)%Z <$> seq 0 (Z.to_nat (hi - lo + 1)).
Fixpoint each {A} (l : list A) (p : A → paint) : paint :=
  match l with [] => skip | a :: l => p a ;; each l p end.

(** The index of a coordinate on the surface; [None] outside, where nothing is painted. *)
Definition target_index (self : CpuMapSurface) (x y : Z) : option nat :=
  if ((x <? 0) || (y <? 0))%Z then None
  else if (PhysicalSize.width (size self) <=? Z.to_N x) || (PhysicalSize.height (size self) <=? Z.to_N y) then None
  else Some (N.to_nat (Z.to_N y * PhysicalSize.width (size self) + Z.to_N x)).

(** [self.pixels[index] = color], which panics outside the pixels. *)
Definition store_pixel (index : nat) (color : N) : paint := λ s,
  if (index <? length (pixels s))%nat then Some (s <| pixels ::= <[index := color]> |>) else None.

Definition set_pixel (x y : Z) (color : N) : paint := λ s,
  match target_index s x y with None => Some s | Some index => store_pixel index color s end.

Definition blend_channel (source destination alpha shift : N) : N :=
  (channel source shift * alpha + channel destination shift * (255 - alpha) + 127) / 255.

Definition blend_color (source destination alpha : N) : N :=
  rgb (blend_channel source destination alpha 16) (blend_channel source destination alpha 8)
      (blend_channel source destination alpha 0).

Definition blend_pixel (x y : Z) (source : N) : paint := λ s,
  match target_index s x y with
  | None => Some s
  | Some index =>
      let alpha := channel source 24 in
      if alpha =? 0 then Some s
      else if alpha =? 255 then store_pixel index (N.land source 0x00ffffff) s
      else
        destination ← pixels s !! index;
        store_pixel index (blend_color source destination alpha) s
  end.

(** [x + dx] of a coordinate, and the pixel at an offset from a center. *)
Definition offset (x dx : Z) : Z := wrap_i32 (x + dx).
Definition set_at (x y dx dy : Z) (color : N) : paint := set_pixel (offset x dx) (offset y dy) color.
Definition blend_at (x y dx dy : Z) (source : N) : paint := blend_pixel (offset x dx) (offset y dy) source.

Definition scaled_px (value : Z) (scale : f64) : Z :=
  as_i32 (fmax (fround (mul64 (f64_of_i32 value) scale)) f64_one).

(** The square of offsets around a center. *)
Definition square (rx ry : Z) (p : Z → Z → paint) : paint :=
  each (zrange (- ry) ry) (λ dy, each (zrange (- rx) rx) (λ dx, p dx dy)).
Definition disc_distance (dx dy : Z) : Z := (dx * dx + dy * dy)%Z.
Definition when (b : bool) (p : paint) : paint := if b then p else skip.

(** ** Shapes *)

Definition point_in_triangle (x y : f64) (first second third : f64 * f64) : bool :=
  let edge (start stop : f64 * f64) :=
    mul_add (sub64 x stop.1) (sub64 start.2 stop.2) (mul64 (fneg (sub64 start.1 stop.1)) (sub64 y stop.2)) in
  let edges := [edge first second; edge second third; edge third first] in
  let has_negative := existsb (λ e, flt e f64_zero) edges in
  let has_positive := existsb (λ e, flt f64_zero e) edges in
  negb (has_negative && has_positive).

Definition point_in_compass_kite (x y tip half_width shoulder_y tail : f64) : bool :=
  point_in_triangle x y (f64_zero, fneg tip) (half_width, shoulder_y) (f64_zero, tail)
  || point_in_triangle x y (f64_zero, fneg tip) (f64_zero, tail) (fneg half_width, shoulder_y).

Definition draw_search_highlight (short_side : N) (cx cy : Z) : paint :=
  let outer_radius :=
    scaled_px 22 (fclamp (div64 (f64_of_N short_side) (f64_of_N 320)) f64_one (f64_lit 135 100)) in
  let inner_radius := Z.max i32_min (outer_radius - 3) in
  square outer_radius outer_radius (λ dx dy,
    let distance := disc_distance dx dy in
    when ((distance <=? outer_radius * outer_radius) && (inner_radius * inner_radius <=? distance))%Z
      (blend_at cx cy dx dy 0xe0f2b84b)) ;;
  each (zrange (-4) 4) (λ i, blend_at cx cy i 0 0xf8fff4d2 ;; blend_at cx cy 0 i 0xf8fff4d2).

Definition draw_game_map_icon (cx cy : Z) (icon : option MapPoiIcon) (scale : f64) (policy : IconVisualPolicy) :
    option paint :=
  icon ← icon;
  let marker_side := f64_of_i32 (scaled_px 22 scale) in
  let cx := offset cx (as_i32 (fround (mul64 marker_side (offset_x_fraction policy)))) in
  let cy := offset cy (as_i32 (fround (mul64 marker_side (offset_y_fraction policy)))) in
  Some (given (u32_try_from (scaled_px 22 (mul64 scale (artwork_scale policy)))) (λ side,
    let target_side := N.lor side 1 in
    let half := Z.of_N (target_side / 2) in
    square half half (λ dx dy,
      given (u32_try_from (dx + half)) (λ x, given (u32_try_from (dy + half)) (λ y,
      given (sample_scaled_visible_fit icon x y target_side) (λ source,
        when (negb (N.shiftr source 24 =? 0))
          (blend_pixel (offset (offset cx dx) 1) (offset (offset cy dy) 1) 0x70071019 ;;
           blend_at cx cy dx dy source))))))).

(** The round portrait of bosses and Pals. *)
Definition draw_portrait (cx cy : Z) (icon : MapPoiIcon) (scale : f64) : paint :=
  given (u32_try_from (scaled_px 21 scale)) (λ side,
    let target_side := N.lor side 1 in
    let half := Z.of_N (target_side / 2) in
    square half half (λ dx dy,
      if (half * half <? disc_distance dx dy)%Z then skip
      else
        given (u32_try_from (dx + half)) (λ x, given (u32_try_from (dy + half)) (λ y,
        given (sample_scaled_visible_fit icon x y target_side) (λ source, blend_at cx cy dx dy source))))).

(** A pixel and its shadow, one to the right and some rows below. *)
Definition set_shadowed (cx cy dx dy below : Z) (color : N) : paint :=
  set_pixel (offset (offset cx dx) 1) (offset (offset cy dy) below) ICON_SHADOW_COLOR ;; set_at cx cy dx dy color.

Definition draw_pal_spawn_icon (cx cy : Z) (icon : option MapPoiIcon) (scale : f64) : paint :=
  match icon with
  | None => skip
  | Some icon =>
      let outer_radius := scaled_px 11 scale in
      square outer_radius outer_radius (λ dx dy,
        when (disc_distance dx dy <=? outer_radius * outer_radius)%Z (set_shadowed cx cy dx dy 2 ICON_WHITE)) ;;
      draw_portrait cx cy icon scale
  end.

Definition draw_fast_travel_icon (cx cy : Z) (scale : f64) : paint :=
  let half_width := scaled_px 7 scale in
  let half_height := scaled_px 9 scale in
  square half_width half_height (λ dx dy,
    let source_x := fabs (div64 (f64_of_i32 dx) scale) in
    let source_y := fabs (div64 (f64_of_i32 dy) scale) in
    let metric := add64 (mul64 source_x (f64_of_N 10)) (mul64 source_y (f64_of_N 7)) in
    if fle metric (f64_of_N 47) then set_shadowed cx cy dx dy 1 FAST_TRAVEL_COLOR
    else if fle metric (f64_of_N 61) then set_shadowed cx cy dx dy 1 FAST_TRAVEL_DARK
    else skip) ;;
  square (scaled_px 2 scale) (scaled_px 3 scale) (λ dx dy,
    when (Z.abs dx * 3 + Z.abs dy * 2 <=? scaled_px 6 scale)%Z (set_at cx cy dx dy FAST_TRAVEL_DARK)).

Definition draw_compact_icon_backplate (cx cy : Z) (scale : f64) : paint :=
  let radius := scaled_px 11 scale in
  let inner_radius := Z.max (radius - scaled_px 1 scale) 1 in
  square radius radius (λ dx dy,
    let distance := disc_distance dx dy in
    when (distance <=? radius * radius)%Z (blend_at cx cy dx dy 0x9407141d) ;;
    when ((distance <=? radius * radius) && (inner_radius * inner_radius <=? distance))%Z
      (blend_at cx cy dx dy 0x70295065)).

Definition draw_unverified_map_marker (cx cy : Z) (scale : f64) : paint :=
  let radius := scaled_px 3 scale in
  square radius radius (λ dx dy,
    when (disc_distance dx dy <=? radius * radius)%Z (blend_at cx cy dx dy 0xd0a8c2c8)).

Definition draw_emphasis_frame (cx cy : Z) (scale : f64) (accent : N) : paint :=
  let outer_radius := scaled_px 12 scale in
  let white_radius := scaled_px 11 scale in
  let accent_radius := scaled_px 10 scale in
  square outer_radius outer_radius (λ dx dy,
    let distance := disc_distance dx dy in
    when (distance <=? outer_radius * outer_radius)%Z
      (set_pixel (offset (offset cx dx) 1) (offset (offset cy dy) 2) ICON_SHADOW_COLOR) ;;
    when (distance <=? white_radius * white_radius)%Z (set_at cx cy dx dy ICON_WHITE) ;;
    when (distance <=? accent_radius * accent_radius)%Z (set_at cx cy dx dy accent)).

Definition draw_dungeon_icon (cx cy : Z) (scale : f64) : paint :=
  let arch_radius := scaled_px 7 scale in
  let arch_inner := scaled_px 4 scale in
  let floor_y := scaled_px 6 scale in
  each (zrange (- arch_radius) floor_y) (λ dy, each (zrange (- arch_radius) arch_radius) (λ dx,
    let distance := (dx * dx + Z.min dy 0 * Z.min dy 0)%Z in
    let on_arch := ((dy <=? 0) && (distance <=? arch_radius * arch_radius) && (arch_inner * arch_inner <=? distance))%Z in
    let on_side := ((0 <? dy) && (arch_inner <=? Z.abs dx) && (Z.abs dx <=? arch_radius))%Z in
    if on_arch || on_side then set_shadowed cx cy dx dy 1 DUNGEON_ACCENT_COLOR
    else if ((- arch_inner <=? dy) && (dy <=? floor_y) && (Z.abs dx <? arch_inner))%Z
    then set_at cx cy dx dy DUNGEON_MOUTH_COLOR else skip)) ;;
  each (zrange (- arch_radius) arch_radius) (λ dx, set_shadowed cx cy dx floor_y 1 DUNGEON_RING_COLOR).

Definition draw_boss_frame (cx cy : Z) (scale : f64) : paint :=
  let outer_radius := scaled_px 13 scale in
  let ring_radius := scaled_px 12 scale in
  let plate_radius := scaled_px 10 scale in
  square outer_radius outer_radius (λ dx dy,
    let distance := disc_distance dx dy in
    when (distance <=? outer_radius * outer_radius)%Z
      (set_pixel (offset (offset cx dx) 1) (offset (offset cy dy) 2) ICON_SHADOW_COLOR) ;;
    when (distance <=? ring_radius * ring_radius)%Z (set_at cx cy dx dy BOSS_RING_COLOR) ;;
    when (distance <=? plate_radius * plate_radius)%Z (set_at cx cy dx dy BOSS_PLATE_COLOR)) ;;
  let accent_y := offset cy (- ring_radius) in
  let accent_half_width := scaled_px 3 scale in
  let accent_height := scaled_px 2 scale in
  each (zrange 0 accent_height) (λ dy,
    let inset := Z.min dy accent_half_width in
    each (zrange (- (accent_half_width - inset)) (accent_half_width - inset)) (λ dx,
      set_at cx accent_y dx dy BOSS_ACCENT_COLOR)).

Definition draw_boss_icon (cx cy : Z) (icon : option MapPoiIcon) (scale : f64) : paint :=
  draw_boss_frame cx cy scale ;;
  match icon with Some icon => draw_portrait cx cy icon scale | None => skip end.

Definition draw_wanted_icon (cx cy : Z) (scale : f64) : paint :=
  let radius := scaled_px 8 scale in
  let inner_radius := scaled_px 5 scale in
  square radius radius (λ dx dy,
    let distance_squared := disc_distance dx dy in
    when (distance_squared <=? radius * radius)%Z
      (set_at cx cy dx dy (if (distance_squared <=? inner_radius * inner_radius)%Z then WANTED_DARK else WANTED_COLOR))) ;;
  let arm := scaled_px 4 scale in
  let thickness := scaled_px 1 scale in
  each (zrange (- arm) arm) (λ o, each (zrange (- thickness) thickness) (λ c,
    set_at cx cy o c ICON_WHITE ;; set_at cx cy c o ICON_WHITE)) ;;
  let center_radius := scaled_px 1 scale in
  square center_radius center_radius (λ dx dy, set_at cx cy dx dy WANTED_COLOR).

(** The artwork, or a drawn symbol where there is none. *)
Definition artwork_or (artwork : option paint) (symbol : paint) : paint :=
  match artwork with Some p => p | None => symbol end.

Definition draw_poi_marker (cx cy : Z) (poi : MapPoi) (scale : f64) : paint :=
  let artwork := draw_game_map_icon cx cy (poi_icon poi) scale (poi_icon_visual_policy poi) in
  match poi_kind poi with
  | PkFastTravel =>
      draw_compact_icon_backplate cx cy scale ;; artwork_or artwork (draw_fast_travel_icon cx cy scale)
  | PkBoss => draw_boss_icon cx cy (poi_icon poi) scale
  | PkWanted => draw_emphasis_frame cx cy scale WANTED_COLOR ;; artwork_or artwork (draw_wanted_icon cx cy scale)
  | PkDungeon => draw_compact_icon_backplate cx cy scale ;; artwork_or artwork (draw_dungeon_icon cx cy scale)
  | PkSupplemental =>
      draw_compact_icon_backplate cx cy (mul64 scale (f64_lit 9 10)) ;;
      artwork_or artwork (draw_unverified_map_marker cx cy scale)
  | PkPalSpawn => draw_pal_spawn_icon cx cy (poi_icon poi) scale
  end.

Section Rotation.
Context (sin_cos : f64 → f64 * f64).

Definition draw_player_arrow (short_side : N) (cx cy : Z) (rotation_degrees : f32) : paint :=
  let '(sine, cosine) := sin_cos (rotation_radians rotation_degrees) in
  let arrow_scale := fclamp (div64 (f64_of_N short_side) (f64_of_N 320)) f64_one (f64_lit 125 100) in
  let px value := scaled_px value arrow_scale in
  let length value := f64_of_i32 (px value) in
  let puck_radius := px 13%Z in
  let puck_inner_radius := px 11%Z in
  square puck_radius puck_radius (λ dx dy,
    let distance := disc_distance dx dy in
    when (distance <=? puck_radius * puck_radius)%Z (blend_at cx cy dx dy 0xb8071019) ;;
    when ((distance <=? puck_radius * puck_radius) && (puck_inner_radius * puck_inner_radius <=? distance))%Z
      (blend_at cx cy dx dy 0xc068b7c0)) ;;
  let fill_tip := length 16%Z in
  let fill_half_width := length 7%Z in
  let fill_shoulder_y := length 6%Z in
  let color_inset := length 2%Z in
  let forward_base_y := length 2%Z in
  square (px 21%Z) (px 21%Z) (λ dx dy,
    let sx := f64_of_i32 dx in
    let sy := f64_of_i32 dy in
    let local_x := add64 (mul64 cosine sx) (mul64 sine sy) in
    let local_y := add64 (mul64 (fneg sine) sx) (mul64 cosine sy) in
    if negb (point_in_compass_kite local_x local_y (length 19%Z) (length 10%Z) (length 7%Z) (length 11%Z)) then skip
    else
      let color :=
        if point_in_compass_kite local_x local_y fill_tip fill_half_width fill_shoulder_y (length 8%Z) then
          if fle local_y forward_base_y
             && point_in_triangle local_x local_y
                  (f64_zero, add64 (fneg fill_tip) color_inset)
                  (sub64 fill_half_width color_inset, sub64 fill_shoulder_y color_inset)
                  (add64 (fneg fill_half_width) color_inset, sub64 fill_shoulder_y color_inset)
          then PLAYER_COLOR
          else if fle forward_base_y local_y then PLAYER_REAR_COLOR else ICON_WHITE
        else ICON_SHADOW_COLOR in
      set_at cx cy dx dy color) ;;
  let center_radius := px 2%Z in
  square center_radius center_radius (λ dx dy,
    when (disc_distance dx dy <=? center_radius * center_radius)%Z (set_at cx cy dx dy PLAYER_RING_COLOR)).

(** ** Projections *)

Definition half_side (n : N) : f64 := mul64 (f64_of_N n) f64_half.

(** The place of a map point on a surface of the given size. *)
Definition screen_place (size : PhysicalSize.t) (view : MapView) (map_x map_y : f64) : f64 * f64 :=
  let '(sine, cosine) := sin_cos (rotation_radians (map_rotation_degrees view)) in
  let source_x := sub64 map_x (center_x view) in
  let source_y := sub64 map_y (center_y view) in
  let scale := source_pixels_per_screen_pixel view in
  (add64 (half_side (PhysicalSize.width size)) (div64 (mul_add cosine source_x (mul64 (fneg sine) source_y)) scale),
   add64 (half_side (PhysicalSize.height size)) (div64 (mul_add sine source_x (mul64 cosine source_y)) scale)).

Definition project_map_point (self : CpuMapSurface) (view : MapView) (map_x map_y : f64) : option (Z * Z) :=
  let '(screen_x, screen_y) := screen_place (size self) view map_x map_y in
  if negb (is_finite screen_x) || negb (is_finite screen_y) then None
  else Some (as_i32 (ffloor screen_x), as_i32 (ffloor screen_y)).

(** ** The markers *)

Definition short_side (self : CpuMapSurface) : N := N.min (PhysicalSize.width (size self)) (PhysicalSize.height (size self)).

Definition poi_marker_scale (self : CpuMapSurface) : f64 :=
  let side := short_side self in
  if side <=? 319 then f64_lit 90 100
  else if side <=? 479 then f64_lit 100 100
  else if side <=? 719 then f64_lit 127 100
  else if side <=? 1079 then f64_lit 155 100
  else f64_lit 164 100.

Definition clamp_minimap_marker_center (size : PhysicalSize.t) (screen_x screen_y : f64) (marker_radius : Z) : f64 * f64 :=
  if negb (PhysicalSize.width size =? PhysicalSize.height size) then (screen_x, screen_y)
  else
    let center := half_side (PhysicalSize.width size) in
    let bezel_inset := fmax (fround (div64 (f64_of_N (PhysicalSize.width size)) (f64_of_N 36))) (f64_of_N 2) in
    let safe_radius := fmax (sub64 (sub64 center (f64_of_i32 (Z.max marker_radius 1))) bezel_inset) f64_one in
    let dx := sub64 screen_x center in
    let dy := sub64 screen_y center in
    let distance_squared := mul_add dx dx (mul64 dy dy) in
    if fle distance_squared (mul64 safe_radius safe_radius) || fle distance_squared f64_epsilon
    then (screen_x, screen_y)
    else
      let scale := div64 safe_radius (fsqrt distance_squared) in
      (add64 center (mul64 dx scale), add64 center (mul64 dy scale)).

(** What one drawing of the markers goes by. *)
Record MarkerGrid := mkGrid {
  gr_marker_scale : f64;
  gr_separation : Z;
  gr_edge_margin : Z;
  gr_width : nat;
  gr_height : nat;
}.

Definition minimum_separation (marker_scale scale : f64) : Z :=
  let zoom_density := fclamp (div64 scale (f64_lit 125 100)) f64_one (f64_lit 145 100) in
  as_i32 (fround (mul64 (mul64 (f64_of_N 24) marker_scale) zoom_density)).

(** [div_euclid] panics for a divisor of zero; the divisor is positive here. *)
Definition div_euclid (a b : Z) : option Z := if (0 <? b)%Z then Some (a / b)%Z else None.
Definition usize_try_from (z : Z) : option nat := if (0 <=? z)%Z then Some (Z.to_nat z) else None.

Definition marker_grid (self : CpuMapSurface) (view : MapView) : option MarkerGrid :=
  let marker_scale := poi_marker_scale self in
  let separation := minimum_separation marker_scale (source_pixels_per_screen_pixel view) in
  let edge_margin := scaled_px 12 marker_scale in
  let cells side :=
    side ← i32_try_from (Z.of_N side);
    q ← div_euclid (side + 2 * edge_margin) separation;
    usize_try_from (q + 3) in
  occupancy_width ← cells (PhysicalSize.width (size self));
  occupancy_height ← cells (PhysicalSize.height (size self));
  Some (mkGrid marker_scale separation edge_margin occupancy_width occupancy_height).

Definition DRAW_ORDER : list MapPoiKind := [PkBoss; PkWanted; PkFastTravel; PkDungeon; PkPalSpawn; PkSupplemental].

Definition kind_enabled (compact_minimap : bool) (filters : PoiFilters) (kind : MapPoiKind) : bool :=
  match kind with
  | PkFastTravel => fast_travel filters
  | PkBoss => boss filters
  | PkWanted => wanted filters
  | PkDungeon => dungeon filters
  | PkPalSpawn => negb compact_minimap && negb (is_empty (selected_pal_ids filters))
  | PkSupplemental => negb compact_minimap && negb (supplemental_filter_mask filters =? 0)
  end.

Definition poi_enabled (filters : PoiFilters) (poi : MapPoi) : bool :=
  match poi_kind poi with
  | PkPalSpawn => pal_spawn_filter_enabled poi filters && negb (night_only filters && negb (night_spawn poi))
  | PkSupplemental => negb (N.land (supplemental_filter_bit poi) (supplemental_filter_mask filters) =? 0)
  | _ => true
  end.

(** The points in the order they claim their space. *)
Definition enabled_pois (compact_minimap : bool) (filters : PoiFilters) (pois : list MapPoi) : list MapPoi :=
  kind ← DRAW_ORDER;
  if kind_enabled compact_minimap filters kind
  then filter (λ poi, poi_kind poi = kind ∧ poi_enabled filters poi = true) pois
  else [].

(** Far outside the surface; a coordinate that is not a number passes. *)
Definition culled (size : PhysicalSize.t) (edge_margin : Z) (screen_x screen_y : f64) : bool :=
  let margin := f64_of_i32 edge_margin in
  flt screen_x (fneg margin) || flt screen_y (fneg margin)
  || flt (add64 (f64_of_N (PhysicalSize.width size)) margin) screen_x
  || flt (add64 (f64_of_N (PhysicalSize.height size)) margin) screen_y.

Definition cell_owner (self : CpuMapSurface) (index : nat) : option (option (Z * Z)) :=
  owner ← poi_occupancy self !! index;
  match owner with
  | None => Some None
  | Some owner => Some <$> visible_poi_centers self !! owner
  end.

Definition too_close (separation : Z) (screen_x screen_y : Z) (owner : option (Z * Z)) : bool :=
  match owner with
  | None => false
  | Some (x, y) => (disc_distance (x - screen_x) (y - screen_y) <? separation * separation)%Z
  end.

(** The cells around one, row by row, cut at the end of the grid. *)
Definition neighbors (g : MarkerGrid) (x y : nat) : list nat :=
  let near c limit := seq (c - 1) (S (Nat.min (c + 1) (limit - 1)) - (c - 1)) in
  neighbor_y ← near y (gr_height g);
  neighbor_x ← near x (gr_width g);
  [(neighbor_y * gr_width g + neighbor_x)%nat].

(** The loop over the neighbors, up to the first that overlaps. *)
Fixpoint overlaps (self : CpuMapSurface) (separation screen_x screen_y : Z) (cells : list nat) : option bool :=
  match cells with
  | [] => Some false
  | cell :: cells =>
      owner ← cell_owner self cell;
      if too_close separation screen_x screen_y owner then Some true
      else overlaps self separation screen_x screen_y cells
  end.

Definition store_owner (index owner : nat) : paint := λ s,
  if (index <? length (poi_occupancy s))%nat then Some (s <| poi_occupancy ::= <[index := Some owner]> |>) else None.

(** One point: [None] is a panic. *)
Definition place_poi (g : MarkerGrid) (view : MapView) (poi : MapPoi) : paint := λ s,
  let '(screen_x, screen_y) := screen_place (size s) view (poi_map_x poi) (poi_map_y poi) in
  if culled (size s) (gr_edge_margin g) screen_x screen_y then Some s
  else
    let '(screen_x, screen_y) := clamp_minimap_marker_center (size s) screen_x screen_y (gr_edge_margin g) in
    let screen_x := as_i32 (fround screen_x) in
    let screen_y := as_i32 (fround screen_y) in
    cell_x ← div_euclid (screen_x + gr_edge_margin g) (gr_separation g);
    occupancy_x ← usize_try_from (cell_x + 1);
    cell_y ← div_euclid (screen_y + gr_edge_margin g) (gr_separation g);
    occupancy_y ← usize_try_from (cell_y + 1);
    blocked ← overlaps s (gr_separation g) screen_x screen_y (neighbors g occupancy_x occupancy_y);
    if (blocked : bool) then Some s
    else
      let owner := length (visible_poi_centers s) in
      (store_owner (occupancy_y * gr_width g + occupancy_x) owner ;;
       draw_poi_marker screen_x screen_y poi (gr_marker_scale g))
        (s <| visible_poi_centers ::= λ l, l ++ [(screen_x, screen_y)] |>).

Definition draw_pois (view : MapView) (pois : list MapPoi) (filters : PoiFilters) : paint := λ s,
  let compact_minimap := PhysicalSize.width (size s) =? PhysicalSize.height (size s) in
  g ← marker_grid s view;
  each (enabled_pois compact_minimap filters pois) (place_poi g view)
    (s <| visible_poi_centers := [] |> <| poi_occupancy := replicate (gr_width g * gr_height g) None |>).

(** ** The frame *)

Definition paint_map_pixel (map : MapRaster) (view : MapView) (x y : N) : paint := λ s,
  let inverse_rotation := fneg (rotation_radians (map_rotation_degrees view)) in
  let '(sine, cosine) := sin_cos inverse_rotation in
  let local_x := sub64 (add64 (f64_of_N x) f64_half) (half_side (PhysicalSize.width (size s))) in
  let local_y := sub64 (add64 (f64_of_N y) f64_half) (half_side (PhysicalSize.height (size s))) in
  let rotated_x := mul_add cosine local_x (mul64 (fneg sine) local_y) in
  let rotated_y := mul_add sine local_x (mul64 cosine local_y) in
  let scale := source_pixels_per_screen_pixel view in
  let source_x := add64 (center_x view) (mul64 rotated_x scale) in
  let source_y := add64 (center_y view) (mul64 rotated_y scale) in
  color ← sample_bilinear map source_x source_y;
  set_pixel (wrap_i32 (Z.of_N x)) (wrap_i32 (Z.of_N y)) (unwrap_or color OUT_OF_MAP_BACKDROP) s.

Definition paint_map (map : MapRaster) (view : MapView) : paint := λ s,
  each (range (PhysicalSize.height (size s))) (λ y,
    each (range (PhysicalSize.width (size s))) (λ x, paint_map_pixel map view x y)) s.

(** The arrow, when the player is on the surface, and the highlight of a search. *)
Definition paint_player (view : MapView) : paint := λ s,
  match player_map_x view, player_map_y view with
  | Some map_x, Some map_y =>
      match project_map_point s view map_x map_y with
      | Some (x, y) =>
          let limit side := unwrap_or (i32_try_from (Z.of_N side)) i32_max in
          if ((0 <=? x) && (0 <=? y) && (x <? limit (PhysicalSize.width (size s)))
              && (y <? limit (PhysicalSize.height (size s))))%Z
          then draw_player_arrow (short_side s) x y (player_rotation_degrees view) s
          else Some s
      | None => Some s
      end
  | _, _ => Some s
  end.

Definition paint_highlight (view : MapView) : paint := λ s,
  match highlight_map_x view, highlight_map_y view with
  | Some map_x, Some map_y =>
      match project_map_point s view map_x map_y with
      | Some (x, y) => draw_search_highlight (short_side s) x y s
      | None => Some s
      end
  | _, _ => Some s
  end.

Definition count_frame (cpu_before cpu_after : option N) : paint := λ s,
  Some (s <| performance_counters ::= λ c,
    let c := c <| rasterized_frames ::= λ n, saturating_add n 1 |> in
    match cpu_before, cpu_after with
    | Some before, Some after =>
        let cpu_100ns := saturating_sub after before in
        c <| last_raster_cpu_100ns := cpu_100ns |>
          <| raster_cpu_100ns_total ::= λ n, saturating_add n cpu_100ns |>
          <| raster_cpu_timing_samples ::= λ n, saturating_add n 1 |>
    | _, _ => c <| raster_cpu_timing_failures ::= λ n, saturating_add n 1 |>
    end |>).

Definition rasterize_with_pois (map : MapRaster) (view : MapView) (pois : list MapPoi) (filters : PoiFilters)
    (cpu_before cpu_after : option N) : paint :=
  paint_map map view ;;
  draw_pois view pois filters ;;
  (λ s, if (32 <=? PhysicalSize.width (size s)) && (32 <=? PhysicalSize.height (size s))
        then (paint_player view ;; paint_highlight view) s else Some s) ;;
  count_frame cpu_before cpu_after.

Definition rasterize (map : MapRaster) (view : MapView) : option N → option N → paint :=
  rasterize_with_pois map view []
    (PoiFilters_default <| fast_travel := false |> <| boss := false |> <| wanted := false |> <| dungeon := false |>).
End Rotation.

(** ** What painting keeps *)

Record surface_ok (s : CpuMapSurface) : Prop := {
  su_width : 1 ≤ PhysicalSize.width (size s) ≤ MAX_SURFACE_SIDE;
  su_height : 1 ≤ PhysicalSize.height (size s) ≤ MAX_SURFACE_SIDE;
  su_pixels : len (pixels s) = PhysicalSize.width (size s) * PhysicalSize.height (size s);
  su_colors : Forall is_rgb (pixels s);
}.

(** All but the pixels. *)
Definition canvas (s : CpuMapSurface) := (size s, visible_poi_centers s, poi_occupancy s, performance_counters s).

(** A painting step that does not panic, keeps the surface well-formed and changes nothing
    but pixels. *)
Definition keeps (p : paint) : Prop :=
  ∀ s, surface_ok s → ∃ s', p s = Some s' ∧ surface_ok s' ∧ canvas s' = canvas s.

Create HintDb paints.

Lemma keeps_skip : keeps skip.
Proof. intros s Hs. by exists s. Qed.

Lemma keeps_andThen p q : keeps p → keeps q → keeps (p ;; q).
Proof.
  intros Hp Hq s Hs. unfold andThen. destruct (Hp s Hs) as (s1 & -> & Hs1 & H1).
  destruct (Hq s1 Hs1) as (s2 & H2 & Hs2 & H3). exists s2. split; [done|]. split; [done|congruence].
Qed.

Lemma keeps_each {A} (l : list A) p : (∀ a, a ∈ l → keeps (p a)) → keeps (each l p).
Proof.
  induction l as [|a l IH]; intros H; [apply keeps_skip|]. cbn [each]. apply keeps_andThen.
  - apply H, elem_of_cons. by left.
  - apply IH. intros b Hb. apply H, elem_of_cons. by right.
Qed.

Lemma keeps_each_all {A} (l : list A) p : (∀ a, keeps (p a)) → keeps (each l p).
Proof. intros H. by apply keeps_each. Qed.

Lemma keeps_if (b : bool) p q : keeps p → keeps q → keeps (if b then p else q).
Proof. by destruct b. Qed.

Lemma keeps_when b p : keeps p → keeps (when b p).
Proof. intros. by apply keeps_if, keeps_skip. Qed.

Lemma keeps_given {A} (o : option A) p : is_Some o → (∀ a, o = Some a → keeps (p a)) → keeps (given o p).
Proof. intros [a ->] H s Hs. unfold given. cbn. by apply H. Qed.

Lemma target_index_lt s x y i : surface_ok s → target_index s x y = Some i → (i < length (pixels s))%nat.
Proof.
  intros [Hw Hh Hp _] H. unfold target_index in H. step_if_in H; [done|].
  destruct (N.leb_spec (PhysicalSize.width (size s)) (Z.to_N x)) as [|Hx]; [done|].
  destruct (N.leb_spec (PhysicalSize.height (size s)) (Z.to_N y)) as [|Hy]; [done|]. injection H as <-.
  pose proof (picture_place _ _ _ _ Hx Hy). unfold len in Hp. lia.
Qed.

Lemma store_pixel_ok s i c :
  surface_ok s → (i < length (pixels s))%nat → is_rgb c →
  ∃ s', store_pixel i c s = Some s' ∧ surface_ok s' ∧ canvas s' = canvas s.
Proof.
  intros [Hw Hh Hp Hc] Hi Hcol. unfold store_pixel. rewrite (proj2 (Nat.ltb_lt _ _) Hi).
  eexists. split; [done|]. split; [|done]. split; cbn [size pixels]; [done|done| |].
  - unfold len. cbn. by rewrite length_insert.
  - cbn. by apply Forall_insert.
Qed.

Lemma keeps_set_pixel x y c : is_rgb c → keeps (set_pixel x y c).
Proof.
  intros Hc s Hs. unfold set_pixel. destruct (target_index s x y) as [i|] eqn:Hi; [|by exists s].
  apply store_pixel_ok; [done| |done]. by eapply target_index_lt.
Qed.

(** Every channel of a blend lies between the two colours. *)
Lemma blend_channel_between source destination alpha shift :
  alpha ≤ 255 →
  N.min (channel source shift) (channel destination shift) ≤ blend_channel source destination alpha shift
  ≤ N.max (channel source shift) (channel destination shift).
Proof.
  intros Ha. unfold blend_channel. set (a := channel source shift). set (b := channel destination shift).
  split.
  - apply N.div_le_lower_bound; [done|]. destruct (N.min_spec a b) as [[? ->]|[? ->]]; nia.
  - apply N.lt_succ_r. apply N.Div0.div_lt_upper_bound. destruct (N.max_spec a b) as [[? ->]|[? ->]]; nia.
Qed.

Lemma rgb_small r g b : r ≤ 255 → g ≤ 255 → b ≤ 255 → is_rgb (rgb r g b).
Proof.
  intros Hr Hg Hb. destruct (packed_bytes 0 r g b) as [Hp _]; [lia|done..|].
  change (N.lor (N.lor (N.shiftl r 16) (N.shiftl g 8)) (N.shiftl b 0) = 0 * 16777216 + r * 65536 + g * 256 + b) in Hp.
  rewrite N.shiftl_0_r in Hp. unfold is_rgb, rgb. rewrite Hp. change (2 ^ 24) with 16777216. lia.
Qed.

Lemma blend_color_rgb source destination alpha : alpha ≤ 255 → is_rgb (blend_color source destination alpha).
Proof.
  intros Ha. unfold blend_color.
  assert (∀ s, blend_channel source destination alpha s ≤ 255) as H.
  { intros s. destruct (blend_channel_between source destination alpha s Ha) as [_ Hmax].
    pose proof (channel_le source s). pose proof (channel_le destination s). lia. }
  by apply rgb_small.
Qed.

Lemma low_24_rgb c : is_rgb (N.land c 0x00ffffff).
Proof. change 0x00ffffff with (N.ones 24). unfold is_rgb. rewrite N.land_ones. by apply N.mod_lt. Qed.

Lemma keeps_blend_pixel x y c : keeps (blend_pixel x y c).
Proof.
  intros s Hs. unfold blend_pixel. destruct (target_index s x y) as [i|] eqn:Hi; [|by exists s].
  pose proof (target_index_lt s x y i Hs Hi) as Hlt. pose proof (channel_le c 24) as Ha.
  destruct (N.eqb_spec (channel c 24) 0); [by exists s|]. destruct (N.eqb_spec (channel c 24) 255).
  - apply store_pixel_ok; [done|done|apply low_24_rgb].
  - destruct (lookup_lt_is_Some_2 (pixels s) i Hlt) as [d ->]. cbn [mbind option_bind].
    apply store_pixel_ok; [done|done|by apply blend_color_rgb].
Qed.

Lemma keeps_blend_at x y dx dy c : keeps (blend_at x y dx dy c).
Proof. apply keeps_blend_pixel. Qed.

Lemma keeps_set_at x y dx dy c : is_rgb c → keeps (set_at x y dx dy c).
Proof. apply keeps_set_pixel. Qed.

Lemma keeps_square rx ry p : (∀ dx dy, keeps (p dx dy)) → keeps (square rx ry p).
Proof. intros H. unfold square. apply keeps_each_all. intros dy. apply keeps_each_all. intros dx. apply H. Qed.

(** The colours of the shapes are constants. *)
Ltac rgb_constant :=
  first [assumption | lazymatch goal with |- is_rgb ?c => is_const c; unfold is_rgb, c; reflexivity end | idtac].

(** Shapes are built from these steps. *)
Ltac paint_step :=
  lazymatch goal with
  | |- keeps (let _ := _ in _) => cbv zeta
  | |- keeps (square _ _ _) => apply keeps_square; intros ? ?; cbv beta zeta
  | |- keeps (each _ _) => apply keeps_each_all; intros ?; cbv beta zeta
  | |- keeps (_ ;; _) => apply keeps_andThen
  | |- keeps (when _ _) => apply keeps_when
  | |- keeps (if _ then _ else _) => apply keeps_if
  | |- keeps skip => exact keeps_skip
  | |- keeps (blend_at _ _ _ _ _) => apply keeps_blend_at
  | |- keeps (blend_pixel _ _ _) => apply keeps_blend_pixel
  | |- keeps (set_pixel _ _ _) => apply keeps_set_pixel; rgb_constant
  | |- keeps (set_at _ _ _ _ _) => apply keeps_set_at; rgb_constant
  | |- keeps _ => solve [auto 1 with paints nocore]
  end.
Ltac paint_shape := repeat paint_step.

Lemma keeps_shadowed cx cy dx dy below c : is_rgb c → keeps (set_shadowed cx cy dx dy below c).
Proof. intros Hc. unfold set_shadowed. paint_shape. Qed.
#[export] Hint Extern 1 (keeps (set_shadowed _ _ _ _ _ _)) => (apply keeps_shadowed; rgb_constant) : paints.

Lemma as_i32_positive x : f64_ok x = true → fle f64_one x = true → (1 ≤ as_i32 x)%Z.
Proof.
  intros Ho Hle. pose proof (as_u32_positive x Ho Hle) as H. destruct x as [|[]| |[] m e]; try done.
  rewrite as_u32_finite_pos in H. cbn [as_i32 cond_Zopp]. unfold i32_max, i32_min. lia.
Qed.

Lemma scaled_px_range value scale : f64_ok scale = true → (1 ≤ scaled_px value scale ≤ i32_max)%Z.
Proof.
  intros Hs. unfold scaled_px. split; [|apply as_i32_range]. apply as_i32_positive.
  - apply fmax_ok; [apply fround_ok, fmul_ok; [apply normalize_ok|done]|done].
  - by apply fmax_lower.
Qed.

Lemma elem_of_zrange lo hi i : i ∈ zrange lo hi → (lo ≤ i ≤ hi)%Z.
Proof. unfold zrange. intros (k & -> & Hk%elem_of_seq)%list_elem_of_fmap. lia. Qed.

Lemma lor_one n : n ≤ 2147483647 → N.lor n 1 < 2 ^ 32.
Proof.
  intros Hn. pose proof (Z.add_lor_land (Z.of_N n) (Z.of_N 1)) as H.
  rewrite <- N2Z.inj_lor, <- N2Z.inj_land in H. change (2 ^ 32) with 4294967296. lia.
Qed.

(** One sample of an icon, within the square of its side. *)
Lemma keeps_sample icon side half dx dy p :
  icon_ok icon → side < 2 ^ 32 → (- half ≤ dx ≤ half)%Z → (- half ≤ dy ≤ half)%Z → (∀ source, keeps (p source)) →
  keeps (given (u32_try_from (dx + half)) (λ x, given (u32_try_from (dy + half)) (λ y,
    given (sample_scaled_visible_fit icon x y side) p))).
Proof.
  intros Hicon Hside Hdx Hdy Hp.
  assert (∀ d, (- half ≤ d ≤ half)%Z → is_Some (u32_try_from (d + half))) as Htry.
  { intros d Hd. unfold u32_try_from. destruct (Z.leb_spec 0 (d + half)); [by eexists|lia]. }
  apply keeps_given; [by apply Htry|]. intros x _. apply keeps_given; [by apply Htry|]. intros y _.
  apply keeps_given; [by apply sample_icon_some|]. intros source _. apply Hp.
Qed.

Lemma keeps_icon_square value scale (p : N → Z → Z → Z → paint) :
  f64_ok scale = true →
  (∀ side half dx dy, side < 2 ^ 32 → (- half ≤ dx ≤ half)%Z → (- half ≤ dy ≤ half)%Z → keeps (p side half dx dy)) →
  keeps (given (u32_try_from (scaled_px value scale)) (λ side,
    let target_side := N.lor side 1 in
    let half := Z.of_N (target_side / 2) in
    square half half (λ dx dy, p target_side half dx dy))).
Proof.
  intros Hs Hp. pose proof (scaled_px_range value scale Hs) as Hr. unfold i32_max in Hr.
  apply keeps_given. { unfold u32_try_from. destruct (Z.leb_spec 0 (scaled_px value scale)); [by eexists|lia]. }
  intros side Hside%u32_try_from_some. cbv zeta. set (t := N.lor side 1). set (half := Z.of_N (t / 2)).
  assert (t < 2 ^ 32) as Ht by (apply lor_one; lia).
  unfold square. apply keeps_each. intros dy Hdy%elem_of_zrange. apply keeps_each. intros dx Hdx%elem_of_zrange.
  by apply Hp.
Qed.

Definition icon_option_ok (icon : option MapPoiIcon) : Prop := match icon with Some i => icon_ok i | None => True end.

Lemma keeps_game_map_icon cx cy icon scale policy symbol :
  f64_ok scale = true → f64_ok (artwork_scale policy) = true → icon_option_ok icon → keeps symbol →
  keeps (artwork_or (draw_game_map_icon cx cy icon scale policy) symbol).
Proof.
  intros Hs Ha Hi Hsym. unfold draw_game_map_icon. destruct icon as [icon|]; [|done]. cbn [mbind option_bind artwork_or].
  set (x := offset cx _). set (y := offset cy _).
  apply (keeps_icon_square 22 (mul64 scale (artwork_scale policy)) (λ side half dx dy,
    given (u32_try_from (dx + half)) (λ i, given (u32_try_from (dy + half)) (λ j,
    given (sample_scaled_visible_fit icon i j side) (λ source,
      when (negb (N.shiftr source 24 =? 0))
        (blend_pixel (offset (offset x dx) 1) (offset (offset y dy) 1) 0x70071019 ;;
         blend_at x y dx dy source)))))); [by apply fmul_ok|].
  intros. apply keeps_sample; [done..|]. intros source. paint_shape.
Qed.

Lemma keeps_portrait cx cy icon scale : f64_ok scale = true → icon_ok icon → keeps (draw_portrait cx cy icon scale).
Proof.
  intros Hs Hi. unfold draw_portrait.
  apply (keeps_icon_square 21 scale (λ side half dx dy,
    if (half * half <? disc_distance dx dy)%Z then skip
    else given (u32_try_from (dx + half)) (λ i, given (u32_try_from (dy + half)) (λ j,
      given (sample_scaled_visible_fit icon i j side) (λ source, blend_at cx cy dx dy source))))); [done|].
  intros. apply keeps_if; [apply keeps_skip|]. apply keeps_sample; [done..|]. intros source. paint_shape.
Qed.

Lemma keeps_search_highlight side cx cy : keeps (draw_search_highlight side cx cy).
Proof. unfold draw_search_highlight. paint_shape. Qed.
Lemma keeps_fast_travel cx cy scale : keeps (draw_fast_travel_icon cx cy scale).
Proof. unfold draw_fast_travel_icon. paint_shape. Qed.
Lemma keeps_backplate cx cy scale : keeps (draw_compact_icon_backplate cx cy scale).
Proof. unfold draw_compact_icon_backplate. paint_shape. Qed.
Lemma keeps_unverified cx cy scale : keeps (draw_unverified_map_marker cx cy scale).
Proof. unfold draw_unverified_map_marker. paint_shape. Qed.
Lemma keeps_emphasis cx cy scale accent : is_rgb accent → keeps (draw_emphasis_frame cx cy scale accent).
Proof. intros Ha. unfold draw_emphasis_frame. paint_shape. Qed.
Lemma keeps_dungeon cx cy scale : keeps (draw_dungeon_icon cx cy scale).
Proof. unfold draw_dungeon_icon. paint_shape. Qed.
Lemma keeps_boss_frame cx cy scale : keeps (draw_boss_frame cx cy scale).
Proof. unfold draw_boss_frame. paint_shape. Qed.
Lemma keeps_wanted cx cy scale : keeps (draw_wanted_icon cx cy scale).
Proof. unfold draw_wanted_icon. paint_shape. by destruct (_ <=? _)%Z. Qed.
Lemma keeps_player_arrow sin_cos side cx cy rotation : keeps (draw_player_arrow sin_cos side cx cy rotation).
Proof.
  unfold draw_player_arrow. destruct (sin_cos _) as [sine cosine]. paint_shape.
  by repeat step_if.
Qed.
#[export] Hint Resolve keeps_search_highlight keeps_fast_travel keeps_backplate keeps_unverified
  keeps_dungeon keeps_boss_frame keeps_wanted keeps_player_arrow : paints.

Definition poi_ok (poi : MapPoi) : Prop :=
  data (poi_map_x poi) ∧ data (poi_map_y poi) ∧ icon_option_ok (poi_icon poi).

Lemma policy_ok poi : f64_ok (artwork_scale (poi_icon_visual_policy poi)) = true.
Proof. unfold poi_icon_visual_policy. destruct (poi_kind poi); try by vm_compute. destruct (poi_filter_id poi); [|by vm_compute]. repeat step_if; by vm_compute. Qed.

Lemma keeps_poi_marker cx cy poi scale : f64_ok scale = true → poi_ok poi → keeps (draw_poi_marker cx cy poi scale).
Proof.
  intros Hs (_ & _ & Hi). pose proof (policy_ok poi) as Hp. unfold draw_poi_marker.
  assert (∀ cx cy symbol, keeps symbol →
    keeps (artwork_or (draw_game_map_icon cx cy (poi_icon poi) scale (poi_icon_visual_policy poi)) symbol)) as Hart
    by (intros; by apply keeps_game_map_icon).
  cbv zeta. destruct (poi_kind poi).
  - paint_step; [paint_step|]. apply Hart. paint_step.
  - unfold draw_boss_icon. paint_step; [paint_step|]. destruct (poi_icon poi); [by apply keeps_portrait|paint_step].
  - paint_step; [by apply keeps_emphasis|]. apply Hart. paint_step.
  - paint_step; [paint_step|]. apply Hart. paint_step.
  - paint_step; [paint_step|]. apply Hart. paint_step.
  - unfold draw_pal_spawn_icon. destruct (poi_icon poi) as [icon|]; [|paint_step].
    cbv zeta. paint_step; [paint_shape|by apply keeps_portrait].
Qed.

(** ** Where markers land *)

Local Open Scope Z_scope.

(** A coordinate at most a margin outside a side of the surface, or not a number. *)
Definition on_screen (side margin : Z) (x : f64) : Prop :=
  x = S754_nan ∨ data x ∧ - margin * unit_val ≤ val x ≤ (side + margin) * unit_val.

Lemma round_on_screen side margin x :
  on_screen side margin x → 0 ≤ side ≤ 4096 → 0 ≤ margin ≤ 4096 → - margin ≤ as_i32 (fround x) ≤ side + margin.
Proof.
  intros [->|[Dx Vx]] Hs Hm; [cbn; lia|]. apply round_i32_between; [done|done|..]; unfold i32_max; lia.
Qed.

Lemma f64_of_i32_data z : 0 ≤ z < 2 ^ 53 → data (f64_of_i32 z) ∧ val (f64_of_i32 z) = z * unit_val.
Proof.
  intros Hz. destruct (f64_of_N_data (Z.to_N z)) as [D V]; [lia|]. unfold f64_of_N in *.
  by rewrite Z2N.id in * by lia.
Qed.

(** What is not culled is near the surface. *)
Lemma axis_not_culled side margin x :
  (side ≤ 4096)%N → 0 ≤ margin ≤ 4096 → f64_ok x = true →
  flt x (fneg (f64_of_i32 margin)) = false → flt (add64 (f64_of_N side) (f64_of_i32 margin)) x = false →
  on_screen (Z.of_N side) margin x.
Proof.
  intros Hs Hm Hx Hlow Hhigh. destruct (f64_of_i32_data margin) as [Dm Vm]; [lia|].
  destruct (f64_of_N_data side) as [Ds Vs]; [lia|].
  assert (data (add64 (f64_of_N side) (f64_of_i32 margin)) ∧
          val (add64 (f64_of_N side) (f64_of_i32 margin)) = (Z.of_N side + margin) * unit_val) as [Dh Vh].
  { apply (rounded_units _ _ _ (fadd_rounded _ _ Ds Dm)); [rewrite Vs, Vm|]; lia. }
  set (hi := add64 _ _) in *. clearbody hi.
  assert (data (fneg (f64_of_i32 margin))) as Dn by by apply data_fneg.
  destruct (data_cases x Hx) as [Dx|Fx].
  - right. split; [done|]. apply not_true_iff_false in Hlow, Hhigh. rewrite flt_val in Hlow, Hhigh by done.
    rewrite val_fneg in Hlow. lia.
  - destruct x as [|[]| |]; [done| | |by left|done]; exfalso.
    + destruct Dn as [_ Fn]. by destruct (fneg _).
    + destruct Dh as [_ Fh]. by destruct hi.
Qed.

Lemma mul_add_nan x y z : x = S754_nan ∨ y = S754_nan ∨ z = S754_nan → mul_add x y z = S754_nan.
Proof. intros [->|[->| ->]]; [done|by destruct x|]. by destruct x, y. Qed.
Lemma sub_nan y : sub64 S754_nan y = S754_nan.
Proof. by destruct y. Qed.
Lemma mul_nan x y : x = S754_nan ∨ y = S754_nan → mul64 x y = S754_nan.
Proof. intros [->| ->]; [done|by destruct x]. Qed.
Lemma add_nan_r x : add64 x S754_nan = S754_nan.
Proof. by destruct x. Qed.

(** The root of a sum of squares is not much smaller than one of them: [D] and [R] are the
    rounded sum and its root. *)
Lemma leg_below_root X D R u t :
  0 < t → u = 4096 * t → 0 < R → u ≤ D → X * X ≤ D * u + 2 * t * u →
  (999 * 999) * (D * u) ≤ (1000 * R) * (1000 * R) → 1000 * Z.abs X ≤ 1002 * R.
Proof.
  intros Ht -> HR HD HX HR2. rewrite <- (Z.abs_square X) in HX. set (x := Z.abs X) in *.
  assert (0 ≤ x) by (unfold x; lia). clearbody x. apply Z.le_ngt. intros Hgt.
  assert (t * (4096 * t) ≤ t * D) by (apply Z.mul_le_mono_nonneg_l; lia).
  assert (0 < t * D) by (apply Z.mul_pos_pos; lia).
  assert (1002 * R * (1002 * R) < 1000 * x * (1000 * x)) by (apply Z.mul_lt_mono_nonneg; lia).
  replace (D * (4096 * t)) with (4096 * (t * D)) in * by lia.
  replace (1002 * R * (1002 * R)) with (1004004 * (R * R)) in * by lia.
  replace (1000 * R * (1000 * R)) with (1000000 * (R * R)) in * by lia.
  replace (1000 * x * (1000 * x)) with (1000000 * (x * x)) in * by lia.
  set (td := t * D) in *. set (xx := x * x) in *. set (rr := R * R) in *. clearbody td xx rr. lia.
Qed.

(** The scaled leg is at most the safe radius and a little. *)
Lemma scaled_leg_bound X R S Q t :
  0 < t → 0 ≤ Q → 0 ≤ S → 1000 * Z.abs X ≤ 1002 * R → Z.abs X ≤ 8192 * (4096 * t) →
  Q * R ≤ S * (4096 * t) + t * R →
  1000 * (Z.abs X * Q) ≤ (1002 * S + 2000 * (4096 * t)) * (4096 * t).
Proof.
  intros Ht HQ HS HX HX2 HQR. set (x := Z.abs X) in *. assert (0 ≤ x) by (unfold x; lia). clearbody x.
  destruct (Z.le_gt_cases Q t) as [Hle|Hgt].
  - assert (x * Q ≤ 8192 * (4096 * t) * t) by (apply Z.mul_le_mono_nonneg; lia). nia.
  - assert (1000 * x * (Q - t) ≤ 1002 * R * (Q - t)) by (apply Z.mul_le_mono_nonneg_r; lia).
    assert (x * t ≤ 8192 * (4096 * t) * t) by (apply Z.mul_le_mono_nonneg_r; lia).
    replace (1000 * (x * Q)) with (1000 * x * (Q - t) + 1000 * (x * t)) by lia.
    replace (1002 * R * (Q - t)) with (1002 * (Q * R - t * R)) in * by lia. nia.
Qed.

Lemma positive_sign x : 0 < val x → is_sign_negative x = false.
Proof. destruct x as [| | |[] m e]; cbn; try lia. unfold weight. nia. Qed.

Lemma scaled_leg safe dx dsq :
  data safe → data dx → data dsq → unit_val ≤ val safe ≤ 8192 * unit_val → Z.abs (val dx) ≤ 8192 * unit_val →
  unit_val ≤ val dsq ≤ 2 ^ 30 * unit_val → val dx * val dx ≤ val dsq * unit_val + 2 * tiny * unit_val →
  let leg := mul64 dx (div64 safe (fsqrt dsq)) in
  data leg ∧ 1000 * Z.abs (val leg) ≤ 1002 * val safe + 3000 * unit_val.
Proof.
  intros Ds Dx Dq Vs Vx Vq HX leg. pose proof unit_val_pos as HU. pose proof tiny_pos as Ht. pose proof unit_tiny as Hut.
  destruct (fsqrt_lower dsq Dq Vq) as (Dr & Hr & Hroot).
  pose proof (leg_below_root _ _ _ _ _ Ht Hut Hr (proj1 Vq) HX Hroot) as Hleg.
  set (X := val dx) in *. set (R := val (fsqrt dsq)) in *. set (S := val safe) in *.
  assert (999 * unit_val ≤ 1000 * R) as HR.
  { apply Z.le_ngt. intros Hlt. assert (1000 * R * (1000 * R) < 999 * unit_val * (999 * unit_val))
      by (apply Z.mul_lt_mono_nonneg; lia). nia. }
  pose proof (fdiv_rounded safe (fsqrt dsq) Ds Dr ltac:(fold R; lia)) as Hdiv.
  rewrite (positive_sign _ Hr) in Hdiv. cbn [cond_Zopp] in Hdiv. fold S R in Hdiv. rewrite Z.abs_eq in Hdiv by lia.
  destruct (rounded_near _ _ _ Hdiv Hr) as [Dd Vd].
  { change (2 ^ 40) with 1099511627776. rewrite Z.abs_eq by nia. nia. }
  assert (0 ≤ val (div64 safe (fsqrt dsq))) as HQ0.
  { apply (rd_lower _ _ _ Hdiv 0); [by destruct Dd|apply representable_0|nia]. }
  set (Q := val (div64 safe (fsqrt dsq))) in *.
  pose proof (scaled_leg_bound X R S Q tiny Ht HQ0 ltac:(lia) Hleg ltac:(lia) ltac:(nia)) as Hb.
  rewrite <- Hut in Hb.
  pose proof (fmul_rounded dx _ Dx Dd) as Hmul. fold X Q leg in Hmul.
  destruct (rounded_near _ _ _ Hmul HU) as [Dl Vl].
  { change (2 ^ 40) with 1099511627776. rewrite Z.abs_mul, (Z.abs_eq Q) by lia. nia. }
  split; [done|]. rewrite <- (Z.abs_eq Q) in Hb by lia. rewrite <- Z.abs_mul in Hb.
  set (L := val leg) in *. set (XQ := X * Q) in *. clearbody XQ L S.
  assert (1000 * (Z.abs L * unit_val) ≤ (1002 * S + 3000 * unit_val) * unit_val); [|nia].
  assert (Z.abs L * unit_val = Z.abs (L * unit_val)) as -> by (rewrite Z.abs_mul, (Z.abs_eq unit_val); lia).
  nia.
Qed.

Lemma half_side_near n :
  (n ≤ 4096)%N → data (half_side n) ∧ Z.abs (2 * val (half_side n) - Z.of_N n * unit_val) ≤ 2 * tiny.
Proof.
  intros Hn. destruct (f64_of_N_data n) as [Dn Vn]; [lia|]. destruct half_val as [Dh Vh].
  pose proof unit_val_pos as HU. pose proof (fmul_rounded _ _ Dn Dh) as Hr. rewrite Vn in Hr.
  assert (2 * (Z.of_N n * unit_val * val f64_half) = Z.of_N n * unit_val * unit_val) as HV.
  { transitivity (Z.of_N n * unit_val * (2 * val f64_half)); [lia|by rewrite Vh]. }
  destruct (rounded_near _ _ _ Hr HU) as [D V].
  { change (2 ^ 40) with 1099511627776. rewrite Z.abs_eq by nia. nia. }
  split; [done|]. fold (half_side n) in V. set (c := val (half_side n)) in *. clearbody c. nia.
Qed.

Definition safe_radius (n : N) (marker_radius : Z) : f64 :=
  let bezel_inset := fmax (fround (div64 (f64_of_N n) (f64_of_N 36))) (f64_of_N 2) in
  fmax (sub64 (sub64 (half_side n) (f64_of_i32 (Z.max marker_radius 1))) bezel_inset) f64_one.

Lemma safe_radius_bounds n margin :
  (1 ≤ n ≤ 4096)%N → 1 ≤ margin ≤ 4096 →
  data (safe_radius n margin) ∧ unit_val ≤ val (safe_radius n margin) ≤ Z.max (val (half_side n)) unit_val.
Proof.
  intros Hn Hm. unfold safe_radius. rewrite Z.max_l by lia. cbv zeta.
  pose proof unit_val_pos as HU. pose proof tiny_pos as Ht. pose proof unit_tiny as Hut.
  assert (unit_val ≤ margin * unit_val ≤ 4096 * unit_val) as HmU by nia.
  destruct (half_side_near n) as [Dc Vc]; [lia|]. destruct (f64_of_i32_data margin) as [Dm Vm]; [lia|].
  destruct (f64_of_N_data n) as [Dn Vn]; [lia|].
  destruct (f64_of_N_data 36) as [D36 V36]; [done|]. destruct (f64_of_N_data 2) as [D2 V2]; [done|].
  destruct (div_between (Z.of_N n) (f64_of_N n) (f64_of_N 36)) as [Dq Vq]; [split; [done|lia]|done|lia|lia|].
  destruct (fround_value _ Dq) as [Df Vf]; [change (2 ^ 52) with 4503599627370496; nia|].
  set (bezel := fround _) in *. set (q := val (div64 _ _)) in *.
  assert (0 ≤ (2 * q + unit_val) / (2 * unit_val)) by (apply Z.div_pos; lia).
  assert ((2 * q + unit_val) / (2 * unit_val) < Z.of_N n + 1) by (apply Z.div_lt_upper_bound; lia).
  set (k := (2 * q + unit_val) / (2 * unit_val)) in *.
  destruct (val_fmax bezel (f64_of_N 2) Df D2) as [Db Vb]. rewrite Vf, V2 in Vb. set (b := fmax bezel _) in *.
  change (2 ^ 40) with 1099511627776 in *.
  destruct (rounded_near _ _ _ (fsub_rounded _ _ Dc Dm)) as [D1 V1]; [lia|rewrite Vm; nia|].
  set (c1 := sub64 (half_side n) _) in *.
  assert (2 * unit_val ≤ val b ≤ 8192 * unit_val) as Hb by nia.
  destruct (rounded_near _ _ _ (fsub_rounded c1 b D1 Db)) as [Ds Vs]; [lia|nia|].
  destruct (val_fmax (sub64 c1 b) f64_one Ds) as [DS VS]; [by vm_compute|].
  change (val f64_one) with (1 * unit_val) in VS. split; [done|].
  rewrite Vm in V1. rewrite VS. set (s := val (sub64 c1 b)) in *. set (v1 := val c1) in *. set (vb := val b) in *.
  clear - HU Ht Hut HmU V1 Vs Hb. clearbody s v1 vb. lia.
Qed.

(** The square of the distance of two legs, rounded. *)
Lemma distance_near dx dy :
  data dx → data dy → Z.abs (val dx) ≤ 8192 * unit_val → Z.abs (val dy) ≤ 8192 * unit_val →
  let dsq := mul_add dx dx (mul64 dy dy) in
  data dsq ∧ val dsq ≤ 2 ^ 30 * unit_val ∧
  val dx * val dx ≤ val dsq * unit_val + 2 * tiny * unit_val ∧
  val dy * val dy ≤ val dsq * unit_val + 2 * tiny * unit_val.
Proof.
  intros Dx Dy Vx Vy dsq. pose proof unit_val_pos as HU. pose proof tiny_pos as Ht. pose proof unit_tiny as Hut.
  assert (∀ z, Z.abs z ≤ 8192 * unit_val → 0 ≤ z * z ≤ 67108864 * unit_val * unit_val) as Hsq.
  { intros z Hz. split; [nia|]. rewrite <- (Z.abs_square z).
    transitivity (8192 * unit_val * (8192 * unit_val)); [apply Z.mul_le_mono_nonneg; lia|lia]. }
  pose proof (Hsq _ Vx) as HX. pose proof (Hsq _ Vy) as HY. change (2 ^ 30) with 1073741824.
  destruct (rounded_near _ _ _ (fmul_rounded dy dy Dy Dy) HU) as [Dm Vm].
  { change (2 ^ 40) with 1099511627776. lia. }
  pose proof (rd_lower _ _ _ (fmul_rounded dy dy Dy Dy) 0 (proj2 Dm) representable_0 ltac:(lia)) as Hm0.
  pose proof (mul_add_rounded dx dx _ Dx Dx Dm) as Hr. fold dsq in Hr.
  set (m := val (mul64 dy dy)) in *. set (X := val dx * val dx) in *. set (Y := val dy * val dy) in *. clearbody m X Y.
  assert (m * unit_val ≤ 67108864 * unit_val * unit_val + tiny * unit_val) as Hm by lia.
  destruct (rounded_near _ _ _ Hr HU) as [Dd Vd].
  { change (2 ^ 40) with 1099511627776. nia. }
  set (d := val dsq) in *. clearbody d. split; [done|].
  assert (0 ≤ m * unit_val) by (apply Z.mul_nonneg_nonneg; lia).
  assert (0 < tiny * unit_val ≤ unit_val * unit_val) by (split; [|apply Z.mul_le_mono_nonneg_r]; lia).
  split; [|lia]. apply (Z.mul_le_mono_pos_r _ _ unit_val HU). lia.
Qed.

Lemma center_plus n leg safe margin :
  (1 ≤ n ≤ 4096)%N → 8 ≤ margin → data leg → val safe ≤ Z.max (val (half_side n)) unit_val →
  1000 * Z.abs (val leg) ≤ 1002 * val safe + 3000 * unit_val → margin ≤ 4096 →
  on_screen (Z.of_N n) margin (add64 (half_side n) leg).
Proof.
  intros Hn Hm Dl Hs Hl Hm2. right. pose proof unit_val_pos as HU. pose proof tiny_pos as Ht. pose proof unit_tiny as Hut.
  destruct (half_side_near n) as [Dc Vc]; [lia|].
  apply (units_between _ _ _ _ _ (fadd_rounded _ _ Dc Dl)); [lia|lia|].
  set (c := val (half_side n)) in *. set (l := val leg) in *. set (s := val safe) in *. clearbody c l s.
  assert (unit_val ≤ Z.of_N n * unit_val ≤ 4096 * unit_val) by nia.
  assert (8 * unit_val ≤ margin * unit_val) by nia.
  rewrite Z.mul_1_r, Z.mul_opp_l, Z.mul_add_distr_r.
  set (nu := Z.of_N n * unit_val) in *. set (mu := margin * unit_val) in *. clearbody nu mu. lia.
Qed.

Lemma leg_near n x margin :
  (1 ≤ n ≤ 4096)%N → 8 ≤ margin ≤ 4096 → data x → - margin * unit_val ≤ val x ≤ (Z.of_N n + margin) * unit_val →
  data (sub64 x (half_side n)) ∧ Z.abs (val (sub64 x (half_side n))) ≤ 8192 * unit_val.
Proof.
  intros Hn Hm Dx Vx. pose proof unit_val_pos as HU. pose proof tiny_pos as Ht. pose proof unit_tiny as Hut.
  destruct (half_side_near n) as [Dc Vc]; [lia|].
  assert (Z.abs (val x) ≤ 8192 * unit_val ∧ - 4096 * unit_val ≤ val x) as [Hx Hx2] by nia.
  assert (unit_val ≤ Z.of_N n * unit_val ≤ 4096 * unit_val) by nia.
  set (c := val (half_side n)) in *. set (v := val x) in *.
  destruct (units_between _ _ _ (-8192) 8192 (fsub_rounded _ _ Dx Dc)) as [D V]; [lia|lia| |split; [done|lia]].
  fold c v. rewrite !Z.mul_1_r. clearbody c v. nia.
Qed.

(** What is beyond the safe radius is at least a pixel away. *)
Lemma beyond_safe n margin dsq :
  (1 ≤ n ≤ 4096)%N → 1 ≤ margin ≤ 4096 → data dsq →
  fle dsq (mul64 (safe_radius n margin) (safe_radius n margin)) = false → unit_val ≤ val dsq.
Proof.
  intros Hn Hm Dq Hfar. pose proof unit_val_pos as HU. pose proof tiny_pos as Ht. pose proof unit_tiny as Hut.
  destruct (safe_radius_bounds n margin Hn Hm) as [Ds Vs]. destruct (half_side_near n) as [_ Vc]; [lia|].
  pose proof (fmul_rounded _ _ Ds Ds) as Hr. set (s := val (safe_radius n margin)) in *.
  assert (s ≤ 8192 * unit_val) as Hs by nia.
  assert (unit_val * unit_val ≤ s * s ≤ 2 ^ 30 * unit_val * unit_val) as HSS.
  { change (2 ^ 30) with 1073741824. split; [apply Z.mul_le_mono_nonneg; lia|].
    transitivity (8192 * unit_val * (8192 * unit_val)); [apply Z.mul_le_mono_nonneg; lia|nia]. }
  destruct (units_between _ _ _ 1 (2 ^ 30) Hr) as [Dss Vss]; [done|done|lia|].
  apply not_true_iff_false in Hfar. rewrite fle_val in Hfar by done. lia.
Qed.

(** Pulling a marker into the round minimap keeps it on the screen. *)
Lemma clamp_on_screen size margin sx sy :
  (1 ≤ PhysicalSize.width size ≤ 4096)%N → 8 ≤ margin ≤ 4096 →
  on_screen (Z.of_N (PhysicalSize.width size)) margin sx → on_screen (Z.of_N (PhysicalSize.height size)) margin sy →
  on_screen (Z.of_N (PhysicalSize.width size)) margin (clamp_minimap_marker_center size sx sy margin).1 ∧
  on_screen (Z.of_N (PhysicalSize.height size)) margin (clamp_minimap_marker_center size sx sy margin).2.
Proof.
  intros Hw Hm Hx Hy. unfold clamp_minimap_marker_center.
  destruct (N.eqb_spec (PhysicalSize.width size) (PhysicalSize.height size)) as [Heq|]; cbn [negb]; [|done].
  rewrite <- Heq in *. set (n := PhysicalSize.width size) in *. cbv zeta. fold (safe_radius n margin).
  pose proof unit_val_pos as HU. pose proof tiny_pos as Ht.
  destruct (half_side_near n) as [Dc _]; [lia|].
  destruct (safe_radius_bounds n margin) as [Ds Vs]; [lia|lia|].
  set (dx := sub64 sx (half_side n)). set (dy := sub64 sy (half_side n)). set (dsq := mul_add dx dx (mul64 dy dy)).
  step_if; [done|]. apply orb_false_iff in Heqb as [Hfar _]. cbn [fst snd].
  destruct (decide (sx = S754_nan ∨ sy = S754_nan)) as [Hnan|Hnum].
  { assert (dsq = S754_nan) as ->.
    { apply mul_add_nan. destruct Hnan as [-> | ->].
      - left. apply sub_nan.
      - right. right. apply mul_nan. left. apply sub_nan. }
    assert (∀ a b, add64 a (mul64 b (div64 (safe_radius n margin) (fsqrt S754_nan))) = S754_nan) as Hn.
    { intros a b. change (fsqrt S754_nan) with S754_nan. rewrite (mul_nan b); [apply add_nan_r|].
      right. by destruct (safe_radius n margin). }
    rewrite !Hn. by split; left. }
  destruct Hx as [->|[Dx Vx]]; [tauto|]. destruct Hy as [->|[Dy Vy]]; [tauto|].
  destruct (leg_near n sx margin Hw Hm Dx Vx) as [Ddx Vdx]. destruct (leg_near n sy margin Hw Hm Dy Vy) as [Ddy Vdy].
  fold dx in Ddx, Vdx. fold dy in Ddy, Vdy.
  destruct (distance_near dx dy Ddx Ddy Vdx Vdy) as (Dq & Vq & HX & HY). fold dsq in Dq, Vq, HX, HY.
  pose proof (beyond_safe n margin dsq ltac:(lia) ltac:(lia) Dq Hfar) as Hq.
  destruct (half_side_near n) as [_ Vc]; [lia|]. pose proof unit_tiny as Hut.
  assert (unit_val ≤ val (safe_radius n margin) ≤ 8192 * unit_val) as Vs2 by nia.
  assert (0 ≤ tiny * unit_val) by nia.
  destruct (scaled_leg _ dx dsq Ds Ddx Dq Vs2 Vdx (conj Hq Vq) HX) as [Dlx Vlx].
  destruct (scaled_leg _ dy dsq Ds Ddy Dq Vs2 Vdy (conj Hq Vq) HY) as [Dly Vly].
  split; by apply (center_plus _ _ (safe_radius n margin)); [lia|lia|done|lia|done|lia].
Qed.

(** ** The grid *)

Definition marker_scale_ok (scale : f64) : Prop :=
  data scale ∧ 8 ≤ scaled_px 12 scale ≤ 20 ∧
  data (mul64 (f64_of_N 24) scale) ∧ 21 * unit_val ≤ val (mul64 (f64_of_N 24) scale) ≤ 40 * unit_val.

Lemma poi_marker_scale_ok s : marker_scale_ok (poi_marker_scale s).
Proof. unfold poi_marker_scale. repeat step_if; unfold marker_scale_ok; split_and!; by vm_compute. Qed.

Lemma minimum_separation_range marker_scale scale :
  marker_scale_ok marker_scale → f64_ok scale = true → is_nan scale = false →
  21 ≤ minimum_separation marker_scale scale ≤ 80.
Proof.
  intros (_ & _ & D24 & V24) Hs Hn. unfold minimum_separation. pose proof unit_val_pos as HU.
  set (zoom := fclamp _ _ _).
  assert (data zoom ∧ 1 * unit_val ≤ val zoom ≤ 2 * unit_val) as [Dz Vz].
  { assert (data (f64_lit 125 100) ∧ val (f64_lit 125 100) ≠ 0) as [D1 V1] by by vm_compute.
    destruct (fclamp_between (div64 scale (f64_lit 125 100)) f64_one (f64_lit 145 100)) as [D V];
      [|by apply fdiv_ok; [|apply D1]|by vm_compute..|].
    - destruct (data_cases scale Hs) as [Dx|Fx].
      + apply (rd_not_nan _ _ _ (fdiv_rounded scale _ Dx D1 V1)).
      + by destruct scale as [|[]| |].
    - split; [done|]. change (val f64_one) with (1 * unit_val) in V.
      assert (val (f64_lit 145 100) ≤ 2 * unit_val) by by vm_compute. fold zoom in V. lia. }
  set (a := mul64 _ marker_scale) in *. clearbody a zoom.
  assert (21 * (unit_val * unit_val) ≤ val a * val zoom ≤ 80 * (unit_val * unit_val)) as Hp.
  { split.
    - transitivity (21 * unit_val * (1 * unit_val)); [lia|]. apply Z.mul_le_mono_nonneg; lia.
    - transitivity (40 * unit_val * (2 * unit_val)); [|lia]. apply Z.mul_le_mono_nonneg; lia. }
  destruct (units_between _ _ _ 21 80 (fmul_rounded a zoom D24 Dz)) as [D V]; [lia..|].
  destruct (round_i32_value _ D) as [-> _]; [lia|]. split.
  - apply Z.div_le_lower_bound; lia.
  - apply Z.lt_succ_r, Z.div_lt_upper_bound; lia.
Qed.

(** Cells around a surface of a given side. *)
Definition cells_along (side margin separation : Z) : nat := Z.to_nat ((side + 2 * margin) / separation + 3).

Record grid_ok (size : PhysicalSize.t) (g : MarkerGrid) : Prop := {
  go_scale : marker_scale_ok (gr_marker_scale g);
  go_margin : 8 ≤ gr_edge_margin g ≤ 20;
  go_separation : 21 ≤ gr_separation g ≤ 80;
  go_width : gr_width g = cells_along (Z.of_N (PhysicalSize.width size)) (gr_edge_margin g) (gr_separation g);
  go_height : gr_height g = cells_along (Z.of_N (PhysicalSize.height size)) (gr_edge_margin g) (gr_separation g);
}.

Lemma marker_grid_ok s view :
  surface_ok s → view_ok view → ∃ g, marker_grid s view = Some g ∧ grid_ok (size s) g.
Proof.
  intros [Hw Hh _ _] Hv. unfold MAX_SURFACE_SIDE in *. destruct (vo_scale view Hv) as [[Os Fs] _].
  pose proof (poi_marker_scale_ok s) as Hms. unfold marker_grid. cbv zeta.
  pose proof (minimum_separation_range (poi_marker_scale s) _ Hms Os (is_finite_not_nan _ Fs)) as Hsep.
  set (sep := minimum_separation _ _) in *. pose proof (proj1 (proj2 Hms)) as Hm.
  set (e := scaled_px 12 _) in *.
  assert (∀ n, (1 ≤ n ≤ 4096)%N →
    (side ← i32_try_from (Z.of_N n); q ← div_euclid (side + 2 * e) sep; usize_try_from (q + 3)) =
    Some (cells_along (Z.of_N n) e sep)) as Hcells.
  { intros n Hn. unfold i32_try_from, i32_max, i32_min. step_if; [|reflect_bool; lia]. cbn [mbind option_bind].
    unfold div_euclid. destruct (Z.ltb_spec 0 sep); [|lia]. cbn [mbind option_bind].
    assert (0 ≤ (Z.of_N n + 2 * e) / sep) by (apply Z.div_pos; lia).
    unfold usize_try_from. destruct (Z.leb_spec 0 ((Z.of_N n + 2 * e) / sep + 3)); [done|lia]. }
  rewrite !Hcells by lia. cbn [mbind option_bind]. eexists. split; [done|]. by split.
Qed.

Record markers_ok (g : MarkerGrid) (s : CpuMapSurface) : Prop := {
  mo_cells : length (poi_occupancy s) = (gr_width g * gr_height g)%nat;
  mo_owners : Forall (λ o, ∀ owner, o = Some owner → (owner < length (visible_poi_centers s))%nat) (poi_occupancy s);
  mo_near : Forall (λ '(x, y),
    - gr_edge_margin g ≤ x ≤ Z.of_N (PhysicalSize.width (size s)) + gr_edge_margin g ∧
    - gr_edge_margin g ≤ y ≤ Z.of_N (PhysicalSize.height (size s)) + gr_edge_margin g) (visible_poi_centers s);
}.

Lemma cell_along side margin separation z :
  0 ≤ margin → 1 ≤ separation → - margin ≤ z ≤ side + margin →
  ∃ c k, div_euclid (z + margin) separation = Some c ∧ usize_try_from (c + 1) = Some k ∧
    (k < cells_along side margin separation)%nat.
Proof.
  intros Hm Hs Hz. unfold div_euclid. destruct (Z.ltb_spec 0 separation); [|lia].
  assert (0 ≤ (z + margin) / separation) by (apply Z.div_pos; lia).
  assert ((z + margin) / separation ≤ (side + 2 * margin) / separation) by (apply Z.div_le_mono; lia).
  eexists _, _. split; [done|]. unfold usize_try_from. destruct (Z.leb_spec 0 ((z + margin) / separation + 1)); [|lia].
  split; [done|]. unfold cells_along. lia.
Qed.

Lemma neighbors_inside g x y cell :
  (0 < gr_width g)%nat → (0 < gr_height g)%nat → cell ∈ neighbors g x y → (cell < gr_width g * gr_height g)%nat.
Proof.
  intros Hw Hh H. unfold neighbors in H. apply list_elem_of_bind in H as (ny & H & Hy%elem_of_seq).
  apply list_elem_of_bind in H as (nx & H & Hx%elem_of_seq). apply list_elem_of_singleton in H as ->.
  assert (nx < gr_width g)%nat by lia. assert (ny < gr_height g)%nat by lia. nia.
Qed.

Lemma overlaps_total g s separation x y cells :
  markers_ok g s → (∀ cell, cell ∈ cells → (cell < gr_width g * gr_height g)%nat) →
  is_Some (overlaps s separation x y cells).
Proof.
  intros [Hl Ho _] Hin. induction cells as [|cell cells IH]; [by eexists|]. cbn [overlaps].
  assert (is_Some (cell_owner s cell)) as [owner ->].
  { unfold cell_owner. destruct (lookup_lt_is_Some_2 (poi_occupancy s) cell) as [o Ho'].
    { rewrite Hl. apply Hin, elem_of_cons. by left. }
    rewrite Ho'. cbn [mbind option_bind]. destruct o as [owner|]; [|by eexists].
    rewrite Forall_lookup in Ho. pose proof (Ho _ _ Ho' owner eq_refl) as Hlt.
    apply lookup_lt_is_Some_2 in Hlt as [c ->]. by eexists. }
  cbn [mbind option_bind]. step_if; [by eexists|]. apply IH. intros c Hc. apply Hin, elem_of_cons. by right.
Qed.

(** What placing markers keeps: the surface, its size and counters, the grid, and the markers
    placed before. *)
Definition placed (g : MarkerGrid) (s s' : CpuMapSurface) : Prop :=
  surface_ok s' ∧ markers_ok g s' ∧ size s' = size s ∧ performance_counters s' = performance_counters s ∧
  visible_poi_centers s `prefix_of` visible_poi_centers s'.

Lemma claim_cell g s x y cell :
  surface_ok s → markers_ok g s → (cell < gr_width g * gr_height g)%nat →
  - gr_edge_margin g ≤ x ≤ Z.of_N (PhysicalSize.width (size s)) + gr_edge_margin g →
  - gr_edge_margin g ≤ y ≤ Z.of_N (PhysicalSize.height (size s)) + gr_edge_margin g →
  ∃ s', store_owner cell (length (visible_poi_centers s)) (s <| visible_poi_centers ::= λ l, l ++ [(x, y)] |>) = Some s' ∧
    placed g s s'.
Proof.
  intros Hs [Hl Ho Hn] Hc Hx Hy. unfold store_owner.
  set (s1 := s <| visible_poi_centers ::= _ |>). assert (poi_occupancy s1 = poi_occupancy s) as -> by done.
  rewrite (proj2 (Nat.ltb_lt _ _)) by lia. eexists. split; [done|]. split; [by destruct Hs|].
  split; [|split; [done|split; [done|by exists [(x, y)]]]]. split; cbn.
  - by rewrite length_insert.
  - apply Forall_insert.
    + eapply Forall_impl; [exact Ho|]. cbn. intros o H owner ->. rewrite length_app. cbn. pose proof (H _ eq_refl). lia.
    + intros owner [= <-]. rewrite length_app. cbn. lia.
  - apply Forall_app. split; [done|]. by apply Forall_singleton.
Qed.

Section Totality.
Context (sin_cos : f64 → f64 * f64).
(** The sine and the cosine of a finite angle are data; nothing else is asked of them. *)
Definition sin_cos_data : Prop := ∀ x, data x → f64_ok (sin_cos x).1 = true ∧ f64_ok (sin_cos x).2 = true.
Hypothesis Hsin_cos : sin_cos_data.

Lemma screen_place_ok size view x y :
  view_ok view → f64_ok x = true → f64_ok y = true → (PhysicalSize.width size ≤ 4096)%N → (PhysicalSize.height size ≤ 4096)%N →
  f64_ok (screen_place sin_cos size view x y).1 = true ∧ f64_ok (screen_place sin_cos size view x y).2 = true.
Proof.
  intros Hv Hx Hy Hw Hh. unfold screen_place. destruct (Hsin_cos _ (radians_data _ (proj1 (vo_rotation view Hv)))) as [Hsine Hcos].
  destruct (sin_cos _) as [sine cosine]. cbn [fst snd] in *.
  destruct (vo_center view Hv) as [[Hcx _] [Hcy _]]. destruct (vo_scale view Hv) as [[Hs _] _].
  destruct (half_side_near _ Hw) as [[Dw _] _]. destruct (half_side_near _ Hh) as [[Dh _] _].
  split; apply fadd_ok; try done; apply fdiv_ok; try done; apply mul_add_ok; try done;
    repeat first [apply fmul_ok | apply fsub_ok | apply fneg_ok]; done.
Qed.

Lemma place_poi_ok g view poi s :
  surface_ok s → grid_ok (size s) g → markers_ok g s → view_ok view → poi_ok poi →
  ∃ s', place_poi sin_cos g view poi s = Some s' ∧ placed g s s'.
Proof.
  intros Hs Hg Hm Hv Hp. assert (placed g s s) as Hsame by (by repeat split; try apply Hs; try apply Hm).
  pose proof Hs as [Hw Hh _ _]. unfold MAX_SURFACE_SIDE in Hw, Hh. pose proof Hg as [Hsc Hem Hsep Hgw Hgh].
  unfold place_poi. pose proof (screen_place_ok (size s) view (poi_map_x poi) (poi_map_y poi) Hv) as Hplace.
  destruct Hplace as [Ox Oy]; [apply Hp|apply Hp|lia|lia|].
  destruct (screen_place _ _ _ _ _) as [sx sy]. cbn [fst snd] in Ox, Oy.
  step_if; [by exists s|]. unfold culled in Heqb. cbv zeta in Heqb. rewrite !orb_false_iff in Heqb.
  destruct Heqb as [[[Hx1 Hy1] Hx2] Hy2].
  pose proof (axis_not_culled _ (gr_edge_margin g) _ (proj2 Hw) ltac:(lia) Ox Hx1 Hx2) as Hx.
  pose proof (axis_not_culled _ (gr_edge_margin g) _ (proj2 Hh) ltac:(lia) Oy Hy1 Hy2) as Hy.
  destruct (clamp_on_screen (size s) (gr_edge_margin g) sx sy) as [Hcx Hcy]; [lia|lia|done|done|].
  destruct (clamp_minimap_marker_center _ _ _ _) as [cx cy]. cbn [fst snd] in Hcx, Hcy.
  apply round_on_screen in Hcx; [|lia..]. apply round_on_screen in Hcy; [|lia..].
  set (x := as_i32 (fround cx)) in *. set (y := as_i32 (fround cy)) in *. cbv zeta.
  destruct (cell_along (Z.of_N (PhysicalSize.width (size s))) (gr_edge_margin g) (gr_separation g) x)
    as (qx & kx & -> & Hkx & Hlx); [lia|lia|lia|]. rewrite <- Hgw in Hlx.
  destruct (cell_along (Z.of_N (PhysicalSize.height (size s))) (gr_edge_margin g) (gr_separation g) y)
    as (qy & ky & -> & Hky & Hly); [lia|lia|lia|]. rewrite <- Hgh in Hly.
  cbn [mbind option_bind]. rewrite Hkx. cbn [mbind option_bind]. rewrite Hky. cbn [mbind option_bind].
  destruct (overlaps_total g s (gr_separation g) x y (neighbors g kx ky) Hm) as [blocked ->].
  { intros cell. apply neighbors_inside; lia. }
  cbn [mbind option_bind]. destruct blocked; [by exists s|]. unfold andThen.
  destruct (claim_cell g s x y (ky * gr_width g + kx) Hs Hm) as (s1 & -> & H1); [nia|lia|lia|]. cbn [mbind option_bind].
  destruct H1 as (Hs1 & Hm1 & Hz1 & Hc1 & Hpre).
  destruct (keeps_poi_marker x y poi (gr_marker_scale g) (proj1 (proj1 Hsc)) Hp s1 Hs1) as (s2 & -> & Hs2 & Hcv).
  injection Hcv as Hz2 Hv2 Ho2 Hc2. exists s2. split; [done|]. split; [done|].
  split; [|rewrite Hz2, Hc2, Hv2; done]. destruct Hm1 as [? ? ?]. split; by rewrite ?Hz2, ?Hv2, ?Ho2.
Qed.

Lemma placed_trans g s1 s2 s3 : placed g s1 s2 → placed g s2 s3 → placed g s1 s3.
Proof.
  intros (_ & _ & H1 & H2 & H3) (Hs & Hm & H4 & H5 & H6). split; [done|]. split; [done|].
  split; [congruence|]. split; [congruence|]. by etrans.
Qed.

Lemma place_all_ok g view pois s :
  surface_ok s → grid_ok (size s) g → markers_ok g s → view_ok view → Forall poi_ok pois →
  ∃ s', each pois (place_poi sin_cos g view) s = Some s' ∧ placed g s s'.
Proof.
  intros Hs Hg Hm Hv Hp. revert s Hs Hg Hm. induction Hp as [|poi pois Hpoi _ IH]; intros s Hs Hg Hm.
  { exists s. split; [done|]. by repeat split; try apply Hs; try apply Hm. }
  cbn [each]. unfold andThen. destruct (place_poi_ok g view poi s Hs Hg Hm Hv Hpoi) as (s1 & -> & H1).
  cbn [mbind option_bind]. pose proof H1 as (Hs1 & Hm1 & Hz1 & _).
  destruct (IH s1 Hs1) as (s2 & -> & H2); [by rewrite Hz1|done|]. exists s2. split; [done|]. by eapply placed_trans.
Qed.

Lemma enabled_pois_ok compact filters pois : Forall poi_ok pois → Forall poi_ok (enabled_pois compact filters pois).
Proof.
  intros H. apply Forall_forall. intros poi Hin. unfold enabled_pois in Hin.
  apply list_elem_of_bind in Hin as (kind & Hin & _). destruct (kind_enabled _ _ _); [|by apply elem_of_nil in Hin].
  apply list_elem_of_filter in Hin as [_ Hin]. by eapply Forall_forall in H.
Qed.

Lemma draw_pois_ok view pois filters s :
  surface_ok s → view_ok view → Forall poi_ok pois →
  ∃ g s', draw_pois sin_cos view pois filters s = Some s' ∧ grid_ok (size s) g ∧ surface_ok s' ∧ markers_ok g s' ∧
    size s' = size s ∧ performance_counters s' = performance_counters s.
Proof.
  intros Hs Hv Hp. unfold draw_pois. destruct (marker_grid_ok s view Hs Hv) as (g & -> & Hg). cbn [mbind option_bind].
  set (s0 := s <| visible_poi_centers := [] |> <| poi_occupancy := _ |>).
  set (compact := (_ =? _)%N).
  assert (markers_ok g s0) as Hm.
  { split; [apply length_replicate| |constructor].
    apply Forall_forall. by intros o [-> _]%elem_of_replicate owner [=]. }
  destruct (place_all_ok g view (enabled_pois compact filters pois) s0) as (s' & -> & H1).
  - destruct Hs. by split.
  - done.
  - done.
  - done.
  - by apply enabled_pois_ok.
  - destruct H1 as (? & ? & ? & ? & _). by exists g, s'.
Qed.

Lemma keeps_map_pixel map view x y :
  raster_ok map → Forall is_rgb (raster_pixels map) → view_ok view → keeps (paint_map_pixel sin_cos map view x y).
Proof.
  intros Hmap Hrgb Hv s Hs. pose proof Hs as [Hw Hh _ _]. unfold MAX_SURFACE_SIDE in Hw, Hh. unfold paint_map_pixel.
  assert (data (fneg (rotation_radians (map_rotation_degrees view)))) as Hrot.
  { apply data_fneg, radians_data, (proj1 (vo_rotation view Hv)). }
  destruct (Hsin_cos _ Hrot) as [Hsine Hcos]. destruct (sin_cos _) as [sine cosine]. cbn [fst snd] in *. cbv zeta.
  destruct (vo_center view Hv) as [[Hcx _] [Hcy _]]. destruct (vo_scale view Hv) as [[Hsc _] _].
  destruct (half_side_near _ (proj2 Hw)) as [[Dw _] _]. destruct (half_side_near _ (proj2 Hh)) as [[Dh _] _].
  assert (∀ n, f64_ok (f64_of_N n) = true) as Hn by (intros; apply normalize_ok).
  match goal with |- ∃ _, mbind _ (sample_bilinear map ?a ?b) = _ ∧ _ =>
    destruct (sample_bilinear_rgb map a b Hmap Hrgb) as (color & -> & Hcol) end;
    try (repeat first [done | apply fadd_ok | apply fmul_ok | apply fsub_ok | apply mul_add_ok | apply fneg_ok]).
  cbn [mbind option_bind]. apply keeps_set_pixel; [|done].
  destruct color as [c|]; [by apply Hcol|done].
Qed.

Lemma keeps_map map view :
  raster_ok map → Forall is_rgb (raster_pixels map) → view_ok view → keeps (paint_map sin_cos map view).
Proof.
  intros Hmap Hrgb Hv s Hs. unfold paint_map. revert Hs. revert s.
  assert (∀ w h, keeps (each (range h) (λ y, each (range w) (λ x, paint_map_pixel sin_cos map view x y)))) as H.
  { intros w h. apply keeps_each_all. intros y. apply keeps_each_all. intros x. by apply keeps_map_pixel. }
  intros s Hs. by apply H.
Qed.

Lemma keeps_player view : keeps (paint_player sin_cos view).
Proof.
  intros s Hs. unfold paint_player.
  destruct (player_map_x view), (player_map_y view); try by exists s.
  destruct (project_map_point _ _ _ _ _) as [[x y]|]; [|by exists s]. step_if; [|by exists s].
  by apply keeps_player_arrow.
Qed.

Lemma keeps_highlight view : keeps (paint_highlight sin_cos view).
Proof.
  intros s Hs. unfold paint_highlight.
  destruct (highlight_map_x view), (highlight_map_y view); try by exists s.
  destruct (project_map_point _ _ _ _ _) as [[x y]|]; [|by exists s]. by apply keeps_search_highlight.
Qed.
End Totality.

(** A surface is born well-formed, and a resize keeps it so or is refused. *)
Lemma surface_pixel_count_ok size n :
  surface_pixel_count size = Some n →
  (1 ≤ PhysicalSize.width size ≤ MAX_SURFACE_SIDE ∧ 1 ≤ PhysicalSize.height size ≤ MAX_SURFACE_SIDE ∧
   n = PhysicalSize.width size * PhysicalSize.height size)%N.
Proof.
  unfold surface_pixel_count, checked_usize. intros H. step_if_in H; [done|]. step_if_in H; [|done]. injection H as <-.
  reflect_bool. lia.
Qed.

Lemma surface_new_ok size s : surface_new size = Some s → surface_ok s.
Proof.
  unfold surface_new. destruct (surface_pixel_count size) as [n|] eqn:Hn; [|done].
  apply surface_pixel_count_ok in Hn as (Hw & Hh & ->). intros [= <-]. split; cbn; [done|done| |].
  - unfold len. rewrite length_replicate. lia.
  - by apply Forall_replicate.
Qed.

Lemma surface_resize_ok s new_size s' changed :
  surface_ok s → surface_resize s new_size = Some (s', changed) → surface_ok s' ∧ size s' = new_size.
Proof.
  intros Hs. unfold surface_resize. step_if; [intros [= <- <-]; by reflect_bool|].
  destruct (surface_pixel_count new_size) as [n|] eqn:Hn; [|done].
  apply surface_pixel_count_ok in Hn as (Hw & Hh & ->). intros [= <- <-]. split; [|done]. split; cbn; [done|done| |].
  - unfold len. rewrite length_resize. lia.
  - apply Forall_resize; [done|apply Hs].
Qed.

(** ** Properties *)

(** C16: drawing a frame never panics, whatever the view, the points of interest and their
    icons are: no pixel, grid cell or marker is read or written out of range, and no cell has a
    size of zero. The surface keeps its size and stays a picture of plain colours, every marker
    that was placed is at most twenty pixels outside the surface, every occupied cell names a
    placed marker, and the frame is counted with its time or as one that could not be timed. *)
Theorem rasterize_total (sin_cos : f64 → f64 * f64) (map : MapRaster) (view : MapView) (pois : list MapPoi)
    (filters : PoiFilters) (cpu_before cpu_after : option N) (s : CpuMapSurface) :
  sin_cos_data sin_cos → raster_ok map → Forall is_rgb (raster_pixels map) → view_ok view → Forall poi_ok pois →
  surface_ok s →
  ∃ s', rasterize_with_pois sin_cos map view pois filters cpu_before cpu_after s = Some s' ∧
    surface_ok s' ∧ size s' = size s ∧
    Forall (λ '(x, y), - 20 ≤ x ≤ Z.of_N (PhysicalSize.width (size s)) + 20 ∧
                       - 20 ≤ y ≤ Z.of_N (PhysicalSize.height (size s)) + 20) (visible_poi_centers s') ∧
    Forall (λ o, ∀ owner, o = Some owner → (owner < length (visible_poi_centers s'))%nat) (poi_occupancy s') ∧
    performance_counters s' =
      (let c := performance_counters s in
       let c := c <| rasterized_frames ::= λ n, saturating_add n 1 |> in
       match cpu_before, cpu_after with
       | Some before, Some after =>
           c <| last_raster_cpu_100ns := saturating_sub after before |>
             <| raster_cpu_100ns_total ::= λ n, saturating_add n (saturating_sub after before) |>
             <| raster_cpu_timing_samples ::= λ n, saturating_add n 1 |>
       | _, _ => c <| raster_cpu_timing_failures ::= λ n, saturating_add n 1 |>
       end).
Proof.
  intros Hsc Hmap Hrgb Hv Hp Hs. unfold rasterize_with_pois, andThen at 1.
  destruct (keeps_map sin_cos Hsc map view Hmap Hrgb Hv s Hs) as (s1 & -> & Hs1 & [= Hz1 _ _ Hc1]).
  cbn [mbind option_bind]. unfold andThen at 1.
  destruct (draw_pois_ok sin_cos Hsc view pois filters s1 Hs1 Hv Hp) as (g & s2 & -> & Hg & Hs2 & Hm & Hz2 & Hc2).
  cbn [mbind option_bind]. unfold andThen at 1.
  assert (keeps (λ s, if ((32 <=? PhysicalSize.width (size s)) && (32 <=? PhysicalSize.height (size s)))%N
    then (paint_player sin_cos view ;; paint_highlight sin_cos view) s else Some s)) as Hk.
  { intros t Ht. step_if; [|by exists t]. by apply keeps_andThen; [apply keeps_player|apply keeps_highlight|]. }
  destruct (Hk s2 Hs2) as (s3 & -> & Hs3 & [= Hz3 Hv3 Ho3 Hc3]). cbn [mbind option_bind].
  eexists. split; [done|]. destruct Hs3. destruct Hm as [_ Hown Hnear]. destruct (go_margin _ _ Hg).
  split; [by split|]. split; [cbn; congruence|]. cbn [visible_poi_centers poi_occupancy performance_counters].
  split; [|split].
  - cbn. rewrite Hv3. eapply Forall_impl; [exact Hnear|]. intros [x y]. rewrite Hz2, Hz1. lia.
  - cbn. by rewrite Hv3, Ho3.
  - cbn. by rewrite Hc3, Hc2, Hc1.
Qed.

(** ** Examples *)

Local Open Scope N_scope.

Definition flat_sin_cos (x : f64) : f64 * f64 := (f64_zero, f64_one).
Definition marker_view : MapView :=
  mkMapView (f64_of_N 24) (f64_of_N 20) (Some (f64_of_N 30)) (Some (f64_of_N 20)) None None f64_one
    (f32_of_Z 0) (f32_of_Z 0).
Definition boss_at (x y : N) : MapPoi := mkMapPoi (f64_of_N x) (f64_of_N y) PkBoss None None 0 false.
Definition blank (w h : N) : CpuMapSurface :=
  mkSurface (PhysicalSize.mk w h) (replicate (N.to_nat (w * h)) 0) [] [] (mkSurfaceCounters 0 0 0 0 0).

(** A cell of the grid remembers one marker only. The second of three points takes over the
    cell the first one claimed, and the third is drawn four pixels from the first although
    markers are meant to be 22 pixels apart. *)
Lemma poi_occupancy_forgets :
  (g ← marker_grid (blank 48 40) marker_view; Some (gr_separation g)) = Some 22%Z ∧
  (s ← draw_pois flat_sin_cos marker_view [boss_at 11 11; boss_at 32 32; boss_at 15 11] PoiFilters_default (blank 48 40);
   Some (visible_poi_centers s)) = Some [(11, 11); (32, 32); (15, 11)]%Z.
Proof. split; vm_compute; reflexivity. Qed.

Lemma rasterize_total_witness :
  let s := blank 33 34 in
  ∃ s', rasterize_with_pois flat_sin_cos (mkRaster 1 1 [0x102030]) marker_view [boss_at 11 11] PoiFilters_default
          (Some 5) (Some 9) s = Some s' ∧
    surface_ok s' ∧ size s' = size s ∧
    Forall (λ '(x, y), - 20 ≤ x ≤ Z.of_N (PhysicalSize.width (size s)) + 20 ∧
                       - 20 ≤ y ≤ Z.of_N (PhysicalSize.height (size s)) + 20)%Z (visible_poi_centers s') ∧
    Forall (λ o, ∀ owner, o = Some owner → (owner < length (visible_poi_centers s'))%nat) (poi_occupancy s') ∧
    performance_counters s' = mkSurfaceCounters 1 4 4 1 0.
Proof.
  intros s.
  apply (rasterize_total flat_sin_cos (mkRaster 1 1 [0x102030]) marker_view [boss_at 11 11] PoiFilters_default
           (Some 5) (Some 9) s).
  - intros x _. split; reflexivity.
  - split; [split; discriminate|split; discriminate|reflexivity].
  - repeat constructor.
  - repeat split.
  - repeat constructor.
  - apply (surface_new_ok (PhysicalSize.mk 33 34)). reflexivity.
Defined.
