(* ===== verification/MapRuntime.v ===== *)
(** * The map preview runtime

    Models [crates/pal-overlay-win/src/actual_map_runtime.rs]: the loop that polls a position
    source, feeds the reducer and says whether the map must be redrawn, with the gate of the
    window's visibility. The source is any instance of [PositionSource]. The tick answers with
    what changed only; the theorem shows that a window which applies the answers shows what
    a full recomputation at every tick would show. *)

From S2P Require Import Prelude Floats FloatInt FloatRound Settings Position PositionSource Reducer Viewport MapView.

Definition MAX_EVENTS_PER_TICK : nat := 64.
Definition REFERENCE_MAP_SIDE : f64 := f64_of_N 2048.
Definition BASE_SOURCE_PIXELS_PER_SCREEN_PIXEL : f64 := f64_lit 125 100.

Record ActualMapFrame := mkFrame {
  frame_view : MapView;
  frame_freshness : Freshness;
  frame_generation : N;
  frame_sequence : N;
}.

Inductive PreviewTick :=
| PtUnchanged
| PtMetadataChanged (freshness : Freshness)
| PtUnavailable (freshness : Freshness)
| PtPresent (frame : ActualMapFrame).

Inductive PreviewVisibilityAction := PvPreserve | PvShow | PvHide.

Definition tick_freshness (self : PreviewTick) : option Freshness :=
  match self with
  | PtUnchanged => None
  | PtMetadataChanged f | PtUnavailable f => Some f
  | PtPresent frame => Some (frame_freshness frame)
  end.

Definition visibility_action_for_freshness (f : Freshness) : PreviewVisibilityAction :=
  match f with Live | Delayed => PvShow | Stale | Offline => PvHide end.

Definition visibility_action (self : PreviewTick) : PreviewVisibilityAction :=
  match self with
  | PtUnchanged => PvPreserve
  | PtPresent _ => PvShow
  | PtMetadataChanged f => visibility_action_for_freshness f
  | PtUnavailable _ => PvHide
  end.

(** [PreviewVisibilityGate]: the new visibility, and what the window is told. *)
Definition gate_update (requested_visible : bool) (tick : PreviewTick) : bool * option bool :=
  let request wanted :=
    if Bool.eqb requested_visible wanted then (requested_visible, None) else (wanted, Some wanted) in
  match visibility_action tick with
  | PvPreserve => (requested_visible, None)
  | PvShow => request true
  | PvHide => request false
  end.

(** [PendingActualMapView]. *)
Definition submit (_ : option MapView) (view : MapView) : option MapView := Some view.
Definition take_if_visible (pending : option MapView) (visible : bool) : option MapView * option MapView :=
  if visible then (pending, None) else (None, pending).
Definition clear_pending (_ : option MapView) : option MapView := None.

Inductive ActualMapRuntimeError (E : Type) :=
| RtPositionSource (error : E)
| RtReducer (error : ReducerError)
| RtView (error : MapViewError).
Arguments RtPositionSource {E} error.
Arguments RtReducer {E} error.
Arguments RtView {E} error.

Record FrameKey := mkKey {
  key_generation : N;
  key_settings_version : N;
  key_map_width : N;
  key_map_height : N;
}.
#[export] Instance FrameKey_eq_dec : EqDecision FrameKey.
Proof. solve_decision. Defined.

(** [PartialEq] of views compares floats: the two zeros are equal. *)
Definition option_feq (a b : option spec_float) : bool :=
  match a, b with Some a, Some b => feq a b | None, None => true | _, _ => false end.
Definition view_eqb (a b : MapView) : bool :=
  feq (center_x a) (center_x b) && feq (center_y a) (center_y b)
  && option_feq (player_map_x a) (player_map_x b) && option_feq (player_map_y a) (player_map_y b)
  && option_feq (highlight_map_x a) (highlight_map_x b) && option_feq (highlight_map_y a) (highlight_map_y b)
  && feq (source_pixels_per_screen_pixel a) (source_pixels_per_screen_pixel b)
  && feq (map_rotation_degrees a) (map_rotation_degrees b)
  && feq (player_rotation_degrees a) (player_rotation_degrees b).

Definition next_freshness_check (now_monotonic_ms : N) (f : Freshness) (current_age_ms : N) : option N :=
  match f with
  | Live => Some (saturating_add now_monotonic_ms (saturating_sub 1501 current_age_ms))
  | Delayed => Some (saturating_add now_monotonic_ms (saturating_sub 5001 current_age_ms))
  | Stale | Offline => None
  end.

Record ActualMapPreviewRuntime (S : Type) := mkRuntime {
  rt_source : S;
  rt_reducer : StateReducer;
  rt_world_to_image : WorldToImageTransform;
  rt_last_frame_key : option FrameKey;
  rt_last_frame_view : option MapView;
  rt_last_freshness : option Freshness;
  rt_last_available : option bool;
  rt_next_freshness_check_ms : option N;
  rt_stationary_suppressed_frames : N;
}.
Arguments mkRuntime {S}.
Arguments rt_source {S}. Arguments rt_reducer {S}. Arguments rt_world_to_image {S}.
Arguments rt_last_frame_key {S}. Arguments rt_last_frame_view {S}. Arguments rt_last_freshness {S}.
Arguments rt_last_available {S}. Arguments rt_next_freshness_check_ms {S}.
Arguments rt_stationary_suppressed_frames {S}.
#[export] Instance ActualMapPreviewRuntime_eta S : Eta (ActualMapPreviewRuntime S) := λ r,
  mkRuntime (rt_source r) (rt_reducer r) (rt_world_to_image r) (rt_last_frame_key r) (rt_last_frame_view r)
    (rt_last_freshness r) (rt_last_available r) (rt_next_freshness_check_ms r) (rt_stationary_suppressed_frames r).

Section Runtime.
Context {S E : Type} `{!PositionSource S E}.
Implicit Types self : ActualMapPreviewRuntime S.

(** The outer [None] is the panic of [StateReducer::default]. *)
Definition runtime_new (source : S) (new_settings : OverlaySettings) (world_to_image : WorldToImageTransform) :
    option (result (ActualMapPreviewRuntime S) (ActualMapRuntimeError E)) :=
  reducer ← Reducer.default;
  let '(applied, reducer) := apply reducer (SettingsApplied 2 new_settings) in
  Some (match applied with
        | Err e => Err (RtReducer e)
        | Ok _ => Ok (mkRuntime source reducer world_to_image None None None None None 0)
        end).

Definition last_world_position self : option (f64 * f64) :=
  (λ sample, (PositionSample.x sample, PositionSample.y sample)) <$> last_position (rt_reducer self).

Definition shown_live self : bool :=
  has_trusted_position (rt_reducer self)
  && match rt_last_freshness self with Some Live | Some Delayed => true | _ => false end.

Definition shown_heading (reducer : StateReducer) (sample : PositionSample.t) : option f32 :=
  if heading_available reducer then PositionSample.heading_degrees sample else None.

Definition last_live_world_pose self : option (f64 * f64 * option f32) :=
  if shown_live self then
    (λ sample, (PositionSample.x sample, PositionSample.y sample, shown_heading (rt_reducer self) sample))
      <$> last_position (rt_reducer self)
  else None.

Definition last_live_tracking_view self : option MapView :=
  if shown_live self then rt_last_frame_view self else None.

Definition select_world_to_image self (world_to_image : WorldToImageTransform) : ActualMapPreviewRuntime S :=
  self <| rt_world_to_image := world_to_image |> <| rt_last_frame_key := None |> <| rt_last_frame_view := None |>
       <| rt_last_available := None |> <| rt_next_freshness_check_ms := Some 0 |>.

Definition runtime_apply_settings self (version : N) (new_settings : OverlaySettings) :
    result unit (ActualMapRuntimeError E) * ActualMapPreviewRuntime S :=
  let '(applied, reducer) := apply (rt_reducer self) (SettingsApplied version new_settings) in
  let self := self <| rt_reducer := reducer |> in
  match applied with
  | Err e => (Err (RtReducer e), self)
  | Ok _ => (Ok tt, self <| rt_next_freshness_check_ms := Some 0 |>)
  end.

(** The loop over at most [MAX_EVENTS_PER_TICK] events; the answer says whether there was one. *)
Fixpoint poll_events (now : N) (n : nat) (source : S) (reducer : StateReducer) (source_changed : bool) :
    result bool (ActualMapRuntimeError E) * S * StateReducer :=
  match n with
  | O => (Ok source_changed, source, reducer)
  | Datatypes.S n =>
      let '(polled, source) := poll now source in
      match polled with
      | Err e => (Err (RtPositionSource e), source, reducer)
      | Ok None => (Ok source_changed, source, reducer)
      | Ok (Some event) =>
          let '(applied, reducer) := apply reducer (PositionSourceEv event) in
          match applied with
          | Err e => (Err (RtReducer e), source, reducer)
          | Ok _ => poll_events now n source reducer true
          end
      end
  end.

Definition place_of self : option NormalizedMapPoint :=
  sample ← last_position (rt_reducer self);
  project_within_bounds (rt_world_to_image self) (PositionSample.x sample) (PositionSample.y sample).

Definition is_available self (f : Freshness) : bool :=
  has_trusted_position (rt_reducer self) && is_some (place_of self)
  && (bool_decide (rt_last_available self = Some true) || negb (bool_decide (f = Stale))).

Definition tick_unavailable self (f : Freshness) : PreviewTick * ActualMapPreviewRuntime S :=
  let changed := negb (bool_decide (rt_last_available self = Some false))
                 || negb (bool_decide (rt_last_freshness self = Some f)) in
  (if changed then PtUnavailable f else PtUnchanged,
   self <| rt_last_frame_key := None |> <| rt_last_frame_view := None |> <| rt_next_freshness_check_ms := None |>
        <| rt_last_available := Some false |> <| rt_last_freshness := Some f |>).

Definition nothing_due self (now map_width map_height : N) : bool :=
  is_some_and (rt_last_frame_key self)
    (λ key, (key_map_width key =? map_width) && (key_map_height key =? map_height))
  && is_none_or (rt_next_freshness_check_ms self) (λ due, now <? due).

(** The view of the present sample; [None] is the panic of [expect]. *)
Definition current_view self (sample : PositionSample.t) (f : Freshness) (map_width map_height : N) :
    option (result MapView (ActualMapRuntimeError E)) :=
  normalized ←
    project_within_bounds (rt_world_to_image self) (PositionSample.x sample) (PositionSample.y sample);
  let settings := Reducer.settings (rt_reducer self) in
  let pose := compute_viewport_pose (Settings.rotation_mode settings) (shown_heading (rt_reducer self) sample) in
  let scale :=
    div64 (mul64 (div64 (f64_of_N map_width) REFERENCE_MAP_SIDE) BASE_SOURCE_PIXELS_PER_SCREEN_PIXEL)
          (f64_from_f32 (Settings.zoom settings)) in
  Some (
    let? view := map_err RtView
      (with_rotations (mul64 (np_x normalized) (f64_of_N map_width)) (mul64 (np_y normalized) (f64_of_N map_height))
         scale (pose_map_rotation_degrees pose) (pose_player_rotation_degrees pose)) in
    Ok (if bool_decide (f = Stale) then without_player_marker view else view)).

Definition frame_of (sample : PositionSample.t) (view : MapView) (f : Freshness) : ActualMapFrame :=
  mkFrame view f (PositionSample.source_connection_generation sample) (PositionSample.sequence sample).

(** Nothing came and the frame is for the same connection, settings and map. *)
Definition tick_same_key self (sample : PositionSample.t) (f : Freshness) : PreviewTick * ActualMapPreviewRuntime S :=
  if negb (bool_decide (rt_last_freshness self = Some f)) then
    let self := self <| rt_last_freshness := Some f |> in
    match (if bool_decide (f = Stale) then without_player_marker <$> rt_last_frame_view self else None) with
    | Some view => (PtPresent (frame_of sample view f), self <| rt_last_frame_view := Some view |>)
    | None => (PtMetadataChanged f, self)
    end
  else (PtUnchanged, self).

Definition tick_frame self (source_changed : bool) (sample : PositionSample.t) (key : FrameKey) (f : Freshness)
    (view : MapView) : PreviewTick * ActualMapPreviewRuntime S :=
  if bool_decide (rt_last_frame_key self = Some key)
     && is_some_and (rt_last_frame_view self) (λ last, view_eqb last view)
  then
    let self :=
      if source_changed
      then self <| rt_stationary_suppressed_frames ::= λ n, saturating_add n 1 |> else self in
    if negb (bool_decide (rt_last_freshness self = Some f))
    then (PtMetadataChanged f, self <| rt_last_freshness := Some f |>)
    else (PtUnchanged, self)
  else
    (PtPresent (frame_of sample view f),
     self <| rt_last_frame_key := Some key |> <| rt_last_frame_view := Some view |> <| rt_last_freshness := Some f |>).

(** A tick after the events were polled; [None] is a panic. *)
Definition tick_polled self (source_changed : bool) (now map_width map_height : N) :
    option (result PreviewTick (ActualMapRuntimeError E) * ActualMapPreviewRuntime S) :=
  let f := freshness (rt_reducer self) now in
  if negb (is_available self f) then
    let '(tick, self) := tick_unavailable self f in Some (Ok tick, self)
  else
    let self := self <| rt_last_available := Some true |> in
    if negb source_changed && nothing_due self now map_width map_height then Some (Ok PtUnchanged, self)
    else
      sample ← last_position (rt_reducer self);
      let self := self <| rt_next_freshness_check_ms :=
        next_freshness_check now f (SampleClock.age_upper_bound_ms (PositionSample.clock sample) now) |> in
      let key := mkKey (PositionSample.source_connection_generation sample) (settings_version (rt_reducer self))
                   map_width map_height in
      if negb source_changed && bool_decide (rt_last_frame_key self = Some key) then
        let '(tick, self) := tick_same_key self sample f in Some (Ok tick, self)
      else
        viewed ← current_view self sample f map_width map_height;
        Some (match viewed with
              | Err e => (Err e, self)
              | Ok view =>
                  let '(tick, self) := tick_frame self source_changed sample key f view in (Ok tick, self)
              end).

Definition tick self (now map_width map_height : N) :
    option (result PreviewTick (ActualMapRuntimeError E) * ActualMapPreviewRuntime S) :=
  let '(polled, source, reducer) :=
    poll_events now MAX_EVENTS_PER_TICK (rt_source self) (rt_reducer self) false in
  let self := self <| rt_source := source |> <| rt_reducer := reducer |> in
  match polled with
  | Err e => Some (Err e, self)
  | Ok source_changed => tick_polled self source_changed now map_width map_height
  end.
End Runtime.

(** ** The window behind the runtime *)

(** What the window shows, the freshness it was last told and the visibility its gate asked for. *)
Record Window := mkWindow {
  w_view : option MapView;
  w_freshness : option Freshness;
  w_visible : bool;
}.

Definition observe (w : Window) (tick : PreviewTick) : Window :=
  mkWindow
    (match tick with
     | PtPresent frame => Some (frame_view frame)
     | PtUnavailable _ => None
     | PtUnchanged | PtMetadataChanged _ => w_view w
     end)
    (match tick_freshness tick with Some f => Some f | None => w_freshness w end)
    (gate_update (w_visible w) tick).1.

Inductive RuntimeOp :=
| OpTick (now map_width map_height : N)
| OpSettings (version : N) (settings : OverlaySettings)
| OpSelect (world_to_image : WorldToImageTransform).

(** ** Lemmas on views and freshness *)

Lemma feq_refl x : is_nan x = false → feq x x = true.
Proof. intros H. apply fle_feq; by apply fle_refl. Qed.

Lemma option_feq_refl o : (∀ x, o = Some x → is_nan x = false) → option_feq o o = true.
Proof. destruct o as [x|]; [|done]. intros H. by apply feq_refl, H. Qed.

Lemma view_eqb_without a b :
  view_eqb a b = true → view_eqb (without_player_marker a) (without_player_marker b) = true.
Proof.
  unfold view_eqb, without_player_marker. rewrite !andb_true_iff. cbn. intros. split_and!; tauto.
Qed.

Lemma with_rotations_refl x y scale mr pr v : with_rotations x y scale mr pr = Ok v → view_eqb v v = true.
Proof.
  unfold with_rotations. intros H. step_if_in H; [done|]. step_if_in H; [done|]. injection H as <-. reflect_bool.
  repeat match goal with H : is_finite _ = true |- _ => apply is_finite_not_nan in H end.
  unfold view_eqb. rewrite !andb_true_iff. split_and!; first [done|by apply feq_refl|
    apply option_feq_refl; intros ? [= <-]; done].
Qed.

Definition trusted_sample (r : StateReducer) (sample : PositionSample.t) : Prop :=
  has_trusted_position r = true ∧ last_position r = Some sample.

Definition age (sample : PositionSample.t) (now : N) : N :=
  SampleClock.age_upper_bound_ms (PositionSample.clock sample) now.

Lemma trusted_freshness r sample now :
  trusted_sample r sample → freshness r now = classify_freshness (age sample now) true.
Proof.
  intros [Ht Hp]. unfold has_trusted_position in Ht. apply andb_true_iff in Ht as [[Hc Hv]%andb_true_iff _].
  unfold freshness. by rewrite Hc, Hv, Hp.
Qed.

Lemma age_growth sample now now' : now ≤ now' → age sample now ≤ age sample now' ≤ age sample now + (now' - now).
Proof. intros H. unfold age, SampleClock.age_upper_bound_ms. int_lia. Qed.

Lemma due_room now now' limit a : now' < saturating_add now (saturating_sub limit a) → now' < now + (limit - a).
Proof. int_lia. Qed.

(** Before the next check falls due the freshness stays what it is. *)
Lemma check_not_due r sample now now' :
  trusted_sample r sample → now ≤ now' →
  is_none_or (next_freshness_check now (freshness r now) (age sample now)) (λ due, now' <? due) = true →
  freshness r now' = freshness r now.
Proof.
  intros Ht Hle. rewrite !(trusted_freshness r sample) by done. pose proof (age_growth sample now now' Hle) as Hg.
  set (a := age sample now) in *. set (a' := age sample now') in *. clearbody a a'. unfold classify_freshness, negb.
  destruct (N.leb_spec a 1500) as [H1|H1]; [|destruct (N.leb_spec a 5000) as [H2|H2]];
    unfold next_freshness_check, is_none_or.
  - intros Hd%N.ltb_lt%due_room. destruct (N.leb_spec a' 1500); [done|lia].
  - intros Hd%N.ltb_lt%due_room. destruct (N.leb_spec a' 1500); [lia|]. destruct (N.leb_spec a' 5000); [done|lia].
  - intros _. destruct (N.leb_spec a' 1500); [lia|]. destruct (N.leb_spec a' 5000); [lia|done].
Qed.

Lemma stale_stays r sample now now' :
  trusted_sample r sample → now ≤ now' → freshness r now = Stale → freshness r now' = Stale.
Proof.
  intros Ht Hle. rewrite !(trusted_freshness r sample) by done. pose proof (age_growth sample now now' Hle) as Hg.
  unfold classify_freshness. cbn [negb]. repeat step_if; try done; reflect_bool; lia.
Qed.

Lemma freshness_ext r r' now :
  connected r' = connected r → clock_valid r' = clock_valid r → last_position r' = last_position r →
  freshness r' now = freshness r now.
Proof. intros Hc Hv Hp. unfold freshness. by rewrite Hc, Hv, Hp. Qed.

(** ** What a tick answers *)

Section Ticks.
Context {S E : Type} `{!PositionSource S E}.
Implicit Types self rt : ActualMapPreviewRuntime S.

Lemma current_view_fresh self sample f f' mw mh :
  f ≠ Stale → f' ≠ Stale → current_view (E:=E) self sample f mw mh = current_view self sample f' mw mh.
Proof. intros Hf Hf'. unfold current_view. by rewrite !bool_decide_false by done. Qed.

Lemma current_view_stale self sample f mw mh view :
  f ≠ Stale → current_view (E:=E) self sample f mw mh = Some (Ok view) →
  current_view (E:=E) self sample Stale mw mh = Some (Ok (without_player_marker view)).
Proof.
  intros Hf. unfold current_view. rewrite bool_decide_false by done. rewrite (bool_decide_true (Stale = Stale)) by done.
  destruct (project_within_bounds _ _ _) as [p|]; [|done]. cbn [mbind option_bind].
  destruct (map_err _ _) as [v|e]; cbn [and_then]; [|done]. by intros [= <-].
Qed.

Lemma current_view_refl self sample f mw mh view :
  current_view (E:=E) self sample f mw mh = Some (Ok view) → view_eqb view view = true.
Proof.
  unfold current_view. destruct (project_within_bounds _ _ _) as [p|]; [|done]. cbn [mbind option_bind]. intros [= H].
  apply and_then_ok in H as (v & Hv%map_err_ok%with_rotations_refl & [= <-]).
  case_bool_decide; [|done]. by apply view_eqb_without.
Qed.

Lemma current_view_player self sample f mw mh v view :
  current_view (E:=E) self sample f mw mh = Some (Ok view) → view_eqb v view = true →
  is_some (player_map_x v) = negb (bool_decide (f = Stale)).
Proof.
  intros Hview He. assert (is_some (player_map_x v) = is_some (player_map_x view)) as ->.
  { unfold view_eqb in He. rewrite !andb_true_iff in He. destruct He as [[[[[[[_ Hp] _] _] _] _] _] _].
    unfold option_feq in Hp. by destruct (player_map_x v), (player_map_x view). }
  unfold current_view in Hview. destruct (project_within_bounds _ _ _) as [p|]; [|done].
  cbn [mbind option_bind] in Hview. injection Hview as H. apply and_then_ok in H as (u & Hu%map_err_ok & [= <-]).
  unfold with_rotations in Hu. step_if_in Hu; [done|]. step_if_in Hu; [done|]. injection Hu as <-.
  by case_bool_decide.
Qed.

(** The runtime and the window agree, whatever the reducer holds. *)
Record window_synced self (w : Window) : Prop := {
  ws_told : w_freshness w = rt_last_freshness self;
  ws_none : rt_last_available self = Some false → w_view w = None ∧ w_visible w = false;
  ws_key k : rt_last_frame_key self = Some k →
    rt_last_available self = Some true ∧
    ∃ v, rt_last_frame_view self = Some v ∧ w_view w = Some v ∧ w_visible w = true ∧
      (** a stale view is the one without the player *)
      ∃ f, rt_last_freshness self = Some f ∧ is_some (player_map_x v) = negb (bool_decide (f = Stale));
  ws_available : rt_last_available self = Some true → is_Some (rt_last_frame_key self);
}.

(** The window shows the view of the reducer's sample at a time, for a map of a given size. *)
Definition shows self (w : Window) (t mw mh : N) : Prop :=
  ∃ sample view v,
    trusted_sample (rt_reducer self) sample ∧
    current_view (E:=E) self sample (freshness (rt_reducer self) t) mw mh = Some (Ok view) ∧
    w_view w = Some v ∧ view_eqb v view = true.

(** What the last frame was made of, as long as no event arrives: the view is current unless
    newer settings await the next tick. *)
Definition frame_synced self (w : Window) (t : N) : Prop :=
  ∀ k, rt_last_frame_key self = Some k →
    ∃ sample, trusted_sample (rt_reducer self) sample ∧
      rt_last_freshness self = Some (freshness (rt_reducer self) t) ∧
      key_generation k = PositionSample.source_connection_generation sample ∧
      key_settings_version k ≤ settings_version (rt_reducer self) ∧
      (if key_settings_version k =? settings_version (rt_reducer self)
       then shows self w t (key_map_width k) (key_map_height k) ∧
            ∀ t', t ≤ t' → is_none_or (rt_next_freshness_check_ms self) (λ due, t' <? due) = true →
              freshness (rt_reducer self) t' = freshness (rt_reducer self) t
       else rt_next_freshness_check_ms self = Some 0).

Lemma poll_events_quiet now n source reducer source' reducer' :
  poll_events (E:=E) now n source reducer false = (Ok false, source', reducer') → reducer' = reducer.
Proof.
  assert (∀ n (s : S) r s' r', poll_events (E:=E) now n s r true = (Ok false, s', r') → False) as Hnot.
  { induction n0 as [|n0 IH]; intros s r s' r'; cbn [poll_events]; [done|].
    destruct (poll now s) as [[[event|]|e] s1]; [|done|done].
    destruct (apply r _) as [[?|?] r1]; [|done]. apply IH. }
  destruct n as [|n]; cbn [poll_events]; [by intros [= <- <-]|].
  destruct (poll now source) as [[[event|]|e] s1]; [|by intros [= <- <-]|done].
  destruct (apply reducer _) as [[?|?] r1]; [|done]. by intros ?%Hnot.
Qed.

(** Nothing changed since the last tick but the time. *)
Lemma shows_later self w t now mw mh sample :
  trusted_sample (rt_reducer self) sample → t ≤ now →
  freshness (rt_reducer self) now ≠ Stale ∨ freshness (rt_reducer self) t = freshness (rt_reducer self) now →
  shows self w t mw mh → shows self w now mw mh.
Proof.
  intros Ht Hle Hf (sample' & view & v & Ht' & Hv & Hw & He). exists sample', view, v. split; [done|]. split; [|done].
  destruct Hf as [Hf| <-]; [|done]. rewrite <- Hv. apply current_view_fresh; [done|].
  intros Hst. apply Hf. by eapply stale_stays.
Qed.

(** The availability a tick decides on. *)
Lemma place_current self sample f mw mh :
  last_position (rt_reducer self) = Some sample → is_some (place_of self) = true →
  is_Some (current_view (E:=E) self sample f mw mh).
Proof.
  intros Hp. unfold place_of, current_view. rewrite Hp. cbn [mbind option_bind].
  destruct (project_within_bounds _ _ _) as [p|]; [|done]. intros _. by eexists.
Qed.

Lemma available_sample self f :
  is_available self f = true → ∃ sample, trusted_sample (rt_reducer self) sample ∧ is_some (place_of self) = true.
Proof.
  unfold is_available. intros [[Ht Hp]%andb_true_iff _]%andb_true_iff. pose proof Ht as Ht'.
  unfold has_trusted_position in Ht'. apply andb_true_iff in Ht' as [_ Hs].
  destruct (last_position (rt_reducer self)) as [sample|] eqn:Hl; [|done]. by exists sample.
Qed.

(** The window after a tick. *)
Record ticked self (w : Window) (now mw mh : N) : Prop := {
  td_window : window_synced self w;
  td_frame : frame_synced self w now;
  td_shows : rt_last_available self = Some true → shows self w now mw mh ∧ w_visible w = true;
  td_freshness : w_freshness w = Some (freshness (rt_reducer self) now);
}.

Lemma tick_unavailable_ok self w now mw mh :
  window_synced self w → let f := freshness (rt_reducer self) now in
  ticked (tick_unavailable self f).2 (observe w (tick_unavailable self f).1) now mw mh ∧
  rt_last_available (tick_unavailable self f).2 = Some false.
Proof.
  intros [Htold Hnone Hkey Hav] f. split; [|done]. unfold tick_unavailable. cbn [fst snd].
  match goal with |- context [observe w ?t] => set (tick := t) end.
  assert (w_freshness (observe w tick) = Some f ∧ w_view (observe w tick) = None ∧ w_visible (observe w tick) = false)
    as (Hf & Hv & Hs).
  { unfold tick. case_bool_decide as Ha; cbn [negb orb].
    - case_bool_decide as Hl; cbn [negb].
      + destruct (Hnone Ha) as [Hv Hs]. cbn. rewrite Htold. by split_and!.
      + split; [done|]. split; [done|]. cbn. unfold gate_update. cbn. by destruct (w_visible w).
    - split; [done|]. split; [done|]. cbn. unfold gate_update. cbn. by destruct (w_visible w). }
  by split; [split| | |].
Qed.

Lemma ticked_intro self w now mw mh sample view v :
  let f := freshness (rt_reducer self) now in
  trusted_sample (rt_reducer self) sample → rt_last_available self = Some true →
  rt_last_frame_key self = Some (mkKey (PositionSample.source_connection_generation sample)
                                   (settings_version (rt_reducer self)) mw mh) →
  rt_last_frame_view self = Some v → rt_last_freshness self = Some f →
  w = mkWindow (Some v) (Some f) true →
  current_view (E:=E) self sample f mw mh = Some (Ok view) → view_eqb v view = true →
  (∀ t', now ≤ t' → is_none_or (rt_next_freshness_check_ms self) (λ due, t' <? due) = true →
     freshness (rt_reducer self) t' = f) →
  ticked self w now mw mh.
Proof.
  intros f Hs Hav Hk Hv Hf -> Hview He Hdue. assert (shows self (mkWindow (Some v) (Some f) true) now mw mh) as Hshows.
  { by exists sample, view, v. }
  split.
  - split; [done|by rewrite Hav| |by rewrite Hk]. intros k _. split; [done|]. exists v. split_and!; [done..|].
    exists f. split; [done|]. by eapply current_view_player.
  - intros k. rewrite Hk. intros [= <-]. exists sample. cbn. rewrite N.eqb_refl. by split_and!.
  - done.
  - done.
Qed.

(** A frame leaves the reducer and the map alone, and the map available. *)
Definition same_scene self self' : Prop :=
  rt_reducer self' = rt_reducer self ∧ rt_world_to_image self' = rt_world_to_image self ∧
  rt_last_available self' = Some true.

(** A trusted sample that is not stale keeps the window visible. *)
Lemma fresh_shown r sample now :
  trusted_sample r sample → freshness r now ≠ Stale →
  (gate_update true (PtMetadataChanged (freshness r now))).1 = true.
Proof.
  intros Hs. rewrite (trusted_freshness _ sample) by done. unfold classify_freshness, negb. by repeat step_if.
Qed.

Lemma tick_same_key_ok self w t now mw mh sample k :
  window_synced self w → rt_last_freshness self = Some (freshness (rt_reducer self) t) → shows self w t mw mh →
  t ≤ now → trusted_sample (rt_reducer self) sample →
  k = mkKey (PositionSample.source_connection_generation sample) (settings_version (rt_reducer self)) mw mh →
  rt_last_frame_key self = Some k → rt_last_available self = Some true →
  let f := freshness (rt_reducer self) now in
  rt_next_freshness_check_ms self = next_freshness_check now f (age sample now) →
  ticked (tick_same_key self sample f).2 (observe w (tick_same_key self sample f).1) now mw mh ∧
  same_scene self (tick_same_key self sample f).2.
Proof.
  intros Hw Hlf Hshows Hle Hs Hk Hkey Hav f Hnext. destruct (ws_key self w Hw k Hkey) as (_ & v & Hv & Hwv & Hvis & _).
  destruct Hshows as (s2 & view & v2 & Hs2 & Hview & Hwv2 & He).
  assert (s2 = sample ∧ v2 = v) as [-> ->].
  { destruct Hs as [_ Hs], Hs2 as [_ Hs2]. by simplify_eq. }
  assert (∀ t', now ≤ t' → is_none_or (rt_next_freshness_check_ms self) (λ due, t' <? due) = true →
    freshness (rt_reducer self) t' = f) as Hdue.
  { intros t' Ht'. rewrite Hnext. by apply (check_not_due _ sample). }
  subst k. unfold tick_same_key. rewrite Hlf. fold f in Hdue.
  set (f0 := freshness (rt_reducer self) t) in *.
  destruct (decide (f0 = f)) as [Heq|Hne].
  { rewrite (bool_decide_true (Some f0 = Some f)) by congruence. cbn [negb fst snd]. split; [|done].
    apply (ticked_intro _ _ _ _ _ sample view v); try done; [by rewrite Hlf, Heq| |by fold f; rewrite <- Heq].
    unfold observe. cbn. rewrite Hwv, Hvis, (ws_told self w Hw), Hlf. by fold f; rewrite Heq. }
  rewrite (bool_decide_false (Some f0 = Some f)) by congruence. cbn [negb]. assert (f0 ≠ Stale) as Hf0.
  { intros Hst. apply Hne. rewrite Hst. symmetry. by eapply stale_stays. }
  case_bool_decide as Hst.
  - assert (rt_last_frame_view (self <| rt_last_freshness := Some f |>) = Some v) as -> by done.
    cbn [fmap option_fmap option_map fst snd]. split; [|done].
    apply (ticked_intro _ _ _ _ _ sample (without_player_marker view) (without_player_marker v)); try done.
    + unfold observe. cbn. unfold gate_update. cbn. rewrite Hvis. by fold f; rewrite Hst.
    + change (current_view (E:=E) self sample f mw mh = Some (Ok (without_player_marker view))). rewrite Hst.
      by apply (current_view_stale _ _ f0).
    + by apply view_eqb_without.
  - cbn [fst snd]. split; [|done].
    apply (ticked_intro _ _ _ _ _ sample view v); try done.
    + unfold observe. cbn. fold f. rewrite Hwv, Hvis. f_equal. exact (fresh_shown _ sample now Hs Hst).
    + change (current_view (E:=E) self sample f mw mh = Some (Ok view)). rewrite <- Hview. by apply current_view_fresh.
Qed.

Lemma tick_frame_ok self w now mw mh sample changed view :
  window_synced self w → trusted_sample (rt_reducer self) sample →
  let f := freshness (rt_reducer self) now in
  let key := mkKey (PositionSample.source_connection_generation sample) (settings_version (rt_reducer self)) mw mh in
  let self1 := self <| rt_last_available := Some true |> <| rt_next_freshness_check_ms := next_freshness_check now f (age sample now) |> in
  current_view (E:=E) self sample f mw mh = Some (Ok view) →
  ticked (tick_frame self1 changed sample key f view).2 (observe w (tick_frame self1 changed sample key f view).1) now mw mh ∧
  same_scene self (tick_frame self1 changed sample key f view).2.
Proof.
  intros Hw Hs f key self1 Hview.
  assert (∀ t', now ≤ t' → is_none_or (next_freshness_check now f (age sample now)) (λ due, t' <? due) = true →
    freshness (rt_reducer self) t' = f) as Hdue.
  { intros t' Ht'. by apply (check_not_due _ sample). }
  unfold tick_frame. destruct (bool_decide _ && _) eqn:Hsame.
  - apply andb_true_iff in Hsame as [Hkey%bool_decide_eq_true Heq]. change (rt_last_frame_key self = Some key) in Hkey.
    change (is_some_and (rt_last_frame_view self) (λ last, view_eqb last view) = true) in Heq.
    destruct (ws_key self w Hw key Hkey) as (Hav' & v & Hv & Hwv & Hvis & fl & Hfl & Hmark). rewrite Hv in Heq. cbn [is_some_and] in Heq.
    set (self2 := if changed then _ else self1).
    assert (rt_reducer self2 = rt_reducer self ∧ rt_last_frame_key self2 = Some key ∧ rt_last_frame_view self2 = Some v ∧
            rt_last_available self2 = Some true ∧ rt_last_freshness self2 = rt_last_freshness self ∧
            rt_world_to_image self2 = rt_world_to_image self ∧
            rt_next_freshness_check_ms self2 = next_freshness_check now f (age sample now))
      as (Hr2 & Hk2 & Hv2 & Ha2 & Hf2 & Ht2 & Hn2).
    { unfold self2. by destruct changed. }
    assert (current_view (E:=E) self2 sample f mw mh = Some (Ok view)) as Hview2.
    { rewrite <- Hview. unfold current_view. by rewrite Hr2, Ht2. }
    clearbody self2. rewrite Hf2.
    destruct (decide (rt_last_freshness self = Some f)) as [Hlf|Hlf];
      [rewrite (bool_decide_true (_ = Some f)) by done|rewrite (bool_decide_false (_ = Some f)) by done];
      cbn [negb fst snd]; (split; [|exact (conj Hr2 (conj Ht2 Ha2))]).
    + apply (ticked_intro _ _ _ _ _ sample view v); rewrite ?Hr2, ?Hn2; try done; [by rewrite Hf2|].
      unfold observe. cbn. by rewrite Hwv, Hvis, (ws_told self w Hw), Hlf.
    + apply (ticked_intro _ _ _ _ _ sample view v); cbn; rewrite ?Hr2, ?Hn2; try done;
        [|rewrite <- Hview; unfold current_view; cbn [rt_world_to_image rt_reducer]; by rewrite Ht2].
      rewrite (current_view_player _ _ _ _ _ _ _ Hview Heq) in Hmark.
      assert (f ≠ Stale) as Hfresh.
      { intros Hst. rewrite Hfl in Hlf. rewrite (bool_decide_true (f = Stale)) in Hmark by done. symmetry in Hmark.
        apply negb_false_iff, bool_decide_eq_true in Hmark. congruence. }
      unfold observe. cbn. rewrite Hwv, Hvis. f_equal. exact (fresh_shown _ sample now Hs Hfresh).
  - cbn [fst snd]. split; [|done].
    apply (ticked_intro _ _ _ _ _ sample view view); try done.
    + unfold observe. cbn. unfold gate_update. cbn. by destruct (w_visible w).
    + by eapply current_view_refl.
Qed.

(** The window is what a full recomputation of the present state gives. *)
Definition current self (w : Window) (now mw mh : N) : Prop :=
  let r := rt_reducer self in
  w_freshness w = Some (freshness r now) ∧
  (if has_trusted_position r && is_some (place_of self)
      && (w_visible w || negb (bool_decide (freshness r now = Stale)))
   then shows self w now mw mh ∧ w_visible w = true
   else w_view w = None ∧ w_visible w = false).

Lemma ticked_current self w now mw mh :
  ticked self w now mw mh →
  (rt_last_available self = Some true ∧ has_trusted_position (rt_reducer self) = true ∧ is_some (place_of self) = true) ∨
  (rt_last_available self = Some false ∧
   (has_trusted_position (rt_reducer self) && is_some (place_of self) = false ∨ freshness (rt_reducer self) now = Stale)) →
  current self w now mw mh.
Proof.
  intros [Hw _ Hshows Hf] Hav. split; [done|]. destruct Hav as [(Ha & -> & ->)|(Ha & Hno)].
  - destruct (Hshows Ha) as [Hs Hv]. rewrite Hv. done.
  - destruct (ws_none self w Hw Ha) as [Hv Hs]. rewrite Hs. cbn [orb].
    destruct Hno as [-> | ->]; [done|]. rewrite (bool_decide_true (Stale = Stale)) by done. cbn [negb].
    by rewrite andb_false_r.
Qed.

Lemma nothing_due_ok self w t now mw mh :
  window_synced self w → frame_synced self w t → t ≤ now → nothing_due self now mw mh = true →
  let self1 := self <| rt_last_available := Some true |> in ticked self1 w now mw mh.
Proof.
  intros Hw Hfr Hle [Hk Hdue]%andb_true_iff self1. destruct (rt_last_frame_key self) as [k|] eqn:Hkey; [|done].
  cbn [is_some_and] in Hk. apply andb_true_iff in Hk as [<-%N.eqb_eq <-%N.eqb_eq].
  destruct (ws_key self w Hw k Hkey) as (Hav & v & Hv & Hwv & Hvis & _).
  destruct (Hfr k Hkey) as (sample & Hs & Hlf & Hgen & Hver & Hcur).
  destruct (N.eqb_spec (key_settings_version k) (settings_version (rt_reducer self))) as [Heq|].
  2: { rewrite Hcur in Hdue. apply N.ltb_lt in Hdue. lia. }
  destruct Hcur as [Hshows Hlater]. pose proof (Hlater now Hle Hdue) as Hnow.
  destruct (shows_later self w t now _ _ sample Hs Hle (or_intror (eq_sym Hnow)) Hshows)
    as (s2 & view & v2 & Hs2 & Hview & Hwv2 & He).
  assert (s2 = sample ∧ v2 = v) as [-> ->].
  { destruct Hs as [_ Hs], Hs2 as [_ Hs2]. by simplify_eq. }
  destruct w as [wv wf wz]. cbn in Hwv, Hvis, Hwv2. subst wv wz.
  apply (ticked_intro self1 _ _ _ _ sample view v); try done.
  - unfold self1. cbn. rewrite Hkey, <- Hgen, <- Heq. by destruct k.
  - change (rt_last_freshness self = Some (freshness (rt_reducer self) now)). by rewrite Hnow.
  - pose proof (ws_told self _ Hw) as Htold. cbn in Htold. rewrite Htold, Hlf, <- Hnow. done.
  - intros t' Ht' Hd. change (freshness (rt_reducer self) t' = freshness (rt_reducer self) now). rewrite Hnow.
    apply Hlater; [lia|done].
Qed.

Lemma tick_polled_ok self w t now mw mh changed :
  window_synced self w → (changed = false → frame_synced self w t) → t ≤ now →
  ∃ answer self', tick_polled (E:=E) self changed now mw mh = Some (answer, self') ∧
    match answer with
    | Ok tick => ticked self' (observe w tick) now mw mh ∧ current self' (observe w tick) now mw mh
    | Err _ => True
    end.
Proof.
  intros Hw Hfr Hle. unfold tick_polled. set (f := freshness (rt_reducer self) now).
  destruct (is_available self f) eqn:Hav; cbn [negb].
  2: { pose proof (tick_unavailable_ok self w now mw mh Hw) as [Ht Ha]. fold f in Ht, Ha.
    destruct (tick_unavailable self f) as [tk self'] eqn:Htk. cbn [fst snd] in *. eexists _, _. split; [done|].
    split; [done|]. apply ticked_current; [done|]. right. split; [done|].
    injection Htk as _ <-. unfold is_available in Hav. change (place_of _) with (place_of self).
    cbn [rt_reducer]. destruct (has_trusted_position (rt_reducer self) && is_some (place_of self)) eqn:Hin;
      [right|by left]. cbn [andb] in Hav. apply orb_false_iff in Hav as [_ Hst%negb_false_iff%bool_decide_eq_true]. done. }
  destruct (available_sample self f Hav) as (sample & Hs & Hplace). pose proof Hs as [Htrust Hlast].
  destruct (negb changed && nothing_due _ now mw mh) eqn:Hquiet.
  { apply andb_true_iff in Hquiet as [Hc%negb_true_iff Hdue].
    pose proof (nothing_due_ok self w t now mw mh Hw (Hfr Hc) Hle Hdue) as Ht. eexists _, _. split; [done|]. cbv beta iota.
    assert (observe w PtUnchanged = w) as -> by by destruct w. split; [done|].
    apply ticked_current; [done|]. by left. }
  assert (∀ tk self', ticked self' (observe w tk) now mw mh ∧ same_scene self self' →
    ticked self' (observe w tk) now mw mh ∧ current self' (observe w tk) now mw mh) as Hdone.
  { intros tk self' [Ht (Hr & Hm & Ha)]. split; [done|]. apply ticked_current; [done|]. left. rewrite Hr. split; [done|].
    split; [done|]. unfold place_of in *. by rewrite Hr, Hm. }
  assert (last_position (rt_reducer (self <| rt_last_available := Some true |>)) = Some sample) as -> by done.
  cbn [mbind option_bind]. fold (age sample now).
  set (self1 := self <| rt_last_available := Some true |> <| rt_next_freshness_check_ms := _ |>).
  set (key := mkKey _ _ _ _).
  destruct (negb changed && bool_decide _) eqn:Hsame.
  { apply andb_true_iff in Hsame as [Hc%negb_true_iff Hkey%bool_decide_eq_true]. change (rt_last_frame_key self = Some key) in Hkey.
    destruct (Hfr Hc key Hkey) as (s' & _ & Hlf & _ & _ & Hcur). unfold key in Hcur at 1. cbn [key_settings_version] in Hcur.
    change (settings_version (rt_reducer self1)) with (settings_version (rt_reducer self)) in Hcur.
    rewrite N.eqb_refl in Hcur. destruct Hcur as [Hshows _].
    assert (window_synced self1 w) as Hw1.
    { destruct (ws_key self w Hw key Hkey) as (Ha & _). destruct Hw as [H1 H2 H3 H4]. split; [done|done| |by exists key].
      intros k Hk. split; [done|apply (H3 k Hk)]. }
    pose proof (tick_same_key_ok self1 w t now mw mh sample key Hw1 Hlf Hshows Hle Hs eq_refl Hkey eq_refl eq_refl) as Hk.
    change (freshness (rt_reducer self1) now) with f in Hk.
    destruct (tick_same_key self1 sample f) as [tk self'] eqn:Htk. cbn [fst snd] in Hk.
    eexists _, _. split; [done|]. cbv beta iota. by apply Hdone. }
  destruct (place_current self sample f mw mh Hlast Hplace) as [viewed Hviewed].
  assert (current_view (E:=E) self1 sample f mw mh = Some viewed) as -> by done.
  cbn [mbind option_bind]. destruct viewed as [view|e]; [|by eexists _, _].
  pose proof (tick_frame_ok self w now mw mh sample changed view Hw Hs Hviewed) as Hframe.
  cbv zeta in Hframe. fold f self1 in Hframe.
  change (mkKey _ (settings_version (rt_reducer self)) mw mh) with key in Hframe.
  destruct (tick_frame self1 changed sample key f view) as [tk self'] eqn:Htk. cbn [fst snd] in Hframe.
  eexists _, _. split; [done|]. cbv beta iota. by apply Hdone.
Qed.

Lemma synced_polled self w t source reducer changed :
  window_synced self w → frame_synced self w t → (changed = false → reducer = rt_reducer self) →
  let self' := self <| rt_source := source |> <| rt_reducer := reducer |> in
  window_synced self' w ∧ (changed = false → frame_synced self' w t).
Proof. intros [H1 H2 H3 H4] Hfr Hr self'. split; [by split|]. intros Hc. unfold self'. by rewrite (Hr Hc). Qed.

(** A tick never panics, and leaves the window current. *)
Lemma tick_ok self w t now mw mh :
  window_synced self w → frame_synced self w t → t ≤ now →
  ∃ answer self', tick (E:=E) self now mw mh = Some (answer, self') ∧
    match answer with
    | Ok tk => ticked self' (observe w tk) now mw mh ∧ current self' (observe w tk) now mw mh
    | Err _ => True
    end.
Proof.
  intros Hw Hfr Hle. unfold tick.
  destruct (poll_events now _ (rt_source self) (rt_reducer self) false) as [[polled source] reducer] eqn:Hp.
  destruct polled as [changed|e]; [|by eexists _, _].
  destruct (synced_polled self w t source reducer changed Hw Hfr) as [Hw' Hfr'].
  { intros ->. by eapply poll_events_quiet. }
  by apply (tick_polled_ok _ _ t).
Qed.

Lemma settings_ok self w t version new_settings :
  window_synced self w → frame_synced self w t →
  let self' := (runtime_apply_settings (E:=E) self version new_settings).2 in
  window_synced self' w ∧ frame_synced self' w t.
Proof.
  intros Hw Hfr self'. unfold self', runtime_apply_settings. cbn [apply].
  destruct (apply_settings_cases (rt_reducer self) version new_settings)
    as [[e ->]|(mini & expanded & _ & Hver & _ & _ & ->)]; cbn [snd].
  { by destruct self. }
  destruct Hw as [H1 H2 H3 H4]. split; [by split|]. intros k Hk.
  destruct (Hfr k Hk) as (sample & Hs & Hlf & Hg & Hv & _). exists sample.
  split; [done|]. split; [done|]. split; [done|]. cbn. split; [lia|].
  destruct (N.eqb_spec (key_settings_version k) version); [lia|done].
Qed.

(** The tick stops the program at the first error; refused settings change nothing. *)
Definition run_op (state : ActualMapPreviewRuntime S * Window) (op : RuntimeOp) :
    option (result (ActualMapPreviewRuntime S * Window) (ActualMapRuntimeError E)) :=
  let '(self, w) := state in
  match op with
  | OpTick now mw mh =>
      '(answer, self) ← tick self now mw mh;
      Some (let? tk := answer in Ok (self, observe w tk))
  | OpSettings version new_settings => Some (Ok ((runtime_apply_settings (E:=E) self version new_settings).2, w))
  | OpSelect world_to_image => Some (Ok (select_world_to_image self world_to_image, w))
  end.

Fixpoint run_ops (state : ActualMapPreviewRuntime S * Window) (ops : list RuntimeOp) :
    option (result (ActualMapPreviewRuntime S * Window) (ActualMapRuntimeError E)) :=
  match ops with
  | [] => Some (Ok state)
  | op :: ops =>
      answer ← run_op state op;
      match answer with Ok state => run_ops state ops | Err e => Some (Err e) end
  end.

(** The clock of the ticks never runs backwards. *)
Fixpoint clock_from (t : N) (ops : list RuntimeOp) : Prop :=
  match ops with
  | [] => True
  | OpTick now _ _ :: ops => t ≤ now ∧ clock_from now ops
  | _ :: ops => clock_from t ops
  end.

Lemma run_ops_ok ops self w t now mw mh :
  window_synced self w → frame_synced self w t → clock_from t (ops ++ [OpTick now mw mh]) →
  ∃ answer, run_ops (self, w) (ops ++ [OpTick now mw mh]) = Some answer ∧
    match answer with Ok (self', w') => current self' w' now mw mh | Err _ => True end.
Proof.
  revert self w t. induction ops as [|op ops IH]; intros self w t Hw Hfr Hclock.
  - cbn [app run_ops run_op] in *. destruct Hclock as [Hle _].
    destruct (tick_ok self w t now mw mh Hw Hfr Hle) as (answer & self' & -> & Ha). cbn [mbind option_bind].
    destruct answer as [tk|e]; cbn [and_then]; [|by eexists]. eexists. split; [done|]. apply Ha.
  - cbn [app run_ops]. destruct op as [now' mw' mh'|version s|m]; cbn [run_op app clock_from] in *.
    + destruct Hclock as [Hle Hclock].
      destruct (tick_ok self w t now' mw' mh' Hw Hfr Hle) as (answer & self' & -> & Ha). cbn [mbind option_bind].
      destruct answer as [tk|e]; cbn [and_then]; [|by eexists]. destruct Ha as [Ht _].
      apply (IH _ _ now'); [apply Ht|apply Ht|done].
    + cbn [mbind option_bind]. destruct (settings_ok self w t version s Hw Hfr) as [Hw' Hfr']. by apply (IH _ _ t).
    + cbn [mbind option_bind]. apply (IH _ _ t); [|by intros k [=]|done].
      destruct Hw as [H1 H2 H3 H4]. by split.
Qed.
End Ticks.

(** ** Properties *)

(** C18: a window that applies only the answers of the ticks, whatever the source emits and
    however ticks, settings and map selections interleave, shows what a full recomputation at
    the last tick would: the present freshness and, while the position is trusted, on the
    selected map and not stale, the view of the newest sample under the newest settings; a
    stale position leaves at most that view without the player, and otherwise the window is
    hidden. Frames that are suppressed, put off until freshness changes or answered by a change
    of freshness alone lose nothing. No tick panics; the only other outcome is the first error
    of the source, of the reducer or of a view out of range. *)
Theorem runtime_shows_current {S E : Type} `{!PositionSource S E} (source : S) (new_settings : OverlaySettings)
    (world_to_image : WorldToImageTransform) (rt : ActualMapPreviewRuntime S) (ops : list RuntimeOp)
    (now map_width map_height : N) :
  runtime_new (E:=E) source new_settings world_to_image = Some (Ok rt) →
  clock_from 0 (ops ++ [OpTick now map_width map_height]) →
  ∃ answer, run_ops (E:=E) (rt, mkWindow None None false) (ops ++ [OpTick now map_width map_height]) = Some answer ∧
    match answer with
    | Ok (rt', w) => current (E:=E) rt' w now map_width map_height
    | Err _ => True
    end.
Proof.
  intros Hnew Hclock. apply (run_ops_ok _ _ _ 0); [| |done].
  - unfold runtime_new in Hnew. destruct default as [r|]; [|done]. cbn [mbind option_bind] in Hnew.
    destruct (apply r _) as [[u|e] r']; [|done]. injection Hnew as <-. by split.
  - unfold runtime_new in Hnew. destruct default as [r|]; [|done]. cbn [mbind option_bind] in Hnew.
    destruct (apply r _) as [[u|e] r']; [|done]. injection Hnew as <-. by intros k [=].
Qed.

(** ** Examples *)

(** A source that plays a list of events. *)
#[local] Instance script_source : PositionSource (list PositionSourceEvent) unit := λ _ events,
  match events with [] => (Ok None, []) | e :: events => (Ok (Some e), events) end.

Definition demo_transform : WorldToImageTransform :=
  mkWorldToImage (f64_of_Z (-1000)) (f64_of_Z (-1000)) (f64_of_Z 1000) (f64_of_Z 1000)
    f64_zero (f64_lit 1 2000) f64_half (f64_lit (-1) 2000) f64_zero f64_half.

(** A sample, its ageing, and the player's marker gone once the position is stale. *)
Lemma runtime_shows_current_witness :
  let ops := [OpTick 10 2048 2048; OpTick 3000 2048 2048; OpSettings 3 OverlaySettings_default] in
  ∃ rt, runtime_new (E:=unit) [Connected 1; Sample sample_1] OverlaySettings_default demo_transform = Some (Ok rt) ∧
    match run_ops (E:=unit) (rt, mkWindow None None false) (ops ++ [OpTick 4000 2048 2048; OpTick 6000 2048 2048]) with
    | Some (Ok (_, w)) =>
        w_visible w = true ∧ w_freshness w = Some Stale ∧
        (center_x <$> w_view w) = Some (f64_of_N 1024) ∧ (player_map_x <$> w_view w) = Some None
    | _ => False
    end ∧
    ∃ answer, run_ops (E:=unit) (rt, mkWindow None None false) (ops ++ [OpTick 4000 2048 2048]) = Some answer ∧
      match answer with
      | Ok (rt', w) => current (E:=unit) rt' w 4000 2048 2048
      | Err _ => True
      end.
Proof.
  intros ops. eexists. split; [vm_compute; reflexivity|]. split; [vm_compute; by split_and!|].
  apply (runtime_shows_current (E:=unit) [Connected 1; Sample sample_1] OverlaySettings_default demo_transform).
  - vm_compute. reflexivity.
  - cbn. split_and!; [discriminate..|exact I].
Defined.
