(* ===== verification/InputCapture.v ===== *)
(** * When the overlay in the game may capture input

    Models [InteractionAuthorization] and [CursorInteractionSync] of
    [crates/pal-fullscreen-render-loop/src/lib.rs]: the two state machines that decide when the
    fullscreen overlay asks for the interactive mode, when it may keep the game's input to
    itself and when it gives the input back. An [Instant] is a number of nanoseconds. *)

From S2P Require Import Prelude FrameBridge.

Definition millis (n : N) : N := n * 1000000.

Definition CURSOR_HIDE_GRACE : N := millis 100.
Definition MODE_ACTION_RETRY_INTERVAL : N := millis 100.
Definition ENTER_INTERACTION_INTENT_TIMEOUT : N := millis 750.
Definition INTERACTION_ACK_TIMEOUT : N := millis 1500.

#[export] Instance FrameInputMode_eq_dec : EqDecision FrameInputMode.
Proof. solve_decision. Defined.

Definition mode_eqb (a b : FrameInputMode) : bool :=
  match a, b with FrLocked, FrLocked | FrInteractive, FrInteractive => true | _, _ => false end.

(** [now.checked_duration_since(at).unwrap_or_default()]. *)
Definition elapsed (now since : N) : N := saturating_sub now since.

(** ** Authorization *)

Inductive AuthorizationPhase :=
| PhIdle
| PhAwaitingInteractiveAck (requested_at : N)
| PhAuthorized.
#[export] Instance AuthorizationPhase_eq_dec : EqDecision AuthorizationPhase.
Proof. solve_decision. Defined.

Inductive AuthorizationDecision := AdNoCapture | AdCapture | AdRequestLock.
#[export] Instance AuthorizationDecision_eq_dec : EqDecision AuthorizationDecision.
Proof. solve_decision. Defined.

Record InteractionAuthorization := mkAuthorization {
  phase : AuthorizationPhase;
  unauthorized_lock_sent_at : option N;
}.
#[export] Instance InteractionAuthorization_eta : Eta InteractionAuthorization := λ a,
  mkAuthorization (phase a) (unauthorized_lock_sent_at a).

Definition authorization_default : InteractionAuthorization := mkAuthorization PhIdle None.

Definition note_enter_requested (_ : InteractionAuthorization) (now : N) : InteractionAuthorization :=
  mkAuthorization (PhAwaitingInteractiveAck now) None.
Definition clear_authorization (_ : InteractionAuthorization) : InteractionAuthorization :=
  mkAuthorization PhIdle None.
Definition is_authorized (self : InteractionAuthorization) : bool := bool_decide (phase self = PhAuthorized).

(** A request that was not acknowledged in time is forgotten. *)
Definition expire_request (self : InteractionAuthorization) (now : N) : InteractionAuthorization :=
  match phase self with
  | PhAwaitingInteractiveAck requested_at =>
      if INTERACTION_ACK_TIMEOUT <? elapsed now requested_at then self <| phase := PhIdle |> else self
  | _ => self
  end.

Definition authorization_update (self : InteractionAuthorization) (now : N) (connected expanded_visible : bool)
    (input_mode : FrameInputMode) (cursor_visible : option bool) : AuthorizationDecision * InteractionAuthorization :=
  if negb connected || negb expanded_visible then (AdNoCapture, clear_authorization self)
  else
    let self := expire_request self now in
    match input_mode with
    | FrLocked =>
        let self := self <| unauthorized_lock_sent_at := None |> in
        (AdNoCapture, if is_authorized self then self <| phase := PhIdle |> else self)
    | FrInteractive =>
        match phase self with
        | PhAuthorized => (AdCapture, self <| unauthorized_lock_sent_at := None |>)
        | PhAwaitingInteractiveAck _ =>
            if bool_decide (cursor_visible = Some true)
            then (AdCapture, self <| phase := PhAuthorized |> <| unauthorized_lock_sent_at := None |>)
            else (AdNoCapture, self)
        | PhIdle =>
            if is_none_or (unauthorized_lock_sent_at self) (λ sent_at, MODE_ACTION_RETRY_INTERVAL <=? elapsed now sent_at)
            then (AdRequestLock, self <| unauthorized_lock_sent_at := Some now |>)
            else (AdNoCapture, self)
        end
    end.

(** ** The cursor of the game *)

Record PendingModeTransition := mkTransition { target : FrameInputMode; sent_at : N }.

Record CursorInteractionSync := mkSync {
  hidden_since : option N;
  pending : option PendingModeTransition;
  enter_intent_at : option N;
}.
#[export] Instance CursorInteractionSync_eta : Eta CursorInteractionSync := λ s,
  mkSync (hidden_since s) (pending s) (enter_intent_at s).

Definition sync_default : CursorInteractionSync := mkSync None None None.

Definition note_enter_intent (self : CursorInteractionSync) (at_ : N) : CursorInteractionSync :=
  self <| enter_intent_at := Some at_ |>.
Definition reset_sync (self : CursorInteractionSync) : CursorInteractionSync :=
  self <| hidden_since := None |> <| pending := None |> <| enter_intent_at := None |>.
Definition has_pending_transition (self : CursorInteractionSync) : bool := is_some (pending self).

Definition request_transition (self : CursorInteractionSync) (now : N) (input_mode to : FrameInputMode)
    (action : ConsumerAction) : option ConsumerAction * CursorInteractionSync :=
  if mode_eqb input_mode to then (None, self <| pending := None |>)
  else if is_none_or (pending self) (λ p,
            negb (mode_eqb (target p) to) || (MODE_ACTION_RETRY_INTERVAL <=? elapsed now (sent_at p)))
  then (Some action, self <| pending := Some (mkTransition to now) |>)
  else (None, self).

Definition enter_intent_is_recent (self : CursorInteractionSync) (now : N) : bool * CursorInteractionSync :=
  match enter_intent_at self with
  | None => (false, self)
  | Some intent_at =>
      if elapsed now intent_at <=? ENTER_INTERACTION_INTENT_TIMEOUT then (true, self)
      else (false, self <| enter_intent_at := None |>)
  end.

Definition targets (self : CursorInteractionSync) (mode : FrameInputMode) : bool :=
  is_some_and (pending self) (λ p, mode_eqb (target p) mode).

Definition update_locked (self : CursorInteractionSync) (now : N) (cursor_visible : bool) :
    option ConsumerAction * CursorInteractionSync :=
  let self := self <| hidden_since := None |> in
  let retrying_enter := targets self FrInteractive in
  let '(recent_enter_intent, self) := enter_intent_is_recent self now in
  if negb cursor_visible then (None, if retrying_enter then self <| pending := None |> else self)
  else if negb retrying_enter && negb recent_enter_intent then (None, self)
  else
    let self := if negb retrying_enter then self <| enter_intent_at := None |> else self in
    request_transition self now FrLocked FrInteractive CaEnterInteractive.

Definition update_interactive (self : CursorInteractionSync) (now : N) (cursor_visible : bool) :
    option ConsumerAction * CursorInteractionSync :=
  let self := self <| enter_intent_at := None |> in
  if cursor_visible then (None, self <| hidden_since := None |> <| pending := None |>)
  else
    let since := unwrap_or (hidden_since self) now in
    let self := self <| hidden_since := Some since |> in
    if elapsed now since <? CURSOR_HIDE_GRACE then (None, self <| pending := None |>)
    else request_transition self now FrInteractive FrLocked CaLock.

Definition sync_update (self : CursorInteractionSync) (now : N) (expanded : bool) (input_mode : FrameInputMode)
    (cursor_visible escape_lock_pending : bool) : option ConsumerAction * CursorInteractionSync :=
  if negb expanded then (None, reset_sync self)
  else
    let self := if targets self input_mode then self <| pending := None |> else self in
    if escape_lock_pending then
      request_transition (self <| hidden_since := None |> <| enter_intent_at := None |>) now input_mode FrLocked CaLock
    else
      match input_mode with
      | FrLocked => update_locked self now cursor_visible
      | FrInteractive => update_interactive self now cursor_visible
      end.

Definition escape_lock_acknowledged (input_mode : FrameInputMode) (cursor_visible : bool) : bool :=
  mode_eqb input_mode FrLocked && negb cursor_visible.

(** ** What the machines promise *)

(** The machine has an entry under way: an intent, or a transition it asked for. *)
Definition entering (self : CursorInteractionSync) : Prop :=
  is_Some (enter_intent_at self) ∨ targets self FrInteractive = true.

(** An update is a matter of finitely many cases. *)
Ltac sync_cases :=
  repeat match goal with
  | |- context [elapsed ?a ?b <? ?c] => destruct (elapsed a b <? c); cbn
  | |- context [elapsed ?a ?b <=? ?c] => destruct (elapsed a b <=? c); cbn
  | |- context [?c <=? elapsed ?a ?b] => destruct (c <=? elapsed a b); cbn
  end;
  intuition (try done; try congruence; eauto).

(** An update starts no entry of its own, asks to enter only when one is under way, the map is
    locked and the game shows its cursor, and asks for nothing else but the lock. *)
Lemma sync_update_spec self now expanded mode cursor lock :
  (entering (sync_update self now expanded mode cursor lock).2 → entering self) ∧
  match (sync_update self now expanded mode cursor lock).1 with
  | None => True
  | Some CaEnterInteractive => entering self ∧ expanded = true ∧ mode = FrLocked ∧ cursor = true ∧ lock = false
  | Some CaLock => expanded = true ∧ mode = FrInteractive
  | Some _ => False
  end.
Proof.
  unfold sync_update, update_locked, update_interactive, enter_intent_is_recent, request_transition, entering, targets,
    reset_sync.
  destruct self as [h [[[] q]|] [e|]], mode; cbn; destruct expanded, lock, cursor; cbn;
    (split; sync_cases).
Qed.

(** While an Escape waits for its acknowledgement no entry survives an update. *)
Lemma sync_update_lock self now expanded mode cursor :
  ¬ entering (sync_update self now expanded mode cursor true).2.
Proof.
  unfold sync_update, request_transition, entering, targets, reset_sync.
  destruct self as [h [[[] q]|] [e|]], mode; cbn; destruct expanded; cbn; sync_cases;
    by intros [[? ?]|?].
Qed.
