(* ===== verification/FullscreenDock.v ===== *)
(** * The dock, the search and the drags of the map drawn in the game

    Models the parts of [crates/pal-fullscreen-render-loop/src/lib.rs] that decide where the
    overlay is drawn, which clicks start a drag of the map, what the filter buttons ask for and
    which places a search finds. The user interface library, the colours and the drawing calls
    are not modelled. [trim] and [to_lowercase] of [str] depend on the Unicode tables and are
    parameters. *)

From S2P Require Import Prelude Floats FrameBridge OverlayVisual.

Definition f32_of_N (n : N) : f32 := f32_of_Z (Z.of_N n).
Definition f32_add : f32 → f32 → f32 := fadd prec32 emax32.
Definition f32_sub : f32 → f32 → f32 := fsub prec32 emax32.
Definition f32_mul : f32 → f32 → f32 := fmul prec32 emax32.
Definition f32_div : f32 → f32 → f32 := fdiv prec32 emax32.
Definition HALF : f32 := f32_lit 5 10.

Definition OVERLAY_ORIGIN : f32 * f32 := (f32_of_N 18, f32_of_N 18).
Definition PANEL_WIDTH : f32 := f32_of_N (expanded_panel_width_dip OVERLAY_VISUAL_V1).
Definition PANEL_INSET : f32 := f32_of_N (expanded_panel_inset_dip OVERLAY_VISUAL_V1).
Definition SEARCH_ROW_HEIGHT : f32 := f32_of_N (expanded_search_row_height_dip OVERLAY_VISUAL_V1).
Definition SEARCH_MAX_RESULTS : nat := 3.
Definition FILTER_BUTTON_SIZE : f32 * f32 :=
  (f32_of_N (filter_button_width_dip OVERLAY_VISUAL_V1), f32_of_N (filter_button_height_dip OVERLAY_VISUAL_V1)).
Definition FILTER_GAP : f32 := f32_of_N 8.
Definition DOCK_MAX_WIDTH : f32 := f32_of_N 620.
Definition DOCK_MIN_WIDTH : f32 := f32_of_N 420.
Definition DOCK_HEIGHT : f32 := f32_of_N 44.
Definition DOCK_GAP : f32 := f32_of_N 6.
Definition NO_SEARCH_SELECTION : N := u32_max.

Record PresentedFrame := mkPresented {
  pf_texture : N;
  pf_raster_width : N;
  pf_raster_height : N;
  pf_display_width : N;
  pf_display_height : N;
  pf_opacity : f32;
  pf_logical_visible : bool;
  pf_display_mode : FrameDisplayMode;
  pf_input_mode : FrameInputMode;
  pf_poi_filters : FramePoiFilters;
}.

Definition is_expanded (mode : FrameDisplayMode) : bool :=
  match mode with FrExpandedMap => true | FrMiniMap => false end.
Definition is_interactive (mode : FrameInputMode) : bool :=
  match mode with FrInteractive => true | FrLocked => false end.

(** ** Places on the screen *)

Definition frame_display_size (frame : PresentedFrame) : f32 * f32 :=
  (f32_of_N (pf_display_width frame), f32_of_N (pf_display_height frame)).
Definition expanded_overlay_size (frame : PresentedFrame) : f32 * f32 := frame_display_size frame.

Definition overlay_origin (frame : PresentedFrame) (viewport_size : f32 * f32) : f32 * f32 :=
  if negb (is_expanded (pf_display_mode frame)) || fle viewport_size.1 (f32_of_N 0)
     || fle viewport_size.2 (f32_of_N 0)
  then OVERLAY_ORIGIN
  else
    let display_size := frame_display_size frame in
    (fmax (f32_mul (f32_sub viewport_size.1 display_size.1) HALF) (f32_of_N 0),
     fmax (f32_mul (f32_sub viewport_size.2 display_size.2) HALF) (f32_of_N 0)).

Record DockLayout := mkDock { dk_left : f32; dk_top : f32; dk_width : f32; dk_height : f32 }.

Definition bottom_dock_layout (frame : PresentedFrame) : DockLayout :=
  let display_size := frame_display_size frame in
  let available := fmax (f32_sub display_size.1 (f32_mul PANEL_INSET (f32_of_N 2))) (f32_of_N 1) in
  let width := fmax (fmin available DOCK_MAX_WIDTH) (fmin DOCK_MIN_WIDTH available) in
  mkDock (f32_mul (f32_sub display_size.1 width) HALF)
         (f32_sub (f32_sub display_size.2 PANEL_INSET) DOCK_HEIGHT) width DOCK_HEIGHT.

Definition rect_holds (left top width height : f32) (point : f32 * f32) : bool :=
  fle left point.1 && flt point.1 (f32_add left width) && fle top point.2 && flt point.2 (f32_add top height).

(** ** Drags *)

Definition filter_popover_height : f32 :=
  let rows := f32_of_N 4 in
  f32_add (f32_add (f32_of_N 70) (f32_mul FILTER_BUTTON_SIZE.2 rows))
          (f32_mul FILTER_GAP (f32_sub rows (f32_of_N 1))).

Definition map_drag_starts_at (frame : PresentedFrame) (point : f32 * f32)
    (filter_open search_popover_open : bool) : bool :=
  if negb (is_finite point.1 && is_finite point.2) then false
  else
    let display := frame_display_size frame in
    if flt point.1 (f32_of_N 0) || flt point.2 (f32_of_N 0) || fle display.1 point.1 || fle display.2 point.2
    then false
    else
      let dock := bottom_dock_layout frame in
      let above height :=
        rect_holds (dk_left dock) (f32_sub (f32_sub (dk_top dock) DOCK_GAP) height)
          (fmin PANEL_WIDTH (dk_width dock)) height point in
      if rect_holds (dk_left dock) (dk_top dock) (dk_width dock) (dk_height dock) point then false
      else if filter_open then negb (above filter_popover_height)
      else if search_popover_open then
        negb (above (f32_add (f32_of_N 18) (f32_mul SEARCH_ROW_HEIGHT (f32_of_N (N.of_nat SEARCH_MAX_RESULTS)))))
      else true.

Definition logical_drag_to_raster (frame : PresentedFrame) (logical_delta : f32 * f32) : f32 * f32 :=
  (f32_div (f32_mul logical_delta.1 (f32_of_N (pf_raster_width frame))) (f32_of_N (pf_display_width frame)),
   f32_div (f32_mul logical_delta.2 (f32_of_N (pf_raster_height frame))) (f32_of_N (pf_display_height frame))).

(** What a drag keeps between two frames: whether one is on, and where the mouse was. *)
Record MapDrag := mkDrag { md_active : bool; md_last : option (f32 * f32) }.
Definition no_drag : MapDrag := mkDrag false None.

Record Mouse := mkMouse { ms_pos : f32 * f32; ms_clicked : bool; ms_down : bool }.

Definition fpair_eqb (a b : f32 * f32) : bool := feq a.1 b.1 && feq a.2 b.2.

Definition update_map_drag (frame : PresentedFrame) (window_pos : f32 * f32) (mouse : Mouse)
    (filter_open search_popover_open : bool) (drag : MapDrag) (pending_pan : f32 * f32) : MapDrag * (f32 * f32) :=
  let mouse_position := ms_pos mouse in
  let local_position := (f32_sub mouse_position.1 window_pos.1, f32_sub mouse_position.2 window_pos.2) in
  let drag :=
    if ms_clicked mouse then
      let active := map_drag_starts_at frame local_position filter_open search_popover_open in
      mkDrag active (if active then Some mouse_position else None)
    else drag in
  if negb (ms_down mouse) then (no_drag, pending_pan)
  else if negb (md_active drag) then (drag, pending_pan)
  else
    let moved := mkDrag true (Some mouse_position) in
    match md_last drag with
    | None => (moved, pending_pan)
    | Some previous =>
        let raster_delta :=
          logical_drag_to_raster frame (f32_sub mouse_position.1 previous.1, f32_sub mouse_position.2 previous.2) in
        if fpair_eqb raster_delta (f32_of_N 0, f32_of_N 0)
           || negb (is_finite raster_delta.1 && is_finite raster_delta.2)
        then (moved, pending_pan)
        else (moved, (f32_add pending_pan.1 raster_delta.1, f32_add pending_pan.2 raster_delta.2))
    end.

(** ** Filters *)

Definition filter_buttons (filters : FramePoiFilters) : list (string * ConsumerAction * bool) :=
  [(imgui_label_ko FilterFastTravel, CaToggleFastTravel, fr_fast_travel filters);
   (imgui_label_ko FilterBoss, CaToggleBoss, fr_boss filters);
   (imgui_label_ko FilterWanted, CaToggleWanted, fr_wanted filters);
   (imgui_label_ko FilterDungeon, CaToggleDungeon, fr_dungeon filters);
   (imgui_label_ko FilterTower, CaToggleTower, fr_tower filters);
   (imgui_label_ko FilterEgg, CaToggleEgg, fr_egg filters);
   (imgui_label_ko FilterResources, CaToggleResources, fr_resources filters);
   (imgui_label_ko FilterSalvage, CaToggleSalvage, fr_salvage filters)].

Definition search_kind_label (kind : FrameSearchKind) : string :=
  match kind with KindPal => "팰" | KindPoi => "장소" | KindResource => "자원" end.

(** ** Search *)

(** [str::contains]. *)
Fixpoint str_contains (s pattern : string) : bool :=
  starts_with s pattern || match s with EmptyString => false | String _ rest => str_contains rest pattern end.

Definition hit : Type := N * string * nat.
Definition hit_cmp (l r : hit) : comparison :=
  match l.1.1 ?= r.1.1 with
  | Eq => match String.compare l.1.2 r.1.2 with Eq => Nat.compare l.2 r.2 | c => c end
  | c => c
  end.

Section Search.
Context (trim to_lowercase : string → string).

(** [query] is trimmed and in lower case already. *)
Definition hit_of (query : string) (index : nat) (entry : FrameSearchEntry) : option hit :=
  let title := to_lowercase (se_title entry) in
  let subtitle := to_lowercase (se_subtitle entry) in
  rank ← (if String.eqb title query then Some 0
          else if starts_with title query then Some 1
          else if str_contains title query then Some 2
          else if str_contains subtitle query then Some 3
          else None);
  Some (rank, title, index).

Definition hits (catalog : list FrameSearchEntry) (query : string) : list hit :=
  omap (λ p, hit_of query p.1 p.2) (zip (seq 0 (length catalog)) catalog).

Definition search_matches (catalog : list FrameSearchEntry) (query : string) (limit : nat) : list nat :=
  let query := to_lowercase (trim query) in
  if str_is_empty query then []
  else map snd (take limit (sort_by hit_cmp (hits catalog query))).

End Search.

(** ** The order of the hits *)

Definition hit_le (l r : hit) : Prop :=
  l.1.1 < r.1.1 ∨ (l.1.1 = r.1.1 ∧ (l.1.2 = r.1.2 ∧ (l.2 <= r.2)%nat ∨ l.1.2 ≠ r.1.2 ∧ String.le l.1.2 r.1.2)).

Lemma String_compare_le a b :
  match String.compare a b with
  | Eq => a = b
  | Lt => a ≠ b ∧ String.le a b
  | Gt => a ≠ b ∧ String.le b a
  end.
Proof.
  assert (String.compare a b = Eq ∨ a ≠ b) as Hd.
  { destruct (decide (a = b)) as [->|]; [left|by right]. pose proof (String.compare_antisym b b) as H.
    by destruct (String.compare b b). }
  unfold String.le, String.leb. rewrite (String.compare_antisym b a).
  destruct (String.compare a b) eqn:H; [by apply String.compare_eq_iff|by destruct Hd..].
Qed.

Lemma hit_cmp_le l r : match hit_cmp l r with Gt => hit_le r l | _ => hit_le l r end.
Proof.
  destruct l as [[lr lt] li], r as [[rr rt] ri]. unfold hit_cmp, hit_le. cbn.
  destruct (N.compare_spec lr rr) as [->|?|?]; [|by left..].
  pose proof (String_compare_le lt rt) as Hs.
  destruct (String.compare lt rt) eqn:?; [subst|naive_solver..].
  destruct (Nat.compare_spec li ri); right; (split; [done|]); left; split; (done || lia).
Qed.

#[export] Instance hit_le_trans : Transitive hit_le.
Proof.
  intros [[ar at_] ai] [[br bt] bi] [[cr ct] ci]. unfold hit_le. cbn.
  intros [?|(->&Hab)] [?|(->&Hbc)]; [left; lia|by left..|right; split; [done|]].
  destruct Hab as [[-> ?]|[Hn Hab]], Hbc as [[-> ?]|[Hn' Hbc]]; [left; split; [done|lia]|by right..|].
  right. split; [|by etrans]. intros ->. by apply Hn, (anti_symm String.le).
Qed.

Lemma hits_sorted l : StronglySorted hit_le (sort_by hit_cmp l).
Proof.
  apply Sorted_StronglySorted; [apply _|]. apply sort_by_sorted; intros x y; pose proof (hit_cmp_le x y) as Hc.
  - intros H. by rewrite H in Hc.
  - by destruct (hit_cmp x y).
Qed.

Lemma StronglySorted_take_drop {A} (R : relation A) n l :
  StronglySorted R l → ∀ x y, x ∈ take n l → y ∈ drop n l → R x y.
Proof.
  intros Hs x y [i Hi]%list_elem_of_lookup [j Hj]%list_elem_of_lookup.
  apply lookup_take_Some in Hi as [Hi ?]. rewrite lookup_drop in Hj.
  eapply (StronglySorted_two R l i (n + j)); [done|lia|done..].
Qed.

Section Matches.
Context (trim to_lowercase : string → string).

Lemma hit_of_index query index entry h : hit_of to_lowercase query index entry = Some h → h.2 = index.
Proof. unfold hit_of. intros (rank&_&[= <-])%bind_Some. done. Qed.

Lemma elem_of_hits catalog query h :
  h ∈ hits to_lowercase catalog query ↔
  ∃ entry, catalog !! h.2 = Some entry ∧ hit_of to_lowercase query h.2 entry = Some h.
Proof.
  unfold hits. rewrite list_elem_of_omap. split.
  - intros ([index entry]&Hin&Hh). cbn in Hh. pose proof (hit_of_index _ _ _ _ Hh) as <-.
    exists entry. split; [|done].
    apply list_elem_of_lookup in Hin as [k Hk]. apply lookup_zip_Some in Hk as [Hs He].
    apply lookup_seq in Hs as [-> _]. done.
  - intros (entry&Hl&Hh). exists (h.2, entry). split; [|done].
    apply list_elem_of_lookup. exists h.2. apply lookup_zip_Some. split; [|done].
    apply lookup_seq. split; [done|]. by eapply lookup_lt_Some.
Qed.

Lemma hits_indices l k query :
  map snd (omap (λ p, hit_of to_lowercase query p.1 p.2) (zip (seq k (length l)) l)) `sublist_of` seq k (length l).
Proof.
  revert k. induction l as [|e l IH]; intros k; simpl; [done|].
  destruct (hit_of to_lowercase query k e) as [h|] eqn:Hh; simpl; [|by constructor].
  rewrite (hit_of_index _ _ _ _ Hh). by constructor.
Qed.

Lemma hits_NoDup catalog query : NoDup (map snd (hits to_lowercase catalog query)).
Proof. eapply sublist_NoDup; [apply NoDup_seq|apply hits_indices]. Qed.

(** C37: a search that is not blank answers at most [limit] places of the catalogue, none twice;
    every answer matches the query, and a match that is not answered finds [limit] answers at
    least as good: a better rank, or the same rank and a title not after its own. *)
Theorem search_matches_best (catalog : list FrameSearchEntry) (query : string) (limit : nat) :
  let needle := to_lowercase (trim query) in
  let found := search_matches trim to_lowercase catalog query limit in
  let matching i h := ∃ entry, catalog !! i = Some entry ∧ hit_of to_lowercase needle i entry = Some h in
  NoDup found ∧ (length found <= limit)%nat ∧
  (needle = EmptyString → found = []) ∧
  (∀ i, i ∈ found → ∃ h, matching i h) ∧
  (∀ i h, needle ≠ EmptyString → matching i h → i ∉ found →
     length found = limit ∧ ∀ j g, j ∈ found → matching j g → hit_le g h).
Proof.
  intros needle found matching. subst found. unfold search_matches. fold needle.
  set (sorted := sort_by hit_cmp (hits to_lowercase catalog needle)).
  assert (∀ h, h ∈ sorted ↔ matching h.2 h) as Hin.
  { intros h. unfold sorted, matching. by rewrite elem_of_sort_by, elem_of_hits. }
  assert (∀ i h, matching i h → h.2 = i) as Hix by (intros i h (e&_&Hh); by eapply hit_of_index).
  destruct (str_is_empty needle) eqn:Hblank.
  - destruct needle; [|done]. repeat split; [constructor|simpl; lia|set_solver|naive_solver..].
  - split_and!.
    + change (NoDup (snd <$> take limit sorted)). rewrite fmap_take. eapply sublist_NoDup; [|apply sublist_take].
      unfold sorted. rewrite (sort_by_Permutation hit_cmp). apply hits_NoDup.
    + rewrite length_map, length_take. lia.
    + intros He. by rewrite He in Hblank.
    + intros i (h&->&Hh)%list_elem_of_fmap. exists h. apply Hin. by eapply elem_of_take in Hh as (?&?&?); eapply list_elem_of_lookup_2.
    + intros i h _ Hm Hout. pose proof (Hix i h Hm) as Hi. subst i.
      apply Hin in Hm. rewrite <- (take_drop limit sorted) in Hm. apply elem_of_app in Hm as [Hm|Hm].
      { destruct Hout. apply list_elem_of_fmap. by exists h. }
      split.
      * rewrite length_map, length_take. apply list_elem_of_lookup in Hm as [k Hk].
        apply lookup_lt_Some in Hk. rewrite length_drop in Hk. lia.
      * intros j g (h'&->&Hh')%list_elem_of_fmap Hg.
        enough (g = h') as -> by (by eapply StronglySorted_take_drop; [apply hits_sorted| |]).
        assert (matching h'.2 h') as (e&He&Hh2).
        { apply Hin. apply elem_of_take in Hh' as (?&?&?). by eapply list_elem_of_lookup_2. }
        destruct Hg as (e'&He'&Hg). congruence.
Qed.

End Matches.

Lemma search_matches_best_witness :
  let catalog := [mkSearchEntry KindPoi "Old Tower" "Rayne"; mkSearchEntry KindPal "Towerling" EmptyString;
                  mkSearchEntry KindPoi "Harbor" "by the tower"; mkSearchEntry KindPoi "TOWER" EmptyString;
                  mkSearchEntry KindPal "Lamball" EmptyString] in
  search_matches id to_ascii_lowercase catalog "Tower" 3 = [3; 1; 0]%nat ∧
  NoDup (search_matches id to_ascii_lowercase catalog "Tower" 3).
Proof.
  intros catalog. split; [vm_compute; reflexivity|].
  apply (search_matches_best id to_ascii_lowercase catalog "Tower" 3).
Defined.
