(* ===== verification/FullscreenLoop.v ===== *)
(** * The render loop inside the game

    Models [FullscreenRenderLoop] of [crates/pal-fullscreen-render-loop/src/lib.rs]: the cells
    its render thread shares with the bridge reader, [before_render], [render],
    [message_filter], [before_wnd_proc], [Drop] and an iteration of [bridge_reader_loop] on the
    mapping of [FrameBridge]. A step is one call, or one iteration of the reader; the calls of
    the render thread exclude one another in the source, which borrows the loop mutably. What
    the graphics device, the user interface library and the cursor of the game answer are
    inputs of the steps. *)

From S2P Require Import Prelude Floats FrameBridge FrameChannels OverlayVisual InputCapture FullscreenDock.

Definition WRITER_HEARTBEAT_TIMEOUT_MS : N := 2000.
Definition WM_KEYUP : N := 0x101.
Definition VK_ESCAPE : N := 27.

Record LoopState := mkLoop {
  alive : bool;
  hook_ready : bool;
  writer_alive : bool;
  pending_frame : option FullscreenFrame;
  pending_catalog : option (list FrameSearchEntry);
  pending_mode_action : N;
  pending_action : N;
  pending_search_selection : N;
  pending_pan : f32 * f32;
  pending_recenter : bool;
  textures : gmap (N * N) N;
  current : option PresentedFrame;
  search_catalog : list FrameSearchEntry;
  search_query : string;
  filter_open : bool;
  viewport_size : f32 * f32;
  cursor_sync : CursorInteractionSync;
  authorization : InteractionAuthorization;
  pending_enter_intent : option N;
  escape_lock_pending : bool;
  map_drag : MapDrag;
}.
#[export] Instance LoopState_eta : Eta LoopState := λ s,
  mkLoop (alive s) (hook_ready s) (writer_alive s) (pending_frame s) (pending_catalog s) (pending_mode_action s)
    (pending_action s) (pending_search_selection s) (pending_pan s) (pending_recenter s) (textures s) (current s)
    (search_catalog s) (search_query s) (filter_open s) (viewport_size s) (cursor_sync s) (authorization s)
    (pending_enter_intent s) (escape_lock_pending s) (map_drag s).

Definition ZERO2 : f32 * f32 := (f32_of_N 0, f32_of_N 0).

(** [FullscreenRenderLoop::new]. *)
Definition loop_new : LoopState :=
  mkLoop true false false None None 0 0 NO_SEARCH_SELECTION ZERO2 false ∅ None [] EmptyString false ZERO2
    sync_default authorization_default None false no_drag.

Definition reset_cursor_interaction (s : LoopState) : LoopState :=
  s <| cursor_sync ::= reset_sync |> <| authorization ::= clear_authorization |>
    <| pending_enter_intent := None |> <| escape_lock_pending := false |> <| pending_mode_action := 0 |>.

Definition interaction_authorized (s : LoopState) : bool := is_authorized (authorization s).

Definition initialize (s : LoopState) : LoopState := s <| hook_ready := true |>.

Definition drop_loop (s : LoopState) : LoopState :=
  (reset_cursor_interaction s) <| alive := false |> <| hook_ready := false |>.

(** ** Frames *)

Definition is_interactive_frame (frame : PresentedFrame) : bool :=
  pf_logical_visible frame && is_expanded (pf_display_mode frame) && is_interactive (pf_input_mode frame).
Definition is_authorized_interactive_frame (frame : PresentedFrame) (authorized : bool) : bool :=
  authorized && is_interactive_frame frame.

(** The messages of the game the overlay keeps to itself. *)
Inductive InputKind := InputKeyboardExceptEscape | InputMouse | InputRaw.

Definition message_filter_for_frame (frame : option PresentedFrame) (interaction_authorized : bool) : list InputKind :=
  if is_some_and frame (λ frame, is_authorized_interactive_frame frame interaction_authorized)
  then [InputKeyboardExceptEscape; InputMouse; InputRaw]
  else [].

Definition message_filter (s : LoopState) : list InputKind :=
  if negb (writer_alive s) then []
  else message_filter_for_frame (current s) (interaction_authorized s).

Definition present (texture : N) (frame : FullscreenFrame) : PresentedFrame :=
  mkPresented texture (ff_width frame) (ff_height frame) (ff_display_width frame) (ff_display_height frame)
    (ff_opacity frame) (ff_logical_visible frame) (ff_display_mode frame) (ff_input_mode frame) (ff_poi_filters frame).

(** ** Before a frame is drawn *)

Record RenderInputs := mkInputs {
  ri_replace_ok : bool;          (* [replace_texture] *)
  ri_loaded : option N;          (* [load_texture] *)
  ri_display_size : f32 * f32;
  ri_now : N;
  ri_cursor : option bool;       (* [game_cursor_visible] *)
}.

(** The newest picture goes to the device; [None] is the early return, the state being what it
    had become. *)
Definition upload (s : LoopState) (i : RenderInputs) : LoopState * option () :=
  match pending_frame s with
  | None => (s, Some ())
  | Some frame =>
      let s := s <| pending_frame := None |> in
      let key := (ff_width frame, ff_height frame) in
      match textures s !! key with
      | Some texture => if ri_replace_ok i then (s <| current := Some (present texture frame) |>, Some ()) else (s, None)
      | None =>
          match ri_loaded i with
          | None => (s, None)
          | Some texture =>
              (s <| textures ::= <[key := texture]> |> <| current := Some (present texture frame) |>, Some ())
          end
      end
  end.

Definition take_catalog (s : LoopState) : LoopState :=
  match pending_catalog s with
  | Some catalog => s <| pending_catalog := None |> <| search_catalog := catalog |>
  | None => s
  end.

(** What the action asked for does to the authorization. *)
Definition authorize_action (action : ConsumerAction) (now : N) (a : InteractionAuthorization) : InteractionAuthorization :=
  match action with
  | CaEnterInteractive => note_enter_requested a now
  | CaLock => clear_authorization a
  | _ => a
  end.

(** The cursor of the game was readable. *)
Definition sync_cursor (s : LoopState) (now : N) (expanded : bool) (input_mode : FrameInputMode)
    (cursor_visible : bool) : LoopState :=
  let s :=
    match pending_enter_intent s with
    | Some intent_at => s <| pending_enter_intent := None |> <| cursor_sync ::= λ c, note_enter_intent c intent_at |>
    | None => s
    end in
  let lock := escape_lock_pending s in
  let '(action, sync) := sync_update (cursor_sync s) now expanded input_mode cursor_visible lock in
  let s := s <| cursor_sync := sync |> in
  let s :=
    match action with
    | Some action => s <| authorization ::= authorize_action action now |>
                       <| pending_mode_action := consumer_action_code action |>
    | None => if negb (has_pending_transition sync) then s <| pending_mode_action := 0 |> else s
    end in
  if lock && escape_lock_acknowledged input_mode cursor_visible then s <| escape_lock_pending := false |> else s.

Definition authorize (s : LoopState) (now : N) (input_mode : FrameInputMode) (cursor : option bool) : LoopState :=
  let '(decision, auth) := authorization_update (authorization s) now true true input_mode cursor in
  let s := s <| authorization := auth |> in
  match decision with
  | AdRequestLock => s <| pending_mode_action := consumer_action_code CaLock |>
  | _ => s
  end.

Definition follow_frame (s : LoopState) (i : RenderInputs) : LoopState :=
  match current s with
  | None => reset_cursor_interaction s
  | Some frame =>
      let expanded := pf_logical_visible frame && is_expanded (pf_display_mode frame) in
      let input_mode := pf_input_mode frame in
      let s :=
        match ri_cursor i with
        | Some cursor_visible => sync_cursor s (ri_now i) expanded input_mode cursor_visible
        | None => s
        end in
      if negb expanded then reset_cursor_interaction s else authorize s (ri_now i) input_mode (ri_cursor i)
  end.

Definition lose_writer (s : LoopState) : LoopState :=
  reset_cursor_interaction
    (s <| current := None |> <| search_catalog := [] |> <| filter_open := false |> <| map_drag := no_drag |>).

Definition before_render (s : LoopState) (i : RenderInputs) : LoopState :=
  if negb (writer_alive s) then lose_writer s
  else
    match upload s i with
    | (s, None) => s
    | (s, Some ()) => follow_frame ((take_catalog s) <| viewport_size := ri_display_size i |>) i
    end.

(** ** Keys *)

Inductive BeforeWndProc := BwContinue | BwBreak.

Definition before_wnd_proc (s : LoopState) (umsg wparam now : N) : BeforeWndProc * LoopState :=
  if writer_alive s && (umsg =? WM_KEYUP) && (wparam =? VK_ESCAPE) then
    match current s with
    | Some frame =>
        if pf_logical_visible frame && is_expanded (pf_display_mode frame) then
          if is_interactive (pf_input_mode frame) then
            (BwBreak, s <| authorization ::= clear_authorization |> <| pending_enter_intent := None |>
                        <| escape_lock_pending := true |> <| pending_mode_action := consumer_action_code CaLock |>)
          else
            (BwContinue, if negb (escape_lock_pending s) then s <| pending_enter_intent := Some now |> else s)
        else (BwContinue, s)
    | None => (BwContinue, s)
    end
  else (BwContinue, s).

(** ** Drawing *)

(** What the interface answers while a frame is drawn. *)
Record UiAnswers := mkAnswers {
  ua_drawn : bool;               (* the window's contents are built *)
  ua_query : string → string;    (* [input_text] *)
  ua_toggle_filters : bool;
  ua_zoom_out : bool;
  ua_zoom_in : bool;
  ua_rotate : bool;
  ua_recenter : bool;
  ua_filter : nat → bool;        (* the filter buttons, by index *)
  ua_result : nat → bool;        (* the rows of the results, by row *)
  ua_window_pos : f32 * f32;
  ua_mouse : Mouse;
}.

Definition press (clicked : bool) (action : ConsumerAction) (s : LoopState) : LoopState :=
  if clicked then s <| pending_action := consumer_action_code action |> else s.

Definition draw_filter_popover (frame : PresentedFrame) (ui : UiAnswers) (s : LoopState) : LoopState :=
  foldl (λ s p, press (ua_filter ui p.1) p.2.1.2 s) s
    (zip (seq 0 8) (filter_buttons (pf_poi_filters frame))).

Definition draw_search_results_popover (matches : list nat) (ui : UiAnswers) (s : LoopState) : LoopState :=
  foldl (λ s p, if ua_result ui p.1 && (N.of_nat p.2 <=? u32_max)
                then s <| pending_search_selection := N.of_nat p.2 |> else s)
    s (zip (seq 0 (length matches)) matches).

Section Draw.
Context (trim to_lowercase : string → string).

Definition draw_bottom_dock (frame : PresentedFrame) (ui : UiAnswers) (s : LoopState) : LoopState :=
  let s := s <| search_query ::= ua_query ui |> in
  let s := if ua_toggle_filters ui then s <| filter_open ::= negb |> else s in
  let s := press (ua_rotate ui) CaToggleRotation (press (ua_zoom_in ui) CaZoomIn (press (ua_zoom_out ui) CaZoomOut s)) in
  let s := if ua_recenter ui then s <| pending_recenter := true |> else s in
  if filter_open s then draw_filter_popover frame ui s
  else if negb (str_is_empty (trim (search_query s))) then
    draw_search_results_popover
      (search_matches trim to_lowercase (search_catalog s) (search_query s) SEARCH_MAX_RESULTS) ui s
  else s.

Definition drag_map (frame : PresentedFrame) (ui : UiAnswers) (s : LoopState) : LoopState :=
  let '(drag, pan) :=
    update_map_drag frame (ua_window_pos ui) (ua_mouse ui) (filter_open s)
      (negb (str_is_empty (trim (search_query s)))) (map_drag s) (pending_pan s) in
  s <| map_drag := drag |> <| pending_pan := pan |>.

Definition render (s : LoopState) (ui : UiAnswers) : LoopState :=
  match current s with
  | None => s
  | Some frame =>
      if negb (pf_logical_visible frame) then s
      else if negb (ua_drawn ui) then s
      else if negb (is_expanded (pf_display_mode frame)) then s
      else if is_authorized_interactive_frame frame (interaction_authorized s) then
        drag_map frame ui (draw_bottom_dock frame ui s)
      else s <| filter_open := false |> <| map_drag := no_drag |>
  end.

End Draw.

(** ** The bridge reader *)

Record ReaderState := mkReader { rd_open : bool; rd_last_sequence : N; rd_last_search_sequence : N }.
#[export] Instance ReaderState_eta : Eta ReaderState := λ r,
  mkReader (rd_open r) (rd_last_sequence r) (rd_last_search_sequence r).
Definition reader_new : ReaderState := mkReader false 0 0.

(** What an iteration reads of the mapping, at the moments it reads. *)
Record ReaderInputs := mkReaderInputs {
  rn_opens : bool;               (* [FrameReader::open_default] *)
  rn_now : N;
  rn_alive_view : nat → Mapping;
  rn_catalog_view : nat → Mapping;
  rn_frame_view : nat → Mapping;
}.

Definition take_pending_consumer_action (s : LoopState) : option ConsumerAction * LoopState :=
  match consumer_action_from_raw (pending_mode_action s) with
  | Some action => (Some action, s <| pending_mode_action := 0 |>)
  | None => (consumer_action_from_raw (pending_action s), s <| pending_mode_action := 0 |> <| pending_action := 0 |>)
  end.

Definition forget_pending (s : LoopState) : LoopState :=
  s <| writer_alive := false |> <| pending_frame := None |> <| pending_catalog := None |>
    <| pending_mode_action := 0 |> <| pending_action := 0 |>
    <| pending_search_selection := NO_SEARCH_SELECTION |> <| pending_pan := ZERO2 |> <| pending_recenter := false |>.

(** The writes of a call on the mapping, none when the call is refused. *)
Definition call_writes {A} (call : option (list write * A)) : list write :=
  match call with Some (ws, _) => ws | None => [] end.

Definition submit_pending (m : Mapping) (s : LoopState) : Mapping * LoopState :=
  let '(action, s) := take_pending_consumer_action s in
  let m := match action with Some action => run m (submit_action m action).1 | None => m end in
  let pan := pending_pan s in
  let s := s <| pending_pan := ZERO2 |> in
  let m := if fpair_eqb pan ZERO2 then m else run m (submit_pan_delta pan.1 pan.2).1 in
  let recenter := pending_recenter s in
  let s := s <| pending_recenter := false |> in
  let m := if recenter then run m (call_writes (submit_recenter m)) else m in
  let selection := pending_search_selection s in
  let s := s <| pending_search_selection := NO_SEARCH_SELECTION |> in
  let m := if selection =? NO_SEARCH_SELECTION then m else run m (call_writes (submit_search_selection m selection)) in
  (m, s).

Definition read_catalog (i : ReaderInputs) (rd : ReaderState) (s : LoopState) : ReaderState * LoopState :=
  match read_search_catalog (rn_catalog_view i) (rd_last_search_sequence rd) with
  | Some (sequence, catalog) => (rd <| rd_last_search_sequence := sequence |>, s <| pending_catalog := Some catalog |>)
  | None => (rd, s)
  end.

Definition read_frame (i : ReaderInputs) (rd : ReaderState) (s : LoopState) : ReaderState * LoopState :=
  match read_latest (rn_frame_view i) (rd_last_sequence rd) with
  | Some frame => (rd <| rd_last_sequence := ff_sequence frame |>, s <| pending_frame := Some frame |>)
  | None => (rd, s)
  end.

(** One turn of the [while], and what follows the loop. *)
Definition reader_iteration (backend : ConsumerBackend) (i : ReaderInputs) (m : Mapping) (rd : ReaderState)
    (s : LoopState) : Mapping * ReaderState * LoopState :=
  if negb (rd_open rd) && negb (rn_opens i) then (m, rd, s)
  else
    let rd := rd <| rd_open := true |> in
    if negb (hook_ready s) then (m, rd, s)
    else if negb (FrameChannels.writer_is_alive (rn_alive_view i) (rn_now i) WRITER_HEARTBEAT_TIMEOUT_MS) then
      (run m mark_consumer_stopped, rd <| rd_last_sequence := 0 |> <| rd_last_search_sequence := 0 |>, forget_pending s)
    else
      let s := s <| writer_alive := true |> in
      let '(m, s) := submit_pending m s in
      let '(rd, s) := read_catalog i rd s in
      let '(rd, s) := read_frame i rd s in
      (if rd_last_sequence rd =? 0 then m else run m (mark_consumer_alive (rn_now i) backend), rd, s).

Definition reader_exit (m : Mapping) (rd : ReaderState) (s : LoopState) : Mapping * ReaderState * LoopState :=
  (if rd_open rd then run m mark_consumer_stopped else m, rd, s <| writer_alive := false |>).

Definition reader_step (backend : ConsumerBackend) (i : ReaderInputs) (m : Mapping) (rd : ReaderState)
    (s : LoopState) : Mapping * ReaderState * LoopState :=
  if alive s then reader_iteration backend i m rd s else reader_exit m rd s.

(** ** Histories *)

Inductive event :=
| EvInitialize
| EvKey (umsg wparam now : N)
| EvBeforeRender (i : RenderInputs)
| EvRender (ui : UiAnswers)
| EvReader (backend : ConsumerBackend) (i : ReaderInputs) (m : Mapping) (rd : ReaderState)
| EvDrop.

Definition step (trim to_lowercase : string → string) (s : LoopState) (e : event) : LoopState :=
  match e with
  | EvInitialize => initialize s
  | EvKey umsg wparam now => (before_wnd_proc s umsg wparam now).2
  | EvBeforeRender i => before_render s i
  | EvRender ui => render trim to_lowercase s ui
  | EvReader backend i m rd => (reader_step backend i m rd s).2
  | EvDrop => drop_loop s
  end.
Definition steps (trim to_lowercase : string → string) (s : LoopState) (es : list event) : LoopState :=
  foldl (step trim to_lowercase) s es.

(** ** When input is captured *)

(** The map is shown expanded in [mode], by a writer that is alive. *)
Definition shows (s : LoopState) (mode : FrameInputMode) : Prop :=
  writer_alive s = true ∧
  ∃ frame, current s = Some frame ∧ pf_logical_visible frame = true ∧ pf_display_mode frame = FrExpandedMap ∧
           pf_input_mode frame = mode.

(** Escape is released over the locked map, and no earlier Escape waits for its lock. *)
Definition asks (s : LoopState) (e : event) : Prop :=
  ∃ t, e = EvKey WM_KEYUP VK_ESCAPE t ∧ shows s FrLocked ∧ escape_lock_pending s = false.

(** What takes an entry back: a frame drawn without a writer or without the expanded map, the
    next Escape, the end of the loop. *)
Definition disarms (s : LoopState) (e : event) : Prop :=
  match e with
  | EvBeforeRender i =>
      writer_alive s = false ∨
      ∃ s', upload s i = (s', Some ()) ∧
            match current s' with
            | Some frame => pf_logical_visible frame && is_expanded (pf_display_mode frame) = false
            | None => True
            end
  | EvKey umsg wparam _ => umsg = WM_KEYUP ∧ wparam = VK_ESCAPE ∧ shows s FrInteractive
  | EvDrop => True
  | _ => False
  end.

(** The cells that hold an entry. *)
Definition entry_part (s : LoopState) : CursorInteractionSync * InteractionAuthorization * option N * bool :=
  (cursor_sync s, authorization s, pending_enter_intent s, escape_lock_pending s).

(** [A] holds wherever an entry is under way. *)
Definition entry_needs (A : Prop) (s : LoopState) : Prop :=
  (is_Some (pending_enter_intent s) → A) ∧
  (phase (authorization s) ≠ PhIdle → A) ∧
  (entering (cursor_sync s) → escape_lock_pending s = true ∨ A).

Lemma entry_needs_part A s s' : entry_part s' = entry_part s → entry_needs A s → entry_needs A s'.
Proof. unfold entry_needs. intros [= -> -> -> ->]. done. Qed.

Lemma entry_needs_weaken (A B : Prop) s : (A → B) → entry_needs A s → entry_needs B s.
Proof. unfold entry_needs. naive_solver. Qed.

Lemma entry_needs_reset A s : entry_needs A (reset_cursor_interaction s).
Proof.
  unfold entry_needs, entering, targets, reset_cursor_interaction, reset_sync, clear_authorization. cbn.
  split_and!; [by intros [? ?]|done|by intros [[? ?]|?]].
Qed.

Lemma entry_part_foldl {A} (f : LoopState → A → LoopState) (l : list A) :
  (∀ s a, entry_part (f s a) = entry_part s) → ∀ s, entry_part (foldl f s l) = entry_part s.
Proof. intros Hf. induction l as [|a l IH]; intros s; simpl; [done|]. by rewrite IH, Hf. Qed.

Lemma entry_part_press c a s : entry_part (press c a s) = entry_part s.
Proof. by destruct c. Qed.

Lemma entry_part_dock trim to_lowercase frame ui s :
  entry_part (draw_bottom_dock trim to_lowercase frame ui s) = entry_part s.
Proof.
  unfold draw_bottom_dock.
  set (s1 := s <| search_query ::= ua_query ui |>).
  set (s2 := if ua_toggle_filters ui then s1 <| filter_open ::= negb |> else s1).
  set (s3 := press _ _ (press _ _ (press _ _ s2))).
  match goal with |- context [filter_open ?x] => set (s4 := x) end.
  assert (entry_part s4 = entry_part s) as <-.
  { unfold s4. transitivity (entry_part s3); [by destruct (ua_recenter ui)|].
    unfold s3. rewrite !entry_part_press. unfold s2. by destruct (ua_toggle_filters ui). }
  clearbody s4. destruct (filter_open s4); [|destruct (str_is_empty (trim (search_query s4))); [done|]].
  - unfold draw_filter_popover. apply entry_part_foldl. intros. apply entry_part_press.
  - cbn. unfold draw_search_results_popover. apply entry_part_foldl. intros s' p.
    by destruct (ua_result ui p.1 && (N.of_nat p.2 <=? u32_max)).
Qed.

Lemma entry_part_render trim to_lowercase s ui : entry_part (render trim to_lowercase s ui) = entry_part s.
Proof.
  unfold render. destruct (current s) as [frame|]; [|done].
  repeat case_match; try done.
  etrans; [|apply (entry_part_dock trim to_lowercase frame ui s)].
  unfold drag_map. by destruct (update_map_drag _ _ _ _ _ _ _).
Qed.

Lemma entry_part_submit m s : entry_part (submit_pending m s).2 = entry_part s.
Proof.
  unfold submit_pending, take_pending_consumer_action.
  by destruct (consumer_action_from_raw (pending_mode_action s)).
Qed.

Lemma entry_part_reader backend i m rd s : entry_part (reader_step backend i m rd s).2 = entry_part s.
Proof.
  unfold reader_step, reader_exit, reader_iteration.
  destruct (alive s); [|done]. destruct (negb (rd_open rd) && negb (rn_opens i)); [done|].
  destruct (negb (hook_ready s)); [done|].
  destruct (negb _); [done|].
  pose proof (entry_part_submit m (s <| writer_alive := true |>)) as Hs.
  destruct (submit_pending m (s <| writer_alive := true |>)) as [m' s']. cbn in Hs.
  change (entry_part s' = entry_part s) in Hs. rewrite <- Hs. clear Hs.
  unfold read_catalog, read_frame.
  destruct (read_search_catalog _ _) as [[? ?]|]; cbn; by destruct (read_latest _ _).
Qed.

Lemma entry_part_upload s i : entry_part (upload s i).1 = entry_part s.
Proof. unfold upload. by repeat case_match. Qed.

Lemma entry_part_catalog s : entry_part (take_catalog s) = entry_part s.
Proof. unfold take_catalog. by case_match. Qed.

Lemma sync_cursor_needs A s now expanded mode cursor :
  entry_needs A s → entry_needs A (sync_cursor s now expanded mode cursor).
Proof.
  intros Hs. unfold sync_cursor.
  match goal with |- context [cursor_sync ?x] => set (s1 := x) end.
  assert (entry_needs A s1) as (Hp&Ha&He).
  { unfold s1. destruct (pending_enter_intent s) as [t|] eqn:Ht; [|done].
    destruct Hs as (Hp&Ha&He). rewrite Ht in Hp. unfold entry_needs. cbn.
    split_and!; [by intros [? ?]|done|]. intros _. right. by apply Hp. }
  clearbody s1. clear Hs s.
  destruct (sync_update (cursor_sync s1) now expanded mode cursor (escape_lock_pending s1)) as [action sync] eqn:Hu.
  pose proof (sync_update_spec (cursor_sync s1) now expanded mode cursor (escape_lock_pending s1)) as [Hin Hact].
  pose proof (sync_update_lock (cursor_sync s1) now expanded mode cursor) as Hlock.
  rewrite Hu in Hin, Hact. cbn in Hin, Hact.
  match goal with |- context [if _ && _ then ?x <| escape_lock_pending := _ |> else ?x] => set (s2 := x) end.
  assert (cursor_sync s2 = sync ∧ escape_lock_pending s2 = escape_lock_pending s1 ∧
          pending_enter_intent s2 = pending_enter_intent s1 ∧ (phase (authorization s2) ≠ PhIdle → A)) as (E1&E2&E3&E4).
  { unfold s2. destruct action as [a|]; [|by destruct (negb (has_pending_transition sync))].
    cbn. split_and!; [done..|].
    destruct a; try done. cbn. intros _. destruct Hact as (Hen&_&_&_&Hl). destruct (He Hen) as [Hl'|]; [congruence|done]. }
  clearbody s2.
  destruct (escape_lock_pending s1) eqn:El; rewrite ?Hu in Hlock; cbn in Hlock.
  - destruct (_ && _); unfold entry_needs; cbn; rewrite ?E1, ?E2, ?E3; (split_and!; [done|done|by intros ?%Hlock]).
  - cbn. unfold entry_needs. rewrite E1, E2, E3. split_and!; [done..|]. intros Hen%Hin. by apply He.
Qed.

Lemma authorization_update_phase a now connected expanded mode cursor :
  phase (authorization_update a now connected expanded mode cursor).2 ≠ PhIdle → phase a ≠ PhIdle.
Proof.
  unfold authorization_update, expire_request, clear_authorization, is_authorized.
  destruct a as [[|t|] u], mode; cbn; destruct connected, expanded; cbn; try done;
    repeat (case_match; cbn; try done).
Qed.

Lemma authorize_needs A s now mode cursor : entry_needs A s → entry_needs A (authorize s now mode cursor).
Proof.
  intros (Hp&Ha&He). unfold authorize.
  pose proof (authorization_update_phase (authorization s) now true true mode cursor) as Hu.
  destruct (authorization_update (authorization s) now true true mode cursor) as [d a]. cbn in Hu.
  destruct d; unfold entry_needs; cbn; split_and!; auto.
Qed.

Lemma step_needs trim to_lowercase (A : Prop) s e :
  entry_needs A s → entry_needs (asks s e ∨ (A ∧ ¬ disarms s e)) (step trim to_lowercase s e).
Proof.
  intros Hs. destruct e as [|umsg wparam t|i|ui|backend i m rd|]; cbn [step].
  - eapply (entry_needs_weaken A); [naive_solver|]. by apply (entry_needs_part _ s).
  - unfold before_wnd_proc. destruct (writer_alive s && (umsg =? WM_KEYUP) && (wparam =? VK_ESCAPE)) eqn:Hk.
    2: { eapply entry_needs_weaken, Hs. intros HA. right. split; [done|]. intros (->&->&Hw&_).
         by rewrite Hw in Hk. }
    apply andb_true_iff in Hk as [[Hw ->%N.eqb_eq]%andb_true_iff ->%N.eqb_eq].
    destruct (current s) as [frame|] eqn:Hc.
    2: { eapply entry_needs_weaken, Hs. intros HA. right. split; [done|]. intros (_&_&_&f&Hf&_). congruence. }
    destruct (pf_logical_visible frame) eqn:Hv, (pf_display_mode frame) eqn:Hm; cbn;
      try (eapply entry_needs_weaken, Hs; intros HA; right; split; [done|]; intros (_&_&_&f&Hf&?&?&?); congruence).
    destruct (pf_input_mode frame) eqn:Hi; cbn.
    + destruct (escape_lock_pending s) eqn:Hl; cbn.
      * eapply entry_needs_weaken, Hs. intros HA. right. split; [done|]. intros (_&_&_&f&Hf&?&?&?). congruence.
      * eapply (entry_needs_weaken True); [|by unfold entry_needs; auto].
        intros _. left. exists t. split; [done|]. split; [|done]. split; [done|]. by exists frame.
    + unfold entry_needs, clear_authorization. cbn. split_and!; [by intros [? ?]|done|by left].
  - unfold before_render. destruct (writer_alive s) eqn:Hw; [|apply entry_needs_reset].
    cbn [negb]. pose proof (entry_part_upload s i) as Hpart.
    destruct (upload s i) as [s1 [[]|]] eqn:Hup; cbn in Hpart.
    2: { eapply entry_needs_part; [done|]. eapply entry_needs_weaken, Hs. intros HA. right. split; [done|].
         intros [?|(?&?&_)]; congruence. }
    set (s2 := (take_catalog s1) <| viewport_size := ri_display_size i |>).
    assert (entry_part s2 = entry_part s) as H2 by (rewrite <- Hpart, <- (entry_part_catalog s1); reflexivity).
    assert (current s2 = current s1) as Hcur by (unfold s2, take_catalog; by case_match).
    clearbody s2. unfold follow_frame. rewrite Hcur.
    destruct (current s1) as [frame|] eqn:Hc; [|apply entry_needs_reset].
    destruct (pf_logical_visible frame && is_expanded (pf_display_mode frame)) eqn:Hexp; cbn [negb].
    2: apply entry_needs_reset.
    eapply (entry_needs_weaken A).
    { intros HA. right. split; [done|]. intros [?|(s'&Hs'&Hd)]; [congruence|].
      rewrite Hup in Hs'. injection Hs' as <-. rewrite Hc in Hd. congruence. }
    apply authorize_needs. apply (entry_needs_part _ _ _ H2) in Hs.
    destruct (ri_cursor i); [by apply sync_cursor_needs|done].
  - eapply (entry_needs_weaken A); [naive_solver|]. eapply entry_needs_part, Hs. apply entry_part_render.
  - eapply (entry_needs_weaken A); [naive_solver|]. eapply entry_needs_part, Hs. apply entry_part_reader.
  - by apply (entry_needs_part _ (reset_cursor_interaction s)); [|apply entry_needs_reset].
Qed.

(** An Escape asked for the map's interactive mode, and nothing took it back. *)
Definition armed (trim to_lowercase : string → string) (es : list event) : Prop :=
  ∃ es1 e es2, es = es1 ++ e :: es2 ∧ asks (steps trim to_lowercase loop_new es1) e ∧
    ∀ es3 e' es4, es2 = es3 ++ e' :: es4 →
      ¬ disarms (steps trim to_lowercase loop_new (es1 ++ e :: es3)) e'.

Lemma steps_app trim to_lowercase s es1 es2 :
  steps trim to_lowercase s (es1 ++ es2) = steps trim to_lowercase (steps trim to_lowercase s es1) es2.
Proof. apply foldl_app. Qed.

Lemma armed_snoc trim to_lowercase es e :
  asks (steps trim to_lowercase loop_new es) e ∨
  (armed trim to_lowercase es ∧ ¬ disarms (steps trim to_lowercase loop_new es) e) →
  armed trim to_lowercase (es ++ [e]).
Proof.
  intros [Ha|[(es1&e1&es2&->&Ha&Hno) Hd]].
  - exists es, e, []. split_and!; [done..|]. by intros [].
  - exists es1, e1, (es2 ++ [e]). split_and!; [by rewrite <- app_assoc|done|].
    intros es3 e' es4 Heq. induction es4 as [|e4 es4 _] using rev_ind.
    + apply app_inj_tail in Heq as [<- <-]. done.
    + rewrite app_comm_cons, app_assoc in Heq. apply app_inj_tail in Heq as [-> <-]. by eapply Hno.
Qed.

Lemma steps_armed trim to_lowercase es :
  entry_needs (armed trim to_lowercase es) (steps trim to_lowercase loop_new es).
Proof.
  induction es as [|e es IH] using rev_ind.
  - unfold entry_needs, entering. cbn. split_and!; [by intros [? ?]|done|by intros [[? ?]|?]].
  - rewrite steps_app. eapply entry_needs_weaken; [apply armed_snoc|]. by apply step_needs.
Qed.

(** C27: whatever the writer, the device, the game and the player do, the overlay keeps messages
    of the game to itself only when the expanded map is shown interactive by a writer that is
    alive and an earlier Escape, released over the locked expanded map, asked for it; since that
    Escape no frame was drawn without the writer or the expanded map and no further Escape was
    released over the interactive map. *)
Theorem capture_needs_escape (trim to_lowercase : string → string) (es : list event) :
  message_filter (steps trim to_lowercase loop_new es) ≠ [] →
  shows (steps trim to_lowercase loop_new es) FrInteractive ∧ armed trim to_lowercase es.
Proof.
  intros Hf. pose proof (steps_armed trim to_lowercase es) as (_&Ha&_).
  unfold message_filter, message_filter_for_frame in Hf.
  destruct (writer_alive (steps trim to_lowercase loop_new es)) eqn:Hw; [|done]. cbn [negb] in Hf.
  destruct (current (steps trim to_lowercase loop_new es)) as [frame|] eqn:Hc; [|done].
  cbn [is_some_and] in Hf. unfold is_authorized_interactive_frame, is_interactive_frame in Hf.
  destruct (interaction_authorized (steps trim to_lowercase loop_new es)) eqn:Hauth; [|done].
  split.
  - split; [done|]. exists frame. split; [done|].
    by destruct (pf_logical_visible frame), (pf_display_mode frame), (pf_input_mode frame).
  - apply Ha. unfold interaction_authorized, is_authorized in Hauth. apply bool_decide_eq_true in Hauth.
    by rewrite Hauth.
Qed.

(** ** An Escape that is granted *)

Lemma sync_update_enters sync now t :
  pending sync = None → elapsed now t ≤ ENTER_INTERACTION_INTENT_TIMEOUT →
  sync_update (note_enter_intent sync t) now true FrLocked true false =
    (Some CaEnterInteractive, mkSync None (Some (mkTransition FrInteractive now)) None).
Proof.
  intros Hp Ht%N.leb_le. destruct sync as [h p e]. cbn in Hp. subst p.
  unfold sync_update, note_enter_intent, targets, update_locked, enter_intent_is_recent, request_transition. cbn.
  rewrite Ht. done.
Qed.

Lemma authorization_granted now requested sent :
  elapsed now requested ≤ INTERACTION_ACK_TIMEOUT →
  authorization_update (mkAuthorization (PhAwaitingInteractiveAck requested) sent) now true true FrInteractive
    (Some true) = (AdCapture, mkAuthorization PhAuthorized None).
Proof.
  intros H. unfold authorization_update, expire_request. cbn.
  rewrite (proj2 (N.ltb_ge INTERACTION_ACK_TIMEOUT (elapsed now requested)) H). done.
Qed.

Lemma shows_frame s mode :
  shows s mode ↔ writer_alive s = true ∧ ∃ frame, current s = Some frame ∧
    pf_logical_visible frame && is_expanded (pf_display_mode frame) = true ∧ pf_input_mode frame = mode.
Proof.
  split; intros (Hw&f&Hf&H); (split; [done|]); exists f; (split; [done|]).
  - destruct H as (->&->&->). done.
  - destruct H as [[-> Hm]%andb_true_iff ->]. by destruct (pf_display_mode f).
Qed.

(** The first frame after the Escape, the game's cursor being visible, asks for the mode. *)
Lemma escape_requests s t i :
  shows s FrLocked → escape_lock_pending s = false → pending (cursor_sync s) = None → pending_frame s = None →
  ri_cursor i = Some true → elapsed (ri_now i) t ≤ ENTER_INTERACTION_INTENT_TIMEOUT →
  let s' := before_render (before_wnd_proc s WM_KEYUP VK_ESCAPE t).2 i in
  pending_mode_action s' = consumer_action_code CaEnterInteractive ∧
  authorization s' = mkAuthorization (PhAwaitingInteractiveAck (ri_now i)) None ∧
  pending_enter_intent s' = None ∧ escape_lock_pending s' = false ∧
  (alive s', hook_ready s', writer_alive s', current s') = (alive s, hook_ready s, true, current s).
Proof.
  intros (Hw&frame&Hc&Hv&Hm)%shows_frame Hlock Hpend Hframe Hcur Ht.
  assert ((before_wnd_proc s WM_KEYUP VK_ESCAPE t).2 = s <| pending_enter_intent := Some t |>) as ->.
  { unfold before_wnd_proc. rewrite Hw, Hc, Hv, Hm, Hlock. done. }
  cbv zeta. unfold before_render, upload.
  change (writer_alive (s <| pending_enter_intent := Some t |>)) with (writer_alive s).
  change (pending_frame (s <| pending_enter_intent := Some t |>)) with (pending_frame s).
  rewrite Hw, Hframe. cbn [negb].
  set (s1 := (take_catalog (s <| pending_enter_intent := Some t |>)) <| viewport_size := ri_display_size i |>).
  assert (current s1 = Some frame ∧ pending_enter_intent s1 = Some t ∧ escape_lock_pending s1 = false ∧
          cursor_sync s1 = cursor_sync s ∧
          (alive s1, hook_ready s1, writer_alive s1, current s1) = (alive s, hook_ready s, true, current s))
    as (H1&H2&H3&H4&H5).
  { unfold s1, take_catalog. by destruct (pending_catalog (s <| pending_enter_intent := Some t |>)); cbn; rewrite Hw. }
  clearbody s1. unfold follow_frame. rewrite H1, Hcur, Hv, Hm. cbn [negb].
  unfold sync_cursor. rewrite H2. cbn -[sync_update note_enter_intent]. rewrite H3, H4.
  rewrite (sync_update_enters (cursor_sync s) (ri_now i) t Hpend Ht). cbn -[authorize].
  unfold authorize. cbn. unfold elapsed, saturating_sub. rewrite N.sub_diag. cbn.
  by rewrite H5.
Qed.

(** The iteration of the reader that finds an action hands it to the host. *)
Definition action_cells (m : Mapping) : N * N * N * (N * N) :=
  (compat_part m, (consumer_action (header m), consumer_action_sequence (header m))).

Lemma action_cells_run m ws :
  Forall (λ w : write, ∀ m', action_cells (w m') = action_cells m') ws → action_cells (run m ws) = action_cells m.
Proof. intros H. revert m. induction H as [|w ws Hw H IH]; intros m; [done|]. 
  change (action_cells (run (w m) ws) = action_cells m). rewrite IH. apply Hw. Qed.

Lemma action_cells_pan m x y : action_cells (run m (submit_pan_delta x y).1) = action_cells m.
Proof. apply action_cells_run. unfold submit_pan_delta. destruct (encode_pan_delta x y); by repeat constructor. Qed.

Lemma action_cells_recenter m m' : action_cells (run m (call_writes (submit_recenter m'))) = action_cells m.
Proof.
  apply action_cells_run. unfold submit_recenter.
  destruct (reserved (header m') !! _) as [n|]; cbn; [|constructor].
  destruct (fetch_add_u32 n =? 0); by repeat constructor.
Qed.

Lemma action_cells_selection m m' index :
  action_cells (run m (call_writes (submit_search_selection m' index))) = action_cells m.
Proof.
  apply action_cells_run. unfold submit_search_selection.
  repeat (case_match; cbn; try by repeat constructor).
Qed.

Lemma submit_action_taken m action :
  header_compatible (λ _, m) = true →
  take_consumer_action (λ _, run m (submit_action m action).1) (consumer_action_sequence (header m)) =
    Some ((submit_action m action).2, action).
Proof.
  intros Hc. unfold submit_action. set (n := consumer_action_sequence (header m)).
  assert (fetch_add_u32 n ≠ n ∧ (fetch_add_u32 n = 0 → n ≠ 1)) as [Hn Hn1].
  { unfold fetch_add_u32, u32_max. split.
    - intros He. destruct (N.lt_ge_cases (n + 1) 4294967296) as [Hs|Hs].
      + rewrite N.mod_small in He; lia.
      + pose proof (N.mod_lt (n + 1) 4294967296 ltac:(done)).
        change (4294967295 + 1) with 4294967296 in He. assert (n = 4294967295) as -> by lia. done.
    - intros He ->. done. }
  unfold take_consumer_action.
  match goal with |- context [header_compatible ?v] => replace (header_compatible v) with true end.
  2: { rewrite <- Hc. by destruct (fetch_add_u32 n =? 0). }
  destruct (N.eqb_spec (fetch_add_u32 n) 0) as [Hz|Hz]; cbn -[fetch_add_u32].
  - change (match n with 0 => false | N.pos q => (1 =? q)%positive end) with (1 =? n).
    rewrite (proj2 (N.eqb_neq 1 n)) by (apply not_eq_sym, Hn1, Hz). by destruct action.
  - fold n. rewrite (proj2 (N.eqb_neq _ 0) Hz), (proj2 (N.eqb_neq _ n) Hn). by destruct action.
Qed.

Lemma action_cells_taken m m' last :
  action_cells m' = action_cells m → take_consumer_action (λ _, m') last = take_consumer_action (λ _, m) last.
Proof.
  intros [= H1 H2 H3 H4 H5]. unfold take_consumer_action. cbn. by rewrite (compat_part_compatible m m'), H4, H5 by (unfold compat_part; congruence).
Qed.

Lemma action_cells_submitted m s action :
  pending_mode_action s = consumer_action_code action →
  action_cells (submit_pending m s).1 = action_cells (run m (submit_action m action).1).
Proof.
  intros Hp. unfold submit_pending, take_pending_consumer_action. rewrite Hp.
  assert (consumer_action_from_raw (consumer_action_code action) = Some action) as -> by (by destruct action).
  cbn -[submit_action run submit_pan_delta submit_recenter submit_search_selection fpair_eqb].
  repeat match goal with |- context [if ?b then _ else _] => destruct b end;
    by rewrite ?action_cells_selection, ?action_cells_recenter, ?action_cells_pan.
Qed.

(** An iteration of the reader while the writer lives. *)
Definition reader_ready (i : ReaderInputs) (s : LoopState) : Prop :=
  alive s = true ∧ hook_ready s = true ∧ rn_opens i = true ∧
  FrameChannels.writer_is_alive (rn_alive_view i) (rn_now i) WRITER_HEARTBEAT_TIMEOUT_MS = true.

Definition shown_part (s : LoopState) : bool * bool * option PresentedFrame := (alive s, hook_ready s, current s).

Lemma shown_part_submit m s : shown_part (submit_pending m s).2 = shown_part s ∧
  writer_alive (submit_pending m s).2 = writer_alive s.
Proof.
  unfold submit_pending, take_pending_consumer_action.
  by destruct (consumer_action_from_raw (pending_mode_action s)).
Qed.

Lemma reader_iteration_alive backend i m rd s :
  reader_ready i s →
  let '(m', rd', s') := reader_step backend i m rd s in
  action_cells m' = action_cells (submit_pending m (s <| writer_alive := true |>)).1 ∧
  shown_part s' = shown_part s ∧ writer_alive s' = true ∧ entry_part s' = entry_part s ∧
  (∀ frame, read_latest (rn_frame_view i) (rd_last_sequence rd) = Some frame → pending_frame s' = Some frame).
Proof.
  intros (Ha&Hh&Ho&Hw). unfold reader_step, reader_iteration. rewrite Ha, Hh, Ho, Hw, andb_false_r. cbn [negb].
  pose proof (entry_part_submit m (s <| writer_alive := true |>)) as He.
  pose proof (shown_part_submit m (s <| writer_alive := true |>)) as [Hs Hs'].
  change (entry_part (s <| writer_alive := true |>)) with (entry_part s) in He.
  change (shown_part (s <| writer_alive := true |>)) with (shown_part s) in Hs.
  change (writer_alive (s <| writer_alive := true |>)) with true in Hs'.
  destruct (submit_pending m (s <| writer_alive := true |>)) as [m1 s1]. cbn [fst snd] in *.
  rewrite <- He, <- Hs. clear He Hs Ha Hh.
  unfold read_catalog, read_frame.
  destruct (read_search_catalog _ _) as [[n catalog]|];
    (cbn -[action_cells read_latest]; destruct (read_latest _ _) as [frame|] eqn:Hf; cbn -[action_cells]);
    (split_and!; [by case_match|done|done|done|congruence]).
Qed.

(** The next frame is uploaded, shown interactive, and the game still shows its cursor. *)
Lemma interaction_granted s i frame requested :
  writer_alive s = true → pending_frame s = Some frame →
  ff_logical_visible frame = true → ff_display_mode frame = FrExpandedMap → ff_input_mode frame = FrInteractive →
  ri_replace_ok i = true → is_Some (ri_loaded i) → ri_cursor i = Some true →
  authorization s = mkAuthorization (PhAwaitingInteractiveAck requested) None →
  pending_enter_intent s = None → escape_lock_pending s = false →
  elapsed (ri_now i) requested ≤ INTERACTION_ACK_TIMEOUT →
  message_filter (before_render s i) = [InputKeyboardExceptEscape; InputMouse; InputRaw].
Proof.
  intros Hw Hp Hv Hm Hi Hr [texture Ht] Hc Ha He Hl Hreq. unfold before_render. rewrite Hw. cbn [negb].
  assert (∃ s1 tex, upload s i = (s1, Some ()) ∧ current s1 = Some (present tex frame) ∧ writer_alive s1 = true ∧
    entry_part s1 = entry_part s) as (s1&tex&->&H1&H2&H3).
  { unfold upload. rewrite Hp, Hr, Ht.
    destruct (textures (s <| pending_frame := None |>) !! (ff_width frame, ff_height frame)) as [tex|];
      eexists _, _; (split; [reflexivity|]); done. }
  set (s2 := (take_catalog s1) <| viewport_size := ri_display_size i |>).
  assert (current s2 = Some (present tex frame) ∧ writer_alive s2 = true ∧ entry_part s2 = entry_part s) as (H4&H5&H6).
  { rewrite <- H1, <- H2, <- H3. unfold s2, take_catalog. by destruct (pending_catalog s1). }
  clearbody s2. injection H6 as E1 E2 E3 E4. rewrite Ha in E2. rewrite He in E3. rewrite Hl in E4.
  unfold follow_frame. rewrite H4, Hc.
  change (pf_logical_visible (present tex frame)) with (ff_logical_visible frame).
  change (pf_display_mode (present tex frame)) with (ff_display_mode frame).
  change (pf_input_mode (present tex frame)) with (ff_input_mode frame).
  rewrite Hv, Hm, Hi. cbn [negb andb is_expanded].
  set (s3 := sync_cursor s2 (ri_now i) true FrInteractive true).
  assert (authorization s3 = mkAuthorization (PhAwaitingInteractiveAck requested) None ∧ current s3 = current s2 ∧
          writer_alive s3 = writer_alive s2) as (H7&H8&H9).
  { unfold s3, sync_cursor. rewrite E3, E4. unfold sync_update, update_interactive. cbn.
    by destruct (targets (cursor_sync s2) FrInteractive). }
  clearbody s3. unfold authorize. rewrite H7, authorization_granted by done.
  unfold message_filter, message_filter_for_frame, interaction_authorized. cbn.
  rewrite H9, H5, H8, H4. cbn. unfold is_authorized_interactive_frame, is_interactive_frame. cbn.
  by rewrite Hv, Hm, Hi.
Qed.

(** C28: an Escape released over the locked expanded map is granted: if the game shows its cursor
    at the next frame, at most 750 ms later, the bridge reader's next iteration hands the host
    the action that enters the interactive mode, and once an iteration brings the interactive
    map the frame drawn, at most 1.5 s after the request and with the cursor still shown, takes
    the mouse, the raw input and the keyboard but Escape. *)
Theorem escape_enters (s : LoopState) (t : N) (i1 i2 : RenderInputs) (backend : ConsumerBackend)
    (r1 r2 : ReaderInputs) (m1 m2 : Mapping) (rd1 rd2 : ReaderState) (frame : FullscreenFrame)
    (Hshows : shows s FrLocked) (Hlock : escape_lock_pending s = false)
    (Hidle : pending (cursor_sync s) = None ∧ pending_frame s = None)
    (Hcursor : ri_cursor i1 = Some true ∧ ri_cursor i2 = Some true)
    (Hintent : elapsed (ri_now i1) t ≤ ENTER_INTERACTION_INTENT_TIMEOUT)
    (Hack : elapsed (ri_now i2) (ri_now i1) ≤ INTERACTION_ACK_TIMEOUT)
    (Hupload : ri_replace_ok i2 = true ∧ is_Some (ri_loaded i2))
    (Hr1 : reader_ready r1 s) (Hr2 : reader_ready r2 s) (Hm : header_compatible (λ _, m1) = true)
    (Hread : read_latest (rn_frame_view r2) (rd_last_sequence rd2) = Some frame)
    (Hframe : ff_logical_visible frame = true ∧ ff_display_mode frame = FrExpandedMap ∧
              ff_input_mode frame = FrInteractive) :
  let s1 := before_render (before_wnd_proc s WM_KEYUP VK_ESCAPE t).2 i1 in
  let '(m1', _, s2) := reader_step backend r1 m1 rd1 s1 in
  let '(_, _, s3) := reader_step backend r2 m2 rd2 s2 in
  (before_wnd_proc s WM_KEYUP VK_ESCAPE t).1 = BwContinue ∧
  (∃ sequence, take_consumer_action (λ _, m1') (consumer_action_sequence (header m1)) =
                 Some (sequence, CaEnterInteractive)) ∧
  message_filter (before_render s3 i2) = [InputKeyboardExceptEscape; InputMouse; InputRaw].
Proof.
  intros s1. destruct Hidle as [Hpend Hnone], Hcursor as [Hc1 Hc2], Hupload as [Hu1 Hu2], Hframe as (Hv&Hd&Hi).
  destruct (escape_requests s t i1 Hshows Hlock Hpend Hnone Hc1 Hintent) as (Hact&Hauth&Hint&Hl&[= Ha Hh Hw Hcur]).
  fold s1 in Hact, Hauth, Hint, Hl, Ha, Hh, Hw, Hcur.
  assert ((before_wnd_proc s WM_KEYUP VK_ESCAPE t).1 = BwContinue) as Hcont.
  { apply shows_frame in Hshows as (Hws&f&Hf&Hve&Hmode). unfold before_wnd_proc. by rewrite Hws, Hf, Hve, Hmode. }
  clearbody s1.
  assert (∀ r s', reader_ready r s → shown_part s' = (alive s, hook_ready s, current s) → reader_ready r s') as Hready.
  { intros r s' (?&?&?&?) [= E1 E2 _]. unfold reader_ready. rewrite E1, E2. done. }
  assert (shown_part s1 = (alive s, hook_ready s, current s)) as Hp1 by (unfold shown_part; congruence).
  pose proof (reader_iteration_alive backend r1 m1 rd1 s1 (Hready _ _ Hr1 Hp1)) as H1.
  destruct (reader_step backend r1 m1 rd1 s1) as [[m1' rd1'] s2]. destruct H1 as (Hcells&Hp2&_&He2&_).
  rewrite Hp1 in Hp2.
  pose proof (reader_iteration_alive backend r2 m2 rd2 s2 (Hready _ _ Hr2 Hp2)) as H2.
  destruct (reader_step backend r2 m2 rd2 s2) as [[m2' rd2'] s3]. destruct H2 as (_&_&Hw3&He3&Hpf).
  rewrite He2 in He3. injection He3 as _ E2 E3 E4.
  split; [done|]. split.
  - exists (submit_action m1 CaEnterInteractive).2.
    rewrite (action_cells_taken (run m1 (submit_action m1 CaEnterInteractive).1)); [by apply submit_action_taken|].
    rewrite Hcells. by apply action_cells_submitted.
  - apply (interaction_granted s3 i2 frame (ri_now i1)); congruence || by auto.
Qed.

(** ** Examples *)

Definition no_hypot (_ _ : f64) : f64 := S754_zero false.
(** The host shows the map in a mode, at a time in milliseconds. *)
Definition host_shows (m : Mapping) (now : N) (mode : FrameInputMode) : Mapping :=
  perform no_hypot m
    (OpPublish now 2 1 (mkMetadata FrExpandedMap (mkControls mode FramePoiFilters_default) (f32_of_Z 1) true 2 1) [1; 2]).
Definition reading (now : N) (m : Mapping) : ReaderInputs := mkReaderInputs true now (λ _, m) (λ _, m) (λ _, m).
Definition drawing (now : N) (cursor : bool) : RenderInputs :=
  mkInputs true (Some 1) (f32_of_N 1920, f32_of_N 1080) (millis now) (Some cursor).

Definition locked_mapping : Mapping := host_shows small_mapping 5 FrLocked.
Definition interactive_mapping : Mapping := host_shows locked_mapping 40 FrInteractive.
Definition opening : list event :=
  [EvInitialize; EvReader DirectX12 (reading 6 locked_mapping) locked_mapping reader_new; EvBeforeRender (drawing 8 false)].
Definition granting : list event :=
  opening ++ [EvKey WM_KEYUP VK_ESCAPE (millis 20); EvBeforeRender (drawing 30 true);
              EvReader DirectX12 (reading 41 interactive_mapping) interactive_mapping (mkReader true 2 0);
              EvBeforeRender (drawing 50 true)].
Definition opened : LoopState := steps id id loop_new opening.
Definition frame_read (m : Mapping) : FullscreenFrame :=
  match read_latest (λ _, m) 0 with
  | Some frame => frame
  | None => mkFrame 0 0 0 0 0 FrMiniMap FrLocked FramePoiFilters_default (f32_of_N 0) false []
  end.

Lemma opened_shows : shows opened FrLocked.
Proof.
  split; [vm_compute; reflexivity|]. exists (present 1 (frame_read locked_mapping)).
  repeat split; vm_compute; reflexivity.
Qed.

Lemma capture_needs_escape_witness :
  message_filter (steps id id loop_new granting) = [InputKeyboardExceptEscape; InputMouse; InputRaw] ∧
  shows (steps id id loop_new granting) FrInteractive ∧ armed id id granting.
Proof.
  split; [vm_compute; reflexivity|]. apply (capture_needs_escape id id granting). vm_compute. discriminate.
Defined.

Lemma escape_enters_witness :
  let s1 := before_render (before_wnd_proc opened WM_KEYUP VK_ESCAPE (millis 20)).2 (drawing 30 true) in
  let '(m1', _, s2) := reader_step DirectX12 (reading 31 locked_mapping) locked_mapping (mkReader true 2 0) s1 in
  let '(_, _, s3) :=
    reader_step DirectX12 (reading 41 interactive_mapping) interactive_mapping (mkReader true 2 0) s2 in
  (before_wnd_proc opened WM_KEYUP VK_ESCAPE (millis 20)).1 = BwContinue ∧
  (∃ sequence, take_consumer_action (λ _, m1') (consumer_action_sequence (header locked_mapping)) =
                 Some (sequence, CaEnterInteractive)) ∧
  message_filter (before_render s3 (drawing 50 true)) = [InputKeyboardExceptEscape; InputMouse; InputRaw].
Proof.
  apply (escape_enters opened (millis 20) (drawing 30 true) (drawing 50 true) DirectX12
    (reading 31 locked_mapping) (reading 41 interactive_mapping) locked_mapping interactive_mapping
    (mkReader true 2 0) (mkReader true 2 0) (frame_read interactive_mapping));
    [exact opened_shows|vm_compute; reflexivity|split; vm_compute; reflexivity|split; reflexivity
    |vm_compute; discriminate|vm_compute; discriminate|split; [reflexivity|by exists 1]
    |repeat split; vm_compute; reflexivity|repeat split; vm_compute; reflexivity|vm_compute; reflexivity
    |vm_compute; reflexivity|repeat split; vm_compute; reflexivity].
Defined.

(** The capture ends with the frame that finds the writer gone, and nothing waits for the next. *)
Lemma writer_loss_clears backend i m rd s ri :
  alive s = true → hook_ready s = true → rn_opens i = true →
  FrameChannels.writer_is_alive (rn_alive_view i) (rn_now i) WRITER_HEARTBEAT_TIMEOUT_MS = false →
  let s1 := (reader_step backend i m rd s).2 in
  message_filter s1 = [] ∧
  let s2 := before_render s1 ri in
  (current s2, search_catalog s2, filter_open s2, map_drag s2) = (None, [], false, no_drag) ∧
  (pending_frame s2, pending_catalog s2, pending_search_selection s2, pending_pan s2, pending_recenter s2) =
    (None, None, NO_SEARCH_SELECTION, ZERO2, false) ∧
  ∀ m', (submit_pending m' s2).1 = m'.
Proof.
  intros Ha Hh Ho Hw. unfold reader_step, reader_iteration. rewrite Ha, Hh, Ho, Hw, andb_false_r. cbn [negb].
  split; [done|]. split; [done|]. split; [done|]. intros m'.
  unfold submit_pending, take_pending_consumer_action. done.
Qed.
