(* ===== verification/ControlClient.v ===== *)
(** * The overlay's client of the control protocol

    Models [PipeClient] of [crates/pal-windows-ipc/src/client.rs] and the worker of
    [crates/pal-overlay-win/src/control_client.rs]: the requests the overlay sends over a pipe,
    the replies it accepts, the settings it mirrors, and the one retry after a version conflict.
    The pipe is an argument: [open] connects, [send] gives what the reads meet after a frame was
    written. The kinds of a failure of the pipe are not told apart, as no caller looks at them;
    [Panic] is a panic of the reassembly, which never happens. *)

From S2P Require Import Prelude Floats Settings Position View Protocol Framing Handshake IpcSession SettingsStore OverlayInput ControlSession.
Import local.

(** ** Enumerations of the wire *)

#[export] Program Instance ProtocolErrorCode_wire : WireEnum ProtocolErrorCode := {|
  try_from := find_variant ProtocolErrorCode_number
    [PeUnspecified; PeNone; UnsupportedVersion; InvalidConnectionId; InvalidTraceId; InvalidRole;
     UnexpectedPayload; InvalidSettings; VersionConflict; HotkeyConflict; ValidationFailed];
  as_i32 := ProtocolErrorCode_number |}.
Next Obligation. by intros []. Qed.
Next Obligation. intros n w. apply find_variant_number. Qed.

#[export] Program Instance OverlayCommandStatus_wire : WireEnum OverlayCommandStatus := {|
  try_from := find_variant OverlayCommandStatus_number [OsUnspecified; OsApplied; OsNoOp; OsRejected; OsFailed];
  as_i32 := OverlayCommandStatus_number |}.
Next Obligation. by intros []. Qed.
Next Obligation. intros n w. apply find_variant_number. Qed.

#[export] Program Instance SettingsApplyStatus_wire : WireEnum SettingsApplyStatus := {|
  try_from := find_variant SettingsApplyStatus_number
    [SaUnspecified; SaApplied; SaVersionConflict; SaValidationRejected; SaHotkeyConflict];
  as_i32 := SettingsApplyStatus_number |}.
Next Obligation. by intros []. Qed.
Next Obligation. intros n w. apply find_variant_number. Qed.

(** ** Runs that can fail *)

(** A call that gives a value, fails (the [?] of an option), or panics. *)
Inductive run_result (A S : Type) := Done (a : A) (s : S) | Failed (s : S) | Panic.
Arguments Done {A S} a s.
Arguments Failed {A S} s.
Arguments Panic {A S}.

Definition io (S A : Type) : Type := S → run_result A S.
Definition io_ret {S A} (a : A) : io S A := λ s, Done a s.
Definition io_fail {S A} : io S A := λ s, Failed s.
Definition io_bind {S A B} (m : io S A) (k : A → io S B) : io S B := λ s,
  match m s with Done a s => k a s | Failed s => Failed s | Panic => Panic end.
Definition io_some {S A} (o : option A) : io S A := match o with Some a => io_ret a | None => io_fail end.
Definition io_ok {S A E} (r : result A E) : io S A := match r with Ok a => io_ret a | Err _ => io_fail end.
Notation "'let!' x := c 'in' k" := (io_bind c (λ x, k))
  (at level 10, x name, c at level 200, k at level 200) : rust_scope.
Notation "'let!' ' p := c 'in' k" := (io_bind c (λ x, match x with p => k end))
  (at level 10, p pattern, c at level 200, k at level 200) : rust_scope.

(** ** The pipe client *)

Record PipeClient := mkPipe {
  pipe_decoder : FramedStream;
  pipe_connection_id : bytes;
  pipe_inbox : list ReadEvent;   (* what the reads will meet *)
}.
#[export] Instance PipeClient_eta : Eta PipeClient := λ c,
  mkPipe (pipe_decoder c) (pipe_connection_id c) (pipe_inbox c).

Definition accepts_response (connection : bytes) (request_id : N) (response : LocalEnvelope) : bool :=
  is_ok (validate_local_envelope response) && (protocol_version response =? PROTOCOL_VERSION)
  && bool_decide (connection_id response = connection)
  && bool_decide (reply_to_message_id response = Some request_id).

Section Client.
Context (encoded_len : LocalEnvelope → N) (encode_message : LocalEnvelope → option bytes)
  (decode_message : bytes → option LocalEnvelope).
Context {W : Type} (open : W → option W) (send : W → bytes → option (list ReadEvent) * W).

(** The loop of [request]: a message of the decoder, or another read. The list ends at the
    deadline. *)
Fixpoint receive (connection : bytes) (request_id : N) (decoder : FramedStream) (inbox : list ReadEvent) :
    run_result LocalEnvelope PipeClient :=
  match next_message decode_message decoder with
  | (Err _, decoder) => Failed (mkPipe decoder connection inbox)
  | (Ok (Some response), decoder) =>
      let self := mkPipe decoder connection inbox in
      if accepts_response connection request_id response then Done response self else Failed self
  | (Ok None, decoder) =>
      match inbox with
      | Chunk chunk :: inbox =>
          if is_empty chunk then Failed (mkPipe decoder connection inbox)
          else
            match push decoder chunk with
            | None => Panic
            | Some (Err _, decoder) => Failed (mkPipe decoder connection inbox)
            | Some (Ok _, decoder) => receive connection request_id decoder inbox
            end
      | (CancelSeen | ReadFails _) :: inbox => Failed (mkPipe decoder connection inbox)
      | [] => Failed (mkPipe decoder connection [])
      end
  end.

(** What a client works on: its pipe, the number of its next message, the counter of its
    unique ids, and the world. *)
Record Port := mkPort { pt_pipe : PipeClient; pt_next : N; pt_counter : N; pt_world : W }.

Definition request (envelope : LocalEnvelope) : io Port LocalEnvelope := λ s,
  let self := pt_pipe s in
  if negb (is_ok (validate_local_envelope envelope)) then Failed s
  else if negb (protocol_version envelope =? PROTOCOL_VERSION)
          || negb (bool_decide (connection_id envelope = pipe_connection_id self)) then Failed s
  else
    match encode encoded_len encode_message envelope with
    | Err _ => Failed s
    | Ok frame =>
        match send (pt_world s) frame with
        | (None, w) => Failed (mkPort self (pt_next s) (pt_counter s) w)
        | (Some events, w) =>
            let port pipe := mkPort pipe (pt_next s) (pt_counter s) w in
            match receive (pipe_connection_id self) (message_id envelope) (pipe_decoder self)
                    (pipe_inbox self ++ events) with
            | Done response pipe => Done response (port pipe)
            | Failed pipe => Failed (port pipe)
            | Panic => Panic
            end
        end
    end.

(** ** Requests of the worker *)

Definition take_message_id : io Port N := λ s,
  let value := pt_next s in
  match checked_add value 1 with
  | None => Failed s
  | Some next => Done value (mkPort (pt_pipe s) next (pt_counter s) (pt_world s))
  end.

(** The clock part of [unique_id] is overwritten by the message id; the counter is not. *)
Definition trace_id (message_id : N) : io Port bytes := λ s,
  Done (le_bytes 8 message_id ++ le_bytes 8 (pt_counter s))
    (mkPort (pt_pipe s) (pt_next s) (wrapping_add (pt_counter s) 1) (pt_world s)).

Definition ask (connection : bytes) (message_id : N) (p : Payload) : io Port Payload :=
  let! response := request (mkLocalEnvelope PROTOCOL_VERSION connection message_id None (Some p)) in
  io_some (payload response).

Definition query_settings (connection : bytes) : io Port (N * OverlaySettings) :=
  let! message_id := take_message_id in
  let! trace := trace_id message_id in
  let! reply := ask connection message_id (SettingsQueryP trace) in
  match reply with
  | SettingsSnapshotP snapshot =>
      let! shown := io_some (snapshot_settings snapshot) in
      let! settings := io_ok (decode_overlay_settings shown) in
      io_ret (snapshot_version snapshot, settings)
  | _ => io_fail
  end.

Definition send_action (connection : bytes) (expected_settings_version : N) (action : OverlayAction) :
    io Port (N * OverlaySettings * ProtocolErrorCode) :=
  let! message_id := take_message_id in
  let! trace := trace_id message_id in
  let! reply := ask connection message_id
    (OverlayCommandP (mkCommand trace (as_i32 (encode_overlay_action action)) expected_settings_version)) in
  match reply with
  | OverlayCommandResultP result =>
      let! status := io_some (try_from (W := OverlayCommandStatus) (result_status result)) in
      match status with
      | OsApplied | OsNoOp | OsRejected =>
          let! error := io_some (try_from (error_code result)) in
          let! shown := io_some (result_settings result) in
          let! settings := io_ok (decode_overlay_settings shown) in
          io_ret (result_version result, settings, error)
      | _ => io_fail
      end
  | _ => io_fail
  end.

Definition send_filter_patch (connection : bytes) (expected_settings_version : N) (candidate : OverlaySettings) :
    io Port (N * OverlaySettings * bool) :=
  let! message_id := take_message_id in
  let! trace := trace_id message_id in
  let! wire := io_ok (encode_overlay_settings candidate) in
  let! reply := ask connection message_id
    (SettingsPatchP (mkPatch trace expected_settings_version (Some wire) [as_i32 FPoiFilters])) in
  match reply with
  | SettingsAckP ack =>
      let! status := io_some (try_from (ack_status ack)) in
      match status with
      | SaApplied | SaVersionConflict | SaValidationRejected =>
          let! shown := io_some (ack_settings ack) in
          let! settings := io_ok (decode_overlay_settings shown) in
          io_ret (applied_version ack, settings,
                  match status with SaVersionConflict => true | _ => false end)
      | _ => io_fail
      end
  | _ => io_fail
  end.

Definition send_intent (connection : bytes) (expected_version : N) (effective : OverlaySettings)
    (intent : ControlIntent) : io Port (N * OverlaySettings * bool) :=
  match intent with
  | IntentAction _ action =>
      let! '(version, settings, error) := send_action connection expected_version action in
      io_ret (version, settings, match error with VersionConflict => true | _ => false end)
  | ReplacePoiFilters _ filters =>
      send_filter_patch connection expected_version (effective <| poi_filters := filters |>)
  end.

(** ** The worker *)

Inductive ControlClientEvent :=
| Connected (settings_version : N) (settings : OverlaySettings)
| SettingsApplied (settings_version : N) (settings : OverlaySettings)
| Disconnected.

(** The settings mirrored by a connection. *)
Record Link := mkLink { ln_connection : bytes; ln_version : N; ln_settings : OverlaySettings }.

(** One command of the inner loop: the events sent, and the link unless it is lost. *)
Definition serve_intent (link : Link) (intent : ControlIntent) (s : Port) :
    option (list ControlClientEvent * option Link * Port) :=
  let requested_version :=
    if expected_settings_version intent =? 0 then ln_version link else expected_settings_version intent in
  match send_intent (ln_connection link) requested_version (ln_settings link) intent s with
  | Panic => None
  | Failed s => Some ([Disconnected], None, s)
  | Done (version, settings, conflict) s =>
      if negb conflict then
        Some ([SettingsApplied version settings], Some (mkLink (ln_connection link) version settings), s)
      else
        match send_intent (ln_connection link) version settings intent s with
        | Panic => None
        | Failed s => Some ([SettingsApplied version settings; Disconnected], None, s)
        | Done (version', settings', _) s =>
            Some ([SettingsApplied version settings; SettingsApplied version' settings'],
                  Some (mkLink (ln_connection link) version' settings'), s)
        end
  end.

(** [unique_id] at a clock reading. *)
Definition unique_id (now counter : N) : bytes := le_bytes 8 now ++ le_bytes 8 counter.

Definition hello (connection : bytes) (process_id : N) : LocalEnvelope :=
  mkLocalEnvelope PROTOCOL_VERSION connection 1 None
    (Some (ClientHelloP (mkHello (as_i32 Overlay) process_id PROTOCOL_VERSION PROTOCOL_VERSION))).

(** [PipeClient::connect] with this hello: its own checks hold of it, and the endpoint is the
    constant of the program. *)
Definition connect (w : W) (envelope : LocalEnvelope) : option PipeClient * W :=
  match open w with
  | None => (None, w)
  | Some w =>
      match encode encoded_len encode_message envelope with
      | Err _ => (None, w)
      | Ok frame =>
          match send w frame with
          | (None, w) => (None, w)
          | (Some events, w) => (Some (mkPipe FramedStream_new (connection_id envelope) events), w)
          end
      end
  end.

Record Worker := mkWorker { wk_reported : bool; wk_link : option (Link * PipeClient * N); wk_counter : N }.
Definition worker_new (counter : N) : Worker := mkWorker false None counter.

(** An attempt that failed is reported once. *)
Definition report_failure (self : Worker) (counter : N) : list ControlClientEvent * Worker :=
  (if wk_reported self then [] else [Disconnected], mkWorker true None counter).

(** A turn of the outer loop: connect and ask for the settings. *)
Definition connect_turn (now process_id : N) (self : Worker) (w : W) :
    option (list ControlClientEvent * Worker * W) :=
  let connection := unique_id now (wk_counter self) in
  let counter := wrapping_add (wk_counter self) 1 in
  match connect w (hello connection process_id) with
  | (None, w) => let '(events, self) := report_failure self counter in Some (events, self, w)
  | (Some pipe, w) =>
      match query_settings connection (mkPort pipe 2 counter w) with
      | Panic => None
      | Failed s => let '(events, self) := report_failure self (pt_counter s) in Some (events, self, pt_world s)
      | Done (version, settings) s =>
          Some ([Connected version settings],
                mkWorker (wk_reported self) (Some (mkLink connection version settings, pt_pipe s, pt_next s))
                  (pt_counter s), pt_world s)
      end
  end.

(** A turn of the inner loop with a command, or of the outer one without a link. *)
Definition worker_turn (now process_id : N) (intent : option ControlIntent) (self : Worker) (w : W) :
    option (list ControlClientEvent * Worker * W) :=
  match wk_link self with
  | None => connect_turn now process_id self w
  | Some (link, pipe, next) =>
      match intent with
      | None => Some ([], self, w)
      | Some intent =>
          match serve_intent link intent (mkPort pipe next (wk_counter self) w) with
          | None => None
          | Some (events, Some link, s) =>
              Some (events, mkWorker (wk_reported self) (Some (link, pt_pipe s, pt_next s)) (pt_counter s), pt_world s)
          | Some (events, None, s) => Some (events, mkWorker true None (pt_counter s), pt_world s)
          end
      end
  end.

End Client.

(** ** The commands of the overlay *)

Definition COMMAND_CAPACITY : nat := 32.

Inductive ControlClientSubmit := Queued | QueueFull | Stopped.

Definition submit_intent (queue : list ControlIntent) (worker_alive : bool) (intent : ControlIntent) :
    ControlClientSubmit * list ControlIntent :=
  if negb worker_alive then (Stopped, queue)
  else if (length queue <? COMMAND_CAPACITY)%nat then (Queued, queue ++ [intent])
  else (QueueFull, queue).

Definition take_latest (events : list ControlClientEvent) : option ControlClientEvent := last events.
