(* ===== verification/ControlLoop.v ===== *)
(** * The control client against the control session

    Composes the client of [ControlClient] with the session of [ControlSession], the loop of
    [IpcSession] and the store of [SettingsStore]: the pipe carries the bytes of one to the
    other, cut into any chunks, while other clients change the store between two requests. *)

From S2P Require Import Prelude Floats Settings Position View Protocol Framing Handshake IpcSession SettingsStore OverlayInput ControlSession ControlClient.
Import local.

(** ** The server at the other end *)

Record World := mkWorld {
  wd_session : ControlSession;
  wd_decoder : FramedStream;
  wd_store : SettingsStore;
  wd_others : list (list StoreOp);   (* what others do before each request *)
}.

Definition others_now (w : World) : list StoreOp := match wd_others w with [] => [] | ops :: _ => ops end.
Definition store_now (w : World) : SettingsStore :=
  match store_run (others_now w) (wd_store w) with Some (_, store) => store | None => wd_store w end.

Section Loop.
Context (encoded_len : LocalEnvelope → N) (encode_message : LocalEnvelope → option bytes)
  (decode_message : bytes → option LocalEnvelope) (cut : bytes → list bytes).

(** The turn of the server's loop that the written frame wakes; when the session ends, so does
    the stream of the client. *)
Definition server_send (w : World) (frame : bytes) : option (list ReadEvent) * World :=
  let store := store_now w in
  let world session decoder store := mkWorld session decoder store (tail (wd_others w)) in
  match push (wd_decoder w) frame with
  | Some (Ok _, decoder) =>
      match drain_frames (H := ControlSessionAdapter encoded_len encode_message) decode_message
              (S (length (completed decoder))) [] decoder (wd_session w, store) with
      | Some (Ok (_, decoder), (session, store), out) =>
          (Some (Chunk <$> concat (cut <$> out)), world session decoder store)
      | Some (Err _, (session, store), out) =>
          (Some ((Chunk <$> concat (cut <$> out)) ++ [Chunk []]), world session decoder store)
      | None => (Some [Chunk []], world (wd_session w) decoder store)
      end
  | _ => (Some [Chunk []], world (wd_session w) (wd_decoder w) store)
  end.

(** The codec is lawful, and a frame arrives in nonempty pieces. *)
Hypothesis encoded_len_exact : ∀ e p, encode_message e = Some p → len p = encoded_len e.
Hypothesis decode_encode : ∀ e p, encode_message e = Some p → decode_message p = Some e.
Hypothesis cut_concat : ∀ f, concat (cut f) = f.
Hypothesis cut_nonempty : ∀ f, Forall (λ c, c ≠ []) (cut f).

(** ** Frames *)

Lemma encode_frame_decodes e f :
  encode encoded_len encode_message e = Ok f →
  ∃ p, payload_ok p ∧ f = frame_of p ∧ decode_message p = Some e.
Proof.
  intros (p & Hp & Hok & ->)%encode_frame; [|by apply encoded_len_exact]. exists p. split; [done|].
  split; [done|by apply decode_encode].
Qed.

Lemma feed_single b c p :
  waiting b → payload_ok p → b ++ c = frame_of p →
  feed (mkStream b [] 0) c = (Ok tt, mkStream [] [p] (total_len [p])).
Proof.
  intros Hb Hp E. apply feed_chunk; [done|apply waiting_nil|by constructor| | |].
  - rewrite E. unfold frames. cbn. by rewrite !app_nil_r.
  - unfold len, MAX_QUEUED_FRAMES. cbn. lia.
  - cbn. destruct Hp. unfold len in *. lia.
Qed.

Lemma part_inv b : waiting b → stream_inv (mkStream b [] 0).
Proof.
  intros Hb. constructor; cbn [buffer completed queued_bytes]; [done|constructor| |done|unfold MAX_PAYLOAD_LEN; lia].
  unfold len, MAX_QUEUED_FRAMES. cbn. lia.
Qed.

Lemma push_part b c :
  waiting (b ++ c) → push (mkStream b [] 0) c = Some (Ok tt, mkStream (b ++ c) [] 0).
Proof.
  intros Hw. pose proof (waiting_prefix _ _ Hw) as Hb. rewrite push_feed by by apply part_inv.
  rewrite (feed_chunk b c [] (b ++ c)); [done|done|done|constructor|done| |].
  - unfold len, MAX_QUEUED_FRAMES. cbn. lia.
  - unfold MAX_PAYLOAD_LEN. cbn. lia.
Qed.

Lemma push_last b c p :
  waiting b → payload_ok p → b ++ c = frame_of p →
  push (mkStream b [] 0) c = Some (Ok tt, mkStream [] [p] (total_len [p])).
Proof. intros Hb Hp E. rewrite push_feed by by apply part_inv. by rewrite (feed_single b c p). Qed.

(** The client reassembles a reply from its pieces. *)
Lemma receive_frame connection request_id p e chunks b :
  payload_ok p → decode_message p = Some e → waiting b → b ++ concat chunks = frame_of p →
  Forall (λ c, c ≠ []) chunks → accepts_response connection request_id e = true →
  receive decode_message connection request_id (mkStream b [] 0) (Chunk <$> chunks) =
    Done e (mkPipe FramedStream_new connection []).
Proof.
  intros Hp Hd Hb E Hne Hacc. revert b Hb E. induction Hne as [|c chunks Hc Hne IH]; intros b Hb E.
  { exfalso. cbn in E. rewrite app_nil_r in E. subst b.
    destruct Hb as [Hl|(_ & _ & Hl)].
    - unfold frame_of in Hl. rewrite length_app, length_le_bytes in Hl. lia.
    - rewrite take_frame, frame_prefix, len_frame in Hl by done. lia. }
  rewrite fmap_cons. cbn [concat] in E. rewrite app_assoc in E.
  cbn [receive]. unfold next_message at 1, next_payload at 1. cbn [completed].
  destruct c as [|c0 c]; [done|]. cbn [is_empty].
  destruct chunks as [|c' chunks].
  - cbn [concat] in E. rewrite app_nil_r in E. rewrite (push_last b (c0 :: c) p) by done.
    cbn [fmap list_fmap receive]. unfold next_message, next_payload. cbn [completed]. rewrite Hd, Hacc.
    unfold FramedStream_new. do 2 f_equal. cbn. f_equal. lia.
  - assert (waiting (b ++ c0 :: c)) as Hw.
    { eapply waiting_frame_prefix; [exact Hp| |exact E]. inversion_clear Hne. by destruct c'. }
    rewrite push_part by done. by apply IH.
Qed.

(** ** One exchange *)

Definition overlay_gate (pid : N) (connection : bytes) : HelloGate :=
  mkGate any_local_client (Some (mkAccepted pid connection Overlay)).

(** The client and its session have nothing under way, over a sound store. *)
Record in_sync (pid : N) (connection : bytes) (s : Port (W := World)) : Prop := {
  is_pipe : pt_pipe s = mkPipe FramedStream_new connection [];
  is_gate : gate (wd_session (pt_world s)) = overlay_gate pid connection;
  is_decoder : wd_decoder (pt_world s) = FramedStream_new;
  is_store : store_ok (wd_store (pt_world s));
  is_keys : u16_keys (hotkey_bindings (settings (wd_store (pt_world s))));
  is_connection : len connection = 16;
}.

(** The store is sound, and its keys are 16 bits wide. *)
Definition sound (w : World) : Prop :=
  store_ok (wd_store w) ∧ u16_keys (hotkey_bindings (settings (wd_store w))).

Lemma in_sync_sound pid connection s : in_sync pid connection s → sound (pt_world s).
Proof. by intros []. Qed.

(** No frame for the request, or none for the reply, or no number left for it. *)
Definition lost (session : ControlSession) (connection : bytes) (e : LocalEnvelope) (reply : Payload) : Prop :=
  (∃ error, encode encoded_len encode_message e = Err error) ∨
  (∃ error, encode encoded_len encode_message
     (mkLocalEnvelope PROTOCOL_VERSION connection (next_response_id session) (Some (message_id e)) (Some reply)) = Err error) ∨
  u64_max ≤ next_response_id session.

Lemma store_step_keys op s o s' :
  store_ok s → store_step op s = Some (o, s') → u16_keys (hotkey_bindings (settings s)) →
  u16_keys (hotkey_bindings (settings s')).
Proof.
  intros Hs Hstep Hk. destruct op as [ev w fields|ev a|]; cbn [store_step] in Hstep.
  - destruct (apply_patch_spec s ev w fields Hs) as (r & s1 & E & _ & Hr). rewrite E in Hstep.
    cbn in Hstep. injection Hstep as _ <-.
    destruct r as [sn|sn|sn e]; [|by destruct Hr as (_ & -> & _)..].
    destruct Hr as (_ & _ & _ & _ & c & Hc & Hp). apply encode_decode_settings in Hc as [Hc _].
    specialize (Hp FHotkeyBindings). cbn [field_of] in Hp.
    destruct (contains fields (as_i32 FHotkeyBindings)); cbn [field_of] in Hp; injection Hp as Hp; by rewrite Hp.
  - destruct (apply_action s ev a) as [r s1] eqn:E. injection Hstep as _ <-.
    pose proof (apply_action_spec s ev a Hs) as H. rewrite E in H. destruct H as [_ Hr].
    destruct r as [sn|sn|sn|sn e]; [|by destruct Hr as [-> _]..]. destruct Hr as (_ & _ & _ & ->).
    by destruct a.
  - pose proof (force_locked_spec s Hs) as H. destruct (force_locked s) as [[sn|e] s1]; injection Hstep as _ <-.
    + destruct H as (_ & _ & _ & _ & Hf). specialize (Hf FHotkeyBindings). cbn [field_of] in Hf.
      injection (Hf ltac:(discriminate)) as Hf'. by rewrite Hf'.
    + by destruct H as (_ & -> & _).
Qed.

Lemma store_run_keys ops s os s' :
  store_ok s → store_run ops s = Some (os, s') → u16_keys (hotkey_bindings (settings s)) →
  u16_keys (hotkey_bindings (settings s')).
Proof.
  revert s os. induction ops as [|op ops IH]; intros s os Hs; cbn [store_run]; [by intros [= _ <-]|].
  destruct (store_step_spec op s Hs) as (o & s1 & E & Hs1 & _). rewrite E. cbn.
  destruct (store_run ops s1) as [[os1 s2]|] eqn:Hrun; [|done]. cbn. intros [= _ <-] Hk.
  apply (IH s1 os1); [done|done|]. by apply (store_step_keys op s o s1).
Qed.

Lemma store_now_ok w :
  store_ok (wd_store w) → u16_keys (hotkey_bindings (settings (wd_store w))) →
  store_ok (store_now w) ∧ u16_keys (hotkey_bindings (settings (store_now w))).
Proof.
  intros Hs Hk. unfold store_now.
  destruct (store_run_spec (others_now w) (wd_store w) Hs) as (os & s' & E & Hs' & _). rewrite E.
  split; [done|]. by apply (store_run_keys (others_now w) (wd_store w) os s').
Qed.

Lemma server_answers w p e r session store :
  wd_decoder w = FramedStream_new → payload_ok p → decode_message p = Some e →
  validate_local_envelope e = Ok tt →
  handle_envelope encoded_len encode_message (wd_session w) (store_now w) e = Some (r, session, store) →
  (∀ f, r = Ok (Some f) → len f ≤ MAX_PAYLOAD_LEN + 4) →
  ∃ decoder, server_send w (frame_of p) =
    (Some (match r with Ok (Some f) => Chunk <$> cut f | Ok None => [] | Err _ => [Chunk []] end),
     mkWorld session decoder store (tail (wd_others w))) ∧
    (∀ f, r = Ok f → decoder = FramedStream_new).
Proof.
  intros Hdec Hp Hd Hv Hh Hlen. unfold server_send. rewrite Hdec. unfold FramedStream_new.
  rewrite (push_last [] (frame_of p) p); [|apply waiting_nil|done|done]. cbn [completed].
  rewrite (drain_serves decode_message _ [] [] [p] [e]); [|by repeat constructor|cbn; lia].
  cbn [serve]. unfold answer. rewrite Hv. cbn [handle ControlSessionAdapter]. rewrite Hh.
  destruct r as [[f|]|failure].
  - unfold write_response. rewrite (proj2 (N.ltb_ge (MAX_PAYLOAD_LEN + 4) (len f)) (Hlen f eq_refl)).
    exists FramedStream_new. split; [|done]. cbn. by rewrite app_nil_r.
  - exists FramedStream_new. split; done.
  - exists (mkStream [] [p] (total_len [p])). split; done.
Qed.

(** A request of the overlay that its gate lets through. *)
Definition proper_request (p : Payload) : Prop :=
  match p with
  | SettingsQueryP trace => len trace = 16
  | OverlayCommandP c => len (command_trace_id c) = 16
  | SettingsPatchP c => len (patch_trace_id c) = 16 ∧ changed_fields c = [as_i32 FPoiFilters]
  | _ => False
  end.

Definition request_envelope (connection : bytes) (id : N) (p : Payload) : LocalEnvelope :=
  mkLocalEnvelope PROTOCOL_VERSION connection id None (Some p).

(** What the store does with a request, and the reply that says so. *)
Definition served (store store' : SettingsStore) (p reply : Payload) : Prop :=
  match p with
  | SettingsQueryP trace => query_reply store trace reply ∧ store' = store
  | OverlayCommandP c =>
      (∃ a, command c = as_i32 (encode_overlay_action a) ∧ command_reply store store' c a reply) ∨
      ((∀ a, command c ≠ as_i32 (encode_overlay_action a)) ∧
       reply = error_reply ValidationFailed "overlay_command.command" ∧ store' = store)
  | SettingsPatchP c => patch_reply store store' c reply
  | _ => False
  end.

Lemma proper_request_gate pid connection id p :
  len connection = 16 → id ≠ 0 → proper_request p →
  validate_local_envelope (request_envelope connection id p) = Ok tt ∧
  gate_step (overlay_gate pid connection) (request_envelope connection id p) = (Ok None, overlay_gate pid connection).
Proof.
  intros Hc Hid%N.eqb_neq Hp. unfold validate_local_envelope, validate_len, gate_step, validate_established, validate_common.
  cbn. rewrite Hc, Hid. cbn.
  destruct p; try done; cbn in *; rewrite bool_decide_eq_true_2 by done; cbn;
    (split; [|done]); [destruct Hp as [Hp _]| |]; by rewrite Hp.
Qed.

Lemma reply_accepted connection id n p store store' reply :
  len connection = 16 → proper_request p → served store store' p reply →
  accepts_response connection id (mkLocalEnvelope PROTOCOL_VERSION connection n (Some id) (Some reply)) = true.
Proof.
  intros Hc Hp Hs. unfold accepts_response, validate_local_envelope, validate_len. cbn. rewrite Hc. cbn.
  rewrite !bool_decide_eq_true_2 by done. rewrite !andb_true_r.
  assert (∀ trace, len trace = 16 →
    match payload_trace reply with Some (_, value) => value = trace | None => True end →
    is_ok match payload_trace reply with Some (field, value) => validate_len field value 16 | None => Ok tt end = true) as H.
  { intros trace Ht Hr. destruct (payload_trace reply) as [[field value]|]; [|done]. subst value. unfold validate_len.
    by rewrite Ht. }
  unfold validate_len in H. destruct p; try done; cbn in Hp, Hs.
  - destruct Hp as [Hp _]. apply (H _ Hp). by destruct Hs as (res & a & _ & -> & ? & _).
  - apply (H _ Hp). destruct Hs as [(a & _ & res & r & _ & -> & ? & _)|(_ & -> & _)]; done.
  - apply (H _ Hp). by destruct Hs as [(r & -> & ? & _) _].
Qed.

Lemma ask_served pid connection id p s :
  in_sync pid connection s → id ≠ 0 → proper_request p →
  ∃ store reply, store_ok store ∧ served (store_now (pt_world s)) store p reply ∧
    (store = store_now (pt_world s) ∨ ∃ op o, store_step op (store_now (pt_world s)) = Some (o, store)) ∧
    ((∃ s', ask encoded_len encode_message decode_message server_send connection id p s = Done reply s' ∧
        in_sync pid connection s' ∧ pt_next s' = pt_next s ∧ pt_counter s' = pt_counter s ∧
        wd_store (pt_world s') = store ∧ wd_others (pt_world s') = tail (wd_others (pt_world s)) ∧
        next_response_id (wd_session (pt_world s')) = next_response_id (wd_session (pt_world s)) + 1) ∨
     (∃ s', ask encoded_len encode_message decode_message server_send connection id p s = Failed s' ∧
        sound (pt_world s') ∧
        lost (wd_session (pt_world s)) connection (request_envelope connection id p) reply)).
Proof.
  intros Hs Hid Hp. pose proof Hs as [Hpipe Hgate Hdec Hok Hkeys Hconn].
  destruct (store_now_ok (pt_world s) Hok Hkeys) as [Hok1 Hkeys1].
  destruct (proper_request_gate pid connection id p Hconn Hid Hp) as [Hv Hg].
  set (e := request_envelope connection id p) in *.
  destruct (handle_envelope_spec encoded_len encode_message (wd_session (pt_world s)) (store_now (pt_world s)) e Hok1)
    as [(a & g & Hga & _)|[_ (r & session & store & reply & Hh & Hspec & Hr & Hg' & Hok' & Hstep)]].
  { rewrite Hgate, Hg in Hga. done. }
  assert (served (store_now (pt_world s)) store p reply) as Hserved.
  { unfold reply_spec in Hspec. rewrite Hgate, Hg in Hspec. cbn [fst] in Hspec. unfold e, request_envelope in Hspec.
    cbn [payload] in Hspec. destruct p; try done; cbn in Hp |- *.
    destruct Hp as [Ht Hm]. destruct Hspec as [(_ & _ & ?)|[(? & _)|(Hn & _)]]; [done|done|].
    destruct Hn. unfold mask_allowed. done. }
  exists store, reply. split; [done|]. split; [done|]. split; [done|].
  unfold ask, io_bind, request. fold (request_envelope connection id p). fold e. rewrite Hv, Hpipe. cbn [is_ok negb].
  change (protocol_version e =? PROTOCOL_VERSION) with true.
  change (connection_id e) with connection. cbn [pipe_connection_id pipe_inbox pipe_decoder negb orb app].
  rewrite bool_decide_eq_true_2 by done. cbn [negb orb].
  destruct (encode encoded_len encode_message e) as [frame|error] eqn:Henc.
  2: { right. eexists. split; [reflexivity|]. split; [by eapply in_sync_sound|]. left. by exists error. }
  assert (u16_keys (hotkey_bindings (settings store))) as Hkeys'.
  { destruct Hstep as [->|(op & o & Hstep)]; [done|]. by apply (store_step_keys op (store_now (pt_world s)) o store). }
  destruct (encode_frame_decodes e frame Henc) as (q & Hq & -> & Hde).
  assert (established_connection_id (wd_session (pt_world s)) = connection) as Hest
    by (unfold established_connection_id; by rewrite Hgate).
  unfold replies in Hr. rewrite Hest in Hr.
  set (re := mkLocalEnvelope PROTOCOL_VERSION connection (next_response_id (wd_session (pt_world s)))
               (Some (message_id e)) (Some reply)) in *.
  assert (∀ f, r = Ok (Some f) → encode encoded_len encode_message re = Ok f) as Hrf.
  { intros f E. destruct Hr as [(_ & _ & Hr)|(_ & _ & Hr)]; [|congruence].
    destruct (encode encoded_len encode_message re); congruence. }
  destruct (server_answers (pt_world s) q e r session store Hdec Hq Hde Hv Hh) as (decoder & Hsend & Hdecoder).
  { intros f E%Hrf. apply encode_frame_decodes in E as (q' & [_ Hq'] & -> & _). rewrite len_frame. lia. }
  rewrite Hsend.
  destruct Hr as [(Hnext & _ & Hr)|(_ & Hfull & Hr)].
  - destruct (encode encoded_len encode_message re) as [f|error] eqn:Hre; subst r.
    + left. destruct (encode_frame_decodes re f Hre) as (q' & Hq' & -> & Hde').
      pose proof (receive_frame connection id q' re (cut (frame_of q')) [] Hq' Hde' waiting_nil) as Hrec.
      cbn [app] in Hrec. change (message_id e) with id. unfold FramedStream_new at 1. rewrite Hrec.
      * eexists. split; [reflexivity|]. cbn [pt_world pt_next pt_counter wd_store wd_others wd_session].
        assert (decoder = FramedStream_new) as -> by by eapply Hdecoder.
        split_and!; try done. constructor; cbn [pt_pipe pt_world wd_session wd_decoder wd_store]; try done.
        by rewrite Hg'.
      * apply cut_concat.
      * apply cut_nonempty.
      * by eapply reply_accepted.
    + right. eexists. split; [reflexivity|]. split; [done|]. right. left. by exists error.
  - subst r. right. eexists. split; [reflexivity|]. split; [done|]. right. by right.
Qed.

(** ** One intent *)

(** The operation an intent asks the store for. *)
Definition intent_op (expected_version : N) (effective : OverlaySettings) (intent : ControlIntent) : option StoreOp :=
  match intent with
  | IntentAction _ action => Some (OpAction expected_version action)
  | ReplacePoiFilters _ filters =>
      match encode_overlay_settings (effective <| poi_filters := filters |>) with
      | Ok wire => Some (OpPatch expected_version wire [as_i32 FPoiFilters])
      | Err _ => None
      end
  end.

(** A request that asks for an operation. *)
Definition requests (p : Payload) (op : StoreOp) : Prop :=
  match op with
  | OpAction ev a => ∃ trace, p = OverlayCommandP (mkCommand trace (as_i32 (encode_overlay_action a)) ev)
  | OpPatch ev wire fields => ∃ trace, p = SettingsPatchP (mkPatch trace ev (Some wire) fields)
  | OpLock => False
  end.

Abbreviation port_send_intent := (send_intent encoded_len encode_message decode_message server_send).

(** The exchange of an operation: the request has no frame, or its reply. *)
Definition exchange_lost (s : Port (W := World)) (connection : bytes) (op : StoreOp) (store : SettingsStore) : Prop :=
  ∃ p reply, requests p op ∧ served (store_now (pt_world s)) store p reply ∧
    lost (wd_session (pt_world s)) connection (request_envelope connection (pt_next s) p) reply.

Lemma length_trace id counter : len (le_bytes 8 id ++ le_bytes 8 counter) = 16.
Proof. unfold len. by rewrite length_app, !length_le_bytes. Qed.

Lemma decode_shown shown store :
  shows shown store → u16_keys (hotkey_bindings (settings store)) →
  ∃ w, shown = Some w ∧ decode_overlay_settings w = Ok (settings store).
Proof. intros (w & -> & Hw) Hk. exists w. split; [done|]. by apply decode_encode_settings. Qed.

Lemma action_injective a b :
  as_i32 (encode_overlay_action a) = as_i32 (encode_overlay_action b) → a = b.
Proof.
  intros E. assert (encode_overlay_action a = encode_overlay_action b) as E'.
  { pose proof (try_from_as_i32 (encode_overlay_action a)) as Ha. rewrite E, try_from_as_i32 in Ha. congruence. }
  symmetry in E'. apply (conversion (encode := encode_overlay_action) (decode := decode_overlay_action)) in E'.
  rewrite (proj2 (conversion (encode := encode_overlay_action) (decode := decode_overlay_action) _ _) eq_refl) in E'.
  congruence.
Qed.

Lemma step_keys_now pid connection s op o store :
  in_sync pid connection s → store_step op (store_now (pt_world s)) = Some (o, store) →
  u16_keys (hotkey_bindings (settings store)).
Proof.
  intros Hs Hstep. destruct (store_now_ok (pt_world s) (is_store _ _ _ Hs) (is_keys _ _ _ Hs)) as [? ?].
  by apply (store_step_keys op (store_now (pt_world s)) o store).
Qed.

(** The port after the message id and the trace were taken. *)
Definition taken (s : Port (W := World)) : Port (W := World) :=
  mkPort (pt_pipe s) (pt_next s + 1) (wrapping_add (pt_counter s) 1) (pt_world s).

Lemma in_sync_taken pid connection s : in_sync pid connection s → in_sync pid connection (taken s).
Proof. by intros []. Qed.

Lemma take_message_id_ok (s : Port (W := World)) :
  pt_next s < u64_max →
  take_message_id s = Done (pt_next s) (mkPort (pt_pipe s) (pt_next s + 1) (pt_counter s) (pt_world s)).
Proof.
  intros H. unfold take_message_id. destruct (checked_add (pt_next s) 1) as [n|] eqn:E.
  - by apply checked_add_some in E as [-> _].
  - apply checked_add_none in E. lia.
Qed.

Lemma send_intent_spec pid connection ev effective intent op s :
  in_sync pid connection s → 1 ≤ pt_next s < u64_max → intent_op ev effective intent = Some op →
  ∃ o store, store_step op (store_now (pt_world s)) = Some (o, store) ∧ store_ok store ∧
    ((∃ s', port_send_intent connection ev effective intent s =
              Done (version store, settings store, negb (ev =? version (store_now (pt_world s)))) s' ∧
        in_sync pid connection s' ∧ pt_next s' = pt_next s + 1 ∧ wd_store (pt_world s') = store ∧
        wd_others (pt_world s') = tail (wd_others (pt_world s))) ∨
     (∃ s', port_send_intent connection ev effective intent s = Failed s' ∧ sound (pt_world s') ∧
        exchange_lost s connection op store)).
Proof.
  intros Hs [Hid Hmax] Hop. pose proof (in_sync_taken _ _ _ Hs) as Ht.
  assert (pt_next s ≠ 0) as Hid' by lia.
  set (trace := le_bytes 8 (pt_next s) ++ le_bytes 8 (pt_counter s)).
  assert (len trace = 16) as Htrace by apply length_trace.
  assert (store_now (pt_world (taken s)) = store_now (pt_world s)) as Hnow by done.
  destruct intent as [version_ action|version_ filters]; cbn [intent_op] in Hop.
  - injection Hop as <-. set (p := OverlayCommandP (mkCommand trace (as_i32 (encode_overlay_action action)) ev)).
    destruct (ask_served pid connection (pt_next s) p (taken s) Ht Hid') as
      (store & reply & Hok & Hserved & Hstep & Hcase); [done|].
    rewrite Hnow in Hserved, Hstep.
    assert (command_reply (store_now (pt_world s)) store (mkCommand trace (as_i32 (encode_overlay_action action)) ev)
              action reply) as Hreply.
    { destruct Hserved as [(a & Ha & Hr)|(Hn & _)]; [|by destruct (Hn action)].
      cbn [command] in Ha. by apply action_injective in Ha as <-. }
    destruct Hreply as (res & r & Hact & -> & _ & Hver & Hshown & _ & Hstatus & Hcode & _ & Hconf).
    cbn [command_expected_version] in Hact, Hconf.
    exists (action_outcome ev res), store. cbn [store_step]. rewrite Hact. split; [done|]. split; [done|].
    assert (u16_keys (hotkey_bindings (settings store))) as Hkeys.
    { apply (step_keys_now pid connection s (OpAction ev action) (action_outcome ev res)); [done|]. cbn. by rewrite Hact. }
    destruct (decode_shown _ _ Hshown Hkeys) as (w & Hw & Hdecode).
    unfold send_intent, send_action, io_bind. rewrite take_message_id_ok by done. unfold trace_id.
    cbn [pt_pipe pt_next pt_counter pt_world]. fold trace. fold (taken s). fold p.
    destruct Hcase as [(s' & Hask & Hs' & Hnext & _ & Hst & Hoth & _)|(s' & Hask & Hsound & Hlost)]; rewrite Hask.
    + left. exists s'. rewrite Hnext. split; [|done].
      rewrite Hstatus. change OverlayCommandStatus_number with (as_i32 (W := OverlayCommandStatus)).
      rewrite try_from_as_i32. cbn [io_some io_ret].
      assert (error_code r = as_i32 (command_status res).1.2) as Hcode' by exact Hcode.
      rewrite Hcode', try_from_as_i32, Hw. cbn [io_some io_ret]. rewrite Hdecode. cbn [io_ok io_ret]. rewrite Hver.
      assert (match (command_status res).1.2 with VersionConflict => true | _ => false end
              = negb (ev =? version (store_now (pt_world s)))) as <-.
      { rewrite Hcode in Hconf. destruct (N.eqb_spec ev (version (store_now (pt_world s)))) as [E|E]; cbn [negb].
        - destruct (command_status res).1.2; try done. by destruct (proj1 Hconf eq_refl).
        - apply Hconf in E. by apply ProtocolErrorCode_inj in E as ->. }
      by destruct res.
    + right. exists s'. split; [done|]. split; [done|]. exists p, (OverlayCommandResultP r). split; [by exists trace|]. by split.
  - destruct (encode_overlay_settings (effective <| poi_filters := filters |>)) as [wire|] eqn:Hwire; [|done].
    injection Hop as <-. change [12%Z] with [as_i32 FPoiFilters].
    set (p := SettingsPatchP (mkPatch trace ev (Some wire) [as_i32 FPoiFilters])).
    destruct (ask_served pid connection (pt_next s) p (taken s) Ht Hid') as
      (store & reply & Hok & Hserved & Hstep & Hcase); [done|].
    rewrite Hnow in Hserved, Hstep. pose proof Hserved as Hserved'.
    destruct Hserved' as (res & a & Hres & -> & _ & Hver & Hshown & Hstatus & _).
    unfold patch_result in Hres. cbn [candidate patch_expected_version changed_fields] in Hres.
    exists (patch_outcome ev res), store. unfold store_step. rewrite Hres. split; [done|]. split; [done|].
    assert (u16_keys (hotkey_bindings (settings store))) as Hkeys.
    { apply (step_keys_now pid connection s (OpPatch ev wire [as_i32 FPoiFilters]) (patch_outcome ev res)); [done|].
      unfold store_step. by rewrite Hres. }
    destruct (decode_shown _ _ Hshown Hkeys) as (w & Hw & Hdecode).
    unfold send_intent, send_filter_patch, io_bind. rewrite take_message_id_ok by done. unfold trace_id.
    cbn [pt_pipe pt_next pt_counter pt_world]. fold trace. rewrite Hwire. cbn [io_ok io_ret]. fold (taken s). fold p.
    destruct Hcase as [(s' & Hask & Hs' & Hnext & _ & Hst & Hoth & _)|(s' & Hask & Hsound & Hlost)]; rewrite Hask.
    + left. exists s'. rewrite Hnext. split; [|done].
      rewrite Hstatus. change SettingsApplyStatus_number with (as_i32 (W := SettingsApplyStatus)).
      rewrite try_from_as_i32. cbn [io_some io_ret]. rewrite Hw, Hver.
      destruct (store_now_ok (pt_world s) (is_store _ _ _ Hs) (is_keys _ _ _ Hs)) as [Hok1 _].
      destruct (apply_patch_spec (store_now (pt_world s)) ev wire [as_i32 FPoiFilters] Hok1)
        as (res' & store' & E & _ & Hr). rewrite E in Hres. injection Hres as -> ->.
      destruct res as [sn|sn|sn reason]; cbn [patch_status fst io_some io_ret]; rewrite Hdecode; cbn [io_ok io_ret].
      * destruct Hr as (-> & _). by rewrite N.eqb_refl.
      * destruct Hr as (Hne & _). by rewrite (proj2 (N.eqb_neq _ _) Hne).
      * destruct Hr as (-> & _). by rewrite N.eqb_refl.
    + right. exists s'. split; [done|]. split; [done|]. exists p, (SettingsAckP a). split; [by exists trace|]. by split.
Qed.

Lemma step_conflict ev effective intent op store :
  intent_op ev effective intent = Some op → ev ≠ version store →
  ∃ o, store_step op store = Some (o, store).
Proof.
  intros Hop Hne%N.eqb_neq. destruct intent as [v a|v f]; cbn [intent_op] in Hop.
  - injection Hop as <-. cbn [store_step]. unfold apply_action. rewrite Hne. by eexists.
  - destruct (encode_overlay_settings _) as [w|]; [|done]. injection Hop as <-. unfold store_step, apply_patch.
    rewrite Hne. by eexists.
Qed.

Lemma step_functional op store o1 s1 o2 s2 :
  store_step op store = Some (o1, s1) → store_step op store = Some (o2, s2) → s1 = s2.
Proof. congruence. Qed.

(** Settings with the filters of other valid settings are valid. *)
Lemma valid_filters a b filters :
  valid_settings a → valid_settings (b <| poi_filters := filters |>) →
  valid_settings (a <| poi_filters := filters |>).
Proof. intros [] []. by constructor. Qed.

Definition intent_valid (effective : OverlaySettings) (intent : ControlIntent) : Prop :=
  match intent with
  | IntentAction _ _ => True
  | ReplacePoiFilters _ filters => valid_settings (effective <| poi_filters := filters |>)
  end.

Lemma intent_op_valid ev effective intent :
  intent_valid effective intent → ∃ op, intent_op ev effective intent = Some op.
Proof.
  destruct intent as [v a|v f]; cbn; [by eexists|]. intros [w ->]%encode_settings_valid. by eexists.
Qed.

Abbreviation serve := (serve_intent encoded_len encode_message decode_message server_send).

(** The version an intent is sent with. *)
Definition requested_version (link : Link) (intent : ControlIntent) : N :=
  if expected_settings_version intent =? 0 then ln_version link else expected_settings_version intent.

Definition link_to (connection : bytes) (store : SettingsStore) : Link :=
  mkLink connection (version store) (settings store).
Definition applied (store : SettingsStore) : ControlClientEvent := SettingsApplied (version store) (settings store).

(** The outcome of an intent, by what the store says to its operations. *)
Definition intent_outcome (pid : N) (link : Link) (intent : ControlIntent) (s : Port (W := World)) : Prop :=
  let connection := ln_connection link in
  let ev := requested_version link intent in
  let store1 := store_now (pt_world s) in
  ∃ op1 o1 store1', intent_op ev (ln_settings link) intent = Some op1 ∧ store_step op1 store1 = Some (o1, store1') ∧
    ((∃ s', serve link intent s = Some ([Disconnected], None, s') ∧ exchange_lost s connection op1 store1') ∨
     (ev = version store1 ∧
      ∃ s', serve link intent s = Some ([applied store1'], Some (link_to connection store1'), s') ∧
        in_sync pid connection s' ∧ wd_store (pt_world s') = store1') ∨
     (ev ≠ version store1 ∧ store1' = store1 ∧
      ∃ s1, in_sync pid connection s1 ∧ wd_store (pt_world s1) = store1 ∧
        wd_others (pt_world s1) = tail (wd_others (pt_world s)) ∧
        let store2 := store_now (pt_world s1) in
        ∃ op2 o2 store2', intent_op (version store1) (settings store1) intent = Some op2 ∧
          store_step op2 store2 = Some (o2, store2') ∧
          ((∃ s', serve link intent s = Some ([applied store1; Disconnected], None, s') ∧
              exchange_lost s1 connection op2 store2') ∨
           (∃ s', serve link intent s =
                    Some ([applied store1; applied store2'], Some (link_to connection store2'), s') ∧
              in_sync pid connection s' ∧ wd_store (pt_world s') = store2')))).

Lemma serve_intent_outcome pid link intent s :
  in_sync pid (ln_connection link) s → 1 ≤ pt_next s → pt_next s + 1 < u64_max →
  intent_valid (ln_settings link) intent → intent_outcome pid link intent s.
Proof.
  intros Hs Hid Hmax Hvalid. unfold intent_outcome. cbv zeta.
  destruct (intent_op_valid (requested_version link intent) _ _ Hvalid) as [op1 Hop1].
  destruct (send_intent_spec pid (ln_connection link) (requested_version link intent) (ln_settings link) intent op1 s)
    as (o1 & store1' & Hstep1 & Hok1 & Hcase1); [done|lia|done|].
  exists op1, o1, store1'. split; [done|]. split; [done|].
  destruct Hcase1 as [(s1 & Hsend1 & Hs1 & Hnext1 & Hst1 & Hoth1)|(s1 & Hsend1 & _ & Hlost1)].
  2: { left. exists s1. unfold serve_intent. fold (requested_version link intent). by rewrite Hsend1. }
  right. unfold serve_intent. fold (requested_version link intent). rewrite Hsend1.
  destruct (N.eqb_spec (requested_version link intent) (version (store_now (pt_world s)))) as [E|E]; cbn [negb].
  { left. split; [done|]. by exists s1. }
  right. split; [done|].
  destruct (step_conflict _ _ _ _ (store_now (pt_world s)) Hop1 E) as [o Hsame].
  pose proof (step_functional _ _ _ _ _ _ Hstep1 Hsame) as ->. split; [done|].
  exists s1. split; [done|]. split; [done|]. split; [done|].
  assert (intent_valid (settings (store_now (pt_world s))) intent) as Hvalid'.
  { destruct intent as [|v f]; [done|]. cbn in *. apply (valid_filters _ (ln_settings link)); [apply Hok1|done]. }
  destruct (intent_op_valid (version (store_now (pt_world s))) _ _ Hvalid') as [op2 Hop2].
  destruct (send_intent_spec pid (ln_connection link) (version (store_now (pt_world s)))
    (settings (store_now (pt_world s))) intent op2 s1) as (o2 & store2' & Hstep2 & Hok2 & Hcase2); [done|lia|done|].
  exists op2, o2, store2'. split; [done|]. split; [done|].
  destruct Hcase2 as [(s2 & Hsend2 & Hs2 & _ & Hst2 & _)|(s2 & Hsend2 & _ & Hlost2)]; rewrite Hsend2.
  - right. by exists s2.
  - left. by exists s2.
Qed.
(** ** Turns of the worker *)

Context (accepts : World → bool).

(** A connection that is accepted meets a new session; what the end of an old one does to the
    store is among the doings of others. *)
Definition server_open (w : World) : option World :=
  if accepts w then Some (mkWorld from_shared FramedStream_new (wd_store w) (wd_others w)) else None.

Record Turn := mkTurn { tn_now : N; tn_process_id : N; tn_intent : option ControlIntent }.

Fixpoint run_turns (turns : list Turn) (self : Worker) (w : World) (events : list ControlClientEvent) :
    option (Worker * World * list ControlClientEvent) :=
  match turns with
  | [] => Some (self, w, events)
  | t :: turns =>
      match worker_turn encoded_len encode_message decode_message server_open server_send
              (tn_now t) (tn_process_id t) (tn_intent t) self w with
      | None => None
      | Some (sent, self, w) => run_turns turns self w (events ++ sent)
      end
  end.

(** Every call either fails over a sound store or mirrors the store it leaves. *)
Definition mirrors {A} (pid : N) (connection : bytes) (view : A → N * OverlaySettings)
    (r : run_result A (Port (W := World))) : Prop :=
  match r with
  | Done a s' =>
      in_sync pid connection s' ∧ 1 ≤ pt_next s' ∧
      view a = (version (wd_store (pt_world s')), settings (wd_store (pt_world s')))
  | Failed s' => sound (pt_world s')
  | Panic => False
  end.

Lemma take_message_id_full (s : Port (W := World)) : u64_max ≤ pt_next s → take_message_id s = Failed s.
Proof.
  intros H. unfold take_message_id. destruct (checked_add (pt_next s) 1) as [n|] eqn:E; [|done].
  apply checked_add_some in E. lia.
Qed.

Lemma send_intent_mirrors pid connection ev effective intent s :
  in_sync pid connection s → 1 ≤ pt_next s →
  mirrors pid connection fst (port_send_intent connection ev effective intent s).
Proof.
  intros Hs Hid. pose proof (in_sync_sound _ _ _ Hs) as Hsound.
  destruct (N.lt_ge_cases (pt_next s) u64_max) as [Hmax|Hmax].
  2: { destruct intent; cbn [send_intent]; unfold send_action, send_filter_patch, io_bind;
         by rewrite take_message_id_full. }
  destruct (intent_op ev effective intent) as [op|] eqn:Hop.
  - destruct (send_intent_spec pid connection ev effective intent op s Hs ltac:(lia) Hop)
      as (o & store & _ & _ & [(s' & -> & Hs' & Hn & <- & _)|(s' & -> & Hs' & _)]); cbn; [|done].
    split; [done|]. split; [lia|done].
  - destruct intent as [v a|v f]; cbn [intent_op] in Hop; [done|]. cbn [send_intent].
    unfold send_filter_patch, io_bind. rewrite take_message_id_ok by done. unfold trace_id.
    destruct (encode_overlay_settings _); [done|]. done.
Qed.

Lemma query_mirrors pid connection s :
  in_sync pid connection s → 1 ≤ pt_next s →
  mirrors pid connection id (query_settings encoded_len encode_message decode_message server_send connection s).
Proof.
  intros Hs Hid. unfold query_settings, io_bind.
  destruct (N.lt_ge_cases (pt_next s) u64_max) as [Hmax|Hmax].
  2: { rewrite take_message_id_full by done. by eapply in_sync_sound. }
  rewrite take_message_id_ok by done. unfold trace_id. cbn [pt_pipe pt_next pt_counter pt_world]. fold (taken s).
  destruct (ask_served pid connection (pt_next s) (SettingsQueryP (le_bytes 8 (pt_next s) ++ le_bytes 8 (pt_counter s)))
    (taken s) (in_sync_taken _ _ _ Hs)) as
    (store & reply & _ & Hserved & _ & [(s' & Hask & Hs' & Hn & _ & Hst & _)|(s' & Hask & Hs' & _)]);
    [lia|apply length_trace| |]; rewrite Hask; [|done].
  destruct Hserved as [(r & -> & _ & Hver & Hshown) Hsame].
  destruct (decode_shown _ _ Hshown) as (w & Hw & Hdecode).
  { rewrite Hsame in Hst. rewrite <- Hst. apply Hs'. }
  rewrite Hw. cbn [io_some io_ret]. rewrite Hdecode. cbn.
  split; [done|]. split; [rewrite Hn; cbn; lia|]. by rewrite Hst, Hsame, Hver.
Qed.

Lemma connect_in_sync now process_id counter w :
  sound w → process_id ≠ 0 →
  let connection := unique_id now counter in
  match connect encoded_len encode_message server_open server_send w (hello connection process_id) with
  | (None, w') => sound w'
  | (Some pipe, w') => ∀ next counter', in_sync process_id connection (mkPort pipe next counter' w')
  end.
Proof.
  intros Hw Hpid connection. assert (len connection = 16) as Hconn by apply length_trace. clearbody connection.
  unfold connect, server_open. destruct (accepts w); [|done].
  set (w1 := mkWorld from_shared FramedStream_new (wd_store w) (wd_others w)).
  assert (sound w1) as Hw1 by done. pose proof (store_now_ok w1 (proj1 Hw1) (proj2 Hw1)) as Hnow.
  destruct (encode encoded_len encode_message (hello connection process_id)) as [frame|] eqn:Henc; [|done].
  destruct (encode_frame_decodes _ _ Henc) as (p & Hp & -> & Hd).
  assert (handle_envelope encoded_len encode_message from_shared (store_now w1) (hello connection process_id) =
    Some (Ok None, from_shared <| gate := overlay_gate process_id connection |>, store_now w1)) as Hh.
  { unfold handle_envelope, evaluate, validate_common. cbn. rewrite Hconn. cbn.
    by rewrite (proj2 (N.eqb_neq process_id 0) Hpid). }
  assert (validate_local_envelope (hello connection process_id) = Ok tt) as Hv.
  { unfold validate_local_envelope, validate_len. cbn. by rewrite Hconn. }
  destruct (server_answers w1 p (hello connection process_id) (Ok None)
    (from_shared <| gate := overlay_gate process_id connection |>) (store_now w1) eq_refl Hp Hd Hv Hh)
    as (decoder & Hsend & Hdec); [done|].
  rewrite Hsend. intros next counter'. rewrite (Hdec _ eq_refl).
  by constructor; cbn [pt_pipe pt_world wd_session wd_decoder wd_store]; try apply Hnow.
Qed.

(** What the worker shows, after some turns. *)
Definition worker_inv (self : Worker) (w : World) (events : list ControlClientEvent) : Prop :=
  match wk_link self with
  | Some (link, pipe, next) =>
      (∃ pid, in_sync pid (ln_connection link) (mkPort pipe next (wk_counter self) w)) ∧ 1 ≤ next ∧
      (ln_version link, ln_settings link) = (version (wd_store w), settings (wd_store w)) ∧
      (take_latest events = Some (Connected (ln_version link) (ln_settings link)) ∨
       take_latest events = Some (SettingsApplied (ln_version link) (ln_settings link)))
  | None =>
      sound w ∧
      (if wk_reported self then take_latest events = Some Disconnected else events = [])
  end.

Lemma take_latest_app events e : take_latest (events ++ [e]) = Some e.
Proof. apply last_snoc. Qed.

Lemma worker_inv_linked pid connection (view : N * OverlaySettings) reported s events e :
  in_sync pid connection s → 1 ≤ pt_next s →
  view = (version (wd_store (pt_world s)), settings (wd_store (pt_world s))) →
  e = Connected view.1 view.2 ∨ e = SettingsApplied view.1 view.2 →
  worker_inv (mkWorker reported (Some (mkLink connection view.1 view.2, pt_pipe s, pt_next s)) (pt_counter s))
    (pt_world s) (events ++ [e]).
Proof.
  intros Hs Hid -> He. unfold worker_inv. cbn [wk_link wk_counter ln_connection ln_version ln_settings].
  split; [exists pid; by destruct s|]. split; [done|]. split; [done|].
  rewrite take_latest_app. destruct He as [->| ->]; [by left|by right].
Qed.

Lemma connect_turn_inv t self w events :
  wk_link self = None → worker_inv self w events → tn_process_id t ≠ 0 →
  ∃ sent self' w', connect_turn encoded_len encode_message decode_message server_open server_send
    (tn_now t) (tn_process_id t) self w = Some (sent, self', w') ∧
    worker_inv self' w' (events ++ sent).
Proof.
  intros Hlink Hinv Hpid. unfold worker_inv in Hinv. rewrite Hlink in Hinv. destruct Hinv as [Hw Hev].
  assert (∀ counter w', sound w' →
    worker_inv (report_failure self counter).2 w' (events ++ (report_failure self counter).1)) as Hfail.
  { intros counter w' Hw'. unfold report_failure, worker_inv. cbn. split; [done|].
    destruct (wk_reported self); [by rewrite app_nil_r|apply take_latest_app]. }
  unfold connect_turn.
  pose proof (connect_in_sync (tn_now t) (tn_process_id t) (wk_counter self) w Hw Hpid) as Hconn. cbv zeta in Hconn.
  destruct (connect _ _ _ _ w _) as [[pipe|] w1].
  2: { specialize (Hfail (wrapping_add (wk_counter self) 1) w1 Hconn).
       destruct (report_failure _ _) as [sent self']. by exists sent, self', w1. }
  set (s := mkPort pipe 2 (wrapping_add (wk_counter self) 1) w1).
  pose proof (query_mirrors (tn_process_id t) (unique_id (tn_now t) (wk_counter self)) s (Hconn _ _)) as Hq.
  destruct (query_settings _ _ _ _ _ s) as [[v st] s'|s'|]; cbn [mirrors id] in Hq.
  - destruct Hq as (Hs' & Hn & Hview); [done|]. eexists _, _, _. split; [reflexivity|].
    apply (worker_inv_linked (tn_process_id t) (unique_id (tn_now t) (wk_counter self)) (v, st)); try done. by left.
  - specialize (Hfail (pt_counter s') (pt_world s') (Hq ltac:(done))).
    destruct (report_failure _ _) as [sent self']. by exists sent, self', (pt_world s').
  - by destruct Hq.
Qed.

Lemma intent_turn_inv t self w events link pipe next intent :
  wk_link self = Some (link, pipe, next) → tn_intent t = Some intent → worker_inv self w events →
  ∃ sent self' w', worker_turn encoded_len encode_message decode_message server_open server_send
    (tn_now t) (tn_process_id t) (tn_intent t) self w = Some (sent, self', w') ∧
    worker_inv self' w' (events ++ sent).
Proof.
  intros Hlink Hint Hinv. unfold worker_inv in Hinv. rewrite Hlink in Hinv.
  destruct Hinv as ([pid Hs] & Hid & _ & _). unfold worker_turn. rewrite Hlink, Hint.
  set (s := mkPort pipe next (wk_counter self) w) in *. unfold serve_intent.
  assert (∀ s1 sent, sound (pt_world s1) →
    worker_inv (mkWorker true None (pt_counter s1)) (pt_world s1) (events ++ sent ++ [Disconnected])) as Hfail.
  { intros s1 sent Hs1. unfold worker_inv. cbn. split; [done|]. rewrite app_assoc. apply take_latest_app. }
  match goal with |- context [send_intent _ _ _ _ _ ?v _ _ s] =>
    pose proof (send_intent_mirrors pid (ln_connection link) v (ln_settings link) intent s Hs Hid) as H1;
    destruct (send_intent _ _ _ _ _ v _ _ s) as [[[v1 st1] conflict] s1|s1|] end; [|..|by destruct H1].
  2: { eexists _, _, _. split; [reflexivity|]. by apply (Hfail s1 []). }
  destruct H1 as (Hs1 & Hid1 & Hview1). cbn [fst] in Hview1. destruct conflict; cbn [negb].
  2: { eexists _, _, _. split; [reflexivity|].
       apply (worker_inv_linked pid (ln_connection link) (v1, st1)); try done. by right. }
  pose proof (send_intent_mirrors pid (ln_connection link) v1 st1 intent s1 Hs1 Hid1) as H2.
  destruct (send_intent _ _ _ _ _ v1 _ _ s1) as [[[v2 st2] c2] s2|s2|]; [|..|by destruct H2].
  - destruct H2 as (Hs2 & Hid2 & Hview2). cbn [fst] in Hview2.
    eexists _, _, _. split; [reflexivity|].
    rewrite (app_assoc events [_] [_] : events ++ [SettingsApplied v1 st1; SettingsApplied v2 st2] = _).
    apply (worker_inv_linked pid (ln_connection link) (v2, st2)); try done. by right.
  - eexists _, _, _. split; [reflexivity|]. by apply (Hfail s2 [SettingsApplied v1 st1]).
Qed.

Lemma run_turns_inv turns self w events :
  Forall (λ t, tn_process_id t ≠ 0) turns → worker_inv self w events →
  ∃ self' w' events', run_turns turns self w events = Some (self', w', events') ∧ worker_inv self' w' events'.
Proof.
  intros Ht. revert self w events. induction Ht as [|t turns Hpid _ IH]; intros self w events Hinv; cbn [run_turns].
  { eauto. }
  assert (∃ sent self' w', worker_turn encoded_len encode_message decode_message server_open server_send
    (tn_now t) (tn_process_id t) (tn_intent t) self w = Some (sent, self', w') ∧
    worker_inv self' w' (events ++ sent)) as (sent & self' & w' & -> & Hinv'); [|by apply IH].
  destruct (wk_link self) as [[[link pipe] next]|] eqn:Hlink.
  - destruct (tn_intent t) as [intent|] eqn:Hint.
    + rewrite <- Hint. by eapply intent_turn_inv.
    + unfold worker_turn. rewrite Hlink. eexists _, _, _. split; [reflexivity|]. by rewrite app_nil_r.
  - unfold worker_turn. rewrite Hlink. by apply connect_turn_inv.
Qed.
End Loop.

(** C7: an intent of the player reaches the store exactly. Whatever others did to the store and
    however the pipe cuts the bytes, the client asks the store for the intent's operation, at
    the version it names or else the one mirrored; when nobody had changed the store the
    operation is the store's answer and the client mirrors the store after it. After a conflict,
    which leaves the store as it is, the client reports the settings it did not know, asks once
    more at their version, and mirrors the store after that. The connection is given up only
    when a message of the exchange has no frame or the session has no number left. *)
Theorem client_intent_exact (encoded_len : LocalEnvelope → N) (encode_message : LocalEnvelope → option bytes)
    (decode_message : bytes → option LocalEnvelope) (cut : bytes → list bytes)
    (encoded_len_exact : ∀ e p, encode_message e = Some p → len p = encoded_len e)
    (decode_encode : ∀ e p, encode_message e = Some p → decode_message p = Some e)
    (cut_concat : ∀ f, concat (cut f) = f) (cut_nonempty : ∀ f, Forall (λ c, c ≠ []) (cut f))
    (pid : N) (link : Link) (intent : ControlIntent) (s : Port (W := World)) :
  in_sync pid (ln_connection link) s → 1 ≤ pt_next s → pt_next s + 1 < u64_max →
  intent_valid (ln_settings link) intent →
  intent_outcome encoded_len encode_message decode_message cut pid link intent s.
Proof. intros Hs Hid Hmax Hv. by apply serve_intent_outcome. Qed.

(** C8: the worker mirrors the store. Over any turns, whatever others do to the store, whether or
    not connections are accepted, and however the pipe cuts the bytes, it never panics; while it
    is connected its version and settings are those the store had when it answered last, and
    these are what it last told the overlay; while it is not, the overlay was told so. *)
Theorem client_mirrors_store (encoded_len : LocalEnvelope → N) (encode_message : LocalEnvelope → option bytes)
    (decode_message : bytes → option LocalEnvelope) (cut : bytes → list bytes)
    (encoded_len_exact : ∀ e p, encode_message e = Some p → len p = encoded_len e)
    (decode_encode : ∀ e p, encode_message e = Some p → decode_message p = Some e)
    (cut_concat : ∀ f, concat (cut f) = f) (cut_nonempty : ∀ f, Forall (λ c, c ≠ []) (cut f))
    (accepts : World → bool) (turns : list Turn) (counter : N) (w : World) :
  sound w → Forall (λ t, tn_process_id t ≠ 0) turns →
  ∃ self w' events,
    run_turns encoded_len encode_message decode_message cut accepts turns (worker_new counter) w [] =
      Some (self, w', events) ∧ sound w' ∧
    match wk_link self with
    | Some (link, _, _) =>
        ln_version link = version (wd_store w') ∧ ln_settings link = settings (wd_store w') ∧
        (take_latest events = Some (Connected (ln_version link) (ln_settings link)) ∨
         take_latest events = Some (SettingsApplied (ln_version link) (ln_settings link)))
    | None => events = [] ∧ wk_reported self = false ∨ take_latest events = Some Disconnected
    end.
Proof.
  intros Hw Ht.
  destruct (run_turns_inv encoded_len encode_message decode_message cut encoded_len_exact decode_encode cut_concat
    cut_nonempty accepts turns (worker_new counter) w [] Ht) as (self & w' & events & Hrun & Hinv).
  { by split. }
  exists self, w', events. split; [done|]. unfold worker_inv in Hinv.
  destruct (wk_link self) as [[[link pipe] next]|].
  - destruct Hinv as ([pid Hs] & _ & [= -> ->] & Hev). split; [by apply in_sync_sound in Hs|]. done.
  - destruct Hinv as [Hs Hev]. split; [done|]. destruct (wk_reported self); [by right|by left].
Qed.

(** ** Examples *)

#[export] Instance v2_HotkeyModifiers_eq_dec : EqDecision v2.HotkeyModifiers.
Proof. solve_decision. Defined.
#[export] Instance v2_HotkeyChord_eq_dec : EqDecision v2.HotkeyChord.
Proof. solve_decision. Defined.
#[export] Instance v2_HotkeyBindings_eq_dec : EqDecision v2.HotkeyBindings.
Proof. solve_decision. Defined.
#[export] Instance v2_PoiFilters_eq_dec : EqDecision v2.PoiFilters.
Proof. solve_decision. Defined.
#[export] Instance v2_OverlaySettings_eq_dec : EqDecision v2.OverlaySettings.
Proof. solve_decision. Defined.
#[export] Instance ClientHello_eq_dec : EqDecision ClientHello.
Proof. solve_decision. Defined.
#[export] Instance SettingsPatch_eq_dec : EqDecision SettingsPatch.
Proof. solve_decision. Defined.
#[export] Instance SettingsSnapshot_eq_dec : EqDecision SettingsSnapshot.
Proof. solve_decision. Defined.
#[export] Instance SettingsAck_eq_dec : EqDecision SettingsAck.
Proof. solve_decision. Defined.
#[export] Instance OverlayCommand_eq_dec : EqDecision OverlayCommand.
Proof. solve_decision. Defined.
#[export] Instance OverlayCommandResult_eq_dec : EqDecision OverlayCommandResult.
Proof. solve_decision. Defined.
#[export] Instance ProtocolError_eq_dec : EqDecision ProtocolError.
Proof. solve_decision. Defined.
#[export] Instance Payload_eq_dec : EqDecision Payload.
Proof. solve_decision. Defined.
#[export] Instance LocalEnvelope_eq_dec : EqDecision LocalEnvelope.
Proof. solve_decision. Defined.

(** A codec that knows the messages of a table: each is the byte of its place. *)
Fixpoint place_of (e : LocalEnvelope) (table : list LocalEnvelope) (n : N) : option N :=
  match table with
  | [] => None
  | e' :: table => if bool_decide (e = e') then Some n else place_of e table (n + 1)
  end.
Definition table_encode (table : list LocalEnvelope) (e : LocalEnvelope) : option bytes :=
  (λ n, replicate (N.to_nat n) Byte.x00) <$> place_of e table 1.
Definition table_decode (table : list LocalEnvelope) (p : bytes) : option LocalEnvelope :=
  table !! (length p - 1)%nat.
Definition table_len (table : list LocalEnvelope) (e : LocalEnvelope) : N :=
  match table_encode table e with Some p => len p | None => 1 end.

Lemma place_of_lookup e table n k :
  place_of e table n = Some k → n ≤ k ∧ table !! N.to_nat (k - n) = Some e.
Proof.
  revert n. induction table as [|e' table IH]; intros n; cbn [place_of]; [done|].
  case_bool_decide as He; [intros [= <-]; subst; split; [lia|by rewrite N.sub_diag]|].
  intros [? Hl]%IH. split; [lia|]. replace (N.to_nat (k - n)) with (S (N.to_nat (k - (n + 1)))) by lia. done.
Qed.

Lemma table_len_exact table e p : table_encode table e = Some p → len p = table_len table e.
Proof. intros H. unfold table_len. by rewrite H. Qed.

Lemma table_decode_encode table e p : table_encode table e = Some p → table_decode table p = Some e.
Proof.
  unfold table_encode, table_decode. intros (k & [Hk Hl]%place_of_lookup & ->)%fmap_Some.
  rewrite length_replicate. by replace (N.to_nat k - 1)%nat with (N.to_nat (k - 1)) by lia.
Qed.

(** Every byte of a frame arrives by itself. *)
Definition bytewise (f : bytes) : list bytes := (λ b, [b]) <$> f.
Lemma bytewise_concat f : concat (bytewise f) = f.
Proof. induction f as [|b f IH]; [done|]. unfold bytewise in *. cbn. by rewrite IH. Qed.
Lemma bytewise_nonempty f : Forall (λ c, c ≠ []) (bytewise f).
Proof. induction f; by constructor. Qed.

(** An overlay that toggles its visibility while another client toggles the bosses. *)
Definition loop_connection : bytes := unique_id 7 1.
Definition loop_trace (id : N) : bytes := le_bytes 8 id ++ le_bytes 8 id.
Definition loop_command (id version_ : N) : LocalEnvelope :=
  request_envelope loop_connection id
    (OverlayCommandP (mkCommand (loop_trace id) (as_i32 (encode_overlay_action ToggleVisibility)) version_)).
Definition wire_of (s : OverlaySettings) : option v2.OverlaySettings :=
  match encode_overlay_settings s with Ok w => Some w | Err _ => None end.
Definition loop_result (id version_ : N) (status : OverlayCommandStatus) (code : ProtocolErrorCode)
    (s : OverlaySettings) : LocalEnvelope :=
  mkLocalEnvelope PROTOCOL_VERSION loop_connection (id - 1) (Some id)
    (Some (OverlayCommandResultP (mkCommandResult (loop_trace id) (as_i32 status) (enabled s)
       (as_i32 (encode_input_mode (input_mode s))) (as_i32 (encode_display_mode (display_mode s))) version_
       (as_i32 code) (wire_of s)))).
Definition bosses : OverlaySettings := reduce_overlay_action OverlaySettings_default ToggleBoss.
Definition hidden : OverlaySettings := reduce_overlay_action bosses ToggleVisibility.
Definition loop_table : list LocalEnvelope :=
  [hello loop_connection 42;
   request_envelope loop_connection 2 (SettingsQueryP (loop_trace 2));
   mkLocalEnvelope PROTOCOL_VERSION loop_connection 1 (Some 2)
     (Some (SettingsSnapshotP (mkSnapshot (loop_trace 2) 1 (wire_of OverlaySettings_default))));
   loop_command 3 1; loop_result 3 2 OsRejected VersionConflict bosses;
   loop_command 4 2; loop_result 4 3 OsApplied PeNone hidden].
Definition loop_world : World :=
  mkWorld from_shared FramedStream_new demo_store [[]; []; [OpAction 1 ToggleBoss]].
Definition loop_turns : list Turn :=
  [mkTurn 7 42 None; mkTurn 8 42 (Some (IntentAction 0 ToggleVisibility))].

Lemma client_mirrors_store_witness :
  ∃ self w' events,
    run_turns (table_len loop_table) (table_encode loop_table) (table_decode loop_table) bytewise (λ _, true)
      loop_turns (worker_new 1) loop_world [] = Some (self, w', events) ∧
    events = [Connected 1 OverlaySettings_default; SettingsApplied 2 bosses; SettingsApplied 3 hidden] ∧
    wd_store w' = mkStore hidden 3 ∧ sound w'.
Proof.
  destruct (client_mirrors_store (table_len loop_table) (table_encode loop_table) (table_decode loop_table) bytewise
    (table_len_exact loop_table) (table_decode_encode loop_table) bytewise_concat bytewise_nonempty (λ _, true)
    loop_turns 1 loop_world) as (self & w' & events & Hrun & Hsound & _).
  - split; [apply demo_store_ok|]. vm_compute. repeat split; discriminate.
  - repeat constructor; discriminate.
  - exists self, w', events. split; [exact Hrun|].
    vm_compute in Hrun. injection Hrun as <- <- <-.
    split; [vm_compute; reflexivity|]. split; [vm_compute; reflexivity|]. exact Hsound.
Defined.

Definition loop_port : Port (W := World) :=
  mkPort (mkPipe FramedStream_new loop_connection []) 3 3
    (mkWorld (mkSession (overlay_gate 42 loop_connection) 2) FramedStream_new demo_store [[OpAction 1 ToggleBoss]; []]).

(** The version the client knew is stale: it reports the bosses, asks again and is answered. *)
Lemma client_intent_exact_witness :
  let link := link_to loop_connection demo_store in
  let intent := IntentAction 0 ToggleVisibility in
  in_sync 42 (ln_connection link) loop_port ∧
  intent_outcome (table_len loop_table) (table_encode loop_table) (table_decode loop_table) bytewise 42 link intent
    loop_port ∧
  match serve_intent (table_len loop_table) (table_encode loop_table) (table_decode loop_table)
          (server_send (table_len loop_table) (table_encode loop_table) (table_decode loop_table) bytewise)
          link intent loop_port with
  | Some (events, Some link', _) => events = [SettingsApplied 2 bosses; SettingsApplied 3 hidden] ∧ ln_version link' = 3
  | _ => False
  end.
Proof.
  intros link intent. assert (in_sync 42 (ln_connection link) loop_port) as Hs.
  { constructor; [reflexivity|reflexivity|reflexivity|apply demo_store_ok| |reflexivity].
    vm_compute. repeat split; discriminate. }
  split; [exact Hs|]. split; [|vm_compute; split; reflexivity].
  apply (client_intent_exact (table_len loop_table) (table_encode loop_table) (table_decode loop_table) bytewise
    (table_len_exact loop_table) (table_decode_encode loop_table) bytewise_concat bytewise_nonempty 42 link intent
    loop_port Hs); [vm_compute; discriminate|vm_compute; reflexivity|exact I].
Defined.
