(* ===== verification/ControlDocument.v ===== *)
(** * The overlay's control document

    Models the control document of [crates/pal-overlay-control/src/lib.rs]: the settings a
    desktop process writes for the overlay as a JSON file, their conversion from and to the
    domain's settings, and the reading of the file, which creates it, or rewrites it when its
    layers name some that are hidden. The file is the state; the JSON library and the faults of
    the file system are arguments. The POI catalogue of the same crate is not modelled: its
    checks are about Windows paths. *)

From S2P Require Import Prelude Floats Settings SettingsStore.

(** ** Data *)

Module ctl.
Inductive RotationMode := NorthUp | HeadingUp.
Inductive InputMode := Locked | PinnedInteractive.
Inductive DisplayMode := MiniMap | ExpandedMap.
Inductive FpsProfile := Thirty | Sixty.
Record HotkeyModifiers := mkModifiers { control : bool; alt : bool; shift : bool; windows : bool }.
Record HotkeyChord := mkChord { modifiers : HotkeyModifiers; virtual_key : N }.
Record HotkeyBindings := mkBindings {
  overlay_visibility : option HotkeyChord;
  rotation_toggle : option HotkeyChord;
  temporary_interaction : option HotkeyChord;
  interaction_lock : option HotkeyChord;
}.
Record PoiFilters := mkFilters {
  fast_travel : bool;
  boss : bool;
  wanted : bool;
  dungeon : bool;
  enabled_layer_ids : list string;
  selected_pal_ids : list string;
  night_only : bool;
}.
Record Settings := mkSettings {
  enabled : bool;
  rotation_mode : RotationMode;
  input_mode : InputMode;
  display_mode : DisplayMode;
  opacity : f32;
  diameter_px : N;
  zoom : f32;
  fps_profile : FpsProfile;
  poi_filters : PoiFilters;
  hotkey_bindings : HotkeyBindings;
}.
End ctl.

#[export] Instance ctl_RotationMode_eq_dec : EqDecision ctl.RotationMode.
Proof. solve_decision. Defined.
#[export] Instance ctl_InputMode_eq_dec : EqDecision ctl.InputMode.
Proof. solve_decision. Defined.
#[export] Instance ctl_DisplayMode_eq_dec : EqDecision ctl.DisplayMode.
Proof. solve_decision. Defined.
#[export] Instance ctl_FpsProfile_eq_dec : EqDecision ctl.FpsProfile.
Proof. solve_decision. Defined.
#[export] Instance ctl_HotkeyModifiers_eq_dec : EqDecision ctl.HotkeyModifiers.
Proof. solve_decision. Defined.
#[export] Instance ctl_HotkeyChord_eq_dec : EqDecision ctl.HotkeyChord.
Proof. solve_decision. Defined.
#[export] Instance ctl_HotkeyBindings_eq_dec : EqDecision ctl.HotkeyBindings.
Proof. solve_decision. Defined.
#[export] Instance ctl_PoiFilters_eq_dec : EqDecision ctl.PoiFilters.
Proof. solve_decision. Defined.

Definition CONTROL_SCHEMA : string := "palbeacon.overlay_control.v2".
Definition MAX_CONTROL_BYTES : N := 16 * 1024.

Definition no_modifiers : ctl.HotkeyModifiers := ctl.mkModifiers false false false false.
Definition ControlHotkeyBindings_default : ctl.HotkeyBindings :=
  ctl.mkBindings (Some (ctl.mkChord no_modifiers 0x77))
    (Some (ctl.mkChord (ctl.mkModifiers true false false false) 0x78)) None None.
Definition ControlPoiFilters_default : ctl.PoiFilters :=
  ctl.mkFilters true true false true ["map-unlock"; "poi"; "tower"] [] false.
Definition ControlSettings_default : ctl.Settings :=
  ctl.mkSettings true ctl.NorthUp ctl.Locked ctl.MiniMap (f32_lit 92 100) 320 (f32_lit 1 1) ctl.Sixty
    ControlPoiFilters_default ControlHotkeyBindings_default.

(** ** Conversions *)

Definition chord_from_domain (c : HotkeyChord) : ctl.HotkeyChord :=
  let m := modifiers c in
  ctl.mkChord (ctl.mkModifiers (control m) (alt m) (shift m) (windows m)) (virtual_key c).
Definition chord_to_domain (c : ctl.HotkeyChord) : HotkeyChord :=
  let m := ctl.modifiers c in
  mkHotkeyChord (mkHotkeyModifiers (ctl.control m) (ctl.alt m) (ctl.shift m) (ctl.windows m)) (ctl.virtual_key c).
Definition bindings_from_domain (b : HotkeyBindings) : ctl.HotkeyBindings :=
  ctl.mkBindings (chord_from_domain <$> overlay_visibility b) (chord_from_domain <$> rotation_toggle b)
    (chord_from_domain <$> temporary_interaction b) (chord_from_domain <$> interaction_lock b).
Definition bindings_to_domain (b : ctl.HotkeyBindings) : HotkeyBindings :=
  mkHotkeyBindings (chord_to_domain <$> ctl.overlay_visibility b) (chord_to_domain <$> ctl.rotation_toggle b)
    (chord_to_domain <$> ctl.temporary_interaction b) (chord_to_domain <$> ctl.interaction_lock b).

Definition from_domain (s : OverlaySettings) : ctl.Settings :=
  let f := poi_filters s in
  ctl.mkSettings (enabled s)
    (match rotation_mode s with NorthUp => ctl.NorthUp | HeadingUp => ctl.HeadingUp end)
    (match input_mode s with
     | Locked | TemporaryInteractive | LayoutEdit => ctl.Locked
     | PinnedInteractive => ctl.PinnedInteractive
     end)
    (match display_mode s with MiniMap => ctl.MiniMap | ExpandedMap => ctl.ExpandedMap end)
    (opacity s) (diameter_px s) (zoom s)
    (match fps_profile s with FpsAuto | FpsSixty => ctl.Sixty | FpsThirty => ctl.Thirty end)
    (ctl.mkFilters (fast_travel f) (boss f) (wanted f) (dungeon f) (enabled_layer_ids f) (selected_pal_ids f)
       (night_only f))
    (bindings_from_domain (hotkey_bindings s)).

Inductive ControlError :=
| CeIo (not_found : bool)
| CeJson
| CeFileTooLarge
| CeSchemaMismatch
| CeInvalidVersion
| CeInvalidSettings (error : SettingsValidationError).

(** The settings before they are validated. *)
Definition domain_settings (c : ctl.Settings) : OverlaySettings :=
  let f := ctl.poi_filters c in
  mkOverlaySettings (ctl.enabled c) true
    (match ctl.rotation_mode c with ctl.NorthUp => NorthUp | ctl.HeadingUp => HeadingUp end)
    (match ctl.input_mode c with ctl.Locked => Locked | ctl.PinnedInteractive => PinnedInteractive end)
    (match ctl.display_mode c with ctl.MiniMap => MiniMap | ctl.ExpandedMap => ExpandedMap end)
    (ctl.opacity c) (ctl.diameter_px c) (ctl.zoom c) (f32_of_Z 0) (f32_of_Z 0)
    (match ctl.fps_profile c with ctl.Thirty => FpsThirty | ctl.Sixty => FpsSixty end)
    (remove_hidden_unverified_layers
       (mkPoiFilters (ctl.fast_travel f) (ctl.boss f) (ctl.wanted f) (ctl.dungeon f) (ctl.enabled_layer_ids f)
          (ctl.selected_pal_ids f) (ctl.night_only f))).1
    (bindings_to_domain (ctl.hotkey_bindings c)).

Definition to_domain (c : ctl.Settings) : result OverlaySettings ControlError :=
  let settings := domain_settings c in
  let? _ := map_err CeInvalidSettings (validate settings) in
  Ok settings.

(** The derived [==]: floats compare as floats. *)
Definition control_settings_eq (a b : ctl.Settings) : bool :=
  Bool.eqb (ctl.enabled a) (ctl.enabled b) && bool_decide (ctl.rotation_mode a = ctl.rotation_mode b)
  && bool_decide (ctl.input_mode a = ctl.input_mode b) && bool_decide (ctl.display_mode a = ctl.display_mode b)
  && feq (ctl.opacity a) (ctl.opacity b) && (ctl.diameter_px a =? ctl.diameter_px b) && feq (ctl.zoom a) (ctl.zoom b)
  && bool_decide (ctl.fps_profile a = ctl.fps_profile b) && bool_decide (ctl.poi_filters a = ctl.poi_filters b)
  && bool_decide (ctl.hotkey_bindings a = ctl.hotkey_bindings b).

(** ** The document *)

Record Document := mkDocument {
  schema : string;
  doc_version : N;
  updated_at_unix_ms : N;
  doc_settings : ctl.Settings;
}.

Definition Document_default (now : N) : Document := mkDocument CONTROL_SCHEMA 1 now ControlSettings_default.

Definition validate_document (d : Document) : result unit ControlError :=
  if negb (String.eqb (schema d) CONTROL_SCHEMA) then Err CeSchemaMismatch
  else if doc_version d =? 0 then Err CeInvalidVersion
  else let? _ := to_domain (doc_settings d) in Ok tt.

Definition next_document (now : N) (settings : ctl.Settings) (current_version : N) : result Document ControlError :=
  let? version := ok_or (checked_add current_version 1) CeInvalidVersion in
  let document := mkDocument CONTROL_SCHEMA version now settings in
  let? _ := validate_document document in
  Ok document.

(** ** The file *)

Section Files.
Context (to_vec_pretty : Document → option bytes) (from_slice : bytes → option Document).

(** The file at the path, and the faults the next read and the next write meet. *)
Record Disk := mkDisk { file : option bytes; read_fault : bool; write_fault : bool }.

Definition read_bounded (d : Disk) (maximum : N) : result bytes ControlError :=
  if read_fault d then Err (CeIo false)
  else
    match file d with
    | None => Err (CeIo true)
    | Some contents => if maximum <? len contents then Err CeFileTooLarge else Ok contents
    end.

Definition read_control (d : Disk) : result Document ControlError :=
  let? contents := read_bounded d MAX_CONTROL_BYTES in
  let? document := ok_or (from_slice contents) CeJson in
  let? _ := validate_document document in
  Ok document.

(** The new contents replace the file as a whole or not at all. *)
Definition write_control (d : Disk) (document : Document) : result unit ControlError * Disk :=
  match validate_document document with
  | Err e => (Err e, d)
  | Ok _ =>
      match to_vec_pretty document with
      | None => (Err CeJson, d)
      | Some contents =>
          if MAX_CONTROL_BYTES <? len contents then (Err CeFileTooLarge, d)
          else if write_fault d then (Err (CeIo false), d)
          else (Ok tt, mkDisk (Some contents) (read_fault d) (write_fault d))
      end
  end.

Definition read_or_create_control (now : N) (d : Disk) : result Document ControlError * Disk :=
  let written document :=
    match write_control d document with (Ok _, d) => (Ok document, d) | (Err e, d) => (Err e, d) end in
  match read_control d with
  | Ok document =>
      match to_domain (doc_settings document) with
      | Err e => (Err e, d)
      | Ok sanitized =>
          let sanitized_settings := from_domain sanitized in
          if control_settings_eq sanitized_settings (doc_settings document) then (Ok document, d)
          else
            match next_document now sanitized_settings (doc_version document) with
            | Err e => (Err e, d)
            | Ok migrated => written migrated
            end
      end
  | Err (CeIo true) => written (Document_default now)
  | Err e => (Err e, d)
  end.

End Files.

(** ** Lemmas *)

Lemma chord_roundtrip c : chord_from_domain (chord_to_domain c) = c.
Proof. by destruct c as [[]]. Qed.

Lemma bindings_roundtrip b : bindings_from_domain (bindings_to_domain b) = b.
Proof.
  destruct b as [a b c d]. unfold bindings_from_domain, bindings_to_domain. cbn.
  by destruct a, b, c, d; cbn; rewrite ?chord_roundtrip.
Qed.

(** What a document says after its hidden layers are removed. *)
Definition sanitized_filters (f : ctl.PoiFilters) : ctl.PoiFilters :=
  ctl.mkFilters (ctl.fast_travel f) (ctl.boss f) (ctl.wanted f) (ctl.dungeon f)
    (retain (λ id, negb (contains HIDDEN_UNVERIFIED_LAYER_IDS id)) (ctl.enabled_layer_ids f))
    (ctl.selected_pal_ids f) (ctl.night_only f).
Definition sanitized_settings (c : ctl.Settings) : ctl.Settings :=
  ctl.mkSettings (ctl.enabled c) (ctl.rotation_mode c) (ctl.input_mode c) (ctl.display_mode c) (ctl.opacity c)
    (ctl.diameter_px c) (ctl.zoom c) (ctl.fps_profile c) (sanitized_filters (ctl.poi_filters c)) (ctl.hotkey_bindings c).

Lemma from_to_domain c : from_domain (domain_settings c) = sanitized_settings c.
Proof.
  unfold from_domain, domain_settings, sanitized_settings. cbn. rewrite bindings_roundtrip.
  by destruct (ctl.rotation_mode c), (ctl.input_mode c), (ctl.display_mode c), (ctl.fps_profile c).
Qed.

Lemma retain_idemp {A} (p : A → bool) l : retain p (retain p l) = retain p l.
Proof. unfold retain. induction l as [|x l IH]; simpl; [done|]. destruct (p x) eqn:E; simpl; rewrite ?E, ?IH; done. Qed.

Lemma sanitized_idemp c : sanitized_settings (sanitized_settings c) = sanitized_settings c.
Proof. unfold sanitized_settings, sanitized_filters. cbn. by rewrite retain_idemp. Qed.

Lemma domain_sanitized c : domain_settings (sanitized_settings c) = domain_settings c.
Proof.
  unfold domain_settings, sanitized_settings, sanitized_filters, remove_hidden_unverified_layers. cbn.
  by rewrite retain_idemp.
Qed.

Lemma to_domain_ok c s : to_domain c = Ok s ↔ s = domain_settings c ∧ valid_settings s.
Proof.
  unfold to_domain. rewrite <- validate_ok. destruct (validate (domain_settings c)) as [[]|e] eqn:Hv; cbn.
  - split; [intros [= <-]; by split|]. by intros [-> _].
  - split; [done|]. intros [-> H]. congruence.
Qed.

Lemma in_range_feq lo hi x : in_range lo hi x = true → feq x x = true.
Proof.
  unfold in_range, fle, feq, SFeqb, SFleb. intros [H _]%andb_true_iff.
  destruct x as [s|s| |s m e]; [by destruct s..| |].
  - by destruct lo.
  - cbn. destruct s; rewrite Z.compare_refl, Pos.compare_cont_refl; done.
Qed.

Lemma sanitized_eq c :
  valid_settings (domain_settings c) →
  control_settings_eq (sanitized_settings c) c = bool_decide (sanitized_filters (ctl.poi_filters c) = ctl.poi_filters c).
Proof.
  intros Hv. pose proof (in_range_feq _ _ _ (vs_opacity _ Hv)) as Ho. pose proof (in_range_feq _ _ _ (vs_zoom _ Hv)) as Hz.
  unfold control_settings_eq. cbn in *. rewrite Ho, Hz, N.eqb_refl, Bool.eqb_reflx, !bool_decide_eq_true_2 by done. cbn.
  rewrite (bool_decide_eq_true_2 (ctl.hotkey_bindings c = _)) by done. by rewrite andb_true_r.
Qed.

Lemma validate_document_ok d :
  validate_document d = Ok tt ↔
  schema d = CONTROL_SCHEMA ∧ doc_version d ≠ 0 ∧ valid_settings (domain_settings (doc_settings d)).
Proof.
  unfold validate_document. destruct (String.eqb_spec (schema d) CONTROL_SCHEMA); cbn [negb]; [|naive_solver].
  destruct (N.eqb_spec (doc_version d) 0); [naive_solver|].
  rewrite <- validate_ok. unfold to_domain.
  destruct (validate (domain_settings (doc_settings d))) as [[]|]; cbn; naive_solver.
Qed.

(** A document with nothing to remove: what a read leaves as it is. *)
Definition settled (d : Document) : Prop :=
  validate_document d = Ok tt ∧ sanitized_settings (doc_settings d) = doc_settings d.

Lemma settled_filters d :
  sanitized_settings (doc_settings d) = doc_settings d ↔
  sanitized_filters (ctl.poi_filters (doc_settings d)) = ctl.poi_filters (doc_settings d).
Proof.
  destruct d as [? ? ? c]. cbn. split; [by intros H%(f_equal ctl.poi_filters)|].
  intros H. unfold sanitized_settings. rewrite H. by destruct c.
Qed.

Section Settles.
Context (to_vec_pretty : Document → option bytes) (from_slice : bytes → option Document).
Hypothesis json_roundtrip : ∀ d contents,
  validate_document d = Ok tt → to_vec_pretty d = Some contents → from_slice contents = Some d.

(** The file of a disk holds a document. *)
Definition holds (disk : Disk) (d : Document) : Prop :=
  ∃ contents, file disk = Some contents ∧ len contents ≤ MAX_CONTROL_BYTES ∧ from_slice contents = Some d.

Lemma holds_read disk d :
  holds disk d → validate_document d = Ok tt → read_fault disk = false → read_control from_slice disk = Ok d.
Proof.
  intros (contents & Hf & Hl & Hd) Hv Hr. unfold read_control, read_bounded. rewrite Hr, Hf.
  rewrite (proj2 (N.ltb_ge _ _) Hl). cbn. rewrite Hd. cbn. by rewrite Hv.
Qed.

Lemma read_holds disk d :
  read_control from_slice disk = Ok d → holds disk d ∧ validate_document d = Ok tt ∧ read_fault disk = false.
Proof.
  unfold read_control, read_bounded. destruct (read_fault disk); [done|].
  destruct (file disk) as [contents|] eqn:Hf; [|done].
  destruct (N.ltb_spec MAX_CONTROL_BYTES (len contents)); [done|]. cbn.
  destruct (from_slice contents) as [d'|] eqn:Hd; [|done]. cbn.
  destruct (validate_document d') as [[]|] eqn:Hv; [|done]. cbn. intros [= <-].
  split; [by exists contents|done].
Qed.

Lemma settled_unchanged now disk d :
  holds disk d → settled d → read_fault disk = false →
  read_or_create_control to_vec_pretty from_slice now disk = (Ok d, disk).
Proof.
  intros Hh [Hv Hs] Hr. unfold read_or_create_control. rewrite (holds_read disk d Hh Hv Hr).
  apply validate_document_ok in Hv as (_ & _ & Hv).
  rewrite (proj2 (to_domain_ok _ _) (conj eq_refl Hv)), from_to_domain, sanitized_eq by done.
  by rewrite bool_decide_eq_true_2 by (by apply settled_filters).
Qed.

Lemma write_ok disk d disk' :
  write_control to_vec_pretty disk d = (Ok tt, disk') →
  holds disk' d ∧ validate_document d = Ok tt ∧ read_fault disk' = read_fault disk.
Proof.
  unfold write_control. destruct (validate_document d) as [[]|] eqn:Hv; [|done].
  destruct (to_vec_pretty d) as [contents|] eqn:Hc; [|done].
  destruct (N.ltb_spec MAX_CONTROL_BYTES (len contents)); [done|]. destruct (write_fault disk); [done|].
  intros [= <-]. split; [|done]. exists contents. split; [done|]. split; [done|]. by apply json_roundtrip.
Qed.

Lemma write_error disk d e disk' : write_control to_vec_pretty disk d = (Err e, disk') → disk' = disk.
Proof. unfold write_control. repeat (case_match; try done); by intros [= _ <-]. Qed.

Lemma sanitized_document_settled s v now :
  valid_settings (domain_settings s) → v ≠ 0 →
  settled (mkDocument CONTROL_SCHEMA v now (sanitized_settings s)).
Proof.
  intros Hv Hz. split; cbn [doc_settings]; [|apply sanitized_idemp].
  apply validate_document_ok. cbn [schema doc_version doc_settings]. rewrite domain_sanitized. done.
Qed.

Lemma default_settled now : settled (Document_default now).
Proof.
  split; [|vm_compute; reflexivity].
  assert (validate_document (Document_default 0) = Ok tt) as H by (vm_compute; reflexivity).
  apply validate_document_ok in H. by apply validate_document_ok.
Qed.
End Settles.

(** A control document settles. Reading or creating it either fails and leaves the file as it
    was, or gives a valid document without hidden layers that is then the file's: reading again,
    at any later time, gives the same document and changes nothing. The document is the file's
    own if that had nothing to remove; otherwise it is the file's with the hidden layers gone and
    the version one higher; and without a file it is the default. *)
Theorem control_settles (to_vec_pretty : Document → option bytes) (from_slice : bytes → option Document)
    (json_roundtrip : ∀ d contents,
       validate_document d = Ok tt → to_vec_pretty d = Some contents → from_slice contents = Some d)
    (now later : N) (disk : Disk) :
  match read_or_create_control to_vec_pretty from_slice now disk with
  | (Err _, disk') => disk' = disk
  | (Ok d, disk') =>
      settled d ∧ holds from_slice disk' d ∧
      read_or_create_control to_vec_pretty from_slice later disk' = (Ok d, disk') ∧
      match read_control from_slice disk with
      | Ok before =>
          (sanitized_settings (doc_settings before) = doc_settings before → d = before ∧ disk' = disk) ∧
          (sanitized_settings (doc_settings before) ≠ doc_settings before →
           d = mkDocument CONTROL_SCHEMA (doc_version before + 1) now (sanitized_settings (doc_settings before)))
      | Err _ => file disk = None ∧ d = Document_default now
      end
  end.
Proof.
  assert (∀ disk1 d1 (P : Prop), settled d1 → read_fault disk1 = false → P →
    match (match write_control to_vec_pretty disk1 d1 with (Ok _, disk2) => (Ok d1, disk2) | (Err e, disk2) => (Err e, disk2) end) with
    | (Err _, disk2) => disk2 = disk1
    | (Ok d2, disk2) => settled d2 ∧ holds from_slice disk2 d2 ∧
        read_or_create_control to_vec_pretty from_slice later disk2 = (Ok d2, disk2) ∧ d2 = d1 ∧ P
    end) as Hwrite.
  { intros disk1 d1 P Hs Hr HP. destruct (write_control to_vec_pretty disk1 d1) as [[[]|e] disk2] eqn:Hw.
    - destruct (write_ok _ _ json_roundtrip _ _ _ Hw) as (Hh & _ & Hr2). split; [done|]. split; [done|].
      split; [|done]. apply settled_unchanged; [done|done|congruence].
    - by eapply write_error. }
  unfold read_or_create_control at 1.
  destruct (read_control from_slice disk) as [before|e] eqn:Hread.
  - apply read_holds in Hread as (Hh & Hv & Hr). pose proof Hv as Hv0.
    apply validate_document_ok in Hv as (Hschema & Hver & Hv).
    rewrite (proj2 (to_domain_ok _ _) (conj eq_refl Hv)), from_to_domain, sanitized_eq by done.
    case_bool_decide as Hf; apply settled_filters in Hf as Hf' || rewrite <- settled_filters in Hf.
    + assert (settled before) as Hs by (split; [done|by apply settled_filters]).
      split; [done|]. split; [done|]. split; [by apply settled_unchanged|]. by split.
    + unfold next_document. destruct (checked_add (doc_version before) 1) as [v|] eqn:Hc; [|done].
      apply checked_add_some in Hc as [-> _].
      pose proof (sanitized_document_settled (doc_settings before) (doc_version before + 1) now Hv ltac:(lia)) as Hs.
      cbn [ok_or and_then]. rewrite (proj1 Hs). cbn [and_then].
      pose proof (Hwrite disk _ True Hs Hr I) as Hw.
      destruct (write_control _ _ _) as [[[]|e] disk2]; [|done]. destruct Hw as (? & ? & ? & ? & _). by split_and!.
  - destruct e as [[]| | | | |]; try done.
    assert (file disk = None ∧ read_fault disk = false) as [Hfile Hr].
    { unfold read_control, read_bounded in Hread. destruct (read_fault disk); [done|].
      destruct (file disk) as [contents|]; [|done]. destruct (MAX_CONTROL_BYTES <? len contents); [done|]. cbn in Hread.
      destruct (from_slice contents) as [d|]; [|done]. cbn in Hread. unfold validate_document, to_domain in Hread.
      destruct (negb _); [done|]. destruct (_ =? 0); [done|].
      by destruct (validate (domain_settings (doc_settings d))). }
    pose proof (Hwrite disk _ True (default_settled now) Hr I) as Hw.
    destruct (write_control _ _ _) as [[[]|e] disk2]; [|done]. destruct Hw as (? & ? & ? & ? & _). by split_and!.
Qed.

(** ** Examples *)

(** A JSON library that knows two documents. *)
Definition old_document : Document :=
  mkDocument CONTROL_SCHEMA 7 100
    (ctl.mkSettings true ctl.NorthUp ctl.Locked ctl.MiniMap (f32_lit 92 100) 320 (f32_lit 1 1) ctl.Sixty
       (ctl.mkFilters true true false true ["poi"; "medal"; "tower"] [] false) ControlHotkeyBindings_default).
Definition new_document : Document := mkDocument CONTROL_SCHEMA 8 200 (sanitized_settings (doc_settings old_document)).

#[export] Instance ctl_Settings_eq_dec : EqDecision ctl.Settings.
Proof. solve_decision. Defined.
#[export] Instance Document_eq_dec : EqDecision Document.
Proof. solve_decision. Defined.

Definition parse_two (contents : bytes) : option Document :=
  match contents with [Byte.x01] => Some old_document | [Byte.x02] => Some new_document | _ => None end.
Definition print_two (d : Document) : option bytes :=
  if bool_decide (d = old_document) then Some [Byte.x01]
  else if bool_decide (d = new_document) then Some [Byte.x02] else None.

Lemma two_roundtrip d contents : validate_document d = Ok tt → print_two d = Some contents → parse_two contents = Some d.
Proof. intros _. unfold print_two. case_bool_decide; [by intros [= <-]; subst|]. case_bool_decide; [by intros [= <-]; subst|done]. Qed.

(** The medals are removed, once. *)
Lemma control_settles_witness :
  let disk := mkDisk (Some [Byte.x01]) false false in
  let disk' := mkDisk (Some [Byte.x02]) false false in
  read_or_create_control print_two parse_two 200 disk = (Ok new_document, disk') ∧
  settled new_document ∧ read_or_create_control print_two parse_two 300 disk' = (Ok new_document, disk').
Proof.
  intros disk disk'. pose proof (control_settles print_two parse_two two_roundtrip 200 300 disk) as H.
  assert (read_or_create_control print_two parse_two 200 disk = (Ok new_document, disk')) as E by (vm_compute; reflexivity).
  rewrite E in H. destruct H as (Hs & _ & Hr & _). split; [exact E|]. split; [exact Hs|exact Hr].
Defined.
