(* ===== verification/Orders.v ===== *)
(** * Orders, sorting by a key, sorted sets and sorted maps

    What [sort_by_key], [sort] followed by [dedup], and a [BTreeMap] that sums what it is
    given have in common: their result is determined by the members (and the sums), not by
    the order or the repetition of what went in. Shared by the canonical forms of
    [Canonical] and [CloudProfile]. *)

From S2P Require Import Prelude.

(** ** Total orders as comparison functions *)

Class KeyOrder {K : Type} (cmp : K → K → comparison) : Prop := {
  cmp_eq_iff : ∀ a b, cmp a b = Eq ↔ a = b;
  cmp_opp : ∀ a b, cmp b a = CompOpp (cmp a b);
  cmp_lt_trans : ∀ a b c, cmp a b = Lt → cmp b c = Lt → cmp a c = Lt;
}.

Definition cmp_lt {K} (cmp : K → K → comparison) (a b : K) : Prop := cmp a b = Lt.

(** [Ordering::then_with] and the order of tuples. *)
Definition lex (c d : comparison) : comparison := match c with Eq => d | _ => c end.
Definition pair_cmp {A B} (ca : A → A → comparison) (cb : B → B → comparison) (x y : A * B) : comparison :=
  lex (ca (fst x) (fst y)) (cb (snd x) (snd y)).

(** The lexicographic order of slices. *)
Fixpoint list_cmp {A} (cmp : A → A → comparison) (x y : list A) : comparison :=
  match x, y with
  | [], [] => Eq
  | [], _ :: _ => Lt
  | _ :: _, [] => Gt
  | a :: x, b :: y => lex (cmp a b) (list_cmp cmp x y)
  end.

Definition byte_cmp (a b : Byte.byte) : comparison := N.compare (Byte.to_N a) (Byte.to_N b).
Definition bytes_cmp : bytes → bytes → comparison := list_cmp byte_cmp.

#[export] Instance N_order : KeyOrder N.compare.
Proof.
  split; [apply N.compare_eq_iff|intros; apply N.compare_antisym|].
  intros a b c. rewrite !N.compare_lt_iff. lia.
Qed.

#[export] Instance Z_order : KeyOrder Z.compare.
Proof.
  split; [apply Z.compare_eq_iff|intros; apply Z.compare_antisym|].
  intros a b c. rewrite !Z.compare_lt_iff. lia.
Qed.

#[export] Instance byte_order : KeyOrder byte_cmp.
Proof.
  unfold byte_cmp. split.
  - intros a b. rewrite N.compare_eq_iff. split; [|by intros ->].
    intros H. apply (f_equal Byte.of_N) in H. rewrite !Byte.of_to_N in H. by injection H.
  - intros. apply N.compare_antisym.
  - intros a b c. rewrite !N.compare_lt_iff. lia.
Qed.

Section lexicographic.
Context {A B : Type} (ca : A → A → comparison) (cb : B → B → comparison).
Context `{!KeyOrder ca, !KeyOrder cb}.

Lemma lex_lt c d : lex c d = Lt ↔ c = Lt ∨ c = Eq ∧ d = Lt.
Proof. destruct c, d; simpl; naive_solver. Qed.

Lemma cmp_refl a : ca a a = Eq.
Proof. by apply cmp_eq_iff. Qed.

#[export] Instance pair_order : KeyOrder (pair_cmp ca cb).
Proof.
  unfold pair_cmp. split.
  - intros [a b] [a' b']; simpl. destruct (ca a a') eqn:Ha; simpl.
    + apply cmp_eq_iff in Ha as ->. rewrite cmp_eq_iff. naive_solver.
    + split; [done|]. intros [= -> ->]. by rewrite cmp_refl in Ha.
    + split; [done|]. intros [= -> ->]. by rewrite cmp_refl in Ha.
  - intros [a b] [a' b']; simpl. rewrite (cmp_opp (cmp := ca) a a'), (cmp_opp (cmp := cb) b b').
    by destruct (ca a a').
  - intros [a1 b1] [a2 b2] [a3 b3]; simpl. rewrite !lex_lt.
    intros [H|[H Hb]] [H'|[H' Hb']].
    + left. by eapply cmp_lt_trans.
    + apply cmp_eq_iff in H' as ->. by left.
    + apply cmp_eq_iff in H as ->. by left.
    + apply cmp_eq_iff in H as ->, H' as ->. right. split; [apply cmp_refl|by eapply cmp_lt_trans].
Qed.

#[export] Instance list_order : KeyOrder (list_cmp ca).
Proof.
  split.
  - induction a as [|x a IH]; intros [|y b]; simpl; [done..|].
    destruct (ca x y) eqn:Hxy; simpl.
    + apply cmp_eq_iff in Hxy as ->. rewrite IH. naive_solver.
    + split; [done|]. intros [= -> ->]. by rewrite cmp_refl in Hxy.
    + split; [done|]. intros [= -> ->]. by rewrite cmp_refl in Hxy.
  - induction a as [|x a IH]; intros [|y b]; simpl; [done..|].
    rewrite (cmp_opp (cmp := ca) x y), IH. by destruct (ca x y).
  - induction a as [|x a IH]; intros [|y b] [|z c]; simpl; [done..|].
    rewrite !lex_lt. intros [H|[H Hb]] [H'|[H' Hb']].
    + left. by eapply cmp_lt_trans.
    + apply cmp_eq_iff in H' as ->. by left.
    + apply cmp_eq_iff in H as ->. by left.
    + apply cmp_eq_iff in H as ->, H' as ->. right. split; [apply cmp_refl|by eapply IH].
Qed.
End lexicographic.

#[export] Instance bytes_order : KeyOrder bytes_cmp := list_order byte_cmp.

(** The order of [str] is that of its bytes. *)
Definition str_cmp (s1 s2 : string) : comparison := bytes_cmp (as_bytes s1) (as_bytes s2).

#[export] Instance str_order : KeyOrder str_cmp.
Proof.
  unfold str_cmp. split.
  - intros a b. rewrite cmp_eq_iff. split; [apply as_bytes_inj|by intros ->].
  - intros a b. apply cmp_opp.
  - intros a b c. apply cmp_lt_trans.
Qed.

Lemma list_cmp_app {A} (cmp : A → A → comparison) (x1 x2 y1 y2 : list A) :
  length x1 = length y1 →
  list_cmp cmp (x1 ++ x2) (y1 ++ y2) = lex (list_cmp cmp x1 y1) (list_cmp cmp x2 y2).
Proof.
  revert y1. induction x1 as [|a x1 IH]; intros [|b y1]; simpl; [done..|].
  intros [= Hl]. rewrite IH by done. by destruct (cmp a b).
Qed.

(** ** Sorting by a key *)

(** [sort_by_key]. *)
Definition sort_by_key {A K} (cmp : K → K → comparison) (key : A → K) (l : list A) : list A :=
  sort_by (λ x y, cmp (key x) (key y)) l.

(** Updating every element in place, leaving at the first error. *)
Fixpoint try_map {A B E} (f : A → result B E) (l : list A) : result (list B) E :=
  match l with
  | [] => Ok []
  | x :: l => let? y := f x in let? l' := try_map f l in Ok (y :: l')
  end.

Lemma try_map_ok {A B E} (f : A → result B E) l l' :
  try_map f l = Ok l' ↔ Forall2 (λ x y, f x = Ok y) l l'.
Proof.
  revert l'. induction l as [|x l IH]; intros l'; simpl.
  - split; [by intros [= <-]|by inversion_clear 1].
  - split.
    + intros (y & Hy & (ys & Hys & [= <-])%and_then_ok)%and_then_ok. constructor; [done|by apply IH].
    + inversion_clear 1 as [|? y ? ys Hy Hys]. rewrite Hy. simpl. apply IH in Hys. by rewrite Hys.
Qed.

Lemma try_map_total {A B E} (f : A → result B E) l :
  Forall (λ x, is_ok (f x) = true) l → ∃ l', try_map f l = Ok l'.
Proof.
  induction 1 as [|x l Hx _ [l' IH]]; simpl; [by eexists|].
  destruct (f x); [|done]. simpl. rewrite IH. by eexists.
Qed.

(** Lists that agree up to their order and up to [R] on the elements. *)
Definition perm_rel {A} (R : relation A) (l l' : list A) : Prop :=
  ∃ m m', l ≡ₚ m ∧ Forall2 R m m' ∧ m' ≡ₚ l'.

Section key_sort.
Context {A K : Type} (cmp : K → K → comparison) `{!KeyOrder cmp} (key : A → K).

Lemma sort_by_key_Permutation l : sort_by_key cmp key l ≡ₚ l.
Proof. apply sort_by_Permutation. Qed.

Lemma sort_by_key_le l : Sorted (λ x y, cmp (key x) (key y) ≠ Gt) (sort_by_key cmp key l).
Proof.
  apply sort_by_sorted; [|done]. intros x y Hxy. rewrite (cmp_opp (key x) (key y)), Hxy. done.
Qed.

Lemma cmp_le_trans a b c : cmp a b ≠ Gt → cmp b c ≠ Gt → cmp a c ≠ Gt.
Proof.
  intros Hab Hbc. destruct (cmp a b) eqn:Eab; [| |done].
  { by apply cmp_eq_iff in Eab as ->. }
  destruct (cmp b c) eqn:Ebc; [| |done].
  { apply cmp_eq_iff in Ebc as <-. congruence. }
  rewrite (cmp_lt_trans a b c); done.
Qed.

(** Without repeated keys a sorted list is strictly sorted. *)
Lemma sort_by_key_strict l :
  NoDup (key <$> l) → StronglySorted (cmp_lt cmp) (key <$> sort_by_key cmp key l).
Proof.
  intros Hnd. assert (NoDup (key <$> sort_by_key cmp key l)) as Hnd'
    by (by rewrite sort_by_key_Permutation).
  assert (StronglySorted (λ x y, cmp (key x) (key y) ≠ Gt) (sort_by_key cmp key l)) as Hs.
  { apply Sorted_StronglySorted; [|apply sort_by_key_le].
    intros x y z. apply cmp_le_trans. }
  revert Hnd'. induction Hs as [|x s Hs IH Hx]; simpl; [constructor|].
  intros [Hin Hnd']%NoDup_cons. constructor; [auto|].
  apply Forall_forall. intros k (y & -> & Hy)%list_elem_of_fmap.
  pose proof (proj1 (Forall_forall _ _) Hx y Hy) as Hxy. unfold cmp_lt. simpl in Hxy. destruct (cmp (key x) (key y)) eqn:E; [|done..].
  apply cmp_eq_iff in E. destruct Hin. rewrite E. by apply list_elem_of_fmap_2.
Qed.

Lemma cmp_lt_irrefl a : ¬ cmp_lt cmp a a.
Proof. unfold cmp_lt. by rewrite (proj2 (cmp_eq_iff a a) eq_refl). Qed.

Lemma cmp_lt_asym a b : cmp_lt cmp a b → cmp_lt cmp b a → False.
Proof. unfold cmp_lt. intros H. rewrite (cmp_opp a b), H. done. Qed.

Lemma strict_NoDup (l : list K) : StronglySorted (cmp_lt cmp) l → NoDup l.
Proof.
  induction 1 as [|x l Hl IH Hx]; constructor; [|done].
  intros Hin. apply (cmp_lt_irrefl x), (proj1 (Forall_forall _ _) Hx x Hin).
Qed.

(** Strictly sorted lists with the same members are equal. *)
Lemma strict_unique (k1 k2 : list K) :
  StronglySorted (cmp_lt cmp) k1 → StronglySorted (cmp_lt cmp) k2 → (∀ k, k ∈ k1 ↔ k ∈ k2) → k1 = k2.
Proof.
  intros H1 H2 Hin. apply (StronglySorted_unique_strong (cmp_lt cmp)); [|done..|].
  - intros a b _ _ Hab Hba. by destruct (cmp_lt_asym a b).
  - by apply NoDup_Permutation; [apply strict_NoDup..|].
Qed.

Lemma strict_keys (l : list A) :
  StronglySorted (cmp_lt cmp) (key <$> l) → StronglySorted (λ x y, cmp_lt cmp (key x) (key y)) l.
Proof.
  induction l as [|x l IH]; inversion_clear 1 as [|? ? Hs Hx]; constructor; [auto|].
  exact (proj1 (Forall_fmap key (cmp_lt cmp (key x)) l) Hx).
Qed.

Lemma keyed_unique (l1 l2 : list A) :
  StronglySorted (cmp_lt cmp) (key <$> l1) → StronglySorted (cmp_lt cmp) (key <$> l2) →
  l1 ≡ₚ l2 → l1 = l2.
Proof.
  intros H1%strict_keys H2%strict_keys Hp.
  apply (StronglySorted_unique_strong (λ x y, cmp_lt cmp (key x) (key y))); [|done..].
  intros x y _ _ Hxy Hyx. by destruct (cmp_lt_asym (key x) (key y)).
Qed.

(** What is sorted strictly already is left as it is. *)
Lemma sort_by_key_id l :
  StronglySorted (cmp_lt cmp) (key <$> l) → sort_by_key cmp key l = l.
Proof.
  intros Hs. apply keyed_unique; [|done|apply sort_by_key_Permutation].
  by apply sort_by_key_strict, strict_NoDup.
Qed.

(** ** Canonical lists

    Entries with distinct keys are sorted, then each is brought to a canonical form that
    keeps its key. Two results are equal just if the lists agree up to order and [R]. *)
Context {E : Type} (f : A → result A E) (R : relation A).
Hypothesis f_key : ∀ x y, f x = Ok y → key y = key x.
Hypothesis f_rel : ∀ x y x' y', f x = Ok x' → f y = Ok y' → (x' = y' ↔ R x y).

Lemma try_map_key l l' : try_map f l = Ok l' → key <$> l' = key <$> l.
Proof.
  rewrite try_map_ok. induction 1 as [|x y l l' Hxy _ IH]; [done|].
  rewrite !fmap_cons. by rewrite IH, (f_key _ _ Hxy).
Qed.

Lemma try_map_sorted l l' :
  NoDup (key <$> l) → try_map f (sort_by_key cmp key l) = Ok l' →
  StronglySorted (cmp_lt cmp) (key <$> l').
Proof. intros Hnd H. rewrite (try_map_key _ _ H). by apply sort_by_key_strict. Qed.

Lemma try_map_perm l m l' :
  l ≡ₚ m → try_map f l = Ok l' → ∃ m', try_map f m = Ok m' ∧ l' ≡ₚ m'.
Proof.
  intros Hp H%try_map_ok. setoid_rewrite try_map_ok.
  destruct (Permutation_Forall2 Hp H) as (m' & Hm & Hf). by exists m'.
Qed.

Lemma canonical_list l1 l2 k1 k2 :
  NoDup (key <$> l1) → NoDup (key <$> l2) →
  try_map f (sort_by_key cmp key l1) = Ok k1 → try_map f (sort_by_key cmp key l2) = Ok k2 →
  k1 = k2 ↔ perm_rel R l1 l2.
Proof.
  intros Hn1 Hn2 H1 H2. split.
  - intros ->. exists (sort_by_key cmp key l1), (sort_by_key cmp key l2).
    split; [by rewrite sort_by_key_Permutation|split; [|apply sort_by_key_Permutation]].
    apply try_map_ok in H1, H2. clear Hn1 Hn2. revert H2.
    generalize (sort_by_key cmp key l2) as s2. induction H1 as [|x y s1 ys Hxy _ IH]; intros s2 H2.
    + inversion H2. constructor.
    + inversion_clear H2. constructor; [by eapply f_rel|auto].
  - intros (m & m' & Hm & HR & Hm').
    destruct (try_map_perm (sort_by_key cmp key l1) m k1 ltac:(by rewrite sort_by_key_Permutation) H1) as (n & Hn & Hk1).
    destruct (try_map_perm (sort_by_key cmp key l2) m' k2 ltac:(by rewrite sort_by_key_Permutation) H2) as (n' & Hn' & Hk2).
    assert (n = n') as <-.
    { apply try_map_ok in Hn, Hn'. clear -HR Hn Hn' f_rel. revert n n' Hn Hn'.
      induction HR as [|x y m m' Hxy _ IH]; intros n n'.
      - by inversion_clear 1; inversion_clear 1.
      - inversion_clear 1; inversion_clear 1. f_equal; [by eapply f_rel|auto]. }
    apply keyed_unique; [by apply (try_map_sorted l1)|by apply (try_map_sorted l2)|].
    by rewrite Hk1, Hk2.
Qed.

(** A list related to one whose entries all have a canonical form has one as well. *)
Lemma canonical_list_total l1 l2 k1 :
  (∀ x y x', R x y → f x = Ok x' → ∃ y', f y = Ok y') → perm_rel R l1 l2 →
  try_map f (sort_by_key cmp key l1) = Ok k1 → ∃ k2, try_map f (sort_by_key cmp key l2) = Ok k2.
Proof.
  intros Hf (m & m' & Hm & HR & Hm') H1.
  destruct (try_map_perm (sort_by_key cmp key l1) m k1 ltac:(by rewrite sort_by_key_Permutation) H1) as (n & Hn & _).
  assert (∃ n', try_map f m' = Ok n') as [n' Hn'].
  { apply try_map_ok in Hn. apply try_map_total. clear -HR Hn Hf. revert n Hn.
    induction HR as [|x y m m' Hxy _ IH]; intros n; [constructor|].
    inversion_clear 1 as [|? x' ? n' Hx Hn']. constructor; [|by eapply IH].
    destruct (Hf _ _ _ Hxy Hx) as [y' ->]. done. }
  destruct (try_map_perm m' (sort_by_key cmp key l2) n') as (k2 & Hk2 & _); [|done|by eexists].
  by rewrite sort_by_key_Permutation.
Qed.

(** Canonical forms of canonical lists. *)
Lemma canonical_list_id l k :
  (∀ x y, f x = Ok y → f y = Ok y) → NoDup (key <$> l) →
  try_map f (sort_by_key cmp key l) = Ok k → try_map f (sort_by_key cmp key k) = Ok k.
Proof.
  intros Hf Hnd H. rewrite sort_by_key_id by (by eapply try_map_sorted).
  apply try_map_ok in H. apply try_map_ok. induction H; constructor; eauto.
Qed.
End key_sort.

Lemma perm_rel_eq {A} (l l' : list A) : perm_rel (=) l l' ↔ l ≡ₚ l'.
Proof.
  split.
  - intros (m & m' & -> & ->%list_eq_Forall2 & ->). done.
  - intros H. exists l, l. split; [done|]. split; [by apply list_eq_Forall2|done].
Qed.

(** Entries that have no canonical form of their own. *)
Lemma sorted_unique {A K} (cmp : K → K → comparison) `{!KeyOrder cmp} (key : A → K) l1 l2 :
  NoDup (key <$> l1) → NoDup (key <$> l2) →
  sort_by_key cmp key l1 = sort_by_key cmp key l2 ↔ l1 ≡ₚ l2.
Proof.
  intros H1 H2. rewrite <- perm_rel_eq.
  apply (canonical_list cmp key (λ x, @Ok A unit x) (=)); [naive_solver..| |].
  all: apply try_map_ok; apply Forall2_same_length_lookup_2; [done|naive_solver].
Qed.

(** ** Sorted sets *)

(** [sort] and [dedup]. *)
Definition sort_dedup {K} `{EqDecision K} (cmp : K → K → comparison) (l : list K) : list K :=
  dedup (sort_by cmp l).

Definition same_members {K} (l l' : list K) : Prop := ∀ x, x ∈ l ↔ x ∈ l'.

Section sorted_set.
Context {K : Type} `{EqDecision K} (cmp : K → K → comparison) `{!KeyOrder cmp}.

Lemma elem_of_sort_dedup l x : x ∈ sort_dedup cmp l ↔ x ∈ l.
Proof. unfold sort_dedup. by rewrite elem_of_dedup, elem_of_sort_by. Qed.

#[local] Instance cmp_le_Transitive : Transitive (λ x y, cmp x y ≠ Gt).
Proof. intros x y z. by apply cmp_le_trans. Qed.

#[local] Instance cmp_le_AntiSymm : AntiSymm (=) (λ x y, cmp x y ≠ Gt).
Proof.
  intros x y Hxy Hyx. destruct (cmp x y) eqn:E; [by apply cmp_eq_iff| |done].
  by rewrite (cmp_opp x y), E in Hyx.
Qed.

Lemma sort_dedup_strict l : StronglySorted (cmp_lt cmp) (sort_dedup cmp l).
Proof.
  pose proof (sort_by_key_le cmp id l) as Hle.
  pose proof (NoDup_sorted_dedup (λ x y, cmp x y ≠ Gt) _ Hle) as Hnd.
  apply Sorted_dedup, Sorted_StronglySorted in Hle; [|apply _].
  change (dedup (sort_by_key cmp id l)) with (sort_dedup cmp l) in *.
  revert Hnd. induction Hle as [|x s Hs IH Hx]; [constructor|].
  intros [Hin Hnd]%NoDup_cons. constructor; [auto|]. apply Forall_forall. intros y Hy.
  pose proof (proj1 (Forall_forall _ _) Hx y Hy) as Hxy. simpl in Hxy. unfold cmp_lt.
  destruct (cmp x y) eqn:E; [apply cmp_eq_iff in E; by subst|done..].
Qed.

Lemma sorted_set_unique l l' : sort_dedup cmp l = sort_dedup cmp l' ↔ same_members l l'.
Proof.
  split.
  - intros H x. by rewrite <- (elem_of_sort_dedup l), H, elem_of_sort_dedup.
  - intros H. apply (strict_unique cmp); [apply sort_dedup_strict..|].
    intros x. by rewrite !elem_of_sort_dedup.
Qed.

Lemma sort_dedup_idemp l : sort_dedup cmp (sort_dedup cmp l) = sort_dedup cmp l.
Proof. apply sorted_set_unique. intros x. apply elem_of_sort_dedup. Qed.

Lemma sort_dedup_length l : (length (sort_dedup cmp l) ≤ length l)%nat.
Proof.
  unfold sort_dedup. transitivity (length (sort_by cmp l)).
  - generalize (sort_by cmp l). intros s. induction s as [|x s IH]; simpl; [done|].
    destruct (dedup s); simpl in *; [lia|]. case_bool_decide; simpl; lia.
  - by rewrite sort_by_Permutation.
Qed.
End sorted_set.

(** ** Sorted maps that sum

    [*map.entry(key).or_default()] with [checked_add], for every pair in turn, and the
    iteration over a [BTreeMap] in the order of its keys. [max] is the greatest value of the
    counters' type. *)
Fixpoint add_entry (max : N) (k : string) (n : N) (m : list (string * N)) : option (list (string * N)) :=
  match m with
  | [] => if 0 + n <=? max then Some [(k, 0 + n)] else None
  | (k', v) :: m' =>
      match str_cmp k k' with
      | Lt => if 0 + n <=? max then Some ((k, 0 + n) :: m) else None
      | Eq => if v + n <=? max then Some ((k', v + n) :: m') else None
      | Gt => option_map (cons (k', v)) (add_entry max k n m')
      end
  end.

Definition sum_entries (max : N) (l : list (string * N)) : option (list (string * N)) :=
  foldl (λ m p, m' ← m; add_entry max (fst p) (snd p) m') (Some []) l.

(** The sum of the values under a key. *)
Fixpoint total (k : string) (l : list (string * N)) : N :=
  match l with
  | [] => 0
  | (k', v) :: l => (if bool_decide (k = k') then v else 0) + total k l
  end.

(** Two lists with the same keys and the same sum under each. *)
Definition same_totals (l l' : list (string * N)) : Prop :=
  same_members l.*1 l'.*1 ∧ ∀ k, total k l = total k l'.

(** [m] is the sorted map of the sums of [l]. *)
Definition sums (l m : list (string * N)) : Prop :=
  StronglySorted (cmp_lt str_cmp) m.*1 ∧ ∀ k v, (k, v) ∈ m ↔ k ∈ l.*1 ∧ v = total k l.

Lemma total_app k l1 l2 : total k (l1 ++ l2) = total k l1 + total k l2.
Proof. induction l1 as [|[k' v] l1 IH]; simpl; lia. Qed.

Lemma total_absent k l : k ∉ l.*1 → total k l = 0.
Proof.
  induction l as [|[k' v] l IH]; [done|]. rewrite fmap_cons, not_elem_of_cons. simpl.
  intros [Hk Hl]. rewrite bool_decide_false, IH by done. done.
Qed.

Lemma total_one k k' v : total k [(k', v)] = if bool_decide (k = k') then v else 0.
Proof. simpl. lia. Qed.

Lemma sums_unique l m m' : sums l m → sums l m' → m = m'.
Proof.
  intros [Hs Hm] [Hs' Hm']. apply (keyed_unique str_cmp fst); [done..|].
  assert (∀ m : list (string * N), StronglySorted (cmp_lt str_cmp) m.*1 → NoDup m) as Hnd.
  { intros n Hn. by apply (NoDup_fmap_1 fst), (strict_NoDup str_cmp). }
  apply NoDup_Permutation; [auto..|]. intros [k v]. by rewrite Hm, Hm'.
Qed.

Lemma sums_ext l l' m : same_totals l l' → sums l m → sums l' m.
Proof.
  intros [Hk Ht] [Hs Hm]. split; [done|]. intros k v. by rewrite Hm, (Hk k), Ht.
Qed.

Lemma sums_total l m k : sums l m → total k m = total k l.
Proof.
  intros [Hs Hm]. destruct (decide (k ∈ l.*1)) as [Hin|Hout].
  - assert ((k, total k l) ∈ m) as Hkm by (by apply Hm).
    clear Hm Hin. revert Hs Hkm. generalize (total k l) as v. intros v.
    induction m as [|[k' v'] m IH]; [by rewrite elem_of_nil|].
    rewrite fmap_cons. intros [Hs Hx]%StronglySorted_inv. simpl. rewrite elem_of_cons.
    intros [[= -> ->]|Hin].
    + rewrite bool_decide_true by done. rewrite total_absent; [lia|].
      intros Hin. by apply (cmp_lt_irrefl str_cmp k'), (proj1 (Forall_forall _ _) Hx).
    + rewrite bool_decide_false, IH; [done..|]. intros ->.
      apply (list_elem_of_fmap_2 fst) in Hin.
      by apply (cmp_lt_irrefl str_cmp k'), (proj1 (Forall_forall _ _) Hx).
  - rewrite (total_absent _ l) by done. apply total_absent.
    intros ([k' v] & -> & Hin)%list_elem_of_fmap. apply Hm in Hin. by destruct Hin.
Qed.

Lemma sums_same_totals l m : sums l m → same_totals l m.
Proof.
  intros H. split; [|intros k; symmetry; by apply sums_total]. destruct H as [_ Hm]. intros k. split.
  - intros Hk. assert ((k, total k l) ∈ m) as H by (by apply Hm). by apply (list_elem_of_fmap_2 fst) in H.
  - intros ([k' v] & -> & Hin)%list_elem_of_fmap. apply Hm in Hin. by destruct Hin.
Qed.

#[export] Instance same_totals_equiv : Equivalence same_totals.
Proof.
  split.
  - intros l. by split.
  - intros l l' [Hk Ht]. split; [intros x; by rewrite (Hk x)|intros; by rewrite Ht].
  - intros l1 l2 l3 [Hk Ht] [Hk' Ht']. split; [intros x; by rewrite (Hk x), (Hk' x)|intros; by rewrite Ht, Ht'].
Qed.

(** One more pair. *)
Lemma sorted_absent k (m : list (string * N)) : Forall (cmp_lt str_cmp k) m.*1 → total k m = 0.
Proof.
  intros Hk. apply total_absent. intros Hin.
  by apply (cmp_lt_irrefl str_cmp k), (proj1 (Forall_forall _ _) Hk).
Qed.

Lemma sorted_pair_absent k v (m : list (string * N)) : Forall (cmp_lt str_cmp k) m.*1 → (k, v) ∉ m.
Proof.
  intros Hk Hin%(list_elem_of_fmap_2 fst).
  by apply (cmp_lt_irrefl str_cmp k), (proj1 (Forall_forall _ _) Hk).
Qed.

Lemma add_entry_sorted max k n m :
  StronglySorted (cmp_lt str_cmp) m.*1 →
  match add_entry max k n m with
  | Some m' =>
      total k m + n ≤ max ∧ StronglySorted (cmp_lt str_cmp) m'.*1 ∧
      ∀ k' v, (k', v) ∈ m' ↔ k' = k ∧ v = total k m + n ∨ k' ≠ k ∧ (k', v) ∈ m
  | None => max < total k m + n
  end.
Proof.
  induction m as [|[k0 v0] m IH]; cbn [add_entry].
  - intros _. cbn [total]. destruct (N.leb_spec (0 + n) max); [|done].
    split; [lia|split; [repeat constructor|]]. intros k' v. rewrite list_elem_of_singleton, elem_of_nil.
    naive_solver.
  - rewrite fmap_cons. intros [Hs Hx]%StronglySorted_inv. cbn [total fst] in *.
    destruct (str_cmp k k0) eqn:Hk.
    + apply cmp_eq_iff in Hk as ->. rewrite bool_decide_true, sorted_absent, N.add_0_r by done.
      destruct (N.leb_spec (v0 + n) max); [|done]. split; [done|split; [by constructor|]].
      intros k' v. rewrite !elem_of_cons. split.
      * intros [[= -> ->]|Hin]; [by left|right]. split; [|by right].
        intros ->. by apply (sorted_pair_absent _ _ _ Hx) in Hin.
      * intros [[-> ->]|[Hne [[= -> ->]|Hin]]]; [by left|done|by right].
    + assert (Forall (cmp_lt str_cmp k) (k0 :: m.*1)) as Hall.
      { constructor; [done|]. eapply Forall_impl; [done|]. intros x. by apply (cmp_lt_trans k k0 x). }
      rewrite bool_decide_false, sorted_absent; [|by inversion Hall|].
      2: { intros ->. by apply (cmp_lt_irrefl str_cmp k0). }
      destruct (N.leb_spec (0 + n) max); [|done]. split; [done|split].
      { constructor; [by constructor|done]. }
      intros k' v. rewrite (elem_of_cons ((k0, v0) :: m)). split.
      * intros [[= -> ->]|Hin]; [by left|right]. split; [|done]. intros ->.
        by apply (sorted_pair_absent k v ((k0, v0) :: m) Hall) in Hin.
      * intros [[-> ->]|[_ Hin]]; [by left|by right].
    + assert (k ≠ k0) as Hne by (intros ->; by rewrite (proj2 (cmp_eq_iff k0 k0) eq_refl) in Hk).
      rewrite bool_decide_false by done. specialize (IH Hs).
      destruct (add_entry max k n m) as [m'|]; cbn [option_map]; [|done].
      destruct IH as (Hle & Hs' & Hm'). split; [done|split].
      * constructor; [done|]. apply Forall_forall. intros x ([k' v] & -> & Hin)%list_elem_of_fmap.
        apply Hm' in Hin as [[-> _]|[_ Hin]].
        { unfold cmp_lt. by rewrite (cmp_opp k k0), Hk. }
        apply (proj1 (Forall_forall _ _) Hx), (list_elem_of_fmap_2 fst _ _ Hin).
      * intros k' v. rewrite !elem_of_cons, Hm'. naive_solver.
Qed.

Lemma add_entry_sums max k n l m :
  sums l m →
  match add_entry max k n m with
  | Some m' => total k l + n ≤ max ∧ sums (l ++ [(k, n)]) m'
  | None => max < total k l + n
  end.
Proof.
  intros H. pose proof (sums_total _ _ k H) as Ht. destruct H as [Hs Hm].
  pose proof (add_entry_sorted max k n m Hs) as Ha. rewrite Ht in Ha.
  destruct (add_entry max k n m) as [m'|]; [|done]. destruct Ha as (Hle & Hs' & Hm').
  split; [done|]. split; [done|]. intros k' v.
  rewrite Hm', Hm, total_app, total_one, fmap_app, elem_of_app.
  change ([(k, n)].*1) with [k]. rewrite list_elem_of_singleton.
  destruct (decide (k' = k)) as [->|Hne].
  - rewrite bool_decide_true by done. naive_solver.
  - rewrite bool_decide_false, N.add_0_r by done. naive_solver.
Qed.

(** The map exists just if no sum overflows, and is the map of the sums. *)
Lemma sum_entries_spec max l :
  match sum_entries max l with
  | Some m => (∀ k, total k l ≤ max) ∧ sums l m
  | None => ∃ k, max < total k l
  end.
Proof.
  unfold sum_entries. induction l as [|[k n] l IH] using rev_ind; cbn [foldl].
  - split; [intros; simpl; lia|]. split; [constructor|]. intros k v. rewrite !elem_of_nil. naive_solver.
  - rewrite foldl_app. cbn [foldl]. destruct (foldl _ (Some []) l) as [m|]; cbn [mbind option_bind].
    + destruct IH as [Hle Hm]. pose proof (add_entry_sums max k n l m Hm) as Ha. cbn [fst snd].
      destruct (add_entry max k n m) as [m'|].
      * destruct Ha as [Hk Hm']. split; [|done]. intros k'. rewrite total_app, total_one.
        case_bool_decide; [by subst|]. specialize (Hle k'). lia.
      * exists k. rewrite total_app, total_one, bool_decide_true by done. done.
    + destruct IH as [k' Hk']. exists k'. rewrite total_app. lia.
Qed.

Lemma sum_entries_unique max l l' m m' :
  sum_entries max l = Some m → sum_entries max l' = Some m' → (m = m' ↔ same_totals l l').
Proof.
  intros H H'. pose proof (sum_entries_spec max l) as Hl. pose proof (sum_entries_spec max l') as Hl'.
  rewrite H in Hl. rewrite H' in Hl'. destruct Hl as [_ Hl], Hl' as [_ Hl']. split.
  - intros ->. transitivity m'; [by apply sums_same_totals|]. symmetry. by apply sums_same_totals.
  - intros Hsame. eapply sums_unique; [by eapply sums_ext|done].
Qed.

Lemma sum_entries_total max l l' m :
  same_totals l l' → sum_entries max l = Some m → sum_entries max l' = Some m.
Proof.
  intros Hsame H. pose proof (sum_entries_spec max l) as Hl. rewrite H in Hl. destruct Hl as [Hle Hm].
  pose proof (sum_entries_spec max l') as Hl'. destruct (sum_entries max l') as [m'|].
  - destruct Hl' as [_ Hm']. f_equal. symmetry. eapply sums_unique; [by eapply sums_ext|done].
  - destruct Hl' as [k Hk]. destruct Hsame as [_ Ht]. specialize (Hle k). rewrite Ht in Hle. lia.
Qed.

Lemma sum_entries_idemp max l m : sum_entries max l = Some m → sum_entries max m = Some m.
Proof.
  intros H. apply (sum_entries_total max l); [|done].
  pose proof (sum_entries_spec max l) as Hl. rewrite H in Hl.
  destruct Hl as [_ Hl]. by apply sums_same_totals.
Qed.

#[export] Instance perm_rel_sym {A} (R : relation A) `{!Symmetric R} : Symmetric (perm_rel R).
Proof.
  intros l l' (m & m' & H1 & H2 & H3). exists m', m. split; [done|split; [|done]].
  clear -H2 Symmetric0. induction H2; constructor; [by symmetry|done].
Qed.

#[export] Instance same_members_sym {K} : Symmetric (@same_members K).
Proof. intros l l' H x. by rewrite (H x). Qed.
