(* ===== verification/Canonical.v ===== *)
(** * Canonical snapshots

    Models the first half of [crates/pal-wire/src/canonical.rs]: what a personal snapshot must
    satisfy, the canonical form its identity is a digest of, and the helpers that the cloud
    profile of [CloudProfile] shares. The messages are those of the schemas under
    [src/proto/palcompanion/v2]; their protobuf encoding is the class [Message], SHA-256 is a
    parameter. *)

From S2P Require Import Prelude Orders.

(** ** Limits *)

Definition MAX_PROJECTION_PAGE_ENTRIES : N := 250.
Definition MAX_PROJECTION_PAGE_ENCODED_LEN : N := 4194304.
Definition MAX_PROJECTION_PAGE_COUNT : N := 2048.
Definition MAX_CANONICAL_CONTENT_LEN : N := 134217728.
Definition MAX_INVENTORY_ENTRIES : N := 100000.
Definition MAX_EQUIPMENT_ENTRIES : N := 256.
Definition MAX_PAL_ENTRIES : N := 10000.
Definition MAX_PASSIVE_IDS_PER_PAL : N := 64.
Definition MAX_ACTIVE_SKILL_IDS_PER_PAL : N := 256.
Definition MAX_LEARNED_SKILL_IDS_PER_PAL : N := 256.
Definition MAX_BASE_ENTRIES : N := 256.
Definition MAX_FACILITIES_PER_BASE : N := 4096.
Definition MAX_FACILITIES_TOTAL : N := 100000.
Definition MAX_ASSIGNED_PALS_TOTAL : N := 10000.
Definition MAX_STORAGE_ITEMS_PER_BASE : N := 8192.
Definition MAX_STORAGE_ITEMS_TOTAL : N := 100000.
Definition MAX_PROGRESSION_ENTRIES : N := 250000.

(** ** Enumerations of the schema

    An enumeration is an [i32] in a message; [try_from] knows the numbers the schema lists. *)

Definition enum_at {A} (all : list A) (value : Z) : option A :=
  if (value <? 0)%Z then None else all !! Z.to_nat value.

Module SnapshotCompleteness.
Inductive t := Unspecified | Complete | Partial | Unavailable | Unknown.
Definition all : list t :=
  [Unspecified; Complete; Partial; Unavailable; Unknown].
Definition try_from (value : Z) : option t := enum_at all value.
End SnapshotCompleteness.
#[export] Instance SnapshotCompleteness_eq_dec : EqDecision SnapshotCompleteness.t.
Proof. solve_decision. Defined.

Module SnapshotSectionKind.
Inductive t := Unspecified | Character | Inventory | Equipment | Pals | Bases | Progression.
Definition all : list t :=
  [Unspecified; Character; Inventory; Equipment; Pals; Bases; Progression].
Definition as_i32 (kind : t) : Z :=
  match kind with
  | Unspecified => 0 | Character => 1 | Inventory => 2 | Equipment => 3 | Pals => 4 | Bases => 5 | Progression => 6
  end.
Definition try_from (value : Z) : option t := enum_at all value.
End SnapshotSectionKind.
#[export] Instance SnapshotSectionKind_eq_dec : EqDecision SnapshotSectionKind.t.
Proof. solve_decision. Defined.

Module ProjectionSectionKind.
Inductive t := Unspecified | Character | Inventory | Equipment | Pals | Bases | Progression.
Definition all : list t :=
  [Unspecified; Character; Inventory; Equipment; Pals; Bases; Progression].
Definition as_i32 (kind : t) : Z :=
  match kind with
  | Unspecified => 0 | Character => 1 | Inventory => 2 | Equipment => 3 | Pals => 4 | Bases => 5 | Progression => 6
  end.
Definition try_from (value : Z) : option t := enum_at all value.
End ProjectionSectionKind.
#[export] Instance ProjectionSectionKind_eq_dec : EqDecision ProjectionSectionKind.t.
Proof. solve_decision. Defined.

Module InventoryContainerKind.
Inductive t := Unspecified | Character | Paldeck | Base.
Definition all : list t :=
  [Unspecified; Character; Paldeck; Base].
Definition try_from (value : Z) : option t := enum_at all value.
End InventoryContainerKind.
#[export] Instance InventoryContainerKind_eq_dec : EqDecision InventoryContainerKind.t.
Proof. solve_decision. Defined.

Module EquipmentSlotKind.
Inductive t := Unspecified | Weapon | Helmet | Armor | Glider | Accessory.
Definition all : list t :=
  [Unspecified; Weapon; Helmet; Armor; Glider; Accessory].
Definition try_from (value : Z) : option t := enum_at all value.
End EquipmentSlotKind.
#[export] Instance EquipmentSlotKind_eq_dec : EqDecision EquipmentSlotKind.t.
Proof. solve_decision. Defined.

Module PalContainerKind.
Inductive t := Unspecified | Party | Palbox | Base | ViewingCage.
Definition all : list t :=
  [Unspecified; Party; Palbox; Base; ViewingCage].
Definition as_i32 (kind : t) : Z :=
  match kind with
  | Unspecified => 0 | Party => 1 | Palbox => 2 | Base => 3 | ViewingCage => 4
  end.
Definition try_from (value : Z) : option t := enum_at all value.
End PalContainerKind.
#[export] Instance PalContainerKind_eq_dec : EqDecision PalContainerKind.t.
Proof. solve_decision. Defined.

(** ** Messages of the schema *)

(** [prost::Message]: what the code uses of the generated encoders. [encoded_len] is
    documented as the length of the encoding. *)
Class Message (M : Type) := {
  encode_to_vec : M → bytes;
  encoded_len : M → N;
  encoded_len_exact : ∀ m, encoded_len m = len (encode_to_vec m);
}.

Module PalLocation.
Record t := mk {
  container_kind : Z;
  container_ordinal : N;
  slot_index : N;
  base_id : option bytes;
}.
End PalLocation.

Module CharacterProfile.
Record t := mk {
  level : N;
  experience : N;
  allocated_hp : N;
  allocated_stamina : N;
  allocated_attack : N;
  allocated_defense : N;
  allocated_work_speed : N;
  allocated_carry_weight : N;
  technology_points : N;
  ancient_technology_points : N;
  world_subject_id : option bytes;
  player_subject_id : option bytes;
}.
End CharacterProfile.

Module InventorySlot.
Record t := mk {
  container_kind : Z;
  container_ordinal : N;
  slot_index : N;
  item_id : string;
  quantity : N;
  durability : option N;
  rarity : option N;
}.
End InventorySlot.

Module EquipmentSlot.
Record t := mk {
  slot_kind : Z;
  slot_index : N;
  item_id : string;
  durability : option N;
  rarity : option N;
  ammunition : option N;
}.
End EquipmentSlot.

Module OwnedPal.
Record t := mk {
  instance_id : bytes;
  species_id : string;
  container_ordinal : N;
  level : N;
  iv_hp : option N;
  iv_attack : option N;
  iv_defense : option N;
  passive_ids : list string;
  active_skill_ids : list string;
  location : option PalLocation.t;
  gender : option string;
  condensation_rank : N;
  learned_skill_ids : list string;
  soul_hp : N;
  soul_attack : N;
  soul_defense : N;
  soul_work_speed : N;
  trust : N;
  is_lucky : bool;
  is_boss : bool;
  is_alpha : bool;
  is_awakened : bool;
  is_mutated : bool;
  slot_index : N;
  base_id : option bytes;
}.
#[export] Instance eta_t : Eta t := λ r,
  mk (instance_id r) (species_id r) (container_ordinal r) (level r) (iv_hp r) (iv_attack r) (iv_defense r) (passive_ids r) (active_skill_ids r) (location r) (gender r) (condensation_rank r) (learned_skill_ids r) (soul_hp r) (soul_attack r) (soul_defense r) (soul_work_speed r) (trust r) (is_lucky r) (is_boss r) (is_alpha r) (is_awakened r) (is_mutated r) (slot_index r) (base_id r).
End OwnedPal.
#[export] Existing Instance OwnedPal.eta_t.

Module BaseFacility.
Record t := mk {
  building_id : string;
  count : N;
}.
End BaseFacility.

Module BaseStorageItem.
Record t := mk {
  item_id : string;
  quantity : N;
}.
End BaseStorageItem.

Module BaseSnapshot.
Record t := mk {
  base_id : bytes;
  location_id : string;
  level : N;
  facilities : list BaseFacility.t;
  assigned_pal_instance_ids : list bytes;
  storage_items : list BaseStorageItem.t;
}.
#[export] Instance eta_t : Eta t := λ r,
  mk (base_id r) (location_id r) (level r) (facilities r) (assigned_pal_instance_ids r) (storage_items r).
End BaseSnapshot.
#[export] Existing Instance BaseSnapshot.eta_t.

Module ProgressionSnapshot.
Record t := mk {
  technology_ids : list string;
  fast_travel_ids : list string;
  tower_ids : list string;
  boss_ids : list string;
  mission_ids : list string;
  paldex_capture_ids : list string;
  map_region_ids : list string;
  collectible_ids : list string;
  base_research_ids : list string;
}.
#[export] Instance eta_t : Eta t := λ r,
  mk (technology_ids r) (fast_travel_ids r) (tower_ids r) (boss_ids r) (mission_ids r) (paldex_capture_ids r) (map_region_ids r) (collectible_ids r) (base_research_ids r).
End ProgressionSnapshot.
#[export] Existing Instance ProgressionSnapshot.eta_t.

Module SnapshotSectionState.
Record t := mk {
  section : Z;
  completeness : Z;
  expected_record_count : N;
  observed_record_count : N;
}.
End SnapshotSectionState.

Module PersonalSnapshotContent.
Record t := mk {
  schema_major : N;
  game_build_id : string;
  dataset_manifest_id : bytes;
  world_id : string;
  owner_subject_id : bytes;
  completeness : Z;
  character : option CharacterProfile.t;
  inventory : list InventorySlot.t;
  equipment : list EquipmentSlot.t;
  pals : list OwnedPal.t;
  bases : list BaseSnapshot.t;
  progression : option ProgressionSnapshot.t;
  section_states : list SnapshotSectionState.t;
}.
#[export] Instance eta_t : Eta t := λ r,
  mk (schema_major r) (game_build_id r) (dataset_manifest_id r) (world_id r) (owner_subject_id r) (completeness r) (character r) (inventory r) (equipment r) (pals r) (bases r) (progression r) (section_states r).
End PersonalSnapshotContent.
#[export] Existing Instance PersonalSnapshotContent.eta_t.

(** ** Errors *)

Inductive CanonicalError :=
| MissingField (field : string)
| InvalidLength (field : string) (expected actual : N)
| InvalidTextId (field : string)
| InvalidEnum (field : string) (value : Z)
| InvalidValue (field reason : string)
| TooManyEntries (field : string) (maximum actual : N)
| DuplicateSemanticKey (field : string) (stable_key : bytes)
| IntegerOverflow (field : string)
| ContentTooLarge (encoded_length maximum : N)
| ProjectionEntryTooLarge (section : ProjectionSectionKind.t) (stable_key : bytes) (encoded_length : N)
| TooManyProjectionPages (actual maximum : N)
| ProjectionTransportTooLarge (encoded_length maximum : N).

(** ** Helpers *)

Definition required {T} (value : option T) (field : string) : result T CanonicalError :=
  ok_or value (MissingField field).

Definition validate_len (field : string) (value : bytes) (expected : N) : result unit CanonicalError :=
  if len value =? expected then Ok tt else Err (InvalidLength field expected (len value)).

(** [str::trim]: the encodings of the characters with the property White_Space, of which no
    one is a suffix of another. *)
Definition white_space : list (list N) :=
  map (λ c, [c]) [9; 10; 11; 12; 13; 32] ++ [[194; 133]; [194; 160]; [225; 154; 128]]
  ++ map (λ c, [226; 128; c]) [128; 129; 130; 131; 132; 133; 134; 135; 136; 137; 138; 168; 169; 175]
  ++ [[226; 129; 159]; [227; 128; 128]].

Fixpoint strip_first (p bs : list N) : option (list N) :=
  match p, bs with
  | [], _ => Some bs
  | c :: p, b :: bs => if c =? b then strip_first p bs else None
  | _ :: _, [] => None
  end.

Fixpoint strip_all (fuel : nat) (ps : list (list N)) (bs : list N) : list N :=
  match fuel with
  | O => bs
  | S fuel =>
      match list_find is_Some (map (λ p, strip_first p bs) ps) with
      | Some (_, Some rest) => strip_all fuel ps rest
      | _ => bs
      end
  end.

Definition trim_bytes (bs : list N) : list N :=
  let bs := strip_all (length bs) white_space bs in
  reverse (strip_all (length bs) (map reverse white_space) (reverse bs)).

Definition is_id_byte (b : N) : bool :=
  is_ascii_alphanumeric b || (b =? 95) || (b =? 45) || (b =? 46) || (b =? 58).

Definition validate_text_id (field value : string) : result unit CanonicalError :=
  if str_is_empty value || (128 <? str_len value)
     || negb (bool_decide (trim_bytes (str_bytes value) = str_bytes value))
     || negb (str_is_ascii value) || negb (str_all is_id_byte value)
  then Err (InvalidTextId field) else Ok tt.

Definition validate_text_ids (field : string) (values : list string) : result unit CanonicalError :=
  try_for_each (validate_text_id field) values.

Definition check_count (field : string) (actual maximum : N) : result unit CanonicalError :=
  if actual <=? maximum then Ok tt else Err (TooManyEntries field maximum actual).

Definition check_content_length (encoded_length : N) : result unit CanonicalError :=
  if encoded_length <=? MAX_CANONICAL_CONTENT_LEN then Ok tt
  else Err (ContentTooLarge encoded_length MAX_CANONICAL_CONTENT_LEN).

(** The [BTreeSet]s of keys are only inserted into: the set is the list of its members. *)
Definition reject_duplicate (keys : list bytes) (field : string) (stable_key : bytes) :
    result (list bytes) CanonicalError :=
  if contains keys stable_key then Err (DuplicateSemanticKey field stable_key) else Ok (stable_key :: keys).

Definition sort_dedup_strings (values : list string) : list string := sort_dedup str_cmp values.

(** [value as u32] and [to_be_bytes]. *)
Definition i32_as_u32 (value : Z) : N := Z.to_N (value mod 4294967296).
Definition u32_be (value : N) : bytes := be_bytes 4 value.

Definition inventory_key (container_kind : Z) (container_ordinal slot_index : N) : bytes :=
  u32_be (i32_as_u32 container_kind) ++ u32_be container_ordinal ++ u32_be slot_index.

Definition equipment_key (slot_kind : Z) (slot_index : N) : bytes :=
  u32_be (i32_as_u32 slot_kind) ++ u32_be slot_index.

Definition pal_location_key (container_kind : Z) (container_ordinal slot_index : N)
    (base_id : option bytes) : bytes :=
  u32_be (i32_as_u32 container_kind) ++ u32_be container_ordinal ++ u32_be slot_index
  ++ match base_id with Some value => Byte.x01 :: value | None => [Byte.x00] end.

Definition progression_key (kind : Z) (unlock_id : string) : bytes :=
  u32_be (i32_as_u32 kind) ++ Byte.x00 :: as_bytes unlock_id.

Definition validate_base_location (field : string) (container_kind : Z) (base_id : option bytes) :
    result unit CanonicalError :=
  if (container_kind =? PalContainerKind.as_i32 PalContainerKind.Base)%Z then
    let? base_id := ok_or base_id (MissingField field) in
    validate_len field base_id 16
  else if is_some base_id then
    Err (InvalidValue field "base_id is allowed only for a base-assigned Pal")
  else Ok tt.

Definition nonzero_enum {T} (field : string) (value : Z) (parse : Z → option T) : result T CanonicalError :=
  if (value =? 0)%Z then Err (InvalidEnum field value)
  else ok_or (parse value) (InvalidEnum field value).

Definition snapshot_completeness (field : string) (value : Z) := nonzero_enum field value SnapshotCompleteness.try_from.
Definition snapshot_section_kind (field : string) (value : Z) := nonzero_enum field value SnapshotSectionKind.try_from.
Definition inventory_container_kind (field : string) (value : Z) := nonzero_enum field value InventoryContainerKind.try_from.
Definition equipment_slot_kind (field : string) (value : Z) := nonzero_enum field value EquipmentSlotKind.try_from.
Definition pal_container_kind (field : string) (value : Z) := nonzero_enum field value PalContainerKind.try_from.

(** A loop with a state, left at the first error. *)
Fixpoint try_fold {S A E} (f : S → A → result S E) (s : S) (l : list A) : result S E :=
  match l with
  | [] => Ok s
  | x :: l => let? s := f s x in try_fold f s l
  end.

(** ** Validation of a snapshot *)

Definition validate_inventory_slot (keys : list bytes) (slot : InventorySlot.t) : result (list bytes) CanonicalError :=
  let? _ := inventory_container_kind "inventory.container_kind" (InventorySlot.container_kind slot) in
  let? _ := validate_text_id "inventory.item_id" (InventorySlot.item_id slot) in
  reject_duplicate keys "inventory"
    (inventory_key (InventorySlot.container_kind slot) (InventorySlot.container_ordinal slot) (InventorySlot.slot_index slot)).

Definition validate_equipment_slot (keys : list bytes) (slot : EquipmentSlot.t) : result (list bytes) CanonicalError :=
  let? _ := equipment_slot_kind "equipment.slot_kind" (EquipmentSlot.slot_kind slot) in
  let? _ := validate_text_id "equipment.item_id" (EquipmentSlot.item_id slot) in
  reject_duplicate keys "equipment" (equipment_key (EquipmentSlot.slot_kind slot) (EquipmentSlot.slot_index slot)).

Definition validate_pal (sets : list bytes * list bytes) (pal : OwnedPal.t) :
    result (list bytes * list bytes) CanonicalError :=
  let (pal_ids, pal_locations) := sets in
  let? _ := validate_len "pals.instance_id" (OwnedPal.instance_id pal) 16 in
  let? _ := validate_text_id "pals.species_id" (OwnedPal.species_id pal) in
  let? _ := check_count "pals.passive_ids" (len (OwnedPal.passive_ids pal)) MAX_PASSIVE_IDS_PER_PAL in
  let? _ := check_count "pals.active_skill_ids" (len (OwnedPal.active_skill_ids pal)) MAX_ACTIVE_SKILL_IDS_PER_PAL in
  let? _ := validate_text_ids "pals.passive_ids" (OwnedPal.passive_ids pal) in
  let? _ := validate_text_ids "pals.active_skill_ids" (OwnedPal.active_skill_ids pal) in
  let? _ := if is_some_and (OwnedPal.gender pal) (λ gender, negb (contains ["male"; "female"; "genderless"]%string gender))
            then Err (InvalidValue "pals.gender" "expected male, female, or genderless") else Ok tt in
  let? pal_ids := reject_duplicate pal_ids "pals.instance_id" (OwnedPal.instance_id pal) in
  let? location := ok_or (OwnedPal.location pal) (MissingField "pals.location") in
  let? _ := pal_container_kind "pals.location.container_kind" (PalLocation.container_kind location) in
  let? _ := validate_base_location "pals.location.base_id" (PalLocation.container_kind location) (PalLocation.base_id location) in
  let? pal_locations := reject_duplicate pal_locations "pals.location"
    (pal_location_key (PalLocation.container_kind location) (PalLocation.container_ordinal location)
       (PalLocation.slot_index location) (PalLocation.base_id location)) in
  Ok (pal_ids, pal_locations).

Definition validate_snapshot_base (base : BaseSnapshot.t) : result unit CanonicalError :=
  let? _ := validate_len "bases.base_id" (BaseSnapshot.base_id base) 16 in
  let? _ := validate_text_id "bases.location_id" (BaseSnapshot.location_id base) in
  let? _ := try_for_each (λ facility,
      let? _ := validate_text_id "bases.facilities.building_id" (BaseFacility.building_id facility) in
      if BaseFacility.count facility =? 0 then Err (InvalidValue "bases.facilities.count" "count must be positive")
      else Ok tt) (BaseSnapshot.facilities base) in
  let? _ := try_for_each (λ assigned, validate_len "bases.assigned_pal_instance_ids" assigned 16)
      (BaseSnapshot.assigned_pal_instance_ids base) in
  try_for_each (λ item,
      let? _ := validate_text_id "bases.storage_items.item_id" (BaseStorageItem.item_id item) in
      if BaseStorageItem.quantity item =? 0 then Err (InvalidValue "bases.storage_items.quantity" "quantity must be positive")
      else Ok tt) (BaseSnapshot.storage_items base).

Definition validate_base (base_ids : list bytes) (base : BaseSnapshot.t) : result (list bytes) CanonicalError :=
  let? _ := validate_snapshot_base base in
  reject_duplicate base_ids "bases.base_id" (BaseSnapshot.base_id base).

Definition progression_ids (p : ProgressionSnapshot.t) : list (string * list string) :=
  [ ("progression.technology_ids", ProgressionSnapshot.technology_ids p);
    ("progression.fast_travel_ids", ProgressionSnapshot.fast_travel_ids p);
    ("progression.tower_ids", ProgressionSnapshot.tower_ids p);
    ("progression.boss_ids", ProgressionSnapshot.boss_ids p);
    ("progression.mission_ids", ProgressionSnapshot.mission_ids p);
    ("progression.paldex_capture_ids", ProgressionSnapshot.paldex_capture_ids p);
    ("progression.map_region_ids", ProgressionSnapshot.map_region_ids p);
    ("progression.collectible_ids", ProgressionSnapshot.collectible_ids p);
    ("progression.base_research_ids", ProgressionSnapshot.base_research_ids p) ]%string.

Definition snapshot_section_has_content (content : PersonalSnapshotContent.t) (section : SnapshotSectionKind.t) : bool :=
  match section with
  | SnapshotSectionKind.Character => is_some (PersonalSnapshotContent.character content)
  | SnapshotSectionKind.Inventory => negb (is_empty (PersonalSnapshotContent.inventory content))
  | SnapshotSectionKind.Equipment => negb (is_empty (PersonalSnapshotContent.equipment content))
  | SnapshotSectionKind.Pals => negb (is_empty (PersonalSnapshotContent.pals content))
  | SnapshotSectionKind.Bases => negb (is_empty (PersonalSnapshotContent.bases content))
  | SnapshotSectionKind.Progression => is_some (PersonalSnapshotContent.progression content)
  | SnapshotSectionKind.Unspecified => false
  end.

Definition validate_snapshot_counts (completeness : SnapshotCompleteness.t) (expected observed : N) :
    result unit CanonicalError :=
  let valid := match completeness with
    | SnapshotCompleteness.Complete => expected =? observed
    | SnapshotCompleteness.Partial => (0 <? expected) && (observed <=? expected)
    | SnapshotCompleteness.Unavailable => (expected =? 0) && (observed =? 0)
    | SnapshotCompleteness.Unknown => expected =? 0
    | SnapshotCompleteness.Unspecified => false
    end in
  if valid then Ok tt
  else Err (InvalidValue "section_states" "section counts do not match completeness semantics").

(** One turn of the loop over the section states: the sections seen and their completeness. *)
Definition validate_section_state (content : PersonalSnapshotContent.t)
    (acc : list Z * list SnapshotCompleteness.t) (state : SnapshotSectionState.t) :
    result (list Z * list SnapshotCompleteness.t) CanonicalError :=
  let (sections, states) := acc in
  let? section := snapshot_section_kind "section_states.section" (SnapshotSectionState.section state) in
  let? completeness := snapshot_completeness "section_states.completeness" (SnapshotSectionState.completeness state) in
  let? _ := validate_snapshot_counts completeness (SnapshotSectionState.expected_record_count state)
              (SnapshotSectionState.observed_record_count state) in
  let number := SnapshotSectionKind.as_i32 section in
  if contains sections number then
    Err (DuplicateSemanticKey "section_states.section" (u32_be (i32_as_u32 number)))
  else if bool_decide (completeness = SnapshotCompleteness.Unavailable) && snapshot_section_has_content content section then
    Err (InvalidValue "section_states.completeness" "unavailable sections must contain no entries")
  else Ok (number :: sections, states ++ [completeness]).

Definition derived_completeness (states : list SnapshotCompleteness.t) : SnapshotCompleteness.t :=
  if forallb (λ state, bool_decide (state = SnapshotCompleteness.Unavailable)) states then SnapshotCompleteness.Unavailable
  else if contains states SnapshotCompleteness.Unknown then SnapshotCompleteness.Unknown
  else if forallb (λ state, bool_decide (state = SnapshotCompleteness.Complete)) states then SnapshotCompleteness.Complete
  else SnapshotCompleteness.Partial.

Definition expected_sections : list Z := [1; 2; 3; 4; 5; 6]%Z.

Definition validate_snapshot_section_states (content : PersonalSnapshotContent.t) (overall : SnapshotCompleteness.t) :
    result unit CanonicalError :=
  if negb (len (PersonalSnapshotContent.section_states content) =? 6) then
    Err (InvalidValue "section_states" "exactly six section states are required")
  else
    let? '(sections, states) := try_fold (validate_section_state content) ([], [])
                                  (PersonalSnapshotContent.section_states content) in
    if negb (bool_decide (sort_dedup Z.compare sections = expected_sections)) then
      Err (InvalidValue "section_states.section" "all six non-zero section kinds are required")
    else if negb (bool_decide (overall = derived_completeness states)) then
      Err (InvalidValue "completeness" "overall completeness does not match the six section states")
    else Ok tt.

Definition validate_snapshot (content : PersonalSnapshotContent.t) : result unit CanonicalError :=
  if negb (PersonalSnapshotContent.schema_major content =? 1) then
    Err (InvalidValue "schema_major" "expected schema major 1")
  else
    let? _ := validate_text_id "game_build_id" (PersonalSnapshotContent.game_build_id content) in
    let? _ := validate_len "dataset_manifest_id" (PersonalSnapshotContent.dataset_manifest_id content) 32 in
    let? _ := validate_text_id "world_id" (PersonalSnapshotContent.world_id content) in
    let? _ := validate_len "owner_subject_id" (PersonalSnapshotContent.owner_subject_id content) 32 in
    let? overall := snapshot_completeness "completeness" (PersonalSnapshotContent.completeness content) in
    let? _ := check_count "inventory" (len (PersonalSnapshotContent.inventory content)) MAX_INVENTORY_ENTRIES in
    let? _ := check_count "equipment" (len (PersonalSnapshotContent.equipment content)) MAX_EQUIPMENT_ENTRIES in
    let? _ := check_count "pals" (len (PersonalSnapshotContent.pals content)) MAX_PAL_ENTRIES in
    let? _ := check_count "bases" (len (PersonalSnapshotContent.bases content)) MAX_BASE_ENTRIES in
    let? _ := try_fold validate_inventory_slot [] (PersonalSnapshotContent.inventory content) in
    let? _ := try_fold validate_equipment_slot [] (PersonalSnapshotContent.equipment content) in
    let? _ := try_fold validate_pal ([], []) (PersonalSnapshotContent.pals content) in
    let? _ := try_fold validate_base [] (PersonalSnapshotContent.bases content) in
    let? _ := match PersonalSnapshotContent.progression content with
              | Some progression => try_for_each (λ p, validate_text_ids (fst p) (snd p)) (progression_ids progression)
              | None => Ok tt
              end in
    validate_snapshot_section_states content overall.

(** ** The canonical form *)

Definition facility_entry (facility : BaseFacility.t) : string * N :=
  (BaseFacility.building_id facility, BaseFacility.count facility).
Definition storage_entry (item : BaseStorageItem.t) : string * N :=
  (BaseStorageItem.item_id item, BaseStorageItem.quantity item).

Definition canonicalize_snapshot_base (base : BaseSnapshot.t) : result BaseSnapshot.t CanonicalError :=
  let? facilities := ok_or (sum_entries u32_max (map facility_entry (BaseSnapshot.facilities base)))
                       (IntegerOverflow "bases.facilities.count") in
  let base := base <| BaseSnapshot.facilities := map (λ e, BaseFacility.mk (fst e) (snd e)) facilities |>
    <| BaseSnapshot.assigned_pal_instance_ids ::= sort_dedup bytes_cmp |> in
  let? storage := ok_or (sum_entries u64_max (map storage_entry (BaseSnapshot.storage_items base)))
                    (IntegerOverflow "bases.storage_items.quantity") in
  Ok (base <| BaseSnapshot.storage_items := map (λ e, BaseStorageItem.mk (fst e) (snd e)) storage |>).

Definition canonicalize_pal (pal : OwnedPal.t) : OwnedPal.t :=
  pal <| OwnedPal.passive_ids ::= sort_dedup_strings |> <| OwnedPal.active_skill_ids ::= sort_dedup_strings |>.

Definition canonicalize_progression (p : ProgressionSnapshot.t) : ProgressionSnapshot.t :=
  p <| ProgressionSnapshot.technology_ids ::= sort_dedup_strings |>
    <| ProgressionSnapshot.fast_travel_ids ::= sort_dedup_strings |>
    <| ProgressionSnapshot.tower_ids ::= sort_dedup_strings |>
    <| ProgressionSnapshot.boss_ids ::= sort_dedup_strings |>
    <| ProgressionSnapshot.mission_ids ::= sort_dedup_strings |>
    <| ProgressionSnapshot.paldex_capture_ids ::= sort_dedup_strings |>
    <| ProgressionSnapshot.map_region_ids ::= sort_dedup_strings |>
    <| ProgressionSnapshot.collectible_ids ::= sort_dedup_strings |>
    <| ProgressionSnapshot.base_research_ids ::= sort_dedup_strings |>.

Definition slot_cmp : (Z * N) * N → (Z * N) * N → comparison := pair_cmp (pair_cmp Z.compare N.compare) N.compare.
Definition inventory_sort_key (slot : InventorySlot.t) : (Z * N) * N :=
  (InventorySlot.container_kind slot, InventorySlot.container_ordinal slot, InventorySlot.slot_index slot).
Definition equipment_sort_key (slot : EquipmentSlot.t) : Z * N :=
  (EquipmentSlot.slot_kind slot, EquipmentSlot.slot_index slot).

(** The content that [canonical_snapshot_content] encodes. *)
Definition canonicalize_snapshot (content : PersonalSnapshotContent.t) :
    result PersonalSnapshotContent.t CanonicalError :=
  let? _ := validate_snapshot content in
  let canonical := content <| PersonalSnapshotContent.inventory ::= sort_by_key slot_cmp inventory_sort_key |>
    <| PersonalSnapshotContent.equipment ::= sort_by_key (pair_cmp Z.compare N.compare) equipment_sort_key |>
    <| PersonalSnapshotContent.pals ::= λ pals, map canonicalize_pal (sort_by_key bytes_cmp OwnedPal.instance_id pals) |>
    <| PersonalSnapshotContent.bases ::= sort_by_key bytes_cmp BaseSnapshot.base_id |> in
  let? bases := try_map canonicalize_snapshot_base (PersonalSnapshotContent.bases canonical) in
  Ok (canonical <| PersonalSnapshotContent.bases := bases |>
    <| PersonalSnapshotContent.progression ::= option_map canonicalize_progression |>
    <| PersonalSnapshotContent.section_states ::= sort_by_key Z.compare SnapshotSectionState.section |>).

Definition canonical_snapshot_content `{!Message PersonalSnapshotContent.t}
    (content : PersonalSnapshotContent.t) : result bytes CanonicalError :=
  let? canonical := canonicalize_snapshot content in
  let encoded := encode_to_vec canonical in
  let? _ := check_content_length (len encoded) in
  Ok encoded.

Definition snapshot_domain : bytes := as_bytes "palcompanion.snapshot.v1" ++ [Byte.x00].

Definition personal_snapshot_id `{!Message PersonalSnapshotContent.t} (sha256 : bytes → bytes)
    (content : PersonalSnapshotContent.t) : result bytes CanonicalError :=
  let? encoded := canonical_snapshot_content content in
  Ok (sha256 (snapshot_domain ++ encoded)).

(** ** What the identity depends on *)

(** Two pals that differ in the order and repetition of passive and active skills only. *)
Definition same_pal (p q : OwnedPal.t) : Prop :=
  same_members (OwnedPal.passive_ids p) (OwnedPal.passive_ids q) ∧
  same_members (OwnedPal.active_skill_ids p) (OwnedPal.active_skill_ids q) ∧
  p <| OwnedPal.passive_ids := OwnedPal.passive_ids q |>
    <| OwnedPal.active_skill_ids := OwnedPal.active_skill_ids q |> = q.

(** Two bases with the same buildings and stored items in the same numbers, and the same
    assigned pals. *)
Definition same_base (b c : BaseSnapshot.t) : Prop :=
  same_totals (map facility_entry (BaseSnapshot.facilities b)) (map facility_entry (BaseSnapshot.facilities c)) ∧
  same_members (BaseSnapshot.assigned_pal_instance_ids b) (BaseSnapshot.assigned_pal_instance_ids c) ∧
  same_totals (map storage_entry (BaseSnapshot.storage_items b)) (map storage_entry (BaseSnapshot.storage_items c)) ∧
  b <| BaseSnapshot.facilities := BaseSnapshot.facilities c |>
    <| BaseSnapshot.assigned_pal_instance_ids := BaseSnapshot.assigned_pal_instance_ids c |>
    <| BaseSnapshot.storage_items := BaseSnapshot.storage_items c |> = c.

Definition same_progression (p q : ProgressionSnapshot.t) : Prop :=
  Forall2 same_members (progression_ids p).*2 (progression_ids q).*2.

Definition same_content (c d : PersonalSnapshotContent.t) : Prop :=
  PersonalSnapshotContent.inventory c ≡ₚ PersonalSnapshotContent.inventory d ∧
  PersonalSnapshotContent.equipment c ≡ₚ PersonalSnapshotContent.equipment d ∧
  perm_rel same_pal (PersonalSnapshotContent.pals c) (PersonalSnapshotContent.pals d) ∧
  perm_rel same_base (PersonalSnapshotContent.bases c) (PersonalSnapshotContent.bases d) ∧
  option_Forall2 same_progression (PersonalSnapshotContent.progression c) (PersonalSnapshotContent.progression d) ∧
  PersonalSnapshotContent.section_states c ≡ₚ PersonalSnapshotContent.section_states d ∧
  c <| PersonalSnapshotContent.inventory := PersonalSnapshotContent.inventory d |>
    <| PersonalSnapshotContent.equipment := PersonalSnapshotContent.equipment d |>
    <| PersonalSnapshotContent.pals := PersonalSnapshotContent.pals d |>
    <| PersonalSnapshotContent.bases := PersonalSnapshotContent.bases d |>
    <| PersonalSnapshotContent.progression := PersonalSnapshotContent.progression d |>
    <| PersonalSnapshotContent.section_states := PersonalSnapshotContent.section_states d |> = d.

(** ** Loops that reject repeated keys *)

Lemma try_fold_ok {S A K E} (f : S → A → result S E) (proj : S → list K) (key : A → K) s l s' :
  (∀ s x s', f s x = Ok s' → (key x ∉ proj s) ∧ proj s' = key x :: proj s) →
  try_fold f s l = Ok s' → NoDup (proj s) → NoDup (key <$> l) ∧ ∀ x, x ∈ l → key x ∉ proj s.
Proof.
  intros Hf. revert s. induction l as [|x l IH]; intros s; cbn [try_fold].
  - intros _ _. split; [constructor|]. intros x Hx. by apply elem_of_nil in Hx.
  - intros (s1 & H1 & H2)%and_then_ok Hs. destruct (Hf _ _ _ H1) as [Hx Hp].
    destruct (IH s1 H2) as [Hnd Hl]; [rewrite Hp; by constructor|]. split.
    + rewrite fmap_cons. constructor; [|done]. intros (y & Hxy & Hy)%list_elem_of_fmap.
      apply (Hl y Hy). rewrite Hp, <- Hxy. by left.
    + intros y [->|Hy]%elem_of_cons; [done|]. intros Hin. apply (Hl y Hy). rewrite Hp. by right.
Qed.

Lemma reject_duplicate_ok keys field key keys' :
  reject_duplicate keys field key = Ok keys' ↔ (key ∉ keys) ∧ keys' = key :: keys.
Proof.
  unfold reject_duplicate. destruct (contains keys key) eqn:H.
  - apply contains_true in H. naive_solver.
  - apply contains_false in H. naive_solver.
Qed.

(** A semantic key that is a function of the sort key. *)
Lemma NoDup_sort_key {A K} (key : A → bytes) (g : K → bytes) (skey : A → K) (l : list A) :
  (∀ x, key x = g (skey x)) → NoDup (key <$> l) → NoDup (skey <$> l).
Proof.
  intros Hg Hnd. apply (NoDup_fmap_1 g). rewrite <- list_fmap_compose.
  by rewrite (list_fmap_ext _ key) by (intros; simpl; by rewrite Hg).
Qed.

(** Takes [H : (let? x := .. in ..) = Ok _] apart. *)
Ltac inv_ok H :=
  repeat (let H1 := fresh H in apply and_then_ok in H as (? & H1 & H)).

Record distinct_keys (c : PersonalSnapshotContent.t) : Prop := {
  distinct_inventory : NoDup (inventory_sort_key <$> PersonalSnapshotContent.inventory c);
  distinct_equipment : NoDup (equipment_sort_key <$> PersonalSnapshotContent.equipment c);
  distinct_pals : NoDup (OwnedPal.instance_id <$> PersonalSnapshotContent.pals c);
  distinct_bases : NoDup (BaseSnapshot.base_id <$> PersonalSnapshotContent.bases c);
  distinct_sections : NoDup (SnapshotSectionState.section <$> PersonalSnapshotContent.section_states c);
}.

Lemma enum_at_lookup {A} (all : list A) value x :
  enum_at all value = Some x → (0 ≤ value)%Z ∧ all !! Z.to_nat value = Some x.
Proof.
  unfold enum_at. by destruct (Z.ltb_spec value 0).
Qed.

Lemma section_number value kind : SnapshotSectionKind.try_from value = Some kind → SnapshotSectionKind.as_i32 kind = value.
Proof.
  intros [Hv H]%enum_at_lookup. pose proof (lookup_lt_Some _ _ _ H) as Hlt. simpl in Hlt.
  assert (∀ i, (i < 7)%nat → SnapshotSectionKind.all !! i = Some kind → SnapshotSectionKind.as_i32 kind = Z.of_nat i) as Hall.
  { intros i Hi. do 7 (destruct i as [|i]; [by intros [= <-]|]). lia. }
  rewrite (Hall _ Hlt H). lia.
Qed.

Lemma nonzero_enum_ok {T} field value (parse : Z → option T) x :
  nonzero_enum field value parse = Ok x ↔ value ≠ 0%Z ∧ parse value = Some x.
Proof. unfold nonzero_enum. destruct (Z.eqb_spec value 0); rewrite ?ok_or_ok; naive_solver. Qed.

(** The steps of the loops reject what was seen already. *)
Lemma slot_distinct l keys : try_fold validate_inventory_slot [] l = Ok keys → NoDup (inventory_sort_key <$> l).
Proof.
  intros H. apply (NoDup_sort_key
    (λ s, inventory_key (InventorySlot.container_kind s) (InventorySlot.container_ordinal s) (InventorySlot.slot_index s))
    (λ k, inventory_key k.1.1 k.1.2 k.2)); [done|].
  eapply (try_fold_ok validate_inventory_slot id) in H as [H _]; [exact H| |constructor].
  intros s x s' Hs. unfold validate_inventory_slot in Hs. inv_ok Hs. by apply reject_duplicate_ok in Hs.
Qed.

Lemma equipment_distinct l keys : try_fold validate_equipment_slot [] l = Ok keys → NoDup (equipment_sort_key <$> l).
Proof.
  intros H. apply (NoDup_sort_key (λ s, equipment_key (EquipmentSlot.slot_kind s) (EquipmentSlot.slot_index s))
    (λ k, equipment_key k.1 k.2)); [done|].
  eapply (try_fold_ok validate_equipment_slot id) in H as [H _]; [exact H| |constructor].
  intros s x s' Hs. unfold validate_equipment_slot in Hs. inv_ok Hs. by apply reject_duplicate_ok in Hs.
Qed.

Lemma pals_distinct l sets : try_fold validate_pal ([], []) l = Ok sets → NoDup (OwnedPal.instance_id <$> l).
Proof.
  intros H. eapply (try_fold_ok validate_pal fst OwnedPal.instance_id) in H as [H _]; [exact H| |constructor].
  intros [ids locations] x s' Hs. unfold validate_pal in Hs. inv_ok Hs. injection Hs as <-.
  by lazymatch goal with H : reject_duplicate ids _ _ = Ok _ |- _ => apply reject_duplicate_ok in H end.
Qed.

Lemma bases_distinct l keys : try_fold validate_base [] l = Ok keys → NoDup (BaseSnapshot.base_id <$> l).
Proof.
  intros H. eapply (try_fold_ok validate_base id BaseSnapshot.base_id) in H as [H _]; [exact H| |constructor].
  intros s x s' Hs. unfold validate_base in Hs. inv_ok Hs. by apply reject_duplicate_ok in Hs.
Qed.

Lemma sections_distinct c l acc :
  try_fold (validate_section_state c) ([], []) l = Ok acc → NoDup (SnapshotSectionState.section <$> l).
Proof.
  intros H. eapply (try_fold_ok (validate_section_state c) fst SnapshotSectionState.section) in H as [H _];
    [exact H| |constructor].
  intros [sections states] x s' Hs. unfold validate_section_state in Hs. inv_ok Hs.
  apply nonzero_enum_ok in Hs0 as [_ Hs0]. apply section_number in Hs0. rewrite Hs0 in Hs.
  destruct (contains _ _) eqn:Hc in Hs; [done|]. apply contains_false in Hc.
  destruct (_ && _) in Hs; [done|]. by injection Hs as <-.
Qed.

Lemma validate_distinct c : validate_snapshot c = Ok tt → distinct_keys c.
Proof.
  unfold validate_snapshot. destruct (_ =? 1); [cbn [negb]|done]. intros H. inv_ok H.
  split; [by eapply slot_distinct|by eapply equipment_distinct|by eapply pals_distinct|by eapply bases_distinct|].
  unfold validate_snapshot_section_states in H. destruct (_ =? 6); [cbn [negb] in H|done].
  inv_ok H. by eapply sections_distinct.
Qed.

(** ** Canonical forms of the entries *)

Lemma canonical_pal_unique p q : canonicalize_pal p = canonicalize_pal q ↔ same_pal p q.
Proof.
  unfold same_pal. rewrite <- !(sorted_set_unique str_cmp). destruct p, q. cbn. split.
  - intros H. injection H. intros. by subst.
  - intros (Hp & Ha & H). injection H. intros. subst. unfold canonicalize_pal, sort_dedup_strings. cbn.
    by rewrite Hp, Ha.
Qed.

Lemma canonical_progression_unique p q :
  canonicalize_progression p = canonicalize_progression q ↔ same_progression p q.
Proof.
  unfold same_progression. destruct p, q. cbn. split.
  - intros H. injection H. intros.
    repeat (constructor; [by apply (sorted_set_unique str_cmp)|]). constructor.
  - intros H. repeat (apply Forall2_cons in H as [?%(sorted_set_unique str_cmp) H]).
    unfold canonicalize_progression, sort_dedup_strings. cbn.
    by f_equal.
Qed.

Lemma canonical_base_ok b b' :
  canonicalize_snapshot_base b = Ok b' ↔
  ∃ fs ss, sum_entries u32_max (map facility_entry (BaseSnapshot.facilities b)) = Some fs ∧
    sum_entries u64_max (map storage_entry (BaseSnapshot.storage_items b)) = Some ss ∧
    b' = b <| BaseSnapshot.facilities := map (λ e, BaseFacility.mk (fst e) (snd e)) fs |>
      <| BaseSnapshot.assigned_pal_instance_ids ::= sort_dedup bytes_cmp |>
      <| BaseSnapshot.storage_items := map (λ e, BaseStorageItem.mk (fst e) (snd e)) ss |>.
Proof.
  unfold canonicalize_snapshot_base. split.
  - intros H. inv_ok H. apply ok_or_ok in H0, H1. injection H as <-. by exists x, x0.
  - intros (fs & ss & Hf & Hs & ->). rewrite Hf. destruct b; cbn in *. by rewrite Hs.
Qed.

Lemma entries_inj (fs gs : list (string * N)) :
  map (λ e, BaseFacility.mk (fst e) (snd e)) fs = map (λ e, BaseFacility.mk (fst e) (snd e)) gs → fs = gs.
Proof.
  intros H. apply (f_equal (map facility_entry)) in H. rewrite !map_map in H.
  rewrite <- (map_id fs), <- (map_id gs). etrans; [|etrans; [exact H|]]; apply map_ext; by intros [].
Qed.

Lemma stored_inj (fs gs : list (string * N)) :
  map (λ e, BaseStorageItem.mk (fst e) (snd e)) fs = map (λ e, BaseStorageItem.mk (fst e) (snd e)) gs → fs = gs.
Proof.
  intros H. apply (f_equal (map storage_entry)) in H. rewrite !map_map in H.
  rewrite <- (map_id fs), <- (map_id gs). etrans; [|etrans; [exact H|]]; apply map_ext; by intros [].
Qed.

Lemma canonical_base_unique b c b' c' :
  canonicalize_snapshot_base b = Ok b' → canonicalize_snapshot_base c = Ok c' → (b' = c' ↔ same_base b c).
Proof.
  intros (fs & ss & Hf & Hs & ->)%canonical_base_ok (gs & ts & Hg & Ht & ->)%canonical_base_ok.
  unfold same_base. rewrite <- (sum_entries_unique _ _ _ _ _ Hf Hg), <- (sum_entries_unique _ _ _ _ _ Hs Ht).
  rewrite <- (sorted_set_unique bytes_cmp). destruct b, c. cbn. split.
  - intros H. injection H as -> -> -> Hfg%entries_inj Ha Hst%stored_inj. by subst.
  - intros (-> & -> & -> & H). injection H as -> -> ->. done.
Qed.

Lemma canonical_base_total b c b' :
  same_base b c → canonicalize_snapshot_base b = Ok b' → ∃ c', canonicalize_snapshot_base c = Ok c'.
Proof.
  intros (Hf & _ & Hs & _) (fs & ss & Hfs & Hss & _)%canonical_base_ok.
  eexists. apply canonical_base_ok. exists fs, ss.
  split; [by eapply sum_entries_total|split; [by eapply sum_entries_total|done]].
Qed.

Lemma canonical_base_id b b' : canonicalize_snapshot_base b = Ok b' → BaseSnapshot.base_id b' = BaseSnapshot.base_id b.
Proof. by intros (fs & ss & _ & _ & ->)%canonical_base_ok. Qed.

#[export] Instance same_pal_sym : Symmetric same_pal.
Proof. intros p q. by rewrite <- !canonical_pal_unique. Qed.

#[export] Instance same_base_sym : Symmetric same_base.
Proof.
  intros b c (Hf & Ha & Hs & H). split; [by symmetry|split; [by symmetry|split; [by symmetry|]]].
  destruct b, c. cbn in *. injection H as -> -> ->. done.
Qed.

#[export] Instance same_progression_sym : Symmetric same_progression.
Proof. intros p q. by rewrite <- !canonical_progression_unique. Qed.

#[export] Instance same_content_sym : Symmetric same_content.
Proof.
  intros c d (Hi & He & Hp & Hb & Hg & Hs & H).
  split; [done|split; [done|split; [by symmetry|split; [by symmetry|split]]]].
  - destruct Hg; by constructor.
  - split; [done|]. destruct c, d. cbn in *. by injection H as -> -> -> -> -> -> ->.
Qed.

Lemma canonical_option_unique p q :
  option_map canonicalize_progression p = option_map canonicalize_progression q ↔ option_Forall2 same_progression p q.
Proof.
  destruct p as [p|], q as [q|]; cbn [option_map]; split; try done; try by inversion 1.
  - intros H. assert (canonicalize_progression p = canonicalize_progression q) as H' by congruence.
    constructor. by apply canonical_progression_unique.
  - inversion_clear 1. by apply f_equal, canonical_progression_unique.
  - constructor.
Qed.

Lemma canonicalize_ok c k :
  canonicalize_snapshot c = Ok k ↔
  validate_snapshot c = Ok tt ∧ ∃ bs,
  try_map canonicalize_snapshot_base (sort_by_key bytes_cmp BaseSnapshot.base_id (PersonalSnapshotContent.bases c)) = Ok bs ∧
  k = c <| PersonalSnapshotContent.inventory ::= sort_by_key slot_cmp inventory_sort_key |>
    <| PersonalSnapshotContent.equipment ::= sort_by_key (pair_cmp Z.compare N.compare) equipment_sort_key |>
    <| PersonalSnapshotContent.pals ::= λ pals, map canonicalize_pal (sort_by_key bytes_cmp OwnedPal.instance_id pals) |>
    <| PersonalSnapshotContent.bases := bs |>
    <| PersonalSnapshotContent.progression ::= option_map canonicalize_progression |>
    <| PersonalSnapshotContent.section_states ::= sort_by_key Z.compare SnapshotSectionState.section |>.
Proof.
  unfold canonicalize_snapshot. rewrite and_then_ok. destruct c; cbn. split.
  - intros ([] & Hv & H). apply and_then_ok in H as (bs & Hbs & [= <-]). eauto.
  - intros (Hv & bs & Hbs & ->). exists tt. by rewrite Hbs.
Qed.

Lemma map_pals_unique l1 l2 :
  NoDup (OwnedPal.instance_id <$> l1) → NoDup (OwnedPal.instance_id <$> l2) →
  map canonicalize_pal (sort_by_key bytes_cmp OwnedPal.instance_id l1) =
    map canonicalize_pal (sort_by_key bytes_cmp OwnedPal.instance_id l2) ↔ perm_rel same_pal l1 l2.
Proof.
  intros H1 H2.
  apply (canonical_list bytes_cmp OwnedPal.instance_id (λ p, @Ok _ unit (canonicalize_pal p)) same_pal); [| |done..| |].
  - by intros p q [= <-].
  - intros p q p' q' [= <-] [= <-]. apply canonical_pal_unique.
  - apply try_map_ok, Forall2_fmap_r, Forall_Forall2_diag, Forall_true. done.
  - apply try_map_ok, Forall2_fmap_r, Forall_Forall2_diag, Forall_true. done.
Qed.

Lemma canonicalize_unique c d k k' :
  canonicalize_snapshot c = Ok k → canonicalize_snapshot d = Ok k' → (k = k' ↔ same_content c d).
Proof.
  intros (Hc & bs & Hbs & ->)%canonicalize_ok (Hd & bs' & Hbs' & ->)%canonicalize_ok.
  apply validate_distinct in Hc as [Hi He Hp Hb Hs], Hd as [Hi' He' Hp' Hb' Hs'].
  unfold same_content.
  rewrite <- (sorted_unique slot_cmp inventory_sort_key _ _ Hi Hi').
  rewrite <- (sorted_unique (pair_cmp Z.compare N.compare) equipment_sort_key _ _ He He').
  rewrite <- (sorted_unique Z.compare SnapshotSectionState.section _ _ Hs Hs').
  rewrite <- (map_pals_unique _ _ Hp Hp'), <- canonical_option_unique.
  rewrite <- (canonical_list bytes_cmp BaseSnapshot.base_id canonicalize_snapshot_base same_base
    canonical_base_id canonical_base_unique _ _ _ _ Hb Hb' Hbs Hbs').
  destruct c, d. cbn. split.
  - intros H. injection H.
    intros. split_and!; [assumption..|]. by f_equal.
  - intros (-> & -> & -> & -> & -> & -> & H). by injection H as -> -> -> -> -> -> ->.
Qed.

Lemma canonicalize_same c d k :
  same_content c d → validate_snapshot d = Ok tt → canonicalize_snapshot c = Ok k → canonicalize_snapshot d = Ok k.
Proof.
  intros Hsame Hd Hk. pose proof Hk as (Hc & bs & Hbs & _)%canonicalize_ok.
  destruct (canonical_list_total bytes_cmp BaseSnapshot.base_id canonicalize_snapshot_base same_base
    (PersonalSnapshotContent.bases c) (PersonalSnapshotContent.bases d) bs) as [bs' Hbs']; [|apply Hsame|done|].
  { intros b b' b0 Hb. by apply canonical_base_total. }
  assert (∃ k', canonicalize_snapshot d = Ok k') as [k' Hk'].
  { eexists. apply canonicalize_ok. split; [done|]. by exists bs'. }
  rewrite Hk'. f_equal. symmetry. by apply (canonicalize_unique c d).
Qed.

Lemma canonical_snapshot_content_ok `{!Message PersonalSnapshotContent.t} c b :
  canonical_snapshot_content c = Ok b ↔
  ∃ k, canonicalize_snapshot c = Ok k ∧ len (encode_to_vec k) ≤ MAX_CANONICAL_CONTENT_LEN ∧ b = encode_to_vec k.
Proof.
  unfold canonical_snapshot_content, check_content_length. rewrite and_then_ok. f_equiv. intros k.
  destruct (N.leb_spec (len (encode_to_vec k)) MAX_CANONICAL_CONTENT_LEN); cbn; [naive_solver|].
  split; [by intros []|]. intros (_ & ? & _). lia.
Qed.

Lemma canonical_content_same `{!Message PersonalSnapshotContent.t} c d b :
  same_content c d → validate_snapshot d = Ok tt → canonical_snapshot_content c = Ok b → canonical_snapshot_content d = Ok b.
Proof.
  intros Hs Hd (k & Hk & Hb)%canonical_snapshot_content_ok. apply canonical_snapshot_content_ok.
  exists k. split; [by eapply canonicalize_same|done].
Qed.

(** ** Text identifiers *)

Lemma strip_first_nil p bs : strip_first p bs = None ∨ ∃ rest, strip_first p bs = Some rest ∧ bs = p ++ rest.
Proof.
  revert bs. induction p as [|c p IH]; intros bs; cbn; [eauto|]. destruct bs as [|b bs]; [by left|].
  destruct (N.eqb_spec c b) as [->|]; [|by left].
  destruct (IH bs) as [->|(rest & -> & ->)]; [by left|right; eauto].
Qed.

(** Nothing is stripped off bytes that no pattern begins with. *)
Lemma strip_all_none fuel ps bs :
  Forall (λ p, match p with c :: _ => c ∉ bs | [] => False end) ps → strip_all fuel ps bs = bs.
Proof.
  intros Hps. destruct fuel as [|fuel]; [done|]. cbn [strip_all].
  destruct (list_find is_Some (map (λ p, strip_first p bs) ps)) as [[i o]|] eqn:Hf; [|done].
  apply list_find_Some in Hf as (Hi & [rest Ho] & _). subst o. exfalso.
  apply list_elem_of_lookup_2 in Hi. apply list_elem_of_fmap in Hi as (p & Hp & Hin).
  apply (proj1 (Forall_forall _ _) Hps) in Hin. destruct p as [|c p]; [done|]. cbn in Hp.
  destruct bs as [|b bs]; [done|]. destruct (N.eqb_spec c b) as [->|]; [|done]. apply Hin. by left.
Qed.

Lemma trim_id_bytes bs : Forall (λ b, is_id_byte b = true) bs → trim_bytes bs = bs.
Proof.
  intros Hbs. unfold trim_bytes.
  assert (∀ bs' c, bs' ≡ₚ bs → is_id_byte c = false → c ∉ bs') as Hout.
  { intros bs' c Hp Hc Hin. rewrite Hp in Hin. apply (proj1 (Forall_forall _ _) Hbs) in Hin. congruence. }
  rewrite (strip_all_none _ white_space bs), (strip_all_none _ (map reverse white_space) (reverse bs)).
  - apply reverse_involutive.
  - repeat constructor; apply Hout; by rewrite ?reverse_Permutation.
  - repeat constructor; by apply Hout.
Qed.

(** Text identifiers are the non-empty strings of at most 128 bytes of the accepted kinds: the
    other conditions of the code follow from these. *)
Lemma validate_text_id_exact field value :
  validate_text_id field value = Ok tt ↔
  value ≠ EmptyString ∧ str_len value ≤ 128 ∧ Forall (λ b, is_id_byte b = true) (str_bytes value).
Proof.
  unfold validate_text_id, str_is_ascii, str_all.
  assert (forallb is_id_byte (str_bytes value) = true ↔ Forall (λ b, is_id_byte b = true) (str_bytes value)) as Hids.
  { rewrite forallb_forall, Forall_forall. setoid_rewrite list_elem_of_In. done. }
  destruct (forallb is_id_byte (str_bytes value)) eqn:Hall.
  - pose proof (proj1 Hids eq_refl) as Hf. rewrite bool_decide_true by (by apply trim_id_bytes).
    replace (forallb is_ascii_byte (str_bytes value)) with true.
    2: { symmetry. apply forallb_forall. intros b Hb%list_elem_of_In.
         apply (proj1 (Forall_forall _ _) Hf) in Hb. revert Hb. clear.
         unfold is_id_byte, is_ascii_alphanumeric, is_ascii_alphabetic, is_ascii_uppercase,
           is_ascii_lowercase, is_ascii_digit, is_ascii_byte.
         rewrite !orb_true_iff, !andb_true_iff, !N.leb_le, !N.eqb_eq, N.ltb_lt. lia. }
    cbn [negb]. rewrite !orb_false_r. destruct (str_is_empty value) eqn:He; cbn [orb].
    + apply str_is_empty_true in He. naive_solver.
    + assert (value ≠ EmptyString) by (intros ->; done). destruct (N.ltb_spec 128 (str_len value)); [|naive_solver].
      split; [done|]. lia.
  - cbn [negb]. rewrite !orb_true_r. split; [done|]. intros (_ & _ & H). by apply Hids in H.
Qed.

(** ** Properties *)

(** C10: the identity of a snapshot is that of its content. Contents that differ only in the
    order of entries, in the order and repetition of passive and active skills, of progress and
    of assigned pals, and in how the buildings and stored items of a base are split up, have
    the same canonical bytes and the same identity, and one of them overflows only if the
    other does. Of other valid contents the canonical bytes encode different messages. *)
Theorem snapshot_identity_exact `{!Message PersonalSnapshotContent.t} (sha256 : bytes → bytes)
    (c d : PersonalSnapshotContent.t) :
  validate_snapshot c = Ok tt → validate_snapshot d = Ok tt →
  (same_content c d → ∀ b,
     (canonical_snapshot_content c = Ok b ↔ canonical_snapshot_content d = Ok b) ∧
     (personal_snapshot_id sha256 c = Ok b ↔ personal_snapshot_id sha256 d = Ok b)) ∧
  (∀ b b', canonical_snapshot_content c = Ok b → canonical_snapshot_content d = Ok b' →
     ∃ k k', b = encode_to_vec k ∧ b' = encode_to_vec k' ∧ (k = k' ↔ same_content c d)).
Proof.
  intros Hc Hd. split.
  - intros Hs b. assert (∀ b, canonical_snapshot_content c = Ok b ↔ canonical_snapshot_content d = Ok b) as Hb.
    { intros b'. split; apply canonical_content_same; by try symmetry. }
    split; [done|]. unfold personal_snapshot_id. rewrite !and_then_ok. by setoid_rewrite Hb.
  - intros b b' (k & Hk & _ & ->)%canonical_snapshot_content_ok (k' & Hk' & _ & ->)%canonical_snapshot_content_ok.
    exists k, k'. split; [done|split; [done|]]. by apply canonicalize_unique.
Qed.

(** ** A witness *)

Definition repeat_byte (b : Byte.byte) (n : nat) : bytes := repeat b n.
Definition demo_state (section : Z) (records : N) : SnapshotSectionState.t :=
  SnapshotSectionState.mk section 1 records records.
Definition demo_slot (ordinal slot : N) (item : string) : InventorySlot.t :=
  InventorySlot.mk 1 ordinal slot item 20 None None.
Definition demo_pal (passive learned : list string) : OwnedPal.t :=
  OwnedPal.mk (repeat_byte Byte.x41 16) "Quivern" 1 27 (Some 91) None None passive ["AcidRain"%string]
    (Some (PalLocation.mk 3 3 5 (Some (repeat_byte Byte.x51 16)))) (Some "female"%string) 2 learned
    0 0 0 0 0 false false false false false 0 None.
Definition demo_base (facilities : list BaseFacility.t) : BaseSnapshot.t :=
  BaseSnapshot.mk (repeat_byte Byte.x51 16) "WindsweptHills" 15 facilities [repeat_byte Byte.x41 16] [].
Definition demo_snapshot (inventory : list InventorySlot.t) (pal : OwnedPal.t) (base : BaseSnapshot.t) :
    PersonalSnapshotContent.t :=
  PersonalSnapshotContent.mk 1 "steam_2026.07.20" (repeat_byte Byte.x21 32) "fixture_world" (repeat_byte Byte.x31 32) 1
    None inventory [] [pal] [base] None
    [demo_state 6 0; demo_state 5 1; demo_state 4 1; demo_state 3 0; demo_state 2 2; demo_state 1 0].

Definition demo_first : PersonalSnapshotContent.t :=
  demo_snapshot [demo_slot 2 8 "Berry"; demo_slot 1 3 "PalSphere"]
    (demo_pal ["Swift"; "Artisan"; "Swift"]%string []) (demo_base [BaseFacility.mk "BerryFarm" 3]).
Definition demo_second : PersonalSnapshotContent.t :=
  demo_snapshot [demo_slot 1 3 "PalSphere"; demo_slot 2 8 "Berry"]
    (demo_pal ["Artisan"; "Swift"]%string []) (demo_base [BaseFacility.mk "BerryFarm" 1; BaseFacility.mk "BerryFarm" 2]).

(** An encoder that shows the slots of the inventory only. *)
Definition demo_message : Message PersonalSnapshotContent.t :=
  let encode c := flat_map (λ s, u32_be (InventorySlot.slot_index s)) (PersonalSnapshotContent.inventory c) in
  {| encode_to_vec := encode; encoded_len := λ c, len (encode c); encoded_len_exact := λ _, eq_refl |}.

Lemma same_members_two {K} (a b : K) : same_members [a; b; a] [b; a].
Proof. intros x. rewrite !elem_of_cons. naive_solver. Qed.

Lemma demo_same : same_content demo_first demo_second.
Proof.
  split; [apply Permutation_swap|split; [constructor|split; [|split; [|split; [constructor|split; [done|done]]]]]].
  - exists (PersonalSnapshotContent.pals demo_first), (PersonalSnapshotContent.pals demo_second). split; [done|split; [|done]]. constructor; [|constructor].
    split; [apply same_members_two|split; [|done]]. by intros x.
  - exists (PersonalSnapshotContent.bases demo_first), (PersonalSnapshotContent.bases demo_second). split; [done|split; [|done]]. constructor; [|constructor].
    split; [|split; [|split; [|done]]]; [|by intros x|by split].
    split; [|intros k; simpl; destruct (bool_decide _); lia].
    intros x. simpl. rewrite !elem_of_cons. naive_solver.
Qed.

Lemma snapshot_identity_exact_witness :
  validate_snapshot demo_first = Ok tt ∧ validate_snapshot demo_second = Ok tt ∧ demo_first ≠ demo_second ∧
  ∀ b, canonical_snapshot_content (Message0 := demo_message) demo_first = Ok b ↔
       canonical_snapshot_content (Message0 := demo_message) demo_second = Ok b.
Proof.
  assert (validate_snapshot demo_first = Ok tt) as H1 by (vm_compute; reflexivity).
  assert (validate_snapshot demo_second = Ok tt) as H2 by (vm_compute; reflexivity).
  split; [exact H1|]. split; [exact H2|]. split; [discriminate|]. intros b.
  destruct (snapshot_identity_exact (Message0 := demo_message) (λ m, m) demo_first demo_second H1 H2) as [H _].
  destruct (H demo_same b) as [Hb _]. exact Hb.
Defined.

(** The order of learned skills is kept: they are neither validated nor sorted. *)
Theorem learned_order_matters :
  ∃ c d k k', canonicalize_snapshot c = Ok k ∧ canonicalize_snapshot d = Ok k' ∧ k ≠ k' ∧
    (∃ learned, c <| PersonalSnapshotContent.pals ::= map (λ p, p <| OwnedPal.learned_skill_ids := learned |>) |> = d ∧
      Forall (λ p, OwnedPal.learned_skill_ids p ≡ₚ learned) (PersonalSnapshotContent.pals c)).
Proof.
  exists (demo_snapshot [] (demo_pal [] ["AirBlade"; "DragonCannon"]%string) (demo_base [])).
  exists (demo_snapshot [] (demo_pal [] ["DragonCannon"; "AirBlade"]%string) (demo_base [])).
  do 2 eexists. split; [vm_compute; reflexivity|]. split; [vm_compute; reflexivity|]. split; [discriminate|].
  exists ["DragonCannon"; "AirBlade"]%string. split; [reflexivity|]. repeat constructor.
Qed.
