(* ===== verification/CloudProfile.v ===== *)
(** * Cloud profiles and their pages

    Models the projections of [crates/pal-wire/src/canonical.rs]: the projection of a profile
    that is sent to the cloud, its validation, its canonical form and its identity. A page
    message with its single field [entries] is the list of the entries. [None] is a failed
    [expect]. *)

From S2P Require Import Prelude Orders Canonical.

(** ** Messages of the schema *)

Module ProjectionCompleteness.
Inductive t := Unspecified | Complete | Partial | Unavailable | Unknown.
Definition all : list t :=
  [Unspecified; Complete; Partial; Unavailable; Unknown].
Definition try_from (value : Z) : option t := enum_at all value.
End ProjectionCompleteness.
#[export] Instance ProjectionCompleteness_eq_dec : EqDecision ProjectionCompleteness.t.
Proof. solve_decision. Defined.

Module PalGender.
Inductive t := Unspecified | Male | Female | Genderless.
Definition all : list t :=
  [Unspecified; Male; Female; Genderless].
Definition try_from (value : Z) : option t := enum_at all value.
End PalGender.
#[export] Instance PalGender_eq_dec : EqDecision PalGender.t.
Proof. solve_decision. Defined.

Module CloudProgressionUnlockKind.
Inductive t := Unspecified | Technology | FastTravel | Tower | Boss | Mission | PaldexCapture | MapRegion | Collectible | BaseResearch.
Definition all : list t :=
  [Unspecified; Technology; FastTravel; Tower; Boss; Mission; PaldexCapture; MapRegion; Collectible; BaseResearch].
Definition try_from (value : Z) : option t := enum_at all value.
End CloudProgressionUnlockKind.
#[export] Instance CloudProgressionUnlockKind_eq_dec : EqDecision CloudProgressionUnlockKind.t.
Proof. solve_decision. Defined.

Module ProjectionSectionState.
Record t := mk {
  completeness : Z;
  source_expected_record_count : N;
  source_observed_record_count : N;
  projected_entry_count : N;
}.
End ProjectionSectionState.

Module CloudCharacterEntry.
Record t := mk {
  level : N;
  experience : N;
  allocated_hp : N;
  allocated_stamina : N;
  allocated_attack : N;
  allocated_defense : N;
  allocated_work_speed : N;
  allocated_carry_weight : N;
  technology_points : N;
  ancient_technology_points : N;
}.
End CloudCharacterEntry.

Module CloudInventoryEntry.
Record t := mk {
  container_kind : Z;
  container_ordinal : N;
  slot_index : N;
  item_id : string;
  quantity : N;
  durability : option N;
  rarity : option N;
}.
End CloudInventoryEntry.

Module CloudEquipmentEntry.
Record t := mk {
  slot_kind : Z;
  slot_index : N;
  item_id : string;
  durability : option N;
  rarity : option N;
  ammunition : option N;
}.
End CloudEquipmentEntry.

Module CloudPalEntry.
Record t := mk {
  pal_instance_id : bytes;
  species_id : string;
  level : N;
  gender : Z;
  iv_hp : option N;
  iv_attack : option N;
  iv_defense : option N;
  passive_ids : list string;
  active_skill_ids : list string;
  condensation_rank : N;
  soul_hp : N;
  soul_attack : N;
  soul_defense : N;
  soul_work_speed : N;
  container_kind : Z;
  learned_skill_ids : list string;
  trust : N;
  is_lucky : bool;
  is_boss : bool;
  is_alpha : bool;
  is_awakened : bool;
  is_mutated : bool;
  container_ordinal : N;
  slot_index : N;
  base_id : option bytes;
}.
#[export] Instance eta_t : Eta t := λ r,
  mk (pal_instance_id r) (species_id r) (level r) (gender r) (iv_hp r) (iv_attack r) (iv_defense r) (passive_ids r) (active_skill_ids r) (condensation_rank r) (soul_hp r) (soul_attack r) (soul_defense r) (soul_work_speed r) (container_kind r) (learned_skill_ids r) (trust r) (is_lucky r) (is_boss r) (is_alpha r) (is_awakened r) (is_mutated r) (container_ordinal r) (slot_index r) (base_id r).
End CloudPalEntry.
#[export] Existing Instance CloudPalEntry.eta_t.

Module CloudBaseFacility.
Record t := mk {
  building_id : string;
  count : N;
}.
End CloudBaseFacility.

Module CloudBaseStorageItem.
Record t := mk {
  item_id : string;
  quantity : N;
}.
End CloudBaseStorageItem.

Module CloudBaseEntry.
Record t := mk {
  base_id : bytes;
  location_id : string;
  level : N;
  facilities : list CloudBaseFacility.t;
  assigned_pal_instance_ids : list bytes;
  storage_items : list CloudBaseStorageItem.t;
}.
#[export] Instance eta_t : Eta t := λ r,
  mk (base_id r) (location_id r) (level r) (facilities r) (assigned_pal_instance_ids r) (storage_items r).
End CloudBaseEntry.
#[export] Existing Instance CloudBaseEntry.eta_t.

Module CloudProgressionUnlock.
Record t := mk {
  kind : Z;
  unlock_id : string;
}.
End CloudProgressionUnlock.

Module CloudCharacterContent.
Record t := mk {
  state : option ProjectionSectionState.t;
  character : option CloudCharacterEntry.t;
}.
End CloudCharacterContent.

Module CloudInventoryContent.
Record t := mk {
  state : option ProjectionSectionState.t;
  entries : list CloudInventoryEntry.t;
}.
#[export] Instance eta_t : Eta t := λ r,
  mk (state r) (entries r).
End CloudInventoryContent.
#[export] Existing Instance CloudInventoryContent.eta_t.

Module CloudEquipmentContent.
Record t := mk {
  state : option ProjectionSectionState.t;
  entries : list CloudEquipmentEntry.t;
}.
#[export] Instance eta_t : Eta t := λ r,
  mk (state r) (entries r).
End CloudEquipmentContent.
#[export] Existing Instance CloudEquipmentContent.eta_t.

Module CloudPalContent.
Record t := mk {
  state : option ProjectionSectionState.t;
  entries : list CloudPalEntry.t;
}.
#[export] Instance eta_t : Eta t := λ r,
  mk (state r) (entries r).
End CloudPalContent.
#[export] Existing Instance CloudPalContent.eta_t.

Module CloudBaseContent.
Record t := mk {
  state : option ProjectionSectionState.t;
  entries : list CloudBaseEntry.t;
}.
#[export] Instance eta_t : Eta t := λ r,
  mk (state r) (entries r).
End CloudBaseContent.
#[export] Existing Instance CloudBaseContent.eta_t.

Module CloudProgressionContent.
Record t := mk {
  state : option ProjectionSectionState.t;
  entries : list CloudProgressionUnlock.t;
}.
#[export] Instance eta_t : Eta t := λ r,
  mk (state r) (entries r).
End CloudProgressionContent.
#[export] Existing Instance CloudProgressionContent.eta_t.

Module CloudProfileContent.
Record t := mk {
  schema_version : N;
  dataset_manifest_id : bytes;
  game_build_id : string;
  character : option CloudCharacterContent.t;
  inventory : option CloudInventoryContent.t;
  equipment : option CloudEquipmentContent.t;
  pals : option CloudPalContent.t;
  bases : option CloudBaseContent.t;
  progression : option CloudProgressionContent.t;
}.
#[export] Instance eta_t : Eta t := λ r,
  mk (schema_version r) (dataset_manifest_id r) (game_build_id r) (character r) (inventory r) (equipment r) (pals r) (bases r) (progression r).
End CloudProfileContent.
#[export] Existing Instance CloudProfileContent.eta_t.

Module SectionIdentity.
Record t := mk {
  section : Z;
  state : option ProjectionSectionState.t;
  section_content_sha256 : bytes;
}.
End SectionIdentity.

Module ProfileIdentity.
Record t := mk {
  schema_version : N;
  dataset_manifest_id : bytes;
  game_build_id : string;
  sections : list SectionIdentity.t;
}.
End ProfileIdentity.

Module Payload.
Inductive t :=
| Character (entries : list CloudCharacterEntry.t)
| Inventory (entries : list CloudInventoryEntry.t)
| Equipment (entries : list CloudEquipmentEntry.t)
| Pals (entries : list CloudPalEntry.t)
| Bases (entries : list CloudBaseEntry.t)
| Progression (entries : list CloudProgressionUnlock.t).
End Payload.

Module Page.
Record t := mk {
  projection_id : bytes;
  section : Z;
  page_index : N;
  payload : option Payload.t;
}.
End Page.

Module PageDescriptor.
Record t := mk {
  section : Z;
  page_index : N;
  entry_count : N;
  encoded_length : N;
  sha256 : bytes;
  first_sort_key : bytes;
  last_sort_key : bytes;
}.
End PageDescriptor.

Module SectionDescriptor.
Record t := mk {
  section : Z;
  state : option ProjectionSectionState.t;
  section_content_sha256 : bytes;
  page_count : N;
  total_encoded_length : N;
  pages : list PageDescriptor.t;
}.
End SectionDescriptor.

Module ProfileDescriptor.
Record t := mk {
  projection_id : bytes;
  section_count : N;
  total_page_count : N;
  total_entry_count : N;
  total_encoded_length : N;
  sections : list SectionDescriptor.t;
}.
End ProfileDescriptor.

Module PaginatedCloudProfile.
Record t := mk {
  pages : list Page.t;
  descriptor : ProfileDescriptor.t;
}.
End PaginatedCloudProfile.

(** ** Validation *)

Definition projection_completeness (field : string) (value : Z) := nonzero_enum field value ProjectionCompleteness.try_from.
Definition pal_gender (field : string) (value : Z) := nonzero_enum field value PalGender.try_from.
Definition progression_unlock_kind (field : string) (value : Z) := nonzero_enum field value CloudProgressionUnlockKind.try_from.

Definition validate_projection_state (state : ProjectionSectionState.t) (actual_entry_count : N) :
    result unit CanonicalError :=
  if u32_max <? actual_entry_count then Err (IntegerOverflow "state.projected_entry_count")
  else if negb (ProjectionSectionState.projected_entry_count state =? actual_entry_count) then
    Err (InvalidValue "state.projected_entry_count" "must equal the actual top-level entry count")
  else
    let? completeness := projection_completeness "state.completeness" (ProjectionSectionState.completeness state) in
    let expected := ProjectionSectionState.source_expected_record_count state in
    let observed := ProjectionSectionState.source_observed_record_count state in
    let counts_valid := match completeness with
      | ProjectionCompleteness.Complete => expected =? observed
      | ProjectionCompleteness.Partial => (0 <? expected) && (observed <=? expected)
      | ProjectionCompleteness.Unavailable =>
          (expected =? 0) && (observed =? 0) && (ProjectionSectionState.projected_entry_count state =? 0)
      | ProjectionCompleteness.Unknown => expected =? 0
      | ProjectionCompleteness.Unspecified => false
      end in
    if counts_valid then Ok tt
    else Err (InvalidValue "state" "counts do not match projection completeness semantics").

Definition validate_character_section (section : CloudCharacterContent.t) : result unit CanonicalError :=
  let entry_count := if is_some (CloudCharacterContent.character section) then 1 else 0 in
  let? state := required (CloudCharacterContent.state section) "character.state" in
  validate_projection_state state entry_count.

Definition validate_inventory_entry (keys : list bytes) (entry : CloudInventoryEntry.t) : result (list bytes) CanonicalError :=
  let? _ := inventory_container_kind "inventory.entries.container_kind" (CloudInventoryEntry.container_kind entry) in
  let? _ := validate_text_id "inventory.entries.item_id" (CloudInventoryEntry.item_id entry) in
  reject_duplicate keys "inventory.entries"
    (inventory_key (CloudInventoryEntry.container_kind entry) (CloudInventoryEntry.container_ordinal entry)
       (CloudInventoryEntry.slot_index entry)).

Definition validate_inventory_section (section : CloudInventoryContent.t) : result unit CanonicalError :=
  let? _ := check_count "inventory.entries" (len (CloudInventoryContent.entries section)) MAX_INVENTORY_ENTRIES in
  let? state := required (CloudInventoryContent.state section) "inventory.state" in
  let? _ := validate_projection_state state (len (CloudInventoryContent.entries section)) in
  let? _ := try_fold validate_inventory_entry [] (CloudInventoryContent.entries section) in
  Ok tt.

Definition validate_equipment_entry (keys : list bytes) (entry : CloudEquipmentEntry.t) : result (list bytes) CanonicalError :=
  let? _ := equipment_slot_kind "equipment.entries.slot_kind" (CloudEquipmentEntry.slot_kind entry) in
  let? _ := validate_text_id "equipment.entries.item_id" (CloudEquipmentEntry.item_id entry) in
  reject_duplicate keys "equipment.entries"
    (equipment_key (CloudEquipmentEntry.slot_kind entry) (CloudEquipmentEntry.slot_index entry)).

Definition validate_equipment_section (section : CloudEquipmentContent.t) : result unit CanonicalError :=
  let? _ := check_count "equipment.entries" (len (CloudEquipmentContent.entries section)) MAX_EQUIPMENT_ENTRIES in
  let? state := required (CloudEquipmentContent.state section) "equipment.state" in
  let? _ := validate_projection_state state (len (CloudEquipmentContent.entries section)) in
  let? _ := try_fold validate_equipment_entry [] (CloudEquipmentContent.entries section) in
  Ok tt.

(** The checks of one pal before it is compared with the others. *)
Definition check_pal_entry (pal : CloudPalEntry.t) : result unit CanonicalError :=
  let? _ := validate_len "pals.entries.pal_instance_id" (CloudPalEntry.pal_instance_id pal) 16 in
  let? _ := validate_text_id "pals.entries.species_id" (CloudPalEntry.species_id pal) in
  let? _ := pal_gender "pals.entries.gender" (CloudPalEntry.gender pal) in
  let? _ := check_count "pals.entries.passive_ids" (len (CloudPalEntry.passive_ids pal)) MAX_PASSIVE_IDS_PER_PAL in
  let? _ := check_count "pals.entries.active_skill_ids" (len (CloudPalEntry.active_skill_ids pal)) MAX_ACTIVE_SKILL_IDS_PER_PAL in
  let? _ := check_count "pals.entries.learned_skill_ids" (len (CloudPalEntry.learned_skill_ids pal)) MAX_LEARNED_SKILL_IDS_PER_PAL in
  let? _ := validate_text_ids "pals.entries.passive_ids" (CloudPalEntry.passive_ids pal) in
  let? _ := validate_text_ids "pals.entries.active_skill_ids" (CloudPalEntry.active_skill_ids pal) in
  let? _ := validate_text_ids "pals.entries.learned_skill_ids" (CloudPalEntry.learned_skill_ids pal) in
  let? _ := pal_container_kind "pals.entries.container_kind" (CloudPalEntry.container_kind pal) in
  validate_base_location "pals.entries.base_id" (CloudPalEntry.container_kind pal) (CloudPalEntry.base_id pal).

Definition pal_entry_location (pal : CloudPalEntry.t) : bytes :=
  pal_location_key (CloudPalEntry.container_kind pal) (CloudPalEntry.container_ordinal pal)
    (CloudPalEntry.slot_index pal) (CloudPalEntry.base_id pal).

Definition validate_pal_entry (sets : list bytes * list bytes) (pal : CloudPalEntry.t) :
    result (list bytes * list bytes) CanonicalError :=
  let (ids, locations) := sets in
  let? _ := check_pal_entry pal in
  let? ids := reject_duplicate ids "pals.entries.pal_instance_id" (CloudPalEntry.pal_instance_id pal) in
  let? locations := reject_duplicate locations "pals.entries.location" (pal_entry_location pal) in
  Ok (ids, locations).

Definition validate_pal_section (section : CloudPalContent.t) : result unit CanonicalError :=
  let? _ := check_count "pals.entries" (len (CloudPalContent.entries section)) MAX_PAL_ENTRIES in
  let? state := required (CloudPalContent.state section) "pals.state" in
  let? _ := validate_projection_state state (len (CloudPalContent.entries section)) in
  let? _ := try_fold validate_pal_entry ([], []) (CloudPalContent.entries section) in
  Ok tt.

Definition check_facility (facility : CloudBaseFacility.t) : result unit CanonicalError :=
  let? _ := validate_text_id "bases.entries.facilities.building_id" (CloudBaseFacility.building_id facility) in
  if CloudBaseFacility.count facility =? 0 then Err (InvalidValue "bases.entries.facilities.count" "count must be positive")
  else Ok tt.

Definition check_storage_item (item : CloudBaseStorageItem.t) : result unit CanonicalError :=
  let? _ := validate_text_id "bases.entries.storage_items.item_id" (CloudBaseStorageItem.item_id item) in
  if CloudBaseStorageItem.quantity item =? 0 then
    Err (InvalidValue "bases.entries.storage_items.quantity" "quantity must be positive")
  else Ok tt.

(** The sums of lengths in the loop over the bases: facilities, assigned pals, stored items. The
    type [usize] has 64 bits. *)
Definition add_total (field : string) (total count : N) : result N CanonicalError :=
  ok_or (checked_add total count) (IntegerOverflow field).

Definition validate_base_entry (acc : list bytes * (N * N * N)) (base : CloudBaseEntry.t) :
    result (list bytes * (N * N * N)) CanonicalError :=
  let '(base_ids, (facilities_total, assigned_total, storage_total)) := acc in
  let? _ := validate_len "bases.entries.base_id" (CloudBaseEntry.base_id base) 16 in
  let? _ := validate_text_id "bases.entries.location_id" (CloudBaseEntry.location_id base) in
  let? _ := check_count "bases.entries.facilities" (len (CloudBaseEntry.facilities base)) MAX_FACILITIES_PER_BASE in
  let? _ := check_count "bases.entries.storage_items" (len (CloudBaseEntry.storage_items base)) MAX_STORAGE_ITEMS_PER_BASE in
  let? facilities_total := add_total "bases.entries.facilities" facilities_total (len (CloudBaseEntry.facilities base)) in
  let? assigned_total := add_total "bases.entries.assigned_pal_instance_ids" assigned_total
                           (len (CloudBaseEntry.assigned_pal_instance_ids base)) in
  let? storage_total := add_total "bases.entries.storage_items" storage_total (len (CloudBaseEntry.storage_items base)) in
  let? _ := try_for_each check_facility (CloudBaseEntry.facilities base) in
  let? _ := try_for_each (λ assigned, validate_len "bases.entries.assigned_pal_instance_ids" assigned 16)
              (CloudBaseEntry.assigned_pal_instance_ids base) in
  let? _ := try_for_each check_storage_item (CloudBaseEntry.storage_items base) in
  let? base_ids := reject_duplicate base_ids "bases.entries.base_id" (CloudBaseEntry.base_id base) in
  Ok (base_ids, (facilities_total, assigned_total, storage_total)).

Definition validate_base_section (section : CloudBaseContent.t) : result unit CanonicalError :=
  let? _ := check_count "bases.entries" (len (CloudBaseContent.entries section)) MAX_BASE_ENTRIES in
  let? state := required (CloudBaseContent.state section) "bases.state" in
  let? _ := validate_projection_state state (len (CloudBaseContent.entries section)) in
  let? '(_, (facilities_total, assigned_total, storage_total)) :=
    try_fold validate_base_entry ([], (0, 0, 0)) (CloudBaseContent.entries section) in
  let? _ := check_count "bases.entries.facilities" facilities_total MAX_FACILITIES_TOTAL in
  let? _ := check_count "bases.entries.assigned_pal_instance_ids" assigned_total MAX_ASSIGNED_PALS_TOTAL in
  check_count "bases.entries.storage_items" storage_total MAX_STORAGE_ITEMS_TOTAL.

Definition validate_progression_entry (keys : list bytes) (entry : CloudProgressionUnlock.t) : result (list bytes) CanonicalError :=
  let? _ := progression_unlock_kind "progression.entries.kind" (CloudProgressionUnlock.kind entry) in
  let? _ := validate_text_id "progression.entries.unlock_id" (CloudProgressionUnlock.unlock_id entry) in
  reject_duplicate keys "progression.entries"
    (progression_key (CloudProgressionUnlock.kind entry) (CloudProgressionUnlock.unlock_id entry)).

Definition validate_progression_section (section : CloudProgressionContent.t) : result unit CanonicalError :=
  let? _ := check_count "progression.entries" (len (CloudProgressionContent.entries section)) MAX_PROGRESSION_ENTRIES in
  let? state := required (CloudProgressionContent.state section) "progression.state" in
  let? _ := validate_projection_state state (len (CloudProgressionContent.entries section)) in
  let? _ := try_fold validate_progression_entry [] (CloudProgressionContent.entries section) in
  Ok tt.

Definition validate_cloud_profile_projection (content : CloudProfileContent.t) : result unit CanonicalError :=
  if negb (CloudProfileContent.schema_version content =? 1) then
    Err (InvalidValue "schema_version" "expected schema version 1")
  else
    let? _ := validate_len "dataset_manifest_id" (CloudProfileContent.dataset_manifest_id content) 32 in
    let? _ := validate_text_id "game_build_id" (CloudProfileContent.game_build_id content) in
    let? character := required (CloudProfileContent.character content) "character" in
    let? _ := validate_character_section character in
    let? inventory := required (CloudProfileContent.inventory content) "inventory" in
    let? _ := validate_inventory_section inventory in
    let? equipment := required (CloudProfileContent.equipment content) "equipment" in
    let? _ := validate_equipment_section equipment in
    let? pals := required (CloudProfileContent.pals content) "pals" in
    let? _ := validate_pal_section pals in
    let? bases := required (CloudProfileContent.bases content) "bases" in
    let? _ := validate_base_section bases in
    let? progression := required (CloudProfileContent.progression content) "progression" in
    validate_progression_section progression.

(** ** The canonical form *)

Definition facility_pair (facility : CloudBaseFacility.t) : string * N :=
  (CloudBaseFacility.building_id facility, CloudBaseFacility.count facility).
Definition storage_pair (item : CloudBaseStorageItem.t) : string * N :=
  (CloudBaseStorageItem.item_id item, CloudBaseStorageItem.quantity item).

Definition canonicalize_cloud_base (base : CloudBaseEntry.t) : result CloudBaseEntry.t CanonicalError :=
  let? facilities := ok_or (sum_entries u32_max (map facility_pair (CloudBaseEntry.facilities base)))
                       (IntegerOverflow "bases.entries.facilities.count") in
  let base := base <| CloudBaseEntry.facilities := map (λ e, CloudBaseFacility.mk (fst e) (snd e)) facilities |>
    <| CloudBaseEntry.assigned_pal_instance_ids ::= sort_dedup bytes_cmp |> in
  let? storage := ok_or (sum_entries u64_max (map storage_pair (CloudBaseEntry.storage_items base)))
                    (IntegerOverflow "bases.entries.storage_items.quantity") in
  Ok (base <| CloudBaseEntry.storage_items := map (λ e, CloudBaseStorageItem.mk (fst e) (snd e)) storage |>).

Definition canonicalize_cloud_pal (pal : CloudPalEntry.t) : CloudPalEntry.t :=
  pal <| CloudPalEntry.passive_ids ::= sort_dedup_strings |>
    <| CloudPalEntry.active_skill_ids ::= sort_dedup_strings |>
    <| CloudPalEntry.learned_skill_ids ::= sort_dedup_strings |>.

Definition inventory_entry_key (entry : CloudInventoryEntry.t) : (Z * N) * N :=
  (CloudInventoryEntry.container_kind entry, CloudInventoryEntry.container_ordinal entry, CloudInventoryEntry.slot_index entry).
Definition equipment_entry_key (entry : CloudEquipmentEntry.t) : Z * N :=
  (CloudEquipmentEntry.slot_kind entry, CloudEquipmentEntry.slot_index entry).
Definition unlock_key (entry : CloudProgressionUnlock.t) : Z * bytes :=
  (CloudProgressionUnlock.kind entry, as_bytes (CloudProgressionUnlock.unlock_id entry)).

(** The keys that tell the entries of a section apart. *)
Definition inventory_stable_key (entry : CloudInventoryEntry.t) : bytes :=
  inventory_key (CloudInventoryEntry.container_kind entry) (CloudInventoryEntry.container_ordinal entry)
    (CloudInventoryEntry.slot_index entry).
Definition equipment_stable_key (entry : CloudEquipmentEntry.t) : bytes :=
  equipment_key (CloudEquipmentEntry.slot_kind entry) (CloudEquipmentEntry.slot_index entry).
Definition progression_stable_key (entry : CloudProgressionUnlock.t) : bytes :=
  progression_key (CloudProgressionUnlock.kind entry) (CloudProgressionUnlock.unlock_id entry).

(** Every message that is encoded. *)
Class Messages := {
  character_message :: Message CloudCharacterContent.t;
  inventory_message :: Message CloudInventoryContent.t;
  equipment_message :: Message CloudEquipmentContent.t;
  pals_message :: Message CloudPalContent.t;
  bases_message :: Message CloudBaseContent.t;
  progression_message :: Message CloudProgressionContent.t;
  profile_message :: Message CloudProfileContent.t;
  identity_message :: Message ProfileIdentity.t;
  page_message :: Message Page.t;
}.

Section profile.
Context {msgs : Messages} (sha256 : bytes → bytes).

Definition canonicalize_cloud_profile_sections (content : CloudProfileContent.t) :
    option (result CloudProfileContent.t CanonicalError) :=
  match validate_cloud_profile_projection content with
  | Err e => Some (Err e)
  | Ok _ =>
      inventory ← CloudProfileContent.inventory content;
      equipment ← CloudProfileContent.equipment content;
      pals ← CloudProfileContent.pals content;
      bases ← CloudProfileContent.bases content;
      progression ← CloudProfileContent.progression content;
      Some (
        let? base_entries := try_map canonicalize_cloud_base
          (sort_by_key bytes_cmp CloudBaseEntry.base_id (CloudBaseContent.entries bases)) in
        let content := content
          <| CloudProfileContent.inventory :=
              Some (inventory <| CloudInventoryContent.entries ::= sort_by_key slot_cmp inventory_entry_key |>) |>
          <| CloudProfileContent.equipment :=
              Some (equipment <| CloudEquipmentContent.entries ::=
                sort_by_key (pair_cmp Z.compare N.compare) equipment_entry_key |>) |>
          <| CloudProfileContent.pals :=
              Some (pals <| CloudPalContent.entries ::= λ entries,
                map canonicalize_cloud_pal (sort_by_key bytes_cmp CloudPalEntry.pal_instance_id entries) |>) |>
          <| CloudProfileContent.bases := Some (bases <| CloudBaseContent.entries := base_entries |>) |>
          <| CloudProfileContent.progression :=
              Some (progression <| CloudProgressionContent.entries ::=
                sort_by_key (pair_cmp Z.compare bytes_cmp) unlock_key |>) |> in
        let? _ := check_content_length (encoded_len content) in
        Ok content)
  end.

Definition canonical_cloud_profile_projection_content (content : CloudProfileContent.t) :
    option (result bytes CanonicalError) :=
  canonical ← canonicalize_cloud_profile_sections content;
  Some (let? canonical := canonical in
        let encoded := encode_to_vec canonical in
        let? _ := check_content_length (len encoded) in
        Ok encoded).

Definition section_identity {M} `{!Message M} (section : ProjectionSectionKind.t) (state : ProjectionSectionState.t)
    (content : M) : SectionIdentity.t :=
  SectionIdentity.mk (ProjectionSectionKind.as_i32 section) (Some state) (sha256 (encode_to_vec content)).

Definition canonical_profile_section_identities (content : CloudProfileContent.t) :
    result (list SectionIdentity.t) CanonicalError :=
  let? character := required (CloudProfileContent.character content) "character" in
  let? inventory := required (CloudProfileContent.inventory content) "inventory" in
  let? equipment := required (CloudProfileContent.equipment content) "equipment" in
  let? pals := required (CloudProfileContent.pals content) "pals" in
  let? bases := required (CloudProfileContent.bases content) "bases" in
  let? progression := required (CloudProfileContent.progression content) "progression" in
  let? character_state := required (CloudCharacterContent.state character) "character.state" in
  let? inventory_state := required (CloudInventoryContent.state inventory) "inventory.state" in
  let? equipment_state := required (CloudEquipmentContent.state equipment) "equipment.state" in
  let? pals_state := required (CloudPalContent.state pals) "pals.state" in
  let? bases_state := required (CloudBaseContent.state bases) "bases.state" in
  let? progression_state := required (CloudProgressionContent.state progression) "progression.state" in
  Ok [section_identity ProjectionSectionKind.Character character_state character;
      section_identity ProjectionSectionKind.Inventory inventory_state inventory;
      section_identity ProjectionSectionKind.Equipment equipment_state equipment;
      section_identity ProjectionSectionKind.Pals pals_state pals;
      section_identity ProjectionSectionKind.Bases bases_state bases;
      section_identity ProjectionSectionKind.Progression progression_state progression].

Definition canonical_cloud_profile_projection_identity (content : CloudProfileContent.t) :
    option (result bytes CanonicalError) :=
  canonical ← canonicalize_cloud_profile_sections content;
  Some (let? canonical := canonical in
        let? sections := canonical_profile_section_identities canonical in
        Ok (encode_to_vec (ProfileIdentity.mk (CloudProfileContent.schema_version canonical)
              (CloudProfileContent.dataset_manifest_id canonical) (CloudProfileContent.game_build_id canonical) sections))).

Definition cloud_profile_projection_id (content : CloudProfileContent.t) : option (result bytes CanonicalError) :=
  encoded ← canonical_cloud_profile_projection_identity content;
  Some (let? encoded := encoded in Ok (sha256 encoded)).

End profile.

(** ** What the validation of a section comes to *)

Lemma try_fold_set {A E} (f : list bytes → A → result (list bytes) E) (P : A → Prop) (key : A → bytes) s l :
  (∀ s x s', f s x = Ok s' ↔ P x ∧ (key x ∉ s) ∧ s' = key x :: s) →
  (∃ s', try_fold f s l = Ok s') ↔ Forall P l ∧ NoDup (key <$> l) ∧ ∀ x, x ∈ l → key x ∉ s.
Proof.
  intros Hf. revert s. induction l as [|x l IH]; intros s; cbn [try_fold].
  - split; [intros _|by eexists]. split; [constructor|split; [constructor|]]. intros x Hx. by apply elem_of_nil in Hx.
  - rewrite fmap_cons. split.
    + intros (s' & H). apply and_then_ok in H as (s1 & (HP & Hx & ->)%Hf & H).
      destruct (proj1 (IH (key x :: s)) (ex_intro _ _ H)) as (HPl & Hnd & Hl).
      split; [by constructor|split; [constructor; [|done]|]].
      * intros (y & Hxy & Hy)%list_elem_of_fmap. apply (Hl y Hy). rewrite <- Hxy. by left.
      * intros y [->|Hy]%elem_of_cons; [done|]. intros Hin. apply (Hl y Hy). by right.
    + intros (HP & Hnd & Hl). apply Forall_cons in HP as [HPx HP]. apply NoDup_cons in Hnd as [Hx Hnd].
      assert (f s x = Ok (key x :: s)) as Hs by (apply Hf; split; [done|split; [apply Hl; by left|done]]).
      rewrite Hs. cbn. apply IH. split; [done|split; [done|]]. intros y Hy.
      rewrite not_elem_of_cons. split; [|apply Hl; by right].
      intros Hxy. apply Hx. rewrite <- Hxy. by apply list_elem_of_fmap_2.
Qed.

Lemma try_fold_set_nil {A E} (f : list bytes → A → result (list bytes) E) (P : A → Prop) (key : A → bytes) l :
  (∀ s x s', f s x = Ok s' ↔ P x ∧ (key x ∉ s) ∧ s' = key x :: s) →
  (∃ s', try_fold f [] l = Ok s') ↔ Forall P l ∧ NoDup (key <$> l).
Proof.
  intros Hf. rewrite (try_fold_set f P key) by done. split; [naive_solver|].
  intros [HP Hnd]. split; [done|split; [done|]]. intros x _ Hx. by apply elem_of_nil in Hx.
Qed.

(** Takes the hypothesis or the goal [.. = Ok tt] of a chain of checks apart. *)
Lemma then_unit {A E} (r : result A E) : (let? _ := r in @Ok unit E tt) = Ok tt ↔ ∃ a, r = Ok a.
Proof. rewrite and_then_ok. naive_solver. Qed.

Lemma unit_then {E} (r k : result unit E) : (let? _ := r in k) = Ok tt ↔ r = Ok tt ∧ k = Ok tt.
Proof. rewrite and_then_ok. split; [by intros ([] & H)|by exists tt]. Qed.

Lemma check_count_ok field n m : check_count field n m = Ok tt ↔ n ≤ m.
Proof. unfold check_count. destruct (N.leb_spec n m); split; try done. lia. Qed.

Definition inventory_entry_ok (entry : CloudInventoryEntry.t) : Prop :=
  is_ok (inventory_container_kind "inventory.entries.container_kind" (CloudInventoryEntry.container_kind entry)) = true ∧
  validate_text_id "inventory.entries.item_id" (CloudInventoryEntry.item_id entry) = Ok tt.
Definition equipment_entry_ok (entry : CloudEquipmentEntry.t) : Prop :=
  is_ok (equipment_slot_kind "equipment.entries.slot_kind" (CloudEquipmentEntry.slot_kind entry)) = true ∧
  validate_text_id "equipment.entries.item_id" (CloudEquipmentEntry.item_id entry) = Ok tt.
Definition unlock_ok (entry : CloudProgressionUnlock.t) : Prop :=
  is_ok (progression_unlock_kind "progression.entries.kind" (CloudProgressionUnlock.kind entry)) = true ∧
  validate_text_id "progression.entries.unlock_id" (CloudProgressionUnlock.unlock_id entry) = Ok tt.

(** A step that checks the kind and the text of an entry and then its key. *)
Lemma checked_step {B} (kind : result B CanonicalError) (text : result unit CanonicalError) s field key s' :
  (let? _ := kind in let? _ := text in reject_duplicate s field key) = Ok s' ↔
  (is_ok kind = true ∧ text = Ok tt) ∧ (key ∉ s) ∧ s' = key :: s.
Proof.
  rewrite and_then_ok. setoid_rewrite and_then_ok. setoid_rewrite reject_duplicate_ok. split.
  - intros (b & -> & [] & -> & H). done.
  - intros ((Hk & ->) & H). destruct kind as [b|]; [|done]. exists b. split; [done|]. by exists tt.
Qed.

Section section_ok.
Context {T : Type} (entries : list T) (state : option ProjectionSectionState.t) (max : N).

(** The shape the sections share. *)
Definition section_ok (P : list T → Prop) : Prop :=
  len entries ≤ max ∧ (∃ st, state = Some st ∧ validate_projection_state st (len entries) = Ok tt) ∧ P entries.

Lemma section_ok_intro (P : list T → Prop) field missing (k : result unit CanonicalError) :
  (k = Ok tt ↔ P entries) →
  (let? _ := check_count field (len entries) max in
   let? st := required state missing in
   let? _ := validate_projection_state st (len entries) in k) = Ok tt ↔ section_ok P.
Proof.
  intros Hk. unfold section_ok, required. rewrite unit_then, check_count_ok. split.
  - intros (Hn & H). apply and_then_ok in H as (st & Hst%ok_or_ok & H). apply unit_then in H as [Hv H].
    apply Hk in H. eauto.
  - intros (Hn & (st & -> & Hv) & H). split; [done|]. cbn. apply unit_then. by rewrite Hk.
Qed.
End section_ok.

Lemma validate_inventory_exact s :
  validate_inventory_section s = Ok tt ↔
  section_ok (CloudInventoryContent.entries s) (CloudInventoryContent.state s) MAX_INVENTORY_ENTRIES
    (λ l, Forall inventory_entry_ok l ∧ NoDup (inventory_stable_key <$> l)).
Proof.
  apply section_ok_intro. rewrite then_unit.
  apply (try_fold_set_nil validate_inventory_entry). intros acc x acc'. apply checked_step.
Qed.

Lemma validate_equipment_exact s :
  validate_equipment_section s = Ok tt ↔
  section_ok (CloudEquipmentContent.entries s) (CloudEquipmentContent.state s) MAX_EQUIPMENT_ENTRIES
    (λ l, Forall equipment_entry_ok l ∧ NoDup (equipment_stable_key <$> l)).
Proof.
  apply section_ok_intro. rewrite then_unit.
  apply (try_fold_set_nil validate_equipment_entry). intros acc x acc'. apply checked_step.
Qed.

Lemma validate_progression_exact s :
  validate_progression_section s = Ok tt ↔
  section_ok (CloudProgressionContent.entries s) (CloudProgressionContent.state s) MAX_PROGRESSION_ENTRIES
    (λ l, Forall unlock_ok l ∧ NoDup (progression_stable_key <$> l)).
Proof.
  apply section_ok_intro. rewrite then_unit.
  apply (try_fold_set_nil validate_progression_entry). intros acc x acc'. apply checked_step.
Qed.

Lemma pal_step ids locations pal ids' locations' :
  validate_pal_entry (ids, locations) pal = Ok (ids', locations') ↔
  check_pal_entry pal = Ok tt ∧ (CloudPalEntry.pal_instance_id pal ∉ ids) ∧ (pal_entry_location pal ∉ locations) ∧
  ids' = CloudPalEntry.pal_instance_id pal :: ids ∧ locations' = pal_entry_location pal :: locations.
Proof.
  cbn [validate_pal_entry]. rewrite and_then_ok. setoid_rewrite and_then_ok. setoid_rewrite and_then_ok.
  setoid_rewrite reject_duplicate_ok. split.
  - intros ([] & Hc & i & (Hi & ->) & l & (Hl & ->) & [= <- <-]). done.
  - intros (Hc & Hi & Hl & -> & ->). exists tt. split; [done|]. eexists. split; [done|]. by eexists.
Qed.

Lemma pals_fold l ids locations :
  (∃ s, try_fold validate_pal_entry (ids, locations) l = Ok s) ↔
  Forall (λ p, check_pal_entry p = Ok tt) l ∧
  (NoDup (CloudPalEntry.pal_instance_id <$> l) ∧ ∀ p, p ∈ l → CloudPalEntry.pal_instance_id p ∉ ids) ∧
  (NoDup (pal_entry_location <$> l) ∧ ∀ p, p ∈ l → pal_entry_location p ∉ locations).
Proof.
  assert (∀ (key : CloudPalEntry.t → bytes) x l ks, key x ∉ ks →
    (NoDup (key <$> l) ∧ ∀ y, y ∈ l → key y ∉ key x :: ks) ↔
    (NoDup (key <$> x :: l) ∧ ∀ y, y ∈ x :: l → key y ∉ ks)) as Hkeys.
  { intros key x l0 ks Hx. rewrite fmap_cons, NoDup_cons. setoid_rewrite not_elem_of_cons.
    setoid_rewrite elem_of_cons. rewrite list_elem_of_fmap. split.
    - intros [Hnd Hl]. split; [split; [|done]|].
      + intros (y & Hxy & Hy). by destruct (Hl y Hy) as [[] _].
      + intros y [->|Hy]; [done|]. by apply Hl.
    - intros [[Hout Hnd] Hl]. split; [done|]. intros y Hy. split; [|by apply Hl; right].
      intros Hxy. apply Hout. by exists y. }
  revert ids locations. induction l as [|p l IH]; intros ids locations; cbn [try_fold].
  - split; [intros _|by eexists].
    split; [constructor|split; (split; [constructor|])]; intros p Hp; by apply elem_of_nil in Hp.
  - rewrite Forall_cons. split.
    + intros (s & H). apply and_then_ok in H as ([ids' locations'] & (Hc & Hi & Hl & -> & ->)%pal_step & H).
      destruct (proj1 (IH _ _) (ex_intro _ _ H)) as (HP & Hids & Hlocs).
      split; [done|split; by apply Hkeys].
    + intros ([Hc HP] & Hids & Hlocs).
      assert (CloudPalEntry.pal_instance_id p ∉ ids) as Hi by (apply Hids; by left).
      assert (pal_entry_location p ∉ locations) as Hl by (apply Hlocs; by left).
      rewrite (proj2 (pal_step ids locations p _ _) (conj Hc (conj Hi (conj Hl (conj eq_refl eq_refl))))).
      cbn [and_then]. apply IH. split; [done|split; by apply Hkeys].
Qed.

Lemma validate_pals_exact s :
  validate_pal_section s = Ok tt ↔
  section_ok (CloudPalContent.entries s) (CloudPalContent.state s) MAX_PAL_ENTRIES
    (λ l, Forall (λ p, check_pal_entry p = Ok tt) l ∧ NoDup (CloudPalEntry.pal_instance_id <$> l) ∧
      NoDup (pal_entry_location <$> l)).
Proof.
  apply section_ok_intro. rewrite then_unit, pals_fold.
  split; [naive_solver|]. intros (HP & Hi & Hl).
  split; [done|split; (split; [done|]); intros p _ Hp; by apply elem_of_nil in Hp].
Qed.

(** A base before it is compared with the others. *)
Definition base_ok (b : CloudBaseEntry.t) : Prop :=
  validate_len "bases.entries.base_id" (CloudBaseEntry.base_id b) 16 = Ok tt ∧
  validate_text_id "bases.entries.location_id" (CloudBaseEntry.location_id b) = Ok tt ∧
  len (CloudBaseEntry.facilities b) ≤ MAX_FACILITIES_PER_BASE ∧
  len (CloudBaseEntry.storage_items b) ≤ MAX_STORAGE_ITEMS_PER_BASE ∧
  Forall (λ f, check_facility f = Ok tt) (CloudBaseEntry.facilities b) ∧
  Forall (λ a, validate_len "bases.entries.assigned_pal_instance_ids" a 16 = Ok tt)
    (CloudBaseEntry.assigned_pal_instance_ids b) ∧
  Forall (λ i, check_storage_item i = Ok tt) (CloudBaseEntry.storage_items b).

Definition facility_len (b : CloudBaseEntry.t) : N := len (CloudBaseEntry.facilities b).
Definition assigned_len (b : CloudBaseEntry.t) : N := len (CloudBaseEntry.assigned_pal_instance_ids b).
Definition storage_len (b : CloudBaseEntry.t) : N := len (CloudBaseEntry.storage_items b).

Lemma add_total_ok field a b c : add_total field a b = Ok c ↔ c = a + b ∧ a + b ≤ u64_max.
Proof. unfold add_total. by rewrite ok_or_ok, checked_add_some. Qed.

Lemma base_step ids a b c base r :
  validate_base_entry (ids, (a, b, c)) base = Ok r ↔
  base_ok base ∧ (CloudBaseEntry.base_id base ∉ ids) ∧
  a + facility_len base ≤ u64_max ∧ b + assigned_len base ≤ u64_max ∧ c + storage_len base ≤ u64_max ∧
  r = (CloudBaseEntry.base_id base :: ids, (a + facility_len base, b + assigned_len base, c + storage_len base)).
Proof.
  cbn [validate_base_entry]. unfold base_ok. split.
  - intros H. inv_ok H. injection H as <-.
    repeat lazymatch goal with
    | H : check_count _ _ _ = Ok ?u |- _ => destruct u; apply check_count_ok in H
    | H : add_total _ _ _ = Ok _ |- _ => apply add_total_ok in H as [-> H]
    | H : try_for_each _ _ = Ok ?u |- _ => destruct u; apply try_for_each_ok in H
    | H : reject_duplicate _ _ _ = Ok _ |- _ => apply reject_duplicate_ok in H as [H ->]
    | u : () |- _ => destruct u
    end. done.
  - intros ((H1 & H2 & H3 & H4 & H5 & H6 & H7) & Hid & Ha & Hb & Hc & ->).
    rewrite H1, H2. cbn. rewrite (proj2 (check_count_ok _ _ _) H3), (proj2 (check_count_ok _ _ _) H4). cbn.
    rewrite (proj2 (add_total_ok _ _ _ _) (conj eq_refl Ha)). cbn.
    rewrite (proj2 (add_total_ok _ _ _ _) (conj eq_refl Hb)). cbn.
    rewrite (proj2 (add_total_ok _ _ _ _) (conj eq_refl Hc)). cbn.
    apply try_for_each_ok in H5, H6, H7. rewrite H5. cbn. rewrite H6. cbn. rewrite H7. cbn.
    by rewrite (proj2 (reject_duplicate_ok _ _ _ _) (conj Hid eq_refl)).
Qed.

(** The sum of a size over the bases. *)
Definition sum_of (g : CloudBaseEntry.t → N) (l : list CloudBaseEntry.t) : N := foldr (λ b n, g b + n) 0 l.

Lemma sum_of_cons g x l : sum_of g (x :: l) = g x + sum_of g l.
Proof. done. Qed.

Lemma sum_of_perm g l l' : l ≡ₚ l' → sum_of g l = sum_of g l'.
Proof. induction 1; rewrite ?sum_of_cons; lia. Qed.

Lemma bases_fold l ids a b c r :
  try_fold validate_base_entry (ids, (a, b, c)) l = Ok r →
  Forall base_ok l ∧ (NoDup (CloudBaseEntry.base_id <$> l) ∧ ∀ x, x ∈ l → CloudBaseEntry.base_id x ∉ ids) ∧
  snd r = (a + sum_of facility_len l, b + sum_of assigned_len l, c + sum_of storage_len l).
Proof.
  revert ids a b c. induction l as [|x l IH]; intros ids a b c; cbn [try_fold].
  - intros [= <-]. split; [constructor|split; [split; [constructor|]|]].
    + intros x Hx. by apply elem_of_nil in Hx.
    + cbn. by rewrite !N.add_0_r.
  - intros (r1 & (Hx & Hid & _ & _ & _ & ->)%base_step & H)%and_then_ok.
    destruct (IH _ _ _ _ H) as (HP & [Hnd Hl] & ->). split; [by constructor|split; [split|]].
    + rewrite fmap_cons. constructor; [|done]. intros (y & Hxy & Hy)%list_elem_of_fmap.
      apply (Hl y Hy). rewrite <- Hxy. by left.
    + intros y [->|Hy]%elem_of_cons; [done|]. intros Hin. apply (Hl y Hy). by right.
    + rewrite !sum_of_cons. cbn [snd]. by rewrite !N.add_assoc.
Qed.

Lemma bases_fold_total l ids a b c :
  Forall base_ok l → NoDup (CloudBaseEntry.base_id <$> l) → (∀ x, x ∈ l → CloudBaseEntry.base_id x ∉ ids) →
  a + sum_of facility_len l ≤ u64_max → b + sum_of assigned_len l ≤ u64_max →
  c + sum_of storage_len l ≤ u64_max →
  ∃ r, try_fold validate_base_entry (ids, (a, b, c)) l = Ok r.
Proof.
  revert ids a b c. induction l as [|x l IH]; intros ids a b c; cbn [try_fold]; [by eexists|].
  intros [Hx HP]%Forall_cons Hnd Hl Ha Hb Hc. apply NoDup_cons in Hnd as [Hout Hnd].
  rewrite sum_of_cons in Ha, Hb, Hc.
  assert (validate_base_entry (ids, (a, b, c)) x = Ok (CloudBaseEntry.base_id x :: ids,
    (a + facility_len x, b + assigned_len x, c + storage_len x))) as ->.
  { apply base_step. split; [done|split; [apply Hl; by left|]].
    split; [lia|split; [lia|split; [lia|done]]]. }
  cbn [and_then]. apply IH; [done..| |lia|lia|lia].
  intros y Hy. rewrite not_elem_of_cons. split; [|apply Hl; by right].
  intros Hxy. apply Hout. apply list_elem_of_fmap. by exists y.
Qed.

Lemma validate_bases_exact s :
  validate_base_section s = Ok tt ↔
  section_ok (CloudBaseContent.entries s) (CloudBaseContent.state s) MAX_BASE_ENTRIES
    (λ l, Forall base_ok l ∧ NoDup (CloudBaseEntry.base_id <$> l) ∧ sum_of facility_len l ≤ MAX_FACILITIES_TOTAL ∧
      sum_of assigned_len l ≤ MAX_ASSIGNED_PALS_TOTAL ∧ sum_of storage_len l ≤ MAX_STORAGE_ITEMS_TOTAL).
Proof.
  apply section_ok_intro. split.
  - intros H. apply and_then_ok in H as ([ids [[a b] c]] & Hf & H).
    apply bases_fold in Hf as (HP & [Hnd _] & [= -> -> ->]).
    apply unit_then in H as [H1%check_count_ok H]. apply unit_then in H as [H2%check_count_ok H3%check_count_ok].
    rewrite !N.add_0_l in *. done.
  - intros (HP & Hnd & H1 & H2 & H3).
    assert (∀ n m, n ≤ m → m ≤ 100000 → 0 + n ≤ u64_max) as Hsmall by (intros; int_lia).
    destruct (bases_fold_total (CloudBaseContent.entries s) [] 0 0 0) as [[ids [[a b] c]] Hf]; [done|done|..].
    { intros x _ Hx. by apply elem_of_nil in Hx. }
    1-3: by eapply Hsmall.
    rewrite Hf. cbn [and_then]. apply bases_fold in Hf as (_ & _ & [= -> -> ->]). rewrite !N.add_0_l.
    by rewrite !unit_then, !check_count_ok.
Qed.

(** ** Canonical entries stay valid *)

Lemma sort_dedup_len {K} `{EqDecision K} (cmp : K → K → comparison) (l : list K) : len (sort_dedup cmp l) ≤ len l.
Proof. unfold len. pose proof (sort_dedup_length cmp l). lia. Qed.

Lemma text_ids_sorted field l u :
  validate_text_ids field l = Ok u → validate_text_ids field (sort_dedup_strings l) = Ok u.
Proof.
  destruct u. unfold validate_text_ids. rewrite !try_for_each_ok, !Forall_forall. intros H x Hx.
  apply H. by apply (elem_of_sort_dedup str_cmp).
Qed.

Lemma check_count_sorted field l max u :
  check_count field (len l) max = Ok u → check_count field (len (sort_dedup_strings l)) max = Ok u.
Proof.
  destruct u. rewrite !check_count_ok. intros H. pose proof (sort_dedup_len str_cmp l) as Hl.
  unfold sort_dedup_strings. lia.
Qed.

Lemma canonical_pal_ok p : check_pal_entry p = Ok tt → check_pal_entry (canonicalize_cloud_pal p) = Ok tt.
Proof.
  unfold check_pal_entry. intros H. inv_ok H.
  repeat (apply and_then_ok; eexists; split;
    [first [eassumption | eapply check_count_sorted; eassumption | eapply text_ids_sorted; eassumption]|]).
  exact H.
Qed.

Lemma canonical_cloud_base_ok b b' :
  canonicalize_cloud_base b = Ok b' ↔
  ∃ fs ss, sum_entries u32_max (map facility_pair (CloudBaseEntry.facilities b)) = Some fs ∧
    sum_entries u64_max (map storage_pair (CloudBaseEntry.storage_items b)) = Some ss ∧
    b' = b <| CloudBaseEntry.facilities := map (λ e, CloudBaseFacility.mk (fst e) (snd e)) fs |>
      <| CloudBaseEntry.assigned_pal_instance_ids ::= sort_dedup bytes_cmp |>
      <| CloudBaseEntry.storage_items := map (λ e, CloudBaseStorageItem.mk (fst e) (snd e)) ss |>.
Proof.
  unfold canonicalize_cloud_base. split.
  - intros H. inv_ok H. apply ok_or_ok in H0, H1. injection H as <-. by exists x, x0.
  - intros (fs & ss & Hf & Hs & ->). rewrite Hf. destruct b; cbn in *. by rewrite Hs.
Qed.

(** What the sums of [l] inherit: the keys, positive values, and no more entries than [l]. *)
Lemma sum_entries_keeps (P : string → Prop) max l m :
  sum_entries max l = Some m → Forall (λ e, P (fst e) ∧ snd e ≠ 0) l →
  Forall (λ e, P (fst e) ∧ snd e ≠ 0) m ∧ (length m ≤ length l)%nat.
Proof.
  intros Hm Hl. pose proof (sum_entries_spec max l) as Hs. rewrite Hm in Hs. destruct Hs as [_ [Hsort Hs]].
  split.
  - apply Forall_forall. intros [k v] [Hk ->]%Hs. cbn.
    apply list_elem_of_fmap in Hk as ([k' v'] & -> & Hin).
    destruct (proj1 (Forall_forall _ _) Hl _ Hin) as [HP Hv]. cbn in HP, Hv |- *. split; [done|].
    clear -Hin Hv. induction l as [|[k v] l IH]; [by apply elem_of_nil in Hin|].
    apply elem_of_cons in Hin as [[= <- <-]|Hin]; cbn [total]; [rewrite bool_decide_true by done; lia|].
    specialize (IH Hin). lia.
  - rewrite <- (length_fmap fst m), <- (length_fmap fst l). apply (submseteq_length), NoDup_submseteq.
    + by apply (strict_NoDup str_cmp).
    + intros k ([k' v] & -> & Hin)%list_elem_of_fmap. apply Hs in Hin. by destruct Hin.
Qed.

Lemma check_facility_ok f :
  check_facility f = Ok tt ↔
  validate_text_id "bases.entries.facilities.building_id" (fst (facility_pair f)) = Ok tt ∧ snd (facility_pair f) ≠ 0.
Proof.
  unfold check_facility. rewrite unit_then. cbn [facility_pair fst snd].
  destruct (N.eqb_spec (CloudBaseFacility.count f) 0); naive_solver.
Qed.

Lemma check_storage_ok i :
  check_storage_item i = Ok tt ↔
  validate_text_id "bases.entries.storage_items.item_id" (fst (storage_pair i)) = Ok tt ∧ snd (storage_pair i) ≠ 0.
Proof.
  unfold check_storage_item. rewrite unit_then. cbn [storage_pair fst snd].
  destruct (N.eqb_spec (CloudBaseStorageItem.quantity i) 0); naive_solver.
Qed.

Lemma facilities_kept max fs m :
  sum_entries max (map facility_pair fs) = Some m → Forall (λ f, check_facility f = Ok tt) fs →
  Forall (λ f, check_facility f = Ok tt) (map (λ e, CloudBaseFacility.mk (fst e) (snd e)) m) ∧
  (length m ≤ length fs)%nat.
Proof.
  intros Hm Hf.
  destruct (sum_entries_keeps (λ id, validate_text_id "bases.entries.facilities.building_id" id = Ok tt) _ _ _ Hm)
    as [Hk Hl].
  { apply Forall_fmap. eapply Forall_impl; [exact Hf|]. intros f. apply check_facility_ok. }
  rewrite length_map in Hl. split; [|done]. apply Forall_fmap. eapply Forall_impl; [exact Hk|].
  intros [k v]. apply (check_facility_ok (CloudBaseFacility.mk k v)).
Qed.

Lemma storage_kept max ss m :
  sum_entries max (map storage_pair ss) = Some m → Forall (λ i, check_storage_item i = Ok tt) ss →
  Forall (λ i, check_storage_item i = Ok tt) (map (λ e, CloudBaseStorageItem.mk (fst e) (snd e)) m) ∧
  (length m ≤ length ss)%nat.
Proof.
  intros Hm Hf.
  destruct (sum_entries_keeps (λ id, validate_text_id "bases.entries.storage_items.item_id" id = Ok tt) _ _ _ Hm)
    as [Hk Hl].
  { apply Forall_fmap. eapply Forall_impl; [exact Hf|]. intros f. apply check_storage_ok. }
  rewrite length_map in Hl. split; [|done]. apply Forall_fmap. eapply Forall_impl; [exact Hk|].
  intros [k v]. apply (check_storage_ok (CloudBaseStorageItem.mk k v)).
Qed.

Lemma canonical_base_entry_ok b b' :
  base_ok b → canonicalize_cloud_base b = Ok b' →
  base_ok b' ∧ facility_len b' ≤ facility_len b ∧ assigned_len b' ≤ assigned_len b ∧ storage_len b' ≤ storage_len b.
Proof.
  intros (H1 & H2 & H3 & H4 & H5 & H6 & H7) (fs & ss & Hf & Hs & ->)%canonical_cloud_base_ok.
  destruct (facilities_kept _ _ _ Hf H5) as [Hfs Hfl], (storage_kept _ _ _ Hs H7) as [Hss Hsl].
  pose proof (sort_dedup_len bytes_cmp (CloudBaseEntry.assigned_pal_instance_ids b)) as Hal.
  unfold base_ok, facility_len, assigned_len, storage_len, len in *.
  destruct b as [id loc lvl fac ass sto]. cbn -[sort_dedup] in *. rewrite !length_map. repeat (split; [done || lia|]).
  split; [|lia]. repeat split; try done; try lia.
  apply Forall_forall. intros a Ha. rewrite Forall_forall in H6. apply H6. by apply (elem_of_sort_dedup bytes_cmp ass).
Qed.

(** ** Canonical sections are valid and canonical *)

Lemma section_ok_same {T} (l l' : list T) st max P :
  section_ok l st max P → length l = length l' → P l' → section_ok l' st max P.
Proof. unfold section_ok, len. intros (Hn & Hst & _) Hl HP. by rewrite <- Hl. Qed.

(** Sorting entries with distinct keys: they are a permutation with the keys in order. *)
Lemma sorted_section {A K} (cmp : K → K → comparison) `{!KeyOrder cmp} (skey : A → K) (key : A → bytes) (g : K → bytes)
    (Q : A → Prop) l :
  (∀ x, key x = g (skey x)) → Forall Q l ∧ NoDup (key <$> l) →
  let l' := sort_by_key cmp skey l in
  length l = length l' ∧ (Forall Q l' ∧ NoDup (key <$> l')) ∧ sort_by_key cmp skey l' = l'.
Proof.
  intros Hg [HQ Hnd] l'. assert (l' ≡ₚ l) as Hp by apply sort_by_key_Permutation.
  split; [by rewrite Hp|split; [by rewrite Hp|]].
  apply sort_by_key_id; [done|]. apply sort_by_key_strict; [done|]. by apply (NoDup_sort_key key g).
Qed.

Lemma inventory_canonical s :
  validate_inventory_section s = Ok tt →
  let s' := s <| CloudInventoryContent.entries ::= sort_by_key slot_cmp inventory_entry_key |> in
  validate_inventory_section s' = Ok tt ∧ s' <| CloudInventoryContent.entries ::= sort_by_key slot_cmp inventory_entry_key |> = s'.
Proof.
  intros H%validate_inventory_exact s'. rewrite validate_inventory_exact. subst s'. pose proof H as (_ & _ & HP).
  eapply (sorted_section slot_cmp inventory_entry_key inventory_stable_key
    (λ k, inventory_key k.1.1 k.1.2 k.2)) in HP as (Hl & HP & Hs); [|done].
  destruct s. cbn -[sort_by_key] in *. split; [by eapply section_ok_same; [exact H|..]|by rewrite Hs].
Qed.

Lemma equipment_canonical s :
  validate_equipment_section s = Ok tt →
  let s' := s <| CloudEquipmentContent.entries ::= sort_by_key (pair_cmp Z.compare N.compare) equipment_entry_key |> in
  validate_equipment_section s' = Ok tt ∧
  s' <| CloudEquipmentContent.entries ::= sort_by_key (pair_cmp Z.compare N.compare) equipment_entry_key |> = s'.
Proof.
  intros H%validate_equipment_exact s'. rewrite validate_equipment_exact. subst s'. pose proof H as (_ & _ & HP).
  eapply (sorted_section (pair_cmp Z.compare N.compare) equipment_entry_key equipment_stable_key
    (λ k, equipment_key k.1 k.2)) in HP as (Hl & HP & Hs); [|done].
  destruct s. cbn -[sort_by_key] in *. split; [by eapply section_ok_same; [exact H|..]|by rewrite Hs].
Qed.

Lemma progression_canonical s :
  validate_progression_section s = Ok tt →
  let s' := s <| CloudProgressionContent.entries ::= sort_by_key (pair_cmp Z.compare bytes_cmp) unlock_key |> in
  validate_progression_section s' = Ok tt ∧
  s' <| CloudProgressionContent.entries ::= sort_by_key (pair_cmp Z.compare bytes_cmp) unlock_key |> = s'.
Proof.
  intros H%validate_progression_exact s'. rewrite validate_progression_exact. subst s'. pose proof H as (_ & _ & HP).
  eapply (sorted_section (pair_cmp Z.compare bytes_cmp) unlock_key progression_stable_key
    (λ k, u32_be (i32_as_u32 k.1) ++ Byte.x00 :: k.2)) in HP as (Hl & HP & Hs); [|done].
  destruct s. cbn -[sort_by_key] in *. split; [by eapply section_ok_same; [exact H|..]|by rewrite Hs].
Qed.

Lemma canonical_pal_idemp p : canonicalize_cloud_pal (canonicalize_cloud_pal p) = canonicalize_cloud_pal p.
Proof.
  destruct p. unfold canonicalize_cloud_pal, sort_dedup_strings. cbn -[sort_dedup].
  by rewrite !(sort_dedup_idemp str_cmp).
Qed.

Lemma pals_canonical s :
  validate_pal_section s = Ok tt →
  let sort := λ entries, map canonicalize_cloud_pal (sort_by_key bytes_cmp CloudPalEntry.pal_instance_id entries) in
  let s' := s <| CloudPalContent.entries ::= sort |> in
  validate_pal_section s' = Ok tt ∧ s' <| CloudPalContent.entries ::= sort |> = s'.
Proof.
  intros H%validate_pals_exact sort s'. rewrite validate_pals_exact. subst s' sort. pose proof H as (_ & _ & HP & Hid & Hloc).
  destruct s as [st l]. cbn -[sort_by_key] in *.
  pose proof (sort_by_key_Permutation bytes_cmp CloudPalEntry.pal_instance_id l) as Hp.
  set (l1 := sort_by_key bytes_cmp CloudPalEntry.pal_instance_id l) in *.
  assert (CloudPalEntry.pal_instance_id <$> map canonicalize_cloud_pal l1 = CloudPalEntry.pal_instance_id <$> l1) as Hids.
  { rewrite <- list_fmap_compose. by apply list_fmap_ext. }
  split.
  - eapply section_ok_same; [done|by rewrite length_map, Hp|]. split; [|split].
    + apply Forall_fmap. rewrite Hp. eapply Forall_impl; [exact HP|]. intros p. apply canonical_pal_ok.
    + by rewrite Hids, Hp.
    + replace (pal_entry_location <$> map canonicalize_cloud_pal l1) with (pal_entry_location <$> l1).
      * by rewrite Hp.
      * rewrite <- list_fmap_compose. by apply list_fmap_ext.
  - f_equal. rewrite sort_by_key_id; [|apply _|].
    + rewrite map_map. apply map_ext, canonical_pal_idemp.
    + rewrite Hids. by apply (sort_by_key_strict bytes_cmp).
Qed.

Lemma cloud_base_id b b' : canonicalize_cloud_base b = Ok b' → CloudBaseEntry.base_id b' = CloudBaseEntry.base_id b.
Proof. by intros (fs & ss & _ & _ & ->)%canonical_cloud_base_ok. Qed.

Lemma cloud_base_idemp b b' : canonicalize_cloud_base b = Ok b' → canonicalize_cloud_base b' = Ok b'.
Proof.
  intros (fs & ss & Hf%sum_entries_idemp & Hs%sum_entries_idemp & ->)%canonical_cloud_base_ok.
  assert (map facility_pair (map (λ e, CloudBaseFacility.mk (fst e) (snd e)) fs) = fs) as Hfs.
  { rewrite map_map. rewrite <- (map_id fs) at 2. by apply map_ext; intros []. }
  assert (map storage_pair (map (λ e, CloudBaseStorageItem.mk (fst e) (snd e)) ss) = ss) as Hss.
  { rewrite map_map. rewrite <- (map_id ss) at 2. by apply map_ext; intros []. }
  apply canonical_cloud_base_ok. exists fs, ss. destruct b. cbn -[sort_dedup]. rewrite Hfs, Hss.
  split; [done|split; [done|]]. by rewrite (sort_dedup_idemp bytes_cmp).
Qed.

Lemma bases_canonical s l' :
  validate_base_section s = Ok tt →
  try_map canonicalize_cloud_base (sort_by_key bytes_cmp CloudBaseEntry.base_id (CloudBaseContent.entries s)) = Ok l' →
  validate_base_section (s <| CloudBaseContent.entries := l' |>) = Ok tt ∧
  try_map canonicalize_cloud_base (sort_by_key bytes_cmp CloudBaseEntry.base_id l') = Ok l'.
Proof.
  rewrite !validate_bases_exact. intros H Hm. pose proof H as (_ & _ & HP & Hnd & H1 & H2 & H3).
  destruct s as [st l]. cbn -[sort_by_key sum_of] in *.
  pose proof (try_map_key CloudBaseEntry.base_id canonicalize_cloud_base cloud_base_id _ _ Hm) as Hkeys.
  pose proof (canonical_list_id bytes_cmp CloudBaseEntry.base_id canonicalize_cloud_base cloud_base_id _ _
    cloud_base_idemp Hnd Hm) as Hid.
  pose proof (sort_by_key_Permutation bytes_cmp CloudBaseEntry.base_id l) as Hp.
  set (l1 := sort_by_key bytes_cmp CloudBaseEntry.base_id l) in *. split; [|done].
  apply try_map_ok in Hm.
  assert (Forall base_ok l1) as HP1 by (by rewrite Hp).
  assert (Forall base_ok l' ∧ sum_of facility_len l' ≤ sum_of facility_len l1 ∧
    sum_of assigned_len l' ≤ sum_of assigned_len l1 ∧ sum_of storage_len l' ≤ sum_of storage_len l1) as (HP' & Hs1 & Hs2 & Hs3).
  { clear -Hm HP1. induction Hm as [|b b' l1 l' Hb _ IH]; [done|]. apply Forall_cons in HP1 as [Hbok HP1].
    destruct (canonical_base_entry_ok _ _ Hbok Hb) as (Hb' & Ha & Hc & Hd). destruct (IH HP1) as (HP' & Hs).
    rewrite !sum_of_cons. split; [by constructor|lia]. }
  eapply section_ok_same; [done|by rewrite <- (Forall2_length _ _ _ Hm), Hp|].
  split; [done|split; [by rewrite Hkeys, Hp|]].
  rewrite (sum_of_perm _ _ _ Hp) in Hs1. rewrite (sum_of_perm _ _ _ Hp) in Hs2.
  rewrite (sum_of_perm _ _ _ Hp) in Hs3. lia.
Qed.

(** ** The canonical form of a profile *)

(** The sections of a valid profile. *)
Record profile_sections (c : CloudProfileContent.t) (character : CloudCharacterContent.t)
    (inventory : CloudInventoryContent.t) (equipment : CloudEquipmentContent.t) (pals : CloudPalContent.t)
    (bases : CloudBaseContent.t) (progression : CloudProgressionContent.t) : Prop := {
  has_character : CloudProfileContent.character c = Some character;
  has_inventory : CloudProfileContent.inventory c = Some inventory;
  has_equipment : CloudProfileContent.equipment c = Some equipment;
  has_pals : CloudProfileContent.pals c = Some pals;
  has_bases : CloudProfileContent.bases c = Some bases;
  has_progression : CloudProfileContent.progression c = Some progression;
  valid_header : CloudProfileContent.schema_version c = 1 ∧
    validate_len "dataset_manifest_id" (CloudProfileContent.dataset_manifest_id c) 32 = Ok tt ∧
    validate_text_id "game_build_id" (CloudProfileContent.game_build_id c) = Ok tt;
  valid_character : validate_character_section character = Ok tt;
  valid_inventory : validate_inventory_section inventory = Ok tt;
  valid_equipment : validate_equipment_section equipment = Ok tt;
  valid_pals : validate_pal_section pals = Ok tt;
  valid_bases : validate_base_section bases = Ok tt;
  valid_progression : validate_progression_section progression = Ok tt;
}.

Lemma validate_profile_exact c :
  validate_cloud_profile_projection c = Ok tt ↔
  ∃ ch i e p b g, profile_sections c ch i e p b g.
Proof.
  unfold validate_cloud_profile_projection, required. split.
  - destruct (N.eqb_spec (CloudProfileContent.schema_version c) 1) as [Hv|]; [cbn [negb]|done]. intros H. inv_ok H.
    repeat match goal with
    | H : ok_or _ _ = Ok _ |- _ => apply ok_or_ok in H
    | u : () |- _ => destruct u
    end.
    eexists _, _, _, _, _, _. split; try done.
    unfold validate_progression_section. rewrite H13, H14. cbn [and_then]. rewrite H15. cbn [and_then]. by rewrite H16.
  - intros (ch & i & e & p & b & g & [-> -> -> -> -> -> (-> & Hd & Hb) H1 H2 H3 H4 H5 H6]).
    rewrite N.eqb_refl. cbn [negb ok_or].
    rewrite Hd, Hb. cbn [and_then]. rewrite H1. cbn [and_then]. rewrite H2. cbn [and_then].
    rewrite H3. cbn [and_then]. rewrite H4. cbn [and_then]. rewrite H5. by cbn [and_then].
Qed.

Section profile_facts.
Context {msgs : Messages} (sha256 : bytes → bytes).

(** The sections that [canonicalize_cloud_profile_sections] makes. *)
Definition canonical_sections (c : CloudProfileContent.t) (i : CloudInventoryContent.t) (e : CloudEquipmentContent.t)
    (p : CloudPalContent.t) (b : CloudBaseContent.t) (g : CloudProgressionContent.t) (l : list CloudBaseEntry.t) :
    CloudProfileContent.t :=
  c <| CloudProfileContent.inventory :=
      Some (i <| CloudInventoryContent.entries ::= sort_by_key slot_cmp inventory_entry_key |>) |>
    <| CloudProfileContent.equipment :=
      Some (e <| CloudEquipmentContent.entries ::= sort_by_key (pair_cmp Z.compare N.compare) equipment_entry_key |>) |>
    <| CloudProfileContent.pals :=
      Some (p <| CloudPalContent.entries ::= λ entries,
        map canonicalize_cloud_pal (sort_by_key bytes_cmp CloudPalEntry.pal_instance_id entries) |>) |>
    <| CloudProfileContent.bases := Some (b <| CloudBaseContent.entries := l |>) |>
    <| CloudProfileContent.progression :=
      Some (g <| CloudProgressionContent.entries ::= sort_by_key (pair_cmp Z.compare bytes_cmp) unlock_key |>) |>.

Lemma canonicalize_profile_ok c k :
  canonicalize_cloud_profile_sections c = Some (Ok k) ↔
  ∃ ch i e p b g l, profile_sections c ch i e p b g ∧
    try_map canonicalize_cloud_base (sort_by_key bytes_cmp CloudBaseEntry.base_id (CloudBaseContent.entries b)) = Ok l ∧
    k = canonical_sections c i e p b g l ∧ len (encode_to_vec k) ≤ MAX_CANONICAL_CONTENT_LEN.
Proof.
  unfold canonicalize_cloud_profile_sections, check_content_length. split.
  - destruct (validate_cloud_profile_projection c) as [[]|] eqn:Hv; [|done].
    apply validate_profile_exact in Hv as (ch & i & e & p & b & g & Hsec). pose proof Hsec as [_ -> -> -> -> -> _ _ _ _ _ _ _].
    cbn [mbind option_bind]. intros [= (l & Hl & Hk)%and_then_ok].
    apply and_then_ok in Hk as ([] & Hn & [= <-]). exists ch, i, e, p, b, g, l.
    split; [done|split; [done|split; [done|]]]. rewrite encoded_len_exact in Hn.
    destruct (_ <=? _) eqn:Hle in Hn; [|done]. by apply N.leb_le in Hle.
  - intros (ch & i & e & p & b & g & l & Hsec & Hl & -> & Hn).
    rewrite (proj2 (validate_profile_exact c)) by (by eexists _, _, _, _, _, _).
    destruct Hsec as [_ -> -> -> -> -> _ _ _ _ _ _ _]. cbn [mbind option_bind]. rewrite Hl. cbn [and_then].
    rewrite encoded_len_exact. apply N.leb_le in Hn. unfold canonical_sections in Hn. by rewrite Hn.
Qed.

(** The canonical form is valid, and its own canonical form. *)
Lemma canonicalize_profile_idemp c k :
  canonicalize_cloud_profile_sections c = Some (Ok k) → canonicalize_cloud_profile_sections k = Some (Ok k).
Proof.
  intros (ch & i & e & p & b & g & l & Hsec & Hl & -> & Hn)%canonicalize_profile_ok.
  destruct Hsec as [Hch Hi He Hp Hb Hg Hh Vch Vi Ve Vp Vb Vg].
  destruct (inventory_canonical i Vi) as [Vi' Si], (equipment_canonical e Ve) as [Ve' Se], (pals_canonical p Vp) as [Vp' Sp],
    (bases_canonical b l Vb Hl) as [Vb' Sb], (progression_canonical g Vg) as [Vg' Sg].
  apply canonicalize_profile_ok. eexists ch, _, _, _, (b <| CloudBaseContent.entries := l |>), _, l.
  split; [|split; [exact Sb|split; [|done]]].
  - destruct c. cbn in Hch, Hh. split; first [reflexivity|assumption].
  - unfold canonical_sections. cbn -[sort_by_key modify_field] in Si, Se, Sp, Sg |- *.
    destruct c. cbn -[sort_by_key] in *. congruence.
Qed.

Lemma canonicalize_total c : canonicalize_cloud_profile_sections c ≠ None.
Proof.
  unfold canonicalize_cloud_profile_sections.
  destruct (validate_cloud_profile_projection c) as [[]|] eqn:Hv; [|done].
  apply validate_profile_exact in Hv as (ch & i & e & p & b & g & [_ -> -> -> -> -> _ _ _ _ _ _ _]). done.
Qed.

(** The identity of a profile is computed from its canonical form. *)
Lemma projection_id_canonical c k :
  canonicalize_cloud_profile_sections c = Some (Ok k) →
  cloud_profile_projection_id sha256 k = cloud_profile_projection_id sha256 c.
Proof.
  intros Hk. unfold cloud_profile_projection_id, canonical_cloud_profile_projection_identity.
  by rewrite Hk, (canonicalize_profile_idemp c k Hk).
Qed.
End profile_facts.

(** ** The order of the keys *)

(** Big-endian bytes are ordered as the numbers. *)
Lemma byte_cmp_of n m : byte_cmp (byte_of n) (byte_of m) = N.compare (n mod 256) (m mod 256).
Proof. unfold byte_cmp. by rewrite !to_N_byte_of. Qed.

Lemma compare_div_mod n m : N.compare n m = lex (N.compare (n / 256) (m / 256)) (N.compare (n mod 256) (m mod 256)).
Proof.
  pose proof (N.div_mod n 256 ltac:(lia)) as Hn. pose proof (N.div_mod m 256 ltac:(lia)) as Hm.
  pose proof (N.mod_lt n 256 ltac:(lia)) as Hrn. pose proof (N.mod_lt m 256 ltac:(lia)) as Hrm.
  revert Hn Hm Hrn Hrm. generalize (n / 256), (m / 256), (n mod 256), (m mod 256). intros qn qm rn rm Hn Hm Hrn Hrm.
  destruct (N.compare_spec qn qm) as [Hd|Hd|Hd]; cbn [lex].
  - destruct (N.compare_spec rn rm);
      [apply N.compare_eq_iff|apply N.compare_lt_iff|apply N.compare_gt_iff]; lia.
  - apply N.compare_lt_iff. lia.
  - apply N.compare_gt_iff. lia.
Qed.

Lemma be_bytes_order k n m :
  n < 256 ^ N.of_nat k → m < 256 ^ N.of_nat k → bytes_cmp (be_bytes k n) (be_bytes k m) = N.compare n m.
Proof.
  revert n m. induction k as [|k IH]; intros n m Hn Hm.
  - cbn in Hn, Hm. by replace n with 0 by lia; replace m with 0 by lia.
  - rewrite Nat2N.inj_succ, N.pow_succ_r' in Hn, Hm.
    assert (∀ x, be_bytes (S k) x = be_bytes k (x / 256) ++ [byte_of x]) as Hbe.
    { intros x. unfold be_bytes. cbn [le_bytes]. by rewrite reverse_cons. }
    unfold bytes_cmp in *. rewrite !Hbe, list_cmp_app by (by rewrite !length_be_bytes).
    rewrite IH by (apply N.Div0.div_lt_upper_bound; lia). cbn [list_cmp].
    rewrite byte_cmp_of, (compare_div_mod n m). by destruct (N.compare (n mod 256) (m mod 256)).
Qed.

Lemma u32_be_order n m : n ≤ u32_max → m ≤ u32_max → bytes_cmp (u32_be n) (u32_be m) = N.compare n m.
Proof. intros Hn Hm. apply be_bytes_order; unfold u32_max in *; cbn; lia. Qed.

(** Keys of equal leading fields compare by the rest. *)
Lemma u32_be_app n m x y :
  n ≤ u32_max → m ≤ u32_max → bytes_cmp (u32_be n ++ x) (u32_be m ++ y) = lex (N.compare n m) (bytes_cmp x y).
Proof.
  intros Hn Hm. unfold bytes_cmp. rewrite list_cmp_app by (by unfold u32_be; rewrite !length_be_bytes).
  f_equal. by apply u32_be_order.
Qed.

Lemma i32_kind z : (0 ≤ z ≤ 255)%Z → i32_as_u32 z = Z.to_N z.
Proof. intros Hz. unfold i32_as_u32. by rewrite Z.mod_small by lia. Qed.

Lemma kind_order y z : (0 ≤ y ≤ 255)%Z → (0 ≤ z ≤ 255)%Z → N.compare (Z.to_N y) (Z.to_N z) = Z.compare y z.
Proof. intros. rewrite <- N2Z.inj_compare. by rewrite !Z2N.id by lia. Qed.

Lemma known_kind {T} field value (all : list T) :
  (length all ≤ 256)%nat → is_ok (nonzero_enum field value (enum_at all)) = true → (0 ≤ value ≤ 255)%Z.
Proof.
  intros Hl H. destruct (nonzero_enum field value (enum_at all)) as [x|] eqn:Hx; [|done].
  apply nonzero_enum_ok in Hx as [_ [Hv Hlt%lookup_lt_Some]%enum_at_lookup]. lia.
Qed.

(** Sorting by the fields sorts by the keys. *)
Lemma sorted_keys {A K} (cmp : K → K → comparison) (skey : A → K) (key : A → bytes) (Q : A → Prop) l :
  (∀ x y, Q x → Q y → bytes_cmp (key x) (key y) = cmp (skey x) (skey y)) → Forall Q l →
  StronglySorted (cmp_lt cmp) (skey <$> l) → StronglySorted (cmp_lt bytes_cmp) (key <$> l).
Proof.
  intros Hkey HQ. induction HQ as [|x l Hx HQ IH]; rewrite ?fmap_cons; [constructor|].
  intros [Hs Hlt]%StronglySorted_inv. constructor; [by apply IH|].
  apply Forall_fmap. rewrite Forall_fmap in Hlt. rewrite Forall_forall in *. intros y Hy. specialize (Hlt y Hy).
  unfold cmp_lt in *. cbn in *. rewrite Hkey; auto.
Qed.

Definition slot_in_range (entry : CloudInventoryEntry.t) : Prop :=
  CloudInventoryEntry.container_ordinal entry ≤ u32_max ∧ CloudInventoryEntry.slot_index entry ≤ u32_max.
Definition equipment_in_range (entry : CloudEquipmentEntry.t) : Prop := CloudEquipmentEntry.slot_index entry ≤ u32_max.

Lemma inventory_key_order x y :
  inventory_entry_ok x ∧ slot_in_range x → inventory_entry_ok y ∧ slot_in_range y →
  bytes_cmp (inventory_stable_key x) (inventory_stable_key y) = slot_cmp (inventory_entry_key x) (inventory_entry_key y).
Proof.
  intros [[Kx%known_kind _] [Ox Sx]] [[Ky%known_kind _] [Oy Sy]]; [|cbn; lia..].
  unfold inventory_stable_key, inventory_key, slot_cmp, pair_cmp, inventory_entry_key. cbn [fst snd].
  rewrite !i32_kind by done. rewrite u32_be_app by (unfold u32_max; lia). rewrite u32_be_app by done.
  rewrite u32_be_order by done. rewrite kind_order by done.
  by destruct (Z.compare _ _).
Qed.

Lemma equipment_key_order x y :
  equipment_entry_ok x ∧ equipment_in_range x → equipment_entry_ok y ∧ equipment_in_range y →
  bytes_cmp (equipment_stable_key x) (equipment_stable_key y) =
    pair_cmp Z.compare N.compare (equipment_entry_key x) (equipment_entry_key y).
Proof.
  intros [[Kx%known_kind _] Sx] [[Ky%known_kind _] Sy]; [|cbn; lia..].
  unfold equipment_stable_key, equipment_key, pair_cmp, equipment_entry_key. cbn [fst snd].
  rewrite !i32_kind by done. rewrite u32_be_app by (unfold u32_max; lia).
  by rewrite u32_be_order, kind_order.
Qed.

Lemma progression_key_order x y :
  unlock_ok x → unlock_ok y →
  bytes_cmp (progression_stable_key x) (progression_stable_key y) = pair_cmp Z.compare bytes_cmp (unlock_key x) (unlock_key y).
Proof.
  intros [Kx%known_kind _] [Ky%known_kind _]; [|cbn; lia..].
  unfold progression_stable_key, progression_key, pair_cmp, unlock_key. cbn [fst snd].
  rewrite !i32_kind by done. rewrite u32_be_app by (unfold u32_max; lia). by rewrite kind_order.
Qed.

(** ** Properties *)

Lemma profile_sections_unique k ch i e p b g ch' i' e' p' b' g' :
  profile_sections k ch i e p b g → profile_sections k ch' i' e' p' b' g' →
  ch = ch' ∧ i = i' ∧ e = e' ∧ p = p' ∧ b = b' ∧ g = g'.
Proof. intros [] []. by simplify_eq. Qed.

Section properties.
Context {msgs : Messages} (sha256 : bytes → bytes).

(** The canonical form of a profile is its own canonical form, and has its identity. *)
Theorem cloud_canonical_settles (c k : CloudProfileContent.t) :
  canonicalize_cloud_profile_sections c = Some (Ok k) →
  canonicalize_cloud_profile_sections k = Some (Ok k) ∧ validate_cloud_profile_projection k = Ok tt ∧
  cloud_profile_projection_id sha256 k = cloud_profile_projection_id sha256 c.
Proof.
  intros Hk. split; [by eapply canonicalize_profile_idemp|split; [|by apply projection_id_canonical]].
  pose proof (canonicalize_profile_idemp _ _ Hk) as (ch & i & e & p & b & g & l & Hsec & _)%canonicalize_profile_ok.
  apply validate_profile_exact. by exists ch, i, e, p, b, g.
Qed.

(** C11: the entries of a canonical profile are in strictly ascending order of their keys, byte by
    byte: slots by container, ordinal and index, pals and bases by their identifiers, progress
    by kind and name. So the first and last keys of consecutive pages bound disjoint ranges.
    The ordinals and indices are those of the message's type [u32]. *)
Theorem canonical_keys_ascend (c k : CloudProfileContent.t) ch i e p b g :
  canonicalize_cloud_profile_sections c = Some (Ok k) → profile_sections k ch i e p b g →
  Forall slot_in_range (CloudInventoryContent.entries i) → Forall equipment_in_range (CloudEquipmentContent.entries e) →
  StronglySorted (cmp_lt bytes_cmp) (inventory_stable_key <$> CloudInventoryContent.entries i) ∧
  StronglySorted (cmp_lt bytes_cmp) (equipment_stable_key <$> CloudEquipmentContent.entries e) ∧
  StronglySorted (cmp_lt bytes_cmp) (CloudPalEntry.pal_instance_id <$> CloudPalContent.entries p) ∧
  StronglySorted (cmp_lt bytes_cmp) (CloudBaseEntry.base_id <$> CloudBaseContent.entries b) ∧
  StronglySorted (cmp_lt bytes_cmp) (progression_stable_key <$> CloudProgressionContent.entries g).
Proof.
  intros Hk Hsec Ri Re. pose proof (canonicalize_profile_idemp _ _ Hk) as Hkk.
  apply canonicalize_profile_ok in Hkk as (ch' & i' & e' & p' & b' & g' & l & Hsec' & Hl & Heq & _).
  pose proof (profile_sections_unique _ _ _ _ _ _ _ _ _ _ _ _ _ Hsec Hsec') as (<- & <- & <- & <- & <- & <-).
  destruct Hsec as [_ Xi Xe Xp Xb Xg _ _ Vi Ve Vp Vb Vg].
  rewrite Heq in Xi, Xe, Xp, Xb, Xg. cbn -[sort_by_key] in Xi, Xe, Xp, Xb, Xg.
  apply validate_inventory_exact in Vi as (_ & _ & Oi & Ni). apply validate_equipment_exact in Ve as (_ & _ & Oe & Ne).
  apply validate_pals_exact in Vp as (_ & _ & _ & Np & _). apply validate_bases_exact in Vb as (_ & _ & _ & Nb & _).
  apply validate_progression_exact in Vg as (_ & _ & Og & Ng).
  injection Xi as Xi%(f_equal CloudInventoryContent.entries). injection Xe as Xe%(f_equal CloudEquipmentContent.entries).
  injection Xp as Xp%(f_equal CloudPalContent.entries). injection Xb as Xb%(f_equal CloudBaseContent.entries).
  injection Xg as Xg%(f_equal CloudProgressionContent.entries). cbn -[sort_by_key] in Xi, Xe, Xp, Xb, Xg.
  split_and!.
  - apply (sorted_keys slot_cmp inventory_entry_key _ (λ x, inventory_entry_ok x ∧ slot_in_range x)); [apply inventory_key_order|by apply Forall_and|].
    rewrite <- Xi. apply sort_by_key_strict; [apply _|].
    by apply (NoDup_sort_key inventory_stable_key (λ k, inventory_key k.1.1 k.1.2 k.2)).
  - apply (sorted_keys (pair_cmp Z.compare N.compare) equipment_entry_key _ (λ x, equipment_entry_ok x ∧ equipment_in_range x));
      [apply equipment_key_order|by apply Forall_and|].
    rewrite <- Xe. apply sort_by_key_strict; [apply _|].
    by apply (NoDup_sort_key equipment_stable_key (λ k, equipment_key k.1 k.2)).
  - rewrite <- Xp. change (map canonicalize_cloud_pal ?l) with (canonicalize_cloud_pal <$> l). rewrite <- list_fmap_compose.
    rewrite (list_fmap_ext _ CloudPalEntry.pal_instance_id) by done. by apply (sort_by_key_strict bytes_cmp).
  - rewrite <- Xb.
    by apply (try_map_sorted bytes_cmp CloudBaseEntry.base_id canonicalize_cloud_base cloud_base_id (CloudBaseContent.entries b)).
  - apply (sorted_keys (pair_cmp Z.compare bytes_cmp) unlock_key _ unlock_ok); [apply progression_key_order|done|].
    rewrite <- Xg. apply sort_by_key_strict; [apply _|].
    by apply (NoDup_sort_key progression_stable_key (λ k, u32_be (i32_as_u32 k.1) ++ Byte.x00 :: k.2)).
Qed.
End properties.

(** ** A witness *)

Definition plain_message {M} (encode : M → bytes) : Message M :=
  {| encode_to_vec := encode; encoded_len := λ m, len (encode m); encoded_len_exact := λ _, eq_refl |}.

(** Encoders that show the number of entries and the index of a page. *)
Definition demo_messages : Messages :=
  {| character_message := plain_message (λ _, []); inventory_message := plain_message (λ s, u32_be (len (CloudInventoryContent.entries s)));
     equipment_message := plain_message (λ _, []); pals_message := plain_message (λ _, []);
     bases_message := plain_message (λ _, []); progression_message := plain_message (λ _, []);
     profile_message := plain_message (λ c, as_bytes (CloudProfileContent.game_build_id c));
     identity_message := plain_message (λ i, concat (map SectionIdentity.section_content_sha256 (ProfileIdentity.sections i)));
     page_message := plain_message (λ p, u32_be (Page.page_index p)) |}.

Definition demo_section (records entries : N) : option ProjectionSectionState.t :=
  Some (ProjectionSectionState.mk 1 records records entries).
Definition demo_profile : CloudProfileContent.t :=
  CloudProfileContent.mk 1 (repeat_byte Byte.x21 32) "steam_2026.07.20"
    (Some (CloudCharacterContent.mk (demo_section 0 0) None))
    (Some (CloudInventoryContent.mk (demo_section 2 2)
      [CloudInventoryEntry.mk 1 2 8 "Berry" 20 None None; CloudInventoryEntry.mk 1 1 3 "PalSphere" 12 (Some 99) (Some 2)]))
    (Some (CloudEquipmentContent.mk (demo_section 0 0) []))
    (Some (CloudPalContent.mk (demo_section 0 0) []))
    (Some (CloudBaseContent.mk (demo_section 3 1)
      [CloudBaseEntry.mk (repeat_byte Byte.x51 16) "WindsweptHills" 15
         [CloudBaseFacility.mk "BerryFarm" 1; CloudBaseFacility.mk "BerryFarm" 2] [] []]))
    (Some (CloudProgressionContent.mk (demo_section 2 2)
      [CloudProgressionUnlock.mk 2 "FT_1"; CloudProgressionUnlock.mk 1 "Tech_A"])).

Lemma canonical_keys_ascend_witness :
  ∃ k, canonicalize_cloud_profile_sections (msgs := demo_messages) demo_profile = Some (Ok k) ∧
    ∃ i, CloudProfileContent.inventory k = Some i ∧ len (CloudInventoryContent.entries i) = 2 ∧
      StronglySorted (cmp_lt bytes_cmp) (inventory_stable_key <$> CloudInventoryContent.entries i).
Proof.
  destruct (canonicalize_cloud_profile_sections (msgs := demo_messages) demo_profile) as [[k|]|] eqn:H; [|discriminate H..].
  exists k. split; [reflexivity|].
  pose proof (canonicalize_profile_idemp (msgs := demo_messages) _ _ H) as (ch & i & e & p & b & g & l & Hsec & _)%canonicalize_profile_ok.
  exists i. pose proof Hsec as [_ Hi He _ _ _ _ _ _ _ _ _ _]. split; [exact Hi|].
  vm_compute in H. injection H as <-. vm_compute in Hi, He. injection Hi as <-. injection He as <-.
  split; [reflexivity|].
  eapply (canonical_keys_ascend (msgs := demo_messages) demo_profile); [vm_compute; reflexivity|exact Hsec| |];
    repeat constructor; discriminate.
Defined.

Lemma cloud_canonical_settles_witness :
  ∃ k, canonicalize_cloud_profile_sections (msgs := demo_messages) demo_profile = Some (Ok k) ∧
    canonicalize_cloud_profile_sections (msgs := demo_messages) k = Some (Ok k).
Proof.
  destruct (canonicalize_cloud_profile_sections (msgs := demo_messages) demo_profile) as [[k|]|] eqn:H; [|discriminate H..].
  exists k. split; [reflexivity|].
  destruct (cloud_canonical_settles (msgs := demo_messages) (λ m, m) demo_profile k H) as [Hk _]. exact Hk.
Defined.
