(* ===== verification/CloudPages.v ===== *)
(** * The pages of a cloud profile

    Models [paginate_cloud_profile] and [paginate_entries] of
    [crates/pal-wire/src/canonical.rs]: the division of a canonical profile into pages of bounded
    size, and the descriptor that lists them. *)

From S2P Require Import Prelude Orders Canonical CloudProfile.

Section profile.
Context {msgs : Messages} (sha256 : bytes → bytes).

(** ** Pages *)

Definition projection_page (projection_id : bytes) (section : ProjectionSectionKind.t) (page_index : N)
    (payload : Payload.t) : Page.t :=
  Page.mk projection_id (ProjectionSectionKind.as_i32 section) page_index (Some payload).

(** [u32::try_from]. *)
Definition u32_try_from (field : string) (n : N) : result N CanonicalError :=
  if n <=? u32_max then Ok n else Err (IntegerOverflow field).

Section entries.
Context {T : Type} (projection_id : bytes) (section : ProjectionSectionKind.t).
Context (build_payload : list T → Payload.t) (sort_key : T → bytes).

Record PageBuilder := mkBuilder {
  pages : list Page.t;
  descriptors : list PageDescriptor.t;
  current : list T;
  current_keys : list bytes;
  page_index : N;
}.

#[export] Instance eta_builder : Eta PageBuilder := λ b,
  mkBuilder (pages b) (descriptors b) (current b) (current_keys b) (page_index b).

Definition close_page (index : N) (entries : list T) (keys : list bytes) (b : PageBuilder) :
    result PageBuilder CanonicalError :=
  let entry_count := len entries in
  let page := projection_page projection_id section index (build_payload entries) in
  let encoded := encode_to_vec page in
  if (MAX_PROJECTION_PAGE_ENTRIES <? entry_count) || (MAX_PROJECTION_PAGE_ENCODED_LEN <? len encoded) then
    Err (InvalidValue "projection.page" "closed page exceeds a paging bound")
  else
    let? entry_count := u32_try_from "descriptor.pages.entry_count" entry_count in
    let? encoded_length := u32_try_from "descriptor.pages.encoded_length" (len encoded) in
    Ok (b <| descriptors ::= λ ds, ds ++ [PageDescriptor.mk (ProjectionSectionKind.as_i32 section) index entry_count
                encoded_length (sha256 encoded) (unwrap_or (head keys) []) (unwrap_or (last keys) [])] |>
          <| pages ::= λ ps, ps ++ [page] |>).

Definition page_entry (b : PageBuilder) (entry : T) : result PageBuilder CanonicalError :=
  let key := sort_key entry in
  let candidate := current b ++ [entry] in
  let candidate_page := projection_page projection_id section (page_index b) (build_payload candidate) in
  let over_count := MAX_PROJECTION_PAGE_ENTRIES <? len candidate in
  let over_bytes := MAX_PROJECTION_PAGE_ENCODED_LEN <? encoded_len candidate_page in
  if over_count || over_bytes then
    if is_empty (current b) then Err (ProjectionEntryTooLarge section key (encoded_len candidate_page))
    else
      let? b := close_page (page_index b) (current b) (current_keys b)
                  (b <| current := [] |> <| current_keys := [] |>) in
      let? index := ok_or (if page_index b + 1 <=? u32_max then Some (page_index b + 1) else None)
                      (IntegerOverflow "page_index") in
      let b := b <| page_index := index |> <| current := [entry] |> <| current_keys := [key] |> in
      let single_page := projection_page projection_id section index (build_payload [entry]) in
      if MAX_PROJECTION_PAGE_ENCODED_LEN <? encoded_len single_page then
        Err (ProjectionEntryTooLarge section key (encoded_len single_page))
      else Ok b
  else Ok (b <| current := candidate |> <| current_keys ::= λ keys, keys ++ [key] |>).

Definition paginate_entries (entries : list T) : result (list Page.t * list PageDescriptor.t) CanonicalError :=
  let? b := try_fold page_entry (mkBuilder [] [] [] [] 0) entries in
  let? b := if is_empty (current b) then Ok b
            else close_page (page_index b) (current b) (current_keys b) b in
  Ok (pages b, descriptors b).
End entries.

Definition reject_raw_entry (projection_id : bytes) (section : ProjectionSectionKind.t) (stable_key : bytes)
    (payload : Payload.t) : result unit CanonicalError :=
  let encoded_length := encoded_len (projection_page projection_id section 0 payload) in
  if MAX_PROJECTION_PAGE_ENCODED_LEN <? encoded_length
  then Err (ProjectionEntryTooLarge section stable_key encoded_length)
  else Ok tt.

Definition character_key (_ : CloudCharacterEntry.t) : bytes := [Byte.x01].

Definition reject_raw_oversized_entries (content : CloudProfileContent.t) : result unit CanonicalError :=
  let placeholder_id := repeat Byte.x00 32 in
  let reject {T} (kind : ProjectionSectionKind.t) (build : list T → Payload.t) (key : T → bytes) (entries : list T) :=
    try_for_each (λ entry, reject_raw_entry placeholder_id kind (key entry) (build [entry])) entries in
  let? _ := match CloudProfileContent.character content with
            | Some character => reject ProjectionSectionKind.Character Payload.Character character_key
                                  (option_list (CloudCharacterContent.character character))
            | None => Ok tt end in
  let? _ := match CloudProfileContent.inventory content with
            | Some inventory => reject ProjectionSectionKind.Inventory Payload.Inventory inventory_stable_key
                                  (CloudInventoryContent.entries inventory)
            | None => Ok tt end in
  let? _ := match CloudProfileContent.equipment content with
            | Some equipment => reject ProjectionSectionKind.Equipment Payload.Equipment equipment_stable_key
                                  (CloudEquipmentContent.entries equipment)
            | None => Ok tt end in
  let? _ := match CloudProfileContent.pals content with
            | Some pals => reject ProjectionSectionKind.Pals Payload.Pals CloudPalEntry.pal_instance_id
                             (CloudPalContent.entries pals)
            | None => Ok tt end in
  let? _ := match CloudProfileContent.bases content with
            | Some bases => reject ProjectionSectionKind.Bases Payload.Bases CloudBaseEntry.base_id
                              (CloudBaseContent.entries bases)
            | None => Ok tt end in
  match CloudProfileContent.progression content with
  | Some progression => reject ProjectionSectionKind.Progression Payload.Progression progression_stable_key
                          (CloudProgressionContent.entries progression)
  | None => Ok tt end.

(** One turn of the loop over the sections: the descriptors so far and the totals of pages,
    entries and encoded bytes. *)
Definition describe_section (acc : list SectionDescriptor.t * (N * N * N))
    (row : SectionIdentity.t * list PageDescriptor.t * ProjectionSectionState.t) :
    result (list SectionDescriptor.t * (N * N * N)) CanonicalError :=
  let '(section_descriptors, (page_count, entry_count, encoded_length)) := acc in
  let '(section_id, page_descriptors, state) := row in
  let overflow := IntegerOverflow "descriptor.total_encoded_length" in
  let? section_encoded_length := try_fold (λ total page,
      ok_or (checked_add total (PageDescriptor.encoded_length page)) overflow) 0 page_descriptors in
  let page_count := page_count + len page_descriptors in
  let entry_count := entry_count + foldr N.add 0 (map PageDescriptor.entry_count page_descriptors) in
  let? encoded_length := ok_or (checked_add encoded_length section_encoded_length) overflow in
  let? section_page_count := u32_try_from "descriptor.sections.page_count" (len page_descriptors) in
  Ok (section_descriptors ++ [SectionDescriptor.mk (SectionIdentity.section section_id) (Some state)
        (SectionIdentity.section_content_sha256 section_id) section_page_count section_encoded_length page_descriptors],
      (page_count, entry_count, encoded_length)).

(** The part of [paginate_cloud_profile] after the identity is known. *)
Definition paginate_sections (canonical : CloudProfileContent.t) (projection_id : bytes)
    (section_identities : list SectionIdentity.t) : result PaginatedCloudProfile.t CanonicalError :=
  let? character := required (CloudProfileContent.character canonical) "character" in
  let? '(p1, character_pages) := paginate_entries projection_id ProjectionSectionKind.Character Payload.Character
    character_key (option_list (CloudCharacterContent.character character)) in
  let? inventory := required (CloudProfileContent.inventory canonical) "inventory" in
  let? '(p2, inventory_pages) := paginate_entries projection_id ProjectionSectionKind.Inventory Payload.Inventory
    inventory_stable_key (CloudInventoryContent.entries inventory) in
  let? equipment := required (CloudProfileContent.equipment canonical) "equipment" in
  let? '(p3, equipment_pages) := paginate_entries projection_id ProjectionSectionKind.Equipment Payload.Equipment
    equipment_stable_key (CloudEquipmentContent.entries equipment) in
  let? pals := required (CloudProfileContent.pals canonical) "pals" in
  let? '(p4, pal_pages) := paginate_entries projection_id ProjectionSectionKind.Pals Payload.Pals
    CloudPalEntry.pal_instance_id (CloudPalContent.entries pals) in
  let? bases := required (CloudProfileContent.bases canonical) "bases" in
  let? '(p5, base_pages) := paginate_entries projection_id ProjectionSectionKind.Bases Payload.Bases
    CloudBaseEntry.base_id (CloudBaseContent.entries bases) in
  let? progression := required (CloudProfileContent.progression canonical) "progression" in
  let? '(p6, progression_pages) := paginate_entries projection_id ProjectionSectionKind.Progression Payload.Progression
    progression_stable_key (CloudProgressionContent.entries progression) in
  let pages := p1 ++ p2 ++ p3 ++ p4 ++ p5 ++ p6 in
  if MAX_PROJECTION_PAGE_COUNT <? len pages then Err (TooManyProjectionPages (len pages) MAX_PROJECTION_PAGE_COUNT)
  else
    let page_sets := [character_pages; inventory_pages; equipment_pages; pal_pages; base_pages; progression_pages] in
    let? s1 := required (CloudCharacterContent.state character) "character.state" in
    let? s2 := required (CloudInventoryContent.state inventory) "inventory.state" in
    let? s3 := required (CloudEquipmentContent.state equipment) "equipment.state" in
    let? s4 := required (CloudPalContent.state pals) "pals.state" in
    let? s5 := required (CloudBaseContent.state bases) "bases.state" in
    let? s6 := required (CloudProgressionContent.state progression) "progression.state" in
    let? '(section_descriptors, (total_page_count, total_entry_count, total_encoded_length)) :=
      try_fold describe_section ([], (0, 0, 0)) (zip (zip section_identities page_sets) [s1; s2; s3; s4; s5; s6]) in
    if MAX_CANONICAL_CONTENT_LEN <? total_encoded_length then
      Err (ProjectionTransportTooLarge total_encoded_length MAX_CANONICAL_CONTENT_LEN)
    else
      let? total_page_count := u32_try_from "descriptor.total_page_count" total_page_count in
      let? total_entry_count := u32_try_from "descriptor.total_entry_count" total_entry_count in
      Ok (PaginatedCloudProfile.mk pages
            (ProfileDescriptor.mk projection_id 6 total_page_count total_entry_count total_encoded_length section_descriptors)).

Definition paginate_cloud_profile (content : CloudProfileContent.t) : option (result PaginatedCloudProfile.t CanonicalError) :=
  match reject_raw_oversized_entries content with
  | Err e => Some (Err e)
  | Ok _ =>
      canonical ← canonicalize_cloud_profile_sections content;
      match canonical with
      | Err e => Some (Err e)
      | Ok canonical =>
          projection_id ← cloud_profile_projection_id sha256 canonical;
          Some (let? projection_id := projection_id in
                let? section_identities := canonical_profile_section_identities sha256 canonical in
                paginate_sections canonical projection_id section_identities)
      end
  end.
End profile.

(** ** Pages are greedy, bounded and complete *)

Section paging.
Context {msgs : Messages} (sha256 : bytes → bytes).
Context {T : Type} (projection_id : bytes) (section : ProjectionSectionKind.t).
Context (build_payload : list T → Payload.t) (sort_key : T → bytes).

Definition page_at (index : N) (chunk : list T) : Page.t :=
  projection_page projection_id section index (build_payload chunk).
Definition page_size (index : N) (chunk : list T) : N := len (encode_to_vec (page_at index chunk)).
Definition fits (index : N) (chunk : list T) : Prop :=
  len chunk ≤ MAX_PROJECTION_PAGE_ENTRIES ∧ page_size index chunk ≤ MAX_PROJECTION_PAGE_ENCODED_LEN.

Definition descriptor_of (index : N) (chunk : list T) : PageDescriptor.t :=
  PageDescriptor.mk (ProjectionSectionKind.as_i32 section) index (len chunk) (page_size index chunk)
    (sha256 (encode_to_vec (page_at index chunk)))
    (unwrap_or (head (sort_key <$> chunk)) []) (unwrap_or (last (sort_key <$> chunk)) []).

(** [chunks] divides [entries]: no page is empty or exceeds a bound, and none could have taken
    the first entry of the next one. *)
Record paged (entries : list T) (chunks : list (list T)) : Prop := {
  paged_concat : concat chunks = entries;
  paged_nonempty : Forall (λ c, c ≠ []) chunks;
  paged_fits : ∀ i c, chunks !! i = Some c → fits (N.of_nat i) c;
  paged_greedy : ∀ i c x c', chunks !! i = Some c → chunks !! S i = Some (x :: c') → ¬ fits (N.of_nat i) (c ++ [x]);
}.

Definition pages_of (chunks : list (list T)) : list Page.t := imap (λ i, page_at (N.of_nat i)) chunks.
Definition descriptors_of (chunks : list (list T)) : list PageDescriptor.t :=
  imap (λ i, descriptor_of (N.of_nat i)) chunks.

(** The builder between two entries: [chunks] are closed, [current] is open. *)
Record builder_inv (seen : list T) (chunks : list (list T)) (b : PageBuilder) : Prop := {
  inv_pages : pages b = pages_of chunks;
  inv_descriptors : descriptors b = descriptors_of chunks;
  inv_index : page_index b = len chunks;
  inv_keys : current_keys b = sort_key <$> current b;
  inv_paged : if is_empty (current b) then seen = [] ∧ chunks = [] else paged seen (chunks ++ [current b]);
}.

Lemma lookup_snoc_cases {A} (l : list A) x i y :
  (l ++ [x]) !! i = Some y → l !! i = Some y ∨ i = length l ∧ y = x.
Proof.
  intros [H|[Hi H]]%lookup_app_Some; [by left|right].
  destruct (i - length l)%nat as [|k] eqn:Hk; [|by destruct k]. injection H as <-. split; [lia|done].
Qed.

Lemma lookup_snoc_last {A} (l : list A) x : (l ++ [x]) !! length l = Some x.
Proof. by rewrite lookup_app_r, Nat.sub_diag. Qed.

(** The open page takes one more entry. *)
Lemma paged_grow seen chunks c x :
  c ≠ [] → paged seen (chunks ++ [c]) → fits (len chunks) (c ++ [x]) → paged (seen ++ [x]) (chunks ++ [c ++ [x]]).
Proof.
  intros Hc [Hcat Hne Hfit Hgreedy] Hx. split.
  - rewrite concat_app in *. cbn in *. rewrite app_nil_r in *. by rewrite <- Hcat, app_assoc.
  - apply Forall_app in Hne as [Hne _]. apply Forall_app. split; [done|]. constructor; [by destruct c|done].
  - intros i c' [Hi|[-> ->]]%lookup_snoc_cases; [|done].
    apply Hfit. by apply lookup_app_l_Some.
  - intros i c1 y c' [Hi|[-> ->]]%lookup_snoc_cases [Hj|[Hj Hy]]%lookup_snoc_cases.
    + apply (Hgreedy i c1 y c'); by apply lookup_app_l_Some.
    + destruct c as [|z c]; [done|]. injection Hy as -> ->.
      apply (Hgreedy i c1 z c); [by apply lookup_app_l_Some|]. rewrite Hj. apply lookup_snoc_last.
    + apply lookup_lt_Some in Hj. lia.
    + lia.
Qed.

(** An entry that does not fit opens the next page. *)
Lemma paged_break seen chunks c x :
  paged seen (chunks ++ [c]) → ¬ fits (len chunks) (c ++ [x]) → fits (len chunks + 1) [x] →
  paged (seen ++ [x]) ((chunks ++ [c]) ++ [[x]]).
Proof.
  intros [Hcat Hne Hfit Hgreedy] Hc Hx. split.
  - rewrite concat_app, Hcat. done.
  - apply Forall_app. by split; [|constructor].
  - intros i c' [Hi|[-> ->]]%lookup_snoc_cases; [by apply Hfit|].
    rewrite length_app. cbn. by replace (N.of_nat (length chunks + 1)) with (len chunks + 1) by (unfold len; lia).
  - intros i c1 y c' [Hi|[-> ->]]%lookup_snoc_cases [Hj|[Hj Hy]]%lookup_snoc_cases.
    + by apply (Hgreedy i c1 y c').
    + injection Hy as -> ->. rewrite length_app in Hj. cbn in Hj.
      assert (i = length chunks) as -> by lia. rewrite lookup_snoc_last in Hi. by injection Hi as <-.
    + apply lookup_lt_Some in Hj. lia.
    + lia.
Qed.

Lemma paged_first x : fits 0 [x] → paged [x] [[x]].
Proof.
  intros Hx. split; [done|by repeat constructor|..].
  - intros [|i] c; [by intros [= <-]|done].
  - intros i c y c' _. by destruct i.
Qed.

Lemma paged_length seen chunks : paged seen chunks → len chunks ≤ len seen.
Proof.
  intros [<- Hne _ _]. clear -Hne. unfold len. induction Hne as [|c chunks Hc _ IH]; [done|].
  cbn. rewrite length_app. destruct c; [done|]. cbn. lia.
Qed.

(** Closing a page within the bounds never fails. *)
Lemma close_page_ok index chunk b :
  fits index chunk →
  close_page sha256 projection_id section build_payload index chunk (sort_key <$> chunk) b =
    Ok (b <| descriptors ::= λ ds, ds ++ [descriptor_of index chunk] |>
          <| pages ::= λ ps, ps ++ [page_at index chunk] |>).
Proof.
  intros [Hn Hs]. unfold close_page. fold (page_at index chunk). unfold page_size in Hs.
  rewrite (proj2 (N.ltb_ge _ _) Hn), (proj2 (N.ltb_ge _ _) Hs). cbn [orb]. unfold u32_try_from.
  unfold MAX_PROJECTION_PAGE_ENTRIES, MAX_PROJECTION_PAGE_ENCODED_LEN in *.
  rewrite !(proj2 (N.leb_le _ u32_max)) by int_lia. done.
Qed.

Lemma imap_snoc {A B} (f : nat → A → B) l x : imap f (l ++ [x]) = imap f l ++ [f (length l) x].
Proof. by rewrite imap_app; cbn; rewrite Nat.add_0_r. Qed.

(** An entry is too large for a page of its own. *)
Definition too_large (entries : list T) (e : CanonicalError) : Prop :=
  ∃ index x, x ∈ entries ∧ MAX_PROJECTION_PAGE_ENCODED_LEN < page_size index [x] ∧
    e = ProjectionEntryTooLarge section (sort_key x) (page_size index [x]).

Lemma page_entry_spec seen chunks b x :
  builder_inv seen chunks b → len seen < u32_max →
  match page_entry sha256 projection_id section build_payload sort_key b x with
  | Ok b' => ∃ chunks', builder_inv (seen ++ [x]) chunks' b' ∧ current b' ≠ []
  | Err e => too_large [x] e
  end.
Proof.
  intros [Hp Hd Hi Hk Hb] Hlen. unfold page_entry. rewrite encoded_len_exact.
  change (len (encode_to_vec (projection_page projection_id section (page_index b) (build_payload (current b ++ [x])))))
    with (page_size (page_index b) (current b ++ [x])).
  destruct (_ || _) eqn:Hover.
  - apply orb_true_iff in Hover. rewrite !N.ltb_lt in Hover.
    assert (¬ fits (page_index b) (current b ++ [x])) as Hnot by (intros [? ?]; lia).
    destruct (is_empty (current b)) eqn:Hempty.
    + apply is_empty_true in Hempty. rewrite Hempty in *. exists (page_index b), x.
      split; [by left|split; [|done]]. destruct Hover as [Hover|]; [|done]. by cbn in Hover.
    + pose proof (paged_length _ _ Hb) as Hn.
      assert (fits (page_index b) (current b)) as Hf.
      { rewrite Hi. apply (paged_fits _ _ Hb (length chunks)), lookup_snoc_last. }
      rewrite Hk, close_page_ok by done. cbn [and_then].
      unfold len in Hn, Hi, Hlen. rewrite length_app in Hn. cbn in Hn |- *.
      rewrite (proj2 (N.leb_le _ u32_max)) by (rewrite Hi; lia). cbn [ok_or and_then].
      rewrite encoded_len_exact.
      change (len (encode_to_vec (projection_page projection_id section (page_index b + 1) (build_payload [x]))))
        with (page_size (page_index b + 1) [x]).
      destruct (N.ltb_spec MAX_PROJECTION_PAGE_ENCODED_LEN (page_size (page_index b + 1) [x])).
      * exists (page_index b + 1), x. split; [by left|done].
      * exists (chunks ++ [current b]). split; [|done]. split; cbn.
        -- unfold pages_of. by rewrite Hp, imap_snoc, Hi.
        -- unfold descriptors_of. by rewrite Hd, imap_snoc, Hi.
        -- unfold len. rewrite length_app, Hi. cbn. lia.
        -- done.
        -- apply paged_break; [done|by unfold len; rewrite <- Hi|]. unfold len at 1. rewrite <- Hi. done.
  - apply orb_false_iff in Hover as [Hn%N.ltb_ge Hs%N.ltb_ge].
    exists chunks. split; [|by destruct (current b)]. split; cbn; [done..| |].
    + rewrite Hk, fmap_app. done.
    + destruct (is_empty (current b)) eqn:Hempty.
      * apply is_empty_true in Hempty. destruct Hb as [-> ->]. rewrite Hempty in *. rewrite Hi in *.
        by apply paged_first.
      * assert (is_empty (current b ++ [x]) = false) as -> by (by destruct (current b)).
        rewrite Hi in *. apply paged_grow; [by intros E%is_empty_true; rewrite E in Hempty|done|done].
Qed.

Lemma too_large_app l1 l2 e : too_large l1 e → too_large (l1 ++ l2) e.
Proof. intros (i & x & Hx & H). exists i, x. split; [apply elem_of_app; by left|done]. Qed.

Lemma page_fold_spec l seen chunks b :
  builder_inv seen chunks b → len (seen ++ l) ≤ u32_max →
  match try_fold (page_entry sha256 projection_id section build_payload sort_key) b l with
  | Ok b' => ∃ chunks', builder_inv (seen ++ l) chunks' b'
  | Err e => too_large l e
  end.
Proof.
  revert seen chunks b. induction l as [|x l IH]; intros seen chunks b Hb Hlen; cbn [try_fold].
  - exists chunks. by rewrite app_nil_r.
  - pose proof (page_entry_spec seen chunks b x Hb) as Hx.
    destruct (page_entry _ _ _ _ _ b x) as [b'|e]; cbn [and_then].
    + destruct Hx as (chunks' & Hb' & _); [unfold len in *; rewrite length_app in Hlen; cbn in Hlen; lia|].
      rewrite (cons_middle x seen l), app_assoc in Hlen. specialize (IH _ _ _ Hb' Hlen).
      destruct (try_fold _ b' l); [by rewrite (cons_middle x seen l), app_assoc|].
      destruct IH as (i & y & Hy & H). exists i, y. split; [by right|done].
    + destruct Hx as (i & y & ->%list_elem_of_singleton & H); [unfold len in *; rewrite length_app in Hlen; cbn in Hlen; lia|].
      exists i, x. split; [by left|done].
Qed.

Lemma paginate_entries_spec entries :
  len entries ≤ u32_max →
  match paginate_entries sha256 projection_id section build_payload sort_key entries with
  | Ok (ps, ds) => ∃ chunks, paged entries chunks ∧ ps = pages_of chunks ∧ ds = descriptors_of chunks
  | Err e => too_large entries e
  end.
Proof.
  intros Hlen. unfold paginate_entries.
  pose proof (page_fold_spec entries [] [] (mkBuilder [] [] [] [] 0)) as H.
  destruct (try_fold _ _ entries) as [b|e]; cbn [and_then]; [|by apply H].
  destruct H as (chunks & [Hp Hd Hi Hk Hb]); [by split|done|]. cbn [app] in Hb.
  destruct (is_empty (current b)) eqn:Hempty; cbn [and_then].
  - destruct Hb as [-> ->]. exists []. split; [|done]. by split.
  - assert (fits (page_index b) (current b)) as Hf.
    { rewrite Hi. apply (paged_fits _ _ Hb (length chunks)), lookup_snoc_last. }
    rewrite Hk, close_page_ok by done. cbn. exists (chunks ++ [current b]).
    unfold pages_of, descriptors_of. rewrite !imap_snoc, Hp, Hd, Hi. done.
Qed.
End paging.

(** ** The descriptor *)

Definition encoded_total (ds : list PageDescriptor.t) : N := foldr N.add 0 (map PageDescriptor.encoded_length ds).
Definition entry_total (ds : list PageDescriptor.t) : N := foldr N.add 0 (map PageDescriptor.entry_count ds).

Definition expected_section (row : SectionIdentity.t * list PageDescriptor.t * ProjectionSectionState.t) : SectionDescriptor.t :=
  let '(section_id, ds, state) := row in
  SectionDescriptor.mk (SectionIdentity.section section_id) (Some state) (SectionIdentity.section_content_sha256 section_id)
    (len ds) (encoded_total ds) ds.

Definition row_pages (row : SectionIdentity.t * list PageDescriptor.t * ProjectionSectionState.t) : list PageDescriptor.t :=
  row.1.2.

Lemma total_of_app {A} (f : A → N) l1 l2 :
  foldr N.add 0 (map f (l1 ++ l2)) = foldr N.add 0 (map f l1) + foldr N.add 0 (map f l2).
Proof. induction l1 as [|x l1 IH]; cbn; [done|]. rewrite IH. lia. Qed.

Lemma checked_add_fits a b : a + b ≤ u64_max → checked_add a b = Some (a + b).
Proof. intros H. by apply checked_add_some. Qed.

Lemma checked_fold e ds n :
  n + encoded_total ds ≤ u64_max →
  try_fold (λ total page, ok_or (checked_add total (PageDescriptor.encoded_length page)) e) n ds = @Ok N CanonicalError (n + encoded_total ds).
Proof.
  unfold encoded_total. revert n. induction ds as [|d ds IH]; intros n Hn; cbn [try_fold map foldr] in *; [by rewrite N.add_0_r|].
  rewrite checked_add_fits by lia. cbn [ok_or and_then].
  rewrite IH by lia. f_equal. lia.
Qed.

Lemma describe_rows rows acc pc ec el :
  el + encoded_total (concat (map row_pages rows)) ≤ u64_max → len (concat (map row_pages rows)) ≤ u32_max →
  try_fold describe_section (acc, (pc, ec, el)) rows =
    Ok (acc ++ map expected_section rows,
        (pc + len (concat (map row_pages rows)), ec + entry_total (concat (map row_pages rows)),
         el + encoded_total (concat (map row_pages rows)))).
Proof.
  revert acc pc ec el. induction rows as [|[[section_id ds] state] rows IH]; intros acc pc ec el Hel Hlen.
  - cbn. by rewrite app_nil_r, !N.add_0_r.
  - cbn [try_fold describe_section map concat row_pages fst snd] in *.
    unfold encoded_total, entry_total, len in *. rewrite total_of_app, length_app in *.
    fold (encoded_total ds) in *. rewrite checked_fold by lia. cbn [and_then]. rewrite N.add_0_l.
    rewrite checked_add_fits by lia. cbn [ok_or and_then].
    unfold u32_try_from. rewrite (proj2 (N.leb_le _ u32_max)) by lia. cbn [and_then].
    rewrite IH by lia. rewrite <- app_assoc. cbn [app].
    rewrite total_of_app. apply f_equal, f_equal2; [done|].
    apply f_equal2; [apply f_equal2|]; unfold encoded_total; lia.
Qed.

(** ** What the receiver of the pages reads *)

Definition page_characters (p : Page.t) : list CloudCharacterEntry.t :=
  match Page.payload p with Some (Payload.Character l) => l | _ => [] end.
Definition page_inventory (p : Page.t) : list CloudInventoryEntry.t :=
  match Page.payload p with Some (Payload.Inventory l) => l | _ => [] end.
Definition page_equipment (p : Page.t) : list CloudEquipmentEntry.t :=
  match Page.payload p with Some (Payload.Equipment l) => l | _ => [] end.
Definition page_pals (p : Page.t) : list CloudPalEntry.t :=
  match Page.payload p with Some (Payload.Pals l) => l | _ => [] end.
Definition page_bases (p : Page.t) : list CloudBaseEntry.t :=
  match Page.payload p with Some (Payload.Bases l) => l | _ => [] end.
Definition page_progression (p : Page.t) : list CloudProgressionUnlock.t :=
  match Page.payload p with Some (Payload.Progression l) => l | _ => [] end.

Lemma pages_read {T B} id section (build : list T → Payload.t) (read : Page.t → list B) (g : list T → list B) chunks :
  (∀ i c, read (page_at id section build i c) = g c) →
  flat_map read (pages_of id section build chunks) = concat (map g chunks).
Proof.
  intros Hg. unfold pages_of. generalize 0%nat as n.
  assert (∀ k, flat_map read (imap (λ i, page_at id section build (N.of_nat (k + i))) chunks) = concat (map g chunks)) as H.
  { induction chunks as [|c chunks IH]; intros k; [done|]. cbn. rewrite Hg. f_equal. rewrite <- (IH (S k)).
    f_equal. apply imap_ext. intros i x _. cbn. by rewrite Nat.add_succ_r. }
  intros _. apply (H 0%nat).
Qed.

Lemma concat_nils {T B} (chunks : list (list T)) : concat (map (λ _, @nil B) chunks) = [].
Proof. by induction chunks. Qed.

Lemma pages_own {msgs : Messages} {T} id section (build : list T → Payload.t) (read : Page.t → list T) entries chunks :
  (∀ i c, read (page_at id section build i c) = c) → paged id section build entries chunks →
  flat_map read (pages_of id section build chunks) = entries.
Proof. intros Hr H. rewrite (pages_read _ _ _ read (λ c, c)), map_id by done. apply H. Qed.

Lemma pages_other {T B} id section (build : list T → Payload.t) (read : Page.t → list B) chunks :
  (∀ i c, read (page_at id section build i c) = []) → flat_map read (pages_of id section build chunks) = [].
Proof. intros Hr. rewrite (pages_read _ _ _ read (λ _, [])) by done. apply concat_nils. Qed.

(** ** Properties *)

Section properties.
Context {msgs : Messages} (sha256 : bytes → bytes).

(** The six sections of a canonical profile, divided into pages. *)
Record Division := mkDivision {
  by_character : list (list CloudCharacterEntry.t);
  by_inventory : list (list CloudInventoryEntry.t);
  by_equipment : list (list CloudEquipmentEntry.t);
  by_pals : list (list CloudPalEntry.t);
  by_bases : list (list CloudBaseEntry.t);
  by_progression : list (list CloudProgressionUnlock.t);
}.

Definition division_pages (id : bytes) (d : Division) : list Page.t :=
  pages_of id ProjectionSectionKind.Character Payload.Character (by_character d)
  ++ pages_of id ProjectionSectionKind.Inventory Payload.Inventory (by_inventory d)
  ++ pages_of id ProjectionSectionKind.Equipment Payload.Equipment (by_equipment d)
  ++ pages_of id ProjectionSectionKind.Pals Payload.Pals (by_pals d)
  ++ pages_of id ProjectionSectionKind.Bases Payload.Bases (by_bases d)
  ++ pages_of id ProjectionSectionKind.Progression Payload.Progression (by_progression d).

Definition division_descriptors (id : bytes) (d : Division) : list (list PageDescriptor.t) :=
  [descriptors_of sha256 id ProjectionSectionKind.Character Payload.Character character_key (by_character d);
   descriptors_of sha256 id ProjectionSectionKind.Inventory Payload.Inventory inventory_stable_key (by_inventory d);
   descriptors_of sha256 id ProjectionSectionKind.Equipment Payload.Equipment equipment_stable_key (by_equipment d);
   descriptors_of sha256 id ProjectionSectionKind.Pals Payload.Pals CloudPalEntry.pal_instance_id (by_pals d);
   descriptors_of sha256 id ProjectionSectionKind.Bases Payload.Bases CloudBaseEntry.base_id (by_bases d);
   descriptors_of sha256 id ProjectionSectionKind.Progression Payload.Progression progression_stable_key (by_progression d)].

Definition divides (id : bytes) (k : CloudProfileContent.t) (d : Division) : Prop :=
  ∃ ch i e p b g, profile_sections k ch i e p b g ∧
  paged id ProjectionSectionKind.Character Payload.Character (option_list (CloudCharacterContent.character ch)) (by_character d) ∧
  paged id ProjectionSectionKind.Inventory Payload.Inventory (CloudInventoryContent.entries i) (by_inventory d) ∧
  paged id ProjectionSectionKind.Equipment Payload.Equipment (CloudEquipmentContent.entries e) (by_equipment d) ∧
  paged id ProjectionSectionKind.Pals Payload.Pals (CloudPalContent.entries p) (by_pals d) ∧
  paged id ProjectionSectionKind.Bases Payload.Bases (CloudBaseContent.entries b) (by_bases d) ∧
  paged id ProjectionSectionKind.Progression Payload.Progression (CloudProgressionContent.entries g) (by_progression d).

(** The states of the sections of a valid profile are present. *)
Definition section_states (ch : CloudCharacterContent.t) (i : CloudInventoryContent.t) (e : CloudEquipmentContent.t)
    (p : CloudPalContent.t) (b : CloudBaseContent.t) (g : CloudProgressionContent.t) : list (option ProjectionSectionState.t) :=
  [CloudCharacterContent.state ch; CloudInventoryContent.state i; CloudEquipmentContent.state e; CloudPalContent.state p;
   CloudBaseContent.state b; CloudProgressionContent.state g].

(** The number of entries of a profile. *)
Definition entry_count (ch : CloudCharacterContent.t) (i : CloudInventoryContent.t) (e : CloudEquipmentContent.t)
    (p : CloudPalContent.t) (b : CloudBaseContent.t) (g : CloudProgressionContent.t) : N :=
  len (option_list (CloudCharacterContent.character ch)) + len (CloudInventoryContent.entries i)
  + len (CloudEquipmentContent.entries e) + len (CloudPalContent.entries p) + len (CloudBaseContent.entries b)
  + len (CloudProgressionContent.entries g).

Lemma states_present k ch i e p b g :
  profile_sections k ch i e p b g →
  ∃ s1 s2 s3 s4 s5 s6, section_states ch i e p b g = map Some [s1; s2; s3; s4; s5; s6] ∧
    len (CloudInventoryContent.entries i) ≤ u32_max ∧ len (CloudEquipmentContent.entries e) ≤ u32_max ∧
    len (CloudPalContent.entries p) ≤ u32_max ∧ len (CloudBaseContent.entries b) ≤ u32_max ∧
    len (CloudProgressionContent.entries g) ≤ u32_max ∧ entry_count ch i e p b g ≤ u32_max.
Proof.
  intros [_ _ _ _ _ _ _ Vch Vi Ve Vp Vb Vg].
  apply and_then_ok in Vch as (s1 & H1%ok_or_ok & _).
  apply validate_inventory_exact in Vi as (Li & (s2 & H2 & _) & _).
  apply validate_equipment_exact in Ve as (Le & (s3 & H3 & _) & _).
  apply validate_pals_exact in Vp as (Lp & (s4 & H4 & _) & _).
  apply validate_bases_exact in Vb as (Lb & (s5 & H5 & _) & _).
  apply validate_progression_exact in Vg as (Lg & (s6 & H6 & _) & _).
  exists s1, s2, s3, s4, s5, s6. unfold section_states. rewrite H1, H2, H3, H4, H5, H6.
  unfold MAX_INVENTORY_ENTRIES, MAX_EQUIPMENT_ENTRIES, MAX_PAL_ENTRIES, MAX_BASE_ENTRIES, MAX_PROGRESSION_ENTRIES in *.
  assert (len (option_list (CloudCharacterContent.character ch)) ≤ 1)
    by (by destruct (CloudCharacterContent.character ch)).
  split; [done|]. unfold entry_count. int_lia.
Qed.

(** What the descriptors of a section say of its pages. *)
Lemma descriptors_pages {T} id section (build : list T → Payload.t) key chunks :
  length (descriptors_of sha256 id section build key chunks) = length (pages_of id section build chunks) ∧
  encoded_total (descriptors_of sha256 id section build key chunks) =
    foldr N.add 0 (map (λ p, len (encode_to_vec p)) (pages_of id section build chunks)).
Proof.
  unfold descriptors_of, pages_of, encoded_total. split; [by rewrite !length_imap|]. f_equal.
  etrans; [apply (fmap_imap _ PageDescriptor.encoded_length)|].
  etrans; [|symmetry; apply (fmap_imap _ (λ p, len (encode_to_vec p)))]. done.
Qed.

Lemma descriptors_entries {T} id section (build : list T → Payload.t) key entries chunks :
  paged id section build entries chunks →
  entry_total (descriptors_of sha256 id section build key chunks) = len entries.
Proof.
  intros [<- _ _ _]. unfold descriptors_of, entry_total, len.
  assert (∀ k, foldr N.add 0 (map PageDescriptor.entry_count
    (imap (λ i, descriptor_of sha256 id section build key (N.of_nat (k + i))) chunks)) = N.of_nat (length (concat chunks))) as H.
  { induction chunks as [|c chunks IH]; intros k; [done|].
    cbn. rewrite length_app, Nat2N.inj_add, <- (IH (S k)). unfold len. do 2 f_equal. f_equal.
    apply imap_ext. intros i x _. cbn. by rewrite Nat.add_succ_r. }
  apply (H 0%nat).
Qed.

Definition all_descriptors (id : bytes) (d : Division) : list PageDescriptor.t := concat (division_descriptors id d).

Lemma division_totals id d :
  len (all_descriptors id d) = len (division_pages id d) ∧
  encoded_total (all_descriptors id d) = foldr N.add 0 (map (λ p, len (encode_to_vec p)) (division_pages id d)).
Proof.
  unfold all_descriptors, division_descriptors, division_pages. cbn [concat].
  destruct (descriptors_pages id ProjectionSectionKind.Character Payload.Character character_key (by_character d)) as [L1 E1].
  destruct (descriptors_pages id ProjectionSectionKind.Inventory Payload.Inventory inventory_stable_key (by_inventory d)) as [L2 E2].
  destruct (descriptors_pages id ProjectionSectionKind.Equipment Payload.Equipment equipment_stable_key (by_equipment d)) as [L3 E3].
  destruct (descriptors_pages id ProjectionSectionKind.Pals Payload.Pals CloudPalEntry.pal_instance_id (by_pals d)) as [L4 E4].
  destruct (descriptors_pages id ProjectionSectionKind.Bases Payload.Bases CloudBaseEntry.base_id (by_bases d)) as [L5 E5].
  destruct (descriptors_pages id ProjectionSectionKind.Progression Payload.Progression progression_stable_key (by_progression d)) as [L6 E6].
  split; [unfold len; rewrite !length_app, L1, L2, L3, L4, L5, L6; cbn [length]; lia|].
  unfold encoded_total in *. rewrite !total_of_app, E1, E2, E3, E4, E5, E6. cbn [map foldr]. lia.
Qed.

(** An entry that exceeds the bound of a page by itself. *)
Definition oversized (id : bytes) (k : CloudProfileContent.t) (err : CanonicalError) : Prop :=
  ∃ ch i e p b g, profile_sections k ch i e p b g ∧
  (too_large id ProjectionSectionKind.Character Payload.Character character_key (option_list (CloudCharacterContent.character ch)) err ∨
   too_large id ProjectionSectionKind.Inventory Payload.Inventory inventory_stable_key (CloudInventoryContent.entries i) err ∨
   too_large id ProjectionSectionKind.Equipment Payload.Equipment equipment_stable_key (CloudEquipmentContent.entries e) err ∨
   too_large id ProjectionSectionKind.Pals Payload.Pals CloudPalEntry.pal_instance_id (CloudPalContent.entries p) err ∨
   too_large id ProjectionSectionKind.Bases Payload.Bases CloudBaseEntry.base_id (CloudBaseContent.entries b) err ∨
   too_large id ProjectionSectionKind.Progression Payload.Progression progression_stable_key (CloudProgressionContent.entries g) err).

(** The outcome of the division of [k] into pages. *)
Definition division_outcome (id : bytes) (ids : list SectionIdentity.t) (k : CloudProfileContent.t)
    (r : result PaginatedCloudProfile.t CanonicalError) : Prop :=
  match r with
  | Err err =>
      oversized id k err ∨
      ∃ d, divides id k d ∧
        ((MAX_PROJECTION_PAGE_COUNT < len (division_pages id d) ∧
            err = TooManyProjectionPages (len (division_pages id d)) MAX_PROJECTION_PAGE_COUNT) ∨
         (MAX_CANONICAL_CONTENT_LEN < encoded_total (all_descriptors id d) ∧
            err = ProjectionTransportTooLarge (encoded_total (all_descriptors id d)) MAX_CANONICAL_CONTENT_LEN))
  | Ok r =>
      ∃ d ch i e p b g states, divides id k d ∧ profile_sections k ch i e p b g ∧ section_states ch i e p b g = map Some states ∧
        len (division_pages id d) ≤ MAX_PROJECTION_PAGE_COUNT ∧
        encoded_total (all_descriptors id d) ≤ MAX_CANONICAL_CONTENT_LEN ∧
        r = PaginatedCloudProfile.mk (division_pages id d)
              (ProfileDescriptor.mk id 6 (len (division_pages id d)) (entry_count ch i e p b g)
                 (encoded_total (all_descriptors id d))
                 (map expected_section (zip (zip ids (division_descriptors id d)) states)))
  end.

Lemma divides_entries id k d ch i e p b g :
  divides id k d → profile_sections k ch i e p b g → entry_total (all_descriptors id d) = entry_count ch i e p b g.
Proof.
  intros (ch' & i' & e' & p' & b' & g' & [X1 X2 X3 X4 X5 X6 _ _ _ _ _ _ _] & H1 & H2 & H3 & H4 & H5 & H6)
    [Y1 Y2 Y3 Y4 Y5 Y6 _ _ _ _ _ _ _].
  simplify_eq. unfold all_descriptors, division_descriptors, entry_count. cbn [concat].
  apply (descriptors_entries _ _ _ character_key) in H1.
  apply (descriptors_entries _ _ _ inventory_stable_key) in H2.
  apply (descriptors_entries _ _ _ equipment_stable_key) in H3.
  apply (descriptors_entries _ _ _ CloudPalEntry.pal_instance_id) in H4.
  apply (descriptors_entries _ _ _ CloudBaseEntry.base_id) in H5.
  apply (descriptors_entries _ _ _ progression_stable_key) in H6.
  unfold entry_total in *. rewrite !total_of_app, H1, H2, H3, H4, H5, H6. cbn [map foldr]. lia.
Qed.

Lemma pages_fit {T} id section (build : list T → Payload.t) entries chunks :
  paged id section build entries chunks →
  Forall (λ p, len (encode_to_vec p) ≤ MAX_PROJECTION_PAGE_ENCODED_LEN) (pages_of id section build chunks).
Proof.
  intros [_ _ Hf _]. apply Forall_lookup. intros i p. unfold pages_of. rewrite list_lookup_imap.
  destruct (chunks !! i) as [c|] eqn:Hc; [|done]. intros [= <-]. by apply (Hf i c).
Qed.

Lemma division_fits id k d :
  divides id k d → Forall (λ p, len (encode_to_vec p) ≤ MAX_PROJECTION_PAGE_ENCODED_LEN) (division_pages id d).
Proof.
  intros (ch & i & e & p & b & g & _ & H1 & H2 & H3 & H4 & H5 & H6). unfold division_pages.
  rewrite !Forall_app. split_and!; by eapply pages_fit.
Qed.

Lemma division_bound id k d :
  divides id k d → encoded_total (all_descriptors id d) ≤ len (division_pages id d) * MAX_PROJECTION_PAGE_ENCODED_LEN.
Proof.
  intros H%division_fits. rewrite (proj2 (division_totals id d)). unfold len at 2.
  induction H as [|p l Hp _ IH]; [done|]. cbn [map foldr length]. lia.
Qed.

(** The pages of the next section: an entry that is too large, or chunks [c] with [P]. *)
Ltac section_pages kind build key L Hsec c P :=
  lazymatch goal with
  | |- context [paginate_entries ?sha ?id kind build key ?entries] =>
      let S := fresh in
      pose proof (paginate_entries_spec sha id kind build key entries L) as S;
      destruct (paginate_entries sha id kind build key entries) as [[? ?]|?]; cbn [and_then];
      [destruct S as (c & P & -> & ->)
      |left; eexists _, _, _, _, _, _; split; [exact Hsec|tauto]]
  end.

Lemma paginate_sections_spec id ids k ch i e p b g :
  profile_sections k ch i e p b g → length ids = 6%nat →
  division_outcome id ids k (paginate_sections sha256 k id ids).
Proof.
  intros Hsec Hids. pose proof Hsec as [Hch Hi He Hp Hb Hg _ _ _ _ _ _ _].
  destruct (states_present _ _ _ _ _ _ _ Hsec) as (s1 & s2 & s3 & s4 & s5 & s6 & Hst & Li & Le & Lp & Lb & Lg & Lall).
  unfold paginate_sections. rewrite Hch, Hi, He, Hp, Hb, Hg. cbn [required ok_or and_then].
  assert (len (option_list (CloudCharacterContent.character ch)) ≤ u32_max) as Lc
    by (by destruct (CloudCharacterContent.character ch)).
  section_pages ProjectionSectionKind.Character Payload.Character character_key Lc Hsec c1 P1.
  section_pages ProjectionSectionKind.Inventory Payload.Inventory inventory_stable_key Li Hsec c2 P2.
  section_pages ProjectionSectionKind.Equipment Payload.Equipment equipment_stable_key Le Hsec c3 P3.
  section_pages ProjectionSectionKind.Pals Payload.Pals CloudPalEntry.pal_instance_id Lp Hsec c4 P4.
  section_pages ProjectionSectionKind.Bases Payload.Bases CloudBaseEntry.base_id Lb Hsec c5 P5.
  section_pages ProjectionSectionKind.Progression Payload.Progression progression_stable_key Lg Hsec c6 P6.
  set (d := mkDivision c1 c2 c3 c4 c5 c6).
  assert (divides id k d) as Hd by (exists ch, i, e, p, b, g; done).
  change (pages_of id ProjectionSectionKind.Character Payload.Character c1 ++ _) with (division_pages id d).
  destruct (N.ltb_spec MAX_PROJECTION_PAGE_COUNT (len (division_pages id d))) as [Hmany|Hfew].
  { right. exists d. split; [done|]. by left. }
  unfold section_states in Hst. injection Hst as E1 E2 E3 E4 E5 E6.
  rewrite E1, E2, E3, E4, E5, E6. cbn [required ok_or and_then].
  lazymatch goal with |- context [zip (zip ids ?l) _] => change l with (division_descriptors id d) end.
  set (rows := zip (zip ids (division_descriptors id d)) [s1; s2; s3; s4; s5; s6]).
  assert (concat (map row_pages rows) = all_descriptors id d) as Hrows
    by (by do 7 (destruct ids as [|? ids]; try discriminate Hids)).
  pose proof (division_bound id k d Hd) as Hbound. pose proof (division_totals id d) as [Hlen _].
  rewrite describe_rows, Hrows, !N.add_0_l; cycle 1.
  { rewrite Hrows, N.add_0_l. unfold MAX_PROJECTION_PAGE_COUNT, MAX_PROJECTION_PAGE_ENCODED_LEN in *. int_lia. }
  { rewrite Hrows, Hlen. unfold MAX_PROJECTION_PAGE_COUNT in *. int_lia. }
  cbn [and_then app]. destruct (N.ltb_spec MAX_CANONICAL_CONTENT_LEN (encoded_total (all_descriptors id d))) as [Hbig|Hsmall].
  { right. exists d. split; [done|]. by right. }
  rewrite (divides_entries id k d ch i e p b g Hd Hsec), Hlen. unfold u32_try_from.
  rewrite !(proj2 (N.leb_le _ u32_max)); [|done|unfold MAX_PROJECTION_PAGE_COUNT in *; int_lia].
  cbn [and_then]. exists d, ch, i, e, p, b, g, [s1; s2; s3; s4; s5; s6].
  split; [done|split; [done|split; [|done]]]. unfold section_states. by rewrite E1, E2, E3, E4, E5, E6.
Qed.

Lemma identities_ok k ch i e p b g :
  profile_sections k ch i e p b g →
  ∃ ids, canonical_profile_section_identities sha256 k = Ok ids ∧ length ids = 6%nat.
Proof.
  intros Hsec. destruct (states_present _ _ _ _ _ _ _ Hsec) as (s1 & s2 & s3 & s4 & s5 & s6 & Hst & _).
  destruct Hsec as [Hch Hi He Hp Hb Hg _ _ _ _ _ _ _]. unfold section_states in Hst. injection Hst as E1 E2 E3 E4 E5 E6.
  unfold canonical_profile_section_identities. rewrite Hch, Hi, He, Hp, Hb, Hg. cbn [required ok_or and_then].
  rewrite E1, E2, E3, E4, E5, E6. cbn [required ok_or and_then]. by eexists.
Qed.

Lemma projection_id_ok c k :
  canonicalize_cloud_profile_sections c = Some (Ok k) → ∃ id, cloud_profile_projection_id sha256 c = Some (Ok id).
Proof.
  intros Hk. pose proof (canonicalize_profile_idemp _ _ Hk) as (ch & i & e & p & b & g & l & Hsec & _)%canonicalize_profile_ok.
  destruct (identities_ok _ _ _ _ _ _ _ Hsec) as (ids & Hids & _).
  unfold cloud_profile_projection_id, canonical_cloud_profile_projection_identity. rewrite Hk. cbn [mbind option_bind and_then].
  rewrite Hids. cbn [mbind option_bind and_then]. by eexists.
Qed.

Lemma division_named id d : Forall (λ page, Page.projection_id page = id) (division_pages id d).
Proof.
  assert (∀ T section (build : list T → Payload.t) chunks,
    Forall (λ page, Page.projection_id page = id) (pages_of id section build chunks)) as H.
  { intros T section build chunks. apply Forall_lookup. intros i page. unfold pages_of. rewrite list_lookup_imap.
    destruct (chunks !! i); [|done]. by intros [= <-]. }
  unfold division_pages. rewrite !Forall_app. by split_and!.
Qed.

(** The section of [H] is read from its own pages, and nothing from the others. *)
Ltac read_sections H :=
  rewrite (pages_own _ _ _ _ _ _ (λ _ _, eq_refl) H), ?pages_other by done;
  rewrite ?app_nil_r; reflexivity.

(** The outcomes of [paginate_cloud_profile]. *)
Lemma paginate_outcome c r :
  paginate_cloud_profile sha256 c = Some r →
  (∃ err, r = Err err ∧
    (reject_raw_oversized_entries c = Err err ∨ canonicalize_cloud_profile_sections c = Some (Err err))) ∨
  ∃ k id ids, canonicalize_cloud_profile_sections c = Some (Ok k) ∧ cloud_profile_projection_id sha256 c = Some (Ok id) ∧
    canonical_profile_section_identities sha256 k = Ok ids ∧ division_outcome id ids k r.
Proof.
  unfold paginate_cloud_profile. destruct (reject_raw_oversized_entries c) as [[]|err]; [|intros [= <-]; eauto].
  destruct (canonicalize_cloud_profile_sections c) as [[k|err]|] eqn:Hk; [|intros [= <-]; left; eauto|done].
  cbn [mbind option_bind]. destruct (projection_id_ok c k Hk) as [id Hid].
  rewrite (projection_id_canonical sha256 c k Hk), Hid. cbn [mbind option_bind and_then].
  pose proof (canonicalize_profile_idemp _ _ Hk) as (ch & i & e & p & b & g & l & Hsec & _)%canonicalize_profile_ok.
  destruct (identities_ok _ _ _ _ _ _ _ Hsec) as (ids & Hids & Hlen). rewrite Hids. cbn [and_then]. intros [= <-].
  right. exists k, id, ids. split; [done|split; [done|split; [done|]]]. by eapply paginate_sections_spec.
Qed.

Lemma paginate_total c : paginate_cloud_profile sha256 c ≠ None.
Proof.
  unfold paginate_cloud_profile. destruct (reject_raw_oversized_entries c) as [[]|err]; [|done].
  pose proof (canonicalize_total c) as Ht.
  destruct (canonicalize_cloud_profile_sections c) as [[k|err]|] eqn:Hk; [|done..]. cbn [mbind option_bind].
  destruct (projection_id_ok c k Hk) as [id Hid]. by rewrite (projection_id_canonical sha256 c k Hk), Hid.
Qed.

(** C9: the pages of a profile are exactly its canonical content. Unless the profile is
    rejected or an entry exceeds a page by itself, every section of the canonical content is
    cut, in order and without loss, into non-empty pages of at most 250 entries and 4 MiB, of
    which none could have taken one entry more; the pages are numbered from 0 in each section
    and carry the identity of the profile, and the descriptor lists index, size, digest, number
    of entries and first and last key of every page with the totals. Too many pages or bytes
    are reported as such; no other error arises, no counter overflows, and nothing panics. *)
Theorem cloud_pages_exact (c : CloudProfileContent.t) :
  match paginate_cloud_profile sha256 c with
  | None => False
  | Some r =>
      (∃ err, r = Err err ∧
        (reject_raw_oversized_entries c = Err err ∨ canonicalize_cloud_profile_sections c = Some (Err err))) ∨
      ∃ k id ids, canonicalize_cloud_profile_sections c = Some (Ok k) ∧ cloud_profile_projection_id sha256 c = Some (Ok id) ∧
        canonical_profile_section_identities sha256 k = Ok ids ∧ division_outcome id ids k r
  end.
Proof.
  pose proof (paginate_total c) as Ht. pose proof (paginate_outcome c) as Ho.
  destruct (paginate_cloud_profile sha256 c) as [r|]; [by apply Ho|done].
Qed.

(** C32: a receiver that joins the pages of a profile in their order reads back the canonical
    content, section by section; every page fits the bound of the transport and names the
    profile it belongs to. *)
Theorem pages_reassemble (c : CloudProfileContent.t) (r : PaginatedCloudProfile.t) :
  paginate_cloud_profile sha256 c = Some (Ok r) →
  ∃ k ch i e p b g, canonicalize_cloud_profile_sections c = Some (Ok k) ∧ profile_sections k ch i e p b g ∧
    flat_map page_characters (PaginatedCloudProfile.pages r) = option_list (CloudCharacterContent.character ch) ∧
    flat_map page_inventory (PaginatedCloudProfile.pages r) = CloudInventoryContent.entries i ∧
    flat_map page_equipment (PaginatedCloudProfile.pages r) = CloudEquipmentContent.entries e ∧
    flat_map page_pals (PaginatedCloudProfile.pages r) = CloudPalContent.entries p ∧
    flat_map page_bases (PaginatedCloudProfile.pages r) = CloudBaseContent.entries b ∧
    flat_map page_progression (PaginatedCloudProfile.pages r) = CloudProgressionContent.entries g ∧
    Forall (λ page, len (encode_to_vec page) ≤ MAX_PROJECTION_PAGE_ENCODED_LEN ∧
      Page.projection_id page = ProfileDescriptor.projection_id (PaginatedCloudProfile.descriptor r))
      (PaginatedCloudProfile.pages r).
Proof.
  intros [(err & [=] & _)|(k & id & ids & Hk & _ & _ & Ho)]%paginate_outcome.
  destruct Ho as (d & ch & i & e & p & b & g & states & Hd & Hsec & _ & _ & _ & ->). cbn [PaginatedCloudProfile.pages].
  exists k, ch, i, e, p, b, g. split; [done|split; [done|]].
  pose proof (division_fits _ _ _ Hd) as Hfits. pose proof (division_named id d) as Hnamed.
  destruct Hd as (ch' & i' & e' & p' & b' & g' & Hsec' & H1 & H2 & H3 & H4 & H5 & H6).
  destruct Hsec as [X1 X2 X3 X4 X5 X6 _ _ _ _ _ _ _], Hsec' as [Y1 Y2 Y3 Y4 Y5 Y6 _ _ _ _ _ _ _]. simplify_eq.
  split_and!; [..|by apply Forall_and]; unfold division_pages; rewrite !flat_map_app.
  - read_sections H1.
  - read_sections H2.
  - read_sections H3.
  - read_sections H4.
  - read_sections H5.
  - read_sections H6.
Qed.
End properties.

(** ** A witness *)

Definition demo_pages : PaginatedCloudProfile.t :=
  match paginate_cloud_profile (msgs := demo_messages) (λ m, m) demo_profile with
  | Some (Ok r) => r
  | _ => PaginatedCloudProfile.mk [] (ProfileDescriptor.mk [] 0 0 0 0 [])
  end.

Lemma pages_reassemble_witness :
  paginate_cloud_profile (msgs := demo_messages) (λ m, m) demo_profile = Some (Ok demo_pages) ∧
  flat_map page_inventory (PaginatedCloudProfile.pages demo_pages) =
    [CloudInventoryEntry.mk 1 1 3 "PalSphere" 12 (Some 99) (Some 2); CloudInventoryEntry.mk 1 2 8 "Berry" 20 None None] ∧
  ∃ k, canonicalize_cloud_profile_sections (msgs := demo_messages) demo_profile = Some (Ok k).
Proof.
  assert (paginate_cloud_profile (msgs := demo_messages) (λ m, m) demo_profile = Some (Ok demo_pages)) as H
    by (vm_compute; reflexivity).
  split; [exact H|]. split; [vm_compute; reflexivity|].
  destruct (pages_reassemble (msgs := demo_messages) (λ m, m) demo_profile demo_pages H) as (k & ? & ? & ? & ? & ? & ? & Hk & _).
  exists k. exact Hk.
Defined.
